(* ===== verification/_CoqProject ===== *)
-Q . S2P
Prelude.v
Psi.v
Pacing.v
Meter.v
Ring.v
RingSpec.v
RingCursor.v
Broker.v
Registry.v
Recovery.v
Upstream.v
Text.v
Hls.v
HlsSpec.v
HlsManifest.v
Process.v
Session.v
Viewer.v
Passive.v
Splice.v
SpliceSpec.v
SpliceTables.v
SpliceRun.v
SpliceContinuity.v
SpliceClock.v
Slate.v
SlateSpec.v
SlateRun.v
Probe.v
Sort.v
F32.v
Reconcile.v
M3u.v
M3uSpec.v
Playlist.v
Guide.v
Events.v
EventGuide.v
EventSpec.v
Artifact.v
Staging.v
Xmltv.v
XmltvSpec.v
Settings.v
Redact.v
Xtream.v
XtreamSpec.v
XtreamEndpoints.v
Ingest.v
Prepare.v
IngestSpec.v
Store.v
StoreSpec.v
Jobs.v
JobsSpec.v
Publish.v
PublishSpec.v
PublishExact.v
PublishRollback.v
PrepareSpec.v
IngestRun.v
IngestRunSpec.v
Sports.v
SportsClient.v
SportsSpec.v
ArtSpec.v
EventScan.v
EventScanSpec.v
Auth.v
AuthSpec.v
Witness.v
SlateWitness.v
CatalogWitness.v
HlsWitness.v
EventWitness.v
AuthWitness.v
IngestWitness.v
JobsWitness.v
PublishWitness.v
