(* ===== verification/Prelude.v ===== *)
(** * Verification of the IPTV relay

    The relay opens one upstream connection per channel and serves any number
    of viewers from it (the media plane).  Around it a catalogue plane reads the
    playlists and guides of the providers, publishes them as channels, matches
    sports events, and writes a playlist and a guide of its own; a job queue
    drives the refreshes, and an API authenticates who asks.

    ** The program and its model

    Every file names the source it models at its top; a file [XSpec] holds the
    theorems on the definitions of [X].

    The media plane, [crates/media/src]:

    - [psi.rs] reassembles PAT and PMT sections and finds restart points.
      [Psi]: [SectionAssembler], [PatPmtTracker], the table parsers, the CRC.
    - [pacing.rs] keeps the media time line of the PCRs and paces a viewer to
      it.  [Pacing]: [PcrTimeline], [ticks_at], [Pacer].
    - [meter.rs] measures bitrate and frame rate.  [Meter]: [RateMeter].
    - [ring.rs] is the shared ring of packets, with one writer and a cursor
      per viewer.  [Ring] is the code, [RingSpec] the abstract ring it
      implements, [RingCursor] what the cursors read.
    - [broker.rs] hands out the connection slots of a provider.  [Broker].
    - [registry.rs] makes concurrent viewers share one session.  [Registry].
    - [recovery.rs] has the recovery policy and the shared diagnostics.
      [Recovery].
    - [session.rs] runs a session.  [Upstream] is its data path (the
      packetizer, priming, publishing, keepalive packets), [Session] the
      supervising task with failover and recovery and the keys, [Viewer] the
      byte stream of a viewer and the session manager.
    - [passive.rs] reads codec, size and sample rate from the packets.
      [Passive]: the bit reader, the SPS and ADTS parsers, the analyzer.
    - [probe.rs] decides whether a stream is alive.  [Probe].
    - [slate.rs] shows a card while a channel starts and splices to live
      without a break.  [Splice] is the muxer [SplicedTransport], with
      [SpliceSpec] (its fields and invariant), [SpliceTables] (the tables it
      writes), [SpliceRun] (runs of segments), [SpliceContinuity] (counters) and
      [SpliceClock] (times); [Slate] is the profile, the encoder's arguments, the
      readiness of the viewer and the driver, with [SlateSpec] (its invariant)
      and [SlateRun] (runs of the driver over any inputs, and its errors).
    - [credential_broker.rs] keeps credentials away from the input processes.
      [Hls], with [HlsSpec] (the token table) and [HlsManifest] (rewritten
      manifests); [process.rs] supervises the processes: [Process].

    The catalogue plane, [crates/parsers], [crates/domain], [crates/ingest],
    [crates/persistence], [crates/sports] and [crates/api]:

    - [parsers/src/m3u.rs] reads a playlist: [M3u] over a reader that may cut
      its input anywhere, [M3uSpec] what a parse amounts to on the whole text
      and what its visitors see.  [xmltv.rs] reads a guide ([Xmltv], [XmltvSpec]),
      [xtream.rs] the answers of an Xtream server ([Xtream], [XtreamSpec]), which
      [ingest/src/xtream_endpoints.rs] asks for ([XtreamEndpoints]).
    - [ingest/src]: a source is downloaded ([artifact.rs], [Artifact]), its rows
      are staged ([model.rs], [Staging]), prepared ([pipeline.rs] and [parse.rs],
      [Ingest] and [Prepare], with [IngestSpec] and [PrepareSpec]), stored
      ([store.rs], [Store] and [StoreSpec]), all in the run of [IngestRun] with
      [IngestRunSpec].
    - [persistence/src/lib.rs] and [outbox.rs] are the job queue, with what the
      finalizer and the deletion of a source do to it: [Jobs] and [JobsSpec]; [Redact] is what is kept of errors and diagnostics.
    - [persistence/src/catalog.rs] publishes the catalogue of a staged snapshot
      and rolls back to a revision: [Publish], with [PublishSpec] (the invariant
      of runs, partitions and candidates), [PublishExact] (what is published) and
      [PublishRollback].
    - [domain/src/reconcile.rs] matches channels with guides: [Reconcile].
      [domain/src/config.rs] and [regions.rs]: [Settings].
    - [parsers/src/events.rs] and [domain/src/events.rs] recognise events in the
      names of streams and lay out their guides: [Events], [EventGuide],
      [EventSpec].  [persistence/src/event_scan.rs] and the scanner of
      [catalog.rs] apply them to all channels: [EventScan], [EventScanSpec].
    - [sports/src] finds the game of an event and its images: [Sports],
      [SportsClient], with [SportsSpec] and [ArtSpec].
    - [api/src/lib.rs] writes the public playlist and the gaps of the guide:
      [Playlist] and [Guide].  [api/src/auth.rs] decides who gets in: [Auth],
      [AuthSpec].
    - [Text] has the strings (lists of code points, UTF-8, trimming, addresses), [Sort] the
      stable sort of the standard library, [F32] its single floats.

    [Witness], [SlateWitness], [CatalogWitness], [HlsWitness], [EventWitness],
    [AuthWitness], [IngestWitness], [JobsWitness] and [PublishWitness] apply the
    theorems that have hypotheses at concrete inputs, and evaluate the examples
    of what the code does not promise.

    A session is composed as in the code: the pump of [Session] calls
    [prime_body] and [stream_until_failure] of [Upstream], which write to the
    [Ring] and to the [Diagnostics] of [Recovery]; it takes and drops slots
    with [try_acquire] and [lease_drop] of [Broker]; [Viewer] reads the ring
    with [try_next] and waits as [pacer_hold] of [Pacing] says; the ring feeds
    every packet to the tracker of [Psi], the time line and the [Meter].  The
    driver of [Slate] pushes slate and live packets through the muxer of
    [Splice], whose tables the parsers of [Psi] read back.  [Process] reads
    through the links of [Hls] and writes a [Ring].  The run of [IngestRun] reads
    with [Artifact], parses with [M3u], [Xmltv] or [Xtream], stages with
    [Staging] and hands over to [Store], whose staged snapshots [Publish]
    publishes on the tables of [Store] and [Jobs].  [EventScan] plans with
    [EventGuide] and asks [SportsClient].  [Playlist] proves the round trip of
    its writer with the parser of [M3u].

    ** How code is modelled

    A function of the source is a Rocq function on the same state: a [&mut
    self] method takes the record and returns it with its result, [Result] is
    [result], and a loop that is not structural has fuel.  Integers are [Z]
    with the wrap of the release profile written out ([wrap64], [sat_add],
    [checked]).  Instants are nanoseconds and are arguments.  A method that
    holds a lock is one step.  A method that wakes waiters also returns
    whether it does.  A task is a step function whose inputs are the answers
    it awaits and the actions of the other tasks; a theorem about all runs
    quantifies over lists of inputs, in any order, or over a step relation.
    [Arc] and [Weak] are explicit: allocations with counts and pending
    destructors in [Broker], a set of live sessions in [Registry].  A database
    transaction is a function on the tables that fails when a constraint of
    [migrations/] does not hold after a statement; connections fail at any call.
    Another component is used through what it promises: [BoundarySource] of
    [Psi] is the interface by which the ring and the priming loop rely on the
    tracker, [ring_refines] of [RingSpec] the one by which the pump relies on
    the ring, [JsonRows] of [Staging] what the rows need of their encoding,
    [Regexes] and [Chrono] of [Events] what the rules need of theirs.  A
    third-party function ([url::Url::parse], SHA-256, [quick-xml]'s events, the
    database's hash and collation) is a parameter of the definitions that call
    it.

    ** What is shown

    - Ring: it refines an append-only log of packets under every sequence of
      operations, errors included; a viewer receives runs of the stream that are
      contiguous or announced and that start at a PAT; no wake-up is lost.
    - Session: a recovery is a clean cut to a new generation; a session that
      ended is closed and holds no slot; everything received is published;
      priming starts at a PAT; every endpoint is tried; pacing only delays a
      viewer, by a bounded time.
    - Slate: across every splice the output has continuous counters, the
      same PIDs and stream types, and times that are the source's moved by
      one offset per segment and never overlap; the tables read back; the
      driver waits a bounded time.
    - Broker and registry: no oversubscription, single flight without stranded
      waiters, one session per key.
    - Tables, time and rates: section reassembly, the CRC round trip, exact
      unwrapping of the 33-bit clock, rates independent of the delivery pace.
    - Passive analysis and probe: the SPS parser returns the size the standard
      assigns; a probe has exactly the verdict that what it read settles.
    - Credential broker and processes: the token table refines a list of grants;
      a rewritten manifest has links only; the whole packets of a supervised
      process are published, its exit is the one its last event and its status
      decide; its slot outlives it.
    - Parsers: a parse does not depend on how its input is cut and accounts for
      every record; the written playlist reads back; time stamps read back.
    - Ingestion: a download is the body of the response; staged rows read back;
      keys are distinct; whatever fails, a source shows its old snapshot or a new
      one in full (the store refines a catalogue of published snapshots).
    - Jobs: the queue refines the life cycle of each job; leases are exclusive,
      attempts bounded, publication excludes cancellation short of the deletion of
      the source; redacted texts hold no URL, and after the keys that the rules
      name a mark in place of the value, if it has no quotes.
    - Publication: whatever the partitions and the order of the work, the
      channels and links of an account become exactly those of the snapshot, if
      no channel has taken an identifier of a new one; a roll-back restores what a
      revision captured.
    - Reconciliation, settings and guides: no ambiguous match is applied, the
      decision does not depend on the order of the candidates; placeholders
      fill the guide; schedules tile their window; every guide of a scan covers
      the present; the cache of compiled rules is invisible.
    - Sports: the best event is chosen, the circuit breaker opens and closes as
      configured, the directory of images stays within its limit.
    - Authentication: a session, token or bootstrap secret gets in exactly when
      it was issued, is in time and has the scope; a session lasts until then, and
      of its CSRF tokens only the last one given counts.

    ** Fuel

    [chunks_exact] takes the length of the slice, [pmt_streams_loop] and
    [pmt_walk_loop] the length of the section (a turn moves at least five
    bytes on), [from_pmt_loop] and [descriptor_tags_fuel] likewise,
    [pacer_hold_fuel] two turns (the second starts from a fresh anchor and
    returns), [ue_zeros] 32 turns (the code stops after 31 zeros),
    [skip_offsets] and [find_sps_loop] one turn per bit or byte left, which
    [skip_offsets_fuel_enough] and [find_sps_fuel_enough] show to be enough;
    [attributes_loop] one turn per character, [m3u_loop] one per buffered
    byte and one more, [gap_blocks] one per hour of the gap and two more;
    [attributes_from], [render_from], [replace_from] and the loops of
    [redact_error] one per character and one more, [decimal] twenty digits,
    [read_batches] one per row and one more; each is shown to be enough where
    the theorems use it.

    ** What is not modelled

    Sockets, HTTP headers, DNS and TLS (the HTTP client's answers are
    inputs); the operating system's processes; the text of errors and log
    lines.  Of the persistence crate the queries and edits that are one SQL
    statement each without an algorithm of their own, the deletion of a source
    beyond the tables of the queue, the reconciliation without partitions and the
    clean-up; of the API the routes, which call the
    persistence crate and serialize its rows, and the OpenID Connect exchange,
    which is a library; of the server its start-up and configuration.  The web
    application is TypeScript.  The async runtime is fair scheduling of the
    steps above. *)

From Stdlib Require Import ZArith Lia.
From stdpp Require Import base numbers option.
From stdpp Require Import list.
Open Scope Z_scope.

(** ** Machine integers

    Every Rust integer is a [Z].  The release profile does not set
    [overflow-checks], so the bare operators [+], [-], [*] and [<<] wrap at
    the width of their type; the wrap is written out with the [w*] operations
    below.  The checked and saturating methods of the standard library are
    written out the same way. *)

Definition u8_max : Z := 2 ^ 8 - 1.
Definition u16_max : Z := 2 ^ 16 - 1.
Definition u32_max : Z := 2 ^ 32 - 1.
Definition u64_max : Z := 2 ^ 64 - 1.
Definition u128_max : Z := 2 ^ 128 - 1.
Definition i64_max : Z := 2 ^ 63 - 1.
Definition i64_min : Z := - 2 ^ 63.

Definition is_u8 (z : Z) : Prop := 0 <= z < 2 ^ 8.
Definition is_u16 (z : Z) : Prop := 0 <= z < 2 ^ 16.
Definition is_u32 (z : Z) : Prop := 0 <= z < 2 ^ 32.
Definition is_u64 (z : Z) : Prop := 0 <= z < 2 ^ 64.

Definition wrap8 (z : Z) : Z := z mod 2 ^ 8.
Definition wrap32 (z : Z) : Z := z mod 2 ^ 32.
Definition wrap64 (z : Z) : Z := z mod 2 ^ 64.

(** [checked_add] / [checked_mul] / [checked_sub] with the bound of the type. *)
Definition checked (max z : Z) : option Z :=
  if (0 <=? z) && (z <=? max) then Some z else None.
(** [saturating_sub] of an unsigned type. *)
Definition sat_sub (a b : Z) : Z := Z.max 0 (a - b).
(** [saturating_add] of an unsigned type with the given maximum. *)
Definition sat_add (max a b : Z) : Z := Z.min max (a + b).
(** [saturating_mul] of an unsigned type with the given maximum. *)
Definition sat_mul (max a b : Z) : Z := Z.min max (a * b).

(** ** Byte strings and slices *)

(** A [&[u8]] or [Vec<u8>]. *)
Abbreviation bytes := (list Z).

(** [slice.len()] *)
Definition zlen {A} (l : list A) : Z := Z.of_nat (length l).
(** [slice[i]] on a byte slice.  Out of range the Rust code panics; every use
    below is guarded by a length test of the caller or by the fixed packet
    length, so the default is never observed by the code modelled here. *)
Definition byte_at (l : bytes) (i : Z) : Z := nth (Z.to_nat i) l 0.
(** [&slice[..n]], [&slice[n..]] *)
Definition ztake {A} (n : Z) (l : list A) : list A := take (Z.to_nat n) l.
Definition zdrop {A} (n : Z) (l : list A) : list A := drop (Z.to_nat n) l.
(** [&slice[a..b]] for a range known to be inside the slice. *)
Definition slice {A} (a b : Z) (l : list A) : list A := ztake (b - a) (zdrop a l).
(** [slice.get(a..b)] *)
Definition get_range {A} (a b : Z) (l : list A) : option (list A) :=
  if (a <=? b) && (b <=? zlen l) then Some (slice a b l) else None.
(** [slice.get(a..)] *)
Definition get_from {A} (a : Z) (l : list A) : option (list A) :=
  if a <=? zlen l then Some (zdrop a l) else None.
(** [slice.get(i)] *)
Definition zget {A} (l : list A) (i : Z) : option A :=
  if 0 <=? i then l !! Z.to_nat i else None.

(** [u16::from_be_bytes([hi, lo])], and the same expression written with
    shifts: [(u16::from(hi) << 8) | u16::from(lo)]. *)
Definition be16 (hi lo : Z) : Z := Z.lor (Z.shiftl hi 8) lo.
(** The 13-bit PID field of a transport packet or table entry. *)
Definition pid_of (hi lo : Z) : Z := be16 (Z.land hi 0x1f) lo.
(** The 12-bit length field of a table section. *)
Definition len12_of (hi lo : Z) : Z := be16 (Z.land hi 0x0f) lo.

(** [slice.chunks_exact(n)]: the whole chunks, the remainder is dropped. *)
Fixpoint chunks_exact_fuel (fuel : nat) (n : nat) (l : bytes) : list bytes :=
  match fuel with
  | O => []
  | S fuel =>
      if (length l <? n)%nat then []
      else take n l :: chunks_exact_fuel fuel n (drop n l)
  end.
Definition chunks_exact (n : Z) (l : bytes) : list bytes :=
  chunks_exact_fuel (length l) (Z.to_nat n) l.

Definition MPEG_TS_PACKET_SIZE : Z := 188.

(** A complete transport packet of bytes. *)
Definition is_packet (p : bytes) : Prop :=
  length p = Z.to_nat MPEG_TS_PACKET_SIZE /\ Forall is_u8 p.

(** ** Generic lemmas *)

Lemma is_packet_zlen p : is_packet p -> zlen p = MPEG_TS_PACKET_SIZE.
Proof. intros [Hl _]. unfold zlen. by rewrite Hl. Qed.

(** Every lemma a development file rewrites with to normalise lengths. *)
Create HintDb relay.

Lemma zlen_nonneg {A} (l : list A) : 0 <= zlen l.
Proof. unfold zlen. lia. Qed.

Lemma zlen_app {A} (l k : list A) : zlen (l ++ k) = zlen l + zlen k.
Proof. unfold zlen. rewrite length_app. lia. Qed.

Lemma zlen_ztake {A} (n : Z) (l : list A) : zlen (ztake n l) = Z.min (Z.max 0 n) (zlen l).
Proof. unfold zlen, ztake. rewrite length_take. lia. Qed.

Lemma zlen_zdrop {A} (n : Z) (l : list A) : zlen (zdrop n l) = Z.max 0 (zlen l - Z.max 0 n).
Proof. unfold zlen, zdrop. rewrite length_drop. lia. Qed.

Lemma zlen_cons {A} (x : A) (l : list A) : zlen (x :: l) = 1 + zlen l.
Proof. unfold zlen. cbn [length]. lia. Qed.

Lemma zlen_nil {A} : zlen (@nil A) = 0.
Proof. reflexivity. Qed.

Lemma zlen_snoc {A} (l : list A) (x : A) : zlen (l ++ [x]) = zlen l + 1.
Proof. by rewrite zlen_app. Qed.

#[export] Hint Rewrite @zlen_app @zlen_ztake @zlen_zdrop @zlen_cons @zlen_nil : relay.

(** Normalise lengths, then decide; all length facts are non-negative. *)
Ltac zlen_facts :=
  repeat match goal with
  | |- context [zlen ?l] =>
      lazymatch goal with
      | _ : 0 <= zlen l |- _ => fail
      | _ => pose proof (zlen_nonneg l)
      end
  | _ : context [zlen ?l] |- _ =>
      lazymatch goal with
      | _ : 0 <= zlen l |- _ => fail
      | _ => pose proof (zlen_nonneg l)
      end
  end.
Ltac zlia := autorewrite with relay in *; zlen_facts; lia.

(** Case analysis on the boolean tests of the code, with [lia] to discard the
    impossible branches. *)
Ltac case_tests :=
  repeat (case_match; try (exfalso; lia); try discriminate; simplify_eq/=).

Lemma get_range_Some {A} (a b : Z) (l s : list A) :
  get_range a b l = Some s -> a <= b <= zlen l /\ s = slice a b l.
Proof. unfold get_range. case_match; [|done]. intros [= <-]. split; [lia|done]. Qed.

Lemma zlen_slice {A} (a b : Z) (l : list A) :
  0 <= a <= b -> b <= zlen l -> zlen (slice a b l) = b - a.
Proof. intros. unfold slice. zlia. Qed.

Lemma checked_Some (max z : Z) : 0 <= z <= max -> checked max z = Some z.
Proof. intros. unfold checked. by rewrite (proj2 (andb_true_iff _ _)) by lia. Qed.

Lemma checked_inv (max z r : Z) : checked max z = Some r -> r = z /\ 0 <= z <= max.
Proof. unfold checked. case_match; [|done]. intros [= <-]. lia. Qed.

(** *** Bit fields *)

Lemma land_shiftl_low (a b n : Z) :
  0 <= n -> 0 <= b < 2 ^ n -> Z.land (Z.shiftl a n) b = 0.
Proof.
  intros Hn Hb. apply Z.bits_inj'. intros i Hi.
  rewrite Z.land_spec, Z.shiftl_spec, Z.bits_0 by lia.
  destruct (Z.ltb_spec i n).
  - by rewrite Z.testbit_neg_r by lia.
  - rewrite <- (Z.mod_small b (2 ^ n)) by lia.
    rewrite Z.mod_pow2_bits_high by lia. apply andb_false_r.
Qed.

(** A field built with [<<] and [|] is an arithmetic sum. *)
Lemma lor_shiftl_add (a b n : Z) :
  0 <= n -> 0 <= b < 2 ^ n -> Z.lor (Z.shiftl a n) b = a * 2 ^ n + b.
Proof.
  intros Hn Hb. pose proof (land_shiftl_low a b n Hn Hb) as Hl.
  rewrite <- Z.lxor_lor by done. rewrite <- Z.add_nocarry_lxor by done.
  by rewrite Z.shiftl_mul_pow2 by lia.
Qed.

Lemma land_mask (a n : Z) : 0 <= n -> Z.land a (2 ^ n - 1) = a mod 2 ^ n.
Proof. intros. rewrite <- Z.land_ones by lia. f_equal. rewrite Z.ones_equiv. lia. Qed.

Lemma be16_eq (hi lo : Z) : is_u8 lo -> be16 hi lo = hi * 256 + lo.
Proof. intros H. unfold be16. by rewrite lor_shiftl_add by (unfold is_u8 in H; lia). Qed.

Lemma pid_of_eq (hi lo : Z) : is_u8 lo -> pid_of hi lo = hi mod 32 * 256 + lo.
Proof.
  intros H. unfold pid_of. rewrite be16_eq by done. change 0x1f with (2 ^ 5 - 1).
  by rewrite land_mask by lia.
Qed.

Lemma len12_of_eq (hi lo : Z) : is_u8 lo -> len12_of hi lo = hi mod 16 * 256 + lo.
Proof.
  intros H. unfold len12_of. rewrite be16_eq by done. change 0x0f with (2 ^ 4 - 1).
  by rewrite land_mask by lia.
Qed.

Lemma pid_of_bound (hi lo : Z) : is_u8 lo -> 0 <= pid_of hi lo < 2 ^ 13.
Proof.
  intros H. rewrite pid_of_eq by done. unfold is_u8 in H.
  pose proof (Z.mod_pos_bound hi 32). lia.
Qed.

Lemma len12_of_bound (hi lo : Z) : is_u8 lo -> 0 <= len12_of hi lo < 2 ^ 12.
Proof.
  intros H. rewrite len12_of_eq by done. unfold is_u8 in H.
  pose proof (Z.mod_pos_bound hi 16). lia.
Qed.

Lemma byte_at_u8 (l : bytes) (i : Z) : Forall is_u8 l -> is_u8 (byte_at l i).
Proof.
  intros H. unfold byte_at.
  destruct (nth_in_or_default (Z.to_nat i) l 0) as [Hin | ->]; [|unfold is_u8; lia].
  apply list_elem_of_In in Hin. by eapply Forall_forall in Hin.
Qed.

Lemma Forall_ztake {A} (P : A -> Prop) (n : Z) (l : list A) : Forall P l -> Forall P (ztake n l).
Proof. apply Forall_take. Qed.

Lemma Forall_zdrop {A} (P : A -> Prop) (n : Z) (l : list A) : Forall P l -> Forall P (zdrop n l).
Proof. apply Forall_drop. Qed.

#[export] Hint Resolve byte_at_u8 Forall_ztake Forall_zdrop : relay.

Lemma sat_sub_ge (a b : Z) : b <= a -> sat_sub a b = a - b.
Proof. unfold sat_sub. lia. Qed.

(** A number whose bits end below [n] fits in [n] bits, and conversely. *)
Lemma bits_bound (a n : Z) :
  0 <= n -> (forall i, n <= i -> Z.testbit a i = false) -> 0 <= a < 2 ^ n.
Proof.
  intros Hn Ha. assert (a = a mod 2 ^ n) as ->; [|apply Z.mod_pos_bound; lia].
  apply Z.bits_inj'. intros i Hi. destruct (Z.ltb_spec i n).
  - by rewrite Z.mod_pow2_bits_low by lia.
  - by rewrite Z.mod_pow2_bits_high, Ha by lia.
Qed.

Lemma bits_above (a n i : Z) : 0 <= a < 2 ^ n -> 0 <= n <= i -> Z.testbit a i = false.
Proof.
  intros Ha Hi. rewrite <- (Z.mod_small a (2 ^ n)) by lia. by rewrite Z.mod_pow2_bits_high by lia.
Qed.

Lemma lxor_bound (a b n : Z) :
  0 <= n -> 0 <= a < 2 ^ n -> 0 <= b < 2 ^ n -> 0 <= Z.lxor a b < 2 ^ n.
Proof.
  intros Hn Ha Hb. apply bits_bound; [done|]. intros i Hi.
  by rewrite Z.lxor_spec, (bits_above a n), (bits_above b n) by lia.
Qed.

Lemma lor_bound (a b n : Z) :
  0 <= n -> 0 <= a < 2 ^ n -> 0 <= b < 2 ^ n -> 0 <= Z.lor a b < 2 ^ n.
Proof.
  intros Hn Ha Hb. apply bits_bound; [done|]. intros i Hi.
  by rewrite Z.lor_spec, (bits_above a n), (bits_above b n) by lia.
Qed.

Lemma land_bound (a b n : Z) : 0 <= n -> 0 <= b < 2 ^ n -> 0 <= Z.land a b < 2 ^ n.
Proof.
  intros Hn Hb. apply bits_bound; [done|]. intros i Hi.
  by rewrite Z.land_spec, (bits_above b n), andb_false_r by lia.
Qed.

(** [u32::to_be_bytes] *)
Definition to_be_bytes32 (c : Z) : bytes :=
  [Z.land (Z.shiftr c 24) 0xff; Z.land (Z.shiftr c 16) 0xff;
   Z.land (Z.shiftr c 8) 0xff; Z.land c 0xff].

(** ** Results *)

(** [Result<A, E>] *)
Inductive result (A E : Type) : Type :=
| Ok (value : A)
| Err (error : E).
Arguments Ok {A E}.
Arguments Err {A E}.

Definition result_bind {A B E} (r : result A E) (k : A -> result B E) : result B E :=
  match r with Ok x => k x | Err e => Err e end.
(** [option.ok_or(e)] *)
Definition ok_or {A E} (o : option A) (e : E) : result A E :=
  match o with Some x => Ok x | None => Err e end.

Declare Scope relay_scope.
Delimit Scope relay_scope with relay.
(** The [?] operator. *)
Notation "'try' x <- c1 ; c2" := (result_bind c1 (fun x => c2))
  (at level 60, x name, c1 at next level, right associativity) : relay_scope.

(** ** Whole-packet chunks *)

Lemma chunks_fuel_enough fuel k n l :
  (0 < n)%nat -> (length l <= fuel)%nat ->
  chunks_exact_fuel (fuel + k) n l = chunks_exact_fuel fuel n l.
Proof.
  intros Hn. revert l. induction fuel as [|fuel IH]; intros l Hl; cbn [chunks_exact_fuel Nat.add].
  - destruct l; [|cbn in Hl; lia]. destruct k; cbn; [done|]. by destruct n; [lia|].
  - destruct (length l <? n)%nat eqn:E; [done|]. f_equal. apply IH.
    rewrite length_drop. apply Nat.ltb_ge in E. lia.
Qed.

(** [chunks_exact] by its defining equation. *)
Lemma chunks_exact_cons n l :
  0 < n -> n <= zlen l -> chunks_exact n l = ztake n l :: chunks_exact n (zdrop n l).
Proof.
  intros Hn Hl. unfold chunks_exact, zlen in *. destruct l as [|x l]; [cbn in Hl; lia|].
  cbn [length chunks_exact_fuel].
  rewrite (proj2 (Nat.ltb_ge _ _)) by (cbn [length] in Hl; lia).
  unfold ztake, zdrop. f_equal.
  pose proof (chunks_fuel_enough (length (drop (Z.to_nat n) (x :: l)))
    (Z.to_nat n - 1) (Z.to_nat n) (drop (Z.to_nat n) (x :: l))) as H.
  rewrite length_drop in *. cbn [length] in *.
  replace (S (length l) - Z.to_nat n + (Z.to_nat n - 1))%nat with (length l) in H by lia.
  apply H; lia.
Qed.

Lemma chunks_exact_short n l : 0 < n -> zlen l < n -> chunks_exact n l = [].
Proof.
  intros Hn Hl. unfold chunks_exact, zlen in *. destruct l as [|x l]; [done|].
  cbn [length chunks_exact_fuel]. by rewrite (proj2 (Nat.ltb_lt _ _)) by (cbn [length] in Hl; lia).
Qed.

(** Induction on the number of whole chunks. *)
Lemma chunks_ind (n : Z) (Hn : 0 < n) (P : bytes -> Prop) :
  (forall l, zlen l < n -> P l) ->
  (forall l, n <= zlen l -> P (zdrop n l) -> P l) -> forall l, P l.
Proof.
  intros Hs Hl l. remember (length l) as k eqn:Hk. revert l Hk.
  induction k as [k IH] using lt_wf_ind. intros l ->.
  destruct (decide (zlen l < n)) as [|Hge]; [auto|].
  apply Hl; [lia|]. eapply IH; [|done]. unfold zdrop, zlen in *. rewrite length_drop. lia.
Qed.

Lemma ztake_zdrop {A} (n : Z) (l : list A) : ztake n l ++ zdrop n l = l.
Proof. apply take_drop. Qed.

Lemma chunks_exact_concat n l :
  0 < n -> zlen l mod n = 0 -> concat (chunks_exact n l) = l.
Proof.
  intros Hn. induction l as [l Hs|l Hl IH] using (chunks_ind n Hn); intros Hm.
  - rewrite chunks_exact_short by done.
    rewrite Z.mod_small in Hm by (zlen_facts; lia). by destruct l; [|autorewrite with relay in Hm; zlen_facts; lia].
  - rewrite chunks_exact_cons by done. cbn. rewrite IH; [apply ztake_zdrop|].
    autorewrite with relay. rewrite !Z.max_r by lia.
    rewrite <- (Z.mod_add _ 1 n) by lia. replace (zlen l - n + 1 * n) with (zlen l) by lia. done.
Qed.

Lemma chunks_exact_length n l : 0 < n -> zlen (chunks_exact n l) = zlen l / n.
Proof.
  intros Hn. induction l as [l Hs|l Hl IH] using (chunks_ind n Hn).
  - rewrite chunks_exact_short by done. rewrite Z.div_small by (zlen_facts; lia). done.
  - rewrite chunks_exact_cons, zlen_cons, IH by done. autorewrite with relay.
    rewrite !Z.max_r by lia. replace (zlen l) with (zlen l - n + 1 * n) at 2 by lia.
    rewrite Z.div_add by lia. lia.
Qed.

Lemma chunks_exact_all n l : 0 < n -> Forall (fun c => zlen c = n) (chunks_exact n l).
Proof.
  intros Hn. induction l as [l Hs|l Hl IH] using (chunks_ind n Hn).
  - by rewrite chunks_exact_short.
  - rewrite chunks_exact_cons by done. constructor; [zlia|done].
Qed.

Lemma chunks_exact_u8 n l : 0 < n -> Forall is_u8 l -> Forall (Forall is_u8) (chunks_exact n l).
Proof.
  intros Hn. induction l as [l Hs|l Hl IH] using (chunks_ind n Hn); intros Hu.
  - by rewrite chunks_exact_short.
  - rewrite chunks_exact_cons by done. constructor; auto with relay.
Qed.

(** Chunking distributes over a concatenation at a packet boundary. *)
Lemma chunks_exact_app n l k :
  0 < n -> zlen l mod n = 0 -> chunks_exact n (l ++ k) = chunks_exact n l ++ chunks_exact n k.
Proof.
  intros Hn. induction l as [l Hs|l Hl IH] using (chunks_ind n Hn); intros Hm.
  - rewrite Z.mod_small in Hm by (zlen_facts; lia).
    destruct l; [done|]. autorewrite with relay in Hm. zlen_facts. lia.
  - rewrite (chunks_exact_cons n (l ++ k)), (chunks_exact_cons n l) by (done || zlia).
    cbn. assert (ztake n (l ++ k) = ztake n l /\ zdrop n (l ++ k) = zdrop n l ++ k) as [-> ->].
    { unfold ztake, zdrop, zlen in *. rewrite take_app_le, drop_app_le by lia. done. }
    f_equal. apply IH. autorewrite with relay. rewrite !Z.max_r by lia.
    rewrite <- (Z.mod_add _ 1 n) by lia. replace (zlen l - n + 1 * n) with (zlen l) by lia. done.
Qed.

Lemma chunks_exact_packets data :
  Forall is_u8 data -> Forall is_packet (chunks_exact MPEG_TS_PACKET_SIZE data).
Proof.
  intros Hu. pose proof (chunks_exact_all MPEG_TS_PACKET_SIZE data ltac:(done)) as Hl.
  pose proof (chunks_exact_u8 MPEG_TS_PACKET_SIZE data ltac:(done) Hu) as Hb.
  rewrite Forall_forall in *. intros p Hp. split; [|auto].
  specialize (Hl p Hp). cbn in Hl. unfold zlen in Hl. lia.
Qed.

(** ** Overwriting part of a buffer *)

(** [buffer[offset..offset + data.len()].copy_from_slice(data)] for a range
    inside the buffer. *)
Definition splice {A} (offset : Z) (data buffer : list A) : list A :=
  ztake offset buffer ++ data ++ zdrop (offset + zlen data) buffer.

Lemma zlen_splice {A} (offset : Z) (data buffer : list A) :
  0 <= offset -> offset + zlen data <= zlen buffer -> zlen (splice offset data buffer) = zlen buffer.
Proof. intros. unfold splice. zlia. Qed.

Lemma slice_splice_same {A} (offset n : Z) (data buffer : list A) :
  0 <= offset -> offset + zlen data <= zlen buffer -> zlen data = n ->
  slice offset (offset + n) (splice offset data buffer) = data.
Proof.
  intros Ho Hl <-. unfold slice, splice, ztake, zdrop, zlen in *.
  rewrite drop_app_length' by (rewrite length_take; lia).
  rewrite take_app_length' by lia. done.
Qed.

Lemma slice_splice_other {A} (a offset n : Z) (data buffer : list A) :
  0 <= offset -> 0 <= a -> offset + zlen data <= zlen buffer ->
  a + n <= offset \/ offset + zlen data <= a ->
  slice a (a + n) (splice offset data buffer) = slice a (a + n) buffer.
Proof.
  intros Ho Ha Hl Hdis. unfold slice, splice, ztake, zdrop, zlen in *.
  apply list_eq. intros i. rewrite !lookup_take. case_decide as Hi; [|done].
  rewrite !lookup_drop.
  destruct Hdis as [Hb|Hb].
  - rewrite lookup_app_l by (rewrite length_take; lia). by rewrite lookup_take_lt by lia.
  - rewrite lookup_app_r by (rewrite length_take; lia). rewrite length_take.
    rewrite lookup_app_r by lia. rewrite lookup_drop. f_equal. lia.
Qed.

(** ** Rows of tables *)

Lemma elem_filtered {A} (p : A -> bool) x l : x ∈ List.filter p l <-> x ∈ l /\ p x = true.
Proof. by rewrite !list_elem_of_In, filter_In. Qed.
Lemma elem_mapped {A B} (f : A -> B) y l : y ∈ List.map f l <-> exists x, y = f x /\ x ∈ l.
Proof. rewrite list_elem_of_In, in_map_iff. setoid_rewrite list_elem_of_In. naive_solver. Qed.
Lemma kept_all {A} (p : A -> bool) (l : list A) : (forall x, p x = true) -> List.filter p l = l.
Proof. intros Hp. induction l as [|x l IH]; [done|]. cbn. by rewrite Hp, IH. Qed.

(** A key without duplicates has one row. *)
Lemma fmap_unique {A B} (f : A -> B) l x y : NoDup (f <$> l) -> x ∈ l -> y ∈ l -> f x = f y -> x = y.
Proof.
  intros Hnd [i Hi]%list_elem_of_lookup [j Hj]%list_elem_of_lookup Hf.
  assert ((f <$> l) !! i = Some (f x)) as H1 by (by rewrite list_lookup_fmap, Hi).
  assert ((f <$> l) !! j = Some (f x)) as H2 by (rewrite list_lookup_fmap, Hj; cbn; by rewrite Hf).
  assert (i = j) as -> by (by eapply NoDup_lookup). congruence.
Qed.
Lemma filtered_keys_NoDup {A B} (f : A -> B) (p : A -> bool) l : NoDup (f <$> l) -> NoDup (f <$> List.filter p l).
Proof.
  induction l as [|x l IH]; cbn; [done|]. intros [Hx Hl]%NoDup_cons. destruct (p x); cbn; [|by apply IH].
  apply NoDup_cons. split; [|by apply IH]. intros (y & Hy & [Hin _]%elem_filtered)%list_elem_of_fmap. apply Hx. rewrite Hy.
  by apply list_elem_of_fmap_2.
Qed.
