(* ===== verification/Psi.v ===== *)
(** * PSI inspection: finding safe PAT/PMT restart points

    Models [crates/media/src/psi.rs]: the transport packet header, the section
    assembler, the PAT and PMT parsers, the MPEG CRC and the tracker that
    reports the sequence number of a PAT once the PMT it references has been
    validated. *)
From Stdlib Require Import ZArith Lia.
From stdpp Require Import base numbers option.
From stdpp Require Import list sorting.
From S2P Require Import Prelude.
Open Scope Z_scope.

Definition PAT_PID : Z := 0.
Definition PAT_TABLE_ID : Z := 0x00.
Definition PMT_TABLE_ID : Z := 0x02.
Definition MAX_SECTION_BYTES : Z := 1024.

(** ** Transport packet header *)

Record PacketHeader := mkPacketHeader {
  ph_pid : Z;
  ph_payload_unit_start : bool;
  ph_continuity_counter : Z;
  ph_payload : bytes;
}.

Definition packet_header (packet : bytes) : option PacketHeader :=
  if negb (zlen packet =? MPEG_TS_PACKET_SIZE)
     || negb (byte_at packet 0 =? 0x47)
     || negb (Z.land (byte_at packet 1) 0x80 =? 0)
     || negb (Z.land (byte_at packet 3) 0xc0 =? 0)
  then None
  else
    let adaptation_control := Z.land (Z.shiftr (byte_at packet 3) 4) 0x03 in
    if (adaptation_control =? 0) || (adaptation_control =? 2) then None
    else
      payload_offset ←
        (if adaptation_control =? 3 then checked u64_max (5 + byte_at packet 4)
         else Some 4);
      if zlen packet <? payload_offset then None
      else Some {|
        ph_pid := pid_of (byte_at packet 1) (byte_at packet 2);
        ph_payload_unit_start := negb (Z.land (byte_at packet 1) 0x40 =? 0);
        ph_continuity_counter := Z.land (byte_at packet 3) 0x0f;
        ph_payload := zdrop payload_offset packet;
      |}.

(** ** Section assembly *)

Record SectionAssembler := mkSectionAssembler {
  sa_bytes : bytes;
  sa_expected_len : option Z;
  sa_start_sequence : option Z;
  sa_last_continuity_counter : option Z;
}.

(** [SectionAssembler::default()]; [clear] leaves the same value behind. *)
Definition sa_default : SectionAssembler := mkSectionAssembler [] None None None.
Definition sa_clear (a : SectionAssembler) : SectionAssembler := sa_default.

Record CompletedSection := mkCompletedSection {
  cs_bytes : bytes;
  cs_start_sequence : Z;
}.

(** The payload of this packet that belongs to the section, or the state at
    an early [return None]. *)
Definition sa_payload (a : SectionAssembler) (header : PacketHeader) (sequence : Z)
  : SectionAssembler + SectionAssembler * bytes :=
  if ph_payload_unit_start header then
    match ph_payload header with
    | [] => inl (sa_clear a)
    | pointer :: rest =>
        if zlen rest <? pointer then inl (sa_clear a)
        else inr (mkSectionAssembler [] None (Some sequence)
                    (Some (ph_continuity_counter header)),
                  zdrop pointer rest)
    end
  else
    match sa_start_sequence a with
    | None => inl a
    | Some _ =>
        if match sa_last_continuity_counter a with
           | None => true
           | Some previous =>
               negb (Z.land (wrap8 (previous + 1)) 0x0f =? ph_continuity_counter header)
           end
        then inl (sa_clear a)
        else inr (mkSectionAssembler (sa_bytes a) (sa_expected_len a)
                    (sa_start_sequence a) (Some (ph_continuity_counter header)),
                  ph_payload header)
    end.

(** Appends at most the bytes the section still needs. *)
Definition sa_extend (a : SectionAssembler) (payload : bytes) : SectionAssembler :=
  let remaining :=
    match sa_expected_len a with
    | None => MAX_SECTION_BYTES
    | Some expected => wrap64 (expected - zlen (sa_bytes a))
    end in
  mkSectionAssembler (sa_bytes a ++ ztake (Z.min (zlen payload) remaining) payload)
    (sa_expected_len a) (sa_start_sequence a) (sa_last_continuity_counter a).

(** Reads the section length once three bytes are present; [None] is the
    cleared early return for a length outside [4..=MAX_SECTION_BYTES]. *)
Definition sa_read_length (a : SectionAssembler) : option SectionAssembler :=
  match sa_expected_len a with
  | Some _ => Some a
  | None =>
      if 3 <=? zlen (sa_bytes a) then
        let expected := 3 + len12_of (byte_at (sa_bytes a) 1) (byte_at (sa_bytes a) 2) in
        if (4 <=? expected) && (expected <=? MAX_SECTION_BYTES) then
          Some (mkSectionAssembler (ztake expected (sa_bytes a)) (Some expected)
                  (sa_start_sequence a) (sa_last_continuity_counter a))
        else None
      else Some a
  end.

Definition sa_observe (a : SectionAssembler) (header : PacketHeader) (sequence : Z)
  : SectionAssembler * option CompletedSection :=
  match sa_payload a header sequence with
  | inl a => (a, None)
  | inr (a, payload) =>
      match sa_read_length (sa_extend a payload) with
      | None => (sa_clear a, None)
      | Some a =>
          match sa_expected_len a with
          | None => (a, None)
          | Some expected =>
              if zlen (sa_bytes a) <? expected then (a, None)
              else
                match sa_start_sequence a with
                | None => (a, None)
                | Some start_sequence =>
                    (sa_default, Some (mkCompletedSection (sa_bytes a) start_sequence))
                end
          end
      end
  end.

(** ** CRC *)

Definition crc_bit (crc : Z) : Z :=
  if negb (Z.land crc 0x80000000 =? 0)
  then Z.lxor (wrap32 (Z.shiftl crc 1)) 0x04c11db7
  else wrap32 (Z.shiftl crc 1).

Definition crc_byte (crc byte : Z) : Z :=
  Nat.iter 8 crc_bit (Z.lxor crc (Z.shiftl byte 24)).

Definition mpeg_crc32 (section : bytes) : Z := fold_left crc_byte section u32_max.

(** ** PAT and PMT sections *)

(** [chunks_exact(4).find_map(..)] over the program entries. *)
Definition pat_entry (entry : bytes) : option (Z * Z) :=
  let program_number := be16 (byte_at entry 0) (byte_at entry 1) in
  let pid := pid_of (byte_at entry 2) (byte_at entry 3) in
  if negb (program_number =? 0) && negb (pid =? 0) && negb (pid =? 0x1fff)
  then Some (program_number, pid) else None.

Fixpoint find_map {A B} (f : A -> option B) (l : list A) : option B :=
  match l with
  | [] => None
  | x :: l => match f x with Some y => Some y | None => find_map f l end
  end.

Definition parse_pat (section : bytes) : option (Z * Z) :=
  if (zlen section <? 16)
     || negb (byte_at section 0 =? PAT_TABLE_ID)
     || (Z.land (byte_at section 1) 0x80 =? 0)
     || (Z.land (byte_at section 5) 0x01 =? 0)
     || negb (mpeg_crc32 section =? 0)
  then None
  else
    last ← checked u64_max (zlen section - 4);
    entries ← get_range 8 last section;
    if negb (zlen entries mod 4 =? 0) then None
    else find_map pat_entry (chunks_exact 4 entries).

Record ElementaryStreamInfo := mkElementaryStreamInfo {
  es_stream_type : Z;
  es_pid : Z;
}.

(** The [while offset < streams_end] loop of [parse_pmt_elementary_streams].
    Each turn advances [offset] by at least five, so [zlen section] turns are
    enough ([pmt_streams_fuel_enough] below). *)
Fixpoint pmt_streams_loop (fuel : nat) (section : bytes) (streams_end offset : Z)
    (streams : list ElementaryStreamInfo) : option (list ElementaryStreamInfo) :=
  if offset <? streams_end then
    match fuel with
    | O => None
    | S fuel =>
        header ← get_range offset (sat_add u64_max offset 5) section;
        let stream_type := byte_at header 0 in
        let pid := pid_of (byte_at header 1) (byte_at header 2) in
        let es_info_length := len12_of (byte_at header 3) (byte_at header 4) in
        next ← (offset5 ← checked u64_max (offset + 5);
                checked u64_max (offset5 + es_info_length));
        if streams_end <? next then None
        else pmt_streams_loop fuel section streams_end next
               (streams ++ [mkElementaryStreamInfo stream_type pid])
    end
  else if negb (offset =? streams_end) then None
  else Some streams.

Definition parse_pmt_elementary_streams (section : bytes) (expected_program : Z)
  : option (list ElementaryStreamInfo) :=
  if (zlen section <? 16)
     || negb (byte_at section 0 =? PMT_TABLE_ID)
     || (Z.land (byte_at section 1) 0x80 =? 0)
     || (Z.land (byte_at section 5) 0x01 =? 0)
     || negb (be16 (byte_at section 3) (byte_at section 4) =? expected_program)
  then None
  else
    let program_info_length := len12_of (byte_at section 10) (byte_at section 11) in
    offset ← checked u64_max (12 + program_info_length);
    let streams_end := sat_sub (zlen section) 4 in
    if streams_end <? offset then None
    else pmt_streams_loop (length section) section streams_end offset [].

(** The same walk in [is_matching_pmt], which keeps no stream list. *)
Fixpoint pmt_walk_loop (fuel : nat) (section : bytes) (streams_end offset : Z) : bool :=
  if offset <? streams_end then
    match fuel with
    | O => false
    | S fuel =>
        match get_range offset (sat_add u64_max offset 5) section with
        | None => false
        | Some header =>
            let es_info_length := len12_of (byte_at header 3) (byte_at header 4) in
            match (offset5 ← checked u64_max (offset + 5);
                   checked u64_max (offset5 + es_info_length)) with
            | None => false
            | Some next =>
                if streams_end <? next then false
                else pmt_walk_loop fuel section streams_end next
            end
        end
    end
  else offset =? streams_end.

Definition is_matching_pmt (section : bytes) (expected_program : Z) : bool :=
  if (zlen section <? 16)
     || negb (byte_at section 0 =? PMT_TABLE_ID)
     || (Z.land (byte_at section 1) 0x80 =? 0)
     || (Z.land (byte_at section 5) 0x01 =? 0)
     || negb (be16 (byte_at section 3) (byte_at section 4) =? expected_program)
     || negb (mpeg_crc32 section =? 0)
  then false
  else
    let program_info_length := len12_of (byte_at section 10) (byte_at section 11) in
    match checked u64_max (12 + program_info_length) with
    | None => false
    | Some offset =>
        let streams_end := sat_sub (zlen section) 4 in
        if streams_end <? offset then false
        else pmt_walk_loop (length section) section streams_end offset
    end.

(** ** The tracker *)

Record PmtCandidate := mkPmtCandidate {
  pc_program_number : Z;
  pc_pid : Z;
  pc_pat_start_sequence : Z;
  pc_assembler : SectionAssembler;
}.

Record PatPmtTracker := mkPatPmtTracker {
  pt_pat : SectionAssembler;
  pt_candidate : option PmtCandidate;
  pt_last_pmt_section : option bytes;
  pt_last_program_number : option Z;
}.

Definition pt_default : PatPmtTracker := mkPatPmtTracker sa_default None None None.
(** [reset] assigns the default value. *)
Definition pt_reset (t : PatPmtTracker) : PatPmtTracker := pt_default.

(** First half of [observe]: the PAT assembler and a new candidate. *)
Definition pt_observe_pat (t : PatPmtTracker) (header : PacketHeader) (sequence : Z)
  : PatPmtTracker :=
  if ph_pid header =? PAT_PID then
    let '(pat, completed) := sa_observe (pt_pat t) header sequence in
    let candidate :=
      match completed with
      | None => pt_candidate t
      | Some section =>
          match parse_pat (cs_bytes section) with
          | None => pt_candidate t
          | Some (program_number, pid) =>
              Some (mkPmtCandidate program_number pid (cs_start_sequence section) sa_default)
          end
      end in
    mkPatPmtTracker pat candidate (pt_last_pmt_section t) (pt_last_program_number t)
  else t.

(** Second half of [observe]: the PMT of the candidate program. *)
Definition pt_observe_pmt (t : PatPmtTracker) (header : PacketHeader) (sequence : Z)
  : PatPmtTracker * option Z :=
  match pt_candidate t with
  | None => (t, None)
  | Some c =>
      if negb (ph_pid header =? pc_pid c) then (t, None)
      else
        let '(assembler, completed) := sa_observe (pc_assembler c) header sequence in
        let kept := mkPatPmtTracker (pt_pat t)
          (Some (mkPmtCandidate (pc_program_number c) (pc_pid c)
                   (pc_pat_start_sequence c) assembler))
          (pt_last_pmt_section t) (pt_last_program_number t) in
        match completed with
        | None => (kept, None)
        | Some section =>
            if negb (is_matching_pmt (cs_bytes section) (pc_program_number c))
            then (kept, None)
            else (mkPatPmtTracker (pt_pat t) None (Some (cs_bytes section))
                    (Some (pc_program_number c)),
                  Some (pc_pat_start_sequence c))
        end
  end.

Definition pt_observe (t : PatPmtTracker) (packet : bytes) (sequence : Z)
  : PatPmtTracker * option Z :=
  match packet_header packet with
  | None => (t, None)
  | Some header => pt_observe_pmt (pt_observe_pat t header sequence) header sequence
  end.

Definition candidate_start (t : PatPmtTracker) : option Z :=
  pc_pat_start_sequence <$> pt_candidate t.

Definition completed_pmt (t : PatPmtTracker) : option (bytes * Z) :=
  match pt_last_pmt_section t, pt_last_program_number t with
  | Some section, Some program => Some (section, program)
  | _, _ => None
  end.

Definition pcr_pid (t : PatPmtTracker) : option Z :=
  '(section, _) ← completed_pmt t;
  high ← zget section 8;
  low ← zget section 9;
  let pid := pid_of high low in
  if negb (pid =? 0x1fff) then Some pid else None.

(** ** Well-formedness of the assembler and the tracker *)

(** The declared length of a section whose first three bytes are present. *)
Definition declared_len (section : bytes) : Z :=
  3 + len12_of (byte_at section 1) (byte_at section 2).

(** What an idle or partly filled assembler holds: either fewer than three
    bytes and no length, or an accepted length, read from those bytes, and
    fewer bytes than that. *)
Definition sa_inv (a : SectionAssembler) : Prop :=
  Forall is_u8 (sa_bytes a) /\
  match sa_expected_len a with
  | None => zlen (sa_bytes a) < 3
  | Some expected =>
      4 <= expected <= MAX_SECTION_BYTES /\ 3 <= zlen (sa_bytes a) < expected /\
      expected = declared_len (sa_bytes a)
  end.

(** A section the assembler hands out: exactly as long as its header says. *)
Definition section_ok (section : bytes) : Prop :=
  Forall is_u8 section /\ 4 <= zlen section <= MAX_SECTION_BYTES /\
  zlen section = declared_len section.

Definition pt_inv (t : PatPmtTracker) : Prop :=
  sa_inv (pt_pat t) /\
  (forall c, pt_candidate t = Some c -> sa_inv (pc_assembler c) /\ pc_pid c <> PAT_PID) /\
  (forall s, pt_last_pmt_section t = Some s -> section_ok s).

Lemma sa_default_inv : sa_inv sa_default.
Proof. split; [constructor|]. cbn. unfold zlen. cbn. lia. Qed.

Lemma pt_default_inv : pt_inv pt_default.
Proof. repeat split; try done; apply sa_default_inv. Qed.

#[export] Hint Resolve sa_default_inv pt_default_inv : relay.

Lemma packet_header_u8 packet h :
  Forall is_u8 packet -> packet_header packet = Some h -> Forall is_u8 (ph_payload h).
Proof.
  intros Hu. unfold packet_header. case_match; [done|]. case_match; [done|].
  destruct (if _ =? 3 then _ else _) as [o|]; [|done]; cbn.
  case_match; [done|]. intros [= <-]. cbn. auto with relay.
Qed.

Lemma sa_payload_inv a h seq a' payload :
  sa_inv a -> Forall is_u8 (ph_payload h) ->
  sa_payload a h seq = inr (a', payload) ->
  sa_inv a' /\ Forall is_u8 payload /\
  sa_start_sequence a' = (if ph_payload_unit_start h then Some seq else sa_start_sequence a) /\
  is_Some (sa_start_sequence a').
Proof.
  intros Ha Hu. unfold sa_payload. case_match.
  - destruct (ph_payload h) as [|pointer rest]; [done|].
    inversion Hu; subst. case_match; [done|]. intros [= <- <-].
    split; [apply (sa_default_inv)|]. split; [auto with relay|]. by split.
  - destruct (sa_start_sequence a) eqn:Hs; [|done]. case_match; [done|].
    intros [= <- <-]. destruct Ha. by repeat split.
Qed.

Lemma sa_payload_inl_inv a h seq a' : sa_inv a -> sa_payload a h seq = inl a' -> sa_inv a'.
Proof.
  unfold sa_payload, sa_clear. intros Ha.
  repeat case_match; intros [= <-]; auto with relay.
Qed.

Lemma byte_at_take (l : bytes) (i n : Z) : 0 <= i < n -> byte_at (ztake n l) i = byte_at l i.
Proof.
  intros. unfold byte_at, ztake. rewrite !nth_lookup. by rewrite lookup_take_lt by lia.
Qed.

Lemma byte_at_app (l k : bytes) (i : Z) : 0 <= i < zlen l -> byte_at (l ++ k) i = byte_at l i.
Proof.
  intros. unfold byte_at, zlen in *. rewrite !nth_lookup. by rewrite lookup_app_l by lia.
Qed.

Lemma declared_len_app (l k : bytes) : 3 <= zlen l -> declared_len (l ++ k) = declared_len l.
Proof. intros. unfold declared_len. by rewrite !byte_at_app by lia. Qed.

Lemma declared_len_take (l : bytes) n : 3 <= n -> declared_len (ztake n l) = declared_len l.
Proof. intros. unfold declared_len. by rewrite !byte_at_take by lia. Qed.

(** The state between reading the length and testing for completion: as
    [sa_inv], except that the section may now be whole. *)
Definition sa_filled (a : SectionAssembler) : Prop :=
  Forall is_u8 (sa_bytes a) /\
  match sa_expected_len a with
  | None => zlen (sa_bytes a) < 3
  | Some expected =>
      4 <= expected <= MAX_SECTION_BYTES /\ 3 <= zlen (sa_bytes a) <= expected /\
      expected = declared_len (sa_bytes a)
  end.

Local Arguments sa_extend : simpl never.

Lemma sa_extend_bytes a payload :
  sa_inv a ->
  sa_bytes (sa_extend a payload) =
  sa_bytes a ++
  ztake (match sa_expected_len a with
         | None => MAX_SECTION_BYTES
         | Some expected => expected - zlen (sa_bytes a)
         end) payload.
Proof.
  intros [_ Ha]. unfold sa_extend. cbn. f_equal. unfold ztake.
  destruct (sa_expected_len a) as [e|].
  - unfold wrap64, MAX_SECTION_BYTES in *. rewrite Z.mod_small by (zlen_facts; lia).
    unfold zlen in *. destruct (decide (e - Z.of_nat (length (sa_bytes a)) <= Z.of_nat (length payload))).
    + f_equal. lia.
    + rewrite !take_ge by lia. done.
  - unfold zlen, MAX_SECTION_BYTES. destruct (decide (Z.of_nat (length payload) <= 1024)).
    + rewrite !take_ge by lia. done.
    + f_equal. lia.
Qed.

Lemma sa_read_length_start a a' :
  sa_read_length a = Some a' -> sa_start_sequence a' = sa_start_sequence a.
Proof. unfold sa_read_length. repeat case_match; by intros [= <-]. Qed.

Lemma sa_read_length_filled b b' :
  Forall is_u8 (sa_bytes b) ->
  (forall e, sa_expected_len b = Some e -> sa_filled b) ->
  sa_read_length b = Some b' -> sa_filled b'.
Proof.
  intros Hu He. unfold sa_read_length.
  destruct (sa_expected_len b) as [e|] eqn:Heq; [intros [= <-]; eauto|].
  fold (declared_len (sa_bytes b)). repeat case_match; try done; intros [= <-].
  - split; cbn; [auto with relay|]. rewrite declared_len_take by lia. zlia.
  - split; [done|]. rewrite Heq. lia.
Qed.

Lemma sa_extend_filled a payload e :
  sa_inv a -> Forall is_u8 payload -> sa_expected_len a = Some e ->
  sa_filled (sa_extend a payload).
Proof.
  intros Ha Hp He. pose proof (sa_extend_bytes a payload Ha) as Hb.
  destruct Ha as [Hu Ha]. rewrite He in Ha, Hb. destruct Ha as (H1 & H2 & H3).
  unfold sa_filled. change (sa_expected_len (sa_extend a payload)) with (sa_expected_len a).
  rewrite He, Hb. rewrite declared_len_app by lia.
  split; [apply Forall_app; auto with relay|]. zlia.
Qed.

Lemma sa_extend_u8 a payload :
  sa_inv a -> Forall is_u8 payload -> Forall is_u8 (sa_bytes (sa_extend a payload)).
Proof.
  intros Ha Hp. rewrite sa_extend_bytes by done. apply Forall_app.
  split; [apply Ha|auto with relay].
Qed.

(** One packet keeps the assembler well formed and only ever completes a
    section that is as long as it declares. *)
Lemma sa_observe_inv a h seq :
  sa_inv a -> Forall is_u8 (ph_payload h) ->
  sa_inv (fst (sa_observe a h seq)) /\
  forall s, snd (sa_observe a h seq) = Some s ->
    section_ok (cs_bytes s) /\ fst (sa_observe a h seq) = sa_default /\
    Some (cs_start_sequence s) =
      (if ph_payload_unit_start h then Some seq else sa_start_sequence a).
Proof.
  intros Ha Hu. unfold sa_observe.
  destruct (sa_payload a h seq) as [a1|[a1 payload]] eqn:E1.
  { split; [by eapply sa_payload_inl_inv|done]. }
  destruct (sa_payload_inv _ _ _ _ _ Ha Hu E1) as (Ha1 & Hp & Hst & Hsome).
  destruct (sa_read_length (sa_extend a1 payload)) as [a2|] eqn:E2;
    [|split; [apply sa_default_inv|done]].
  pose proof (sa_read_length_start _ _ E2) as Hs2.
  destruct (sa_read_length_filled _ _ (sa_extend_u8 _ _ Ha1 Hp)
    (fun e => sa_extend_filled _ _ e Ha1 Hp) E2) as [Hb Hf].
  destruct (sa_expected_len a2) as [e|] eqn:He.
  2: { split; [|done]. split; cbn; [done|]. by rewrite He. }
  destruct (zlen (sa_bytes a2) <? e) eqn:Hlt; cbn [fst snd].
  { split; [|done]. split; cbn; [done|]. rewrite He.
    destruct Hf as (? & ? & ?). repeat split; lia || done. }
  destruct Hsome as [s0 Hs0]. rewrite Hs2.
  change (sa_start_sequence (sa_extend a1 payload)) with (sa_start_sequence a1).
  rewrite Hs0. cbn [fst snd]. split; [apply sa_default_inv|]. intros s [= <-]. cbn.
  repeat split; [done|lia..|congruence].
Qed.

(** Where a section in progress started. *)
Lemma sa_observe_start a h seq s :
  sa_start_sequence (fst (sa_observe a h seq)) = Some s ->
  (ph_payload_unit_start h = true /\ s = seq) \/ sa_start_sequence a = Some s.
Proof.
  unfold sa_observe. destruct (sa_payload a h seq) as [a1|[a1 payload]] eqn:E1.
  { unfold sa_payload, sa_clear in E1. cbn. intros Hs.
    repeat case_match; simplify_eq/=; auto. }
  assert (sa_start_sequence a1 =
          if ph_payload_unit_start h then Some seq else sa_start_sequence a) as Hs.
  { unfold sa_payload in E1. repeat case_match; simplify_eq/=; congruence. }
  destruct (sa_read_length (sa_extend a1 payload)) as [a2|] eqn:E2; [|done].
  apply sa_read_length_start in E2.
  change (sa_start_sequence (sa_extend a1 payload)) with (sa_start_sequence a1) in E2.
  intros Hd. assert (sa_start_sequence a2 = Some s) as Ha2.
  { repeat case_match; simplify_eq/=; done. }
  rewrite Ha2, Hs in E2. destruct (ph_payload_unit_start h); [left|right]; naive_solver.
Qed.

(** The PMT of a program is never announced on the PAT's own PID. *)
Lemma parse_pat_pid section n pid : parse_pat section = Some (n, pid) -> pid <> PAT_PID.
Proof.
  assert (forall l, find_map pat_entry l = Some (n, pid) -> pid <> PAT_PID) as Hl.
  { intros l. induction l as [|x l IH]; cbn; [done|].
    destruct (pat_entry x) as [y|] eqn:E; [|done]. intros [= ->]. unfold pat_entry in E.
    destruct (Z.eqb_spec (pid_of (byte_at x 2) (byte_at x 3)) 0); [by rewrite andb_false_r in E|].
    case_match; [|done]. injection E as _ <-. done. }
  unfold parse_pat. case_match; [done|]. intros (last & _ & Hf)%bind_Some.
  apply bind_Some in Hf as (entries & _ & Hf). case_match; [done|]. by eapply Hl.
Qed.

Lemma pt_observe_inv t packet seq :
  pt_inv t -> Forall is_u8 packet -> pt_inv (fst (pt_observe t packet seq)).
Proof.
  intros Ht Hu. unfold pt_observe.
  destruct (packet_header packet) as [h|] eqn:Eh; [|done].
  assert (Forall is_u8 (ph_payload h)) as Hp by (by eapply packet_header_u8).
  assert (pt_inv (pt_observe_pat t h seq)) as (Hpat & Hcand & Hlast).
  { unfold pt_observe_pat. case_match; [|done].
    destruct Ht as (Hpat & Hcand & Hlast).
    unfold pt_inv.
    pose proof (sa_observe_inv _ h seq Hpat Hp) as [Hi _].
    destruct (sa_observe (pt_pat t) h seq) as [pat [section|]]; cbn in *;
      [|by split_and!].
    destruct (parse_pat _) as [[n pid]|] eqn:Ep; [|by split_and!].
    split; [done|]. split; [|done]. intros c [= <-]. split; [apply sa_default_inv|].
    by apply parse_pat_pid in Ep. }
  unfold pt_observe_pmt.
  destruct (pt_candidate (pt_observe_pat t h seq)) as [c|] eqn:Ec; [|unfold pt_inv; cbn [fst]; by rewrite Ec].
  destruct (negb _); cbn [fst]; [unfold pt_inv; by rewrite Ec|].
  destruct (Hcand c eq_refl) as [Hca Hcp].
  pose proof (sa_observe_inv _ h seq Hca Hp) as [Hi Hc].
  destruct (sa_observe (pc_assembler c) h seq) as [a [section|]]; cbn in *.
  - destruct (negb (is_matching_pmt _ _)); (split; [done|]); (split; [by intros ? [= <-]|]); [done|].
    intros s [= <-]. by apply Hc.
  - split; [done|]. split; [by intros ? [= <-]|done].
Qed.

(** A boundary is the start of the candidate the tracker already had. *)
Lemma pt_observe_candidate t packet seq b :
  pt_inv t -> snd (pt_observe t packet seq) = Some b -> candidate_start t = Some b.
Proof.
  intros (_ & Hcand & _). unfold pt_observe, candidate_start.
  destruct (packet_header packet) as [h|]; [|done].
  unfold pt_observe_pmt, pt_observe_pat.
  destruct (Z.eqb_spec (ph_pid h) PAT_PID) as [Hpid|Hpid].
  - destruct (sa_observe (pt_pat t) h seq) as [pat completed]. cbn [pt_candidate].
    assert (forall c, match completed with
      | None => pt_candidate t
      | Some section =>
          match parse_pat (cs_bytes section) with
          | None => pt_candidate t
          | Some (n, pid) => Some (mkPmtCandidate n pid (cs_start_sequence section) sa_default)
          end
      end = Some c -> pc_pid c <> PAT_PID) as Hne.
    { intros c. destruct completed as [section|]; [|by intros [_ ?]%Hcand].
      destruct (parse_pat (cs_bytes section)) as [[n pid]|] eqn:Ep; [|by intros [_ ?]%Hcand].
      intros [= <-]. by apply parse_pat_pid in Ep. }
    destruct (match completed with None => _ | Some _ => _ end) as [c|]; [|done].
    rewrite Hpid. destruct (Z.eqb_spec PAT_PID (pc_pid c)) as [E|]; [|done]. by destruct (Hne c eq_refl).
  - destruct (pt_candidate t) as [c|]; [|done]. cbn.
    destruct (negb _); [done|]. destruct (sa_observe (pc_assembler c) h seq) as [a [section|]]; cbn; [|done].
    destruct (negb _); cbn; [done|]. by intros [= <-].
Qed.

(** *** What a reported boundary is *)

(** Packet [s] of the history [h] starts a PAT section: PID 0 with the
    payload-unit-start flag. *)
Definition pat_start_at (h : list bytes) (s : Z) : Prop :=
  0 <= s /\ exists packet header,
    h !! Z.to_nat s = Some packet /\ packet_header packet = Some header /\
    ph_pid header = PAT_PID /\ ph_payload_unit_start header = true.

(** The tracker against the packets observed so far, where [bound] is the
    last boundary it reported. *)
Definition pt_track (h : list bytes) (bound : Z) (t : PatPmtTracker) : Prop :=
  bound < zlen h /\
  (forall s, sa_start_sequence (pt_pat t) = Some s ->
     pat_start_at h s /\ bound < s /\
     forall c, pt_candidate t = Some c -> pc_pat_start_sequence c < s) /\
  (forall c, pt_candidate t = Some c ->
     pat_start_at h (pc_pat_start_sequence c) /\ bound < pc_pat_start_sequence c).

Lemma pat_start_at_app h k s : pat_start_at h s -> pat_start_at (h ++ k) s.
Proof.
  intros (? & p & hd & Hl & ?). split; [done|]. exists p, hd. split; [|done].
  by apply lookup_app_l_Some.
Qed.

Lemma pat_start_at_lt h s : pat_start_at h s -> 0 <= s < zlen h.
Proof.
  intros (? & p & hd & Hl & ?). apply lookup_lt_Some in Hl. unfold zlen. lia.
Qed.

Lemma pat_start_at_last h packet header :
  packet_header packet = Some header -> ph_pid header = PAT_PID ->
  ph_payload_unit_start header = true -> pat_start_at (h ++ [packet]) (zlen h).
Proof.
  intros. split; [apply zlen_nonneg|]. exists packet, header. unfold zlen.
  rewrite Nat2Z.id, lookup_app_r, Nat.sub_diag by lia. done.
Qed.

#[export] Hint Resolve pat_start_at_app pat_start_at_last : relay.

Lemma pt_track_weaken h bound t k : pt_track h bound t -> pt_track (h ++ k) bound t.
Proof.
  intros (Hb & Hp & Hc). split; [zlia|]. split.
  - intros s Hs. destruct (Hp s Hs) as (? & ? & ?). auto with relay.
  - intros c Hs. destruct (Hc c Hs). auto with relay.
Qed.

Lemma pt_observe_pat_track h bound t packet header :
  packet_header packet = Some header -> Forall is_u8 packet ->
  pt_inv t -> pt_track h bound t ->
  pt_track (h ++ [packet]) bound (pt_observe_pat t header (zlen h)).
Proof.
  intros Hh Hu Hinv Ht. unfold pt_observe_pat.
  destruct (Z.eqb_spec (ph_pid header) PAT_PID) as [Hpid|]; [|by apply pt_track_weaken].
  pose proof (sa_observe_inv _ header (zlen h) (proj1 Hinv) (packet_header_u8 _ _ Hu Hh)) as [_ Hi].
  pose proof (sa_observe_start (pt_pat t) header (zlen h)) as Hs.
  destruct (sa_observe (pt_pat t) header (zlen h)) as [pat completed]; cbn in Hs, Hi.
  destruct Ht as (Hb & Hp & Hc).
  assert (forall s, (ph_payload_unit_start header = true /\ s = zlen h) \/
             sa_start_sequence (pt_pat t) = Some s ->
             pat_start_at (h ++ [packet]) s /\ bound < s /\
             forall c, pt_candidate t = Some c -> pc_pat_start_sequence c < s) as Hnew.
  { intros s [[Hpusi ->]|Hold].
    - split; [eauto with relay|]. split; [done|]. intros c Hc'.
      apply (pat_start_at_lt h). by apply Hc.
    - destruct (Hp s Hold) as (? & ? & ?). auto with relay. }
  assert (forall c, pt_candidate t = Some c ->
     pat_start_at (h ++ [packet]) (pc_pat_start_sequence c) /\ bound < pc_pat_start_sequence c) as Hold.
  { intros c Hcd. destruct (Hc c Hcd). auto with relay. }
  destruct completed as [section|]; [|split; [zlia|]; split; cbn; [auto|done]].
  destruct (Hi section eq_refl) as (_ & -> & Hst).
  destruct (parse_pat (cs_bytes section)) as [[n pid]|]; (split; [zlia|]);
    (split; cbn; [done|]); [|done].
  intros c [= <-]. cbn.
  assert (ph_payload_unit_start header = true /\ cs_start_sequence section = zlen h \/
          sa_start_sequence (pt_pat t) = Some (cs_start_sequence section)) as Hcase
    by (destruct (ph_payload_unit_start header); [left|right]; by simplify_eq).
  by destruct (Hnew _ Hcase) as (? & ? & ?).
Qed.

(** The tracker's specification, one packet at a time: a reported boundary is
    a PAT start among the packets seen, later than every earlier one. *)
Lemma pt_observe_track h bound t packet :
  Forall is_u8 packet -> pt_inv t -> pt_track h bound t ->
  match snd (pt_observe t packet (zlen h)) with
  | None => pt_track (h ++ [packet]) bound (fst (pt_observe t packet (zlen h)))
  | Some b =>
      bound < b /\ pat_start_at (h ++ [packet]) b /\
      pt_track (h ++ [packet]) b (fst (pt_observe t packet (zlen h)))
  end.
Proof.
  intros Hu Hinv Ht. unfold pt_observe.
  destruct (packet_header packet) as [header|] eqn:Hh; [|by apply pt_track_weaken].
  pose proof (pt_observe_pat_track h bound t packet header Hh Hu Hinv Ht) as (Hb & Hp & Hc).
  set (t1 := pt_observe_pat t header (zlen h)) in *. unfold pt_observe_pmt.
  destruct (pt_candidate t1) as [c|] eqn:Ec; [|unfold pt_track; cbn; by rewrite Ec].
  destruct (negb _); cbn [fst snd]; [unfold pt_track; by rewrite Ec|].
  destruct (Hc c eq_refl) as [Hstart Hgt].
  destruct (sa_observe (pc_assembler c) header (zlen h)) as [a [section|]]; cbn [fst snd].
  2: { split; [done|]. split; cbn; [|naive_solver].
       intros s Hs. destruct (Hp s Hs) as (? & ? & Hlt). split; [done|]. split; [done|].
       intros c' [= <-]. cbn. by apply Hlt. }
  destruct (negb _); cbn [fst snd].
  { split; [done|]. split; cbn; [|naive_solver].
    intros s Hs. destruct (Hp s Hs) as (? & ? & Hlt). split; [done|]. split; [done|].
    intros c' [= <-]. cbn. by apply Hlt. }
  split; [done|]. split; [done|]. split; [apply pat_start_at_lt in Hstart; lia|].
  split; cbn; [|done]. intros s Hs. destruct (Hp s Hs) as (? & ? & Hlt).
  split; [done|]. split; [by apply Hlt|done].
Qed.

(** The tracker over a whole stream: the boundaries it reports, in order. *)
Fixpoint pt_run (t : PatPmtTracker) (sequence : Z) (packets : list bytes)
  : PatPmtTracker * list Z :=
  match packets with
  | [] => (t, [])
  | packet :: packets =>
      let '(t, b) := pt_observe t packet sequence in
      let '(t, bs) := pt_run t (sequence + 1) packets in
      (t, option_list b ++ bs)
  end.

Lemma pt_run_track packets h bound t :
  Forall (Forall is_u8) packets -> pt_inv t -> pt_track h bound t ->
  Forall (fun b => bound < b /\ pat_start_at (h ++ packets) b) (snd (pt_run t (zlen h) packets)) /\
  StronglySorted Z.lt (snd (pt_run t (zlen h) packets)) /\
  pt_inv (fst (pt_run t (zlen h) packets)).
Proof.
  revert h bound t. induction packets as [|p ps IH]; intros h bound t Hu Hi Ht.
  { cbn. split; [constructor|]. split; [constructor|done]. }
  inversion Hu as [|?? Hp Hps]; subst. cbn [pt_run].
  pose proof (pt_observe_track h bound t p Hp Hi Ht) as Ho.
  pose proof (pt_observe_inv t p (zlen h) Hi Hp) as Hi'.
  destruct (pt_observe t p (zlen h)) as [t1 b]; cbn [fst snd] in *.
  assert (zlen h + 1 = zlen (h ++ [p])) as -> by zlia.
  replace (h ++ p :: ps) with ((h ++ [p]) ++ ps) by (by rewrite <- app_assoc).
  destruct b as [b|]; cbn in Ho.
  - destruct Ho as (Hlt & Hstart & Ht1).
    specialize (IH (h ++ [p]) b t1 Hps Hi' Ht1).
    destruct (pt_run t1 _ ps) as [t2 bs]; cbn in *. destruct IH as (H1 & H2 & H3).
    split; [|split; [|done]].
    + constructor; [auto with relay|].
      eapply Forall_impl; [exact H1|]. cbn. intros x [? ?]. split; [lia|done].
    + constructor; [done|]. eapply Forall_impl; [exact H1|]. cbn. lia.
  - specialize (IH (h ++ [p]) bound t1 Hps Hi' Ho).
    by destruct (pt_run t1 _ ps) as [t2 bs].
Qed.

(** *** CRC *)

Lemma crc_bit_small x : 0 <= x < 2 ^ 31 -> crc_bit x = 2 * x.
Proof.
  intros Hx. unfold crc_bit. change 0x80000000 with (Z.shiftl 1 31).
  rewrite Z.land_comm, land_shiftl_low by lia. cbn [Z.eqb negb].
  unfold wrap32. rewrite Z.shiftl_mul_pow2, Z.mod_small by lia. lia.
Qed.

Lemma crc_iter_small n x :
  0 <= x < 2 ^ 24 -> (n <= 8)%nat -> Nat.iter n crc_bit x = 2 ^ Z.of_nat n * x.
Proof.
  intros Hx. induction n as [|n IH]; intros Hn; [cbn; lia|].
  change (Nat.iter (S n) crc_bit x) with (crc_bit (Nat.iter n crc_bit x)).
  rewrite IH by lia. pose proof (Z.pow_le_mono_r 2 (Z.of_nat n) 7).
  rewrite crc_bit_small by nia.
  rewrite Nat2Z.inj_succ, Z.pow_succ_r by lia. lia.
Qed.

Lemma crc_bit_u32 x : is_u32 x -> is_u32 (crc_bit x).
Proof.
  intros Hx. unfold crc_bit, is_u32, wrap32 in *.
  pose proof (Z.mod_pos_bound (Z.shiftl x 1) (2 ^ 32)).
  case_match; [apply lxor_bound|]; lia.
Qed.

Lemma crc_byte_u32 c b : is_u32 c -> is_u8 b -> is_u32 (crc_byte c b).
Proof.
  intros Hc Hb. unfold crc_byte. assert (is_u32 (Z.lxor c (Z.shiftl b 24))).
  { apply lxor_bound; unfold is_u8 in Hb; [lia|done|].
    rewrite Z.shiftl_mul_pow2 by lia. lia. }
  by repeat apply crc_bit_u32.
Qed.

Lemma crc_fold_u32 l c : is_u32 c -> Forall is_u8 l -> is_u32 (fold_left crc_byte l c).
Proof.
  intros Hc Hl. revert c Hc. induction Hl as [|b l Hb Hl IH]; intros c Hc; cbn; [done|].
  by apply IH, crc_byte_u32.
Qed.

(** Feeding a register its own top byte shifts that byte out. *)
Lemma crc_byte_top c : is_u32 c -> crc_byte c (c / 2 ^ 24) = c mod 2 ^ 24 * 256.
Proof.
  unfold is_u32. intros Hc. unfold crc_byte.
  assert (Z.lxor c (Z.shiftl (c / 2 ^ 24) 24) = c mod 2 ^ 24) as ->.
  { apply Z.bits_inj'. intros i Hi. rewrite Z.lxor_spec, Z.shiftl_spec by lia.
    destruct (Z.ltb_spec i 24).
    - rewrite Z.mod_pow2_bits_low, (Z.testbit_neg_r _ (i - 24)) by lia. apply xorb_false_r.
    - rewrite Z.mod_pow2_bits_high, Z.div_pow2_bits by lia.
      replace (i - 24 + 24) with i by lia. apply xorb_nilpotent. }
  pose proof (Z.mod_pos_bound c (2 ^ 24)). rewrite crc_iter_small by lia. lia.
Qed.

Lemma land_ff a : Z.land a 0xff = a mod 256.
Proof. apply (land_mask a 8). lia. Qed.

(** CRC round trip: appending the big-endian CRC of any section makes the
    CRC of the whole zero, which is what [parse_pat] and [is_matching_pmt]
    test; so a section that carries its own CRC always passes. *)
Lemma mpeg_crc32_append section :
  Forall is_u8 section ->
  mpeg_crc32 (section ++ to_be_bytes32 (mpeg_crc32 section)) = 0.
Proof.
  intros Hs. unfold mpeg_crc32. rewrite fold_left_app.
  assert (is_u32 (fold_left crc_byte section u32_max)) as Hc
    by (apply crc_fold_u32; [unfold is_u32, u32_max; lia|done]).
  revert Hc. generalize (fold_left crc_byte section u32_max). intros c Hc.
  unfold to_be_bytes32. rewrite !land_ff, !Z.shiftr_div_pow2 by lia. cbn [fold_left].
  unfold is_u32 in Hc.
  replace ((c / 2 ^ 24) mod 256) with (c / 2 ^ 24)
    by (Z.to_euclidean_division_equations; lia).
  rewrite crc_byte_top by done.
  replace ((c / 2 ^ 16) mod 256) with (c mod 2 ^ 24 * 256 / 2 ^ 24)
    by (Z.to_euclidean_division_equations; lia).
  rewrite crc_byte_top by (unfold is_u32; Z.to_euclidean_division_equations; lia).
  replace ((c / 2 ^ 8) mod 256) with ((c mod 2 ^ 24 * 256) mod 2 ^ 24 * 256 / 2 ^ 24)
    by (Z.to_euclidean_division_equations; lia).
  rewrite crc_byte_top by (unfold is_u32; Z.to_euclidean_division_equations; lia).
  replace (c mod 256)
    with (((c mod 2 ^ 24 * 256) mod 2 ^ 24 * 256) mod 2 ^ 24 * 256 / 2 ^ 24)
    by (Z.to_euclidean_division_equations; lia).
  rewrite crc_byte_top by (unfold is_u32; Z.to_euclidean_division_equations; lia).
  Z.to_euclidean_division_equations; lia.
Qed.

(** *** The two PMT walks agree *)

Lemma pmt_loops_agree fuel section streams_end offset streams :
  pmt_walk_loop fuel section streams_end offset = true <->
  is_Some (pmt_streams_loop fuel section streams_end offset streams).
Proof.
  revert offset streams. induction fuel as [|fuel IH]; intros offset streams; cbn.
  - destruct (offset <? streams_end); [split; [done|by intros []]|].
    destruct (offset =? streams_end); cbn; split; (done || by intros []).
  - destruct (offset <? streams_end); cbn.
    + destruct (get_range _ _ section) as [hd|]; cbn; [|split; [done|by intros []]].
      destruct (checked _ _) as [o5|]; cbn; [|split; [done|by intros []]].
      destruct (checked _ _) as [next|]; cbn; [|split; [done|by intros []]].
      destruct (streams_end <? next); [split; [done|by intros []]|apply IH].
    + destruct (offset =? streams_end); cbn; split; (done || by intros []).
Qed.

Lemma is_matching_pmt_parses section program :
  is_matching_pmt section program = true <->
  mpeg_crc32 section = 0 /\ is_Some (parse_pmt_elementary_streams section program).
Proof.
  unfold is_matching_pmt, parse_pmt_elementary_streams.
  destruct (Z.eqb_spec (mpeg_crc32 section) 0) as [Hc|Hc]; cbn [negb].
  2: { rewrite orb_true_r. split; [done|]. intros [? _]. done. }
  rewrite orb_false_r. destruct (_ || _); [split; [done|by intros [_ []]]|].
  destruct (checked _ _) as [offset|]; cbn; [|split; [done|by intros [_ []]]].
  destruct (_ <? offset); [split; [done|by intros [_ []]]|].
  rewrite pmt_loops_agree. naive_solver.
Qed.

(** Each turn of the walk consumes at least five bytes, so [length section]
    turns are never exhausted: more fuel gives the same answer. *)
Lemma pmt_streams_fuel_enough fuel extra section streams_end offset streams :
  Forall is_u8 section -> streams_end - offset <= Z.of_nat fuel ->
  pmt_streams_loop (fuel + extra) section streams_end offset streams =
  pmt_streams_loop fuel section streams_end offset streams.
Proof.
  intros Hu. revert offset streams.
  induction fuel as [|fuel IH]; intros offset streams Hf; cbn.
  - destruct extra; cbn; destruct (Z.ltb_spec offset streams_end); (lia || done).
  - destruct (offset <? streams_end); [|done].
    destruct (get_range _ _ section) as [hd|] eqn:Hg; cbn; [|done].
    apply get_range_Some in Hg as [_ ->].
    destruct (checked _ _) as [o5|] eqn:H5; cbn; [|done]. apply checked_inv in H5 as [-> _].
    destruct (checked _ _) as [next|] eqn:Hn; cbn; [|done]. apply checked_inv in Hn as [-> _].
    destruct (_ <? _); [done|]. apply IH.
    match goal with |- context [len12_of ?a ?b] => pose proof (len12_of_bound a b) as Hl end.
    assert (Forall is_u8 (slice offset (sat_add u64_max offset 5) section)) by (unfold slice; auto with relay).
    specialize (Hl ltac:(auto with relay)). lia.
Qed.

(** *** Reassembly of a split section *)

(** The assembler after a proper prefix [pre] of [section]. *)
Definition sa_partial (section pre : bytes) (start cc : Z) : SectionAssembler :=
  mkSectionAssembler pre (if zlen pre <? 3 then None else Some (zlen section))
    (Some start) (Some cc).

(** A packet that carries the next [chunk] of the section: nothing else before
    the end of the section, anything (stuffing) after it. *)
Definition carries (payload chunk rest : bytes) : Prop :=
  match rest with
  | [] => exists stuffing, payload = chunk ++ stuffing
  | _ => payload = chunk
  end.

Lemma sa_partial_inv section pre rest start cc :
  section_ok section -> pre ++ rest = section -> rest <> [] ->
  sa_inv (sa_partial section pre start cc).
Proof.
  intros (Hu & Hl & Hd) <- Hr. apply Forall_app in Hu as [Hu _].
  assert (zlen rest <> 0) by (destruct rest; [done|zlia]).
  unfold sa_inv, sa_partial. cbn. split; [done|].
  destruct (Z.ltb_spec (zlen pre) 3); [done|]. rewrite declared_len_app in Hd by lia. zlia.
Qed.

Lemma ztake_app_le {A} (n : Z) (l k : list A) : zlen l <= n -> ztake n (l ++ k) = l ++ ztake (n - zlen l) k.
Proof.
  intros. unfold ztake, zlen in *. rewrite take_app, take_ge by lia. do 2 f_equal. lia.
Qed.

Lemma ztake_app_exact {A} (l k : list A) : ztake (zlen l) (l ++ k) = l.
Proof. rewrite ztake_app_le, Z.sub_diag by lia. unfold ztake. cbn. apply app_nil_r. Qed.

Lemma ztake_ge {A} (n : Z) (l : list A) : zlen l <= n -> ztake n l = l.
Proof. intros. unfold ztake, zlen in *. rewrite take_ge by lia. done. Qed.

Lemma carries_take payload chunk rest n :
  carries payload chunk rest -> zlen chunk <= n ->
  exists tail, ztake n payload = chunk ++ tail /\ (rest <> [] -> tail = []).
Proof.
  unfold carries. destruct rest as [|x rest].
  - intros [stuffing ->] Hn. exists (ztake (n - zlen chunk) stuffing).
    split; [by apply ztake_app_le|done].
  - intros -> Hn. exists []. rewrite app_nil_r. split; [by apply ztake_ge|done].
Qed.

Lemma sa_fill_step section pre chunk rest payload start cc :
  section_ok section -> pre ++ chunk ++ rest = section -> chunk ++ rest <> [] ->
  carries payload chunk rest ->
  sa_read_length (sa_extend (sa_partial section pre start cc) payload) =
  Some (sa_partial section (pre ++ chunk) start cc).
Proof.
  intros Hok Hsplit Hne Hc.
  pose proof (sa_partial_inv section pre (chunk ++ rest) start cc Hok Hsplit Hne) as Hinv.
  pose proof (sa_extend_bytes _ payload Hinv) as Hb.
  destruct Hok as (Hu & Hl & Hd).
  assert (zlen section = zlen pre + zlen chunk + zlen rest) as Hlen by (subst section; zlia).
  unfold sa_read_length.
  change (sa_expected_len (sa_extend _ payload))
    with (if zlen pre <? 3 then None else Some (zlen section)).
  change (sa_expected_len (sa_partial section pre start cc))
    with (if zlen pre <? 3 then None else Some (zlen section)) in Hb.
  change (sa_bytes (sa_partial section pre start cc)) with pre in Hb.
  destruct (Z.ltb_spec (zlen pre) 3) as [Hlt|Hge].
  - destruct (carries_take payload chunk rest MAX_SECTION_BYTES Hc ltac:(zlen_facts; lia))
      as (tail & Ht & Hrest). rewrite Ht, app_assoc in Hb.
    assert (zlen (pre ++ chunk) < zlen section -> tail = []) as Htail.
    { intros. apply Hrest. intros ->. zlia. }
    assert (3 <= zlen (pre ++ chunk ++ tail) -> 3 <= zlen (pre ++ chunk)) as H3.
    { destruct rest; [zlia|]. rewrite Hrest, app_nil_r by done. done. }
    rewrite Hb. destruct (Z.leb_spec 3 (zlen ((pre ++ chunk) ++ tail))) as [Hthree|Hless].
    + specialize (H3 ltac:(by rewrite app_assoc)).
      fold (declared_len ((pre ++ chunk) ++ tail)).
      rewrite declared_len_app by done.
      replace (declared_len (pre ++ chunk)) with (zlen section).
      2: { rewrite Hd. rewrite <- Hsplit, app_assoc. by apply declared_len_app. }
      rewrite (proj2 (andb_true_iff _ _)) by lia. f_equal. unfold sa_partial.
      rewrite (proj2 (Z.ltb_ge (zlen (pre ++ chunk)) 3)) by done. f_equal.
      destruct (decide (zlen (pre ++ chunk) < zlen section)) as [Hs|Hs].
      * rewrite Htail, app_nil_r by done. apply ztake_ge. lia.
      * replace (zlen section) with (zlen (pre ++ chunk)) by zlia. apply ztake_app_exact.
    + f_equal. unfold sa_partial. rewrite Htail, app_nil_r in * by zlia.
      rewrite (proj2 (Z.ltb_lt _ _) Hless).
      transitivity (mkSectionAssembler (sa_bytes (sa_extend (sa_partial section pre start cc) payload))
        (if zlen pre <? 3 then None else Some (zlen section)) (Some start) (Some cc)); [done|].
      rewrite Hb. by rewrite (proj2 (Z.ltb_lt _ _) Hlt).
  - f_equal.
    destruct (carries_take payload chunk rest (zlen section - zlen pre) Hc ltac:(zlen_facts; lia))
      as (tail & Ht & Hrest).
    transitivity (mkSectionAssembler (sa_bytes (sa_extend (sa_partial section pre start cc) payload))
      (if zlen pre <? 3 then None else Some (zlen section)) (Some start) (Some cc)); [done|].
    rewrite Hb, Ht. unfold sa_partial. rewrite !(proj2 (Z.ltb_ge _ _)) by zlia. do 2 f_equal.
    destruct rest; [|by rewrite Hrest, app_nil_r].
    assert (zlen (chunk ++ tail) <= zlen chunk) as Hz.
    { rewrite <- Ht. zlia. }
    destruct tail; [by rewrite app_nil_r|]. zlia.
Qed.

Lemma sa_observe_partial section pre chunk rest payload start cc a header seq :
  section_ok section -> pre ++ chunk ++ rest = section -> chunk ++ rest <> [] ->
  carries payload chunk rest ->
  sa_payload a header seq = inr (sa_partial section pre start cc, payload) ->
  sa_observe a header seq =
  match rest with
  | [] => (sa_default, Some (mkCompletedSection section start))
  | _ => (sa_partial section (pre ++ chunk) start cc, None)
  end.
Proof.
  intros Hok Hsplit Hne Hc Hp. unfold sa_observe. rewrite Hp.
  rewrite (sa_fill_step section pre chunk rest) by done. destruct Hok as (_ & Hl & _).
  cbn [sa_expected_len sa_partial sa_bytes sa_start_sequence].
  destruct rest as [|x rest].
  - rewrite app_nil_r in Hsplit. rewrite Hsplit.
    rewrite (proj2 (Z.ltb_ge (zlen section) 3)), (proj2 (Z.ltb_ge _ _)) by lia. done.
  - destruct (Z.ltb_spec (zlen (pre ++ chunk)) 3); [done|].
    rewrite (proj2 (Z.ltb_lt _ _)) by (rewrite <- Hsplit; zlia). done.
Qed.

(** Feeding an assembler a list of packets (header and sequence number). *)
Fixpoint sa_feed (a : SectionAssembler) (packets : list (PacketHeader * Z))
  : SectionAssembler * list CompletedSection :=
  match packets with
  | [] => (a, [])
  | (header, sequence) :: packets =>
      let '(a, completed) := sa_observe a header sequence in
      let '(a, sections) := sa_feed a packets in
      (a, option_list completed ++ sections)
  end.

(** Packets that carry the rest of a section: no unit start, consecutive
    continuity counters, the bytes in order. *)
Inductive continues : Z -> bytes -> list (PacketHeader * Z) -> Prop :=
| continues_done cc : continues cc [] []
| continues_more cc chunk rest header seq packets :
    chunk ++ rest <> [] ->
    ph_payload_unit_start header = false ->
    ph_continuity_counter header = Z.land (wrap8 (cc + 1)) 0x0f ->
    carries (ph_payload header) chunk rest ->
    continues (ph_continuity_counter header) rest packets ->
    continues cc (chunk ++ rest) ((header, seq) :: packets).

Lemma sa_feed_continues section pre rest start cc packets :
  section_ok section -> pre ++ rest = section -> rest <> [] ->
  continues cc rest packets ->
  sa_feed (sa_partial section pre start cc) packets =
  (sa_default, [mkCompletedSection section start]).
Proof.
  intros Hok Hsplit Hne Hcont. revert pre Hsplit Hne.
  induction Hcont as [cc|cc chunk rest header seq packets Hn Hpusi Hcc Hcar Hcont IH];
    intros pre Hsplit Hne; [done|].
  assert (sa_payload (sa_partial section pre start cc) header seq =
          inr (sa_partial section pre start (ph_continuity_counter header),
               ph_payload header)) as Hp.
  { unfold sa_payload. rewrite Hpusi. cbn. by rewrite Hcc, Z.eqb_refl. }
  cbn [sa_feed].
  rewrite (sa_observe_partial section pre chunk rest (ph_payload header) start
             (ph_continuity_counter header)) by done.
  destruct rest as [|x rest].
  - by inversion Hcont.
  - rewrite IH by (done || by rewrite <- app_assoc). done.
Qed.

(** *** Properties *)

(** C33. Reassembly: a section that arrives split over any number of packets
    (unit start with a pointer field in the first, consecutive continuity
    counters in the others, stuffing allowed after its last byte) is handed
    out exactly once, byte for byte, with the sequence number of its first
    packet, whatever the assembler held before. *)
Theorem section_reassembly a h0 seq skipped p0 chunk rest packets :
  section_ok (chunk ++ rest) ->
  ph_payload_unit_start h0 = true ->
  ph_payload h0 = zlen skipped :: skipped ++ p0 ->
  carries p0 chunk rest ->
  continues (ph_continuity_counter h0) rest packets ->
  sa_feed a ((h0, seq) :: packets) =
  (sa_default, [mkCompletedSection (chunk ++ rest) seq]).
Proof.
  intros Hok Hpusi Hpay Hcar Hcont. set (section := chunk ++ rest) in *.
  assert (section <> []) as Hne
    by (intros E; rewrite E in Hok; destruct Hok as (_ & Hl & _); zlia).
  assert (sa_payload a h0 seq =
          inr (sa_partial section [] seq (ph_continuity_counter h0), p0)) as Hp.
  { unfold sa_payload. rewrite Hpusi, Hpay.
    rewrite (proj2 (Z.ltb_ge _ _)) by zlia. do 2 f_equal.
    unfold zdrop, zlen. rewrite Nat2Z.id. apply drop_app_length. }
  cbn [sa_feed].
  rewrite (sa_observe_partial section [] chunk rest p0 seq (ph_continuity_counter h0)) by done.
  destruct rest as [|x rest].
  - by inversion Hcont.
  - rewrite (sa_feed_continues section chunk (x :: rest)) by done. done.
Qed.

(** ** Interface: a source of safe boundaries

    What the ring and the session's priming loop rely on: they feed packets
    with consecutive sequence numbers and get back the numbers of packets at
    which a decoder can start.  Their theorems use these laws only. *)

Class BoundarySource (T : Type) := {
  bsrc_observe : T -> bytes -> Z -> T * option Z;
  bsrc_candidate : T -> option Z;
  bsrc_reset : T -> T;
  (** The source has seen the packets of the history, and [bound] is the last
      boundary it reported. *)
  bsrc_ok : list bytes -> Z -> T -> Prop;
  bsrc_reset_ok : forall t h bound, bound < zlen h -> bsrc_ok h bound (bsrc_reset t);
  bsrc_candidate_ok : forall h bound t c,
    bsrc_ok h bound t -> bsrc_candidate t = Some c -> bound < c /\ pat_start_at h c;
  bsrc_bound_lt : forall h bound t, bsrc_ok h bound t -> bound < zlen h;
  (** A boundary is announced as the candidate before it is reported. *)
  bsrc_observe_candidate : forall h bound t packet b,
    bsrc_ok h bound t -> snd (bsrc_observe t packet (zlen h)) = Some b -> bsrc_candidate t = Some b;
  bsrc_observe_ok : forall h bound t packet,
    Forall is_u8 packet -> bsrc_ok h bound t ->
    match snd (bsrc_observe t packet (zlen h)) with
    | None => bsrc_ok (h ++ [packet]) bound (fst (bsrc_observe t packet (zlen h)))
    | Some b => bound < b /\ pat_start_at (h ++ [packet]) b /\
                bsrc_ok (h ++ [packet]) b (fst (bsrc_observe t packet (zlen h)))
    end;
}.

#[export] Program Instance tracker_boundary_source : BoundarySource PatPmtTracker := {|
  bsrc_observe := pt_observe;
  bsrc_candidate := candidate_start;
  bsrc_reset := pt_reset;
  bsrc_ok h bound t := pt_inv t /\ pt_track h bound t;
|}.
Next Obligation. intros t h bound Hb. split; [apply pt_default_inv|by split]. Qed.
Next Obligation.
  intros h bound t c [_ (_ & _ & Hc)] H. apply fmap_Some in H as (x & Hx & ->).
  destruct (Hc x Hx). done.
Qed.
Next Obligation. by intros h bound t [_ [? _]]. Qed.
Next Obligation. intros h bound t packet b [Hi _] Hb. by eapply pt_observe_candidate. Qed.
Next Obligation.
  intros h bound t packet Hu [Hi Ht].
  pose proof (pt_observe_track h bound t packet Hu Hi Ht) as Ho.
  pose proof (pt_observe_inv t packet (zlen h) Hi Hu).
  cbn. destruct (snd (pt_observe t packet (zlen h))); naive_solver.
Qed.

(** ** Properties of the tracker *)

(** Restart points: over any stream of packets, every boundary the
    tracker reports is the sequence number of a packet of that stream that
    starts a PAT section, and the boundaries come out strictly increasing. *)
Theorem boundaries_are_pat_starts packets :
  Forall (Forall is_u8) packets ->
  Forall (pat_start_at packets) (snd (pt_run pt_default 0 packets)) /\
  StronglySorted Z.lt (snd (pt_run pt_default 0 packets)).
Proof.
  intros Hu. destruct (pt_run_track packets [] (-1) pt_default Hu pt_default_inv) as (H1 & H2 & _).
  { split; [done|]. by split. }
  split; [|done]. eapply Forall_impl; [exact H1|]. by intros b [_ ?].
Qed.

(** Bounded memory: no stream makes the tracker buffer 1024 bytes or
    more, neither for the PAT nor for the PMT, and the section it keeps is
    never longer than 1024 bytes and exactly as long as it declares. *)
Theorem tracker_memory_bounded packets :
  Forall (Forall is_u8) packets ->
  let t := fst (pt_run pt_default 0 packets) in
  zlen (sa_bytes (pt_pat t)) < MAX_SECTION_BYTES /\
  (forall c, pt_candidate t = Some c -> zlen (sa_bytes (pc_assembler c)) < MAX_SECTION_BYTES) /\
  (forall s, pt_last_pmt_section t = Some s ->
     zlen s <= MAX_SECTION_BYTES /\ zlen s = declared_len s).
Proof.
  intros Hu. destruct (pt_run_track packets [] (-1) pt_default Hu pt_default_inv) as (_ & _ & Hi).
  { split; [done|]. by split. }
  assert (forall a, sa_inv a -> zlen (sa_bytes a) < MAX_SECTION_BYTES) as Hsa.
  { intros a [_ Ha]. unfold MAX_SECTION_BYTES in *. destruct (sa_expected_len a); lia. }
  destruct Hi as (Hp & Hc & Hl). split; [auto|]. split; [by intros c [? _]%Hc; auto|].
  intros s Hs. by destruct (Hl s Hs) as (_ & [_ ?] & ?).
Qed.

(** The PMT the tracker accepts is the PMT the ring and the analyzers
    parse: [is_matching_pmt] accepts exactly the sections whose CRC is right
    and from which [parse_pmt_elementary_streams] returns the stream list. *)
Theorem matching_pmt_parses section program :
  is_matching_pmt section program = true <->
  mpeg_crc32 section = 0 /\ is_Some (parse_pmt_elementary_streams section program).
Proof. apply is_matching_pmt_parses. Qed.
