(* ===== verification/Pacing.v ===== *)
(** * The media clock: PCR timeline and viewer pacing

    Models [crates/media/src/pacing.rs].  An [Instant] is the number of
    nanoseconds since an arbitrary origin of the monotonic clock and a
    [Duration] a non-negative number of nanoseconds. *)
From Stdlib Require Import ZArith Lia.
From stdpp Require Import base numbers option.
From stdpp Require Import list sorting.
From S2P Require Import Prelude.
Open Scope Z_scope.

Definition PCR_TICKS_PER_SECOND : Z := 27000000.
Definition PCR_WRAP_TICKS : Z := Z.shiftl 1 33 * 300.
Definition MAX_FORWARD_JUMP_TICKS : Z := 10 * PCR_TICKS_PER_SECOND.
Definition MAX_BACKWARD_JITTER_TICKS : Z := PCR_TICKS_PER_SECOND.
Definition SAMPLE_SPACING_TICKS : Z := PCR_TICKS_PER_SECOND / 10.
Definition NANOS_PER_SECOND : Z := 1000000000.
Definition MAX_HOLD : Z := 5 * NANOS_PER_SECOND.

(** ** The PCR field *)

Definition parse_pcr (packet : bytes) : option (Z * bool) :=
  if (zlen packet <? 12) || (Z.land (byte_at packet 3) 0x20 =? 0) then None
  else
    let adaptation_length := byte_at packet 4 in
    if (adaptation_length <? 7) || (Z.land (byte_at packet 5) 0x10 =? 0) then None
    else
      let discontinuity := negb (Z.land (byte_at packet 5) 0x80 =? 0) in
      let base :=
        Z.lor (Z.lor (Z.lor (Z.lor
          (Z.shiftl (byte_at packet 6) 25)
          (Z.shiftl (byte_at packet 7) 17))
          (Z.shiftl (byte_at packet 8) 9))
          (Z.shiftl (byte_at packet 9) 1))
          (Z.shiftr (byte_at packet 10) 7) in
      let extension :=
        Z.lor (Z.shiftl (Z.land (byte_at packet 10) 0x01) 8) (byte_at packet 11) in
      Some (wrap64 (base * 300 + Z.min extension 299), discontinuity).

(** ** The timeline *)

Record PcrSample := mkPcrSample {
  ps_sequence : Z;
  ps_ticks : Z;
}.

Record PcrTimeline := mkPcrTimeline {
  tl_last_raw : option Z;
  tl_unwrapped : Z;
  tl_latest_sequence : Z;
  tl_has_sample : bool;
  tl_samples : list PcrSample;
}.

Definition tl_default : PcrTimeline := mkPcrTimeline None 0 0 false [].
Definition tl_reset (t : PcrTimeline) : PcrTimeline := tl_default.

(** The new value of [unwrapped] for a raw PCR; [None] is the early return
    for a small backward step. *)
Definition tl_advance (t : PcrTimeline) (raw : Z) (discontinuity : bool) : option Z :=
  match tl_last_raw t with
  | None => Some (tl_unwrapped t)
  | Some last =>
      if discontinuity then Some (tl_unwrapped t)
      else
        let forward := wrap64 (wrap64 (raw + PCR_WRAP_TICKS) - last) mod PCR_WRAP_TICKS in
        if forward <=? MAX_FORWARD_JUMP_TICKS then Some (wrap64 (tl_unwrapped t + forward))
        else if wrap64 (PCR_WRAP_TICKS - forward) <=? MAX_BACKWARD_JITTER_TICKS then None
        else Some (tl_unwrapped t)
  end.

Definition tl_observe (t : PcrTimeline) (packet : bytes) (sequence : Z) : PcrTimeline :=
  match parse_pcr packet with
  | None => t
  | Some (raw, discontinuity) =>
      match tl_advance t raw discontinuity with
      | None => t
      | Some unwrapped =>
          let spaced :=
            match last (tl_samples t) with
            | None => true
            | Some sample => wrap64 (ps_ticks sample + SAMPLE_SPACING_TICKS) <=? unwrapped
            end in
          mkPcrTimeline (Some raw) unwrapped sequence true
            (if spaced then tl_samples t ++ [mkPcrSample sequence unwrapped] else tl_samples t)
      end
  end.

Fixpoint prune_samples (first_sequence : Z) (samples : list PcrSample) : list PcrSample :=
  match samples with
  | s0 :: ((s1 :: _) as rest) =>
      if ps_sequence s1 <=? first_sequence then prune_samples first_sequence rest
      else samples
  | _ => samples
  end.

Definition tl_prune (t : PcrTimeline) (first_sequence : Z) : PcrTimeline :=
  mkPcrTimeline (tl_last_raw t) (tl_unwrapped t) (tl_latest_sequence t) (tl_has_sample t)
    (prune_samples first_sequence (tl_samples t)).

Definition head_ticks (t : PcrTimeline) : option Z :=
  if tl_has_sample t then Some (tl_unwrapped t) else None.

(** [partition_point] on a deque partitioned by the predicate. *)
Fixpoint partition_point {A} (p : A -> bool) (l : list A) : nat :=
  match l with
  | [] => 0
  | x :: l => if p x then S (partition_point p l) else 0
  end.

Definition ticks_at (t : PcrTimeline) (sequence : Z) : option Z :=
  if tl_has_sample t && (tl_latest_sequence t <=? sequence) then Some (tl_unwrapped t)
  else
    let index := partition_point (fun s => ps_sequence s <=? sequence) (tl_samples t) in
    ps_ticks <$> (tl_samples t !! Nat.pred index).

Definition sequence_at_or_after (t : PcrTimeline) (ticks : Z) : option Z :=
  let index := partition_point (fun s => ps_ticks s <? ticks) (tl_samples t) in
  ps_sequence <$> (tl_samples t !! index).

(** ** Units *)

Definition ticks_to_duration (ticks : Z) : Z :=
  Z.min u64_max (ticks * 1000000000 / PCR_TICKS_PER_SECOND).

Definition ticks_to_millis (ticks : Z) : Z := ticks / (PCR_TICKS_PER_SECOND / 1000).

Definition duration_to_ticks (duration : Z) : Z :=
  Z.min u64_max (duration * PCR_TICKS_PER_SECOND / 1000000000).

(** ** The pacer *)

Record BatchPosition := mkBatchPosition {
  bp_sequence : Z;
  bp_ticks : option Z;
  bp_byte_rate_bps : option Z;
}.

Inductive Anchor :=
| AnchorPcr (instant ticks : Z)
| AnchorBytes (instant sequence : Z).

(** The pacer's only field is the anchor. *)
Record Pacer := mkPacer { pc_anchor : option Anchor }.
Definition pacer_default : Pacer := mkPacer None.
Definition pacer_reset (p : Pacer) : Pacer := mkPacer None.

(** [due.saturating_duration_since(now)] *)
Definition saturating_duration_since (due now : Z) : Z := Z.max 0 (due - now).

Definition bytes_due_nanos (sequence anchor_sequence rate_bps : Z) : Z :=
  let packets := sat_sub sequence anchor_sequence in
  let bits := packets * 188 * 8 in
  Z.min u64_max (bits * 1000000000 / rate_bps).

(** [hold], with [hold_pcr] and [hold_bytes] inlined at their only call.  The
    recursive call after a re-anchor finds no anchor and returns at once, so
    two turns are enough ([pacer_hold_fuel] below). *)
Fixpoint pacer_hold_fuel (fuel : nat) (p : Pacer) (position : BatchPosition) (now : Z)
  : Pacer * Z :=
  match fuel with
  | O => (p, 0)
  | S fuel =>
      match bp_ticks position with
      | Some ticks =>
          match pc_anchor p with
          | Some (AnchorPcr instant anchor_ticks) =>
              let elapsed := sat_sub ticks anchor_ticks in
              let due := instant + ticks_to_duration elapsed in
              let hold := saturating_duration_since due now in
              if MAX_HOLD <? hold then pacer_hold_fuel fuel (mkPacer None) position now
              else (p, hold)
          | _ => (mkPacer (Some (AnchorPcr now ticks)), 0)
          end
      | None =>
          match (match bp_byte_rate_bps position with
                 | Some rate => if 0 <? rate then Some rate else None
                 | None => None
                 end) with
          | Some rate =>
              match pc_anchor p with
              | Some (AnchorBytes instant anchor_sequence) =>
                  let due := instant + bytes_due_nanos (bp_sequence position) anchor_sequence rate in
                  let hold := saturating_duration_since due now in
                  if MAX_HOLD <? hold then pacer_hold_fuel fuel (mkPacer None) position now
                  else (p, hold)
              | _ => (mkPacer (Some (AnchorBytes now (bp_sequence position))), 0)
              end
          | None => (mkPacer None, 0)
          end
      end
  end.

Definition pacer_hold (p : Pacer) (position : BatchPosition) (now : Z) : Pacer * Z :=
  pacer_hold_fuel 2 p position now.

(** ** The PCR field *)

Lemma lor_field (a b m n k : Z) :
  m = n + k -> 0 <= n -> 0 <= k -> 0 <= b < 2 ^ k ->
  Z.lor (Z.shiftl a m) (Z.shiftl b n) = Z.shiftl (a * 2 ^ k + b) n.
Proof.
  intros -> Hn Hk Hb. rewrite <- (lor_shiftl_add a b k) by lia.
  rewrite Z.shiftl_lor, Z.shiftl_shiftl by lia. do 2 f_equal. lia.
Qed.

(** The 33-bit base is the big-endian number the bytes spell. *)
Lemma pcr_base_eq b6 b7 b8 b9 b10 :
  is_u8 b7 -> is_u8 b8 -> is_u8 b9 -> is_u8 b10 ->
  Z.lor (Z.lor (Z.lor (Z.lor (Z.shiftl b6 25) (Z.shiftl b7 17)) (Z.shiftl b8 9))
    (Z.shiftl b9 1)) (Z.shiftr b10 7) =
  (((b6 * 256 + b7) * 256 + b8) * 256 + b9) * 2 + b10 / 128.
Proof.
  unfold is_u8. intros. rewrite (lor_field b6 b7 25 17 8) by lia.
  rewrite (lor_field _ b8 17 9 8), (lor_field _ b9 9 1 8) by lia.
  rewrite Z.shiftr_div_pow2 by lia. change (2 ^ 7) with 128.
  rewrite lor_shiftl_add; [lia|lia|]. Z.to_euclidean_division_equations; lia.
Qed.

Lemma parse_pcr_bound packet raw d :
  Forall is_u8 packet -> parse_pcr packet = Some (raw, d) -> 0 <= raw < PCR_WRAP_TICKS.
Proof.
  intros Hu. unfold parse_pcr. case_match; [done|]. case_match; [done|]. intros [= <- <-].
  rewrite pcr_base_eq by auto with relay.
  assert (0 <= Z.lor (Z.shiftl (Z.land (byte_at packet 10) 0x01) 8) (byte_at packet 11)) as He.
  { apply Z.lor_nonneg. pose proof (byte_at_u8 packet 11 Hu). unfold is_u8 in *.
    split; [|lia]. apply Z.shiftl_nonneg, Z.land_nonneg. right. lia. }
  pose proof (byte_at_u8 packet 6 Hu) as H6. pose proof (byte_at_u8 packet 7 Hu) as H7.
  pose proof (byte_at_u8 packet 8 Hu) as H8. pose proof (byte_at_u8 packet 9 Hu) as H9.
  pose proof (byte_at_u8 packet 10 Hu) as H10. unfold is_u8 in *.
  unfold wrap64. change PCR_WRAP_TICKS with 2576980377600.
  revert He. generalize (Z.lor (Z.shiftl (Z.land (byte_at packet 10) 0x01) 8) (byte_at packet 11)).
  intros e He.
  pose proof (Z.div_mod (byte_at packet 10) 128 ltac:(lia)).
  pose proof (Z.mod_pos_bound (byte_at packet 10) 128 ltac:(lia)).
  rewrite Z.mod_small; lia.
Qed.

(** ** Timeline invariant *)

(** The numeric values of the clock constants, for [lia]. *)
Ltac pacing_consts :=
  assert (MAX_FORWARD_JUMP_TICKS = 270000000) as HMFJ by reflexivity;
  assert (SAMPLE_SPACING_TICKS = 2700000) as HSST by reflexivity;
  assert (PCR_WRAP_TICKS = 2576980377600) as HPWT by reflexivity;
  assert (MAX_BACKWARD_JITTER_TICKS = 27000000) as HMBJ by reflexivity.

Definition sample_lt (a b : PcrSample) : Prop :=
  ps_sequence a < ps_sequence b /\ ps_ticks a + SAMPLE_SPACING_TICKS <= ps_ticks b.

Record tl_inv (t : PcrTimeline) : Prop := {
  tl_inv_sorted : StronglySorted sample_lt (tl_samples t);
  tl_inv_last : forall s, last (tl_samples t) = Some s ->
    ps_sequence s <= tl_latest_sequence t /\
    0 <= ps_ticks s /\
    ps_ticks s <= tl_unwrapped t < ps_ticks s + SAMPLE_SPACING_TICKS;
  tl_inv_has : tl_has_sample t = true <-> tl_samples t <> [];
  tl_inv_raw : forall r, tl_last_raw t = Some r -> 0 <= r < PCR_WRAP_TICKS;
  tl_inv_range : 0 <= tl_unwrapped t;
}.

(** The media time stays far from the end of [u64]: one more step fits. *)
Definition tl_headroom (t : PcrTimeline) : Prop :=
  tl_unwrapped t + MAX_FORWARD_JUMP_TICKS + SAMPLE_SPACING_TICKS < 2 ^ 64.

Lemma tl_default_inv : tl_inv tl_default.
Proof. split; cbn; try done; try lia. constructor. Qed.

Lemma StronglySorted_snoc {A} (R : A -> A -> Prop) (l : list A) (x : A) :
  StronglySorted R l -> (forall y, y ∈ l -> R y x) -> StronglySorted R (l ++ [x]).
Proof.
  intros Hl Hx. apply StronglySorted_app. split; [|split; [done|repeat constructor]].
  intros y z Hy Hz. apply list_elem_of_singleton in Hz as ->. auto.
Qed.

Lemma StronglySorted_last_le (l : list PcrSample) (x y : PcrSample) :
  StronglySorted sample_lt l -> last l = Some x -> y ∈ l ->
  ps_sequence y <= ps_sequence x /\ ps_ticks y <= ps_ticks x.
Proof.
  intros Hl. induction Hl as [|z l Hl IH Hz]; intros Hlast Hy; [by apply elem_of_nil in Hy|].
  destruct l as [|w l].
  - apply list_elem_of_singleton in Hy. naive_solver lia.
  - rewrite last_cons_cons in Hlast. apply elem_of_cons in Hy as [->|Hy]; [|by apply IH].
    assert (x ∈ w :: l) as Hx by (apply last_Some in Hlast as [l' ->]; apply elem_of_app; right; by constructor).
    rewrite Forall_forall in Hz. destruct (Hz x Hx). pacing_consts. lia.
Qed.

Lemma wrap64_small z : 0 <= z < 2 ^ 64 -> wrap64 z = z.
Proof. apply Z.mod_small. Qed.

(** The unsigned difference of two raw clock values is their distance on the
    33-bit circle. *)
Lemma forward_eq raw last :
  0 <= raw < PCR_WRAP_TICKS -> 0 <= last < PCR_WRAP_TICKS ->
  wrap64 (wrap64 (raw + PCR_WRAP_TICKS) - last) mod PCR_WRAP_TICKS =
  (raw - last) mod PCR_WRAP_TICKS.
Proof.
  change PCR_WRAP_TICKS with 2576980377600. intros.
  rewrite (wrap64_small (raw + _)) by lia. rewrite wrap64_small by lia.
  replace (raw + 2576980377600 - last) with (raw - last + 1 * 2576980377600) by lia.
  apply Z.mod_add. lia.
Qed.

Lemma tl_advance_le t raw d u :
  tl_inv t -> tl_headroom t -> 0 <= raw < PCR_WRAP_TICKS ->
  tl_advance t raw d = Some u ->
  tl_unwrapped t <= u <= tl_unwrapped t + MAX_FORWARD_JUMP_TICKS.
Proof.
  intros Hi Hh Hr. unfold tl_advance, tl_headroom in *.
  pose proof (tl_inv_range t Hi) as H0.
  pacing_consts.
  destruct (tl_last_raw t) as [r|] eqn:Er; [|intros [= <-]; lia].
  destruct d; [intros [= <-]; lia|].
  pose proof (tl_inv_raw t Hi r Er) as Hlast. rewrite forward_eq by done.
  pose proof (Z.mod_pos_bound (raw - r) PCR_WRAP_TICKS ltac:(by compute)).
  destruct (Z.leb_spec ((raw - r) mod PCR_WRAP_TICKS) MAX_FORWARD_JUMP_TICKS).
  - intros [= <-]. rewrite wrap64_small by lia. lia.
  - destruct (_ <=? _); [done|]. intros [= <-]. lia.
Qed.

Lemma tl_observe_inv t packet sequence :
  Forall is_u8 packet -> tl_inv t -> tl_headroom t ->
  (tl_has_sample t = true -> tl_latest_sequence t < sequence) ->
  tl_inv (tl_observe t packet sequence).
Proof.
  intros Hu Hi Hh Hseq. unfold tl_observe.
  destruct (parse_pcr packet) as [[raw d]|] eqn:Hp; [|done].
  pose proof (parse_pcr_bound _ _ _ Hu Hp) as Hraw.
  destruct (tl_advance t raw d) as [u|] eqn:Ha; [|done].
  pose proof (tl_advance_le t raw d u Hi Hh Hraw Ha) as Hu'.
  destruct Hi as [Hsort Hlast Hhas Hr H0]. unfold tl_headroom in Hh.
  pacing_consts.
  destruct (last (tl_samples t)) as [s|] eqn:El.
  - specialize (Hlast s eq_refl) as (Hs1 & Hs0 & Hs2).
    assert (tl_samples t <> []) as Hne by (intros E; by rewrite E in El).
    specialize (Hseq (proj2 Hhas Hne)).
    assert (forall y, y ∈ tl_samples t -> ps_sequence y <= ps_sequence s /\ ps_ticks y <= ps_ticks s)
      as Hall by (intros y Hy; by eapply StronglySorted_last_le).
    rewrite wrap64_small by lia.
    destruct (Z.leb_spec (ps_ticks s + SAMPLE_SPACING_TICKS) u).
    + split; cbn; [|intros s' Hs'|split; [by destruct (tl_samples t)|done]|naive_solver|lia].
      * apply StronglySorted_snoc; [done|]. intros y Hy. destruct (Hall y Hy).
        unfold sample_lt. cbn. lia.
      * rewrite last_snoc in Hs'. injection Hs' as <-. cbn. lia.
    + split; cbn; [done| |by split|naive_solver|lia].
      intros s' Hs'. rewrite El in Hs'. injection Hs' as <-. lia.
  - apply last_None in El. rewrite El in *. split; cbn; [|intros s' [= <-]|done|naive_solver|lia].
    + repeat constructor.
    + cbn. lia.
Qed.

(** ** Lookups *)

Lemma partition_point_le {A} (p : A -> bool) (l : list A) : (partition_point p l <= length l)%nat.
Proof. induction l as [|x l IH]; cbn; [lia|]. destruct (p x); lia. Qed.

Lemma partition_point_mono {A} (p q : A -> bool) (l : list A) :
  (forall x, p x = true -> q x = true) -> (partition_point p l <= partition_point q l)%nat.
Proof.
  intros Hpq. induction l as [|x l IH]; cbn; [lia|].
  destruct (p x) eqn:Hp; [rewrite (Hpq x Hp)|]; lia.
Qed.

(** On a sorted deque the partition point splits it by the predicate. *)
Lemma partition_point_true {A} (p : A -> bool) (l : list A) i x :
  (i < partition_point p l)%nat -> l !! i = Some x -> p x = true.
Proof.
  revert i. induction l as [|y l IH]; intros i Hi Hx; [done|]. cbn in Hi.
  destruct (p y) eqn:Hp; [|lia]. destruct i as [|i]; cbn in Hx; [by simplify_eq|].
  eapply IH; [|done]. lia.
Qed.

Lemma partition_point_false {A} (p : A -> bool) (l : list A) x :
  l !! partition_point p l = Some x -> p x = false.
Proof.
  induction l as [|y l IH]; cbn; [done|]. destruct (p y) eqn:Hp; [done|]. by intros [= <-].
Qed.

Lemma samples_lookup_mono (l : list PcrSample) i j a b :
  StronglySorted sample_lt l -> (i <= j)%nat -> l !! i = Some a -> l !! j = Some b ->
  ps_ticks a <= ps_ticks b.
Proof.
  intros Hl. revert i j. induction Hl as [|x l Hl IH Hx]; intros i j Hij Ha Hb; [done|].
  destruct i as [|i], j as [|j]; cbn in *; simplify_eq; try lia.
  - rewrite Forall_forall in Hx. destruct (Hx b) as [_ Hlt].
    { apply list_elem_of_lookup. eauto. }
    pacing_consts. lia.
  - eapply (IH i j); [lia|done..].
Qed.

Lemma samples_le_head t i s :
  tl_inv t -> tl_samples t !! i = Some s -> ps_ticks s <= tl_unwrapped t.
Proof.
  intros Hi Hs. destruct (last (tl_samples t)) as [z|] eqn:El.
  - destruct (tl_inv_last t Hi z El) as (_ & _ & Hz).
    assert (s ∈ tl_samples t) as Hin by (apply list_elem_of_lookup; eauto).
    destruct (StronglySorted_last_le _ z s (tl_inv_sorted t Hi) El Hin). lia.
  - apply last_None in El. by rewrite El in Hs.
Qed.

Lemma ticks_at_le_head t s a :
  tl_inv t -> ticks_at t s = Some a -> head_ticks t = Some (tl_unwrapped t) /\ a <= tl_unwrapped t.
Proof.
  intros Hi. unfold ticks_at, head_ticks.
  destruct (tl_has_sample t) eqn:Hh; cbn [andb].
  - destruct (_ <=? s); [intros [= <-]; split; [done|lia]|].
    intros H. apply fmap_Some in H as (x & Hx & ->). split; [done|by eapply samples_le_head].
  - intros H. apply fmap_Some in H as (x & Hx & ->).
    assert (tl_samples t <> []) as Hne by (intros E; by rewrite E in Hx).
    apply (tl_inv_has t Hi) in Hne. congruence.
Qed.

Lemma prune_samples_cons first x y l :
  prune_samples first (x :: y :: l) =
  if ps_sequence y <=? first then prune_samples first (y :: l) else x :: y :: l.
Proof. done. Qed.

Lemma prune_samples_lookup first s l :
  StronglySorted sample_lt l -> first <= s ->
  ps_ticks <$> (prune_samples first l !!
     Nat.pred (partition_point (fun x => ps_sequence x <=? s) (prune_samples first l))) =
  ps_ticks <$> (l !! Nat.pred (partition_point (fun x => ps_sequence x <=? s) l)).
Proof.
  intros Hl Hs. induction Hl as [|x l Hl IH Hx]; [done|].
  destruct l as [|y l]; [done|]. rewrite prune_samples_cons.
  destruct (Z.leb_spec (ps_sequence y) first) as [Hy|]; [|done].
  rewrite IH. rewrite Forall_forall in Hx. destruct (Hx y) as [Hxy _]; [by constructor|].
  cbn [partition_point]. rewrite !(proj2 (Z.leb_le _ _)) by lia. done.
Qed.

Lemma prune_samples_sorted first l :
  StronglySorted sample_lt l -> StronglySorted sample_lt (prune_samples first l).
Proof.
  intros Hl. induction Hl as [|x l Hl IH Hx]; [constructor|].
  destruct l as [|y l]; [by constructor|]. rewrite prune_samples_cons.
  destruct (_ <=? _); [done|by constructor].
Qed.

Lemma prune_samples_last first l : last (prune_samples first l) = last l.
Proof.
  induction l as [|x l IH]; [done|]. destruct l as [|y l]; [done|]. rewrite prune_samples_cons.
  destruct (_ <=? _); [|done]. by rewrite last_cons_cons.
Qed.

Lemma tl_prune_inv t first : tl_inv t -> tl_inv (tl_prune t first).
Proof.
  intros [Hs Hl Hh Hr H0]. split; cbn; [by apply prune_samples_sorted| | |done|done].
  - by rewrite prune_samples_last.
  - rewrite Hh. rewrite <- !last_is_Some, prune_samples_last. done.
Qed.

(** ** Runs *)

(** The timeline after a list of observed packets (bytes and sequence). *)
Definition tl_run (t : PcrTimeline) (l : list (bytes * Z)) : PcrTimeline :=
  fold_left (fun t '(packet, sequence) => tl_observe t packet sequence) l t.

Lemma tl_observe_step t packet sequence :
  Forall is_u8 packet -> tl_inv t -> tl_headroom t ->
  tl_unwrapped t <= tl_unwrapped (tl_observe t packet sequence)
    <= tl_unwrapped t + MAX_FORWARD_JUMP_TICKS /\
  (tl_latest_sequence (tl_observe t packet sequence) = sequence \/
   tl_observe t packet sequence = t).
Proof.
  intros Hu Hi Hh. pacing_consts. unfold tl_observe.
  destruct (parse_pcr packet) as [[raw d]|] eqn:Hp; [|split; [lia|by right]].
  destruct (tl_advance t raw d) as [u|] eqn:Ha; [|split; [lia|by right]].
  cbn. split; [|by left]. eapply tl_advance_le; eauto using parse_pcr_bound.
Qed.

(** Sequence numbers seen so far are below [bound]. *)
Definition tl_before (t : PcrTimeline) (bound : Z) : Prop :=
  tl_has_sample t = true -> tl_latest_sequence t < bound.

Lemma tl_run_inv l t :
  Forall (fun x => Forall is_u8 (fst x)) l -> StronglySorted Z.lt (snd <$> l) -> tl_inv t ->
  Forall (tl_before t) (snd <$> l) ->
  tl_unwrapped t + (zlen l + 1) * MAX_FORWARD_JUMP_TICKS + SAMPLE_SPACING_TICKS < 2 ^ 64 ->
  tl_inv (tl_run t l) /\
  tl_unwrapped t <= tl_unwrapped (tl_run t l)
    <= tl_unwrapped t + zlen l * MAX_FORWARD_JUMP_TICKS /\
  forall bound, tl_before t bound -> Forall (fun s => s < bound) (snd <$> l) ->
    tl_before (tl_run t l) bound.
Proof.
  revert t. induction l as [|[p s] l IH]; intros t Hu Hs Hi Hlt Hb;
    [change (zlen (@nil (bytes * Z))) with 0; cbn; split; [done|split; [lia|done]]|].
  pacing_consts. inversion Hu as [|?? Hp Hl]; subst. inversion Hs as [|?? Hss Hall]; subst.
  inversion Hlt as [|?? Hlts Hltl]; subst. cbn in Hp. autorewrite with relay in *. zlen_facts.
  assert (tl_headroom t) as Hh by (unfold tl_headroom; lia).
  destruct (tl_observe_step t p s Hp Hi Hh) as [Hle Hlatest].
  assert (forall b, tl_before t b -> s < b -> tl_before (tl_observe t p s) b) as Hbefore.
  { intros b Hb1 Hb2 Hhas. destruct Hlatest as [->|Heq]; [done|]. rewrite Heq in *. auto. }
  cbn [tl_run fold_left]. fold (tl_run (tl_observe t p s) l).
  destruct (IH (tl_observe t p s)) as (Hi' & Hle' & Hb'); try done.
  - by apply tl_observe_inv.
  - rewrite Forall_forall in Hltl, Hall |- *. intros b Hin. apply Hbefore; auto.
  - lia.
  - split; [done|]. split; [lia|]. intros bound Hb1 Hb2. inversion Hb2; subst. auto.
Qed.

(** A stream clock that advances by at most ten seconds between two PCRs:
    packet [i] carries the value [T + clock i] modulo the 33-bit wrap. *)
Inductive carries_clock : Z -> list (bytes * Z) -> Z -> Prop :=
| carries_clock_nil T : carries_clock T [] T
| carries_clock_cons T T' T'' packet sequence l :
    T <= T' <= T + MAX_FORWARD_JUMP_TICKS ->
    parse_pcr packet = Some (T' mod PCR_WRAP_TICKS, false) ->
    carries_clock T' l T'' ->
    carries_clock T ((packet, sequence) :: l) T''.

Lemma tl_run_clock T l T' t :
  carries_clock T l T' -> tl_last_raw t = Some (T mod PCR_WRAP_TICKS) ->
  0 <= tl_unwrapped t -> tl_unwrapped t + (T' - T) < 2 ^ 64 ->
  tl_unwrapped (tl_run t l) = tl_unwrapped t + (T' - T).
Proof.
  intros Hc. revert t. induction Hc as [T|T T1 T2 p s l Hstep Hp Hc IH]; intros t Hr H0 Hb.
  { cbn. lia. }
  assert (T1 <= T2) as HT by (clear -Hc; induction Hc; lia).
  pacing_consts. cbn [tl_run fold_left].
  assert (tl_advance t (T1 mod PCR_WRAP_TICKS) false = Some (tl_unwrapped t + (T1 - T))) as Ha.
  { unfold tl_advance. rewrite Hr.
    rewrite forward_eq by (apply Z.mod_pos_bound; lia).
    rewrite <- Zminus_mod, Z.mod_small by lia.
    rewrite (proj2 (Z.leb_le _ _)), wrap64_small by lia. done. }
  fold (tl_run (tl_observe t p s) l).
  assert (tl_unwrapped (tl_observe t p s) = tl_unwrapped t + (T1 - T) /\
          tl_last_raw (tl_observe t p s) = Some (T1 mod PCR_WRAP_TICKS)) as [Hu Hl].
  { unfold tl_observe. rewrite Hp, Ha. done. }
  rewrite (IH (tl_observe t p s) Hl); rewrite Hu; lia.
Qed.

(** ** Properties *)

(** Unwrapping: on a stream whose clock never steps back and advances at
    most ten seconds between PCRs, the timeline's media time is exactly the
    media time since the first PCR, however often the 33-bit counter wraps. *)
Theorem timeline_unwraps packet sequence T l T' :
  parse_pcr packet = Some (T mod PCR_WRAP_TICKS, false) ->
  carries_clock T l T' -> T' - T < 2 ^ 64 ->
  head_ticks (tl_run tl_default ((packet, sequence) :: l)) = Some (T' - T).
Proof.
  intros Hp Hc Hb. cbn [tl_run fold_left].
  assert (tl_observe tl_default packet sequence =
          mkPcrTimeline (Some (T mod PCR_WRAP_TICKS)) 0 sequence true [mkPcrSample sequence 0]) as ->.
  { unfold tl_observe. by rewrite Hp. }
  set (t := mkPcrTimeline _ _ _ _ _). fold (tl_run t l).
  pose proof (tl_run_clock T l T' t Hc eq_refl) as Hu. cbn in Hu.
  unfold head_ticks. rewrite Hu by lia.
  replace (tl_has_sample (tl_run t l)) with true; [done|].
  assert (tl_has_sample t = true) as Ht by done. clearbody t. clear -Ht.
  revert t Ht. induction l as [|[p s] l IH]; intros t Ht; [done|].
  cbn [tl_run fold_left]. apply IH. unfold tl_observe. by repeat case_match.
Qed.

(** The timeline never moves backward and its index stays usable, whatever
    the PCRs of the stream do (wraps, jumps, jitter, discontinuity flags): the
    invariant holds after any packets in sequence order, and the media time
    after the whole run is at least the media time after any prefix of it. *)
Theorem timeline_never_goes_back l1 l2 :
  Forall (fun x => Forall is_u8 (fst x)) (l1 ++ l2) ->
  StronglySorted Z.lt (snd <$> l1 ++ l2) ->
  (zlen (l1 ++ l2) + 1) * MAX_FORWARD_JUMP_TICKS + SAMPLE_SPACING_TICKS < 2 ^ 64 ->
  tl_inv (tl_run tl_default (l1 ++ l2)) /\
  tl_unwrapped (tl_run tl_default l1) <= tl_unwrapped (tl_run tl_default (l1 ++ l2)).
Proof.
  rewrite fmap_app. intros [Hu1 Hu2]%Forall_app Hs Hb. pacing_consts.
  autorewrite with relay in Hb. zlen_facts.
  apply StronglySorted_app in Hs as (Hcross & Hs1 & Hs2).
  destruct (tl_run_inv l1 tl_default) as (Hi1 & Hle1 & Hb1);
    [done|done|apply tl_default_inv|by apply Forall_true|cbn; lia|].
  unfold tl_run at 1 3. rewrite !fold_left_app. fold (tl_run tl_default l1).
  fold (tl_run (tl_run tl_default l1) l2).
  destruct (tl_run_inv l2 (tl_run tl_default l1)) as (Hi2 & Hle2 & _); [done..| | |].
  - rewrite Forall_forall. intros s2 Hin2. apply Hb1; [done|].
    rewrite Forall_forall. intros s1 Hin1. auto.
  - cbn in Hle1. lia.
  - split; [done|lia].
Qed.

Lemma tl_run_ok l :
  Forall (fun x => Forall is_u8 (fst x)) l -> StronglySorted Z.lt (snd <$> l) ->
  (zlen l + 1) * MAX_FORWARD_JUMP_TICKS + SAMPLE_SPACING_TICKS < 2 ^ 64 ->
  tl_inv (tl_run tl_default l).
Proof.
  intros. apply tl_run_inv; [done|done|apply tl_default_inv|by apply Forall_true|cbn; lia].
Qed.

(** Lookups: a later position never maps to an earlier media time, a
    position the timeline resolves stays resolved for every later one, and no
    position is ahead of the newest PCR. *)
Theorem ticks_at_monotone t s1 s2 a :
  tl_inv t -> s1 <= s2 -> ticks_at t s1 = Some a ->
  exists b h, ticks_at t s2 = Some b /\ head_ticks t = Some h /\ a <= b <= h.
Proof.
  intros Hi Hs Ha. destruct (ticks_at_le_head t s1 a Hi Ha) as [Hh Hle].
  exists (default (tl_unwrapped t) (ticks_at t s2)), (tl_unwrapped t).
  unfold ticks_at in *. destruct (tl_has_sample t) eqn:Hhas; [|unfold head_ticks in Hh; by rewrite Hhas in Hh].
  cbn [andb] in *. destruct (Z.leb_spec (tl_latest_sequence t) s2).
  { split; [done|]. split; [done|]. cbn. lia. }
  rewrite (proj2 (Z.leb_gt _ _)) in Ha by lia.
  apply fmap_Some in Ha as (x & Hx & ->).
  set (p1 := fun s => ps_sequence s <=? s1) in *. set (p2 := fun s => ps_sequence s <=? s2).
  pose proof (partition_point_mono p1 p2 (tl_samples t)) as Hpp.
  specialize (Hpp ltac:(intros y; unfold p1, p2; lia)).
  assert (is_Some (tl_samples t !! Nat.pred (partition_point p2 (tl_samples t)))) as [y Hy].
  { apply lookup_lt_is_Some. apply lookup_lt_Some in Hx.
    pose proof (partition_point_le p2 (tl_samples t)). lia. }
  rewrite Hy. cbn. split; [done|]. split; [done|]. split; [|by eapply samples_le_head].
  eapply samples_lookup_mono; [apply Hi| |done|done]. lia.
Qed.

(** Pruning: dropping the index entries the ring no longer holds changes
    no lookup at a retained position. *)
Theorem prune_keeps_lookups t first s :
  tl_inv t -> first <= s ->
  ticks_at (tl_prune t first) s = ticks_at t s /\ head_ticks (tl_prune t first) = head_ticks t.
Proof.
  intros Hi Hs. split; [|done]. unfold ticks_at, tl_prune. cbn [tl_has_sample tl_latest_sequence tl_unwrapped tl_samples].
  destruct (_ && _); [done|]. apply prune_samples_lookup; [apply Hi|done].
Qed.

(** *** Pacing *)

Lemma pacer_hold_fuel_enough n p position now :
  pacer_hold_fuel (S (S n)) p position now = pacer_hold p position now.
Proof.
  unfold pacer_hold. cbn [pacer_hold_fuel pc_anchor].
  by repeat case_match.
Qed.

(** Release times of a run of batches, each asked for at its own instant. *)
Fixpoint pace (p : Pacer) (batches : list (BatchPosition * Z)) : list Z :=
  match batches with
  | [] => []
  | (position, now) :: batches =>
      let '(p, hold) := pacer_hold p position now in
      now + hold :: pace p batches
  end.

(** The instant at which the media time of a batch is due, counted from the
    first batch of the run. *)
Definition pcr_due (anchor_instant anchor_ticks : Z) (position : BatchPosition) : Z :=
  anchor_instant + ticks_to_duration (sat_sub (default 0 (bp_ticks position)) anchor_ticks).

Lemma pacer_hold_anchored instant ticks position now :
  is_Some (bp_ticks position) -> pcr_due instant ticks position <= now + MAX_HOLD ->
  pacer_hold (mkPacer (Some (AnchorPcr instant ticks))) position now =
  (mkPacer (Some (AnchorPcr instant ticks)),
   saturating_duration_since (pcr_due instant ticks position) now).
Proof.
  intros [t Ht] Hdue. unfold pcr_due in *. rewrite Ht in *. cbn in Hdue.
  unfold pacer_hold. cbn [pacer_hold_fuel]. rewrite Ht. cbn [pc_anchor default].
  destruct (Z.ltb_spec MAX_HOLD
    (saturating_duration_since (instant + ticks_to_duration (sat_sub t ticks)) now)) as [H|];
    [|done].
  unfold saturating_duration_since, MAX_HOLD, NANOS_PER_SECOND in *. lia.
Qed.

(** Real-time pacing: while the PCR timeline covers the batches and no
    batch is due more than five seconds ahead, the first batch leaves at once
    and every later one leaves exactly when its media time is due on the
    monotonic clock, or at once when that instant has passed. *)
Theorem pacer_real_time first now0 ticks0 batches :
  bp_ticks first = Some ticks0 ->
  Forall (fun '(position, now) =>
    is_Some (bp_ticks position) /\ pcr_due now0 ticks0 position <= now + MAX_HOLD) batches ->
  pace (mkPacer None) ((first, now0) :: batches) =
  now0 :: map (fun '(position, now) => Z.max now (pcr_due now0 ticks0 position)) batches.
Proof.
  intros Hf Hb. cbn [pace]. unfold pacer_hold. cbn [pacer_hold_fuel]. rewrite Hf. cbn [pc_anchor].
  f_equal; [lia|]. induction Hb as [|[position now] l [Ht Hd] Hl IH]; [done|].
  cbn [pace map]. rewrite pacer_hold_anchored by done. f_equal; [|exact IH].
  unfold saturating_duration_since. lia.
Qed.

(** One hold is never negative and never longer than five seconds, from any
    pacer state and for any batch position. *)
Lemma pacer_hold_bounded p position now :
  0 <= snd (pacer_hold p position now) <= MAX_HOLD.
Proof.
  unfold pacer_hold. cbn [pacer_hold_fuel pc_anchor].
  unfold MAX_HOLD, NANOS_PER_SECOND, saturating_duration_since.
  repeat case_match; cbn; lia.
Qed.
