(* ===== verification/Meter.v ===== *)
(** * Measured stream rates

    Models [crates/media/src/meter.rs]: the bitrate, burst and frame rate of
    one ring generation, measured from the stream's own clocks. *)
From Stdlib Require Import ZArith Lia.
From stdpp Require Import base numbers option.
From stdpp Require Import list sorting.
From S2P Require Import Prelude Pacing.
Open Scope Z_scope.

Definition WINDOW_SECONDS : Z := 120.
Definition PEAK_WINDOW_SECONDS : Z := 5.
Definition MIN_COMPLETE_SECONDS : Z := 8.
Definition FRAME_SAMPLES : Z := 120.
Definition MIN_FRAME_SAMPLES : Z := 30.
Definition PTS_WRAP : Z := Z.shiftl 1 33.
Definition PTS_TICKS_PER_SECOND : Z := 90000.
Definition STANDARD_RATES_MILLIHERTZ : list Z :=
  [23976; 24000; 25000; 29970; 30000; 50000; 59940; 60000].

Record StreamRates := mkStreamRates {
  average_bits_per_second : Z;
  peak_bits_per_second : Z;
  burst : Z;
  frame_rate_millihertz : option Z;
  measured : Z;
}.

Record ClockMark := mkClockMark { cm_ticks : Z; cm_sequence : Z }.

Record RateMeter := mkRateMeter {
  rm_last : option ClockMark;
  rm_origin : option (Z * Z);
  rm_seconds : list Z;
  rm_current_second : Z;
  rm_measured_ticks : Z;
  rm_min_offset_millis : Z;
  rm_max_offset_millis : Z;
  rm_video_pid : option Z;
  rm_last_decode : option Z;
  rm_frame_gaps : list Z;
}.

Definition rm_default : RateMeter := mkRateMeter None None [] 0 0 0 0 None None [].

(** ** Recording *)

Definition set_video_pid (m : RateMeter) (pid : option Z) : RateMeter :=
  if decide (rm_video_pid m = pid) then m
  else mkRateMeter (rm_last m) (rm_origin m) (rm_seconds m) (rm_current_second m)
         (rm_measured_ticks m) (rm_min_offset_millis m) (rm_max_offset_millis m) pid None [].

(** [deque.back_mut()] with a function applied to the element. *)
Fixpoint alter_back (f : Z -> Z) (l : list Z) : list Z :=
  match l with
  | [] => []
  | [x] => [f x]
  | x :: l => x :: alter_back f l
  end.

(** [while deque.len() > n { deque.pop_front(); }] *)
Definition keep_back {A} (n : Z) (l : list A) : list A := zdrop (zlen l - n) l.

(** [i64::try_from(x).unwrap_or(i64::MAX)] for an unsigned value, and
    [i64::saturating_sub]. *)
Definition to_i64 (x : Z) : Z := if x <=? i64_max then x else i64_max.
Definition i64_sat_sub (a b : Z) : Z := Z.max i64_min (Z.min i64_max (a - b)).

(** The last part of [observe_clock]: the offset between media and wall time. *)
Definition observe_offset (m : RateMeter) (ticks now : Z) : RateMeter :=
  match rm_origin m with
  | None => m
  | Some (origin_ticks, origin_instant) =>
      let media := to_i64 (sat_sub ticks origin_ticks / (PCR_TICKS_PER_SECOND / 1000)) in
      let wall := to_i64 (saturating_duration_since now origin_instant / 1000000) in
      let offset := i64_sat_sub media wall in
      mkRateMeter (rm_last m) (rm_origin m) (rm_seconds m) (rm_current_second m)
        (rm_measured_ticks m) (Z.min (rm_min_offset_millis m) offset)
        (Z.max (rm_max_offset_millis m) offset)
        (rm_video_pid m) (rm_last_decode m) (rm_frame_gaps m)
  end.

(** The per-second packet counts after a clock mark. *)
Definition advance_seconds (seconds : list Z) (current_second second packets : Z) : list Z :=
  let seconds :=
    if current_second <? second
    then seconds ++ replicate (Z.to_nat (Z.min (second - current_second) WINDOW_SECONDS)) 0
    else seconds in
  keep_back WINDOW_SECONDS (alter_back (fun current => sat_add u64_max current packets) seconds).

Definition observe_clock (m : RateMeter) (ticks sequence now : Z) : RateMeter :=
  match rm_last m with
  | None =>
      mkRateMeter (Some (mkClockMark ticks sequence)) (Some (ticks, now))
        (rm_seconds m ++ [0]) (ticks / PCR_TICKS_PER_SECOND)
        (rm_measured_ticks m) (rm_min_offset_millis m) (rm_max_offset_millis m)
        (rm_video_pid m) (rm_last_decode m) (rm_frame_gaps m)
  | Some last =>
      if sequence <=? cm_sequence last then m
      else
        let packets := sequence - cm_sequence last in
        let elapsed_ticks := sat_sub ticks (cm_ticks last) in
        let second := ticks / PCR_TICKS_PER_SECOND in
        observe_offset
          (mkRateMeter (Some (mkClockMark ticks sequence)) (rm_origin m)
             (advance_seconds (rm_seconds m) (rm_current_second m) second packets)
             (Z.max (rm_current_second m) second)
             (sat_add u64_max (rm_measured_ticks m) elapsed_ticks)
             (rm_min_offset_millis m) (rm_max_offset_millis m)
             (rm_video_pid m) (rm_last_decode m) (rm_frame_gaps m))
          ticks now
  end.

(** ** PES timestamps *)

Definition read_timestamp (b : bytes) : option Z :=
  if zlen b <? 5 then None
  else Some (
    Z.lor (Z.lor (Z.lor (Z.lor
      (Z.shiftl (Z.land (Z.shiftr (byte_at b 0) 1) 0x07) 30)
      (Z.shiftl (byte_at b 1) 22))
      (Z.shiftl (Z.shiftr (byte_at b 2) 1) 15))
      (Z.shiftl (byte_at b 3) 7))
      (Z.shiftr (byte_at b 4) 1)).

Definition pes_decode_timestamp (packet : bytes) : option Z :=
  if negb (zlen packet =? MPEG_TS_PACKET_SIZE)
     || (Z.land (byte_at packet 1) 0x40 =? 0)
     || (Z.land (byte_at packet 3) 0x10 =? 0)
  then None
  else
    let start :=
      if negb (Z.land (byte_at packet 3) 0x20 =? 0) then 5 + byte_at packet 4 else 4 in
    pes ← get_from start packet;
    if (zlen pes <? 14)
       || negb ((byte_at pes 0 =? 0) && (byte_at pes 1 =? 0) && (byte_at pes 2 =? 1))
    then None
    else
      let flags := Z.shiftr (byte_at pes 7) 6 in
      if flags =? 3 then field ← get_range 14 19 pes; read_timestamp field
      else if flags =? 2 then read_timestamp (slice 9 14 pes)
      else None.

Definition observe_video (m : RateMeter) (packet : bytes) : RateMeter :=
  match pes_decode_timestamp packet with
  | None => m
  | Some decode =>
      let frame_gaps :=
        match rm_last_decode m with
        | None => rm_frame_gaps m
        | Some last =>
            let gap := wrap64 (wrap64 (decode + PTS_WRAP) - last) mod PTS_WRAP in
            if (0 <? gap) && (gap <? PTS_TICKS_PER_SECOND)
            then keep_back FRAME_SAMPLES (rm_frame_gaps m ++ [gap])
            else rm_frame_gaps m
        end in
      mkRateMeter (rm_last m) (rm_origin m) (rm_seconds m) (rm_current_second m)
        (rm_measured_ticks m) (rm_min_offset_millis m) (rm_max_offset_millis m)
        (rm_video_pid m) (Some decode) frame_gaps
  end.

(** ** Reporting *)

(** [measured.abs_diff(rate) * 200 <= rate], a [u32] product. *)
Definition near_rate (measured rate : Z) : bool :=
  wrap32 (Z.abs (measured - rate) * 200) <=? rate.

Definition rm_frame_rate (m : RateMeter) : option Z :=
  if zlen (rm_frame_gaps m) <? MIN_FRAME_SAMPLES then None
  else
    let gaps := merge_sort Z.le (rm_frame_gaps m) in
    let median := byte_at gaps (zlen gaps / 2) in
    measured ← checked u32_max (PTS_TICKS_PER_SECOND * 1000 / Z.max median 1);
    Some (default measured (List.find (near_rate measured) STANDARD_RATES_MILLIHERTZ)).

(** [iter.sum()] *)
Fixpoint zsum (l : list Z) : Z :=
  match l with [] => 0 | x :: l => x + zsum l end.

(** [slice.windows(n)] *)
Fixpoint windows (n : nat) (l : list Z) : list (list Z) :=
  match l with
  | [] => []
  | x :: l' => if (length l <? n)%nat then [] else take n l :: windows n l'
  end.

Definition window_rate (window : list Z) : Z :=
  sat_mul u64_max (wrap64 (zsum window)) (MPEG_TS_PACKET_SIZE * 8) / zlen window.

(** [iter.max()] over unsigned values. *)
Definition list_max (l : list Z) : option Z :=
  match l with [] => None | x :: l => Some (fold_left Z.max l x) end.

(** The complete media seconds: without the first and the current one. *)
Definition complete_seconds (m : RateMeter) : list Z :=
  ztake (sat_sub (zlen (rm_seconds m)) 2) (zdrop 1 (rm_seconds m)).

Definition rm_rates (m : RateMeter) : option StreamRates :=
  let complete := complete_seconds m in
  if zlen complete <? MIN_COMPLETE_SECONDS then None
  else
    let average := window_rate complete in
    let peak :=
      Z.max average
        (default average
           (list_max (map window_rate
              (windows (Z.to_nat (Z.min PEAK_WINDOW_SECONDS (zlen complete))) complete)))) in
    let swing := i64_sat_sub (rm_max_offset_millis m) (rm_min_offset_millis m) in
    Some (mkStreamRates average peak
            (Z.max 0 swing * 1000000)
            (rm_frame_rate m)
            (rm_measured_ticks m / (PCR_TICKS_PER_SECOND / 1000) * 1000000)).

(** True for the PMT stream types that carry video. *)
Definition is_video_stream_type (stream_type : Z) : bool :=
  (stream_type =? 0x01) || (stream_type =? 0x02) || (stream_type =? 0x10)
  || (stream_type =? 0x1b) || (stream_type =? 0x24).

(** ** Independence from delivery timing *)

(** Two meters that agree on everything but the wall clock. *)
Record rm_same (m1 m2 : RateMeter) : Prop := {
  same_last : rm_last m1 = rm_last m2;
  same_origin : fst <$> rm_origin m1 = fst <$> rm_origin m2;
  same_seconds : rm_seconds m1 = rm_seconds m2;
  same_current : rm_current_second m1 = rm_current_second m2;
  same_measured : rm_measured_ticks m1 = rm_measured_ticks m2;
  same_pid : rm_video_pid m1 = rm_video_pid m2;
  same_decode : rm_last_decode m1 = rm_last_decode m2;
  same_gaps : rm_frame_gaps m1 = rm_frame_gaps m2;
}.

#[export] Instance rm_same_equiv : Equivalence rm_same.
Proof.
  split.
  - intros m. by split.
  - intros m1 m2 []. by split.
  - intros m1 m2 m3 [] []. by split; congruence.
Qed.

(** Any two instants. *)
Definition any_instant (now1 now2 : Z) : Prop := True.

#[export] Instance observe_offset_same :
  Proper (rm_same ==> eq ==> any_instant ==> rm_same) observe_offset.
Proof.
  intros m1 m2 [] t ? <- n1 n2 _. unfold observe_offset.
  destruct (rm_origin m1) as [[o1 i1]|] eqn:E1, (rm_origin m2) as [[o2 i2]|] eqn:E2;
    simplify_eq/=; split; cbn; rewrite ?E1, ?E2; congruence.
Qed.

#[export] Instance observe_clock_same :
  Proper (rm_same ==> eq ==> eq ==> any_instant ==> rm_same) observe_clock.
Proof.
  intros m1 m2 Hm t ? <- s ? <- n1 n2 Hn. unfold observe_clock.
  pose proof Hm as []. rewrite same_last0. destruct (rm_last m2) as [last|].
  - case_match; [done|]. apply observe_offset_same; [|done..].
    split; cbn; congruence.
  - split; cbn; congruence.
Qed.

#[export] Instance observe_video_same : Proper (rm_same ==> eq ==> rm_same) observe_video.
Proof.
  intros m1 m2 Hm p ? <-. unfold observe_video. destruct (pes_decode_timestamp p); [|done].
  destruct Hm. split; cbn; try done. by rewrite same_decode0, same_gaps0.
Qed.

#[export] Instance set_video_pid_same : Proper (rm_same ==> eq ==> rm_same) set_video_pid.
Proof.
  intros m1 m2 Hm pid ? <-. unfold set_video_pid. pose proof Hm as [].
  rewrite same_pid0. case_decide; [done|]. by split.
Qed.

(** What the ring feeds the meter. *)
Inductive MeterEvent :=
| EvClock (ticks sequence : Z)
| EvVideo (packet : bytes)
| EvVideoPid (pid : option Z).

Definition meter_step (m : RateMeter) (now : Z) (e : MeterEvent) : RateMeter :=
  match e with
  | EvClock ticks sequence => observe_clock m ticks sequence now
  | EvVideo packet => observe_video m packet
  | EvVideoPid pid => set_video_pid m pid
  end.

(** A run of events, each at its own instant of arrival. *)
Definition meter_run (m : RateMeter) (events : list (MeterEvent * Z)) : RateMeter :=
  fold_left (fun m '(e, now) => meter_step m now e) events m.

Lemma meter_run_same events1 events2 m1 m2 :
  fst <$> events1 = fst <$> events2 -> rm_same m1 m2 ->
  rm_same (meter_run m1 events1) (meter_run m2 events2).
Proof.
  revert events2 m1 m2.
  induction events1 as [|[e n1] events1 IH]; intros [|[e2 n2] events2] m1 m2 Hev Hm; try done.
  simplify_eq/=. apply IH; [done|]. destruct e2; cbn.
  - by apply observe_clock_same.
  - by apply observe_video_same.
  - by apply set_video_pid_same.
Qed.

Lemma rm_rates_same m1 m2 :
  rm_same m1 m2 ->
  (fun r => (average_bits_per_second r, peak_bits_per_second r,
             frame_rate_millihertz r, measured r)) <$> rm_rates m1 =
  (fun r => (average_bits_per_second r, peak_bits_per_second r,
             frame_rate_millihertz r, measured r)) <$> rm_rates m2.
Proof.
  intros []. unfold rm_rates, complete_seconds, rm_frame_rate.
  rewrite same_seconds0, same_gaps0, same_measured0. by case_match.
Qed.

(** A provider burst does not change the measured rates: two deliveries
    of the same stream, at any two paces, give the same average and peak
    bitrate, frame rate and measured time.  Only [burst] reads the wall
    clock. *)
Theorem rates_ignore_delivery_pace events1 events2 :
  fst <$> events1 = fst <$> events2 ->
  (fun r => (average_bits_per_second r, peak_bits_per_second r,
             frame_rate_millihertz r, measured r)) <$> rm_rates (meter_run rm_default events1) =
  (fun r => (average_bits_per_second r, peak_bits_per_second r,
             frame_rate_millihertz r, measured r)) <$> rm_rates (meter_run rm_default events2).
Proof. intros. by apply rm_rates_same, meter_run_same. Qed.

(** ** Frame rate *)

Definition gaps_ok (m : RateMeter) : Prop :=
  zlen (rm_frame_gaps m) <= FRAME_SAMPLES /\
  Forall (fun g => 0 < g < PTS_TICKS_PER_SECOND) (rm_frame_gaps m).

Lemma keep_back_len {A} n (l : list A) : 0 <= n -> zlen (keep_back n l) <= n.
Proof. intros. unfold keep_back. zlia. Qed.

Lemma keep_back_id {A} n (l : list A) : zlen l <= n -> keep_back n l = l.
Proof.
  intros. unfold keep_back, zdrop. replace (Z.to_nat _) with 0%nat by lia. done.
Qed.

Lemma meter_step_gaps m now e : gaps_ok m -> gaps_ok (meter_step m now e).
Proof.
  intros [Hl Hf]. destruct e as [t s|p|pid]; cbn.
  - unfold observe_clock, observe_offset. by repeat case_match.
  - unfold observe_video. destruct (pes_decode_timestamp p); [|done].
    destruct (rm_last_decode m); [|done]. case_match; [|done]. split; cbn.
    + by apply keep_back_len.
    + unfold keep_back. apply Forall_zdrop, Forall_app. split; [done|].
      constructor; [lia|done].
  - unfold set_video_pid. case_decide; [done|]. split; cbn; [|done].
    unfold FRAME_SAMPLES. zlia.
Qed.

Lemma meter_run_gaps events m : gaps_ok m -> gaps_ok (meter_run m events).
Proof.
  revert m. induction events as [|[e now] events IH]; intros m Hm; cbn; [done|].
  by apply IH, meter_step_gaps.
Qed.

(** The [u32] product in [near_rate] wraps for a median gap below five ticks,
    and the wrapped product is still larger than every standard rate, so the
    test is exact for every median gap the meter can hold. *)
Lemma near_rate_exact median rate :
  0 < median < PTS_TICKS_PER_SECOND -> rate ∈ STANDARD_RATES_MILLIHERTZ ->
  near_rate (PTS_TICKS_PER_SECOND * 1000 / median) rate = true <->
  Z.abs (PTS_TICKS_PER_SECOND * 1000 / median - rate) * 200 <= rate.
Proof.
  unfold PTS_TICKS_PER_SECOND. intros Hm Hr.
  assert (23976 <= rate <= 60000) as Hrange.
  { unfold STANDARD_RATES_MILLIHERTZ in Hr.
    repeat (apply elem_of_cons in Hr as [->|Hr]; [lia|]). by apply elem_of_nil in Hr. }
  destruct (decide (median < 5)) as [Hsmall|].
  - assert (median = 1 \/ median = 2 \/ median = 3 \/ median = 4) as Hc by lia.
    unfold near_rate, wrap32. rewrite Z.leb_le.
    destruct Hc as [-> | [-> | [-> | ->]]];
      match goal with |- context [?a / ?b] => let v := eval vm_compute in (a / b) in change (a / b) with v end;
      Z.to_euclidean_division_equations; lia.
  - assert (0 <= 90000 * 1000 / median <= 18000000).
    { split; [apply Z.div_pos; lia|]. apply Z.div_le_upper_bound; lia. }
    unfold near_rate, wrap32. rewrite Z.mod_small by lia. lia.
Qed.

Lemma median_in_gaps m :
  gaps_ok m -> MIN_FRAME_SAMPLES <= zlen (rm_frame_gaps m) ->
  let gaps := merge_sort Z.le (rm_frame_gaps m) in
  byte_at gaps (zlen gaps / 2) ∈ rm_frame_gaps m.
Proof.
  intros _ Hl gaps. assert (gaps ≡ₚ rm_frame_gaps m) as Hp by apply merge_sort_Permutation.
  rewrite <- Hp. apply list_elem_of_In. unfold byte_at. apply nth_In.
  apply Permutation_length in Hp. unfold zlen, MIN_FRAME_SAMPLES in *.
  pose proof (Z.div_lt_upper_bound (Z.of_nat (length gaps)) 2 (Z.of_nat (length gaps))).
  pose proof (Z.div_pos (Z.of_nat (length gaps)) 2). lia.
Qed.

(** The reported frame rate is the rate of a decode-timestamp gap of the
    stream: the standard rate within 0.5 % of it when there is one, and
    otherwise the measured rate itself. *)
Theorem frame_rate_snaps events r :
  rm_frame_rate (meter_run rm_default events) = Some r ->
  exists median,
    median ∈ rm_frame_gaps (meter_run rm_default events) /\
    0 < median < PTS_TICKS_PER_SECOND /\
    let measured := PTS_TICKS_PER_SECOND * 1000 / median in
    (r ∈ STANDARD_RATES_MILLIHERTZ /\ Z.abs (measured - r) * 200 <= r) \/
    (r = measured /\
     Forall (fun rate => rate < Z.abs (measured - rate) * 200) STANDARD_RATES_MILLIHERTZ).
Proof.
  assert (gaps_ok (meter_run rm_default events)) as Hg.
  { apply meter_run_gaps. split; [|constructor]. cbn. unfold FRAME_SAMPLES. zlia. }
  generalize dependent (meter_run rm_default events). intros m Hg.
  unfold rm_frame_rate. destruct (Z.ltb_spec (zlen (rm_frame_gaps m)) MIN_FRAME_SAMPLES); [done|].
  pose proof (median_in_gaps m Hg ltac:(done)) as Hin. cbn zeta in Hin.
  set (median := byte_at _ _) in *.
  assert (0 < median < PTS_TICKS_PER_SECOND) as Hm.
  { destruct Hg as [_ Hg]. rewrite Forall_forall in Hg. auto. }
  rewrite (Z.max_l median 1) by lia.
  destruct (checked u32_max _) as [x|] eqn:Hx; [|done]. apply checked_inv in Hx as [-> _].
  cbn [mbind option_bind].
  destruct (List.find (near_rate (PTS_TICKS_PER_SECOND * 1000 / median)) STANDARD_RATES_MILLIHERTZ)
    as [rate|] eqn:Hf; cbn [default]; intros [= <-]; exists median; (split; [done|]); (split; [done|]).
  - left. apply find_some in Hf as [Hl Hn]. apply list_elem_of_In in Hl.
    split; [done|]. by apply near_rate_exact.
  - right. split; [done|]. rewrite Forall_forall. intros rate Hrate.
    pose proof (proj1 (list_elem_of_In _ _) Hrate) as Hi.
    pose proof (find_none _ _ Hf rate Hi) as Hn.
    apply Z.lt_nge. intros Hle. apply near_rate_exact in Hle; [congruence|done..].
Qed.

(** ** Packets per media second *)

(** Specification: the packets between two clock marks belong to the media
    second of the later mark. *)
Fixpoint deltas (prev : Z) (marks : list (Z * Z)) : list (Z * Z) :=
  match marks with
  | [] => []
  | (ticks, sequence) :: marks =>
      (ticks / PCR_TICKS_PER_SECOND, sequence - prev) :: deltas sequence marks
  end.

Definition in_second (ds : list (Z * Z)) (second : Z) : Z :=
  zsum (map (fun d => if fst d =? second then snd d else 0) ds).

(** Packets of each media second from [base] to [current]. *)
Definition seconds_spec (ds : list (Z * Z)) (base current : Z) : list Z :=
  map (fun k => in_second ds (base + k)) (seqZ 0 (current - base + 1)).

(** Marks in stream order after the mark at ([ticks], [sequence]). *)
Inductive mark_chain : Z -> Z -> list (Z * Z) -> Prop :=
| mark_chain_nil ticks sequence : mark_chain ticks sequence []
| mark_chain_cons ticks sequence ticks' sequence' marks :
    ticks <= ticks' -> sequence < sequence' -> mark_chain ticks' sequence' marks ->
    mark_chain ticks sequence ((ticks', sequence') :: marks).

Lemma zsum_app l k : zsum (l ++ k) = zsum l + zsum k.
Proof. induction l as [|x l IH]; cbn; [done|]. rewrite IH. lia. Qed.

Lemma in_second_snoc ds x p s :
  in_second (ds ++ [(x, p)]) s = in_second ds s + if x =? s then p else 0.
Proof. unfold in_second. rewrite map_app, zsum_app. cbn. destruct (x =? s); lia. Qed.

Lemma in_second_above ds c s :
  Forall (fun d => fst d <= c) ds -> c < s -> in_second ds s = 0.
Proof.
  intros Hds Hs. induction Hds as [|d ds Hd Hds IH]; [done|]. unfold in_second in *. cbn.
  rewrite IH. by rewrite (proj2 (Z.eqb_neq _ _)) by lia.
Qed.

Lemma in_second_bound ds s :
  Forall (fun d => 0 <= snd d) ds -> 0 <= in_second ds s <= zsum (map snd ds).
Proof.
  intros Hds. induction Hds as [|d ds Hd Hds IH]; [cbn; lia|]. unfold in_second in *. cbn.
  destruct (fst d =? s); lia.
Qed.

Lemma seqZ_snoc n m : 0 <= m -> seqZ n (m + 1) = seqZ n m ++ [n + m].
Proof. intros. rewrite seqZ_app by lia. f_equal. Qed.

Lemma seconds_spec_extend ds b c c' :
  Forall (fun d => fst d <= c) ds -> b <= c <= c' ->
  seconds_spec ds b c ++ replicate (Z.to_nat (c' - c)) 0 = seconds_spec ds b c'.
Proof.
  intros Hds Hc. unfold seconds_spec.
  replace (c' - b + 1) with ((c - b + 1) + (c' - c)) by lia.
  rewrite (seqZ_app 0 (c - b + 1) (c' - c)), map_app by lia. f_equal.
  apply replicate_as_elem_of.
  split; [by rewrite length_map, length_seqZ|].
  intros y Hy. apply list_elem_of_In, in_map_iff in Hy as (k & <- & Hk).
  apply list_elem_of_In, elem_of_seqZ in Hk. apply (in_second_above ds c); [done|lia].
Qed.

Lemma alter_back_snoc f l x : alter_back f (l ++ [x]) = l ++ [f x].
Proof.
  induction l as [|y l IH]; [done|]. cbn. rewrite <- IH. by destruct l.
Qed.

Lemma seconds_spec_add ds b c p :
  b <= c -> Forall (fun d => 0 <= snd d) ds -> zsum (map snd ds) + p <= u64_max ->
  alter_back (fun x => sat_add u64_max x p) (seconds_spec ds b c) =
  seconds_spec (ds ++ [(c, p)]) b c.
Proof.
  intros Hc Hds Hp. unfold seconds_spec. rewrite seqZ_snoc, !map_app by lia. cbn [map].
  rewrite alter_back_snoc. f_equal.
  - apply map_ext_in. intros k Hk. apply list_elem_of_In, elem_of_seqZ in Hk.
    rewrite in_second_snoc, (proj2 (Z.eqb_neq _ _)) by lia. lia.
  - f_equal. rewrite in_second_snoc. replace (b + (0 + (c - b))) with c by lia.
    rewrite Z.eqb_refl. pose proof (in_second_bound ds c Hds). unfold sat_add. lia.
Qed.

Lemma advance_seconds_spec ds b c c' p :
  Forall (fun d => fst d <= c) ds -> Forall (fun d => 0 <= snd d) ds ->
  b <= c <= c' -> c' - b < WINDOW_SECONDS -> zsum (map snd ds) + p <= u64_max ->
  advance_seconds (seconds_spec ds b c) c c' p = seconds_spec (ds ++ [(c', p)]) b c'.
Proof.
  intros Hle Hnn Hc Hw Hp. unfold advance_seconds, WINDOW_SECONDS in *.
  assert ((if c <? c' then seconds_spec ds b c ++ replicate (Z.to_nat (Z.min (c' - c) 120)) 0
           else seconds_spec ds b c) = seconds_spec ds b c') as ->.
  { destruct (Z.ltb_spec c c').
    - rewrite Z.min_l by lia. by apply seconds_spec_extend.
    - by replace c' with c by lia. }
  rewrite seconds_spec_add by (done || lia). apply keep_back_id.
  unfold zlen, seconds_spec. rewrite length_map, length_seqZ. lia.
Qed.

Lemma meter_run_marks b marks t s m ds nows :
  length nows = length marks -> mark_chain t s marks ->
  rm_last m = Some (mkClockMark t s) -> rm_current_second m = t / PCR_TICKS_PER_SECOND ->
  rm_seconds m = seconds_spec ds b (t / PCR_TICKS_PER_SECOND) ->
  Forall (fun d => fst d <= t / PCR_TICKS_PER_SECOND) ds -> Forall (fun d => 0 <= snd d) ds ->
  b <= t / PCR_TICKS_PER_SECOND -> 0 <= zsum (map snd ds) <= s ->
  Forall (fun '(t', s') => t' / PCR_TICKS_PER_SECOND - b < WINDOW_SECONDS /\ is_u64 s') marks ->
  rm_seconds (meter_run m (zip (map (fun '(t', s') => EvClock t' s') marks) nows)) =
  seconds_spec (ds ++ deltas s marks) b
    (from_option (fun '(t', _) => t') t (last marks) / PCR_TICKS_PER_SECOND).
Proof.
  intros Hn Hc. revert m ds nows Hn.
  induction Hc as [t s|t s t' s' marks Ht Hs Hc IH];
    intros m ds nows Hn Hl Hcur Hsec Hle Hnn Hb Hsum Hall.
  { cbn. by rewrite app_nil_r. }
  destruct nows as [|now nows]; [done|]. apply Forall_cons in Hall as [[Hw Hu] Hall'].
  assert (t / PCR_TICKS_PER_SECOND <= t' / PCR_TICKS_PER_SECOND) as Hdiv by (apply Z.div_le_mono; [done|lia]).
  cbn [map zip zip_with meter_run fold_left meter_step].
  set (m' := observe_clock m t' s' now).
  assert (rm_last m' = Some (mkClockMark t' s') /\
          rm_current_second m' = t' / PCR_TICKS_PER_SECOND /\
          rm_seconds m' = seconds_spec (ds ++ [(t' / PCR_TICKS_PER_SECOND, s' - s)]) b
                            (t' / PCR_TICKS_PER_SECOND)) as (H1 & H2 & H3).
  { unfold m', observe_clock. rewrite Hl. cbn [cm_sequence].
    rewrite (proj2 (Z.leb_gt _ _)) by lia. unfold is_u64 in Hu.
    rewrite Hcur, Hsec, advance_seconds_spec by (done || (unfold u64_max; lia)).
    rewrite Z.max_r by lia. unfold observe_offset. by repeat case_match. }
  set (ds' := ds ++ [(t' / PCR_TICKS_PER_SECOND, s' - s)]) in *.
  assert (Forall (fun d => fst d <= t' / PCR_TICKS_PER_SECOND) ds') as Hle'.
  { apply Forall_app. split; [|repeat constructor; cbn; lia].
    eapply Forall_impl; [exact Hle|]. cbn. lia. }
  assert (Forall (fun d => 0 <= snd d) ds') as Hnn'.
  { apply Forall_app. split; [done|]. repeat constructor. cbn. lia. }
  assert (zsum (map snd ds') = zsum (map snd ds) + (s' - s)) as Hsum'.
  { unfold ds'. rewrite map_app, zsum_app. cbn. lia. }
  fold (meter_run m' (zip (map (fun '(t'0, s'0) => EvClock t'0 s'0) marks) nows)).
  rewrite (IH m' ds' nows) by (done || lia || (cbn in Hn; congruence)).
  unfold ds'. cbn [deltas]. rewrite <- app_assoc. cbn [app]. f_equal. f_equal.
  destruct marks as [|z marks]; [done|]. rewrite last_cons_cons.
  destruct (last (z :: marks)) eqn:El; [done|]. by apply last_None in El.
Qed.

(** Bitrate accounting: the deque of per-second counts is exactly the
    number of packets of each media second of the stream, as long as the
    stream is no longer than the 120 s window; no packet is lost, counted
    twice or moved to another second, at any delivery pace. *)
Theorem seconds_exact t s marks nows now :
  length nows = length marks -> mark_chain t s marks -> 0 <= s ->
  Forall (fun '(t', s') =>
    t' / PCR_TICKS_PER_SECOND - t / PCR_TICKS_PER_SECOND < WINDOW_SECONDS /\ is_u64 s') marks ->
  rm_seconds (meter_run rm_default
    (zip (map (fun '(t', s') => EvClock t' s') ((t, s) :: marks)) (now :: nows))) =
  seconds_spec (deltas s marks) (t / PCR_TICKS_PER_SECOND)
    (from_option (fun '(t', _) => t') t (last marks) / PCR_TICKS_PER_SECOND).
Proof.
  intros Hn Hc Hs Hall. cbn [map zip zip_with meter_run fold_left meter_step].
  set (m := observe_clock rm_default t s now).
  fold (meter_run m (zip (map (fun '(t', s') => EvClock t' s') marks) nows)).
  rewrite (meter_run_marks (t / PCR_TICKS_PER_SECOND) marks t s m [] nows);
    try done.
  unfold m. cbn [observe_clock rm_default rm_last rm_seconds app]. unfold seconds_spec.
  rewrite Z.sub_diag. done.
Qed.
