(* ===== verification/Ring.v ===== *)
(** * The packet ring

    Models [crates/media/src/ring.rs]: the bounded ring that one upstream
    session writes and every viewer reads through its own cursor.

    The state behind the ring's mutex is [RingState]; every operation takes it
    and returns the new one, as the code does while it holds the lock.  The
    instants the code reads from the clock are arguments.  The [bool] beside a
    write's result says whether it called [notify_waiters]. *)
From Stdlib Require Import ZArith Lia.
From stdpp Require Import base numbers option.
From stdpp Require Import list sorting.
From S2P Require Import Prelude Psi Pacing Meter.
Open Scope Z_scope.
Open Scope relay_scope.

(** ** Configuration *)

Record MpegTsRingConfig := mkMpegTsRingConfig {
  capacity_packets : Z;
  pre_roll_packets : Z;
}.

Inductive RingConfigError :=
| EmptyCapacity
| PreRollExceedsCapacity (capacity_packets pre_roll_packets : Z)
| ZeroBitrate
| CapacityOverflow.

Definition config_new (capacity_packets pre_roll_packets : Z)
  : result MpegTsRingConfig RingConfigError :=
  if capacity_packets =? 0 then Err EmptyCapacity
  else
    try _ <- ok_or (checked u64_max (capacity_packets * MPEG_TS_PACKET_SIZE)) CapacityOverflow;
    if capacity_packets <? pre_roll_packets
    then Err (PreRollExceedsCapacity capacity_packets pre_roll_packets)
    else Ok (mkMpegTsRingConfig capacity_packets pre_roll_packets).

Definition packets_for_duration (bitrate_bits_per_second duration : Z)
  : result Z RingConfigError :=
  try bit_nanoseconds <-
    ok_or (checked u128_max (bitrate_bits_per_second * duration)) CapacityOverflow;
  let bits_per_packet_nanoseconds := MPEG_TS_PACKET_SIZE * 8 * 1000000000 in
  try rounded <-
    ok_or (checked u128_max (bit_nanoseconds + (bits_per_packet_nanoseconds - 1))) CapacityOverflow;
  ok_or (checked u64_max (rounded / bits_per_packet_nanoseconds)) CapacityOverflow.

Definition config_for_bitrate (bitrate_bits_per_second buffer_duration pre_roll : Z)
  : result MpegTsRingConfig RingConfigError :=
  if bitrate_bits_per_second =? 0 then Err ZeroBitrate
  else
    try capacity_packets <- packets_for_duration bitrate_bits_per_second buffer_duration;
    try pre_roll_packets <- packets_for_duration bitrate_bits_per_second pre_roll;
    config_new capacity_packets pre_roll_packets.

Definition DEFAULT_PRE_ROLL : Z := 2 * NANOS_PER_SECOND.

Definition config_with_default_pre_roll (bitrate_bits_per_second buffer_duration : Z)
  : result MpegTsRingConfig RingConfigError :=
  config_for_bitrate bitrate_bits_per_second buffer_duration DEFAULT_PRE_ROLL.

Definition capacity_bytes (config : MpegTsRingConfig) : Z :=
  capacity_packets config * MPEG_TS_PACKET_SIZE.

(** ** State *)

Inductive RingCloseReason :=
| EndOfStream
| Shutdown
| UpstreamError (message : bytes)
| RecoveryExpired (attempts : Z).

Record RingState := mkRingState {
  storage : bytes;
  generation : Z;
  first_sequence : Z;
  next_sequence : Z;
  safe_boundaries : list Z;
  psi : PatPmtTracker;
  ring_pcr_pid : option Z;
  pcr : PcrTimeline;
  meter : RateMeter;
  first_write : option Z;
  bytes_written : Z;
  closed : option RingCloseReason;
}.

Record RingSnapshot := mkRingSnapshot {
  snap_generation : Z;
  snap_first_sequence : Z;
  snap_next_sequence : Z;
  snap_retained_packets : Z;
  snap_capacity_packets : Z;
  snap_closed : option RingCloseReason;
}.

Inductive RingWriteError :=
| Unaligned (bytes : Z)
| InvalidSyncByte (packet_index actual : Z)
| WriteClosed (generation : Z) (reason : RingCloseReason)
| SequenceExhausted.

Record WriteOutcome := mkWriteOutcome {
  wo_generation : Z;
  wo_packets_written : Z;
  wo_packets_overwritten : Z;
  wo_first_sequence : Z;
  wo_next_sequence : Z;
}.

Definition ring_new (config : MpegTsRingConfig) : RingState :=
  mkRingState (replicate (Z.to_nat (capacity_bytes config)) 0) 0 0 0 [] pt_default None
    tl_default rm_default None 0 None.

(** ** Writing *)

(** The PID of the first video elementary stream in the newest PMT. *)
Definition video_pid (psi : PatPmtTracker) : option Z :=
  '(section, program) ← completed_pmt psi;
  streams ← parse_pmt_elementary_streams section program;
  es_pid <$> List.find (fun stream => is_video_stream_type (es_stream_type stream)) streams.

Definition packet_pid (packet : bytes) : Z := pid_of (byte_at packet 1) (byte_at packet 2).

(** The first packet that does not start with the sync byte. *)
Fixpoint find_bad_sync (packet_index : Z) (packets : list bytes) : option (Z * Z) :=
  match packets with
  | [] => None
  | packet :: packets =>
      if negb (byte_at packet 0 =? 0x47) then Some (packet_index, byte_at packet 0)
      else find_bad_sync (packet_index + 1) packets
  end.

(** [storage[offset..offset + 188].copy_from_slice(packet)] *)
Definition store_packet (config : MpegTsRingConfig) (storage : bytes) (sequence : Z)
    (packet : bytes) : bytes :=
  let slot := sequence mod capacity_packets config in
  let offset := slot * MPEG_TS_PACKET_SIZE in
  splice offset packet storage.

(** The PSI, clock and meter part of the write loop's body. *)
Definition observe_packet (st : RingState) (packet : bytes) (now : Z) : RingState :=
  let sequence := next_sequence st in
  let '(psi', boundary) := pt_observe (psi st) packet sequence in
  let '(boundaries', pcr_pid', meter1) :=
    match boundary with
    | None => (safe_boundaries st, ring_pcr_pid st, meter st)
    | Some boundary =>
        (safe_boundaries st ++ [boundary], pcr_pid psi',
         set_video_pid (meter st) (video_pid psi'))
    end in
  let pid := packet_pid packet in
  let '(pcr', meter2) :=
    if decide (pcr_pid' = Some pid) then
      let pcr' := tl_observe (pcr st) packet sequence in
      (pcr', match head_ticks pcr' with
             | None => meter1
             | Some head => observe_clock meter1 head sequence now
             end)
    else (pcr st, meter1) in
  let meter3 :=
    if decide (rm_video_pid meter2 = Some pid) then observe_video meter2 packet else meter2 in
  mkRingState (storage st) (generation st) (first_sequence st) (next_sequence st)
    boundaries' psi' pcr_pid' pcr' meter3 (first_write st) (bytes_written st) (closed st).

(** One turn of the write loop. *)
Definition push_packet (config : MpegTsRingConfig) (now : Z) (st : RingState) (packet : bytes)
  : RingState :=
  let sequence := next_sequence st in
  let st := observe_packet st packet now in
  let next := wrap64 (sequence + 1) in
  mkRingState (store_packet config (storage st) sequence packet) (generation st)
    (sat_sub next (capacity_packets config)) next
    (safe_boundaries st) (psi st) (ring_pcr_pid st) (pcr st) (meter st)
    (first_write st) (bytes_written st) (closed st).

(** [while front < first { pop_front }] *)
Fixpoint drop_below (bound : Z) (l : list Z) : list Z :=
  match l with
  | [] => []
  | x :: l' => if x <? bound then drop_below bound l' else l
  end.

(** What [push] does after the write loop. *)
Definition push_finish (st : RingState) (packet_count length now : Z) : RingState :=
  let first := first_sequence st in
  mkRingState (storage st) (generation st) first (next_sequence st)
    (drop_below first (safe_boundaries st))
    (if match candidate_start (psi st) with Some c => c <? first | None => false end
     then pt_reset (psi st) else psi st)
    (ring_pcr_pid st) (tl_prune (pcr st) first) (meter st)
    (match first_write st with
     | None => if 0 <? packet_count then Some now else None
     | Some i => Some i
     end)
    (sat_add u64_max (bytes_written st) length) (closed st).

(** [push].  [now] is the instant read before the loop, [now_end] the one
    read for [first_write]. *)
Definition push (config : MpegTsRingConfig) (st : RingState) (data : bytes) (now now_end : Z)
  : RingState * result WriteOutcome RingWriteError * bool :=
  if negb (zlen data mod MPEG_TS_PACKET_SIZE =? 0) then (st, Err (Unaligned (zlen data)), false)
  else
    let packets := chunks_exact MPEG_TS_PACKET_SIZE data in
    match find_bad_sync 0 packets with
    | Some (packet_index, actual) => (st, Err (InvalidSyncByte packet_index actual), false)
    | None =>
        let packet_count := zlen data / MPEG_TS_PACKET_SIZE in
        match closed st with
        | Some reason => (st, Err (WriteClosed (generation st) reason), false)
        | None =>
            match checked u64_max (next_sequence st + packet_count) with
            | None => (st, Err SequenceExhausted, false)
            | Some _ =>
                let old_first := first_sequence st in
                let st' := push_finish (fold_left (push_packet config now) packets st)
                             packet_count (zlen data) now_end in
                (st',
                 Ok (mkWriteOutcome (generation st') packet_count
                       (sat_sub (first_sequence st') old_first)
                       (first_sequence st') (next_sequence st')),
                 0 <? packet_count)
            end
        end
    end.

Definition start_new_generation (st : RingState) : RingState * result Z RingWriteError * bool :=
  match checked u64_max (generation st + 1) with
  | None => (st, Err SequenceExhausted, false)
  | Some generation' =>
      (mkRingState (storage st) generation' 0 0 [] (pt_reset (psi st)) None
         (tl_reset (pcr st)) rm_default None 0 None,
       Ok generation', true)
  end.

Definition close (st : RingState) (reason : RingCloseReason) : RingState * bool * bool :=
  match closed st with
  | Some _ => (st, false, false)
  | None =>
      (mkRingState (storage st) (generation st) (first_sequence st) (next_sequence st)
         (safe_boundaries st) (psi st) (ring_pcr_pid st) (pcr st) (meter st)
         (first_write st) (bytes_written st) (Some reason),
       true, true)
  end.

(** ** Reading *)

Record RingCursor := mkRingCursor {
  cur_generation : Z;
  cur_next_sequence : Z;
  cur_waiting_for_safe_boundary : bool;
}.

Inductive RingRead :=
| Packets (generation first_sequence : Z) (data : bytes)
| Lagged (generation skipped_packets resume_at : Z)
| GenerationBoundary (previous_generation generation : Z)
| Closed (generation : Z) (reason : RingCloseReason).

Inductive RingReadError := EmptyRead.

(** [iter().copied().find(|b| b >= target)] *)
Definition boundary_from (st : RingState) (target : Z) : option Z :=
  List.find (fun boundary => target <=? boundary) (safe_boundaries st).

(** [candidate_start().filter(|c| c >= target)] *)
Definition candidate_from (st : RingState) (target : Z) : option Z :=
  match candidate_start (psi st) with
  | Some candidate => if target <=? candidate then Some candidate else None
  | None => None
  end.

Definition safe_resume_position (st : RingState) (target : Z) : Z * bool :=
  match boundary_from st target with
  | Some boundary => (boundary, false)
  | None =>
      match candidate_from st target with
      | Some candidate => (candidate, true)
      | None => (next_sequence st, true)
      end
  end.

Definition read_slot (config : MpegTsRingConfig) (st : RingState) (sequence : Z) : bytes :=
  let slot := sequence mod capacity_packets config in
  let offset := slot * MPEG_TS_PACKET_SIZE in
  slice offset (offset + MPEG_TS_PACKET_SIZE) (storage st).

(** The copy loop of [try_next]. *)
Definition read_packets (config : MpegTsRingConfig) (st : RingState) (first count : Z) : bytes :=
  concat (map (read_slot config st) (seqZ first count)).

Definition closed_read (st : RingState) : option RingRead :=
  Closed (generation st) <$> closed st.

(** The last part of [try_next]: packets from the cursor's position, or the
    close reason at the live edge. *)
Definition read_at (config : MpegTsRingConfig) (st : RingState) (cursor : RingCursor)
    (max_packets : Z) : RingCursor * option RingRead :=
  let first := cur_next_sequence cursor in
  if first <? next_sequence st then
    let available := next_sequence st - first in
    let count := Z.min available max_packets in
    (mkRingCursor (cur_generation cursor) (first + count) (cur_waiting_for_safe_boundary cursor),
     Some (Packets (generation st) first (read_packets config st first count)))
  else (cursor, closed_read st).

Definition try_next (config : MpegTsRingConfig) (st : RingState) (cursor : RingCursor)
    (max_packets : Z) : RingCursor * result (option RingRead) RingReadError :=
  if max_packets =? 0 then (cursor, Err EmptyRead)
  else if negb (cur_generation cursor =? generation st) then
    let '(position, waiting) := safe_resume_position st (first_sequence st) in
    (mkRingCursor (generation st) position waiting,
     Ok (Some (GenerationBoundary (cur_generation cursor) (generation st))))
  else if cur_next_sequence cursor <? first_sequence st then
    let '(position, waiting) := safe_resume_position st (first_sequence st) in
    (mkRingCursor (cur_generation cursor) position waiting,
     Ok (Some (Lagged (generation st) (sat_sub position (cur_next_sequence cursor)) position)))
  else if cur_waiting_for_safe_boundary cursor then
    match boundary_from st (cur_next_sequence cursor) with
    | Some boundary =>
        let '(cursor, event) :=
          read_at config st (mkRingCursor (cur_generation cursor) boundary false) max_packets in
        (cursor, Ok event)
    | None =>
        let position :=
          match candidate_from st (cur_next_sequence cursor) with
          | Some candidate => candidate
          | None => next_sequence st
          end in
        (mkRingCursor (cur_generation cursor) position true, Ok (closed_read st))
    end
  else
    let '(cursor, event) := read_at config st cursor max_packets in
    (cursor, Ok event).

(** ** Subscribing and measuring *)

Definition subscribe_with_pre_roll (st : RingState) (pre_roll : Z) : RingCursor :=
  let target := Z.max (sat_sub (next_sequence st) pre_roll) (first_sequence st) in
  let '(position, waiting) := safe_resume_position st target in
  mkRingCursor (generation st) position waiting.

Definition subscribe (config : MpegTsRingConfig) (st : RingState) : RingCursor :=
  subscribe_with_pre_roll st (pre_roll_packets config).

Definition subscribe_at_live_edge (st : RingState) : RingCursor := subscribe_with_pre_roll st 0.

(** Average write rate of the generation; [now] is the instant of
    [Instant::elapsed]. *)
Definition byte_rate_bps (st : RingState) (now : Z) : option Z :=
  start ← first_write st;
  let elapsed := saturating_duration_since now start in
  if (elapsed <? 2 * NANOS_PER_SECOND) || (bytes_written st <? 1048576) then None
  else checked u64_max (bytes_written st * 8 * 1000000000 / Z.max elapsed 1).

Definition delay_packets (config : MpegTsRingConfig) (st : RingState) (delay now : Z) : Z :=
  let retained := sat_sub (next_sequence st) (first_sequence st) in
  let by_clock :=
    head ← head_ticks (pcr st);
    let target := sat_sub head (duration_to_ticks delay) in
    sequence ← sequence_at_or_after (pcr st) target;
    Some (sat_sub (next_sequence st) sequence) in
  let by_rate :=
    rate ← byte_rate_bps st now;
    Some (wrap64 (rate / 8 * (delay / NANOS_PER_SECOND)) / MPEG_TS_PACKET_SIZE) in
  let wanted :=
    match by_clock with
    | Some packets => packets
    | None => default (pre_roll_packets config) by_rate
    end in
  Z.min wanted retained.

Definition subscribe_with_delay (config : MpegTsRingConfig) (st : RingState) (delay now : Z)
  : RingCursor :=
  subscribe_with_pre_roll st (delay_packets config st delay now).

Definition ring_rates (st : RingState) : option StreamRates := rm_rates (meter st).

Definition ring_ticks_at (st : RingState) (gen sequence : Z) : option Z :=
  if generation st =? gen then ticks_at (pcr st) sequence else None.

Definition lead_millis (st : RingState) (gen sequence now : Z) : option Z :=
  if negb (generation st =? gen) then None
  else
    match head_ticks (pcr st), ticks_at (pcr st) sequence with
    | Some head, Some at_ => Some (ticks_to_millis (sat_sub head at_))
    | _, _ =>
        rate ← byte_rate_bps st now;
        let packets := sat_sub (next_sequence st) sequence in
        let bits := packets * MPEG_TS_PACKET_SIZE * 8 in
        checked u64_max (bits * 1000 / Z.max rate 1)
    end.

Definition snapshot (config : MpegTsRingConfig) (st : RingState) : RingSnapshot :=
  mkRingSnapshot (generation st) (first_sequence st) (next_sequence st)
    (wrap64 (next_sequence st - first_sequence st)) (capacity_packets config) (closed st).
