(* ===== verification/RingSpec.v ===== *)
(** * What the ring promises

    The abstract ring is the list of every packet written in the current
    generation.  This file shows that the byte buffer of [Ring] implements it
    (the refinement), that the invariant holds after every operation, and what
    a cursor reads. *)
From Stdlib Require Import ZArith Lia.
From stdpp Require Import base numbers option.
From stdpp Require Import list sorting.
From S2P Require Import Prelude Psi Pacing Meter Ring.
Open Scope Z_scope.

(** A configuration that [config_new] accepts. *)
Definition config_ok (config : MpegTsRingConfig) : Prop :=
  0 < capacity_packets config /\ capacity_packets config * MPEG_TS_PACKET_SIZE <= u64_max /\
  0 <= pre_roll_packets config <= capacity_packets config.

(** Enough packets for the duration, and less than one packet more. *)
Lemma packets_for_duration_spec bitrate duration n :
  0 <= bitrate -> 0 <= duration -> packets_for_duration bitrate duration = Ok n ->
  0 <= n <= u64_max /\
  bitrate * duration <= n * (MPEG_TS_PACKET_SIZE * 8 * 1000000000) <
    bitrate * duration + MPEG_TS_PACKET_SIZE * 8 * 1000000000.
Proof.
  intros Hb Hd. unfold packets_for_duration.
  destruct (checked u128_max (bitrate * duration)) as [bits|] eqn:E1; cbn [ok_or result_bind]; [|done].
  apply checked_inv in E1 as [-> _].
  destruct (checked u128_max _) as [r|] eqn:E2; cbn [ok_or result_bind]; [|done].
  apply checked_inv in E2 as [-> _].
  destruct (checked u64_max _) as [m|] eqn:E3; cbn [ok_or]; [|done].
  apply checked_inv in E3 as [-> Hm]. intros [= <-]. split; [done|].
  change (MPEG_TS_PACKET_SIZE * 8 * 1000000000) with 1504000000000 in *.
  pose proof (Z.div_mod (bitrate * duration + (1504000000000 - 1)) 1504000000000 ltac:(lia)).
  pose proof (Z.mod_pos_bound (bitrate * duration + (1504000000000 - 1)) 1504000000000 ltac:(lia)).
  lia.
Qed.

Lemma config_new_ok capacity pre_roll config :
  0 <= capacity -> 0 <= pre_roll -> config_new capacity pre_roll = Ok config ->
  config_ok config /\ capacity_packets config = capacity /\ pre_roll_packets config = pre_roll.
Proof.
  intros Hc Hp. unfold config_new, config_ok.
  destruct (Z.eqb_spec capacity 0); [done|].
  destruct (checked _ _) as [x|] eqn:E; cbn [ok_or result_bind]; [|done].
  apply checked_inv in E as [_ E].
  destruct (Z.ltb_spec capacity pre_roll); [done|]. intros [= <-]. cbn. lia.
Qed.

(** ** Invariant

    [h] is the history: every packet written in this generation, oldest
    first.  [ring_core] holds after every turn of the write loop, [ring_inv]
    after every operation. *)
Record ring_core (config : MpegTsRingConfig) (h : list bytes) (bound : Z) (st : RingState) : Prop := {
  rc_storage : zlen (storage st) = capacity_bytes config;
  rc_next : next_sequence st = zlen h;
  rc_first : first_sequence st = sat_sub (zlen h) (capacity_packets config);
  rc_max : zlen h <= u64_max;
  rc_packets : Forall is_packet h;
  rc_slots : forall seq p, first_sequence st <= seq -> 0 <= seq ->
    h !! Z.to_nat seq = Some p -> read_slot config st seq = p;
  rc_psi : bsrc_ok h bound (psi st);
  rc_sorted : StronglySorted Z.lt (safe_boundaries st);
  rc_bounds : Forall (fun b => b <= bound /\ pat_start_at h b) (safe_boundaries st);
}.

Definition ring_inv (config : MpegTsRingConfig) (h : list bytes) (st : RingState) : Prop :=
  exists bound, ring_core config h bound st /\
    Forall (fun b => first_sequence st <= b) (safe_boundaries st) /\
    (forall c, candidate_start (psi st) = Some c -> first_sequence st <= c).

Section Ring.
Context (config : MpegTsRingConfig) (Hcfg : config_ok config).

Lemma slot_range seq :
  0 <= seq mod capacity_packets config * MPEG_TS_PACKET_SIZE /\
  seq mod capacity_packets config * MPEG_TS_PACKET_SIZE + MPEG_TS_PACKET_SIZE <= capacity_bytes config.
Proof.
  destruct Hcfg as (Hc & _ & _).
  pose proof (Z.mod_pos_bound seq (capacity_packets config) Hc).
  unfold capacity_bytes, MPEG_TS_PACKET_SIZE. nia.
Qed.

(** Two retained sequence numbers never share a slot. *)
Lemma slot_distinct s1 s2 :
  s1 < s2 < s1 + capacity_packets config ->
  s1 mod capacity_packets config <> s2 mod capacity_packets config.
Proof.
  destruct Hcfg as (Hc & _ & _). intros Hs Heq.
  assert ((s2 - s1) mod capacity_packets config = 0) as Hz
    by (rewrite Zminus_mod, Heq, Z.sub_diag; apply Z.mod_0_l; lia).
  rewrite Z.mod_small in Hz by lia. lia.
Qed.

Lemma ring_new_inv : ring_inv config [] (ring_new config).
Proof.
  destruct Hcfg as (Hc & Hm & Hp). exists (-1). split; [split; cbn|split; [constructor|done]].
  - unfold zlen. rewrite length_replicate. unfold capacity_bytes, MPEG_TS_PACKET_SIZE. lia.
  - done.
  - unfold sat_sub. change (zlen (@nil bytes)) with 0. lia.
  - done.
  - constructor.
  - by intros.
  - exact (bsrc_reset_ok pt_default [] (-1) ltac:(done)).
  - constructor.
  - constructor.
Qed.

(** *** One turn of the write loop *)

Lemma observe_packet_fields st packet now :
  let st' := observe_packet st packet now in
  storage st' = storage st /\ generation st' = generation st /\
  closed st' = closed st /\ psi st' = fst (pt_observe (psi st) packet (next_sequence st)) /\
  safe_boundaries st' =
    safe_boundaries st ++ option_list (snd (pt_observe (psi st) packet (next_sequence st))).
Proof.
  unfold observe_packet. destruct (pt_observe (psi st) packet (next_sequence st)) as [psi' [b|]];
    cbn; repeat case_match; simplify_eq/=; by rewrite ?app_nil_r.
Qed.

Lemma push_packet_fields now st packet :
  let st' := push_packet config now st packet in
  storage st' = store_packet config (storage st) (next_sequence st) packet /\
  generation st' = generation st /\ closed st' = closed st /\
  next_sequence st' = wrap64 (next_sequence st + 1) /\
  first_sequence st' = sat_sub (wrap64 (next_sequence st + 1)) (capacity_packets config) /\
  psi st' = fst (pt_observe (psi st) packet (next_sequence st)) /\
  safe_boundaries st' =
    safe_boundaries st ++ option_list (snd (pt_observe (psi st) packet (next_sequence st))).
Proof.
  pose proof (observe_packet_fields st packet now) as (H1 & H2 & H3 & H4 & H5).
  unfold push_packet. cbn [storage generation closed next_sequence first_sequence psi safe_boundaries].
  by rewrite H1, H2, H3, H4, H5.
Qed.

Lemma read_slot_store_same st st' seq packet :
  storage st' = store_packet config (storage st) seq packet ->
  zlen (storage st) = capacity_bytes config -> is_packet packet ->
  read_slot config st' seq = packet.
Proof.
  intros Hst Hl Hp%is_packet_zlen. pose proof (slot_range seq).
  unfold read_slot. rewrite Hst. apply slice_splice_same; lia.
Qed.

Lemma read_slot_store_other st st' seq seq' packet :
  storage st' = store_packet config (storage st) seq packet ->
  zlen (storage st) = capacity_bytes config -> is_packet packet ->
  seq' mod capacity_packets config <> seq mod capacity_packets config ->
  read_slot config st' seq' = read_slot config st seq'.
Proof.
  intros Hst Hl Hp%is_packet_zlen Hne. pose proof (slot_range seq). pose proof (slot_range seq').
  unfold read_slot. rewrite Hst. unfold store_packet, MPEG_TS_PACKET_SIZE in *.
  apply slice_splice_other; lia.
Qed.

Lemma push_packet_core h bound now st packet :
  ring_core config h bound st -> is_packet packet -> zlen h + 1 <= u64_max ->
  exists bound', ring_core config (h ++ [packet]) bound' (push_packet config now st packet).
Proof.
  intros Hc Hp Hmax. pose proof (push_packet_fields now st packet) as (Hst & _ & _ & Hn & Hf & Hpsi & Hb).
  destruct Hc as [Hsto Hnext Hfirst Hm Hpk Hsl Hps Hso Hbo].
  pose proof (bsrc_observe_ok h bound (psi st) packet (proj2 Hp) Hps) as Ho. cbn in Ho.
  rewrite Hnext in Hpsi, Hb, Hn, Hf, Hst.
  rewrite wrap64_small in Hn, Hf by (unfold u64_max in *; zlen_facts; lia).
  assert (zlen (h ++ [packet]) = zlen h + 1) as Hlen by zlia.
  assert (is_packet packet) as Hpz%is_packet_zlen by done. pose proof (slot_range (zlen h)) as Hr.
  exists (default bound (snd (pt_observe (psi st) packet (zlen h)))). split.
  - rewrite Hst. unfold store_packet. rewrite zlen_splice; lia.
  - by rewrite Hlen.
  - by rewrite Hlen.
  - by rewrite Hlen.
  - apply Forall_app. split; [done|by constructor].
  - intros seq p Hge H0 Hlk. destruct (decide (seq = zlen h)) as [->|Hne].
    + rewrite lookup_app_r in Hlk by (unfold zlen; lia).
      unfold zlen in Hlk. rewrite Nat2Z.id, Nat.sub_diag in Hlk. injection Hlk as <-.
      by eapply read_slot_store_same.
    + assert (seq < zlen h) as Hlt by (apply lookup_lt_Some in Hlk; rewrite length_app in Hlk; cbn in Hlk; unfold zlen in *; lia).
      rewrite lookup_app_l in Hlk by (unfold zlen in Hlt; lia).
      rewrite Hf in Hge. unfold sat_sub in *.
      rewrite (read_slot_store_other st _ (zlen h) seq packet Hst Hsto Hp).
      * apply Hsl; [lia|done|done].
      * apply slot_distinct. lia.
  - rewrite Hpsi. by destruct (snd (pt_observe _ _ _)) as [b|]; [destruct Ho as (_ & _ & ?)|].
  - rewrite Hb. destruct (snd (pt_observe _ _ _)) as [b|]; cbn; [|by rewrite app_nil_r].
    apply StronglySorted_snoc; [done|]. intros y Hy. rewrite Forall_forall in Hbo.
    destruct (Hbo y Hy). lia.
  - rewrite Hb. apply Forall_app. split.
    + eapply Forall_impl; [exact Hbo|]. intros b [Hb1 Hb2]. split; [|by apply pat_start_at_app].
      destruct (snd (pt_observe _ _ _)); cbn; lia.
    + destruct (snd (pt_observe _ _ _)) as [b|]; cbn; [|constructor].
      constructor; [|done]. split; [lia|]. by destruct Ho as (_ & ? & _).
Qed.

Lemma push_packets_core packets h bound now st :
  ring_core config h bound st -> Forall is_packet packets -> zlen h + zlen packets <= u64_max ->
  exists bound', ring_core config (h ++ packets) bound' (fold_left (push_packet config now) packets st).
Proof.
  intros Hc Hp. revert h bound st Hc.
  induction Hp as [|p packets Hp Hps IH]; intros h bound st Hc Hmax; cbn.
  - exists bound. by rewrite app_nil_r.
  - autorewrite with relay in Hmax. zlen_facts.
    destruct (push_packet_core h bound now st p Hc Hp ltac:(lia)) as [b1 Hc1].
    destruct (IH (h ++ [p]) b1 _ Hc1 ltac:(zlia)) as [b2 Hc2].
    exists b2. by rewrite <- app_assoc in Hc2.
Qed.

Lemma push_packets_fields packets now st :
  generation (fold_left (push_packet config now) packets st) = generation st /\
  closed (fold_left (push_packet config now) packets st) = closed st.
Proof.
  revert st. induction packets as [|p packets IH]; intros st; cbn; [done|].
  destruct (IH (push_packet config now st p)) as [-> ->].
  by pose proof (push_packet_fields now st p) as (_ & -> & -> & _).
Qed.

(** *** The end of a write *)

Lemma drop_below_spec bound l :
  StronglySorted Z.lt l ->
  Forall (fun b => bound <= b) (drop_below bound l) /\ StronglySorted Z.lt (drop_below bound l) /\
  (forall P, Forall P l -> Forall P (drop_below bound l)) /\
  (forall b, b ∈ l -> bound <= b -> b ∈ drop_below bound l).
Proof.
  intros Hl. induction Hl as [|x l Hl IH Hx]; cbn.
  { split; [constructor|]. split; [constructor|]. done. }
  destruct (Z.ltb_spec x bound).
  - destruct IH as (H1 & H2 & H3 & H4). split; [done|]. split; [done|]. split.
    + intros P HP. inversion HP; auto.
    + intros b Hb Hge. apply elem_of_cons in Hb as [->|]; [lia|auto].
  - split; [|split; [by constructor|done]].
    constructor; [lia|]. eapply Forall_impl; [exact Hx|]. cbn. lia.
Qed.

Lemma push_finish_inv h bound st count len now :
  ring_core config h bound st -> ring_inv config h (push_finish st count len now).
Proof.
  intros [Hsto Hnext Hfirst Hm Hpk Hsl Hps Hso Hbo].
  destruct (drop_below_spec (first_sequence st) _ Hso) as (Hge & Hso' & HP & _).
  exists bound. split; [split; cbn; try done; [|by apply HP]|split; cbn; [done|]].
  - case_match; [|done]. exact (bsrc_reset_ok (psi st) h bound (bsrc_bound_lt _ _ _ Hps)).
  - intros c. destruct (candidate_start (psi st)) as [c0|] eqn:E; [|congruence].
    destruct (Z.ltb_spec c0 (first_sequence st)); [done|]. intros Hc. congruence.
Qed.

(** ** The abstract ring *)

Record ARing := mkARing {
  a_generation : Z;
  a_history : list bytes;
  a_closed : option RingCloseReason;
}.

(** Oldest sequence number a reader can still get. *)
Definition a_first (a : ARing) : Z := sat_sub (zlen (a_history a)) (capacity_packets config).

Definition a_push (a : ARing) (data : bytes) : ARing * result Z RingWriteError :=
  let packets := chunks_exact MPEG_TS_PACKET_SIZE data in
  if negb (zlen data mod MPEG_TS_PACKET_SIZE =? 0) then (a, Err (Unaligned (zlen data)))
  else
    match find_bad_sync 0 packets, a_closed a with
    | Some (i, actual), _ => (a, Err (InvalidSyncByte i actual))
    | None, Some reason => (a, Err (WriteClosed (a_generation a) reason))
    | None, None =>
        if zlen (a_history a) + zlen packets <=? u64_max
        then (mkARing (a_generation a) (a_history a ++ packets) None, Ok (zlen packets))
        else (a, Err SequenceExhausted)
    end.

Lemma a_push_cases a data :
  (exists e, a_push a data = (a, Err e)) \/
  a_push a data =
    (mkARing (a_generation a) (a_history a ++ chunks_exact MPEG_TS_PACKET_SIZE data) (a_closed a),
     Ok (zlen (chunks_exact MPEG_TS_PACKET_SIZE data))).
Proof. unfold a_push. repeat case_match; eauto. Qed.

Definition a_new_generation (a : ARing) : ARing * result Z RingWriteError :=
  if a_generation a + 1 <=? u64_max
  then (mkARing (a_generation a + 1) [] None, Ok (a_generation a + 1))
  else (a, Err SequenceExhausted).

Definition a_close (a : ARing) (reason : RingCloseReason) : ARing * bool :=
  match a_closed a with
  | Some _ => (a, false)
  | None => (mkARing (a_generation a) (a_history a) (Some reason), true)
  end.

(** The buffer [st] implements the abstract ring [a]. *)
Definition ring_refines (st : RingState) (a : ARing) : Prop :=
  generation st = a_generation a /\ 0 <= a_generation a <= u64_max /\
  closed st = a_closed a /\ ring_inv config (a_history a) st.

Lemma ring_new_refines : ring_refines (ring_new config) (mkARing 0 [] None).
Proof. split; [done|]. split; [done|]. split; [done|]. apply ring_new_inv. Qed.

Lemma push_ok_inv st h data now now_end :
  ring_inv config h st -> Forall is_u8 data ->
  zlen h + zlen (chunks_exact MPEG_TS_PACKET_SIZE data) <= u64_max ->
  ring_inv config (h ++ chunks_exact MPEG_TS_PACKET_SIZE data)
    (push_finish (fold_left (push_packet config now) (chunks_exact MPEG_TS_PACKET_SIZE data) st)
       (zlen data / MPEG_TS_PACKET_SIZE) (zlen data) now_end).
Proof.
  intros (bound & Hc & _) Hu Hmax.
  destruct (push_packets_core (chunks_exact MPEG_TS_PACKET_SIZE data) h bound now st) as [b Hb];
    [done|by apply chunks_exact_packets|done|].
  by apply (push_finish_inv _ b).
Qed.

Lemma ring_inv_first h st : ring_inv config h st -> first_sequence st = sat_sub (zlen h) (capacity_packets config).
Proof. by intros (b & [] & _). Qed.

Lemma ring_inv_next h st : ring_inv config h st -> next_sequence st = zlen h.
Proof. by intros (b & [] & _). Qed.

(** On every input the ring's write and the abstract append agree. *)
Lemma push_simulates st a data now now_end :
  ring_refines st a -> Forall is_u8 data ->
  let '(st', r, notify) := push config st data now now_end in
  let '(a', r') := a_push a data in
  ring_refines st' a' /\
  r = match r' with
      | Err e => Err e
      | Ok n => Ok (mkWriteOutcome (a_generation a') n (a_first a' - a_first a)
                      (a_first a') (zlen (a_history a')))
      end /\
  notify = match r' with Ok n => 0 <? n | Err _ => false end.
Proof.
  intros Href Hu. pose proof Href as (Hg & Hgb & Hcl & Hi). unfold push, a_push.
  rewrite chunks_exact_length by done.
  destruct (negb _); [done|]. destruct (find_bad_sync _ _) as [[i actual]|]; [done|].
  rewrite Hcl, Hg, (ring_inv_next _ _ Hi). destruct (a_closed a) as [reason|] eqn:Ea; [done|].
  assert (0 <= zlen data / MPEG_TS_PACKET_SIZE) as Hpos by (apply Z.div_pos; [apply zlen_nonneg|done]).
  destruct (Z.leb_spec (zlen (a_history a) + zlen data / MPEG_TS_PACKET_SIZE) u64_max) as [Hle|Hgt].
  2: { unfold checked. rewrite (proj2 (andb_false_iff _ _)) by (right; lia). done. }
  rewrite checked_Some by (zlen_facts; lia).
  pose proof (push_ok_inv st (a_history a) data now now_end Hi Hu) as Hi'.
  rewrite chunks_exact_length in Hi' by done. specialize (Hi' Hle).
  pose proof (push_packets_fields (chunks_exact MPEG_TS_PACKET_SIZE data) now st) as [Hg' Hc'].
  set (st' := push_finish _ _ _ _) in *.
  assert (generation st' = a_generation a) as Hgen by (cbn; congruence).
  split; [split; [done|]; split; [done|]; split; [cbn; congruence|done]|].
  split; [|done]. rewrite Hgen, (ring_inv_first _ _ Hi'), (ring_inv_next _ _ Hi').
  rewrite (ring_inv_first _ _ Hi). unfold a_first. cbn [a_history a_generation].
  do 2 f_equal. apply sat_sub_ge. unfold sat_sub. zlia.
Qed.

(** So do a new generation and a close. *)
Lemma generation_and_close_simulate st a reason :
  ring_refines st a ->
  (let '(st', r, notify) := start_new_generation st in
   let '(a', r') := a_new_generation a in
   ring_refines st' a' /\ r = r' /\ notify = match r' with Ok _ => true | Err _ => false end) /\
  (let '(st', r, notify) := close st reason in
   let '(a', r') := a_close a reason in
   ring_refines st' a' /\ r = r' /\ notify = r').
Proof.
  intros Href. pose proof Href as (Hg & Hgb & Hcl & Hi). split.
  - unfold start_new_generation, a_new_generation. rewrite Hg.
    destruct (Z.leb_spec (a_generation a + 1) u64_max) as [Hle|Hgt].
    2: { unfold checked. rewrite (proj2 (andb_false_iff _ _)) by (right; lia). done. }
    rewrite checked_Some by lia. split; [|done]. split; [done|]. split; [cbn; lia|].
    split; [done|]. destruct Hi as (b & Hc & _ & _).
    destruct ring_new_inv as (b0 & Hnew & _). destruct Hnew, Hc. exists b0.
    split; [split; try done|]. split; [constructor|done].
  - unfold close, a_close. rewrite Hcl. destruct (a_closed a) as [r|] eqn:Ea.
    + done.
    + split; [|done]. split; [done|]. split; [done|]. split; [done|].
      destruct Hi as (b & Hc & Hr). exists b. destruct Hc. by split; [split|].
Qed.

(** ** Whole runs *)

Inductive RingWrite :=
| WPush (data : bytes) (now now_end : Z)
| WGeneration
| WClose (reason : RingCloseReason).

(** What a writer sees of one call, with whether readers were woken. *)
Inductive WriteResult :=
| RPush (r : result WriteOutcome RingWriteError) (notify : bool)
| RGeneration (r : result Z RingWriteError) (notify : bool)
| RClose (r notify : bool).

Definition write_step (st : RingState) (op : RingWrite) : RingState * WriteResult :=
  match op with
  | WPush data now now_end =>
      let '(st', r, notify) := push config st data now now_end in (st', RPush r notify)
  | WGeneration => let '(st', r, notify) := start_new_generation st in (st', RGeneration r notify)
  | WClose reason => let '(st', r, notify) := close st reason in (st', RClose r notify)
  end.

Definition a_outcome (a a' : ARing) (n : Z) : WriteOutcome :=
  mkWriteOutcome (a_generation a') n (a_first a' - a_first a) (a_first a') (zlen (a_history a')).

Definition a_step (a : ARing) (op : RingWrite) : ARing * WriteResult :=
  match op with
  | WPush data _ _ =>
      match a_push a data with
      | (a', Ok n) => (a', RPush (Ok (a_outcome a a' n)) (0 <? n))
      | (a', Err e) => (a', RPush (Err e) false)
      end
  | WGeneration =>
      let '(a', r) := a_new_generation a in
      (a', RGeneration r match r with Ok _ => true | Err _ => false end)
  | WClose reason => let '(a', r) := a_close a reason in (a', RClose r r)
  end.

Definition write_ok (op : RingWrite) : Prop :=
  match op with WPush data _ _ => Forall is_u8 data | _ => True end.

Fixpoint run {S} (step : S -> RingWrite -> S * WriteResult) (s : S) (ops : list RingWrite)
  : S * list WriteResult :=
  match ops with
  | [] => (s, [])
  | op :: ops =>
      let '(s', r) := step s op in
      let '(s'', rs) := run step s' ops in (s'', r :: rs)
  end.

Lemma write_step_simulates st a op :
  ring_refines st a -> write_ok op ->
  ring_refines (fst (write_step st op)) (fst (a_step a op)) /\
  snd (write_step st op) = snd (a_step a op).
Proof.
  intros Href Hop. destruct op as [data now now_end| |reason]; cbn.
  - pose proof (push_simulates st a data now now_end Href Hop) as H.
    destruct (push _ _ _ _ _) as [[st' r] notify], (a_push a data) as [a' r'].
    destruct H as (? & -> & ->). by destruct r'.
  - destruct (generation_and_close_simulate st a EndOfStream Href) as [H _].
    destruct (start_new_generation st) as [[st' r] notify], (a_new_generation a) as [a' r'].
    by destruct H as (? & -> & ->).
  - destruct (generation_and_close_simulate st a reason Href) as [_ H].
    destruct (close st reason) as [[st' r] notify], (a_close a reason) as [a' r'].
    by destruct H as (? & -> & ->).
Qed.

Lemma run_simulates ops st a :
  ring_refines st a -> Forall write_ok ops ->
  ring_refines (fst (run write_step st ops)) (fst (run a_step a ops)) /\
  snd (run write_step st ops) = snd (run a_step a ops).
Proof.
  intros Href Hops. revert st a Href.
  induction Hops as [|op ops Hop Hops IH]; intros st a Href; cbn; [done|].
  destruct (write_step_simulates st a op Href Hop) as [H1 H2].
  destruct (write_step st op) as [st' r], (a_step a op) as [a' r']. cbn in H1, H2. subst r'.
  specialize (IH st' a' H1). destruct (run write_step st' ops), (run a_step a' ops).
  destruct IH as [? E]. cbn in *. by rewrite E.
Qed.

(** C2. Refinement: the ring implements the abstract list of packets.  Over
    any sequence of writes, generation changes and closes on a new ring, every
    result equals the abstract one: unaligned data, a bad sync byte, a closed
    ring and an exhausted sequence space are reported in that order and change
    nothing; otherwise the packets are appended, the window is the last
    [capacity] packets, the overwritten count is how far it moved, and readers
    are woken exactly when a packet was written.  A new generation empties and
    reopens the ring; a close keeps the first reason.  No operation looks at a
    cursor, so no reader can delay a write. *)
Theorem ring_implements_log ops :
  Forall write_ok ops ->
  let '(st, results) := run write_step (ring_new config) ops in
  let '(a, results') := run a_step (mkARing 0 [] None) ops in
  results = results' /\ ring_refines st a.
Proof.
  intros Hops. pose proof (run_simulates ops _ _ ring_new_refines Hops) as [H1 H2].
  destruct (run write_step _ ops), (run a_step _ ops). done.
Qed.

(** Retention: after any sequence of operations the ring's buffer still
    has its configured size, and reading the slot of any sequence number in
    the window [[next - capacity, next)] gives the very packet that was
    written under that number in this generation. *)
Theorem retained_window_intact ops :
  Forall write_ok ops ->
  let st := fst (run write_step (ring_new config) ops) in
  let a := fst (run a_step (mkARing 0 [] None) ops) in
  zlen (storage st) = capacity_bytes config /\
  first_sequence st = a_first a /\ next_sequence st = zlen (a_history a) /\
  forall seq packet, first_sequence st <= seq -> 0 <= seq ->
    a_history a !! Z.to_nat seq = Some packet -> read_slot config st seq = packet.
Proof.
  intros Hops st a. pose proof (run_simulates ops _ _ ring_new_refines Hops) as [(_ & _ & _ & b & Hc & _) _].
  destruct Hc as [Hs Hn Hf _ _ Hsl _ _ _]. done.
Qed.

End Ring.

(** Sizing: a configuration computed from a bitrate is valid, its ring
    holds at least the buffer duration at that bitrate and its pre-roll at
    least the pre-roll duration, each rounded up by less than one packet; the
    intermediate products are checked, so no overflow can shrink the ring. *)
Theorem config_holds_duration bitrate buffer_duration pre_roll config :
  0 <= bitrate -> 0 <= buffer_duration -> 0 <= pre_roll ->
  config_for_bitrate bitrate buffer_duration pre_roll = Ok config ->
  let packet := MPEG_TS_PACKET_SIZE * 8 * NANOS_PER_SECOND in
  config_ok config /\ bitrate <> 0 /\
  bitrate * buffer_duration <= capacity_packets config * packet < bitrate * buffer_duration + packet /\
  bitrate * pre_roll <= pre_roll_packets config * packet < bitrate * pre_roll + packet.
Proof.
  intros Hb Hd Hp. unfold config_for_bitrate. destruct (Z.eqb_spec bitrate 0); [done|].
  destruct (packets_for_duration bitrate buffer_duration) as [c|] eqn:Ec; cbn [result_bind]; [|done].
  destruct (packets_for_duration bitrate pre_roll) as [r|] eqn:Er; cbn [result_bind]; [|done].
  apply packets_for_duration_spec in Ec as [? ?], Er as [? ?]; [|lia..].
  intros Hn. apply config_new_ok in Hn as (Hok & -> & ->); [|lia..]. done.
Qed.
