(* ===== verification/RingCursor.v ===== *)
(** * What a viewer reads

    A ring and one of its cursors, run through any interleaving of writes,
    generation changes, closes and reads.  The ghost [w_log] records every
    packet written, by generation; the theorems say what the events a viewer
    receives are in terms of that log. *)
From Stdlib Require Import ZArith Lia.
From stdpp Require Import base numbers option.
From stdpp Require Import list sorting.
From S2P Require Import Prelude Psi Pacing Meter Ring RingSpec.
Open Scope Z_scope.

(** ** The system *)

Inductive RingOp :=
| OpPush (data : bytes) (now now_end : Z)
| OpGeneration
| OpClose (reason : RingCloseReason)
| OpRead (max_packets : Z).

Record World := mkWorld {
  w_ring : RingState;
  w_cursor : RingCursor;
  w_log : Z -> list bytes;
}.

Definition log_append (log : Z -> list bytes) (gen : Z) (packets : list bytes) : Z -> list bytes :=
  fun g => if g =? gen then log g ++ packets else log g.

(** One operation: the new world, the event the viewer received, and whether
    waiting readers were woken. *)
Definition world_step (config : MpegTsRingConfig) (w : World) (op : RingOp)
  : World * option RingRead * bool :=
  match op with
  | OpPush data now now_end =>
      let '(st, r, notify) := push config (w_ring w) data now now_end in
      (mkWorld st (w_cursor w)
         match r with
         | Ok _ => log_append (w_log w) (generation (w_ring w)) (chunks_exact MPEG_TS_PACKET_SIZE data)
         | Err _ => w_log w
         end, None, notify)
  | OpGeneration =>
      let '(st, _, notify) := start_new_generation (w_ring w) in
      (mkWorld st (w_cursor w) (w_log w), None, notify)
  | OpClose reason =>
      let '(st, _, notify) := close (w_ring w) reason in
      (mkWorld st (w_cursor w) (w_log w), None, notify)
  | OpRead max_packets =>
      let '(cursor, r) := try_next config (w_ring w) (w_cursor w) max_packets in
      (mkWorld (w_ring w) cursor (w_log w),
       match r with Ok event => event | Err _ => None end, false)
  end.

Fixpoint world_run (config : MpegTsRingConfig) (w : World) (ops : list RingOp)
  : World * list RingRead :=
  match ops with
  | [] => (w, [])
  | op :: ops =>
      let '(w', event, _) := world_step config w op in
      let '(w'', events) := world_run config w' ops in
      (w'', option_list event ++ events)
  end.

(** Bytes are bytes and a read asks for a [usize]. *)
Definition op_ok (op : RingOp) : Prop :=
  match op with
  | OpPush data _ _ => Forall is_u8 data
  | OpRead max_packets => 0 <= max_packets
  | _ => True
  end.

(** The events of a viewer against the log.  [fresh] says that the viewer has
    just (re)joined: its next packets may start later than [pos], but then at
    a packet that starts a PAT; otherwise they start exactly at [pos].  A
    viewer that is overtaken in the middle of the stream is told exactly how
    many packets lie between its last one and the resume point.  One that is
    overtaken while it still waits for a PAT has moved past some packets
    silently, so that it may be told fewer. *)
Fixpoint trace_ok (log : Z -> list bytes) (gen pos : Z) (fresh : bool) (events : list RingRead)
  : Prop :=
  match events with
  | [] => True
  | Packets g first data :: events =>
      g = gen /\ (if fresh then pos <= first /\ pat_start_at (log gen) first else first = pos) /\
      exists n, 0 < n /\ 0 <= first /\ first + n <= zlen (log gen) /\
        data = concat (slice first (first + n) (log gen)) /\
        trace_ok log gen (first + n) false events
  | Lagged g skipped resume_at :: events =>
      g = gen /\ pos < resume_at <= zlen (log gen) /\
      (if fresh then 0 < skipped <= resume_at - pos else skipped = resume_at - pos) /\
      trace_ok log gen resume_at true events
  | GenerationBoundary previous g :: events =>
      previous = gen /\ gen < g /\ trace_ok log g 0 true events
  | Closed g _ :: events => g = gen /\ trace_ok log gen pos fresh events
  end.

Definition log_extends (log log' : Z -> list bytes) : Prop :=
  forall g, exists k, log' g = log g ++ k.

#[export] Instance log_extends_preorder : PreOrder log_extends.
Proof.
  split.
  - intros log g. exists []. by rewrite app_nil_r.
  - intros l1 l2 l3 H12 H23 g. destruct (H12 g) as [k1 E1], (H23 g) as [k2 E2].
    exists (k1 ++ k2). by rewrite E2, E1, app_assoc.
Qed.

Section Viewer.
Context (config : MpegTsRingConfig) (Hcfg : config_ok config).

(** ** Invariant of the system *)

Definition w_abs (w : World) : ARing :=
  mkARing (generation (w_ring w)) (w_log w (generation (w_ring w))) (closed (w_ring w)).

Record cursor_ok (log : Z -> list bytes) (gen : Z) (c : RingCursor) (fresh : bool) : Prop := {
  co_generation : cur_generation c <= gen;
  co_position : 0 <= cur_next_sequence c <= zlen (log (cur_generation c));
  co_running : fresh = false -> cur_waiting_for_safe_boundary c = false;
  co_start : fresh = true -> cur_waiting_for_safe_boundary c = false ->
    pat_start_at (log (cur_generation c)) (cur_next_sequence c);
}.

Record world_ok (w : World) (fresh : bool) : Prop := {
  wo_ring : ring_refines config (w_ring w) (w_abs w);
  wo_future : forall g, generation (w_ring w) < g -> w_log w g = [];
  wo_cursor : cursor_ok (w_log w) (generation (w_ring w)) (w_cursor w) fresh;
}.

Lemma log_append_extends log gen packets : log_extends log (log_append log gen packets).
Proof.
  intros g. unfold log_append. destruct (g =? gen); [by exists packets|].
  exists []. by rewrite app_nil_r.
Qed.

Lemma cursor_ok_extends log log' gen gen' c fresh :
  log_extends log log' -> gen <= gen' -> cursor_ok log gen c fresh -> cursor_ok log' gen' c fresh.
Proof.
  intros Hl Hg [H1 H2 H3 H4]. destruct (Hl (cur_generation c)) as [k Hk].
  split; [lia|rewrite Hk; zlia|done|]. intros. rewrite Hk. auto with relay.
Qed.

(** ** The copy loop *)

Lemma slice_snoc {A} (a n : Z) (l : list A) (x : A) :
  0 <= a -> 0 <= n -> l !! Z.to_nat (a + n) = Some x ->
  slice a (a + (n + 1)) l = slice a (a + n) l ++ [x].
Proof.
  intros Ha Hn Hx. unfold slice, ztake, zdrop.
  replace (Z.to_nat (a + (n + 1) - a)) with (S (Z.to_nat (a + n - a))) by lia.
  apply take_S_r. rewrite lookup_drop. rewrite <- Hx. f_equal. lia.
Qed.

Lemma read_packets_snoc st first n :
  0 <= n -> read_packets config st first (n + 1) =
  read_packets config st first n ++ read_slot config st (first + n).
Proof.
  intros Hn. unfold read_packets.
  rewrite seqZ_app by lia. rewrite map_app, concat_app.
  change (seqZ (first + n) 1) with [Z.add (Z.of_nat 0) (first + n)]. cbn. by rewrite app_nil_r.
Qed.

Lemma read_packets_history h st first n :
  ring_inv config h st -> first_sequence st <= first -> 0 <= first -> 0 <= n ->
  first + n <= zlen h ->
  read_packets config st first n = concat (slice first (first + n) h).
Proof.
  intros (b & Hc & _) Hge H0 Hn. revert n Hn. apply (natlike_ind (fun n => first + n <= zlen h -> _)).
  - intros _. rewrite Z.add_0_r. unfold slice. by rewrite Z.sub_diag.
  - intros n Hn IH Hle. unfold Z.succ in *. rewrite read_packets_snoc, IH by lia.
    destruct (lookup_lt_is_Some_2 h (Z.to_nat (first + n))) as [p Hp]; [unfold zlen in Hle; lia|].
    rewrite (slice_snoc first n h p), concat_app by done. cbn. rewrite app_nil_r.
    f_equal. apply (rc_slots _ _ _ _ Hc); [lia|lia|done].
Qed.

(** ** Safe positions *)

Lemma ring_inv_first_le h st : ring_inv config h st -> 0 <= first_sequence st <= zlen h.
Proof.
  intros Hi. rewrite (ring_inv_first config h st Hi). destruct Hcfg as (? & _).
  unfold sat_sub. zlen_facts. lia.
Qed.

Lemma boundary_from_spec h st target b :
  ring_inv config h st -> boundary_from st target = Some b ->
  target <= b /\ pat_start_at h b /\ 0 <= b < zlen h /\ b ∈ safe_boundaries st.
Proof.
  intros (bd & Hc & _) Hf. apply find_some in Hf as [Hin Hb]. apply list_elem_of_In in Hin.
  pose proof (rc_bounds _ _ _ _ Hc) as Hall. rewrite Forall_forall in Hall.
  destruct (Hall b Hin) as [_ Hp]. pose proof (pat_start_at_lt h b Hp). split_and!; [lia|done|lia|lia|done].
Qed.

Lemma candidate_from_spec h st target c :
  ring_inv config h st -> candidate_from st target = Some c -> target <= c < zlen h.
Proof.
  intros (bd & Hc & _). unfold candidate_from.
  destruct (candidate_start (psi st)) as [x|] eqn:E; [|done].
  destruct (Z.leb_spec target x); [|done]. intros [= <-].
  destruct (bsrc_candidate_ok h bd (psi st) x (rc_psi _ _ _ _ Hc) E) as [_ Hp].
  apply pat_start_at_lt in Hp. lia.
Qed.

Lemma safe_resume_spec h st target position waiting :
  ring_inv config h st -> 0 <= target <= zlen h ->
  safe_resume_position st target = (position, waiting) ->
  target <= position <= zlen h /\ (waiting = false -> pat_start_at h position).
Proof.
  intros Hi Ht. unfold safe_resume_position.
  destruct (boundary_from st target) as [b|] eqn:Eb.
  { intros [= <- <-]. destruct (boundary_from_spec h st target b Hi Eb) as (? & ? & ? & _).
    split; [lia|done]. }
  destruct (candidate_from st target) as [c|] eqn:Ec; intros [= <- <-]; (split; [|done]).
  - pose proof (candidate_from_spec h st target c Hi Ec). lia.
  - rewrite (ring_inv_next config h st Hi). lia.
Qed.

(** ** One read *)

(** What one answer of [try_next] means, and where it leaves the cursor. *)
Definition event_ok (log : Z -> list bytes) (gen : Z) (c c' : RingCursor) (fresh : bool)
    (event : option RingRead) : Prop :=
  match event with
  | None | Some (Closed _ _) =>
      cursor_ok log gen c' fresh /\ cur_generation c' = cur_generation c /\
      cur_next_sequence c <= cur_next_sequence c' /\
      (fresh = false -> cur_next_sequence c' = cur_next_sequence c) /\
      match event with Some (Closed g _) => g = cur_generation c | _ => True end
  | Some (Packets g first data) =>
      cursor_ok log gen c' false /\ g = cur_generation c /\ cur_generation c' = g /\
      (if fresh then cur_next_sequence c <= first /\ pat_start_at (log g) first
       else first = cur_next_sequence c) /\
      0 <= first < cur_next_sequence c' /\
      data = concat (slice first (cur_next_sequence c') (log g))
  | Some (Lagged g skipped resume_at) =>
      cursor_ok log gen c' true /\ g = cur_generation c /\ cur_generation c' = g /\
      cur_next_sequence c' = resume_at /\ cur_next_sequence c < resume_at /\
      skipped = resume_at - cur_next_sequence c
  | Some (GenerationBoundary previous g) =>
      cursor_ok log gen c' true /\ previous = cur_generation c /\ previous < g /\
      cur_generation c' = g
  end.

Lemma read_at_event st log c fresh max event c' :
  ring_inv config (log (generation st)) st -> 0 < max ->
  cursor_ok log (generation st) c fresh -> cur_generation c = generation st ->
  first_sequence st <= cur_next_sequence c -> cur_waiting_for_safe_boundary c = false ->
  read_at config st c max = (c', event) -> event_ok log (generation st) c c' fresh event.
Proof.
  intros Hi Hmax Hc Hg Hfirst Hw. pose proof (ring_inv_next _ _ _ Hi) as Hn. pose proof Hc as [H1 H2 H3 H4].
  unfold read_at. rewrite Hg in *. destruct (Z.ltb_spec (cur_next_sequence c) (next_sequence st)) as [Hlt|Hge].
  - intros [= <- <-]. cbn [event_ok cur_generation cur_next_sequence].
    set (count := Z.min _ _). assert (0 < count /\ cur_next_sequence c + count <= zlen (log (generation st))) by lia.
    split; [split; cbn; [lia|zlen_facts; lia|done|done]|]. split; [by rewrite Hg|]. split; [done|].
    split; [destruct fresh; [split; [lia|by apply H4]|done]|]. split; [lia|].
    apply read_packets_history; [done|lia..].
  - intros [= <- <-]. unfold closed_read. destruct (closed st); cbn; split_and!; done || lia.
Qed.

Lemma resumed_cursor log st gen position waiting :
  generation st = gen -> 0 <= position <= zlen (log gen) ->
  (waiting = false -> pat_start_at (log gen) position) ->
  cursor_ok log gen (mkRingCursor gen position waiting) true.
Proof. intros. split; cbn; [lia|done|done|auto]. Qed.

Lemma try_next_event st log c fresh max c' event :
  ring_inv config (log (generation st)) st -> 0 < max ->
  cursor_ok log (generation st) c fresh ->
  try_next config st c max = (c', Ok event) -> event_ok log (generation st) c c' fresh event.
Proof.
  intros Hi Hmax Hc. pose proof (ring_inv_first_le _ _ Hi) as Hf. pose proof Hc as [H1 H2 H3 H4].
  unfold try_next. rewrite (proj2 (Z.eqb_neq max 0)) by lia.
  destruct (Z.eqb_spec (cur_generation c) (generation st)) as [Hg|Hg]; cbn [negb].
  2: { destruct (safe_resume_position st (first_sequence st)) as [pos wt] eqn:Es.
       destruct (safe_resume_spec _ _ _ _ _ Hi Hf Es). intros [= <- <-]. cbn.
       split; [apply (resumed_cursor log st); [done|lia|done]|]. split; [done|]. split; [lia|done]. }
  destruct (Z.ltb_spec (cur_next_sequence c) (first_sequence st)) as [Hlag|Hnolag].
  { destruct (safe_resume_position st (first_sequence st)) as [pos wt] eqn:Es.
    destruct (safe_resume_spec _ _ _ _ _ Hi Hf Es). intros [= <- <-]. cbn. rewrite Hg.
    split; [apply (resumed_cursor log st); [done|lia|done]|].
    split_and!; [done|done|done|lia|rewrite sat_sub_ge; lia]. }
  destruct (cur_waiting_for_safe_boundary c) eqn:Hw.
  - destruct fresh; [|by specialize (H3 eq_refl)].
    destruct (boundary_from st (cur_next_sequence c)) as [b|] eqn:Eb.
    + destruct (boundary_from_spec _ _ _ _ Hi Eb) as (Hb1 & Hb2 & Hb3 & _).
      destruct (read_at _ _ _ _) as [c1 ev] eqn:Er. intros [= <- <-].
      pose proof (read_at_event st log (mkRingCursor (cur_generation c) b false) true max ev c1 Hi Hmax) as He.
      rewrite Hg in He. specialize (He (resumed_cursor log st (generation st) b false eq_refl ltac:(lia) ltac:(done))).
      cbn in He. specialize (He eq_refl ltac:(lia) eq_refl). rewrite Hg in Er. specialize (He Er).
      unfold read_at in Er. cbn [cur_next_sequence] in Er.
      rewrite (ring_inv_next _ _ _ Hi), (proj2 (Z.ltb_lt _ _)) in Er by lia. injection Er as <- <-.
      cbn in *. rewrite Hg. destruct He as (? & ? & ? & [? ?] & ? & ?). split_and!; done || lia.
    + intros [= <- <-].
      assert (cur_next_sequence c <= default (next_sequence st) (candidate_from st (cur_next_sequence c))
              <= zlen (log (generation st))) as Hpos.
      { rewrite Hg in H2. destruct (candidate_from _ _) as [x|] eqn:Ec; cbn.
        - pose proof (candidate_from_spec _ _ _ _ Hi Ec). lia.
        - rewrite (ring_inv_next _ _ _ Hi). lia. }
      unfold from_option, id in Hpos. unfold closed_read.
      destruct (closed st); cbn; rewrite Hg in *;
        (split; [split; cbn; [lia| |done|done]|]; [lia|]; split_and!; done || apply Hpos).
  - destruct (read_at _ _ _ _) as [c1 ev] eqn:Er. intros [= <- <-].
    by apply (read_at_event st log c fresh max).
Qed.

(** ** Steps of the system *)

Definition next_fresh (fresh : bool) (event : option RingRead) : bool :=
  match event with
  | Some (Packets _ _ _) => false
  | Some (Lagged _ _ _) | Some (GenerationBoundary _ _) => true
  | _ => fresh
  end.

Lemma world_push_ok w fresh data now now_end :
  world_ok w fresh -> Forall is_u8 data ->
  let '(w', _, _) := world_step config w (OpPush data now now_end) in
  world_ok w' fresh /\ log_extends (w_log w) (w_log w').
Proof.
  intros [Hr Hf Hc] Hu. cbn.
  pose proof (push_simulates config Hcfg (w_ring w) (w_abs w) data now now_end Hr Hu) as H.
  destruct (push _ _ _ _ _) as [[st r] notify].
  destruct (a_push_cases (w_abs w) data) as [[e E]|E]; rewrite E in H;
    destruct H as (Href & -> & _); pose proof Href as (Hg & _ & Hcl & _); cbn in Hg, Hcl.
  { split; [|done]. split; cbn; [|by rewrite Hg..].
    unfold w_abs. cbn. by rewrite Hg, Hcl. }
  pose proof (log_append_extends (w_log w) (generation (w_ring w)) (chunks_exact MPEG_TS_PACKET_SIZE data)) as He.
  split; [|done]. split; cbn.
  - unfold w_abs. cbn. rewrite Hg, Hcl. unfold log_append at 1. by rewrite Z.eqb_refl.
  - intros g Hlt. unfold log_append. rewrite (proj2 (Z.eqb_neq _ _)) by lia. apply Hf. lia.
  - rewrite Hg. by apply (cursor_ok_extends (w_log w) _ (generation (w_ring w))).
Qed.

Lemma world_other_ok w fresh op :
  world_ok w fresh -> op = OpGeneration \/ (exists reason, op = OpClose reason) ->
  let '(w', _, _) := world_step config w op in
  world_ok w' fresh /\ log_extends (w_log w) (w_log w').
Proof.
  intros [Hr Hf Hc] [->|[reason ->]]; cbn.
  - destruct (generation_and_close_simulate config Hcfg _ _ EndOfStream Hr) as [H _].
    unfold start_new_generation, a_new_generation in *. cbn in H.
    destruct (checked u64_max (generation (w_ring w) + 1)) as [g'|] eqn:E.
    + apply checked_inv in E as [-> Hb]. rewrite (proj2 (Z.leb_le _ _)) in H by lia.
      destruct H as (Href & _). split; [|done]. split; cbn.
      * unfold w_abs. cbn. rewrite (Hf (generation (w_ring w) + 1)) by lia. done.
      * intros g Hg. apply Hf. lia.
      * apply (cursor_ok_extends (w_log w) _ (generation (w_ring w))); [done|lia|done].
    + split; [|done]. by destruct w.
  - destruct (generation_and_close_simulate config Hcfg _ _ reason Hr) as [_ H].
    unfold close, a_close in *. cbn in H.
    destruct (closed (w_ring w)) as [r|] eqn:E.
    + split; [|done]. by destruct w.
    + destruct H as (Href & _). split; [|done]. by split.
Qed.

Lemma world_read_ok w fresh max :
  world_ok w fresh -> 0 <= max ->
  let '(w', event, _) := world_step config w (OpRead max) in
  world_ok w' (next_fresh fresh event) /\ w_log w' = w_log w /\
  event_ok (w_log w) (generation (w_ring w)) (w_cursor w) (w_cursor w') fresh event.
Proof.
  intros [Hr Hf Hc] Hmax. cbn.
  destruct (try_next config (w_ring w) (w_cursor w) max) as [c' [event|[]]] eqn:E.
  - destruct (decide (max = 0)) as [->|]; [done|].
    pose proof Hr as (_ & _ & _ & Hi).
    pose proof (try_next_event (w_ring w) (w_log w) (w_cursor w) fresh max c' event Hi ltac:(lia) Hc E) as He.
    split; [|done]. split; [done|done|]. cbn.
    by destruct event as [[]|]; destruct He as (? & _).
  - unfold try_next in E. destruct (Z.eqb_spec max 0) as [->|]; [|repeat case_match; simplify_eq].
    injection E as <-. split; [by split|]. split; [done|]. cbn. split_and!; done || lia.
Qed.

(** ** Runs *)

Lemma slice_extends log log' g a b :
  log_extends log log' -> 0 <= a -> b <= zlen (log g) ->
  slice a b (log' g) = slice a b (log g) /\ zlen (log g) <= zlen (log' g).
Proof.
  intros Hl Ha Hb. destruct (Hl g) as [k ->]. split; [|zlia].
  unfold slice, ztake, zdrop, zlen in *. destruct (decide (b <= a)).
  - by replace (Z.to_nat (b - a)) with 0%nat by lia.
  - rewrite drop_app_le by lia. rewrite take_app_le by (rewrite length_drop; lia). done.
Qed.

Lemma pat_start_extends log log' g s :
  log_extends log log' -> pat_start_at (log g) s -> pat_start_at (log' g) s.
Proof. intros Hl Hp. destruct (Hl g) as [k ->]. auto with relay. Qed.

(** Any step keeps the invariant and only ever appends to the log. *)
Lemma world_step_ok w fresh op :
  world_ok w fresh -> op_ok op ->
  let '(w', event, _) := world_step config w op in
  world_ok w' (next_fresh fresh event) /\ log_extends (w_log w) (w_log w') /\
  (event_ok (w_log w) (generation (w_ring w)) (w_cursor w) (w_cursor w') fresh event \/
   event = None /\ w_cursor w' = w_cursor w).
Proof.
  intros Hw Hop. destruct op as [data now now_end| |reason|max].
  - pose proof (world_push_ok w fresh data now now_end Hw Hop) as H. cbn in *.
    destruct (push _ _ _ _ _) as [[st r] notify]. naive_solver.
  - pose proof (world_other_ok w fresh OpGeneration Hw ltac:(by left)) as H. cbn in *.
    destruct (start_new_generation _) as [[st r] notify]. naive_solver.
  - pose proof (world_other_ok w fresh (OpClose reason) Hw ltac:(by eauto)) as H. cbn in *.
    destruct (close _ _) as [[st r] notify]. naive_solver.
  - pose proof (world_read_ok w fresh max Hw Hop) as H. cbn in *.
    destruct (try_next _ _ _ _) as [c r]. cbn in *. destruct H as (? & _ & ?).
    split; [done|]. split; [done|]. by left.
Qed.

Lemma world_run_ok ops w fresh pos :
  world_ok w fresh -> Forall op_ok ops ->
  pos <= cur_next_sequence (w_cursor w) -> (fresh = false -> pos = cur_next_sequence (w_cursor w)) ->
  let '(w', events) := world_run config w ops in
  log_extends (w_log w) (w_log w') /\ (exists fresh', world_ok w' fresh') /\
  trace_ok (w_log w') (cur_generation (w_cursor w)) pos fresh events.
Proof.
  intros Hw Hops. revert w fresh pos Hw.
  induction Hops as [|op ops Hop Hops IH]; intros w fresh pos Hw Hle Heq; cbn.
  { split; [done|]. split; [by exists fresh|done]. }
  pose proof (world_step_ok w fresh op Hw Hop) as Hs.
  destruct (world_step config w op) as [[w1 event] notify]. destruct Hs as (Hw1 & Hl1 & He).
  specialize (IH w1 (next_fresh fresh event)).
  destruct (world_run config w1 ops) as [w2 events].
  assert (forall pos1,
    pos1 <= cur_next_sequence (w_cursor w1) ->
    (next_fresh fresh event = false -> pos1 = cur_next_sequence (w_cursor w1)) ->
    log_extends (w_log w) (w_log w2) /\ (exists fresh', world_ok w2 fresh') /\
    trace_ok (w_log w2) (cur_generation (w_cursor w1)) pos1 (next_fresh fresh event) events) as HIH.
  { intros pos1 H1 H2. destruct (IH pos1 Hw1 H1 H2) as (Hl & Hx & Ht). split; [by etrans|done]. }
  destruct He as [He|[-> Hc]].
  2: { cbn in *. rewrite Hc in HIH. by apply HIH. }
  destruct event as [[g first data|g skipped resume|previous g|g reason]|]; cbn in He |- *.
  - destruct He as (Hc & -> & Hg & Hfirst & Hlt & ->).
    destruct (HIH (cur_next_sequence (w_cursor w1)) ltac:(lia) ltac:(done)) as (Hl & Hx & Ht).
    split; [done|]. split; [done|]. rewrite Hg in Ht. pose proof (co_position _ _ _ _ Hc) as Hp.
    rewrite Hg in Hp. set (p1 := cur_next_sequence (w_cursor w1)) in *.
    destruct (slice_extends (w_log w) (w_log w2) (cur_generation (w_cursor w)) first p1) as [Hs Hz];
      [done|lia|lia|].
    split; [done|]. split.
    { destruct fresh; [|by rewrite Heq]. destruct Hfirst. split; [lia|by eapply pat_start_extends]. }
    exists (p1 - first). replace (first + (p1 - first)) with p1 by lia.
    rewrite Hs. split_and!; done || lia.
  - destruct He as (Hc & -> & Hg & Hr & Hlt & ->).
    destruct (HIH resume ltac:(lia) ltac:(done)) as (Hl & Hx & Ht). rewrite Hg in Ht.
    pose proof (co_position _ _ _ _ Hc) as Hp. rewrite Hg in Hp.
    destruct (Hl (cur_generation (w_cursor w))) as [k Hk].
    split; [done|]. split; [done|]. split; [done|]. split; [rewrite Hk; zlia|]. split; [|done].
    destruct fresh; [lia|]. by rewrite Heq.
  - destruct He as (Hc & -> & Hlt & Hg).
    destruct (HIH 0 (proj1 (co_position _ _ _ _ Hc)) ltac:(done)) as (Hl & Hx & Ht).
    rewrite Hg in Ht. done.
  - destruct He as (Hc & Hg & Hmono & Hsame & ->). rewrite Hg in HIH. cbn in HIH.
    destruct (HIH pos ltac:(lia) ltac:(intros Hf; rewrite Hsame; auto)) as (Hl & Hx & Ht).
    split_and!; done.
  - destruct He as (_ & Hg & Hmono & Hsame & _). rewrite Hg in HIH. cbn in HIH.
    apply HIH; [lia|]. intros Hf. rewrite Hsame; auto.
Qed.

(** ** Joining *)

Definition log_of (a : ARing) : Z -> list bytes :=
  fun g => if g =? a_generation a then a_history a else [].

(** A viewer that joins the ring with the given pre-roll. *)
Definition join (st : RingState) (a : ARing) (pre_roll : Z) : World :=
  mkWorld st (subscribe_with_pre_roll st pre_roll) (log_of a).

(** The oldest packet the viewer may start at. *)
Definition join_target (a : ARing) (pre_roll : Z) : Z :=
  Z.max (sat_sub (zlen (a_history a)) pre_roll) (a_first config a).

Lemma join_ok st a pre_roll :
  ring_refines config st a -> 0 <= pre_roll ->
  world_ok (join st a pre_roll) true /\
  cur_generation (w_cursor (join st a pre_roll)) = a_generation a /\
  join_target a pre_roll <= cur_next_sequence (w_cursor (join st a pre_roll)).
Proof.
  intros Href Hp. pose proof Href as (Hg & Hgb & Hcl & Hi). unfold join, subscribe_with_pre_roll.
  rewrite (ring_inv_next _ _ _ Hi). pose proof (ring_inv_first_le _ _ Hi) as Hf.
  fold (a_first config a). destruct (safe_resume_position st _) as [pos wt] eqn:E.
  apply (safe_resume_spec _ _ _ _ _ Hi) in E as [Hpos Hpat]; [|unfold sat_sub; zlen_facts; lia].
  rewrite (ring_inv_first _ _ _ Hi) in Hpos.
  assert (log_of a (a_generation a) = a_history a) as Hlog by (unfold log_of; by rewrite Z.eqb_refl).
  split; [split; cbn|split; cbn; [done|]].
  - unfold w_abs. cbn. by rewrite Hg, Hcl, Hlog.
  - intros g Hlt. unfold log_of. rewrite (proj2 (Z.eqb_neq _ _)) by lia. done.
  - apply (resumed_cursor (log_of a) st); rewrite ?Hg, ?Hlog; [done|unfold sat_sub in *; zlen_facts; lia|done].
  - unfold join_target, a_first. unfold sat_sub in *. lia.
Qed.

Definition payload (event : RingRead) : bytes :=
  match event with Packets _ _ data => data | _ => [] end.

(** An event that does not interrupt the stream. *)
Definition continuous (event : RingRead) : bool :=
  match event with Packets _ _ _ | Closed _ _ => true | _ => false end.

Lemma slice_join {A} (l : list A) (a b c : Z) :
  0 <= a <= b -> b <= c -> slice a b l ++ slice b c l = slice a c l.
Proof.
  intros Hab Hbc. unfold slice, ztake, zdrop.
  replace (Z.to_nat b) with (Z.to_nat a + Z.to_nat (b - a))%nat by lia.
  rewrite <- drop_drop. replace (Z.to_nat (c - a)) with (Z.to_nat (b - a) + Z.to_nat (c - b))%nat by lia.
  apply take_take_drop.
Qed.

Lemma trace_continuous log gen pos events :
  0 <= pos <= zlen (log gen) -> trace_ok log gen pos false events ->
  forallb continuous events = true ->
  exists last, pos <= last <= zlen (log gen) /\
    concat (map payload events) = concat (slice pos last (log gen)).
Proof.
  revert pos. induction events as [|[] events IH]; intros pos Hpos Ht Hc; cbn in *; try done.
  - exists pos. split; [lia|]. unfold slice. by rewrite Z.sub_diag.
  - destruct Ht as (-> & -> & n & Hn & _ & Hle & -> & Ht).
    destruct (IH (pos + n) ltac:(lia) Ht Hc) as (e & He & ->). exists e. split; [lia|].
    rewrite <- concat_app, slice_join by lia. done.
  - destruct Ht as [-> Ht]. by apply IH.
Qed.

Lemma trace_fresh_continuous log gen pos events :
  0 <= pos -> trace_ok log gen pos true events -> forallb continuous events = true ->
  concat (map payload events) = [] \/
  exists first last, pos <= first <= last /\ last <= zlen (log gen) /\ pat_start_at (log gen) first /\
    concat (map payload events) = concat (slice first last (log gen)).
Proof.
  revert pos. induction events as [|[] events IH]; intros pos Hpos Ht Hc; cbn in *; try done.
  - by left.
  - destruct Ht as (-> & [Hp Hs] & n & Hn & H0 & Hle & -> & Ht). right.
    destruct (trace_continuous log gen (first_sequence + n) events ltac:(lia) Ht Hc) as (e & He & ->).
    exists first_sequence, e. split; [lia|]. split; [lia|]. split; [done|].
    rewrite <- concat_app, slice_join by lia. done.
  - destruct Ht as [-> Ht]. by apply IH.
Qed.

(** C1. What a viewer receives: join a ring in any reachable state, then let
    the writer and the viewer proceed in any order.  Every block of packets
    the viewer gets is a run of the packets written in its generation, in
    order and unaltered.  It continues exactly where the last block ended,
    unless a [Lagged] or [GenerationBoundary] event was delivered in between
    (or the viewer has just joined): then it starts at a packet that begins a
    PAT section, at or after the resume point, and the packets a viewer passes
    over while it waits for that PAT are not counted again.  A [Lagged] event
    moves the viewer forward to a packet of the log.  To a viewer in the
    middle of the stream it reports exactly the packets between its last one
    and the resume point; to one that still waits for a PAT, at least one and
    at most that many.  Generations only go up. *)
Theorem viewer_trace st a pre_roll ops :
  ring_refines config st a -> 0 <= pre_roll -> Forall op_ok ops ->
  let '(w, events) := world_run config (join st a pre_roll) ops in
  trace_ok (w_log w) (a_generation a) (join_target a pre_roll) true events.
Proof.
  intros Href Hp Hops. destruct (join_ok st a pre_roll Href Hp) as (Hw & Hg & Hle).
  pose proof (world_run_ok ops _ true (join_target a pre_roll) Hw Hops Hle ltac:(done)) as H.
  destruct (world_run _ _ _) as [w events]. rewrite Hg in H. by destruct H as (_ & _ & ?).
Qed.

(** Nothing lost, repeated or reordered: a viewer that joins and never
    receives [Lagged] or [GenerationBoundary] has received one contiguous run
    of the bytes written in its generation, which starts at a PAT no older
    than its pre-roll, whatever sizes the writes and reads had. *)
Theorem viewer_receives_stream st a pre_roll ops :
  ring_refines config st a -> 0 <= pre_roll -> Forall op_ok ops ->
  let '(w, events) := world_run config (join st a pre_roll) ops in
  forallb continuous events = true ->
  concat (map payload events) = [] \/
  exists first last,
    join_target a pre_roll <= first <= last /\ last <= zlen (w_log w (a_generation a)) /\
    pat_start_at (w_log w (a_generation a)) first /\
    concat (map payload events) = concat (slice first last (w_log w (a_generation a))).
Proof.
  intros Href Hp Hops. destruct (join_ok st a pre_roll Href Hp) as (Hw & Hg & Hle).
  pose proof (world_run_ok ops _ true (join_target a pre_roll) Hw Hops Hle ltac:(done)) as H.
  destruct (world_run _ _ _) as [w events]. rewrite Hg in H. destruct H as (_ & _ & Ht).
  apply trace_fresh_continuous; [|done]. unfold join_target, a_first, sat_sub. lia.
Qed.

(** ** Progress *)

(** [n] reads in a row. *)
Fixpoint read_times (st : RingState) (c : RingCursor) (max : Z) (n : nat) : RingCursor * bytes :=
  match n with
  | O => (c, [])
  | S n =>
      let '(c', r) := try_next config st c max in
      let '(c'', data) := read_times st c' max n in
      (c'', match r with Ok (Some event) => payload event ++ data | _ => data end)
  end.

Lemma try_next_running st c max :
  0 < max -> cur_generation c = generation st -> first_sequence st <= cur_next_sequence c ->
  cur_waiting_for_safe_boundary c = false ->
  try_next config st c max = (fst (read_at config st c max), Ok (snd (read_at config st c max))).
Proof.
  intros Hm Hg Hf Hw. unfold try_next.
  rewrite (proj2 (Z.eqb_neq max 0)), (proj2 (Z.eqb_eq _ _) Hg), (proj2 (Z.ltb_ge _ _)), Hw by lia.
  cbn [negb]. by destruct (read_at config st c max).
Qed.

Lemma read_times_drains st h max n :
  ring_inv config h st -> 0 < max -> forall c,
  cur_generation c = generation st -> 0 <= cur_next_sequence c -> first_sequence st <= cur_next_sequence c ->
  cur_next_sequence c <= zlen h -> cur_waiting_for_safe_boundary c = false ->
  let last := Z.min (zlen h) (cur_next_sequence c + Z.of_nat n * max) in
  read_times st c max n =
  (mkRingCursor (generation st) last false, concat (slice (cur_next_sequence c) last h)).
Proof.
  intros Hi Hm. induction n as [|n IH]; intros [g p wt] Hg H0 Hf Hle Hw; cbn in * |-; subst g wt; cbn zeta.
  - cbn. rewrite Z.add_0_r, Z.min_r by lia. unfold slice. by rewrite Z.sub_diag.
  - cbn [read_times cur_next_sequence]. rewrite try_next_running by done.
    unfold read_at. cbn [cur_next_sequence cur_generation cur_waiting_for_safe_boundary].
    rewrite (ring_inv_next _ _ _ Hi). destruct (Z.ltb_spec p (zlen h)) as [Hlt|Hge]; cbn [fst snd].
    + set (p' := p + Z.min (zlen h - p) max). assert (p < p' <= zlen h) by lia.
      rewrite IH; cbn; [|done..|lia|lia|lia|done].
      rewrite (read_packets_history h) by (done || lia). fold p'.
      assert (Z.min (zlen h) (p' + Z.of_nat n * max) = Z.min (zlen h) (p + Z.pos (Pos.of_succ_nat n) * max)) as -> by nia.
      rewrite <- concat_app, slice_join by nia. done.
    + rewrite IH by done. cbn. assert (p = zlen h) as -> by lia.
      rewrite !Z.min_l by nia. unfold closed_read. destruct (closed st); cbn; by rewrite ?Z.sub_diag.
Qed.

(** Catching up: while no write intervenes, reading [n] times with a
    limit of [max] packets gives a viewer inside the window exactly the next
    [n * max] packets, and no more than there are; so finitely many reads
    bring any viewer to the live edge. *)
Theorem reader_catches_up st h c max n :
  ring_inv config h st -> 0 < max ->
  cur_generation c = generation st -> first_sequence st <= cur_next_sequence c <= zlen h ->
  cur_waiting_for_safe_boundary c = false ->
  let last := Z.min (zlen h) (cur_next_sequence c + Z.of_nat n * max) in
  read_times st c max n =
  (mkRingCursor (generation st) last false, concat (slice (cur_next_sequence c) last h)) /\
  (zlen h - cur_next_sequence c <= Z.of_nat n * max -> last = next_sequence st).
Proof.
  intros Hi Hm Hg Hp Hw last. pose proof (ring_inv_first_le _ _ Hi). split.
  - apply read_times_drains; (done || lia).
  - intros Hn. rewrite (ring_inv_next _ _ _ Hi). lia.
Qed.

(** ** Waking up *)

(** Two ring states no cursor can tell apart. *)
Definition read_same (st st' : RingState) : Prop :=
  storage st' = storage st /\ generation st' = generation st /\
  first_sequence st' = first_sequence st /\ next_sequence st' = next_sequence st /\
  safe_boundaries st' = safe_boundaries st /\ psi st' = psi st /\ closed st' = closed st.

Lemma try_next_same st st' c max :
  read_same st st' -> try_next config st' c max = try_next config st c max.
Proof.
  destruct st, st'. intros (Hs & Hg & Hf & Hn & Hb & Hp & Hc). cbn in *. subst. reflexivity.
Qed.

Lemma drop_below_none bound l : Forall (fun b => bound <= b) l -> drop_below bound l = l.
Proof.
  destruct l as [|x l]; [done|]. inversion 1; subst. cbn. by rewrite (proj2 (Z.ltb_ge _ _)) by lia.
Qed.

Lemma push_finish_empty h st now : ring_inv config h st -> read_same st (push_finish st 0 0 now).
Proof.
  intros (b & Hc & Hge & Hcand). unfold read_same, push_finish. cbn.
  rewrite (drop_below_none _ _ Hge). split_and!; try done.
  destruct (candidate_start (psi st)) as [c|] eqn:E; [|done].
  by rewrite (proj2 (Z.ltb_ge _ _)) by (by apply Hcand).
Qed.

(** A write that wakes nobody changes nothing a cursor can observe. *)
Lemma silent_step_same w w' fresh op :
  world_ok w fresh -> (forall max, op <> OpRead max) -> (exists event, world_step config w op = (w', event, false)) ->
  read_same (w_ring w) (w_ring w') /\ w_cursor w' = w_cursor w.
Proof.
  intros [(_ & _ & _ & Hi) _ _] Hop [event Hs]. destruct op as [data now now_end| |reason|max]; cbn in Hs.
  - unfold push in Hs. repeat (case_match; simplify_eq/=); try done; cbn; split; try done.
    assert (zlen data = 0) as Hz.
    { assert (zlen data mod MPEG_TS_PACKET_SIZE = 0) by (unfold MPEG_TS_PACKET_SIZE in *; lia).
      unfold MPEG_TS_PACKET_SIZE in *. zlen_facts. pose proof (Z.div_mod (zlen data) 188). lia. }
    destruct data; [|zlia]. by apply (push_finish_empty (w_log w (generation (w_ring w)))).
  - unfold start_new_generation in Hs. destruct (checked _ _); by simplify_eq/=.
  - unfold close in Hs. destruct (closed (w_ring w)) eqn:E; simplify_eq/=. by unfold read_same.
  - by destruct (Hop max).
Qed.

(** Writes none of which wakes a reader. *)
Inductive silent_run : World -> World -> Prop :=
| silent_refl w : silent_run w w
| silent_step w w1 w2 op :
    (forall max, op <> OpRead max) -> op_ok op ->
    world_step config w op = (w1, None, false) -> silent_run w1 w2 -> silent_run w w2.

Lemma candidate_from_none st target p :
  candidate_from st target = None -> target <= p -> candidate_from st p = None.
Proof.
  unfold candidate_from. destruct (candidate_start (psi st)) as [x|]; [|done].
  destruct (Z.leb_spec target x); [done|]. intros _ Hp. by rewrite (proj2 (Z.leb_gt _ _)) by lia.
Qed.

Lemma boundary_from_none st target p :
  boundary_from st target = None -> target <= p -> boundary_from st p = None.
Proof.
  unfold boundary_from. intros Hn Hp. destruct (List.find (fun b => p <=? b) _) as [b|] eqn:E; [|done].
  apply find_some in E as [Hin Hle]. pose proof (find_none _ _ Hn b Hin) as Hno. cbn in Hno. lia.
Qed.

Lemma candidate_from_self st target c :
  candidate_from st target = Some c -> candidate_from st c = Some c.
Proof.
  unfold candidate_from. destruct (candidate_start (psi st)) as [x|]; [|done].
  destruct (target <=? x); [|done]. intros [= <-]. by rewrite Z.leb_refl.
Qed.

(** A read that finds nothing finds nothing again. *)
Lemma try_next_none_stable st h c max c' :
  ring_inv config h st -> 0 < max -> cur_next_sequence c <= zlen h ->
  try_next config st c max = (c', Ok None) -> try_next config st c' max = (c', Ok None).
Proof.
  intros Hi Hm Hpos. unfold try_next at 1. rewrite (proj2 (Z.eqb_neq max 0)) by lia.
  destruct (negb (cur_generation c =? generation st)) eqn:Hg; [by case_match|].
  destruct (cur_next_sequence c <? first_sequence st) eqn:Hf; [by case_match|].
  pose proof (ring_inv_next _ _ _ Hi) as Hnx.
  destruct (cur_waiting_for_safe_boundary c) eqn:Hw.
  - destruct (boundary_from st (cur_next_sequence c)) as [b|] eqn:Eb.
    { destruct (boundary_from_spec _ _ _ _ Hi Eb) as (? & ? & ? & _). unfold read_at. cbn.
      by rewrite Hnx, (proj2 (Z.ltb_lt _ _)) by lia. }
    intros [= <- Hcl]. unfold try_next. cbn. rewrite (proj2 (Z.eqb_neq max 0)), Hg by lia.
    destruct (candidate_from st (cur_next_sequence c)) as [x|] eqn:Ec.
    + pose proof (candidate_from_spec _ _ _ _ Hi Ec) as Hx. rewrite (proj2 (Z.ltb_ge _ _)) by lia.
      by rewrite (boundary_from_none _ _ _ Eb), (candidate_from_self _ _ _ Ec), Hcl by lia.
    + rewrite (proj2 (Z.ltb_ge _ _)) by lia.
      by rewrite (boundary_from_none _ _ _ Eb), (candidate_from_none _ _ _ Ec), Hcl by lia.
  - destruct (read_at config st c max) as [c1 ev] eqn:Er. intros [= <- ->].
    assert (c1 = c) as ->. { unfold read_at in Er. case_match; by simplify_eq. }
    rewrite try_next_running; [by rewrite Er|lia|lia|lia|done].
Qed.

Lemma silent_run_same w w' fresh :
  silent_run w w' -> world_ok w fresh ->
  world_ok w' fresh /\ w_cursor w' = w_cursor w /\
  forall c max, try_next config (w_ring w') c max = try_next config (w_ring w) c max.
Proof.
  intros Hr. revert fresh. induction Hr as [w|w w1 w2 op Hop Hok Hs Hr IH]; intros fresh Hw; [done|].
  destruct (silent_step_same w w1 fresh op Hw Hop ltac:(by eauto)) as [Hsame Hcur].
  pose proof (world_step_ok w fresh op Hw Hok) as Hw1. rewrite Hs in Hw1. destruct Hw1 as [Hw1 _].
  destruct (IH fresh Hw1) as (Hw2 & Hc2 & Hn2). split; [done|]. split; [congruence|].
  intros c max. rewrite Hn2. by apply try_next_same.
Qed.

(** No lost wake-up: when a read has found nothing, then as long as the
    ring's writers do not notify the waiting readers, another read finds
    nothing either and leaves the cursor where it is.  A reader that
    registers before it reads and then sleeps until it is notified therefore
    never sleeps on something it could have read. *)
Theorem no_lost_wakeup w w' fresh max c :
  world_ok w fresh -> 0 < max ->
  try_next config (w_ring w) (w_cursor w) max = (c, Ok None) ->
  silent_run (mkWorld (w_ring w) c (w_log w)) w' ->
  try_next config (w_ring w') (w_cursor w') max = (w_cursor w', Ok None) /\ w_cursor w' = c.
Proof.
  intros Hw Hm Hn Hr. pose proof Hw as [(_ & _ & _ & Hi) _ Hc].
  pose proof (world_read_ok w fresh max Hw ltac:(lia)) as Hw1. cbn in Hw1. rewrite Hn in Hw1.
  destruct Hw1 as (Hw1 & _ & _).
  destruct (silent_run_same _ _ fresh Hr Hw1) as (_ & -> & Hsame). cbn. rewrite Hsame. cbn.
  split; [|done]. apply (try_next_none_stable _ (w_log w (generation (w_ring w))) (w_cursor w)); [done|done| |done].
  destruct Hc as [_ Hp _ _]. destruct (Z.eqb_spec (cur_generation (w_cursor w)) (generation (w_ring w))) as [E|E].
  - rewrite E in Hp. lia.
  - unfold try_next in Hn. rewrite (proj2 (Z.eqb_neq max 0)), (proj2 (Z.eqb_neq _ _) E) in Hn by lia.
    cbn in Hn. by case_match.
Qed.

End Viewer.
