(* ===== verification/Broker.v ===== *)
(** * Provider connection slots

    Models [crates/media/src/broker.rs]: the broker that hands out at most
    [capacity] connections of one provider account.

    A [SlotLease] is a counted reference to an allocation, a [LeaseInner].
    [leases] holds the allocations that are alive, by lease identifier, with
    their reference count, so a [Weak] upgrades exactly when its identifier is
    in [leases].  The count reaches zero before the destructor of the
    allocation takes the broker's lock; the destructors still waiting for it
    are [dropping], by their session key. *)
From Stdlib Require Import ZArith Lia.
From stdpp Require Import base numbers option strings.
From stdpp Require Import gmap.
From stdpp Require Import list sorting.
From S2P Require Import Prelude.
Open Scope Z_scope.

Record LeaseInner := mkLeaseInner {
  session_key : string;
  strong_count : positive;
}.

Record BrokerState := mkBrokerState {
  pool_id : string;
  capacity : Z;
  high_watermark : Z;
  next_lease_id : Z;
  sessions : gmap string Z;
  leases : gmap Z LeaseInner;
  dropping : list string;
}.

(** A handle: the identifier of its allocation. *)
Record SlotLease := mkSlotLease { lease_id : Z }.

Inductive AcquireError :=
| AtCapacity (pool_id : string) (capacity active_sessions : Z)
| LeaseIdExhausted.

Record PoolSnapshot := mkPoolSnapshot {
  ps_pool_id : string;
  ps_capacity : Z;
  ps_active_sessions : Z;
  ps_high_watermark : Z;
  ps_available_slots : Z;
}.

Definition broker_new (pool_id : string) (capacity : Z) : BrokerState :=
  mkBrokerState pool_id capacity 0 1 ∅ ∅ [].

(** [Weak::strong_count() > 0] *)
Definition upgrades (leases : gmap Z LeaseInner) (id : Z) : Prop := is_Some (leases !! id).
#[export] Instance upgrades_dec leases id : Decision (upgrades leases id) := _.

(** [sessions.retain(|_, lease| lease.strong_count() > 0)] *)
Definition retain_live (leases : gmap Z LeaseInner) (sessions : gmap string Z) : gmap string Z :=
  filter (fun kv => upgrades leases kv.2) sessions.

Definition map_len (sessions : gmap string Z) : Z := Z.of_nat (size sessions).

Definition count_up (l : LeaseInner) : LeaseInner :=
  mkLeaseInner (session_key l) (Pos.succ (strong_count l)).
Definition count_down (l : LeaseInner) : LeaseInner :=
  mkLeaseInner (session_key l) (Pos.pred (strong_count l)).

Definition try_acquire (b : BrokerState) (key : string)
  : BrokerState * result SlotLease AcquireError :=
  let with_sessions sessions :=
    mkBrokerState (pool_id b) (capacity b) (high_watermark b) (next_lease_id b) sessions
      (leases b) (dropping b) in
  let sessions1 := retain_live (leases b) (sessions b) in
  let fresh sessions2 :=
    if capacity b <=? map_len sessions2
    then (with_sessions sessions2, Err (AtCapacity (pool_id b) (capacity b) (map_len sessions2)))
    else
      let id := next_lease_id b in
      match checked u64_max (next_lease_id b + 1) with
      | None => (with_sessions sessions2, Err LeaseIdExhausted)
      | Some next =>
          let sessions3 := <[key := id]> sessions2 in
          (mkBrokerState (pool_id b) (capacity b) (Z.max (high_watermark b) (map_len sessions3))
             next sessions3 (<[id := mkLeaseInner key 1]> (leases b)) (dropping b),
           Ok (mkSlotLease id))
      end in
  match sessions1 !! key with
  | Some id =>
      match leases b !! id with
      | Some existing =>
          (mkBrokerState (pool_id b) (capacity b) (high_watermark b) (next_lease_id b) sessions1
             (<[id := count_up existing]> (leases b)) (dropping b),
           Ok (mkSlotLease id))
      | None => fresh (delete key sessions1)
      end
  | None => fresh sessions1
  end.

(** [SlotLease::clone] *)
Definition lease_clone (b : BrokerState) (lease : SlotLease) : BrokerState :=
  mkBrokerState (pool_id b) (capacity b) (high_watermark b) (next_lease_id b) (sessions b)
    (alter count_up (lease_id lease) (leases b)) (dropping b).

(** Dropping a [SlotLease]: the count goes down; the last one leaves the
    destructor of the allocation to run. *)
Definition lease_drop (b : BrokerState) (lease : SlotLease) : BrokerState :=
  match leases b !! lease_id lease with
  | None => b
  | Some l =>
      if (strong_count l =? 1)%positive then
        mkBrokerState (pool_id b) (capacity b) (high_watermark b) (next_lease_id b) (sessions b)
          (delete (lease_id lease) (leases b)) (dropping b ++ [session_key l])
      else
        mkBrokerState (pool_id b) (capacity b) (high_watermark b) (next_lease_id b) (sessions b)
          (<[lease_id lease := count_down l]> (leases b)) (dropping b)
  end.

(** [LeaseInner::drop]: one waiting destructor gets the lock.  It always
    notifies the waiters. *)
Definition lease_inner_drop (b : BrokerState) (i : nat) : BrokerState :=
  match dropping b !! i with
  | None => b
  | Some key =>
      let should_remove :=
        match sessions b !! key with
        | Some id => bool_decide (~ upgrades (leases b) id)
        | None => false
        end in
      mkBrokerState (pool_id b) (capacity b) (high_watermark b) (next_lease_id b)
        (if should_remove then delete key (sessions b) else sessions b)
        (leases b) (delete i (dropping b))
  end.

Definition set_capacity (b : BrokerState) (capacity : Z) : BrokerState :=
  mkBrokerState (pool_id b) capacity (high_watermark b) (next_lease_id b) (sessions b)
    (leases b) (dropping b).

Definition broker_snapshot (b : BrokerState) : BrokerState * PoolSnapshot :=
  let sessions1 := retain_live (leases b) (sessions b) in
  (mkBrokerState (pool_id b) (capacity b) (high_watermark b) (next_lease_id b) sessions1
     (leases b) (dropping b),
   mkPoolSnapshot (pool_id b) (capacity b) (map_len sessions1) (high_watermark b)
     (sat_sub (capacity b) (map_len sessions1))).

(** ** Steps *)

Inductive BrokerOp :=
| BAcquire (key : string)
| BClone (lease : SlotLease)
| BDrop (lease : SlotLease)
| BDestructor (i : nat)
| BSetCapacity (capacity : Z)
| BSnapshot.

Definition broker_step (b : BrokerState) (op : BrokerOp) : BrokerState :=
  match op with
  | BAcquire key => fst (try_acquire b key)
  | BClone lease => lease_clone b lease
  | BDrop lease => lease_drop b lease
  | BDestructor i => lease_inner_drop b i
  | BSetCapacity capacity => set_capacity b capacity
  | BSnapshot => fst (broker_snapshot b)
  end.

(** Dropping or cloning a handle of an allocation that is gone, which the
    type system rules out, changes nothing in this model; a run may therefore
    be any sequence of operations. *)
Definition broker_run (b : BrokerState) (ops : list BrokerOp) : BrokerState :=
  fold_left broker_step ops b.

(** The number of provider connections in use. *)
Definition connections (b : BrokerState) : Z := Z.of_nat (size (leases b)).

(** The most connections in use at any time of a run. *)
Fixpoint peak (b : BrokerState) (ops : list BrokerOp) : Z :=
  match ops with
  | [] => connections b
  | op :: ops => Z.max (connections b) (peak (broker_step b op) ops)
  end.

(** The largest capacity configured at any time of a run. *)
Fixpoint max_capacity (capacity : Z) (ops : list BrokerOp) : Z :=
  match ops with
  | [] => capacity
  | BSetCapacity capacity' :: ops => Z.max capacity (max_capacity capacity' ops)
  | _ :: ops => max_capacity capacity ops
  end.

(** ** Invariant *)

Record broker_inv (b : BrokerState) : Prop := {
  bi_alive : forall id l, leases b !! id = Some l -> sessions b !! session_key l = Some id;
  bi_key : forall key id l, sessions b !! key = Some id -> leases b !! id = Some l -> session_key l = key;
  bi_fresh : forall key id, sessions b !! key = Some id -> id < next_lease_id b;
  bi_next : 0 <= next_lease_id b;
}.

Lemma retain_live_Some leases sessions key id :
  retain_live leases sessions !! key = Some id <-> sessions !! key = Some id /\ upgrades leases id.
Proof. unfold retain_live. by rewrite map_lookup_filter_Some. Qed.

Lemma size_bijection {K1 V1 V2} `{Countable K1, Countable V1} (m1 : gmap K1 V1) (m2 : gmap V1 V2) :
  (forall k1 k2 v, m1 !! k1 = Some v -> m1 !! k2 = Some v -> k1 = k2) ->
  (forall v, is_Some (m2 !! v) <-> exists k, m1 !! k = Some v) -> size m1 = size m2.
Proof.
  intros Hinj Himg. rewrite <- !length_map_to_list.
  rewrite <- (length_fmap snd (map_to_list m1)), <- (length_fmap fst (map_to_list m2)).
  apply Permutation_length, NoDup_Permutation.
  - apply NoDup_fmap_2_strong; [|apply NoDup_map_to_list].
    intros [k1 v1] [k2 v2] H1%elem_of_map_to_list H2%elem_of_map_to_list E. cbn in E. subst v2.
    f_equal. by eapply Hinj.
  - apply NoDup_fst_map_to_list.
  - intros v. rewrite !list_elem_of_fmap. split.
    + intros ([k v'] & -> & Hk%elem_of_map_to_list). destruct (proj2 (Himg v')) as [x Hx]; [by exists k|].
      exists (v', x). by rewrite elem_of_map_to_list.
    + intros ([v' x] & -> & Hx%elem_of_map_to_list). destruct (proj1 (Himg v')) as [k Hk]; [by exists x|].
      exists (k, v'). by rewrite elem_of_map_to_list.
Qed.

(** After [retain] the table has one entry per connection. *)
Lemma retain_live_size b : broker_inv b -> map_len (retain_live (leases b) (sessions b)) = connections b.
Proof.
  intros [Ha Hk _ _]. unfold map_len, connections. f_equal. apply size_bijection.
  - intros k1 k2 id [H1 [l Hl]]%retain_live_Some [H2 _]%retain_live_Some.
    by rewrite <- (Hk k1 id l), <- (Hk k2 id l).
  - intros id. split.
    + intros [l Hl]. exists (session_key l). apply retain_live_Some. split; [by apply Ha|by exists l].
    + intros [k [_ Hu]%retain_live_Some]. done.
Qed.

Definition with_sessions (b : BrokerState) (sessions : gmap string Z) : BrokerState :=
  mkBrokerState (pool_id b) (capacity b) (high_watermark b) (next_lease_id b) sessions
    (leases b) (dropping b).

(** The three ways an acquisition of a new session can end. *)
Inductive fresh_outcome (b : BrokerState) (key : string)
  : BrokerState * result SlotLease AcquireError -> Prop :=
| fo_full : capacity b <= connections b ->
    fresh_outcome b key
      (with_sessions b (retain_live (leases b) (sessions b)),
       Err (AtCapacity (pool_id b) (capacity b) (connections b)))
| fo_exhausted : connections b < capacity b -> u64_max <= next_lease_id b ->
    fresh_outcome b key
      (with_sessions b (retain_live (leases b) (sessions b)), Err LeaseIdExhausted)
| fo_ok : connections b < capacity b -> next_lease_id b < u64_max ->
    fresh_outcome b key
      (mkBrokerState (pool_id b) (capacity b) (Z.max (high_watermark b) (connections b + 1))
         (next_lease_id b + 1)
         (<[key := next_lease_id b]> (retain_live (leases b) (sessions b)))
         (<[next_lease_id b := mkLeaseInner key 1]> (leases b)) (dropping b),
       Ok (mkSlotLease (next_lease_id b))).

Definition session_live (b : BrokerState) (key : string) (id : Z) (l : LeaseInner) : Prop :=
  leases b !! id = Some l /\ session_key l = key.

Lemma try_acquire_spec b key :
  broker_inv b ->
  (exists id l, session_live b key id l /\
     try_acquire b key =
     (mkBrokerState (pool_id b) (capacity b) (high_watermark b) (next_lease_id b)
        (retain_live (leases b) (sessions b)) (<[id := count_up l]> (leases b)) (dropping b),
      Ok (mkSlotLease id))) \/
  ((forall id l, ~ session_live b key id l) /\ fresh_outcome b key (try_acquire b key)).
Proof.
  intros Hi. pose proof (retain_live_size b Hi) as Hsize. destruct Hi as [Ha Hk Hf Hn].
  unfold try_acquire. destruct (retain_live (leases b) (sessions b) !! key) as [id|] eqn:E.
  - apply retain_live_Some in E as [Hs [l Hl]]. rewrite Hl. left. exists id, l.
    split; [split; [done|by eapply Hk]|done].
  - right. assert (forall id l, ~ session_live b key id l) as Hno.
    { intros id l [Hl Hkey]. assert (retain_live (leases b) (sessions b) !! key = Some id) as E'.
      { apply retain_live_Some. split; [|by exists l]. rewrite <- Hkey. by apply Ha. }
      congruence. }
    split; [done|]. rewrite Hsize. destruct (Z.leb_spec (capacity b) (connections b)); [by constructor|].
    destruct (Z.leb_spec u64_max (next_lease_id b)).
    + unfold checked. rewrite (proj2 (andb_false_iff _ _)) by (right; lia). by constructor.
    + rewrite checked_Some by lia.
      assert (map_len (<[key := next_lease_id b]> (retain_live (leases b) (sessions b))) = connections b + 1) as ->.
      { unfold map_len in *. rewrite map_size_insert_None by done. lia. }
      by constructor.
Qed.

Lemma broker_inv_retain b :
  broker_inv b -> broker_inv (with_sessions b (retain_live (leases b) (sessions b))).
Proof.
  intros [Ha Hk Hf Hn]. split; cbn; [|intros ??? [? _]%retain_live_Some; eauto
    |intros ?? [? _]%retain_live_Some; eauto|done].
  intros id l Hl. apply retain_live_Some. split; [by apply Ha|by exists l].
Qed.

(** Changing only the counts of live allocations keeps the invariant. *)
Lemma broker_inv_count b id l l' :
  broker_inv b -> leases b !! id = Some l -> session_key l' = session_key l ->
  broker_inv (mkBrokerState (pool_id b) (capacity b) (high_watermark b) (next_lease_id b)
                (sessions b) (<[id := l']> (leases b)) (dropping b)).
Proof.
  intros [Ha Hk Hf Hn] Hl Hkey. split; cbn; [| |done|done].
  - intros id' x. rewrite lookup_insert_Some. intros [[<- <-]|[_ Hx]]; [|by apply Ha].
    rewrite Hkey. by apply Ha.
  - intros key id' x Hs. rewrite lookup_insert_Some. intros [[<- <-]|[_ Hx]]; [|by eapply Hk].
    rewrite Hkey. by eapply Hk.
Qed.

Lemma try_acquire_inv b key : broker_inv b -> broker_inv (fst (try_acquire b key)).
Proof.
  intros Hi. pose proof (broker_inv_retain b Hi) as Hr.
  destruct (try_acquire_spec b key Hi) as [(id & l & [Hl Hkey] & ->)|[Hno Ho]].
  - by apply (broker_inv_count _ id l (count_up l) Hr).
  - inversion Ho as [| |Hc Hx]; [done|done|]. destruct Hi as [Ha Hk Hf Hn], Hr as [Ha' Hk' Hf' _]. cbn in *.
    split; cbn; [| | |lia].
    + intros id l. rewrite lookup_insert_Some. intros [[<- <-]|[Hne Hl]]; [by rewrite lookup_insert_eq|].
      rewrite lookup_insert_ne; [by apply Ha'|]. intros E. by apply (Hno id l).
    + intros k id l Hs. rewrite lookup_insert_Some. intros [[<- <-]|[Hne Hl]].
      * apply lookup_insert_Some in Hs as [[<- _]|[_ Hs]]; [done|]. apply Hf' in Hs. lia.
      * apply lookup_insert_Some in Hs as [[_ <-]|[_ Hs]]; [done|]. by eapply Hk'.
    + intros k id Hs. apply lookup_insert_Some in Hs as [[_ <-]|[_ Hs]]; [lia|]. apply Hf' in Hs. lia.
Qed.

Lemma alter_insert_Some {V} (f : V -> V) (m : gmap Z V) i x :
  m !! i = Some x -> alter f i m = <[i := f x]> m.
Proof.
  intros Hx. apply map_eq. intros j. destruct (decide (i = j)) as [<-|].
  - by rewrite lookup_alter_eq, lookup_insert_eq, Hx.
  - by rewrite lookup_alter_ne, lookup_insert_ne.
Qed.

Lemma alter_None_id {V} (f : V -> V) (m : gmap Z V) i : m !! i = None -> alter f i m = m.
Proof.
  intros Hx. apply map_eq. intros j. destruct (decide (i = j)) as [<-|].
  - by rewrite lookup_alter_eq, Hx.
  - by rewrite lookup_alter_ne.
Qed.

Lemma broker_step_inv b op : broker_inv b -> broker_inv (broker_step b op).
Proof.
  intros Hi. destruct op as [key|[id]|[id]|i|c|]; cbn.
  - by apply try_acquire_inv.
  - unfold lease_clone. cbn. destruct (leases b !! id) as [l|] eqn:Hl.
    + rewrite (alter_insert_Some _ _ _ l) by done. by apply (broker_inv_count b id l).
    + rewrite alter_None_id by done. by destruct Hi.
  - unfold lease_drop. cbn [lease_id]. destruct (leases b !! id) as [l|] eqn:Hl; [|done].
    destruct (strong_count l =? 1)%positive; [|by apply (broker_inv_count b id l)].
    destruct Hi as [Ha Hk Hf Hn]. split; cbn; [| |done|done].
    + intros id' x [_ Hx]%lookup_delete_Some. by apply Ha.
    + intros k id' x Hs [_ Hx]%lookup_delete_Some. by eapply Hk.
  - unfold lease_inner_drop. destruct (dropping b !! i) as [key|]; [|done].
    destruct Hi as [Ha Hk Hf Hn]. destruct (sessions b !! key) as [id|] eqn:Hs; [|by split].
    case_bool_decide as Hd; [|by split]. split; cbn; [| | |done].
    + intros id' x Hx. apply lookup_delete_Some. split; [|by apply Ha]. intros E.
      apply Hd. exists x. apply Ha in Hx as Hx'. rewrite <- E, Hs in Hx'. by simplify_eq.
    + intros k id' x [_ Hs']%lookup_delete_Some. by apply Hk.
    + intros k id' [_ Hs']%lookup_delete_Some. by eapply Hf.
  - by destruct Hi.
  - by apply broker_inv_retain.
Qed.

Lemma broker_new_inv pool c : broker_inv (broker_new pool c).
Proof. split; cbn; [intros ??; by rewrite lookup_empty|intros ???; by rewrite lookup_empty|intros ??; by rewrite lookup_empty|done]. Qed.

Lemma broker_run_inv b ops : broker_inv b -> broker_inv (broker_run b ops).
Proof. revert b. induction ops as [|op ops IH]; intros b Hi; [done|]. apply IH. by apply broker_step_inv. Qed.

(** ** Properties *)

Lemma next_lease_free b : broker_inv b -> leases b !! next_lease_id b = None.
Proof.
  intros Hi. destruct (leases b !! next_lease_id b) as [l|] eqn:E; [|done].
  apply (bi_alive b Hi), (bi_fresh b Hi) in E. lia.
Qed.

(** How a step changes the number of connections, the high watermark and the
    capacity. *)
Lemma broker_step_count b op :
  broker_inv b ->
  let b' := broker_step b op in
  (connections b' <= connections b /\ high_watermark b' = high_watermark b \/
   connections b < capacity b /\ connections b' = connections b + 1 /\ capacity b' = capacity b /\
   high_watermark b' = Z.max (high_watermark b) (connections b')) /\
  (capacity b' = capacity b \/ op = BSetCapacity (capacity b')).
Proof.
  intros Hi. assert (forall id l, leases b !! id = Some l ->
    forall l', size (<[id := l']> (leases b)) = size (leases b)) as Hsz.
  { intros id l Hl l'. by rewrite map_size_insert_Some by (by exists l). }
  destruct op as [key|[id]|[id]|i|c|]; cbn zeta; cbn [broker_step].
  - destruct (try_acquire_spec b key Hi) as [(id & l & [Hl _] & ->)|[Hno Ho]]; cbn [fst].
    + split; [left|by left]. unfold connections. cbn. by rewrite (Hsz id l).
    + inversion Ho as [| |Hc Hx]; cbn [fst]; (split; [|by left]); [left; unfold connections; cbn; lia..|right].
      assert (connections b + 1 = Z.of_nat (size (<[next_lease_id b := mkLeaseInner key 1]> (leases b)))) as E.
      { unfold connections. rewrite map_size_insert_None by (by apply next_lease_free). lia. }
      unfold connections in *. cbn. rewrite <- E. done.
  - split; [left|by left]. unfold connections, lease_clone. cbn. split; [|done].
    rewrite <- !size_dom, dom_alter_L. lia.
  - unfold lease_drop. cbn [lease_id]. destruct (leases b !! id) as [l|] eqn:Hl; [|by split; left].
    destruct (strong_count l =? 1)%positive; (split; [left|by left]); unfold connections; cbn; (split; [|done]).
    + rewrite map_size_delete_Some by (by exists l). lia.
    + by rewrite (Hsz id l).
  - unfold lease_inner_drop. destruct (dropping b !! i); split; by left.
  - split; [by left|by right].
  - split; by left.
Qed.

Lemma peak_ge b ops : connections b <= peak b ops.
Proof. destruct ops; cbn [peak]; lia. Qed.

Lemma broker_run_count ops b :
  broker_inv b ->
  high_watermark (broker_run b ops) = Z.max (high_watermark b) (peak b ops) \/
  high_watermark b < connections b.
Proof.
  revert b. induction ops as [|op ops IH]; intros b Hi; cbn [broker_run fold_left peak].
  { destruct (Z.lt_ge_cases (high_watermark b) (connections b)); [by right|left]. cbn. lia. }
  destruct (Z.lt_ge_cases (high_watermark b) (connections b)) as [|Hle]; [by right|left].
  destruct (broker_step_count b op Hi) as [Hc _]. cbn zeta in Hc.
  destruct (IH (broker_step b op) (broker_step_inv b op Hi)) as [E|E]; [|lia].
  fold (broker_run (broker_step b op) ops). rewrite E. destruct Hc as [[? ->]|(? & ? & ? & ->)]; [lia|].
  pose proof (peak_ge (broker_step b op) ops). lia.
Qed.

Lemma max_capacity_ge c ops : c <= max_capacity c ops.
Proof. induction ops as [|[] ops IH]; cbn [max_capacity]; lia. Qed.

Lemma peak_bounded ops b :
  broker_inv b -> peak b ops <= Z.max (connections b) (max_capacity (capacity b) ops).
Proof.
  revert b. induction ops as [|op ops IH]; intros b Hi; cbn [peak]; [lia|].
  pose proof (IH (broker_step b op) (broker_step_inv b op Hi)) as Hp.
  destruct (broker_step_count b op Hi) as [Hc Hcap]. cbn zeta in *.
  pose proof (max_capacity_ge (capacity b) (op :: ops)).
  destruct Hcap as [Hcap|Hop].
  - rewrite Hcap in Hp.
    assert (max_capacity (capacity b) ops <= max_capacity (capacity b) (op :: ops)).
    { destruct op; cbn [max_capacity]; try lia. cbn in Hcap. rewrite <- Hcap. lia. }
    lia.
  - destruct op; try done. cbn [max_capacity broker_step set_capacity capacity] in *. lia.
Qed.

(** C31. No oversubscription: over any run of acquisitions, clones, drops,
    pending destructors, capacity changes and snapshots, in any order, the
    number of provider connections in use never exceeds the largest capacity
    configured during the run. *)
Theorem never_oversubscribed pool c ops :
  0 <= c -> peak (broker_new pool c) ops <= max_capacity c ops.
Proof.
  intros Hc. pose proof (peak_bounded ops _ (broker_new_inv pool c)) as H. cbn [capacity broker_new] in H.
  pose proof (max_capacity_ge c ops). change (connections (broker_new pool c)) with 0 in H. lia.
Qed.

(** The high watermark is exact: it equals the largest number of
    connections in use at any time since the broker was created. *)
Theorem high_watermark_is_peak pool c ops :
  high_watermark (broker_run (broker_new pool c) ops) = peak (broker_new pool c) ops.
Proof.
  destruct (broker_run_count ops _ (broker_new_inv pool c)) as [E|E]; [|done].
  rewrite E. cbn [high_watermark broker_new].
  pose proof (peak_ge (broker_new pool c) ops). change (connections (broker_new pool c)) with 0 in *. lia.
Qed.

(** Acquiring is idempotent per session: in every reachable state, a key
    whose allocation is alive is answered with that allocation, whatever the
    capacity, without taking a slot; any other key takes exactly one slot or
    is refused with the numbers that justify it.  In particular a destructor
    that gets the lock late never removes a newer allocation. *)
Theorem acquire_idempotent pool c ops key :
  let b := broker_run (broker_new pool c) ops in
  let '(b', r) := try_acquire b key in
  match r with
  | Ok lease =>
      (exists l, leases b' !! lease_id lease = Some l /\ session_key l = key) /\
      (forall id l, leases b' !! id = Some l -> session_key l = key -> id = lease_id lease) /\
      ((exists l, session_live b key (lease_id lease) l) /\ connections b' = connections b \/
       (forall id l, ~ session_live b key id l) /\ connections b < capacity b /\
       connections b' = connections b + 1)
  | Err (AtCapacity pool' capacity' active) =>
      (forall id l, ~ session_live b key id l) /\ leases b' = leases b /\
      pool' = pool_id b /\ capacity' = capacity b /\ active = connections b /\ capacity' <= active
  | Err LeaseIdExhausted => u64_max <= next_lease_id b /\ leases b' = leases b
  end.
Proof.
  intros b. pose proof (broker_run_inv _ ops (broker_new_inv pool c)) as Hi. fold b in Hi.
  pose proof (try_acquire_inv b key Hi) as Hi'. pose proof (broker_step_count b (BAcquire key) Hi) as Hc.
  cbn zeta in Hc. cbn [broker_step] in Hc.
  destruct (try_acquire_spec b key Hi) as [(id & l & Hl & E)|[Hno Ho]].
  - rewrite E in *. cbn in Hi', Hc |- *. destruct Hl as [Hl Hkey].
    split; [exists (count_up l); by rewrite lookup_insert_eq|]. split.
    + intros id' l' Hl' Hk'. apply (bi_alive _ Hi') in Hl' as H1. cbn in H1.
      assert (session_key (count_up l) = key) as Hk2 by done.
      pose proof (bi_alive _ Hi' id (count_up l) (lookup_insert_eq _ _ _)) as H2. cbn in H2. congruence.
    + left. split; [by exists l|]. unfold connections. cbn. by rewrite map_size_insert_Some by (by exists l).
  - destruct Ho as [H1|H1 H2|H1 H2]; [by split_and!|by split|]. cbn in Hi', Hc |- *.
    split; [exists (mkLeaseInner key 1); by rewrite lookup_insert_eq|]. split.
    + intros id' l' Hl' Hk'. apply (bi_alive _ Hi') in Hl' as H3. cbn in H3.
      rewrite Hk', lookup_insert_eq in H3. by simplify_eq.
    + right. split; [done|]. split; [done|]. destruct Hc as [[[Hc1 Hc2]|(_ & ? & _)] _]; [|done].
      exfalso. unfold connections in *. cbn in *. rewrite map_size_insert_None in Hc1 by (by apply next_lease_free). lia.
Qed.

(** ** Waiting for a slot *)

(** [acquire_wait] sleeps until [notify_waiters] is called. *)
Definition notifies (b : BrokerState) (op : BrokerOp) : bool :=
  match op with
  | BDestructor i => bool_decide (is_Some (dropping b !! i))
  | BSetCapacity _ => true
  | _ => false
  end.

Fixpoint silent (b : BrokerState) (ops : list BrokerOp) : bool :=
  match ops with
  | [] => true
  | op :: ops => negb (notifies b op) && silent (broker_step b op) ops
  end.

(** A full pool in which [key] has no allocation. *)
Definition refuses (b : BrokerState) (key : string) : Prop :=
  capacity b <= connections b /\ forall id l, ~ session_live b key id l.

Lemma refuses_acquire b key :
  broker_inv b -> refuses b key ->
  try_acquire b key = (with_sessions b (retain_live (leases b) (sessions b)),
                       Err (AtCapacity (pool_id b) (capacity b) (connections b))).
Proof.
  intros Hi [Hfull Hno]. destruct (try_acquire_spec b key Hi) as [(id & l & Hl & _)|[_ Ho]].
  - by destruct (Hno id l).
  - inversion Ho; [done|lia|lia].
Qed.

Lemma refuses_count b key id l l' :
  refuses b key -> leases b !! id = Some l -> session_key l' = session_key l ->
  forall sessions' next dropping',
  refuses (mkBrokerState (pool_id b) (capacity b) (high_watermark b) next sessions'
             (<[id := l']> (leases b)) dropping') key.
Proof.
  intros [Hfull Hno] Hl Hk sessions' next dropping'. split.
  - unfold connections in *. cbn. by rewrite map_size_insert_Some by (by exists l).
  - intros id' x [Hx Hkey]. cbn in Hx. apply lookup_insert_Some in Hx as [[<- <-]|[_ Hx]].
    + apply (Hno id l). split; [done|congruence].
    + by apply (Hno id' x).
Qed.

(** One step that notifies nobody: a destructor is left waiting, or the pool
    still refuses. *)
Lemma silent_step_refuses b op key :
  broker_inv b -> refuses b key -> notifies b op = false ->
  let b' := broker_step b op in
  pool_id b' = pool_id b /\ capacity b' = capacity b /\
  ((length (dropping b) < length (dropping b'))%nat \/
   dropping b' = dropping b /\ connections b' = connections b /\ refuses b' key).
Proof.
  intros Hi Hr Hn. destruct op as [k|[id]|[id]|i|c|]; cbn zeta; cbn [broker_step]; try done.
  - destruct (try_acquire_spec b k Hi) as [(id & l & [Hl _] & ->)|[_ Ho]]; cbn.
    + split_and!; try done. right. split; [done|]. split; [|by apply (refuses_count b key id l)].
      unfold connections. cbn. by rewrite map_size_insert_Some by (by exists l).
    + destruct Hr as [Hfull Hno]. inversion Ho; try (cbn; lia). cbn. split_and!; try done. by right.
  - unfold lease_clone. cbn [lease_id]. split_and!; try done. right. cbn. split; [done|].
    destruct (leases b !! id) as [l|] eqn:Hl.
    + rewrite (alter_insert_Some _ _ _ l) by done. split; [|by apply (refuses_count b key id l)].
      unfold connections. cbn. by rewrite map_size_insert_Some by (by exists l).
    + rewrite alter_None_id by done. done.
  - unfold lease_drop. cbn [lease_id]. destruct (leases b !! id) as [l|] eqn:Hl; [|split_and!; try done; by right].
    destruct (strong_count l =? 1)%positive; cbn; (split_and!; try done).
    + left. rewrite length_app. cbn. lia.
    + right. split; [done|]. split; [|by apply (refuses_count b key id l)].
      unfold connections. cbn. by rewrite map_size_insert_Some by (by exists l).
  - unfold lease_inner_drop. cbn in Hn. case_bool_decide as Hx; [done|].
    destruct (dropping b !! i) eqn:E; [by destruct Hx|]. split_and!; try done. by right.
  - split_and!; try done. by right.
Qed.

Lemma silent_run_refuses ops b key :
  broker_inv b -> refuses b key -> silent b ops = true ->
  dropping (broker_run b ops) = dropping b ->
  pool_id (broker_run b ops) = pool_id b /\ capacity (broker_run b ops) = capacity b /\
  connections (broker_run b ops) = connections b /\ refuses (broker_run b ops) key.
Proof.
  assert (forall ops b, broker_inv b -> silent b ops = true ->
    (length (dropping b) <= length (dropping (broker_run b ops)))%nat) as Hmono.
  { intros l. induction l as [|op l IH]; intros b0 Hi0; cbn [silent broker_run fold_left]; [done|].
    rewrite andb_true_iff, negb_true_iff. intros [Hn Hs].
    pose proof (IH _ (broker_step_inv b0 op Hi0) Hs).
    assert ((length (dropping b0) <= length (dropping (broker_step b0 op)))%nat); [|unfold broker_run in *; lia].
    destruct op as [k|[id]|[id]|i|c|]; cbn; try done; try lia.
    - destruct (try_acquire_spec b0 k Hi0) as [(id & l' & _ & ->)|[_ Ho]]; [done|]. by destruct Ho.
    - unfold lease_drop. cbn [lease_id]. destruct (leases b0 !! id) as [x|]; [|done].
      destruct (strong_count x =? 1)%positive; cbn; [rewrite length_app; lia|done].
    - unfold lease_inner_drop. cbn in Hn. case_bool_decide as Hx; [done|].
      destruct (dropping b0 !! i) eqn:E; [by destruct Hx|done]. }
  revert b. induction ops as [|op ops IH]; intros b Hi Hr; cbn [silent]; [done|].
  rewrite andb_true_iff, negb_true_iff. intros [Hn Hs] Hd.
  destruct (silent_step_refuses b op key Hi Hr Hn) as (Hp & Hc & Hcase). cbn zeta in *.
  change (broker_run b (op :: ops)) with (broker_run (broker_step b op) ops) in *.
  pose proof (broker_step_inv b op Hi) as Hi1. pose proof (Hmono ops _ Hi1 Hs) as Hm.
  destruct Hcase as [Hlt|(Hd1 & Hcn & Hr1)]; [rewrite Hd in Hm; lia|].
  rewrite <- Hd1 in Hd. destruct (IH _ Hi1 Hr1 Hs Hd) as (-> & -> & -> & ?). done.
Qed.

(** No slot is missed: once an acquisition of [key] was refused, then as
    long as no release or capacity change has notified the waiters and no
    released allocation still has its (notifying) destructor to run, another
    attempt is refused with the same numbers.  So a viewer that registers
    before it tries and retries when notified gets a slot that becomes free. *)
Theorem waiter_misses_no_slot pool c ops key pool' capacity' active b1 silent_ops :
  let b := broker_run (broker_new pool c) ops in
  try_acquire b key = (b1, Err (AtCapacity pool' capacity' active)) ->
  silent b1 silent_ops = true ->
  dropping (broker_run b1 silent_ops) = dropping b1 ->
  snd (try_acquire (broker_run b1 silent_ops) key) = Err (AtCapacity pool' capacity' active).
Proof.
  intros b Hb Hs Hd. pose proof (broker_run_inv _ ops (broker_new_inv pool c)) as Hi. fold b in Hi.
  pose proof (try_acquire_inv b key Hi) as Hi1. rewrite Hb in Hi1. cbn in Hi1.
  destruct (try_acquire_spec b key Hi) as [(id & l & _ & E)|[Hno Ho]]; [congruence|].
  rewrite Hb in Ho. inversion Ho as [Hfull E1| |]; subst.
  assert (refuses (with_sessions b (retain_live (leases b) (sessions b))) key) as Hr by done.
  destruct (silent_run_refuses silent_ops _ key Hi1 Hr Hs Hd) as (Hp & Hc & Hn & Hr').
  rewrite (refuses_acquire _ key) by (done || by apply broker_run_inv). cbn. by rewrite Hp, Hc, Hn.
Qed.
