(* ===== verification/Registry.v ===== *)
(** * Single-flight session registry

    Models [crates/media/src/registry.rs]: the map that makes concurrent
    viewers of one channel share one upstream session.

    Entries ([Arc<SessionEntry>]) live in [heap] by their address, so that
    [Arc::ptr_eq] is equality of addresses; [live] is the set of sessions that
    still have a strong reference.  A caller of [get_or_try_init] is a state
    machine whose atomic steps are the code between two points at which it can
    be interrupted: a lock, an [await] or its cancellation. *)
From Stdlib Require Import ZArith Lia.
From stdpp Require Import base numbers option.
From stdpp Require Import gmap.
From stdpp Require Import list sorting.
From S2P Require Import Prelude.
Open Scope Z_scope.

Section Registry.
Context {K : Type} `{Countable K} {E : Type}.

Inductive EntryState :=
| Starting
| Ready (session : Z)
| Failed (error : E)
| Cancelled.

(** Where a call of [get_or_try_init] stands.  [Initializing]: it runs its
    initializer under an armed guard.  [Checking]: it is about to register for
    a notification and look at the entry.  [Sleeping]: it registered, saw
    [Starting] and awaits the notification.  [Removing]: it stored its error
    and is about to remove the entry from the map. *)
Inductive Phase :=
| Initializing (entry : Z)
| Checking (entry : Z)
| Sleeping (entry : Z)
| Removing (entry : Z) (error : E)
| Returned (outcome : result Z E).

Record Registry := mkRegistry {
  entries : gmap K Z;
  heap : gmap Z (K * EntryState);
  live : gset Z;
  callers : gmap Z (K * Phase);
  fresh_id : Z;
}.

Definition registry_new : Registry := mkRegistry ∅ ∅ ∅ ∅ 0.

Definition set_phase (r : Registry) (c : Z) (key : K) (phase : Phase) : Registry :=
  mkRegistry (entries r) (heap r) (live r) (<[c := (key, phase)]> (callers r)) (fresh_id r).

Definition set_entry (r : Registry) (e : Z) (key : K) (state : EntryState) : Registry :=
  mkRegistry (entries r) (<[e := (key, state)]> (heap r)) (live r) (callers r) (fresh_id r).

(** [entry.changed.notify_waiters()] *)
Definition wake (e : Z) (caller : K * Phase) : K * Phase :=
  match caller with
  | (key, Sleeping e') => if e' =? e then (key, Checking e) else caller
  | _ => caller
  end.
Definition notify (r : Registry) (e : Z) : Registry :=
  mkRegistry (entries r) (heap r) (live r) (wake e <$> callers r) (fresh_id r).

(** The head of [get_or_try_init]: look up or insert the entry. *)
Definition enter (r : Registry) (c : Z) (key : K) : Registry :=
  match entries r !! key with
  | Some e => set_phase r c key (Checking e)
  | None =>
      let e := fresh_id r in
      mkRegistry (<[key := e]> (entries r)) (<[e := (key, Starting)]> (heap r)) (live r)
        (<[c := (key, Initializing e)]> (callers r)) (fresh_id r + 1)
  end.

(** The initializer returned a session. *)
Definition init_ok (r : Registry) (c e : Z) (key : K) : Registry :=
  let s := fresh_id r in
  let r := mkRegistry (entries r) (heap r) ({[s]} ∪ live r) (callers r) (fresh_id r + 1) in
  set_phase (notify (set_entry r e key (Ready s)) e) c key (Returned (Ok s)).

(** The initializer returned an error. *)
Definition init_err (r : Registry) (c e : Z) (key : K) (error : E) : Registry :=
  set_phase (notify (set_entry r e key (Failed error)) e) c key (Removing e error).

Definition remove_entry_if_same (r : Registry) (key : K) (e : Z) : Registry :=
  if decide (entries r !! key = Some e)
  then mkRegistry (delete key (entries r)) (heap r) (live r) (callers r) (fresh_id r)
  else r.

(** The waiting half of the loop: register, lock, look. *)
Definition check (r : Registry) (c e : Z) (key : K) : Registry :=
  match heap r !! e with
  | Some (k, Starting) => set_phase r c key (Sleeping e)
  | Some (k, Ready s) =>
      if decide (s ∈ live r) then set_phase r c key (Returned (Ok s))
      else set_phase (set_entry r e k Starting) c key (Initializing e)
  | Some (k, Failed error) => set_phase r c key (Returned (Err error))
  | Some (k, Cancelled) => set_phase (set_entry r e k Starting) c key (Initializing e)
  | None => r
  end.

Definition drop_caller (r : Registry) (c : Z) : Registry :=
  mkRegistry (entries r) (heap r) (live r) (delete c (callers r)) (fresh_id r).

(** The caller's future is dropped; [InitializerGuard::drop] runs if it was
    initializing.  Between storing its error and removing the entry the caller
    does not await, so it cannot be dropped there. *)
Definition cancel (r : Registry) (c : Z) : Registry :=
  match callers r !! c with
  | Some (_, Initializing e) =>
      match heap r !! e with
      | Some (k, Starting) => notify (set_entry (drop_caller r c) e k Cancelled) e
      | _ => drop_caller r c
      end
  | Some (_, Removing _ _) => r
  | _ => drop_caller r c
  end.

Definition keep_entry (r : Registry) (e : Z) : Prop :=
  match heap r !! e with
  | Some (_, Ready s) => s ∈ live r
  | Some (_, Starting) => True
  | _ => False
  end.
#[export] Instance keep_entry_dec r e : Decision (keep_entry r e).
Proof. unfold keep_entry. repeat case_match; apply _. Defined.

Definition prune (r : Registry) : Registry :=
  mkRegistry (filter (fun ke => keep_entry r ke.2) (entries r)) (heap r) (live r) (callers r) (fresh_id r).

(** [get]: the live session of a key, without starting one. *)
Definition get (r : Registry) (key : K) : option Z :=
  e ← entries r !! key;
  match heap r !! e with
  | Some (_, Ready s) => if decide (s ∈ live r) then Some s else None
  | _ => None
  end.

(** ** Steps *)

Inductive RegistryOp :=
| RCall (c : Z) (key : K)
| RInitOk (c : Z)
| RInitErr (c : Z) (error : E)
| RRemove (c : Z)
| RCheck (c : Z)
| RCancel (c : Z)
| RDropSession (s : Z)
| RPrune.

(** A step that is not enabled in the state changes nothing. *)
Definition registry_step (r : Registry) (op : RegistryOp) : Registry :=
  match op with
  | RCall c key => match callers r !! c with None => enter r c key | Some _ => r end
  | RInitOk c =>
      match callers r !! c with Some (key, Initializing e) => init_ok r c e key | _ => r end
  | RInitErr c error =>
      match callers r !! c with Some (key, Initializing e) => init_err r c e key error | _ => r end
  | RRemove c =>
      match callers r !! c with
      | Some (key, Removing e error) =>
          set_phase (remove_entry_if_same r key e) c key (Returned (Err error))
      | _ => r
      end
  | RCheck c => match callers r !! c with Some (key, Checking e) => check r c e key | _ => r end
  | RCancel c => cancel r c
  | RDropSession s =>
      mkRegistry (entries r) (heap r) (live r ∖ {[s]}) (callers r) (fresh_id r)
  | RPrune => prune r
  end.

Definition registry_run (r : Registry) (ops : list RegistryOp) : Registry :=
  fold_left registry_step ops r.

(** ** Invariant *)

Record registry_inv (r : Registry) : Prop := {
  ri_init : forall c k e, callers r !! c = Some (k, Initializing e) -> heap r !! e = Some (k, Starting);
  ri_unique : forall c1 c2 k1 k2 e, callers r !! c1 = Some (k1, Initializing e) ->
    callers r !! c2 = Some (k2, Initializing e) -> c1 = c2;
  ri_work : forall e k, heap r !! e = Some (k, Starting) ->
    exists c, callers r !! c = Some (k, Initializing e);
  ri_sleep : forall c k e, callers r !! c = Some (k, Sleeping e) -> heap r !! e = Some (k, Starting);
  ri_check : forall c k e, callers r !! c = Some (k, Checking e) -> exists st, heap r !! e = Some (k, st);
  ri_removing : forall c k e err, callers r !! c = Some (k, Removing e err) ->
    heap r !! e = Some (k, Failed err);
  ri_entries : forall k e, entries r !! k = Some e -> exists st, heap r !! e = Some (k, st);
  ri_heap_fresh : forall e x, heap r !! e = Some x -> e < fresh_id r;
  ri_ready_fresh : forall e k s, heap r !! e = Some (k, Ready s) -> s < fresh_id r;
  ri_live_fresh : forall s, s ∈ live r -> s < fresh_id r;
  ri_returned_fresh : forall c k s, callers r !! c = Some (k, Returned (Ok s)) -> s < fresh_id r;
}.

Lemma registry_new_inv : registry_inv registry_new.
Proof. split; cbn; intros; rewrite ?lookup_empty in *; set_solver. Qed.

Lemma wake_inv e x k ph :
  wake e x = (k, ph) -> x = (k, ph) \/ x = (k, Sleeping e) /\ ph = Checking e.
Proof.
  destruct x as [k0 [| |e'| |]]; cbn; try (intros [= <- <-]; by left).
  destruct (Z.eqb_spec e' e) as [->|]; intros [= <- <-]; [by right|by left].
Qed.

Lemma wake_no_sleep e x k : wake e x <> (k, Sleeping e).
Proof. destruct x as [k0 [| |e'| |]]; cbn; try done. destruct (Z.eqb_spec e' e); congruence. Qed.

Lemma lookup_wake (cs : gmap Z (K * Phase)) e c k ph :
  (wake e <$> cs) !! c = Some (k, ph) ->
  cs !! c = Some (k, ph) /\ ph <> Sleeping e \/ cs !! c = Some (k, Sleeping e) /\ ph = Checking e.
Proof.
  rewrite lookup_fmap, fmap_Some. intros (x & Hx & Hw).
  destruct (wake_inv e x k ph (eq_sym Hw)) as [->|[-> ->]]; [|by right].
  left. split; [done|]. intros ->. by eapply wake_no_sleep.
Qed.

Lemma lookup_wake_init (cs : gmap Z (K * Phase)) e c k e' :
  cs !! c = Some (k, Initializing e') -> (wake e <$> cs) !! c = Some (k, Initializing e').
Proof. intros Hc. by rewrite lookup_fmap, Hc. Qed.

(** The state of a caller or entry after an update, by cases. *)
Ltac reg_cases :=
  repeat match goal with
  | H : <[_ := _]> _ !! _ = Some _ |- _ => apply lookup_insert_Some in H as [[??]|[??]]; simplify_eq/=
  | H : delete _ _ !! _ = Some _ |- _ => apply lookup_delete_Some in H as [??]
  | H : (wake _ <$> _) !! _ = Some _ |- _ => apply lookup_wake in H as [[??]|[??]]; simplify_eq/=
  end.

(** Apply a clause of the invariant to the hypothesis it fits. *)
Tactic Notation "learn" constr(I) "as" simple_intropattern(p) :=
  match goal with Hx : _ !! _ = Some _ |- _ => apply I in Hx as p end.
Tactic Notation "learn" constr(I) := learn I as ?.

(** An initializer ends: its entry leaves [Starting], everyone sleeping on it
    wakes, and the caller moves on or is gone. *)
Definition settle (r : Registry) (c e : Z) (k : K) (st : EntryState) (live' : gset Z) (fresh' : Z)
    (mine : option Phase) : Registry :=
  mkRegistry (entries r) (<[e := (k, st)]> (heap r)) live'
    (match mine with
     | None => delete c (wake e <$> callers r)
     | Some ph => <[c := (k, ph)]> (wake e <$> callers r)
     end) fresh'.

Lemma settle_inv r c e k st live' fresh' mine :
  registry_inv r -> callers r !! c = Some (k, Initializing e) -> st <> Starting ->
  fresh_id r <= fresh' -> (forall s, s ∈ live' -> s < fresh') ->
  (forall s, st = Ready s -> s < fresh') ->
  match mine with
  | None => True
  | Some (Removing e' err) => e' = e /\ st = Failed err
  | Some (Returned (Ok s)) => s < fresh'
  | _ => False
  end ->
  registry_inv (settle r c e k st live' fresh' mine).
Proof.
  intros [I1 I2 I3 I4 I5 I6 I7 I8 I9 I10 I11] Hc Hst Hf Hl Hr Hm.
  pose proof (I1 c k e Hc) as He. unfold settle.
  assert (forall c' k' ph,
    match mine with
    | None => delete c (wake e <$> callers r)
    | Some ph => <[c := (k, ph)]> (wake e <$> callers r)
    end !! c' = Some (k', ph) ->
    c' = c /\ k' = k /\ mine = Some ph \/
    c' <> c /\ (callers r !! c' = Some (k', ph) /\ ph <> Sleeping e \/
               callers r !! c' = Some (k', Sleeping e) /\ ph = Checking e)) as Hcs.
  { intros c' k' ph Hx. destruct mine as [ph0|]; reg_cases; auto. }
  assert (forall e' x, <[e := (k, st)]> (heap r) !! e' = Some x -> e' = e /\ x = (k, st) \/ e' <> e /\ heap r !! e' = Some x) as Hh.
  { intros e' x Hx. reg_cases; auto. }
  split; cbn.
  - intros c' k' e' Hx. apply Hcs in Hx as [(-> & -> & ->)|(Hne & [[Hx _]|[_ ?]])]; [done| |done].
    rewrite lookup_insert_ne; [by eapply I1|]. intros <-. by destruct Hne; eapply I2.
  - intros c1 c2 k1 k2 e' H1 H2. apply Hcs in H1 as [(-> & -> & ->)|(Hn1 & [[H1 _]|[_ ?]])]; [done| |done].
    apply Hcs in H2 as [(-> & -> & ?)|(Hn2 & [[H2 _]|[_ ?]])]; [by simplify_eq| |done]. by eapply I2.
  - intros e' k' Hx. apply Hh in Hx as [[-> [= -> <-]]|[Hne Hx]]; [done|].
    destruct (I3 e' k' Hx) as [c' Hc']. exists c'. assert (c' <> c) by congruence.
    apply (lookup_wake_init _ e) in Hc'. destruct mine; [by rewrite lookup_insert_ne|by rewrite lookup_delete_ne].
  - intros c' k' e' Hx. apply Hcs in Hx as [(-> & -> & ->)|(Hne & [[Hx Hs]|[_ ?]])]; [done| |done].
    rewrite lookup_insert_ne; [by eapply I4|congruence].
  - intros c' k' e' Hx. apply Hcs in Hx as [(-> & -> & ->)|(Hne & [[Hx _]|[Hx [= ->]]])]; [done| |].
    + destruct (I5 c' k' e' Hx) as [st' Hst']. destruct (decide (e' = e)) as [->|].
      * rewrite He in Hst'. exists st. rewrite lookup_insert_eq. by simplify_eq.
      * exists st'. by rewrite lookup_insert_ne.
    + apply I4 in Hx. exists st. rewrite lookup_insert_eq. congruence.
  - intros c' k' e' err Hx. apply Hcs in Hx as [(-> & -> & ->)|(Hne & [[Hx _]|[_ ?]])]; [|  |done].
    + destruct Hm as [-> ->]. by rewrite lookup_insert_eq.
    + rewrite lookup_insert_ne; [by eapply I6|]. intros <-. apply I6 in Hx. congruence.
  - intros k' e' Hx. destruct (I7 k' e' Hx) as [st' Hst']. destruct (decide (e' = e)) as [->|].
    + exists st. rewrite lookup_insert_eq. congruence.
    + exists st'. by rewrite lookup_insert_ne.
  - intros e' x Hx. apply Hh in Hx as [[-> _]|[_ Hx]]; [apply I8 in He|apply I8 in Hx]; lia.
  - intros e' k' s Hx. apply Hh in Hx as [[-> [= -> <-]]|[_ Hx]]; [by apply Hr|]. apply I9 in Hx. lia.
  - done.
  - intros c' k' s Hx. apply Hcs in Hx as [(-> & -> & ->)|(Hne & [[Hx _]|[_ ?]])]; [done| |done].
    apply I11 in Hx. lia.
Qed.

(** A waiter takes over an entry nobody is initializing. *)
Lemma take_over_inv r c e k st :
  registry_inv r -> callers r !! c = Some (k, Checking e) -> heap r !! e = Some (k, st) ->
  st <> Starting -> (forall err, st <> Failed err) ->
  registry_inv (set_phase (set_entry r e k Starting) c k (Initializing e)).
Proof.
  intros [I1 I2 I3 I4 I5 I6 I7 I8 I9 I10 I11] Hc He Hst Hnf. split; cbn.
  - intros c' k' e' Hx. reg_cases; [by rewrite lookup_insert_eq|].
    rewrite lookup_insert_ne; [by eapply I1|]. intros <-. learn I1. congruence.
  - intros c1 c2 k1 k2 e' Hx Hy. reg_cases; try done; [learn I1; congruence..|by eapply I2].
  - intros e' k' Hx. reg_cases; [exists c; by rewrite lookup_insert_eq|].
    learn I3 as [c' Hc'].
    exists c'. rewrite lookup_insert_ne; [done|congruence].
  - intros c' k' e' Hx. reg_cases. learn I4. rewrite lookup_insert_ne; [done|congruence].
  - intros c' k' e' Hx. reg_cases. learn I5 as [st' Hst'].
    destruct (decide (e' = e)) as [->|]; [exists Starting; rewrite lookup_insert_eq; congruence|].
    exists st'. by rewrite lookup_insert_ne.
  - intros c' k' e' err Hx. reg_cases. learn I6. rewrite lookup_insert_ne; [done|]. intros <-.
    simplify_eq. by eapply Hnf.
  - intros k' e' Hx. destruct (I7 k' e' Hx) as [st' Hst'].
    destruct (decide (e' = e)) as [->|]; [exists Starting; rewrite lookup_insert_eq; congruence|].
    exists st'. by rewrite lookup_insert_ne.
  - intros e' x Hx. reg_cases; eauto.
  - intros e' k' s Hx. reg_cases; eauto.
  - done.
  - intros c' k' s Hx. reg_cases. eauto.
Qed.

(** A caller that is not initializing changes phase or leaves. *)
Lemma phase_inv r c mine :
  registry_inv r -> (forall k e, callers r !! c <> Some (k, Initializing e)) ->
  match mine with
  | None => True
  | Some (k, Sleeping e) => heap r !! e = Some (k, Starting)
  | Some (k, Checking e) => exists st, heap r !! e = Some (k, st)
  | Some (k, Returned (Ok s)) => s < fresh_id r
  | Some (k, Returned (Err _)) => True
  | _ => False
  end ->
  registry_inv (mkRegistry (entries r) (heap r) (live r)
    (match mine with None => delete c (callers r) | Some x => <[c := x]> (callers r) end) (fresh_id r)).
Proof.
  intros [I1 I2 I3 I4 I5 I6 I7 I8 I9 I10 I11] Hc Hm. split; cbn; try done.
  - intros c' k' e' Hx. destruct mine as [[k0 ph0]|]; reg_cases; eauto; done.
  - intros c1 c2 k1 k2 e' Hx Hy. destruct mine as [[k0 ph0]|]; reg_cases; eauto; done.
  - intros e' k' Hx. destruct (I3 _ _ Hx) as [c' Hc']. exists c'.
    assert (c' <> c) by (intros ->; by eapply Hc).
    destruct mine; [by rewrite lookup_insert_ne|by rewrite lookup_delete_ne].
  - intros c' k' e' Hx. destruct mine as [[k0 ph0]|]; reg_cases; eauto; done.
  - intros c' k' e' Hx. destruct mine as [[k0 ph0]|]; reg_cases; eauto; done.
  - intros c' k' e' err Hx. destruct mine as [[k0 ph0]|]; reg_cases; eauto; done.
  - intros c' k' s Hx. destruct mine as [[k0 ph0]|]; reg_cases; eauto; done.
Qed.

Lemma enter_inv r c k : registry_inv r -> callers r !! c = None -> registry_inv (enter r c k).
Proof.
  intros Hi Hc. unfold enter. destruct (entries r !! k) as [e|] eqn:Ek.
  - apply (phase_inv r c (Some (k, Checking e))); [done|congruence|]. by apply (ri_entries r Hi).
  - destruct Hi as [I1 I2 I3 I4 I5 I6 I7 I8 I9 I10 I11].
    assert (heap r !! fresh_id r = None) as Hnone.
    { destruct (heap r !! fresh_id r) eqn:Eh; [|done]. apply I8 in Eh. lia. }
    split; cbn.
    + intros c' k' e' Hx. reg_cases; [by rewrite lookup_insert_eq|]. learn I1.
      rewrite lookup_insert_ne; [done|congruence].
    + intros c1 c2 k1 k2 e' Hx Hy. reg_cases; try done; [learn I1; congruence..|by eapply I2].
    + intros e' k' Hx. reg_cases; [exists c; by rewrite lookup_insert_eq|]. learn I3 as [c' Hc'].
      exists c'. rewrite lookup_insert_ne; [done|congruence].
    + intros c' k' e' Hx. reg_cases. learn I4. rewrite lookup_insert_ne; [done|congruence].
    + intros c' k' e' Hx. reg_cases. learn I5 as [st Hst]. exists st. rewrite lookup_insert_ne; [done|congruence].
    + intros c' k' e' err Hx. reg_cases. learn I6. rewrite lookup_insert_ne; [done|congruence].
    + intros k' e' Hx. reg_cases; [exists Starting; by rewrite lookup_insert_eq|]. learn I7 as [st Hst].
      exists st. rewrite lookup_insert_ne; [done|congruence].
    + intros e' x Hx. reg_cases; [lia|]. learn I8. lia.
    + intros e' k' s Hx. reg_cases. learn I9. lia.
    + intros s Hs. apply I10 in Hs. lia.
    + intros c' k' s Hx. reg_cases. learn I11. lia.
Qed.

Lemma subset_entries_inv r entries' :
  registry_inv r -> entries' ⊆ entries r ->
  registry_inv (mkRegistry entries' (heap r) (live r) (callers r) (fresh_id r)).
Proof.
  intros [] Hsub. split; cbn; try done. intros k e Hk. eapply lookup_weaken in Hk; eauto.
Qed.

Lemma subset_live_inv r live' :
  registry_inv r -> live' ⊆ live r ->
  registry_inv (mkRegistry (entries r) (heap r) live' (callers r) (fresh_id r)).
Proof. intros [] Hsub. split; cbn; try done. intros s Hs. set_solver. Qed.

Lemma init_ok_inv r c e k :
  registry_inv r -> callers r !! c = Some (k, Initializing e) -> registry_inv (init_ok r c e k).
Proof.
  intros Hi Hc.
  apply (settle_inv r c e k (Ready (fresh_id r)) ({[fresh_id r]} ∪ live r) (fresh_id r + 1)
           (Some (Returned (Ok (fresh_id r))))); try done; try lia.
  - intros s Hs. apply elem_of_union in Hs as [->%elem_of_singleton|Hs]; [lia|].
    apply (ri_live_fresh r Hi) in Hs. lia.
  - intros s [= <-]. lia.
Qed.

Lemma init_err_inv r c e k err :
  registry_inv r -> callers r !! c = Some (k, Initializing e) -> registry_inv (init_err r c e k err).
Proof.
  intros Hi Hc.
  apply (settle_inv r c e k (Failed err) (live r) (fresh_id r) (Some (Removing e err))); try done.
  apply (ri_live_fresh r Hi).
Qed.

Lemma cancel_inv r c : registry_inv r -> registry_inv (cancel r c).
Proof.
  intros Hi. unfold cancel. destruct (callers r !! c) as [[k [e|e|e|e err|o]]|] eqn:Ec.
  - rewrite (ri_init r Hi _ _ _ Ec). unfold notify, set_entry, drop_caller. cbn. rewrite fmap_delete.
    apply (settle_inv r c e k Cancelled (live r) (fresh_id r) None); try done. apply (ri_live_fresh r Hi).
  - apply (phase_inv r c None); [done|congruence|done].
  - apply (phase_inv r c None); [done|congruence|done].
  - done.
  - apply (phase_inv r c None); [done|congruence|done].
  - apply (phase_inv r c None); [done|congruence|done].
Qed.

Lemma check_inv r c e k :
  registry_inv r -> callers r !! c = Some (k, Checking e) -> registry_inv (check r c e k).
Proof.
  intros Hi Hc. destruct (ri_check r Hi c k e Hc) as [st He]. unfold check. rewrite He.
  destruct st as [|s|err|].
  - apply (phase_inv r c (Some (k, Sleeping e))); [done|congruence|done].
  - destruct (decide (s ∈ live r)).
    + apply (phase_inv r c (Some (k, Returned (Ok s)))); [done|congruence|by apply (ri_live_fresh r Hi)].
    + by apply (take_over_inv r c e k (Ready s)).
  - apply (phase_inv r c (Some (k, Returned (Err err)))); [done|congruence|done].
  - by apply (take_over_inv r c e k Cancelled).
Qed.

Lemma remove_entry_subset r k e : entries (remove_entry_if_same r k e) ⊆ entries r.
Proof. unfold remove_entry_if_same. case_decide; [apply delete_subseteq|done]. Qed.

Lemma registry_step_inv r op : registry_inv r -> registry_inv (registry_step r op).
Proof.
  intros Hi. destruct op as [c k|c|c err|c|c|c|s|]; cbn.
  - destruct (callers r !! c) eqn:Ec; [done|by apply enter_inv].
  - destruct (callers r !! c) as [[k []]|] eqn:Ec; try done. by apply init_ok_inv.
  - destruct (callers r !! c) as [[k []]|] eqn:Ec; try done. by apply init_err_inv.
  - destruct (callers r !! c) as [[k [| | |e err|]]|] eqn:Ec; try done.
    assert (registry_inv (remove_entry_if_same r k e)) as Hi'.
    { unfold remove_entry_if_same. case_decide; [|done]. apply subset_entries_inv; [done|apply delete_subseteq]. }
    apply (phase_inv (remove_entry_if_same r k e) c (Some (k, Returned (Err err)))); [done| |done].
    unfold remove_entry_if_same. case_decide; cbn; congruence.
  - destruct (callers r !! c) as [[k []]|] eqn:Ec; try done. by apply check_inv.
  - by apply cancel_inv.
  - apply subset_live_inv; [done|set_solver].
  - apply subset_entries_inv; [done|apply map_filter_subseteq].
Qed.

Lemma registry_run_inv ops r : registry_inv r -> registry_inv (registry_run r ops).
Proof.
  revert r. induction ops as [|op ops IH]; intros r Hi; [done|]. apply IH. by apply registry_step_inv.
Qed.

(** ** Without [prune]

    The gateway never calls [prune]; then every entry that has not failed is
    the one in the map. *)

Record attached (r : Registry) : Prop := {
  at_entry : forall e k st, heap r !! e = Some (k, st) -> (forall err, st <> Failed err) ->
    entries r !! k = Some e;
  at_session : forall c k s, callers r !! c = Some (k, Returned (Ok s)) -> s ∈ live r ->
    exists e, heap r !! e = Some (k, Ready s);
}.

Lemma settle_attached r c e k st live' fresh' mine :
  registry_inv r -> attached r -> callers r !! c = Some (k, Initializing e) ->
  (forall s, s ∈ live' -> s ∈ live r \/ mine = Some (Returned (Ok s))) ->
  match mine with Some (Returned (Ok s)) => st = Ready s /\ s ∉ live r /\ fresh_id r <= s | _ => True end ->
  attached (settle r c e k st live' fresh' mine).
Proof.
  intros Hi [A1 A2] Hc Hl Hm. pose proof (ri_init r Hi c k e Hc) as He. split; cbn.
  - intros e' k' st' Hx Hnf. reg_cases; [by eapply A1|by eapply A1].
  - intros c' k' s Hx Hs.
    assert (c' = c /\ k' = k /\ mine = Some (Returned (Ok s)) \/
            c' <> c /\ callers r !! c' = Some (k', Returned (Ok s))) as [(-> & -> & ->)|[Hne Hx']].
    { destruct mine; reg_cases; auto. }
    + destruct Hm as [-> _]. exists e. by rewrite lookup_insert_eq.
    + destruct (Hl s Hs) as [Hs'| ->].
      * destruct (A2 _ _ _ Hx' Hs') as [e' He']. exists e'. rewrite lookup_insert_ne; [done|congruence].
      * destruct Hm as (_ & _ & Hge). apply (ri_returned_fresh r Hi) in Hx'. lia.
Qed.

Lemma phase_attached r c mine :
  attached r ->
  match mine with
  | Some (k, Returned (Ok s)) => exists e, heap r !! e = Some (k, Ready s)
  | _ => True
  end ->
  attached (mkRegistry (entries r) (heap r) (live r)
    (match mine with None => delete c (callers r) | Some x => <[c := x]> (callers r) end) (fresh_id r)).
Proof.
  intros [A1 A2] Hm. split; cbn; [done|]. intros c' k' s Hx Hs.
  destruct mine as [[k0 ph0]|]; reg_cases; eauto.
Qed.

Lemma take_over_attached r c e k st :
  attached r -> heap r !! e = Some (k, st) -> (forall err, st <> Failed err) ->
  (forall s, st = Ready s -> s ∉ live r) ->
  attached (set_phase (set_entry r e k Starting) c k (Initializing e)).
Proof.
  intros [A1 A2] He Hnf Hd. split; cbn.
  - intros e' k' st' Hx Hnf'. reg_cases; by eapply A1.
  - intros c' k' s Hx Hs. reg_cases. destruct (A2 c' k' s) as [e' He']; [done..|].
    exists e'. rewrite lookup_insert_ne; [done|]. intros <-. rewrite He in He'. simplify_eq. by eapply Hd.
Qed.

Lemma registry_step_attached r op :
  registry_inv r -> attached r -> op <> RPrune -> attached (registry_step r op).
Proof.
  intros Hi Ha Hop. pose proof Ha as [A1 A2]. destruct op as [c k|c|c err|c|c|c|s|]; cbn; [..|done].
  - destruct (callers r !! c) eqn:Ec; [done|]. unfold enter. destruct (entries r !! k) as [e|] eqn:Ek.
    + by apply (phase_attached r c (Some (k, Checking e))).
    + split; cbn.
      * intros e' k' st' Hx Hnf. reg_cases; [by rewrite lookup_insert_eq|].
        rewrite lookup_insert_ne; [by eapply A1|]. intros <-. learn A1; [congruence|done].
      * intros c' k' s Hx Hs. reg_cases. destruct (A2 c' k' s) as [e' He']; [done..|]. exists e'.
        rewrite lookup_insert_ne; [done|]. intros <-. apply (ri_heap_fresh r Hi) in He'. lia.
  - destruct (callers r !! c) as [[k [e| | | |]]|] eqn:Ec; try done.
    apply (settle_attached r c e k (Ready (fresh_id r)) ({[fresh_id r]} ∪ live r) (fresh_id r + 1)
             (Some (Returned (Ok (fresh_id r))))); try done.
    + intros s Hs. apply elem_of_union in Hs as [->%elem_of_singleton|Hs]; [by right|by left].
    + split; [done|]. split; [|lia]. intros Hs. apply (ri_live_fresh r Hi) in Hs. lia.
  - destruct (callers r !! c) as [[k [e| | | |]]|] eqn:Ec; try done.
    apply (settle_attached r c e k (Failed err) (live r) (fresh_id r) (Some (Removing e err))); try done. auto.
  - destruct (callers r !! c) as [[k [| | |e err|]]|] eqn:Ec; try done.
    apply (phase_attached (remove_entry_if_same r k e) c (Some (k, Returned (Err err)))); [|done].
    unfold remove_entry_if_same. case_decide as Hk; [|done]. split; cbn; [|done].
    intros e' k' st' Hx Hnf. pose proof (ri_removing r Hi _ _ _ _ Ec) as Hf.
    rewrite lookup_delete_ne; [by eapply A1|]. intros <-. pose proof (A1 e' k st' Hx Hnf) as Hk'.
    rewrite Hk in Hk'. simplify_eq. by eapply Hnf.
  - destruct (callers r !! c) as [[k [|e| | |]]|] eqn:Ec; try done.
    destruct (ri_check r Hi c k e Ec) as [st He]. unfold check. rewrite He. destruct st as [|s|err|].
    + by apply (phase_attached r c (Some (k, Sleeping e))).
    + destruct (decide (s ∈ live r)) as [Hs|Hs].
      * apply (phase_attached r c (Some (k, Returned (Ok s)))); [done|by exists e].
      * apply (take_over_attached r c e k (Ready s)); try done. by intros s' [= <-].
    + by apply (phase_attached r c (Some (k, Returned (Err err)))).
    + by apply (take_over_attached r c e k Cancelled).
  - unfold cancel. destruct (callers r !! c) as [[k [e|e|e|e err|o]]|] eqn:Ec; try by apply (phase_attached r c None).
    + rewrite (ri_init r Hi _ _ _ Ec). unfold notify, set_entry, drop_caller. cbn. rewrite fmap_delete.
      apply (settle_attached r c e k Cancelled (live r) (fresh_id r) None); try done. auto.
    + done.
  - split; cbn; [done|]. intros c k s' Hx Hs. apply (A2 c k s'); [done|set_solver].
Qed.

Lemma registry_run_attached ops r :
  registry_inv r -> attached r -> Forall (fun op => op <> RPrune) ops -> attached (registry_run r ops).
Proof.
  intros Hi Ha Hops. revert r Hi Ha. induction Hops as [|op ops Hop Hops IH]; intros r Hi Ha; [done|].
  apply IH; [by apply registry_step_inv|by apply registry_step_attached].
Qed.

Lemma registry_new_attached : attached registry_new.
Proof. split; cbn; intros; rewrite ?lookup_empty in *; done. Qed.

(** ** Properties *)

(** C32. Single flight, and nobody waits in vain: after any interleaving of
    calls, completions, errors, cancellations, session drops and prunes, at
    most one caller runs the initializer of an entry, and whenever a caller
    sleeps on an entry there is such a caller.  A cancelled initializer
    therefore never strands its waiters. *)
Theorem single_flight ops :
  let r := registry_run registry_new ops in
  (forall c1 c2 k1 k2 e, callers r !! c1 = Some (k1, Initializing e) ->
     callers r !! c2 = Some (k2, Initializing e) -> c1 = c2) /\
  (forall c k e, callers r !! c = Some (k, Sleeping e) ->
     exists c', c' <> c /\ callers r !! c' = Some (k, Initializing e)).
Proof.
  intros r. pose proof (registry_run_inv ops _ registry_new_inv) as Hi. fold r in Hi. split.
  - apply (ri_unique r Hi).
  - intros c k e Hc. destruct (ri_work r Hi e k (ri_sleep r Hi c k e Hc)) as [c' Hc'].
    exists c'. split; [congruence|done].
Qed.

(** One session per key: in every run without [prune], two callers that
    initialize the same key are the same caller, two callers whose sessions
    for one key are both still alive have the same session, and that session
    is what [get] returns. *)
Theorem one_session_per_key ops :
  Forall (fun op => op <> RPrune) ops ->
  let r := registry_run registry_new ops in
  (forall c1 c2 k e1 e2, callers r !! c1 = Some (k, Initializing e1) ->
     callers r !! c2 = Some (k, Initializing e2) -> c1 = c2) /\
  (forall c1 c2 k s1 s2, callers r !! c1 = Some (k, Returned (Ok s1)) ->
     callers r !! c2 = Some (k, Returned (Ok s2)) -> s1 ∈ live r -> s2 ∈ live r -> s1 = s2) /\
  (forall c k s, callers r !! c = Some (k, Returned (Ok s)) -> s ∈ live r -> get r k = Some s).
Proof.
  intros Hops r. pose proof (registry_run_inv ops _ registry_new_inv) as Hi.
  pose proof (registry_run_attached ops _ registry_new_inv registry_new_attached Hops) as [A1 A2].
  fold r in Hi, A1, A2.
  assert (forall c k s, callers r !! c = Some (k, Returned (Ok s)) -> s ∈ live r -> get r k = Some s) as Hget.
  { intros c k s Hc Hs. destruct (A2 c k s Hc Hs) as [e He]. unfold get.
    rewrite (A1 e k (Ready s) He) by done. cbn. rewrite He. by rewrite decide_True. }
  split; [|split; [|done]].
  - intros c1 c2 k e1 e2 H1 H2. assert (e1 = e2) as <-; [|by eapply (ri_unique r Hi)].
    apply (ri_init r Hi) in H1, H2. apply A1 in H1, H2; [congruence|done..].
  - intros c1 c2 k s1 s2 H1 H2 L1 L2. apply Hget in H1, H2; [congruence|done..].
Qed.

End Registry.

(** Two callers of one key; the second sleeps until the first has finished. *)
Definition demo_registry_ops : list (@RegistryOp Z unit) :=
  [RCall 1 7; RCall 2 7; RInitOk 1; RCheck 2].

Lemma demo_registry_ops_ok : Forall (fun op => op <> RPrune) demo_registry_ops.
Proof. unfold demo_registry_ops. repeat (apply Forall_cons_2; [discriminate|]). apply Forall_nil_2. Qed.

Lemma one_session_per_key_witness :
  get (registry_run registry_new demo_registry_ops) 7 = Some 1.
Proof.
  destruct (one_session_per_key demo_registry_ops demo_registry_ops_ok) as (_ & _ & H).
  apply (H 2); [vm_compute; reflexivity|]. refine (bool_decide_unpack _ _). vm_compute. exact I.
Defined.


(** [prune] may detach an entry that a caller has already looked up: the
    caller then initializes the detached entry while a later one initializes a
    new entry of the same key. *)
Lemma prune_splits_key :
  let ops := [RCall 1 7; RInitOk 1; RDropSession 1; RCall 2 7; RPrune; RCall 3 7; RCheck 2] in
  let r := registry_run (E := unit) registry_new ops in
  callers r !! 2 = Some (7, Initializing 0) /\ callers r !! 3 = Some (7, Initializing 2).
Proof. split; vm_compute; reflexivity. Qed.
