(* ===== verification/Recovery.v ===== *)
(** * Recovery policy and session diagnostics

    Models [crates/media/src/recovery.rs].  The diagnostics of a session are
    the record behind its mutex; each operation takes and returns it.
    Durations are nanoseconds. *)
From Stdlib Require Import ZArith Lia.
From stdpp Require Import base numbers option strings.
From stdpp Require Import gmap.
From stdpp Require Import list sorting.
From S2P Require Import Prelude Pacing.
Open Scope Z_scope.

(** ** Policy *)

Definition MAX_RECOVERY_WINDOW : Z := 60 * NANOS_PER_SECOND.
Definition DEFAULT_RECOVERY_WINDOW : Z := 10 * NANOS_PER_SECOND.

Inductive SessionState :=
| Idle | Reserving | Starting | Priming | Streaming | Recovering | FailingOver | Stopping | Failed.

Inductive SessionFailureKind :=
| UpstreamEnded | FHttp | UpstreamRead | ReadTimeout | InvalidSync | IncompleteTail | RingClosed
| DownstreamLag | Packetization | FPriming | FRecoveryExpired.

#[export] Instance session_state_eq_dec : EqDecision SessionState.
Proof. solve_decision. Defined.
#[export] Instance session_failure_eq_dec : EqDecision SessionFailureKind.
Proof. solve_decision. Defined.

Record RecoveryPolicy := mkRecoveryPolicy {
  max_window : Z;
  retry_delay : Z;
  keepalive_interval : Z;
  priming_timeout : Z;
}.

Inductive RecoveryConfigError := WindowTooLarge | ZeroInterval.

Definition millis (n : Z) : Z := n * 1000000.

Definition policy_default : RecoveryPolicy :=
  mkRecoveryPolicy DEFAULT_RECOVERY_WINDOW (millis 250) (millis 100) (2 * NANOS_PER_SECOND).

Definition policy_new (max_window retry_delay keepalive_interval priming_timeout : Z)
  : result RecoveryPolicy RecoveryConfigError :=
  if MAX_RECOVERY_WINDOW <? max_window then Err WindowTooLarge
  else if negb (max_window =? 0) &&
    ((retry_delay =? 0) || (keepalive_interval =? 0) || (priming_timeout =? 0))
  then Err ZeroInterval
  else Ok (mkRecoveryPolicy max_window retry_delay keepalive_interval priming_timeout).

Definition policy_disabled : RecoveryPolicy :=
  mkRecoveryPolicy 0 (millis 1) (millis 1) (millis 1).

Definition policy_with_window (window : Z) : result RecoveryPolicy RecoveryConfigError :=
  if window =? 0 then Ok policy_disabled
  else policy_new window (retry_delay policy_default) (keepalive_interval policy_default)
         (priming_timeout policy_default).

(** ** Diagnostics *)

Record ViewerPosition := mkViewerPosition { vp_generation : Z; vp_next_sequence : Z }.

Record Diagnostics := mkDiagnostics {
  state : SessionState;
  next_viewer_id : Z;
  viewers : gmap Z ViewerPosition;
  upstream_generation : Z;
  ring_lag_events : Z;
  ring_wrap_events : Z;
  overwritten_packets : Z;
  reconnect_attempts : Z;
  failover_attempts : Z;
  failure_count : Z;
  first_failure : option SessionFailureKind;
  last_failure : option SessionFailureKind;
}.

Definition diagnostics_new : Diagnostics :=
  mkDiagnostics Idle 1 ∅ 0 0 0 0 0 0 0 None None.

Definition set_state (d : Diagnostics) (s : SessionState) : Diagnostics :=
  mkDiagnostics s (next_viewer_id d) (viewers d) (upstream_generation d) (ring_lag_events d)
    (ring_wrap_events d) (overwritten_packets d) (reconnect_attempts d) (failover_attempts d)
    (failure_count d) (first_failure d) (last_failure d).

Definition set_generation (d : Diagnostics) (generation : Z) : Diagnostics :=
  mkDiagnostics (state d) (next_viewer_id d) (viewers d) generation (ring_lag_events d)
    (ring_wrap_events d) (overwritten_packets d) (reconnect_attempts d) (failover_attempts d)
    (failure_count d) (first_failure d) (last_failure d).

Definition record_write (d : Diagnostics) (overwritten : Z) : Diagnostics :=
  if overwritten =? 0 then d
  else
    mkDiagnostics (state d) (next_viewer_id d) (viewers d) (upstream_generation d)
      (ring_lag_events d) (sat_add u64_max (ring_wrap_events d) 1)
      (sat_add u64_max (overwritten_packets d) overwritten) (reconnect_attempts d)
      (failover_attempts d) (failure_count d) (first_failure d) (last_failure d).

Definition record_lag (d : Diagnostics) : Diagnostics :=
  mkDiagnostics (state d) (next_viewer_id d) (viewers d) (upstream_generation d)
    (sat_add u64_max (ring_lag_events d) 1) (ring_wrap_events d) (overwritten_packets d)
    (reconnect_attempts d) (failover_attempts d) (failure_count d) (first_failure d)
    (last_failure d).

Definition record_reconnect (d : Diagnostics) (failover : bool) : Diagnostics :=
  mkDiagnostics (state d) (next_viewer_id d) (viewers d) (upstream_generation d)
    (ring_lag_events d) (ring_wrap_events d) (overwritten_packets d)
    (sat_add u64_max (reconnect_attempts d) 1)
    (if failover then sat_add u64_max (failover_attempts d) 1 else failover_attempts d)
    (failure_count d) (first_failure d) (last_failure d).

Definition record_failure (d : Diagnostics) (failure : SessionFailureKind) : Diagnostics :=
  mkDiagnostics (state d) (next_viewer_id d) (viewers d) (upstream_generation d)
    (ring_lag_events d) (ring_wrap_events d) (overwritten_packets d) (reconnect_attempts d)
    (failover_attempts d) (sat_add u64_max (failure_count d) 1)
    (match first_failure d with Some f => Some f | None => Some failure end) (Some failure).

Definition has_viewers (d : Diagnostics) : bool := negb (bool_decide (viewers d = ∅)).
Definition is_stopping (d : Diagnostics) : bool := bool_decide (state d = Stopping).

Definition set_viewers (d : Diagnostics) (next : Z) (v : gmap Z ViewerPosition) : Diagnostics :=
  mkDiagnostics (state d) next v (upstream_generation d)
    (ring_lag_events d) (ring_wrap_events d) (overwritten_packets d) (reconnect_attempts d)
    (failover_attempts d) (failure_count d) (first_failure d) (last_failure d).

(** Returns the identifier held by the [ViewerRegistration]. *)
Definition register_viewer (d : Diagnostics) (generation next_sequence : Z) : Diagnostics * Z :=
  let id := next_viewer_id d in
  (set_viewers d (sat_add u64_max id 1)
     (<[id := mkViewerPosition generation next_sequence]> (viewers d)), id).

Definition update_viewer (d : Diagnostics) (id generation next_sequence : Z) : Diagnostics :=
  set_viewers d (next_viewer_id d)
    (alter (fun _ => mkViewerPosition generation next_sequence) id (viewers d)).

(** [ViewerRegistration::drop] *)
Definition drop_registration (d : Diagnostics) (id : Z) : Diagnostics :=
  set_viewers d (next_viewer_id d) (delete id (viewers d)).

Definition viewer_past (generation target_sequence : Z) (viewer : ViewerPosition) : bool :=
  (generation <? vp_generation viewer) ||
  ((vp_generation viewer =? generation) && (target_sequence <=? vp_next_sequence viewer)).

Definition viewers_drained (d : Diagnostics) (generation target_sequence : Z) : bool :=
  forallb (fun kv => viewer_past generation target_sequence kv.2) (map_to_list (viewers d)).

(** Positions of all viewers in registration order. *)
Definition viewer_positions (d : Diagnostics) : list (Z * Z) :=
  let ids := merge_sort Z.le (map_to_list (viewers d)).*1 in
  omap (fun id => (fun viewer => (vp_generation viewer, vp_next_sequence viewer)) <$> viewers d !! id) ids.

(** ** Properties *)

Lemma sat_add_mono max a b : 0 <= b -> a <= max -> a <= sat_add max a b <= max.
Proof. unfold sat_add. lia. Qed.

(** Bounded recovery: a policy from the settings never allows a window
    longer than sixty seconds, and when recovery is enabled none of its
    intervals is zero, so the retry and keepalive loops always make time pass;
    a zero window gives the disabled policy. *)
Theorem policy_bounded window policy :
  0 <= window -> policy_with_window window = Ok policy ->
  0 <= max_window policy <= MAX_RECOVERY_WINDOW /\ max_window policy = window /\
  0 < retry_delay policy /\ 0 < keepalive_interval policy /\ 0 < priming_timeout policy.
Proof.
  intros Hw. unfold policy_with_window. destruct (Z.eqb_spec window 0) as [->|Hne].
  - intros [= <-]. cbn. unfold millis, MAX_RECOVERY_WINDOW, NANOS_PER_SECOND. lia.
  - unfold policy_new. destruct (Z.ltb_spec MAX_RECOVERY_WINDOW window); [done|].
    cbn [negb policy_default retry_delay keepalive_interval priming_timeout].
    destruct (_ && _); [done|]. intros [= <-]. cbn. unfold millis, NANOS_PER_SECOND. lia.
Qed.

(** The session has drained exactly when every registered viewer is in a
    later generation, or in this one at or past the target. *)
Lemma viewers_drained_iff d generation target :
  viewers_drained d generation target = true <->
  forall id viewer, viewers d !! id = Some viewer ->
    generation < vp_generation viewer \/
    vp_generation viewer = generation /\ target <= vp_next_sequence viewer.
Proof.
  unfold viewers_drained. rewrite forallb_forall. split.
  - intros H id viewer Hv. apply elem_of_map_to_list, list_elem_of_In in Hv. specialize (H _ Hv).
    unfold viewer_past in H. cbn in H. lia.
  - intros H [id viewer] Hin. apply list_elem_of_In, elem_of_map_to_list in Hin. specialize (H _ _ Hin).
    unfold viewer_past. cbn. lia.
Qed.
