(* ===== verification/Upstream.v ===== *)
(** * From the HTTP body to the ring

    Models the upstream half of [crates/media/src/session.rs]: the packetizer
    that cuts arbitrary body chunks into transport packets, the priming loop
    that waits for the first safe restart point, and the loop that publishes
    packets until the upstream fails.

    The body is a parameter: a list of the answers that
    [timeout(.., body.next())] gives, in order.  A loop that has consumed all
    of them without deciding is still waiting and returns no verdict. *)
From Stdlib Require Import ZArith Lia.
From stdpp Require Import base numbers option.
From stdpp Require Import gmap.
From stdpp Require Import list sorting.
From S2P Require Import Prelude Psi Pacing Meter Ring RingSpec Recovery.
Open Scope Z_scope.

(** ** Packetizer *)

(** [MpegTsPacketizer { pending }] *)
Record MpegTsPacketizer := mkMpegTsPacketizer { pending : bytes }.

Inductive PacketizerError :=
| PInvalidSyncByte (packet_index actual : Z)
| PIncompleteTail (bytes : Z).

Definition packetizer_new : MpegTsPacketizer := mkMpegTsPacketizer [].

Definition packetizer_push (p : MpegTsPacketizer) (chunk : bytes)
  : MpegTsPacketizer * result bytes PacketizerError :=
  let pending := pending p ++ chunk in
  let aligned_len := zlen pending / MPEG_TS_PACKET_SIZE * MPEG_TS_PACKET_SIZE in
  if aligned_len =? 0 then (mkMpegTsPacketizer pending, Ok [])
  else
    match find_bad_sync 0 (chunks_exact MPEG_TS_PACKET_SIZE (ztake aligned_len pending)) with
    | Some (packet_index, actual) =>
        (mkMpegTsPacketizer pending, Err (PInvalidSyncByte packet_index actual))
    | None => (mkMpegTsPacketizer (zdrop aligned_len pending), Ok (ztake aligned_len pending))
    end.

Definition packetizer_finish (p : MpegTsPacketizer) : result unit PacketizerError :=
  match pending p with
  | [] => Ok tt
  | _ => Err (PIncompleteTail (zlen (pending p)))
  end.

Definition pending_bytes (p : MpegTsPacketizer) : Z := zlen (pending p).

Definition packetizer_failure (error : PacketizerError) : SessionFailureKind :=
  match error with
  | PInvalidSyncByte _ _ => InvalidSync
  | PIncompleteTail _ => IncompleteTail
  end.

(** ** Priming *)

Definition MAX_PRIMING_PACKETS : Z := 16384.

(** One answer of the body under a timeout. *)
Inductive BodyEvent :=
| BChunk (chunk : bytes)
| BError
| BEnd
| BTimeout.

Record PrimeState := mkPrimeState {
  pr_tracker : PatPmtTracker;
  pr_retained : bytes;
  pr_first : Z;
  pr_next : Z;
}.

Definition prime_start : PrimeState := mkPrimeState pt_default [] 0 0.

(** The head of the packet loop: drop the oldest packet of a full buffer. *)
Definition prime_evict (ps : PrimeState) : PrimeState :=
  if zlen (pr_retained ps) =? MAX_PRIMING_PACKETS * MPEG_TS_PACKET_SIZE then
    let first := sat_add u64_max (pr_first ps) 1 in
    mkPrimeState
      (if match candidate_start (pr_tracker ps) with Some c => c <? first | None => false end
       then pt_reset (pr_tracker ps) else pr_tracker ps)
      (zdrop MPEG_TS_PACKET_SIZE (pr_retained ps)) first (pr_next ps)
  else ps.

(** The loop over the packets of one chunk.  [rest] is what follows the
    packets already seen. *)
Fixpoint prime_packets (ps : PrimeState) (packets : list bytes)
  : PrimeState + result bytes SessionFailureKind :=
  match packets with
  | [] => inl ps
  | packet :: rest =>
      let ps := prime_evict ps in
      let retained := pr_retained ps ++ packet in
      let '(tracker, boundary) := pt_observe (pr_tracker ps) packet (pr_next ps) in
      match boundary with
      | Some boundary =>
          match checked u64_max (boundary - pr_first ps) with
          | None => inr (Err FPriming)
          | Some offset_packets =>
              match checked u64_max (offset_packets * MPEG_TS_PACKET_SIZE) with
              | None => inr (Err FPriming)
              | Some offset =>
                  if offset <? zlen retained
                  then inr (Ok (zdrop offset (retained ++ concat rest)))
                  else inr (Err FPriming)
              end
          end
      | None =>
          prime_packets (mkPrimeState tracker retained (pr_first ps) (sat_add u64_max (pr_next ps) 1)) rest
      end
  end.

(** [prime_body]; also returns the answers it has not consumed. *)
Fixpoint prime_loop (ps : PrimeState) (p : MpegTsPacketizer) (events : list BodyEvent)
  : MpegTsPacketizer * list BodyEvent * option (result bytes SessionFailureKind) :=
  match events with
  | [] => (p, [], None)
  | BTimeout :: events => (p, events, Some (Err ReadTimeout))
  | BEnd :: events => (p, events, Some (Err UpstreamEnded))
  | BError :: events => (p, events, Some (Err UpstreamRead))
  | BChunk chunk :: events =>
      match packetizer_push p chunk with
      | (p, Err error) => (p, events, Some (Err (packetizer_failure error)))
      | (p, Ok data) =>
          match prime_packets ps (chunks_exact MPEG_TS_PACKET_SIZE data) with
          | inr outcome => (p, events, Some outcome)
          | inl ps => prime_loop ps p events
          end
      end
  end.

Definition prime_body (p : MpegTsPacketizer) (events : list BodyEvent)
  : MpegTsPacketizer * list BodyEvent * option (result bytes SessionFailureKind) :=
  prime_loop prime_start p events.

(** ** Publishing *)

Definition push_packets (config : MpegTsRingConfig) (ring : RingState) (d : Diagnostics)
    (packets : bytes) (now now_end : Z) : RingState * Diagnostics * result unit RingWriteError :=
  match packets with
  | [] => (ring, d, Ok tt)
  | _ =>
      match push config ring packets now now_end with
      | (ring, Ok outcome, _) => (ring, record_write d (wo_packets_overwritten outcome), Ok tt)
      | (ring, Err error, _) => (ring, d, Err error)
      end
  end.

(** [stream_until_failure].  Each answer comes with the instants a write
    after it would read. *)
Fixpoint stream_until_failure (config : MpegTsRingConfig) (ring : RingState) (d : Diagnostics)
    (p : MpegTsPacketizer) (events : list (BodyEvent * Z * Z))
  : RingState * Diagnostics * MpegTsPacketizer * option SessionFailureKind :=
  match events with
  | [] => (ring, d, p, None)
  | (BChunk chunk, now, now_end) :: events =>
      match packetizer_push p chunk with
      | (p, Err error) => (ring, d, p, Some (packetizer_failure error))
      | (p, Ok packets) =>
          match push_packets config ring d packets now now_end with
          | (ring, d, Err _) => (ring, d, p, Some RingClosed)
          | (ring, d, Ok _) => stream_until_failure config ring d p events
          end
      end
  | (BError, _, _) :: _ => (ring, d, p, Some UpstreamRead)
  | (BTimeout, _, _) :: _ => (ring, d, p, Some ReadTimeout)
  | (BEnd, _, _) :: _ =>
      (ring, d, p, Some (if pending_bytes p =? 0 then UpstreamEnded else IncompleteTail))
  end.

(** ** Null packets *)

Definition null_packet (continuity_counter : Z) : bytes :=
  [0x47; 0x1f; 0xff; Z.lor 0x10 (Z.land continuity_counter 0x0f)] ++ replicate 184 0xff.

(** [push_final_keepalive_null] *)
Definition push_final_keepalive_null (config : MpegTsRingConfig) (ring : RingState) (d : Diagnostics)
    (now now_end : Z) : RingState * Diagnostics :=
  match push config ring (null_packet 0) now now_end with
  | (ring, Ok _, _) => (ring, record_write d 0)
  | (ring, Err _, _) => (ring, d)
  end.

(** One tick of the keepalive task after the first.  [None]: the task ends. *)
Definition keepalive_tick (config : MpegTsRingConfig) (ring : RingState) (d : Diagnostics)
    (generation drain_target continuity now now_end : Z) : RingState * Diagnostics * option Z :=
  if viewers_drained d generation drain_target then
    let packet := null_packet continuity in
    let continuity := Z.land (wrap8 (continuity + 1)) 0x0f in
    match push config ring packet now now_end with
    | (ring, Ok outcome, _) =>
        (ring, record_write d (wo_packets_overwritten outcome), Some continuity)
    | (ring, Err _, _) => (ring, d, None)
    end
  else (ring, d, Some continuity).

(** ** Packetizer lemmas *)

Lemma find_bad_sync_app i l k :
  find_bad_sync i (l ++ k) =
  match find_bad_sync i l with Some r => Some r | None => find_bad_sync (i + zlen l) k end.
Proof.
  revert i. induction l as [|p l IH]; intros i; cbn [app find_bad_sync].
  - by rewrite zlen_nil, Z.add_0_r.
  - destruct (negb _); [done|]. rewrite IH, zlen_cons. by replace (i + 1 + zlen l) with (i + (1 + zlen l)) by lia.
Qed.

Lemma find_bad_sync_shift i l :
  find_bad_sync i l = (fun r => (i + r.1, r.2)) <$> find_bad_sync 0 l.
Proof.
  revert i. induction l as [|p l IH]; intros i; cbn [find_bad_sync]; [done|].
  destruct (negb _); cbn; [by rewrite Z.add_0_r|]. rewrite IH, (IH (0 + 1)).
  destruct (find_bad_sync 0 l) as [[j a]|]; cbn; [|done]. do 2 f_equal. lia.
Qed.

(** The length of the whole packets at the head of a buffer. *)
Definition aligned (l : bytes) : Z := zlen l / MPEG_TS_PACKET_SIZE * MPEG_TS_PACKET_SIZE.

Lemma aligned_spec l :
  0 <= aligned l <= zlen l /\ zlen l - aligned l < MPEG_TS_PACKET_SIZE /\
  aligned l mod MPEG_TS_PACKET_SIZE = 0.
Proof.
  unfold aligned, MPEG_TS_PACKET_SIZE. pose proof (Z.div_mod (zlen l) 188 ltac:(lia)).
  pose proof (Z.mod_pos_bound (zlen l) 188 ltac:(lia)). rewrite Z.mod_mul by lia. zlen_facts.
  pose proof (Z.div_pos (zlen l) 188). lia.
Qed.

Lemma chunks_aligned l :
  chunks_exact MPEG_TS_PACKET_SIZE (ztake (aligned l) l) = chunks_exact MPEG_TS_PACKET_SIZE l.
Proof.
  pose proof (aligned_spec l) as (H1 & H2 & H3).
  transitivity (chunks_exact MPEG_TS_PACKET_SIZE (ztake (aligned l) l ++ zdrop (aligned l) l));
    [|by rewrite ztake_zdrop].
  rewrite chunks_exact_app; [|done|].
  - rewrite (chunks_exact_short _ (zdrop _ _)), app_nil_r; [done|done|]. rewrite zlen_zdrop. lia.
  - rewrite zlen_ztake. by replace (Z.min (Z.max 0 (aligned l)) (zlen l)) with (aligned l) by lia.
Qed.

(** One push: everything buffered is split into whole packets and a rest. *)
Lemma packetizer_push_spec p chunk :
  packetizer_push p chunk =
  let all := pending p ++ chunk in
  match find_bad_sync 0 (chunks_exact MPEG_TS_PACKET_SIZE all) with
  | Some (i, actual) => (mkMpegTsPacketizer all, Err (PInvalidSyncByte i actual))
  | None => (mkMpegTsPacketizer (zdrop (aligned all) all), Ok (ztake (aligned all) all))
  end.
Proof.
  unfold packetizer_push. set (all := pending p ++ chunk). cbn zeta. fold (aligned all).
  pose proof (aligned_spec all) as (H1 & H2 & H3).
  destruct (Z.eqb_spec (aligned all) 0) as [E|E].
  - rewrite E in *. rewrite (chunks_exact_short _ all) by lia. cbn. unfold ztake, zdrop. cbn. by rewrite ?take_0, ?drop_0.
  - by rewrite chunks_aligned.
Qed.

(** The packetizer over a whole body. *)
Fixpoint packetize (p : MpegTsPacketizer) (chunks : list bytes)
  : MpegTsPacketizer * result bytes PacketizerError :=
  match chunks with
  | [] => (p, Ok [])
  | chunk :: chunks =>
      match packetizer_push p chunk with
      | (p, Err error) => (p, Err error)
      | (p, Ok data) =>
          match packetize p chunks with
          | (p, Ok more) => (p, Ok (data ++ more))
          | (p, Err error) => (p, Err error)
          end
      end
  end.

(** Cutting off whole packets commutes with appending more bytes. *)
Lemma aligned_app l k :
  let rest := zdrop (aligned l) l in
  ztake (aligned (l ++ k)) (l ++ k) = ztake (aligned l) l ++ ztake (aligned (rest ++ k)) (rest ++ k) /\
  zdrop (aligned (l ++ k)) (l ++ k) = zdrop (aligned (rest ++ k)) (rest ++ k).
Proof.
  intros rest. pose proof (aligned_spec l) as (H1 & H2 & H3).
  assert (aligned (l ++ k) = aligned l + aligned (rest ++ k)) as E.
  { unfold aligned, rest. rewrite !zlen_app, zlen_zdrop. fold (aligned l).
    replace (Z.max 0 (zlen l - Z.max 0 (aligned l))) with (zlen l - aligned l) by lia.
    rewrite Z.mod_divide in H3 by done. destruct H3 as [q Hq]. rewrite Hq.
    replace (zlen l + zlen k) with ((zlen l - q * MPEG_TS_PACKET_SIZE + zlen k) + q * MPEG_TS_PACKET_SIZE) by lia.
    rewrite Z.div_add by done. unfold MPEG_TS_PACKET_SIZE. lia. }
  assert (l ++ k = ztake (aligned l) l ++ (rest ++ k)) as Hlk.
  { unfold rest. by rewrite app_assoc, ztake_zdrop. }
  assert (zlen (ztake (aligned l) l) = aligned l) as Hz by (rewrite zlen_ztake; lia).
  pose proof (aligned_spec (rest ++ k)) as (H4 & _). rewrite E. rewrite Hlk.
  unfold ztake at 1, zdrop at 1. unfold zlen in Hz.
  replace (Z.to_nat (aligned l + aligned (rest ++ k)))
    with (length (ztake (aligned l) l) + Z.to_nat (aligned (rest ++ k)))%nat by lia.
  by rewrite take_app_add, drop_app_add.
Qed.

Lemma packetize_all chunks p :
  zlen (pending p) < MPEG_TS_PACKET_SIZE ->
  let all := pending p ++ concat chunks in
  match find_bad_sync 0 (chunks_exact MPEG_TS_PACKET_SIZE all) with
  | None => packetize p chunks = (mkMpegTsPacketizer (zdrop (aligned all) all), Ok (ztake (aligned all) all))
  | Some (i, actual) => exists p' j, packetize p chunks = (p', Err (PInvalidSyncByte j actual))
  end.
Proof.
  revert p. induction chunks as [|chunk chunks IH]; intros p Hp; cbn [concat packetize]; cbn zeta.
  - rewrite app_nil_r, chunks_exact_short by done. cbn.
    assert (aligned (pending p) = 0) as ->.
    { unfold aligned. rewrite Z.div_small; [done|]. zlen_facts. lia. }
    unfold zdrop, ztake. cbn. rewrite drop_0. by destruct p.
  - rewrite packetizer_push_spec. set (l := pending p ++ chunk). cbn zeta.
    pose proof (aligned_spec l) as (H1 & H2 & H3).
    assert (pending p ++ chunk ++ concat chunks = ztake (aligned l) l ++ (zdrop (aligned l) l ++ concat chunks)) as Hall.
    { by rewrite (app_assoc (ztake _ _)), ztake_zdrop, app_assoc. }
    assert (zlen (ztake (aligned l) l) mod MPEG_TS_PACKET_SIZE = 0) as Hm
      by (rewrite zlen_ztake; by replace (Z.min (Z.max 0 (aligned l)) (zlen l)) with (aligned l) by lia).
    assert (find_bad_sync 0 (chunks_exact MPEG_TS_PACKET_SIZE (pending p ++ chunk ++ concat chunks)) =
      match find_bad_sync 0 (chunks_exact MPEG_TS_PACKET_SIZE l) with
      | Some r => Some r
      | None => find_bad_sync (0 + zlen (chunks_exact MPEG_TS_PACKET_SIZE l))
                  (chunks_exact MPEG_TS_PACKET_SIZE (zdrop (aligned l) l ++ concat chunks))
      end) as ->.
    { by rewrite Hall, chunks_exact_app, find_bad_sync_app, chunks_aligned. }
    destruct (find_bad_sync 0 (chunks_exact MPEG_TS_PACKET_SIZE l)) as [[i a]|] eqn:E.
    { by eexists _, _. }
    rewrite find_bad_sync_shift.
    specialize (IH (mkMpegTsPacketizer (zdrop (aligned l) l))). cbn [pending] in IH. cbn zeta in IH.
    assert (zlen (zdrop (aligned l) l) < MPEG_TS_PACKET_SIZE) as Hr by (rewrite zlen_zdrop; lia).
    specialize (IH Hr). destruct (find_bad_sync 0 _) as [[j a]|]; cbn.
    + destruct IH as (p' & j' & ->). by eexists _, _.
    + rewrite IH. pose proof (aligned_app l (concat chunks)) as [Ht Hd]. cbn zeta in Ht, Hd.
      unfold l in Ht at 1 2, Hd at 1 2. rewrite <- app_assoc in Ht, Hd. by rewrite Ht, Hd.
Qed.

(** Framing does not depend on how the network cut the body: over any
    sequence of chunks the packetizer emits exactly the whole packets of the
    concatenation, in order, and keeps exactly the incomplete tail; it fails
    exactly when some whole packet lacks the sync byte, with the byte of the
    first such packet. *)
Theorem packetizer_framing chunks :
  let all := concat chunks in
  match find_bad_sync 0 (chunks_exact MPEG_TS_PACKET_SIZE all) with
  | None => exists data rest, packetize packetizer_new chunks = (mkMpegTsPacketizer rest, Ok data) /\
      all = data ++ rest /\ zlen rest < MPEG_TS_PACKET_SIZE /\ zlen data mod MPEG_TS_PACKET_SIZE = 0
  | Some (_, actual) => exists p j, packetize packetizer_new chunks = (p, Err (PInvalidSyncByte j actual))
  end.
Proof.
  intros all. pose proof (packetize_all chunks packetizer_new ltac:(done)) as H. cbn [pending packetizer_new app] in H.
  fold all in H. cbn zeta in H. destruct (find_bad_sync _ _) as [[i a]|]; [done|].
  pose proof (aligned_spec all) as (H1 & H2 & H3). exists (ztake (aligned all) all), (zdrop (aligned all) all).
  split; [done|]. split; [by rewrite ztake_zdrop|]. rewrite zlen_zdrop, zlen_ztake.
  split; [lia|]. by replace (Z.min (Z.max 0 (aligned all)) (zlen all)) with (aligned all) by lia.
Qed.

(** ** Priming lemmas *)

Definition whole (h : list bytes) : Prop := Forall (fun p => zlen p = MPEG_TS_PACKET_SIZE) h.

Lemma zlen_concat_whole h : whole h -> zlen (concat h) = zlen h * MPEG_TS_PACKET_SIZE.
Proof. induction 1 as [|p h Hp _ IH]; cbn; [done|]. rewrite zlen_app, zlen_cons, IH. lia. Qed.

Lemma zdrop_concat_whole h k :
  whole h -> 0 <= k -> zdrop (k * MPEG_TS_PACKET_SIZE) (concat h) = concat (zdrop k h).
Proof.
  intros Hh. revert k. induction Hh as [|p h Hp Hh IH]; intros k Hk; cbn [concat].
  { unfold zdrop. by rewrite !drop_nil. }
  destruct (decide (k = 0)) as [->|Hne]; [done|].
  unfold zdrop in *. replace (Z.to_nat k) with (S (Z.to_nat (k - 1))) by lia. cbn [drop].
  rewrite <- (IH (k - 1)) by lia. unfold MPEG_TS_PACKET_SIZE, zlen in *.
  replace (Z.to_nat (k * 188)) with (length p + Z.to_nat ((k - 1) * 188))%nat by lia.
  apply drop_app_add.
Qed.

Lemma zdrop_zdrop {A} (a b : Z) (l : list A) : 0 <= a -> 0 <= b -> zdrop a (zdrop b l) = zdrop (b + a) l.
Proof. intros. unfold zdrop. rewrite drop_drop. f_equal. lia. Qed.

Lemma zdrop_app_le {A} (a : Z) (l k : list A) : a <= zlen l -> zdrop a (l ++ k) = zdrop a l ++ k.
Proof. intros Ha. unfold zdrop, zlen in *. rewrite drop_app_le by lia. done. Qed.

(** The state of the priming loop after the packets [h]: it retains the last
    packets, at most [limit], and all of them while there are fewer. *)
Record prime_ok (limit : Z) (h : list bytes) (ps : PrimeState) : Prop := {
  po_next : pr_next ps = zlen h;
  po_first : 0 <= pr_first ps <= zlen h;
  po_whole : whole h;
  po_retained : pr_retained ps = concat (zdrop (pr_first ps) h);
  po_limit : zlen h - pr_first ps <= limit;
  po_start : pr_first ps = 0 \/ zlen h - pr_first ps = limit;
  po_tracker : exists bound, bsrc_ok h bound (pr_tracker ps);
}.

Lemma prime_start_ok : prime_ok MAX_PRIMING_PACKETS [] prime_start.
Proof.
  split; cbn; try done; [by constructor|by left|]. exists (-1).
  exact (bsrc_reset_ok pt_default [] (-1) ltac:(done)).
Qed.

Lemma prime_ok_retained limit h ps :
  prime_ok limit h ps -> zlen (pr_retained ps) = (zlen h - pr_first ps) * MPEG_TS_PACKET_SIZE.
Proof.
  intros [_ Hf Hw Hr _ _ _]. rewrite Hr, zlen_concat_whole by (by apply Forall_zdrop).
  rewrite zlen_zdrop. f_equal. lia.
Qed.

(** Eviction makes room and leaves no candidate that was dropped. *)
Lemma prime_evict_ok h ps :
  prime_ok MAX_PRIMING_PACKETS h ps -> zlen h <= u64_max ->
  prime_ok (MAX_PRIMING_PACKETS - 1) h (prime_evict ps) /\
  (forall c, candidate_start (pr_tracker (prime_evict ps)) = Some c -> pr_first (prime_evict ps) <= c).
Proof.
  intros Hok Hmax. pose proof (prime_ok_retained _ h ps Hok) as Hlen. pose proof Hok as [Hn Hf Hw Hr Hfull Hs [b Hb]].
  unfold prime_evict. unfold MAX_PRIMING_PACKETS, MPEG_TS_PACKET_SIZE in *.
  destruct (Z.eqb_spec (zlen (pr_retained ps)) (16384 * 188)) as [E|E].
  - assert (zlen h - pr_first ps = 16384) as Hd by lia.
    assert (sat_add u64_max (pr_first ps) 1 = pr_first ps + 1) as Hsat by (unfold sat_add; lia).
    rewrite Hsat. split; [split; cbn -[bsrc_ok]; try done; try lia|cbn].
    + rewrite Hr. change 188 with (1 * MPEG_TS_PACKET_SIZE).
      rewrite zdrop_concat_whole by (done || by apply Forall_zdrop). by rewrite zdrop_zdrop by lia.
    + exists b. case_match; [|done]. exact (bsrc_reset_ok (pr_tracker ps) h b (bsrc_bound_lt _ _ _ Hb)).
    + intros c. destruct (candidate_start (pr_tracker ps)) as [c0|] eqn:Ec; [|congruence].
      destruct (Z.ltb_spec c0 (pr_first ps + 1)); [done|]. intros Hc. congruence.
  - assert (zlen h - pr_first ps < 16384 /\ pr_first ps = 0) as [Hd H0] by lia.
    split; [split; try done; try lia; by exists b|].
    intros c Hc. rewrite H0. destruct (bsrc_candidate_ok h b (pr_tracker ps) c Hb Hc) as [_ [? _]]. done.
Qed.

(** The packets of one chunk: either no boundary and the invariant holds for
    the longer history, or everything from a PAT start onwards is returned. *)
Lemma prime_packets_ok packets h ps :
  prime_ok MAX_PRIMING_PACKETS h ps -> whole packets -> Forall (Forall is_u8) packets ->
  zlen h + zlen packets <= u64_max ->
  match prime_packets ps packets with
  | inl ps' => prime_ok MAX_PRIMING_PACKETS (h ++ packets) ps'
  | inr (Ok data) => exists b, pat_start_at (h ++ packets) b /\
      zlen data <= (MAX_PRIMING_PACKETS + zlen packets) * MPEG_TS_PACKET_SIZE /\
      data = concat (zdrop b (h ++ packets))
  | inr (Err _) => False
  end.
Proof.
  revert h ps. induction packets as [|packet packets IH]; intros h ps Hok Hw Hu Hmax; cbn [prime_packets].
  { by rewrite app_nil_r. }
  inversion Hw as [|?? Hpk Hws]; inversion Hu as [|?? Hpu Hus]; subst. rewrite zlen_cons in Hmax. zlen_facts.
  destruct (prime_evict_ok h ps Hok ltac:(lia)) as (Hok' & Hcand).
  set (ps1 := prime_evict ps) in *. pose proof (prime_ok_retained _ h ps1 Hok') as Hlen.
  destruct Hok' as [Hn Hf Hwh Hr Hfull Hs [bd Hb]]. rewrite Hn.
  pose proof (bsrc_observe_ok h bd (pr_tracker ps1) packet Hpu Hb) as Ho.
  pose proof (fun b => bsrc_observe_candidate h bd (pr_tracker ps1) packet b Hb) as Hoc. cbn in Ho, Hoc.
  destruct (pt_observe (pr_tracker ps1) packet (zlen h)) as [tracker [b|]]; cbn [snd fst] in *.
  - specialize (Hoc b eq_refl). specialize (Hcand b Hoc). destruct Ho as (_ & Hpat & _).
    destruct (bsrc_candidate_ok h bd (pr_tracker ps1) b Hb Hoc) as [_ Hp0].
    pose proof (pat_start_at_lt _ _ Hp0) as Hlt. unfold MPEG_TS_PACKET_SIZE, MAX_PRIMING_PACKETS, u64_max in *.
    rewrite !checked_Some by (unfold u64_max; lia).
    rewrite (proj2 (Z.ltb_lt _ _)) by (rewrite zlen_app; lia).
    assert (zdrop ((b - pr_first ps1) * 188) ((pr_retained ps1 ++ packet) ++ concat packets)
            = concat (zdrop b (h ++ packet :: packets))) as Hdata.
    { rewrite Hr. replace ((concat (zdrop (pr_first ps1) h) ++ packet) ++ concat packets)
        with (concat (zdrop (pr_first ps1) (h ++ packet :: packets)))
        by (rewrite zdrop_app_le, concat_app, <- app_assoc by lia; done).
      change 188 with MPEG_TS_PACKET_SIZE. rewrite zdrop_concat_whole.
      - rewrite zdrop_zdrop by lia. do 2 f_equal. lia.
      - apply Forall_zdrop, Forall_app. split; [done|by constructor].
      - lia. }
    exists b. split; [|split; [|exact Hdata]].
    + replace (h ++ packet :: packets) with ((h ++ [packet]) ++ packets) by (by rewrite <- app_assoc).
      by apply pat_start_at_app.
    + rewrite zlen_zdrop, !zlen_app, zlen_concat_whole, zlen_cons by done. unfold MPEG_TS_PACKET_SIZE. lia.
  - replace (h ++ packet :: packets) with ((h ++ [packet]) ++ packets) by (by rewrite <- app_assoc).
    rewrite zlen_cons. assert (zlen (h ++ [packet]) = zlen h + 1) as Hl1 by zlia.
    assert (sat_add u64_max (zlen h) 1 = zlen h + 1) as Hsat by (unfold sat_add; lia). rewrite Hsat.
    set (ps2 := mkPrimeState tracker (pr_retained ps1 ++ packet) (pr_first ps1) (zlen h + 1)).
    assert (prime_ok MAX_PRIMING_PACKETS (h ++ [packet]) ps2) as Hok2.
    { split; cbn; try lia.
      - apply Forall_app. split; [done|by constructor].
      - rewrite Hr, zdrop_app_le, concat_app by lia. cbn. by rewrite app_nil_r.
      - by exists bd. }
    specialize (IH _ ps2 Hok2 Hws Hus ltac:(lia)).
    destruct (prime_packets ps2 packets) as [ps3|[data|e]]; [done| |done].
    destruct IH as (b & ? & ? & ?). exists b. split; [done|]. split; [|done].
    unfold MPEG_TS_PACKET_SIZE in *. lia.
Qed.

Lemma packetizer_push_ok p chunk p' data :
  packetizer_push p chunk = (p', Ok data) ->
  pending p ++ chunk = data ++ pending p' /\ zlen data mod MPEG_TS_PACKET_SIZE = 0 /\
  find_bad_sync 0 (chunks_exact MPEG_TS_PACKET_SIZE data) = None.
Proof.
  rewrite packetizer_push_spec. cbn zeta. set (all := pending p ++ chunk).
  destruct (find_bad_sync _ _) as [[i a]|] eqn:E; [done|]. intros [= <- <-]. cbn.
  pose proof (aligned_spec all) as (H1 & H2 & H3). rewrite ztake_zdrop, zlen_ztake, chunks_aligned.
  split; [done|]. split; [|done]. by replace (Z.min (Z.max 0 (aligned all)) (zlen all)) with (aligned all) by lia.
Qed.

(** Total length of the body's chunks. *)
Definition body_bytes (events : list BodyEvent) : bytes :=
  concat (map (fun e => match e with BChunk chunk => chunk | _ => [] end) events).

Lemma chunks_exact_whole data : whole (chunks_exact MPEG_TS_PACKET_SIZE data).
Proof. by apply chunks_exact_all. Qed.

(** What the priming loop may return. *)
Definition prime_verdict (h : list bytes) (p : MpegTsPacketizer) (events rest : list BodyEvent)
    (p' : MpegTsPacketizer) (verdict : option (result bytes SessionFailureKind)) : Prop :=
  verdict <> Some (Err FPriming) /\
  forall data, verdict = Some (Ok data) ->
    exists chunks received b,
      events = map BChunk chunks ++ rest /\
      concat h ++ pending p ++ concat chunks = concat received ++ pending p' /\
      whole received /\ pat_start_at received b /\ data = concat (zdrop b received).

Lemma prime_loop_ok events h ps p :
  prime_ok MAX_PRIMING_PACKETS h ps -> Forall is_u8 (pending p) -> Forall is_u8 (body_bytes events) ->
  zlen h + zlen (pending p) + zlen (body_bytes events) <= u64_max ->
  let '(p', rest, verdict) := prime_loop ps p events in prime_verdict h p events rest p' verdict.
Proof.
  revert h ps p. induction events as [|[chunk| | |] events IH]; intros h ps p Hok Hp Hu Hmax; cbn [prime_loop];
    try (split; [done|]; by intros).
  change (body_bytes (BChunk chunk :: events)) with (chunk ++ body_bytes events) in *.
  apply Forall_app in Hu as [Hc Hu]. rewrite zlen_app in Hmax. zlen_facts.
  destruct (packetizer_push p chunk) as [p1 [data|[]]] eqn:E; [|split; [done|by intros]..].
  destruct (packetizer_push_ok p chunk p1 data E) as (Hsplit & Hal & _).
  assert (zlen (pending p) + zlen chunk = zlen data + zlen (pending p1)) as Hlen
    by (rewrite <- !zlen_app, Hsplit; done).
  assert (Forall is_u8 data /\ Forall is_u8 (pending p1)) as [Hd Hp1].
  { apply Forall_app. rewrite <- Hsplit. by apply Forall_app. }
  set (packets := chunks_exact MPEG_TS_PACKET_SIZE data).
  assert (concat packets = data) as Hcat by (by apply chunks_exact_concat).
  assert (zlen packets <= zlen data) as Hpk.
  { unfold packets. rewrite chunks_exact_length by done. unfold MPEG_TS_PACKET_SIZE. zlen_facts.
    apply Z.div_le_upper_bound; lia. }
  pose proof (prime_packets_ok packets h ps Hok (chunks_exact_whole data)
    (chunks_exact_u8 MPEG_TS_PACKET_SIZE data ltac:(done) Hd) ltac:(zlen_facts; lia)) as Hpp.
  destruct (prime_packets ps packets) as [ps1|[out|e]]; [| |done].
  - specialize (IH (h ++ packets) ps1 p1 Hpp Hp1 Hu).
    destruct (prime_loop ps1 p1 events) as [[p' rest] verdict].
    destruct IH as [Hne Hv]; [rewrite zlen_app; zlen_facts; lia|]. split; [done|]. intros out Hout.
    destruct (Hv out Hout) as (chunks & received & b & -> & Heq & Hwr & Hpat & Hdata).
    exists (chunk :: chunks), received, b. split; [done|]. split; [|done].
    rewrite <- Heq, concat_app, Hcat. cbn. rewrite <- !app_assoc. f_equal.
    by rewrite !app_assoc, Hsplit.
  - split; [done|]. intros out' [= <-]. destruct Hpp as (b & Hpat & _ & Hdata).
    exists [chunk], (h ++ packets), b. split; [done|]. split.
    { rewrite concat_app, Hcat. cbn. rewrite app_nil_r, <- app_assoc. by f_equal. }
    split; [|done]. apply Forall_app. split; [by destruct Hok|apply chunks_exact_whole].
Qed.

Lemma body_bytes_app l k : body_bytes (l ++ k) = body_bytes l ++ body_bytes k.
Proof. unfold body_bytes. by rewrite map_app, concat_app. Qed.

Lemma body_bytes_chunks chunks : body_bytes (map BChunk chunks) = concat chunks.
Proof. unfold body_bytes. rewrite map_map. by rewrite map_id. Qed.

Lemma chunks_exact_of_whole h : whole h -> chunks_exact MPEG_TS_PACKET_SIZE (concat h) = h.
Proof.
  induction 1 as [|p h Hp _ IH]; cbn [concat]; [done|]. unfold zlen in Hp.
  rewrite chunks_exact_app, IH, chunks_exact_cons; [|done|unfold zlen; lia|done|unfold zlen; rewrite Hp; done].
  rewrite (chunks_exact_short _ (zdrop _ _)); [|done|rewrite zlen_zdrop; unfold zlen; rewrite Hp; done].
  cbn. f_equal. unfold ztake. by rewrite take_ge by lia.
Qed.

(** What priming returns, in terms of packets: it starts with a PAT. *)
Lemma primed_ok events p rest data :
  Forall is_u8 (body_bytes events) -> zlen (body_bytes events) <= u64_max ->
  prime_body packetizer_new events = (p, rest, Some (Ok data)) ->
  Forall is_u8 data /\ Forall is_u8 (pending p) /\ zlen data mod MPEG_TS_PACKET_SIZE = 0 /\
  pat_start_at (chunks_exact MPEG_TS_PACKET_SIZE data) 0.
Proof.
  intros Hu Hmax Hp. unfold prime_body in Hp.
  pose proof (prime_loop_ok events [] prime_start packetizer_new prime_start_ok ltac:(constructor) Hu ltac:(done)) as H.
  rewrite Hp in H. destruct H as [_ H].
  destruct (H data eq_refl) as (chunks & received & b & -> & Heq & Hw & Hpat & ->). cbn in Heq.
  rewrite body_bytes_app, body_bytes_chunks in Hu. apply Forall_app in Hu as [Hu _].
  rewrite Heq in Hu. apply Forall_app in Hu as [Hr Hpp].
  assert (whole (zdrop b received)) as Hwd by (by apply Forall_zdrop).
  pose proof Hpat as (Hb0 & packet & header & Hl & Hh).
  split.
  { rewrite <- (zdrop_concat_whole received b) by done. by apply Forall_zdrop. }
  split; [done|]. rewrite zlen_concat_whole by done. split; [by rewrite Z.mod_mul|].
  rewrite chunks_exact_of_whole by done. split; [done|]. exists packet, header. split; [|done].
  unfold zdrop. rewrite lookup_drop. by rewrite Nat.add_0_r.
Qed.

(** Priming: whenever the priming loop succeeds, what it returns is
    everything received from some packet that starts a PAT section onwards:
    the packets from there to the end of the last chunk, with the incomplete
    tail left in the packetizer, so the stream continues without a gap.  It
    never fails with the internal [Priming] error: the restart point is
    always still inside its bounded buffer. *)
Theorem priming_starts_at_pat events :
  Forall is_u8 (body_bytes events) -> zlen (body_bytes events) <= u64_max ->
  let '(p, rest, verdict) := prime_body packetizer_new events in
  verdict <> Some (Err FPriming) /\
  forall data, verdict = Some (Ok data) ->
    exists chunks received b,
      events = map BChunk chunks ++ rest /\ concat chunks = concat received ++ pending p /\
      whole received /\ pat_start_at received b /\ data = concat (zdrop b received).
Proof.
  intros Hu Hmax.
  pose proof (prime_loop_ok events [] prime_start packetizer_new prime_start_ok ltac:(constructor) Hu ltac:(done)) as H.
  unfold prime_body. destruct (prime_loop _ _ _) as [[p rest] verdict]. exact H.
Qed.

(** ** Publishing lemmas *)

Section Publish.
Context (config : MpegTsRingConfig) (Hcfg : config_ok config).

Definition chunk_of (e : BodyEvent * Z * Z) : BodyEvent := e.1.1.

Lemma sat_add_assoc max a b c :
  0 <= b -> 0 <= c -> sat_add max (sat_add max a b) c = sat_add max a (b + c).
Proof. unfold sat_add. lia. Qed.

(** A write of whole packets appends them or fails and changes nothing; the
    overwritten packets are counted. *)
Lemma push_packets_ok ring a d packets now now_end :
  ring_refines config ring a -> Forall is_u8 packets -> zlen packets mod MPEG_TS_PACKET_SIZE = 0 ->
  0 <= overwritten_packets d <= u64_max ->
  let '(ring', d', r) := push_packets config ring d packets now now_end in
  (exists a', ring_refines config ring' a' /\ a_generation a' = a_generation a /\
     a_history a' = a_history a ++
       match r with Ok _ => chunks_exact MPEG_TS_PACKET_SIZE packets | Err _ => [] end /\
     a_first config a <= a_first config a' /\
     overwritten_packets d' =
       sat_add u64_max (overwritten_packets d) (a_first config a' - a_first config a)) /\
  viewers d' = viewers d /\ state d' = state d.
Proof.
  intros Href Hu Hal Hd. unfold push_packets. destruct packets as [|x packets].
  { split; [|done]. exists a. rewrite app_nil_r, Z.sub_diag. unfold sat_add. split_and!; try done; lia. }
  set (data := x :: packets) in *. pose proof (push_simulates config Hcfg ring a data now now_end Href Hu) as H.
  destruct (push config ring data now now_end) as [[ring' r] notify].
  destruct (a_push_cases a data) as [[e E]|E]; rewrite E in H; destruct H as (Href' & -> & _).
  - split; [|done]. exists a. rewrite app_nil_r, Z.sub_diag. unfold sat_add. split_and!; try done; lia.
  - cbn [wo_packets_overwritten].
    assert (a_first config a <= a_first config (mkARing (a_generation a)
      (a_history a ++ chunks_exact MPEG_TS_PACKET_SIZE data) (a_closed a))) as Hle
      by (unfold a_first, sat_sub; cbn; rewrite zlen_app; zlen_facts; lia).
    unfold record_write. destruct (Z.eqb_spec
      (a_first config (mkARing (a_generation a) (a_history a ++ chunks_exact MPEG_TS_PACKET_SIZE data) (a_closed a))
       - a_first config a) 0) as [E0|E0]; (split; [|done]); eexists; (split; [exact Href'|]);
      split_and!; try done.
    rewrite E0. unfold sat_add. lia.
Qed.

Lemma stream_until_failure_ok events ring a d p :
  ring_refines config ring a -> Forall is_u8 (pending p) -> Forall is_u8 (body_bytes (map chunk_of events)) ->
  0 <= overwritten_packets d <= u64_max ->
  let '(ring', d', p', verdict) := stream_until_failure config ring d p events in
  exists a' chunks rest,
    ring_refines config ring' a' /\ a_generation a' = a_generation a /\
    map chunk_of events = map BChunk chunks ++ rest /\ (verdict = None -> rest = []) /\
    a_first config a <= a_first config a' /\
    overwritten_packets d' = sat_add u64_max (overwritten_packets d) (a_first config a' - a_first config a) /\
    (verdict <> Some RingClosed ->
     exists data, a_history a' = a_history a ++ chunks_exact MPEG_TS_PACKET_SIZE data /\
       zlen data mod MPEG_TS_PACKET_SIZE = 0 /\
       pending p ++ concat chunks = data ++ pending p').
Proof.
  revert ring a d p.
  induction events as [|[[ev now] now_end] events IH]; intros ring a d p Href Hp Hu Hd; cbn [stream_until_failure].
  { exists a, [], []. rewrite Z.sub_diag. unfold sat_add. split_and!; try done; try lia.
    intros _. exists []. cbn. by rewrite !app_nil_r. }
  assert (forall verdict, verdict <> None -> exists a' chunks rest,
    ring_refines config ring a' /\ a_generation a' = a_generation a /\
    map chunk_of ((ev, now, now_end) :: events) = map BChunk chunks ++ rest /\
    (verdict = None -> rest = []) /\ a_first config a <= a_first config a' /\
    overwritten_packets d = sat_add u64_max (overwritten_packets d) (a_first config a' - a_first config a) /\
    (verdict <> Some RingClosed ->
     exists data, a_history a' = a_history a ++ chunks_exact MPEG_TS_PACKET_SIZE data /\
       zlen data mod MPEG_TS_PACKET_SIZE = 0 /\ pending p ++ concat chunks = data ++ pending p)) as Hstop.
  { intros verdict Hv. exists a, [], (map chunk_of ((ev, now, now_end) :: events)).
    rewrite Z.sub_diag. unfold sat_add. split_and!; try done; try lia.
    intros _. exists []. cbn. by rewrite !app_nil_r. }
  destruct ev as [chunk| | |]; [|by apply Hstop..].
  change (body_bytes (map chunk_of ((BChunk chunk, now, now_end) :: events)))
    with (chunk ++ body_bytes (map chunk_of events)) in Hu.
  apply Forall_app in Hu as [Hc Hu].
  destruct (packetizer_push p chunk) as [p1 [data|error]] eqn:E.
  - destruct (packetizer_push_ok p chunk p1 data E) as (Hsplit & Hal & _).
    assert (Forall is_u8 data /\ Forall is_u8 (pending p1)) as [Hdu Hp1].
    { apply Forall_app. rewrite <- Hsplit. by apply Forall_app. }
    pose proof (push_packets_ok ring a d data now now_end Href Hdu Hal Hd) as H1.
    destruct (push_packets config ring d data now now_end) as [[ring1 d1] r].
    destruct H1 as [(a1 & Href1 & Hg1 & Hh1 & Hf1 & Ho1) _].
    assert (0 <= overwritten_packets d1 <= u64_max) as Hd1 by (rewrite Ho1; unfold sat_add; lia).
    destruct r as [u|e].
    + specialize (IH ring1 a1 d1 p1 Href1 Hp1 Hu Hd1).
      destruct (stream_until_failure config ring1 d1 p1 events) as [[[ring2 d2] p2] verdict].
      destruct IH as (a2 & chunks & rest & Href2 & Hg2 & Hev & Hnone & Hf2 & Ho2 & Hdata).
      exists a2, (chunk :: chunks), rest. split; [done|]. split; [congruence|]. split; [cbn; by rewrite Hev|].
      split; [done|]. split; [lia|]. split; [rewrite Ho2, Ho1, sat_add_assoc by lia; f_equal; lia|].
      intros Hv. destruct (Hdata Hv) as (data2 & Hh2 & Hal2 & Hs2). exists (data ++ data2).
      rewrite Hh2, Hh1, chunks_exact_app, <- app_assoc by done. split; [done|]. split.
      * rewrite zlen_app, Z.add_mod, Hal, Hal2 by done. done.
      * cbn. rewrite <- app_assoc, <- Hs2, !app_assoc. by rewrite Hsplit.
    + exists a1, [chunk], (map chunk_of events). split_and!; try done.
  - exists a, [chunk], (map chunk_of events). rewrite Z.sub_diag. split; [done|]. split; [done|].
    split; [done|]. split; [done|]. split; [lia|]. split; [unfold sat_add; lia|].
    intros _. exists []. rewrite packetizer_push_spec in E. cbn zeta in E.
    destruct (find_bad_sync _ _) as [[i x]|]; [|done]. injection E as <- _. cbn. by rewrite !app_nil_r.
Qed.

(** C5. Nothing lost between the socket and the ring: while the upstream
    streams, and whatever ends it except a closed ring, the packets appended
    to the ring's generation followed by the packetizer's tail are exactly the
    bytes received; the diagnostics' count of overwritten packets grows by
    exactly how far the ring's window moved. *)
Theorem streaming_publishes_all ring a d p events :
  ring_refines config ring a -> Forall is_u8 (pending p) ->
  Forall is_u8 (body_bytes (map chunk_of events)) -> 0 <= overwritten_packets d <= u64_max ->
  let '(ring', d', p', verdict) := stream_until_failure config ring d p events in
  verdict <> Some RingClosed ->
  exists a' chunks rest data,
    ring_refines config ring' a' /\ a_generation a' = a_generation a /\
    map chunk_of events = map BChunk chunks ++ rest /\ (verdict = None -> rest = []) /\
    a_history a' = a_history a ++ chunks_exact MPEG_TS_PACKET_SIZE data /\
    zlen data mod MPEG_TS_PACKET_SIZE = 0 /\
    pending p ++ concat chunks = data ++ pending p' /\
    overwritten_packets d' = sat_add u64_max (overwritten_packets d) (a_first config a' - a_first config a).
Proof.
  intros Href Hp Hu Hd. pose proof (stream_until_failure_ok events ring a d p Href Hp Hu Hd) as H.
  destruct (stream_until_failure config ring d p events) as [[[ring' d'] p'] verdict]. intros Hv.
  destruct H as (a' & chunks & rest & H1 & H2 & H3 & H4 & _ & H6 & H7).
  destruct (H7 Hv) as (data & ? & ? & ?). exists a', chunks, rest, data. done.
Qed.

End Publish.
