(* ===== verification/Text.v ===== *)
(** * Text

    Strings as the code uses them.  A [&str] or [String] is the list of its
    characters (Unicode scalar values), whose order is the order of its UTF-8
    bytes; [from_utf8] and [to_utf8] are the encoding.  The functions are those
    of the standard library that the parsers, the reconciliation and the
    writers call. *)
From Stdlib Require Import ZArith Lia.
From Stdlib Require Strings.String Strings.Ascii.
From stdpp Require Import base numbers option strings.
From stdpp Require Import sets list.
From S2P Require Import Prelude.
Open Scope Z_scope.

Abbreviation text := (list Z).

(** A literal of the source. *)
Definition str (s : string) : text :=
  List.map (fun a => Z.of_N (Ascii.N_of_ascii a)) (String.list_ascii_of_string s).

(** ** Characters *)

(** [char::is_whitespace] *)
Definition is_whitespace (c : Z) : bool :=
  ((9 <=? c) && (c <=? 13)) || (c =? 0x20) || (c =? 0x85) || (c =? 0xa0) || (c =? 0x1680) ||
  ((0x2000 <=? c) && (c <=? 0x200a)) || (c =? 0x2028) || (c =? 0x2029) || (c =? 0x202f) ||
  (c =? 0x205f) || (c =? 0x3000).

(** [u8::is_ascii_whitespace] *)
Definition is_ascii_whitespace (c : Z) : bool :=
  (c =? 9) || (c =? 10) || (c =? 12) || (c =? 13) || (c =? 0x20).

(** [char::is_ascii_digit] *)
Definition is_ascii_digit (c : Z) : bool := (0x30 <=? c) && (c <=? 0x39).

(** [char::to_ascii_lowercase] *)
Definition to_ascii_lowercase (c : Z) : Z := if (65 <=? c) && (c <=? 90) then c + 32 else c.

(** [str::eq_ignore_ascii_case] *)
Definition eq_ignore_ascii_case (a b : text) : bool :=
  bool_decide (List.map to_ascii_lowercase a = List.map to_ascii_lowercase b).

(** A Unicode scalar value: what a [char] can be. *)
Definition is_char (c : Z) : bool :=
  ((0 <=? c) && (c <? 0xd800)) || ((0xe000 <=? c) && (c <=? 0x10ffff)).

(** ** Cutting *)

(** The longest prefix of characters that satisfy [p], and the rest. *)
Fixpoint span (p : Z -> bool) (s : text) : text * text :=
  match s with
  | c :: s' => if p c then let '(a, b) := span p s' in (c :: a, b) else ([], s)
  | [] => ([], [])
  end.
Definition drop_while (p : Z -> bool) (s : text) : text := snd (span p s).

Definition trim_start (s : text) : text := drop_while is_whitespace s.
Definition trim_end (s : text) : text := rev (trim_start (rev s)).
(** [str::trim] *)
Definition trim (s : text) : text := trim_end (trim_start s).

(** [str::strip_prefix] *)
Fixpoint strip_prefix (prefix s : text) : option text :=
  match prefix, s with
  | [], _ => Some s
  | x :: prefix, y :: s => if x =? y then strip_prefix prefix s else None
  | _ :: _, [] => None
  end.
(** [str::starts_with] *)
Definition starts_with (prefix s : text) : bool := bool_decide (is_Some (strip_prefix prefix s)).

(** [str::strip_suffix] *)
Definition strip_suffix (suffix s : text) : option text := @rev Z <$> strip_prefix (rev suffix) (rev s).

(** [str::split_once] at a character *)
Definition split_once (c : Z) (s : text) : option (text * text) :=
  match span (fun x => negb (x =? c)) s with
  | (_, []) => None
  | (a, _ :: b) => Some (a, b)
  end.

(** [str::find] of a text that is not empty: what is before its first
    occurrence and what is after it *)
Fixpoint split_once_text (part s : text) : option (text * text) :=
  match strip_prefix part s with
  | Some rest => Some ([], rest)
  | None =>
      match s with
      | [] => None
      | c :: s => '(before, after) ← split_once_text part s; Some (c :: before, after)
      end
  end.
(** [str::contains] *)
Definition contains_text (part s : text) : bool := bool_decide (is_Some (split_once_text part s)).

(** [str::split] at every character that satisfies [p] *)
Fixpoint split_chars (p : Z -> bool) (s : text) : list text :=
  match s with
  | [] => [[]]
  | c :: s =>
      match split_chars p s with
      | part :: parts => if p c then [] :: part :: parts else (c :: part) :: parts
      | [] => []
      end
  end.

(** [str::lines]: the lines end with a line feed, before which one carriage
    return is dropped; [line] is the line being read, reversed. *)
Fixpoint lines_from (line s : text) : list text :=
  match s with
  | [] => match line with [] => [] | _ => [rev line] end
  | c :: s =>
      if c =? 10
      then rev (match line with x :: line' => if x =? 13 then line' else line | [] => [] end) :: lines_from [] s
      else lines_from (c :: line) s
  end.
Definition lines (s : text) : list text := lines_from [] s.

(** [str::split_whitespace]; [word] is the word being read, reversed. *)
Fixpoint split_words (word : text) (s : text) : list text :=
  match s with
  | [] => match word with [] => [] | _ => [rev word] end
  | c :: s =>
      if is_whitespace c
      then match word with [] => split_words [] s | _ => rev word :: split_words [] s end
      else split_words (c :: word) s
  end.
Definition split_whitespace (s : text) : list text := split_words [] s.

(** [words.join(" ")] *)
Fixpoint join_words (words : list text) : text :=
  match words with
  | [] => []
  | [w] => w
  | w :: words => w ++ 0x20 :: join_words words
  end.

(** [value.replace(chars, to)] for single characters *)
Definition replace_chars (chars : list Z) (to s : text) : text :=
  concat (List.map (fun c => if existsb (Z.eqb c) chars then to else [c]) s).

(** [parse] for an unsigned type: an optional [+], then digits, without
    overflow *)
Definition digits_value (digits : text) : Z := fold_left (fun n c => 10 * n + (c - 0x30)) digits 0.
Definition parse_digits (max : Z) (digits : text) : option Z :=
  if bool_decide (digits = []) || negb (forallb is_ascii_digit digits) then None
  else checked max (digits_value digits).
Definition parse_unsigned (max : Z) (s : text) : option Z :=
  parse_digits max (match s with c :: s' => if c =? 0x2b then s' else s | [] => [] end).
(** [parse] for a signed type whose least value is [- (max + 1)] *)
Definition parse_signed (max : Z) (s : text) : option Z :=
  match s with
  | c :: s' => if c =? 0x2d then Z.opp <$> parse_digits (max + 1) s' else parse_unsigned max s
  | [] => None
  end.

(** [str::cmp] *)
Fixpoint text_le (a b : text) : bool :=
  match a, b with
  | [], _ => true
  | _ :: _, [] => false
  | x :: a, y :: b => if x <? y then true else if x =? y then text_le a b else false
  end.

(** ** UTF-8 *)

Definition encode_char (c : Z) : bytes :=
  if c <? 0x80 then [c]
  else if c <? 0x800 then [0xc0 + c / 64; 0x80 + c mod 64]
  else if c <? 0x10000 then [0xe0 + c / 4096; 0x80 + c / 64 mod 64; 0x80 + c mod 64]
  else [0xf0 + c / 262144; 0x80 + c / 4096 mod 64; 0x80 + c / 64 mod 64; 0x80 + c mod 64].

(** [str::as_bytes] *)
Definition to_utf8 (s : text) : bytes := concat (List.map encode_char s).

(** [str::len] *)
Definition utf8_len (s : text) : Z := zlen (to_utf8 s).

Definition between (low high b : Z) : bool := (low <=? b) && (b <=? high).
Definition is_continuation (b : Z) : bool := between 0x80 0xbf b.

(** The second byte of a sequence of three or four bytes: no overlong form,
    no surrogate, nothing above the last scalar value. *)
Definition second_of_three (a b : Z) : bool :=
  if a =? 0xe0 then between 0xa0 0xbf b
  else if a =? 0xed then between 0x80 0x9f b
  else between 0xe1 0xef a && is_continuation b.
Definition second_of_four (a b : Z) : bool :=
  if a =? 0xf0 then between 0x90 0xbf b
  else if a =? 0xf4 then between 0x80 0x8f b
  else between 0xf1 0xf3 a && is_continuation b.

(** [String::from_utf8] *)
Fixpoint from_utf8 (l : bytes) : option text :=
  match l with
  | [] => Some []
  | a :: l =>
      if a <? 0x80 then cons a <$> from_utf8 l
      else
        match l with
        | [] => None
        | b :: l =>
            if between 0xc2 0xdf a then
              if is_continuation b then cons ((a - 0xc0) * 64 + (b - 0x80)) <$> from_utf8 l else None
            else
              match l with
              | [] => None
              | c :: l =>
                  if second_of_three a b then
                    if is_continuation c
                    then cons ((a - 0xe0) * 4096 + (b - 0x80) * 64 + (c - 0x80)) <$> from_utf8 l else None
                  else
                    match l with
                    | [] => None
                    | d :: l =>
                        if second_of_four a b && is_continuation c && is_continuation d
                        then cons ((a - 0xf0) * 262144 + (b - 0x80) * 4096 + (c - 0x80) * 64 + (d - 0x80))
                               <$> from_utf8 l
                        else None
                    end
              end
        end
  end.

(** Decides a test of bytes. *)
Ltac byte_range :=
  unfold second_of_three, second_of_four, is_continuation, between;
  repeat match goal with |- context [if ?b then _ else _] => destruct b eqn:? end; lia.

Lemma from_utf8_char c rest :
  is_char c = true -> from_utf8 (encode_char c ++ rest) = cons c <$> from_utf8 rest.
Proof.
  unfold is_char, encode_char. intros Hc.
  pose proof (Z.div_mod c 64). pose proof (Z.mod_pos_bound c 64).
  assert (c / 64 / 64 = c / 4096) by (rewrite Z.div_div by lia; done).
  assert (c / 4096 / 64 = c / 262144) by (rewrite Z.div_div by lia; done).
  pose proof (Z.div_mod (c / 64) 64). pose proof (Z.mod_pos_bound (c / 64) 64).
  pose proof (Z.div_mod (c / 4096) 64). pose proof (Z.mod_pos_bound (c / 4096) 64).
  destruct (Z.ltb_spec c 0x80); [cbn [app from_utf8]; by rewrite (proj2 (Z.ltb_lt _ _))|].
  destruct (Z.ltb_spec c 0x800).
  { cbn [app from_utf8]. unfold between, is_continuation, between.
    rewrite (proj2 (Z.ltb_ge _ _)), !(proj2 (Z.leb_le _ _)) by lia. cbn [andb].
    f_equal. f_equal. lia. }
  destruct (Z.ltb_spec c 0x10000).
  - cbn [app from_utf8]. rewrite (proj2 (Z.ltb_ge _ _)) by lia.
    replace (between _ _ (0xe0 + _)) with false by byte_range.
    replace (second_of_three _ _) with true by byte_range.
    replace (is_continuation _) with true by byte_range.
    f_equal. f_equal. lia.
  - cbn [app from_utf8]. rewrite (proj2 (Z.ltb_ge _ _)) by lia.
    replace (between _ _ (0xf0 + _)) with false by byte_range.
    replace (second_of_three _ _) with false by byte_range.
    replace (second_of_four _ _ && _ && _) with true by byte_range.
    f_equal. f_equal. lia.
Qed.

(** Decoding inverts encoding. *)
Lemma from_to_utf8 s : Forall (fun c => is_char c = true) s -> from_utf8 (to_utf8 s) = Some s.
Proof.
  unfold to_utf8. induction 1 as [|c s Hc Hs IH]; [done|]. cbn [List.map concat].
  by rewrite from_utf8_char, IH.
Qed.

(** ** Cutting and trimming *)

(** Decoding goes on behind a whole text. *)
Lemma from_utf8_app a b s : from_utf8 a = Some s -> from_utf8 (a ++ b) = app s <$> from_utf8 b.
Proof.
  remember (length a) as n eqn:Hn. revert a s Hn. induction n as [n IH] using lt_wf_ind. intros a s Hn.
  assert (forall a' s', (length a' < n)%nat -> from_utf8 a' = Some s' -> from_utf8 (a' ++ b) = app s' <$> from_utf8 b) as Hrec
    by (intros a' s' Hl; by eapply IH).
  assert (forall c a', (length a' < n)%nat -> cons c <$> from_utf8 a' = Some s ->
    cons c <$> from_utf8 (a' ++ b) = app s <$> from_utf8 b) as Hcons.
  { intros c a' Hl Hs. destruct (from_utf8 a') as [s'|] eqn:E; [|done]. injection Hs as <-. rewrite (Hrec _ _ Hl E).
    by destruct (from_utf8 b). }
  destruct a as [|a0 a]; cbn [from_utf8 app length] in *.
  { intros [= <-]. cbn. by destruct (from_utf8 b). }
  destruct (a0 <? 0x80); [apply Hcons; lia|]. destruct a as [|a1 a]; [done|]. cbn [app length] in *.
  destruct (between 0xc2 0xdf a0); [destruct (is_continuation a1); [apply Hcons; lia|done]|].
  destruct a as [|a2 a]; [done|]. cbn [app length] in *.
  destruct (second_of_three a0 a1); [destruct (is_continuation a2); [apply Hcons; lia|done]|].
  destruct a as [|a3 a]; [done|]. cbn [app length] in *. destruct (_ && _ && _); [apply Hcons; lia|done].
Qed.

Lemma span_app p a r :
  Forall (fun c => p c = true) a -> (forall c, head r = Some c -> p c = false) -> span p (a ++ r) = (a, r).
Proof.
  intros Ha Hr. induction Ha as [|c a Hc Ha IH]; cbn.
  - destruct r as [|c r]; [done|]. cbn. by rewrite Hr.
  - by rewrite Hc, IH.
Qed.

Lemma drop_while_id p s : (forall c, head s = Some c -> p c = false) -> drop_while p s = s.
Proof. destruct s as [|c s]; [done|]. intros H. unfold drop_while. cbn. by rewrite H. Qed.

Lemma drop_while_all p a s : Forall (fun c => p c = true) a -> drop_while p (a ++ s) = drop_while p s.
Proof.
  unfold drop_while. induction 1 as [|c a Hc Ha IH]; [done|]. cbn. rewrite Hc.
  destruct (span p (a ++ s)). by cbn in *.
Qed.

Lemma drop_while_app p a s c : c ∈ a -> p c = false -> drop_while p (a ++ s) = drop_while p a ++ s.
Proof.
  unfold drop_while. intros Hin Hc. induction a as [|x a IH]; [set_solver|]. cbn.
  destruct (p x) eqn:E; [|done]. apply elem_of_cons in Hin as [-> | Hin]; [congruence|].
  specialize (IH Hin). destruct (span p (a ++ s)), (span p a). by cbn in *.
Qed.

(** What [drop_while] drops. *)
Lemma drop_while_split p s : exists a, Forall (fun c => p c = true) a /\ s = a ++ drop_while p s.
Proof.
  unfold drop_while. induction s as [|c s [a [Ha Hs]]]; [by exists []|]. cbn. destruct (p c) eqn:E; [|by exists []].
  destruct (span p s). cbn in *. exists (c :: a). split; [by constructor|]. by rewrite Hs at 1.
Qed.

Lemma drop_while_head p s c : head (drop_while p s) = Some c -> p c = false.
Proof.
  unfold drop_while. induction s as [|x s IH]; [done|]. cbn. destruct (p x) eqn:E; [|by intros [= <-]].
  by destruct (span p s).
Qed.

Lemma trim_end_split s : exists z, Forall (fun c => is_whitespace c = true) z /\ s = trim_end s ++ z.
Proof.
  destruct (drop_while_split is_whitespace (rev s)) as (a & Ha & Hs). exists (rev a). split.
  - by apply Forall_rev.
  - unfold trim_end, trim_start. rewrite <- rev_app_distr, <- Hs. by rewrite rev_involutive.
Qed.

Lemma trim_end_last s t c : trim_end s = t ++ [c] -> is_whitespace c = false.
Proof.
  unfold trim_end, trim_start. intros H. apply (f_equal (@rev Z)) in H.
  rewrite rev_involutive, rev_app_distr in H. eapply drop_while_head. by rewrite H.
Qed.

(** A text that ends with a character that is not white space. *)
Lemma trim_end_snoc s c z :
  is_whitespace c = false -> Forall (fun c => is_whitespace c = true) z -> trim_end (s ++ c :: z) = s ++ [c].
Proof.
  intros Hc Hz. unfold trim_end, trim_start. rewrite rev_app_distr. cbn. rewrite <- app_assoc.
  rewrite drop_while_all by by apply Forall_rev. cbn.
  rewrite drop_while_id by (by intros ? [= <-]). cbn. by rewrite rev_involutive.
Qed.

Lemma trim_end_nil z : Forall (fun c => is_whitespace c = true) z -> trim_end z = [].
Proof.
  intros Hz. unfold trim_end, trim_start. rewrite <- (app_nil_r (rev z)), drop_while_all; [done|by apply Forall_rev].
Qed.

(** The end of a text is trimmed up to a character that is not white space. *)
Lemma trim_end_app s c t : is_whitespace c = false -> trim_end (s ++ c :: t) = s ++ c :: trim_end t.
Proof.
  intros Hc. destruct (trim_end_split t) as (z & Hz & Ht). rewrite Ht at 1.
  destruct (decide (trim_end t = [])) as [E | E].
  - rewrite E. cbn. rewrite trim_end_snoc by done. done.
  - destruct (exists_last E) as (t' & x & Hx). rewrite Hx.
    pose proof (trim_end_last _ _ _ Hx) as Hxw.
    replace (s ++ c :: (t' ++ [x]) ++ z) with ((s ++ c :: t') ++ x :: z) 
      by (rewrite <- !app_assoc; done).
    rewrite trim_end_snoc by done. by rewrite <- app_assoc.
Qed.

Lemma trim_start_app c s : is_whitespace c = false -> trim_start (c :: s) = c :: s.
Proof. intros H. apply drop_while_id. by intros ? [= <-]. Qed.

(** Trimming twice. *)
Lemma trim_trim_end s : trim (trim_end s) = trim s.
Proof.
  destruct (trim_end_split s) as (z & Hz & Hs). unfold trim. rewrite Hs at 2.
  destruct (decide (trim_end s = [])) as [E | E].
  - rewrite E. cbn. unfold trim_start. rewrite <- (app_nil_r z), drop_while_all by done. done.
  - destruct (exists_last E) as (t & x & Hx).
    pose proof (trim_end_last _ _ _ Hx) as Hxw.
    unfold trim_start. rewrite (drop_while_app _ _ _ x); [|rewrite Hx; set_solver|done].
    destruct (drop_while_split is_whitespace (trim_end s)) as (a & Ha & Hd).
    set (d := drop_while is_whitespace (trim_end s)) in *.
    assert (exists d', d = d' ++ [x]) as [d' ->].
    { destruct (decide (d = [])) as [Ed | Ed].
      - rewrite Ed, app_nil_r in Hd. exfalso. rewrite <- Hd in Ha. rewrite Hx in Ha.
        apply Forall_app in Ha as [_ Ha]. apply Forall_cons in Ha as [Ha _]. congruence.
      - destruct (exists_last Ed) as (d' & y & ->). exists d'. rewrite Hx, app_assoc in Hd.
        by apply app_inj_tail in Hd as [_ ->]. }
    rewrite <- app_assoc. cbn. by rewrite !trim_end_snoc.
Qed.

(** ** Searching *)

Lemma strip_prefix_Some part s rest : strip_prefix part s = Some rest <-> s = part ++ rest.
Proof.
  revert s. induction part as [|x part IH]; intros s; cbn; [split; congruence|].
  destruct s as [|y s]; [split; discriminate|].
  destruct (Z.eqb_spec x y) as [-> | Hne]; [rewrite IH; split; [by intros -> | by intros [= ->]]|].
  split; [discriminate|intros [= <- _]; done].
Qed.

Lemma starts_with_true part s : starts_with part s = true <-> exists rest, s = part ++ rest.
Proof.
  unfold starts_with. rewrite bool_decide_eq_true. unfold is_Some.
  split; intros [rest H]; exists rest; by apply strip_prefix_Some.
Qed.

(** [find] finds an occurrence, and the first one. *)
Lemma split_once_text_Some part s before after :
  split_once_text part s = Some (before, after) -> s = before ++ part ++ after.
Proof.
  revert before after. induction s as [|c s IH]; intros before after; cbn [split_once_text].
  - destruct (strip_prefix part []) eqn:E; [|done]. intros [= <- <-]. by apply strip_prefix_Some in E.
  - destruct (strip_prefix part (c :: s)) eqn:E.
    + intros [= <- <-]. by apply strip_prefix_Some in E.
    + destruct (split_once_text part s) as [[b a]|]; [|done]. cbn. intros [= <- <-]. cbn. f_equal. by apply IH.
Qed.

Lemma split_once_text_first part s before after b a :
  split_once_text part s = Some (before, after) -> s = b ++ part ++ a -> (length before <= length b)%nat.
Proof.
  revert before after b. induction s as [|c s IH]; intros before after b; cbn [split_once_text].
  - destruct (strip_prefix part []) eqn:E; [|done]. intros [= <- <-] _. cbn. lia.
  - destruct (strip_prefix part (c :: s)) eqn:E.
    + intros [= <- <-] _. cbn. lia.
    + destruct (split_once_text part s) as [[b' a']|] eqn:E'; [|done]. cbn. intros [= <- <-] Hs.
      destruct b as [|c' b]; cbn in Hs; [exfalso|].
      * apply eq_None_not_Some in E. destruct E. exists a. by apply strip_prefix_Some.
      * cbn. injection Hs as -> Hs. apply le_n_S. by eapply IH.
Qed.

Lemma split_once_text_None part s : split_once_text part s = None -> forall b a, s <> b ++ part ++ a.
Proof.
  induction s as [|c s IH]; cbn [split_once_text]; intros H b a Hs.
  - destruct (strip_prefix part []) eqn:E; [done|]. apply eq_None_not_Some in E. destruct E.
    exists a. apply strip_prefix_Some. by destruct b.
  - destruct (strip_prefix part (c :: s)) eqn:E; [done|].
    destruct (split_once_text part s) as [[]|] eqn:E'; [done|].
    destruct b as [|c' b]; cbn in Hs.
    + apply eq_None_not_Some in E. destruct E. exists a. by apply strip_prefix_Some.
    + injection Hs as -> Hs. by eapply IH.
Qed.

(** ** Lines *)

Definition unline (line : text) : text := line ++ [10].
Definition plain_line (line : text) : Prop := 10 ∉ line /\ last line <> Some 13.

Lemma lines_from_app line l s : 10 ∉ l -> lines_from line (l ++ s) = lines_from (rev l ++ line) s.
Proof.
  revert line. induction l as [|c l IH]; intros line Hl; [done|]. cbn [app lines_from].
  apply not_elem_of_cons in Hl as [Hc Hl]. destruct (Z.eqb_spec c 10) as [-> | _]; [done|].
  rewrite IH by done. cbn. by rewrite <- app_assoc.
Qed.

(** Reading the lines of a text written line by line. *)
Lemma lines_unlines ls s : Forall plain_line ls -> lines (concat (List.map unline ls) ++ s) = ls ++ lines s.
Proof.
  unfold lines. induction 1 as [|l ls [Hl Hr] Hls IH]; [done|]. cbn [List.map concat app]. unfold unline at 1.
  rewrite <- !app_assoc, lines_from_app by done. cbn [app lines_from]. rewrite IH, app_nil_r. cbn. f_equal.
  destruct (rev l) as [|x r] eqn:E.
  - by apply (f_equal (@rev Z)) in E; rewrite rev_involutive in E.
  - apply (f_equal (@rev Z)) in E. rewrite rev_involutive in E. subst l. cbn.
    destruct (Z.eqb_spec x 13) as [-> | _]; [|done].
    exfalso. apply Hr. cbn. apply last_snoc.
Qed.

(** ** The order of texts *)

Lemma text_le_total a b : text_le a b = true \/ text_le b a = true.
Proof.
  revert b. induction a as [|x a IH]; intros [|y b]; cbn; auto.
  destruct (Z.ltb_spec x y), (Z.ltb_spec y x); auto; try lia. replace y with x by lia. rewrite Z.eqb_refl. auto.
Qed.

Lemma text_le_anti a b : text_le a b = true -> text_le b a = true -> a = b.
Proof.
  revert b. induction a as [|x a IH]; intros [|y b]; cbn; try done.
  destruct (Z.ltb_spec x y), (Z.ltb_spec y x); try lia; destruct (Z.eqb_spec x y), (Z.eqb_spec y x); try done; try lia.
  intros H1 H2. subst. f_equal. auto.
Qed.

Lemma text_le_trans a b c : text_le a b = true -> text_le b c = true -> text_le a c = true.
Proof.
  revert b c. induction a as [|x a IH]; intros [|y b] [|z c]; cbn; try done.
  destruct (Z.ltb_spec x y), (Z.ltb_spec y z), (Z.ltb_spec x z); try done; try lia;
    destruct (Z.eqb_spec x y), (Z.eqb_spec y z), (Z.eqb_spec x z); try done; try lia. apply IH.
Qed.

(** ** Splitting at a character *)

Lemma split_once_found c a b : c ∉ a -> split_once c (a ++ c :: b) = Some (a, b).
Proof.
  intros Ha. unfold split_once. rewrite span_app; [done| |].
  - apply Forall_forall. intros x Hx. apply negb_true_iff, Z.eqb_neq. intros ->. done.
  - intros x [= <-]. by rewrite Z.eqb_refl.
Qed.

Lemma split_once_absent c a : c ∉ a -> split_once c a = None.
Proof.
  intros Ha. unfold split_once. rewrite <- (app_nil_r a), span_app; [done| |done].
  apply Forall_forall. intros x Hx. apply negb_true_iff, Z.eqb_neq. intros ->. done.
Qed.

Lemma split_once_Some c s a b : split_once c s = Some (a, b) -> s = a ++ c :: b /\ c ∉ a.
Proof.
  unfold split_once. revert a b. induction s as [|x s IH]; intros a b; cbn; [done|].
  destruct (Z.eqb_spec x c) as [-> | Hne]; cbn.
  - intros [= <- <-]. split; [done|set_solver].
  - destruct (span _ s) as [a' [|y b']]; [done|]. intros [= <- <-].
    destruct (IH a' b' eq_refl) as [-> ?]. split; [done|set_solver].
Qed.

Lemma split_once_None c s : split_once c s = None -> c ∉ s.
Proof.
  intros Hs Hin. apply list_elem_of_split in Hin as (a & b & ->).
  destruct (decide (c ∈ a)) as [Ha | Ha].
  - clear -Hs Ha. revert Hs. unfold split_once. induction a as [|x a IH]; [set_solver|]. cbn.
    destruct (Z.eqb_spec x c) as [-> | Hne]; cbn; [done|].
    assert (c ∈ a) as Hin by set_solver. specialize (IH Hin).
    destruct (span _ (a ++ c :: b)) as [p [|y q]]; [done|]. done.
  - by rewrite split_once_found in Hs.
Qed.

(** * Internet addresses

    [str::parse::<IpAddr>] and [IpAddr::is_loopback] of the standard library,
    by which a process input is kept on the local machine. *)

Inductive IpAddr :=
| V4 (octets : list Z)
| V6 (groups : list Z).

#[global] Instance IpAddr_eq_dec : EqDecision IpAddr.
Proof. solve_decision. Defined.

(** ** The parser

    A reader takes the text that is left and returns what it read and the
    rest; it fails without consuming anything. *)

(** [char::to_digit] *)
Definition to_digit (radix c : Z) : option Z :=
  let d :=
    if is_ascii_digit c then c - 0x30
    else
      let l := to_ascii_lowercase c in
      if (97 <=? l) && (l <=? 122) then l - 87 else 36 in
  if d <? radix then Some d else None.

(** [Parser::read_number]: at most [max_digits] digits, no value above [max],
    and no leading zero unless it is allowed. *)
Fixpoint read_digits (radix : Z) (s : text) : list Z * text :=
  match s with
  | [] => ([], [])
  | c :: s' =>
      match to_digit radix c with
      | Some d => let '(ds, rest) := read_digits radix s' in (d :: ds, rest)
      | None => ([], s)
      end
  end.
Definition read_number (radix max_digits max : Z) (allow_zero_prefix : bool) (s : text) : option (Z * text) :=
  let '(digits, rest) := read_digits radix s in
  let value := fold_left (fun n d => radix * n + d) digits 0 in
  if bool_decide (digits = []) || (max_digits <? zlen digits) || (max <? value) then None
  else if negb allow_zero_prefix && bool_decide (head digits = Some 0) && (1 <? zlen digits) then None
  else Some (value, rest).

(** [Parser::read_separator] before the second and later elements *)
Definition read_separator {A} (separator : Z) (index : nat) (inner : text -> option (A * text)) (s : text)
  : option (A * text) :=
  match index, s with
  | O, _ => inner s
  | S _, c :: s => if c =? separator then inner s else None
  | S _, [] => None
  end.

Fixpoint read_octets (count index : nat) (s : text) : option (list Z * text) :=
  match count with
  | O => Some ([], s)
  | S count =>
      '(octet, s) ← read_separator 0x2e index (read_number 10 3 255 false) s;
      '(octets, s) ← read_octets count (S index) s;
      Some (octet :: octets, s)
  end.
Definition read_ipv4_addr (s : text) : option (list Z * text) := read_octets 4 0 s.

(** [read_groups]: as many groups as there are, up to the limit; an address
    in the IPv4 form takes two groups and ends them. *)
Fixpoint read_groups (limit index : nat) (s : text) : list Z * bool * text :=
  match limit with
  | O => ([], false, s)
  | S limit' =>
      match (if bool_decide (limit' = O) then None else read_separator 0x3a index read_ipv4_addr s) with
      | Some ([a; b; c; d], s) => ([256 * a + b; 256 * c + d], true, s)
      | _ =>
          match read_separator 0x3a index (read_number 16 4 0xffff true) s with
          | Some (group, s) =>
              let '(groups, ipv4, s) := read_groups limit' (S index) s in (group :: groups, ipv4, s)
          | None => ([], false, s)
          end
      end
  end.

Definition read_ipv6_addr (s : text) : option (list Z * text) :=
  let '(head, head_ipv4, s) := read_groups 8 0 s in
  if zlen head =? 8 then Some (head, s)
  else if head_ipv4 : bool then None
  else
    s ← strip_prefix (str "::") s;
    let '(tail, _, s) := read_groups (8 - (length head + 1)) 0 s in
    Some (head ++ replicate (8 - length head - length tail) 0 ++ tail, s).

(** [IpAddr::from_str]: the whole text is the address. *)
Definition parse_ip_addr (s : text) : option IpAddr :=
  match read_ipv4_addr s with
  | Some (octets, []) => Some (V4 octets)
  | Some _ => None
  | None =>
      match read_ipv6_addr s with
      | Some (groups, []) => Some (V6 groups)
      | _ => None
      end
  end.

(** [IpAddr::is_loopback] *)
Definition is_loopback (address : IpAddr) : bool :=
  match address with
  | V4 octets => bool_decide (head octets = Some 127)
  | V6 groups => bool_decide (groups = [0; 0; 0; 0; 0; 0; 0; 1])
  end.

(** Addresses in their usual forms. *)
Example parse_ip_samples :
  List.map (fun s => parse_ip_addr (str s))
    ["127.0.0.1"; "::1"; "::"; "2001:db8::8:800:200c:417a"; "::ffff:127.0.0.1"; "1:2:3:4:5:6:7:8";
     "01.2.3.4"; "1.2.3"; "1.2.3.256"; "1::2::3"; "12345::"]%string =
  [Some (V4 [127; 0; 0; 1]); Some (V6 [0; 0; 0; 0; 0; 0; 0; 1]); Some (V6 [0; 0; 0; 0; 0; 0; 0; 0]);
   Some (V6 [0x2001; 0xdb8; 0; 0; 8; 0x800; 0x200c; 0x417a]);
   Some (V6 [0; 0; 0; 0; 0; 0xffff; 0x7f00; 1]); Some (V6 [1; 2; 3; 4; 5; 6; 7; 8]);
   None; None; None; None; None].
Proof. vm_compute. reflexivity. Qed.
