(* ===== verification/Hls.v ===== *)
(** * The credential broker

    [crates/media/src/credential_broker.rs] and the input source of
    [process.rs]: a loopback HTTP server between an input process and the
    provider.  The process only ever sees loopback links; the broker adds the
    credentials.  For HLS the links are rows of a table of tokens, each valid
    for some time and some requests, and a manifest is rewritten so that all
    its URIs become such links.

    The URL library, SHA-256, the random tokens, the clock and the provider's
    answers are parameters.  A request of another task may use the table
    whenever its lock is free: a [Draw] holds what happens up to one insertion.
    [Result<T, ()>] is [option]. *)
From Stdlib Require Import ZArith Lia.
From stdpp Require Import base numbers option strings.
From stdpp Require Import list gmap.
From S2P Require Import Prelude Text.
Open Scope Z_scope.

(** The functions of [url::Url] that the broker calls. *)
Class Urls (Url : Type) := {
  url_parse : text -> option Url;
  url_join : Url -> text -> option Url;
  url_scheme : Url -> text;
  url_username : Url -> text;
  url_password : Url -> option text;
  url_host_str : Url -> option text;
  url_path : Url -> text;
  url_fragment : Url -> option text;
  url_as_str : Url -> text
}.

(** ** Configuration *)

(** Times are nanoseconds. *)
Definition SECOND : Z := 1000000000.

Record HlsBrokerConfig := mkHlsBrokerConfig {
  token_ttl : Z;
  max_requests_per_token : Z;
  max_response_bytes : Z;
  max_uri_bytes : Z;
  max_tokens : Z
}.

Inductive HlsBrokerConfigError :=
| ZeroTokenLifetime | ZeroTokenRequests | ZeroResponseSize | ZeroUriSize | ZeroTokens.

Definition DEFAULT_HLS_TOKEN_TTL : Z := 30 * SECOND.
Definition DEFAULT_HLS_TOKEN_REQUESTS : Z := 4.
Definition DEFAULT_HLS_MAX_RESPONSE_BYTES : Z := 16 * 1024 * 1024.
Definition DEFAULT_HLS_MAX_URI_BYTES : Z := 8 * 1024.
Definition DEFAULT_HLS_MAX_TOKENS : Z := 4096.

Definition default_hls_config : HlsBrokerConfig :=
  mkHlsBrokerConfig DEFAULT_HLS_TOKEN_TTL DEFAULT_HLS_TOKEN_REQUESTS DEFAULT_HLS_MAX_RESPONSE_BYTES
    DEFAULT_HLS_MAX_URI_BYTES DEFAULT_HLS_MAX_TOKENS.

(** [HlsBrokerConfig::new] *)
Definition hls_config_new (ttl requests response uri tokens : Z) : result HlsBrokerConfig HlsBrokerConfigError :=
  if ttl =? 0 then Err ZeroTokenLifetime
  else if requests =? 0 then Err ZeroTokenRequests
  else if response =? 0 then Err ZeroResponseSize
  else if uri =? 0 then Err ZeroUriSize
  else if tokens =? 0 then Err ZeroTokens
  else Ok (mkHlsBrokerConfig ttl requests response uri tokens).

Definition hls_validate (config : HlsBrokerConfig) : result unit HlsBrokerConfigError :=
  match hls_config_new (token_ttl config) (max_requests_per_token config) (max_response_bytes config)
          (max_uri_bytes config) (max_tokens config) with
  | Err e => Err e
  | Ok _ => Ok tt
  end.

(** ** Names *)

(** [str::rsplit_once] at a character *)
Definition rsplit_once (c : Z) (s : text) : option (text * text) :=
  match split_once c (rev s) with
  | Some (after, before) => Some (rev before, rev after)
  | None => None
  end.

(** [Path::extension] on Unix: of the last component, which is neither empty
    nor a dot, what follows its last dot, if something precedes that dot. *)
Definition path_extension (path : text) : option text :=
  file ← last (List.filter (fun part => negb (bool_decide (part = [])) && negb (bool_decide (part = str ".")))
                 (split_chars (Z.eqb 0x2f) path));
  if bool_decide (file = str "..") then None
  else
    '(before, after) ← rsplit_once 0x2e file;
    if bool_decide (before = []) then None else Some after.

Definition is_ascii_alphanumeric (c : Z) : bool :=
  is_ascii_digit c || ((65 <=? c) && (c <=? 90)) || ((97 <=? c) && (c <=? 122)).

Definition hls_resource_name (raw_uri : text) : text :=
  let path := fst (span (fun c => negb ((c =? 0x3f) || (c =? 0x23))) raw_uri) in
  match path_extension path with
  | Some extension =>
      if negb (bool_decide (extension = [])) && (utf8_len extension <=? 16) &&
         forallb is_ascii_alphanumeric (to_utf8 extension)
      then
        if bool_decide (extension = str "ts") then str "resource.ts"
        else if bool_decide (extension = str "m4s") then str "resource.m4s"
        else if bool_decide (extension = str "mp4") then str "resource.mp4"
        else if bool_decide (extension = str "key") then str "resource.key"
        else str "resource.bin"
      else str "resource.bin"
  | None => str "resource.bin"
  end.

Definition contains_traversal (value : text) : bool :=
  let lower := List.map to_ascii_lowercase value in
  contains_text (str "%2e") lower || contains_text (str "%2f") lower || contains_text (str "%5c") lower ||
  existsb (fun segment => bool_decide (List.map to_ascii_lowercase segment ∈
             [str ".."; str "%2e%2e"; str ".%2e"; str "%2e."]))
    (split_chars (fun c => (c =? 0x2f) || (c =? 0x5c)) value).

(** [constant_time_eq] *)
Definition constant_time_eq (left right : bytes) : bool :=
  fold_left (fun difference '(l, r) => Z.lor difference (Z.lxor l r)) (zip left right) 0 =? 0.

(** Three random UUIDs in their simple form. *)
Definition new_session_token (a b c : text) : text := a ++ b ++ c.

Section Hls.
Context {Url : Type} `{Urls Url}.
(** [Sha256::digest] *)
Context (digest : bytes -> bytes).

(** ** The input source of a process *)

Inductive InputSourceError := InvalidUrl | UnsupportedScheme | NotLoopback | UserInformation | Fragment.

Definition is_loopback_host (host : text) : bool :=
  let host :=
    match strip_prefix (str "[") host with
    | Some inner =>
        match strip_prefix (str "]") (rev inner) with Some inner => rev inner | None => host end
    | None => host
    end in
  eq_ignore_ascii_case host (str "localhost") ||
  match parse_ip_addr host with Some address => is_loopback address | None => false end.

Definition loopback_http (url : text) : result Url InputSourceError :=
  match url_parse url with
  | None => Err InvalidUrl
  | Some broker_url =>
      if negb (bool_decide (url_scheme broker_url = str "http")) then Err UnsupportedScheme
      else if negb (bool_decide (url_username broker_url = [])) || bool_decide (is_Some (url_password broker_url))
      then Err UserInformation
      else if bool_decide (is_Some (url_fragment broker_url)) then Err Fragment
      else
        match url_host_str broker_url with
        | None => Err NotLoopback
        | Some host => if is_loopback_host host then Ok broker_url else Err NotLoopback
        end
  end.

(** ** URLs *)

Definition validate_hls_url (url : Url) : option unit :=
  if negb (bool_decide (url_scheme url ∈ [str "http"; str "https"])) || bool_decide (is_Some (url_fragment url))
  then None else Some tt.

Definition contains_nul (value : text) : bool := existsb (Z.eqb 0) value.

Definition validated_hls_url (value : text) (max_uri_bytes : Z) : option Url :=
  if (max_uri_bytes <? utf8_len value) || contains_nul value then None
  else
    url ← url_parse value;
    _ ← validate_hls_url url;
    Some url.

Definition resolve_hls_uri (base : Url) (value : text) (max_uri_bytes : Z) : option Url :=
  if bool_decide (value = []) || (max_uri_bytes <? utf8_len value) || contains_nul value ||
     starts_with (str "//") value || contains_traversal value
  then None
  else
    url ← url_join base value;
    _ ← validate_hls_url url;
    Some url.

Definition is_manifest_url (url : Url) : bool :=
  match path_extension (url_path url) with
  | Some extension => eq_ignore_ascii_case extension (str "m3u8") || eq_ignore_ascii_case extension (str "m3u")
  | None => false
  end.

(** ** The token table *)

Inductive HlsResourceKind := Manifest | Binary.

Record HlsResourceToken := mkHlsResourceToken {
  ht_url : Url;
  ht_kind : HlsResourceKind;
  ht_expires_at : Z;
  ht_remaining_requests : Z
}.

(** The keys are digests of the tokens. *)
Abbreviation TokenTable := (gmap bytes HlsResourceToken).

Definition is_live (now : Z) (resource : HlsResourceToken) : bool :=
  (now <? ht_expires_at resource) && (0 <? ht_remaining_requests resource).

(** [tokens.retain]; the clock is read for every entry. *)
Definition retain_live (now : bytes -> Z) (tokens : TokenTable) : TokenTable :=
  filter (fun '(key, resource) => is_live (now key) resource = true) tokens.

(** The readings of the clock during one insertion. *)
Record Readings := mkReadings { rd_retain : bytes -> Z; rd_insert : Z }.

(** [insert_token]: the table and whether the token was inserted. *)
Definition insert_token (config : HlsBrokerConfig) (tokens : TokenTable) (token : text) (url : Url)
  (kind : HlsResourceKind) (clock : Readings) : TokenTable * bool :=
  let tokens := retain_live (rd_retain clock) tokens in
  if max_tokens config <=? Z.of_nat (size tokens) then (tokens, false)
  else
    (<[digest (to_utf8 token) :=
         mkHlsResourceToken url kind (rd_insert clock + token_ttl config) (max_requests_per_token config)]> tokens,
     true).

Definition use_request (resource : HlsResourceToken) : HlsResourceToken :=
  mkHlsResourceToken (ht_url resource) (ht_kind resource) (ht_expires_at resource)
    (ht_remaining_requests resource - 1).

Definition take_token (tokens : TokenTable) (token : text) (now : Z) : TokenTable * option HlsResourceToken :=
  let key := digest (to_utf8 token) in
  match tokens !! key with
  | None => (tokens, None)
  | Some resource =>
      if (ht_expires_at resource <=? now) || (ht_remaining_requests resource =? 0)
      then (delete key tokens, None)
      else (<[key := use_request resource]> tokens, Some (use_request resource))
  end.

(** The operations on the table, each under its lock. *)
Inductive TokenOp :=
| OpInsert (token : text) (url : Url) (kind : HlsResourceKind) (clock : Readings)
| OpTake (token : text) (now : Z).

Inductive TokenOutcome :=
| Inserted (done : bool)
| Taken (resource : option HlsResourceToken).

Definition token_op (config : HlsBrokerConfig) (tokens : TokenTable) (op : TokenOp) : TokenTable * TokenOutcome :=
  match op with
  | OpInsert token url kind clock =>
      let '(tokens, done) := insert_token config tokens token url kind clock in (tokens, Inserted done)
  | OpTake token now => let '(tokens, resource) := take_token tokens token now in (tokens, Taken resource)
  end.

Fixpoint token_run (config : HlsBrokerConfig) (tokens : TokenTable) (ops : list TokenOp)
  : TokenTable * list TokenOutcome :=
  match ops with
  | [] => (tokens, [])
  | op :: ops =>
      let '(tokens, outcome) := token_op config tokens op in
      let '(tokens, outcomes) := token_run config tokens ops in
      (tokens, outcome :: outcomes)
  end.

(** ** Rewriting a manifest *)

(** What one insertion of the rewriter finds: the operations of other requests
    since the last one, the new token and the clock. *)
Record Draw := mkDraw {
  dr_others : list TokenOp;
  dr_token : text;
  dr_clock : Readings
}.

(** The table and the draws made. *)
Record HlsTokens := mkHlsTokens { hs_tokens : TokenTable; hs_draws : nat }.

(** The session: its limits, its link prefix and the draws. *)
Record HlsBroker := mkHlsBroker {
  hb_config : HlsBrokerConfig;
  hb_base_url : text;
  hb_draw : nat -> Draw
}.

Definition link (broker : HlsBroker) (token name : text) : text :=
  hb_base_url broker ++ str "/" ++ token ++ str "/" ++ name.

Definition rewrite_url (broker : HlsBroker) (st : HlsTokens) (base : Url) (raw_uri : text)
  (kind : HlsResourceKind) : HlsTokens * option text :=
  let config := hb_config broker in
  match resolve_hls_uri base raw_uri (max_uri_bytes config) with
  | None => (st, None)
  | Some url =>
      let kind :=
        match kind with
        | Manifest => Manifest
        | Binary => if is_manifest_url url then Manifest else Binary
        end in
      let draw := hb_draw broker (hs_draws st) in
      let tokens := fst (token_run config (hs_tokens st) (dr_others draw)) in
      let '(tokens, done) := insert_token config tokens (dr_token draw) url kind (dr_clock draw) in
      let st := mkHlsTokens tokens (S (hs_draws st)) in
      if done : bool then
        let resource_name :=
          match kind with Manifest => str "manifest.m3u8" | Binary => hls_resource_name raw_uri end in
        (st, Some (link broker (dr_token draw) resource_name))
      else (st, None)
  end.

Definition attribute_start (before : text) : bool :=
  match last before with
  | None => true
  | Some c => (c =? 0x2c) || (c =? 0x3a)
  end.

(** The loop of [rewrite_hls_attributes] on what is left of the line; a turn
    consumes the four characters of the key at least. *)
Fixpoint attributes_from (fuel : nat) (broker : HlsBroker) (st : HlsTokens) (base : Url) (output remaining : text)
  : HlsTokens * option text :=
  match fuel with
  | O => (st, None)
  | S fuel =>
      match split_once_text (str "URI=") remaining with
      | None => (st, Some (output ++ remaining))
      | Some (before, after_key) =>
          let output := output ++ before ++ str "URI=" in
          if negb (attribute_start before) then attributes_from fuel broker st base output after_key
          else
            match after_key with
            | c :: uri_tail =>
                if c =? 0x22 then
                  match split_once 0x22 uri_tail with
                  | None => (st, None)
                  | Some (uri, rest) =>
                      match rewrite_url broker st base uri Binary with
                      | (st, None) => (st, None)
                      | (st, Some url) =>
                          attributes_from fuel broker st base (output ++ [0x22] ++ url ++ [0x22]) rest
                      end
                  end
                else (st, None)
            | [] => (st, None)
            end
      end
  end.
Definition rewrite_hls_attributes (broker : HlsBroker) (st : HlsTokens) (base : Url) (line : text)
  : HlsTokens * option text :=
  attributes_from (S (length line)) broker st base [] line.

Definition rewrite_hls_line (broker : HlsBroker) (st : HlsTokens) (base : Url) (line : text)
  : HlsTokens * option text :=
  if (max_uri_bytes (hb_config broker) <? utf8_len line) || contains_nul line then (st, None)
  else if starts_with (str "#") line then rewrite_hls_attributes broker st base line
  else if bool_decide (trim line = []) then (st, Some line)
  else if negb (bool_decide (trim line = line)) then (st, None)
  else rewrite_url broker st base line Binary.

(** The [for] loop over the lines, each written with a line feed. *)
Fixpoint rewrite_hls_lines (broker : HlsBroker) (st : HlsTokens) (base : Url) (ls : list text)
  : HlsTokens * option text :=
  match ls with
  | [] => (st, Some [])
  | line :: ls =>
      match rewrite_hls_line broker st base line with
      | (st, None) => (st, None)
      | (st, Some line) =>
          match rewrite_hls_lines broker st base ls with
          | (st, None) => (st, None)
          | (st, Some rest) => (st, Some (unline line ++ rest))
          end
      end
  end.

Definition rewrite_hls_manifest (broker : HlsBroker) (st : HlsTokens) (base : Url) (body : bytes)
  : HlsTokens * option text :=
  if max_response_bytes (hb_config broker) <? zlen body then (st, None)
  else
    match from_utf8 body with
    | None => (st, None)
    | Some manifest =>
        let manifest := default manifest (strip_prefix [0xfeff] manifest) in
        match lines manifest with
        | first :: ls =>
            if bool_decide (first = str "#EXTM3U") then
              match rewrite_hls_lines broker st base ls with
              | (st, None) => (st, None)
              | (st, Some rest) => (st, Some (unline (str "#EXTM3U") ++ rest))
              end
            else (st, None)
        | [] => (st, None)
        end
    end.

(** ** Requests *)

(** The provider's answer; a chunk is [None] when reading it failed. *)
Record UpstreamAnswer := mkUpstreamAnswer {
  up_status : Z;
  up_content_length : option Z;
  up_content_type : option text;
  up_chunks : list (option bytes)
}.

Record Response := mkResponse {
  rs_status : Z;
  rs_headers : gmap text text;
  rs_body : list (option bytes)
}.

Definition empty_response (status : Z) : Response := mkResponse status ∅ [].
Definition NOT_FOUND : Z := 404.
Definition BAD_GATEWAY : Z := 502.

Fixpoint collect_chunks (limit : Z) (buffer : bytes) (chunks : list (option bytes)) : option bytes :=
  match chunks with
  | [] => Some buffer
  | None :: _ => None
  | Some chunk :: chunks =>
      if limit <? sat_add u64_max (zlen buffer) (zlen chunk) then None
      else collect_chunks limit (buffer ++ chunk) chunks
  end.

(** [fetch_hls_resource]; no answer is a request that failed. *)
Definition fetch_hls_resource (config : HlsBrokerConfig) (answer : option UpstreamAnswer)
  : option (option text * bytes) :=
  upstream ← answer;
  if (400 <=? up_status upstream) && (up_status upstream <=? 599) then None
  else
    match up_content_length upstream with
    | Some length =>
        if max_response_bytes config <? length then None
        else bytes ← collect_chunks (max_response_bytes config) [] (up_chunks upstream);
             Some (up_content_type upstream, bytes)
    | None =>
        bytes ← collect_chunks (max_response_bytes config) [] (up_chunks upstream);
        Some (up_content_type upstream, bytes)
    end.

(** The headers of every response with a body. *)
Definition stream_headers (content_type : option text) : gmap text text :=
  let headers := <[str "x-accel-buffering" := str "no"]> {[str "cache-control" := str "no-store"]} in
  match content_type with
  | Some content_type => <[str "content-type" := content_type]> headers
  | None => headers
  end.

(** [proxy_hls_resource]; [provider] answers a request for a URL. *)
Definition proxy_hls_resource (broker : HlsBroker) (st : HlsTokens) (token : text) (now : Z)
  (provider : Url -> option UpstreamAnswer) : HlsTokens * Response :=
  match take_token (hs_tokens st) token now with
  | (tokens, None) => (mkHlsTokens tokens (hs_draws st), empty_response NOT_FOUND)
  | (tokens, Some resource) =>
      let st := mkHlsTokens tokens (hs_draws st) in
      match fetch_hls_resource (hb_config broker) (provider (ht_url resource)) with
      | None => (st, empty_response BAD_GATEWAY)
      | Some (content_type, bytes) =>
          match ht_kind resource with
          | Manifest =>
              match rewrite_hls_manifest broker st (ht_url resource) bytes with
              | (st, None) => (st, empty_response BAD_GATEWAY)
              | (st, Some manifest) =>
                  let content_type := default (str "application/vnd.apple.mpegurl") content_type in
                  (st, mkResponse 200 (stream_headers (Some content_type)) [Some (to_utf8 manifest)])
              end
          | Binary => (st, mkResponse 200 (stream_headers content_type) [Some bytes])
          end
      end
  end.

(** [proxy_session]: the link of a direct stream. *)
Definition proxy_session (token_hash : bytes) (token : text) (answer : option UpstreamAnswer) : Response :=
  if negb (constant_time_eq (digest (to_utf8 token)) token_hash) then empty_response NOT_FOUND
  else
    match answer with
    | None => empty_response BAD_GATEWAY
    | Some upstream =>
        if negb ((200 <=? up_status upstream) && (up_status upstream <=? 299)) then empty_response BAD_GATEWAY
        else mkResponse 200 (stream_headers (up_content_type upstream)) (up_chunks upstream)
    end.

(** ** Starting *)

Inductive CredentialBrokerError :=
| BindError
| InputSourceFailed (e : InputSourceError)
| InvalidHlsEndpoint
| HlsConfigError (e : HlsBrokerConfigError)
| TaskStopped.

(** [start]: the digest of the session token and the input of the process;
    [address] is the bound address, if binding worked. *)
Definition start_broker (address : option text) (token : text) : result (bytes * Url) CredentialBrokerError :=
  match address with
  | None => Err BindError
  | Some address =>
      match loopback_http (str "http://" ++ address ++ str "/session/" ++ token) with
      | Err e => Err (InputSourceFailed e)
      | Ok input_source => Ok (digest (to_utf8 token), input_source)
      end
  end.

(** [start_hls]: the broker with the token of its manifest, and the input. *)
Definition start_hls (config : HlsBrokerConfig) (endpoint_url : text) (address : option text)
  (session_token : text) (clock : Readings) (draws : nat -> Draw)
  : result (HlsBroker * HlsTokens * Url) CredentialBrokerError :=
  match hls_validate config with
  | Err e => Err (HlsConfigError e)
  | Ok _ =>
      match validated_hls_url endpoint_url (max_uri_bytes config) with
      | None => Err InvalidHlsEndpoint
      | Some manifest_url =>
          match address with
          | None => Err BindError
          | Some address =>
              let base_url := str "http://" ++ address ++ str "/hls" in
              match insert_token config ∅ session_token manifest_url Manifest clock with
              | (_, false) => Err InvalidHlsEndpoint
              | (tokens, true) =>
                  match loopback_http (base_url ++ str "/" ++ session_token ++ str "/manifest.m3u8") with
                  | Err e => Err (InputSourceFailed e)
                  | Ok input_source =>
                      Ok (mkHlsBroker config base_url draws, mkHlsTokens tokens 0, input_source)
                  end
              end
          end
      end
  end.
End Hls.

Arguments HlsResourceToken : clear implicits.
Arguments TokenOp : clear implicits.
Arguments TokenOutcome : clear implicits.
Arguments Draw : clear implicits.
Arguments HlsTokens : clear implicits.
Arguments HlsBroker : clear implicits.
