(* ===== verification/HlsSpec.v ===== *)
(** * What the credential broker guarantees

    The token table behaves like a list of grants that never forgets, a link
    serves exactly the requests it was issued for, and a rewritten manifest
    contains no URI but links to the resources of the original. *)
From Stdlib Require Import ZArith Lia.
From stdpp Require Import base numbers option strings.
From stdpp Require Import list sorting gmap fin_maps.
From S2P Require Import Prelude Text Hls.
Open Scope Z_scope.

(** ** The session token *)

Lemma difference_zero l r d :
  length l = length r ->
  fold_left (fun difference '(l, r) => Z.lor difference (Z.lxor l r)) (zip l r) d = 0 <-> d = 0 /\ l = r.
Proof.
  revert r d. induction l as [|x l IH]; intros [|y r] d Hlen; cbn in *; try lia; [intuition|].
  rewrite IH by lia. rewrite Z.lor_eq_0_iff, Z.lxor_eq_0_iff.
  split; [by intros [[-> ->] ->]|]. intros [-> [= -> ->]]. done.
Qed.

(** Comparing without an early exit is comparing. *)
Lemma constant_time_eq_spec l r : length l = length r -> constant_time_eq l r = true <-> l = r.
Proof. intros Hlen. unfold constant_time_eq. rewrite Z.eqb_eq, difference_zero by done. intuition. Qed.

Section HlsSpec.
Context {Url : Type} `{Urls Url} (digest : bytes -> bytes).
Abbreviation TokenTable := (gmap bytes (HlsResourceToken Url)).
Abbreviation token_run := (@Hls.token_run Url digest).
Abbreviation token_op := (@Hls.token_op Url digest).

(** ** The abstract table

    Grants are recorded and never removed: whether a request is served is
    decided by the grant alone. *)

Definition grant_op (config : HlsBrokerConfig) (grants : TokenTable) (op : TokenOp Url)
  : TokenTable * TokenOutcome Url :=
  match op with
  | OpInsert token url kind clock =>
      if max_tokens config <=? Z.of_nat (size (retain_live (rd_retain clock) grants)) then (grants, Inserted false)
      else
        (<[digest (to_utf8 token) :=
             mkHlsResourceToken url kind (rd_insert clock + token_ttl config) (max_requests_per_token config)]> grants,
         Inserted true)
  | OpTake token now =>
      let key := digest (to_utf8 token) in
      match grants !! key with
      | Some resource =>
          if is_live now resource then (<[key := use_request resource]> grants, Taken (Some (use_request resource)))
          else (grants, Taken None)
      | None => (grants, Taken None)
      end
  end.

Fixpoint grant_run (config : HlsBrokerConfig) (grants : TokenTable) (ops : list (TokenOp Url))
  : TokenTable * list (TokenOutcome Url) :=
  match ops with
  | [] => (grants, [])
  | op :: ops =>
      let '(grants, outcome) := grant_op config grants op in
      let '(grants, outcomes) := grant_run config grants ops in
      (grants, outcome :: outcomes)
  end.

(** The clock does not go back: [op_after t op] when the readings of [op] are
    not before [t], and [op_end op] is its last reading. *)
Definition op_after (t : Z) (op : TokenOp Url) : Prop :=
  match op with
  | OpInsert _ _ _ clock => forall key, t <= rd_retain clock key <= rd_insert clock
  | OpTake _ now => t <= now
  end.
Definition op_end (op : TokenOp Url) : Z :=
  match op with OpInsert _ _ _ clock => rd_insert clock | OpTake _ now => now end.
Fixpoint clock_ok (t : Z) (ops : list (TokenOp Url)) : Prop :=
  match ops with
  | [] => True
  | op :: ops => op_after t op /\ clock_ok (op_end op) ops
  end.
Fixpoint clock_end (t : Z) (ops : list (TokenOp Url)) : Z :=
  match ops with [] => t | op :: ops => clock_end (op_end op) ops end.

Lemma clock_ok_app t ops1 ops2 : clock_ok t (ops1 ++ ops2) <-> clock_ok t ops1 /\ clock_ok (clock_end t ops1) ops2.
Proof. revert t. induction ops1 as [|op ops1 IH]; intros t; cbn; [intuition|]. rewrite IH. intuition. Qed.

(** ** The table implements the abstract one *)

(** The table lacks only grants that are dead at time [t]. *)
Definition table_rel (t : Z) (tokens grants : TokenTable) : Prop :=
  map_Forall (fun _ resource => 0 <= ht_remaining_requests resource) grants /\
  forall key, tokens !! key = grants !! key \/
              (tokens !! key = None /\ exists resource, grants !! key = Some resource /\ is_live t resource = false).

Lemma is_live_later t t' (resource : HlsResourceToken Url) : t <= t' -> is_live t resource = false -> is_live t' resource = false.
Proof. unfold is_live. lia. Qed.

Lemma lookup_retain (now : bytes -> Z) (tokens : TokenTable) (key : bytes) :
  retain_live now tokens !! key = (resource ← tokens !! key; if is_live (now key) resource then Some resource else None).
Proof.
  unfold retain_live. rewrite map_lookup_filter. destruct (tokens !! key) as [resource|]; [|done]. cbn.
  destruct (is_live (now key) resource) eqn:E.
  - by rewrite option_guard_True.
  - rewrite option_guard_False; [done|]. congruence.
Qed.

Lemma retain_same t (now : bytes -> Z) tokens grants :
  table_rel t tokens grants -> (forall key, t <= now key) -> retain_live now tokens = retain_live now grants.
Proof.
  intros [_ Hr] Hnow. apply map_eq. intros key. rewrite !lookup_retain.
  destruct (Hr key) as [-> | (-> & resource & -> & Hdead)]; [done|]. cbn.
  by rewrite (is_live_later t).
Qed.

Lemma table_rel_later t t' tokens grants : t <= t' -> table_rel t tokens grants -> table_rel t' tokens grants.
Proof.
  intros Ht [Hn Hr]. split; [done|]. intros key. destruct (Hr key) as [? | (? & resource & ? & ?)]; [by left|].
  right. eauto using is_live_later.
Qed.

Lemma table_rel_insert t tokens grants key resource :
  0 <= ht_remaining_requests resource -> table_rel t tokens grants ->
  table_rel t (<[key := resource]> tokens) (<[key := resource]> grants).
Proof.
  intros H0 [Hn Hr]. split; [by apply map_Forall_insert_2|]. intros key'.
  destruct (decide (key = key')) as [<- | Hne].
  - left. by rewrite !lookup_insert_eq.
  - rewrite !lookup_insert_ne by done. apply Hr.
Qed.

Lemma table_rel_retain t t' (now : bytes -> Z) tokens grants :
  (forall key, t <= now key <= t') -> table_rel t tokens grants -> table_rel t' (retain_live now tokens) grants.
Proof.
  intros Hnow Hrel. rewrite (retain_same t now tokens grants) by (done || intros key; apply Hnow).
  split; [apply Hrel|]. intros key. rewrite lookup_retain. destruct (grants !! key) as [resource|]; [|by left].
  cbn. destruct (is_live (now key) resource) eqn:E; [by left|]. right. split; [done|].
  exists resource. split; [done|]. eapply is_live_later; [|exact E]. apply Hnow.
Qed.

(** One operation. *)
Lemma token_op_rel config t tokens grants op :
  0 <= max_requests_per_token config -> op_after t op -> table_rel t tokens grants ->
  snd (token_op config tokens op) = snd (grant_op config grants op) /\
  table_rel (op_end op) (fst (token_op config tokens op)) (fst (grant_op config grants op)).
Proof.
  intros Hmax Hop Hrel. destruct op as [token url kind clock | token now]; cbn in *.
  - unfold insert_token. rewrite (retain_same t _ tokens grants) by (done || intros key; apply Hop).
    assert (table_rel (rd_insert clock) (retain_live (rd_retain clock) grants) grants) as Hkeep.
    { rewrite <- (retain_same t _ tokens grants) by (done || intros key; apply Hop). by eapply table_rel_retain. }
    destruct (_ <=? _); cbn; [done|]. split; [done|]. by apply table_rel_insert.
  - unfold take_token. destruct Hrel as [Hn Hr].
    assert (table_rel now tokens grants) as Hrel by (eapply table_rel_later; [|split]; done).
    destruct (Hr (digest (to_utf8 token))) as [E | (-> & resource & -> & Hdead)].
    + rewrite E. destruct (grants !! _) as [resource|] eqn:Eg; [|done]. specialize (Hn _ _ Eg). cbn in Hn.
      unfold is_live. destruct (_ || _) eqn:Et; cbn.
      * rewrite (proj2 (andb_false_iff _ _)) by lia. cbn. split; [done|]. split; [by destruct Hrel|].
        intros key. destruct (decide (digest (to_utf8 token) = key)) as [<- | Hne].
        -- right. rewrite lookup_delete_eq. split; [done|]. exists resource. split; [done|]. unfold is_live. lia.
        -- rewrite lookup_delete_ne by done. apply Hrel.
      * rewrite (proj2 (andb_true_iff _ _)) by lia. cbn. split; [done|].
        apply table_rel_insert; [cbn; lia|done].
    + rewrite (is_live_later t) by done. done.
Qed.

Lemma token_run_rel config t tokens grants ops :
  0 <= max_requests_per_token config -> clock_ok t ops -> table_rel t tokens grants ->
  snd (token_run config tokens ops) = snd (grant_run config grants ops) /\
  table_rel (clock_end t ops) (fst (token_run config tokens ops)) (fst (grant_run config grants ops)).
Proof.
  intros Hmax. revert t tokens grants. induction ops as [|op ops IH]; intros t tokens grants Hclock Hrel; cbn; [done|].
  destruct Hclock as [Hop Hclock]. destruct (token_op_rel config t tokens grants op Hmax Hop Hrel) as [Hout Hrel'].
  destruct (token_op config tokens op) as [tokens' outcome],
           (grant_op config grants op) as [grants' outcome']. cbn in *.
  destruct (IH _ _ _ Hclock Hrel') as [Houts Hrel'']. destruct (token_run config tokens' ops),
    (grant_run config grants' ops). cbn in *. by subst.
Qed.

Lemma table_rel_empty t : table_rel t ∅ ∅.
Proof. split; [apply map_Forall_empty|]. intros key. by left. Qed.

Lemma size_retain (now : bytes -> Z) (tokens : TokenTable) : (size (retain_live now tokens) <= size tokens)%nat.
Proof. apply map_subseteq_size, map_filter_subseteq. Qed.

Lemma token_op_size config tokens op :
  Z.of_nat (size tokens) <= max_tokens config -> Z.of_nat (size (fst (token_op config tokens op))) <= max_tokens config.
Proof.
  intros Hs. destruct op as [token url kind clock | token now]; cbn.
  - unfold insert_token. pose proof (size_retain (rd_retain clock) tokens).
    destruct (Z.leb_spec (max_tokens config) (Z.of_nat (size (retain_live (rd_retain clock) tokens)))); cbn; [lia|].
    rewrite map_size_insert. destruct (_ !! _); cbn; lia.
  - unfold take_token. destruct (tokens !! _) eqn:E; [|done]. destruct (_ || _); cbn.
    + rewrite map_size_delete. rewrite E. cbn. lia.
    + rewrite map_size_insert. by rewrite E.
Qed.

Lemma token_run_size config tokens ops :
  Z.of_nat (size tokens) <= max_tokens config -> Z.of_nat (size (fst (token_run config tokens ops))) <= max_tokens config.
Proof.
  revert tokens. induction ops as [|op ops IH]; intros tokens Hs; cbn; [done|].
  pose proof (token_op_size config tokens op Hs). destruct (token_op config tokens op) as [tokens' outcome].
  specialize (IH tokens'). destruct (token_run config tokens' ops). auto.
Qed.

(** C34. Expired and used-up tokens are dropped from the table at any time, and no
    request can tell: whatever the operations of the concurrent requests, their
    outcomes are those of a table that never drops a grant, in which the
    capacity counts the live grants; and the table stays within its limit. *)
Theorem token_table_refines config ops t :
  0 <= max_requests_per_token config -> 0 <= max_tokens config -> clock_ok t ops ->
  snd (token_run config ∅ ops) = snd (grant_run config ∅ ops) /\
  Z.of_nat (size (fst (token_run config ∅ ops))) <= max_tokens config.
Proof.
  intros Hmax Hlimit Hclock. split.
  - by apply (token_run_rel config t); [..|apply table_rel_empty].
  - by apply token_run_size.
Qed.

(** ** One link *)

Definition is_take (key : bytes) (op : TokenOp Url) : bool :=
  match op with OpTake token _ => bool_decide (digest (to_utf8 token) = key) | _ => false end.
Definition is_insert (key : bytes) (op : TokenOp Url) : bool :=
  match op with OpInsert token _ _ _ => bool_decide (digest (to_utf8 token) = key) | _ => false end.

(** The times of the requests for a key, and what they were given. *)
Definition take_times (key : bytes) (ops : list (TokenOp Url)) : list Z :=
  List.map op_end (List.filter (is_take key) ops).
Definition answer_of (outcome : TokenOutcome Url) : option (Url * HlsResourceKind) :=
  match outcome with
  | Taken (Some resource) => Some (ht_url resource, ht_kind resource)
  | _ => None
  end.
Definition served (key : bytes) (ops : list (TokenOp Url)) (outcomes : list (TokenOutcome Url))
  : list (option (Url * HlsResourceKind)) :=
  List.map (fun oo => answer_of (snd oo)) (List.filter (fun oo => is_take key (fst oo)) (zip ops outcomes)).

(** What one grant gives to requests at these times. *)
Fixpoint serve (resource : HlsResourceToken Url) (nows : list Z) : list (option (Url * HlsResourceKind)) :=
  match nows with
  | [] => []
  | now :: nows =>
      if is_live now resource then Some (ht_url resource, ht_kind resource) :: serve (use_request resource) nows
      else None :: serve resource nows
  end.

Lemma grant_op_other (config : HlsBrokerConfig) (grants : TokenTable) op key :
  is_take key op = false -> is_insert key op = false -> fst (grant_op config grants op) !! key = grants !! key.
Proof.
  destruct op as [token url kind clock | token now]; cbn; intros Ht Hi.
  - apply bool_decide_eq_false in Hi. destruct (_ <=? _); cbn; [done|]. by rewrite lookup_insert_ne.
  - apply bool_decide_eq_false in Ht. destruct (grants !! digest _); [|done]. destruct (is_live _ _); cbn; [|done].
    by rewrite lookup_insert_ne.
Qed.

Lemma grant_served (config : HlsBrokerConfig) (key : bytes) (grants : TokenTable) resource ops :
  grants !! key = Some resource -> Forall (fun op => is_insert key op = false) ops ->
  served key ops (snd (grant_run config grants ops)) = serve resource (take_times key ops).
Proof.
  revert grants resource. induction ops as [|op ops IH]; intros grants resource Hk Hins; [done|].
  apply Forall_cons in Hins as [Hi Hins]. cbn [grant_run].
  destruct (grant_op config grants op) as [grants' outcome] eqn:E.
  destruct (grant_run config grants' ops) as [grants'' outcomes] eqn:E'. cbn [snd].
  unfold served, take_times in *. cbn [zip zip_with List.filter fst].
  specialize (IH grants'). rewrite E' in IH. cbn [snd] in IH.
  destruct (is_take key op) eqn:Et; cbn [List.map snd].
  - destruct op as [|token now]; [done|]. cbn in *. apply bool_decide_eq_true in Et. subst key. rewrite Hk in E.
    destruct (is_live now resource); injection E as <- <-; cbn [answer_of serve]; f_equal.
    + apply IH; [|done]. by rewrite lookup_insert_eq.
    + by apply IH.
  - apply IH; [|done]. replace grants' with (fst (grant_op config grants op)) by (by rewrite E).
    by rewrite grant_op_other.
Qed.

Lemma take_times_sorted key t ops : clock_ok t ops -> StronglySorted Z.le (t :: take_times key ops).
Proof.
  revert t. induction ops as [|op ops IH]; intros t; cbn; [by repeat constructor|].
  intros [Hop Hclock]. specialize (IH _ Hclock).
  assert (t <= op_end op) as Ht.
  { destruct op as [???clock|]; cbn in *; [|done]. specialize (Hop []). lia. }
  unfold take_times in *. cbn. destruct (is_take key op); cbn.
  - constructor; [done|]. apply StronglySorted_inv in IH as [? Hall]. constructor; [done|].
    eapply Forall_impl; [exact Hall|]. cbn. lia.
  - apply StronglySorted_inv in IH as [? Hall]. constructor; [done|]. eapply Forall_impl; [exact Hall|]. cbn. lia.
Qed.

(** The answer to request number [i], made at time [now]. *)
Definition serves_until (url : Url) (kind : HlsResourceKind) (expires limit : Z) (i : nat) (now : Z)
  : option (Url * HlsResourceKind) :=
  if (now <? expires) && (Z.of_nat i <? limit) then Some (url, kind) else None.

Lemma serve_closed resource limit i t nows :
  ht_remaining_requests resource = Z.max 0 (limit - Z.of_nat i) \/ ht_expires_at resource <= t ->
  StronglySorted Z.le (t :: nows) ->
  serve resource nows =
  imap (fun j => serves_until (ht_url resource) (ht_kind resource) (ht_expires_at resource) limit (i + j)) nows.
Proof.
  revert resource i t. induction nows as [|now nows IH]; intros resource i t Hrem Hs; [done|].
  apply StronglySorted_inv in Hs as [Hs Hall]. apply Forall_cons in Hall as [Ht _]. cbn [serve imap].
  unfold serves_until at 1. rewrite Nat.add_0_r. unfold is_live.
  assert (forall r, ht_url r = ht_url resource -> ht_kind r = ht_kind resource ->
    ht_expires_at r = ht_expires_at resource ->
    ht_remaining_requests r = Z.max 0 (limit - Z.of_nat (S i)) \/ ht_expires_at r <= now ->
    serve r nows =
    imap ((fun j => serves_until (ht_url resource) (ht_kind resource) (ht_expires_at resource) limit (i + j)) ∘ S)
      nows) as Hnext.
  { intros r Hu Hk He Hr. rewrite (IH r (S i) now Hr Hs). apply imap_ext. intros j x _. cbn.
    rewrite Nat.add_succ_r. by rewrite Hu, Hk, He. }
  destruct (Z.ltb_spec now (ht_expires_at resource)); cbn [andb].
  - destruct (Z.ltb_spec 0 (ht_remaining_requests resource)).
    + rewrite (proj2 (Z.ltb_lt _ _)) by lia. f_equal. apply Hnext; try done. left. cbn. lia.
    + rewrite (proj2 (Z.ltb_ge _ _)) by lia. f_equal. apply Hnext; try done. left. lia.
  - f_equal. apply Hnext; try done. by right.
Qed.

(** A link that was issued serves exactly what it was issued for.  Whatever
    else the concurrent requests do with the table, as long as the key is not
    issued again: the first [max_requests_per_token] requests within the
    lifetime get the URL and the kind of the link, and all others nothing. *)
Theorem link_serves config t ops_before token url kind clock ops :
  let key := digest (to_utf8 token) in
  let op := OpInsert token url kind clock in
  let before := fst (token_run config ∅ ops_before) in
  0 <= max_requests_per_token config ->
  clock_ok t (ops_before ++ op :: ops) ->
  snd (token_op config before op) = Inserted true ->
  Forall (fun op => is_insert key op = false) ops ->
  served key ops (snd (token_run config (fst (token_op config before op)) ops)) =
  imap (serves_until url kind (rd_insert clock + token_ttl config) (max_requests_per_token config))
    (take_times key ops).
Proof.
  intros key op before Hmax [Hbefore [Hop Hclock]]%clock_ok_app Hins Hnew.
  destruct (token_run_rel config t ∅ ∅ ops_before Hmax Hbefore (table_rel_empty t)) as [_ Hrel].
  destruct (token_op_rel config _ _ _ op Hmax Hop Hrel) as [Hout Hrel'].
  destruct (token_run_rel config _ _ _ ops Hmax Hclock Hrel') as [Hrun _]. subst before. rewrite Hrun.
  rewrite Hins in Hout. cbn in Hout |- *. destruct (_ <=? _); [done|]. cbn.
  erewrite grant_served; [|apply lookup_insert_eq|done].
  rewrite (serve_closed _ (max_requests_per_token config) 0 (rd_insert clock)).
  - done.
  - left. cbn. lia.
  - by apply take_times_sorted.
Qed.
End HlsSpec.
