(* ===== verification/HlsManifest.v ===== *)
(** * Rewritten manifests

    A manifest that the broker rewrote has the lines of the original, with
    every URI replaced by a link that was granted for it. *)
From Stdlib Require Import ZArith Lia.
From stdpp Require Import base numbers option strings.
From stdpp Require Import list gmap fin_maps.
From S2P Require Import Prelude Text Hls.
Open Scope Z_scope.

(** ** Occurrences of a key *)

Abbreviation uri_key := (str "URI=").

(** The key does not overlap itself. *)
Lemma uri_key_overlap d s b :
  uri_key ++ s = d ++ uri_key ++ b -> d = [] \/ exists d', d = uri_key ++ d' /\ s = d' ++ uri_key ++ b.
Proof.
  intros Hs. destruct d as [|d1 [|d2 [|d3 [|d4 d]]]]; [by left|try discriminate..].
  right. cbn in Hs. injection Hs as <- <- <- <- Hs. exists d. done.
Qed.

Lemma quote_not_key : 0x22 ∉ uri_key.
Proof. apply (bool_decide_unpack (0x22 ∉ [85; 82; 73; 61])). done. Qed.

(** Where an occurrence is, when the first one is after [before]. *)
Lemma uri_key_position before after s a b :
  split_once_text uri_key (before ++ uri_key ++ after) = Some (before, after) ->
  before ++ uri_key ++ s = a ++ uri_key ++ b ->
  a = before \/ exists a', a = before ++ uri_key ++ a' /\ s = a' ++ uri_key ++ b.
Proof.
  intros Hfirst Hs. apply app_eq_app in Hs as (d & [[-> Hs] | [-> Hs]]).
  - apply uri_key_overlap in Hs as [-> | (d' & -> & _)]; [left; by rewrite app_nil_r|].
    exfalso. pose proof (split_once_text_first _ _ _ _ a (d' ++ uri_key ++ after) Hfirst) as Hlen.
    rewrite !length_app in Hlen. cbn in Hlen. specialize (Hlen ltac:(by rewrite <- !app_assoc)). lia.
  - apply uri_key_overlap in Hs as [-> | (d' & -> & Hs)]; [left; by rewrite app_nil_r|]. right. by exists d'.
Qed.

(** No occurrence of the key contains a character that the key lacks. *)
Lemma uri_key_around c x s a b :
  c ∉ uri_key -> ~ (exists u v, x = u ++ uri_key ++ v) -> x ++ c :: s = a ++ uri_key ++ b ->
  exists a', a = x ++ c :: a' /\ s = a' ++ uri_key ++ b.
Proof.
  intros Hc Hx Hs. apply app_eq_app in Hs as (d & [[-> Hs] | [-> Hs]]).
  - exfalso. apply app_eq_app in Hs as (e & [[Hd Hs] | [Hd Hs]]).
    + destruct e as [|c' e]; cbn in Hs.
      * rewrite app_nil_r in Hd. subst d. apply Hx. exists a, []. by rewrite app_nil_r.
      * injection Hs as <- _. apply Hc. rewrite Hd. set_solver.
    + apply Hx. exists a, e. by rewrite Hd.
  - destruct d as [|c' d]; cbn in Hs.
    + exfalso. injection Hs as -> _. apply Hc. apply elem_of_cons. by left.
    + injection Hs as <- Hs. exists d. done.
Qed.

(** ** Grants *)

Section Manifest.
Context {Url : Type} `{Urls Url} (digest : bytes -> bytes).
Context (broker : HlsBroker Url).
Abbreviation TokenTable := (gmap bytes (HlsResourceToken Url)).
Abbreviation token_run := (@Hls.token_run Url digest (hb_config broker)).

Lemma token_run_app (tokens : TokenTable) ops1 ops2 :
  token_run tokens (ops1 ++ ops2) =
  (fst (token_run (fst (token_run tokens ops1)) ops2),
   snd (token_run tokens ops1) ++ snd (token_run (fst (token_run tokens ops1)) ops2)).
Proof.
  revert tokens. induction ops1 as [|op ops1 IH]; intros tokens; cbn; [by destruct (token_run tokens ops2)|].
  destruct (token_op digest (hb_config broker) tokens op) as [tokens' outcome]. rewrite IH.
  by destruct (token_run tokens' ops1).
Qed.

Lemma token_run_length (tokens : TokenTable) ops : length (snd (token_run tokens ops)) = length ops.
Proof.
  revert tokens. induction ops as [|op ops IH]; intros tokens; cbn; [done|].
  destruct (token_op digest (hb_config broker) tokens op) as [tokens' outcome].
  specialize (IH tokens'). destruct (token_run tokens' ops). cbn in *. by rewrite IH.
Qed.

(** The insertion [op] is one of [ops] and succeeded. *)
Definition Granted (tokens : TokenTable) (ops : list (TokenOp Url)) (op : TokenOp Url) : Prop :=
  (op, Inserted true) ∈ zip ops (snd (token_run tokens ops)).

Lemma zip_app_same {A B} (l1 l2 : list A) (k1 k2 : list B) :
  length l1 = length k1 -> zip (l1 ++ l2) (k1 ++ k2) = zip l1 k1 ++ zip l2 k2.
Proof. apply zip_with_app. Qed.

Lemma Granted_app (tokens : TokenTable) ops1 ops2 op :
  Granted tokens ops1 op \/ Granted (fst (token_run tokens ops1)) ops2 op -> Granted tokens (ops1 ++ ops2) op.
Proof.
  unfold Granted. rewrite token_run_app. cbn. rewrite zip_app_same by by rewrite token_run_length.
  by rewrite elem_of_app.
Qed.

(** [l] is the link granted for [uri], whose operation is in the history. *)
Definition LinkFor (tokens : TokenTable) (ops : list (TokenOp Url)) (base : Url) (uri l : text) : Prop :=
  exists n url kind name,
    resolve_hls_uri base uri (max_uri_bytes (hb_config broker)) = Some url /\
    l = link broker (dr_token (hb_draw broker n)) name /\
    Granted tokens ops (OpInsert (dr_token (hb_draw broker n)) url kind (dr_clock (hb_draw broker n))) /\
    (kind = Manifest <-> is_manifest_url url = true) /\
    name = (if is_manifest_url url then str "manifest.m3u8" else hls_resource_name uri).

Lemma LinkFor_app (tokens : TokenTable) ops1 ops2 base uri l :
  LinkFor tokens ops1 base uri l \/ LinkFor (fst (token_run tokens ops1)) ops2 base uri l ->
  LinkFor tokens (ops1 ++ ops2) base uri l.
Proof.
  intros [(n & url & kind & name & Hu & Hl & Hg & Hk) | (n & url & kind & name & Hu & Hl & Hg & Hk)];
    exists n, url, kind, name; refine (conj Hu (conj Hl (conj _ Hk))); apply Granted_app; [by left|by right].
Qed.

(** [st'] is [st] after the operations [ops]. *)
Definition Reaches (st st' : HlsTokens Url) (ops : list (TokenOp Url)) : Prop :=
  hs_tokens st' = fst (token_run (hs_tokens st) ops).

Lemma Reaches_app st1 st2 st3 ops1 ops2 :
  Reaches st1 st2 ops1 -> Reaches st2 st3 ops2 -> Reaches st1 st3 (ops1 ++ ops2).
Proof. unfold Reaches. intros H1 H2. by rewrite token_run_app, H2, H1. Qed.

Lemma rewrite_url_links st st' base uri l :
  rewrite_url digest broker st base uri Binary = (st', Some l) ->
  exists ops, Reaches st st' ops /\ LinkFor (hs_tokens st) ops base uri l.
Proof.
  unfold rewrite_url. destruct (resolve_hls_uri base uri _) as [url|] eqn:Eu; [|done].
  set (draw := hb_draw broker (hs_draws st)). set (kind := if is_manifest_url url then Manifest else Binary).
  destruct (insert_token _ _ _ _ _ _ _) as [tokens done] eqn:Ei. destruct done; [|done]. intros [= <- <-].
  set (op := OpInsert (dr_token draw) url kind (dr_clock draw)).
  assert (token_run (fst (token_run (hs_tokens st) (dr_others draw))) [op] = (tokens, [Inserted true])) as Hop.
  { cbn. by rewrite Ei. }
  exists (dr_others draw ++ [op]). split.
  - unfold Reaches. by rewrite token_run_app, Hop.
  - exists (hs_draws st), url, kind, (if is_manifest_url url then str "manifest.m3u8" else hls_resource_name uri).
    split; [done|]. split; [|split].
    + unfold kind. by destruct (is_manifest_url url).
    + apply Granted_app. right. unfold Granted. rewrite Hop. cbn. set_solver.
    + unfold kind. by destruct (is_manifest_url url).
Qed.

(** ** A line with attributes *)

(** The output of the rewriter for a tag line: what the loop does with it. *)
Inductive AttributesTo (R : text -> text -> Prop) : text -> text -> Prop :=
| At_end s : split_once_text uri_key s = None -> AttributesTo R s s
| At_skip before s s' :
    split_once_text uri_key (before ++ uri_key ++ s) = Some (before, s) -> attribute_start before = false ->
    AttributesTo R s s' -> AttributesTo R (before ++ uri_key ++ s) (before ++ uri_key ++ s')
| At_uri before u l s s' :
    split_once_text uri_key (before ++ uri_key ++ [0x22] ++ u ++ [0x22] ++ s) = Some (before, [0x22] ++ u ++ [0x22] ++ s) ->
    attribute_start before = true -> 0x22 ∉ u -> R u l -> AttributesTo R s s' ->
    AttributesTo R (before ++ uri_key ++ [0x22] ++ u ++ [0x22] ++ s) (before ++ uri_key ++ [0x22] ++ l ++ [0x22] ++ s').

Lemma AttributesTo_mono (R R' : text -> text -> Prop) s s' :
  (forall u l, R u l -> R' u l) -> AttributesTo R s s' -> AttributesTo R' s s'.
Proof. intros HR. induction 1; [by apply At_end|by apply At_skip|apply At_uri; auto]. Qed.

Lemma attributes_from_spec fuel st base output remaining st' out :
  attributes_from digest fuel broker st base output remaining = (st', Some out) ->
  exists ops out', Reaches st st' ops /\ out = output ++ out' /\
    AttributesTo (LinkFor (hs_tokens st) ops base) remaining out'.
Proof.
  revert st output remaining. induction fuel as [|fuel IH]; intros st output remaining; cbn [attributes_from]; [done|].
  destruct (split_once_text uri_key remaining) as [[before after]|] eqn:E.
  2:{ intros [= <- <-]. exists [], remaining. split_and!; [done|done|]. by constructor. }
  pose proof (split_once_text_Some _ _ _ _ E) as ->. destruct (attribute_start before) eqn:Es; cbn [negb].
  - destruct after as [|c tail]; [done|]. destruct (Z.eqb_spec c 0x22) as [-> | _]; [|done].
    destruct (split_once 0x22 tail) as [[u rest]|] eqn:Eq; [|done].
    apply split_once_Some in Eq as [-> Hu].
    destruct (rewrite_url digest broker st base u Binary) as [st1 [l|]] eqn:Er; [|done].
    intros (ops & out' & Hr & -> & Hto)%IH. apply rewrite_url_links in Er as (ops1 & Hr1 & Hl).
    exists (ops1 ++ ops), (before ++ uri_key ++ [0x22] ++ l ++ [0x22] ++ out'). split_and!.
    + by eapply Reaches_app.
    + by rewrite <- !app_assoc.
    + apply At_uri; [done|done|done| |].
      * apply LinkFor_app. by left.
      * eapply AttributesTo_mono; [|exact Hto]. intros u' l' Hl'. apply LinkFor_app. right. by rewrite <- Hr1.
  - intros (ops & out' & Hr & -> & Hto)%IH. exists ops, (before ++ uri_key ++ out'). split_and!; [done| |].
    + by rewrite <- !app_assoc.
    + by apply At_skip.
Qed.

(** [i] and [o] differ in the URIs of attributes only. *)
Inductive SameBut (R : text -> text -> Prop) : text -> text -> Prop :=
| Same_end s : SameBut R s s
| Same_uri before u l s s' :
    R u l -> SameBut R s s' ->
    SameBut R (before ++ uri_key ++ [0x22] ++ u ++ [0x22] ++ s) (before ++ uri_key ++ [0x22] ++ l ++ [0x22] ++ s').

Lemma SameBut_prefix R a s s' : SameBut R s s' -> SameBut R (a ++ s) (a ++ s').
Proof. intros [|before u l s1 s1' HR Hs]; [constructor|]. rewrite !(app_assoc a before). by constructor. Qed.

Lemma AttributesTo_same R s s' : AttributesTo R s s' -> SameBut R s s'.
Proof.
  induction 1 as [|before s s' ? ? ? IH|]; [constructor| |by constructor].
  do 2 apply SameBut_prefix. done.
Qed.

(** A URI attribute: the key at the start of an attribute. *)
Definition AllLinks (R : text -> text -> Prop) (o : text) : Prop :=
  forall a b, o = a ++ uri_key ++ b -> last a = Some 0x2c \/ last a = Some 0x3a ->
  exists u l b', R u l /\ b = [0x22] ++ l ++ [0x22] ++ b'.

Lemma last_mid {A} (x : list A) c y : last (x ++ c :: y) = Some (default c (last y)).
Proof.
  destruct (decide (y = [])) as [-> | Hy]; [by rewrite last_snoc|].
  destruct (exists_last Hy) as (y' & z & ->). rewrite last_snoc. cbn.
  by rewrite app_comm_cons, app_assoc, last_snoc.
Qed.

(** What ends an attribute ends what follows a character that does not. *)
Lemma last_separator (x : text) c y :
  c <> 0x2c -> c <> 0x3a -> last (x ++ c :: y) = Some 0x2c \/ last (x ++ c :: y) = Some 0x3a ->
  last y = Some 0x2c \/ last y = Some 0x3a.
Proof. rewrite last_mid. destruct (last y) as [z|]; cbn; [done|]. intros ? ? [[=] | [=]]; done. Qed.

Lemma AttributesTo_links (R : text -> text -> Prop) s o :
  (forall u l, R u l -> ~ (exists x y, l = x ++ uri_key ++ y)) -> AttributesTo R s o -> AllLinks R o.
Proof.
  intros Hclean. induction 1 as [s Hnone | before s s' Hfirst Hskip Hto IH | before u l s s' Hfirst Hat Hu HR Hto IH];
    intros a b Ho Hlast.
  - by apply (split_once_text_None _ _ Hnone) in Ho.
  - destruct (uri_key_position _ _ _ _ _ Hfirst Ho) as [-> | (a' & -> & Hs)].
    + unfold attribute_start in Hskip. destruct Hlast as [E | E]; rewrite E in Hskip; done.
    + apply (IH a' b Hs). apply (last_separator (before ++ str "URI") 0x3d); [done..|]. by rewrite <- app_assoc.
  - destruct (uri_key_position _ _ _ _ _ Hfirst Ho) as [-> | (a' & -> & Hs)].
    + apply app_inv_head, app_inv_head in Ho. by exists u, l, s'.
    + change ([0x22] ++ l ++ [0x22] ++ s') with ([] ++ 0x22 :: (l ++ 0x22 :: s')) in Hs.
      apply uri_key_around in Hs as (a1 & -> & Hs); [|apply quote_not_key|by intros ([] & ? & ?)].
      apply uri_key_around in Hs as (a2 & -> & Hs); [|apply quote_not_key|by apply (Hclean u)].
      apply (IH a2 b Hs). apply (last_separator (before ++ uri_key ++ 0x22 :: l) 0x22); [done..|].
      by rewrite <- !app_assoc.
Qed.

(** ** The manifest *)

(** The prefix and the tokens of the links have no capital [U]: the prefix is
    [http://], an address and [/hls], a token is three UUIDs in lower case. *)
Definition clean_links : Prop :=
  85 ∉ hb_base_url broker /\ forall n, 85 ∉ dr_token (hb_draw broker n).

Lemma str_no_U s : bool_decide (85 ∈ str s) = false -> 85 ∉ str s.
Proof. apply bool_decide_eq_false. Qed.

Lemma hls_resource_name_no_U uri : 85 ∉ hls_resource_name uri.
Proof.
  unfold hls_resource_name.
  repeat case_match; apply str_no_U; done.
Qed.

Lemma LinkFor_no_key tokens ops base uri l :
  clean_links -> LinkFor tokens ops base uri l -> ~ (exists x y, l = x ++ uri_key ++ y).
Proof.
  intros [Hbase Htokens] (n & url & kind & name & _ & -> & _ & _ & ->) (x & y & Hl).
  assert (85 ∈ x ++ uri_key ++ y) as Hin by (apply elem_of_app; right; apply elem_of_cons; by left).
  rewrite <- Hl in Hin. unfold link in Hin. rewrite !elem_of_app in Hin.
  destruct Hin as [? | [H1 | [? | [H1 | H1]]]]; [done|by apply str_no_U in H1|by eapply Htokens|by apply str_no_U in H1|].
  destruct (is_manifest_url url); [by apply str_no_U in H1|by apply hls_resource_name_no_U in H1].
Qed.

(** What a line of the manifest becomes. *)
Definition LineTo (tokens : TokenTable) (ops : list (TokenOp Url)) (base : Url) (i o : text) : Prop :=
  if starts_with (str "#") i then SameBut (LinkFor tokens ops base) i o /\ AllLinks (LinkFor tokens ops base) o
  else if bool_decide (trim i = []) then o = i
  else LinkFor tokens ops base i o.

Lemma SameBut_mono (R R' : text -> text -> Prop) s s' :
  (forall u l, R u l -> R' u l) -> SameBut R s s' -> SameBut R' s s'.
Proof. intros HR. induction 1; [by apply Same_end|apply Same_uri; auto]. Qed.

Lemma LineTo_app (tokens : TokenTable) ops1 ops2 base i o :
  LineTo tokens ops1 base i o \/ LineTo (fst (token_run tokens ops1)) ops2 base i o ->
  LineTo tokens (ops1 ++ ops2) base i o.
Proof.
  unfold LineTo. pose proof (fun u l => LinkFor_app tokens ops1 ops2 base u l) as Happ.
  destruct (starts_with _ i).
  - intros [[Hs Hl] | [Hs Hl]];
      (split; [eapply SameBut_mono; [|exact Hs]; intros u l ?; apply Happ; auto|
               intros a b Ho Ha; destruct (Hl a b Ho Ha) as (u & l & b' & ? & ?); exists u, l, b'; split; [apply Happ|]; auto]).
  - destruct (bool_decide _); [tauto|apply Happ].
Qed.

Lemma rewrite_hls_line_spec st base i st' o :
  clean_links -> rewrite_hls_line digest broker st base i = (st', Some o) ->
  exists ops, Reaches st st' ops /\ LineTo (hs_tokens st) ops base i o.
Proof.
  intros Hclean. unfold rewrite_hls_line, LineTo. destruct (_ || _); [done|].
  destruct (starts_with _ i).
  - intros (ops & out & Hr & -> & Hto)%attributes_from_spec. exists ops. split; [done|]. split.
    + by apply AttributesTo_same.
    + eapply AttributesTo_links; [|exact Hto]. intros u l. by apply LinkFor_no_key.
  - case_bool_decide; [intros [= <- <-]; by exists []|].
    case_bool_decide; [|done]. intros (ops & ? & ?)%rewrite_url_links. by exists ops.
Qed.

Lemma rewrite_hls_lines_spec st base ins st' out :
  clean_links -> rewrite_hls_lines digest broker st base ins = (st', Some out) ->
  exists ops outs, Reaches st st' ops /\ out = concat (List.map unline outs) /\
    Forall2 (LineTo (hs_tokens st) ops base) ins outs.
Proof.
  intros Hclean. revert st out. induction ins as [|i ins IH]; intros st out; cbn [rewrite_hls_lines].
  - intros [= <- <-]. by exists [], [].
  - destruct (rewrite_hls_line digest broker st base i) as [st1 [o|]] eqn:Ei; [|done].
    destruct (rewrite_hls_lines digest broker st1 base ins) as [st2 [rest|]] eqn:Es; [|done].
    intros [= <- <-]. apply IH in Es as (ops & outs & Hr & -> & Hall).
    apply rewrite_hls_line_spec in Ei as (ops1 & Hr1 & Hl1); [|done].
    exists (ops1 ++ ops), (o :: outs). split_and!; [by eapply Reaches_app|done|].
    constructor; [apply LineTo_app; by left|].
    eapply Forall2_impl; [exact Hall|]. intros x y Hxy. apply LineTo_app. right. by rewrite <- Hr1.
Qed.

(** C35. A manifest that the broker hands to the process is the provider's manifest
    line by line.  A line with a URI became a link that was granted for the URL
    this URI resolves to; a blank line is unchanged; a tag line is unchanged but
    for the URIs of its attributes, and every [URI] attribute in it, wherever a
    reader finds one, is a quoted link that was granted. *)
Theorem manifest_only_links st base body st' out :
  clean_links -> rewrite_hls_manifest digest broker st base body = (st', Some out) ->
  exists ops manifest ins outs,
    hs_tokens st' = fst (token_run (hs_tokens st) ops) /\
    from_utf8 body = Some manifest /\
    lines (default manifest (strip_prefix [0xfeff] manifest)) = str "#EXTM3U" :: ins /\
    out = concat (List.map unline (str "#EXTM3U" :: outs)) /\
    Forall2 (LineTo (hs_tokens st) ops base) ins outs.
Proof.
  intros Hclean. unfold rewrite_hls_manifest. destruct (_ <? _); [done|].
  destruct (from_utf8 body) as [manifest|]; [|done]. destruct (lines _) as [|first ins] eqn:El; [done|].
  case_bool_decide as Hf; [|done]. subst first.
  destruct (rewrite_hls_lines digest broker st base ins) as [st1 [rest|]] eqn:Es; [|done].
  intros [= <- <-]. apply rewrite_hls_lines_spec in Es as (ops & outs & Hr & -> & Hall); [|done].
  by exists ops, manifest, ins, outs.
Qed.

(** ** Manifests that are rewritten *)

(** The URIs that the rewriter finds in a tag line, if they are well formed. *)
Fixpoint attribute_uris (fuel : nat) (remaining : text) : option (list text) :=
  match fuel with
  | O => None
  | S fuel =>
      match split_once_text uri_key remaining with
      | None => Some []
      | Some (before, after) =>
          if negb (attribute_start before) then attribute_uris fuel after
          else
            tail ← strip_prefix [0x22] after;
            '(uri, rest) ← split_once 0x22 tail;
            uris ← attribute_uris fuel rest;
            Some (uri :: uris)
      end
  end.

(** The URIs of a line; [None] is a line that is not accepted. *)
Definition line_uris (line : text) : option (list text) :=
  if (max_uri_bytes (hb_config broker) <? utf8_len line) || contains_nul line then None
  else if starts_with (str "#") line then attribute_uris (S (length line)) line
  else if bool_decide (trim line = []) then Some []
  else if bool_decide (trim line = line) then Some [line] else None.

(** There is room in the table for [n] links, whatever the other requests
    insert before them. *)
Fixpoint draws_cost (first n : nat) : Z :=
  match n with
  | O => 0
  | S n => zlen (dr_others (hb_draw broker first)) + 1 + draws_cost (S first) n
  end.
Definition room (st : HlsTokens Url) (n : nat) : Prop :=
  Z.of_nat (size (hs_tokens st)) + draws_cost (hs_draws st) n <= max_tokens (hb_config broker).

Lemma token_op_grows (tokens : TokenTable) op :
  (size (fst (token_op digest (hb_config broker) tokens op)) <= S (size tokens))%nat.
Proof.
  destruct op as [token url kind clock | token now]; cbn.
  - unfold insert_token. assert (size (retain_live (rd_retain clock) tokens) <= size tokens)%nat
      by (apply map_subseteq_size, map_filter_subseteq).
    destruct (_ <=? _); cbn; [lia|]. rewrite map_size_insert. destruct (_ !! _); cbn; lia.
  - unfold take_token. destruct (tokens !! _) eqn:E; [|cbn; lia]. destruct (_ || _); cbn.
    + rewrite map_size_delete, E. cbn. lia.
    + rewrite map_size_insert, E. cbn. lia.
Qed.

Lemma token_run_grows (tokens : TokenTable) ops :
  Z.of_nat (size (fst (token_run tokens ops))) <= Z.of_nat (size tokens) + zlen ops.
Proof.
  revert tokens. induction ops as [|op ops IH]; intros tokens; cbn; [zlia|].
  pose proof (token_op_grows tokens op). destruct (token_op digest _ tokens op) as [tokens' outcome].
  specialize (IH tokens'). destruct (token_run tokens' ops). cbn in *. zlia.
Qed.

Lemma draws_cost_nonneg first n : 0 <= draws_cost first n.
Proof. revert first. induction n as [|n IH]; intros first; cbn; [lia|]. specialize (IH (S first)). zlia. Qed.

Lemma rewrite_url_succeeds st base uri n :
  is_Some (resolve_hls_uri base uri (max_uri_bytes (hb_config broker))) -> room st (S n) ->
  exists st' l, rewrite_url digest broker st base uri Binary = (st', Some l) /\ room st' n.
Proof.
  intros [url Hurl] Hroom. unfold rewrite_url. rewrite Hurl. unfold room in Hroom. cbn [draws_cost] in Hroom.
  set (draw := hb_draw broker (hs_draws st)) in *.
  pose proof (token_run_grows (hs_tokens st) (dr_others draw)) as Hrun.
  set (tokens := fst (token_run (hs_tokens st) (dr_others draw))) in *.
  set (kind := if is_manifest_url url then Manifest else Binary).
  pose proof (draws_cost_nonneg (S (hs_draws st)) n).
  pose proof (token_op_grows tokens (OpInsert (dr_token draw) url kind (dr_clock draw))) as Hgrow.
  cbn in Hgrow. unfold insert_token in *.
  assert (size (retain_live (rd_retain (dr_clock draw)) tokens) <= size tokens)%nat
    by (apply map_subseteq_size, map_filter_subseteq).
  rewrite (proj2 (Z.leb_gt _ _)) in * by lia. cbn in Hgrow. eexists _, _. split; [done|].
  unfold room. cbn [hs_tokens hs_draws]. lia.
Qed.

Lemma attributes_succeed fuel st base output remaining uris n :
  attribute_uris fuel remaining = Some uris ->
  Forall (fun uri => is_Some (resolve_hls_uri base uri (max_uri_bytes (hb_config broker)))) uris ->
  room st (length uris + n) ->
  exists st' out, attributes_from digest fuel broker st base output remaining = (st', Some out) /\ room st' n.
Proof.
  revert st output remaining uris. induction fuel as [|fuel IH]; intros st output remaining uris;
    cbn [attribute_uris attributes_from]; [done|].
  destruct (split_once_text uri_key remaining) as [[before after]|].
  2:{ intros [= <-] _ Hroom. by eexists _, _. }
  destruct (attribute_start before); cbn [negb]; [|by apply IH].
  destruct after as [|c tail]; cbn [strip_prefix]; [done|]. rewrite Z.eqb_sym. destruct (c =? 34); [|done].
  cbn [mbind option_bind]. destruct (split_once 34 tail) as [[uri rest]|]; [|done]. cbn [mbind option_bind].
  destruct (attribute_uris fuel rest) as [uris'|] eqn:E; [|done]. cbn [mbind option_bind]. intros [= <-] [Huri Huris]%Forall_cons Hroom.
  destruct (rewrite_url_succeeds st base uri (length uris' + n) Huri Hroom) as (st1 & l & -> & Hroom1).
  by eapply IH.
Qed.

Lemma lines_succeed st base ins uriss n :
  mapM line_uris ins = Some uriss ->
  Forall (fun uri => is_Some (resolve_hls_uri base uri (max_uri_bytes (hb_config broker)))) (concat uriss) ->
  room st (length (concat uriss) + n) ->
  exists st' out, rewrite_hls_lines digest broker st base ins = (st', Some out) /\ room st' n.
Proof.
  revert st uriss. induction ins as [|i ins IH]; intros st uriss.
  { intros [= <-] _ Hroom. by eexists _, _. }
  cbn [mapM rewrite_hls_lines]. destruct (line_uris i) as [uris|] eqn:Ei; [|done].
  cbn. destruct (mapM line_uris ins) as [uriss'|] eqn:Es; [|done]. intros [= <-]. cbn.
  rewrite Forall_app, length_app, <- Nat.add_assoc. intros [Huris Hrest] Hroom.
  assert (exists st' o, rewrite_hls_line digest broker st base i = (st', Some o) /\
    room st' (length (concat uriss') + n)) as (st1 & o & -> & Hroom1).
  { unfold line_uris in Ei. unfold rewrite_hls_line. destruct (_ || _); [done|].
    destruct (starts_with _ i); [by eapply attributes_succeed|].
    destruct (bool_decide (trim i = [])); [injection Ei as <-; by eexists _, _|].
    destruct (bool_decide (trim i = i)); [|done]. cbn. injection Ei as <-. apply Forall_cons in Huris as [Huri _]. by apply rewrite_url_succeeds. }
  destruct (IH st1 uriss' eq_refl Hrest Hroom1) as (st2 & rest & -> & Hroom2). by eexists _, _.
Qed.

(** A manifest is rewritten whenever it is within the limits, all its URIs
    resolve and the table has room for them. *)
Theorem manifest_rewritten st base body manifest ins uriss :
  zlen body <= max_response_bytes (hb_config broker) -> from_utf8 body = Some manifest ->
  lines (default manifest (strip_prefix [0xfeff] manifest)) = str "#EXTM3U" :: ins ->
  mapM line_uris ins = Some uriss ->
  Forall (fun uri => is_Some (resolve_hls_uri base uri (max_uri_bytes (hb_config broker)))) (concat uriss) ->
  room st (length (concat uriss)) ->
  exists st' out, rewrite_hls_manifest digest broker st base body = (st', Some out).
Proof.
  intros Hlen Hutf Hlines Huris Hall Hroom. unfold rewrite_hls_manifest.
  rewrite (proj2 (Z.ltb_ge _ _)), Hutf, Hlines by done. rewrite bool_decide_true by done.
  destruct (lines_succeed st base ins uriss 0 Huris Hall) as (st' & out & -> & _); [by rewrite Nat.add_0_r|].
  by eexists _, _.
Qed.

(** The fuel of the attribute loop is enough. *)
Lemma attribute_fuel fuel fuel' remaining :
  (length remaining < fuel)%nat -> (length remaining < fuel')%nat ->
  forall st base output, attributes_from digest fuel broker st base output remaining =
                         attributes_from digest fuel' broker st base output remaining.
Proof.
  revert fuel' remaining. induction fuel as [|fuel IH]; intros fuel' remaining Hf Hf' st base output; [lia|].
  destruct fuel' as [|fuel']; [lia|]. cbn [attributes_from].
  destruct (split_once_text uri_key remaining) as [[before after]|] eqn:E; [|done].
  apply split_once_text_Some in E as ->. rewrite !length_app in Hf, Hf'. cbn in Hf, Hf'.
  destruct (negb _); [apply IH; lia|]. destruct after as [|c tail]; [done|]. destruct (c =? 34); [|done].
  destruct (split_once 34 tail) as [[uri rest]|] eqn:E; [|done]. apply split_once_Some in E as [-> _].
  cbn in Hf, Hf'. rewrite length_app in Hf, Hf'. cbn in Hf, Hf'.
  destruct (rewrite_url digest broker st base uri Binary) as [st1 [l|]]; [|done]. apply IH; lia.
Qed.
End Manifest.
