(* ===== verification/Process.v ===== *)
(** * Input processes

    [crates/media/src/process.rs]: FFmpeg and VLC as input processes.  A
    process reads from the credential broker and writes a transport stream to
    its standard output; its supervisor publishes the output in a ring, ends
    with the process or ends it, and reports how.  The operating system is the
    answers it gives: what a read returns, whether a signal was sent, and the
    exit status. *)
From Stdlib Require Import ZArith Lia.
From stdpp Require Import base numbers option strings.
From stdpp Require Import list.
From S2P Require Import Prelude Text Hls Ring RingSpec Recovery Upstream.
Open Scope Z_scope.

(** ** Commands *)

Inductive ProcessAdapterKind := Ffmpeg | Vlc.

(** The format that a process reads from its broker. *)
Inductive BrokeredInputFormat := DirectMpegTs | Hls (config : HlsBrokerConfig).

Definition executable (adapter : ProcessAdapterKind) : text :=
  match adapter with Ffmpeg => str "ffmpeg" | Vlc => str "vlc" end.

(** [Display] of the adapter *)
Definition adapter_name (adapter : ProcessAdapterKind) : text :=
  match adapter with Ffmpeg => str "FFmpeg" | Vlc => str "VLC" end.

Record AuditedProcessCommand := mkAuditedProcessCommand {
  cmd_adapter : ProcessAdapterKind;
  cmd_executable : text;
  cmd_arguments : list text
}.

Definition ffmpeg_command (input : text) : AuditedProcessCommand :=
  mkAuditedProcessCommand Ffmpeg (executable Ffmpeg)
    (List.map str
       ["-hide_banner"; "-loglevel"; "error"; "-nostdin"; "-reconnect"; "1"; "-reconnect_at_eof"; "1";
        "-reconnect_on_network_error"; "1"; "-reconnect_on_http_error"; "4xx,5xx"; "-reconnect_streamed"; "1";
        "-reconnect_delay_max"; "2"; "-i"]%string ++
     [input] ++
     List.map str ["-map"; "0"; "-c"; "copy"; "-f"; "mpegts"; "pipe:1"]%string).

Definition vlc_command (input : text) : AuditedProcessCommand :=
  mkAuditedProcessCommand Vlc (executable Vlc)
    (List.map str ["--intf"; "dummy"; "--no-video-title-show"; "--quiet"; "--repeat"]%string ++
     [input] ++
     List.map str ["--sout"; "#standard{access=fd,mux=ts,dst=1}"; "vlc://quit"]%string).

Definition adapter_command (adapter : ProcessAdapterKind) (input : text) : AuditedProcessCommand :=
  match adapter with Ffmpeg => ffmpeg_command input | Vlc => vlc_command input end.

(** The environment of the child: no proxy for the loopback address. *)
Definition command_environment (inherited : list (text * text)) : list (text * text) :=
  let removed :=
    List.map str ["HTTP_PROXY"; "http_proxy"; "HTTPS_PROXY"; "https_proxy"; "ALL_PROXY"; "all_proxy"]%string in
  let set := List.map str ["NO_PROXY"; "no_proxy"]%string in
  List.filter (fun kv => negb (bool_decide (fst kv ∈ removed ++ set))) inherited ++
  List.map (fun k => (k, str "127.0.0.1,::1,localhost")) set.

(** ** Supervision *)

(** [std::io::ErrorKind] by its number. *)
Abbreviation ErrorKind := Z.

Inductive ProcessFailureStage := ReadStdout | Packetize | WriteRing | Kill | Wait | SupervisorLost.

Inductive ProcessExit :=
| Completed (success : bool) (code : option Z)
| Cancelled (code : option Z)
| Failed (stage : ProcessFailureStage) (kind : option ErrorKind).

(** [ExitStatus]: the exit code, or none when a signal ended the process. *)
Abbreviation ExitStatus := (option Z).
Definition status_success (status : ExitStatus) : bool := bool_decide (status = Some 0).
Definition completed_exit (status : ExitStatus) : ProcessExit := Completed (status_success status) status.

(** What the operating system answers about the child: to a kill, to a status
    query after a kill that failed, and to waiting for it. *)
Record Child := mkChild {
  ch_start_kill : result unit ErrorKind;
  ch_try_wait : option ExitStatus;
  ch_wait : result ExitStatus ErrorKind
}.
(** The calls that the supervisor makes to it, in their order. *)
Inductive ChildCall := StartKill | TryWait | WaitForExit.

Definition redacted_process_failure (adapter : ProcessAdapterKind) (detail : text) : RingCloseReason :=
  UpstreamError (adapter_name adapter ++ str " " ++ detail ++ str "; arguments redacted").

Definition close_ring (ring : RingState) (reason : RingCloseReason) : RingState :=
  let '(ring, _, _) := close ring reason in ring.

Definition terminate_and_reap (child : Child) : ProcessExit * list ChildCall :=
  let reap calls :=
    (match ch_wait child with
     | Ok status => Cancelled status
     | Err kind => Failed Wait (Some kind)
     end, calls ++ [WaitForExit]) in
  match ch_start_kill child with
  | Ok _ => reap [StartKill]
  | Err kind =>
      match ch_try_wait child with
      | None => (Failed Kill (Some kind), [StartKill; TryWait])
      | Some _ => reap [StartKill; TryWait]
      end
  end.

(** The answer to the kill is dropped. *)
Definition fail_and_reap (child : Child) (ring : RingState) (stage : ProcessFailureStage) (kind : option ErrorKind)
  : RingState * ProcessExit * list ChildCall :=
  (close_ring ring (UpstreamError (str "process input failed; arguments redacted")),
   match ch_wait child with
   | Err kind => Failed Wait (Some kind)
   | Ok _ => Failed stage kind
   end, [StartKill; WaitForExit]).

Definition finish_naturally (adapter : ProcessAdapterKind) (child : Child) (ring : RingState)
  (packetizer : MpegTsPacketizer) : RingState * ProcessExit * list ChildCall :=
  match packetizer_finish packetizer with
  | Err _ => fail_and_reap child ring Packetize None
  | Ok _ =>
      match ch_wait child with
      | Ok status =>
          (close_ring ring
             (if status_success status then EndOfStream
              else redacted_process_failure adapter (str "exited unsuccessfully")),
           completed_exit status, [WaitForExit])
      | Err kind =>
          (close_ring ring (redacted_process_failure adapter (str "could not be reaped")),
           Failed Wait (Some kind), [WaitForExit])
      end
  end.

(** What the [select!] returns: a shutdown, which it looks at first (also when
    the handle was dropped), or a read.  A read comes with the instants a write
    after it would read. *)
Inductive ProcessEvent :=
| ShutdownRequested
| StdoutRead (read : result bytes ErrorKind) (now now_end : Z).

(** The loop of [supervise_process]: the exit, with the calls made to the child,
    or none, and then it waits for the next event. *)
Definition ended (stopped : RingState * ProcessExit * list ChildCall) : RingState * option (ProcessExit * list ChildCall) :=
  let '(ring, exit, calls) := stopped in (ring, Some (exit, calls)).
Fixpoint supervise_process (config : MpegTsRingConfig) (adapter : ProcessAdapterKind) (child : Child)
  (ring : RingState) (packetizer : MpegTsPacketizer) (events : list ProcessEvent)
  : RingState * option (ProcessExit * list ChildCall) :=
  match events with
  | [] => (ring, None)
  | ShutdownRequested :: _ => (close_ring ring Shutdown, Some (terminate_and_reap child))
  | StdoutRead (Err kind) _ _ :: _ => ended (fail_and_reap child ring ReadStdout (Some kind))
  | StdoutRead (Ok buffer) now now_end :: events =>
      if zlen buffer =? 0 then ended (finish_naturally adapter child ring packetizer)
      else
        match packetizer_push packetizer buffer with
        | (_, Err _) => ended (fail_and_reap child ring Packetize None)
        | (packetizer, Ok []) => supervise_process config adapter child ring packetizer events
        | (packetizer, Ok packets) =>
            match push config ring packets now now_end with
            | (ring, Ok _, _) => supervise_process config adapter child ring packetizer events
            | (ring, Err _, _) => ended (fail_and_reap child ring WriteRing None)
            end
        end
  end.

(** ** Starting *)

Inductive ProcessAdapterError :=
| Spawn (adapter : ProcessAdapterKind) (kind : ErrorKind)
| MissingStdout (adapter : ProcessAdapterKind).

Inductive BrokeredProcessStartError :=
| BrokerStart (e : CredentialBrokerError)
| ProcessStart (e : ProcessAdapterError).

(** The broker of a session: one link, or a table of links. *)
Inductive StartedBroker {Url : Type} :=
| DirectBroker (token_hash : bytes)
| HlsLinks (broker : HlsBroker Url) (tokens : HlsTokens Url).
Arguments StartedBroker : clear implicits.

(** [start_brokered]: the broker and the command that was spawned; [spawn] is
    the answer to spawning it.  A broker whose process did not start is
    dropped, which stops it. *)
Definition start_brokered {Url} `{Urls Url} (digest : bytes -> bytes) (adapter : ProcessAdapterKind)
  (input_format : BrokeredInputFormat) (endpoint_url : text) (address : option text) (token : text)
  (clock : Readings) (draws : nat -> Draw Url) (spawn : result unit ProcessAdapterError)
  : result (StartedBroker Url * AuditedProcessCommand) BrokeredProcessStartError :=
  let started :=
    match input_format with
    | DirectMpegTs =>
        match start_broker digest address token with
        | Err e => Err e
        | Ok (token_hash, input) => Ok (DirectBroker token_hash, input)
        end
    | Hls config =>
        match start_hls digest config endpoint_url address token clock draws with
        | Err e => Err e
        | Ok (broker, tokens, input) => Ok (HlsLinks broker tokens, input)
        end
    end in
  match started with
  | Err e => Err (BrokerStart e)
  | Ok (broker, input) =>
      match spawn with
      | Err e => Err (ProcessStart e)
      | Ok _ => Ok (broker, adapter_command adapter (url_as_str input))
      end
  end.

(** ** The cleanup task

    [LeasedBrokeredProcessInputSession]: the task that owns the session and the
    provider slot.  It waits for the process, then for the broker, reports the
    result and drops the slot.  A shutdown request drops the wait and starts it
    again; a broker that the dropped wait had taken is left to stop on its own. *)

Inductive BrokerTask := BrokerRunning | BrokerStopping | BrokerStopped | BrokerAborted | BrokerDetached.

Inductive CleanupPhase := AwaitProcess | AwaitBroker (exit : ProcessExit) | CleanupDone.

Record Cleanup := mkCleanup {
  cl_phase : CleanupPhase;
  cl_process : option ProcessExit;
  cl_broker : BrokerTask;
  cl_kill_requested : bool;
  cl_shutdown_seen : bool;
  cl_completion : option (result ProcessExit CredentialBrokerError);
  cl_lease_held : bool
}.

Definition cleanup_start : Cleanup := mkCleanup AwaitProcess None BrokerRunning false false None true.

(** What the task awaits: a request, the supervisor's report, and the end of
    the broker task, which is an error, a success or a timeout. *)
Inductive BrokerEnd := BrokerOk | BrokerPanicked | BrokerTimedOut.
Inductive CleanupEvent :=
| CleanupShutdown
| ProcessReported (exit : ProcessExit)
| BrokerEnded (outcome : BrokerEnd).

(** [wait] after the process: the broker is taken and asked to stop; without a
    broker there is nothing to wait for. *)
Definition cleanup_finish (c : Cleanup) (broker : BrokerTask) (completion : result ProcessExit CredentialBrokerError)
  : Cleanup :=
  mkCleanup CleanupDone (cl_process c) broker (cl_kill_requested c) (cl_shutdown_seen c) (Some completion) false.

Definition await_broker (c : Cleanup) (exit : ProcessExit) : Cleanup :=
  match cl_broker c with
  | BrokerRunning | BrokerStopping =>
      mkCleanup (AwaitBroker exit) (cl_process c) BrokerStopping (cl_kill_requested c) (cl_shutdown_seen c)
        (cl_completion c) (cl_lease_held c)
  | broker => cleanup_finish c broker (Ok exit)
  end.

Definition cleanup_step (c : Cleanup) (event : CleanupEvent) : Cleanup :=
  match event, cl_phase c with
  | CleanupShutdown, AwaitProcess =>
      if cl_shutdown_seen c then c
      else mkCleanup AwaitProcess (cl_process c) BrokerStopping true true (cl_completion c) (cl_lease_held c)
  | CleanupShutdown, AwaitBroker exit =>
      if cl_shutdown_seen c then c
      else
        cleanup_finish
          (mkCleanup AwaitProcess (cl_process c) BrokerDetached true true (cl_completion c) (cl_lease_held c))
          BrokerDetached (Ok exit)
  | ProcessReported exit, AwaitProcess =>
      await_broker
        (mkCleanup AwaitProcess (Some exit) (cl_broker c) (cl_kill_requested c) (cl_shutdown_seen c)
           (cl_completion c) (cl_lease_held c)) exit
  | BrokerEnded outcome, AwaitBroker exit =>
      cleanup_finish c (match outcome with BrokerTimedOut => BrokerAborted | _ => BrokerStopped end)
        (match outcome with BrokerPanicked => Err TaskStopped | _ => Ok exit end)
  | _, _ => c
  end.

(** ** What the supervisor guarantees *)

(** What the process wrote, as far as it was read. *)
Definition stdout_of (events : list ProcessEvent) : bytes :=
  concat (List.map (fun event => match event with StdoutRead (Ok buffer) _ _ => buffer | _ => [] end) events).

(** The reads that end the process for a failure, with [tail] left of the output
    before: a read that failed, the end of an output that is not of whole
    packets, and output that makes a packet without its sync byte. *)
Inductive Broken (tail : bytes) : result bytes ErrorKind -> ProcessFailureStage -> option ErrorKind -> Prop :=
| broken_read kind : Broken tail (Err kind) ReadStdout (Some kind)
| broken_end : tail <> [] -> Broken tail (Ok []) Packetize None
| broken_packet buffer :
    buffer <> [] -> is_Some (find_bad_sync 0 (chunks_exact MPEG_TS_PACKET_SIZE (tail ++ buffer))) ->
    Broken tail (Ok buffer) Packetize None.

(** How the event that ends the loop, with [tail] left of the output before,
    decides the exit, how the ring is closed and the calls made to the child. *)
Inductive exit_consistent (adapter : ProcessAdapterKind) (child : Child) (tail : bytes)
  : list ProcessEvent -> option (ProcessExit * list ChildCall) -> option RingCloseReason -> Prop :=
| exit_none : exit_consistent adapter child tail [] None None
| exit_cancelled status rest :
    ch_start_kill child = Ok tt -> ch_wait child = Ok status ->
    exit_consistent adapter child tail (ShutdownRequested :: rest) (Some (Cancelled status, [StartKill; WaitForExit])) (Some Shutdown)
| exit_ended_before kind known status rest :
    ch_start_kill child = Err kind -> ch_try_wait child = Some known -> ch_wait child = Ok status ->
    exit_consistent adapter child tail (ShutdownRequested :: rest)
      (Some (Cancelled status, [StartKill; TryWait; WaitForExit])) (Some Shutdown)
| exit_not_killed kind rest :
    ch_start_kill child = Err kind -> ch_try_wait child = None ->
    exit_consistent adapter child tail (ShutdownRequested :: rest) (Some (Failed Kill (Some kind), [StartKill; TryWait])) (Some Shutdown)
| exit_not_awaited kind calls rest :
    ch_wait child = Err kind ->
    (ch_start_kill child = Ok tt /\ calls = [StartKill; WaitForExit] \/
     (exists e, ch_start_kill child = Err e) /\ is_Some (ch_try_wait child) /\ calls = [StartKill; TryWait; WaitForExit]) ->
    exit_consistent adapter child tail (ShutdownRequested :: rest) (Some (Failed Wait (Some kind), calls)) (Some Shutdown)
| exit_completed status now now_end rest :
    tail = [] -> ch_wait child = Ok status ->
    exit_consistent adapter child tail (StdoutRead (Ok []) now now_end :: rest)
      (Some (Completed (status_success status) status, [WaitForExit]))
      (Some (if status_success status then EndOfStream else redacted_process_failure adapter (str "exited unsuccessfully")))
| exit_unreaped kind now now_end rest :
    tail = [] -> ch_wait child = Err kind ->
    exit_consistent adapter child tail (StdoutRead (Ok []) now now_end :: rest) (Some (Failed Wait (Some kind), [WaitForExit]))
      (Some (redacted_process_failure adapter (str "could not be reaped")))
| exit_failed read stage kind now now_end rest :
    Broken tail read stage kind ->
    exit_consistent adapter child tail (StdoutRead read now now_end :: rest)
      (Some (match ch_wait child with Ok _ => Failed stage kind | Err e => Failed Wait (Some e) end, [StartKill; WaitForExit]))
      (Some (UpstreamError (str "process input failed; arguments redacted"))).

Section Supervise.
Context (config : MpegTsRingConfig) (Hcfg : config_ok config).
Context (adapter : ProcessAdapterKind) (child : Child).

Lemma close_ring_refines ring a reason :
  ring_refines config ring a -> a_closed a = None ->
  ring_refines config (close_ring ring reason) (mkARing (a_generation a) (a_history a) (Some reason)).
Proof using Hcfg.
  intros Href Hopen. destruct (generation_and_close_simulate config Hcfg ring a reason Href) as [_ Hclose].
  unfold close_ring. destruct (close ring reason) as [[ring' r] notify]. unfold a_close in Hclose.
  rewrite Hopen in Hclose. apply Hclose.
Qed.

(** The supervisor stops with what is in the ring. *)
Definition stops_with (a : ARing) (tail : bytes) (events : list ProcessEvent)
  (stopped : RingState * option (ProcessExit * list ChildCall)) : Prop :=
  exists a', ring_refines config (fst stopped) a' /\ a_generation a' = a_generation a /\ a_history a' = a_history a /\
    exit_consistent adapter child tail events (snd stopped) (a_closed a').

Lemma stops_closed ring a reason tail events exit :
  ring_refines config ring a -> a_closed a = None -> exit_consistent adapter child tail events exit (Some reason) ->
  stops_with a tail events (close_ring ring reason, exit).
Proof using Hcfg. intros Href Hopen Hexit. eexists. split; [by apply close_ring_refines|]. done. Qed.

Lemma fail_and_reap_spec ring a stage kind tail read now now_end rest :
  ring_refines config ring a -> a_closed a = None -> Broken tail read stage kind ->
  stops_with a tail (StdoutRead read now now_end :: rest) (ended (fail_and_reap child ring stage kind)).
Proof using Hcfg. intros Href Hopen Hb. by apply stops_closed, exit_failed. Qed.

Lemma finish_naturally_spec ring a p now now_end rest :
  ring_refines config ring a -> a_closed a = None ->
  stops_with a (pending p) (StdoutRead (Ok []) now now_end :: rest) (ended (finish_naturally adapter child ring p)).
Proof using Hcfg.
  intros Href Hopen. unfold finish_naturally, packetizer_finish.
  destruct (pending p) as [|x tail] eqn:Ep; [|by apply fail_and_reap_spec; [..|constructor]].
  destruct (ch_wait child) as [status|e] eqn:E; (apply stops_closed; [done|done|]); by constructor.
Qed.

Lemma terminate_and_reap_spec ring a tail rest :
  ring_refines config ring a -> a_closed a = None ->
  stops_with a tail (ShutdownRequested :: rest) (close_ring ring Shutdown, Some (terminate_and_reap child)).
Proof using Hcfg.
  intros Href Hopen. apply stops_closed; [done|done|]. unfold terminate_and_reap.
  destruct (ch_start_kill child) as [[]|k] eqn:Ek, (ch_try_wait child) as [known|] eqn:Et, (ch_wait child) as [status|e] eqn:Ew; cbn;
    first [by apply exit_cancelled | by eapply exit_ended_before | by apply exit_not_killed | apply exit_not_awaited; [done|]];
    [by left | by left | right; split; [by eexists|done]].
Qed.

Lemma push_open ring a data now now_end :
  ring_refines config ring a -> a_closed a = None -> Forall is_u8 data -> zlen data mod MPEG_TS_PACKET_SIZE = 0 ->
  find_bad_sync 0 (chunks_exact MPEG_TS_PACKET_SIZE data) = None ->
  zlen (a_history a) + zlen (chunks_exact MPEG_TS_PACKET_SIZE data) <= u64_max ->
  exists ring' outcome notify, push config ring data now now_end = (ring', Ok outcome, notify) /\
    ring_refines config ring'
      (mkARing (a_generation a) (a_history a ++ chunks_exact MPEG_TS_PACKET_SIZE data) None).
Proof using Hcfg.
  intros Href Hopen Hu Hal Hsync Hmax. pose proof (push_simulates config Hcfg ring a data now now_end Href Hu) as Hp.
  destruct (push config ring data now now_end) as [[ring' r] notify]. unfold a_push in Hp.
  rewrite Hal, Hsync, Hopen in Hp. cbn in Hp. rewrite (proj2 (Z.leb_le _ _)) in Hp by done.
  destruct Hp as (Href' & -> & _). by eexists _, _, _.
Qed.

(** What holds when the loop stops: [chunks] were published, then [rest]. *)
Definition Supervised (a : ARing) (p : MpegTsPacketizer) (events : list ProcessEvent)
  (stopped : RingState * option (ProcessExit * list ChildCall)) : Prop :=
  exists a' chunks data tail rest,
    ring_refines config (fst stopped) a' /\ a_generation a' = a_generation a /\
    events = List.map (fun '(buffer, now, now_end) => StdoutRead (Ok buffer) now now_end) chunks ++ rest /\
    Forall (fun chunk => chunk.1.1 <> []) chunks /\
    pending p ++ concat (List.map (fun chunk => chunk.1.1) chunks) = data ++ tail /\
    zlen data mod MPEG_TS_PACKET_SIZE = 0 /\ zlen tail < MPEG_TS_PACKET_SIZE /\
    a_history a' = a_history a ++ chunks_exact MPEG_TS_PACKET_SIZE data /\
    find_bad_sync 0 (chunks_exact MPEG_TS_PACKET_SIZE data) = None /\
    exit_consistent adapter child tail rest (snd stopped) (a_closed a').

Lemma Supervised_stop a p events stopped :
  zlen (pending p) < MPEG_TS_PACKET_SIZE -> stops_with a (pending p) events stopped -> Supervised a p events stopped.
Proof using.
  intros Htail (a' & Href & Hg & Hh & Hexit). exists a', [], [], (pending p), events.
  cbn. rewrite !app_nil_r. done.
Qed.

Lemma Supervised_next a p p1 a1 buffer now now_end events data stopped :
  buffer <> [] -> pending p ++ buffer = data ++ pending p1 -> zlen data mod MPEG_TS_PACKET_SIZE = 0 ->
  find_bad_sync 0 (chunks_exact MPEG_TS_PACKET_SIZE data) = None ->
  a_generation a1 = a_generation a -> a_history a1 = a_history a ++ chunks_exact MPEG_TS_PACKET_SIZE data ->
  Supervised a1 p1 events stopped -> Supervised a p (StdoutRead (Ok buffer) now now_end :: events) stopped.
Proof using.
  intros Hb Hsplit Hal Hsync Hg Hh (a' & chunks & data' & tail & rest & Href & Hg' & Hev & Hne & Hs & Hal' & Ht & Hh' & Hsync' & Hexit).
  exists a', ((buffer, now, now_end) :: chunks), (data ++ data'), tail, rest.
  split_and!; try done; [congruence|by rewrite Hev|by constructor|..].
  - cbn. by rewrite app_assoc, Hsplit, <- !app_assoc, Hs.
  - rewrite zlen_app, Z.add_mod, Hal, Hal' by done. done.
  - rewrite Hh', Hh, chunks_exact_app by done. by rewrite <- app_assoc.
  - rewrite chunks_exact_app, find_bad_sync_app, Hsync by done. by rewrite find_bad_sync_shift, Hsync'.
Qed.

Lemma packetizer_rest p chunk p' data :
  packetizer_push p chunk = (p', Ok data) -> zlen (pending p') < MPEG_TS_PACKET_SIZE.
Proof using.
  rewrite packetizer_push_spec. cbn zeta. set (all := pending p ++ chunk). pose proof (aligned_spec all) as (H1 & H2 & H3).
  destruct (find_bad_sync _ _) as [[i x]|]; [done|]. intros [= <- <-]. cbn. rewrite zlen_zdrop. lia.
Qed.
Lemma packetizer_refuses p chunk p' e :
  packetizer_push p chunk = (p', Err e) -> is_Some (find_bad_sync 0 (chunks_exact MPEG_TS_PACKET_SIZE (pending p ++ chunk))).
Proof using. rewrite packetizer_push_spec. cbn zeta. destruct (find_bad_sync _ _) as [[i x]|]; [by eexists|done]. Qed.

Lemma supervise_spec events ring a p :
  ring_refines config ring a -> a_closed a = None -> zlen (pending p) < MPEG_TS_PACKET_SIZE ->
  Forall is_u8 (pending p ++ stdout_of events) -> zlen (a_history a) + zlen (pending p ++ stdout_of events) <= u64_max ->
  Supervised a p events (supervise_process config adapter child ring p events).
Proof using Hcfg.
  revert ring a p. induction events as [|event events IH]; intros ring a p Href Hopen Htail Hu Hmax.
  { apply Supervised_stop; [done|]. exists a. split_and!; try done. rewrite Hopen. constructor. }
  destruct event as [|[buffer|kind] now now_end]; cbn [supervise_process].
  - apply Supervised_stop; [done|]. by apply terminate_and_reap_spec.
  - destruct (Z.eqb_spec (zlen buffer) 0) as [Hz | Hz].
    { assert (buffer = []) as -> by (destruct buffer; [done|zlia]). apply Supervised_stop; [done|]. by apply finish_naturally_spec. }
    assert (buffer <> []) as Hne by (by intros ->).
    destruct (packetizer_push p buffer) as [p1 [data|e]] eqn:Ep.
    2:{ apply packetizer_refuses in Ep. apply Supervised_stop; [done|]. by apply fail_and_reap_spec, broken_packet. }
    destruct (packetizer_push_ok _ _ _ _ Ep) as (Hsplit & Hal & Hsync). apply packetizer_rest in Ep as Hrest1.
    change (stdout_of (StdoutRead (Ok buffer) now now_end :: events)) with (buffer ++ stdout_of events) in *.
    rewrite app_assoc, Hsplit, <- app_assoc in Hu, Hmax. apply Forall_app in Hu as [Hud Hu].
    rewrite zlen_app in Hmax.
    assert (zlen (chunks_exact MPEG_TS_PACKET_SIZE data) <= zlen data) as Hcount.
    { rewrite chunks_exact_length by done. pose proof (zlen_nonneg data).
      apply Z.div_le_upper_bound; unfold MPEG_TS_PACKET_SIZE; lia. }
    pose proof (zlen_nonneg (pending p1 ++ stdout_of events)) as Hrest.
    pose proof (zlen_nonneg (chunks_exact MPEG_TS_PACKET_SIZE data)) as Hnew.
    assert (zlen (a_history a) + zlen (chunks_exact MPEG_TS_PACKET_SIZE data) +
            zlen (pending p1 ++ stdout_of events) <= u64_max) as Hfit by lia.
    destruct data as [|x data].
    + eapply (Supervised_next a p p1 a); [done|exact Hsplit|done|done|done|by rewrite app_nil_r|]. by apply IH; [..|lia].
    + destruct (push_open ring a (x :: data) now now_end Href Hopen Hud Hal Hsync ltac:(lia))
        as (ring1 & outcome & notify & -> & Href1).
      eapply Supervised_next; [done|exact Hsplit|done|done|..]; cycle 2; [apply (IH ring1 _ p1 Href1)|..]; try done.
      cbn [a_history]. by rewrite zlen_app.
  - apply Supervised_stop; [done|]. by apply fail_and_reap_spec, broken_read.
Qed.
End Supervise.


(** ** The provider slot of a process *)

(** The slot is given back only when the supervisor has reported the end of
    the process and, unless a shutdown request interrupted the wait for it,
    the broker task has ended. *)
Definition cleanup_inv (c : Cleanup) : Prop :=
  (cl_phase c = AwaitProcess -> cl_process c = None /\ cl_lease_held c = true /\
     cl_broker c = (if cl_shutdown_seen c then BrokerStopping else BrokerRunning)) /\
  (forall exit, cl_phase c = AwaitBroker exit -> cl_process c = Some exit /\ cl_lease_held c = true /\
     cl_broker c = BrokerStopping) /\
  (cl_phase c = CleanupDone -> is_Some (cl_process c) /\ cl_lease_held c = false /\ is_Some (cl_completion c) /\
     match cl_broker c with
     | BrokerStopped | BrokerAborted => True
     | BrokerDetached => cl_shutdown_seen c = true
     | BrokerRunning | BrokerStopping => False
     end).

Lemma cleanup_step_inv c event : cleanup_inv c -> cleanup_inv (cleanup_step c event).
Proof.
  intros Hinv. pose proof Hinv as (Hp & Hb & Hd).
  destruct c as [phase process broker kill seen completion lease], event as [|exit|outcome], phase as [|exit'|];
    cbn in *; try exact Hinv.
  - destruct (Hp eq_refl) as (-> & -> & ->). destruct seen; [exact Hinv|]. by split_and!.
  - destruct (Hb _ eq_refl) as (-> & -> & ->). destruct seen; [exact Hinv|]. by split_and!.
  - destruct (Hp eq_refl) as (-> & -> & ->). destruct seen; cbn; split_and!; try done; by intros ? [= <-].
  - destruct (Hb _ eq_refl) as (-> & -> & ->). destruct outcome; by split_and!.
Qed.

Lemma cleanup_run_inv events : cleanup_inv (fold_left cleanup_step events cleanup_start).
Proof.
  assert (forall c, cleanup_inv c -> cleanup_inv (fold_left cleanup_step events c)) as Hrun.
  { induction events as [|event events IH]; intros c Hc; cbn; [done|]. apply IH, cleanup_step_inv, Hc. }
  apply Hrun. by split_and!.
Qed.

(** In every order of the shutdown request, the end of the process and the end
    of the broker, the provider slot is held until the process has ended and
    its result is reported; it is given back while the broker task may still
    run only when the request came while that task was being awaited. *)
Theorem slot_outlives_process events :
  let c := fold_left cleanup_step events cleanup_start in
  cl_lease_held c = false ->
  is_Some (cl_process c) /\ is_Some (cl_completion c) /\ cl_phase c = CleanupDone /\
  (cl_broker c = BrokerStopped \/ cl_broker c = BrokerAborted \/
   cl_broker c = BrokerDetached /\ cl_shutdown_seen c = true).
Proof.
  intros c Hlease. destruct (cleanup_run_inv events) as (Hp & Hb & Hd). fold c in Hp, Hb, Hd.
  destruct (cl_phase c) as [|exit|].
  - destruct (Hp eq_refl) as (_ & Hheld & _). congruence.
  - destruct (Hb exit eq_refl) as (_ & Hheld & _). congruence.
  - destruct (Hd eq_refl) as (? & _ & ? & Hbroker). split_and!; try done.
    destruct (cl_broker c); try done; auto.
Qed.

(** The request that interrupts the wait for the broker. *)
Example broker_detached :
  let c := fold_left cleanup_step [ProcessReported (Completed true (Some 0)); CleanupShutdown] cleanup_start in
  cl_lease_held c = false /\ cl_broker c = BrokerDetached.
Proof. by split. Qed.
