(* ===== verification/Session.v ===== *)
(** * The session pump

    Models the supervising half of [crates/media/src/session.rs]: the task that
    primes an upstream, publishes it, and on failure recovers it on the next
    endpoint while the viewers stay connected; and the manager's keys.

    The task is a state machine.  Its phases are the points at which it awaits
    something; an input is the answer it awaited (the body, the HTTP response,
    the clock) or an action of another task on the shared state (a viewer, the
    keepalive task, the operator).  An input that does not fit the phase
    changes nothing.  The HTTP client is a parameter: its answers are inputs. *)
From Stdlib Require Import ZArith Lia.
From stdpp Require Import base numbers option strings pretty.
From stdpp Require Import gmap.
From stdpp Require Import list sorting.
From S2P Require Import Prelude Psi Pacing Meter Ring RingSpec RingCursor Broker Recovery Upstream.
Open Scope Z_scope.

(** ** Keys and sources *)

Inductive InputAdapterPolicy := Auto | PolicyNativeTs | PolicyFfmpeg | PolicyVlc.
Inductive SessionInputAdapter := NativeTs | Ffmpeg | Vlc.

Definition selected_adapter (policy : InputAdapterPolicy) : SessionInputAdapter :=
  match policy with
  | Auto | PolicyFfmpeg => Ffmpeg
  | PolicyVlc => Vlc
  | PolicyNativeTs => NativeTs
  end.

Record HttpTsSessionKey := mkHttpTsSessionKey {
  provider_pool_id : string;
  source_id : string;
  key_generation : Z;
}.

(** The unit separator of the formatted keys. *)
Definition unit_separator : string := String.String (Ascii.ascii_of_nat 31) EmptyString.

(** [format!("{}\u{1f}{}\u{1f}{}", pool, source, generation)] *)
Definition format_allocation_key (pool source : string) (generation : Z) : string :=
  pool +:+ unit_separator +:+ source +:+ unit_separator +:+ pretty (Z.to_N generation).

Definition allocation_key (key : HttpTsSessionKey) : string :=
  format_allocation_key (provider_pool_id key) (source_id key) (key_generation key).

(** An endpoint with the pool that pays for its connection. *)
Record PreparedHttpTsEndpoint := mkPreparedHttpTsEndpoint { ep_pool_id : string; ep_url : string }.

(** [endpoints.rotate_left(active)] when [active < len]: a new channel session
    starts at the first endpoint no other session of the pool uses. *)
Definition rotate_endpoints {A} (active : Z) (endpoints : list A) : list A :=
  if active <? zlen endpoints then zdrop active endpoints ++ ztake active endpoints else endpoints.

(** [near_overrun] *)
Definition CATCH_UP_QUARTERS : Z := 3.
Definition near_overrun (config : MpegTsRingConfig) (ring : RingState) (gen sequence : Z) : bool :=
  let snapshot := snapshot config ring in
  if negb (snap_generation snapshot =? gen) then false
  else
    let behind := sat_sub (snap_next_sequence snapshot) sequence in
    let capacity := snap_capacity_packets snapshot in
    sat_mul u64_max capacity CATCH_UP_QUARTERS <=? sat_mul u64_max behind 4.

(** ** State *)

Record PumpConfig := mkPumpConfig {
  pc_ring : MpegTsRingConfig;
  pc_recovery : RecoveryPolicy;
  pc_endpoints : list PreparedHttpTsEndpoint;
  pc_source_id : string;
  pc_generation : Z;
}.

(** A slot of one provider pool. *)
Definition PoolLease : Type := string * SlotLease.

(** What [recover_session] keeps over its attempts. *)
Record RecoveryContext := mkRecoveryContext {
  rc_deadline : Z;
  rc_previous : Z;
  rc_drain_generation : Z;
  rc_drain_target : Z;
  rc_attempt : Z;
  rc_keepalive : option Z;
}.

(** Where the task waits: for the body to prime, for the next chunk, for the
    retry delay of an attempt (with the slot of the attempt that failed), for
    the response, for the candidate to prime, for the viewers to drain, for
    the keepalive task to stop. *)
Inductive Phase :=
| PhPriming
| PhStreaming (endpoint : Z) (packetizer : MpegTsPacketizer)
| PhAttempt (rc : RecoveryContext) (failed : option PoolLease) (not_before : Z)
| PhRequest (rc : RecoveryContext) (endpoint : Z) (candidate : option PoolLease)
| PhReprime (rc : RecoveryContext) (endpoint : Z) (candidate : option PoolLease)
| PhDrain (rc : RecoveryContext) (endpoint : Z) (candidate : option PoolLease)
    (packetizer : MpegTsPacketizer) (primed : bytes)
| PhStop (rc : RecoveryContext) (endpoint : Z) (candidate : option PoolLease)
    (packetizer : MpegTsPacketizer) (primed : bytes)
| PhDone.

Record Session := mkSession {
  s_ring : RingState;
  s_diag : Diagnostics;
  s_providers : gmap string BrokerState;
  s_lease : option PoolLease;
  s_phase : Phase;
}.

Definition set_phase (s : Session) (phase : Phase) : Session :=
  mkSession (s_ring s) (s_diag s) (s_providers s) (s_lease s) phase.
Definition set_diag (s : Session) (d : Diagnostics) : Session :=
  mkSession (s_ring s) d (s_providers s) (s_lease s) (s_phase s).
Definition set_ring (s : Session) (ring : RingState) : Session :=
  mkSession ring (s_diag s) (s_providers s) (s_lease s) (s_phase s).

(** ** Leases *)

Definition drop_lease (providers : gmap string BrokerState) (lease : option PoolLease)
  : gmap string BrokerState :=
  match lease with
  | Some (pool, l) => alter (fun broker => lease_drop broker l) pool providers
  | None => providers
  end.

(** [acquire_recovery_lease] *)
Definition acquire_recovery_lease (providers : gmap string BrokerState) (source : string)
    (generation : Z) (endpoint : PreparedHttpTsEndpoint) (current_pool_id : string)
  : gmap string BrokerState * result (option PoolLease) unit :=
  if decide (ep_pool_id endpoint = current_pool_id) then (providers, Ok None)
  else
    match providers !! ep_pool_id endpoint with
    | None => (providers, Err tt)
    | Some broker =>
        let '(broker', r) :=
          try_acquire broker (format_allocation_key (ep_pool_id endpoint) source generation) in
        (<[ep_pool_id endpoint := broker']> providers,
         match r with
         | Ok lease => Ok (Some (ep_pool_id endpoint, lease))
         | Err _ => Err tt
         end)
    end.

(** ** The end of the task *)

Definition close_ring (s : Session) (reason : RingCloseReason) : Session :=
  let '(ring, _, _) := close (s_ring s) reason in set_ring s ring.

(** Returning from [pump_http_ts] drops its resources. *)
Definition finish (s : Session) : Session :=
  mkSession (s_ring s) (s_diag s) (drop_lease (s_providers s) (s_lease s)) None PhDone.

(** [recover_session] returned [None]. *)
Definition recovery_expired (s : Session) : Session :=
  let s := set_diag s (set_state (record_failure (s_diag s) FRecoveryExpired) Failed) in
  finish (close_ring s (RecoveryExpired (reconnect_attempts (s_diag s)))).

(** The head of the pump's loop: the upstream on [endpoint] failed. *)
Definition on_failure (config : PumpConfig) (s : Session) (endpoint : Z)
    (failure : SessionFailureKind) (now : Z) : Session :=
  let s := set_diag s (record_failure (s_diag s) failure) in
  if is_stopping (s_diag s) then finish s
  else if negb (has_viewers (s_diag s)) then
    finish (close_ring (set_diag s (set_state (s_diag s) Stopping)) Shutdown)
  else if max_window (pc_recovery config) =? 0 then recovery_expired s
  else
    set_phase s (PhAttempt
      (mkRecoveryContext (now + max_window (pc_recovery config)) endpoint
         (generation (s_ring s)) (next_sequence (s_ring s)) 0 (Some 0)) None now).

(** ** Recovery *)

Definition endpoint_index (endpoints previous attempt : Z) : Z :=
  let failover_offset := if 1 <? endpoints then 1 else 0 in
  wrap64 (previous + failover_offset + attempt) mod endpoints.

Definition sleep_until_retry (deadline delay now : Z) : Z := Z.min deadline (now + delay).

(** An attempt failed: the task sleeps before the next one, and its locals,
    the candidate's slot among them, are dropped when it has slept. *)
Definition next_attempt (config : PumpConfig) (s : Session) (rc : RecoveryContext)
    (candidate : option PoolLease) (now : Z) : Session :=
  set_phase s
    (PhAttempt
       (mkRecoveryContext (rc_deadline rc) (rc_previous rc) (rc_drain_generation rc)
          (rc_drain_target rc) (sat_add u64_max (rc_attempt rc) 1) (rc_keepalive rc))
       candidate
       (sleep_until_retry (rc_deadline rc) (retry_delay (pc_recovery config)) now)).

Definition release (s : Session) (lease : option PoolLease) : Session :=
  mkSession (s_ring s) (s_diag s) (drop_lease (s_providers s) lease) (s_lease s) (s_phase s).

(** The head of the recovery loop up to the HTTP request. *)
Definition start_attempt (config : PumpConfig) (s : Session) (rc : RecoveryContext) (now : Z)
  : Session :=
  if negb (now <? rc_deadline rc) then recovery_expired s
  else if negb (has_viewers (s_diag s)) then recovery_expired s
  else
    let index := endpoint_index (zlen (pc_endpoints config)) (rc_previous rc) (rc_attempt rc) in
    let is_failover := negb (index =? rc_previous rc) in
    let d := record_reconnect
               (set_state (s_diag s) (if is_failover then FailingOver else Recovering)) is_failover in
    let s := set_diag s d in
    match zget (pc_endpoints config) index, s_lease s with
    | Some endpoint, Some (current_pool_id, _) =>
        let '(providers, r) :=
          acquire_recovery_lease (s_providers s) (pc_source_id config) (pc_generation config)
            endpoint current_pool_id in
        let s := mkSession (s_ring s) (s_diag s) providers (s_lease s) (s_phase s) in
        match r with
        | Err _ => next_attempt config s rc None now
        | Ok candidate => set_phase s (PhRequest rc index candidate)
        end
    | _, _ => s
    end.

(** The old generation is drained: one last null packet, then the keepalive
    task is aborted and awaited. *)
Definition begin_switch (config : PumpConfig) (s : Session) (rc : RecoveryContext) (endpoint : Z)
    (candidate : option PoolLease) (packetizer : MpegTsPacketizer) (primed : bytes)
    (now now_end : Z) : Session :=
  let '(ring, d) := push_final_keepalive_null (pc_ring config) (s_ring s) (s_diag s) now now_end in
  set_phase (set_diag (set_ring s ring) d) (PhStop rc endpoint candidate packetizer primed).

(** The keepalive task has stopped: switch the ring to the new upstream. *)
Definition switch_over (config : PumpConfig) (s : Session) (endpoint : Z)
    (candidate : option PoolLease) (packetizer : MpegTsPacketizer) (primed : bytes)
    (now now_end : Z) : Session :=
  let abandon ring d := recovery_expired (release (set_diag (set_ring s ring) d) candidate) in
  match start_new_generation (s_ring s) with
  | (ring, Err _, _) => abandon ring (s_diag s)
  | (ring, Ok generation, _) =>
      let d := set_generation (s_diag s) generation in
      match push_packets (pc_ring config) ring d primed now now_end with
      | (ring, d, Err _) => abandon ring (record_failure d RingClosed)
      | (ring, d, Ok _) =>
          let '(providers, lease) :=
            match candidate with
            | Some _ => (drop_lease (s_providers s) (s_lease s), candidate)
            | None => (s_providers s, s_lease s)
            end in
          mkSession ring (set_state d Streaming) providers lease (PhStreaming endpoint packetizer)
      end
  end.

(** ** Steps *)

Inductive Input :=
| InPrime (events : list BodyEvent) (now now_end : Z)
| InBody (event : BodyEvent) (now now_end : Z)
| InResponse (valid : bool) (now : Z)
| InTime (now now_end : Z)
| EnvRegister (generation sequence : Z)
| EnvUpdate (id generation sequence : Z)
| EnvLeave (id : Z)
| EnvLag
| EnvKeepalive (now now_end : Z)
| EnvTerminate.

Definition keepalive_step (config : PumpConfig) (s : Session) (rc : RecoveryContext)
    (with_rc : RecoveryContext -> Phase) (now now_end : Z) : Session :=
  match rc_keepalive rc with
  | None => s
  | Some continuity =>
      let '(ring, d, keepalive) :=
        keepalive_tick (pc_ring config) (s_ring s) (s_diag s) (rc_drain_generation rc)
          (rc_drain_target rc) continuity now now_end in
      mkSession ring d (s_providers s) (s_lease s)
        (with_rc (mkRecoveryContext (rc_deadline rc) (rc_previous rc) (rc_drain_generation rc)
                    (rc_drain_target rc) (rc_attempt rc) keepalive))
  end.

(** [HttpTsSession::terminate] *)
Definition terminate (s : Session) : Session :=
  close_ring (set_diag s (set_state (s_diag s) Stopping)) Shutdown.

(** Actions of the other tasks. *)
Definition env_step (config : PumpConfig) (s : Session) (input : Input) : Session :=
  match input with
  | EnvRegister generation sequence =>
      set_diag s (fst (register_viewer (s_diag s) generation sequence))
  | EnvUpdate id generation sequence => set_diag s (update_viewer (s_diag s) id generation sequence)
  | EnvLeave id => set_diag s (drop_registration (s_diag s) id)
  | EnvLag => set_diag s (record_lag (s_diag s))
  | EnvTerminate => terminate s
  | EnvKeepalive now now_end =>
      match s_phase s with
      | PhAttempt rc failed not_before =>
          keepalive_step config s rc (fun rc => PhAttempt rc failed not_before) now now_end
      | PhRequest rc e candidate => keepalive_step config s rc (fun rc => PhRequest rc e candidate) now now_end
      | PhReprime rc e candidate => keepalive_step config s rc (fun rc => PhReprime rc e candidate) now now_end
      | PhDrain rc e candidate p primed =>
          keepalive_step config s rc (fun rc => PhDrain rc e candidate p primed) now now_end
      | PhStop rc e candidate p primed =>
          keepalive_step config s rc (fun rc => PhStop rc e candidate p primed) now now_end
      | _ => s
      end
  | _ => s
  end.

Definition session_step (config : PumpConfig) (s : Session) (input : Input) : Session :=
  match s_phase s, input with
  | PhPriming, InPrime events now now_end =>
      match prime_body packetizer_new events with
      | (_, _, None) => s
      | (_, _, Some (Err failure)) => on_failure config s 0 failure now
      | (p, _, Some (Ok packets)) =>
          match push_packets (pc_ring config) (s_ring s) (s_diag s) packets now now_end with
          | (ring, d, Err _) => on_failure config (set_diag (set_ring s ring) d) 0 RingClosed now
          | (ring, d, Ok _) =>
              set_phase (set_diag (set_ring s ring) (set_state d Streaming)) (PhStreaming 0 p)
          end
      end
  | PhStreaming endpoint p, InBody event now now_end =>
      match stream_until_failure (pc_ring config) (s_ring s) (s_diag s) p [(event, now, now_end)] with
      | (ring, d, p, None) => set_phase (set_diag (set_ring s ring) d) (PhStreaming endpoint p)
      | (ring, d, p, Some failure) => on_failure config (set_diag (set_ring s ring) d) endpoint failure now
      end
  | PhAttempt rc failed not_before, InTime now _ =>
      if now <? not_before then s else start_attempt config (release s failed) rc now
  | PhRequest rc endpoint candidate, InResponse valid now =>
      if valid
      then set_phase (set_diag s (set_state (s_diag s) Priming)) (PhReprime rc endpoint candidate)
      else next_attempt config (set_diag s (record_failure (s_diag s) FHttp)) rc candidate now
  | PhReprime rc endpoint candidate, InPrime events now _ =>
      match prime_body packetizer_new events with
      | (_, _, None) => s
      | (_, _, Some (Err failure)) =>
          next_attempt config (set_diag s (record_failure (s_diag s) failure)) rc candidate now
      | (p, _, Some (Ok packets)) => set_phase s (PhDrain rc endpoint candidate p packets)
      end
  | PhDrain rc endpoint candidate p primed, InTime now now_end =>
      if viewers_drained (s_diag s) (rc_drain_generation rc) (rc_drain_target rc)
      then begin_switch config s rc endpoint candidate p primed now now_end
      else if rc_deadline rc <=? now then recovery_expired (release s candidate)
      else s
  | PhStop _ endpoint candidate p primed, InTime now now_end =>
      switch_over config s endpoint candidate p primed now now_end
  | _, _ => env_step config s input
  end.

Definition session_run (config : PumpConfig) (s : Session) (inputs : list Input) : Session :=
  fold_left (session_step config) inputs s.

(** [start_native_http_ts_session] after the response headers arrived. *)
Definition session_start (config : PumpConfig) (d : Diagnostics)
    (providers : gmap string BrokerState) (lease : PoolLease) : Session :=
  mkSession (ring_new (pc_ring config)) (set_state d Priming) providers (Some lease) PhPriming.

(** ** Invariant *)

Lemma push_keeps_closed config st data now now_end :
  closed (fst (fst (push config st data now now_end))) = closed st.
Proof.
  unfold push. repeat case_match; try done. cbn.
  by destruct (push_packets_fields config (chunks_exact MPEG_TS_PACKET_SIZE data) now st) as [_ ->].
Qed.

Lemma record_write_state d n : state (record_write d n) = state d.
Proof. unfold record_write. by case_match. Qed.

Lemma push_packets_keeps config ring d data now now_end :
  let '(ring', d', _) := push_packets config ring d data now now_end in
  closed ring' = closed ring /\ state d' = state d.
Proof.
  unfold push_packets. destruct data as [|x data]; [done|].
  pose proof (push_keeps_closed config ring (x :: data) now now_end) as Hc.
  destruct (push _ _ _ _ _) as [[ring' [o|e]] notify]; [|done]. split; [done|apply record_write_state].
Qed.

Lemma stream_keeps config events ring d p :
  let '(ring', d', _, _) := stream_until_failure config ring d p events in
  closed ring' = closed ring /\ state d' = state d.
Proof.
  revert ring d p. induction events as [|[[[chunk| | |] now] now_end] events IH]; intros ring d p;
    cbn [stream_until_failure]; try done.
  destruct (packetizer_push p chunk) as [p1 [data|e]]; [|done].
  pose proof (push_packets_keeps config ring d data now now_end) as Hk.
  destruct (push_packets config ring d data now now_end) as [[ring1 d1] [u|e]]; [|done].
  specialize (IH ring1 d1 p1). destruct (stream_until_failure config ring1 d1 p1 events) as [[[r2 d2] p2] v].
  destruct Hk, IH. split; congruence.
Qed.

Lemma null_packet_ok c :
  Forall is_u8 (null_packet c) /\ zlen (null_packet c) mod MPEG_TS_PACKET_SIZE = 0.
Proof.
  split; [|done]. apply Forall_app. split; [|apply Forall_replicate; unfold is_u8; lia].
  assert (0 <= Z.lor 0x10 (Z.land c 0x0f) < 2 ^ 8).
  { change 0x0f with (2 ^ 4 - 1). rewrite land_mask by lia. change 0x10 with (Z.shiftl 1 4).
    rewrite lor_shiftl_add; [|lia|apply Z.mod_pos_bound; lia]. pose proof (Z.mod_pos_bound c (2 ^ 4)). lia. }
  repeat constructor; unfold is_u8; lia.
Qed.

Section Pump.
Context (config : PumpConfig) (Hcfg : config_ok (pc_ring config)).

(** What each phase guarantees. *)
Definition phase_ok (s : Session) : Prop :=
  match s_phase s with
  | PhDone => closed (s_ring s) <> None /\ s_lease s = None
  | PhStreaming _ p => s_lease s <> None /\ Forall is_u8 (pending p)
  | PhDrain _ _ _ p primed | PhStop _ _ _ p primed =>
      s_lease s <> None /\ Forall is_u8 (pending p) /\ Forall is_u8 primed /\
      zlen primed mod MPEG_TS_PACKET_SIZE = 0 /\
      pat_start_at (chunks_exact MPEG_TS_PACKET_SIZE primed) 0
  | _ => s_lease s <> None
  end.

Record pump_ok (s : Session) : Prop := {
  sk_ring : exists a, ring_refines (pc_ring config) (s_ring s) a;
  sk_count : 0 <= overwritten_packets (s_diag s) <= u64_max;
  sk_stopping : state (s_diag s) = Stopping -> closed (s_ring s) <> None;
}.

Definition session_inv (s : Session) : Prop := pump_ok s /\ phase_ok s.

Definition input_ok (input : Input) : Prop :=
  match input with
  | InPrime events _ _ => Forall is_u8 (body_bytes events) /\ zlen (body_bytes events) <= u64_max
  | InBody (BChunk chunk) _ _ => Forall is_u8 chunk
  | _ => True
  end.

Lemma close_refines st a reason :
  ring_refines (pc_ring config) st a ->
  let '(st', _, _) := close st reason in
  (exists a', ring_refines (pc_ring config) st' a') /\ closed st' <> None.
Proof.
  intros Href. destruct (generation_and_close_simulate _ Hcfg st a reason Href) as [_ H].
  unfold close in *. destruct (closed st) as [r|] eqn:E.
  - split; [by exists a|congruence].
  - destruct (a_close a reason) as [a' r']. destruct H as (? & _). split; [by exists a'|done].
Qed.

Lemma close_ring_ok s reason :
  pump_ok s -> pump_ok (close_ring s reason) /\ closed (s_ring (close_ring s reason)) <> None /\
  s_lease (close_ring s reason) = s_lease s /\ s_phase (close_ring s reason) = s_phase s.
Proof.
  intros [[a Ha] Hc Hs]. pose proof (close_refines _ a reason Ha) as H. unfold close_ring.
  destruct (close (s_ring s) reason) as [[ring r] n]. destruct H as [Hx Hcl]. by split; [split|].
Qed.

Lemma finish_ok s : pump_ok s -> closed (s_ring s) <> None -> session_inv (finish s).
Proof. intros [Ha Hc Hs] Hcl. split; [by split|done]. Qed.

(** A change of the diagnostics that keeps the counters in range. *)
Lemma diag_ok s d :
  pump_ok s -> 0 <= overwritten_packets d <= u64_max ->
  (state d = Stopping -> state (s_diag s) = Stopping \/ closed (s_ring s) <> None) ->
  pump_ok (set_diag s d).
Proof. intros [Ha Hc Hs] Hd Hst. split; cbn; [done|done|]. naive_solver. Qed.

(** Giving up always leaves a closed ring, whatever the state before. *)
Lemma recovery_expired_ring s a :
  ring_refines (pc_ring config) (s_ring s) a -> 0 <= overwritten_packets (s_diag s) <= u64_max ->
  session_inv (recovery_expired s) /\ s_phase (recovery_expired s) = PhDone.
Proof.
  intros Ha Hc. unfold recovery_expired, close_ring. cbn.
  match goal with |- context [close (s_ring s) ?r] => pose proof (close_refines _ a r Ha) as H end.
  destruct (close _ _) as [[ring r] n]. destruct H as [? ?]. split; [|done]. by split; [split|].
Qed.

Lemma recovery_expired_ok s : pump_ok s -> session_inv (recovery_expired s).
Proof. intros [[a Ha] Hc _]. by eapply recovery_expired_ring. Qed.

Lemma on_failure_ok s endpoint failure now :
  pump_ok s -> s_lease s <> None -> session_inv (on_failure config s endpoint failure now).
Proof.
  intros Hok Hl. pose proof Hok as [_ Hc Hst]. unfold on_failure.
  set (s1 := set_diag s (record_failure (s_diag s) failure)).
  assert (pump_ok s1) as Hok1 by (apply diag_ok; [done|done|by left]).
  destruct (is_stopping (s_diag s1)) eqn:Es.
  { apply finish_ok; [done|]. apply Hst. by apply bool_decide_eq_true in Es. }
  destruct (negb (has_viewers (s_diag s1))).
  { destruct Hok1 as [[a Ha] Hc1 _]. change (s_ring s1) with (s_ring s) in Ha.
    pose proof (close_refines _ a Shutdown Ha) as H. unfold finish, close_ring. cbn.
    destruct (close (s_ring s) Shutdown) as [[ring r] n]. destruct H as [? ?]. by split; [split|]. }
  destruct (max_window (pc_recovery config) =? 0); [by apply recovery_expired_ok|].
  split; [by destruct Hok1|done].
Qed.

Lemma next_attempt_ok s rc candidate now :
  pump_ok s -> s_lease s <> None -> session_inv (next_attempt config s rc candidate now).
Proof. intros [Ha Hc Hs] Hl. split; [by split|done]. Qed.

Lemma start_attempt_ok s rc failed not_before now :
  session_inv s -> s_phase s = PhAttempt rc failed not_before -> session_inv (start_attempt config s rc now).
Proof.
  intros [Hok Hph] Hp. pose proof Hok as [Hr Hc Hst]. unfold phase_ok in Hph. rewrite Hp in Hph. unfold start_attempt.
  destruct (negb (now <? rc_deadline rc)); [by apply recovery_expired_ok|].
  destruct (negb (has_viewers (s_diag s))); [by apply recovery_expired_ok|].
  set (d := record_reconnect _ _).
  assert (pump_ok (set_diag s d)) as Hd.
  { apply diag_ok; [done|done|]. cbn. destruct (negb _); by intros. }
  destruct (zget _ _) as [endpoint|], (s_lease (set_diag s d)) as [[pool l]|] eqn:El;
    try (split; [done|unfold phase_ok; cbn; by rewrite Hp]).
  destruct (acquire_recovery_lease _ _ _ _ _) as [providers [candidate|e]].
  - destruct Hd. split; [by split|done].
  - apply next_attempt_ok; [by destruct Hd|done].
Qed.

Lemma record_write_count d n :
  0 <= n -> 0 <= overwritten_packets d <= u64_max ->
  0 <= overwritten_packets (record_write d n) <= u64_max.
Proof. intros Hn Hd. unfold record_write. case_match; [done|]. cbn. unfold sat_add. lia. Qed.

(** A single write, whatever its outcome. *)
Lemma push_any_ok st a data now now_end :
  ring_refines (pc_ring config) st a -> Forall is_u8 data ->
  let '(st', r, _) := push (pc_ring config) st data now now_end in
  (exists a', ring_refines (pc_ring config) st' a') /\ closed st' = closed st /\
  match r with Ok o => 0 <= wo_packets_overwritten o | Err _ => True end.
Proof.
  intros Href Hu. pose proof (push_simulates _ Hcfg st a data now now_end Href Hu) as H.
  pose proof (push_keeps_closed (pc_ring config) st data now now_end) as Hc.
  destruct (push _ _ _ _ _) as [[st' r] n]. destruct (a_push a data) as [a' r'] eqn:E.
  destruct H as (Href' & -> & _). split; [by exists a'|]. split; [done|]. destruct r' as [k|]; [|done]. cbn.
  destruct (a_push_cases a data) as [[e E']|E']; rewrite E' in E; simplify_eq.
  unfold a_first, sat_sub. cbn. rewrite zlen_app. zlen_facts. lia.
Qed.

Lemma keepalive_tick_ok st a d gen target c now now_end :
  ring_refines (pc_ring config) st a -> 0 <= overwritten_packets d <= u64_max ->
  let '(st', d', _) := keepalive_tick (pc_ring config) st d gen target c now now_end in
  (exists a', ring_refines (pc_ring config) st' a') /\ 0 <= overwritten_packets d' <= u64_max /\
  closed st' = closed st /\ state d' = state d.
Proof.
  intros Href Hc. unfold keepalive_tick. destruct (viewers_drained _ _ _); [|by split; [exists a|]].
  pose proof (push_any_ok st a (null_packet c) now now_end Href (proj1 (null_packet_ok c))) as H.
  destruct (push _ _ _ _ _) as [[st' [o|e]] n]; destruct H as (? & ? & ?); [|done].
  split; [done|]. split; [by apply record_write_count|]. split; [done|apply record_write_state].
Qed.

Lemma env_step_ok s input : session_inv s -> session_inv (env_step config s input).
Proof.
  intros [Hok Hph]. pose proof Hok as [Hr Hc Hst].
  assert (forall d, overwritten_packets d = overwritten_packets (s_diag s) -> state d = state (s_diag s) ->
    session_inv (set_diag s d)) as Hdiag.
  { intros d H1 H2. split; [|done]. apply diag_ok; [done|by rewrite H1|rewrite H2; by left]. }
  assert (forall rc with_rc now now_end,
    (forall rc' s', s_lease s' = s_lease s -> s_phase s' = with_rc rc' -> phase_ok s') ->
    session_inv (keepalive_step config s rc with_rc now now_end)) as Hkeep.
  { intros rc with_rc now now_end Hw. unfold keepalive_step.
    destruct (rc_keepalive rc) as [c|]; [|done]. destruct Hr as [a Ha].
    pose proof (keepalive_tick_ok (s_ring s) a (s_diag s) (rc_drain_generation rc) (rc_drain_target rc) c
      now now_end Ha Hc) as H.
    destruct (keepalive_tick _ _ _ _ _ _ _ _) as [[ring d] k]. destruct H as (Hr' & Hc' & Hcl & Hsd).
    split; [split; cbn; [done|done|]|by eapply Hw]. rewrite Hcl, Hsd. done. }
  destruct input; cbn [env_step]; try done; try (by apply Hdiag).
  - destruct (s_phase s) eqn:Ep; try done;
      (apply Hkeep; intros rc' s' Hl Hx; unfold phase_ok in *; by rewrite Hx, Hl; rewrite Ep in Hph).
  - unfold terminate. destruct Hr as [a Ha]. pose proof (close_refines _ a Shutdown Ha) as H.
    unfold close_ring. cbn. destruct (close (s_ring s) Shutdown) as [[ring r] n]. destruct H as [? ?].
    split; [by split|]. unfold phase_ok in *. cbn. destruct (s_phase s); try done. by destruct Hph.
Qed.

Lemma final_null_ok st a d now now_end :
  ring_refines (pc_ring config) st a -> 0 <= overwritten_packets d <= u64_max ->
  let '(st', d') := push_final_keepalive_null (pc_ring config) st d now now_end in
  (exists a', ring_refines (pc_ring config) st' a' /\ a_generation a' = a_generation a) /\ d' = d.
Proof.
  intros Href Hc. unfold push_final_keepalive_null.
  pose proof (push_simulates _ Hcfg st a (null_packet 0) now now_end Href (proj1 (null_packet_ok 0))) as H.
  destruct (push _ _ _ _ _) as [[st' r] n].
  destruct (a_push_cases a (null_packet 0)) as [[e E]|E]; rewrite E in H; destruct H as (Href' & -> & _);
    (split; [by eexists|done]).
Qed.

(** A write into an empty open ring leaves exactly its packets there. *)
Lemma push_packets_open st gen d data now now_end :
  ring_refines (pc_ring config) st (mkARing gen [] None) -> Forall is_u8 data ->
  zlen data mod MPEG_TS_PACKET_SIZE = 0 ->
  let '(st', d', r) := push_packets (pc_ring config) st d data now now_end in
  match r with
  | Ok _ => ring_refines (pc_ring config) st' (mkARing gen (chunks_exact MPEG_TS_PACKET_SIZE data) None) /\
            upstream_generation d' = upstream_generation d
  | Err _ => True
  end.
Proof.
  intros Href Hu Hal. unfold push_packets. destruct data as [|x data]; [done|].
  pose proof (push_simulates _ Hcfg st _ (x :: data) now now_end Href Hu) as H.
  destruct (push _ _ _ _ _) as [[st' r] n].
  destruct (a_push_cases (mkARing gen [] None) (x :: data)) as [[e E]|E]; rewrite E in H;
    destruct H as (Href' & -> & _); [done|]. split; [done|]. unfold record_write. by case_match.
Qed.

(** The last null packet changes neither the generation nor the counters. *)
Lemma begin_switch_ok s rc endpoint candidate p primed now now_end :
  session_inv s -> s_phase s = PhDrain rc endpoint candidate p primed ->
  session_inv (begin_switch config s rc endpoint candidate p primed now now_end) /\
  s_phase (begin_switch config s rc endpoint candidate p primed now now_end) =
    PhStop rc endpoint candidate p primed.
Proof.
  intros [[[a Ha] Hc Hst] Hph] Hp. unfold phase_ok in Hph. rewrite Hp in Hph. unfold begin_switch.
  pose proof (final_null_ok (s_ring s) a (s_diag s) now now_end Ha Hc) as H.
  pose proof (push_keeps_closed (pc_ring config) (s_ring s) (null_packet 0) now now_end) as Hcl.
  unfold push_final_keepalive_null in *.
  destruct (push _ _ _ _ _) as [[ring [o|e]] n]; destruct H as [(a' & Ha' & _) _];
    (split; [split; [|done]|done]); split; cbn in *; try done; try (by exists a'); by rewrite Hcl.
Qed.

(** The switch to a recovered upstream: it either ends the session or starts
    the next generation with exactly the primed packets. *)
Lemma switch_over_ok s a endpoint candidate p primed now now_end :
  pump_ok s -> s_lease s <> None -> Forall is_u8 (pending p) -> Forall is_u8 primed ->
  zlen primed mod MPEG_TS_PACKET_SIZE = 0 -> ring_refines (pc_ring config) (s_ring s) a ->
  let s' := switch_over config s endpoint candidate p primed now now_end in
  session_inv s' /\
  (s_phase s' = PhDone \/
   s_phase s' = PhStreaming endpoint p /\ state (s_diag s') = Streaming /\
   upstream_generation (s_diag s') = a_generation a + 1 /\
   ring_refines (pc_ring config) (s_ring s')
     (mkARing (a_generation a + 1) (chunks_exact MPEG_TS_PACKET_SIZE primed) None)).
Proof.
  intros [_ Hc Hst] Hl Hp Hu Hal Ha. cbn zeta. unfold switch_over.
  destruct (generation_and_close_simulate _ Hcfg (s_ring s) a EndOfStream Ha) as [H2 _].
  destruct (start_new_generation (s_ring s)) as [[ring2 r2] n2], (a_new_generation a) as [a2 r2'] eqn:Ea2.
  destruct H2 as (Ha2 & -> & _).
  destruct r2' as [g|e].
  2: { destruct (recovery_expired_ring (release (set_diag (set_ring s ring2) (s_diag s)) candidate) a2 Ha2 Hc).
       split; [done|by left]. }
  assert (a2 = mkARing (a_generation a + 1) [] None /\ g = a_generation a + 1) as [-> ->].
  { unfold a_new_generation in Ea2. case_match; by simplify_eq. }
  pose proof (push_packets_ok _ Hcfg ring2 _ (set_generation (s_diag s) (a_generation a + 1)) primed now now_end
    Ha2 Hu Hal Hc) as H3.
  pose proof (push_packets_open ring2 _ (set_generation (s_diag s) (a_generation a + 1)) primed now now_end
    Ha2 Hu Hal) as H4.
  destruct (push_packets _ _ _ _ _ _) as [[ring3 d3] [u|e]]; destruct H3 as [(a3 & Ha3 & _ & _ & Hf & Ho) _].
  2: { destruct (recovery_expired_ring
         (release (set_diag (set_ring s ring3) (record_failure d3 RingClosed)) candidate) a3 Ha3) as [? ?].
       - cbn [s_diag release set_diag record_failure overwritten_packets]. rewrite Ho. unfold sat_add.
         cbn [set_generation overwritten_packets]. lia.
       - split; [done|by left]. }
  destruct (match candidate with Some _ => _ | None => _ end) as [providers lease] eqn:Elease.
  assert (lease <> None) as Hlease by (destruct candidate; simplify_eq; done).
  destruct H4 as [H4 Hgen]. split.
  - split; [|by split]. split; cbn; [by eexists| |done]. rewrite Ho. unfold sat_add.
    cbn [set_generation overwritten_packets]. lia.
  - right. cbn. done.
Qed.

Lemma body_step_ok s endpoint p event now now_end :
  session_inv s -> s_phase s = PhStreaming endpoint p -> input_ok (InBody event now now_end) ->
  session_inv (session_step config s (InBody event now now_end)).
Proof.
  intros [Hok Hph] Hp Hin. pose proof Hok as [[a Ha] Hc Hst]. unfold phase_ok in Hph. rewrite Hp in Hph.
  destruct Hph as [Hl Hu]. unfold session_step. rewrite Hp.
  assert (Forall is_u8 (body_bytes (map chunk_of [(event, now, now_end)]))) as Hb
    by (destruct event; cbn in *; rewrite ?app_nil_r; done).
  pose proof (stream_until_failure_ok _ Hcfg [(event, now, now_end)] (s_ring s) a (s_diag s) p Ha Hu Hb Hc) as H.
  pose proof (stream_keeps (pc_ring config) [(event, now, now_end)] (s_ring s) (s_diag s) p) as Hk.
  destruct (stream_until_failure _ _ _ _ _) as [[[ring d] p'] verdict].
  destruct H as (a' & chunks & rest & Ha' & _ & Hev & _ & Hf & Ho & Hdata), Hk as [Hk1 Hk2].
  assert (pump_ok (set_diag (set_ring s ring) d)) as Hok'.
  { split; cbn; [by exists a'|rewrite Ho; unfold sat_add; lia|]. by rewrite Hk1, Hk2. }
  destruct verdict as [failure|]; [by apply on_failure_ok|].
  split; [by destruct Hok'|]. split; [done|]. cbn.
  destruct (Hdata ltac:(done)) as (data & _ & _ & Heq).
  assert (Forall is_u8 (data ++ pending p')) as Hall; [|by apply Forall_app in Hall as [_ ?]].
  rewrite <- Heq. apply Forall_app. split; [done|]. rewrite <- body_bytes_chunks.
  rewrite Hev, body_bytes_app in Hb. by apply Forall_app in Hb as [? _].
Qed.

Lemma session_step_inv s input : session_inv s -> input_ok input -> session_inv (session_step config s input).
Proof.
  intros Hi Hin. pose proof Hi as [Hok Hph]. pose proof Hok as [[a Ha] Hc Hst].
  destruct (s_phase s) as [|e p|rc failed nb|rc e cand|rc e cand|rc e cand p primed|rc e cand p primed|] eqn:Hp;
    destruct input as [events now now_end|event now now_end|valid now|now now_end| | | | | |];
    try (unfold session_step; rewrite Hp; by apply env_step_ok).
  - unfold session_step. rewrite Hp. destruct Hin as [Hu Hmax]. unfold phase_ok in Hph. rewrite Hp in Hph.
    destruct (prime_body packetizer_new events) as [[p rest] [[packets|failure]|]] eqn:Epr; [| |done].
    2: by apply on_failure_ok.
    destruct (primed_ok events p rest packets Hu Hmax Epr) as (Hpu & Hpp & Hal & _).
    pose proof (push_packets_ok _ Hcfg (s_ring s) a (s_diag s) packets now now_end Ha Hpu Hal Hc) as H.
    pose proof (push_packets_keeps (pc_ring config) (s_ring s) (s_diag s) packets now now_end) as Hk.
    destruct (push_packets _ _ _ _ _ _) as [[ring d] r]. destruct H as [(a' & Ha' & _ & _ & Hf & Ho) _], Hk as [Hk1 Hk2].
    assert (0 <= overwritten_packets d <= u64_max) as Hd by (rewrite Ho; unfold sat_add; lia).
    destruct r as [u|err].
    + split; [split; cbn; [by exists a'|done|done]|done].
    + apply on_failure_ok; [|done]. split; cbn; [by exists a'|done|]. by rewrite Hk1, Hk2.
  - by eapply body_step_ok.
  - unfold session_step. rewrite Hp. destruct (now <? nb); [done|].
    apply (start_attempt_ok (release s failed) rc failed nb); [|done]. split; [by destruct Hok|done].
  - unfold session_step. rewrite Hp. unfold phase_ok in Hph. rewrite Hp in Hph. destruct valid.
    + split; [|done]. destruct Hok. by split.
    + apply next_attempt_ok; [|done]. by apply diag_ok; [| |left].
  - unfold session_step. rewrite Hp. destruct Hin as [Hu Hmax]. unfold phase_ok in Hph. rewrite Hp in Hph.
    destruct (prime_body packetizer_new events) as [[p rest] [[packets|failure]|]] eqn:Epr; [| |done].
    + destruct (primed_ok events p rest packets Hu Hmax Epr) as (Hpu & Hpp & Hal & Hpat).
      split; [by destruct Hok|]. by split_and!.
    + apply next_attempt_ok; [|done]. by apply diag_ok; [| |left].
  - unfold session_step. rewrite Hp. unfold phase_ok in Hph. rewrite Hp in Hph.
    destruct (viewers_drained _ _ _).
    + by apply begin_switch_ok.
    + destruct (rc_deadline rc <=? now); [|done]. by eapply (recovery_expired_ring (release s cand)).
  - unfold session_step. rewrite Hp. unfold phase_ok in Hph. rewrite Hp in Hph.
    destruct Hph as (Hl & Hpp & Hpu & Hal & Hpat). by apply (switch_over_ok s a).
Qed.

Lemma session_run_inv inputs s :
  session_inv s -> Forall input_ok inputs -> session_inv (session_run config s inputs).
Proof.
  intros Hs Hin. revert s Hs. induction Hin as [|input inputs Hi Hin IH]; intros s Hs; [done|].
  apply IH. by apply session_step_inv.
Qed.

Lemma session_start_inv d providers lease :
  0 <= overwritten_packets d <= u64_max -> session_inv (session_start config d providers lease).
Proof. intros Hd. split; [split; cbn; [eexists; by apply ring_new_refines|done|done]|done]. Qed.

(** ** Properties *)

(** C4. A session that ends leaves nobody hanging: whatever the upstream,
    the clock, the viewers, the keepalive task and the operator do, when the
    pump has returned its ring is closed, so every viewer's stream ends, and
    its provider slot has been given up. *)
Theorem finished_session_is_closed d providers lease inputs :
  0 <= overwritten_packets d <= u64_max -> Forall input_ok inputs ->
  let s := session_run config (session_start config d providers lease) inputs in
  s_phase s = PhDone -> closed (s_ring s) <> None /\ s_lease s = None.
Proof.
  intros Hd Hin s Hdone.
  destruct (session_run_inv inputs _ (session_start_inv d providers lease Hd) Hin) as [_ Hph].
  fold s in Hph. unfold phase_ok in Hph. by rewrite Hdone in Hph.
Qed.

(** C3. A recovery is a clean cut: in every reachable state in which a
    replacement upstream is primed, the pump leaves the old generation only if
    every viewer has drained it up to the point where recovery began; as long
    as one has not it waits, and gives up exactly from the deadline on.  Once
    the keepalive task has stopped, it either ends the session or leaves the
    ring in the next generation holding exactly the primed packets, the first
    of which starts a PAT. *)
Theorem recovery_is_clean_cut d providers lease inputs rc endpoint candidate p primed now now_end :
  0 <= overwritten_packets d <= u64_max -> Forall input_ok inputs ->
  let s := session_run config (session_start config d providers lease) inputs in
  let s' := session_step config s (InTime now now_end) in
  let drained := forall id viewer, viewers (s_diag s) !! id = Some viewer ->
    rc_drain_generation rc < vp_generation viewer \/
    vp_generation viewer = rc_drain_generation rc /\ rc_drain_target rc <= vp_next_sequence viewer in
  (s_phase s = PhDrain rc endpoint candidate p primed ->
   drained /\ s_phase s' = PhStop rc endpoint candidate p primed \/
   ~ drained /\ now < rc_deadline rc /\ s' = s \/
   ~ drained /\ rc_deadline rc <= now /\ s_phase s' = PhDone) /\
  (s_phase s = PhStop rc endpoint candidate p primed ->
   s_phase s' = PhDone \/
   s_phase s' = PhStreaming endpoint p /\ state (s_diag s') = Streaming /\
   ring_refines (pc_ring config) (s_ring s')
     (mkARing (generation (s_ring s) + 1) (chunks_exact MPEG_TS_PACKET_SIZE primed) None) /\
   pat_start_at (chunks_exact MPEG_TS_PACKET_SIZE primed) 0).
Proof.
  intros Hd Hin s. cbn zeta.
  pose proof (session_run_inv inputs _ (session_start_inv d providers lease Hd) Hin) as Hi.
  fold s in Hi. clearbody s. pose proof Hi as [Hok Hph]. pose proof Hok as [[a Ha] Hc _].
  unfold phase_ok in Hph. unfold session_step. split; intros Hp; rewrite Hp in *.
  - destruct (viewers_drained _ _ _) eqn:Hdr.
    + left. split; [by apply viewers_drained_iff|]. by apply begin_switch_ok.
    + right. rewrite <- viewers_drained_iff, Hdr.
      destruct (Z.leb_spec (rc_deadline rc) now); [right|left; done].
      split; [done|]. split; [done|]. by apply (recovery_expired_ring (release s candidate) a).
  - destruct Hph as (Hl & Hpp & Hpu & Hal & Hpat).
    destruct (switch_over_ok s a endpoint candidate p primed now now_end Hok Hl Hpp Hpu Hal Ha)
      as [_ [Hdone|(H1 & H2 & _ & H3)]]; [by left|right].
    destruct Ha as (-> & _). done.
Qed.

End Pump.

(** An operator's [terminate] that arrives while the pump waits for the
    viewers to drain does not last: the switch to the new upstream reopens the
    ring and reports the session as streaming again. *)
Lemma terminate_undone_by_recovery config d providers lease inputs rc endpoint candidate p primed
    now now_end now' now_end' :
  config_ok (pc_ring config) -> 0 <= overwritten_packets d <= u64_max -> Forall input_ok inputs ->
  let s := session_run config (session_start config d providers lease) inputs in
  s_phase s = PhDrain rc endpoint candidate p primed ->
  viewers_drained (s_diag s) (rc_drain_generation rc) (rc_drain_target rc) = true ->
  let s1 := session_step config s EnvTerminate in
  let s2 := session_step config (session_step config s1 (InTime now now_end)) (InTime now' now_end') in
  closed (s_ring s1) <> None /\ state (s_diag s1) = Stopping /\
  (s_phase s2 <> PhDone -> closed (s_ring s2) = None /\ state (s_diag s2) = Streaming).
Proof.
  intros Hcfg Hd Hin s Hp Hdr. cbn zeta.
  pose proof (session_run_inv config Hcfg inputs _ (session_start_inv config Hcfg d providers lease Hd) Hin) as Hi.
  fold s in Hi. assert (session_step config s EnvTerminate = terminate s) as Hs1.
  { unfold session_step. by rewrite Hp. }
  pose proof (session_step_inv config Hcfg s EnvTerminate Hi I) as Hi1. rewrite Hs1 in *.
  assert (s_phase (terminate s) = s_phase s /\ state (s_diag (terminate s)) = Stopping /\
          viewers (s_diag (terminate s)) = viewers (s_diag s)) as (Hp1 & Hst1 & Hv1).
  { unfold terminate, close_ring. cbn. by destruct (close _ _) as [[? ?] ?]. }
  rewrite Hp in Hp1. split; [by apply (sk_stopping _ _ (proj1 Hi1))|]. split; [done|].
  assert (session_step config (terminate s) (InTime now now_end) =
          begin_switch config (terminate s) rc endpoint candidate p primed now now_end) as ->.
  { unfold session_step. rewrite Hp1. unfold viewers_drained in *. by rewrite Hv1, Hdr. }
  destruct (begin_switch_ok config Hcfg (terminate s) rc endpoint candidate p primed now now_end Hi1 Hp1)
    as [[Hok Hph] Hp2].
  unfold phase_ok in Hph. unfold session_step. rewrite Hp2 in *. destruct Hph as (Hl & Hpp & Hpu & Hal & _).
  pose proof Hok as [[a Ha] _ _].
  destruct (switch_over_ok config Hcfg _ a endpoint candidate p primed now' now_end' Hok Hl Hpp Hpu Hal Ha)
    as [_ [Hdone|(_ & Hst & _ & (_ & _ & Hcl & _))]]; done.
Qed.

(** Fair failover: the attempts of a recovery walk the endpoints in
    order, so every one of [n] endpoints is tried within [n] attempts, and
    with more than one endpoint the first attempt is not the endpoint that
    just failed. *)
Theorem every_endpoint_tried endpoints previous index :
  0 <= previous < endpoints -> endpoints < 2 ^ 62 -> 0 <= index < endpoints ->
  (exists attempt, 0 <= attempt < endpoints /\ endpoint_index endpoints previous attempt = index) /\
  (1 < endpoints -> endpoint_index endpoints previous 0 <> previous).
Proof.
  intros Hp He Hi. unfold endpoint_index, wrap64. set (o := if 1 <? endpoints then 1 else 0).
  assert (0 <= o <= 1) by (unfold o; case_match; lia). split.
  - exists ((index - previous - o) mod endpoints).
    pose proof (Z.mod_pos_bound (index - previous - o) endpoints ltac:(lia)) as Hb. split; [lia|].
    rewrite Z.mod_small with (b := 2 ^ 64) by lia. rewrite Zplus_mod_idemp_r.
    replace (previous + o + (index - previous - o)) with index by lia. by apply Z.mod_small.
  - intros Hn. assert (o = 1) as -> by (unfold o; by rewrite (proj2 (Z.ltb_lt _ _))).
    rewrite Z.mod_small with (b := 2 ^ 64) by lia. rewrite Z.add_0_r.
    destruct (decide (previous + 1 = endpoints)) as [E|].
    + rewrite E, Z.mod_same by lia. lia.
    + rewrite Z.mod_small by lia. lia.
Qed.

(** Pacing leaves a margin: a viewer that [near_overrun] lets wait is at
    least a quarter of the ring away from being overwritten, so the writer may
    append another quarter of a ring before the viewer could lag. *)
Theorem paced_viewer_has_margin config h ring position :
  config_ok config -> ring_inv config h ring -> 0 <= position <= zlen h ->
  near_overrun config ring (generation ring) position = false ->
  first_sequence ring <= position /\
  forall packets ring', ring_inv config (h ++ packets) ring' ->
    4 * zlen packets <= capacity_packets config -> first_sequence ring' <= position.
Proof.
  intros (Hc & Hcap & _) Hi Hp Hn. unfold near_overrun, snapshot in Hn. cbn in Hn.
  rewrite Z.eqb_refl in Hn. cbn in Hn. rewrite (ring_inv_next _ _ _ Hi) in Hn.
  unfold sat_mul, sat_sub, CATCH_UP_QUARTERS, MPEG_TS_PACKET_SIZE, u64_max in *.
  assert (4 * (zlen h - position) < 3 * capacity_packets config) as Hb by lia.
  rewrite (ring_inv_first _ _ _ Hi). unfold sat_sub. split; [lia|].
  intros packets ring' Hi' Hpk. rewrite (ring_inv_first _ _ _ Hi'). unfold sat_sub. rewrite zlen_app. lia.
Qed.

(** ** Allocation keys *)

Fixpoint has_separator (s : string) : bool :=
  match s with
  | EmptyString => false
  | String.String c s => bool_decide (c = Ascii.ascii_of_nat 31) || has_separator s
  end.

Lemma separator_split a b x y :
  has_separator a = false -> has_separator b = false ->
  a +:+ unit_separator +:+ x = b +:+ unit_separator +:+ y -> a = b /\ x = y.
Proof.
  revert b. induction a as [|c a IH]; intros [|c' b]; cbn; intros Ha Hb E; simplify_eq.
  - done.
  - apply orb_false_iff in Ha as [_ Ha], Hb as [_ Hb]. by destruct (IH b Ha Hb ltac:(done)) as [-> ->].
Qed.

(** Slots are not shared by accident: two sources whose identifiers do
    not contain the separator get the same allocation key only if they are the
    same source in the same generation, so the broker's per-key idempotence
    never merges two different sessions. *)
Theorem allocation_key_injective k1 k2 :
  has_separator (provider_pool_id k1) = false -> has_separator (source_id k1) = false ->
  has_separator (provider_pool_id k2) = false -> has_separator (source_id k2) = false ->
  0 <= key_generation k1 -> 0 <= key_generation k2 ->
  allocation_key k1 = allocation_key k2 -> k1 = k2.
Proof.
  intros Hp1 Hs1 Hp2 Hs2 Hg1 Hg2 E. unfold allocation_key, format_allocation_key in E.
  apply separator_split in E as [Hp E]; [|done..]. apply separator_split in E as [Hs E]; [|done..].
  apply (inj pretty) in E. destruct k1 as [p1 i1 g1], k2 as [p2 i2 g2]. cbn in *. f_equal; [done..|].
  apply (f_equal Z.of_N) in E. rewrite !Z2N.id in E by done. done.
Qed.
