(* ===== verification/Viewer.v ===== *)
(** * Viewers and the session manager

    Models the outward half of [crates/media/src/session.rs]: the viewer's byte
    stream over its ring cursor, the monitor of a process adapter's ring, and
    the manager's provider table with the start of a session. *)
From Stdlib Require Import ZArith Lia.
From stdpp Require Import base numbers option strings.
From stdpp Require Import gmap.
From stdpp Require Import list sorting.
From S2P Require Import Prelude Process Psi Pacing Meter Ring RingSpec RingCursor Broker Recovery Upstream Session.
Open Scope Z_scope.

(** ** The viewer's stream *)

Inductive ViewerStreamError :=
| VRing (error : RingReadError)
| VLagged (skipped_packets : Z)
| VGenerationChanged (previous_generation generation : Z)
| VUpstream (message : bytes)
| VRecoveryExpired (attempts : Z).

(** [ViewerHandle] turned into a stream: its cursor, the identifier of its
    registration and, when a viewer delay is set, its pacer. *)
Record Viewer := mkViewer {
  v_cursor : RingCursor;
  v_id : Z;
  v_pacer : option Pacer;
}.

(** [ViewerHandle::new] and the start of [into_byte_stream] *)
Definition viewer_new (config : MpegTsRingConfig) (ring : RingState) (d : Diagnostics)
    (viewer_delay now : Z) : Diagnostics * Viewer :=
  let cursor :=
    if viewer_delay =? 0 then subscribe config ring
    else subscribe_with_delay config ring viewer_delay now in
  let '(d, id) := register_viewer d (cur_generation cursor) (cur_next_sequence cursor) in
  (d, mkViewer cursor id (if viewer_delay =? 0 then None else Some pacer_default)).

Record ViewerStartupStatus := mkViewerStartupStatus {
  vs_buffered : bool;
  vs_lead : option Z;
  vs_closed : bool;
}.

(** [ViewerHandle::startup_status]; the lead is nanoseconds. *)
Definition startup_status (config : MpegTsRingConfig) (ring : RingState) (cursor : RingCursor)
    (now : Z) : ViewerStartupStatus :=
  let snapshot := snapshot config ring in
  let generation := cur_generation cursor in
  let position := cur_next_sequence cursor in
  mkViewerStartupStatus
    (negb (snap_generation snapshot =? generation) || (position <? snap_next_sequence snapshot))
    ((fun millis => millis * 1000000) <$> lead_millis ring generation position now)
    (match snap_closed snapshot with Some _ => true | None => false end).

(** What one turn of the stream's loop does: sleep and send, go on, wait for
    the ring, end the body, or fail it. *)
Inductive Action :=
| AYield (hold : Z) (data : bytes)
| AContinue
| AWait
| AEnd
| AFail (error : ViewerStreamError).

(** How long a paced viewer waits before it sends this batch. *)
Definition pace_batch (config : MpegTsRingConfig) (ring : RingState) (pacer : option Pacer)
    (gen first now : Z) : option Pacer * Z :=
  match pacer with
  | None => (None, 0)
  | Some pacer =>
      if near_overrun config ring gen first then (Some (pacer_reset pacer), 0)
      else
        let '(pacer, hold) :=
          pacer_hold pacer (mkBatchPosition first (ring_ticks_at ring gen first) (byte_rate_bps ring now)) now in
        (Some pacer, hold)
  end.

Definition reset_pacer (pacer : option Pacer) : option Pacer := pacer_reset <$> pacer.

(** One turn of the loop in [into_byte_stream], from the read to the [yield].
    The registration is updated after the hold; the turn is one step here, so
    its diagnostics are those at its end. *)
Definition viewer_turn (config : MpegTsRingConfig) (ring : RingState) (d : Diagnostics) (v : Viewer)
    (max_packets now : Z) : Diagnostics * Viewer * Action :=
  let '(cursor, r) := try_next config ring (v_cursor v) max_packets in
  let at_cursor pacer := mkViewer cursor (v_id v) pacer in
  match r with
  | Err error => (d, at_cursor (v_pacer v), AFail (VRing error))
  | Ok None => (d, at_cursor (reset_pacer (v_pacer v)), AWait)
  | Ok (Some (Packets gen first data)) =>
      let '(pacer, hold) := pace_batch config ring (v_pacer v) gen first now in
      (update_viewer d (v_id v) gen (cur_next_sequence cursor), at_cursor pacer, AYield hold data)
  | Ok (Some (Lagged _ _ _)) =>
      (update_viewer (record_lag d) (v_id v) (cur_generation cursor) (cur_next_sequence cursor),
       at_cursor (reset_pacer (v_pacer v)), AContinue)
  | Ok (Some (GenerationBoundary _ gen)) =>
      (update_viewer d (v_id v) gen (cur_next_sequence cursor),
       at_cursor (reset_pacer (v_pacer v)), AContinue)
  | Ok (Some (Closed _ (EndOfStream | Shutdown))) => (d, at_cursor (v_pacer v), AEnd)
  | Ok (Some (Closed _ (UpstreamError message))) => (d, at_cursor (v_pacer v), AFail (VUpstream message))
  | Ok (Some (Closed _ (RecoveryExpired attempts))) =>
      (d, at_cursor (v_pacer v), AFail (VRecoveryExpired attempts))
  end.

(** ** The monitor of a process adapter's ring *)

(** One event of the loop in [monitor_process_input]; [None] ends it. *)
Definition monitor_event (config : MpegTsRingConfig) (ring : RingState) (d : Diagnostics)
    (previous_first_sequence : Z) (event : result RingRead RingReadError) : Diagnostics * option Z :=
  match event with
  | Ok (Packets _ _ _) =>
      let snapshot := snapshot config ring in
      let overwritten := sat_sub (snap_first_sequence snapshot) previous_first_sequence in
      (record_write (set_state d Streaming) overwritten, Some (snap_first_sequence snapshot))
  | Ok (Lagged _ _ _) | Ok (GenerationBoundary _ _) => (d, Some previous_first_sequence)
  | Ok (Closed _ Shutdown) | Err _ => (d, None)
  | Ok (Closed _ EndOfStream) => (set_state (record_failure d UpstreamEnded) Failed, None)
  | Ok (Closed _ (UpstreamError _)) | Ok (Closed _ (RecoveryExpired _)) =>
      (set_state (record_failure d FHttp) Failed, None)
  end.

(** ** The manager *)

Record ProviderSpec := mkProviderSpec { spec_pool_id : string; max_connections : Z }.

Record HttpTsEndpoint := mkHttpTsEndpoint { he_pool_id : option string; he_url : string }.

Definition effective_pool_id (endpoint : HttpTsEndpoint) (default_pool : string) : string :=
  default default_pool (he_pool_id endpoint).


Record HttpTsSourceSpec := mkHttpTsSourceSpec {
  src_key : HttpTsSessionKey;
  src_endpoints : list HttpTsEndpoint;
  src_adapter_policy : InputAdapterPolicy;
  src_process_input_format : BrokeredInputFormat;
}.

Inductive SessionStartError :=
| UnknownProvider (pool_id : string)
| Provider (error : AcquireError)
| StartupTimeout
| HttpError (message : bytes)
| ProcessError (adapter : SessionInputAdapter)
| ProcessInputRequiresProcessAdapter.

Abbreviation Providers := (gmap string BrokerState).

Definition configure_provider (providers : Providers) (provider : ProviderSpec) : Providers :=
  match providers !! spec_pool_id provider with
  | Some broker => <[spec_pool_id provider := set_capacity broker (max_connections provider)]> providers
  | None =>
      <[spec_pool_id provider := broker_new (spec_pool_id provider) (max_connections provider)]> providers
  end.

Definition provider_snapshot (providers : Providers) (pool : string) : Providers * option PoolSnapshot :=
  match providers !! pool with
  | Some broker =>
      let '(broker, snapshot) := broker_snapshot broker in (<[pool := broker]> providers, Some snapshot)
  | None => (providers, None)
  end.

(** [None] is the panic of the [expect], which the first line rules out. *)
Definition reserve_provider_slot (providers : Providers) (pool : string) (capacity : Z) (key : string)
  : Providers * option (result SlotLease AcquireError) :=
  let providers := configure_provider providers (mkProviderSpec pool capacity) in
  match providers !! pool with
  | Some broker =>
      let '(broker, r) := try_acquire broker key in (<[pool := broker]> providers, Some r)
  | None => (providers, None)
  end.

(** The check at the head of [open_with_capacity_wait]. *)
Fixpoint first_unknown_provider (providers : Providers) (default_pool : string)
    (endpoints : list HttpTsEndpoint) : option string :=
  match endpoints with
  | [] => None
  | endpoint :: endpoints =>
      let pool := effective_pool_id endpoint default_pool in
      match providers !! pool with
      | None => Some pool
      | Some _ => first_unknown_provider providers default_pool endpoints
      end
  end.

(** Endpoints in the order a new session tries them. *)
Definition select_endpoints (providers : Providers) (source : HttpTsSourceSpec) : list HttpTsEndpoint :=
  let active :=
    match src_endpoints source with
    | endpoint :: _ =>
        match providers !! effective_pool_id endpoint (provider_pool_id (src_key source)) with
        | Some broker => ps_active_sessions (snd (broker_snapshot broker))
        | None => 0
        end
    | [] => 0
    end in
  rotate_endpoints active (src_endpoints source).

(** [start_http_ts_session] up to the adapter's own start, without waiting for
    capacity: the endpoint order, the slot, and the adapter it hands them to. *)
Definition start_http_ts_session (providers : Providers) (source : HttpTsSourceSpec)
  : Providers * result (list HttpTsEndpoint * PoolLease * SessionInputAdapter) SessionStartError :=
  let endpoints := select_endpoints providers source in
  match endpoints with
  | [] => (providers, Err (UnknownProvider (provider_pool_id (src_key source))))
  | primary :: _ =>
      let pool := effective_pool_id primary (provider_pool_id (src_key source)) in
      match providers !! pool with
      | None => (providers, Err (UnknownProvider pool))
      | Some broker =>
          match try_acquire broker (allocation_key (src_key source)) with
          | (broker, Err error) => (<[pool := broker]> providers, Err (Provider error))
          | (broker, Ok lease) =>
              let adapter := selected_adapter (src_adapter_policy source) in
              match adapter, src_process_input_format source with
              | NativeTs, Hls _ =>
                  (<[pool := lease_drop broker lease]> providers, Err ProcessInputRequiresProcessAdapter)
              | _, _ => (<[pool := broker]> providers, Ok (endpoints, (pool, lease), adapter))
              end
          end
      end
  end.

(** [open_with_capacity_wait] up to the registry's initializer. *)
Definition open_source (providers : Providers) (source : HttpTsSourceSpec)
  : Providers * result (list HttpTsEndpoint * PoolLease * SessionInputAdapter) SessionStartError :=
  match first_unknown_provider providers (provider_pool_id (src_key source)) (src_endpoints source) with
  | Some pool => (providers, Err (UnknownProvider pool))
  | None => start_http_ts_session providers source
  end.

(** ** Properties of a viewer's stream *)

(** The viewer's loop over the ring states it meets. *)
Fixpoint viewer_run (config : MpegTsRingConfig) (d : Diagnostics) (v : Viewer) (max_packets : Z)
    (turns : list (RingState * Z)) : Diagnostics * Viewer * list Action :=
  match turns with
  | [] => (d, v, [])
  | (ring, now) :: turns =>
      let '(d, v, action) := viewer_turn config ring d v max_packets now in
      let '(d, v, actions) := viewer_run config d v max_packets turns in
      (d, v, action :: actions)
  end.

Definition sent (action : Action) : option bytes :=
  match action with AYield _ data => Some data | _ => None end.

Definition hold_of (action : Action) : Z :=
  match action with AYield hold _ => hold | _ => 0 end.

Definition unpaced (v : Viewer) : Viewer := mkViewer (v_cursor v) (v_id v) None.

(** The same action but for the hold. *)
Definition same_action (a b : Action) : Prop :=
  match a, b with
  | AYield _ data, AYield _ data' => data = data'
  | _, _ => a = b
  end.

Lemma pace_batch_spec config ring pacer gen first now :
  let '(pacer', hold) := pace_batch config ring pacer gen first now in
  0 <= hold <= MAX_HOLD /\ (pacer = None -> pacer' = None /\ hold = 0).
Proof.
  unfold pace_batch. destruct pacer as [pacer|]; [|by split].
  destruct (near_overrun _ _ _ _); [by split|].
  pose proof (pacer_hold_bounded pacer
    (mkBatchPosition first (ring_ticks_at ring gen first) (byte_rate_bps ring now)) now) as Hb.
  destruct (pacer_hold _ _ _) as [p hold]. cbn in Hb. by split.
Qed.

Lemma viewer_turn_unpaced config ring d v max_packets now :
  let '(d1, v1, a1) := viewer_turn config ring d v max_packets now in
  let '(d2, v2, a2) := viewer_turn config ring d (unpaced v) max_packets now in
  d1 = d2 /\ unpaced v1 = unpaced v2 /\ v_pacer v2 = None /\ same_action a1 a2 /\
  0 <= hold_of a1 <= MAX_HOLD /\ hold_of a2 = 0.
Proof.
  unfold viewer_turn. cbn [v_cursor unpaced v_id v_pacer reset_pacer fmap option_fmap option_map].
  destruct (try_next config ring (v_cursor v) max_packets) as [c [[[g f data|g s r|p g|g [| |m|n]]|]|e]];
    try done.
  pose proof (pace_batch_spec config ring (v_pacer v) g f now) as H.
  destruct (pace_batch _ _ _ _ _ _) as [pacer hold]. cbn. by destruct H.
Qed.

(** Pacing only delays: over any sequence of ring states, a paced viewer
    reads, sends, reports and fails exactly as an unpaced one does, batch for
    batch; the pacer only inserts waits, none of which is longer than five
    seconds, and an unpaced viewer never waits before sending. *)
Theorem pacing_only_delays config d v max_packets turns :
  let '(d1, v1, actions1) := viewer_run config d v max_packets turns in
  let '(d2, v2, actions2) := viewer_run config d (unpaced v) max_packets turns in
  d1 = d2 /\ unpaced v1 = unpaced v2 /\ Forall2 same_action actions1 actions2 /\
  Forall (fun a => 0 <= hold_of a <= MAX_HOLD) actions1 /\ Forall (fun a => hold_of a = 0) actions2.
Proof.
  revert d v. induction turns as [|[ring now] turns IH]; intros d v; cbn [viewer_run]; [done|].
  pose proof (viewer_turn_unpaced config ring d v max_packets now) as H.
  destruct (viewer_turn config ring d v max_packets now) as [[d1 v1] a1],
    (viewer_turn config ring d (unpaced v) max_packets now) as [[d2 v2] a2].
  destruct H as (<- & Hv & Hp & Ha & Hh1 & Hh2).
  assert (v2 = unpaced v1) as ->.
  { rewrite Hv. destruct v2. cbn in *. by subst. }
  specialize (IH d1 v1). destruct (viewer_run config d1 v1 max_packets turns) as [[d3 v3] as3],
    (viewer_run config d1 (unpaced v1) max_packets turns) as [[d4 v4] as4].
  destruct IH as (-> & -> & ? & ? & ?). split_and!; try done; by constructor.
Qed.

(** ** Properties of the manager *)

Definition providers_inv (providers : Providers) : Prop := map_Forall (fun _ b => broker_inv b) providers.

(** Connections in use at a pool. *)
Definition pool_connections (providers : Providers) (pool : string) : Z :=
  match providers !! pool with Some broker => connections broker | None => 0 end.

Lemma rotate_permutation {A} (n : Z) (l : list A) : rotate_endpoints n l ≡ₚ l.
Proof.
  unfold rotate_endpoints. destruct (n <? zlen l); [|done].
  rewrite Permutation_app_comm. by rewrite ztake_zdrop.
Qed.

(** An acquisition that is given back at once leaves the pool as it was. *)
Lemma acquire_then_drop b key b' lease :
  broker_inv b -> try_acquire b key = (b', Ok lease) -> connections (lease_drop b' lease) = connections b.
Proof.
  intros Hi E. destruct (try_acquire_spec b key Hi) as [(id & l & [Hl Hk] & E')|[Hno Ho]].
  - rewrite E in E'. injection E' as -> ->. unfold lease_drop, connections. cbn [lease_id leases].
    rewrite lookup_insert_eq. cbn [count_up strong_count].
    rewrite (proj2 (Pos.eqb_neq _ _)) by lia. cbn. rewrite insert_insert_eq.
    by rewrite map_size_insert_Some by (by exists l).
  - rewrite E in Ho. inversion Ho; subst. unfold lease_drop, connections. cbn [lease_id leases].
    rewrite lookup_insert_eq. cbn. rewrite delete_insert_eq, delete_id; [done|by apply next_lease_free].
Qed.

(** What a successful acquisition gives. *)
Lemma acquire_ok_spec b key b' lease :
  broker_inv b -> try_acquire b key = (b', Ok lease) ->
  (exists l, leases b' !! lease_id lease = Some l /\ session_key l = key) /\
  (connections b' = connections b \/ connections b' = connections b + 1 /\ connections b < capacity b).
Proof.
  intros Hi E. destruct (try_acquire_spec b key Hi) as [(id & l & [Hl Hk] & E')|[_ Ho]].
  - rewrite E in E'. injection E' as -> ->. cbn. split; [exists (count_up l); by rewrite lookup_insert_eq|].
    left. unfold connections. cbn. by rewrite map_size_insert_Some by (by exists l).
  - rewrite E in Ho. inversion Ho; subst. cbn. split; [exists (mkLeaseInner key 1); by rewrite lookup_insert_eq|].
    right. split; [|done]. unfold connections. cbn. rewrite map_size_insert_None by (by apply next_lease_free). lia.
Qed.

(** Opening a session and the provider's slots: whatever the outcome no
    pool loses or leaks a slot.  On success the session holds a live
    allocation under its key at the pool of its first endpoint, the endpoints
    are those of the source in rotated order, and the pool gained at most one
    connection and is within its capacity if it did.  On any error (unknown
    provider, full pool, adapter that cannot take the input) every pool has as
    many connections in use as before. *)
Theorem open_accounts_slots providers source :
  providers_inv providers ->
  let '(providers', r) := open_source providers source in
  match r with
  | Err _ => forall pool, pool_connections providers' pool = pool_connections providers pool
  | Ok (endpoints, (pool, lease), adapter) =>
      endpoints ≡ₚ src_endpoints source /\
      adapter = selected_adapter (src_adapter_policy source) /\
      (exists broker l, providers' !! pool = Some broker /\ leases broker !! lease_id lease = Some l /\
         session_key l = allocation_key (src_key source)) /\
      (forall other, other <> pool -> providers' !! other = providers !! other) /\
      (pool_connections providers' pool = pool_connections providers pool \/
       pool_connections providers' pool = pool_connections providers pool + 1 /\
       exists broker, providers !! pool = Some broker /\ connections broker < capacity broker)
  end.
Proof.
  intros Hinv. unfold open_source. destruct (first_unknown_provider _ _ _); [done|].
  unfold start_http_ts_session.
  assert (select_endpoints providers source ≡ₚ src_endpoints source) as Hrot by apply rotate_permutation.
  destruct (select_endpoints providers source) as [|primary rest]; [done|].
  set (pool := effective_pool_id primary _). destruct (providers !! pool) as [broker|] eqn:Hb; [|done].
  pose proof (Hinv pool broker Hb) as Hi. cbn in Hi.
  destruct (try_acquire broker (allocation_key (src_key source))) as [broker' r] eqn:Ea.
  assert (forall b2 p, connections b2 = connections broker ->
    pool_connections (<[pool := b2]> providers) p = pool_connections providers p) as Hsame.
  { intros b2 p Hc. unfold pool_connections. destruct (decide (p = pool)) as [->|Hne].
    - by rewrite lookup_insert_eq, Hb.
    - by rewrite lookup_insert_ne. }
  destruct r as [lease|error].
  2: { intros p. apply Hsame. destruct (try_acquire_spec broker (allocation_key (src_key source)) Hi)
         as [(id & l & _ & E')|[_ Ho]]; [congruence|]. rewrite Ea in Ho. by inversion Ho. }
  destruct (acquire_ok_spec broker _ broker' lease Hi Ea) as [Hlive Hcount].
  assert (forall p, pool_connections (<[pool := lease_drop broker' lease]> providers) p = pool_connections providers p) as Hdrop.
  { intros p. apply Hsame. by apply (acquire_then_drop broker (allocation_key (src_key source))). }
  destruct (selected_adapter (src_adapter_policy source)) eqn:Es, (src_process_input_format source); try done;
    (split; [done|]; split; [done|]; split;
      [destruct Hlive as (l & ? & ?); exists broker', l; by rewrite lookup_insert_eq|];
     split; [intros other Hne; by rewrite lookup_insert_ne|];
     unfold pool_connections; rewrite lookup_insert_eq, Hb;
     destruct Hcount as [?|[? ?]]; [by left|right; split; [done|by exists broker]]).
Qed.
