(* ===== verification/Passive.v ===== *)
(** * Passive stream analysis

    Models [crates/media/src/passive.rs]: the analyzer that reads codec, size
    and sample rate from packets a session already holds.  The bit reader is a
    position in a byte slice, so every parser is a state-passing function of
    the position; [None] is the early return of [?].  The frame rate is
    computed in binary64, with the floating-point operations of
    [Stdlib.Floats.SpecFloat]. *)
From Stdlib Require Import ZArith Lia Floats.SpecFloat.
From stdpp Require Import base numbers option strings.
From stdpp Require Import list sorting.
From S2P Require Import Prelude Psi Pacing Meter Ring.
Open Scope Z_scope.

Definition MAX_ES_BYTES : Z := 192 * 1024.
Definition SAMPLE_READ_PACKETS : Z := 128.

(** ** Bit reader *)

(** A parser of a byte slice: takes the position, returns the value and the
    new position. *)
Definition Reader (A : Type) : Type := bytes -> Z -> option (A * Z).

Definition rret {A} (x : A) : Reader A := fun _ position => Some (x, position).
Definition rnone {A} : Reader A := fun _ _ => None.
Definition rbind {A B} (m : Reader A) (k : A -> Reader B) : Reader B :=
  fun data position =>
    match m data position with
    | Some (x, position) => k x data position
    | None => None
    end.

Declare Scope reader_scope.
Delimit Scope reader_scope with reader.
Notation "'get' x <- m ; k" := (rbind m (fun x => k))
  (at level 60, x name, m at next level, right associativity) : reader_scope.
Notation "'skip' m ; k" := (rbind m (fun _ => k))
  (at level 60, m at next level, right associativity) : reader_scope.
Open Scope reader_scope.

(** An [Option] that is not a read. *)
Definition rlift {A} (o : option A) : Reader A :=
  match o with Some x => rret x | None => rnone end.

Definition bit : Reader Z := fun data position =>
  match zget data (position / 8) with
  | Some byte => Some (Z.land (Z.shiftr byte (7 - position mod 8)) 1, position + 1)
  | None => None
  end.

Fixpoint bits_loop (count : nat) (value : Z) : Reader Z :=
  match count with
  | O => rret value
  | S count => get b <- bit; bits_loop count (Z.lor (wrap32 (Z.shiftl value 1)) b)
  end.
Definition bits (count : Z) : Reader Z := bits_loop (Z.to_nat count) 0.

(** The loop of [ue] ends by itself after 32 zero bits, so 32 turns are
    enough. *)
Fixpoint ue_zeros (fuel : nat) (zeros : Z) : Reader Z :=
  match fuel with
  | O => rnone
  | S fuel =>
      get b <- bit;
      if b =? 0 then
        let zeros := zeros + 1 in
        if 31 <? zeros then rnone else ue_zeros fuel zeros
      else rret zeros
  end.

Definition ue : Reader Z :=
  get zeros <- ue_zeros 32 0;
  get rest <- bits zeros;
  rret (wrap32 (wrap32 (Z.shiftl 1 zeros) - 1 + rest)).

Definition se : Reader Z :=
  get value <- ue;
  get magnitude <- rlift (checked (2 ^ 31 - 1) ((value + 1) / 2));
  rret (if value mod 2 =? 1 then magnitude else - magnitude).

(** Two's complement wrap of an [i32]. *)
Definition wrap_i32 (z : Z) : Z := (z + 2 ^ 31) mod 2 ^ 32 - 2 ^ 31.

Fixpoint scaling_loop (size : nat) (last next : Z) : Reader unit :=
  match size with
  | O => rret tt
  | S size =>
      get next <- (if negb (next =? 0)
                   then get s <- se; rret (wrap_i32 (wrap_i32 (last + s) + 256) mod 256)
                   else rret next);
      scaling_loop size (if negb (next =? 0) then next else last) next
  end.
Definition skip_scaling_list (size : nat) : Reader unit := scaling_loop size 8 8.

(** ** Sequence parameter set *)

(** [f64::from(u32)], and the operators of binary64 *)
Definition f64 : Type := spec_float.
Definition f64_of_Z (z : Z) : f64 := binary_normalize 53 1024 z 0 false.
Definition f64_div (a b : f64) : f64 := SFdiv 53 1024 a b.
Definition f64_mul (a b : f64) : f64 := SFmul 53 1024 a b.
Definition f64_le (a b : f64) : bool :=
  match SFcompare a b with Some Lt | Some Eq => true | _ => false end.

(** [f64::round]: to the nearest integer, halves away from zero. *)
Definition f64_round (a : f64) : f64 :=
  match a with
  | S754_finite s m e =>
      if 0 <=? e then a
      else
        let d := 2 ^ (- e) in
        let q := (2 * Z.pos m + d) / (2 * d) in
        binary_normalize 53 1024 (if s then - q else q) 0 s
  | _ => a
  end.

Record SpsInfo := mkSpsInfo { sps_width : Z; sps_height : Z; sps_fps : option f64 }.

Definition fps_of (units scale : Z) : option f64 :=
  let fps := f64_div (f64_of_Z scale) (f64_mul (f64_of_Z 2) (f64_of_Z units)) in
  if f64_le (f64_of_Z 1) fps && f64_le fps (f64_of_Z 240)
  then Some (f64_div (f64_round (f64_mul fps (f64_of_Z 100))) (f64_of_Z 100))
  else None.

(** [parse_vui_fps] *)
Definition parse_vui_fps : Reader f64 :=
  get present <- bit;
  if present =? 0 then rnone
  else
    get aspect <- bit;
    skip (if aspect =? 1
          then get idc <- bits 8; (if idc =? 255 then skip bits 32; rret tt else rret tt)
          else rret tt);
    get overscan <- bit;
    skip (if overscan =? 1 then skip bit; rret tt else rret tt);
    get signal <- bit;
    skip (if signal =? 1
          then skip bits 4; get colour <- bit; (if colour =? 1 then skip bits 24; rret tt else rret tt)
          else rret tt);
    get chroma <- bit;
    skip (if chroma =? 1 then skip ue; skip ue; rret tt else rret tt);
    get timing <- bit;
    if timing =? 0 then rnone
    else
      get units <- bits 32;
      get scale <- bits 32;
      if (units =? 0) || (scale =? 0) then rnone else rlift (fps_of units scale).

Definition high_profiles : list Z := [100; 110; 122; 244; 44; 83; 86; 118; 128; 138; 139; 134; 135].

Fixpoint scaling_lists (count : nat) (index : Z) : Reader unit :=
  match count with
  | O => rret tt
  | S count =>
      get present <- bit;
      skip (if present =? 1 then skip_scaling_list (if index <? 6 then 16 else 64) else rret tt);
      scaling_lists count (index + 1)
  end.

(** The part of [parse_sps] for the high profiles; returns the chroma format. *)
Definition sps_chroma (profile : Z) : Reader Z :=
  if bool_decide (profile ∈ high_profiles) then
    get chroma_format <- ue;
    skip (if chroma_format =? 3 then skip bit; rret tt else rret tt);
    skip ue;
    skip ue;
    skip bit;
    get scaling <- bit;
    skip (if scaling =? 1 then scaling_lists (if chroma_format =? 3 then 12 else 8) 0 else rret tt);
    rret chroma_format
  else rret 1.

(** [for _ in 0..count { reader.se()? }]; every turn consumes a bit, so the
    number of bits left bounds the turns. *)
Fixpoint skip_offsets (fuel : nat) (count : Z) : Reader unit :=
  if count <=? 0 then rret tt
  else
    match fuel with
    | O => rnone
    | S fuel => skip se; skip_offsets fuel (count - 1)
    end.

(** The picture order count fields. *)
Definition sps_order_count : Reader unit := fun data position =>
  (get kind <- ue;
   if kind =? 0 then skip ue; rret tt
   else if kind =? 1 then
     skip bit; skip se; skip se; get cycle <- ue; skip_offsets (8 * length data) cycle
   else rret tt) data position.

Definition sps_crop : Reader (Z * Z * Z * Z) :=
  get present <- bit;
  if present =? 1 then
    get crop_left <- ue;
    get crop_right <- ue;
    get crop_top <- ue;
    get crop_bottom <- ue;
    rret (crop_left, crop_right, crop_top, crop_bottom)
  else rret (0, 0, 0, 0).

(** The picture size from the parsed fields, with [u32] arithmetic. *)
Definition sps_size (chroma_format width_mbs height_map_units frame_mbs_only : Z)
    (crop : Z * Z * Z * Z) : option (Z * Z) :=
  let '(crop_left, crop_right, crop_top, crop_bottom) := crop in
  let '(unit_x, unit_y) :=
    if (chroma_format =? 0) || (chroma_format =? 3) then (1, 2 - frame_mbs_only)
    else (2, 2 * (2 - frame_mbs_only)) in
  width ← checked u32_max (wrap32 (width_mbs * 16) - wrap32 (wrap32 (crop_left + crop_right) * unit_x));
  height ← checked u32_max (wrap32 (wrap32 ((2 - frame_mbs_only) * height_map_units) * 16)
                            - wrap32 (wrap32 (crop_top + crop_bottom) * unit_y));
  if (width =? 0) || (height =? 0) || (16384 <? width) || (16384 <? height) then None
  else Some (width, height).

(** [parse_sps] up to the size check. *)
Definition sps_fields : Reader (Z * Z) :=
  get profile <- bits 8;
  skip bits 16;
  skip ue;
  get chroma_format <- sps_chroma profile;
  skip ue;
  skip sps_order_count;
  skip ue;
  skip bit;
  get w <- ue;
  get width_mbs <- rlift (checked u32_max (w + 1));
  get h <- ue;
  get height_map_units <- rlift (checked u32_max (h + 1));
  get frame_mbs_only <- bit;
  skip (if frame_mbs_only =? 0 then skip bit; rret tt else rret tt);
  skip bit;
  get crop <- sps_crop;
  rlift (sps_size chroma_format width_mbs height_map_units frame_mbs_only crop).

Definition parse_sps (rbsp : bytes) : option SpsInfo :=
  match sps_fields rbsp 0 with
  | Some ((width, height), position) =>
      Some (mkSpsInfo width height (fst <$> parse_vui_fps rbsp position))
  | None => None
  end.

(** ** Elementary streams *)

(** [unescape]: drop the 3 after two zeros. *)
Fixpoint unescape_loop (zeros : Z) (data : bytes) : bytes :=
  match data with
  | [] => []
  | byte :: data =>
      if (2 <=? zeros) && (byte =? 3) then unescape_loop 0 data
      else byte :: unescape_loop (if byte =? 0 then zeros + 1 else 0) data
  end.
Definition unescape (data : bytes) : bytes := unescape_loop 0 data.

(** The scan for the end of a NAL unit: the number of bytes before the next
    [0 0 0] or [0 0 1], or [None] at the end of the data. *)
Fixpoint nal_end (data : bytes) : option Z :=
  match data with
  | a :: ((b :: c :: _) as rest) =>
      if (a =? 0) && (b =? 0) && (c <=? 1) then Some 0 else Z.succ <$> nal_end rest
  | _ => None
  end.

(** [find_h264_sps]; the fuel is the length of the data, and every turn moves
    at least one byte on. *)
Fixpoint find_sps_loop (fuel : nat) (data : bytes) : option SpsInfo :=
  match fuel with
  | O => None
  | S fuel =>
      if negb (4 <? zlen data) then None
      else if (byte_at data 0 =? 0) && (byte_at data 1 =? 0) && (byte_at data 2 =? 1) then
        let found :=
          if Z.land (byte_at data 3) 0x1f =? 7 then
            match nal_end (zdrop 4 data) with
            | Some n => parse_sps (unescape (ztake n (zdrop 4 data)))
            | None => None
            end
          else None in
        match found with
        | Some info => Some info
        | None => find_sps_loop fuel (zdrop 3 data)
        end
      else find_sps_loop fuel (zdrop 1 data)
  end.
Definition find_h264_sps (data : bytes) : option SpsInfo := find_sps_loop (length data) data.

Definition ADTS_RATES : list Z :=
  [96000; 88200; 64000; 48000; 44100; 32000; 24000; 22050; 16000; 12000; 11025; 8000; 7350].

Definition adts_window (w : bytes) : option (Z * Z) :=
  if (byte_at w 0 =? 0xff) && (Z.land (byte_at w 1) 0xf6 =? 0xf0) then
    let rate_index := Z.land (Z.shiftr (byte_at w 2) 2) 0x0f in
    let channel_config := Z.lor (Z.shiftl (Z.land (byte_at w 2) 1) 2) (Z.shiftr (byte_at w 3) 6) in
    let frame_length :=
      Z.lor (Z.lor (Z.shiftl (Z.land (byte_at w 3) 3) 11) (Z.shiftl (byte_at w 4) 3))
        (Z.shiftr (byte_at w 5) 5) in
    match zget ADTS_RATES rate_index with
    | Some rate =>
        if (7 <=? frame_length) && (1 <=? channel_config) && (channel_config <=? 7)
        then Some (rate, if channel_config =? 7 then 8 else channel_config)
        else None
    | None => None
    end
  else None.

(** [data.windows(7)], first match. *)
Fixpoint find_adts_header (data : bytes) : option (Z * Z) :=
  match data with
  | [] => None
  | _ :: rest =>
      if zlen data <? 7 then None
      else
        match adts_window (ztake 7 data) with
        | Some found => Some found
        | None => find_adts_header rest
        end
  end.

Definition packet_payload (packet : bytes) : option bytes :=
  let adaptation_control := Z.land (Z.shiftr (byte_at packet 3) 4) 0x03 in
  if adaptation_control =? 1 then get_from 4 packet
  else if adaptation_control =? 3 then get_from (5 + byte_at packet 4) packet
  else None.

(** [probe.rs]: [codec_name_for_stream_type] *)
Definition codec_name_for_stream_type (stream_type : Z) : option string :=
  if stream_type =? 0x01 then Some "mpeg1-video"
  else if stream_type =? 0x02 then Some "mpeg2-video"
  else if stream_type =? 0x10 then Some "mpeg4-video"
  else if stream_type =? 0x1b then Some "h264"
  else if stream_type =? 0x24 then Some "h265"
  else if stream_type =? 0x03 then Some "mpeg1-audio"
  else if stream_type =? 0x04 then Some "mp2"
  else if stream_type =? 0x0f then Some "aac"
  else if stream_type =? 0x11 then Some "aac-latm"
  else if (stream_type =? 0x80) || (stream_type =? 0x81) then Some "ac3"
  else if stream_type =? 0x82 then Some "dts"
  else if (stream_type =? 0x83) || (stream_type =? 0x84) || (stream_type =? 0x87) then Some "eac3"
  else None.

(** ** The analyzer *)

Record StreamMetadata := mkStreamMetadata {
  video_codec : option string;
  video_width : option Z;
  video_height : option Z;
  video_fps : option f64;
  audio_codec : option string;
  audio_channels : option Z;
  audio_sample_rate : option Z;
}.

Definition is_complete (m : StreamMetadata) : bool :=
  bool_decide (is_Some (video_width m)) && bool_decide (is_Some (video_height m)) &&
  bool_decide (is_Some (audio_codec m)).
Definition has_video (m : StreamMetadata) : bool := bool_decide (is_Some (video_codec m)).

Definition set_video_codec (m : StreamMetadata) (codec : option string) : StreamMetadata :=
  mkStreamMetadata codec (video_width m) (video_height m) (video_fps m) (audio_codec m)
    (audio_channels m) (audio_sample_rate m).
Definition set_audio_codec (m : StreamMetadata) (codec : option string) : StreamMetadata :=
  mkStreamMetadata (video_codec m) (video_width m) (video_height m) (video_fps m) codec
    (audio_channels m) (audio_sample_rate m).

(** [PassiveStreamAnalyzer] *)
Record Analyzer := mkAnalyzer {
  an_tracker : PatPmtTracker;
  an_sequence : Z;
  an_video_pid : option Z;
  an_audio_pid : option Z;
  an_video_type : option Z;
  an_audio_type : option Z;
  an_video_es : bytes;
  an_audio_es : bytes;
  an_metadata : StreamMetadata;
}.

Definition analyzer_new : Analyzer :=
  mkAnalyzer pt_default 0 None None None None [] [] (mkStreamMetadata None None None None None None None).

Definition set_tracker (a : Analyzer) (tracker : PatPmtTracker) (sequence : Z) : Analyzer :=
  mkAnalyzer tracker sequence (an_video_pid a) (an_audio_pid a) (an_video_type a) (an_audio_type a)
    (an_video_es a) (an_audio_es a) (an_metadata a).
Definition set_video (a : Analyzer) (es : bytes) (m : StreamMetadata) : Analyzer :=
  mkAnalyzer (an_tracker a) (an_sequence a) (an_video_pid a) (an_audio_pid a) (an_video_type a)
    (an_audio_type a) es (an_audio_es a) m.
Definition set_audio (a : Analyzer) (es : bytes) (m : StreamMetadata) : Analyzer :=
  mkAnalyzer (an_tracker a) (an_sequence a) (an_video_pid a) (an_audio_pid a) (an_video_type a)
    (an_audio_type a) (an_video_es a) es m.

Definition video_stream_types : list Z := [0x01; 0x02; 0x10; 0x1b; 0x24].
Definition audio_stream_types : list Z :=
  [0x03; 0x04; 0x0f; 0x11; 0x80; 0x81; 0x82; 0x83; 0x84; 0x87].

(** The first stream of the PMT with one of the given types. *)
Definition first_of (types : list Z) (streams : list ElementaryStreamInfo) : option (Z * Z) :=
  (fun s => (es_pid s, es_stream_type s)) <$>
    List.find (fun s => bool_decide (es_stream_type s ∈ types)) streams.

(** [apply_pmt]: a new video or audio PID starts its analysis again. *)
Definition apply_pmt (a : Analyzer) : Analyzer :=
  match completed_pmt (an_tracker a) with
  | None => a
  | Some (section, program) =>
      match parse_pmt_elementary_streams section program with
      | None => a
      | Some streams =>
          let a :=
            match first_of video_stream_types streams with
            | Some (pid, stream_type) =>
                if decide (an_video_pid a = Some pid) then a
                else mkAnalyzer (an_tracker a) (an_sequence a) (Some pid) (an_audio_pid a)
                       (Some stream_type) (an_audio_type a) [] (an_audio_es a)
                       (set_video_codec (an_metadata a) (codec_name_for_stream_type stream_type))
            | None => a
            end in
          match first_of audio_stream_types streams with
          | Some (pid, stream_type) =>
              if decide (an_audio_pid a = Some pid) then a
              else mkAnalyzer (an_tracker a) (an_sequence a) (an_video_pid a) (Some pid)
                     (an_video_type a) (Some stream_type) (an_video_es a) []
                     (set_audio_codec (an_metadata a) (codec_name_for_stream_type stream_type))
          | None => a
          end
      end
  end.

(** The video and audio halves of [observe_packet]. *)
Definition observe_video_es (a : Analyzer) (payload : bytes) : Analyzer :=
  let m := an_metadata a in
  if bool_decide (video_width m = None) && (zlen (an_video_es a) <? MAX_ES_BYTES) then
    let video_es := an_video_es a ++ payload in
    match (if decide (an_video_type a = Some 0x1b) then find_h264_sps video_es else None) with
    | Some sps =>
        set_video a []
          (mkStreamMetadata (video_codec m) (Some (sps_width sps)) (Some (sps_height sps)) (sps_fps sps)
             (audio_codec m) (audio_channels m) (audio_sample_rate m))
    | None => set_video a video_es m
    end
  else a.

Definition observe_audio_es (a : Analyzer) (payload : bytes) : Analyzer :=
  let m := an_metadata a in
  if bool_decide (audio_sample_rate m = None) && (zlen (an_audio_es a) <? MAX_ES_BYTES) then
    let audio_es := an_audio_es a ++ payload in
    match (if decide (an_audio_type a = Some 0x0f) then find_adts_header audio_es else None) with
    | Some (rate, channels) =>
        set_audio a []
          (mkStreamMetadata (video_codec m) (video_width m) (video_height m) (video_fps m)
             (audio_codec m) (Some channels) (Some rate))
    | None => set_audio a audio_es m
    end
  else a.

(** [PassiveStreamAnalyzer::observe_packet] *)
Definition analyze_packet (a : Analyzer) (packet : bytes) : Analyzer :=
  if negb (byte_at packet 0 =? 0x47) then a
  else
    let '(tracker, boundary) := pt_observe (an_tracker a) packet (an_sequence a) in
    let a := set_tracker a tracker (an_sequence a) in
    let a := match boundary with Some _ => apply_pmt a | None => a end in
    let pid := pid_of (byte_at packet 1) (byte_at packet 2) in
    let is_video := bool_decide (Some pid = an_video_pid a) in
    let is_audio := bool_decide (Some pid = an_audio_pid a) in
    if negb is_video && negb is_audio then a
    else
      match packet_payload packet with
      | None => a
      | Some payload =>
          let a := if is_video then observe_video_es a payload else a in
          if is_audio then observe_audio_es a payload else a
      end.

(** [PassiveStreamAnalyzer::push] *)
Definition analyzer_push (a : Analyzer) (data : bytes) : Analyzer :=
  fold_left (fun a packet => analyze_packet (set_tracker a (an_tracker a) (wrap64 (an_sequence a + 1))) packet)
    (chunks_exact MPEG_TS_PACKET_SIZE data) a.

(** [sample_cursor_metadata]: the answers of the cursor under the deadline,
    [None] for an error or the end of the time limit.  The flag says whether
    the loop has ended. *)
Fixpoint sample_loop (a : Analyzer) (answers : list (option RingRead)) : Analyzer * bool :=
  match answers with
  | [] => (a, false)
  | Some (Packets _ _ data) :: answers =>
      let a := analyzer_push a data in
      if is_complete (an_metadata a) then (a, true) else sample_loop a answers
  | Some _ :: answers => sample_loop a answers
  | None :: _ => (a, true)
  end.
Definition sample_cursor_metadata (answers : list (option RingRead)) : option StreamMetadata :=
  let m := an_metadata (fst (sample_loop analyzer_new answers)) in
  if has_video m then Some m else None.

(** ** The bit reader against the bits of the data *)

Definition byte_bits (byte : Z) : list Z :=
  map (fun i => Z.land (Z.shiftr byte (7 - i)) 1) [0; 1; 2; 3; 4; 5; 6; 7].
Definition data_bits (data : bytes) : list Z := concat (map byte_bits data).

Lemma data_bits_lookup data i :
  data_bits data !! i =
  (fun byte => Z.land (Z.shiftr byte (7 - Z.of_nat (i mod 8))) 1) <$> data !! (i / 8)%nat.
Proof.
  revert i. induction data as [|byte data IH]; intros i; [done|].
  unfold data_bits. cbn [map concat]. fold (data_bits data).
  destruct (decide (i < 8)%nat) as [Hlt|Hge].
  - rewrite lookup_app_l by done. rewrite Nat.div_small, Nat.mod_small by done. cbn [lookup list_lookup fmap].
    do 8 (destruct i as [|i]; [done|]). lia.
  - rewrite lookup_app_r by (change (length (byte_bits byte)) with 8%nat; lia).
    change (length (byte_bits byte)) with 8%nat. rewrite IH.
    assert ((i - 8) mod 8 = i mod 8 /\ i / 8 = S ((i - 8) / 8))%nat as [-> ->]; [|done].
    replace i with ((i - 8) + 1 * 8)%nat at 2 3 by lia. rewrite Nat.Div0.mod_add, Nat.div_add by lia. lia.
Qed.

(** [parses r l x]: wherever the bits [l] follow, [r] reads them as [x]. *)
Definition parses {A} (r : Reader A) (l : list Z) (x : A) : Prop :=
  forall data position rest, 0 <= position -> zdrop position (data_bits data) = l ++ rest ->
    r data position = Some (x, position + zlen l).

Lemma parses_bit b : parses bit [b] b.
Proof.
  intros data position rest Hp Hd. unfold bit.
  assert (data_bits data !! Z.to_nat position = Some b) as Hl.
  { apply (f_equal (fun l => l !! 0%nat)) in Hd. unfold zdrop in Hd.
    rewrite lookup_drop, Nat.add_0_r in Hd. done. }
  rewrite data_bits_lookup in Hl. apply fmap_Some in Hl as (byte & Hb & ->).
  unfold zget. rewrite (proj2 (Z.leb_le _ _)) by (apply Z.div_pos; lia).
  replace (Z.to_nat (position / 8)) with (Z.to_nat position / 8)%nat
    by (rewrite Z2Nat.inj_div by lia; done).
  rewrite Hb. do 3 f_equal. rewrite Nat2Z.inj_mod, Z2Nat.id by lia. done.
Qed.

Lemma parses_ret {A} (x : A) : parses (rret x) [] x.
Proof. intros data position rest Hp Hd. unfold rret. by rewrite Z.add_0_r. Qed.

Lemma parses_bind {A B} (m : Reader A) (k : A -> Reader B) l1 l2 x y :
  parses m l1 x -> parses (k x) l2 y -> parses (rbind m k) (l1 ++ l2) y.
Proof.
  intros H1 H2 data position rest Hp Hd. unfold rbind. rewrite <- app_assoc in Hd.
  rewrite (H1 data position (l2 ++ rest) Hp Hd). zlen_facts.
  rewrite (H2 data (position + zlen l1) rest); [f_equal; f_equal; rewrite zlen_app; lia|lia|].
  unfold zdrop, zlen in *. replace (Z.to_nat (position + Z.of_nat (length l1)))
    with (Z.to_nat position + length l1)%nat by lia.
  by rewrite <- drop_drop, Hd, drop_app_length.
Qed.

(** Most significant bit first. *)
Fixpoint bits_be (n : nat) (value : Z) : list Z :=
  match n with
  | O => []
  | S n => (value / 2 ^ Z.of_nat n) mod 2 :: bits_be n value
  end.

Lemma bits_loop_parses n acc value :
  0 <= acc -> 0 <= value -> acc * 2 ^ Z.of_nat n + value mod 2 ^ Z.of_nat n < 2 ^ 32 ->
  parses (bits_loop n acc) (bits_be n value) (acc * 2 ^ Z.of_nat n + value mod 2 ^ Z.of_nat n).
Proof.
  revert acc. induction n as [|n IH]; intros acc Ha Hv Hb; cbn [bits_loop bits_be].
  - rewrite Z.mul_1_r, Z.mod_1_r, Z.add_0_r. apply parses_ret.
  - set (b := (value / 2 ^ Z.of_nat n) mod 2). change (b :: bits_be n value) with ([b] ++ bits_be n value).
    assert (0 <= b < 2) as Hb2 by (apply Z.mod_pos_bound; lia).
    rewrite Nat2Z.inj_succ, Z.pow_succ_r in * by lia.
    assert (0 < 2 ^ Z.of_nat n) as Hpow by (apply Z.pow_pos_nonneg; lia).
    assert (value mod (2 * 2 ^ Z.of_nat n) = b * 2 ^ Z.of_nat n + value mod 2 ^ Z.of_nat n) as Hm.
    { unfold b. rewrite (Z.mul_comm 2), Z.rem_mul_r by lia. lia. }
    pose proof (Z.mod_pos_bound value (2 ^ Z.of_nat n) Hpow).
    assert (acc * 2 < 2 ^ 32) by nia.
    assert (Z.lor (wrap32 (Z.shiftl acc 1)) b = 2 * acc + b) as Hlor.
    { unfold wrap32. rewrite Z.mod_small by (rewrite Z.shiftl_mul_pow2; lia). rewrite lor_shiftl_add; lia. }
    eapply parses_bind; [apply parses_bit|]. rewrite Hlor, Hm.
    replace (acc * (2 * 2 ^ Z.of_nat n) + (b * 2 ^ Z.of_nat n + value mod 2 ^ Z.of_nat n))
      with ((2 * acc + b) * 2 ^ Z.of_nat n + value mod 2 ^ Z.of_nat n) by lia.
    apply IH; [lia|lia|]. rewrite Hm in Hb. lia.
Qed.

Lemma parses_bits n value :
  0 <= n <= 32 -> 0 <= value < 2 ^ n -> parses (bits n) (bits_be (Z.to_nat n) value) value.
Proof.
  intros Hn Hv. pose proof (bits_loop_parses (Z.to_nat n) 0 value) as H.
  rewrite Z2Nat.id, Z.mod_small in H by lia. apply H; [lia|lia|].
  assert (2 ^ n <= 2 ^ 32) by (apply Z.pow_le_mono_r; lia). lia.
Qed.

(** The Exp-Golomb code of a number. *)
Definition ue_code (value : Z) : list Z :=
  let k := Z.log2 (value + 1) in
  replicate (Z.to_nat k) 0 ++ 1 :: bits_be (Z.to_nat k) (value + 1 - 2 ^ k).

Lemma ue_zeros_parses k : forall fuel zeros,
  (k < fuel)%nat -> 0 <= zeros -> zeros + Z.of_nat k <= 31 ->
  parses (ue_zeros fuel zeros) (replicate k 0 ++ [1]) (zeros + Z.of_nat k).
Proof.
  induction k as [|k IH]; intros [|fuel] zeros Hf Hz Hs; try lia; cbn [ue_zeros replicate app].
  - change [1] with ([1] ++ []). eapply parses_bind; [apply parses_bit|]. cbn [Z.eqb].
    rewrite Z.add_0_r. apply parses_ret.
  - change (0 :: replicate k 0 ++ [1]) with ([0] ++ (replicate k 0 ++ [1])).
    eapply parses_bind; [apply parses_bit|]. cbn [Z.eqb].
    rewrite (proj2 (Z.ltb_ge _ _)) by lia.
    replace (zeros + Z.of_nat (S k)) with (zeros + 1 + Z.of_nat k) by lia. apply IH; lia.
Qed.

(** Every [u32] but the largest is read back from its Exp-Golomb code. *)
Lemma parses_ue value : 0 <= value < 2 ^ 32 - 1 -> parses ue (ue_code value) value.
Proof.
  intros Hv. unfold ue_code. set (k := Z.log2 (value + 1)).
  destruct (Z.log2_spec (value + 1) ltac:(lia)) as [Hlo Hhi]. fold k in Hlo, Hhi.
  assert (0 <= k) as Hk by apply Z.log2_nonneg.
  assert (k < 32) as Hk32.
  { apply (Z.pow_lt_mono_r_iff 2); lia. }
  rewrite Z.pow_succ_r in Hhi by done.
  replace (replicate (Z.to_nat k) 0 ++ 1 :: bits_be (Z.to_nat k) (value + 1 - 2 ^ k))
    with ((replicate (Z.to_nat k) 0 ++ [1]) ++ (bits_be (Z.to_nat k) (value + 1 - 2 ^ k) ++ []))
    by (rewrite app_nil_r, <- app_assoc; done).
  unfold ue. eapply parses_bind.
  { apply (ue_zeros_parses (Z.to_nat k) 32 0); lia. }
  rewrite Z.add_0_l, Z2Nat.id by done.
  eapply parses_bind; [apply parses_bits; [lia|lia]|].
  assert (2 ^ k <= 2 ^ 31) by (apply Z.pow_le_mono_r; lia).
  assert (wrap32 (wrap32 (Z.shiftl 1 k) - 1 + (value + 1 - 2 ^ k)) = value) as E; [|by rewrite E; apply parses_ret].
  rewrite Z.shiftl_1_l. unfold wrap32. rewrite (Z.mod_small (2 ^ k)) by lia. rewrite Z.mod_small; lia.
Qed.

(** ** Sequence parameter sets *)

(** The fields of an SPS without the high-profile part. *)
Record SpsFields := mkSpsFields {
  sf_profile : Z;
  sf_constraints_level : Z;
  sf_id : Z;
  sf_frame_num : Z;
  sf_order_lsb : option Z;
  sf_ref_frames : Z;
  sf_gaps : Z;
  sf_width_mbs : Z;
  sf_height_units : Z;
  sf_frame_mbs_only : Z;
  sf_field_flag : Z;
  sf_direct : Z;
  sf_crop : option (Z * Z * Z * Z);
}.

Definition order_code (lsb : option Z) : list Z :=
  match lsb with Some v => ue_code 0 ++ ue_code v | None => ue_code 2 end.

Definition crop_code (crop : option (Z * Z * Z * Z)) : list Z :=
  match crop with
  | Some (l, r, t, b) => [1] ++ ue_code l ++ ue_code r ++ ue_code t ++ ue_code b
  | None => [0]
  end.

(** The bits of the SPS, in the order of the standard. *)
Definition sps_code (f : SpsFields) : list Z :=
  bits_be 8 (sf_profile f) ++ bits_be 16 (sf_constraints_level f) ++ ue_code (sf_id f) ++
  ue_code (sf_frame_num f) ++ order_code (sf_order_lsb f) ++ ue_code (sf_ref_frames f) ++
  [sf_gaps f] ++ ue_code (sf_width_mbs f - 1) ++ ue_code (sf_height_units f - 1) ++
  [sf_frame_mbs_only f] ++ (if sf_frame_mbs_only f =? 0 then [sf_field_flag f] else []) ++
  [sf_direct f] ++ crop_code (sf_crop f).

Definition crop_of (f : SpsFields) : Z * Z * Z * Z := default (0, 0, 0, 0) (sf_crop f).

(** The picture size of the standard for 4:2:0 video. *)
Definition picture_width (f : SpsFields) : Z :=
  let '(l, r, _, _) := crop_of f in 16 * sf_width_mbs f - 2 * (l + r).
Definition picture_height (f : SpsFields) : Z :=
  let '(_, _, t, b) := crop_of f in
  (2 - sf_frame_mbs_only f) * (16 * sf_height_units f - 2 * (t + b)).

Definition is_ue (v : Z) : Prop := 0 <= v < 2 ^ 32 - 1.

Record sps_ok (f : SpsFields) : Prop := {
  so_profile : 0 <= sf_profile f < 2 ^ 8 /\ sf_profile f ∉ high_profiles;
  so_level : 0 <= sf_constraints_level f < 2 ^ 16;
  so_id : is_ue (sf_id f);
  so_frame_num : is_ue (sf_frame_num f);
  so_order : match sf_order_lsb f with Some v => is_ue v | None => True end;
  so_refs : is_ue (sf_ref_frames f);
  so_mbs : 1 <= sf_width_mbs f <= 2048 /\ 1 <= sf_height_units f <= 2048;
  so_frame_mbs_only : 0 <= sf_frame_mbs_only f <= 1;
  so_crop : let '(l, r, t, b) := crop_of f in
    (0 <= l <= 2 ^ 20 /\ 0 <= r <= 2 ^ 20) /\ (0 <= t <= 2 ^ 20 /\ 0 <= b <= 2 ^ 20);
  so_width : 0 < picture_width f <= 16384;
  so_height : 0 < picture_height f <= 16384;
}.

Lemma parses_lift {A} (x : A) : parses (rlift (Some x)) [] x.
Proof. apply parses_ret. Qed.

Lemma parses_order lsb :
  match lsb with Some v => is_ue v | None => True end ->
  parses sps_order_count (order_code lsb) tt.
Proof.
  intros Hl data position rest Hp Hd. unfold sps_order_count. destruct lsb as [v|]; cbn [order_code] in *.
  - revert Hd. replace (ue_code v) with (ue_code v ++ []) by apply app_nil_r. intros Hd.
    refine ((parses_bind _ _ _ _ _ _ (parses_ue 0 ltac:(lia)) _) data position rest Hp Hd).
    cbn [Z.eqb]. eapply parses_bind; [by apply parses_ue|apply parses_ret].
  - revert Hd. replace (ue_code 2) with (ue_code 2 ++ []) by apply app_nil_r. intros Hd.
    refine ((parses_bind _ _ _ _ _ _ (parses_ue 2 ltac:(lia)) _) data position rest Hp Hd).
    cbn [Z.eqb]. apply parses_ret.
Qed.

Lemma parses_crop crop :
  match crop with Some (l, r, t, b) => is_ue l /\ is_ue r /\ is_ue t /\ is_ue b | None => True end ->
  parses sps_crop (crop_code crop) (default (0, 0, 0, 0) crop).
Proof.
  intros Hc. unfold sps_crop. destruct crop as [[[[l r] t] b]|]; cbn [crop_code default from_option].
  - destruct Hc as (? & ? & ? & ?). eapply parses_bind; [apply parses_bit|]. cbn [Z.eqb].
    replace (ue_code b) with (ue_code b ++ []) by apply app_nil_r.
    do 4 (eapply parses_bind; [by apply parses_ue|]). apply parses_ret.
  - replace [0] with ([0] ++ []) by done. eapply parses_bind; [apply parses_bit|]. apply parses_ret.
Qed.

(** Remove the wraps of values in range, inside out. *)
Ltac unwrap Hs :=
  repeat match goal with
  | |- context [wrap32 ?z] =>
      lazymatch z with context [wrap32] => fail | _ => rewrite (Hs z) by lia end
  end.

Lemma sps_size_spec f :
  sps_ok f ->
  sps_size 1 (sf_width_mbs f) (sf_height_units f) (sf_frame_mbs_only f) (crop_of f) =
  Some (picture_width f, picture_height f).
Proof.
  intros [_ _ _ _ _ _ [Hw Hh] Hf Hc Hpw Hph]. unfold sps_size, picture_width, picture_height in *.
  destruct (crop_of f) as [[[l r] t] b]. destruct Hc as [[Hl Hr] [Ht Hb]].
  change ((1 =? 0) || (1 =? 3)) with false. cbn iota.
  assert (forall z, 0 <= z < 2 ^ 32 -> wrap32 z = z) as Hs by (intros; unfold wrap32; apply Z.mod_small; lia).
  assert (sf_frame_mbs_only f = 0 \/ sf_frame_mbs_only f = 1) as [E|E] by lia; rewrite E in *.
  - change (2 - 0) with 2 in *. change (2 * 2) with 4. unwrap Hs.
    rewrite !checked_Some by (unfold u32_max; lia). cbn [mbind option_bind].
    rewrite (proj2 (orb_false_iff _ _)); [do 2 f_equal; lia|].
    split; [rewrite !orb_false_iff; split_and!; lia|lia].
  - change (2 - 1) with 1 in *. change (2 * 1) with 2. unwrap Hs.
    rewrite !checked_Some by (unfold u32_max; lia). cbn [mbind option_bind].
    rewrite (proj2 (orb_false_iff _ _)); [do 2 f_equal; lia|].
    split; [rewrite !orb_false_iff; split_and!; lia|lia].
Qed.

Lemma parses_sps_fields f :
  sps_ok f -> parses sps_fields (sps_code f) (picture_width f, picture_height f).
Proof.
  intros Hok. pose proof (sps_size_spec f Hok) as Hsize.
  destruct Hok as [[Hp Hnp] Hlv Hid Hfn Hod Hrf [Hw Hh] Hfm Hc _ _]. unfold sps_fields, sps_code.
  eapply parses_bind; [apply (parses_bits 8); [lia|done]|].
  eapply parses_bind; [apply (parses_bits 16); [lia|done]|].
  eapply parses_bind; [by apply parses_ue|].
  rewrite <- (app_nil_l (ue_code (sf_frame_num f) ++ _)).
  eapply parses_bind.
  { unfold sps_chroma. rewrite bool_decide_eq_false_2 by done. apply parses_ret. }
  eapply parses_bind; [by apply parses_ue|].
  eapply parses_bind; [by apply parses_order|].
  eapply parses_bind; [by apply parses_ue|].
  eapply parses_bind; [apply parses_bit|].
  eapply parses_bind; [apply parses_ue; lia|].
  rewrite Z.sub_add, checked_Some by (unfold u32_max; lia).
  rewrite <- (app_nil_l (ue_code (sf_height_units f - 1) ++ _)).
  eapply parses_bind; [apply parses_lift|].
  eapply parses_bind; [apply parses_ue; lia|].
  rewrite Z.sub_add, checked_Some by (unfold u32_max; lia).
  rewrite <- (app_nil_l ([sf_frame_mbs_only f] ++ _)).
  eapply parses_bind; [apply parses_lift|].
  eapply parses_bind; [apply parses_bit|].
  eapply parses_bind.
  { instantiate (1 := tt). destruct (sf_frame_mbs_only f =? 0); [|apply parses_ret].
    change [sf_field_flag f] with ([sf_field_flag f] ++ []).
    eapply parses_bind; [apply parses_bit|apply parses_ret]. }
  eapply parses_bind; [apply parses_bit|].
  rewrite <- (app_nil_r (crop_code (sf_crop f))). eapply parses_bind.
  { apply parses_crop. unfold crop_of in Hc. destruct (sf_crop f) as [[[[l r] t] b]|]; [|done].
    cbn in Hc. unfold is_ue. lia. }
  fold (crop_of f). rewrite Hsize. apply parses_lift.
Qed.

(** The picture size is the encoder's: for every sequence parameter set
    of a non-high profile, with any identifiers, order count kind 0 or 2,
    frame or field coding and cropping, whose cropped size is at most
    16384 by 16384, the parser returns exactly the width and height the
    standard assigns to it, wherever the set ends in the buffer. *)
Theorem sps_size_roundtrip f rbsp rest :
  sps_ok f -> data_bits rbsp = sps_code f ++ rest ->
  exists fps, parse_sps rbsp = Some (mkSpsInfo (picture_width f) (picture_height f) fps).
Proof.
  intros Hok Hd. unfold parse_sps.
  rewrite (parses_sps_fields f Hok rbsp 0 rest ltac:(lia) Hd). eexists. done.
Qed.

(** ** Escaping *)

(** The encoder's escape: a 3 before a byte that would complete a start code. *)
Fixpoint escape_loop (zeros : Z) (data : bytes) : bytes :=
  match data with
  | [] => []
  | byte :: data =>
      if (2 <=? zeros) && (byte <=? 3)
      then 3 :: byte :: escape_loop (if byte =? 0 then 1 else 0) data
      else byte :: escape_loop (if byte =? 0 then zeros + 1 else 0) data
  end.
Definition escape (data : bytes) : bytes := escape_loop 0 data.

Lemma unescape_escape_loop data zeros :
  0 <= zeros -> Forall is_u8 data -> unescape_loop zeros (escape_loop zeros data) = data.
Proof.
  intros Hz Hu. revert zeros Hz. induction Hu as [|byte data Hb Hu IH]; intros zeros Hz; cbn [escape_loop]; [done|].
  destruct (Z.leb_spec 2 zeros), (Z.leb_spec byte 3); cbn [andb].
  - cbn [unescape_loop]. rewrite (proj2 (Z.leb_le _ _)) by lia. change (3 =? 3) with true.
    change (2 <=? 0) with false. cbn [andb]. f_equal. change (0 + 1) with 1. apply IH. case_match; lia.
  - cbn [unescape_loop]. rewrite (proj2 (Z.eqb_neq byte 3)) by lia. rewrite andb_false_r. f_equal. apply IH. case_match; lia.
  - cbn [unescape_loop]. rewrite (proj2 (Z.leb_gt 2 zeros)) by lia. cbn [andb]. f_equal. apply IH. case_match; lia.
  - cbn [unescape_loop]. rewrite (proj2 (Z.leb_gt 2 zeros)) by lia. cbn [andb]. f_equal. apply IH. case_match; lia.
Qed.

(** Unescaping inverts escaping: whatever payload an encoder escapes,
    the analyzer reads the payload back. *)
Theorem unescape_inverts_escape data : Forall is_u8 data -> unescape (escape data) = data.
Proof. intros Hu. by apply unescape_escape_loop. Qed.

(** Sampling does not stop at a closed ring: the cursor of a closed ring
    answers [Closed] without waiting, every time, and the loop goes on. *)
Lemma sampling_spins_on_closed_ring config st cursor reason a n :
  closed st = Some reason -> cur_generation cursor = generation st ->
  first_sequence st <= cur_next_sequence cursor -> next_sequence st <= cur_next_sequence cursor ->
  cur_waiting_for_safe_boundary cursor = false ->
  try_next config st cursor SAMPLE_READ_PACKETS = (cursor, Ok (Some (Closed (generation st) reason))) /\
  sample_loop a (replicate n (Some (Closed (generation st) reason))) = (a, false).
Proof.
  intros Hc Hg Hf Hn Hw. split.
  - unfold try_next. change (SAMPLE_READ_PACKETS =? 0) with false. cbn iota.
    rewrite Hg, Z.eqb_refl, Hw. cbn [negb]. rewrite (proj2 (Z.ltb_ge _ _)) by done.
    unfold read_at. rewrite (proj2 (Z.ltb_ge _ _)) by done. unfold closed_read. by rewrite Hc.
  - induction n as [|n IH]; [done|]. cbn. exact IH.
Qed.

(** ** The fuel is enough *)

Lemma bit_bound data p b p' :
  0 <= p -> bit data p = Some (b, p') -> p' = p + 1 /\ p < 8 * zlen data.
Proof.
  intros Hp. unfold bit, zget. rewrite (proj2 (Z.leb_le _ _)) by (apply Z.div_pos; lia).
  destruct (data !! _) as [x|] eqn:E; [|done]. intros [= _ <-]. split; [done|].
  apply lookup_lt_Some in E. unfold zlen. pose proof (Z.div_mod p 8). pose proof (Z.mod_pos_bound p 8). lia.
Qed.

Lemma bits_loop_mono n acc data p x p' : 0 <= p -> bits_loop n acc data p = Some (x, p') -> p <= p'.
Proof.
  revert acc p. induction n as [|n IH]; intros acc p Hp; cbn [bits_loop].
  - intros [= _ <-]. lia.
  - unfold rbind. destruct (bit data p) as [[b p1]|] eqn:E; [|done].
    apply bit_bound in E as [-> _]; [|done]. intros H%IH; lia.
Qed.

Lemma ue_zeros_bound fuel zeros data p x p' :
  0 <= p -> ue_zeros fuel zeros data p = Some (x, p') -> p < p' /\ p < 8 * zlen data.
Proof.
  revert zeros p. induction fuel as [|fuel IH]; intros zeros p Hp; cbn [ue_zeros]; [done|].
  unfold rbind. destruct (bit data p) as [[b p1]|] eqn:E; [|done]. apply bit_bound in E as [-> Hb]; [|done].
  destruct (b =? 0); [|intros [= _ <-]; lia]. cbn zeta.
  destruct (31 <? zeros + 1); [done|]. intros H%IH; lia.
Qed.

Lemma se_bound data p x p' : 0 <= p -> se data p = Some (x, p') -> p < p' /\ p < 8 * zlen data.
Proof.
  intros Hp. unfold se, ue, rbind.
  destruct (ue_zeros 32 0 data p) as [[z p1]|] eqn:E1; [|done]. apply ue_zeros_bound in E1 as [H1 H2]; [|done].
  destruct (bits z data p1) as [[r p2]|] eqn:E2; [|done]. apply bits_loop_mono in E2; [|lia].
  unfold rret, rlift. destruct (checked _ _); [|done]. intros [= _ <-]. lia.
Qed.

(** One turn per bit left is enough for the order count offsets. *)
Lemma skip_offsets_fuel_enough fuel k count data p :
  0 <= p -> 8 * zlen data - p <= Z.of_nat fuel ->
  skip_offsets (fuel + k) count data p = skip_offsets fuel count data p.
Proof.
  revert count p. induction fuel as [|fuel IH]; intros count p Hp Hf.
  - destruct k as [|k]; [done|]. cbn [Nat.add skip_offsets]. destruct (count <=? 0); [done|].
    unfold rbind. destruct (se data p) as [[x p']|] eqn:E; [|done]. apply se_bound in E; lia.
  - cbn [Nat.add skip_offsets]. destruct (count <=? 0); [done|].
    unfold rbind. destruct (se data p) as [[x p']|] eqn:E; [|done]. apply se_bound in E; [|done].
    apply IH; lia.
Qed.

(** One turn per byte is enough for the scan for an SPS. *)
Lemma find_sps_fuel_enough fuel k data :
  (length data <= fuel)%nat -> find_sps_loop (fuel + k) data = find_sps_loop fuel data.
Proof.
  revert data. induction fuel as [|fuel IH]; intros data Hf.
  - destruct data; [|cbn in Hf; lia]. by destruct k.
  - cbn [Nat.add find_sps_loop]. destruct (negb (4 <? zlen data)) eqn:E; [done|].
    assert (4 < zlen data) by lia. unfold zlen in *.
    repeat case_match; try done; apply IH; unfold zdrop; rewrite length_drop; lia.
Qed.

(** ** Memory *)

Definition es_bounded (a : Analyzer) : Prop :=
  zlen (an_video_es a) < MAX_ES_BYTES + MPEG_TS_PACKET_SIZE /\
  zlen (an_audio_es a) < MAX_ES_BYTES + MPEG_TS_PACKET_SIZE.

Lemma packet_payload_len packet payload :
  packet_payload packet = Some payload -> zlen payload <= zlen packet.
Proof.
  unfold packet_payload, get_from, zlen, zdrop. intros H.
  repeat (case_match; [|try done]); simplify_eq; rewrite ?length_drop; lia.
Qed.

Lemma apply_pmt_bounded a : es_bounded a -> es_bounded (apply_pmt a).
Proof.
  intros [Hv Ha]. unfold apply_pmt. repeat case_match; split; cbn; done.
Qed.

Lemma observe_es_bounded a payload :
  zlen payload <= MPEG_TS_PACKET_SIZE -> es_bounded a ->
  es_bounded (observe_video_es a payload) /\ es_bounded (observe_audio_es a payload).
Proof.
  intros Hp [Hv Ha]. unfold observe_video_es, observe_audio_es. cbn zeta.
  split; (destruct (bool_decide _); [|done]); cbn [andb].
  - destruct (Z.ltb_spec (zlen (an_video_es a)) MAX_ES_BYTES); [|done].
    destruct (if decide _ then _ else _); split; cbn; rewrite ?zlen_app; try done; lia.
  - destruct (Z.ltb_spec (zlen (an_audio_es a)) MAX_ES_BYTES); [|done].
    destruct (if decide _ then _ else _) as [[??]|]; split; cbn; rewrite ?zlen_app; try done; lia.
Qed.

Lemma analyze_packet_bounded a packet :
  zlen packet = MPEG_TS_PACKET_SIZE -> es_bounded a -> es_bounded (analyze_packet a packet).
Proof.
  intros Hl Hb. unfold analyze_packet. destruct (negb _); [done|].
  destruct (pt_observe _ _ _) as [tracker boundary]. cbn zeta.
  set (a1 := match boundary with Some _ => _ | None => _ end).
  assert (es_bounded a1) as H1 by (subst a1; destruct boundary; [by apply apply_pmt_bounded|done]).
  clearbody a1. destruct (_ && _); [done|]. destruct (packet_payload packet) as [payload|] eqn:E; [|done].
  apply packet_payload_len in E. rewrite Hl in E.
  assert (forall a, es_bounded a -> es_bounded (observe_video_es a payload)) as Hv by (intros; by apply observe_es_bounded).
  assert (forall a, es_bounded a -> es_bounded (observe_audio_es a payload)) as Ha by (intros; by apply observe_es_bounded).
  repeat case_match; auto.
Qed.

(** Bounded memory: however long a stream is analyzed and whatever it
    contains, each of the two elementary stream buffers stays below its limit
    plus one packet. *)
Theorem analyzer_memory_bounded blocks :
  let a := fold_left analyzer_push blocks analyzer_new in
  zlen (an_video_es a) < MAX_ES_BYTES + MPEG_TS_PACKET_SIZE /\
  zlen (an_audio_es a) < MAX_ES_BYTES + MPEG_TS_PACKET_SIZE.
Proof.
  assert (forall packets a, Forall (fun p => zlen p = MPEG_TS_PACKET_SIZE) packets -> es_bounded a ->
    es_bounded (fold_left (fun a packet =>
      analyze_packet (set_tracker a (an_tracker a) (wrap64 (an_sequence a + 1))) packet) packets a)) as Hp.
  { induction packets as [|packet packets IH]; intros a Hall Hb; [done|].
    inversion Hall; subst. apply IH; [done|]. by apply analyze_packet_bounded. }
  cbn zeta. fold (es_bounded (fold_left analyzer_push blocks analyzer_new)).
  assert (es_bounded analyzer_new) as H0 by done. revert H0. generalize analyzer_new.
  induction blocks as [|data blocks IH]; intros a Hb; [done|]. apply IH, Hp; [|done].
  by apply chunks_exact_all.
Qed.
