(* ===== verification/Splice.v ===== *)
(** * The splice muxer

    Models the muxer of [crates/media/src/slate.rs], which joins slate and
    live segments into one program: it renumbers the PIDs, rewrites the
    continuity counters, rebases PCR, PTS and DTS, writes its own tables and
    looks for the packet at which a new segment may start.

    A method that appends to [out] returns what it appends.  A packet is a
    list of 188 bytes, as [chunks_exact] hands them out. *)
From Stdlib Require Import ZArith Lia.
From stdpp Require Import base numbers option.
From stdpp Require Import list.
From S2P Require Import Prelude Psi.
Open Scope Z_scope.

(** ** Constants *)

Definition SLATE_PMT_PID : Z := 0x1000.
Definition SLATE_VIDEO_PID : Z := 0x100.
Definition SLATE_AUDIO_PID : Z := 0x101.
Definition SLATE_PCR_PID : Z := 0x102.
Definition NULL_PID : Z := 0x1fff.
Definition PROGRAM_NUMBER : Z := 1.
Definition TRANSPORT_STREAM_ID : Z := 1.
Definition TIMESTAMP_MASK : Z := Z.shiftl 1 33 - 1.
Definition TIMESTAMP_HALF_RANGE : Z := Z.shiftl 1 32.
Definition SPLICE_STEP_TICKS : Z := 3003.
Definition MAX_PES_STEP_TICKS : Z := 90000.
Definition KEYFRAME_FALLBACK_TICKS : Z := 3 * 90000.
Definition NO_PCR_PACKET_BUDGET : Z := 20000.
Definition AUDIO_GATE_LIMIT_TICKS : Z := 10 * 90000.
Definition MAX_SINGLE_PACKET_SECTION : Z := MPEG_TS_PACKET_SIZE - 5.

(** ** Roles and arrays indexed by a role *)

Inductive Role := Video | Audio | Pcr.
#[export] Instance role_eq_dec : EqDecision Role.
Proof. solve_decision. Defined.

Definition output_pid (role : Role) : Z :=
  match role with
  | Video => SLATE_VIDEO_PID
  | Audio => SLATE_AUDIO_PID
  | Pcr => SLATE_PCR_PID
  end.

(** [[T; 3]] indexed by [role.index()] *)
Record PerRole (T : Type) := mkPerRole { at_video : T; at_audio : T; at_pcr : T }.
Arguments mkPerRole {T}.
Arguments at_video {T}.
Arguments at_audio {T}.
Arguments at_pcr {T}.

Definition role_get {T} (a : PerRole T) (role : Role) : T :=
  match role with Video => at_video a | Audio => at_audio a | Pcr => at_pcr a end.
Definition role_set {T} (a : PerRole T) (role : Role) (x : T) : PerRole T :=
  match role with
  | Video => mkPerRole x (at_audio a) (at_pcr a)
  | Audio => mkPerRole (at_video a) x (at_pcr a)
  | Pcr => mkPerRole (at_video a) (at_audio a) x
  end.
Definition role_all {T} (x : T) : PerRole T := mkPerRole x x x.

(** ** Packet fields *)

(** [slice[i] = value] for an index inside the slice. *)
Definition set_byte (l : bytes) (i value : Z) : bytes := <[Z.to_nat i := value]> l.

Definition packet_pid (packet : bytes) : Z := pid_of (byte_at packet 1) (byte_at packet 2).
Definition payload_unit_start (packet : bytes) : bool := negb (Z.land (byte_at packet 1) 0x40 =? 0).

Definition payload_offset (packet : bytes) : option Z :=
  let control := Z.land (Z.shiftr (byte_at packet 3) 4) 0x03 in
  if control =? 1 then Some 4
  else if control =? 3 then
    let offset := 5 + byte_at packet 4 in
    if offset <? MPEG_TS_PACKET_SIZE then Some offset else None
  else None.

Definition has_pcr (packet : bytes) : bool :=
  negb (Z.land (byte_at packet 3) 0x20 =? 0) && (7 <=? byte_at packet 4) &&
  negb (Z.land (byte_at packet 5) 0x10 =? 0).

Definition pcr_base_of (b6 b7 b8 b9 b10 : Z) : Z :=
  Z.lor (Z.lor (Z.lor (Z.lor (Z.shiftl b6 25) (Z.shiftl b7 17)) (Z.shiftl b8 9)) (Z.shiftl b9 1))
    (Z.shiftr b10 7).

Definition read_pcr_base (packet : bytes) : option Z :=
  if negb (has_pcr packet) then None
  else Some (pcr_base_of (byte_at packet 6) (byte_at packet 7) (byte_at packet 8) (byte_at packet 9)
               (byte_at packet 10)).

Definition low_byte (value : Z) : Z := Z.land value 0xff.

Definition write_pcr_base (packet : bytes) (base : Z) : bytes :=
  let packet := set_byte packet 6 (low_byte (Z.shiftr base 25)) in
  let packet := set_byte packet 7 (low_byte (Z.shiftr base 17)) in
  let packet := set_byte packet 8 (low_byte (Z.shiftr base 9)) in
  let packet := set_byte packet 9 (low_byte (Z.shiftr base 1)) in
  set_byte packet 10
    (Z.lor (wrap8 (Z.shiftl (low_byte (Z.land base 1)) 7)) (Z.land (byte_at packet 10) 0x7f)).

Definition is_random_access (packet : bytes) : bool :=
  negb (Z.land (byte_at packet 3) 0x20 =? 0) && (0 <? byte_at packet 4) &&
  negb (Z.land (byte_at packet 5) 0x40 =? 0).

(** Stream identifiers whose PES packets have no optional header. *)
Definition plain_stream_ids : list Z := [0xbc; 0xbe; 0xbf; 0xf0; 0xf1; 0xf2; 0xf8; 0xff].

Definition is_start_code (l : bytes) : bool :=
  (byte_at l 0 =? 0) && (byte_at l 1 =? 0) && (byte_at l 2 =? 1).

(** The start of the PES packet and the length of its optional header. *)
Definition pes_header (packet : bytes) : option (Z * Z) :=
  start ← payload_offset packet;
  let pes := zdrop start packet in
  if (zlen pes <? 9) || negb (is_start_code pes) then None
  else if bool_decide (byte_at pes 3 ∈ plain_stream_ids) then None
  else Some (start, byte_at pes 8).

Definition read_timestamp (b : bytes) : Z :=
  Z.lor (Z.lor (Z.lor (Z.lor
    (Z.shiftl (Z.land (Z.shiftr (byte_at b 0) 1) 0x07) 30)
    (Z.shiftl (byte_at b 1) 22))
    (Z.shiftl (Z.shiftr (byte_at b 2) 1) 15))
    (Z.shiftl (byte_at b 3) 7))
    (Z.shiftr (byte_at b 4) 1).

Definition write_timestamp (b : bytes) (value : Z) : bytes :=
  let b := set_byte b 0
    (Z.lor (Z.lor (Z.land (byte_at b 0) 0xf0) (Z.land (low_byte (Z.shiftr value 29)) 0x0e)) 0x01) in
  let b := set_byte b 1 (low_byte (Z.shiftr value 22)) in
  let b := set_byte b 2 (Z.lor (Z.land (low_byte (Z.shiftr value 14)) 0xfe) 0x01) in
  let b := set_byte b 3 (low_byte (Z.shiftr value 7)) in
  set_byte b 4 (Z.lor (Z.land (low_byte (wrap64 (Z.shiftl value 1))) 0xfe) 0x01).

Definition read_pes_pts (packet : bytes) : option Z :=
  '(start, _) ← pes_header packet;
  let pes := zdrop start packet in
  if negb (Z.land (byte_at pes 7) 0x80 =? 0) && (14 <=? zlen pes)
  then Some (read_timestamp (slice 9 14 pes)) else None.

(** The later of two 33-bit timestamps, with wrap. *)
Definition later_timestamp (left right : Z) : Z :=
  if Z.land (wrap64 (left - right)) TIMESTAMP_MASK <? TIMESTAMP_HALF_RANGE then left else right.

(** One turn of the loop of [rebase_pes_timestamps]. *)
Definition rebase_field (offset : Z) (present : bool) (first : Z) (acc : bytes * option Z)
  : bytes * option Z :=
  let '(packet, latest) := acc in
  if negb present || (MPEG_TS_PACKET_SIZE <? first + 5) then acc
  else
    let field := slice first (first + 5) packet in
    let rebased := Z.land (read_timestamp field + offset) TIMESTAMP_MASK in
    (splice first (write_timestamp field rebased) packet,
     Some (match latest with
           | None => rebased
           | Some previous => later_timestamp previous rebased
           end)).

Definition rebase_pes_timestamps (packet : bytes) (offset : Z) : bytes * option Z :=
  match pes_header packet with
  | None => (packet, None)
  | Some (start, _) =>
      let flags := Z.shiftr (byte_at packet (start + 7)) 6 in
      rebase_field offset (flags =? 3) (start + 14)
        (rebase_field offset (negb (Z.land flags 2 =? 0)) (start + 9) (packet, None))
  end.

(** [payload.windows(4).any(..)] of [is_keyframe] *)
Definition keyframe_code (stream_type code : Z) : bool :=
  if stream_type =? 0x1b then bool_decide (Z.land code 0x1f ∈ [5; 7])
  else if stream_type =? 0x24 then
    let kind := Z.land (Z.shiftr code 1) 0x3f in
    ((16 <=? kind) && (kind <=? 21)) || ((32 <=? kind) && (kind <=? 34))
  else if (stream_type =? 0x01) || (stream_type =? 0x02) then code =? 0xb3
  else false.

Fixpoint any_keyframe (stream_type : Z) (payload : bytes) : bool :=
  match payload with
  | [] => false
  | _ :: rest =>
      if zlen payload <? 4 then false
      else (is_start_code payload && keyframe_code stream_type (byte_at payload 3)) ||
           any_keyframe stream_type rest
  end.

Definition is_keyframe (packet : bytes) (stream_type : Z) : bool :=
  if is_random_access packet then true
  else
    match pes_header packet with
    | None => false
    | Some (start, header_length) =>
        match get_from (start + 9 + header_length) packet with
        | None => false
        | Some payload => any_keyframe stream_type payload
        end
    end.

(** ** The program map of a segment *)

Record EsEntry := mkEsEntry { en_pid : Z; en_stream_type : Z; en_descriptors : bytes }.

Record ProgramMap := mkProgramMap {
  pm_video : option EsEntry;
  pm_audio : option EsEntry;
  pm_pcr_pid : option Z;
}.
#[export] Instance es_entry_eq_dec : EqDecision EsEntry.
Proof. solve_decision. Defined.
#[export] Instance program_map_eq_dec : EqDecision ProgramMap.
Proof. solve_decision. Defined.

Definition is_video_stream_type (stream_type : Z) : bool :=
  bool_decide (stream_type ∈ [0x01; 0x02; 0x10; 0x1b; 0x24]).

(** The tags of a descriptor loop; a turn consumes at least two bytes. *)
Fixpoint descriptor_tags_fuel (fuel : nat) (descriptors : bytes) : list Z :=
  match fuel, descriptors with
  | S fuel, tag :: length :: rest => tag :: descriptor_tags_fuel fuel (zdrop length rest)
  | _, _ => []
  end.
Definition descriptor_tags (descriptors : bytes) : list Z :=
  descriptor_tags_fuel (length descriptors) descriptors.

Definition is_audio_stream (stream_type : Z) (descriptors : bytes) : bool :=
  if bool_decide (stream_type ∈ [0x03; 0x04; 0x0f; 0x11; 0x81; 0x82; 0x83; 0x84; 0x87]) then true
  else if stream_type =? 0x06 then
    existsb (fun tag => bool_decide (tag ∈ [0x6a; 0x7a; 0x7b; 0x7c])) (descriptor_tags descriptors)
  else false.

(** The [while offset + 5 <= streams_end] loop of [from_pmt]; every turn moves
    [offset] at least five bytes on. *)
Fixpoint from_pmt_loop (fuel : nat) (section : bytes) (streams_end offset : Z) (map : ProgramMap)
  : option ProgramMap :=
  if offset + 5 <=? streams_end then
    match fuel with
    | O => None
    | S fuel =>
        let stream_type := byte_at section offset in
        let pid := pid_of (byte_at section (offset + 1)) (byte_at section (offset + 2)) in
        let info_length := len12_of (byte_at section (offset + 3)) (byte_at section (offset + 4)) in
        let next := offset + 5 + info_length in
        descriptors ← get_range (offset + 5) next section;
        if streams_end <? next then None
        else
          let entry := mkEsEntry pid stream_type descriptors in
          let map :=
            if bool_decide (pm_video map = None) && is_video_stream_type stream_type
            then mkProgramMap (Some entry) (pm_audio map) (pm_pcr_pid map)
            else if bool_decide (pm_audio map = None) && is_audio_stream stream_type descriptors
            then mkProgramMap (pm_video map) (Some entry) (pm_pcr_pid map)
            else map in
          from_pmt_loop fuel section streams_end next map
    end
  else Some map.

Definition from_pmt (section : bytes) : option ProgramMap :=
  if (zlen section <? 16) || negb (byte_at section 0 =? 0x02) then None
  else
    let pcr_pid := pid_of (byte_at section 8) (byte_at section 9) in
    let program_info_length := len12_of (byte_at section 10) (byte_at section 11) in
    streams_end ← checked u64_max (zlen section - 4);
    offset ← checked u64_max (12 + program_info_length);
    map ← from_pmt_loop (length section) section streams_end offset
            (mkProgramMap None None (if negb (pcr_pid =? NULL_PID) then Some pcr_pid else None));
    if bool_decide (is_Some (pm_video map)) || bool_decide (is_Some (pm_audio map))
    then Some map else None.

Definition entry_has_pid (entry : option EsEntry) (pid : Z) : bool :=
  match entry with Some entry => en_pid entry =? pid | None => false end.

Definition role_of (map : ProgramMap) (pid : Z) : option Role :=
  if entry_has_pid (pm_video map) pid then Some Video
  else if entry_has_pid (pm_audio map) pid then Some Audio
  else if bool_decide (pm_pcr_pid map = Some pid) then Some Pcr
  else None.

Definition roles (map : ProgramMap) : list Role :=
  List.filter (fun role =>
    match role with
    | Video => bool_decide (is_Some (pm_video map))
    | Audio => bool_decide (is_Some (pm_audio map))
    | Pcr => match pm_pcr_pid map with
             | Some pid => bool_decide (role_of map pid = Some Pcr)
             | None => false
             end
    end) [Video; Audio; Pcr].

Definition output_pcr_pid (map : ProgramMap) : Z :=
  match pm_pcr_pid map ≫= role_of map with
  | Some role => output_pid role
  | None => NULL_PID
  end.

(** ** Tables *)

Definition append_crc (section : bytes) : bytes := section ++ to_be_bytes32 (mpeg_crc32 section).

Definition pat_section : bytes :=
  append_crc [0x00; 0xb0; 0x0d;
    Z.shiftr TRANSPORT_STREAM_ID 8; Z.land TRANSPORT_STREAM_ID 0xff; 0xc1; 0x00; 0x00;
    Z.shiftr PROGRAM_NUMBER 8; Z.land PROGRAM_NUMBER 0xff;
    Z.lor 0xe0 (Z.shiftr SLATE_PMT_PID 8); Z.land SLATE_PMT_PID 0xff].

Definition pmt_entries (map : ProgramMap) : list (Role * EsEntry) :=
  omap (fun '(role, entry) => (fun entry => (role, entry)) <$> entry)
    [(Video, pm_video map); (Audio, pm_audio map)].

(** The bytes of one entry of the stream loop. *)
Definition pmt_entry (keep_descriptors : bool) (e : Role * EsEntry) : bytes :=
  let '(role, entry) := e in
  let pid := output_pid role in
  let descriptors := if keep_descriptors then en_descriptors entry else [] in
  let length := default 0 (checked u16_max (zlen descriptors)) in
  [en_stream_type entry; Z.lor 0xe0 (Z.shiftr pid 8); Z.land pid 0xff;
   Z.lor 0xf0 (Z.land (Z.shiftr length 8) 0xff); Z.land length 0xff] ++ descriptors.

Definition pmt_section (map : ProgramMap) (version : Z) : bytes :=
  let entries := pmt_entries map in
  let fixed := 12 + 4 + 5 * zlen entries in
  let descriptor_bytes := fold_right Z.add 0 (List.map (fun e => zlen (en_descriptors (snd e))) entries) in
  let keep_descriptors := fixed + descriptor_bytes <=? MAX_SINGLE_PACKET_SECTION in
  let pcr_pid := output_pcr_pid map in
  let section :=
    [0x02; 0xb0; 0x00; Z.shiftr PROGRAM_NUMBER 8; Z.land PROGRAM_NUMBER 0xff;
     Z.lor 0xc1 (wrap8 (Z.shiftl (Z.land version 0x1f) 1)); 0x00; 0x00] ++
    [Z.lor 0xe0 (Z.shiftr pcr_pid 8); Z.land pcr_pid 0xff; 0xf0; 0x00] ++
    concat (List.map (pmt_entry keep_descriptors) entries) in
  let section_length := default 0 (checked u16_max (zlen section - 3 + 4)) in
  let section := set_byte section 1 (Z.lor 0xb0 (Z.land (Z.land (Z.shiftr section_length 8) 0xff) 0x0f)) in
  let section := set_byte section 2 (Z.land section_length 0xff) in
  append_crc section.

Definition psi_packet (pid counter : Z) (section : bytes) : bytes :=
  let head := [0x47; Z.lor 0x40 (Z.land (Z.land (Z.shiftr pid 8) 0xff) 0x1f); Z.land pid 0xff;
               Z.lor 0x10 (Z.land counter 0x0f); 0x00] in
  let length := Z.min (zlen section) MAX_SINGLE_PACKET_SECTION in
  head ++ ztake length section ++ replicate (Z.to_nat (MAX_SINGLE_PACKET_SECTION - length)) 0xff.

Definition discontinuity_packet (pid counter : Z) : bytes :=
  [0x47; Z.land (Z.land (Z.shiftr pid 8) 0xff) 0x1f; Z.land pid 0xff;
   Z.lor 0x20 (Z.land counter 0x0f); 183; 0x80] ++ replicate 182 0xff.

(** ** Segments *)

Record Segment := mkSegment {
  sg_tracker : PatPmtTracker;
  sg_map : option ProgramMap;
  sg_started : bool;
  sg_packets_seen : Z;
  sg_first_pcr : option Z;
  sg_latest_pcr : option Z;
  sg_latest_pts : option Z;
  sg_offset : Z;
  sg_audio_gate : option Z;
  sg_cc_delta : PerRole (option Z);
  sg_role_started : PerRole bool;
}.

Definition segment_default : Segment :=
  mkSegment pt_default None false 0 None None None 0 None (role_all None) (role_all false).

Definition audio_reached_gate (segment : Segment) (packet : bytes) : bool :=
  match sg_audio_gate segment, read_pes_pts packet with
  | Some gate, Some pts =>
      let ahead := Z.land (wrap64 (pts - gate)) TIMESTAMP_MASK in
      let behind := Z.land (wrap64 (gate - pts)) TIMESTAMP_MASK in
      (ahead <? TIMESTAMP_HALF_RANGE) || (AUDIO_GATE_LIMIT_TICKS <? behind)
  | _, _ => true
  end.

(** The tracker and the packet count move on every return. *)
Definition observe_psi (segment : Segment) (packet : bytes) : Segment * option ProgramMap :=
  let '(tracker, boundary) := pt_observe (sg_tracker segment) packet (sg_packets_seen segment) in
  let segment :=
    mkSegment tracker (sg_map segment) (sg_started segment) (wrap64 (sg_packets_seen segment + 1))
      (sg_first_pcr segment) (sg_latest_pcr segment) (sg_latest_pts segment) (sg_offset segment)
      (sg_audio_gate segment) (sg_cc_delta segment) (sg_role_started segment) in
  (segment,
   _ ← boundary;
   '(section, _) ← completed_pmt tracker;
   map ← from_pmt section;
   if bool_decide (sg_map segment = Some map) then None else Some map).

Definition set_map (segment : Segment) (map : ProgramMap) : Segment :=
  mkSegment (sg_tracker segment) (Some map) (sg_started segment) (sg_packets_seen segment)
    (sg_first_pcr segment) (sg_latest_pcr segment) (sg_latest_pts segment) (sg_offset segment)
    (sg_audio_gate segment) (sg_cc_delta segment) (sg_role_started segment).
Definition set_times (segment : Segment) (first latest pts : option Z) : Segment :=
  mkSegment (sg_tracker segment) (sg_map segment) (sg_started segment) (sg_packets_seen segment)
    first latest pts (sg_offset segment) (sg_audio_gate segment) (sg_cc_delta segment)
    (sg_role_started segment).
Definition set_start (segment : Segment) (offset : Z) (gate : option Z) : Segment :=
  mkSegment (sg_tracker segment) (sg_map segment) (sg_started segment) (sg_packets_seen segment)
    (sg_first_pcr segment) (sg_latest_pcr segment) (sg_latest_pts segment) offset gate
    (sg_cc_delta segment) (sg_role_started segment).
Definition set_started (segment : Segment) : Segment :=
  mkSegment (sg_tracker segment) (sg_map segment) true (sg_packets_seen segment)
    (sg_first_pcr segment) (sg_latest_pcr segment) (sg_latest_pts segment) (sg_offset segment)
    (sg_audio_gate segment) (sg_cc_delta segment) (sg_role_started segment).
(** A changed input program: every stream starts again. *)
Definition set_program (segment : Segment) (map : ProgramMap) : Segment :=
  mkSegment (sg_tracker segment) (Some map) (sg_started segment) (sg_packets_seen segment)
    (sg_first_pcr segment) (sg_latest_pcr segment) (sg_latest_pts segment) (sg_offset segment)
    None (role_all None) (role_all false).
Definition set_roles (segment : Segment) (deltas : PerRole (option Z)) (started : PerRole bool) : Segment :=
  mkSegment (sg_tracker segment) (sg_map segment) (sg_started segment) (sg_packets_seen segment)
    (sg_first_pcr segment) (sg_latest_pcr segment) (sg_latest_pts segment) (sg_offset segment)
    (sg_audio_gate segment) deltas started.

(** ** The muxer *)

Record SpliceMuxer := mkSpliceMuxer {
  mx_current : option Segment;
  mx_pending : option Segment;
  mx_output_cc : PerRole (option Z);
  mx_pat_cc : Z;
  mx_pmt_cc : Z;
  mx_pmt_version : Z;
  mx_output_map : option ProgramMap;
  mx_last_pcr : option Z;
  mx_pes_time : PerRole (option Z);
  mx_pes_step : PerRole Z;
  mx_media_end : option Z;
  mx_splices : Z;
}.

Definition muxer_new : SpliceMuxer :=
  mkSpliceMuxer None None (role_all None) 0 0 0 None None (role_all None) (role_all 0) None 0.

Definition set_segments (m : SpliceMuxer) (current pending : option Segment) : SpliceMuxer :=
  mkSpliceMuxer current pending (mx_output_cc m) (mx_pat_cc m) (mx_pmt_cc m) (mx_pmt_version m)
    (mx_output_map m) (mx_last_pcr m) (mx_pes_time m) (mx_pes_step m) (mx_media_end m) (mx_splices m).
Definition set_output_cc (m : SpliceMuxer) (cc : PerRole (option Z)) : SpliceMuxer :=
  mkSpliceMuxer (mx_current m) (mx_pending m) cc (mx_pat_cc m) (mx_pmt_cc m) (mx_pmt_version m)
    (mx_output_map m) (mx_last_pcr m) (mx_pes_time m) (mx_pes_step m) (mx_media_end m) (mx_splices m).
Definition set_pat_cc (m : SpliceMuxer) (cc : Z) : SpliceMuxer :=
  mkSpliceMuxer (mx_current m) (mx_pending m) (mx_output_cc m) cc (mx_pmt_cc m) (mx_pmt_version m)
    (mx_output_map m) (mx_last_pcr m) (mx_pes_time m) (mx_pes_step m) (mx_media_end m) (mx_splices m).
Definition set_pmt_cc (m : SpliceMuxer) (cc : Z) : SpliceMuxer :=
  mkSpliceMuxer (mx_current m) (mx_pending m) (mx_output_cc m) (mx_pat_cc m) cc (mx_pmt_version m)
    (mx_output_map m) (mx_last_pcr m) (mx_pes_time m) (mx_pes_step m) (mx_media_end m) (mx_splices m).
(** A new output program: its PMT gets the next version. *)
Definition set_output_map (m : SpliceMuxer) (map : option ProgramMap) (splices : Z) : SpliceMuxer :=
  mkSpliceMuxer (mx_current m) (mx_pending m) (mx_output_cc m) (mx_pat_cc m) (mx_pmt_cc m)
    (Z.land (wrap8 (mx_pmt_version m + 1)) 0x1f) map
    (mx_last_pcr m) (mx_pes_time m) (mx_pes_step m) (mx_media_end m) splices.
Definition set_last_pcr (m : SpliceMuxer) (pcr : Z) : SpliceMuxer :=
  mkSpliceMuxer (mx_current m) (mx_pending m) (mx_output_cc m) (mx_pat_cc m) (mx_pmt_cc m)
    (mx_pmt_version m) (mx_output_map m) (Some pcr) (mx_pes_time m) (mx_pes_step m) (mx_media_end m)
    (mx_splices m).
Definition set_pes (m : SpliceMuxer) (time : PerRole (option Z)) (step : PerRole Z) (media_end : Z)
  : SpliceMuxer :=
  mkSpliceMuxer (mx_current m) (mx_pending m) (mx_output_cc m) (mx_pat_cc m) (mx_pmt_cc m)
    (mx_pmt_version m) (mx_output_map m) (mx_last_pcr m) time step (Some media_end) (mx_splices m).

Definition has_pending (m : SpliceMuxer) : bool := bool_decide (is_Some (mx_pending m)).
Definition begin_pending (m : SpliceMuxer) : SpliceMuxer :=
  set_segments m (mx_current m) (Some segment_default).
Definition cancel_pending (m : SpliceMuxer) : SpliceMuxer := set_segments m (mx_current m) None.

Definition output_reference (m : SpliceMuxer) : option Z :=
  match mx_last_pcr m, mx_media_end m with
  | Some pcr, Some pts => Some (later_timestamp pcr pts)
  | Some pcr, None => Some pcr
  | None, pts => pts
  end.

Definition offset_for (m : SpliceMuxer) (input_reference : Z) : Z :=
  match output_reference m with
  | Some last => Z.land (wrap64 (wrap64 (last + SPLICE_STEP_TICKS) - input_reference)) TIMESTAMP_MASK
  | None => 0
  end.

Definition write_pat (m : SpliceMuxer) : SpliceMuxer * bytes :=
  (set_pat_cc m (Z.land (wrap8 (mx_pat_cc m + 1)) 0x0f), psi_packet PAT_PID (mx_pat_cc m) pat_section).

Definition write_pmt (m : SpliceMuxer) : SpliceMuxer * bytes :=
  match mx_output_map m with
  | None => (m, [])
  | Some map =>
      (set_pmt_cc m (Z.land (wrap8 (mx_pmt_cc m + 1)) 0x0f),
       psi_packet SLATE_PMT_PID (mx_pmt_cc m) (pmt_section map (mx_pmt_version m)))
  end.

Definition write_tables (m : SpliceMuxer) : SpliceMuxer * bytes :=
  let '(m, pat) := write_pat m in
  let '(m, pmt) := write_pmt m in
  (m, pat ++ pmt).

(** The PCR and the PTS that [seek] notes. *)
Definition seek_times (segment : Segment) (map : ProgramMap) (packet : bytes) : Segment :=
  let pid := packet_pid packet in
  let '(first, latest) :=
    match (if decide (pm_pcr_pid map = Some pid) then read_pcr_base packet else None) with
    | Some pcr => (Some (default pcr (sg_first_pcr segment)), Some pcr)
    | None => (sg_first_pcr segment, sg_latest_pcr segment)
    end in
  let pts :=
    match (if payload_unit_start packet && bool_decide (is_Some (role_of map pid))
           then read_pes_pts packet else None) with
    | Some pts => Some pts
    | None => sg_latest_pts segment
    end in
  set_times segment first latest pts.

Definition seek_reference (segment : Segment) (map : ProgramMap) : option Z :=
  match sg_latest_pcr segment with
  | Some pcr => Some pcr
  | None =>
      if bool_decide (pm_pcr_pid map = None) || (NO_PCR_PACKET_BUDGET <=? sg_packets_seen segment)
      then (fun pts => Z.land (wrap64 (pts - 90000)) TIMESTAMP_MASK) <$> sg_latest_pts segment
      else None
  end.

Definition seek_accepts (segment : Segment) (map : ProgramMap) (packet : bytes) : bool :=
  let pid := packet_pid packet in
  match pm_video map with
  | Some video =>
      if en_pid video =? pid then
        let waited :=
          match sg_first_pcr segment, sg_latest_pcr segment with
          | Some first, Some latest =>
              KEYFRAME_FALLBACK_TICKS <=? Z.land (wrap64 (latest - first)) TIMESTAMP_MASK
          | _, _ => NO_PCR_PACKET_BUDGET <=? sg_packets_seen segment
          end in
        waited || is_keyframe packet (en_stream_type video)
      else false
  | None => entry_has_pid (pm_audio map) pid
  end.

Definition seek (m : SpliceMuxer) (segment : Segment) (packet : bytes) : Segment * bool :=
  if negb (zlen packet =? MPEG_TS_PACKET_SIZE) || negb (byte_at packet 0 =? 0x47)
  then (segment, false)
  else
    let '(segment, new_map) := observe_psi segment packet in
    let segment := match new_map with Some map => set_map segment map | None => segment end in
    match sg_map segment with
    | None => (segment, false)
    | Some map =>
        let segment := seek_times segment map packet in
        match seek_reference segment map with
        | None => (segment, false)
        | Some reference =>
            if negb (payload_unit_start packet) then (segment, false)
            else if seek_accepts segment map packet then
              (set_start segment (offset_for m reference)
                 (if entry_has_pid (pm_video map) (packet_pid packet)
                  then read_pes_pts packet else sg_audio_gate segment), true)
            else (segment, false)
        end
    end.

(** The discontinuity packets of [start_segment]. *)
Fixpoint write_discontinuities (m : SpliceMuxer) (l : list Role) : SpliceMuxer * bytes :=
  match l with
  | [] => (m, [])
  | role :: l =>
      let counter := default 0x0f (role_get (mx_output_cc m) role) in
      let m := set_output_cc m (role_set (mx_output_cc m) role (Some counter)) in
      let '(m, out) := write_discontinuities m l in
      (m, discontinuity_packet (output_pid role) counter ++ out)
  end.

Definition start_segment (m : SpliceMuxer) (segment : Segment) : SpliceMuxer * Segment * bytes :=
  let had_output := bool_decide (is_Some (mx_output_map m)) in
  let segment := set_started segment in
  let m := set_output_map m (sg_map segment) (wrap64 (mx_splices m + 1)) in
  let '(m, tables) := write_tables m in
  let '(m, gaps) :=
    match (if had_output then sg_map segment else None) with
    | Some map => write_discontinuities m (roles map)
    | None => (m, [])
    end in
  (m, segment, tables ++ gaps).

(** The counter of a forwarded packet, and the delta of its stream. *)
Definition output_counter (m : SpliceMuxer) (segment : Segment) (role : Role) (packet : bytes) : Z * Z :=
  let input_counter := Z.land (byte_at packet 3) 0x0f in
  let has_payload := negb (Z.land (byte_at packet 3) 0x10 =? 0) in
  let delta :=
    match role_get (sg_cc_delta segment) role with
    | Some delta => delta
    | None =>
        let target :=
          match role_get (mx_output_cc m) role with
          | Some last => if has_payload then Z.land (wrap8 (last + 1)) 0x0f else last
          | None => input_counter
          end in
        Z.land (wrap8 (target - input_counter)) 0x0f
    end in
  (Z.land (wrap8 (input_counter + delta)) 0x0f, delta).

(** The PCR of a forwarded packet. *)
Definition rebase_pcr (m : SpliceMuxer) (offset : Z) (output : bytes) : SpliceMuxer * bytes :=
  match read_pcr_base output with
  | Some base =>
      let rebased := Z.land (wrap64 (base + offset)) TIMESTAMP_MASK in
      (set_last_pcr m rebased, write_pcr_base output rebased)
  | None => (m, output)
  end.

(** The PES timestamps of a forwarded packet and the end of its media. *)
Definition rebase_pes (m : SpliceMuxer) (offset : Z) (role : Role) (output : bytes) : SpliceMuxer * bytes :=
  if payload_unit_start output then
    match rebase_pes_timestamps output offset with
    | (output, Some latest) =>
        let step :=
          match role_get (mx_pes_time m) role with
          | Some previous =>
              let step := Z.land (wrap64 (latest - previous)) TIMESTAMP_MASK in
              if (0 <? step) && (step <=? MAX_PES_STEP_TICKS)
              then role_set (mx_pes_step m) role step else mx_pes_step m
          | None => mx_pes_step m
          end in
        let time :=
          match role_get (mx_pes_time m) role with
          | Some previous => later_timestamp previous latest
          | None => latest
          end in
        let media_end := Z.land (wrap64 (latest + role_get step role)) TIMESTAMP_MASK in
        (set_pes m (role_set (mx_pes_time m) role (Some time)) step
           (match mx_media_end m with
            | Some previous => later_timestamp previous media_end
            | None => media_end
            end), output)
    | (output, None) => (m, output)
    end
  else (m, output).

(** The rewritten header of a forwarded packet. *)
Definition rewrite_header (packet : bytes) (pid counter : Z) : bytes :=
  let output := set_byte packet 1
    (Z.lor (Z.land (byte_at packet 1) 0xe0) (Z.land (Z.land (Z.shiftr pid 8) 0xff) 0x1f)) in
  let output := set_byte output 2 (Z.land pid 0xff) in
  set_byte output 3 (Z.lor (Z.land (byte_at packet 3) 0xf0) counter).

Definition forward_packet (m : SpliceMuxer) (segment : Segment) (role : Role) (packet : bytes)
  : SpliceMuxer * Segment * bytes :=
  let '(counter, delta) := output_counter m segment role packet in
  let segment := set_roles segment (role_set (sg_cc_delta segment) role (Some delta)) (sg_role_started segment) in
  let m := set_output_cc m (role_set (mx_output_cc m) role (Some counter)) in
  let output := rewrite_header packet (output_pid role) counter in
  let '(m, output) := rebase_pcr m (sg_offset segment) output in
  let '(m, output) := rebase_pes m (sg_offset segment) role output in
  (m, segment, output).

(** The gate of a stream that has not started; [None] drops the packet. *)
Definition start_role (segment : Segment) (role : Role) (packet : bytes) : option Segment :=
  if role_get (sg_role_started segment) role then Some segment
  else if negb (bool_decide (role = Pcr)) && negb (payload_unit_start packet) then None
  else if bool_decide (role = Audio) && negb (audio_reached_gate segment packet) then None
  else Some (set_roles segment (sg_cc_delta segment) (role_set (sg_role_started segment) role true)).

(** A changed program of the input is announced at once. *)
Definition change_program (m : SpliceMuxer) (segment : Segment) (new_map : option ProgramMap)
  : SpliceMuxer * Segment * bytes :=
  match new_map with
  | Some map =>
      let segment := set_program segment map in
      let '(m, table) := write_pmt (set_output_map m (sg_map segment) (mx_splices m)) in
      (m, segment, table)
  | None => (m, segment, [])
  end.

(** A PAT of the input is replaced by the tables of the output, a packet of a
    stream is forwarded, any other packet is dropped. *)
Definition route_packet (m : SpliceMuxer) (segment : Segment) (packet : bytes)
  : SpliceMuxer * Segment * bytes :=
  let pid := packet_pid packet in
  if pid =? PAT_PID then
    if payload_unit_start packet
    then let '(m, tables) := write_tables m in (m, segment, tables)
    else (m, segment, [])
  else
    match sg_map segment ≫= (fun map => role_of map pid) with
    | None => (m, segment, [])
    | Some role =>
        match start_role segment role packet with
        | None => (m, segment, [])
        | Some segment => forward_packet m segment role packet
        end
    end.

Definition running_packet (m : SpliceMuxer) (segment : Segment) (packet : bytes)
  : SpliceMuxer * Segment * bytes :=
  if negb (zlen packet =? MPEG_TS_PACKET_SIZE) || negb (byte_at packet 0 =? 0x47)
  then (m, segment, [])
  else if packet_pid packet =? NULL_PID then (m, segment, packet)
  else
    let '(segment, new_map) := observe_psi segment packet in
    let '(m, segment, table) := change_program m segment new_map in
    let '(m, segment, out) := route_packet m segment packet in
    (m, segment, table ++ out).

Fixpoint current_packets (m : SpliceMuxer) (segment : Segment) (packets : list bytes)
  : SpliceMuxer * Segment * bytes :=
  match packets with
  | [] => (m, segment, [])
  | packet :: packets =>
      let '(m, segment, out) := running_packet m segment packet in
      let '(m, segment, rest) := current_packets m segment packets in
      (m, segment, out ++ rest)
  end.

Definition push_current (m : SpliceMuxer) (chunk : bytes) : SpliceMuxer * bytes :=
  match mx_current m with
  | None => (m, [])
  | Some segment =>
      let '(m, segment, out) :=
        current_packets (set_segments m None (mx_pending m)) segment
          (chunks_exact MPEG_TS_PACKET_SIZE chunk) in
      (set_segments m (Some segment) (mx_pending m), out)
  end.

(** One turn of the loop of [push_pending]. *)
Definition pending_packet (m : SpliceMuxer) (segment : Segment) (packet : bytes)
  : SpliceMuxer * Segment * bytes :=
  if sg_started segment then running_packet m segment packet
  else
    let '(segment, found) := seek m segment packet in
    if found then
      let '(m, segment, start) := start_segment m segment in
      let '(m, segment, out) := running_packet m segment packet in
      (m, segment, start ++ out)
    else (m, segment, []).

Fixpoint pending_packets (m : SpliceMuxer) (segment : Segment) (packets : list bytes)
  : SpliceMuxer * Segment * bytes :=
  match packets with
  | [] => (m, segment, [])
  | packet :: packets =>
      let '(m, segment, out) := pending_packet m segment packet in
      let '(m, segment, rest) := pending_packets m segment packets in
      (m, segment, out ++ rest)
  end.

Definition push_pending (m : SpliceMuxer) (chunk : bytes) : SpliceMuxer * bytes * bool :=
  match mx_pending m with
  | None => (m, [], false)
  | Some segment =>
      let '(m, segment, out) :=
        pending_packets (set_segments m (mx_current m) None) segment
          (chunks_exact MPEG_TS_PACKET_SIZE chunk) in
      if sg_started segment
      then (set_segments m (Some segment) (mx_pending m), out, true)
      else (set_segments m (mx_current m) (Some segment), out, false)
  end.
