(* ===== verification/SpliceSpec.v ===== *)
(** * What the splice muxer promises

    The field readers and writers are inverses; the tables the muxer writes
    are read back by the tracker of [Psi]; every packet it emits is a whole
    packet on one of its own PIDs; the continuity counters of every output
    PID have no gap that the input does not have; the timestamps of a segment
    move by one offset, which joins it to the output before it. *)
From Stdlib Require Import ZArith Lia.
From stdpp Require Import base numbers option.
From stdpp Require Import list.
From S2P Require Import Prelude Psi Pacing Splice.
Open Scope Z_scope.

(** ** Bytes *)

Lemma zlen_set_byte l i v : zlen (set_byte l i v) = zlen l.
Proof. unfold zlen, set_byte. by rewrite length_insert. Qed.
#[export] Hint Rewrite zlen_set_byte : relay.

Lemma byte_at_set_same l i v : 0 <= i < zlen l -> byte_at (set_byte l i v) i = v.
Proof.
  intros Hi. unfold byte_at, set_byte, zlen in *. rewrite nth_lookup.
  by rewrite list_lookup_insert_eq by lia.
Qed.

Lemma byte_at_set_other l i j v : 0 <= i -> 0 <= j -> i <> j -> byte_at (set_byte l i v) j = byte_at l j.
Proof.
  intros Hi Hj Hne. unfold byte_at, set_byte. rewrite !nth_lookup.
  by rewrite list_lookup_insert_ne by lia.
Qed.

Lemma set_byte_u8 l i v : Forall is_u8 l -> is_u8 v -> Forall is_u8 (set_byte l i v).
Proof. intros. by apply Forall_insert. Qed.

(** Reads through writes at constant indices. *)
Ltac bytes_simpl :=
  repeat first
    [ rewrite byte_at_set_same by (autorewrite with relay; zlen_facts; lia)
    | rewrite byte_at_set_other by lia ].

(** One goal per element of a concrete list. *)
Ltac each := repeat first [apply Forall_cons_2 | apply Forall_nil_2].

Lemma land_u8 a m : is_u8 m -> is_u8 (Z.land a m).
Proof. apply land_bound. lia. Qed.

Lemma lor_u8 a b : is_u8 a -> is_u8 b -> is_u8 (Z.lor a b).
Proof. apply lor_bound. lia. Qed.

Lemma wrap8_u8 a : is_u8 (wrap8 a).
Proof. apply Z.mod_pos_bound. lia. Qed.

Lemma low_byte_eq v : low_byte v = v mod 256.
Proof. unfold low_byte. apply (land_mask v 8). lia. Qed.

Lemma low_byte_u8 v : is_u8 (low_byte v).
Proof. apply land_u8. unfold is_u8. lia. Qed.

#[export] Hint Resolve land_u8 lor_u8 wrap8_u8 low_byte_u8 set_byte_u8 : relay.
#[export] Hint Extern 1 (is_u8 (Zpos _)) => (unfold is_u8; lia) : relay.
#[export] Hint Extern 1 (is_u8 0) => (unfold is_u8; lia) : relay.

(** A packet the muxer writes: whole, and of bytes. *)
Lemma is_packet_intro p : zlen p = MPEG_TS_PACKET_SIZE -> Forall is_u8 p -> is_packet p.
Proof. unfold is_packet, zlen. intros Hl Hu. split; [lia|done]. Qed.

Lemma set_byte_packet p i v : is_packet p -> is_u8 v -> is_packet (set_byte p i v).
Proof.
  intros Hp Hv. apply is_packet_intro; [by rewrite zlen_set_byte; apply is_packet_zlen|].
  apply set_byte_u8; [apply Hp|done].
Qed.
#[export] Hint Resolve set_byte_packet : relay.

(** ** Timestamps: what is written is read back *)

Lemma mask_eq v : Z.land v TIMESTAMP_MASK = v mod 2 ^ 33.
Proof. change TIMESTAMP_MASK with (2 ^ 33 - 1). apply land_mask. lia. Qed.

Lemma mask_wrap v : Z.land (wrap64 v) TIMESTAMP_MASK = v mod 2 ^ 33.
Proof.
  rewrite mask_eq. apply Z.mod_mod_divide. by exists (2 ^ 31).
Qed.

(** Splitting a number at a bit. *)
Lemma div_split v n k : 0 <= n -> 0 <= k -> v / 2 ^ (n + k) * 2 ^ k + v / 2 ^ n mod 2 ^ k = v / 2 ^ n.
Proof.
  intros Hn Hk. rewrite Z.pow_add_r by lia. rewrite <- Z.div_div by lia.
  rewrite (Z.mul_comm _ (2 ^ k)). symmetry. apply Z.div_mod. lia.
Qed.

Lemma low_shift v n : 0 <= n -> low_byte (Z.shiftr v n) = v / 2 ^ n mod 256.
Proof. intros. by rewrite low_byte_eq, Z.shiftr_div_pow2. Qed.

(** The high three bits, in the first byte of a timestamp field. *)
Lemma timestamp_high b v :
  Z.land (Z.shiftr (Z.lor (Z.lor (Z.land b 0xf0) (Z.land (low_byte (Z.shiftr v 29)) 0x0e)) 0x01) 1) 0x07 =
  v / 2 ^ 30 mod 2 ^ 3.
Proof.
  rewrite <- (Z.shiftr_div_pow2 v 30), <- Z.land_ones by lia. change (Z.ones 3) with 0x07.
  unfold low_byte. apply Z.bits_inj'. intros i Hi.
  rewrite !Z.land_spec. destruct (Z.ltb_spec i 3); [|by rewrite (bits_above 7 3), !andb_false_r by lia].
  f_equal. rewrite !Z.shiftr_spec, !Z.lor_spec, !Z.land_spec, !Z.shiftr_spec by lia.
  assert (i = 0 \/ i = 1 \/ i = 2) as [-> | [-> | ->]] by lia; cbn -[Z.testbit];
    rewrite ?andb_true_r, ?andb_false_r, ?orb_false_r, ?orb_false_l; by cbn; rewrite ?andb_true_r, ?andb_false_r, ?orb_false_r.
Qed.

(** The seven bits above a marker bit. *)
Lemma timestamp_low v :
  Z.shiftr (Z.lor (Z.land (v mod 256) 0xfe) 0x01) 1 = v / 2 mod 2 ^ 7.
Proof.
  change (v / 2) with (v / 2 ^ 1). change 256 with (2 ^ 8).
  rewrite <- (Z.shiftr_div_pow2 v 1), <- !Z.land_ones by lia.
  apply Z.bits_inj'. intros i Hi.
  rewrite Z.shiftr_spec, Z.lor_spec, !Z.land_spec, Z.shiftr_spec by lia.
  rewrite !Z.testbit_ones_nonneg by lia.
  destruct (Z.ltb_spec i 7).
  - rewrite (proj2 (Z.ltb_lt (i + 1) 8)) by lia.
    assert (i = 0 \/ i = 1 \/ i = 2 \/ i = 3 \/ i = 4 \/ i = 5 \/ i = 6) as Hc by lia.
    repeat destruct Hc as [-> | Hc]; try subst i; cbn; by rewrite ?andb_true_r, ?orb_false_r.
  - rewrite (proj2 (Z.ltb_ge (i + 1) 8)), !andb_false_r by lia. cbn [orb andb].
    by rewrite (bits_above 1 1) by lia.
Qed.

Lemma read_write_timestamp b v :
  zlen b = 5 -> Forall is_u8 b -> 0 <= v < 2 ^ 33 -> read_timestamp (write_timestamp b v) = v.
Proof.
  intros Hl Hu Hv. unfold read_timestamp, write_timestamp.
  bytes_simpl. rewrite timestamp_high, low_shift, low_shift, low_shift by lia.
  rewrite (low_byte_eq (wrap64 _)). unfold wrap64.
  assert ((Z.shiftl v 1 mod 2 ^ 64) mod 256 = Z.shiftl v 1 mod 256) as ->.
  { apply Z.mod_mod_divide. by exists (2 ^ 56). }
  rewrite !timestamp_low, (Z.shiftl_mul_pow2 v 1) by lia. change (2 ^ 1) with 2. rewrite Z.div_mul by lia.
  rewrite Z.div_div by lia. change (2 ^ 14 * 2) with (2 ^ 15).
  pose proof (Z.mod_pos_bound (v / 2 ^ 22) 256). pose proof (Z.mod_pos_bound (v / 2 ^ 15) (2 ^ 7)).
  pose proof (Z.mod_pos_bound (v / 2 ^ 7) 256). pose proof (Z.mod_pos_bound v (2 ^ 7)).
  rewrite (lor_field _ _ 30 22 8), (lor_field _ _ 22 15 7), (lor_field _ _ 15 7 8), lor_shiftl_add by lia.
  rewrite (Z.mod_small (v / 2 ^ 30)) by (split; [apply Z.div_pos; lia|apply Z.div_lt_upper_bound; lia]).
  change 256 with (2 ^ 8). change 30 with (22 + 8). rewrite div_split by lia.
  change 22 with (15 + 7). rewrite div_split by lia. change 15 with (7 + 8). rewrite div_split by lia.
  pose proof (Z.div_mod v (2 ^ 7)). lia.
Qed.

(** The PCR base of the packet is replaced; its extension is kept. *)
Lemma pcr_last_byte b base :
  is_u8 b ->
  let b' := Z.lor (wrap8 (Z.shiftl (low_byte (Z.land base 1)) 7)) (Z.land b 0x7f) in
  b' / 128 = base mod 2 /\ Z.land b' 0x01 = Z.land b 0x01 /\ is_u8 b'.
Proof.
  intros Hb b'. assert (b' = base mod 2 * 128 + b mod 128) as Hb'.
  { unfold b', low_byte. change (Z.land base 1) with (Z.land base (2 ^ 1 - 1)).
    rewrite land_mask, land_ff by lia. change 0x7f with (2 ^ 7 - 1). rewrite land_mask by lia.
    pose proof (Z.mod_pos_bound base 2). pose proof (Z.mod_pos_bound b 128).
    change (2 ^ 1) with 2 in *. change (2 ^ 7) with 128 in *. rewrite (Z.mod_small (base mod 2)) by lia.
    unfold wrap8. rewrite (Z.mod_small (Z.shiftl _ _)) by (rewrite Z.shiftl_mul_pow2 by lia; lia).
    rewrite lor_shiftl_add by lia. done. }
  pose proof (Z.mod_pos_bound base 2). pose proof (Z.mod_pos_bound b 128). unfold is_u8 in *.
  rewrite Hb'. change 0x01 with (2 ^ 1 - 1). rewrite !land_mask by lia.
  split; [|split; [|lia]].
  - rewrite Z.div_add_l, Z.div_small by lia. lia.
  - change (2 ^ 1) with 2. Z.to_euclidean_division_equations; lia.
Qed.

Lemma write_pcr_base_bytes p base :
  is_packet p -> 0 <= base < 2 ^ 33 ->
  let q := write_pcr_base p base in
  is_packet q /\ (forall i, 0 <= i < 6 \/ 11 <= i -> byte_at q i = byte_at p i) /\
  pcr_base_of (byte_at q 6) (byte_at q 7) (byte_at q 8) (byte_at q 9) (byte_at q 10) = base /\
  Z.land (byte_at q 10) 0x01 = Z.land (byte_at p 10) 0x01.
Proof.
  intros Hp Hbase q. pose proof (is_packet_zlen _ Hp) as Hl. unfold MPEG_TS_PACKET_SIZE in Hl.
  destruct (pcr_last_byte (byte_at p 10) base (byte_at_u8 p 10 (proj2 Hp))) as (H10 & H01 & Hu).
  split; [unfold q, write_pcr_base; bytes_simpl; repeat apply set_byte_packet; auto with relay|].
  split; [intros i Hi; unfold q, write_pcr_base; by bytes_simpl|].
  unfold q, write_pcr_base. bytes_simpl. split; [|done].
  unfold pcr_base_of. rewrite pcr_base_eq by auto with relay. rewrite H10, !low_shift by lia.
  change 256 with (2 ^ 8).
  rewrite (Z.mod_small (base / 2 ^ 25)) by (split; [apply Z.div_pos; lia|apply Z.div_lt_upper_bound; lia]).
  change 25 with (17 + 8). rewrite div_split by lia. change 17 with (9 + 8). rewrite div_split by lia.
  change 9 with (1 + 8). rewrite div_split by lia. change (2 ^ 1) with 2.
  pose proof (Z.div_mod base 2). lia.
Qed.

(** The base that [parse_pcr] of the viewers' pacer reads is the muxer's. *)
Lemma parse_pcr_base p :
  is_packet p ->
  parse_pcr p =
    (fun base => (wrap64 (base * 300 +
       Z.min (Z.lor (Z.shiftl (Z.land (byte_at p 10) 0x01) 8) (byte_at p 11)) 299),
       negb (Z.land (byte_at p 5) 0x80 =? 0))) <$> read_pcr_base p.
Proof.
  intros Hp. pose proof (is_packet_zlen _ Hp) as Hl. unfold parse_pcr, read_pcr_base, has_pcr.
  rewrite Hl. cbn [Z.ltb]. destruct (Z.land (byte_at p 3) 0x20 =? 0); [done|]. cbn.
  destruct (Z.ltb_spec (byte_at p 4) 7), (Z.leb_spec 7 (byte_at p 4)); try lia; [done|].
  cbn. by destruct (Z.land (byte_at p 5) 0x10 =? 0).
Qed.

(** ** The header of a forwarded packet *)

(** A masked read of [(b & high) | c] that does not look at the low bits. *)
Lemma land_lor_high b high c m k :
  0 <= k -> 0 <= c < 2 ^ k -> Z.land high m = m -> Z.land (2 ^ k - 1) m = 0 ->
  Z.land (Z.lor (Z.land b high) c) m = Z.land b m.
Proof.
  intros Hk Hc Hh Hm. rewrite Z.land_lor_distr_l, <- Z.land_assoc, Hh.
  replace c with (Z.land c (2 ^ k - 1)) by (rewrite land_mask, Z.mod_small by lia; lia).
  rewrite <- Z.land_assoc, Hm, Z.land_0_r. apply Z.lor_0_r.
Qed.

(** A masked read that only looks at the low bits. *)
Lemma land_lor_low b high c k :
  0 <= k -> 0 <= c < 2 ^ k -> Z.land high (2 ^ k - 1) = 0 ->
  Z.land (Z.lor (Z.land b high) c) (2 ^ k - 1) = c.
Proof.
  intros Hk Hc Hh. rewrite Z.land_lor_distr_l, <- Z.land_assoc, Hh, Z.land_0_r, Z.lor_0_l.
  rewrite land_mask by lia. apply Z.mod_small. lia.
Qed.

Lemma output_pid_bytes role :
  pid_of (Z.land (Z.land (Z.shiftr (output_pid role) 8) 0xff) 0x1f) (Z.land (output_pid role) 0xff) = output_pid role.
Proof. by destruct role. Qed.

Lemma rewrite_header_spec p role counter :
  is_packet p -> 0 <= counter < 16 ->
  let q := rewrite_header p (output_pid role) counter in
  is_packet q /\ (forall i, i = 0 \/ 4 <= i -> byte_at q i = byte_at p i) /\
  packet_pid q = output_pid role /\ payload_unit_start q = payload_unit_start p /\
  Z.land (byte_at q 3) 0x0f = counter /\
  (forall m, Z.land 0xf0 m = m -> Z.land 0x0f m = 0 -> Z.land (byte_at q 3) m = Z.land (byte_at p 3) m).
Proof.
  intros Hp Hc q. pose proof (is_packet_zlen _ Hp) as Hl. unfold MPEG_TS_PACKET_SIZE in Hl.
  assert (is_u8 counter) by (unfold is_u8; lia). unfold q, rewrite_header.
  split; [repeat apply set_byte_packet; auto 8 with relay|].
  split; [intros i [-> | Hi]; by bytes_simpl|].
  unfold packet_pid, payload_unit_start. bytes_simpl.
  assert (0 <= Z.land (Z.land (Z.shiftr (output_pid role) 8) 255) 31 < 2 ^ 5) as Hpid
    by (apply land_bound; lia).
  split; [|split; [|split]].
  - unfold pid_of. change 0x1f with (2 ^ 5 - 1) at 2. rewrite land_lor_low by (lia || done).
    rewrite <- (output_pid_bytes role) at 3. unfold pid_of. by destruct role.
  - by rewrite (land_lor_high _ _ _ 0x40 5) by (lia || done).
  - change 0x0f with (2 ^ 4 - 1). by rewrite land_lor_low by (lia || done).
  - intros m Hm Hm'. by rewrite (land_lor_high _ _ _ m 4) by (lia || done).
Qed.

(** ** Rebasing *)

Definition rebased (offset time : Z) : Z := (time + offset) mod 2 ^ 33.

Lemma rebased_bound offset time : 0 <= rebased offset time < 2 ^ 33.
Proof. apply Z.mod_pos_bound. lia. Qed.
#[export] Hint Resolve rebased_bound : relay.

Lemma byte_at_slice a b l i : 0 <= a -> 0 <= i < b - a -> byte_at (slice a b l) i = byte_at l (a + i).
Proof.
  intros Ha Hi. unfold byte_at, slice, ztake, zdrop. rewrite !nth_lookup.
  rewrite lookup_take_lt, lookup_drop by lia. do 2 f_equal. lia.
Qed.

Lemma byte_at_zdrop a l i : 0 <= a -> 0 <= i -> byte_at (zdrop a l) i = byte_at l (a + i).
Proof.
  intros Ha Hi. unfold byte_at, zdrop. rewrite !nth_lookup, lookup_drop. do 2 f_equal. lia.
Qed.

Lemma byte_at_splice_other a data l i :
  0 <= a -> 0 <= i -> a + zlen data <= zlen l -> i < a \/ a + zlen data <= i ->
  byte_at (splice a data l) i = byte_at l i.
Proof.
  intros Ha Hi Hl Hd.
  pose proof (slice_splice_other i a 1 data l Ha Hi Hl ltac:(lia)) as H.
  apply (f_equal (fun s => byte_at s 0)) in H. rewrite !byte_at_slice in H by lia. by rewrite !Z.add_0_r in H.
Qed.

Lemma splice_packet a data p :
  is_packet p -> 0 <= a -> a + zlen data <= MPEG_TS_PACKET_SIZE -> Forall is_u8 data -> is_packet (splice a data p).
Proof.
  intros Hp Ha Hd Hu. pose proof (is_packet_zlen _ Hp). apply is_packet_intro.
  - rewrite zlen_splice; lia.
  - destruct Hp. unfold splice. rewrite !Forall_app. auto with relay.
Qed.

Definition timestamp_at (p : bytes) (first : Z) : Z := read_timestamp (slice first (first + 5) p).

Lemma timestamp_at_ext p q first :
  0 <= first -> (forall i, first <= i < first + 5 -> byte_at q i = byte_at p i) ->
  timestamp_at q first = timestamp_at p first.
Proof.
  intros Hf Hq. unfold timestamp_at, read_timestamp. rewrite !byte_at_slice by lia.
  by rewrite !Hq by lia.
Qed.

Lemma write_timestamp_u8 b v : Forall is_u8 b -> Forall is_u8 (write_timestamp b v).
Proof. intros Hb. unfold write_timestamp. repeat apply set_byte_u8; auto 8 with relay. Qed.

Lemma zlen_write_timestamp b v : zlen (write_timestamp b v) = zlen b.
Proof. unfold write_timestamp. by autorewrite with relay. Qed.

Lemma rebase_field_spec offset present first p latest :
  is_packet p -> 0 <= first ->
  let q := fst (rebase_field offset present first (p, latest)) in
  is_packet q /\ (forall i, 0 <= i < first \/ first + 5 <= i -> byte_at q i = byte_at p i) /\
  (present = true -> first + 5 <= MPEG_TS_PACKET_SIZE ->
   timestamp_at q first = rebased offset (timestamp_at p first)).
Proof.
  intros Hp Hf q. pose proof (is_packet_zlen _ Hp) as Hl. unfold q, rebase_field.
  destruct present; cbn [negb orb]; [|done].
  destruct (Z.ltb_spec MPEG_TS_PACKET_SIZE (first + 5)); cbn [fst]; [split; [done|split; [done|lia]]|].
  rewrite mask_eq. fold (timestamp_at p first). fold (rebased offset (timestamp_at p first)).
  assert (zlen (slice first (first + 5) p) = 5) as H5 by (rewrite zlen_slice; lia).
  assert (Forall is_u8 (slice first (first + 5) p)) by (unfold slice; destruct Hp; auto with relay).
  set (w := write_timestamp _ _).
  assert (zlen w = 5) as Hw by (unfold w; by rewrite zlen_write_timestamp).
  split; [|split].
  - apply splice_packet; [done|lia|lia|by apply write_timestamp_u8].
  - intros i Hi. apply byte_at_splice_other; lia.
  - intros _ _. unfold timestamp_at at 1. rewrite slice_splice_same by lia.
    unfold w. apply read_write_timestamp; [done|done|]. apply rebased_bound.
Qed.

Lemma payload_offset_bounds p start :
  is_packet p -> payload_offset p = Some start ->
  4 <= start < MPEG_TS_PACKET_SIZE /\ (has_pcr p = true -> 12 <= start).
Proof.
  intros Hp. unfold payload_offset, has_pcr, MPEG_TS_PACKET_SIZE.
  pose proof (byte_at_u8 p 4 (proj2 Hp)) as H4. unfold is_u8 in H4.
  destruct (Z.eqb_spec (Z.land (Z.shiftr (byte_at p 3) 4) 3) 1) as [He|].
  - intros [= <-]. split; [lia|]. intros Hpcr. exfalso.
    assert (Z.testbit (Z.land (Z.shiftr (byte_at p 3) 4) 3) 1 = Z.testbit 1 1) as Hb by by rewrite He.
    rewrite Z.land_spec, Z.shiftr_spec in Hb by lia. change (Z.testbit 3 1) with true in Hb.
    change (Z.testbit 1 1) with false in Hb. rewrite andb_true_r in Hb.
    destruct (Z.eqb_spec (Z.land (byte_at p 3) 0x20) 0) as [|Hne]; [done|]. apply Hne.
    apply Z.bits_inj'. intros i Hi. rewrite Z.land_spec, Z.bits_0.
    destruct (Z.eq_dec i 5) as [->|]; [by change (1 + 4) with 5 in Hb; rewrite Hb|].
    change 0x20 with (2 ^ 5). rewrite Z.pow2_bits_false by lia. apply andb_false_r.
  - case_match; [|done]. case_match; [|done]. intros [= <-]. split; [lia|].
    intros Hpcr. apply andb_true_iff in Hpcr as [[_ Hle]%andb_true_iff _]. lia.
Qed.

Lemma pes_header_inv p start len :
  is_packet p -> pes_header p = Some (start, len) ->
  payload_offset p = Some start /\ start + 9 <= MPEG_TS_PACKET_SIZE.
Proof.
  intros Hp Hh. apply bind_Some in Hh as (s & Hs & Hh). cbn in Hh. case_match; [done|].
  case_match; [done|]. injection Hh as <- _. split; [done|].
  pose proof (payload_offset_bounds _ _ Hp Hs). pose proof (is_packet_zlen _ Hp).
  match goal with H : (zlen _ <? 9) || _ = false |- _ => apply orb_false_iff in H as [H _] end.
  autorewrite with relay in *. unfold MPEG_TS_PACKET_SIZE in *. lia.
Qed.

(** The PES header is read from the adaptation control, the adaptation length
    and the nine bytes at the payload. *)
Lemma pes_header_ext p q :
  is_packet p -> is_packet q -> payload_offset q = payload_offset p ->
  (forall start i, payload_offset p = Some start -> start <= i < start + 9 -> byte_at q i = byte_at p i) ->
  pes_header q = pes_header p.
Proof.
  intros Hp Hq Ho Hi. unfold pes_header. rewrite Ho. destruct (payload_offset p) as [start|] eqn:Hs; [|done].
  destruct (payload_offset_bounds _ _ Hp Hs) as [Hb _]. cbn.
  autorewrite with relay. rewrite (is_packet_zlen _ Hp), (is_packet_zlen _ Hq).
  unfold is_start_code. rewrite !byte_at_zdrop by lia. by rewrite !(Hi start) by (done || lia).
Qed.

Lemma payload_offset_ext p q :
  Z.land (byte_at q 3) 0x30 = Z.land (byte_at p 3) 0x30 -> byte_at q 4 = byte_at p 4 ->
  payload_offset q = payload_offset p.
Proof.
  intros H3 H4. unfold payload_offset. rewrite H4.
  assert (forall b, Z.land (Z.shiftr b 4) 3 = Z.shiftr (Z.land b 0x30) 4) as Hb
    by (intros b; by rewrite Z.shiftr_land).
  by rewrite !Hb, H3.
Qed.

(** The DTS of a packet, as [rebase_pes_timestamps] finds it. *)
Definition read_pes_dts (p : bytes) : option Z :=
  '(start, _) ← pes_header p;
  if (Z.shiftr (byte_at p (start + 7)) 6 =? 3) && (start + 19 <=? MPEG_TS_PACKET_SIZE)
  then Some (timestamp_at p (start + 14)) else None.

Lemma land80_flags b : is_u8 b -> (Z.land b 0x80 =? 0) = (Z.land (Z.shiftr b 6) 2 =? 0).
Proof.
  intros Hb. assert (Z.land (Z.shiftr b 6) 2 = Z.shiftr (Z.land b 0x80) 6) as ->
    by by rewrite Z.shiftr_land.
  assert (Z.land b 0x80 = 0 \/ Z.land b 0x80 = 0x80) as [-> | ->]; [|done..].
  change 0x80 with (2 ^ 7). destruct (Z.testbit b 7) eqn:E; [right|left];
    apply Z.bits_inj'; intros i Hi; rewrite Z.land_spec, ?Z.bits_0;
    (destruct (Z.eq_dec i 7) as [->|]; [by rewrite E, ?Z.pow2_bits_true by lia|]);
    by rewrite !Z.pow2_bits_false, andb_false_r by lia.
Qed.

Lemma read_pes_pts_at p :
  is_packet p ->
  read_pes_pts p =
    ('(start, _) ← pes_header p;
     if negb (Z.land (Z.shiftr (byte_at p (start + 7)) 6) 2 =? 0) && (start + 14 <=? MPEG_TS_PACKET_SIZE)
     then Some (timestamp_at p (start + 9)) else None).
Proof.
  intros Hp. unfold read_pes_pts. destruct (pes_header p) as [[start len]|] eqn:Hh; [|done]. cbn.
  destruct (pes_header_inv _ _ _ Hp Hh) as [Ho Hl].
  destruct (payload_offset_bounds _ _ Hp Ho) as [Hb _]. unfold MPEG_TS_PACKET_SIZE in *.
  rewrite byte_at_zdrop by lia. rewrite land80_flags by (destruct Hp; auto with relay).
  autorewrite with relay. rewrite (is_packet_zlen _ Hp). unfold MPEG_TS_PACKET_SIZE.
  replace (14 <=? Z.max 0 (188 - Z.max 0 start)) with (start + 14 <=? 188) by lia.
  case_match; [|done]. f_equal. unfold timestamp_at, read_timestamp.
  rewrite !byte_at_slice, !byte_at_zdrop by lia. by rewrite !Z.add_assoc.
Qed.

(** The bytes of the PTS and DTS fields of a packet. *)
Definition in_timestamps (p : bytes) (i : Z) : bool :=
  match pes_header p with
  | Some (start, _) => (start + 9 <=? i) && (i <? start + 19)
  | None => false
  end.

Lemma rebase_pes_timestamps_spec p offset :
  is_packet p ->
  let q := fst (rebase_pes_timestamps p offset) in
  is_packet q /\ (forall i, 0 <= i -> in_timestamps p i = false -> byte_at q i = byte_at p i) /\
  read_pes_pts q = rebased offset <$> read_pes_pts p /\
  read_pes_dts q = rebased offset <$> read_pes_dts p.
Proof.
  intros Hp. unfold rebase_pes_timestamps. destruct (pes_header p) as [[start len]|] eqn:Hh.
  2: { cbn. unfold read_pes_pts, read_pes_dts. by rewrite Hh. }
  destruct (pes_header_inv _ _ _ Hp Hh) as [Ho Hl].
  destruct (payload_offset_bounds _ _ Hp Ho) as [Hb _]. unfold MPEG_TS_PACKET_SIZE in *.
  set (flags := Z.shiftr (byte_at p (start + 7)) 6).
  destruct (rebase_field offset (negb (Z.land flags 2 =? 0)) (start + 9) (p, None)) as [p1 l1] eqn:E1.
  destruct (rebase_field_spec offset (negb (Z.land flags 2 =? 0)) (start + 9) p None Hp ltac:(lia))
    as (Hp1 & Hi1 & Ht1). rewrite E1 in Hp1, Hi1, Ht1. cbn [fst] in *.
  destruct (rebase_field offset (flags =? 3) (start + 14) (p1, l1)) as [p2 l2] eqn:E2.
  destruct (rebase_field_spec offset (flags =? 3) (start + 14) p1 l1 Hp1 ltac:(lia))
    as (Hp2 & Hi2 & Ht2). rewrite E2 in Hp2, Hi2, Ht2. cbn [fst] in *.
  assert (forall i, 0 <= i -> i < start + 9 \/ start + 19 <= i -> byte_at p2 i = byte_at p i) as Hi.
  { intros i H0 Hi. rewrite Hi2, Hi1 by lia. done. }
  split; [done|]. split.
  { intros i H0. unfold in_timestamps. rewrite Hh. intros Hd. apply Hi; [done|].
    apply andb_false_iff in Hd. lia. }
  assert (pes_header p2 = Some (start, len)) as Hh2.
  { rewrite <- Hh. apply pes_header_ext; [done..| |].
    - apply payload_offset_ext; by rewrite Hi by lia.
    - intros s i Hs Hsi. rewrite Ho in Hs. injection Hs as <-. apply Hi; lia. }
  rewrite !read_pes_pts_at by done. unfold read_pes_dts. rewrite Hh, Hh2. cbn [mbind option_bind].
  rewrite (Hi (start + 7)) by lia. fold flags. split.
  - destruct (negb (Z.land flags 2 =? 0) && (start + 14 <=? MPEG_TS_PACKET_SIZE)) eqn:E; [|done].
    apply andb_true_iff in E as [? ?]. unfold MPEG_TS_PACKET_SIZE in *. cbn. f_equal.
    rewrite <- Ht1 by (done || lia).
    apply timestamp_at_ext; [lia|]. intros i Hii. apply Hi2. lia.
  - destruct ((flags =? 3) && (start + 19 <=? MPEG_TS_PACKET_SIZE)) eqn:E; [|done].
    apply andb_true_iff in E as [? ?]. unfold MPEG_TS_PACKET_SIZE in *. cbn. f_equal.
    rewrite Ht2 by (done || lia). f_equal.
    apply timestamp_at_ext; [lia|]. intros i Hii. apply Hi1. lia.
Qed.

Lemma rebase_pes_output m offset role p :
  snd (rebase_pes m offset role p) =
  if payload_unit_start p then fst (rebase_pes_timestamps p offset) else p.
Proof. unfold rebase_pes. case_match; [|done]. by destruct (rebase_pes_timestamps p offset) as [q [l|]]. Qed.

Lemma read_pcr_base_bound p base : is_packet p -> read_pcr_base p = Some base -> 0 <= base < 2 ^ 33.
Proof.
  intros Hp. unfold read_pcr_base, pcr_base_of. case_match; [done|]. intros [= <-].
  destruct Hp as [_ Hu]. rewrite pcr_base_eq by auto with relay.
  pose proof (byte_at_u8 p 6 Hu). pose proof (byte_at_u8 p 7 Hu). pose proof (byte_at_u8 p 8 Hu).
  pose proof (byte_at_u8 p 9 Hu). pose proof (byte_at_u8 p 10 Hu). unfold is_u8 in *.
  Z.to_euclidean_division_equations; lia.
Qed.

Lemma rebase_pcr_spec m offset p :
  is_packet p ->
  let q := snd (rebase_pcr m offset p) in
  is_packet q /\ (forall i, 0 <= i -> has_pcr p = false \/ i < 6 \/ 11 <= i -> byte_at q i = byte_at p i) /\
  read_pcr_base q = rebased offset <$> read_pcr_base p /\
  Z.land (byte_at q 10) 0x01 = Z.land (byte_at p 10) 0x01.
Proof.
  intros Hp. unfold rebase_pcr. destruct (read_pcr_base p) as [base|] eqn:Hr; [|by cbn; rewrite Hr].
  assert (has_pcr p = true) as Hpcr by (unfold read_pcr_base in Hr; by destruct (has_pcr p)).
  rewrite mask_wrap. fold (rebased offset base). cbn.
  destruct (write_pcr_base_bytes p (rebased offset base) Hp (rebased_bound _ _)) as (Hq & Hi & Hb & He).
  split; [done|]. split; [intros i H0 [? | Hd]; [congruence|apply Hi; lia]|]. split; [|done].
  unfold read_pcr_base. replace (has_pcr (write_pcr_base p (rebased offset base))) with true.
  2: { symmetry. rewrite <- Hpcr. unfold has_pcr. by rewrite !Hi by lia. }
  by rewrite Hb.
Qed.

Lemma pes_times_ext p q :
  is_packet p -> is_packet q -> payload_offset q = payload_offset p ->
  (forall start i, payload_offset p = Some start -> start <= i -> byte_at q i = byte_at p i) ->
  read_pes_pts q = read_pes_pts p /\ read_pes_dts q = read_pes_dts p /\
  forall i, in_timestamps q i = in_timestamps p i.
Proof.
  intros Hp Hq Ho Hi. assert (pes_header q = pes_header p) as Hh.
  { apply pes_header_ext; [done..|]. intros start i Hs Hb. apply (Hi start); [done|lia]. }
  rewrite !read_pes_pts_at by done. unfold read_pes_dts, in_timestamps. rewrite Hh.
  destruct (pes_header p) as [[start len]|] eqn:E; [|done]. cbn.
  destruct (pes_header_inv _ _ _ Hp E) as [Hs _]. rewrite (Hi start) by (done || lia).
  destruct (payload_offset_bounds _ _ Hp Hs) as [Hb _].
  rewrite (timestamp_at_ext p q (start + 9)), (timestamp_at_ext p q (start + 14)); [done|lia| |lia|];
    intros i Hii; apply (Hi start); done || lia.
Qed.

Lemma in_timestamps_bound p i : is_packet p -> in_timestamps p i = true -> 13 <= i.
Proof.
  intros Hp. unfold in_timestamps. destruct (pes_header p) as [[start len]|] eqn:E; [|done].
  destruct (pes_header_inv _ _ _ Hp E) as [Hs _]. destruct (payload_offset_bounds _ _ Hp Hs) as [Hb _]. lia.
Qed.

Lemma read_pcr_base_ext p q :
  has_pcr q = has_pcr p -> (forall i, 6 <= i < 11 -> byte_at q i = byte_at p i) ->
  read_pcr_base q = read_pcr_base p.
Proof. intros Hh Hi. unfold read_pcr_base. by rewrite Hh, !Hi by lia. Qed.

Lemma has_pcr_ext p q :
  Z.land (byte_at q 3) 0x20 = Z.land (byte_at p 3) 0x20 ->
  byte_at q 4 = byte_at p 4 -> byte_at q 5 = byte_at p 5 -> has_pcr q = has_pcr p.
Proof. intros H3 H4 H5. unfold has_pcr. by rewrite H3, H4, H5. Qed.

(** The bytes of a packet that forwarding may change. *)
Definition rewritten (p : bytes) (i : Z) : bool :=
  ((1 <=? i) && (i <=? 3)) || (has_pcr p && (6 <=? i) && (i <? 11)) ||
  (payload_unit_start p && in_timestamps p i).

(** What a forwarded packet is, in terms of the packet it comes from. *)
Record forwarded (offset : Z) (role : Role) (counter : Z) (p q : bytes) : Prop := {
  fw_packet : is_packet q;
  fw_pid : packet_pid q = output_pid role;
  fw_start : payload_unit_start q = payload_unit_start p;
  fw_counter : Z.land (byte_at q 3) 0x0f = counter;
  fw_flags : Z.land (byte_at q 3) 0xf0 = Z.land (byte_at p 3) 0xf0;
  fw_pcr : read_pcr_base q = rebased offset <$> read_pcr_base p;
  fw_pcr_extension : Z.land (byte_at q 10) 0x01 = Z.land (byte_at p 10) 0x01;
  fw_pts : payload_unit_start p = true -> read_pes_pts q = rebased offset <$> read_pes_pts p;
  fw_dts : payload_unit_start p = true -> read_pes_dts q = rebased offset <$> read_pes_dts p;
  fw_other : forall i, 0 <= i -> rewritten p i = false -> byte_at q i = byte_at p i;
}.

Lemma land_f0 m b : Z.land 0xf0 m = m -> Z.land b m = Z.land (Z.land b 0xf0) m.
Proof. intros Hm. by rewrite <- Z.land_assoc, Hm. Qed.

Lemma forwarded_intro offset role counter m m' p :
  is_packet p -> 0 <= counter < 16 ->
  forwarded offset role counter p
    (snd (rebase_pes m offset role (snd (rebase_pcr m' offset (rewrite_header p (output_pid role) counter))))).
Proof.
  intros Hp Hc. destruct (rewrite_header_spec p role counter Hp Hc) as (Hh & Hih & Hpid & Hstart & Hcc & H3).
  set (h := rewrite_header p (output_pid role) counter) in *.
  destruct (rebase_pcr_spec m' offset h Hh) as (Hq & Hiq & Hpcr & Hext).
  set (c := snd (rebase_pcr m' offset h)) in *.
  assert (payload_offset h = payload_offset p) as Hoh by (apply payload_offset_ext; [by apply H3|by apply Hih; lia]).
  assert (has_pcr h = has_pcr p) as Hhp by (apply has_pcr_ext; [by apply H3|apply Hih; lia..]).
  destruct (pes_times_ext p h Hp Hh Hoh) as (Hpts & Hdts & Hint).
  { intros start i Hs Hi. destruct (payload_offset_bounds _ _ Hp Hs). apply Hih. lia. }
  assert (payload_offset c = payload_offset h) as Hoc by (apply payload_offset_ext; by rewrite Hiq by lia).
  destruct (pes_times_ext h c Hh Hq Hoc) as (Hptsc & Hdtsc & Hintc).
  { intros start i Hs Hi. destruct (payload_offset_bounds _ _ Hh Hs) as [Hb Hb'].
    apply Hiq; [lia|]. destruct (has_pcr h); [right; specialize (Hb' eq_refl); lia|by left]. }
  assert (payload_unit_start c = payload_unit_start p) as Hsc
    by (rewrite <- Hstart; unfold payload_unit_start; by rewrite Hiq by lia).
  destruct (rebase_pes_timestamps_spec c offset Hq) as (Hr & Hir & Hptsr & Hdtsr).
  rewrite rebase_pes_output, Hsc.
  set (q := if payload_unit_start p then fst (rebase_pes_timestamps c offset) else c).
  assert (is_packet q) as Hpq by (unfold q; by case_match).
  assert (forall i, 0 <= i -> payload_unit_start p && in_timestamps p i = false -> byte_at q i = byte_at c i) as Hiqq.
  { intros i H0 Hi. unfold q. destruct (payload_unit_start p); [|done]. apply Hir; [done|]. by rewrite Hintc, Hint. }
  assert (forall i, 0 <= i < 13 -> byte_at q i = byte_at c i) as Hlow.
  { intros i Hi. apply Hiqq; [lia|]. destruct (in_timestamps p i) eqn:E; [|apply andb_false_r].
    apply in_timestamps_bound in E; [lia|done]. }
  split; [done|..].
  - rewrite <- Hpid. unfold packet_pid. by rewrite !Hlow, !Hiq by lia.
  - rewrite <- Hstart. unfold payload_unit_start. by rewrite !Hlow, !Hiq by lia.
  - by rewrite Hlow, Hiq by lia.
  - rewrite Hlow, Hiq by lia. by apply H3.
  - rewrite <- (read_pcr_base_ext p h Hhp) by (intros; apply Hih; lia). rewrite <- Hpcr.
    apply read_pcr_base_ext; [|intros; apply Hlow; lia]. apply has_pcr_ext; by rewrite Hlow by lia.
  - rewrite Hlow, Hext by lia. by rewrite Hih by lia.
  - intros Hps. rewrite <- Hpts, <- Hptsc, <- Hptsr. unfold q. by rewrite Hps.
  - intros Hps. rewrite <- Hdts, <- Hdtsc, <- Hdtsr. unfold q. by rewrite Hps.
  - intros i H0 Hi. unfold rewritten in Hi. apply orb_false_iff in Hi as [[Hi1 Hi2]%orb_false_iff Hi3].
    rewrite Hiqq by done. rewrite Hiq; [|done|].
    + apply Hih. lia.
    + rewrite Hhp. destruct (has_pcr p); [right; lia|by left].
Qed.
