(* ===== verification/SpliceTables.v ===== *)
(** * The tables of the splice muxer are read back by the tracker

    The PAT and the PMT that the muxer of [slate.rs] writes fit one packet
    each, carry their own CRC, and lead the tracker of [psi.rs] to the output
    program: its PIDs, its stream types and its PCR PID. *)
From Stdlib Require Import ZArith Lia.
From stdpp Require Import base numbers option.
From stdpp Require Import list.
From S2P Require Import Prelude Psi Pacing Splice SpliceSpec.
Open Scope Z_scope.

(** ** Program maps *)

Definition entry_ok (e : EsEntry) : Prop :=
  is_u8 (en_stream_type e) /\ Forall is_u8 (en_descriptors e).

Definition map_ok (map : ProgramMap) : Prop :=
  (forall e, pm_video map = Some e -> entry_ok e) /\ (forall e, pm_audio map = Some e -> entry_ok e).

Lemma pmt_entries_ok map : map_ok map -> Forall (fun e => entry_ok (snd e)) (pmt_entries map).
Proof.
  intros [Hv Ha]. unfold pmt_entries.
  destruct (pm_video map), (pm_audio map); cbn;
    each; cbn; auto.
Qed.

Lemma pmt_entries_length map : zlen (pmt_entries map) <= 2.
Proof. unfold pmt_entries. by destruct (pm_video map), (pm_audio map). Qed.

(** The decoder's view of one entry. *)
Definition entry_info (e : Role * EsEntry) : ElementaryStreamInfo :=
  mkElementaryStreamInfo (en_stream_type (snd e)) (output_pid (fst e)).

(** The descriptors an entry is written with. *)
Definition written_descriptors (keep : bool) (e : Role * EsEntry) : bytes :=
  if keep then en_descriptors (snd e) else [].

(** ** The section *)

Lemma zlen_pmt_entry keep e : zlen (pmt_entry keep e) = 5 + zlen (written_descriptors keep e).
Proof. destruct e as [role e]. unfold pmt_entry, written_descriptors. by autorewrite with relay. Qed.

Lemma length_bytes n : 0 <= n < 256 -> Z.land (Z.shiftr n 8) 0xff = 0 /\ Z.land n 0xff = n.
Proof.
  intros Hn. rewrite !land_ff, Z.shiftr_div_pow2 by lia. change (2 ^ 8) with 256.
  by rewrite Z.div_small, !Z.mod_small by lia.
Qed.

Lemma pmt_entry_eq keep role e :
  zlen (written_descriptors keep (role, e)) < 256 ->
  pmt_entry keep (role, e) =
  [en_stream_type e; Z.lor 0xe0 (Z.shiftr (output_pid role) 8); Z.land (output_pid role) 0xff; 0xf0;
   zlen (written_descriptors keep (role, e))] ++ written_descriptors keep (role, e).
Proof.
  intros Hl. unfold pmt_entry. fold (written_descriptors keep (role, e)).
  change (if keep then en_descriptors e else []) with (written_descriptors keep (role, e)).
  pose proof (zlen_nonneg (written_descriptors keep (role, e))).
  rewrite checked_Some by (unfold u16_max; lia). cbn [from_option id].
  by destruct (length_bytes (zlen (written_descriptors keep (role, e))) ltac:(lia)) as [-> ->].
Qed.

Lemma pmt_entry_u8 keep e : entry_ok (snd e) -> Forall is_u8 (pmt_entry keep e).
Proof.
  destruct e as [role e]. intros [Ht Hd]. unfold pmt_entry. apply Forall_app. split.
  - each; cbn [snd] in *; auto with relay; destruct role; by vm_compute.
  - by destruct keep.
Qed.

(** Bytes of the entries, with or without their descriptors. *)
Definition entries_bytes (keep : bool) (es : list (Role * EsEntry)) : bytes :=
  concat (List.map (pmt_entry keep) es).

Definition descriptor_bytes (es : list (Role * EsEntry)) : Z :=
  fold_right Z.add 0 (List.map (fun e => zlen (en_descriptors (snd e))) es).

Lemma zlen_entries_bytes keep es :
  zlen (entries_bytes keep es) = 5 * zlen es + (if keep then descriptor_bytes es else 0).
Proof.
  unfold entries_bytes, descriptor_bytes. induction es as [|e es IH]; [by destruct keep|].
  cbn [List.map concat fold_right]. autorewrite with relay. rewrite IH, zlen_pmt_entry.
  unfold written_descriptors. destruct keep; autorewrite with relay; lia.
Qed.

Definition keeps (map : ProgramMap) : bool :=
  12 + 4 + 5 * zlen (pmt_entries map) + descriptor_bytes (pmt_entries map) <=? MAX_SINGLE_PACKET_SECTION.

Definition body (map : ProgramMap) : bytes := entries_bytes (keeps map) (pmt_entries map).

Lemma body_length map : zlen (body map) <= MAX_SINGLE_PACKET_SECTION - 16.
Proof.
  unfold body. rewrite zlen_entries_bytes. pose proof (pmt_entries_length map).
  unfold keeps, MAX_SINGLE_PACKET_SECTION, MPEG_TS_PACKET_SIZE. case_match; lia.
Qed.

Lemma pmt_section_eq map version :
  pmt_section map version =
  append_crc
    ([0x02; 0xb0; 13 + zlen (body map); 0x00; 0x01; Z.lor 0xc1 (wrap8 (Z.shiftl (Z.land version 0x1f) 1));
      0x00; 0x00; Z.lor 0xe0 (Z.shiftr (output_pcr_pid map) 8); Z.land (output_pcr_pid map) 0xff; 0xf0; 0x00] ++
     body map).
Proof.
  pose proof (body_length map) as Hl. unfold MAX_SINGLE_PACKET_SECTION, MPEG_TS_PACKET_SIZE in Hl.
  pose proof (zlen_nonneg (body map)).
  unfold pmt_section. fold (descriptor_bytes (pmt_entries map)). fold (keeps map).
  fold (entries_bytes (keeps map) (pmt_entries map)). fold (body map).
  set (head := _ ++ _ ++ body map).
  replace (zlen head - 3 + 4) with (13 + zlen (body map)) by (unfold head; zlia).
  rewrite checked_Some by (unfold u16_max; lia). cbn [from_option id].
  destruct (length_bytes (13 + zlen (body map)) ltac:(lia)) as [-> ->]. done.
Qed.

Lemma pid_bytes_back role : pid_of (Z.lor 0xe0 (Z.shiftr (output_pid role) 8)) (Z.land (output_pid role) 0xff) = output_pid role.
Proof. by destruct role. Qed.

Lemma output_pcr_pid_cases map : output_pcr_pid map = NULL_PID \/ exists role, output_pcr_pid map = output_pid role.
Proof. unfold output_pcr_pid. destruct (_ ≫= _) as [role|]; [right; by exists role|by left]. Qed.

Lemma pcr_pid_bytes_back map :
  pid_of (Z.lor 0xe0 (Z.shiftr (output_pcr_pid map) 8)) (Z.land (output_pcr_pid map) 0xff) = output_pcr_pid map /\
  is_u8 (Z.lor 0xe0 (Z.shiftr (output_pcr_pid map) 8)).
Proof. destruct (output_pcr_pid_cases map) as [-> | [role ->]]; [by vm_compute|destruct role; by vm_compute]. Qed.

(** The byte string before the CRC. *)
Definition section_start (map : ProgramMap) (version : Z) : bytes :=
  [0x02; 0xb0; 13 + zlen (body map); 0x00; 0x01; Z.lor 0xc1 (wrap8 (Z.shiftl (Z.land version 0x1f) 1));
   0x00; 0x00; Z.lor 0xe0 (Z.shiftr (output_pcr_pid map) 8); Z.land (output_pcr_pid map) 0xff; 0xf0; 0x00].

Lemma to_be_bytes32_u8 c : Forall is_u8 (to_be_bytes32 c).
Proof. unfold to_be_bytes32. each; auto with relay. Qed.

Lemma body_u8 map : map_ok map -> Forall is_u8 (body map).
Proof.
  intros Hm. apply pmt_entries_ok in Hm. unfold body, entries_bytes.
  induction Hm as [|e es He Hes IH]; cbn; [constructor|]. apply Forall_app. split; [by apply pmt_entry_u8|done].
Qed.

Lemma section_start_u8 map version : Forall is_u8 (section_start map version).
Proof.
  pose proof (body_length map) as Hl. pose proof (zlen_nonneg (body map)).
  unfold MAX_SINGLE_PACKET_SECTION, MPEG_TS_PACKET_SIZE in Hl.
  unfold section_start. each; auto with relay; [unfold is_u8; lia|apply pcr_pid_bytes_back].
Qed.

Lemma pmt_section_u8 map version : map_ok map -> Forall is_u8 (pmt_section map version).
Proof.
  intros Hm. rewrite pmt_section_eq. unfold append_crc. fold (section_start map version).
  rewrite !Forall_app. auto using section_start_u8, body_u8, to_be_bytes32_u8.
Qed.

Lemma zlen_pmt_section map version : zlen (pmt_section map version) = 16 + zlen (body map).
Proof. rewrite pmt_section_eq. unfold append_crc, to_be_bytes32. autorewrite with relay. lia. Qed.

Lemma pmt_section_fits map version : 16 <= zlen (pmt_section map version) <= MAX_SINGLE_PACKET_SECTION.
Proof. rewrite zlen_pmt_section. pose proof (body_length map). zlia. Qed.

Lemma byte_at_section map version i :
  0 <= i < 12 -> byte_at (pmt_section map version) i = byte_at (section_start map version) i.
Proof.
  intros Hi. rewrite pmt_section_eq. unfold append_crc. fold (section_start map version).
  rewrite !byte_at_app; [done| |]; unfold section_start; autorewrite with relay; zlen_facts; lia.
Qed.

Lemma pmt_section_ok map version : map_ok map -> section_ok (pmt_section map version).
Proof.
  intros Hm. pose proof (pmt_section_fits map version) as Hf. pose proof (zlen_nonneg (body map)).
  unfold MAX_SINGLE_PACKET_SECTION, MPEG_TS_PACKET_SIZE in Hf. rewrite zlen_pmt_section in Hf.
  split; [by apply pmt_section_u8|]. unfold declared_len, MAX_SECTION_BYTES.
  rewrite !byte_at_section by lia. change (byte_at (section_start map version) 1) with 0xb0.
  change (byte_at (section_start map version) 2) with (13 + zlen (body map)).
  rewrite len12_of_eq by (unfold is_u8; lia). rewrite zlen_pmt_section. change (0xb0 mod 16) with 0. lia.
Qed.

Lemma pmt_crc map version : map_ok map -> mpeg_crc32 (pmt_section map version) = 0.
Proof.
  intros Hm. rewrite pmt_section_eq. apply mpeg_crc32_append, Forall_app.
  split; [apply section_start_u8|by apply body_u8].
Qed.

Lemma get_range_mid {A} (pre mid post : list A) :
  get_range (zlen pre) (zlen pre + zlen mid) (pre ++ mid ++ post) = Some mid.
Proof.
  unfold get_range. rewrite (proj2 (andb_true_iff _ _)) by zlia. f_equal.
  unfold slice, ztake, zdrop, zlen. rewrite drop_app_length' by lia. by rewrite take_app_length' by lia.
Qed.

Lemma zlen_concat_entries keep e es :
  entries_bytes keep (e :: es) = pmt_entry keep e ++ entries_bytes keep es.
Proof. done. Qed.

Lemma written_descriptors_le keep es :
  Forall (fun e => zlen (written_descriptors keep e) <= zlen (entries_bytes keep es)) es.
Proof.
  induction es as [|e es IH]; constructor; rewrite zlen_concat_entries, zlen_app.
  - rewrite zlen_pmt_entry. zlen_facts. lia.
  - eapply Forall_impl; [exact IH|]. intros x Hx. cbn in *. zlen_facts. lia.
Qed.

(** The walk over the entries finds them all. *)
Lemma pmt_streams_loop_entries keep es pre post fuel streams :
  Forall (fun e => zlen (written_descriptors keep e) < 256) es ->
  zlen (pre ++ entries_bytes keep es ++ post) < 2 ^ 32 -> (length es <= fuel)%nat ->
  pmt_streams_loop fuel (pre ++ entries_bytes keep es ++ post)
    (zlen pre + zlen (entries_bytes keep es)) (zlen pre) streams =
  Some (streams ++ List.map entry_info es).
Proof.
  intros Hd. revert pre fuel streams.
  induction Hd as [|e es He Hes IH]; intros pre fuel streams Hl Hf.
  - cbn [entries_bytes List.map concat]. rewrite zlen_nil, Z.add_0_r, app_nil_r.
    destruct fuel; cbn [pmt_streams_loop]; by rewrite Z.ltb_irrefl, Z.eqb_refl.
  - destruct fuel as [|fuel]; [cbn in Hf; lia|]. cbn [pmt_streams_loop].
    rewrite zlen_concat_entries in *. pose proof (zlen_pmt_entry keep e) as He5.
    autorewrite with relay in Hl. zlen_facts. rewrite (proj2 (Z.ltb_lt _ _)) by zlia.
    destruct e as [role e]. pose proof (pmt_entry_eq keep role e He) as Heq.
    set (d := written_descriptors keep (role, e)) in *.
    set (h := [en_stream_type e; Z.lor 0xe0 (Z.shiftr (output_pid role) 8); Z.land (output_pid role) 0xff; 0xf0; zlen d]) in *.
    assert (get_range (zlen pre) (sat_add u64_max (zlen pre) 5)
      (pre ++ (pmt_entry keep (role, e) ++ entries_bytes keep es) ++ post) = Some h) as ->.
    { unfold sat_add, u64_max. rewrite Z.min_r by lia. change 5 with (zlen h).
      rewrite Heq, <- !app_assoc. apply get_range_mid. }
    cbn [mbind option_bind]. change (byte_at h 0) with (en_stream_type e).
    change (byte_at h 1) with (Z.lor 0xe0 (Z.shiftr (output_pid role) 8)).
    change (byte_at h 2) with (Z.land (output_pid role) 0xff).
    change (byte_at h 3) with 0xf0. change (byte_at h 4) with (zlen d).
    rewrite pid_bytes_back, len12_of_eq by (unfold is_u8; lia).
    change (0xf0 mod 16 * 256 + zlen d) with (zlen d).
    rewrite checked_Some by (unfold u64_max; lia). cbn [mbind option_bind].
    rewrite checked_Some by (unfold u64_max; lia). cbn [mbind option_bind].
    rewrite (proj2 (Z.ltb_ge _ _)) by zlia.
    specialize (IH (pre ++ pmt_entry keep (role, e)) fuel (streams ++ [entry_info (role, e)])).
    rewrite <- !app_assoc in IH. rewrite <- !app_assoc. rewrite !zlen_app in IH. rewrite zlen_app.
    rewrite He5 in IH |- *. rewrite <- !Z.add_assoc in IH. rewrite <- !Z.add_assoc.
    apply IH; [autorewrite with relay; lia|cbn in Hf; lia].
Qed.

(** ** The packets *)

Definition psi_payload (section : bytes) : bytes :=
  0x00 :: section ++ replicate (Z.to_nat (MAX_SINGLE_PACKET_SECTION - zlen section)) 0xff.

Lemma psi_packet_eq pid counter section :
  zlen section <= MAX_SINGLE_PACKET_SECTION ->
  psi_packet pid counter section =
  [0x47; Z.lor 0x40 (Z.land (Z.land (Z.shiftr pid 8) 0xff) 0x1f); Z.land pid 0xff;
   Z.lor 0x10 (Z.land counter 0x0f)] ++ psi_payload section.
Proof.
  intros Hl. unfold psi_packet, psi_payload. by rewrite Z.min_l, ztake_ge by lia.
Qed.

Lemma zlen_psi_payload section :
  zlen section <= MAX_SINGLE_PACKET_SECTION -> zlen (psi_payload section) = MPEG_TS_PACKET_SIZE - 4.
Proof.
  intros Hl. unfold psi_payload. rewrite zlen_cons, zlen_app. unfold zlen at 2. rewrite length_replicate.
  unfold MAX_SINGLE_PACKET_SECTION in *. zlen_facts. lia.
Qed.

Lemma psi_packet_packet pid counter section :
  Forall is_u8 section -> is_packet (psi_packet pid counter section).
Proof.
  intros Hu. unfold psi_packet. set (n := Z.min (zlen section) MAX_SINGLE_PACKET_SECTION).
  apply is_packet_intro.
  - autorewrite with relay. unfold zlen at 2. rewrite length_replicate.
    unfold n, MAX_SINGLE_PACKET_SECTION. zlen_facts. unfold MPEG_TS_PACKET_SIZE. lia.
  - rewrite !Forall_app. split; [each; auto 8 with relay|]. split; [auto with relay|].
    apply Forall_replicate. auto with relay.
Qed.

Lemma counter_byte high c :
  0 <= c < 16 -> Z.land high 0xf0 = high ->
  Z.land (Z.lor high c) 0x0f = c /\
  (forall m, Z.land 0xf0 m = m -> Z.land 0x0f m = 0 -> Z.land (Z.lor high c) m = Z.land high m).
Proof.
  intros Hc Hh. rewrite <- Hh. split.
  - change 0x0f with (2 ^ 4 - 1). rewrite land_lor_low; by (lia || done).
  - intros m Hm Hm'. rewrite (land_lor_high _ _ _ m 4) by (lia || done). by rewrite Hh.
Qed.

Lemma psi_packet_header pid counter section :
  pid = PAT_PID \/ pid = SLATE_PMT_PID -> zlen section <= MAX_SINGLE_PACKET_SECTION ->
  packet_header (psi_packet pid counter section) =
  Some (mkPacketHeader pid true (Z.land counter 0x0f) (psi_payload section)).
Proof.
  intros Hpid Hl. rewrite psi_packet_eq by done.
  assert (0 <= Z.land counter 0x0f < 16) as Hc by (apply (land_bound _ _ 4); lia).
  destruct (counter_byte 0x10 _ Hc eq_refl) as [Hlow Hhigh].
  set (c := Z.lor 0x10 (Z.land counter 0x0f)) in *. unfold packet_header.
  rewrite zlen_app, zlen_psi_payload by done.
  set (p := [_; _; _; c] ++ psi_payload section).
  change (byte_at p 0) with 0x47. change (byte_at p 3) with c.
  rewrite (Hhigh 0xc0) by done.
  replace (Z.land (Z.shiftr c 4) 0x03) with 1.
  2: { change 3 with (Z.shiftr 0x30 4). rewrite <- Z.shiftr_land, (Hhigh 0x30) by done. done. }
  cbn [Z.eqb negb orb mbind option_bind]. change (zdrop 4 p) with (psi_payload section).
  rewrite Hlow. destruct Hpid as [-> | ->]; done.
Qed.

(** A section in one packet is handed out at once, whatever came before. *)
Lemma sa_observe_whole a pid counter section seq :
  section_ok section ->
  sa_observe a (mkPacketHeader pid true counter (psi_payload section)) seq =
  (sa_default, Some (mkCompletedSection section seq)).
Proof.
  intros Hok. assert (section <> []) by (intros ->; destruct Hok as (_ & Hl & _); zlia).
  apply (sa_observe_partial section [] section [] (tail (psi_payload section)) seq counter);
    rewrite ?app_nil_r; try done.
  - by eexists.
  - unfold sa_payload, psi_payload. cbn [ph_payload_unit_start ph_payload tail].
    by rewrite (proj2 (Z.ltb_ge _ _)) by apply zlen_nonneg.
Qed.

Lemma pat_section_ok : section_ok pat_section.
Proof.
  split; [|by vm_compute]. unfold pat_section. apply Forall_app.
  split; [each; by vm_compute|apply to_be_bytes32_u8].
Qed.

Lemma pat_parses : parse_pat pat_section = Some (PROGRAM_NUMBER, SLATE_PMT_PID).
Proof. by vm_compute. Qed.

Lemma pmt_parses map version :
  map_ok map ->
  parse_pmt_elementary_streams (pmt_section map version) PROGRAM_NUMBER =
  Some (List.map entry_info (pmt_entries map)).
Proof.
  intros Hm. pose proof (pmt_section_fits map version) as Hf. unfold MAX_SINGLE_PACKET_SECTION, MPEG_TS_PACKET_SIZE in Hf.
  unfold parse_pmt_elementary_streams. rewrite !byte_at_section by lia.
  set (s5 := byte_at (section_start map version) 5).
  assert (Z.land s5 0x01 = 1) as ->.
  { change s5 with (Z.lor 0xc1 (wrap8 (Z.shiftl (Z.land version 0x1f) 1))).
    rewrite Z.land_lor_distr_l. unfold wrap8.
    assert (Z.land (Z.shiftl (Z.land version 31) 1 mod 2 ^ 8) 1 = 0) as ->; [|done].
    change 1 with (2 ^ 1 - 1) at 2. rewrite land_mask by lia.
    rewrite Z.mod_mod_divide by (by exists (2 ^ 7)). rewrite Z.shiftl_mul_pow2 by lia. apply Z.mod_mul. lia. }
  rewrite (proj2 (Z.ltb_ge _ _)) by lia. cbn [Z.eqb orb negb].
  change (be16 (byte_at (section_start map version) 3) (byte_at (section_start map version) 4)) with PROGRAM_NUMBER.
  change (len12_of (byte_at (section_start map version) 10) (byte_at (section_start map version) 11)) with 0.
  change (byte_at (section_start map version) 0 =? PMT_TABLE_ID) with true.
  change (Z.land (byte_at (section_start map version) 1) 128 =? 0) with false.
  change (PROGRAM_NUMBER =? PROGRAM_NUMBER) with true.
  change (checked u64_max (12 + 0)) with (Some 12). cbn [negb orb mbind option_bind].
  rewrite sat_sub_ge, zlen_pmt_section, (proj2 (Z.ltb_ge _ _)) by (rewrite ?zlen_pmt_section; zlia).
  set (fuel := length _). rewrite pmt_section_eq. unfold append_crc. fold (section_start map version).
  rewrite <- app_assoc. set (crc := to_be_bytes32 _).
  replace (16 + zlen (body map) - 4) with (zlen (section_start map version) + zlen (body map))
    by (unfold section_start; autorewrite with relay; lia).
  change 12 with (zlen (section_start map version)) at 1.
  assert (zlen (section_start map version) = 12) as Hs by done.
  rewrite zlen_pmt_section in Hf.
  unfold body in *. apply (pmt_streams_loop_entries (keeps map) (pmt_entries map) (section_start map version) crc fuel []).
  - eapply Forall_impl; [apply (written_descriptors_le (keeps map))|]. intros e He. cbv beta in He. lia.
  - rewrite !zlen_app. change (zlen crc) with 4. lia.
  - unfold fuel. pose proof (pmt_entries_length map). pose proof (pmt_section_fits map version).
    unfold zlen in *. lia.
Qed.


Lemma pmt_matches map version : map_ok map -> is_matching_pmt (pmt_section map version) PROGRAM_NUMBER = true.
Proof. intros Hm. apply is_matching_pmt_parses. rewrite pmt_crc, pmt_parses by done. by split. Qed.

Lemma pat_packet_observed t counter seq :
  exists t', pt_observe t (psi_packet PAT_PID counter pat_section) seq = (t', None) /\
    pt_candidate t' = Some (mkPmtCandidate PROGRAM_NUMBER SLATE_PMT_PID seq sa_default).
Proof.
  unfold pt_observe. rewrite psi_packet_header by (by left || by vm_compute).
  unfold pt_observe_pat. cbn [ph_pid]. rewrite Z.eqb_refl.
  rewrite sa_observe_whole by apply pat_section_ok. cbn [cs_bytes]. rewrite pat_parses.
  unfold pt_observe_pmt. cbn. eexists. split; done.
Qed.

Lemma pmt_packet_observed t map version counter seq start :
  map_ok map ->
  pt_candidate t = Some (mkPmtCandidate PROGRAM_NUMBER SLATE_PMT_PID start sa_default) ->
  pt_observe t (psi_packet SLATE_PMT_PID counter (pmt_section map version)) seq =
  (mkPatPmtTracker (pt_pat t) None (Some (pmt_section map version)) (Some PROGRAM_NUMBER), Some start).
Proof.
  intros Hm Hc. unfold pt_observe.
  rewrite psi_packet_header by (by right || apply pmt_section_fits).
  unfold pt_observe_pat. cbn [ph_pid Z.eqb SLATE_PMT_PID PAT_PID].
  unfold pt_observe_pmt. rewrite Hc. cbn [pc_pid ph_pid pc_assembler pc_program_number pc_pat_start_sequence].
  rewrite Z.eqb_refl. cbn [negb]. rewrite sa_observe_whole by by apply pmt_section_ok.
  cbn [cs_bytes]. by rewrite pmt_matches.
Qed.

Lemma pcr_pid_of_section t map version :
  completed_pmt t = Some (pmt_section map version, PROGRAM_NUMBER) ->
  pcr_pid t = if output_pcr_pid map =? NULL_PID then None else Some (output_pcr_pid map).
Proof.
  intros Hc. unfold pcr_pid. rewrite Hc. rewrite pmt_section_eq. cbn [mbind option_bind].
  change (zget (append_crc _) 8) with (Some (Z.lor 0xe0 (Z.shiftr (output_pcr_pid map) 8))).
  change (zget (append_crc _) 9) with (Some (Z.land (output_pcr_pid map) 0xff)). cbn [mbind option_bind].
  rewrite (proj1 (pcr_pid_bytes_back map)). change 0x1fff with NULL_PID. by destruct (output_pcr_pid map =? NULL_PID).
Qed.

(** C10. Tables round trip: the tables the muxer writes are one PAT packet and one
    PMT packet, whatever the descriptors of the input; fed to the tracker of
    [psi.rs] in any state they give a restart point at the PAT, and the
    section the tracker then holds parses to the output streams and PCR PID. *)
Theorem tables_read_back m map t seq :
  mx_output_map m = Some map -> map_ok map ->
  exists pat pmt t1 t2 section,
    snd (write_tables m) = pat ++ pmt /\ is_packet pat /\ is_packet pmt /\
    pt_observe t pat seq = (t1, None) /\ pt_observe t1 pmt (seq + 1) = (t2, Some seq) /\
    completed_pmt t2 = Some (section, PROGRAM_NUMBER) /\
    parse_pmt_elementary_streams section PROGRAM_NUMBER =
      Some (List.map entry_info (pmt_entries map)) /\
    pcr_pid t2 = (if output_pcr_pid map =? NULL_PID then None else Some (output_pcr_pid map)).
Proof.
  intros Hm Hok. unfold write_tables, write_pat, write_pmt. cbn [mx_output_map set_pat_cc]. rewrite Hm. cbn [snd].
  destruct (pat_packet_observed t (mx_pat_cc m) seq) as (t1 & Ht1 & Hc1).
  do 5 eexists. split; [done|]. split; [apply psi_packet_packet, pat_section_ok|].
  split; [by apply psi_packet_packet, pmt_section_u8|]. split; [exact Ht1|].
  split; [by apply pmt_packet_observed|]. split; [done|]. split; [by apply pmt_parses|].
  by apply (pcr_pid_of_section _ map (mx_pmt_version m)).
Qed.
