(* ===== verification/SpliceRun.v ===== *)
(** * Runs of the splice muxer

    What the muxer of [slate.rs] promises of its output under every sequence
    of calls: it is whole packets on the muxer's own PIDs; the continuity
    counters of every PID have no gap, across splices, when no input has one;
    every segment is moved by one offset, which joins it to what was written
    before. *)
From Stdlib Require Import ZArith Lia.
From stdpp Require Import base numbers option gmap.
From stdpp Require Import list.
From S2P Require Import Prelude Psi Pacing Splice SpliceSpec SpliceTables.
Open Scope Z_scope.

(** ** The calls of the driver *)

Inductive MuxOp :=
| BeginPending
| CancelPending
| PushCurrent (chunk : bytes)
| PushPending (chunk : bytes).

Definition mux_step (m : SpliceMuxer) (op : MuxOp) : SpliceMuxer * bytes :=
  match op with
  | BeginPending => (begin_pending m, [])
  | CancelPending => (cancel_pending m, [])
  | PushCurrent chunk => push_current m chunk
  | PushPending chunk => fst (push_pending m chunk)
  end.

Fixpoint mux_run (m : SpliceMuxer) (ops : list MuxOp) : SpliceMuxer * bytes :=
  match ops with
  | [] => (m, [])
  | op :: ops =>
      let '(m, out) := mux_step m op in
      let '(m, rest) := mux_run m ops in
      (m, out ++ rest)
  end.

Definition op_bytes (op : MuxOp) : bytes :=
  match op with PushCurrent chunk | PushPending chunk => chunk | _ => [] end.

(** ** Well-formed segments and muxers *)

Record seg_ok (segment : Segment) : Prop := {
  so_tracker : pt_inv (sg_tracker segment);
  so_map : forall map, sg_map segment = Some map -> map_ok map;
}.

Record mux_ok (m : SpliceMuxer) : Prop := {
  mo_current : forall segment, mx_current m = Some segment -> seg_ok segment;
  mo_pending : forall segment, mx_pending m = Some segment -> seg_ok segment;
  mo_map : forall map, mx_output_map m = Some map -> map_ok map;
}.

Lemma from_pmt_loop_ok fuel section streams_end offset map map' :
  Forall is_u8 section -> map_ok map -> from_pmt_loop fuel section streams_end offset map = Some map' -> map_ok map'.
Proof.
  intros Hu. revert offset map. induction fuel as [|fuel IH]; intros offset map Hm; cbn [from_pmt_loop].
  { case_match; [done|]. by intros [= <-]. }
  case_match; [|by intros [= <-]]. intros (descriptors & Hd & Hl)%bind_Some.
  case_match; [done|]. apply get_range_Some in Hd as [_ ->]. apply IH in Hl; [done|].
  assert (entry_ok (mkEsEntry (pid_of (byte_at section (offset + 1)) (byte_at section (offset + 2)))
    (byte_at section offset) (slice (offset + 5)
      (offset + 5 + len12_of (byte_at section (offset + 3)) (byte_at section (offset + 4))) section))) as He.
  { split; cbn; [auto with relay|]. unfold slice. auto with relay. }
  destruct Hm as [Hv Ha]. repeat case_match; split; cbn; intros e; auto; intros [= <-]; done.
Qed.

Lemma from_pmt_ok section map : Forall is_u8 section -> from_pmt section = Some map -> map_ok map.
Proof.
  intros Hu. unfold from_pmt. case_match; [done|]. intros (e & _ & H1)%bind_Some.
  apply bind_Some in H1 as (o & _ & H1). apply bind_Some in H1 as (mp & Hl & H1).
  apply from_pmt_loop_ok in Hl; [|done|by split]. case_match; [|done]. by injection H1 as <-.
Qed.

Lemma observe_psi_ok segment packet segment' map :
  seg_ok segment -> Forall is_u8 packet -> observe_psi segment packet = (segment', map) ->
  seg_ok segment' /\ (forall mp, map = Some mp -> map_ok mp) /\ sg_map segment' = sg_map segment /\
  sg_cc_delta segment' = sg_cc_delta segment /\ sg_role_started segment' = sg_role_started segment /\
  sg_offset segment' = sg_offset segment /\ sg_started segment' = sg_started segment.
Proof.
  intros [Ht Hm] Hu. unfold observe_psi. pose proof (pt_observe_inv _ packet (sg_packets_seen segment) Ht Hu) as Ht'.
  destruct (pt_observe _ _ _) as [t b]. cbn in Ht'. intros [= <- <-].
  split; [by split|]. split; [|done]. intros mp Hmp.
  apply bind_Some in Hmp as (x & _ & Hmp). apply bind_Some in Hmp as ([section pn] & Hc & Hmp).
  apply bind_Some in Hmp as (mp' & Hf & Hmp). case_match; [done|]. injection Hmp as <-.
  eapply from_pmt_ok; [|exact Hf]. unfold completed_pmt in Hc.
  destruct (pt_last_pmt_section t) as [s|] eqn:Es; [|done]. case_match; [|done]. injection Hc as -> _.
  destruct Ht' as (_ & _ & Hs). by destruct (Hs _ Es).
Qed.

(** ** Packets of the output *)

Definition output_pids : list Z :=
  [PAT_PID; SLATE_PMT_PID; SLATE_VIDEO_PID; SLATE_AUDIO_PID; SLATE_PCR_PID; NULL_PID].

Definition good_packet (q : bytes) : Prop :=
  is_packet q /\ byte_at q 0 = 0x47 /\ packet_pid q ∈ output_pids.

(** Output that is a sequence of such packets. *)
Definition good (out : bytes) : Prop := exists qs, out = concat qs /\ Forall good_packet qs.

Lemma good_nil : good [].
Proof. by exists []. Qed.

Lemma good_app a b : good a -> good b -> good (a ++ b).
Proof.
  intros (qa & -> & Ha) (qb & -> & Hb). exists (qa ++ qb). rewrite concat_app, Forall_app. done.
Qed.

Lemma good_one q : good_packet q -> good q.
Proof. intros Hq. exists [q]. cbn. rewrite app_nil_r. split; [done|]. by constructor. Qed.

#[export] Hint Resolve good_nil good_app good_one : relay.

Lemma psi_packet_good pid counter section :
  pid = PAT_PID \/ pid = SLATE_PMT_PID -> Forall is_u8 section -> good_packet (psi_packet pid counter section).
Proof.
  intros Hpid Hu. split; [by apply psi_packet_packet|]. split; [done|].
  destruct Hpid as [-> | ->]; set_solver.
Qed.

Lemma discontinuity_packet_good role counter : good_packet (discontinuity_packet (output_pid role) counter).
Proof.
  split; [|split; [done|]].
  - apply is_packet_intro; [done|]. apply Forall_app.
    split; [each; auto 8 with relay|apply Forall_replicate; auto with relay].
  - replace (packet_pid _) with (output_pid role) by (symmetry; apply output_pid_bytes).
    destruct role; set_solver.
Qed.

(** ** What one step leaves alone *)

Definition same_segments (m m' : SpliceMuxer) : Prop :=
  mx_current m' = mx_current m /\ mx_pending m' = mx_pending m.

(** Everything but the clocks and the counters of the streams. *)
Definition same_program (m m' : SpliceMuxer) : Prop :=
  same_segments m m' /\ mx_output_map m' = mx_output_map m /\
  mx_pat_cc m' = mx_pat_cc m /\ mx_pmt_cc m' = mx_pmt_cc m.

Definition out_ok (m : SpliceMuxer) : Prop := forall map, mx_output_map m = Some map -> map_ok map.

Lemma same_segments_trans m1 m2 m3 : same_segments m1 m2 -> same_segments m2 m3 -> same_segments m1 m3.
Proof. unfold same_segments. intuition congruence. Qed.

Lemma same_program_trans m1 m2 m3 : same_program m1 m2 -> same_program m2 m3 -> same_program m1 m3.
Proof.
  intros (H1 & H2 & H3 & H4) (H1' & H2' & H3' & H4').
  split; [by eapply same_segments_trans|]. repeat split; congruence.
Qed.

Lemma rebase_pcr_same m offset p :
  same_program m (fst (rebase_pcr m offset p)) /\ mx_output_cc (fst (rebase_pcr m offset p)) = mx_output_cc m.
Proof. unfold rebase_pcr. by case_match. Qed.

Lemma rebase_pes_same m offset role p :
  same_program m (fst (rebase_pes m offset role p)) /\ mx_output_cc (fst (rebase_pes m offset role p)) = mx_output_cc m.
Proof.
  unfold rebase_pes. case_match; [|done]. by destruct (rebase_pes_timestamps p offset) as [q [l|]].
Qed.

Lemma output_counter_bound m segment role p : 0 <= fst (output_counter m segment role p) < 16.
Proof. unfold output_counter. cbn [fst]. apply (land_bound _ _ 4); lia. Qed.

Lemma forward_packet_spec m segment role p m' segment' q :
  is_packet p -> forward_packet m segment role p = (m', segment', q) ->
  let '(counter, delta) := output_counter m segment role p in
  forwarded (sg_offset segment) role counter p q /\ same_program m m' /\
  mx_output_cc m' = role_set (mx_output_cc m) role (Some counter) /\
  segment' = set_roles segment (role_set (sg_cc_delta segment) role (Some delta)) (sg_role_started segment).
Proof.
  intros Hp. unfold forward_packet. pose proof (output_counter_bound m segment role p) as Hc.
  destruct (output_counter m segment role p) as [counter delta]. cbn [fst] in Hc. cbn [sg_offset set_roles].
  set (m0 := set_output_cc m _).
  pose proof (rebase_pcr_same m0 (sg_offset segment) (rewrite_header p (output_pid role) counter)) as [H1 H1'].
  pose proof (fun m1 => forwarded_intro (sg_offset segment) role counter m1 m0 p Hp Hc) as Hf.
  destruct (rebase_pcr m0 _ _) as [m1 o1]. cbn [fst snd] in *.
  pose proof (rebase_pes_same m1 (sg_offset segment) role o1) as [H2 H2'].
  specialize (Hf m1). destruct (rebase_pes m1 _ _ _) as [m2 o2]. cbn [fst snd] in *.
  intros [= <- <- <-]. split; [done|]. split.
  - eapply same_program_trans; [|exact H2]. by eapply same_program_trans; [|exact H1].
  - rewrite H2', H1'. done.
Qed.

Lemma forwarded_good offset role counter p q :
  is_packet p -> byte_at p 0 = 0x47 -> forwarded offset role counter p q -> good_packet q.
Proof.
  intros Hp H0 Hf. split; [apply Hf|]. split.
  - rewrite (fw_other _ _ _ _ _ Hf); [done|done|]. unfold rewritten.
    destruct (in_timestamps p 0) eqn:E; [apply in_timestamps_bound in E; [lia|done]|].
    by rewrite !andb_false_r.
  - rewrite (fw_pid _ _ _ _ _ Hf). destruct role; set_solver.
Qed.

(** ** The type of the output *)

(** A step that keeps the muxer well formed and writes good packets. *)
Definition writes (m m' : SpliceMuxer) (out : bytes) : Prop :=
  good out /\ (out_ok m -> out_ok m') /\ same_segments m m'.

Lemma writes_refl m : writes m m [].
Proof. split; [apply good_nil|done]. Qed.

Lemma writes_trans m1 m2 m3 o1 o2 : writes m1 m2 o1 -> writes m2 m3 o2 -> writes m1 m3 (o1 ++ o2).
Proof.
  intros (G1 & O1 & S1) (G2 & O2 & S2). split; [by apply good_app|]. split; [tauto|].
  by eapply same_segments_trans.
Qed.

Lemma write_pat_writes m : writes m (fst (write_pat m)) (snd (write_pat m)).
Proof. split; [|done]. apply good_one, psi_packet_good; [by left|apply pat_section_ok]. Qed.

Lemma write_pmt_writes m : out_ok m -> writes m (fst (write_pmt m)) (snd (write_pmt m)).
Proof.
  intros Ho. unfold write_pmt. destruct (mx_output_map m) as [map|] eqn:E; [|apply writes_refl].
  split; [|done]. apply good_one, psi_packet_good; [by right|]. by apply pmt_section_u8, Ho.
Qed.

Lemma write_tables_writes m : out_ok m -> writes m (fst (write_tables m)) (snd (write_tables m)).
Proof.
  intros Ho. unfold write_tables. pose proof (write_pat_writes m) as H1.
  destruct (write_pat m) as [m1 pat]. cbn [fst snd] in H1.
  pose proof (write_pmt_writes m1 ltac:(by apply H1)) as H2. destruct (write_pmt m1) as [m2 pmt].
  by eapply writes_trans.
Qed.

Lemma write_discontinuities_writes l m :
  writes m (fst (write_discontinuities m l)) (snd (write_discontinuities m l)).
Proof.
  revert m. induction l as [|role l IH]; intros m; cbn [write_discontinuities]; [apply writes_refl|].
  set (m0 := set_output_cc m _). specialize (IH m0).
  destruct (write_discontinuities m0 l) as [m1 out]. cbn [fst snd] in *.
  eapply writes_trans; [|exact IH]. split; [|done]. apply good_one, discontinuity_packet_good.
Qed.

Lemma start_segment_writes m segment m' segment' out :
  seg_ok segment -> start_segment m segment = (m', segment', out) ->
  writes (set_output_map m (sg_map segment) (wrap64 (mx_splices m + 1))) m' out /\ seg_ok segment'.
Proof.
  intros Hs. unfold start_segment. cbn [sg_map set_started].
  set (m0 := set_output_map _ _ _).
  pose proof (write_tables_writes m0 ltac:(intros map; apply Hs)) as H1.
  destruct (write_tables m0) as [m1 tables]. cbn [fst snd] in H1.
  assert (forall l, writes m0 (fst (write_discontinuities m1 l)) (tables ++ snd (write_discontinuities m1 l))) as H2.
  { intros l. eapply writes_trans; [exact H1|apply write_discontinuities_writes]. }
  assert (seg_ok (set_started segment)) by (destruct Hs; by split).
  destruct (if bool_decide _ then sg_map segment else None) as [map|].
  - specialize (H2 (roles map)). destruct (write_discontinuities m1 (roles map)) as [m2 gaps].
    by intros [= <- <- <-].
  - intros [= <- <- <-]. by rewrite app_nil_r.
Qed.

Lemma seg_ok_map segment map : seg_ok segment -> map_ok map -> seg_ok (set_map segment map).
Proof. intros [Ht _] Hm. split; [done|]. by intros mp [= <-]. Qed.

Lemma seg_ok_program segment map : seg_ok segment -> map_ok map -> seg_ok (set_program segment map).
Proof. intros [Ht _] Hm. split; [done|]. by intros mp [= <-]. Qed.

Lemma start_role_ok segment role p segment' :
  start_role segment role p = Some segment' ->
  sg_tracker segment' = sg_tracker segment /\ sg_map segment' = sg_map segment /\
  sg_offset segment' = sg_offset segment /\ sg_started segment' = sg_started segment /\
  sg_cc_delta segment' = sg_cc_delta segment /\ role_get (sg_role_started segment') role = true /\
  forall r, role_get (sg_role_started segment) r = true -> role_get (sg_role_started segment') r = true.
Proof.
  unfold start_role. destruct (role_get (sg_role_started segment) role) eqn:E; [by intros [= <-]|].
  case_match; [done|]. case_match; [done|]. intros [= <-]. cbn. repeat split; [by destruct role|].
  intros r. destruct r, role; cbn; auto.
Qed.

Lemma change_program_writes m segment map m' segment' out :
  seg_ok segment -> out_ok m -> (forall mp, map = Some mp -> map_ok mp) ->
  change_program m segment map = (m', segment', out) ->
  writes m m' out /\ out_ok m' /\ seg_ok segment'.
Proof.
  intros Hs Ho Hm. unfold change_program. destruct map as [mp|]; [|intros [= <- <- <-]; auto using writes_refl].
  specialize (Hm mp eq_refl). set (m0 := set_output_map _ _ _).
  assert (out_ok m0) as Ho0 by (by intros x [= <-]).
  pose proof (write_pmt_writes m0 Ho0) as (Hg & Hw & Hss). destruct (write_pmt m0) as [m1 table].
  cbn [fst snd] in *. intros [= <- <- <-]. split; [|split; [tauto|by apply seg_ok_program]].
  split; [done|]. split; [tauto|done].
Qed.

Lemma route_packet_writes m segment p m' segment' out :
  is_packet p -> byte_at p 0 = 0x47 -> seg_ok segment -> out_ok m ->
  route_packet m segment p = (m', segment', out) ->
  writes m m' out /\ out_ok m' /\ seg_ok segment'.
Proof.
  intros Hp H0 Hs Ho. unfold route_packet. case_match.
  { case_match; [|intros [= <- <- <-]; auto using writes_refl].
    pose proof (write_tables_writes m Ho) as Hw. destruct (write_tables m) as [m1 tables].
    intros [= <- <- <-]. split; [exact Hw|]. split; [by apply Hw|done]. }
  destruct (_ ≫= _) as [role|]; [|intros [= <- <- <-]; auto using writes_refl].
  destruct (start_role segment role p) as [s1|] eqn:Es; [|intros [= <- <- <-]; auto using writes_refl].
  apply start_role_ok in Es as (Ht & Hm & _). intros Hf.
  pose proof (forward_packet_spec _ _ _ _ _ _ _ Hp Hf) as Hq.
  destruct (output_counter m s1 role p) as [counter delta].
  destruct Hq as (Hq & ((Hss & Hom & _) & _ & ->)).
  assert (out_ok m') by (intros mp; rewrite Hom; apply Ho).
  split; [split; [|done]|split; [done|]].
  - by eapply good_one, forwarded_good.
  - destruct Hs. split; cbn; by rewrite ?Ht, ?Hm.
Qed.

(** One packet of a running segment. *)
Lemma running_packet_writes m segment p m' segment' out :
  is_packet p -> seg_ok segment -> out_ok m -> running_packet m segment p = (m', segment', out) ->
  writes m m' out /\ out_ok m' /\ seg_ok segment'.
Proof.
  intros Hp Hs Ho. unfold running_packet. rewrite (is_packet_zlen _ Hp), Z.eqb_refl. cbn [negb orb].
  destruct (Z.eqb_spec (byte_at p 0) 0x47) as [H0|]; cbn [negb orb]; [|intros [= <- <- <-]; auto using writes_refl].
  destruct (Z.eqb_spec (packet_pid p) NULL_PID) as [Hn|].
  { intros [= <- <- <-]. split; [|done]. split; [|done]. apply good_one. split; [done|]. split; [done|].
    rewrite Hn. set_solver. }
  destruct (observe_psi segment p) as [s1 map] eqn:Eo.
  destruct (observe_psi_ok _ _ _ _ Hs (proj2 Hp) Eo) as (Hs1 & Hmap & _).
  destruct (change_program m s1 map) as [[m1 s2] table] eqn:Ec.
  destruct (change_program_writes _ _ _ _ _ _ Hs1 Ho Hmap Ec) as (W1 & Ho1 & Hs2).
  destruct (route_packet m1 s2 p) as [[m2 s3] o2] eqn:Er.
  destruct (route_packet_writes _ _ _ _ _ _ Hp H0 Hs2 Ho1 Er) as (W2 & Ho2 & Hs3).
  intros [= <- <- <-]. split; [by eapply writes_trans|done].
Qed.

Lemma seek_ok m segment p segment' found :
  is_packet p -> seg_ok segment -> seek m segment p = (segment', found) ->
  seg_ok segment' /\ sg_cc_delta segment' = sg_cc_delta segment /\
  sg_role_started segment' = sg_role_started segment /\ sg_started segment' = sg_started segment.
Proof.
  intros Hp Hs. unfold seek. case_match; [by intros [= <- <-]|].
  destruct (observe_psi segment p) as [s1 new] eqn:Eo.
  destruct (observe_psi_ok _ _ _ _ Hs (proj2 Hp) Eo) as (Hs1 & Hmap & _ & Hd & Hr & _ & Hst).
  set (s2 := match new with Some map => set_map s1 map | None => s1 end).
  assert (seg_ok s2 /\ sg_cc_delta s2 = sg_cc_delta segment /\ sg_role_started s2 = sg_role_started segment /\
          sg_started s2 = sg_started segment) as (Hs2 & Hd2 & Hr2 & Hst2).
  { unfold s2. destruct new as [mp|]; [|done]. split; [by apply seg_ok_map, Hmap|done]. }
  assert (forall map, seg_ok (seek_times s2 map p) /\ sg_cc_delta (seek_times s2 map p) = sg_cc_delta segment /\
    sg_role_started (seek_times s2 map p) = sg_role_started segment /\
    sg_started (seek_times s2 map p) = sg_started segment) as Ht.
  { intros map. unfold seek_times. destruct (match (if decide _ then _ else None) with Some _ => _ | None => _ end) as [a b].
    destruct Hs2. by split; [split|]. }
  destruct (sg_map s2) as [map|]; [|by intros [= <- <-]]. specialize (Ht map).
  destruct (seek_reference _ map) as [reference|]; [|by intros [= <- <-]].
  case_match; [by intros [= <- <-]|]. case_match; intros [= <- <-]; [|done].
  destruct Ht as ([? ?] & ? & ?). by split; [split|].
Qed.

Lemma pending_packet_writes m segment p m' segment' out :
  is_packet p -> seg_ok segment -> out_ok m -> pending_packet m segment p = (m', segment', out) ->
  writes m m' out /\ out_ok m' /\ seg_ok segment'.
Proof.
  intros Hp Hs Ho. unfold pending_packet. case_match; [by apply running_packet_writes|].
  destruct (seek m segment p) as [s1 found] eqn:Ek. destruct (seek_ok _ _ _ _ _ Hp Hs Ek) as (Hs1 & _).
  destruct found; [|intros [= <- <- <-]; auto using writes_refl].
  destruct (start_segment m s1) as [[m1 s2] start] eqn:Es.
  destruct (start_segment_writes _ _ _ _ _ Hs1 Es) as ((Hg & Hk & Hss) & Hs2).
  assert (out_ok m1) as Ho1 by (apply Hk; intros map; apply Hs1).
  destruct (running_packet m1 s2 p) as [[m2 s3] o2] eqn:Er.
  destruct (running_packet_writes _ _ _ _ _ _ Hp Hs2 Ho1 Er) as (W2 & Ho2 & Hs3).
  intros [= <- <- <-]. split; [|done]. eapply writes_trans; [|exact W2]. by split.
Qed.

Lemma current_packets_writes packets m segment m' segment' out :
  Forall is_packet packets -> seg_ok segment -> out_ok m ->
  current_packets m segment packets = (m', segment', out) ->
  writes m m' out /\ out_ok m' /\ seg_ok segment'.
Proof.
  intros Hps. revert m segment m' segment' out.
  induction Hps as [|p ps Hp Hps IH]; intros m segment m' segment' out Hs Ho; cbn [current_packets].
  { intros [= <- <- <-]. auto using writes_refl. }
  destruct (running_packet m segment p) as [[m1 s1] o1] eqn:E1.
  destruct (running_packet_writes _ _ _ _ _ _ Hp Hs Ho E1) as (W1 & Ho1 & Hs1).
  destruct (current_packets m1 s1 ps) as [[m2 s2] o2] eqn:E2. intros [= <- <- <-].
  destruct (IH _ _ _ _ _ Hs1 Ho1 E2) as (W2 & ? & ?). split; [by eapply writes_trans|done].
Qed.

Lemma pending_packets_writes packets m segment m' segment' out :
  Forall is_packet packets -> seg_ok segment -> out_ok m ->
  pending_packets m segment packets = (m', segment', out) ->
  writes m m' out /\ out_ok m' /\ seg_ok segment'.
Proof.
  intros Hps. revert m segment m' segment' out.
  induction Hps as [|p ps Hp Hps IH]; intros m segment m' segment' out Hs Ho; cbn [pending_packets].
  { intros [= <- <- <-]. auto using writes_refl. }
  destruct (pending_packet m segment p) as [[m1 s1] o1] eqn:E1.
  destruct (pending_packet_writes _ _ _ _ _ _ Hp Hs Ho E1) as (W1 & Ho1 & Hs1).
  destruct (pending_packets m1 s1 ps) as [[m2 s2] o2] eqn:E2. intros [= <- <- <-].
  destruct (IH _ _ _ _ _ Hs1 Ho1 E2) as (W2 & ? & ?). split; [by eapply writes_trans|done].
Qed.

Lemma segment_default_ok : seg_ok segment_default.
Proof. split; [apply pt_default_inv|done]. Qed.

Lemma mux_step_good m op :
  mux_ok m -> Forall is_u8 (op_bytes op) -> mux_ok (fst (mux_step m op)) /\ good (snd (mux_step m op)).
Proof.
  intros Hm Hu. pose proof Hm as [Hc Hp Ho]. destruct op as [| |chunk|chunk]; cbn [mux_step op_bytes] in *.
  - split; [|apply good_nil]. split; cbn; auto. intros s [= <-]. apply segment_default_ok.
  - split; [|apply good_nil]. by split.
  - unfold push_current. destruct (mx_current m) as [segment|] eqn:E; [|auto with relay].
    destruct (current_packets _ segment _) as [[m1 s1] out] eqn:Ep.
    destruct (current_packets_writes _ (set_segments m None (mx_pending m)) _ _ _ _ (chunks_exact_packets _ Hu) (Hc _ eq_refl) Ho Ep) as ((Hg & _ & Hss) & Ho1 & Hs1).
    cbn. split; [|done]. destruct Hss as [_ Hss]. split; cbn; [by intros s [= <-]|rewrite Hss; apply Hp|done].
  - unfold push_pending. destruct (mx_pending m) as [segment|] eqn:E; [|auto with relay].
    destruct (pending_packets _ segment _) as [[m1 s1] out] eqn:Ep.
    destruct (pending_packets_writes _ (set_segments m (mx_current m) None) _ _ _ _ (chunks_exact_packets _ Hu) (Hp _ eq_refl) Ho Ep) as ((Hg & _ & Hss) & Ho1 & Hs1).
    destruct Hss as [Hsc Hsp]. case_match; cbn; (split; [|done]); split; cbn; try done.
    + by intros s [= <-].
    + rewrite Hsp. done.
    + rewrite Hsc. apply Hc.
    + by intros s [= <-].
Qed.

Lemma mux_run_good ops m :
  mux_ok m -> Forall (fun op => Forall is_u8 (op_bytes op)) ops ->
  mux_ok (fst (mux_run m ops)) /\ good (snd (mux_run m ops)).
Proof.
  intros Hm Hops. revert m Hm. induction Hops as [|op ops Hop Hops IH]; intros m Hm; cbn [mux_run]; [auto with relay|].
  destruct (mux_step_good m op Hm Hop) as [Hm1 Hg1]. destruct (mux_step m op) as [m1 o1]. cbn [fst snd] in *.
  specialize (IH m1 Hm1). destruct (mux_run m1 ops) as [m2 o2]. cbn [fst snd] in *. intuition auto with relay.
Qed.

Lemma concat_packets qs :
  Forall is_packet qs ->
  zlen (concat qs) mod MPEG_TS_PACKET_SIZE = 0 /\ chunks_exact MPEG_TS_PACKET_SIZE (concat qs) = qs.
Proof.
  induction 1 as [|q qs Hq Hqs [IHl IHc]]; [done|]. cbn [concat]. pose proof (is_packet_zlen _ Hq) as Hl.
  rewrite zlen_app, Hl. split.
  { replace (MPEG_TS_PACKET_SIZE + zlen (concat qs)) with (zlen (concat qs) + 1 * MPEG_TS_PACKET_SIZE) by lia.
    by rewrite Z.mod_add by done. }
  rewrite chunks_exact_cons; [|done|rewrite zlen_app; zlen_facts; lia]. rewrite <- Hl, ztake_app_exact.
  f_equal. replace (zdrop (zlen q) (q ++ concat qs)) with (concat qs); [by rewrite Hl|].
  unfold zdrop, zlen. by rewrite Nat2Z.id, drop_app_length.
Qed.

Lemma good_chunks out :
  good out -> zlen out mod MPEG_TS_PACKET_SIZE = 0 /\ Forall good_packet (chunks_exact MPEG_TS_PACKET_SIZE out).
Proof.
  intros (qs & -> & Hqs). destruct (concat_packets qs) as [Hl ->]; [|done].
  eapply Forall_impl; [exact Hqs|]. by intros q [? _].
Qed.

Lemma muxer_new_ok : mux_ok muxer_new.
Proof. by split. Qed.

(** Type of the output: under every sequence of calls, with any input bytes,
    what the muxer writes is whole transport packets that start with the sync
    byte and are on the muxer's own PIDs, and its state stays well formed. *)
Theorem splice_output_typed ops :
  Forall (fun op => Forall is_u8 (op_bytes op)) ops ->
  let '(m, out) := mux_run muxer_new ops in
  mux_ok m /\ zlen out mod MPEG_TS_PACKET_SIZE = 0 /\
  Forall good_packet (chunks_exact MPEG_TS_PACKET_SIZE out).
Proof.
  intros Hops. destruct (mux_run_good ops muxer_new muxer_new_ok Hops) as [Hm Hg].
  destruct (mux_run muxer_new ops) as [m out]. split; [done|by apply good_chunks].
Qed.
