(* ===== verification/SpliceContinuity.v ===== *)
(** * Continuity across splices

    A decoder counts the packets of every PID by their continuity counters.
    The muxer of [slate.rs] joins streams with unrelated counters; this file
    shows that it leaves no gap: when the input of every segment is
    continuous, so is the whole output, on every PID. *)
From Stdlib Require Import ZArith Lia.
From stdpp Require Import base numbers option gmap.
From stdpp Require Import list.
From S2P Require Import Prelude Psi Pacing Splice SpliceSpec SpliceTables SpliceRun.
Open Scope Z_scope.

(** ** The counters a decoder keeps *)

Definition packet_cc (p : bytes) : Z := Z.land (byte_at p 3) 0x0f.
Definition has_payload (p : bytes) : bool := negb (Z.land (byte_at p 3) 0x10 =? 0).

(** The next counter of a PID: it advances with every packet with payload. *)
Definition next_cc (last : Z) (payload : bool) : Z := if payload then (last + 1) mod 16 else last.

(** The decoder's counters after a packet; [None] is a gap.  Null packets and
    packets out of sync carry no counter. *)
Definition cc_step (s : gmap Z Z) (p : bytes) : option (gmap Z Z) :=
  if negb (byte_at p 0 =? 0x47) || (packet_pid p =? NULL_PID) then Some s
  else
    match s !! packet_pid p with
    | Some last =>
        if packet_cc p =? next_cc last (has_payload p)
        then Some (<[packet_pid p := packet_cc p]> s) else None
    | None => Some (<[packet_pid p := packet_cc p]> s)
    end.

Fixpoint cc_run (s : gmap Z Z) (packets : list bytes) : option (gmap Z Z) :=
  match packets with
  | [] => Some s
  | p :: packets => s ← cc_step s p; cc_run s packets
  end.

Lemma cc_run_app s a b : cc_run s (a ++ b) = (s ← cc_run s a; cc_run s b).
Proof.
  revert s. induction a as [|p a IH]; intros s; cbn; [done|]. destruct (cc_step s p); cbn; auto.
Qed.

Lemma cc_step_spec s p s' :
  cc_step s p = Some s' -> byte_at p 0 = 0x47 -> packet_pid p <> NULL_PID ->
  s' = <[packet_pid p := packet_cc p]> s /\
  (forall last, s !! packet_pid p = Some last -> packet_cc p = next_cc last (has_payload p)).
Proof.
  unfold cc_step. intros Hs H0 Hn. rewrite H0, Z.eqb_refl, (proj2 (Z.eqb_neq _ _)) in Hs by done. cbn in Hs.
  destruct (s !! packet_pid p) as [c|] eqn:E; [|by injection Hs as <-].
  destruct (Z.eqb_spec (packet_cc p) (next_cc c (has_payload p))); [|done]. injection Hs as <-.
  split; [done|]. by intros ? [= <-].
Qed.

Lemma cc_step_intro s q pid c :
  byte_at q 0 = 0x47 -> packet_pid q = pid -> pid <> NULL_PID -> packet_cc q = c ->
  (forall last, s !! pid = Some last -> c = next_cc last (has_payload q)) ->
  cc_step s q = Some (<[pid := c]> s).
Proof.
  intros H0 <- Hn <- Hc. unfold cc_step. rewrite H0, Z.eqb_refl, (proj2 (Z.eqb_neq _ _)) by done. cbn.
  destruct (s !! packet_pid q) as [last|]; [|done]. by rewrite (Hc last), Z.eqb_refl.
Qed.

(** ** The counters of the muxer and of the decoder agree *)

(** A table's counter is the one after the decoder's. *)
Definition table_cc (s : gmap Z Z) (pid cc : Z) : Prop :=
  0 <= cc < 16 /\ forall last, s !! pid = Some last -> cc = (last + 1) mod 16.

Record cc_out (m : SpliceMuxer) (s : gmap Z Z) : Prop := {
  co_role : forall role, s !! output_pid role = role_get (mx_output_cc m) role;
  co_pat : table_cc s PAT_PID (mx_pat_cc m);
  co_pmt : table_cc s SLATE_PMT_PID (mx_pmt_cc m);
}.

(** A step that writes packets with the counters the decoder expects. *)
Definition continues_cc (m m' : SpliceMuxer) (out : bytes) : Prop :=
  exists qs, out = concat qs /\ Forall is_packet qs /\
    forall s, cc_out m s -> exists s', cc_run s qs = Some s' /\ cc_out m' s'.

Lemma continues_refl m m' :
  mx_output_cc m' = mx_output_cc m -> mx_pat_cc m' = mx_pat_cc m -> mx_pmt_cc m' = mx_pmt_cc m ->
  continues_cc m m' [].
Proof.
  intros H1 H2 H3. exists []. split; [done|]. split; [constructor|]. intros s [Hr Hp Hm]. exists s.
  split; [done|]. split; [intros role; rewrite H1; apply Hr|by rewrite H2|by rewrite H3].
Qed.

Lemma continues_trans m1 m2 m3 o1 o2 :
  continues_cc m1 m2 o1 -> continues_cc m2 m3 o2 -> continues_cc m1 m3 (o1 ++ o2).
Proof.
  intros (q1 & -> & P1 & H1) (q2 & -> & P2 & H2). exists (q1 ++ q2).
  rewrite concat_app, Forall_app. split; [done|]. split; [done|]. intros s Hs.
  destruct (H1 s Hs) as (s1 & R1 & C1). destruct (H2 s1 C1) as (s2 & R2 & C2).
  exists s2. by rewrite cc_run_app, R1.
Qed.

(** One packet with the counter the decoder expects. *)
Lemma continues_one m m' q pid c :
  is_packet q -> byte_at q 0 = 0x47 -> packet_pid q = pid -> pid <> NULL_PID -> packet_cc q = c ->
  (forall s last, cc_out m s -> s !! pid = Some last -> c = next_cc last (has_payload q)) ->
  (forall s, cc_out m s -> cc_out m' (<[pid := c]> s)) -> continues_cc m m' q.
Proof.
  intros Hq H0 Hp Hn Hc Hl Hk. exists [q]. cbn [concat]. rewrite app_nil_r.
  split; [done|]. split; [by constructor|]. intros s Hs. exists (<[pid := c]> s).
  cbn [cc_run]. rewrite (cc_step_intro s q pid c) by eauto. cbn. auto.
Qed.

Lemma output_pid_inj r1 r2 : output_pid r1 = output_pid r2 -> r1 = r2.
Proof. by destruct r1, r2. Qed.

Lemma output_pid_ne role :
  output_pid role <> PAT_PID /\ output_pid role <> SLATE_PMT_PID /\ output_pid role <> NULL_PID.
Proof. by destruct role. Qed.

Lemma next16 cc : Z.land (wrap8 cc) 0x0f = cc mod 16.
Proof.
  change 0x0f with (2 ^ 4 - 1). rewrite land_mask by lia. unfold wrap8. apply Z.mod_mod_divide. by exists 16.
Qed.

Lemma role_get_set {T} (a : PerRole T) r x r' :
  role_get (role_set a r x) r' = if decide (r' = r) then x else role_get a r'.
Proof. by destruct r, r'. Qed.

(** Writing to a stream's counter. *)
Lemma cc_out_role m m' s role c :
  cc_out m s -> mx_output_cc m' = role_set (mx_output_cc m) role (Some c) ->
  mx_pat_cc m' = mx_pat_cc m -> mx_pmt_cc m' = mx_pmt_cc m ->
  cc_out m' (<[output_pid role := c]> s).
Proof.
  intros [Hr [Hp Hp'] [Hm Hm']] H1 H2 H3. destruct (output_pid_ne role) as (Ha & Hb & _).
  split; [|split; [by rewrite H2|]|split; [by rewrite H3|]].
  - intros r. rewrite H1, role_get_set. case_decide as E; [subst r; apply lookup_insert_eq|].
    rewrite lookup_insert_ne by (intros Hi; by apply output_pid_inj in Hi). apply Hr.
  - intros last. rewrite lookup_insert_ne, H2 by done. apply Hp'.
  - intros last. rewrite lookup_insert_ne, H3 by done. apply Hm'.
Qed.

(** ** Tables and discontinuity packets *)

Lemma psi_packet_cc pid counter section :
  0 <= counter < 16 -> zlen section <= MAX_SINGLE_PACKET_SECTION ->
  packet_cc (psi_packet pid counter section) = counter /\ has_payload (psi_packet pid counter section) = true.
Proof.
  intros Hc Hl. rewrite psi_packet_eq by done. unfold packet_cc, has_payload.
  change (byte_at _ 3) with (Z.lor 0x10 (Z.land counter 0x0f)).
  replace (Z.land counter 0x0f) with counter
    by (change 0x0f with (2 ^ 4 - 1); rewrite land_mask, Z.mod_small by lia; lia).
  destruct (counter_byte 0x10 counter Hc eq_refl) as [-> ->]; done.
Qed.

Lemma table_cc_step s pid cc :
  table_cc s pid cc -> table_cc (<[pid := cc]> s) pid (Z.land (wrap8 (cc + 1)) 0x0f).
Proof.
  intros [Hc _]. rewrite next16. split; [apply Z.mod_pos_bound; lia|].
  intros last. rewrite lookup_insert_eq. by intros [= <-].
Qed.

Lemma table_cc_other s pid pid' c cc : pid <> pid' -> table_cc s pid cc -> table_cc (<[pid' := c]> s) pid cc.
Proof. intros Hn [Hc Hl]. split; [done|]. intros last. rewrite lookup_insert_ne by done. apply Hl. Qed.

Lemma pat_packet_cc counter :
  0 <= counter < 16 ->
  packet_cc (psi_packet PAT_PID counter pat_section) = counter /\
  has_payload (psi_packet PAT_PID counter pat_section) = true.
Proof. intros. by apply psi_packet_cc. Qed.

Lemma write_pat_continues m s0 : cc_out m s0 -> continues_cc m (fst (write_pat m)) (snd (write_pat m)).
Proof.
  intros H0. destruct (co_pat _ _ H0) as [Hc _]. destruct (pat_packet_cc _ Hc) as [Hcc Hpay].
  apply (continues_one _ _ _ PAT_PID (mx_pat_cc m)); try done.
  - apply psi_packet_packet, pat_section_ok.
  - cbn [snd write_pat]. intros s last Hs Hl. rewrite Hpay. by apply (co_pat _ _ Hs).
  - intros s [Hr Hp Hm]. split; cbn.
    + intros role. rewrite lookup_insert_ne by (by destruct role). apply Hr.
    + by apply table_cc_step.
    + by apply table_cc_other.
Qed.

Lemma write_pmt_continues m s0 :
  out_ok m -> cc_out m s0 -> continues_cc m (fst (write_pmt m)) (snd (write_pmt m)).
Proof.
  intros Ho H0. unfold write_pmt. destruct (mx_output_map m) as [map|] eqn:E; [|by apply continues_refl].
  destruct (co_pmt _ _ H0) as [Hc _]. cbn [fst snd].
  destruct (psi_packet_cc SLATE_PMT_PID (mx_pmt_cc m) (pmt_section map (mx_pmt_version m)) Hc) as [Hcc Hpay];
    [apply pmt_section_fits|].
  apply (continues_one _ _ _ SLATE_PMT_PID (mx_pmt_cc m)); try done.
  - by apply psi_packet_packet, pmt_section_u8, Ho.
  - intros s last Hs Hl. rewrite Hpay. by apply (co_pmt _ _ Hs).
  - intros s [Hr Hp Hm]. split; cbn.
    + intros role. rewrite lookup_insert_ne by (by destruct role). apply Hr.
    + by apply table_cc_other.
    + by apply table_cc_step.
Qed.

Lemma continues_out m m' out s : continues_cc m m' out -> cc_out m s -> exists s', cc_out m' s'.
Proof. intros (qs & _ & _ & H) Hs. destruct (H s Hs) as (s' & _ & H'). by exists s'. Qed.

Lemma write_tables_continues m s0 :
  out_ok m -> cc_out m s0 ->
  continues_cc m (fst (write_tables m)) (snd (write_tables m)) /\
  mx_output_cc (fst (write_tables m)) = mx_output_cc m.
Proof.
  intros Ho H0. unfold write_tables. pose proof (write_pat_continues m s0 H0) as C1.
  destruct (write_pat m) as [m1 pat] eqn:E1. cbn [fst snd] in C1.
  destruct (continues_out _ _ _ _ C1 H0) as [s1 H1]. injection E1 as <- <-.
  pose proof (write_pmt_continues (set_pat_cc m (Z.land (wrap8 (mx_pat_cc m + 1)) 0x0f)) s1 Ho H1) as C2.
  split.
  - destruct (write_pmt _) as [m2 pmt]. by eapply continues_trans.
  - unfold write_pmt. cbn. by destruct (mx_output_map m).
Qed.

Lemma discontinuity_packet_cc pid counter :
  0 <= counter < 16 ->
  packet_cc (discontinuity_packet pid counter) = counter /\
  has_payload (discontinuity_packet pid counter) = false.
Proof.
  intros Hc. unfold packet_cc, has_payload, discontinuity_packet.
  change (byte_at _ 3) with (Z.lor 0x20 (Z.land counter 0x0f)).
  replace (Z.land counter 0x0f) with counter
    by (change 0x0f with (2 ^ 4 - 1); rewrite land_mask, Z.mod_small by lia; lia).
  destruct (counter_byte 0x20 counter Hc eq_refl) as [-> ->]; done.
Qed.

(** The counters of the streams are four bits wide. *)
Definition cc_bounded (m : SpliceMuxer) : Prop :=
  forall role c, role_get (mx_output_cc m) role = Some c -> 0 <= c < 16.

Lemma write_discontinuities_continues l m :
  cc_bounded m ->
  continues_cc m (fst (write_discontinuities m l)) (snd (write_discontinuities m l)) /\
  cc_bounded (fst (write_discontinuities m l)).
Proof.
  revert m. induction l as [|role l IH]; intros m Hb; cbn [write_discontinuities]; [by split; [apply continues_refl|]|].
  set (counter := match role_get (mx_output_cc m) role with Some c => c | None => 0x0f end).
  change (default 15 (role_get (mx_output_cc m) role)) with counter.
  assert (0 <= counter < 16) as Hc by (unfold counter; case_match; [by eapply Hb|lia]).
  set (m0 := set_output_cc m _).
  assert (cc_bounded m0) as Hb0.
  { intros r c. cbn. rewrite role_get_set. case_decide; [by intros [= <-]|apply Hb]. }
  destruct (IH m0 Hb0) as [C1 B1]. destruct (write_discontinuities m0 l) as [m1 out]. cbn [fst snd] in *.
  split; [|done]. eapply continues_trans; [|exact C1].
  destruct (discontinuity_packet_cc (output_pid role) counter Hc) as [Hcc Hpay].
  destruct (discontinuity_packet_good role counter) as (Hp & H0 & _).
  apply (continues_one _ _ _ (output_pid role) counter); try done.
  - apply output_pid_bytes.
  - by destruct role.
  - intros s last Hs. rewrite (co_role _ _ Hs), Hpay. unfold counter. by intros ->.
  - intros s Hs. by apply (cc_out_role m m0).
Qed.

(** ** A segment and its input *)

(** The deltas of a segment carry its input counters to the output's: a
    stream with a delta has started, has a PID, and the last counters of its
    input and of its output differ by the delta. *)
Definition seg_cc (m : SpliceMuxer) (segment : Segment) (si : gmap Z Z) : Prop :=
  forall role d, role_get (sg_cc_delta segment) role = Some d ->
    role_get (sg_role_started segment) role = true /\
    exists map pid c, sg_map segment = Some map /\ role_of map pid = Some role /\ pid <> PAT_PID /\
      si !! pid = Some c /\ role_get (mx_output_cc m) role = Some ((c + d) mod 16).

(** No stream of the segment has started. *)
Definition fresh (segment : Segment) : Prop := forall role, role_get (sg_cc_delta segment) role = None.

Lemma fresh_seg_cc m segment si : fresh segment -> seg_cc m segment si.
Proof. intros Hf role d. by rewrite Hf. Qed.

(** A stream of a program has one PID. *)
Lemma role_of_inj map pid pid' role : role_of map pid = Some role -> role_of map pid' = Some role -> pid = pid'.
Proof.
  unfold role_of, entry_has_pid. destruct (pm_video map), (pm_audio map);
    repeat case_match; intros; simplify_eq; try lia; repeat case_bool_decide; simplify_eq; done.
Qed.

(** An input packet that is not forwarded. *)
Lemma seg_cc_dropped m segment si p :
  seg_cc m segment si ->
  (forall role d, role_get (sg_cc_delta segment) role = Some d ->
     packet_pid p = PAT_PID \/ (forall map, sg_map segment = Some map -> role_of map (packet_pid p) <> Some role)) ->
  seg_cc m segment (<[packet_pid p := packet_cc p]> si).
Proof.
  intros Hs Hd role d Hr. destruct (Hs role d Hr) as (Hst & map & pid & c & Hm & Hro & Hpat & Hc & Ho).
  split; [done|]. exists map, pid, c. repeat split; try done. rewrite lookup_insert_ne; [done|].
  intros He. destruct (Hd role d Hr) as [Hp | Hp]; [congruence|]. apply (Hp map Hm). by rewrite He.
Qed.

Lemma payload_flag offset role counter p q : forwarded offset role counter p q -> has_payload q = has_payload p.
Proof.
  intros Hf. unfold has_payload. rewrite (land_f0 0x10 (byte_at q 3)), (land_f0 0x10 (byte_at p 3)) by done.
  by rewrite (fw_flags _ _ _ _ _ Hf).
Qed.

(** The counter of a forwarded packet is the one the decoder expects, and the
    delta that produced it is the segment's. *)
Lemma output_counter_spec m segment role p map si :
  seg_cc m segment si -> sg_map segment = Some map -> role_of map (packet_pid p) = Some role ->
  cc_bounded m ->
  (forall last, si !! packet_pid p = Some last -> packet_cc p = next_cc last (has_payload p)) ->
  let '(counter, delta) := output_counter m segment role p in
  counter = (packet_cc p + delta) mod 16 /\
  forall last, role_get (mx_output_cc m) role = Some last -> counter = next_cc last (has_payload p).
Proof.
  intros Hs Hm Hr Hb Hi. unfold output_counter. fold (packet_cc p). fold (has_payload p).
  rewrite next16. destruct (role_get (sg_cc_delta segment) role) as [d|] eqn:Ed.
  - split; [done|]. intros last Hl. destruct (Hs role d Ed) as (_ & map' & pid & c & Hm' & Hr' & _ & Hc & Ho).
    rewrite Hm in Hm'. injection Hm' as <-. rewrite (role_of_inj map _ _ role Hr' Hr) in Hc.
    rewrite (Hi c Hc). rewrite Ho in Hl. injection Hl as <-. unfold next_cc. case_match; [|done].
    rewrite Z.add_mod_idemp_l by lia. rewrite Z.add_mod_idemp_l by lia. f_equal. lia.
  - rewrite !next16. split; [done|]. intros last Hl. rewrite Hl. rewrite Z.add_mod_idemp_r by lia.
    pose proof (Hb role last Hl). unfold next_cc. rewrite Zplus_minus.
    destruct (has_payload p); [rewrite next16; apply Z.mod_mod; lia|apply Z.mod_small; lia].
Qed.

(** What a step keeps. *)
Definition keeps_cc (m : SpliceMuxer) (segment : Segment) (si : gmap Z Z) : Prop :=
  cc_bounded m /\ out_ok m /\ seg_ok segment /\ seg_cc m segment si.

Lemma forward_continues m segment role p map si si' m' segment' q :
  is_packet p -> byte_at p 0 = 0x47 -> packet_pid p <> NULL_PID -> packet_pid p <> PAT_PID ->
  keeps_cc m segment si -> cc_step si p = Some si' ->
  sg_map segment = Some map -> role_of map (packet_pid p) = Some role ->
  role_get (sg_role_started segment) role = true ->
  forward_packet m segment role p = (m', segment', q) ->
  continues_cc m m' q /\ cc_bounded m' /\ seg_cc m' segment' si'.
Proof.
  intros Hp H0 Hn Hpat (Hb & Ho & Hs & Hc) Hi Hm Hr Hst Hf.
  destruct (cc_step_spec _ _ _ Hi H0 Hn) as [-> Hlast].
  pose proof (forward_packet_spec _ _ _ _ _ _ _ Hp Hf) as Hq.
  pose proof (output_counter_spec _ _ _ _ _ _ Hc Hm Hr Hb Hlast) as Hoc.
  pose proof (output_counter_bound m segment role p) as Hcb.
  destruct (output_counter m segment role p) as [counter delta]. cbn [fst] in Hcb.
  destruct Hq as (Hq & (_ & _ & Hpc & Hmc) & Hoc' & ->). destruct Hoc as [Hcnt Hexp].
  split; [|split].
  - destruct (forwarded_good _ _ _ _ _ Hp H0 Hq) as (Hqp & Hq0 & _).
    apply (continues_one _ _ _ (output_pid role) counter); try done.
    + apply (fw_pid _ _ _ _ _ Hq).
    + apply output_pid_ne.
    + apply (fw_counter _ _ _ _ _ Hq).
    + intros s last Hso. rewrite (co_role _ _ Hso), (payload_flag _ _ _ _ _ Hq). apply Hexp.
    + intros s Hso. by apply (cc_out_role m m').
  - intros r c. rewrite Hoc', role_get_set. case_decide; [by intros [= <-]|apply Hb].
  - intros r d. cbn [sg_cc_delta set_roles sg_role_started sg_map]. rewrite Hoc', !role_get_set.
    case_decide as E; [subst r|].
    + intros [= <-]. split; [done|]. exists map, (packet_pid p), (packet_cc p).
      rewrite lookup_insert_eq. by rewrite Hcnt.
    + intros Hd. destruct (Hc r d Hd) as (Hst' & map' & pid & c & Hm' & Hr' & Hpat' & Hpc' & Hoo).
      split; [done|]. exists map', pid, c. repeat split; try done. rewrite lookup_insert_ne; [done|].
      intros <-. rewrite Hm in Hm'. injection Hm' as <-. congruence.
Qed.

Lemma change_program_continues m segment map m' segment' out si s0 :
  keeps_cc m segment si -> cc_out m s0 -> (forall mp, map = Some mp -> map_ok mp) ->
  change_program m segment map = (m', segment', out) ->
  continues_cc m m' out /\ keeps_cc m' segment' si.
Proof.
  intros (Hb & Ho & Hs & Hc) H0 Hm E. destruct (change_program_writes _ _ _ _ _ _ Hs Ho Hm E) as (_ & Ho' & Hs').
  revert E. unfold change_program. destruct map as [mp|].
  2: { intros [= <- <- <-]. split; [by apply continues_refl|done]. }
  set (m0 := set_output_map _ _ _). assert (out_ok m0) as Ho0 by (intros x [= <-]; by apply Hm).
  assert (cc_out m0 s0) as C0 by (destruct H0; by split).
  pose proof (write_pmt_continues m0 s0 Ho0 C0) as C1.
  assert (mx_output_cc (fst (write_pmt m0)) = mx_output_cc m) as Hcc
    by (unfold write_pmt; by destruct (mx_output_map m0)).
  destruct (write_pmt m0) as [m1 table]. cbn [fst snd] in *. intros [= <- <- <-]. split.
  - apply (continues_trans m m0 m1 [] table); [by apply continues_refl|done].
  - split; [|split; [done|split; [done|by apply fresh_seg_cc; intros []]]]. intros r c. rewrite Hcc. apply Hb.
Qed.

Lemma seg_cc_started m segment segment' si role p :
  start_role segment role p = Some segment' -> seg_cc m segment si -> seg_cc m segment' si.
Proof.
  intros (_ & Hm & _ & _ & Hd & _ & Hst)%start_role_ok Hs r d. rewrite Hd. intros Hr.
  destruct (Hs r d Hr) as (Hr' & H). split; [by apply Hst|]. by rewrite Hm.
Qed.

Lemma route_packet_continues m segment p m' segment' out si si' s0 :
  is_packet p -> byte_at p 0 = 0x47 -> packet_pid p <> NULL_PID ->
  keeps_cc m segment si -> cc_out m s0 -> cc_step si p = Some si' ->
  route_packet m segment p = (m', segment', out) ->
  continues_cc m m' out /\ keeps_cc m' segment' si'.
Proof.
  intros Hp H0 Hn Hk C0 Hi E. pose proof Hk as (Hb & Ho & Hs & Hc).
  destruct (route_packet_writes _ _ _ _ _ _ Hp H0 Hs Ho E) as (_ & Ho' & Hs').
  destruct (cc_step_spec _ _ _ Hi H0 Hn) as [Hsi _].
  revert E. unfold route_packet. destruct (Z.eqb_spec (packet_pid p) PAT_PID) as [Hpat|Hpat].
  { destruct (payload_unit_start p).
    - destruct (write_tables_continues m s0 Ho C0) as [C1 Hcc]. destruct (write_tables m) as [m1 tables].
      cbn [fst snd] in *. intros [= <- <- <-]. split; [done|]. split; [|split; [done|split; [done|]]].
      + intros r c. rewrite Hcc. apply Hb.
      + intros r d Hd. rewrite Hcc. subst si'. apply (seg_cc_dropped m segment si p Hc); auto.
    - intros [= <- <- <-]. split; [by apply continues_refl|]. subst si'.
      split; [done|]. split; [done|]. split; [done|]. apply seg_cc_dropped; auto. }
  destruct (sg_map segment ≫= _) as [role|] eqn:Er.
  2: { intros [= <- <- <-]. split; [by apply continues_refl|]. subst si'. do 3 (split; [done|]).
       apply seg_cc_dropped; [done|]. intros role d _. right. intros map Hm. rewrite Hm in Er. cbn in Er. by rewrite Er. }
  apply bind_Some in Er as (map & Hm & Hr).
  destruct (start_role segment role p) as [s1|] eqn:Es.
  2: { intros [= <- <- <-]. split; [by apply continues_refl|]. subst si'. do 3 (split; [done|]).
       apply seg_cc_dropped; [done|]. intros r d Hd. right. intros map' Hm'.
       rewrite Hm in Hm'. injection Hm' as <-. rewrite Hr. intros [= <-].
       destruct (Hc role d Hd) as [Hst _]. unfold start_role in Es. by rewrite Hst in Es. }
  pose proof (seg_cc_started _ _ _ _ _ _ Es Hc) as Hc1.
  apply start_role_ok in Es as (Ht1 & Hm1 & _ & _ & _ & Hst1 & _). intros Hf.
  assert (seg_ok s1) as Hs1 by (destruct Hs; split; by rewrite ?Ht1, ?Hm1).
  destruct (forward_continues m s1 role p map si si' m' segment' out) as (? & ? & ?); try done.
  by rewrite Hm1.
Qed.

(** One packet of a running segment. *)
Lemma running_packet_continues m segment p m' segment' out si si' s0 :
  is_packet p -> keeps_cc m segment si -> cc_out m s0 -> cc_step si p = Some si' ->
  running_packet m segment p = (m', segment', out) ->
  continues_cc m m' out /\ keeps_cc m' segment' si'.
Proof.
  intros Hp Hk C0 Hi. unfold running_packet. rewrite (is_packet_zlen _ Hp), Z.eqb_refl. cbn [negb orb].
  destruct (Z.eqb_spec (byte_at p 0) 0x47) as [H0|H0]; cbn [negb orb].
  2: { unfold cc_step in Hi. rewrite (proj2 (Z.eqb_neq _ _) H0) in Hi. cbn in Hi. injection Hi as <-.
       intros [= <- <- <-]. split; [by apply continues_refl|done]. }
  destruct (Z.eqb_spec (packet_pid p) NULL_PID) as [Hn|Hn].
  { unfold cc_step in Hi. rewrite Hn, Z.eqb_refl, orb_true_r in Hi. injection Hi as <-.
    intros [= <- <- <-]. split; [|done]. exists [p]. cbn [concat]. rewrite app_nil_r.
    split; [done|]. split; [by constructor|]. intros s Hs. exists s. cbn. unfold cc_step.
    rewrite Hn, Z.eqb_refl, orb_true_r. done. }
  destruct Hk as (Hb & Ho & Hs & Hc). destruct (observe_psi segment p) as [s1 map] eqn:Eo.
  destruct (observe_psi_ok _ _ _ _ Hs (proj2 Hp) Eo) as (Hs1 & Hmap & Hm1 & Hd1 & Hr1 & _).
  assert (keeps_cc m s1 si) as Hk1.
  { do 3 (split; [done|]). intros r d. rewrite Hd1, Hr1, Hm1. apply Hc. }
  destruct (change_program m s1 map) as [[m1 s2] table] eqn:Ec.
  destruct (change_program_continues _ _ _ _ _ _ _ _ Hk1 C0 Hmap Ec) as (C1 & Hk2).
  destruct (continues_out _ _ _ _ C1 C0) as [s0' C0'].
  destruct (route_packet m1 s2 p) as [[m2 s3] o2] eqn:Er.
  destruct (route_packet_continues _ _ _ _ _ _ _ _ _ Hp H0 Hn Hk2 C0' Hi Er) as (C2 & Hk3).
  intros [= <- <- <-]. split; [by eapply continues_trans|done].
Qed.

Lemma start_segment_continues m segment m' segment' out s0 si :
  cc_bounded m -> cc_out m s0 -> seg_ok segment -> fresh segment ->
  start_segment m segment = (m', segment', out) ->
  continues_cc m m' out /\ keeps_cc m' segment' si /\ sg_started segment' = true.
Proof.
  intros Hb C0 Hs Hf E. destruct (start_segment_writes _ _ _ _ _ Hs E) as ((_ & Ho' & _) & Hs').
  specialize (Ho' (so_map _ Hs)). revert E. unfold start_segment. cbn [sg_map set_started].
  set (m0 := set_output_map _ _ _). assert (out_ok m0) as Ho0 by (intros x; apply Hs).
  assert (cc_out m0 s0) as C0' by (destruct C0; by split).
  destruct (write_tables_continues m0 s0 Ho0 C0') as [C1 Hcc].
  destruct (write_tables m0) as [m1 tables]. cbn [fst snd] in *.
  assert (continues_cc m m1 tables) as C1' by (apply (continues_trans m m0 m1 [] tables); [by apply continues_refl|done]).
  assert (cc_bounded m1) as Hb1 by (intros r c; rewrite Hcc; apply Hb).
  destruct (if bool_decide _ then sg_map segment else None) as [map|].
  - destruct (write_discontinuities_continues (roles map) m1 Hb1) as [C2 Hb2].
    destruct (write_discontinuities m1 (roles map)) as [m2 gaps]. cbn [fst snd] in *. intros [= <- <- <-].
    split; [by eapply continues_trans|]. split; [|done]. do 3 (split; [done|]). by apply fresh_seg_cc.
  - intros [= <- <- <-]. rewrite app_nil_r. split; [done|]. split; [|done]. do 3 (split; [done|]). by apply fresh_seg_cc.
Qed.

(** A segment that has not started has written nothing. *)
Definition pending_cc (m : SpliceMuxer) (segment : Segment) (si : gmap Z Z) : Prop :=
  keeps_cc m segment si /\ (sg_started segment = false -> fresh segment).

Lemma running_packet_started m segment p :
  is_packet p -> seg_ok segment -> sg_started (snd (fst (running_packet m segment p))) = sg_started segment.
Proof.
  intros Hp Hs. unfold running_packet. case_match; [done|]. case_match; [done|].
  destruct (observe_psi segment p) as [s1 map] eqn:Eo.
  destruct (observe_psi_ok _ _ _ _ Hs (proj2 Hp) Eo) as (Hs1 & _ & _ & _ & _ & _ & Hst). rewrite <- Hst.
  unfold change_program. assert (forall m0 s0, sg_started (snd (fst (route_packet m0 s0 p))) = sg_started s0) as Hr.
  { intros m0 s0. unfold route_packet. case_match; [case_match; [by destruct (write_tables m0)|done]|].
    destruct (_ ≫= _) as [role|]; [|done]. destruct (start_role s0 role p) as [s2|] eqn:E; [|done].
    destruct (forward_packet m0 s2 role p) as [[m' s'] q] eqn:Ef.
    pose proof (forward_packet_spec _ _ _ _ _ _ _ Hp Ef) as Hq. destruct (output_counter m0 s2 role p).
    destruct Hq as (_ & _ & _ & ->). by apply start_role_ok in E as (_ & _ & _ & ? & _). }
  destruct map as [mp|].
  - destruct (write_pmt _) as [m1 table]. specialize (Hr m1 (set_program s1 mp)).
    by destruct (route_packet m1 (set_program s1 mp) p) as [[? ?] ?].
  - specialize (Hr m s1). by destruct (route_packet m s1 p) as [[? ?] ?].
Qed.

Lemma pending_packet_continues m segment p m' segment' out si si' s0 :
  is_packet p -> pending_cc m segment si -> cc_out m s0 -> cc_step si p = Some si' ->
  pending_packet m segment p = (m', segment', out) ->
  continues_cc m m' out /\ pending_cc m' segment' si' /\ (sg_started segment' = false -> m' = m /\ sg_started segment = false /\ out = []).
Proof.
  intros Hp [Hk Hf] C0 Hi. unfold pending_packet. destruct (sg_started segment) eqn:Est.
  - intros E. destruct (running_packet_continues _ _ _ _ _ _ _ _ _ Hp Hk C0 Hi E) as [C1 Hk1].
    assert (sg_started segment' = true) as Hst.
    { pose proof (running_packet_started m segment p Hp ltac:(apply Hk)) as H. rewrite E in H. cbn in H. congruence. }
    split; [done|]. by split; [split|]; rewrite ?Hst.
  - destruct Hk as (Hb & Ho & Hs & _). destruct (seek m segment p) as [s1 found] eqn:Ek.
    destruct (seek_ok _ _ _ _ _ Hp Hs Ek) as (Hs1 & Hd1 & Hr1 & Hst1).
    assert (fresh s1) as Hf1 by (intros r; rewrite Hd1; by apply Hf).
    destruct found.
    2: { intros [= <- <- <-]. split; [by apply continues_refl|]. split; [|by rewrite Hst1].
         split; [|done]. do 3 (split; [done|]). by apply fresh_seg_cc. }
    destruct (start_segment m s1) as [[m1 s2] start] eqn:Es.
    destruct (start_segment_continues _ _ _ _ _ _ si Hb C0 Hs1 Hf1 Es) as (C1 & Hk1 & Hst2).
    destruct (continues_out _ _ _ _ C1 C0) as [s0' C0'].
    destruct (running_packet m1 s2 p) as [[m2 s3] o2] eqn:Er.
    destruct (running_packet_continues _ _ _ _ _ _ _ _ _ Hp Hk1 C0' Hi Er) as [C2 Hk2].
    assert (sg_started s3 = true) as Hst.
    { pose proof (running_packet_started m1 s2 p Hp ltac:(apply Hk1)) as H. rewrite Er in H. cbn in H. congruence. }
    intros [= <- <- <-]. split; [by eapply continues_trans|]. by split; [split|]; rewrite ?Hst.
Qed.

Lemma pending_packets_continues packets m segment m' segment' out si si' s0 :
  Forall is_packet packets -> pending_cc m segment si -> cc_out m s0 -> cc_run si packets = Some si' ->
  pending_packets m segment packets = (m', segment', out) ->
  continues_cc m m' out /\ pending_cc m' segment' si' /\
  (sg_started segment' = false -> m' = m /\ sg_started segment = false /\ out = []).
Proof.
  intros Hps. revert m segment m' segment' out si s0.
  induction Hps as [|p ps Hp Hps IH]; intros m segment m' segment' out si s0 Hk C0; cbn [cc_run pending_packets].
  { intros [= <-] [= <- <- <-]. split; [by apply continues_refl|done]. }
  intros (s1i & Hi & Hrun)%bind_Some. destruct (pending_packet m segment p) as [[m1 s1] o1] eqn:E1.
  destruct (pending_packet_continues _ _ _ _ _ _ _ _ _ Hp Hk C0 Hi E1) as (C1 & Hk1 & Hst1).
  destruct (continues_out _ _ _ _ C1 C0) as [s0' C0'].
  destruct (pending_packets m1 s1 ps) as [[m2 s2] o2] eqn:E2. intros [= <- <- <-].
  destruct (IH _ _ _ _ _ _ _ Hk1 C0' Hrun E2) as (C2 & Hk2 & Hst2).
  split; [by eapply continues_trans|]. split; [done|]. intros Hst.
  destruct (Hst2 Hst) as (-> & Hs & ->). destruct (Hst1 Hs) as (-> & ? & ->). done.
Qed.

Lemma current_packets_continues packets m segment m' segment' out si si' s0 :
  Forall is_packet packets -> keeps_cc m segment si -> cc_out m s0 -> cc_run si packets = Some si' ->
  current_packets m segment packets = (m', segment', out) ->
  continues_cc m m' out /\ keeps_cc m' segment' si'.
Proof.
  intros Hps. revert m segment m' segment' out si s0.
  induction Hps as [|p ps Hp Hps IH]; intros m segment m' segment' out si s0 Hk C0; cbn [cc_run current_packets].
  { intros [= <-] [= <- <- <-]. split; [by apply continues_refl|done]. }
  intros (s1i & Hi & Hrun)%bind_Some. destruct (running_packet m segment p) as [[m1 s1] o1] eqn:E1.
  destruct (running_packet_continues _ _ _ _ _ _ _ _ _ Hp Hk C0 Hi E1) as (C1 & Hk1).
  destruct (continues_out _ _ _ _ C1 C0) as [s0' C0'].
  destruct (current_packets m1 s1 ps) as [[m2 s2] o2] eqn:E2. intros [= <- <- <-].
  destruct (IH _ _ _ _ _ _ _ Hk1 C0' Hrun E2) as (C2 & Hk2). split; [by eapply continues_trans|done].
Qed.

(** ** The inputs of a run *)

(** The counters a decoder would keep of the input of the current and of the
    pending segment. *)
Record Inputs := mkInputs { in_current : gmap Z Z; in_pending : gmap Z Z }.

(** The inputs after a call; [None] when an input has a gap. *)
Definition inputs_step (m : SpliceMuxer) (g : Inputs) (op : MuxOp) : option Inputs :=
  match op with
  | BeginPending | CancelPending => Some (mkInputs (in_current g) ∅)
  | PushCurrent chunk =>
      s ← cc_run (in_current g) (chunks_exact MPEG_TS_PACKET_SIZE chunk);
      Some (mkInputs s (in_pending g))
  | PushPending chunk =>
      s ← cc_run (in_pending g) (chunks_exact MPEG_TS_PACKET_SIZE chunk);
      Some (if snd (push_pending m chunk) then mkInputs s ∅ else mkInputs (in_current g) s)
  end.

Fixpoint inputs_run (m : SpliceMuxer) (g : Inputs) (ops : list MuxOp) : option Inputs :=
  match ops with
  | [] => Some g
  | op :: ops => g ← inputs_step m g op; inputs_run (fst (mux_step m op)) g ops
  end.

(** The counters of the muxer, of its segments and of their inputs agree. *)
Record mux_cc (m : SpliceMuxer) (g : Inputs) : Prop := {
  mc_ok : mux_ok m;
  mc_bounded : cc_bounded m;
  mc_current : forall segment, mx_current m = Some segment -> seg_cc m segment (in_current g);
  mc_pending : forall segment, mx_pending m = Some segment -> fresh segment /\ sg_started segment = false;
}.

Lemma seg_cc_same m m' segment si :
  mx_output_cc m' = mx_output_cc m -> seg_cc m segment si -> seg_cc m' segment si.
Proof. intros He Hs r d. rewrite He. apply Hs. Qed.

(** The segments a muxer holds do not matter to its counters. *)
Lemma continues_segments m m' c p c' p' out :
  continues_cc (set_segments m c p) m' out -> continues_cc m (set_segments m' c' p') out.
Proof.
  intros H. rewrite <- (app_nil_r out). apply (continues_trans m (set_segments m c p) _ [] (out ++ [])).
  - by apply continues_refl.
  - eapply continues_trans; [exact H|by apply continues_refl].
Qed.

Lemma mux_step_continues m g op g' s0 :
  mux_cc m g -> cc_out m s0 -> Forall is_u8 (op_bytes op) -> inputs_step m g op = Some g' ->
  continues_cc m (fst (mux_step m op)) (snd (mux_step m op)) /\ mux_cc (fst (mux_step m op)) g'.
Proof.
  intros [Hm Hb Hc Hp] C0 Hu. pose proof (proj1 (mux_step_good m op Hm Hu)) as Hm'.
  destruct op as [| |chunk|chunk]; cbn [mux_step op_bytes inputs_step fst snd] in *.
  - intros [= <-]. split; [by apply continues_refl|]. split; [done|done|done|]. intros s [= <-]. split; [by intros []|done].
  - intros [= <-]. split; [by apply continues_refl|]. by split.
  - intros (si & Hrun & [= <-])%bind_Some. unfold push_current in *.
    destruct (mx_current m) as [segment|] eqn:E.
    2: { split; [by apply continues_refl|]. split; [done|done| |done]. intros s Hs. cbn in Hs. congruence. }
    set (m0 := set_segments m None (mx_pending m)) in *.
    destruct (current_packets m0 segment _) as [[m1 s1] out] eqn:Ep. cbn [fst snd] in *.
    assert (cc_out m0 s0) as C0' by (destruct C0; by split).
    assert (keeps_cc m0 segment (in_current g)) as Hk.
    { split; [done|]. split; [intros map; apply Hm|]. split; [by apply (mo_current _ Hm)|]. by apply Hc. }
    destruct (current_packets_continues _ _ _ _ _ _ _ _ _ (chunks_exact_packets _ Hu) Hk C0' Hrun Ep) as (C1 & Hb1 & Ho1 & Hs1 & Hc1).
    destruct (current_packets_writes _ m0 _ _ _ _ (chunks_exact_packets _ Hu) (mo_current _ Hm _ E) (mo_map _ Hm) Ep) as ((_ & _ & _ & Hsp) & _).
    split; [by eapply continues_segments|]. split; [done|done|by intros s [= <-]|].
    cbn. intros s. rewrite Hsp. apply Hp.
  - intros (si & Hrun & Hg)%bind_Some. unfold push_pending in *.
    destruct (mx_pending m) as [segment|] eqn:E.
    2: { cbn in *. injection Hg as <-. split; [by apply continues_refl|]. split; [done|done|done|]. intros s Hs. cbn in Hs. congruence. }
    set (m0 := set_segments m (mx_current m) None) in *.
    destruct (pending_packets m0 segment _) as [[m1 s1] out] eqn:Ep.
    assert (cc_out m0 s0) as C0' by (destruct C0; by split).
    destruct (Hp segment eq_refl) as [Hf Hst].
    assert (pending_cc m0 segment (in_pending g)) as Hk.
    { split; [|done]. split; [done|]. split; [intros map; apply Hm|]. split; [by apply (mo_pending _ Hm)|].
      by apply fresh_seg_cc. }
    destruct (pending_packets_continues _ _ _ _ _ _ _ _ _ (chunks_exact_packets _ Hu) Hk C0' Hrun Ep) as (C1 & [(Hb1 & Ho1 & Hs1 & Hc1) Hf1] & Hst1).
    destruct (pending_packets_writes _ m0 _ _ _ _ (chunks_exact_packets _ Hu) (mo_pending _ Hm _ E) (mo_map _ Hm) Ep) as ((_ & _ & _ & Hsp) & _).
    destruct (sg_started s1) eqn:Es; cbn [fst snd] in *; injection Hg as <-.
    + split; [by eapply continues_segments|]. split; [done|done|by intros s [= <-]|].
      cbn. intros s. rewrite Hsp. done.
    + destruct (Hst1 eq_refl) as (-> & _ & ->). split; [by apply continues_refl|].
      split; [done|done|done|]. intros s [= <-]. auto.
Qed.

Lemma mux_run_continues ops m g s0 :
  mux_cc m g -> cc_out m s0 -> Forall (fun op => Forall is_u8 (op_bytes op)) ops ->
  is_Some (inputs_run m g ops) -> exists m', continues_cc m m' (snd (mux_run m ops)).
Proof.
  intros Hm C0 Hops. revert m g s0 Hm C0. induction Hops as [|op ops Hop Hops IH]; intros m g s0 Hm C0.
  { intros _. exists m. by apply continues_refl. }
  cbn [inputs_run mux_run]. intros [g'' Hg]. apply bind_Some in Hg as (g' & Hg & Hr).
  destruct (mux_step_continues m g op g' s0 Hm C0 Hop Hg) as [C1 Hm1].
  destruct (continues_out _ _ _ _ C1 C0) as [s0' C0']. destruct (mux_step m op) as [m1 o1]. cbn [fst snd] in *.
  destruct (IH m1 g' s0' Hm1 C0' ltac:(by eexists)) as [m2 C2]. destruct (mux_run m1 ops) as [m3 o2]. cbn [snd] in *.
  exists m2. by eapply continues_trans.
Qed.

Lemma muxer_new_cc : mux_cc muxer_new (mkInputs ∅ ∅) /\ cc_out muxer_new ∅.
Proof.
  split; [split; [apply muxer_new_ok|by intros []|done|done]|].
  split; [by intros []|split; [cbn; lia|done]|split; [cbn; lia|done]].
Qed.

Lemma mux_output_continuous ops :
  Forall (fun op => Forall is_u8 (op_bytes op)) ops ->
  is_Some (inputs_run muxer_new (mkInputs ∅ ∅) ops) ->
  is_Some (cc_run ∅ (chunks_exact MPEG_TS_PACKET_SIZE (snd (mux_run muxer_new ops)))).
Proof.
  intros Hops Hin. destruct muxer_new_cc as [Hm Hc].
  destruct (mux_run_continues ops muxer_new _ ∅ Hm Hc Hops Hin) as (m' & qs & -> & Hqs & Hrun).
  rewrite (proj2 (concat_packets qs Hqs)). by destruct (Hrun ∅ Hc) as (s' & -> & _).
Qed.

(** Continuity: when the input of every segment, slate or live, is continuous
    on each of its PIDs, the output of the muxer is continuous on each of its
    own PIDs from its first packet to its last, over any number of splices,
    cancelled splices and changes of program. *)
Theorem splice_output_continuous ops :
  Forall (fun op => Forall is_u8 (op_bytes op)) ops ->
  is_Some (inputs_run muxer_new (mkInputs ∅ ∅) ops) ->
  is_Some (cc_run ∅ (chunks_exact MPEG_TS_PACKET_SIZE (snd (mux_run muxer_new ops)))).
Proof. apply mux_output_continuous. Qed.
