(* ===== verification/SpliceClock.v ===== *)
(** * The clock across splices

    Every packet of a segment is moved by the one offset of the segment, and
    the offset joins the segment to the output before it: its clock starts
    after everything that was written. *)
From Stdlib Require Import ZArith Lia.
From stdpp Require Import base numbers option sets.
From stdpp Require Import list.
From S2P Require Import Prelude Psi Pacing Splice SpliceSpec SpliceTables SpliceRun SpliceContinuity.
Open Scope Z_scope.

(** ** Where the packets of the output come from *)

(** The packets a push may write for a segment moved by [offset]: null packets
    of the input, tables, packets of the input that were forwarded and, only
    where the push may start the segment, packets without payload that mark a
    discontinuity. *)
Inductive emitted (starting : bool) (offset : Z) (input : list bytes) : bytes -> Prop :=
| emitted_null p : p ∈ input -> packet_pid p = NULL_PID -> emitted starting offset input p
| emitted_pat counter : emitted starting offset input (psi_packet PAT_PID counter pat_section)
| emitted_pmt map version counter :
    map_ok map -> emitted starting offset input (psi_packet SLATE_PMT_PID counter (pmt_section map version))
| emitted_gap role counter :
    starting = true -> emitted starting offset input (discontinuity_packet (output_pid role) counter)
| emitted_stream p role counter q :
    p ∈ input -> forwarded offset role counter p q -> emitted starting offset input q.

(** A step whose output comes from the packet it was given. *)
Definition emits (starting : bool) (offset : Z) (p : bytes) (out : bytes) : Prop :=
  exists qs, out = concat qs /\ Forall is_packet qs /\ Forall (emitted starting offset [p]) qs.

Lemma emits_nil starting offset p : emits starting offset p [].
Proof. by exists []. Qed.

Lemma emits_one starting offset p q : is_packet q -> emitted starting offset [p] q -> emits starting offset p q.
Proof. intros Hq He. exists [q]. cbn. rewrite app_nil_r. split; [done|]. split; by constructor. Qed.

Lemma emits_app starting offset p a b : emits starting offset p a -> emits starting offset p b -> emits starting offset p (a ++ b).
Proof.
  intros (qa & -> & Pa & Ea) (qb & -> & Pb & Eb). exists (qa ++ qb).
  rewrite concat_app, !Forall_app. done.
Qed.

Lemma write_pmt_emits starting m offset p : out_ok m -> emits starting offset p (snd (write_pmt m)).
Proof.
  intros Ho. unfold write_pmt. destruct (mx_output_map m) as [map|] eqn:E; [|apply emits_nil].
  apply emits_one; [by apply psi_packet_packet, pmt_section_u8, Ho|by apply emitted_pmt, Ho].
Qed.

Lemma write_tables_emits starting m offset p : out_ok m -> emits starting offset p (snd (write_tables m)).
Proof.
  intros Ho. unfold write_tables. destruct (write_pat m) as [m1 pat] eqn:E. injection E as <- <-.
  set (m1 := set_pat_cc m _). pose proof (write_pmt_emits starting m1 offset p Ho) as H.
  destruct (write_pmt m1) as [m2 pmt]. apply emits_app; [|done].
  apply emits_one; [apply psi_packet_packet, pat_section_ok|apply emitted_pat].
Qed.

Lemma running_packet_emits starting m segment p m' segment' out :
  is_packet p -> seg_ok segment -> out_ok m -> running_packet m segment p = (m', segment', out) ->
  emits starting (sg_offset segment) p out /\ sg_offset segment' = sg_offset segment.
Proof.
  intros Hp Hs Ho. unfold running_packet. case_match; [intros [= <- <- <-]; auto using emits_nil|].
  destruct (Z.eqb_spec (packet_pid p) NULL_PID) as [Hn|].
  { intros [= <- <- <-]. split; [|done]. apply emits_one; [done|]. by apply emitted_null; [left|]. }
  destruct (observe_psi segment p) as [s1 map] eqn:Eo.
  destruct (observe_psi_ok _ _ _ _ Hs (proj2 Hp) Eo) as (Hs1 & Hmap & _ & _ & _ & Hof & _). rewrite <- Hof.
  destruct (change_program m s1 map) as [[m1 s2] table] eqn:Ec.
  destruct (change_program_writes _ _ _ _ _ _ Hs1 Ho Hmap Ec) as (_ & Ho1 & Hs2).
  assert (emits starting (sg_offset s1) p table /\ sg_offset s2 = sg_offset s1) as [He1 Hof2].
  { revert Ec. unfold change_program. destruct map as [mp|]; [|intros [= <- <- <-]; auto using emits_nil].
    set (m0 := set_output_map _ _ _). assert (out_ok m0) as Ho0 by (intros x [= <-]; by apply Hmap).
    pose proof (write_pmt_emits starting m0 (sg_offset s1) p Ho0). destruct (write_pmt m0) as [mm tt].
    by intros [= <- <- <-]. }
  destruct (route_packet m1 s2 p) as [[m2 s3] o2] eqn:Er. intros [= <- <- <-]. rewrite <- Hof2 in *.
  assert (emits starting (sg_offset s2) p o2 /\ sg_offset s3 = sg_offset s2) as [He2 ->]; [|auto using emits_app].
  revert Er. unfold route_packet. case_match.
  { case_match; [|intros [= <- <- <-]; auto using emits_nil].
    pose proof (write_tables_emits starting m1 (sg_offset s2) p Ho1). destruct (write_tables m1). by intros [= <- <- <-]. }
  destruct (_ ≫= _) as [role|]; [|intros [= <- <- <-]; auto using emits_nil].
  destruct (start_role s2 role p) as [s2'|] eqn:Es; [|intros [= <- <- <-]; auto using emits_nil].
  apply start_role_ok in Es as (_ & _ & Hofs & _). intros Hf.
  pose proof (forward_packet_spec _ _ _ _ _ _ _ Hp Hf) as Hq. destruct (output_counter m1 s2' role p) as [c d].
  destruct Hq as (Hq & _ & _ & ->). rewrite Hofs in Hq. split; [|done].
  apply emits_one; [apply Hq|]. by eapply emitted_stream; [left|].
Qed.

Lemma emitted_weaken starting offset input input' q :
  (forall p, p ∈ input -> p ∈ input') -> emitted starting offset input q -> emitted starting offset input' q.
Proof.
  intros Hi. destruct 1; [apply emitted_null; auto|apply emitted_pat|by apply emitted_pmt|by apply emitted_gap|].
  eapply emitted_stream; eauto.
Qed.

Lemma current_packets_emits packets m segment m' segment' out :
  Forall is_packet packets -> seg_ok segment -> out_ok m ->
  current_packets m segment packets = (m', segment', out) ->
  sg_offset segment' = sg_offset segment /\
  exists qs, out = concat qs /\ Forall is_packet qs /\ Forall (emitted false (sg_offset segment) packets) qs.
Proof.
  intros Hps. revert m segment m' segment' out.
  induction Hps as [|p ps Hp Hps IH]; intros m segment m' segment' out Hs Ho; cbn [current_packets].
  { intros [= <- <- <-]. split; [done|]. by exists []. }
  destruct (running_packet m segment p) as [[m1 s1] o1] eqn:E1.
  destruct (running_packet_writes _ _ _ _ _ _ Hp Hs Ho E1) as (_ & Ho1 & Hs1).
  destruct (running_packet_emits false _ _ _ _ _ _ Hp Hs Ho E1) as ((q1 & -> & P1 & E1') & Hof).
  destruct (current_packets m1 s1 ps) as [[m2 s2] o2] eqn:E2. intros [= <- <- <-].
  destruct (IH _ _ _ _ _ Hs1 Ho1 E2) as (Hof2 & q2 & -> & P2 & E2'). rewrite Hof in *.
  split; [done|]. exists (q1 ++ q2). rewrite concat_app, !Forall_app. split; [done|]. split; [done|].
  split; (eapply Forall_impl; [eassumption|]); intros q; apply emitted_weaken; set_solver.
Qed.

(** ** The start of a segment *)

Lemma write_discontinuities_emits l m offset p : emits true offset p (snd (write_discontinuities m l)).
Proof.
  revert m. induction l as [|role l IH]; intros m; cbn [write_discontinuities]; [apply emits_nil|].
  set (m0 := set_output_cc m _). specialize (IH m0). destruct (write_discontinuities m0 l) as [m1 out].
  apply emits_app; [|done]. apply emits_one; [apply discontinuity_packet_good|by apply emitted_gap].
Qed.

Lemma start_segment_emits m segment p m' segment' out offset :
  seg_ok segment -> start_segment m segment = (m', segment', out) ->
  emits true offset p out /\ sg_offset segment' = sg_offset segment /\ sg_started segment' = true.
Proof.
  intros Hs. unfold start_segment. cbn [sg_map set_started]. set (m0 := set_output_map _ _ _).
  pose proof (write_tables_emits true m0 offset p ltac:(intros map; apply Hs)) as H1.
  destruct (write_tables m0) as [m1 tables].
  assert (forall l, emits true offset p (snd (write_discontinuities m1 l))) as H2
    by (intros l; apply write_discontinuities_emits).
  destruct (if bool_decide _ then sg_map segment else None) as [map|].
  - specialize (H2 (roles map)). destruct (write_discontinuities m1 (roles map)) as [m2 gaps].
    intros [= <- <- <-]. auto using emits_app.
  - intros [= <- <- <-]. rewrite app_nil_r. done.
Qed.

(** A segment that has not started writes nothing, and one that has keeps its
    offset. *)
Definition start_of (segment segment' : Segment) (out : bytes) : Prop :=
  (sg_started segment' = false -> out = []) /\
  (sg_started segment = true -> sg_started segment' = true /\ sg_offset segment' = sg_offset segment).

Lemma pending_packet_emits m segment p m' segment' out :
  is_packet p -> seg_ok segment -> out_ok m -> pending_packet m segment p = (m', segment', out) ->
  emits true (sg_offset segment') p out /\ start_of segment segment' out.
Proof.
  intros Hp Hs Ho. unfold pending_packet, start_of.
  assert (forall m0 s0 m1 s1 o, seg_ok s0 -> out_ok m0 -> running_packet m0 s0 p = (m1, s1, o) ->
    emits true (sg_offset s1) p o /\ sg_offset s1 = sg_offset s0 /\ sg_started s1 = sg_started s0) as Hrun.
  { intros m0 s0 m1 s1 o Hs0 Ho0 Er. pose proof (running_packet_started m0 s0 p Hp Hs0) as Hst. rewrite Er in Hst.
    destruct (running_packet_emits true _ _ _ _ _ _ Hp Hs0 Ho0 Er) as [He Hof]. by rewrite Hof. }
  destruct (sg_started segment) eqn:Est.
  { intros Er. destruct (Hrun _ _ _ _ _ Hs Ho Er) as (He & Hof & Hst). rewrite Est in Hst. by rewrite Hst. }
  destruct (seek m segment p) as [s1 found] eqn:Ek. destruct (seek_ok _ _ _ _ _ Hp Hs Ek) as (Hs1 & _).
  destruct found; [|intros [= <- <- <-]; split; [apply emits_nil|done]].
  destruct (start_segment m s1) as [[m1 s2] start] eqn:Es.
  destruct (start_segment_writes _ _ _ _ _ Hs1 Es) as ((_ & Hk & _) & Hs2).
  destruct (start_segment_emits m s1 p m1 s2 start (sg_offset s2) Hs1 Es) as (He1 & _ & Hst).
  destruct (running_packet m1 s2 p) as [[m2 s3] o2] eqn:Er. intros [= <- <- <-].
  destruct (Hrun _ _ _ _ _ Hs2 ltac:(apply Hk; intros map; apply Hs1) Er) as (He2 & Hof & Hst2).
  rewrite Hst2, Hst. split; [|done]. apply emits_app; [by rewrite Hof|done].
Qed.

Lemma pending_packets_emits packets m segment m' segment' out :
  Forall is_packet packets -> seg_ok segment -> out_ok m ->
  pending_packets m segment packets = (m', segment', out) ->
  start_of segment segment' out /\
  exists qs, out = concat qs /\ Forall is_packet qs /\ Forall (emitted true (sg_offset segment') packets) qs.
Proof.
  intros Hps. revert m segment m' segment' out.
  induction Hps as [|p ps Hp Hps IH]; intros m segment m' segment' out Hs Ho; cbn [pending_packets].
  { intros [= <- <- <-]. split; [done|]. by exists []. }
  destruct (pending_packet m segment p) as [[m1 s1] o1] eqn:E1.
  destruct (pending_packet_writes _ _ _ _ _ _ Hp Hs Ho E1) as (_ & Ho1 & Hs1).
  destruct (pending_packet_emits _ _ _ _ _ _ Hp Hs Ho E1) as ((q1 & -> & P1 & F1) & Hn1 & Hk1).
  destruct (pending_packets m1 s1 ps) as [[m2 s2] o2] eqn:E2. intros [= <- <- <-].
  destruct (IH _ _ _ _ _ Hs1 Ho1 E2) as ([Hn2 Hk2] & q2 & -> & P2 & F2).
  assert (Forall (emitted true (sg_offset s2) (p :: ps)) q2) as F2'.
  { eapply Forall_impl; [exact F2|]. intros q. apply emitted_weaken. set_solver. }
  split; [split|].
  - intros Hst. destruct (sg_started s1) eqn:Es1; [by destruct (Hk2 eq_refl); congruence|].
    by rewrite (Hn1 eq_refl), (Hn2 Hst).
  - intros Hst. destruct (Hk1 Hst) as [H1 <-]. auto.
  - destruct (sg_started s1) eqn:Es1; [|exists q2; by rewrite (Hn1 eq_refl)].
    exists (q1 ++ q2). rewrite concat_app, !Forall_app. destruct (Hk2 eq_refl) as [_ ->].
    split; [done|]. split; [done|]. split; [|by destruct (Hk2 eq_refl) as [_ <-]].
    eapply Forall_impl; [exact F1|]. intros q. apply emitted_weaken. set_solver.
Qed.

(** C7. Rebasing, for both ways packets come out of the muxer.  A push to the
    current segment writes only null packets of the input, tables of the
    muxer, and packets of the input with their PID and counter replaced and
    their PCR, PTS and DTS moved by the segment's one offset, modulo 2^33;
    every other byte of them is the input's, and the offset stays.  A push to
    the pending segment writes nothing until the segment starts and becomes
    the current one; then it writes the same kinds of packets, moved by the
    offset the segment has from there on, and the packets without payload that
    mark the discontinuity. *)
Theorem splice_rebases m chunk :
  mux_ok m -> Forall is_u8 chunk ->
  let input := chunks_exact MPEG_TS_PACKET_SIZE chunk in
  (forall segment, mx_current m = Some segment ->
     Forall (emitted false (sg_offset segment) input)
       (chunks_exact MPEG_TS_PACKET_SIZE (snd (push_current m chunk))) /\
     sg_offset <$> mx_current (fst (push_current m chunk)) = Some (sg_offset segment)) /\
  let '(m', out, started) := push_pending m chunk in
  if started then
    exists segment, mx_current m' = Some segment /\
      Forall (emitted true (sg_offset segment) input) (chunks_exact MPEG_TS_PACKET_SIZE out)
  else out = [].
Proof.
  intros Hm Hu input. split.
  { intros segment Hc. unfold push_current. rewrite Hc.
    destruct (current_packets _ segment _) as [[m1 s1] out] eqn:Ep. cbn [fst snd].
    destruct (current_packets_emits _ (set_segments m None (mx_pending m)) _ _ _ _ (chunks_exact_packets _ Hu)
      (mo_current _ Hm _ Hc) (mo_map _ Hm) Ep) as (Hof & qs & -> & Hqs & Hem).
    rewrite (proj2 (concat_packets qs Hqs)). split; [done|]. cbn. by rewrite Hof. }
  unfold push_pending. destruct (mx_pending m) as [segment|] eqn:Hp; [|done].
  destruct (pending_packets _ segment _) as [[m1 s1] out] eqn:Ep.
  destruct (pending_packets_emits _ (set_segments m (mx_current m) None) _ _ _ _ (chunks_exact_packets _ Hu)
    (mo_pending _ Hm _ Hp) (mo_map _ Hm) Ep) as ([Hn _] & qs & -> & Hqs & Hem).
  destruct (sg_started s1); [|by apply Hn]. exists s1. by rewrite (proj2 (concat_packets qs Hqs)).
Qed.

(** ** Where a segment starts *)

Lemma later_timestamp_after a b :
  exists d e, 0 <= d <= 2 ^ 32 /\ 0 <= e <= 2 ^ 32 /\
    later_timestamp a b mod 2 ^ 33 = (a + d) mod 2 ^ 33 /\ later_timestamp a b mod 2 ^ 33 = (b + e) mod 2 ^ 33.
Proof.
  unfold later_timestamp. rewrite mask_wrap. change TIMESTAMP_HALF_RANGE with (2 ^ 32).
  pose proof (Z.mod_pos_bound (a - b) (2 ^ 33) ltac:(lia)).
  pose proof (Z.div_mod (a - b) (2 ^ 33) ltac:(lia)) as Hd. destruct (Z.ltb_spec ((a - b) mod 2 ^ 33) (2 ^ 32)).
  - exists 0, ((a - b) mod 2 ^ 33). rewrite Z.add_0_r, Z.add_mod_idemp_r by lia.
    replace (b + (a - b)) with a by lia. repeat split; lia.
  - exists (2 ^ 33 - (a - b) mod 2 ^ 33), 0. rewrite Z.add_0_r.
    split; [lia|]. split; [lia|]. split; [|done].
    replace (a + (2 ^ 33 - (a - b) mod 2 ^ 33)) with (b + ((a - b) / 2 ^ 33 + 1) * 2 ^ 33) by lia.
    by rewrite Z.mod_add by lia.
Qed.

Lemma seek_found m segment p segment' :
  seek m segment p = (segment', true) ->
  exists map reference, sg_map segment' = Some map /\ seek_reference segment' map = Some reference /\
    sg_offset segment' = offset_for m reference.
Proof.
  unfold seek. case_match; [done|]. destruct (observe_psi segment p) as [s1 new].
  set (s2 := match new with Some map => set_map s1 map | None => s1 end).
  destruct (sg_map s2) as [map|] eqn:Em; [|done].
  assert (sg_map (seek_times s2 map p) = Some map) as Ht.
  { unfold seek_times. by destruct (match (if decide _ then _ else None) with Some _ => _ | None => _ end). }
  destruct (seek_reference _ map) as [reference|] eqn:Er; [|done]. case_match; [done|].
  case_match; [|done]. intros [= <-]. exists map, reference. done.
Qed.

Lemma rebased_offset_for m reference last k :
  output_reference m = Some last ->
  rebased (offset_for m reference) (reference + k) = (last mod 2 ^ 33 + SPLICE_STEP_TICKS + k) mod 2 ^ 33.
Proof.
  intros Ho. unfold rebased, offset_for. rewrite Ho, mask_wrap.
  assert ((wrap64 (last + SPLICE_STEP_TICKS) - reference) mod 2 ^ 33 = (last + SPLICE_STEP_TICKS - reference) mod 2 ^ 33) as ->.
  { rewrite Zminus_mod. unfold wrap64. rewrite Z.mod_mod_divide by (by exists (2 ^ 31)). by rewrite <- Zminus_mod. }
  rewrite Z.add_mod_idemp_r by lia. rewrite <- !Z.add_assoc, Z.add_mod_idemp_l by lia. f_equal. lia.
Qed.

(** Splice joint: when a pending segment is found to start and the muxer has
    written a PCR [pcr] and media up to [media], an input time [k] ticks after
    the segment's reference (its latest PCR) is written [k] ticks plus one
    frame after a moment that is not before [pcr] and not before [media]: the
    output clock does not step back.  A segment that starts the output keeps
    its times. *)
Theorem splice_clock_advances m segment p segment' reference :
  seek m segment p = (segment', true) -> sg_latest_pcr segment' = Some reference ->
  (mx_last_pcr m = None -> mx_media_end m = None -> forall t, rebased (sg_offset segment') t = t mod 2 ^ 33) /\
  (forall pcr, mx_last_pcr m = Some pcr -> exists d, 0 <= d <= 2 ^ 32 /\
     forall k, rebased (sg_offset segment') (reference + k) = (pcr + d + SPLICE_STEP_TICKS + k) mod 2 ^ 33) /\
  (forall media, mx_media_end m = Some media -> exists d, 0 <= d <= 2 ^ 32 /\
     forall k, rebased (sg_offset segment') (reference + k) = (media + d + SPLICE_STEP_TICKS + k) mod 2 ^ 33).
Proof.
  intros Hs Hl. destruct (seek_found _ _ _ _ Hs) as (map & r & Hm & Hr & Ho).
  unfold seek_reference in Hr. rewrite Hl in Hr. injection Hr as <-. rewrite Ho.
  assert (forall a b d k, a mod 2 ^ 33 = (b + d) mod 2 ^ 33 ->
    (a mod 2 ^ 33 + SPLICE_STEP_TICKS + k) mod 2 ^ 33 = (b + d + SPLICE_STEP_TICKS + k) mod 2 ^ 33) as Hmod.
  { intros a b d k ->. rewrite <- !Z.add_assoc, Z.add_mod_idemp_l by lia. f_equal. lia. }
  split; [|split].
  - intros Hp He t. unfold rebased, offset_for, output_reference. rewrite Hp, He. by rewrite Z.add_0_r.
  - intros pcr Hp. destruct (mx_media_end m) as [media|] eqn:He.
    + destruct (later_timestamp_after pcr media) as (d & e & Hd & _ & H1 & _). exists d. split; [done|]. intros k.
      rewrite (rebased_offset_for m reference (later_timestamp pcr media)); [by apply Hmod|].
      unfold output_reference. by rewrite Hp, He.
    + exists 0. split; [lia|]. intros k. rewrite (rebased_offset_for m reference pcr).
      * apply Hmod. by rewrite Z.add_0_r.
      * unfold output_reference. by rewrite Hp, He.
  - intros media He. destruct (mx_last_pcr m) as [pcr|] eqn:Hp.
    + destruct (later_timestamp_after pcr media) as (d & e & _ & Hd & _ & H1). exists e. split; [done|]. intros k.
      rewrite (rebased_offset_for m reference (later_timestamp pcr media)); [by apply Hmod|].
      unfold output_reference. by rewrite Hp, He.
    + exists 0. split; [lia|]. intros k. rewrite (rebased_offset_for m reference media).
      * apply Hmod. by rewrite Z.add_0_r.
      * unfold output_reference. by rewrite Hp, He.
Qed.
