(* ===== verification/Slate.v ===== *)
(** * Slates

    Models the parts of [crates/media/src/slate.rs] around the muxer: the
    profile a slate is encoded with, the classes of start errors and their
    retry schedule, the decision when a viewer may start, and the driver that
    shows slates while it opens the live stream and splices to it.

    Durations and instants are nanoseconds.  What a turn of the driver asks
    the system, the time, the start state of the waiting viewer and whether
    the slate process starts, is its [Env]. *)
From Stdlib Require Import ZArith Lia Floats.SpecFloat.
From stdpp Require Import base numbers option strings pretty.
From stdpp Require Import list.
From S2P Require Import Prelude Pacing Broker Ring Viewer Splice SpliceRun.
Open Scope Z_scope.

(** ** Constants *)

Definition slate_millis (n : Z) : Z := n * 1000000.
Definition slate_secs (n : Z) : Z := n * NANOS_PER_SECOND.

Definition SLATE_START_LEAD : Z := slate_secs 5.
Definition DEFAULT_SLATE_GRACE : Z := slate_millis 1500.
Definition CAPACITY_RETRY_INTERVAL : Z := slate_millis 500.
Definition PROVIDER_RETRY_INITIAL : Z := slate_secs 1.
Definition PROVIDER_RETRY_MAX : Z := slate_secs 30.
Definition STARTING_COUNTDOWN_FLOOR : Z := slate_secs 3.
Definition LEAD_WAIT_LIMIT : Z := slate_secs 10.
Definition NO_MEDIA_LIMIT : Z := slate_secs 30.
Definition SLATE_TICK : Z := slate_millis 250.
Definition SLATE_RESTART_INTERVAL : Z := slate_secs 2.

(** ** The profile of a slate *)

Inductive SlateVideoCodec := H264 | H265 | Mpeg2.
Inductive SlateAudioCodec := Aac | Ac3 | Eac3 | Mp2.
#[export] Instance slate_audio_codec_eq_dec : EqDecision SlateAudioCodec.
Proof. solve_decision. Defined.

Record FrameRate := mkFrameRate { numerator : Z; denominator : Z }.

(** The binary64 operations of the code. *)
Definition sf_of_Z (z : Z) : spec_float := binary_normalize 53 1024 z 0 false.
Definition sf_div (a b : spec_float) : spec_float := SFdiv 53 1024 a b.
Definition sf_sub (a b : spec_float) : spec_float := SFsub 53 1024 a b.
Definition sf_le (a b : spec_float) : bool :=
  match SFcompare a b with Some Lt | Some Eq => true | _ => false end.
Definition sf_is_finite (a : spec_float) : bool :=
  match a with S754_zero _ | S754_finite _ _ _ => true | _ => false end.
(** The literal [0.01]: the binary64 number nearest to one hundredth. *)
Definition sf_hundredth : spec_float := sf_div (sf_of_Z 1) (sf_of_Z 100).

Definition as_f64 (rate : FrameRate) : spec_float :=
  sf_div (sf_of_Z (numerator rate)) (sf_of_Z (denominator rate)).

(** [numerator.div_ceil(denominator).max(1)] *)
Definition keyframe_interval (rate : FrameRate) : Z :=
  Z.max 1 ((numerator rate + denominator rate - 1) / denominator rate).

Definition FRAME_RATES : list FrameRate :=
  [mkFrameRate 24000 1001; mkFrameRate 24 1; mkFrameRate 25 1; mkFrameRate 30000 1001;
   mkFrameRate 30 1; mkFrameRate 50 1; mkFrameRate 60000 1001; mkFrameRate 60 1].

Record MeasuredStreamProfile := mkMeasuredStreamProfile {
  ms_video_codec : option string;
  ms_video_width : option Z;
  ms_video_height : option Z;
  ms_video_fps : option spec_float;
  ms_audio_codec : option string;
  ms_audio_channels : option Z;
  ms_audio_sample_rate : option Z;
}.

Record SlateProfile := mkSlateProfile {
  sp_video : SlateVideoCodec;
  sp_width : Z;
  sp_height : Z;
  sp_frame_rate : FrameRate;
  sp_audio : SlateAudioCodec;
  sp_audio_channels : Z;
  sp_sample_rate : Z;
}.

Definition slate_profile_default : SlateProfile :=
  mkSlateProfile H264 1280 720 (mkFrameRate 30 1) Aac 2 48000.

(** The entry with the least error; the first one of equals.  The errors that
    are compared are not NaN and not negative, where [total_cmp] is the
    order of the numbers. *)
Fixpoint min_by_error (best : FrameRate * spec_float) (l : list (FrameRate * spec_float))
  : FrameRate * spec_float :=
  match l with
  | [] => best
  | x :: l => min_by_error (if sf_le (snd best) (snd x) then best else x) l
  end.

Definition nearest_frame_rate (fps : spec_float) : option FrameRate :=
  if negb (sf_is_finite fps) || sf_le fps (sf_of_Z 0) then None
  else
    let candidates :=
      List.filter (fun x => sf_le (snd x) sf_hundredth)
        (List.map (fun rate => (rate, sf_div (SFabs (sf_sub (as_f64 rate) fps)) fps)) FRAME_RATES) in
    match candidates with
    | [] => None
    | x :: l => Some (fst (min_by_error x l))
    end.

Definition is_name (names : list string) (name : option string) : bool :=
  match name with Some name => bool_decide (name ∈ names) | None => false end.

Definition from_measured (measured : MeasuredStreamProfile) : SlateProfile :=
  let defaults := slate_profile_default in
  let video :=
    if is_name ["h265"; "hevc"]%string (ms_video_codec measured) then H265
    else if is_name ["mpeg2-video"; "mpeg2video"; "mpeg1-video"]%string (ms_video_codec measured) then Mpeg2
    else H264 in
  let '(width, height) :=
    match ms_video_width measured, ms_video_height measured with
    | Some width, Some height =>
        if (128 <=? width) && (width <=? 4096) && (96 <=? height) && (height <=? 2304)
        then (Z.land (default (sp_width defaults) (checked u32_max width)) (u32_max - 1),
              Z.land (default (sp_height defaults) (checked u32_max height)) (u32_max - 1))
        else (sp_width defaults, sp_height defaults)
    | _, _ => (sp_width defaults, sp_height defaults)
    end in
  let frame_rate := default (sp_frame_rate defaults) (ms_video_fps measured ≫= nearest_frame_rate) in
  let audio :=
    if is_name ["ac3"]%string (ms_audio_codec measured) then Ac3
    else if is_name ["eac3"]%string (ms_audio_codec measured) then Eac3
    else if is_name ["mp2"; "mpeg1-audio"]%string (ms_audio_codec measured) then Mp2
    else Aac in
  let audio_channels :=
    match ms_audio_channels measured with
    | Some channels =>
        if channels =? 1 then 1
        else if (6 <=? channels) && negb (bool_decide (audio = Mp2)) then 6 else 2
    | None => 2
    end in
  let sample_rate :=
    match ms_audio_sample_rate measured with
    | Some rate =>
        if bool_decide (rate ∈ [32000; 44100; 48000])
        then default 48000 (checked u32_max rate) else sp_sample_rate defaults
    | None => sp_sample_rate defaults
    end in
  mkSlateProfile video width height frame_rate audio audio_channels sample_rate.

(** ** Slates, failures and retries *)

Inductive SlateKind := SlateStarting | TunersBusy | Retrying.
#[export] Instance slate_kind_eq_dec : EqDecision SlateKind.
Proof. solve_decision. Defined.

Inductive StartFailure := FailCapacity | FailProvider | FailConfiguration.
#[export] Instance start_failure_eq_dec : EqDecision StartFailure.
Proof. solve_decision. Defined.

Definition classify (error : SessionStartError) : StartFailure :=
  match error with
  | Provider (AtCapacity _ _ _) => FailCapacity
  | StartupTimeout | HttpError _ | ProcessError _ => FailProvider
  | UnknownProvider _ | Provider LeaseIdExhausted | ProcessInputRequiresProcessAdapter => FailConfiguration
  end.

Definition slate (failure : StartFailure) : SlateKind :=
  match failure with
  | FailCapacity => TunersBusy
  | FailProvider | FailConfiguration => Retrying
  end.

(** [RetrySchedule]: the number of provider failures so far. *)
Definition next_delay (provider_failures : Z) (failure : StartFailure) : Z * Z :=
  match failure with
  | FailCapacity => (provider_failures, CAPACITY_RETRY_INTERVAL)
  | FailProvider | FailConfiguration =>
      let exponent := Z.min provider_failures 16 in
      (sat_add u32_max provider_failures 1,
       Z.min (PROVIDER_RETRY_INITIAL * Z.shiftl 1 exponent) PROVIDER_RETRY_MAX)
  end.

(** ** The arguments of the slate encoder *)

Open Scope string_scope.
Open Scope list_scope.
Open Scope Z_scope.

Definition slate_lines (kind : SlateKind) (countdown_seconds : Z) : list string :=
  match kind with
  | SlateStarting =>
      ["Stream starting in %{eif\:max(1\,ceil(" +:+ pretty countdown_seconds +:+ "-t))\:d} seconds"]
  | TunersBusy => ["All tuners in use,"; "stay tuned for one to open up"]
  | Retrying => ["Having trouble reaching this channel,"; "retrying"]
  end.

Definition font_size (profile : SlateProfile) : Z :=
  Z.max 12 (Z.min (sp_height profile / 14) (sp_width profile / 28)).

(** The top edge of each line of text, with the line. *)
Definition line_positions (profile : SlateProfile) (lines : list string) : list (string * Z) :=
  let step := font_size profile * 3 / 2 in
  let count := zlen lines in
  let top := sat_sub (sp_height profile / 2) (step * count / 2) in
  zip lines (List.map (fun index => top + step * index) (seqZ 0 count)).

Definition draw_text (size : Z) (line : string * Z) : string :=
  "drawtext=text='" +:+ fst line +:+ "':fontcolor=white:fontsize=" +:+ pretty size +:+
  ":x=(w-text_w)/2:y=" +:+ pretty (snd line).

Definition video_filter (kind : SlateKind) (countdown_seconds : Z) (profile : SlateProfile) : string :=
  String.concat ","
    (List.map (draw_text (font_size profile)) (line_positions profile (slate_lines kind countdown_seconds))).

Definition channel_layout (channels : Z) : string :=
  if channels =? 1 then "mono" else if channels =? 6 then "5.1" else "stereo".

Definition video_encoder_arguments (codec : SlateVideoCodec) (gop : string) : list string :=
  match codec with
  | H264 => ["-c:v"; "libx264"; "-preset"; "veryfast"; "-tune"; "zerolatency"; "-profile:v"; "high";
             "-sc_threshold"; "0"; "-keyint_min"; gop]
  | H265 => ["-c:v"; "libx265"; "-preset"; "ultrafast"; "-tune"; "zerolatency"; "-x265-params";
             "log-level=error"]
  | Mpeg2 => ["-c:v"; "mpeg2video"; "-q:v"; "4"; "-bf"; "0"]
  end.

Definition ffmpeg_arguments (kind : SlateKind) (countdown_seconds : Z) (profile : SlateProfile) : list string :=
  let rate := sp_frame_rate profile in
  let gop := pretty (keyframe_interval rate) in
  let surround := 6 <=? sp_audio_channels profile in
  let '(encoder, bitrate) :=
    match sp_audio profile with
    | Aac => ("aac", if surround then "384k" else "128k")
    | Ac3 => ("ac3", if surround then "448k" else "192k")
    | Eac3 => ("eac3", if surround then "448k" else "192k")
    | Mp2 => ("mp2", "192k")
    end in
  ["-hide_banner"; "-loglevel"; "error"; "-nostdin"; "-re"; "-f"; "lavfi"; "-i";
   "color=c=0x08111f:s=" +:+ pretty (sp_width profile) +:+ "x" +:+ pretty (sp_height profile) +:+
   ":r=" +:+ pretty (numerator rate) +:+ "/" +:+ pretty (denominator rate);
   "-re"; "-f"; "lavfi"; "-i";
   "anullsrc=channel_layout=" +:+ channel_layout (sp_audio_channels profile) +:+
   ":sample_rate=" +:+ pretty (sp_sample_rate profile);
   "-map"; "0:v:0"; "-map"; "1:a:0"; "-vf"; video_filter kind (Z.max 1 countdown_seconds) profile;
   "-pix_fmt"; "yuv420p"; "-g"; gop]
  ++ video_encoder_arguments (sp_video profile) gop
  ++ ["-c:a"; encoder; "-b:a"; bitrate; "-muxdelay"; "0"; "-muxpreload"; "0"; "-flush_packets"; "1";
      "-mpegts_service_id"; "1"; "-mpegts_pmt_start_pid"; "4096"; "-mpegts_start_pid"; "256";
      "-f"; "mpegts"; "pipe:1"].

(** ** When a viewer may start *)

Inductive Readiness := Ready | ReadinessWaiting (remaining : Z) | ReadinessFailed.

Definition start_lead_target (viewer_delay : Z) : Z := Z.min viewer_delay SLATE_START_LEAD.

Definition viewer_readiness (target : Z) (status : ViewerStartupStatus) (waited : Z) : Readiness :=
  if vs_closed status then ReadinessFailed
  else if negb (vs_buffered status) then
    if NO_MEDIA_LIMIT <=? waited then ReadinessFailed
    else ReadinessWaiting (Z.max target STARTING_COUNTDOWN_FLOOR)
  else if target =? 0 then Ready
  else
    match vs_lead status with
    | Some lead =>
        if target <=? lead then Ready
        else if target + LEAD_WAIT_LIMIT <=? waited then Ready
        else ReadinessWaiting (sat_sub target lead)
    | None => if target <=? waited then Ready else ReadinessWaiting (sat_sub target waited)
    end.

Definition countdown_seconds (remaining : Z) : Z :=
  Z.max 1 (default u32_max (checked u32_max ((remaining / 1000000 + 999) / 1000))).

(** ** The driver *)

(** A [ViewerHandle] and the [ViewerByteStream] made of it are known by a
    number; so is a slate process with the cursor that reads it. *)
Inductive LiveState :=
| Opening
| Waiting (viewer since : Z)
| LiveIdle (retry_at : Z) (failure : StartFailure)
| Splicing (stream : Z)
| Live (stream : Z).

Record RunningSlate := mkRunningSlate { rs_kind : SlateKind; rs_process : Z }.

Inductive LiveEvent :=
| Opened (opened : result Z SessionStartError)
| Media (item : option (result bytes ViewerStreamError)).

Inductive DriverEvent :=
| EActive (read : result RingRead RingReadError)
| EIncoming (read : result RingRead RingReadError)
| ELive (event : LiveEvent)
| ETick.

Record SlateDriver := mkSlateDriver {
  dr_target : Z;
  dr_muxer : SpliceMuxer;
  dr_retry : Z;
  dr_live : LiveState;
  dr_active : option RunningSlate;
  dr_incoming : option RunningSlate;
  dr_shown : option SlateKind;
  dr_last_slate_start : option Z;
  dr_finished : bool;
}.

(** What a turn asks the system. *)
Record Env := mkEnv {
  env_now : Z;
  env_status : ViewerStartupStatus;
  env_process : option Z; (* the slate process, when it starts *)
}.

Definition set_muxer (d : SlateDriver) (muxer : SpliceMuxer) : SlateDriver :=
  mkSlateDriver (dr_target d) muxer (dr_retry d) (dr_live d) (dr_active d) (dr_incoming d) (dr_shown d)
    (dr_last_slate_start d) (dr_finished d).
Definition set_live (d : SlateDriver) (live : LiveState) (retry : Z) : SlateDriver :=
  mkSlateDriver (dr_target d) (dr_muxer d) retry live (dr_active d) (dr_incoming d) (dr_shown d)
    (dr_last_slate_start d) (dr_finished d).
Definition set_slates (d : SlateDriver) (active incoming : option RunningSlate) (shown : option SlateKind)
  : SlateDriver :=
  mkSlateDriver (dr_target d) (dr_muxer d) (dr_retry d) (dr_live d) active incoming shown
    (dr_last_slate_start d) (dr_finished d).
Definition set_slate_start (d : SlateDriver) (now : Z) : SlateDriver :=
  mkSlateDriver (dr_target d) (dr_muxer d) (dr_retry d) (dr_live d) (dr_active d) (dr_incoming d) (dr_shown d)
    (Some now) (dr_finished d).
Definition set_finished (d : SlateDriver) : SlateDriver :=
  mkSlateDriver (dr_target d) (dr_muxer d) (dr_retry d) (dr_live d) (dr_active d) (dr_incoming d) (dr_shown d)
    (dr_last_slate_start d) true.

(** [instant.elapsed()] *)
Definition elapsed (now since : Z) : Z := sat_sub now since.

Definition desired_slate (d : SlateDriver) : option SlateKind :=
  match dr_live d with
  | Live _ => None
  | Splicing _ => dr_shown d
  | Waiting _ _ => Some SlateStarting
  | Opening => Some (default SlateStarting (dr_shown d))
  | LiveIdle _ failure => Some (slate failure)
  end.

Definition countdown (env : Env) (d : SlateDriver) : Z :=
  countdown_seconds
    match dr_live d with
    | Waiting _ since =>
        match viewer_readiness (dr_target d) (env_status env) (elapsed (env_now env) since) with
        | ReadinessWaiting remaining => remaining
        | Ready | ReadinessFailed => 0
        end
    | _ => Z.max (dr_target d) STARTING_COUNTDOWN_FLOOR
    end.

(** The slate process that is started, with its countdown, is returned too. *)
Definition ensure_slate (env : Env) (d : SlateDriver) : SlateDriver * option (SlateKind * Z) :=
  match desired_slate d with
  | None => (d, None)
  | Some kind =>
      if bool_decide (dr_shown d = Some kind) then (d, None)
      else if match dr_last_slate_start d with
              | Some last => elapsed (env_now env) last <? SLATE_RESTART_INTERVAL
              | None => false
              end && bool_decide (dr_active d = None) && bool_decide (dr_incoming d = None) &&
              bool_decide (dr_shown d = None)
      then (d, None)
      else
        let d := set_slates (set_slate_start d (env_now env)) (dr_active d) (dr_incoming d) (Some kind) in
        let request := Some (kind, countdown env d) in
        match env_process env with
        | Some process =>
            let d := set_slates d (dr_active d) (Some (mkRunningSlate kind process)) (dr_shown d) in
            (set_muxer d (begin_pending (dr_muxer d)), request)
        | None =>
            let d := set_slates d (dr_active d) None (dr_shown d) in
            (set_muxer d (cancel_pending (dr_muxer d)), request)
        end
  end.

Definition on_active_read (d : SlateDriver) (read : result RingRead RingReadError) : SlateDriver * bytes :=
  match read with
  | Ok (Packets _ _ data) =>
      let '(muxer, out) := push_current (dr_muxer d) data in (set_muxer d muxer, out)
  | Ok (Lagged _ _ _) | Ok (GenerationBoundary _ _) => (d, [])
  | Ok (Closed _ _) | Err _ =>
      (set_slates d None (dr_incoming d)
         (if bool_decide (dr_incoming d = None) then None else dr_shown d), [])
  end.

Definition on_incoming_read (d : SlateDriver) (read : result RingRead RingReadError) : SlateDriver * bytes :=
  match read with
  | Ok (Packets _ _ data) =>
      let '(muxer, out, started) := push_pending (dr_muxer d) data in
      let d := set_muxer d muxer in
      (if started then set_slates d (dr_incoming d) None (dr_shown d) else d, out)
  | Ok (Lagged _ _ _) | Ok (GenerationBoundary _ _) => (d, [])
  | Ok (Closed _ _) | Err _ =>
      let d := set_muxer d (cancel_pending (dr_muxer d)) in
      (set_slates d (dr_active d) None (rs_kind <$> dr_active d), [])
  end.

Definition begin_splice (d : SlateDriver) (viewer : Z) : SlateDriver :=
  let d := set_slates d (dr_active d) None
    (if bool_decide (dr_active d = None) then None else rs_kind <$> dr_active d) in
  let d := set_muxer d (begin_pending (dr_muxer d)) in
  set_live d (Splicing viewer) (dr_retry d).

Definition fail_live (env : Env) (d : SlateDriver) (failure : StartFailure) : SlateDriver :=
  let d := match dr_live d with
           | Splicing _ => set_muxer d (cancel_pending (dr_muxer d))
           | _ => d
           end in
  let '(retry, delay) := next_delay (dr_retry d) failure in
  set_live d (LiveIdle (env_now env + delay) failure) retry.

Definition on_live_event (env : Env) (d : SlateDriver) (event : LiveEvent) : SlateDriver * bytes :=
  match event with
  | Opened (Ok viewer) =>
      (match viewer_readiness (dr_target d) (env_status env) 0 with
       | Ready => begin_splice d viewer
       | ReadinessWaiting _ => set_live d (Waiting viewer (env_now env)) (dr_retry d)
       | ReadinessFailed => fail_live env d FailProvider
       end, [])
  | Opened (Err error) => (fail_live env d (classify error), [])
  | Media (Some (Ok data)) =>
      match dr_live d with
      | Splicing stream =>
          let '(muxer, out, started) := push_pending (dr_muxer d) data in
          let d := set_muxer d muxer in
          (if started then set_slates (set_live d (Live stream) 0) None None None else d, out)
      | _ => let '(muxer, out) := push_current (dr_muxer d) data in (set_muxer d muxer, out)
      end
  | Media (Some (Err _)) => (fail_live env d FailProvider, [])
  | Media None =>
      (match dr_live d with
       | Live _ => set_finished d
       | _ => fail_live env d FailProvider
       end, [])
  end.

Definition on_tick (env : Env) (d : SlateDriver) : SlateDriver :=
  match dr_live d with
  | Waiting viewer since =>
      match viewer_readiness (dr_target d) (env_status env) (elapsed (env_now env) since) with
      | Ready => begin_splice d viewer
      | ReadinessFailed => fail_live env d FailProvider
      | ReadinessWaiting _ => d
      end
  | LiveIdle retry_at _ => if retry_at <=? env_now env then set_live d Opening (dr_retry d) else d
  | _ => d
  end.

(** The branches of the [select!] that can complete: a slate that is not
    there and a live state with nothing to await are pending for ever. *)
Definition enabled (d : SlateDriver) (event : DriverEvent) : bool :=
  match event with
  | EActive _ => bool_decide (is_Some (dr_active d))
  | EIncoming _ => bool_decide (is_Some (dr_incoming d))
  | ELive (Opened _) => match dr_live d with Opening => true | _ => false end
  | ELive (Media _) => match dr_live d with Splicing _ | Live _ => true | _ => false end
  | ETick => true
  end.

Definition on_event (env : Env) (d : SlateDriver) (event : DriverEvent) : SlateDriver * bytes :=
  match event with
  | EActive read => on_active_read d read
  | EIncoming read => on_incoming_read d read
  | ELive event => on_live_event env d event
  | ETick => (on_tick env d, [])
  end.

(** One turn of the loop of [into_stream]. *)
Definition driver_turn (d : SlateDriver) (turn : Env * DriverEvent) : SlateDriver * bytes :=
  let '(env, event) := turn in
  if dr_finished d then (d, [])
  else
    let d := fst (ensure_slate env d) in
    if enabled d event then on_event env d event else (d, []).

Fixpoint driver_run (d : SlateDriver) (turns : list (Env * DriverEvent)) : SlateDriver * bytes :=
  match turns with
  | [] => (d, [])
  | turn :: turns =>
      let '(d, out) := driver_turn d turn in
      let '(d, rest) := driver_run d turns in
      (d, out ++ rest)
  end.

(** ** Opening a channel *)

Inductive SlatedOpen :=
| Direct (viewer : Z)
| Slated (driver : SlateDriver)
| OpenFailed (error : SessionStartError).

Definition driver_new (target retry : Z) (live : LiveState) : SlateDriver :=
  mkSlateDriver target muxer_new retry live None None None None false.

(** The polls of a viewer that opened within the grace time: the moment and
    the start state of each; [None] while the loop still polls. *)
Fixpoint poll_viewer (target deadline viewer since : Z) (polls : list (Z * ViewerStartupStatus))
  : option SlatedOpen :=
  match polls with
  | [] => None
  | (now, status) :: polls =>
      match viewer_readiness target status (elapsed now since) with
      | Ready => Some (Direct viewer)
      | ReadinessFailed =>
          let '(retry, delay) := next_delay 0 FailProvider in
          Some (Slated (driver_new target retry (LiveIdle (now + delay) FailProvider)))
      | ReadinessWaiting _ =>
          if deadline <=? now then Some (Slated (driver_new target 0 (Waiting viewer since)))
          else poll_viewer target deadline viewer since polls
      end
  end.

(** [first] is the answer of the first [try_open], when it came in time, and
    [at_] the moment it came. *)
Definition open_with_slates (viewer_delay start grace : Z) (first : option (result Z SessionStartError))
    (at_ : Z) (polls : list (Z * ViewerStartupStatus)) : option SlatedOpen :=
  let target := start_lead_target viewer_delay in
  let deadline := start + grace in
  match first with
  | None => Some (Slated (driver_new target 0 Opening))
  | Some (Err error) =>
      let failure := classify error in
      if bool_decide (failure = FailConfiguration) then Some (OpenFailed error)
      else
        let '(retry, delay) := next_delay 0 failure in
        Some (Slated (driver_new target retry (LiveIdle (at_ + delay) failure)))
  | Some (Ok viewer) => poll_viewer target deadline viewer at_ polls
  end.
