(* ===== verification/SlateSpec.v ===== *)
(** * What the slate driver promises

    The profile of a slate can always be encoded; retries back off within
    bounds; no wait of the driver is longer than its limit; the segments of
    the muxer belong to one source each, so that the slated stream is whole
    packets and continuous from the first slate to the end of the live
    stream. *)
From Stdlib Require Import ZArith Lia Floats.SpecFloat.
From stdpp Require Import base numbers option strings gmap.
From stdpp Require Import list.
From S2P Require Import Prelude Psi Pacing Broker Ring Viewer Splice SpliceSpec SpliceTables SpliceRun.
From S2P Require Import SpliceContinuity Slate.
Open Scope Z_scope.

(** ** Profile *)

Lemma even_dimension low high default_size size :
  0 <= low -> high <= 2 ^ 31 -> Z.even low = true -> low <= size <= high ->
  let even := Z.land (default default_size (checked u32_max size)) (u32_max - 1) in
  low <= even <= high /\ Z.even even = true /\ size - 1 <= even <= size.
Proof.
  intros Hlow Hhigh Hev Hs. rewrite checked_Some by (unfold u32_max; lia). cbn [from_option id].
  assert (Z.land size (u32_max - 1) = 2 * (size / 2)) as ->.
  { change (u32_max - 1) with (Z.shiftl (Z.ones 31) 1). apply Z.bits_inj'. intros i Hi.
    rewrite Z.land_spec, Z.shiftl_spec by lia. change (2 * (size / 2)) with (2 ^ 1 * (size / 2 ^ 1)).
    rewrite <- Z.shiftr_div_pow2, Z.mul_comm, <- Z.shiftl_mul_pow2, Z.shiftl_spec by lia.
    destruct (Z.eq_dec i 0) as [->|]; [by rewrite !(Z.testbit_neg_r _ (0 - 1)), andb_false_r by lia|].
    rewrite Z.shiftr_spec by lia. replace (i - 1 + 1) with i by lia.
    rewrite Z.testbit_ones_nonneg by lia. destruct (Z.ltb_spec (i - 1) 31); [apply andb_true_r|].
    rewrite andb_false_r. symmetry. apply (bits_above _ 32); lia. }
  apply Z.even_spec in Hev as [h ->]. pose proof (Z.div_mod size 2). pose proof (Z.mod_pos_bound size 2).
  rewrite Z.even_mul. repeat split; lia || done.
Qed.

Lemma min_by_error_in x l : min_by_error x l ∈ x :: l.
Proof.
  revert x. induction l as [|y l IH]; intros x; cbn [min_by_error]; [by left|].
  specialize (IH (if sf_le (snd x) (snd y) then x else y)). case_match; set_solver.
Qed.

Lemma nearest_frame_rate_known fps rate : nearest_frame_rate fps = Some rate -> rate ∈ FRAME_RATES.
Proof.
  unfold nearest_frame_rate. case_match; [done|].
  set (cs := List.filter _ _). assert (forall x, x ∈ cs -> fst x ∈ FRAME_RATES) as Hcs.
  { intros x Hx. apply list_elem_of_In, filter_In in Hx as [Hx _]. apply in_map_iff in Hx as (r & <- & Hr).
    by apply list_elem_of_In. }
  destruct cs as [|x l]; [done|]. intros [= <-]. apply Hcs, min_by_error_in.
Qed.

(** A profile the encoders accept: even dimensions inside the limits, one of
    the listed frame rates, a layout and a sample rate of the codec. *)
Definition encodable (p : SlateProfile) : Prop :=
  128 <= sp_width p <= 4096 /\ Z.even (sp_width p) = true /\
  96 <= sp_height p <= 2304 /\ Z.even (sp_height p) = true /\
  sp_frame_rate p ∈ FRAME_RATES /\ sp_audio_channels p ∈ [1; 2; 6] /\
  (sp_audio p = Mp2 -> sp_audio_channels p <= 2) /\ sp_sample_rate p ∈ [32000; 44100; 48000].

Lemma from_measured_encodable measured :
  encodable (from_measured measured) /\
  (forall w h, ms_video_width measured = Some w -> ms_video_height measured = Some h ->
     128 <= w <= 4096 -> 96 <= h <= 2304 ->
     w - 1 <= sp_width (from_measured measured) <= w /\ h - 1 <= sp_height (from_measured measured) <= h) /\
  (forall r, ms_audio_sample_rate measured = Some r -> r ∈ [32000; 44100; 48000] ->
     sp_sample_rate (from_measured measured) = r).
Proof.
  unfold from_measured. set (dims := match ms_video_width measured with Some _ => _ | None => _ end).
  assert (128 <= fst dims <= 4096 /\ Z.even (fst dims) = true /\ 96 <= snd dims <= 2304 /\ Z.even (snd dims) = true /\
    forall w h, ms_video_width measured = Some w -> ms_video_height measured = Some h ->
      128 <= w <= 4096 -> 96 <= h <= 2304 -> w - 1 <= fst dims <= w /\ h - 1 <= snd dims <= h) as (Hw & Hwe & Hh & Hhe & Hwh).
  { unfold dims. destruct (ms_video_width measured) as [w|], (ms_video_height measured) as [h|]; try (cbn; by repeat split).
    destruct ((128 <=? w) && (w <=? 4096) && (96 <=? h) && (h <=? 2304)) eqn:E; cbn [fst snd].
    - destruct (even_dimension 128 4096 (sp_width slate_profile_default) w) as (H1 & H2 & H3); [lia..|done|lia|].
      destruct (even_dimension 96 2304 (sp_height slate_profile_default) h) as (H4 & H5 & H6); [lia..|done|lia|].
      do 4 (split; [done|]). by intros ? ? [= <-] [= <-].
    - do 4 (split; [cbn; lia || done|]). intros ? ? [= <-] [= <-]. lia. }
  destruct dims as [width height]. cbn [fst snd] in *.
  set (rate := match ms_audio_sample_rate measured with Some _ => _ | None => _ end).
  assert (rate ∈ [32000; 44100; 48000] /\ forall r, ms_audio_sample_rate measured = Some r -> r ∈ [32000; 44100; 48000] -> rate = r) as [Hr Hr'].
  { unfold rate. destruct (ms_audio_sample_rate measured) as [r|]; [|split; [set_solver|done]].
    case_bool_decide as E; [|split; [set_solver|by intros ? [= <-]]].
    rewrite checked_Some by (unfold u32_max; set_unfold; lia). split; [done|by intros ? [= <-]]. }
  split; [|done]. unfold encodable. cbn [sp_width sp_height sp_frame_rate sp_audio_channels sp_audio sp_sample_rate].
  do 4 (split; [done|]). split; [|split; [|split; [|done]]].
  - destruct (ms_video_fps measured ≫= nearest_frame_rate) as [fr|] eqn:E; cbn; [|set_solver].
    apply bind_Some in E as (x & _ & E). by apply nearest_frame_rate_known in E.
  - destruct (ms_audio_channels measured) as [ch|]; [|set_solver].
    destruct (ch =? 1); [set_solver|]. destruct (_ && _); set_solver.
  - intros Ha. rewrite Ha. destruct (ms_audio_channels measured) as [ch|]; [|lia].
    rewrite bool_decide_eq_true_2 by done. cbn [negb]. rewrite andb_false_r. destruct (ch =? 1); lia.
Qed.

(** Every line of the slate is drawn inside the picture. *)
Lemma lines_inside p kind seconds :
  encodable p ->
  Forall (fun line => 0 <= snd line /\ snd line + font_size p <= sp_height p)
    (line_positions p (slate_lines kind seconds)).
Proof.
  intros (Hw & _ & Hh & _).
  assert (12 <= font_size p /\ font_size p * 8 <= sp_height p) as [Hf Hf'].
  { unfold font_size. pose proof (Z.div_mod (sp_height p) 14). pose proof (Z.mod_pos_bound (sp_height p) 14).
    pose proof (Z.div_mod (sp_width p) 28). pose proof (Z.mod_pos_bound (sp_width p) 28). lia. }
  unfold line_positions, sat_sub, zlen. destruct kind; cbn; each; cbn;
    change (Z.of_nat 0 + 0) with 0; change (Z.of_nat 1 + 0) with 1; Z.to_euclidean_division_equations; lia.
Qed.

(** Slate profile: whatever was measured, missing, negative or absurd
    values included, the slate has a profile the encoders accept; a supported
    size and sample rate are kept, up to the odd pixel; and every line of
    text of every slate is drawn inside the picture. *)
Theorem profile_encodable measured kind seconds :
  let profile := from_measured measured in
  encodable profile /\
  (forall w h, ms_video_width measured = Some w -> ms_video_height measured = Some h ->
     128 <= w <= 4096 -> 96 <= h <= 2304 ->
     w - 1 <= sp_width profile <= w /\ h - 1 <= sp_height profile <= h) /\
  (forall r, ms_audio_sample_rate measured = Some r -> r ∈ [32000; 44100; 48000] ->
     sp_sample_rate profile = r) /\
  Forall (fun line => 0 <= snd line /\ snd line + font_size profile <= sp_height profile)
    (line_positions profile (slate_lines kind seconds)).
Proof.
  cbn zeta. destruct (from_measured_encodable measured) as (H1 & H2 & H3). auto using lines_inside.
Qed.

(** ** Retries *)

(** Retry schedule: with a full pool every attempt is half a second after the
    last; after the [n]-th provider failure in a row the wait is [2^n] seconds
    and at most half a minute, for every [n] a [u32] counts, and the count
    itself does not overflow. *)
Theorem retry_backoff n :
  0 <= n <= u32_max ->
  next_delay n FailCapacity = (n, CAPACITY_RETRY_INTERVAL) /\
  forall failure, failure <> FailCapacity ->
    next_delay n failure =
      (Z.min (n + 1) u32_max, if n <? 5 then 2 ^ n * NANOS_PER_SECOND else 30 * NANOS_PER_SECOND).
Proof.
  intros Hn. split; [done|]. intros failure Hf.
  assert (next_delay n failure = (sat_add u32_max n 1,
       Z.min (PROVIDER_RETRY_INITIAL * Z.shiftl 1 (Z.min n 16)) PROVIDER_RETRY_MAX)) as -> by by destruct failure.
  unfold sat_add. f_equal; [lia|]. rewrite Z.shiftl_mul_pow2, Z.mul_1_l by lia.
  unfold PROVIDER_RETRY_INITIAL, PROVIDER_RETRY_MAX, slate_secs, NANOS_PER_SECOND.
  destruct (Z.ltb_spec n 5).
  - rewrite (Z.min_l n 16) by lia. assert (2 ^ n <= 2 ^ 4) by (apply Z.pow_le_mono_r; lia). lia.
  - assert (2 ^ 5 <= 2 ^ Z.min n 16) by (apply Z.pow_le_mono_r; lia). lia.
Qed.

Lemma next_delay_bound n failure :
  0 <= n -> 0 < snd (next_delay n failure) <= PROVIDER_RETRY_MAX /\ 0 <= fst (next_delay n failure).
Proof.
  intros Hn. unfold PROVIDER_RETRY_MAX. destruct failure; cbn [next_delay fst snd].
  - unfold CAPACITY_RETRY_INTERVAL, slate_millis, slate_secs, NANOS_PER_SECOND. lia.
  - unfold sat_add, u32_max, PROVIDER_RETRY_INITIAL, PROVIDER_RETRY_MAX, slate_secs, NANOS_PER_SECOND.
    rewrite Z.shiftl_mul_pow2, Z.mul_1_l by lia. assert (0 < 2 ^ Z.min n 16) by (apply Z.pow_pos_nonneg; lia). lia.
  - unfold sat_add, u32_max, PROVIDER_RETRY_INITIAL, PROVIDER_RETRY_MAX, slate_secs, NANOS_PER_SECOND.
    rewrite Z.shiftl_mul_pow2, Z.mul_1_l by lia. assert (0 < 2 ^ Z.min n 16) by (apply Z.pow_pos_nonneg; lia). lia.
Qed.

(** ** Readiness *)

Lemma start_lead_target_bound delay : 0 <= delay -> 0 <= start_lead_target delay <= SLATE_START_LEAD.
Proof. unfold start_lead_target, SLATE_START_LEAD, slate_secs, NANOS_PER_SECOND. lia. Qed.

Lemma readiness_decided target status waited :
  target <= SLATE_START_LEAD -> NO_MEDIA_LIMIT <= waited ->
  viewer_readiness target status waited = Ready \/ viewer_readiness target status waited = ReadinessFailed.
Proof.
  unfold SLATE_START_LEAD, NO_MEDIA_LIMIT, viewer_readiness, LEAD_WAIT_LIMIT, slate_secs, NANOS_PER_SECOND.
  intros Ht Hw. case_match; [by right|]. case_match.
  - rewrite (proj2 (Z.leb_le _ _)) by (unfold NO_MEDIA_LIMIT, slate_secs, NANOS_PER_SECOND; lia). by right.
  - left. case_match; [done|]. destruct (vs_lead status); repeat case_match; done || lia.
Qed.

(** ** The driver and its muxer *)

Definition is_splicing (live : LiveState) : bool := match live with Splicing _ => true | _ => false end.
Definition is_live (live : LiveState) : bool := match live with Live _ => true | _ => false end.

(** Who feeds the segments of the muxer.  The pending segment belongs to the
    incoming slate or to the live stream that is being spliced in, never to
    both; the current one to the active slate or to the live stream. *)
Record driver_inv (d : SlateDriver) : Prop := {
  di_muxer : mux_ok (dr_muxer d);
  di_target : dr_target d <= SLATE_START_LEAD;
  di_retry : 0 <= dr_retry d;
  di_pending : is_Some (mx_pending (dr_muxer d)) <-> is_Some (dr_incoming d) \/ is_splicing (dr_live d) = true;
  di_incoming : is_Some (dr_incoming d) -> is_splicing (dr_live d) = false /\ is_live (dr_live d) = false;
  di_live : is_live (dr_live d) = true -> dr_active d = None /\ dr_shown d = None;
  di_current : is_Some (dr_active d) \/ is_live (dr_live d) = true -> is_Some (mx_current (dr_muxer d));
  di_shown : forall slate, dr_incoming d = Some slate -> dr_shown d = Some (rs_kind slate);
  di_finished : dr_finished d = true -> is_live (dr_live d) = true;
}.

Lemma push_pending_segments m chunk m' out started :
  mux_ok m -> Forall is_u8 chunk -> is_Some (mx_pending m) -> push_pending m chunk = (m', out, started) ->
  if started then is_Some (mx_current m') /\ mx_pending m' = None
  else is_Some (mx_pending m') /\ mx_current m' = mx_current m.
Proof.
  intros Hm Hu [segment Hp]. unfold push_pending. rewrite Hp.
  destruct (pending_packets _ segment _) as [[m1 s1] o1] eqn:Ep.
  destruct (pending_packets_writes _ (set_segments m (mx_current m) None) _ _ _ _ (chunks_exact_packets _ Hu)
    (mo_pending _ Hm _ Hp) (mo_map _ Hm) Ep) as ((_ & _ & Hc & Hn) & _).
  case_match; intros [= <- <- <-]; cbn; auto.
Qed.

Lemma push_current_segments m chunk m' out :
  mux_ok m -> Forall is_u8 chunk -> push_current m chunk = (m', out) ->
  mx_pending m' = mx_pending m /\ (is_Some (mx_current m) -> is_Some (mx_current m')).
Proof.
  intros Hm Hu. unfold push_current. destruct (mx_current m) as [segment|] eqn:Hc; [|intros [= <- <-]; by rewrite Hc].
  destruct (current_packets _ segment _) as [[m1 s1] o1] eqn:Ep.
  destruct (current_packets_writes _ (set_segments m None (mx_pending m)) _ _ _ _ (chunks_exact_packets _ Hu)
    (mo_current _ Hm _ Hc) (mo_map _ Hm) Ep) as ((_ & _ & _ & Hn) & _).
  intros [= <- <-]. cbn. auto.
Qed.

(** *** What the sources deliver *)

(** The counters a decoder would keep of what was read of the active slate,
    of the incoming slate and of the live stream. *)
Record Reads := mkReads { r_active : gmap Z Z; r_incoming : gmap Z Z; r_live : gmap Z Z }.

(** The reads after an event; [None] when the source left a gap. *)
Definition reads_event (d : SlateDriver) (event : DriverEvent) (r : Reads) : option Reads :=
  match event with
  | EActive (Ok (Packets _ _ data)) =>
      s ← cc_run (r_active r) (chunks_exact MPEG_TS_PACKET_SIZE data);
      Some (mkReads s (r_incoming r) (r_live r))
  | EIncoming (Ok (Packets _ _ data)) =>
      s ← cc_run (r_incoming r) (chunks_exact MPEG_TS_PACKET_SIZE data);
      Some (mkReads (if snd (push_pending (dr_muxer d) data) then s else r_active r) s (r_live r))
  | ELive (Media (Some (Ok data))) =>
      s ← cc_run (r_live r) (chunks_exact MPEG_TS_PACKET_SIZE data);
      Some (mkReads (r_active r) (r_incoming r) s)
  | _ => Some r
  end.

(** A new slate process and a new live stream are read from their start. *)
Definition reads_turn (d : SlateDriver) (turn : Env * DriverEvent) (r : Reads) : option Reads :=
  let '(env, event) := turn in
  if dr_finished d then Some r
  else
    let '(d1, request) := ensure_slate env d in
    let r := match request with Some _ => mkReads (r_active r) ∅ (r_live r) | None => r end in
    if enabled d1 event then
      r ← reads_event d1 event r;
      let d2 := fst (on_event env d1 event) in
      Some (if negb (is_splicing (dr_live d1)) && is_splicing (dr_live d2)
            then mkReads (r_active r) (r_incoming r) ∅ else r)
    else Some r.

Fixpoint reads_run (d : SlateDriver) (turns : list (Env * DriverEvent)) (r : Reads) : option Reads :=
  match turns with
  | [] => Some r
  | turn :: turns => r ← reads_turn d turn r; reads_run (fst (driver_turn d turn)) turns r
  end.

(** The inputs of the muxer's segments are the reads of their sources. *)
Record feeds (d : SlateDriver) (r : Reads) (g : Inputs) : Prop := {
  fd_active : is_Some (dr_active d) -> in_current g = r_active r;
  fd_live : is_live (dr_live d) = true -> in_current g = r_live r;
  fd_incoming : is_Some (dr_incoming d) -> in_pending g = r_incoming r;
  fd_splicing : is_splicing (dr_live d) = true -> in_pending g = r_live r;
}.

Definition event_bytes (event : DriverEvent) : bytes :=
  match event with
  | EActive (Ok (Packets _ _ data)) | EIncoming (Ok (Packets _ _ data)) | ELive (Media (Some (Ok data))) => data
  | _ => []
  end.

(** A step of the driver is a sequence of calls of the muxer, which keeps the
    sources of the segments apart. *)
Definition drives (d d' : SlateDriver) (out : bytes) (reads : Reads -> option Reads) : Prop :=
  driver_inv d' /\
  exists ops, Forall (fun op => Forall is_u8 (op_bytes op)) ops /\
    mux_run (dr_muxer d) ops = (dr_muxer d', out) /\
    forall r g r', feeds d r g -> reads r = Some r' ->
      exists g', inputs_run (dr_muxer d) g ops = Some g' /\ feeds d' r' g'.

(** A step that does not call the muxer. *)
Lemma drives_none d d' (reads : Reads -> option Reads) :
  driver_inv d' -> dr_muxer d' = dr_muxer d ->
  (forall r g r', feeds d r g -> reads r = Some r' -> feeds d' r' g) -> drives d d' [] reads.
Proof.
  intros Hi Hm Hf. split; [done|]. exists []. split; [constructor|]. split; [by rewrite Hm|].
  intros r g r' Hr He. exists g. split; [done|]. by eapply Hf.
Qed.

(** A step that calls it once. *)
Lemma drives_one d d' out op (reads : Reads -> option Reads) :
  driver_inv d' -> Forall is_u8 (op_bytes op) -> mux_step (dr_muxer d) op = (dr_muxer d', out) ->
  (forall r g r', feeds d r g -> reads r = Some r' ->
     exists g', inputs_step (dr_muxer d) g op = Some g' /\ feeds d' r' g') ->
  drives d d' out reads.
Proof.
  intros Hi Hu Hs Hf. split; [done|]. exists [op]. split; [by constructor|]. cbn [mux_run inputs_run]. rewrite Hs.
  split; [by rewrite app_nil_r|]. intros r g r' Hr He. destruct (Hf r g r' Hr He) as (g' & -> & Hg'). by exists g'.
Qed.

Lemma mux_run_app m a b :
  mux_run m (a ++ b) =
  let '(m1, o1) := mux_run m a in let '(m2, o2) := mux_run m1 b in (m2, o1 ++ o2).
Proof.
  revert m. induction a as [|op a IH]; intros m; cbn [mux_run app].
  - by destruct (mux_run m b).
  - destruct (mux_step m op) as [m1 o1]. rewrite IH. destruct (mux_run m1 a) as [m2 o2].
    destruct (mux_run m2 b) as [m3 o3]. by rewrite app_assoc.
Qed.

Lemma inputs_run_app m g a b :
  inputs_run m g (a ++ b) = (g ← inputs_run m g a; inputs_run (fst (mux_run m a)) g b).
Proof.
  revert m g. induction a as [|op a IH]; intros m g; cbn [mux_run inputs_run app]; [done|].
  destruct (inputs_step m g op) as [g1|]; cbn; [|done]. rewrite IH.
  destruct (mux_step m op) as [m1 o1]. cbn [fst]. by destruct (mux_run m1 a).
Qed.

Lemma drives_trans d1 d2 d3 o1 o2 f1 f2 f :
  drives d1 d2 o1 f1 -> drives d2 d3 o2 f2 -> (forall r, f r = (r ← f1 r; f2 r)) ->
  drives d1 d3 (o1 ++ o2) f.
Proof.
  intros (_ & p1 & U1 & R1 & F1) (I2 & p2 & U2 & R2 & F2) Hf. split; [done|]. exists (p1 ++ p2).
  rewrite Forall_app, mux_run_app, R1, R2. split; [done|]. split; [done|]. intros r g r' Hr He.
  rewrite Hf in He. apply bind_Some in He as (r1 & He1 & He2).
  destruct (F1 r g r1 Hr He1) as (g1 & G1 & Hg1). destruct (F2 r1 g1 r' Hg1 He2) as (g2 & G2 & Hg2).
  exists g2. by rewrite inputs_run_app, G1, R1.
Qed.

(** *** The handlers *)

(** The fields of the invariant that a step does not touch. *)
Ltac driver :=
  cbn; intros;
  repeat match goal with
  | H : @is_Some _ None |- _ => by destruct H
  | H : Some _ = Some _ |- _ => injection H as <-; cbn
  | H : _ \/ _ |- _ => destruct H
  | H : _ /\ _ |- _ => destruct H
  | |- _ <-> _ => split; intros
  | |- _ /\ _ => split
  end; try done; try (by eexists); try congruence; eauto; try tauto; try (left; by eexists).

Lemma drives_same d : driver_inv d -> drives d d [] Some.
Proof. intros Hi. apply drives_none; [done|done|]. by intros r g r' Hr [= <-]. Qed.

Lemma mux_op_ok m op : mux_ok m -> Forall is_u8 (op_bytes op) -> mux_ok (fst (mux_step m op)).
Proof. intros. by apply mux_step_good. Qed.

Lemma ensure_slate_drives env d :
  driver_inv d ->
  drives d (fst (ensure_slate env d)) []
    (fun r => Some match snd (ensure_slate env d) with
                   | Some _ => mkReads (r_active r) ∅ (r_live r)
                   | None => r
                   end).
Proof.
  intros Hi. pose proof (drives_same d Hi) as Hsame.
  unfold ensure_slate. destruct (desired_slate d) as [kind|] eqn:Ed; [|done].
  case_bool_decide as Es; [done|]. case_match; [done|].
  assert (is_splicing (dr_live d) = false /\ is_live (dr_live d) = false) as [Hsp Hlv].
  { unfold desired_slate in Ed. destruct (dr_live d); done || congruence. }
  destruct Hi as [Hm Ht Hr Hp Hin Hl Hc Hsh Hf]. destruct (env_process env) as [process|]; cbn [fst snd].
  - apply (drives_one _ _ _ BeginPending); [|constructor|done|].
    + split; driver. apply (mux_op_ok (dr_muxer d) BeginPending Hm (Forall_nil_2 _)).
    + intros r g r' [Fa Fl Fi Fs] [= <-]. eexists. split; [done|]. split; driver.
  - apply (drives_one _ _ _ CancelPending); [|constructor|done|].
    + split; driver. apply (mux_op_ok (dr_muxer d) CancelPending Hm (Forall_nil_2 _)).
    + intros r g r' [Fa Fl Fi Fs] [= <-]. eexists. split; [done|]. split; driver.
Qed.

Lemma on_active_read_drives d read :
  driver_inv d -> is_Some (dr_active d) -> Forall is_u8 (event_bytes (EActive read)) ->
  drives d (fst (on_active_read d read)) (snd (on_active_read d read)) (reads_event d (EActive read)).
Proof.
  intros Hi Ha Hu. pose proof (drives_same d Hi) as Hsame. destruct Hi as [Hm Ht Hr Hp Hin Hl Hc Hsh Hf].
  assert (drives d (set_slates d None (dr_incoming d) (if bool_decide (dr_incoming d = None) then None else dr_shown d)) []
    Some) as Hclosed.
  { apply drives_none; [|done|].
    - split; driver.
      + destruct (Hl ltac:(done)) as [_ ->]. by case_match.
      + rewrite bool_decide_eq_false_2 by congruence. by apply Hsh.
    - intros r g r' [Fa Fl Fi Fs] [= <-]. split; driver. }
  destruct read as [[gen first data|gen skipped resume|prev gen|gen reason]|error]; try done.
  cbn [on_active_read event_bytes] in *. destruct (push_current (dr_muxer d) data) as [muxer out] eqn:E. cbn [fst snd].
  destruct (push_current_segments _ _ _ _ Hm Hu E) as [Hpe Hcu].
  pose proof (mux_op_ok (dr_muxer d) (PushCurrent data) Hm Hu) as Hg. cbn [mux_step] in Hg. rewrite E in Hg.
  apply (drives_one _ _ _ (PushCurrent data)); [|done|done|].
  - split; driver; rewrite ?Hpe in *; tauto.
  - intros r g r' [Fa Fl Fi Fs] He. cbn in He. apply bind_Some in He as (s & He & [= <-]).
    cbn [inputs_step]. rewrite (Fa Ha), He. cbn. eexists. split; [done|]. split; driver.
    destruct (Hl ltac:(done)) as [Hx _]. rewrite Hx in Ha. by destruct Ha.
Qed.

Lemma on_incoming_read_drives d read :
  driver_inv d -> is_Some (dr_incoming d) -> Forall is_u8 (event_bytes (EIncoming read)) ->
  drives d (fst (on_incoming_read d read)) (snd (on_incoming_read d read)) (reads_event d (EIncoming read)).
Proof.
  intros Hi Ha Hu. pose proof (drives_same d Hi) as Hsame. destruct Hi as [Hm Ht Hr Hp Hin Hl Hc Hsh Hf].
  destruct (Hin Ha) as [Hsp Hlv].
  assert (drives d (set_slates (set_muxer d (cancel_pending (dr_muxer d))) (dr_active d) None (rs_kind <$> dr_active d)) [] Some) as Hclosed.
  { apply (drives_one _ _ _ CancelPending); [|constructor|done|].
    - split; driver. apply (mux_op_ok (dr_muxer d) CancelPending Hm (Forall_nil_2 _)).
    - intros r g r' [Fa Fl Fi Fs] [= <-]. eexists. split; [done|]. split; driver. }
  destruct read as [[gen first data|gen skipped resume|prev gen|gen reason]|error]; try done.
  cbn [on_incoming_read event_bytes] in *. destruct (push_pending (dr_muxer d) data) as [[muxer out] started] eqn:E.
  cbn [fst snd]. pose proof (push_pending_segments _ _ _ _ _ Hm Hu ltac:(apply Hp; by left) E) as Hseg.
  pose proof (mux_op_ok (dr_muxer d) (PushPending data) Hm Hu) as Hg. cbn [mux_step] in Hg. rewrite E in Hg. cbn [fst] in Hg.
  assert (forall r r', reads_event d (EIncoming (Ok (Packets gen first data))) r = Some r' ->
    exists s, cc_run (r_incoming r) (chunks_exact MPEG_TS_PACKET_SIZE data) = Some s /\
      r' = mkReads (if started then s else r_active r) s (r_live r)) as Hread.
  { intros r r' He. cbn [reads_event] in He. apply bind_Some in He as (s & He & Hr'). rewrite E in Hr'. cbn in Hr'.
    injection Hr' as <-. by exists s. }
  destruct started; destruct Hseg as [Hs1 Hs2];
    (apply (drives_one _ _ _ (PushPending data)); [|done|cbn [mux_step]; by rewrite E|]).
  - split; driver.
    + rewrite Hs2 in *. by driver.
  - intros r g r' [Fa Fl Fi Fs] He. destruct (Hread _ _ He) as (s & He' & ->). cbn [inputs_step].
    rewrite (Fi Ha), He', E. cbn. eexists. split; [done|]. split; driver.
  - split; driver. rewrite Hs2. tauto.
  - intros r g r' [Fa Fl Fi Fs] He. destruct (Hread _ _ He) as (s & He' & ->). cbn [inputs_step].
    rewrite (Fi Ha), He', E. cbn. eexists. split; [done|]. split; driver.
Qed.

(** A live stream takes the pending segment. *)
Lemma begin_splice_drives d viewer (reads : Reads -> option Reads) :
  driver_inv d -> is_live (dr_live d) = false ->
  (forall r r', reads r = Some r' -> r_active r' = r_active r /\ r_live r' = ∅) ->
  dr_finished d = false -> drives d (begin_splice d viewer) [] reads.
Proof.
  intros [Hm Ht Hr Hp Hin Hl Hc Hsh Hf] Hlv Hreads Hfin.
  apply (drives_one _ _ _ BeginPending); [|constructor|done|].
  - split; driver. apply (mux_op_ok (dr_muxer d) BeginPending Hm (Forall_nil_2 _)).
  - intros r g r' [Fa Fl Fi Fs] He. destruct (Hreads _ _ He) as [H1 H2].
    eexists. split; [done|]. split; driver. rewrite H1. auto.
Qed.

(** The live stream is given up and retried later. *)
Lemma fail_live_drives env d failure :
  driver_inv d -> dr_finished d = false -> drives d (fail_live env d failure) [] Some.
Proof.
  intros [Hm Ht Hr Hp Hin Hl Hc Hsh Hf] Hfin. unfold fail_live.
  pose proof (proj2 (next_delay_bound (dr_retry d) failure Hr)) as Hn.
  destruct (is_splicing (dr_live d)) eqn:Es.
  - destruct (dr_live d) eqn:El; try done. cbn [dr_retry set_muxer].
    destruct (next_delay (dr_retry d) failure) as [retry delay]. cbn [fst] in Hn.
    apply (drives_one _ _ _ CancelPending); [|constructor|done|].
    + split; driver; [apply (mux_op_ok (dr_muxer d) CancelPending Hm (Forall_nil_2 _))|].
      exfalso. by destruct (Hin ltac:(done)).
    + intros r g r' [Fa Fl Fi Fs] [= <-]. eexists. split; [done|]. split; driver.
      exfalso. by destruct (Hin ltac:(done)).
  - replace (match dr_live d with Splicing _ => set_muxer d (cancel_pending (dr_muxer d)) | _ => d end) with d
      by (by destruct (dr_live d)).
    destruct (next_delay (dr_retry d) failure) as [retry delay]. cbn [fst] in Hn.
    apply drives_none; [|done|].
    + split; driver.
    + intros r g r' [Fa Fl Fi Fs] [= <-]. split; driver.
Qed.

(** The reads of a turn that may start a live stream. *)
Definition reads_splice (d d' : SlateDriver) (r : Reads) : Reads :=
  if negb (is_splicing (dr_live d)) && is_splicing (dr_live d')
  then mkReads (r_active r) (r_incoming r) ∅ else r.

Lemma drives_weaken d d' out (f f' : Reads -> option Reads) :
  drives d d' out f -> (forall r, f' r = f r) -> drives d d' out f'.
Proof.
  intros (Hi & ops & Hu & Hm & Hf) He. split; [done|]. exists ops. split; [done|]. split; [done|].
  intros r g r' Hr Hx. rewrite He in Hx. by eapply Hf.
Qed.

Lemma begin_splice_turn d viewer :
  driver_inv d -> is_live (dr_live d) = false -> is_splicing (dr_live d) = false -> dr_finished d = false ->
  drives d (begin_splice d viewer) [] (fun r => Some (reads_splice d (begin_splice d viewer) r)).
Proof.
  intros Hi Hl Hs Hf. apply begin_splice_drives; try done. intros r r' [= <-].
  unfold reads_splice. by rewrite Hs.
Qed.

Lemma fail_live_turn env d failure :
  driver_inv d -> dr_finished d = false ->
  drives d (fail_live env d failure) [] (fun r => Some (reads_splice d (fail_live env d failure) r)).
Proof.
  intros Hi Hf. eapply drives_weaken; [by apply fail_live_drives|]. intros r. cbv beta. f_equal. unfold reads_splice.
  replace (is_splicing (dr_live (fail_live env d failure))) with false; [by rewrite andb_false_r|].
  unfold fail_live. by destruct (next_delay _ failure).
Qed.

Lemma drives_keep d d' out (f : Reads -> option Reads) :
  drives d d' out f -> is_splicing (dr_live d) = true \/ is_splicing (dr_live d') = false ->
  drives d d' out (fun r => r ← f r; Some (reads_splice d d' r)).
Proof.
  intros Hd Hs. eapply drives_weaken; [exact Hd|]. intros r. cbv beta. destruct (f r) as [x|]; [|done]. cbn. f_equal.
  unfold reads_splice. by destruct Hs as [-> | ->]; rewrite ?andb_false_r.
Qed.

Lemma media_drives d data :
  driver_inv d -> dr_finished d = false -> enabled d (ELive (Media (Some (Ok data)))) = true -> Forall is_u8 data ->
  forall env, let event := ELive (Media (Some (Ok data))) in
  drives d (fst (on_event env d event)) (snd (on_event env d event)) (reads_event d event) /\
  (is_splicing (dr_live d) = true \/ is_splicing (dr_live (fst (on_event env d event))) = false).
Proof.
  intros [Hm Ht Hr Hp Hin Hl Hc Hsh Hf] Hfin He Hu env event. unfold event. cbn [on_event on_live_event].
  assert (forall r r', reads_event d event r = Some r' ->
    exists s, cc_run (r_live r) (chunks_exact MPEG_TS_PACKET_SIZE data) = Some s /\
      r' = mkReads (r_active r) (r_incoming r) s) as Hread.
  { intros r r' Hx. cbn in Hx. apply bind_Some in Hx as (s & Hx & [= <-]). by exists s. }
  cbn [enabled] in He. destruct (dr_live d) as [|v t|t f|stream|stream] eqn:El; try done.
  - split; [|by left]. destruct (push_pending (dr_muxer d) data) as [[muxer out] started] eqn:E. cbn [fst snd].
    pose proof (push_pending_segments _ _ _ _ _ Hm Hu ltac:(apply Hp; by right) E) as Hseg.
    pose proof (mux_op_ok (dr_muxer d) (PushPending data) Hm Hu) as Hg. cbn [mux_step] in Hg. rewrite E in Hg. cbn [fst] in Hg.
    destruct started; destruct Hseg as [Hs1 Hs2];
      (apply (drives_one _ _ _ (PushPending data)); [|done|cbn [mux_step]; by rewrite E|]).
    + split; cbn; try done; driver. rewrite Hs2 in *. driver.
    + intros r g r' [Fa Fl Fi Fs] Hx. destruct (Hread _ _ Hx) as (s & Hx' & ->). cbn [inputs_step].
      rewrite Fs by (by rewrite El). rewrite Hx', E. cbn. eexists. split; [done|]. split; driver.
    + split; cbn; rewrite ?El; try done; [split; [intros _; by right|done]|by rewrite Hs2].
    + intros r g r' [Fa Fl Fi Fs] Hx. destruct (Hread _ _ Hx) as (s & Hx' & ->). cbn [inputs_step].
      rewrite Fs by (by rewrite El). rewrite Hx', E. cbn. eexists. split; [done|]. split; cbn; rewrite ?El; try done.
      intros Hx''. by destruct (Hin Hx'').
  - destruct (push_current (dr_muxer d) data) as [muxer out] eqn:E. cbn [fst snd].
    split; [|right; by cbn; rewrite El]. destruct (push_current_segments _ _ _ _ Hm Hu E) as [Hpe Hcu].
    pose proof (mux_op_ok (dr_muxer d) (PushCurrent data) Hm Hu) as Hg. cbn [mux_step] in Hg. rewrite E in Hg.
    apply (drives_one _ _ _ (PushCurrent data)); [|done|done|].
    + split; cbn; rewrite ?El, ?Hpe; try done; tauto.
    + intros r g r' [Fa Fl Fi Fs] Hx. destruct (Hread _ _ Hx) as (s & Hx' & ->). cbn [inputs_step].
      rewrite Fl by (by rewrite El). rewrite Hx'. cbn. eexists. split; [done|]. split; cbn; rewrite ?El; try done.
      intros Ha. destruct (Hl eq_refl) as [Hn _]. rewrite Hn in Ha. by destruct Ha.
Qed.
