(* ===== verification/SlateRun.v ===== *)
(** * Runs of the slate driver

    Every turn of the driver of [slate.rs] is a sequence of calls of its muxer
    that keeps the sources of the two segments apart; with the theorems on the
    muxer this gives the promises of the slated stream.  No wait of the driver
    is longer than its limit. *)
From Stdlib Require Import ZArith Lia.
From stdpp Require Import base numbers option strings gmap.
From stdpp Require Import list.
From S2P Require Import Prelude Psi Pacing Broker Ring Viewer Splice SpliceSpec SpliceTables SpliceRun.
From S2P Require Import SpliceContinuity Slate SlateSpec.
Open Scope Z_scope.

Lemma on_event_drives env d event :
  driver_inv d -> dr_finished d = false -> enabled d event = true -> Forall is_u8 (event_bytes event) ->
  drives d (fst (on_event env d event)) (snd (on_event env d event))
    (fun r => r ← reads_event d event r; Some (reads_splice d (fst (on_event env d event)) r)).
Proof.
  intros Hi Hf He Hu. destruct event as [read|read|[[viewer|error]|[[data|error]|]]|]; cbn [on_event].
  - cbn in He. apply bool_decide_eq_true in He. apply drives_keep; [by apply on_active_read_drives|].
    destruct (is_splicing (dr_live d)) eqn:E; [by left|right]. unfold on_active_read. rewrite <- E.
    destruct read as [[]|]; try done. by destruct (push_current _ _).
  - cbn in He. apply bool_decide_eq_true in He. apply drives_keep; [by apply on_incoming_read_drives|].
    destruct (is_splicing (dr_live d)) eqn:E; [by left|right]. unfold on_incoming_read. rewrite <- E.
    destruct read as [[]|]; try done. by destruct (push_pending _ _) as [[? ?] []].
  - cbn [enabled] in He. destruct (dr_live d) eqn:El; try done. cbn [on_live_event fst snd reads_event].
    destruct (viewer_readiness _ _ _) as [|remaining|].
    + apply begin_splice_turn; by rewrite ?El.
    + eapply drives_weaken; [|intros r; cbn; unfold reads_splice; cbn; by rewrite andb_false_r].
      destruct Hi as [Hm Ht Hr Hp Hin Hl Hc Hsh Hfi]. apply drives_none; [|done|].
      * split; cbn; rewrite ?El in *; done.
      * intros r g r' [Fa Fl Fi Fs] [= <-]. split; cbn; rewrite ?El in *; done.
    + by apply fail_live_turn.
  - by apply fail_live_turn.
  - destruct (media_drives d data Hi Hf He Hu env) as [Hd Hs]. by apply drives_keep.
  - by apply fail_live_turn.
  - cbn [on_live_event fst snd reads_event]. cbn [enabled] in He.
    destruct (dr_live d) eqn:El; try done; [by apply fail_live_turn|].
    eapply drives_weaken; [|intros r; cbn; unfold reads_splice; cbn; by rewrite El].
    destruct Hi as [Hm Ht Hr Hp Hin Hl Hc Hsh Hfi]. apply drives_none; [|done|].
    + split; cbn; rewrite ?El in *; done.
    + intros r g r' [Fa Fl Fi Fs] [= <-]. split; cbn; rewrite ?El in *; done.
  - cbn [fst snd reads_event]. unfold on_tick.
    assert (forall live, dr_live d = live -> drives d d [] (fun r => r ← Some r; Some (reads_splice d d r))) as Hsame.
    { intros live _. eapply drives_weaken; [by apply drives_same|]. intros r. cbn. unfold reads_splice.
      by destruct (is_splicing (dr_live d)). }
    destruct (dr_live d) as [|viewer since|retry_at failure|stream|stream] eqn:El; try by apply (Hsame _ eq_refl).
    + destruct (viewer_readiness _ _ _) as [|remaining|]; [apply begin_splice_turn; by rewrite ?El|by apply (Hsame _ eq_refl)|].
      by apply fail_live_turn.
    + case_match; [|by apply (Hsame _ eq_refl)].
      eapply drives_weaken; [|intros r; cbn; unfold reads_splice; cbn; by rewrite andb_false_r].
      destruct Hi as [Hm Ht Hr Hp Hin Hl Hc Hsh Hfi]. apply drives_none; [|done|].
      * split; cbn; rewrite ?El in *; done.
      * intros r g r' [Fa Fl Fi Fs] [= <-]. split; cbn; rewrite ?El in *; done.
Qed.

Lemma ensure_slate_finished env d : dr_finished (fst (ensure_slate env d)) = dr_finished d.
Proof.
  unfold ensure_slate. destruct (desired_slate d); [|done]. case_match; [done|]. case_match; [done|].
  by destruct (env_process env).
Qed.

Lemma driver_turn_drives d turn :
  driver_inv d -> Forall is_u8 (event_bytes (snd turn)) ->
  drives d (fst (driver_turn d turn)) (snd (driver_turn d turn)) (reads_turn d turn).
Proof.
  intros Hi Hu. destruct turn as [env event]. cbn [snd] in Hu. unfold driver_turn, reads_turn.
  destruct (dr_finished d) eqn:Hf; [by apply drives_same|].
  pose proof (ensure_slate_drives env d Hi) as H1. pose proof (ensure_slate_finished env d) as Hf1.
  destruct (ensure_slate env d) as [d1 request]. cbn [fst snd] in *.
  destruct (enabled d1 event) eqn:He; [|done].
  pose proof (on_event_drives env d1 event (proj1 H1) ltac:(congruence) He Hu) as H2.
  destruct (on_event env d1 event) as [d2 out]. cbn [fst snd] in *.
  apply (drives_trans d d1 d2 [] out _ _ _ H1 H2). by intros r.
Qed.

Lemma driver_run_drives turns d :
  driver_inv d -> Forall (fun turn => Forall is_u8 (event_bytes (snd turn))) turns ->
  drives d (fst (driver_run d turns)) (snd (driver_run d turns)) (reads_run d turns).
Proof.
  intros Hi Hu. revert d Hi. induction Hu as [|turn turns Ht Hts IH]; intros d Hi; [by apply drives_same|].
  cbn [driver_run]. pose proof (driver_turn_drives d turn Hi Ht) as H1.
  specialize (IH (fst (driver_turn d turn)) (proj1 H1)).
  assert (forall r, reads_run d (turn :: turns) r = (r ← reads_turn d turn r; reads_run (fst (driver_turn d turn)) turns r)) as Hr by done.
  destruct (driver_turn d turn) as [d1 o1]. cbn [fst snd] in *.
  destruct (driver_run d1 turns) as [d2 o2]. by eapply drives_trans.
Qed.

(** ** Opening *)

Lemma driver_new_inv target retry live :
  target <= SLATE_START_LEAD -> 0 <= retry -> is_splicing live = false -> is_live live = false ->
  driver_inv (driver_new target retry live).
Proof.
  intros Ht Hr Hs Hl. pose proof muxer_new_ok. split; driver.
Qed.

Lemma open_driver_inv delay start grace first at_ polls d :
  0 <= delay -> open_with_slates delay start grace first at_ polls = Some (Slated d) ->
  driver_inv d /\ dr_muxer d = muxer_new /\ dr_active d = None /\ dr_incoming d = None /\ dr_finished d = false.
Proof.
  intros Hd. pose proof (start_lead_target_bound delay Hd) as [_ Ht]. unfold open_with_slates.
  assert (forall retry live, driver_new (start_lead_target delay) retry live = d -> 0 <= retry ->
    is_splicing live = false -> is_live live = false ->
    driver_inv d /\ dr_muxer d = muxer_new /\ dr_active d = None /\ dr_incoming d = None /\ dr_finished d = false) as Hnew.
  { intros retry live <- Hr Hs Hl. split; [by apply driver_new_inv|done]. }
  destruct first as [[viewer|error]|].
  - generalize (start + grace). intros deadline. induction polls as [|[now status] polls IH]; cbn [poll_viewer]; [done|].
    destruct (viewer_readiness _ _ _) as [|remaining|]; [done| |].
    + case_match; [|done]. intros [= Hx]. by apply (Hnew _ _ Hx).
    + cbn [next_delay]. intros [= Hx]. by apply (Hnew _ _ Hx).
  - case_bool_decide; [done|]. pose proof (next_delay_bound 0 (classify error) ltac:(lia)) as [_ Hn].
    destruct (next_delay 0 (classify error)) as [retry delay']. intros [= Hx]. by apply (Hnew _ _ Hx).
  - intros [= Hx]. by apply (Hnew _ _ Hx).
Qed.

(** ** Properties *)

(** C9. Slated stream, type: whatever the provider, the slate processes and the
    clock do, the bytes of a slated response are whole transport packets on
    the muxer's PIDs, and in every state the pending segment of the muxer
    belongs to exactly one source: an incoming slate or the live stream. *)
Theorem slated_stream_typed delay start grace first at_ polls d turns :
  0 <= delay -> open_with_slates delay start grace first at_ polls = Some (Slated d) ->
  Forall (fun turn => Forall is_u8 (event_bytes (snd turn))) turns ->
  let '(d', out) := driver_run d turns in
  zlen out mod MPEG_TS_PACKET_SIZE = 0 /\
  Forall good_packet (chunks_exact MPEG_TS_PACKET_SIZE out) /\
  (has_pending (dr_muxer d') = true <-> is_Some (dr_incoming d') \/ is_splicing (dr_live d') = true) /\
  ~ (is_Some (dr_incoming d') /\ is_splicing (dr_live d') = true) /\
  ~ (is_Some (dr_active d') /\ is_live (dr_live d') = true).
Proof.
  intros Hd Ho Hu. destruct (open_driver_inv _ _ _ _ _ _ _ Hd Ho) as (Hi & Hm & _).
  destruct (driver_run_drives turns d Hi Hu) as (Hi' & ops & Hops & Hrun & _).
  destruct (driver_run d turns) as [d' out]. cbn [fst snd] in *. rewrite Hm in Hrun.
  destruct (mux_run_good ops muxer_new muxer_new_ok Hops) as [_ Hg]. rewrite Hrun in Hg.
  destruct (good_chunks _ Hg) as [Hl Hc]. split; [done|]. split; [done|]. destruct Hi' as [_ _ _ Hp Hin Hlv _ _ _]. split; [|split].
  - unfold has_pending. by rewrite bool_decide_eq_true.
  - intros [Hx Hy]. destruct (Hin Hx). congruence.
  - intros [Hx Hy]. destruct (Hlv Hy) as [Hn _]. rewrite Hn in Hx. by destruct Hx.
Qed.

(** C6. Slated stream, continuity: when what is read of each slate process and of
    each live stream is continuous, the whole response is, over every change
    of slate, splice and retry. *)
Theorem slated_stream_continuous delay start grace first at_ polls d turns :
  0 <= delay -> open_with_slates delay start grace first at_ polls = Some (Slated d) ->
  Forall (fun turn => Forall is_u8 (event_bytes (snd turn))) turns ->
  is_Some (reads_run d turns (mkReads ∅ ∅ ∅)) ->
  is_Some (cc_run ∅ (chunks_exact MPEG_TS_PACKET_SIZE (snd (driver_run d turns)))).
Proof.
  intros Hd Ho Hu [r Hr]. destruct (open_driver_inv _ _ _ _ _ _ _ Hd Ho) as (Hi & Hm & Ha & Hin & Hf).
  destruct (driver_run_drives turns d Hi Hu) as (Hi' & ops & Hops & Hrun & Hfeeds).
  destruct (Hfeeds (mkReads ∅ ∅ ∅) (mkInputs ∅ ∅) r) as (g & Hg & _); [by split|done|].
  rewrite Hm in *. pose proof (mux_output_continuous ops Hops ltac:(by eexists)) as H. by rewrite Hrun in H.
Qed.

Lemma ensure_slate_live env d :
  dr_live (fst (ensure_slate env d)) = dr_live d /\ dr_target (fst (ensure_slate env d)) = dr_target d /\
  dr_retry (fst (ensure_slate env d)) = dr_retry d.
Proof.
  unfold ensure_slate. destruct (desired_slate d); [|done]. case_match; [done|]. case_match; [done|].
  by destruct (env_process env).
Qed.

(** The next step of a driver that failed is an attempt within the limit. *)
Definition retries_by (deadline : Z) (live : LiveState) : Prop :=
  match live with LiveIdle retry_at _ => retry_at <= deadline | _ => False end.

Lemma fail_live_retries env d failure :
  0 <= dr_retry d -> retries_by (env_now env + PROVIDER_RETRY_MAX) (dr_live (fail_live env d failure)).
Proof.
  intros Hr. unfold fail_live. pose proof (next_delay_bound (dr_retry d) failure Hr) as [[_ Hb] _].
  replace (dr_retry (match dr_live d with Splicing _ => set_muxer d (cancel_pending (dr_muxer d)) | _ => d end))
    with (dr_retry d) by (by destruct (dr_live d)).
  destruct (next_delay (dr_retry d) failure) as [retry delay]. cbn [snd] in Hb. cbn. lia.
Qed.

Local Arguments fail_live : simpl never.

(** C8. Bounded waits: a driver in any state it can reach does not wait for
    media longer than half a minute (the first tick after that starts the
    splice or a retry), does not wait for a retry longer than half a minute
    (each failure, of any event, sets a retry within it), and makes the
    attempt at the first tick that is due. *)
Theorem driver_waits_bounded delay start grace first at_ polls d0 turns d env :
  0 <= delay -> open_with_slates delay start grace first at_ polls = Some (Slated d0) ->
  Forall (fun turn => Forall is_u8 (event_bytes (snd turn))) turns ->
  d = fst (driver_run d0 turns) -> dr_finished d = false ->
  (forall viewer since, dr_live d = Waiting viewer since -> since + NO_MEDIA_LIMIT <= env_now env ->
     let live := dr_live (fst (driver_turn d (env, ETick))) in
     live = Splicing viewer \/ retries_by (env_now env + PROVIDER_RETRY_MAX) live) /\
  (forall retry_at failure, dr_live d = LiveIdle retry_at failure -> retry_at <= env_now env ->
     dr_live (fst (driver_turn d (env, ETick))) = Opening) /\
  (forall event retry_at failure,
     dr_live (fst (driver_turn d (env, event))) = LiveIdle retry_at failure ->
     dr_live d = LiveIdle retry_at failure \/ retry_at <= env_now env + PROVIDER_RETRY_MAX).
Proof.
  intros Hd Ho Hu -> Hfin. destruct (open_driver_inv _ _ _ _ _ _ _ Hd Ho) as (Hi0 & _).
  destruct (driver_run_drives turns d0 Hi0 Hu) as [Hi _]. set (d := fst (driver_run d0 turns)) in *.
  destruct (ensure_slate_live env d) as (Hl & Ht & Hr). pose proof (di_target _ Hi) as Htar. pose proof (di_retry _ Hi) as Hret.
  unfold driver_turn. rewrite Hfin. set (d1 := fst (ensure_slate env d)) in *.
  rewrite <- Ht in Htar. rewrite <- Hr in Hret. cbn [enabled on_event fst]. unfold on_tick. rewrite Hl. split; [|split].
  - intros viewer since Hw Hn. rewrite Hw.
    destruct (readiness_decided (dr_target d1) (env_status env) (elapsed (env_now env) since) Htar) as [-> | ->].
    + unfold elapsed, sat_sub, NO_MEDIA_LIMIT in *. lia.
    + by left.
    + right. by apply fail_live_retries.
  - intros retry_at failure Hw Hn. rewrite Hw. by rewrite (proj2 (Z.leb_le _ _) Hn).
  - assert (forall failure retry_at f, dr_live (fail_live env d1 failure) = LiveIdle retry_at f ->
      retry_at <= env_now env + PROVIDER_RETRY_MAX) as Hfail.
    { intros failure retry_at f Hx. pose proof (fail_live_retries env d1 failure Hret) as H. by rewrite Hx in H. }
    assert (forall d2 retry_at failure, dr_live d2 = dr_live d1 -> dr_live d2 = LiveIdle retry_at failure ->
      dr_live d = LiveIdle retry_at failure \/ retry_at <= env_now env + PROVIDER_RETRY_MAX) as Hkeep.
    { intros d2 retry_at failure H1 H2. left. congruence. }
    intros event retry_at failure. destruct (enabled d1 event); [|by apply Hkeep].
    destruct event as [read|read|[[viewer|error]|[[data|error]|]]|]; cbn [on_event fst on_live_event].
    + apply Hkeep. unfold on_active_read. destruct read as [[]|]; try done. by destruct (push_current _ _).
    + apply Hkeep. unfold on_incoming_read. destruct read as [[]|]; try done. by destruct (push_pending _ _) as [[? ?] []].
    + destruct (viewer_readiness _ _ _); cbn; [done|done|]. intros Hx. right. by eapply Hfail.
    + intros Hx. right. by eapply Hfail.
    + destruct (dr_live d1) eqn:El; [| | |destruct (push_pending _ _) as [[? ?] []]|]; try destruct (push_current _ _);
        cbn; rewrite ?El; try done. intros Hx. left. congruence.
    + intros Hx. right. by eapply Hfail.
    + destruct (dr_live d1) eqn:El; cbn; rewrite ?El; try done; intros Hx; right; by eapply Hfail.
    + unfold on_tick. destruct (dr_live d1) eqn:El; cbn; rewrite ?El; try done.
      * destruct (viewer_readiness _ _ _); cbn; rewrite ?El; try done. intros Hx. right. by eapply Hfail.
      * case_match; cbn; [done|]. rewrite El. intros [= -> ->]. left. congruence.
Qed.

Lemma poll_decides target deadline viewer since polls :
  Exists (fun poll => deadline <= fst poll) polls ->
  exists r, poll_viewer target deadline viewer since polls = Some r /\ forall error, r <> OpenFailed error.
Proof.
  intros Hp. induction polls as [|[now status] polls IH]; [by apply Exists_nil in Hp|]. cbn [poll_viewer].
  destruct (viewer_readiness _ _ _) as [|remaining|].
  - by eexists.
  - destruct (Z.leb_spec deadline now); [by eexists|]. apply IH. apply Exists_cons in Hp as [Hp | Hp]; [cbn in Hp; lia|done].
  - cbn [next_delay]. by eexists.
Qed.

(** The errors of the relay's own configuration, which no retry mends. *)
Definition relay_error (error : SessionStartError) : Prop :=
  (exists pool, error = UnknownProvider pool) \/ error = Provider LeaseIdExhausted \/
  error = ProcessInputRequiresProcessAdapter.

Lemma classify_configuration error : classify error = FailConfiguration <-> relay_error error.
Proof.
  unfold relay_error. destruct error as [pool|[]| | | |]; cbn; split;
    try done; try (intros (? & ?) || intros [(? & ?) | [? | ?]]); naive_solver.
Qed.

(** Opening with slates: the call returns at the latest with the first poll
    at the end of the grace time, and it returns an error exactly when the
    first attempt failed by the relay's own configuration: a full pool, a
    provider error, a timeout or a process error give a slated stream. *)
Theorem open_fails_only_on_configuration delay start grace first at_ polls :
  (forall viewer, first = Some (Ok viewer) -> Exists (fun poll => start + grace <= fst poll) polls) ->
  exists r, open_with_slates delay start grace first at_ polls = Some r /\
    forall error, r = OpenFailed error <-> first = Some (Err error) /\ relay_error error.
Proof.
  intros Hp. setoid_rewrite <- classify_configuration. unfold open_with_slates. destruct first as [[viewer|error]|].
  - destruct (poll_decides (start_lead_target delay) (start + grace) viewer at_ polls (Hp _ eq_refl)) as (r & -> & Hr).
    eexists. split; [done|]. intros error. split; [by intros Hx; destruct (Hr error)|by intros [? _]].
  - case_bool_decide as E.
    + eexists. split; [done|]. intros error'. split; [by intros [= <-]|by intros [[= <-] _]].
    + destruct (next_delay 0 (classify error)). eexists. split; [done|].
      intros error'. split; [done|]. intros [[= <-] H]. done.
  - eexists. split; [done|]. intros error. split; [done|by intros [? _]].
Qed.
