(* ===== verification/Probe.v ===== *)
(** * The stream health probe

    Models [crates/media/src/probe.rs]: the classification of the declared
    elementary streams, the analysis of a transport stream and the probe that
    runs it with a slot of the low-priority pool.  The HTTP client's answers,
    up to the end of the probe window, are inputs. *)
From Stdlib Require Import ZArith Lia String.
From stdpp Require Import base numbers option strings gmap.
From stdpp Require Import list.
From S2P Require Import Prelude Psi Broker Ring Upstream Passive.
Open Scope Z_scope.

Record StreamProbeQuality := mkStreamProbeQuality {
  q_video_codec : option string;
  q_audio_codec : option string;
}.

Inductive StreamProbeFailure :=
| CapacityFull | ProbeStartupTimeout | ProbeHttp | HttpStatus
| NoPat | NoPmt | NoVideo | NoAudio
| InsufficientPackets (seen required : Z)
| MalformedTransport.

Inductive StreamProbeOutcome :=
| Alive (quality : StreamProbeQuality) (packets_seen duration_ms : Z)
| Dead (failure : StreamProbeFailure)
| Skipped.

(** [str::contains] *)
Definition contains (name part : string) : bool := bool_decide (is_Some (String.index 0 part name)).

Definition is_video_name (name : string) (stream_type : Z) : bool :=
  contains name "video" || bool_decide (stream_type ∈ [0x01; 0x02; 0x10; 0x1b; 0x24]).

Definition classify_stream (q : StreamProbeQuality) (entry : ElementaryStreamInfo) : StreamProbeQuality :=
  match codec_name_for_stream_type (es_stream_type entry) with
  | None => q
  | Some name =>
      if is_video_name name (es_stream_type entry) then
        if bool_decide (q_video_codec q = None) then mkStreamProbeQuality (Some name) (q_audio_codec q) else q
      else if bool_decide (q_audio_codec q = None) then mkStreamProbeQuality (q_video_codec q) (Some name)
      else q
  end.

Definition classify_streams (streams : list ElementaryStreamInfo) : StreamProbeQuality :=
  fold_left classify_stream streams (mkStreamProbeQuality None None).

Record ProbeState := mkProbeState {
  pr_packetizer : MpegTsPacketizer;
  pr_tracker : PatPmtTracker;
  pr_packets_seen : Z;
  pr_pat_seen : bool;
  pr_pmt_seen : bool;
  pr_quality : StreamProbeQuality;
}.

Definition probe_new : ProbeState :=
  mkProbeState packetizer_new pt_default 0 false false (mkStreamProbeQuality None None).

(** One turn of the loop over the packets of a chunk. *)
Definition probe_packet (st : ProbeState) (packet : bytes) : ProbeState :=
  let packets_seen := pr_packets_seen st + 1 in
  let '(tracker, boundary) := pt_observe (pr_tracker st) packet packets_seen in
  match boundary with
  | Some _ =>
      let quality :=
        match ('(section, program) ← completed_pmt tracker; parse_pmt_elementary_streams section program) with
        | Some streams => classify_streams streams
        | None => pr_quality st
        end in
      mkProbeState (pr_packetizer st) tracker packets_seen true true quality
  | None =>
      mkProbeState (pr_packetizer st) tracker packets_seen
        (pr_pat_seen st || bool_decide (is_Some (candidate_start tracker))) (pr_pmt_seen st) (pr_quality st)
  end.

Definition set_packetizer (st : ProbeState) (packetizer : MpegTsPacketizer) : ProbeState :=
  mkProbeState packetizer (pr_tracker st) (pr_packets_seen st) (pr_pat_seen st) (pr_pmt_seen st) (pr_quality st).

(** The [return] inside the loop: everything was found. *)
Definition probe_complete (min_packets : Z) (st : ProbeState) : bool :=
  pr_pmt_seen st && bool_decide (is_Some (q_video_codec (pr_quality st))) &&
  bool_decide (is_Some (q_audio_codec (pr_quality st))) && (min_packets <=? pr_packets_seen st).

(** The checks after the loop. *)
Definition probe_verdict (min_packets duration_ms : Z) (st : ProbeState) : StreamProbeOutcome :=
  if negb (pr_pat_seen st) then Dead NoPat
  else if negb (pr_pmt_seen st) then Dead NoPmt
  else if bool_decide (q_video_codec (pr_quality st) = None) then Dead NoVideo
  else if bool_decide (q_audio_codec (pr_quality st) = None) then Dead NoAudio
  else if pr_packets_seen st <? min_packets then Dead (InsufficientPackets (pr_packets_seen st) min_packets)
  else Alive (pr_quality st) (pr_packets_seen st) duration_ms.

(** The loop; [chunks] are the items that arrive before the deadline, each
    with the milliseconds since the start. *)
Fixpoint probe_loop (min_packets : Z) (st : ProbeState) (chunks : list (result bytes unit * Z)) (end_ms : Z)
  : StreamProbeOutcome :=
  match chunks with
  | [] => probe_verdict min_packets end_ms st
  | (Err _, _) :: _ => Dead ProbeHttp
  | (Ok chunk, now_ms) :: chunks =>
      match packetizer_push (pr_packetizer st) chunk with
      | (_, Err (PInvalidSyncByte _ _)) => Dead MalformedTransport
      | (packetizer, pushed) =>
          let completed := match pushed with Ok completed => completed | Err _ => [] end in
          let st := set_packetizer st packetizer in
          if zlen completed =? 0 then probe_loop min_packets st chunks end_ms
          else
            let st := fold_left probe_packet (chunks_exact MPEG_TS_PACKET_SIZE completed) st in
            if probe_complete min_packets st
            then Alive (pr_quality st) (pr_packets_seen st) now_ms
            else probe_loop min_packets st chunks end_ms
      end
  end.

Definition analyze_transport_stream (min_packets : Z) (chunks : list (result bytes unit * Z)) (end_ms : Z)
  : StreamProbeOutcome :=
  probe_loop min_packets probe_new chunks end_ms.

(** The answer of the HTTP client within the startup timeout: [None] is the
    timeout, [Err] a failed request, [Ok] the status and the body. *)
Definition probe_run (broker : BrokerState) (session_key : string) (min_packets : Z)
    (response : option (result (bool * list (result bytes unit * Z)) unit)) (end_ms : Z)
  : BrokerState * StreamProbeOutcome :=
  match try_acquire broker session_key with
  | (broker, Err (AtCapacity _ _ _)) => (broker, Skipped)
  | (broker, Err LeaseIdExhausted) => (broker, Dead CapacityFull)
  | (broker, Ok lease) =>
      (lease_drop broker lease,
       match response with
       | None => Dead ProbeStartupTimeout
       | Some (Err _) => Dead ProbeHttp
       | Some (Ok (success, chunks)) =>
           if negb success then Dead HttpStatus else analyze_transport_stream min_packets chunks end_ms
       end)
  end.

(** ** What a verdict means *)

(** The tracker after the packets, and the restart points it reported. *)
Definition tracked (ps : list bytes) : PatPmtTracker * list Z := pt_run pt_default 1 ps.

(** Some prefix of the packets left a PAT waiting for its PMT. *)
Definition pat_found (ps : list bytes) : Prop :=
  exists k, is_Some (candidate_start (fst (tracked (take k ps)))).

(** The streams of the last validated PMT. *)
Definition declares (ps : list bytes) (streams : list ElementaryStreamInfo) : Prop :=
  exists section program, completed_pmt (fst (tracked ps)) = Some (section, program) /\
    is_matching_pmt section program = true /\ parse_pmt_elementary_streams section program = Some streams.

Definition is_video (e : ElementaryStreamInfo) : bool :=
  match codec_name_for_stream_type (es_stream_type e) with
  | Some name => is_video_name name (es_stream_type e)
  | None => false
  end.
Definition is_audio (e : ElementaryStreamInfo) : bool :=
  match codec_name_for_stream_type (es_stream_type e) with
  | Some name => negb (is_video_name name (es_stream_type e))
  | None => false
  end.

Lemma classify_stream_spec q e :
  (is_Some (q_video_codec (classify_stream q e)) <-> is_Some (q_video_codec q) \/ is_video e = true) /\
  (is_Some (q_audio_codec (classify_stream q e)) <-> is_Some (q_audio_codec q) \/ is_audio e = true).
Proof.
  unfold classify_stream, is_video, is_audio.
  destruct (codec_name_for_stream_type (es_stream_type e)) as [name|]; [|split; (split; [by left|by intros [? | ?]])].
  assert (forall A (x : option A), x <> None -> is_Some x) as Hs by (intros A [x|]; done).
  destruct (is_video_name name (es_stream_type e)); case_bool_decide as E; cbn; split;
    (split; [auto; by left|]); intros [H | H]; auto; done.
Qed.

Lemma classify_fold streams q :
  let r := fold_left classify_stream streams q in
  (is_Some (q_video_codec r) <-> is_Some (q_video_codec q) \/ existsb is_video streams = true) /\
  (is_Some (q_audio_codec r) <-> is_Some (q_audio_codec q) \/ existsb is_audio streams = true).
Proof.
  revert q. induction streams as [|e streams IH]; intros q; cbn [fold_left existsb].
  { split; (split; [by left|by intros [? | ?]]). }
  destruct (IH (classify_stream q e)) as [IHv IHa]. destruct (classify_stream_spec q e) as [Hv Ha].
  cbn zeta in *. rewrite !orb_true_iff. tauto.
Qed.

Lemma classify_streams_spec streams :
  (is_Some (q_video_codec (classify_streams streams)) <-> existsb is_video streams = true) /\
  (is_Some (q_audio_codec (classify_streams streams)) <-> existsb is_audio streams = true).
Proof.
  destruct (classify_fold streams (mkStreamProbeQuality None None)) as [Hv Ha]. cbn zeta in *.
  unfold classify_streams. rewrite Hv, Ha. cbn. split; (split; [intros [[? ?] | ?]; done|by right]).
Qed.

Lemma pt_run_app t seq a b :
  pt_run t seq (a ++ b) =
  let '(t1, b1) := pt_run t seq a in
  let '(t2, b2) := pt_run t1 (seq + zlen a) b in (t2, b1 ++ b2).
Proof.
  revert t seq. induction a as [|p a IH]; intros t seq; cbn [pt_run app].
  - rewrite zlen_nil, Z.add_0_r. by destruct (pt_run t seq b).
  - destruct (pt_observe t p seq) as [t1 o]. rewrite IH. destruct (pt_run t1 (seq + 1) a) as [t2 b1].
    rewrite zlen_cons. replace (seq + 1 + zlen a) with (seq + (1 + zlen a)) by lia.
    destruct (pt_run t2 (seq + (1 + zlen a)) b) as [t3 b2]. by rewrite app_assoc.
Qed.

Lemma tracked_snoc ps p :
  tracked (ps ++ [p]) =
  let '(t, b) := pt_observe (fst (tracked ps)) p (zlen ps + 1) in (t, snd (tracked ps) ++ option_list b).
Proof.
  unfold tracked. rewrite pt_run_app. destruct (pt_run pt_default 1 ps) as [t bs]. cbn [pt_run fst snd].
  rewrite (Z.add_comm 1). destruct (pt_observe t p (zlen ps + 1)) as [t1 b]. by rewrite app_nil_r.
Qed.

(** A restart point is reported together with a PMT that parses. *)
Lemma boundary_completes t p seq t' b :
  pt_observe t p seq = (t', Some b) ->
  exists section program, completed_pmt t' = Some (section, program) /\ is_matching_pmt section program = true.
Proof.
  unfold pt_observe. destruct (packet_header p) as [h|]; [|done]. unfold pt_observe_pmt.
  destruct (pt_candidate _) as [c|]; [|done]. case_match; [done|].
  destruct (sa_observe _ _ _) as [a [s|]]; [|done]. case_match eqn:E; [done|].
  intros [= <- <-]. exists (cs_bytes s), (pc_program_number c). split; [done|].
  by apply negb_false_iff in E.
Qed.

Lemma silent_keeps t p seq t' :
  pt_observe t p seq = (t', None) -> completed_pmt t' = completed_pmt t.
Proof.
  unfold pt_observe. destruct (packet_header p) as [h|]; [|by intros [= <-]]. unfold pt_observe_pmt.
  assert (completed_pmt (pt_observe_pat t h seq) = completed_pmt t) as Hp.
  { unfold pt_observe_pat. case_match; [|done]. by destruct (sa_observe _ _ _). }
  destruct (pt_candidate _) as [c|]; [|intros [= <-]; done]. case_match; [intros [= <-]; done|].
  destruct (sa_observe (pc_assembler c) _ _) as [a [s|]]; [|intros [= <-]; done].
  case_match; [intros [= <-]; done|done].
Qed.

(** The state of the analysis after [ps]. *)
Record probe_inv (st : ProbeState) (ps : list bytes) : Prop := {
  pi_tracker : pr_tracker st = fst (tracked ps);
  pi_seen : pr_packets_seen st = zlen ps;
  pi_pmt : pr_pmt_seen st = true <-> snd (tracked ps) <> [];
  pi_pat : pr_pat_seen st = true <-> snd (tracked ps) <> [] \/ pat_found ps;
  pi_quality : if pr_pmt_seen st then exists streams, declares ps streams /\ pr_quality st = classify_streams streams
               else pr_quality st = mkStreamProbeQuality None None;
}.

Lemma take_snoc_le (ps : list bytes) p k :
  take k (ps ++ [p]) = take k ps \/ take k (ps ++ [p]) = ps ++ [p].
Proof.
  destruct (decide (k <= length ps)%nat).
  - left. by apply take_app_le.
  - right. apply take_ge. rewrite length_app. cbn. lia.
Qed.

Lemma pat_found_snoc ps p :
  pat_found (ps ++ [p]) <-> pat_found ps \/ is_Some (candidate_start (fst (tracked (ps ++ [p])))).
Proof.
  split.
  - intros [k Hk]. destruct (take_snoc_le ps p k) as [-> | ->] in Hk; [left; by exists k|by right].
  - intros [[k Hk] | H].
    + exists (Nat.min k (length ps)). rewrite take_app_le by lia.
      destruct (decide (k <= length ps)%nat); [by rewrite Nat.min_l|].
      rewrite Nat.min_r by lia. rewrite take_ge in Hk by lia. by rewrite take_ge.
    + exists (length (ps ++ [p])). by rewrite take_ge.
Qed.

Lemma declares_same ps p t :
  pt_observe (fst (tracked ps)) p (zlen ps + 1) = (t, None) -> forall streams, declares ps streams -> declares (ps ++ [p]) streams.
Proof.
  intros Ho streams (section & program & Hc & Hm & Hp). exists section, program. split; [|done].
  rewrite tracked_snoc, Ho. cbn. by rewrite (silent_keeps _ _ _ _ Ho).
Qed.

Lemma probe_packet_inv st ps p : probe_inv st ps -> probe_inv (probe_packet st p) (ps ++ [p]).
Proof.
  intros [Ht Hs Hpm Hpa Hq]. unfold probe_packet. rewrite Ht, Hs.
  pose proof (tracked_snoc ps p) as Hsn.
  destruct (pt_observe (fst (tracked ps)) p (zlen ps + 1)) as [t b] eqn:Eo.
  assert (fst (tracked (ps ++ [p])) = t) as Hft by by rewrite Hsn.
  destruct b as [b|]; cbn in Hsn.
  - destruct (boundary_completes _ _ _ _ _ Eo) as (section & program & Hc & Hm).
    destruct (proj1 (is_matching_pmt_parses _ _) Hm) as [_ [streams Hst]].
    assert (snd (tracked (ps ++ [p])) <> []) as Hne by (rewrite Hsn; cbn; by destruct (snd (tracked ps))).
    split; cbn; [done|zlia|by split| |].
    + split; [intros _; by left|done].
    + exists streams. split; [exists section, program; by rewrite Hft|]. rewrite Hc. cbn. by rewrite Hst.
  - rewrite app_nil_r in Hsn. split; cbn; [done|zlia|by rewrite Hsn| |].
    + rewrite orb_true_iff, Hpa, bool_decide_eq_true, pat_found_snoc, Hft, Hsn. cbn. tauto.
    + destruct (pr_pmt_seen st); [|done]. destruct Hq as (streams & Hd & Hq). exists streams.
      split; [by eapply declares_same|done].
Qed.

Lemma probe_packets_inv st ps qs : probe_inv st ps -> probe_inv (fold_left probe_packet qs st) (ps ++ qs).
Proof.
  revert st ps. induction qs as [|q qs IH]; intros st ps Hi; cbn [fold_left]; [by rewrite app_nil_r|].
  replace (ps ++ q :: qs) with ((ps ++ [q]) ++ qs) by by rewrite <- app_assoc.
  by apply IH, probe_packet_inv.
Qed.

(** The packets confirm a PMT that declares a video and an audio stream, and
    there are enough of them. *)
Definition completed (min_packets : Z) (ps : list bytes) : Prop :=
  snd (tracked ps) <> [] /\ min_packets <= zlen ps /\
  exists streams, declares ps streams /\ existsb is_video streams = true /\ existsb is_audio streams = true.

(** Why a verdict is right, in terms of the packets that were analyzed: the
    checks in their order, and what each verdict reports. *)
Definition justified (ps : list bytes) (min_packets duration : Z) (outcome : StreamProbeOutcome) : Prop :=
  match outcome with
  | Alive quality seen duration_ms =>
      completed min_packets ps /\ seen = zlen ps /\ duration_ms = duration /\
      exists streams, declares ps streams /\ quality = classify_streams streams
  | Dead NoPat => snd (tracked ps) = [] /\ ~ pat_found ps
  | Dead NoPmt => snd (tracked ps) = [] /\ pat_found ps
  | Dead NoVideo =>
      snd (tracked ps) <> [] /\ exists streams, declares ps streams /\ existsb is_video streams = false
  | Dead NoAudio =>
      snd (tracked ps) <> [] /\
      exists streams, declares ps streams /\ existsb is_video streams = true /\ existsb is_audio streams = false
  | Dead (InsufficientPackets seen required) =>
      snd (tracked ps) <> [] /\ seen = zlen ps /\ required = min_packets /\ seen < required /\
      exists streams, declares ps streams /\ existsb is_video streams = true /\ existsb is_audio streams = true
  | _ => False
  end.

Lemma declares_unique ps s1 s2 : declares ps s1 -> declares ps s2 -> s1 = s2.
Proof. intros (? & ? & E1 & _ & P1) (? & ? & E2 & _ & P2). congruence. Qed.

(** The packets settle the verdict. *)
Lemma justified_unique ps min_packets duration o1 o2 :
  justified ps min_packets duration o1 -> justified ps min_packets duration o2 -> o1 = o2.
Proof.
  destruct o1 as [q1 n1 d1|[]|], o2 as [q2 n2 d2|[]|]; cbn; try done; unfold completed; intros H1 H2;
    repeat match goal with H : _ /\ _ |- _ => destruct H | H : exists _, _ |- _ => destruct H end;
    repeat match goal with
    | H1 : declares ps ?s1, H2 : declares ps ?s2 |- _ => assert (s2 = s1) as -> by (by eapply declares_unique); clear H2
    end; subst; congruence || (exfalso; lia).
Qed.

Lemma no_boundaries (l : list Z) b : (b = true <-> l <> []) -> b = false -> l = [].
Proof. intros H ->. destruct l as [|x l]; [done|]. assert (false = true) by (by apply H). done. Qed.

Lemma codec_missing (o : option string) b : (is_Some o <-> b = true) -> o = None -> b = false.
Proof. intros H ->. destruct b; [|done]. by destruct (proj2 H eq_refl). Qed.

Lemma codec_present (o : option string) b : (is_Some o <-> b = true) -> o <> None -> b = true.
Proof. intros H Ho. apply H. by destruct o. Qed.

Lemma probe_verdict_justified min_packets duration st ps :
  probe_inv st ps -> justified ps min_packets duration (probe_verdict min_packets duration st).
Proof.
  intros [Ht Hs Hpm Hpa Hq]. unfold probe_verdict.
  destruct (pr_pat_seen st) eqn:Ea; cbn [negb justified].
  2: { assert (~ (snd (tracked ps) <> [] \/ pat_found ps)) as Hn by (intros H; apply Hpa in H; done).
       split; [|tauto]. destruct (snd (tracked ps)); [done|]. exfalso. apply Hn. by left. }
  destruct (pr_pmt_seen st) eqn:Em; cbn [negb justified].
  2: { pose proof (no_boundaries _ _ Hpm eq_refl) as Hb. split; [done|]. by destruct (proj1 Hpa eq_refl). }
  pose proof (proj1 Hpm eq_refl) as Hne.
  destruct Hq as (streams & Hd & ->). destruct (classify_streams_spec streams) as [Hv Hau].
  case_bool_decide as E1; cbn [justified]; [split; [done|]; exists streams; split; [done|by eapply codec_missing]|].
  pose proof (codec_present _ _ Hv E1) as Hvid.
  case_bool_decide as E2; cbn [justified];
    [split; [done|]; exists streams; split; [done|split; [done|by eapply codec_missing]]|].
  pose proof (codec_present _ _ Hau E2) as Haud.
  destruct (Z.ltb_spec (pr_packets_seen st) min_packets); cbn [justified]; rewrite Hs in *.
  - do 4 (split; [done|]). by exists streams.
  - split; [|split; [done|split; [done|by exists streams]]]. split; [done|]. split; [done|]. by exists streams.
Qed.

Lemma probe_complete_spec min_packets st ps :
  probe_inv st ps -> probe_complete min_packets st = true <-> completed min_packets ps.
Proof.
  intros [Ht Hs Hpm Hpa Hq]. unfold probe_complete, completed.
  rewrite !andb_true_iff, !bool_decide_eq_true, Z.leb_le, Hpm, Hs. split.
  - intros (((Hne & Hv) & Ha) & Hn). rewrite (proj2 Hpm Hne) in Hq. destruct Hq as (streams & Hd & Hq).
    rewrite Hq in *. destruct (classify_streams_spec streams) as [Hv' Ha'].
    split; [done|]. split; [done|]. exists streams. rewrite <- Hv', <- Ha'. done.
  - intros (Hne & Hn & streams & Hd & Hv & Ha). rewrite (proj2 Hpm Hne) in Hq. destruct Hq as (s' & Hd' & ->).
    rewrite (declares_unique _ _ _ Hd' Hd). destruct (classify_streams_spec streams) as [Hv' Ha'].
    rewrite Hv', Ha'. done.
Qed.

Lemma probe_complete_justified min_packets st ps now :
  probe_inv st ps -> completed min_packets ps ->
  justified ps min_packets now (Alive (pr_quality st) (pr_packets_seen st) now).
Proof.
  intros [Ht Hs Hpm Hpa Hq] Hc. cbn. split; [done|]. split; [done|]. split; [done|].
  destruct Hc as [Hne _]. by rewrite (proj2 Hpm Hne) in Hq.
Qed.

(** The bytes of the items that were read. *)
Definition body_of (items : list (result bytes unit * Z)) : bytes :=
  concat (omap (fun item => match fst item with Ok chunk => Some chunk | Err _ => None end) items).

Definition is_read_error (item : result bytes unit * Z) : Prop :=
  match fst item with Err _ => True | Ok _ => False end.

(** The whole packets of the first [k] items. *)
Definition packets_of (items : list (result bytes unit * Z)) (k : nat) : list bytes :=
  chunks_exact MPEG_TS_PACKET_SIZE (body_of (take k items)).

(** The first [k] items leave the outcome open: each was read, the packets up
    to it have their sync bytes, and they do not complete the analysis. *)
Definition undecided (min_packets : Z) (items : list (result bytes unit * Z)) (k : nat) : Prop :=
  forall j item, (j < k)%nat -> items !! j = Some item ->
    ~ is_read_error item /\ find_bad_sync 0 (packets_of items (S j)) = None /\
    ~ completed min_packets (packets_of items (S j)).

(** The outcome that item [k], or the end of the window after [k] items,
    decides. *)
Definition decides (min_packets : Z) (items : list (result bytes unit * Z)) (end_ms : Z) (k : nat)
    (outcome : StreamProbeOutcome) : Prop :=
  match items !! k with
  | None => k = length items /\ justified (packets_of items k) min_packets end_ms outcome
  | Some (Err _, _) => outcome = Dead ProbeHttp
  | Some (Ok _, now_ms) =>
      match find_bad_sync 0 (packets_of items (S k)) with
      | Some _ => outcome = Dead MalformedTransport
      | None =>
          completed min_packets (packets_of items (S k)) /\
          justified (packets_of items (S k)) min_packets now_ms outcome
      end
  end.

(** What the outcome of an analysis has to be. *)
Definition settles (min_packets : Z) (items : list (result bytes unit * Z)) (end_ms : Z)
    (outcome : StreamProbeOutcome) : Prop :=
  exists k, undecided min_packets items k /\ decides min_packets items end_ms k outcome.

Lemma decides_first min_packets items end_ms k1 k2 o :
  decides min_packets items end_ms k1 o -> undecided min_packets items k2 -> (k2 <= k1)%nat \/ items !! k1 = None.
Proof.
  intros Hd Hu. destruct (decide (k2 <= k1)%nat) as [|Hlt]; [by left|]. right. unfold decides in Hd.
  destruct (items !! k1) as [[r now]|] eqn:E; [|done]. exfalso.
  destruct (Hu k1 (r, now) ltac:(lia) E) as (Hr & Hs & Hc). destruct r; [|by apply Hr].
  rewrite Hs in Hd. by destruct Hd.
Qed.

(** An input settles one outcome. *)
Lemma settles_unique min_packets items end_ms o1 o2 :
  settles min_packets items end_ms o1 -> settles min_packets items end_ms o2 -> o1 = o2.
Proof.
  intros (k1 & U1 & D1) (k2 & U2 & D2).
  assert (k1 = k2) as <-.
  { destruct (decides_first _ _ _ _ _ _ D1 U2) as [H1|H1], (decides_first _ _ _ _ _ _ D2 U1) as [H2|H2]; [lia|..];
      revert D1 D2; unfold decides; rewrite ?H1, ?H2.
    - intros D1 [-> _]. destruct (items !! k1) eqn:E1; [|by destruct D1 as [-> _]].
      apply lookup_lt_Some in E1. lia.
    - intros [-> _] D2. destruct (items !! k2) eqn:E2; [|by destruct D2 as [-> _]].
      apply lookup_lt_Some in E2. lia.
    - by intros [-> _] [-> _]. }
  unfold decides in D1, D2. destruct (items !! k1) as [[[] now]|].
  - destruct (find_bad_sync _ _); [congruence|]. destruct D1, D2. by eapply justified_unique.
  - congruence.
  - destruct D1, D2. by eapply justified_unique.
Qed.

(** The packets and the incomplete tail of what was read. *)
Record framed (ps : list bytes) (rest body : bytes) : Prop := {
  fr_body : body = concat ps ++ rest;
  fr_packets : chunks_exact MPEG_TS_PACKET_SIZE (concat ps) = ps;
  fr_whole : zlen (concat ps) mod MPEG_TS_PACKET_SIZE = 0;
  fr_rest : zlen rest < MPEG_TS_PACKET_SIZE;
}.

Lemma framed_chunks ps rest body : framed ps rest body -> chunks_exact MPEG_TS_PACKET_SIZE body = ps.
Proof.
  intros [-> Hp Hm Hr]. by rewrite chunks_exact_app, Hp, (chunks_exact_short _ rest), app_nil_r.
Qed.

Lemma framed_more ps rest body chunk :
  framed ps rest body ->
  chunks_exact MPEG_TS_PACKET_SIZE (body ++ chunk) = ps ++ chunks_exact MPEG_TS_PACKET_SIZE (rest ++ chunk).
Proof. intros [-> Hp Hm Hr]. by rewrite <- app_assoc, chunks_exact_app, Hp. Qed.

Lemma framed_push ps rest body chunk :
  framed ps rest body ->
  let all := rest ++ chunk in
  framed (ps ++ chunks_exact MPEG_TS_PACKET_SIZE (ztake (aligned all) all)) (zdrop (aligned all) all) (body ++ chunk).
Proof.
  intros [-> Hp Hm Hr] all. pose proof (aligned_spec all) as (H1 & H2 & H3).
  set (data := ztake (aligned all) all).
  assert (zlen data mod MPEG_TS_PACKET_SIZE = 0) as Hdm
    by (unfold data; rewrite zlen_ztake; by replace (Z.min (Z.max 0 (aligned all)) (zlen all)) with (aligned all) by lia).
  assert (concat (ps ++ chunks_exact MPEG_TS_PACKET_SIZE data) = concat ps ++ data) as Hc
    by (by rewrite concat_app, chunks_exact_concat).
  split; rewrite ?Hc.
  - unfold data. by rewrite <- !app_assoc, ztake_zdrop.
  - by rewrite chunks_exact_app, Hp.
  - rewrite zlen_app, Z.add_mod by done. by rewrite Hm, Hdm.
  - rewrite zlen_zdrop. lia.
Qed.

Lemma probe_packets_packetizer qs st : pr_packetizer (fold_left probe_packet qs st) = pr_packetizer st.
Proof.
  revert st. induction qs as [|q qs IH]; intros st; cbn [fold_left]; [done|]. rewrite IH. unfold probe_packet.
  by destruct (pt_observe _ _ _) as [t [b|]].
Qed.

Lemma packets_of_next pre item items :
  packets_of (pre ++ item :: items) (S (length pre)) = chunks_exact MPEG_TS_PACKET_SIZE (body_of (pre ++ [item])).
Proof.
  unfold packets_of. do 2 f_equal. replace (pre ++ item :: items) with ((pre ++ [item]) ++ items) by by rewrite <- app_assoc.
  apply take_app_length'. rewrite length_app. cbn. lia.
Qed.

Lemma body_of_snoc pre chunk now : body_of (pre ++ [(Ok chunk, now)]) = body_of pre ++ chunk.
Proof. unfold body_of. rewrite omap_app, concat_app. cbn. by rewrite app_nil_r. Qed.

Lemma undecided_snoc min_packets pre chunk now items :
  undecided min_packets (pre ++ (Ok chunk, now) :: items) (length pre) ->
  find_bad_sync 0 (packets_of (pre ++ (Ok chunk, now) :: items) (S (length pre))) = None ->
  ~ completed min_packets (packets_of (pre ++ (Ok chunk, now) :: items) (S (length pre))) ->
  undecided min_packets (pre ++ (Ok chunk, now) :: items) (S (length pre)).
Proof.
  intros Hu Hs Hc j item Hj Hl. destruct (decide (j = length pre)) as [->|]; [|apply Hu; [lia|done]].
  rewrite list_lookup_middle in Hl by done. injection Hl as <-. split; [by intros []|done].
Qed.

(** Where the loop stands after the items [pre]. *)
Record loop_inv (min_packets : Z) (st : ProbeState) (pre : list (result bytes unit * Z)) (ps : list bytes) : Prop := {
  li_state : probe_inv st ps;
  li_framed : framed ps (pending (pr_packetizer st)) (body_of pre);
  li_sync : find_bad_sync 0 ps = None;
  li_open : ~ completed min_packets ps;
}.

Lemma probe_loop_settles min_packets items end_ms st pre ps :
  loop_inv min_packets st pre ps -> undecided min_packets (pre ++ items) (length pre) ->
  settles min_packets (pre ++ items) end_ms (probe_loop min_packets st items end_ms).
Proof.
  revert st pre ps. induction items as [|[[chunk|[]] now] items IH]; intros st pre ps [Hi Hf Hsy Ho] Hu; cbn [probe_loop].
  - exists (length pre). split; [done|]. unfold decides. rewrite app_nil_r in *.
    rewrite lookup_ge_None_2 by done. split; [done|]. unfold packets_of. rewrite take_ge by done.
    rewrite (framed_chunks _ _ _ Hf). by apply probe_verdict_justified.
  - rewrite packetizer_push_spec. set (all := pending (pr_packetizer st) ++ chunk). cbn zeta.
    pose proof (packets_of_next pre (Ok chunk, now) items) as Hnx.
    rewrite body_of_snoc, (framed_more _ _ _ _ Hf) in Hnx. fold all in Hnx.
    assert ((pre ++ (Ok chunk, now) :: items) !! length pre = Some (Ok chunk, now)) as Hl by by apply list_lookup_middle.
    destruct (find_bad_sync 0 (chunks_exact MPEG_TS_PACKET_SIZE all)) as [[i actual]|] eqn:Eb.
    { exists (length pre). split; [done|]. unfold decides. rewrite Hl, Hnx, find_bad_sync_app, Hsy.
      by rewrite find_bad_sync_shift, Eb. }
    pose proof (framed_push _ _ _ chunk Hf) as Hf'. fold all in Hf'. cbn zeta in Hf'.
    pose proof (framed_chunks _ _ _ Hf') as Hch. rewrite (framed_more _ _ _ _ Hf) in Hch. fold all in Hch.
    assert (find_bad_sync 0 (ps ++ chunks_exact MPEG_TS_PACKET_SIZE all) = None) as Hsy'
      by (by rewrite find_bad_sync_app, Hsy, find_bad_sync_shift, Eb).
    rewrite Hch in Hnx, Hsy'. clear Hch Eb.
    set (data := ztake (aligned all) all) in *. set (rest := zdrop (aligned all) all) in *.
    set (st0 := set_packetizer st (mkMpegTsPacketizer rest)).
    assert (probe_inv st0 ps) as Hi0 by (destruct Hi; by split).
    assert (forall st1, loop_inv min_packets st1 (pre ++ [(Ok chunk, now)]) (ps ++ chunks_exact MPEG_TS_PACKET_SIZE data) ->
      settles min_packets (pre ++ (Ok chunk, now) :: items) end_ms (probe_loop min_packets st1 items end_ms)) as Hgo.
    { intros st1 Hli. specialize (IH st1 (pre ++ [(Ok chunk, now)]) _ Hli). rewrite <- app_assoc in IH. apply IH.
      rewrite length_app, Nat.add_1_r. apply undecided_snoc; [done|by rewrite Hnx|rewrite Hnx; apply Hli]. }
    destruct (Z.eqb_spec (zlen data) 0) as [E0|E0].
    { assert (data = []) as Hd by (destruct data; [done|]; autorewrite with relay in E0; zlen_facts; lia).
      apply Hgo. rewrite Hd in *. cbn in *. rewrite app_nil_r in *. split; rewrite ?body_of_snoc; done. }
    pose proof (probe_packets_inv _ _ (chunks_exact MPEG_TS_PACKET_SIZE data) Hi0) as Hi1.
    pose proof (probe_packets_packetizer (chunks_exact MPEG_TS_PACKET_SIZE data) st0) as Hpk.
    set (st1 := fold_left probe_packet (chunks_exact MPEG_TS_PACKET_SIZE data) st0) in *.
    pose proof (probe_complete_spec min_packets st1 _ Hi1) as Hc.
    destruct (probe_complete min_packets st1) eqn:Ec.
    + exists (length pre). split; [done|]. unfold decides. rewrite Hl, Hnx, Hsy'.
      split; [by apply Hc|]. apply probe_complete_justified; [done|by apply Hc].
    + apply Hgo. split; [done|by rewrite Hpk, body_of_snoc|done|]. intros H. by apply Hc in H.
  - exists (length pre). split; [done|]. unfold decides. by rewrite list_lookup_middle.
Qed.

(** C11. Probe verdicts: an analysis has exactly the outcome its input
    settles.  The outcome is decided by the first item that fails to be read
    (an HTTP failure), completes a packet without its sync byte (malformed),
    or brings the packets to a confirmed PMT with a valid CRC that declares a
    video and an audio stream and to the minimum number (alive, with the codecs
    that PMT declares, the number of packets and the time of that item).  When
    no item of the window does, the first check that all the packets together
    fail names the failure: a PAT was found, a PMT was confirmed, it declares
    video, then audio, and the packets are enough. *)
Theorem probe_outcome_justified min_packets items end_ms outcome :
  settles min_packets items end_ms outcome <-> outcome = analyze_transport_stream min_packets items end_ms.
Proof.
  assert (settles min_packets items end_ms (analyze_transport_stream min_packets items end_ms)) as H.
  { apply (probe_loop_settles min_packets items end_ms probe_new [] []); [|by intros j item Hj%Nat.nlt_0_r].
    split; [|by split|done|by intros [? _]]. split; cbn; try done. split; [done|].
    intros [? | [k Hk]]; [done|]. rewrite take_nil in Hk. by destruct Hk. }
  split; [|by intros ->]. intros Ho. by eapply settles_unique.
Qed.

(** The probe gives its slot back: it leaves the leases of the pool as it
    found them, whatever the outcome. *)
Lemma probe_run_releases broker key min_packets response end_ms :
  broker_inv broker ->
  leases (fst (probe_run broker key min_packets response end_ms)) = leases broker.
Proof.
  intros Hb. unfold probe_run.
  destruct (try_acquire_spec broker key Hb) as [(id & l & [Hl _] & ->)|[Hno Ho]].
  - cbn [fst]. unfold lease_drop. cbn [leases lease_id]. rewrite lookup_insert_eq.
    assert ((strong_count (count_up l) =? 1)%positive = false) as -> by (apply Pos.eqb_neq; unfold count_up; cbn [strong_count]; lia).
    cbn. rewrite insert_insert_eq. rewrite insert_id; [done|]. rewrite Hl. f_equal. unfold count_down, count_up. cbn.
    rewrite Pos.pred_succ. by destruct l.
  - inversion Ho as [H1 H2|H1 H2 H3|H1 H2 H3]; cbn [fst]; [done|done|]. unfold lease_drop. cbn [leases lease_id].
    rewrite lookup_insert_eq. cbn. rewrite delete_insert_id; [done|by apply next_lease_free].
Qed.
