(* ===== verification/Sort.v ===== *)
(** * Sorting

    [slice::sort_by] and [sort_by_key]: a stable sort by insertion, and what
    determines its result. *)
From stdpp Require Import base numbers option.
From stdpp Require Import list sorting.

(** ** Sorting *)

(** [sort_by], a stable sort: each element goes before the first that it is
    strictly less than. *)
Section Sort.
Context {A : Type} (lt : A -> A -> bool).
Fixpoint insert_sorted (x : A) (l : list A) : list A :=
  match l with
  | [] => [x]
  | y :: l => if lt x y then x :: y :: l else y :: insert_sorted x l
  end.
Definition stable_sort (l : list A) : list A := fold_left (fun l x => insert_sorted x l) l [].
End Sort.

(** ** Sorting is determined by the elements *)

Section SortFacts.
Context {A : Type} (le : A -> A -> bool).
Context (le_total : forall x y, le x y = true \/ le y x = true).
Context (le_trans : forall x y z, le x y = true -> le y z = true -> le x z = true).

Let lt (x y : A) : bool := negb (le y x).
Let le_prop (x y : A) : Prop := le x y = true.

Lemma insert_sorted_perm x l : insert_sorted lt x l ≡ₚ x :: l.
Proof using.
  induction l as [|y l IH]; cbn; [done|]. case_match; [done|]. rewrite IH. apply Permutation_swap.
Qed.

Lemma insert_sorted_sorted x l : StronglySorted le_prop l -> StronglySorted le_prop (insert_sorted lt x l).
Proof using le_total le_trans.
  induction 1 as [|y l Hl IH Hy]; cbn; [by repeat constructor|]. unfold lt at 1.
  destruct (le y x) eqn:E; cbn.
  - constructor; [done|]. rewrite insert_sorted_perm. by constructor.
  - destruct (le_total y x) as [? | Hxy]; [congruence|]. constructor; [by constructor|]. constructor; [done|].
    eapply Forall_impl; [exact Hy|]. intros z Hz. by eapply le_trans.
Qed.

Lemma stable_sort_acc l acc :
  fold_left (fun l x => insert_sorted lt x l) l acc ≡ₚ l ++ acc /\
  (StronglySorted le_prop acc -> StronglySorted le_prop (fold_left (fun l x => insert_sorted lt x l) l acc)).
Proof using le_total le_trans.
  revert acc. induction l as [|x l IH]; intros acc; cbn [fold_left]; [done|].
  destruct (IH (insert_sorted lt x acc)) as [Hp Hs]. split.
  - rewrite Hp, insert_sorted_perm. by rewrite <- Permutation_middle.
  - intros Ha. by apply Hs, insert_sorted_sorted.
Qed.

Lemma stable_sort_unique (le_anti : forall x y, le x y = true -> le y x = true -> x = y) l l' :
  l ≡ₚ l' -> stable_sort lt l = stable_sort lt l'.
Proof using le_total le_trans.
  intros Hp. destruct (stable_sort_acc l []) as [P1 S1], (stable_sort_acc l' []) as [P2 S2].
  unfold stable_sort. assert (AntiSymm (=) le_prop) as Ha by (intros x y; apply le_anti).
  apply (StronglySorted_unique le_prop); [apply S1; constructor|apply S2; constructor|].
  rewrite P1, P2, !app_nil_r. done.
Qed.
End SortFacts.

(** Sorting commutes with a map that keeps the comparison. *)
Lemma stable_sort_map {A B} (f : A -> B) (lt : A -> A -> bool) (lt' : B -> B -> bool) l :
  (forall x y, lt x y = lt' (f x) (f y)) -> List.map f (stable_sort lt l) = stable_sort lt' (List.map f l).
Proof.
  intros Hlt. unfold stable_sort.
  assert (forall x acc, List.map f (insert_sorted lt x acc) = insert_sorted lt' (f x) (List.map f acc)) as Hins.
  { intros x acc. induction acc as [|y acc IH]; cbn; [done|]. rewrite <- Hlt. case_match; cbn; [done|]. by rewrite IH. }
  assert (forall acc, List.map f (fold_left (fun l x => insert_sorted lt x l) l acc) =
    fold_left (fun l x => insert_sorted lt' x l) (List.map f l) (List.map f acc)) as H; [|apply (H [])].
  induction l as [|x l IH]; intros acc; cbn; [done|]. by rewrite IH, Hins.
Qed.

(** Whatever the comparison, sorting keeps the elements. *)
Lemma stable_sort_perm {A} (lt : A -> A -> bool) l : stable_sort lt l ≡ₚ l.
Proof.
  assert (forall x acc, Sort.insert_sorted lt x acc ≡ₚ x :: acc) as Hins.
  { intros x acc. induction acc as [|y acc IH]; cbn; [done|]. case_match; [done|]. rewrite IH. apply perm_swap. }
  unfold stable_sort. assert (forall acc, fold_left (fun l x => Sort.insert_sorted lt x l) l acc ≡ₚ l ++ acc) as H; [|by rewrite H, app_nil_r].
  induction l as [|x l IH]; intros acc; cbn; [done|]. by rewrite IH, Hins, <- Permutation_middle.
Qed.
