(* ===== verification/F32.v ===== *)
(** * binary32

    The operations of [f32] the code uses, on the floats of
    [Stdlib.Floats.SpecFloat] with 24 bits of precision. *)
From Stdlib Require Import ZArith Lia Floats.SpecFloat.
From stdpp Require Import base numbers option.
From S2P Require Import Prelude.
Open Scope Z_scope.

Definition f32 : Type := spec_float.
Definition f32_of_Z (z : Z) : f32 := binary_normalize 24 128 z 0 false.
Definition f32_mul (a b : f32) : f32 := SFmul 24 128 a b.
Definition f32_div (a b : f32) : f32 := SFdiv 24 128 a b.
Definition f32_ge (a b : f32) : bool := match SFcompare a b with Some Gt | Some Eq => true | _ => false end.
Definition f32_gt (a b : f32) : bool := match SFcompare a b with Some Gt => true | _ => false end.
(** The literals of the code, in hundredths. *)
Definition hundredths (n : Z) : f32 := f32_div (f32_of_Z n) (f32_of_Z 100).

(** [f32::total_cmp] compares the bit patterns: sign, exponent, mantissa. *)
Definition total_key (a : f32) : Z * Z * Z :=
  match a with
  | S754_infinity true => (-3, 0, 0)
  | S754_finite true m e => (-2, - e, - Z.pos m)
  | S754_zero true => (-1, 0, 0)
  | S754_zero false => (0, 0, 0)
  | S754_finite false m e => (1, e, Z.pos m)
  | S754_infinity false => (2, 0, 0)
  | S754_nan => (3, 0, 0)
  end.
Definition key_lt (a b : Z * Z * Z) : bool :=
  let '(a1, a2, a3) := a in
  let '(b1, b2, b3) := b in
  (a1 <? b1) || ((a1 =? b1) && ((a2 <? b2) || ((a2 =? b2) && (a3 <? b3)))).

(** [<], [-], [abs], [min] and [max]; the last two ignore a NaN. *)
Definition f32_lt (a b : f32) : bool := f32_gt b a.
Definition f32_sub (a b : f32) : f32 := SFsub 24 128 a b.
Definition f32_abs (a : f32) : f32 := SFabs a.
Definition f32_min (a b : f32) : f32 :=
  match SFcompare a b with
  | Some Gt => b
  | Some _ => a
  | None => match a with S754_nan => b | _ => a end
  end.
Definition f32_max (a b : f32) : f32 :=
  match SFcompare a b with
  | Some Lt => b
  | Some _ => a
  | None => match a with S754_nan => b | _ => a end
  end.
(** [f32::EPSILON], 2 to the power -23. *)
Definition f32_epsilon : f32 := f32_div (f32_of_Z 1) (f32_of_Z (2 ^ 23)).

Lemma total_key_inj a b : total_key a = total_key b -> a = b.
Proof.
  destruct a as [[]|[]| |[] m e], b as [[]|[]| |[] m' e']; cbn; intros H; simplify_eq; try done; do 2 f_equal; lia.
Qed.

Lemma key_lt_spec a b :
  key_lt a b = true <->
  a.1.1 < b.1.1 \/ (a.1.1 = b.1.1 /\ (a.1.2 < b.1.2 \/ (a.1.2 = b.1.2 /\ a.2 < b.2))).
Proof. destruct a as [[a1 a2] a3], b as [[b1 b2] b3]. cbn. lia. Qed.

Lemma key_eq (a b : Z * Z * Z) : a = b <-> a.1.1 = b.1.1 /\ a.1.2 = b.1.2 /\ a.2 = b.2.
Proof. destruct a as [[a1 a2] a3], b as [[b1 b2] b3]. cbn. naive_solver. Qed.

