(* ===== verification/Reconcile.v ===== *)
(** * EPG reconciliation

    Models [crates/domain/src/reconcile.rs]: the decision that binds a station
    of a provider to a channel of the guide.

    A string is the list of its characters, whose order is the order of its
    UTF-8 bytes.  White space is the Unicode property; which characters are
    alphanumeric is the parameter [is_alphanumeric] (the tables of the standard
    library): the theorems hold whatever the tables say.  A float is a
    binary32 of [Stdlib.Floats.SpecFloat].  The texts of evidence and reasons are
    constructors. *)
From Stdlib Require Import ZArith Lia Floats.SpecFloat.
From stdpp Require Import base numbers option gmap.
From stdpp Require Import list sorting.
From S2P Require Import Prelude Text F32 Sort.
Open Scope Z_scope.

(** ** Data *)

Record StationEvidence := mkStationEvidence {
  st_id : text;
  st_name : text;
  st_tvg_id : option text;
  st_callsign : option text;
  st_group : option text;
  st_country : option text;
}.

Inductive MappingMethod := Manual | Previous | TvgId | Callsign | Alias | ExactName | Fuzzy.
#[export] Instance mapping_method_eq_dec : EqDecision MappingMethod.
Proof. solve_decision. Defined.

(** The texts of the evidence. *)
Inductive Evidence :=
| ConfiguredStableBinding
| ConfiguredAlias
| Exact (field : MappingMethod)
| AmbiguousExact (field : MappingMethod)
| TokenSimilarity (confidence : f32).

Record MappingCandidate := mkMappingCandidate {
  mc_epg_id : text;
  mc_method : MappingMethod;
  mc_confidence : f32;
  mc_evidence : list Evidence;
}.

Inductive Reason :=
| NoCandidates
| SharedField (field : MappingMethod)
| FuzzyNeedsReview
| NotCorroborated.

Inductive MappingDecision :=
| Applied (candidate : MappingCandidate)
| Review (candidates : list MappingCandidate) (reason : Reason)
| Unresolved (reason : Reason).

Record MappingContext := mkMappingContext {
  manual : gmap text text;
  previous : gmap text text;
  aliases : gmap text text;
  fuzzy_threshold : f32;
}.

Definition with_safe_defaults : MappingContext := mkMappingContext ∅ ∅ ∅ (hundredths 82).

(** ** The decision *)

Definition applied (epg_id : text) (method : MappingMethod) (confidence : f32) (evidence : Evidence)
  : MappingDecision :=
  Applied (mkMappingCandidate epg_id method confidence [evidence]).

Definition id_lt (left right : StationEvidence) : bool :=
  text_le (st_id left) (st_id right) && negb (bool_decide (st_id left = st_id right)).

Definition unique_or_review (candidates : list StationEvidence) (method : MappingMethod) (confidence : f32)
  : option MappingDecision :=
  match candidates with
  | [] => None
  | [candidate] => Some (applied (st_id candidate) method confidence (Exact method))
  | _ =>
      Some (Review
        (List.map (fun candidate => mkMappingCandidate (st_id candidate) method confidence [AmbiguousExact method])
           (stable_sort id_lt candidates))
        (SharedField method))
  end.

(** [value.map(str::trim).filter(|value| !value.is_empty())] *)
Definition nonblank (value : option text) : option text :=
  value ← trim <$> value;
  if bool_decide (value = []) then None else Some value.

Definition apply_non_destructive (current_epg_id : option text) (decision : MappingDecision) : option text :=
  match decision with
  | Applied candidate => Some (mc_epg_id candidate)
  | Review _ _ | Unresolved _ => current_epg_id
  end.

Section Reconcile.
Context (is_alphanumeric : Z -> bool).

Definition normalize (value : text) : text :=
  join_words (split_whitespace
    (List.map (fun c => if is_alphanumeric c then to_ascii_lowercase c else 0x20) value)).

Definition option_scope_matches (left right : option text) : bool :=
  match nonblank left, nonblank right with
  | Some l, Some r => bool_decide (normalize l = normalize r)
  | _, _ => true
  end.

Definition same_scope (left right : StationEvidence) : bool :=
  option_scope_matches (st_group left) (st_group right) &&
  option_scope_matches (st_country left) (st_country right).

Definition token_set (value : text) : gset text := list_to_set (split_whitespace (normalize value)).

Definition token_similarity (left right : text) : f32 :=
  let left := token_set left in
  let right := token_set right in
  if bool_decide (left = ∅) || bool_decide (right = ∅) then f32_of_Z 0
  else
    let intersection := f32_of_Z (Z.of_nat (size (left ∩ right))) in
    f32_div (f32_mul (f32_of_Z 2) intersection) (f32_of_Z (Z.of_nat (size left) + Z.of_nat (size right))).

(** [right.confidence.total_cmp(&left.confidence).then_with(|| left.epg_id.cmp(&right.epg_id))] *)
Definition fuzzy_lt (left right : MappingCandidate) : bool :=
  let l := total_key (mc_confidence left) in
  let r := total_key (mc_confidence right) in
  key_lt r l ||
  (bool_decide (l = r) && text_le (mc_epg_id left) (mc_epg_id right) &&
   negb (bool_decide (mc_epg_id left = mc_epg_id right))).

Definition has_id (candidates : list StationEvidence) (epg_id : text) : bool :=
  existsb (fun candidate => bool_decide (st_id candidate = epg_id)) candidates.

Definition tvg_matches (tvg_id : text) (candidate : StationEvidence) : bool :=
  match nonblank (st_tvg_id candidate) with
  | Some candidate_id => eq_ignore_ascii_case candidate_id tvg_id
  | None => false
  end || eq_ignore_ascii_case (st_id candidate) tvg_id.

Definition callsign_matches (callsign : text) (candidate : StationEvidence) : bool :=
  match nonblank (st_callsign candidate) with
  | Some value => eq_ignore_ascii_case value callsign
  | None => false
  end.

Definition name_matches (station : StationEvidence) (candidate : StationEvidence) : bool :=
  negb (bool_decide (normalize (st_name station) = [])) &&
  bool_decide (normalize (st_name candidate) = normalize (st_name station)).

(** The loop over the configured bindings. *)
Fixpoint configured (bindings : list (MappingMethod * option text)) (candidates : list StationEvidence)
  : option MappingDecision :=
  match bindings with
  | [] => None
  | (method, Some epg_id) :: bindings =>
      if has_id candidates epg_id then Some (applied epg_id method (f32_of_Z 1) ConfiguredStableBinding)
      else configured bindings candidates
  | (_, None) :: bindings => configured bindings candidates
  end.

(** The loop over the alias keys. *)
Fixpoint aliased (context : MappingContext) (keys : list text) (candidates : list StationEvidence)
  : option MappingDecision :=
  match keys with
  | [] => None
  | key :: keys =>
      match aliases context !! normalize key with
      | Some epg_id =>
          if has_id candidates epg_id then Some (applied epg_id Alias (hundredths 97) ConfiguredAlias)
          else aliased context keys candidates
      | None => aliased context keys candidates
      end
  end.

Definition exact (matcher : option (StationEvidence -> bool)) (candidates : list StationEvidence)
    (method : MappingMethod) (confidence : f32) : option MappingDecision :=
  match matcher with
  | Some f => unique_or_review (List.filter f candidates) method confidence
  | None => None
  end.

Definition threshold_of (context : MappingContext) : f32 :=
  if f32_gt (fuzzy_threshold context) (f32_of_Z 0) then fuzzy_threshold context else hundredths 82.

Definition fuzzy_candidate (station : StationEvidence) (threshold : f32) (candidate : StationEvidence)
  : option MappingCandidate :=
  if same_scope station candidate then
    let confidence := token_similarity (st_name station) (st_name candidate) in
    if f32_ge confidence threshold
    then Some (mkMappingCandidate (st_id candidate) Fuzzy confidence [TokenSimilarity confidence])
    else None
  else None.

(** The early returns of [reconcile_epg], in order: the first that decides. *)
Definition first_decision (steps : list (option MappingDecision)) (otherwise : MappingDecision)
  : MappingDecision :=
  default otherwise (head (omap id steps)).

Definition reconcile_epg (station : StationEvidence) (candidates : list StationEvidence)
    (context : MappingContext) : MappingDecision :=
  if bool_decide (candidates = []) then Unresolved NoCandidates
  else
    first_decision
      [configured [(Manual, manual context !! st_id station); (Previous, previous context !! st_id station)]
         candidates;
       exact (tvg_matches <$> nonblank (st_tvg_id station)) candidates TvgId (hundredths 99);
       exact (callsign_matches <$> nonblank (st_callsign station)) candidates Callsign (hundredths 98);
       aliased context (option_list (st_callsign station) ++ [st_name station]) candidates;
       exact (Some (name_matches station)) candidates ExactName (hundredths 95)]
      (let fuzzy := stable_sort fuzzy_lt (omap (fuzzy_candidate station (threshold_of context)) candidates) in
       if bool_decide (zlen fuzzy = 0) then Unresolved NotCorroborated else Review fuzzy FuzzyNeedsReview).
End Reconcile.

Lemma text_lt_le a b : text_le a b && negb (bool_decide (a = b)) = negb (text_le b a).
Proof.
  case_bool_decide as E; [subst; rewrite andb_false_r; by destruct (text_le_total b b) as [-> | ->]|].
  rewrite andb_true_r. destruct (text_le a b) eqn:E1, (text_le b a) eqn:E2; try done.
  - by destruct E; apply text_le_anti.
  - destruct (text_le_total a b); congruence.
Qed.

(** *** The keys of the review queue *)

Definition pair_le (p q : f32 * text) : bool :=
  key_lt (total_key (fst q)) (total_key (fst p)) ||
  (bool_decide (total_key (fst p) = total_key (fst q)) && text_le (snd p) (snd q)).

Lemma pair_le_spec p q :
  pair_le p q = true <->
  key_lt (total_key (fst q)) (total_key (fst p)) = true \/
  (total_key (fst p) = total_key (fst q) /\ text_le (snd p) (snd q) = true).
Proof. unfold pair_le. by rewrite orb_true_iff, andb_true_iff, bool_decide_eq_true. Qed.

Lemma pair_le_total p q : pair_le p q = true \/ pair_le q p = true.
Proof.
  rewrite !pair_le_spec, !key_lt_spec, !key_eq. destruct (text_le_total (snd p) (snd q)) as [-> | ->]; lia.
Qed.

Lemma pair_le_trans p q r : pair_le p q = true -> pair_le q r = true -> pair_le p r = true.
Proof.
  rewrite !pair_le_spec, !key_lt_spec, !key_eq.
  intros [H1 | [H1 L1]] [H2 | [H2 L2]]; try (left; lia). right. split; [lia|]. by eapply text_le_trans.
Qed.

Lemma pair_le_anti p q : pair_le p q = true -> pair_le q p = true -> p = q.
Proof.
  rewrite !pair_le_spec, !key_lt_spec. intros [H1 | [H1 L1]] [H2 | [H2 L2]]; try (rewrite ?key_eq in *; lia).
  destruct p, q. cbn in *. f_equal; [by apply total_key_inj|by apply text_le_anti].
Qed.

(** A fuzzy candidate is its confidence and its id. *)
Definition fuzzy_of (p : f32 * text) : MappingCandidate :=
  mkMappingCandidate (snd p) Fuzzy (fst p) [TokenSimilarity (fst p)].

Lemma fuzzy_lt_pair p q : fuzzy_lt (fuzzy_of p) (fuzzy_of q) = negb (pair_le q p).
Proof.
  unfold fuzzy_lt, pair_le. cbn [mc_confidence mc_epg_id fuzzy_of]. rewrite <- andb_assoc, text_lt_le.
  destruct (text_le (snd q) (snd p)) eqn:Et; cbn [negb];
    rewrite ?andb_false_r, ?andb_true_r, ?orb_false_r;
    apply eq_true_iff_eq; rewrite ?orb_true_iff, ?negb_true_iff, ?orb_false_iff, ?bool_decide_eq_true, ?bool_decide_eq_false;
    rewrite <- ?not_true_iff_false, ?key_lt_spec, ?key_eq; lia.
Qed.

(** The ids of the candidates, in the order of the review queue. *)
Definition sorted_ids (candidates : list StationEvidence) : list text :=
  stable_sort (fun a b => negb (text_le b a)) (List.map st_id candidates).

Lemma sorted_ids_perm l l' : l ≡ₚ l' -> sorted_ids l = sorted_ids l'.
Proof.
  intros Hp. apply stable_sort_unique; [apply text_le_total|apply text_le_trans|apply text_le_anti|].
  by apply Permutation_map.
Qed.

Lemma sorted_ids_length l : length (sorted_ids l) = length l.
Proof.
  destruct (stable_sort_acc text_le text_le_total text_le_trans (List.map st_id l) []) as [Hp _].
  apply Permutation_length in Hp. rewrite length_app, length_map in Hp. cbn in Hp. rewrite Nat.add_0_r in Hp. exact Hp.
Qed.

(** The decision on the candidates that share a field depends on their ids. *)
Definition ids_decision (ids : list text) (method : MappingMethod) (confidence : f32) : option MappingDecision :=
  match ids with
  | [] => None
  | [id] => Some (applied id method confidence (Exact method))
  | _ => Some (Review (List.map (fun id => mkMappingCandidate id method confidence [AmbiguousExact method]) ids)
                 (SharedField method))
  end.

Lemma unique_or_review_ids l method confidence :
  unique_or_review l method confidence = ids_decision (sorted_ids l) method confidence.
Proof.
  destruct l as [|x [|y l]]; [done|done|]. unfold unique_or_review.
  pose proof (sorted_ids_length (x :: y :: l)) as Hl. unfold ids_decision.
  assert (List.map st_id (stable_sort id_lt (x :: y :: l)) = sorted_ids (x :: y :: l)) as <-.
  { apply stable_sort_map. intros a b. apply text_lt_le. }
  destruct (stable_sort id_lt (x :: y :: l)) as [|a [|b sorted]] eqn:E.
  - exfalso. unfold sorted_ids in Hl. rewrite <- (stable_sort_map st_id id_lt) in Hl by (intros; apply text_lt_le).
    by rewrite E in Hl.
  - exfalso. unfold sorted_ids in Hl. rewrite <- (stable_sort_map st_id id_lt) in Hl by (intros; apply text_lt_le).
    by rewrite E in Hl.
  - cbn. by rewrite map_map.
Qed.

Lemma filter_perm {A} (f : A -> bool) l l' : l ≡ₚ l' -> List.filter f l ≡ₚ List.filter f l'.
Proof.
  induction 1 as [|x l l' Hp IH|x y l|l1 l2 l3 H1 IH1 H2 IH2]; cbn; [done| | |by etrans].
  - case_match; [by constructor|done].
  - repeat case_match; try done. apply Permutation_swap.
Qed.

Lemma omap_perm {A B} (f : A -> option B) l l' : l ≡ₚ l' -> omap f l ≡ₚ omap f l'.
Proof.
  induction 1 as [|x l l' Hp IH|x y l|l1 l2 l3 H1 IH1 H2 IH2]; cbn; [done| | |by etrans].
  - case_match; [by constructor|done].
  - repeat case_match; try done. apply Permutation_swap.
Qed.

Lemma has_id_perm l l' id : l ≡ₚ l' -> has_id l id = has_id l' id.
Proof.
  intros Hp. apply eq_true_iff_eq. unfold has_id. rewrite !existsb_exists.
  split; intros (x & Hx & H); exists x; (split; [|done]); eapply Permutation_in; (done || by symmetry).
Qed.

Lemma exact_perm m l l' method confidence : l ≡ₚ l' -> exact m l method confidence = exact m l' method confidence.
Proof.
  intros Hp. destruct m as [f|]; [|done]. cbn. rewrite !unique_or_review_ids.
  by rewrite (sorted_ids_perm _ _ (filter_perm f _ _ Hp)).
Qed.

Lemma configured_perm bindings l l' : l ≡ₚ l' -> configured bindings l = configured bindings l'.
Proof.
  intros Hp. induction bindings as [|[method [id|]] bindings IH]; cbn; [done| |done].
  by rewrite (has_id_perm l l' id Hp), IH.
Qed.

Section Properties.
Context (is_alphanumeric : Z -> bool).

Lemma aliased_perm context keys l l' :
  l ≡ₚ l' -> aliased is_alphanumeric context keys l = aliased is_alphanumeric context keys l'.
Proof using.
  intros Hp. induction keys as [|key keys IH]; cbn; [done|]. case_match; [|done].
  by rewrite (has_id_perm l l' _ Hp), IH.
Qed.

(** The confidence and the id of a fuzzy candidate. *)
Definition fuzzy_pair (station : StationEvidence) (threshold : f32) (candidate : StationEvidence)
  : option (f32 * text) :=
  (fun c => (mc_confidence c, mc_epg_id c)) <$> fuzzy_candidate is_alphanumeric station threshold candidate.

Lemma fuzzy_candidates_pairs station threshold l :
  omap (fuzzy_candidate is_alphanumeric station threshold) l = List.map fuzzy_of (omap (fuzzy_pair station threshold) l).
Proof using.
  induction l as [|c l IH]; cbn [omap list_omap]; [done|]. rewrite IH.
  assert (fuzzy_pair station threshold c =
    (fun c => (mc_confidence c, mc_epg_id c)) <$> fuzzy_candidate is_alphanumeric station threshold c) as -> by done.
  assert (forall x, fuzzy_candidate is_alphanumeric station threshold c = Some x -> fuzzy_of (mc_confidence x, mc_epg_id x) = x) as Hx.
  { intros x. unfold fuzzy_candidate. case_match; [|done]. case_match; [|done]. by intros [= <-]. }
  destruct (fuzzy_candidate is_alphanumeric station threshold c) as [x|]; cbn [fmap option_fmap option_map List.map]; [|done].
  by rewrite Hx.
Qed.

Lemma fuzzy_perm station threshold l l' :
  l ≡ₚ l' ->
  stable_sort fuzzy_lt (omap (fuzzy_candidate is_alphanumeric station threshold) l) =
  stable_sort fuzzy_lt (omap (fuzzy_candidate is_alphanumeric station threshold) l').
Proof using.
  intros Hp. rewrite !fuzzy_candidates_pairs.
  rewrite <- !(stable_sort_map fuzzy_of (fun p q => negb (pair_le q p))) by (intros; by rewrite fuzzy_lt_pair).
  f_equal. apply stable_sort_unique; [apply pair_le_total|apply pair_le_trans|apply pair_le_anti|].
  by apply omap_perm.
Qed.

(** C13. Determinism: the decision does not depend on the order in which the
    guide lists its candidates; ambiguous and fuzzy candidates come out in
    the same order too. *)
Theorem reconcile_order_independent station candidates candidates' context :
  candidates ≡ₚ candidates' ->
  reconcile_epg is_alphanumeric station candidates context =
  reconcile_epg is_alphanumeric station candidates' context.
Proof using.
  intros Hp. unfold reconcile_epg.
  assert (bool_decide (candidates = []) = bool_decide (candidates' = [])) as ->.
  { apply bool_decide_ext. split; intros ->; [by apply Permutation_nil in Hp|by symmetry in Hp; apply Permutation_nil in Hp]. }
  case_bool_decide; [done|].
  rewrite (fuzzy_perm station _ _ _ Hp), (configured_perm _ _ _ Hp), (aliased_perm context _ _ _ Hp).
  by rewrite !(exact_perm _ _ _ _ _ Hp).
Qed.

(** Why a binding may be applied without review. *)
Definition warrants (station : StationEvidence) (candidates : list StationEvidence) (context : MappingContext)
    (c : MappingCandidate) : Prop :=
  let only f := exists candidate, List.filter f candidates = [candidate] /\ st_id candidate = mc_epg_id c in
  match mc_method c with
  | Manual => manual context !! st_id station = Some (mc_epg_id c)
  | Previous => previous context !! st_id station = Some (mc_epg_id c)
  | TvgId => exists t, nonblank (st_tvg_id station) = Some t /\ only (tvg_matches t)
  | Callsign => exists s, nonblank (st_callsign station) = Some s /\ only (callsign_matches s)
  | Alias => exists key, (st_callsign station = Some key \/ st_name station = key) /\
      aliases context !! normalize is_alphanumeric key = Some (mc_epg_id c)
  | ExactName => only (name_matches is_alphanumeric station)
  | Fuzzy => False
  end.

Lemma first_decision_inv steps otherwise d :
  first_decision steps otherwise = d -> d = otherwise \/ Some d ∈ steps.
Proof using.
  unfold first_decision. induction steps as [|[x|] steps IH]; cbn.
  - by left.
  - intros <-. right. by left.
  - intros H. destruct (IH H) as [? | ?]; [by left|right; by right].
Qed.

Lemma exact_applied m candidates method confidence c :
  exact m candidates method confidence = Some (Applied c) ->
  mc_method c = method /\ exists f candidate, m = Some f /\ List.filter f candidates = [candidate] /\
    st_id candidate = mc_epg_id c.
Proof using.
  destruct m as [f|]; [|done]. cbn. unfold unique_or_review.
  destruct (List.filter f candidates) as [|x [|y l]] eqn:E; [done| |done].
  intros [= <-]. cbn. split; [done|]. by exists f, x.
Qed.

Lemma configured_applied bindings candidates c :
  configured bindings candidates = Some (Applied c) ->
  (mc_method c, Some (mc_epg_id c)) ∈ bindings /\ has_id candidates (mc_epg_id c) = true.
Proof using.
  induction bindings as [|[method [id|]] bindings IH]; cbn; [done| |].
  - destruct (has_id candidates id) eqn:E.
    + intros [= <-]. cbn. split; [left|done].
    + intros H. destruct (IH H). split; [by right|done].
  - intros H. destruct (IH H). split; [by right|done].
Qed.

Lemma aliased_applied context keys candidates c :
  aliased is_alphanumeric context keys candidates = Some (Applied c) ->
  mc_method c = Alias /\ has_id candidates (mc_epg_id c) = true /\
  exists key, key ∈ keys /\ aliases context !! normalize is_alphanumeric key = Some (mc_epg_id c).
Proof using.
  induction keys as [|key keys IH]; cbn; [done|].
  assert (aliased is_alphanumeric context keys candidates = Some (Applied c) ->
    mc_method c = Alias /\ has_id candidates (mc_epg_id c) = true /\
    exists key', key' ∈ key :: keys /\ aliases context !! normalize is_alphanumeric key' = Some (mc_epg_id c)) as IH'.
  { intros H. destruct (IH H) as (? & ? & k & ? & ?). split; [done|]. split; [done|]. exists k. split; [by right|done]. }
  destruct (aliases context !! normalize is_alphanumeric key) as [id|] eqn:E; [|done].
  destruct (has_id candidates id) eqn:Eh; [|done]. intros [= <-]. cbn.
  split; [done|]. split; [done|]. exists key. split; [left|done].
Qed.

Lemma has_id_in candidates id : has_id candidates id = true -> exists candidate, candidate ∈ candidates /\ st_id candidate = id.
Proof using.
  unfold has_id. rewrite existsb_exists. intros (x & Hx & H). apply bool_decide_eq_true in H.
  exists x. split; [by apply list_elem_of_In|done].
Qed.

Lemma filter_one_in {A} (f : A -> bool) l x : List.filter f l = [x] -> x ∈ l.
Proof using.
  intros H. apply list_elem_of_In. eapply proj1. apply (filter_In f). rewrite H. by left.
Qed.

(** C12. Safe application: a binding is applied only to a channel the guide
    lists, and only on a configured binding, a configured alias, or exact
    evidence that no other candidate shares; never on fuzzy evidence.  Any
    other decision keeps the binding that was active. *)
Theorem reconcile_applies_safely station candidates context current :
  let decision := reconcile_epg is_alphanumeric station candidates context in
  match decision with
  | Applied c => (exists candidate, candidate ∈ candidates /\ st_id candidate = mc_epg_id c) /\
      warrants station candidates context c /\ apply_non_destructive current decision = Some (mc_epg_id c)
  | Review _ _ | Unresolved _ => apply_non_destructive current decision = current
  end.
Proof using.
  cbn zeta. destruct (reconcile_epg is_alphanumeric station candidates context) as [c| |] eqn:Hd; [|done|done].
  assert ((exists candidate, candidate ∈ candidates /\ st_id candidate = mc_epg_id c) /\
    warrants station candidates context c) as [H1 H2]; [|done].
  unfold reconcile_epg in Hd. case_bool_decide; [done|]. apply first_decision_inv in Hd.
  destruct Hd as [Hd | Hd]; [by case_bool_decide|]. unfold warrants.
  repeat (apply elem_of_cons in Hd as [Hd | Hd]); [| | | | |by apply not_elem_of_nil in Hd]; symmetry in Hd.
  - apply configured_applied in Hd as [Hb Hid]. split; [by apply has_id_in|].
    repeat (apply elem_of_cons in Hb as [[= -> Hb] | Hb]); done || by apply not_elem_of_nil in Hb.
  - apply exact_applied in Hd as (-> & f & x & Hm & Hx & Hid).
    destruct (nonblank (st_tvg_id station)) as [t|]; [|done]. injection Hm as <-.
    split; [exists x; split; [by eapply filter_one_in|done]|]. exists t. split; [done|]. by exists x.
  - apply exact_applied in Hd as (-> & f & x & Hm & Hx & Hid).
    destruct (nonblank (st_callsign station)) as [t|]; [|done]. injection Hm as <-.
    split; [exists x; split; [by eapply filter_one_in|done]|]. exists t. split; [done|]. by exists x.
  - apply aliased_applied in Hd as (-> & Hid & key & Hk & Ha). split; [by apply has_id_in|]. exists key. split; [|done].
    apply elem_of_app in Hk as [Hk | Hk%list_elem_of_singleton]; [left|by right].
    destruct (st_callsign station); cbn in Hk; [|by apply not_elem_of_nil in Hk].
    apply list_elem_of_singleton in Hk. by subst.
  - apply exact_applied in Hd as (-> & f & x & [= <-] & Hx & Hid).
    split; [exists x; split; [by eapply filter_one_in|done]|]. by exists x.
Qed.
End Properties.
