(* ===== verification/M3u.v ===== *)
(** * The M3U parser

    Models [crates/parsers/src/m3u.rs] with the data of [diagnostics.rs]: the
    line reader with its limits, the parser of a playlist with a visitor for
    the entries, and the parsers of a header, an entry and a directive.

    A [BufRead] is the list of the buffers it hands out; an [Err] in it is an
    I/O error, an empty buffer the end.  [Url::parse] is the parameter
    [url_parse].  Indices into a [str] are the parts they cut it into; the
    tests on bytes are for ASCII bytes, so they are tests on characters.  The
    message of a diagnostic, which no code reads, is left out.  The counters
    cannot wrap: each counts lines of an input whose bytes a [u64] counts. *)
From Stdlib Require Import ZArith Lia Floats.SpecFloat.
From stdpp Require Import base numbers option strings gmap.
From stdpp Require Import list.
From S2P Require Import Prelude Text.
Open Scope Z_scope.

(** ** Diagnostics *)

Inductive Severity := SevWarning | SevError.
#[export] Instance severity_eq_dec : EqDecision Severity.
Proof. solve_decision. Defined.

Inductive DiagnosticCode :=
| MissingHeader | OrphanMetadata | OrphanUrl | ReplacedPendingEntry | InvalidAttribute | InvalidDuration
| InvalidUrl | UnknownDirective | InvalidXmltvRecord | UnknownXmlElement | InvalidTimestamp
| InvalidInterval | UndeclaredChannel | DuplicateIdentity | InvalidEventRule | InvalidXtreamRecord.

Record Diagnostic := mkDiagnostic {
  dg_severity : Severity;
  dg_code : DiagnosticCode;
  dg_line : option Z;
  dg_byte_offset : option Z;
}.
Definition warning (code : DiagnosticCode) (line byte_offset : option Z) : Diagnostic :=
  mkDiagnostic SevWarning code line byte_offset.
Definition error (code : DiagnosticCode) (line byte_offset : option Z) : Diagnostic :=
  mkDiagnostic SevError code line byte_offset.

Record ParseStats := mkParseStats {
  bytes_read : Z;
  lines_read : Z;
  records_seen : Z;
  records_emitted : Z;
  records_skipped : Z;
  unknown_metadata : Z;
  warnings : Z;
  errors : Z;
}.
Definition stats_default : ParseStats := mkParseStats 0 0 0 0 0 0 0 0.

Definition observe_diagnostic (s : ParseStats) (d : Diagnostic) : ParseStats :=
  match dg_severity d with
  | SevWarning =>
      mkParseStats (bytes_read s) (lines_read s) (records_seen s) (records_emitted s) (records_skipped s)
        (unknown_metadata s) (warnings s + 1) (errors s)
  | SevError =>
      mkParseStats (bytes_read s) (lines_read s) (records_seen s) (records_emitted s) (records_skipped s)
        (unknown_metadata s) (warnings s) (errors s + 1)
  end.

(** The increments of the counters. *)
Definition count_line (s : ParseStats) : ParseStats :=
  mkParseStats (bytes_read s) (lines_read s + 1) (records_seen s) (records_emitted s) (records_skipped s)
    (unknown_metadata s) (warnings s) (errors s).
Definition count_records (s : ParseStats) (seen emitted skipped : Z) : ParseStats :=
  mkParseStats (bytes_read s) (lines_read s) (records_seen s + seen) (records_emitted s + emitted)
    (records_skipped s + skipped) (unknown_metadata s) (warnings s) (errors s).
Definition count_unknown (s : ParseStats) : ParseStats :=
  mkParseStats (bytes_read s) (lines_read s) (records_seen s) (records_emitted s) (records_skipped s)
    (unknown_metadata s + 1) (warnings s) (errors s).

Record ParseLimits := mkParseLimits {
  max_input_bytes : Z;
  max_line_bytes : Z;
  max_records : Z;
  max_text_bytes : Z;
  max_xml_depth : Z;
}.
Definition limits_default : ParseLimits := mkParseLimits (64 * 1024 * 1024) (64 * 1024) 1000000 (1024 * 1024) 64.

Inductive ParseError :=
| Io
| InputTooLarge (limit : Z)
| LineTooLong (line limit : Z)
| TooManyRecords (limit : Z)
| TextTooLarge (limit : Z)
| XmlTooDeep (limit : Z)
| InvalidUtf8 (line : Z)
| MalformedM3u (message : text)
| MalformedXmltv (offset : Z) (message : text)
| XmlDoctypeForbidden
| MalformedEventRules (message : text)
| MalformedXtream (message : text).

(** ** The line reader *)

Abbreviation BufReader := (list (result bytes unit)).

(** [available.iter().position(|byte| *byte == b'\n').map_or(available.len(), |index| index + 1)] *)
Fixpoint line_take (available : bytes) : Z :=
  match available with
  | [] => 0
  | b :: available => if b =? 10 then 1 else 1 + line_take available
  end.

(** The end of the line: [line] is what was read of it. *)
Definition line_end (line : bytes) (reader : BufReader) (read : Z)
  : result (option bytes * BufReader * Z) ParseError :=
  Ok (if bool_decide (line = []) then None else Some line, reader, read).

(** The loop of [next_line]: the raw line, the reader and [bytes_read] after
    it.  A buffer without a newline is consumed whole. *)
Fixpoint read_line (limits : ParseLimits) (line_number : Z) (reader : BufReader) (line : bytes) (read : Z)
  : result (option bytes * BufReader * Z) ParseError :=
  match reader with
  | [] => line_end line reader read
  | Err _ :: _ => Err Io
  | Ok available :: rest =>
      if bool_decide (available = []) then line_end line rest read
      else
        let take := line_take available in
        if max_line_bytes limits <? sat_add u64_max (zlen line) take
        then Err (LineTooLong (line_number + 1) (max_line_bytes limits))
        else
          let chunk := ztake take available in
          let read := sat_add u64_max read take in
          if max_input_bytes limits <? read then Err (InputTooLarge (max_input_bytes limits))
          else
            let line := line ++ chunk in
            if bool_decide (last chunk = Some 10)
            then Ok (Some line, if take =? zlen available then rest else Ok (zdrop take available) :: rest, read)
            else read_line limits line_number rest line read
  end.

(** [while matches!(line.last(), Some(b'\n' | b'\r')) { line.pop(); }] *)
Definition strip_newline (line : bytes) : bytes :=
  rev (drop_while (fun b => (b =? 10) || (b =? 13)) (rev line)).

Record LineReader := mkLineReader { lr_inner : BufReader; lr_bytes_read : Z; lr_line_number : Z }.

Definition next_line (limits : ParseLimits) (reader : LineReader)
  : result (option (Z * text) * LineReader) ParseError :=
  match read_line limits (lr_line_number reader) (lr_inner reader) [] (lr_bytes_read reader) with
  | Err e => Err e
  | Ok (None, inner, read) => Ok (None, mkLineReader inner read (lr_line_number reader))
  | Ok (Some line, inner, read) =>
      let number := lr_line_number reader + 1 in
      match from_utf8 (strip_newline line) with
      | None => Err (InvalidUtf8 number)
      | Some line => Ok (Some (number, line), mkLineReader inner read number)
      end
  end.

(** ** Numbers *)

(** The binary64 nearest to [m * 10^e], ties to even. *)
Definition f64_of_decimal (negative : bool) (m e : Z) : spec_float :=
  if m =? 0 then S754_zero negative
  else if 0 <=? e then binary_round 53 1024 negative (Z.to_pos (m * 10 ^ e)) 0
  else
    let '(q, exponent, location) := SFdiv_core_binary 53 1024 m 0 (10 ^ (- e)) 0 in
    binary_round_aux 53 1024 negative q exponent location.

Definition parse_sign (s : text) : bool * text :=
  match s with
  | c :: s' => if c =? 0x2d then (true, s') else if c =? 0x2b then (false, s') else (false, s)
  | [] => (false, [])
  end.

(** The exponent of a number, which must end it. *)
Definition parse_exponent (s : text) : option Z :=
  match s with
  | [] => Some 0
  | c :: s =>
      if (c =? 0x65) || (c =? 0x45) then
        let '(negative, s) := parse_sign s in
        match span is_ascii_digit s with
        | (c :: digits, []) => Some (if negative : bool then - digits_value (c :: digits) else digits_value (c :: digits))
        | _ => None
        end
      else None
  end.

(** [str::parse::<f64>] *)
Definition parse_f64 (s : text) : option spec_float :=
  let '(negative, s) := parse_sign s in
  let '(int, rest) := span is_ascii_digit s in
  let '(frac, rest) :=
    match rest with
    | c :: rest' => if c =? 0x2e then span is_ascii_digit rest' else ([], rest)
    | [] => ([], [])
    end in
  if bool_decide (int ++ frac = []) then
    if eq_ignore_ascii_case s (str "inf") || eq_ignore_ascii_case s (str "infinity")
    then Some (S754_infinity negative)
    else if eq_ignore_ascii_case s (str "nan") then Some S754_nan
    else None
  else
    exponent ← parse_exponent rest;
    Some (f64_of_decimal negative (digits_value (int ++ frac)) (exponent - zlen frac)).

Definition f64_is_finite (a : spec_float) : bool :=
  match a with S754_zero _ | S754_finite _ _ _ => true | _ => false end.

(** ** Attributes, directives and headers *)

Abbreviation Attributes := (gmap text text).

Definition is_quote (c : Z) : bool := (c =? 0x27) || (c =? 0x22).

(** The value of an attribute after [=] and white space: the value, the rest,
    and whether its quote is not closed. *)
Definition attribute_value (s : text) : text * text * bool :=
  match s with
  | quote :: s' =>
      if is_quote quote then
        match span (fun c => negb (c =? quote)) s' with
        | (value, []) => (value, [], true)
        | (value, _ :: rest) => (value, rest, false)
        end
      else let '(value, rest) := span (fun c => negb (is_ascii_whitespace c)) s in (value, rest, false)
  | [] => ([], [], false)
  end.

(** The loop of [parse_attributes] on what is left of the text; every turn
    consumes a character. *)
Fixpoint attributes_loop (fuel : nat) (s : text) (attributes : Attributes) (line_number : Z)
  : Attributes * list Diagnostic :=
  match fuel with
  | O => (attributes, [])
  | S fuel =>
      let s := drop_while is_ascii_whitespace s in
      if bool_decide (s = []) then (attributes, [])
      else
        let '(key, s) := span (fun c => negb (is_ascii_whitespace c) && negb (c =? 0x3d)) s in
        match drop_while is_ascii_whitespace s with
        | c :: s' =>
            if c =? 0x3d then
              let '(value, rest, unterminated) := attribute_value (drop_while is_ascii_whitespace s') in
              let attributes :=
                if bool_decide (key = []) then attributes
                else <[List.map to_ascii_lowercase key := value]> attributes in
              let '(attributes, diagnostics) := attributes_loop fuel rest attributes line_number in
              (attributes,
               if unterminated : bool then warning InvalidAttribute (Some line_number) None :: diagnostics
               else diagnostics)
            else
              let '(attributes, diagnostics) :=
                attributes_loop fuel (drop_while (fun c => negb (is_ascii_whitespace c)) (c :: s'))
                  attributes line_number in
              (attributes, warning InvalidAttribute (Some line_number) None :: diagnostics)
        | [] => (attributes, [warning InvalidAttribute (Some line_number) None])
        end
  end.
Definition parse_attributes (value : text) (line_number : Z) : Attributes * list Diagnostic :=
  attributes_loop (S (length value)) value ∅ line_number.

Record M3uHeader := mkM3uHeader { hd_attributes : Attributes; hd_raw : text }.

Definition parse_header (line : text) (line_number : Z) : M3uHeader * list Diagnostic :=
  let tail := trim (default [] (strip_prefix (str "#EXTM3U") line)) in
  let '(attributes, diagnostics) := parse_attributes tail line_number in
  (mkM3uHeader attributes line, diagnostics).

Record M3uDirective := mkM3uDirective { di_name : text; di_value : option text; di_raw : text }.

Definition parse_directive (line : text) : M3uDirective :=
  let without_hash := default line (strip_prefix (str "#") line) in
  match split_once 0x3a without_hash with
  | Some (name, value) => mkM3uDirective name (Some value) line
  | None => mkM3uDirective without_hash None line
  end.

(** ** Entries *)

Record PendingEntry := mkPendingEntry {
  pe_duration_seconds : option spec_float;
  pe_title : text;
  pe_attributes : Attributes;
  pe_directives : list M3uDirective;
  pe_raw_extinf : text;
  pe_line : Z;
}.

(** What is before the first comma outside quotes, and what is after it. *)
Fixpoint comma_outside_quotes (quote : option Z) (s : text) : option (text * text) :=
  match s with
  | [] => None
  | c :: s =>
      if is_quote c && bool_decide (quote = Some c) then prod_map (cons c) id <$> comma_outside_quotes None s
      else if is_quote c && bool_decide (quote = None)
      then prod_map (cons c) id <$> comma_outside_quotes (Some c) s
      else if (c =? 0x2c) && bool_decide (quote = None) then Some ([], s)
      else prod_map (cons c) id <$> comma_outside_quotes quote s
  end.

Definition parse_extinf (line : text) (line_number : Z) (stats : ParseStats)
  : PendingEntry * list Diagnostic * ParseStats :=
  let body := default [] (strip_prefix (str "#EXTINF:") line) in
  let '(metadata, title) := default (body, []) (comma_outside_quotes None body) in
  let metadata := trim metadata in
  let '(duration_raw, attribute_raw) := span (fun c => negb (is_whitespace c)) metadata in
  let attribute_raw := trim attribute_raw in
  let '(duration, invalid) :=
    if bool_decide (duration_raw = []) then (None, [])
    else
      match parse_f64 duration_raw with
      | Some value =>
          if f64_is_finite value then (Some value, [])
          else (None, [warning InvalidDuration (Some line_number) None])
      | None => (None, [warning InvalidDuration (Some line_number) None])
      end in
  let stats := fold_left observe_diagnostic invalid stats in
  let '(attributes, diagnostics) := parse_attributes attribute_raw line_number in
  (mkPendingEntry duration (trim title) attributes [] line line_number, invalid ++ diagnostics, stats).

Definition record_limit_reached (seen maximum : Z) : bool :=
  match checked u64_max seen with Some seen => maximum <=? seen | None => true end.

(** ** The parser *)

Section Parser.
Context {Url : Type} (url_parse : text -> option Url).

Record M3uEntry := mkM3uEntry {
  m3_duration_seconds : option spec_float;
  m3_title : text;
  m3_attributes : Attributes;
  m3_url : Url;
  m3_directives : list M3uDirective;
  m3_raw_extinf : option text;
}.

(** The playlist without its entries, which go to the visitor. *)
Record M3uPlaylist := mkM3uPlaylist {
  pl_header : M3uHeader;
  pl_global_directives : list M3uDirective;
  pl_diagnostics : list Diagnostic;
  pl_stats : ParseStats;
}.
Definition playlist_default : M3uPlaylist := mkM3uPlaylist (mkM3uHeader ∅ []) [] [] stats_default.

Definition push_diagnostic (p : M3uPlaylist) (d : Diagnostic) : M3uPlaylist :=
  mkM3uPlaylist (pl_header p) (pl_global_directives p) (pl_diagnostics p ++ [d])
    (observe_diagnostic (pl_stats p) d).
Definition set_stats (p : M3uPlaylist) (stats : ParseStats) : M3uPlaylist :=
  mkM3uPlaylist (pl_header p) (pl_global_directives p) (pl_diagnostics p) stats.

(** The visitor: a closure with its state. *)
Context {V : Type} (visit : V -> M3uEntry -> V * result unit ParseError).

Record M3uState := mkM3uState {
  st_playlist : M3uPlaylist;
  st_pending : option PendingEntry;
  st_saw_content : bool;
  st_saw_header : bool;
  st_visitor : V;
}.

(** The first line with content: a header ends its turn. *)
Definition first_content (st : M3uState) (line_number : Z) (line : text) : M3uState * bool :=
  let p := st_playlist st in
  if st_saw_content st then (st, false)
  else if starts_with (str "#EXTM3U") line then
    let '(header, diagnostics) := parse_header line line_number in
    (mkM3uState (mkM3uPlaylist header (pl_global_directives p) (pl_diagnostics p ++ diagnostics) (pl_stats p))
       (st_pending st) true true (st_visitor st), true)
  else
    (mkM3uState (push_diagnostic p (warning MissingHeader (Some line_number) None)) (st_pending st) true
       (st_saw_header st) (st_visitor st), false).

Definition extinf_line (limits : ParseLimits) (st : M3uState) (line_number : Z) (line : text)
  : result M3uState ParseError :=
  let p := st_playlist st in
  if record_limit_reached (records_seen (pl_stats p)) (max_records limits)
  then Err (TooManyRecords (max_records limits))
  else
    let p := set_stats p (count_records (pl_stats p) 1 0 0) in
    let p :=
      match st_pending st with
      | Some previous =>
          push_diagnostic (set_stats p (count_records (pl_stats p) 0 0 1))
            (warning ReplacedPendingEntry (Some (pe_line previous)) None)
      | None => p
      end in
    let '(entry, diagnostics, stats) := parse_extinf line line_number (pl_stats p) in
    Ok (mkM3uState
      (mkM3uPlaylist (pl_header p) (pl_global_directives p) (pl_diagnostics p ++ diagnostics) stats)
      (Some entry) (st_saw_content st) (st_saw_header st) (st_visitor st)).

(** [EXTGRP] gives the group of an entry that has none. *)
Definition entry_directive (entry : PendingEntry) (directive : M3uDirective) : PendingEntry :=
  let attributes :=
    match pe_attributes entry !! str "group-title", di_value directive with
    | None, Some value =>
        if eq_ignore_ascii_case (di_name directive) (str "EXTGRP")
        then <[str "group-title" := trim value]> (pe_attributes entry) else pe_attributes entry
    | _, _ => pe_attributes entry
    end in
  mkPendingEntry (pe_duration_seconds entry) (pe_title entry) attributes (pe_directives entry ++ [directive])
    (pe_raw_extinf entry) (pe_line entry).

Definition directive_line (st : M3uState) (line : text) : M3uState :=
  let directive := parse_directive line in
  let p := st_playlist st in
  let p :=
    if bool_decide (di_name directive ∈ [str "EXTGRP"; str "EXTVLCOPT"]) then p
    else set_stats p (count_unknown (pl_stats p)) in
  match st_pending st with
  | Some entry =>
      mkM3uState p (Some (entry_directive entry directive)) (st_saw_content st) (st_saw_header st)
        (st_visitor st)
  | None =>
      mkM3uState
        (mkM3uPlaylist (pl_header p) (pl_global_directives p ++ [directive]) (pl_diagnostics p) (pl_stats p))
        None (st_saw_content st) (st_saw_header st) (st_visitor st)
  end.

Definition url_line (limits : ParseLimits) (st : M3uState) (line_number : Z) (line : text)
  : M3uState * option ParseError :=
  let p := st_playlist st in
  match url_parse line with
  | Some url =>
      if max_records limits <=? default u64_max (checked u64_max (records_emitted (pl_stats p)))
      then (st, Some (TooManyRecords (max_records limits)))
      else
        let '(entry, p) :=
          match st_pending st with
          | Some pending =>
              (mkM3uEntry (pe_duration_seconds pending) (pe_title pending) (pe_attributes pending) url
                 (pe_directives pending) (Some (pe_raw_extinf pending)), p)
          | None =>
              let p := push_diagnostic p (warning OrphanUrl (Some line_number) None) in
              (mkM3uEntry None [] ∅ url [] None, set_stats p (count_records (pl_stats p) 1 0 0))
          end in
        match visit (st_visitor st) entry with
        | (visitor, Err e) => (mkM3uState p None (st_saw_content st) (st_saw_header st) visitor, Some e)
        | (visitor, Ok _) =>
            (mkM3uState (set_stats p (count_records (pl_stats p) 0 1 0)) None (st_saw_content st)
               (st_saw_header st) visitor, None)
        end
  | None =>
      let skipped := if bool_decide (is_Some (st_pending st)) then 1 else 0 in
      let p := set_stats p (count_records (pl_stats p) 0 0 skipped) in
      (mkM3uState (push_diagnostic p (error InvalidUrl (Some line_number) None)) None (st_saw_content st)
         (st_saw_header st) (st_visitor st), None)
  end.

(** One turn of the loop. *)
Definition m3u_line (limits : ParseLimits) (st : M3uState) (line_number : Z) (line : text)
  : M3uState * option ParseError :=
  let st := mkM3uState (set_stats (st_playlist st) (count_line (pl_stats (st_playlist st)))) (st_pending st)
              (st_saw_content st) (st_saw_header st) (st_visitor st) in
  let line := trim (default line (strip_prefix [0xfeff] line)) in
  if bool_decide (line = []) then (st, None)
  else
    let '(st, done) := first_content st line_number line in
    if done : bool then (st, None)
    else if starts_with (str "#EXTINF:") line then
      match extinf_line limits st line_number line with
      | Ok st => (st, None)
      | Err e => (st, Some e)
      end
    else if starts_with (str "#") line then (directive_line st line, None)
    else url_line limits st line_number line.

(** The loop; a line consumes at least one byte, so the bytes of the input
    bound the turns.  [None] is an exhausted bound. *)
Fixpoint m3u_loop (fuel : nat) (limits : ParseLimits) (reader : LineReader) (st : M3uState)
  : option (M3uState * result LineReader ParseError) :=
  match fuel with
  | O => None
  | S fuel =>
      match next_line limits reader with
      | Err e => Some (st, Err e)
      | Ok (None, reader) => Some (st, Ok reader)
      | Ok (Some (line_number, line), reader) =>
          match m3u_line limits st line_number line with
          | (st, Some e) => Some (st, Err e)
          | (st, None) => m3u_loop fuel limits reader st
          end
      end
  end.

Definition severity_count (severity : Severity) (l : list Diagnostic) : Z :=
  zlen (List.filter (fun d => bool_decide (dg_severity d = severity)) l).

(** After the last line. *)
Definition m3u_finish (st : M3uState) (read : Z) : M3uPlaylist :=
  let p := st_playlist st in
  let p :=
    match st_pending st with
    | Some entry =>
        push_diagnostic (set_stats p (count_records (pl_stats p) 0 0 1))
          (warning OrphanMetadata (Some (pe_line entry)) None)
    | None => p
    end in
  let p :=
    if negb (st_saw_header st) && negb (st_saw_content st)
    then push_diagnostic p (warning MissingHeader None None) else p in
  let s := pl_stats p in
  set_stats p
    (mkParseStats read (lines_read s) (records_seen s) (records_emitted s) (records_skipped s)
       (unknown_metadata s)
       (default u64_max (checked u64_max (severity_count SevWarning (pl_diagnostics p))))
       (default u64_max (checked u64_max (severity_count SevError (pl_diagnostics p))))).

Definition buffered (reader : BufReader) : nat :=
  fold_right (fun buffer n => match buffer with Ok b => length b | Err _ => 0 end + n)%nat 0%nat reader.

Definition m3u_start (visitor : V) : M3uState := mkM3uState playlist_default None false false visitor.

Definition parse_m3u_visit (reader : BufReader) (limits : ParseLimits) (visitor : V)
  : option (V * result M3uPlaylist ParseError) :=
  '(st, read) ← m3u_loop (S (buffered reader)) limits (mkLineReader reader 0 0) (m3u_start visitor);
  Some (st_visitor st,
        match read with
        | Err e => Err e
        | Ok reader => Ok (m3u_finish st (lr_bytes_read reader))
        end).
End Parser.
Arguments M3uEntry : clear implicits.
Arguments M3uState : clear implicits.

(** [parse_m3u]: the visitor collects the entries. *)
Definition collect {Url} (entries : list (M3uEntry Url)) (entry : M3uEntry Url)
  : list (M3uEntry Url) * result unit ParseError :=
  (entries ++ [entry], Ok tt).

Definition parse_m3u {Url} (url_parse : text -> option Url) (reader : BufReader) (limits : ParseLimits)
  : option (result (list (M3uEntry Url) * M3uPlaylist) ParseError) :=
  '(entries, parsed) ← parse_m3u_visit url_parse collect reader limits [];
  Some (match parsed with Ok playlist => Ok (entries, playlist) | Err e => Err e end).
