(* ===== verification/M3uSpec.v ===== *)
(** * What the M3U parser promises

    The result does not depend on how the reader cuts the input into buffers;
    the parser always ends; its counters account for every record and stay
    within the limits. *)
From Stdlib Require Import ZArith Lia Floats.SpecFloat.
From stdpp Require Import base numbers option strings gmap.
From stdpp Require Import list.
From S2P Require Import Prelude Text M3u.
Open Scope Z_scope.

(** ** Lines of the input *)

(** The first line of the input with its newline, and the rest. *)
Fixpoint cut_line (s : bytes) : bytes * bytes :=
  match s with
  | [] => ([], [])
  | b :: s => if b =? 10 then ([b], s) else let '(a, r) := cut_line s in (b :: a, r)
  end.

Lemma line_take_cut s :
  line_take s = zlen (fst (cut_line s)) /\ ztake (line_take s) s = fst (cut_line s) /\
  zdrop (line_take s) s = snd (cut_line s).
Proof.
  induction s as [|b s IH]; [done|]. cbn [line_take cut_line]. destruct (b =? 10); [done|].
  destruct (cut_line s) as [a r]. cbn [fst snd] in *. destruct IH as (Hl & Ht & Hd).
  rewrite zlen_cons. pose proof (zlen_nonneg a). split; [lia|]. unfold ztake, zdrop in *.
  replace (Z.to_nat (1 + line_take s)) with (S (Z.to_nat (line_take s))) by lia. cbn. by rewrite Ht, Hd.
Qed.

Lemma cut_line_app s : fst (cut_line s) ++ snd (cut_line s) = s.
Proof.
  induction s as [|b s IH]; [done|]. cbn. destruct (b =? 10); [done|].
  destruct (cut_line s). cbn in *. by rewrite IH.
Qed.

Lemma cut_line_nonempty s : s <> [] -> 1 <= zlen (fst (cut_line s)).
Proof.
  destruct s as [|b s]; [done|]. intros _. cbn. destruct (b =? 10); [done|].
  destruct (cut_line s) as [a r]. cbn. rewrite zlen_cons. pose proof (zlen_nonneg a). lia.
Qed.

(** A prefix without a newline is part of the first line. *)
Lemma cut_line_prefix a s :
  10 ∉ a -> cut_line (a ++ s) = (a ++ fst (cut_line s), snd (cut_line s)).
Proof.
  induction a as [|b a IH]; intros Ha; cbn; [by destruct (cut_line s)|].
  apply not_elem_of_cons in Ha as [Hb Ha]. rewrite (proj2 (Z.eqb_neq _ _)) by done. by rewrite IH.
Qed.

(** A first line that ends with a newline does not depend on what follows. *)
Lemma cut_line_closed s t :
  last (fst (cut_line s)) = Some 10 -> cut_line (s ++ t) = (fst (cut_line s), snd (cut_line s) ++ t).
Proof.
  induction s as [|b s IH]; [done|]. cbn. destruct (b =? 10) eqn:E; [done|].
  destruct (cut_line s) as [a r]. cbn. intros Hl. destruct a as [|x a].
  - cbn in Hl. injection Hl as ->. done.
  - by rewrite IH.
Qed.

(** A first line that does not end with a newline is all there is. *)
Lemma cut_line_open s : last (fst (cut_line s)) <> Some 10 -> cut_line s = (s, []) /\ 10 ∉ s.
Proof.
  induction s as [|b s IH]; [intros _; split; [done|apply not_elem_of_nil]|].
  cbn. destruct (b =? 10) eqn:E; [apply Z.eqb_eq in E as ->; done|].
  destruct (cut_line s) as [a r] eqn:Ec. cbn. intros Hl.
  assert (last a <> Some 10) as Ha. { destruct a as [|x a]; [done|]. intros Hx. by apply Hl. }
  destruct (IH Ha) as [[= -> ->] Hs]. split; [done|]. apply not_elem_of_cons. split; [lia|done].
Qed.

(** ** Readers *)

(** The bytes a reader hands out, and a reader without errors, whose buffers
    are not empty before the end. *)
Definition contents (reader : BufReader) : bytes :=
  concat (List.map (fun buffer => match buffer with Ok b => b | Err _ => [] end) reader).
Definition reads_all (reader : BufReader) : Prop :=
  Forall (fun buffer => match buffer with Ok b => b <> [] | Err _ => False end) reader.

Definition limits_ok (limits : ParseLimits) : Prop :=
  0 <= max_input_bytes limits < u64_max /\ 0 <= max_line_bytes limits < u64_max /\ 0 <= max_records limits <= u64_max.

(** The errors of the reader's limits.  Which of the two comes first depends on
    the buffers. *)
Definition is_limit_error (e : ParseError) : Prop :=
  match e with LineTooLong _ _ | InputTooLarge _ => True | _ => False end.

Section ReadLine.
Context (limits : ParseLimits) (Hlimits : limits_ok limits).

(** What a buffer adds to the line, when it is within the limits. *)
Lemma read_line_step n available reader line read :
  available <> [] -> 0 <= read ->
  read_line limits n (Ok available :: reader) line read =
    let chunk := fst (cut_line available) in
    if negb (zlen line + zlen chunk <=? max_line_bytes limits)
    then Err (LineTooLong (n + 1) (max_line_bytes limits))
    else if negb (read + zlen chunk <=? max_input_bytes limits) then Err (InputTooLarge (max_input_bytes limits))
    else if bool_decide (last chunk = Some 10)
    then Ok (Some (line ++ chunk),
             if bool_decide (snd (cut_line available) = []) then reader else Ok (snd (cut_line available)) :: reader,
             read + zlen chunk)
    else read_line limits n reader (line ++ chunk) (read + zlen chunk).
Proof using Hlimits.
  intros Hb Hr. destruct Hlimits as (Hmi & Hml & _). cbn [read_line]. rewrite (bool_decide_eq_false_2 _ Hb).
  destruct (line_take_cut available) as (Hk & Ht & Hd). rewrite Ht, Hd, Hk. cbn zeta. unfold sat_add.
  pose proof (zlen_nonneg line). pose proof (zlen_nonneg (fst (cut_line available))) as Hf.
  assert (zlen available = zlen (fst (cut_line available)) + zlen (snd (cut_line available))) as Hav.
  { by rewrite <- zlen_app, cut_line_app. }
  set (chunk := fst (cut_line available)) in *.
  replace (max_line_bytes limits <? u64_max `min` (zlen line + zlen chunk))
    with (negb (zlen line + zlen chunk <=? max_line_bytes limits)) by lia.
  destruct (zlen line + zlen chunk <=? max_line_bytes limits); [cbn [negb]|done].
  replace (max_input_bytes limits <? u64_max `min` (read + zlen chunk))
    with (negb (read + zlen chunk <=? max_input_bytes limits)) by lia.
  destruct (read + zlen chunk <=? max_input_bytes limits) eqn:E; [cbn [negb]|done].
  replace (u64_max `min` (read + zlen chunk)) with (read + zlen chunk) by lia.
  destruct (snd (cut_line available)) as [|x rest]; [rewrite zlen_nil in Hav|rewrite zlen_cons in Hav; pose proof (zlen_nonneg rest)].
  - by rewrite (proj2 (Z.eqb_eq _ _)) by lia.
  - by rewrite (proj2 (Z.eqb_neq _ _)) by lia.
Qed.

(** Reading a line depends on the contents only: it gives the first line when
    that is within the limits, and fails otherwise. *)
Lemma read_line_spec n reader line read :
  reads_all reader -> 10 ∉ line -> zlen line <= max_line_bytes limits ->
  0 <= read <= max_input_bytes limits ->
  let '(first, rest) := cut_line (line ++ contents reader) in
  let read' := read + zlen first - zlen line in
  if bool_decide (first = []) then read_line limits n reader line read = Ok (None, [], read) /\ reader = []
  else if (zlen first <=? max_line_bytes limits) && (read' <=? max_input_bytes limits) then
    exists reader', read_line limits n reader line read = Ok (Some first, reader', read') /\
      reads_all reader' /\ contents reader' = rest
  else exists e, read_line limits n reader line read = Err e /\ is_limit_error e.
Proof using Hlimits.
  intros Hr. revert line read. induction Hr as [|buffer reader Hb Hr IH]; intros line read Hline Hlen Hread.
  - change (contents []) with (@nil Z). rewrite cut_line_prefix by done. cbn. rewrite app_nil_r.
    unfold line_end. case_bool_decide; [done|].
    replace (read + zlen line - zlen line) with read by lia.
    rewrite !(proj2 (Z.leb_le _ _)) by lia. cbn. exists []. split; [done|]. split; [constructor|done].
  - destruct buffer as [available|]; [|done].
    change (contents (Ok available :: reader)) with (available ++ contents reader).
    rewrite cut_line_prefix by done. rewrite read_line_step by (done || lia). cbn zeta.
    destruct (decide (last (fst (cut_line available)) = Some 10)) as [Hlast | Hopen].
    + rewrite (cut_line_closed _ (contents reader) Hlast). cbn [fst snd].
      pose proof (cut_line_nonempty _ Hb). rewrite bool_decide_eq_false_2 by (destruct line, (fst (cut_line available)); done).
      rewrite zlen_app, (bool_decide_eq_true_2 _ Hlast).
      replace (read + (zlen line + zlen (fst (cut_line available))) - zlen line) with (read + zlen (fst (cut_line available))) by lia.
      destruct (zlen line + _ <=? _); cbn [negb andb]; [|by eexists].
      destruct (read + _ <=? _); cbn [negb]; [|by eexists].
      eexists. split; [done|]. case_bool_decide as E; [by rewrite E|]. by split; [constructor|].
    + destruct (cut_line_open _ Hopen) as [Hcut H10]. rewrite (bool_decide_eq_false_2 _ Hopen), Hcut. cbn [fst snd].
      rewrite (cut_line_prefix available) by done. cbn [fst snd].
      specialize (IH (line ++ available) (read + zlen available)).
      rewrite cut_line_prefix in IH by (rewrite not_elem_of_app; done). rewrite <- app_assoc, !zlen_app in *.
      pose proof (zlen_nonneg (fst (cut_line (contents reader)))). pose proof (zlen_nonneg available).
      rewrite bool_decide_eq_false_2 in * by (destruct line; [by destruct available|done]).
      destruct (zlen line + zlen available <=? max_line_bytes limits) eqn:E1; cbn [negb].
      2:{ rewrite (proj2 (Z.leb_gt _ _)) by lia. cbn. by eexists. }
      destruct (read + zlen available <=? max_input_bytes limits) eqn:E2; cbn [negb].
      2:{ rewrite (proj2 (Z.leb_gt (_ + _ - _) _)) by lia. rewrite andb_false_r. by eexists. }
      match type of IH with context [?x - (zlen line + zlen available)] =>
        replace (x - (zlen line + zlen available)) with
          (read + (zlen line + (zlen available + zlen (fst (cut_line (contents reader))))) - zlen line) in IH by lia
      end.
      apply IH; [|lia|lia]. rewrite not_elem_of_app. done.
Qed.
End ReadLine.

(** ** Chunking *)

Section Loop.
Context (limits : ParseLimits) (Hlimits : limits_ok limits).

Lemma next_line_spec reader :
  reads_all (lr_inner reader) -> 0 <= lr_bytes_read reader <= max_input_bytes limits ->
  let '(first, rest) := cut_line (contents (lr_inner reader)) in
  let number := lr_line_number reader + 1 in
  let read := lr_bytes_read reader + zlen first in
  if bool_decide (first = []) then
    next_line limits reader = Ok (None, mkLineReader [] (lr_bytes_read reader) (lr_line_number reader))
  else if (zlen first <=? max_line_bytes limits) && (read <=? max_input_bytes limits) then
    match from_utf8 (strip_newline first) with
    | None => next_line limits reader = Err (InvalidUtf8 number)
    | Some line =>
        exists inner, next_line limits reader = Ok (Some (number, line), mkLineReader inner read number) /\
          reads_all inner /\ contents inner = rest
    end
  else exists e, next_line limits reader = Err e /\ is_limit_error e.
Proof using Hlimits.
  intros Hr Hb. unfold next_line.
  pose proof (read_line_spec limits Hlimits (lr_line_number reader) (lr_inner reader) [] (lr_bytes_read reader)
    Hr (not_elem_of_nil _)) as H.
  destruct Hlimits as (_ & Hml & _). rewrite zlen_nil in H. specialize (H (proj1 Hml) Hb). cbn [app] in H.
  destruct (cut_line (contents (lr_inner reader))) as [first rest]. rewrite Z.sub_0_r in H.
  case_bool_decide; [by destruct H as [-> _]|].
  destruct ((zlen first <=? _) && _).
  - destruct H as (inner & -> & Hi & Hc). destruct (from_utf8 _); [|done]. by exists inner.
  - destruct H as (e & -> & He). by exists e.
Qed.

(** Two readers of the same bytes at the same place. *)
Definition same_bytes (a b : LineReader) : Prop :=
  reads_all (lr_inner a) /\ reads_all (lr_inner b) /\ contents (lr_inner a) = contents (lr_inner b) /\
  lr_bytes_read a = lr_bytes_read b /\ lr_line_number a = lr_line_number b /\
  0 <= lr_bytes_read a <= max_input_bytes limits.

Definition same_outcome {A} (x y : result A ParseError) : Prop :=
  x = y \/ exists e e', x = Err e /\ y = Err e' /\ is_limit_error e /\ is_limit_error e'.

Context {Url V : Type} (url_parse : text -> option Url).
Context (visit : V -> M3uEntry Url -> V * result unit ParseError).

Lemma m3u_loop_same fuel fuel' a b st :
  same_bytes a b -> zlen (contents (lr_inner a)) < Z.of_nat fuel -> zlen (contents (lr_inner a)) < Z.of_nat fuel' ->
  exists st' x y, m3u_loop url_parse visit fuel limits a st = Some (st', x) /\
    m3u_loop url_parse visit fuel' limits b st = Some (st', y) /\
    same_outcome (match x with Ok r => Ok (lr_bytes_read r) | Err e => Err e end)
      (match y with Ok r => Ok (lr_bytes_read r) | Err e => Err e end).
Proof using Hlimits.
  revert fuel' a b st. induction fuel as [|fuel IH]; intros fuel' a b st (Ha & Hb & Hc & Hr & Hn & Hbr) Hf Hf';
    pose proof (zlen_nonneg (contents (lr_inner a))); [lia|].
  destruct fuel' as [|fuel']; [lia|]. cbn [m3u_loop].
  pose proof (next_line_spec a Ha Hbr) as H1. pose proof (next_line_spec b Hb) as H2.
  rewrite <- Hr, <- Hn, <- Hc in H2. specialize (H2 Hbr).
  pose proof (cut_line_app (contents (lr_inner a))) as Hcut.
  destruct (cut_line (contents (lr_inner a))) as [first rest]. cbn [fst snd] in Hcut.
  cbn zeta in H1, H2. case_bool_decide as Hfirst.
  { rewrite H1, H2. do 3 eexists. split; [done|]. split; [done|]. by left. }
  destruct ((zlen first <=? _) && _) eqn:E.
  - destruct (from_utf8 (strip_newline first)) as [line|].
    2:{ rewrite H1, H2. do 3 eexists. split; [done|]. split; [done|]. by left. }
    destruct H1 as (i1 & -> & Hi1 & Hc1), H2 as (i2 & -> & Hi2 & Hc2).
    destruct (m3u_line url_parse visit limits st (lr_line_number a + 1) line) as [st1 [e|]].
    { do 3 eexists. split; [done|]. split; [done|]. by left. }
    apply (f_equal zlen) in Hcut. rewrite zlen_app in Hcut.
    destruct first as [|x first]; [done|]. rewrite zlen_cons in Hcut, E. pose proof (zlen_nonneg first).
    apply IH.
    + unfold same_bytes. cbn [lr_bytes_read lr_inner lr_line_number]. rewrite zlen_cons, Hc1, Hc2. repeat split; done || lia.
    + cbn [lr_inner]. rewrite Hc1. lia.
    + cbn [lr_inner]. rewrite Hc1. lia.
  - destruct H1 as (e1 & -> & He1), H2 as (e2 & -> & He2).
    do 3 eexists. split; [done|]. split; [done|]. right. by exists e1, e2.
Qed.

Lemma buffered_contents reader : reads_all reader -> Z.of_nat (buffered reader) = zlen (contents reader).
Proof using.
  induction 1 as [|buffer reader Hb Hr IH]; [done|]. destruct buffer as [b|]; [|done].
  change (contents (Ok b :: reader)) with (b ++ contents reader). rewrite zlen_app, <- IH. unfold zlen.
  change (buffered (Ok b :: reader)) with (length b + buffered reader)%nat. lia.
Qed.

(** C29. Chunking: how the reader cuts the input into buffers changes nothing: the
    visitor gets the same entries, and the playlist, or the error, is the
    same; only which of two exceeded limits is reported may differ. *)
Theorem m3u_chunking_irrelevant reader reader' visitor :
  reads_all reader -> reads_all reader' -> contents reader = contents reader' ->
  exists v x y, parse_m3u_visit url_parse visit reader limits visitor = Some (v, x) /\
    parse_m3u_visit url_parse visit reader' limits visitor = Some (v, y) /\ same_outcome x y.
Proof using Hlimits.
  intros Hr Hr' Hc. unfold parse_m3u_visit.
  pose proof (buffered_contents _ Hr). pose proof (buffered_contents _ Hr'). destruct Hlimits as (Hm & _).
  destruct (m3u_loop_same (S (buffered reader)) (S (buffered reader')) (mkLineReader reader 0 0)
    (mkLineReader reader' 0 0) (m3u_start visitor)) as (st & x & y & -> & -> & Ho).
  - repeat split; cbn [lr_inner lr_bytes_read]; done || lia.
  - cbn [lr_inner]. lia.
  - cbn [lr_inner]. rewrite Hc. lia.
  - cbn [mbind option_bind]. do 3 eexists. split; [done|]. split; [done|].
    destruct Ho as [Ho | (e & e' & Hx & Hy & He)].
    + left. destruct x, y; try done; by injection Ho as ->.
    + right. destruct x, y; try done. injection Hx as ->. injection Hy as ->. by exists e, e'.
Qed.
End Loop.

(** ** Accounting *)

(** The diagnostics that report a skipped record. *)
Definition reports_skip (d : Diagnostic) : bool :=
  match dg_code d with ReplacedPendingEntry | InvalidUrl | OrphanMetadata => true | _ => false end.
Definition skips_reported (l : list Diagnostic) : Z := zlen (List.filter reports_skip l).

Lemma skips_reported_app l k : skips_reported (l ++ k) = skips_reported l + skips_reported k.
Proof. unfold skips_reported. by rewrite List.filter_app, zlen_app. Qed.

Lemma skips_reported_one d : skips_reported [d] = if reports_skip d then 1 else 0.
Proof. unfold skips_reported. cbn. by destruct (reports_skip d). Qed.

(** Computes the reports of a list that ends with known diagnostics. *)
Ltac count_skips := rewrite ?skips_reported_app, ?skips_reported_one; cbn.

Lemma skips_reported_nonneg l : 0 <= skips_reported l.
Proof. apply zlen_nonneg. Qed.

Definition pending_count (pending : option PendingEntry) : Z := match pending with Some _ => 1 | None => 0 end.

Section Accounting.
Context {Url : Type} (url_parse : text -> option Url) (limits : ParseLimits) (Hlimits : limits_ok limits).

(** Every record seen is emitted, skipped and reported, or pending. *)
Record counted (lines : Z) (st : M3uState (list (M3uEntry Url))) : Prop := {
  cn_lines : lines_read (pl_stats (st_playlist st)) = lines;
  cn_emitted : records_emitted (pl_stats (st_playlist st)) = zlen (st_visitor st);
  cn_limit : zlen (st_visitor st) <= max_records limits;
  cn_seen : records_seen (pl_stats (st_playlist st)) =
    zlen (st_visitor st) + records_skipped (pl_stats (st_playlist st)) + pending_count (st_pending st);
  cn_skipped : 0 <= records_skipped (pl_stats (st_playlist st)) <= skips_reported (pl_diagnostics (st_playlist st));
}.

(** [observe_diagnostic] counts warnings and errors only. *)
Lemma observe_records s d :
  lines_read (observe_diagnostic s d) = lines_read s /\ records_seen (observe_diagnostic s d) = records_seen s /\
  records_emitted (observe_diagnostic s d) = records_emitted s /\
  records_skipped (observe_diagnostic s d) = records_skipped s.
Proof using. unfold observe_diagnostic. by destruct (dg_severity d). Qed.

Lemma observe_all_records l s :
  lines_read (fold_left observe_diagnostic l s) = lines_read s /\
  records_seen (fold_left observe_diagnostic l s) = records_seen s /\
  records_emitted (fold_left observe_diagnostic l s) = records_emitted s /\
  records_skipped (fold_left observe_diagnostic l s) = records_skipped s.
Proof using.
  revert s. induction l as [|d l IH]; intros s; [done|]. cbn [fold_left].
  destruct (IH (observe_diagnostic s d)) as (-> & -> & -> & ->). apply observe_records.
Qed.

Lemma first_content_counted lines st n line :
  counted lines st -> counted lines (fst (first_content st n line)).
Proof using.
  intros [H1 H2 H3 H4 H5]. unfold first_content. destruct (st_saw_content st); [done|].
  destruct (starts_with _ line).
  - destruct (parse_header line n) as [h ds]. split; cbn in *; try done.
    rewrite skips_reported_app. pose proof (skips_reported_nonneg ds). lia.
  - split; cbn in *; try done. count_skips. lia.
Qed.

Lemma extinf_line_counted lines st n line st' :
  counted lines st -> extinf_line limits st n line = Ok st' -> counted lines st'.
Proof using.
  intros [H1 H2 H3 H4 H5]. unfold extinf_line. destruct (record_limit_reached _ _); [done|].
  set (p := match st_pending st with Some _ => _ | None => _ end).
  assert (lines_read (pl_stats p) = lines /\ records_emitted (pl_stats p) = zlen (st_visitor st) /\
    records_seen (pl_stats p) = zlen (st_visitor st) + records_skipped (pl_stats p) + 1 /\
    0 <= records_skipped (pl_stats p) <= skips_reported (pl_diagnostics p)) as (P1 & P2 & P3 & P4).
  { unfold p. destruct (st_pending st); cbn in *; count_skips; repeat split; lia. }
  unfold parse_extinf. repeat case_match; intros [= <-]; simplify_eq;
    match goal with |- context [fold_left observe_diagnostic ?l ?s] => destruct (observe_all_records l s) as (Q1 & Q2 & Q3 & Q4) end;
    split; cbn [st_playlist st_visitor st_pending pl_stats pl_diagnostics pending_count]; rewrite ?Q1, ?Q2, ?Q3, ?Q4; try lia;
    rewrite skips_reported_app;
    match goal with |- context [skips_reported ?l + skips_reported ?k] => pose proof (skips_reported_nonneg k) end; lia.
Qed.

Lemma directive_line_counted lines st line : counted lines st -> counted lines (directive_line st line).
Proof using.
  intros [H1 H2 H3 H4 H5]. unfold directive_line.
  destruct (bool_decide _), (st_pending st); split; cbn in *; done.
Qed.

Lemma url_line_counted lines st n line st' :
  counted lines st -> url_line url_parse collect limits st n line = (st', None) -> counted lines st'.
Proof using Hlimits.
  destruct Hlimits as (_ & _ & Hmax).
  intros [H1 H2 H3 H4 H5]. unfold url_line. destruct (url_parse line) as [url|].
  - destruct (max_records limits <=? _) eqn:E; [done|]. rewrite H2 in E.
    pose proof (zlen_nonneg (st_visitor st)). rewrite checked_Some in E by lia. cbn [from_option] in E. unfold id in E.
    destruct (st_pending st); cbn; intros [= <-]; split; cbn in *; rewrite ?zlen_snoc; count_skips; lia.
  - intros [= <-]. destruct (st_pending st); split; cbn in *; count_skips; lia.
Qed.

Lemma m3u_line_counted lines st n line st' :
  counted lines st -> m3u_line url_parse collect limits st n line = (st', None) -> counted (lines + 1) st'.
Proof using Hlimits.
  intros Hc. unfold m3u_line. set (st1 := mkM3uState _ _ _ _ _).
  assert (counted (lines + 1) st1) as H1. { destruct Hc as [? ? ? ? ?]. split; cbn in *; lia. }
  case_bool_decide; [by intros [= <-]|].
  pose proof (first_content_counted _ _ n (trim (default line (strip_prefix [0xfeff] line))) H1) as H2.
  destruct (first_content st1 n _) as [st2 [|]]; cbn [fst] in H2; [by intros [= <-]|].
  destruct (starts_with (str "#EXTINF:") _).
  - destruct (extinf_line limits st2 n _) as [st3|] eqn:E; [|done]. intros [= <-]. by eapply extinf_line_counted.
  - destruct (starts_with (str "#") _); [intros [= <-]; by apply directive_line_counted|].
    by apply url_line_counted.
Qed.

(** A line consumes its bytes. *)
Lemma read_line_consumes n reader line read x reader' read' :
  0 <= read <= max_input_bytes limits -> read_line limits n reader line read = Ok (x, reader', read') ->
  match x with
  | None => line = [] /\ read' = read
  | Some l => l <> [] /\ (length l + buffered reader' = length line + buffered reader)%nat /\
      read' = read + zlen l - zlen line /\ 0 <= read' <= max_input_bytes limits
  end.
Proof using Hlimits.
  revert line read. induction reader as [|buffer reader IH]; intros line read Hread.
  - cbn. unfold line_end. case_bool_decide; intros [= <- <- <-]; [done|]. repeat split; lia || done.
  - destruct buffer as [available|]; [|done]. destruct (decide (available = [])) as [-> | Hb].
    { cbn. unfold line_end. case_bool_decide; intros [= <- <- <-]; [done|]. repeat split; cbn; lia || done. }
    rewrite (read_line_step limits Hlimits) by (done || lia). cbn zeta.
    pose proof (cut_line_nonempty _ Hb) as Hpos. pose proof (cut_line_app available) as Hcut.
    destruct (cut_line available) as [chunk rest] eqn:Ecut. cbn [fst snd] in *.
    assert (forall l, l ++ chunk <> []) as Hne by (intros [|] H; [by destruct chunk|done]).
    apply (f_equal (@length Z)) in Hcut. rewrite length_app in Hcut.
    change (buffered (Ok available :: reader)) with (length available + buffered reader)%nat.
    destruct (negb (zlen line + _ <=? _)); [done|].
    destruct (read + zlen chunk <=? max_input_bytes limits) eqn:E; [cbn [negb]|done].
    pose proof (zlen_nonneg chunk). case_bool_decide.
    + intros [= <- <- <-]. rewrite zlen_app, length_app. split; [apply Hne|].
      split; [|lia]. case_bool_decide as Hrest; [rewrite Hrest in Hcut; cbn in Hcut; lia|].
      change (buffered (Ok rest :: reader)) with (length rest + buffered reader)%nat. lia.
    + intros H1. apply IH in H1; [|lia]. destruct x as [l|].
      * rewrite zlen_app, length_app in H1. destruct (cut_line_open available) as [Hopen _]; [by rewrite Ecut|].
        rewrite Ecut in Hopen. injection Hopen as -> ->. cbn in Hcut.
        destruct H1 as (? & ? & ? & ?). repeat split; lia || done.
      * destruct H1 as [H1 _]. by apply Hne in H1.
Qed.

(** Closes the case of a parser that returned an error. *)
Ltac failed := do 2 eexists; split; [reflexivity|intros ? ?; discriminate].

(** The loop ends within its bound, with every record accounted for. *)
Lemma m3u_loop_counted fuel reader st :
  (buffered (lr_inner reader) < fuel)%nat -> counted (lr_line_number reader) st ->
  lr_line_number reader <= lr_bytes_read reader <= max_input_bytes limits -> 0 <= lr_bytes_read reader ->
  exists st' x, m3u_loop url_parse collect fuel limits reader st = Some (st', x) /\
    forall r, x = Ok r -> counted (lr_line_number r) st' /\
      lr_line_number r <= lr_bytes_read r <= max_input_bytes limits.
Proof using Hlimits.
  revert reader st. induction fuel as [|fuel IH]; intros reader st Hf Hc Hn Hr; [lia|]. cbn [m3u_loop].
  unfold next_line.
  destruct (read_line limits (lr_line_number reader) (lr_inner reader) [] (lr_bytes_read reader))
    as [[[[l|] inner] read]|e] eqn:E; [| |by failed].
  - apply read_line_consumes in E as (Hl & Hlen & -> & Hr'); [|lia]. cbn [length] in Hlen. rewrite zlen_nil in *.
    destruct (from_utf8 _) as [line|]; [|by failed].
    destruct (m3u_line _ _ _ _ _ _) as [st1 [e|]] eqn:Em; [by failed|].
    assert (1 <= zlen l) by (destruct l; [done|rewrite zlen_cons; pose proof (zlen_nonneg l); lia]).
    assert (1 <= length l)%nat by (unfold zlen in *; lia).
    apply IH; cbn [lr_inner lr_line_number lr_bytes_read]; [lia| |lia|lia].
    by eapply m3u_line_counted.
  - apply read_line_consumes in E as (_ & ->); [|lia]. do 2 eexists. split; [done|]. by intros r [= <-].
Qed.

(** Accounting: on every input, however it is cut and even if reading fails,
    the parser ends; and when it succeeds, every record seen was handed out or
    is counted as skipped and reported, the records are within their limit,
    and so are the bytes read. *)
Theorem m3u_accounts reader :
  exists r, parse_m3u url_parse reader limits = Some r /\
    forall entries p, r = Ok (entries, p) ->
      records_emitted (pl_stats p) = zlen entries /\ zlen entries <= max_records limits /\
      records_seen (pl_stats p) = records_emitted (pl_stats p) + records_skipped (pl_stats p) /\
      0 <= records_skipped (pl_stats p) <= skips_reported (pl_diagnostics p) /\
      lines_read (pl_stats p) <= bytes_read (pl_stats p) <= max_input_bytes limits.
Proof using Hlimits.
  unfold parse_m3u, parse_m3u_visit.
  destruct (m3u_loop_counted (S (buffered reader)) (mkLineReader reader 0 0) (m3u_start [])) as (st & x & -> & Hx).
  - cbn [lr_inner]. lia.
  - destruct Hlimits as (_ & _ & ?). pose proof (skips_reported_nonneg []). split; unfold zlen; cbn; lia.
  - destruct Hlimits as (? & _). cbn. lia.
  - done.
  - cbn [mbind option_bind]. eexists. split; [done|]. intros entries p. destruct x as [r|]; [|done].
    intros [= <- <-]. destruct (Hx r eq_refl) as [[H1 H2 H3 H4 H5] H6]. unfold m3u_finish.
    destruct (st_pending st), (st_saw_header st), (st_saw_content st); cbn in *; count_skips; repeat split; lia.
Qed.
End Accounting.

(** * Visitors

    The parser hands its entries to a visitor.  Here: a visitor sees exactly
    the entries that [parse_m3u] collects, one after the other up to the first
    that it refuses; and a limit on the bytes that the input does not reach
    has no effect. *)

(** ** Fusion *)

Section Fusion.
Context {Url V : Type} (url_parse : text -> option Url).
Context (visit : V -> M3uEntry Url -> V * result unit ParseError).

(** The visitor on a list of entries. *)
Fixpoint run_visitor (v : V) (entries : list (M3uEntry Url)) : V * option ParseError :=
  match entries with
  | [] => (v, None)
  | entry :: entries =>
      match visit v entry with
      | (v, Ok _) => run_visitor v entries
      | (v, Err e) => (v, Some e)
      end
  end.

Lemma run_visitor_app v entries later :
  run_visitor v (entries ++ later) =
  match run_visitor v entries with (v, None) => run_visitor v later | failed => failed end.
Proof using. revert v. induction entries as [|entry entries IH]; intros v; [done|]. cbn. by destruct (visit v entry) as [v' []]. Qed.

Definition with_visitor {W : Type} (st : M3uState W) (v : V) : M3uState V :=
  mkM3uState (st_playlist st) (st_pending st) (st_saw_content st) (st_saw_header st) v.

Abbreviation Collecting := (M3uState (list (M3uEntry Url))).

Lemma m3u_line_fusion limits (st : Collecting) v n line :
  let '(st', r) := m3u_line url_parse collect limits st n line in
  (st_visitor st' = st_visitor st /\ m3u_line url_parse visit limits (with_visitor st v) n line = (with_visitor st' v, r)) \/
  (exists entry, st_visitor st' = st_visitor st ++ [entry] /\ r = None /\
     match visit v entry with
     | (v', Ok _) => m3u_line url_parse visit limits (with_visitor st v) n line = (with_visitor st' v', None)
     | (v', Err e) => exists st2, m3u_line url_parse visit limits (with_visitor st v) n line = (st2, Some e) /\ st_visitor st2 = v'
     end).
Proof using.
  unfold m3u_line. set (trimmed := trim _). destruct (bool_decide (trimmed = [])); [by left|].
  set (st1 := mkM3uState _ _ _ _ (st_visitor st)). change (mkM3uState _ _ _ _ (st_visitor (with_visitor st v))) with (with_visitor st1 v).
  assert (first_content (with_visitor st1 v) n trimmed =
    (with_visitor (fst (first_content st1 n trimmed)) v, snd (first_content st1 n trimmed)) /\
    st_visitor (fst (first_content st1 n trimmed)) = st_visitor st1) as [-> Hv].
  { unfold first_content. cbn [with_visitor st_saw_content st_playlist st_pending st_saw_header st_visitor].
    destruct (st_saw_content st1); [done|]. destruct (starts_with _ _); [|done]. by destruct (parse_header _ _). }
  destruct (first_content st1 n trimmed) as [st2 []]; cbn [fst snd] in *; [by left|].
  destruct (starts_with (str "#EXTINF:") trimmed).
  { unfold extinf_line. cbn [with_visitor st_pending st_playlist st_saw_content st_saw_header].
    destruct (record_limit_reached _ _); [by left|]. destruct (parse_extinf _ _ _) as [[entry diagnostics] stats]. by left. }
  destruct (starts_with (str "#") trimmed).
  { unfold directive_line. cbn [with_visitor st_pending st_playlist st_saw_content st_saw_header].
    destruct (st_pending st2); by left. }
  unfold url_line. cbn [with_visitor st_pending st_playlist st_saw_content st_saw_header st_visitor].
  destruct (url_parse trimmed) as [url|]; [|by left]. destruct (_ <=? _); [by left|].
  destruct (match st_pending st2 with Some _ => _ | None => _ end) as [entry p]. cbn [collect]. right. exists entry.
  cbn [st_visitor]. split; [by rewrite Hv|]. split; [done|]. destruct (visit v entry) as [v' [|e]]; [done|]. by eexists.
Qed.

Lemma m3u_loop_fusion fuel limits reader (st st' : Collecting) v x :
  m3u_loop url_parse collect fuel limits reader st = Some (st', x) ->
  exists entries, st_visitor st' = st_visitor st ++ entries /\
    match run_visitor v entries with
    | (v', None) => m3u_loop url_parse visit fuel limits reader (with_visitor st v) = Some (with_visitor st' v', x)
    | (v', Some e) =>
        exists st2, m3u_loop url_parse visit fuel limits reader (with_visitor st v) = Some (st2, Err e) /\ st_visitor st2 = v'
    end.
Proof using.
  revert reader st v. induction fuel as [|fuel IH]; intros reader st v; [done|]. cbn [m3u_loop].
  destruct (next_line limits reader) as [[[[n line]|] reader']|e].
  - pose proof (m3u_line_fusion limits st v n line) as Hl. destruct (m3u_line url_parse collect limits st n line) as [st1 [e|]].
    + intros [= <- <-]. destruct Hl as [[Hs ->]|(entry & _ & Hr & _)]; [|done]. exists []. by rewrite app_nil_r.
    + intros Hrun. destruct Hl as [[Hs Hline]|(entry & Hs & _ & Hline)].
      * rewrite Hline. destruct (IH _ _ v Hrun) as (entries & He & Hm). exists entries. by rewrite He, Hs.
      * destruct (visit v entry) as [v' [u|e]] eqn:Evisit.
        -- rewrite Hline. destruct (IH _ _ v' Hrun) as (entries & He & Hm). exists (entry :: entries).
           rewrite He, Hs, <- app_assoc. split; [done|]. cbn [run_visitor]. by rewrite Evisit.
        -- destruct Hline as (st2 & -> & Hv). destruct (IH _ _ v' Hrun) as (entries & He & _). exists (entry :: entries).
           rewrite He, Hs, <- app_assoc. split; [done|]. cbn [run_visitor]. rewrite Evisit. by exists st2.
  - intros [= <- <-]. exists []. by rewrite app_nil_r.
  - intros [= <- <-]. exists []. by rewrite app_nil_r.
Qed.

(** A visitor gets the entries that [parse_m3u] collects; if it takes them all
    the playlist, or the error of the parser, is the same, and else the result
    is its error. *)
Lemma m3u_visit_fusion reader limits v entries parsed :
  parse_m3u_visit url_parse collect reader limits [] = Some (entries, parsed) ->
  parse_m3u_visit url_parse visit reader limits v =
  Some match run_visitor v entries with (v', None) => (v', parsed) | (v', Some e) => (v', Err e) end.
Proof using.
  unfold parse_m3u_visit. destruct (m3u_loop url_parse collect _ _ _ _) as [[st x]|] eqn:El; [|done]. cbn [mbind option_bind].
  intros [= <- <-]. destruct (m3u_loop_fusion _ _ _ _ _ v _ El) as (entries & He & Hrun). cbn [m3u_start st_visitor app] in He.
  rewrite He. change (with_visitor (m3u_start []) v) with (m3u_start v) in Hrun.
  destruct (run_visitor v entries) as [v' [e|]].
  - destruct Hrun as (st2 & -> & <-). done.
  - rewrite Hrun. done.
Qed.
End Fusion.

(** ** Two readers and two limits *)

Section Same.
Context (limits limits' : ParseLimits) (Hlimits : limits_ok limits) (Hlimits' : limits_ok limits').
Context (Hline : max_line_bytes limits' = max_line_bytes limits) (Hrecords : max_records limits' = max_records limits).
Context {Url V : Type} (url_parse : text -> option Url) (visit : V -> M3uEntry Url -> V * result unit ParseError).

Lemma m3u_line_limits st n line : m3u_line url_parse visit limits' st n line = m3u_line url_parse visit limits st n line.
Proof using Hrecords. unfold m3u_line, extinf_line, url_line. by rewrite Hrecords. Qed.

(** Either the limits on the input are equal, or the input reaches neither. *)
Definition reaches_neither (read : Z) (rest : bytes) : Prop :=
  max_input_bytes limits' = max_input_bytes limits \/
  read + zlen rest <= max_input_bytes limits /\ read + zlen rest <= max_input_bytes limits'.

Lemma m3u_loop_limits fuel fuel' a b st :
  reads_all (lr_inner a) -> reads_all (lr_inner b) -> contents (lr_inner a) = contents (lr_inner b) ->
  lr_bytes_read a = lr_bytes_read b -> lr_line_number a = lr_line_number b ->
  0 <= lr_bytes_read a <= max_input_bytes limits -> 0 <= lr_bytes_read a <= max_input_bytes limits' ->
  reaches_neither (lr_bytes_read a) (contents (lr_inner a)) ->
  zlen (contents (lr_inner a)) < Z.of_nat fuel -> zlen (contents (lr_inner a)) < Z.of_nat fuel' ->
  exists st' x y, m3u_loop url_parse visit fuel limits a st = Some (st', x) /\
    m3u_loop url_parse visit fuel' limits' b st = Some (st', y) /\
    same_outcome (match x with Ok r => Ok (lr_bytes_read r) | Err e => Err e end)
      (match y with Ok r => Ok (lr_bytes_read r) | Err e => Err e end).
Proof using Hlimits Hlimits' Hline Hrecords.
  revert fuel' a b st. induction fuel as [|fuel IH]; intros fuel' a b st Ha Hb Hc Hr Hn Hbr Hbr' Hneither Hf Hf';
    pose proof (zlen_nonneg (contents (lr_inner a))); [lia|].
  destruct fuel' as [|fuel']; [lia|]. cbn [m3u_loop].
  pose proof (next_line_spec limits Hlimits a Ha Hbr) as H1. pose proof (next_line_spec limits' Hlimits' b Hb) as H2.
  rewrite <- Hr, <- Hn, <- Hc in H2. specialize (H2 Hbr'). pose proof (cut_line_app (contents (lr_inner a))) as Hcut.
  destruct (cut_line (contents (lr_inner a))) as [first rest]. cbn [fst snd] in Hcut.
  cbn zeta in H1, H2. rewrite Hline in H2. case_bool_decide as Hfirst.
  { rewrite H1, H2. do 3 eexists. split; [done|]. split; [done|]. by left. }
  assert (zlen (contents (lr_inner a)) = zlen first + zlen rest) as Hlen by (by rewrite <- Hcut, zlen_app).
  pose proof (zlen_nonneg rest).
  assert ((lr_bytes_read a + zlen first <=? max_input_bytes limits') = (lr_bytes_read a + zlen first <=? max_input_bytes limits)) as Hle.
  { destruct Hneither as [->|[? ?]]; [done|]. by rewrite !(proj2 (Z.leb_le _ _)) by lia. }
  rewrite Hle in H2. destruct ((zlen first <=? _) && _) eqn:E.
  - destruct (from_utf8 (strip_newline first)) as [line|].
    2:{ rewrite H1, H2. do 3 eexists. split; [done|]. split; [done|]. by left. }
    destruct H1 as (i1 & -> & Hi1 & Hc1), H2 as (i2 & -> & Hi2 & Hc2). rewrite m3u_line_limits.
    destruct (m3u_line url_parse visit limits st (lr_line_number a + 1) line) as [st1 [e|]].
    { do 3 eexists. split; [done|]. split; [done|]. by left. }
    apply andb_prop in E as [_ E]. rewrite E in Hle. apply Z.leb_le in E, Hle.
    destruct first as [|c first]; [done|]. rewrite zlen_cons in *. pose proof (zlen_nonneg first).
    apply IH; cbn [lr_inner lr_bytes_read lr_line_number]; rewrite ?Hc1, ?Hc2; try done; try lia.
    destruct Hneither as [|[? ?]]; [by left|right; lia].
  - destruct H1 as (e1 & -> & He1), H2 as (e2 & -> & He2). do 3 eexists. split; [done|]. split; [done|]. right. by exists e1, e2.
Qed.

(** Two readers of the same bytes, under limits that treat them alike. *)
Lemma m3u_visit_same reader reader' visitor :
  reads_all reader -> reads_all reader' -> contents reader = contents reader' -> reaches_neither 0 (contents reader) ->
  exists v x y, parse_m3u_visit url_parse visit reader limits visitor = Some (v, x) /\
    parse_m3u_visit url_parse visit reader' limits' visitor = Some (v, y) /\ same_outcome x y.
Proof using Hlimits Hlimits' Hline Hrecords.
  intros Hr Hr' Hc Hn. unfold parse_m3u_visit. pose proof (buffered_contents _ Hr). pose proof (buffered_contents _ Hr').
  destruct Hlimits as (Hm & _), Hlimits' as (Hm' & _).
  destruct (m3u_loop_limits (S (buffered reader)) (S (buffered reader')) (mkLineReader reader 0 0)
    (mkLineReader reader' 0 0) (m3u_start visitor)) as (st & x & y & -> & -> & Ho);
    cbn [lr_inner lr_bytes_read lr_line_number]; try done; try lia; [rewrite Hc; lia|].
  cbn [mbind option_bind]. do 3 eexists. split; [done|]. split; [done|]. destruct Ho as [Ho | (e & e' & Hx & Hy & He)].
  - left. destruct x, y; try done; by injection Ho as ->.
  - right. destruct x, y; try done. injection Hx as ->. injection Hy as ->. by exists e, e'.
Qed.
End Same.
