(* ===== verification/Playlist.v ===== *)
(** * The playlist the relay serves

    Models the handler [playlist] of [crates/api/src/lib.rs], which writes the
    enabled channels as an M3U playlist, and proves that the parser of
    [m3u.rs] reads every channel back.

    A [Uuid] is its hyphenated text. *)
From Stdlib Require Import ZArith Lia Floats.SpecFloat.
From stdpp Require Import base numbers option strings gmap.
From stdpp Require Import list.
From S2P Require Import Prelude Text M3u M3uSpec.
Open Scope Z_scope.

(** ** The writer *)

Definition m3u_escape (value : text) : text :=
  replace_chars [0x22] (str "'") (replace_chars [13; 10] (str " ") value).

(** The columns of [ChannelRow] that the playlist writes. *)
Record ChannelRow := mkChannelRow {
  cr_id : text;
  cr_channel_number : text;
  cr_name : text;
  cr_group_name : text;
  cr_logo_url : option text;
}.

(** A channel of the catalog in memory. *)
Record ChannelRecord := mkChannelRecord {
  ch_id : text;
  ch_number : text;
  ch_name : text;
  ch_group : option text;
  ch_logo_url : option text;
  ch_enabled : bool;
}.

(** [ key="value"] *)
Definition write_attribute (attribute : string * text) : text :=
  str " " ++ str (fst attribute) ++ str "=" ++ [0x22] ++ snd attribute ++ [0x22].

Definition header_line (public_base_url token : text) : text :=
  str "#EXTM3U" ++
  write_attribute ("x-tvg-url"%string, public_base_url ++ str "/out/" ++ token ++ str "/xmltv.xml").

Definition channel_attributes (channel : ChannelRow) : list (string * text) :=
  [("tvg-id", cr_id channel);
   ("tvg-name", m3u_escape (cr_name channel));
   ("tvg-logo", m3u_escape (default [] (cr_logo_url channel)));
   ("tvg-chno", m3u_escape (cr_channel_number channel));
   ("group-title", m3u_escape (cr_group_name channel))]%string.

Definition written_title (channel : ChannelRow) : text := replace_chars [13; 10] (str " ") (cr_name channel).

Definition channel_line (channel : ChannelRow) : text :=
  str "#EXTINF:-1" ++ concat (List.map write_attribute (channel_attributes channel)) ++ str "," ++
  written_title channel.

Definition stream_url (public_base_url token id : text) : text :=
  public_base_url ++ str "/out/" ++ token ++ str "/stream/" ++ id ++ str ".ts".

Definition playlist_lines (public_base_url token : text) (channels : list ChannelRow) : list text :=
  header_line public_base_url token ::
  concat (List.map (fun channel =>
    [channel_line channel; stream_url public_base_url token (cr_id channel)]) channels).

(** [body] of the handler: every line ends with a newline. *)
Definition playlist_body (public_base_url token : text) (channels : list ChannelRow) : text :=
  concat (List.map (fun line => line ++ [10]) (playlist_lines public_base_url token channels)).

(** Without a database: the enabled channels of the catalog. *)
Definition catalog_row (channel : ChannelRecord) : ChannelRow :=
  mkChannelRow (ch_id channel) (ch_number channel) (ch_name channel)
    (default (str "Uncategorized") (ch_group channel)) (ch_logo_url channel).
Definition catalog_playlist (public_base_url token : text) (channels : list ChannelRecord) : text :=
  playlist_body public_base_url token (List.map catalog_row (List.filter ch_enabled channels)).

(** ** Reading a text line by line *)

(** A line of characters without line breaks. *)
Definition plain (s : text) : Prop := Forall (fun c => is_char c = true /\ c <> 10 /\ c <> 13) s.

Lemma plain_app a b : plain (a ++ b) <-> plain a /\ plain b.
Proof. apply Forall_app. Qed.

Lemma to_utf8_app a b : to_utf8 (a ++ b) = to_utf8 a ++ to_utf8 b.
Proof. unfold to_utf8. by rewrite map_app, concat_app. Qed.

(** ASCII bytes of the encoding are the ASCII characters. *)
Lemma encode_char_ascii c b : 0 <= c -> b ∈ encode_char c -> b < 0x80 -> b = c.
Proof.
  intros Hc. unfold encode_char. pose proof (Z.mod_pos_bound c 64). pose proof (Z.mod_pos_bound (c / 64) 64).
  pose proof (Z.mod_pos_bound (c / 4096) 64).
  assert (0 <= c / 64) by (apply Z.div_pos; lia). assert (0 <= c / 4096) by (apply Z.div_pos; lia).
  assert (0 <= c / 262144) by (apply Z.div_pos; lia).
  repeat case_match; set_unfold; lia.
Qed.

Lemma plain_bytes s b : plain s -> b ∈ to_utf8 s -> b <> 10 /\ b <> 13.
Proof.
  unfold to_utf8. induction 1 as [|c s (Hc & H10 & H13) Hs IH]; cbn; [set_solver|].
  intros [Hb | Hb]%elem_of_app; [|by apply IH]. unfold is_char in Hc.
  destruct (Z.lt_ge_cases b 0x80); [|lia]. apply encode_char_ascii in Hb; lia.
Qed.

Lemma strip_newline_plain s : plain s -> strip_newline (to_utf8 s ++ [10]) = to_utf8 s.
Proof.
  intros Hs. unfold strip_newline. rewrite rev_app_distr. cbn.
  unfold drop_while. cbn. destruct (span _ (rev (to_utf8 s))) as [a b] eqn:E. cbn.
  assert (b = rev (to_utf8 s)) as ->; [|apply rev_involutive].
  change b with (snd (a, b)). rewrite <- E. apply drop_while_id. intros c Hc.
  assert (c ∈ to_utf8 s) as Hin. { apply list_elem_of_In, in_rev, list_elem_of_In. by apply head_Some_elem_of. }
  apply plain_bytes in Hin; [lia|done].
Qed.

Lemma plain_chars s : plain s -> Forall (fun c => is_char c = true) s.
Proof. intros H. eapply Forall_impl; [exact H|]. by intros c [? _]. Qed.

Lemma cut_line_plain s rest : plain s -> cut_line (to_utf8 s ++ 10 :: rest) = (to_utf8 s ++ [10], rest).
Proof.
  intros Hs. rewrite cut_line_prefix; [done|]. intros H. by apply plain_bytes in H as [? _].
Qed.

(** The lines of a text, processed one after the other. *)
Fixpoint run_lines {Url V} (url_parse : text -> option Url) (visit : V -> M3uEntry Url -> V * result unit ParseError)
    (limits : ParseLimits) (st : M3uState V) (n : Z) (lines : list text) : M3uState V * option ParseError :=
  match lines with
  | [] => (st, None)
  | line :: lines =>
      match m3u_line url_parse visit limits st (n + 1) line with
      | (st, Some e) => (st, Some e)
      | (st, None) => run_lines url_parse visit limits st (n + 1) lines
      end
  end.

Definition text_of (lines : list text) : text := concat (List.map (fun line => line ++ [10]) lines).

(** The text is within the limits. *)
Definition fits (limits : ParseLimits) (read : Z) (lines : list text) : Prop :=
  Forall (fun line => zlen (to_utf8 line) + 1 <= max_line_bytes limits) lines /\
  read + zlen (to_utf8 (text_of lines)) <= max_input_bytes limits.

Lemma to_utf8_text_of line lines :
  to_utf8 (text_of (line :: lines)) = to_utf8 line ++ 10 :: to_utf8 (text_of lines).
Proof. unfold text_of. cbn [List.map concat]. rewrite !to_utf8_app, <- app_assoc. done. Qed.

(** Parsing a text that fits is processing its lines. *)
Lemma m3u_loop_lines {Url V} (url_parse : text -> option Url) visit limits fuel reader (st st' : M3uState V) lines :
  limits_ok limits -> reads_all (lr_inner reader) -> 0 <= lr_bytes_read reader ->
  contents (lr_inner reader) = to_utf8 (text_of lines) -> Forall plain lines ->
  fits limits (lr_bytes_read reader) lines -> zlen (contents (lr_inner reader)) < Z.of_nat fuel ->
  run_lines url_parse visit limits st (lr_line_number reader) lines = (st', None) ->
  exists r, m3u_loop url_parse visit fuel limits reader st = Some (st', Ok r) /\
    lr_bytes_read r = lr_bytes_read reader + zlen (to_utf8 (text_of lines)).
Proof.
  intros Hlim Hr Hb Hc Hp [Hfl Hfb] Hf Hrun. revert fuel reader st Hr Hb Hc Hfb Hf Hrun.
  induction Hp as [|line lines Hline Hlines IH]; intros fuel reader st Hr Hb Hc Hfb Hf Hrun;
    (destruct fuel as [|fuel]; [pose proof (zlen_nonneg (contents (lr_inner reader))); lia|]); cbn [m3u_loop].
  - change (to_utf8 (text_of [])) with (@nil Z) in *. rewrite zlen_nil in *.
    pose proof (next_line_spec limits Hlim reader Hr) as H. rewrite Hc in H. cbn in H.
    rewrite H by lia. cbn in Hrun. injection Hrun as ->. eexists. split; [done|]. cbn. lia.
  - apply Forall_cons in Hfl as [Hll Hfl]. pose proof (next_line_spec limits Hlim reader Hr) as H.
    rewrite to_utf8_text_of in Hc, Hfb |- *. rewrite Hc, cut_line_plain in H by done. cbn zeta in H.
    pose proof (zlen_nonneg (to_utf8 line)). pose proof (zlen_nonneg (to_utf8 (text_of lines))).
    rewrite zlen_app, zlen_cons in Hfb. rewrite Hc, zlen_app, zlen_cons in Hf.
    rewrite bool_decide_eq_false_2 in H by (by destruct (to_utf8 line)).
    rewrite zlen_snoc, !(proj2 (Z.leb_le _ _)) in H by lia. cbn [andb] in H.
    rewrite strip_newline_plain, from_to_utf8 in H by (done || by apply plain_chars).
    destruct H as (inner & -> & Hi & Hci); [lia|]. cbn [run_lines] in Hrun.
    destruct (m3u_line _ _ _ _ _ _) as [st1 [e|]]; [done|].
    destruct (IH Hfl fuel (mkLineReader inner (lr_bytes_read reader + (zlen (to_utf8 line) + 1)) (lr_line_number reader + 1)) st1)
      as (r & Hl & Hbr); cbn [lr_inner lr_bytes_read lr_line_number]; try done; try lia.
    { rewrite Hci. lia. }
    exists r. split; [done|]. rewrite Hbr, zlen_app, zlen_cons. cbn. lia.
Qed.

(** ** Reading back what was written *)

(** The keys of the writer: lower case, with nothing the parser cuts at. *)
Definition key_char (c : Z) : bool :=
  negb (is_whitespace c) && negb (c =? 0x3d) && (to_ascii_lowercase c =? c) && negb (is_quote c) &&
  negb (c =? 0x2c) && is_char c && negb (c =? 10) && negb (c =? 13).
Definition key_ok (key : string) : bool := negb (bool_decide (str key = [])) && forallb key_char (str key).

Definition attribute_ok (attribute : string * text) : Prop :=
  key_ok (fst attribute) = true /\ 0x22 ∉ snd attribute.

Lemma key_char_spec c :
  key_char c = true ->
  is_whitespace c = false /\ is_ascii_whitespace c = false /\ c <> 0x3d /\ to_ascii_lowercase c = c /\ is_quote c = false /\ c <> 0x2c /\
  is_char c = true /\ c <> 10 /\ c <> 13.
Proof. unfold key_char. rewrite !andb_true_iff, !negb_true_iff, !Z.eqb_neq, Z.eqb_eq. intros H.
  assert (is_ascii_whitespace c = false); [|tauto].
  destruct H as [[[[[[[H _] _] _] _] _] _] _]. unfold is_whitespace in H. unfold is_ascii_whitespace. lia.
Qed.

Lemma key_ok_chars key : key_ok key = true -> str key <> [] /\ Forall (fun c => key_char c = true) (str key).
Proof.
  unfold key_ok. intros [H1 H2]%andb_true_iff. split; [by case_bool_decide|].
  apply Forall_forall. rewrite forallb_forall in H2. intros c Hc. apply H2. by apply list_elem_of_In.
Qed.

Lemma key_lower key : key_ok key = true -> List.map to_ascii_lowercase (str key) = str key.
Proof.
  intros [_ H]%key_ok_chars. induction H as [|c s Hc Hs IH]; [done|]. cbn. rewrite IH. f_equal.
  by apply key_char_spec in Hc as (_ & _ & _ & ? & _).
Qed.

Lemma attributes_loop_space fuel s m n : attributes_loop fuel (0x20 :: s) m n = attributes_loop fuel s m n.
Proof.
  destruct fuel; [done|]. cbn [attributes_loop].
  assert (drop_while is_ascii_whitespace (0x20 :: s) = drop_while is_ascii_whitespace s) as ->; [|done].
  apply (drop_while_all _ [0x20]). by constructor.
Qed.

Lemma attribute_value_quoted v rest :
  0x22 ∉ v -> attribute_value (0x22 :: v ++ 0x22 :: rest) = (v, rest, false).
Proof.
  intros Hv. unfold attribute_value. cbn. rewrite span_app; [done| |by intros ? [= <-]].
  apply Forall_forall. intros c Hc. apply negb_true_iff, Z.eqb_neq. by intros ->.
Qed.

(** The attributes a list of pairs writes. *)
Definition attribute_map (l : list (string * text)) (m : Attributes) : Attributes :=
  fold_left (fun m attribute => <[str (fst attribute) := snd attribute]> m) l m.

(** Written attributes are read back, without a diagnostic. *)
Lemma attributes_loop_written l fuel m n :
  Forall attribute_ok l -> (length l < fuel)%nat ->
  attributes_loop fuel (concat (List.map write_attribute l)) m n = (attribute_map l m, []).
Proof.
  intros Hl. revert fuel m. induction Hl as [|[key value] l [Hk Hv] Hl IH]; intros fuel m Hf;
    (destruct fuel as [|fuel]; [cbn in Hf; lia|]); [done|].
  cbn [fst snd] in Hk, Hv. pose proof (key_lower _ Hk) as Hlow. apply key_ok_chars in Hk as [Hne Hk].
  cbn [List.map concat]. unfold write_attribute at 1. cbn [fst snd]. rewrite <- !app_assoc.
  change (str " ") with [0x20]. change (str "=") with [0x3d]. cbn [app]. rewrite attributes_loop_space.
  cbn [attributes_loop]. rewrite (drop_while_id _ (str key ++ _)).
  2:{ destruct Hk as [|c s Hc Hs]; [done|]. intros ? [= <-]. by apply key_char_spec in Hc as (_ & ? & _). }
  rewrite bool_decide_eq_false_2 by (by destruct (str key)).
  rewrite span_app; [| |by intros ? [= <-]].
  2:{ eapply Forall_impl; [exact Hk|]. intros c Hc. destruct (key_char_spec c Hc) as (_ & -> & He & _). by apply Z.eqb_neq in He as ->. }
  rewrite (drop_while_id _ (0x3d :: _)) by (by intros ? [= <-]).
  rewrite (drop_while_id _ (0x22 :: _)) by (by intros ? [= <-]).
  cbn [Z.eqb]. rewrite attribute_value_quoted by done. rewrite (bool_decide_eq_false_2 _ Hne), Hlow.
  rewrite IH by (cbn in Hf; lia). done.
Qed.

(** ** The comma that ends the attributes *)

Lemma prefix_twice {B} (a b : text) (x : option (text * B)) :
  prod_map (app a) id <$> (prod_map (app b) id <$> x) = prod_map (app (a ++ b)) id <$> x.
Proof. destruct x as [[u v]|]; [|done]. cbn. by rewrite app_assoc. Qed.

Lemma comma_plain s r :
  Forall (fun c => is_quote c = false /\ c <> 0x2c) s ->
  comma_outside_quotes None (s ++ r) = prod_map (app s) id <$> comma_outside_quotes None r.
Proof.
  induction 1 as [|c s [Hq Hc] Hs IH]; cbn [app comma_outside_quotes].
  - by destruct (comma_outside_quotes None r) as [[? ?]|].
  - rewrite Hq, (proj2 (Z.eqb_neq _ _)) by done. cbn [andb]. rewrite IH.
    by destruct (comma_outside_quotes None r) as [[? ?]|].
Qed.

Lemma comma_closing v r :
  0x22 ∉ v ->
  comma_outside_quotes (Some 0x22) (v ++ 0x22 :: r) = prod_map (app (v ++ [0x22])) id <$> comma_outside_quotes None r.
Proof.
  induction v as [|c v IH]; intros Hv.
  - cbn. by destruct (comma_outside_quotes None r) as [[? ?]|].
  - apply not_elem_of_cons in Hv as [Hc Hv]. cbn [app comma_outside_quotes].
    rewrite !(bool_decide_eq_false_2 (Some 0x22 = None)) by done.
    rewrite (bool_decide_eq_false_2 (Some 0x22 = Some c)) by congruence. rewrite !andb_false_r, IH by done.
    by destruct (comma_outside_quotes None r) as [[? ?]|].
Qed.

Lemma comma_attributes l r :
  Forall attribute_ok l ->
  comma_outside_quotes None (concat (List.map write_attribute l) ++ r) =
  prod_map (app (concat (List.map write_attribute l))) id <$> comma_outside_quotes None r.
Proof.
  induction 1 as [|[key value] l [Hk Hv] Hl IH]; [by apply (comma_plain [])|].
  cbn [fst snd List.map concat] in *. unfold write_attribute at 1 3. cbn [fst snd].
  change (str " ") with [0x20]. change (str "=") with [0x3d]. rewrite <- !app_assoc.
  apply key_ok_chars in Hk as [_ Hk].
  rewrite (comma_plain [0x20]) by (constructor; [done|constructor]). rewrite (comma_plain (str key)).
  2:{ eapply Forall_impl; [exact Hk|]. intros c Hc. by destruct (key_char_spec c Hc) as (_ & _ & _ & _ & ? & ? & _). }
  rewrite (comma_plain [0x3d]) by (constructor; [done|constructor]). cbn [app].
  change (comma_outside_quotes None (0x22 :: ?s)) with (prod_map (cons 0x22) id <$> comma_outside_quotes (Some 0x22) s).
  rewrite comma_closing by done. rewrite IH, !prefix_twice.
  destruct (comma_outside_quotes None r) as [[u w]|]; [|done]. cbn. rewrite <- !app_assoc. cbn. by rewrite <- app_assoc.
Qed.

(** ** Written lines *)

(** Written attributes start with a space and a key, and end with a quote. *)
Lemma attributes_shape l :
  Forall attribute_ok l -> l <> [] ->
  exists s, concat (List.map write_attribute l) = 0x20 :: s ++ [0x22] /\
    forall c, head (s ++ [0x22]) = Some c -> is_whitespace c = false.
Proof.
  induction 1 as [|[key value] l [Hk _] Hl IH]; [done|]. intros _. cbn [fst] in Hk. apply key_ok_chars in Hk as [Hne Hk].
  set (a := str key ++ [0x3d; 0x22] ++ value).
  assert (write_attribute (key, value) = 0x20 :: a ++ [0x22]) as Hw.
  { unfold write_attribute, a. cbn [fst snd]. change (str " ") with [0x20]. change (str "=") with [0x3d].
    rewrite <- !app_assoc. reflexivity. }
  assert (forall r c, head (a ++ r) = Some c -> is_whitespace c = false) as Ha.
  { intros r c. unfold a. destruct Hk as [|x k Hx Hk']; [done|]. intros [= <-]. by apply key_char_spec in Hx as [? _]. }
  cbn [List.map concat]. rewrite Hw. destruct l as [|b l].
  - cbn [List.map concat]. rewrite app_nil_r. exists a. split; [done|]. apply Ha.
  - destruct IH as (s & -> & _); [done|]. exists (a ++ 0x22 :: 0x20 :: s). rewrite <- app_assoc.
    split; [cbn [app]; by rewrite <- app_assoc|]. apply Ha.
Qed.

Lemma attributes_length l : (2 * length l <= length (concat (List.map write_attribute l)))%nat.
Proof.
  induction l as [|[key value] l IH]; [done|]. cbn [List.map concat]. unfold write_attribute at 1.
  rewrite !length_app. cbn in *. lia.
Qed.

(** A well formed entry, by its parts. *)
Lemma parse_extinf_parts line body metadata title duration attributes n stats v m :
  strip_prefix (str "#EXTINF:") line = Some body ->
  comma_outside_quotes None body = Some (metadata, title) ->
  span (fun c => negb (is_whitespace c)) (trim metadata) = (duration, attributes) -> duration <> [] ->
  parse_f64 duration = Some v -> f64_is_finite v = true ->
  parse_attributes (trim attributes) n = (m, []) ->
  parse_extinf line n stats = (mkPendingEntry (Some v) (trim title) m [] line n, [], stats).
Proof.
  intros Hb Hc Hs Hd Hp Hf Ha. unfold parse_extinf. rewrite Hb. cbn [from_option id]. rewrite Hc.
  cbn [from_option id]. rewrite Hs, bool_decide_eq_false_2, Hp, Hf, Ha by done. done.
Qed.

Definition minus_one : spec_float := S754_finite true 4503599627370496 (-52).

(** A written entry is read back. *)
Lemma parse_extinf_written l t n stats :
  Forall attribute_ok l -> l <> [] ->
  let line := str "#EXTINF:-1" ++ concat (List.map write_attribute l) ++ str "," ++ t in
  parse_extinf line n stats =
    (mkPendingEntry (Some minus_one) (trim t) (attribute_map l ∅) [] line n, [], stats).
Proof.
  intros Hl Hne line. destruct (attributes_shape l Hl Hne) as (s & Hs & Hh).
  set (a := concat (List.map write_attribute l)) in *.
  apply (parse_extinf_parts line (str "-1" ++ a ++ str "," ++ t) (str "-1" ++ a) t (str "-1") a).
  - reflexivity.
  - rewrite (comma_plain (str "-1")) by (by do 2 (constructor; [done|])). unfold a. rewrite comma_attributes by done.
    change (comma_outside_quotes None (str "," ++ t)) with (Some (@nil Z, t)). cbn [fmap option_fmap option_map prod_map fst snd].
    by rewrite app_nil_r.
  - assert (trim (str "-1" ++ a) = str "-1" ++ a) as ->.
    { rewrite Hs. unfold trim. change (str "-1" ++ 0x20 :: s ++ [0x22]) with (0x2d :: (0x31 :: 0x20 :: s) ++ [0x22]).
      rewrite trim_start_app by done. apply (trim_end_snoc (0x2d :: 0x31 :: 0x20 :: s) 0x22 []); [done|constructor]. }
    rewrite span_app; [done|by do 2 (constructor; [done|])|]. rewrite Hs. by intros ? [= <-].
  - done.
  - vm_compute. reflexivity.
  - done.
  - assert (trim a = s ++ [0x22]) as ->.
    { rewrite Hs. unfold trim, trim_start. change (0x20 :: s ++ [0x22]) with ([0x20] ++ (s ++ [0x22])).
      rewrite drop_while_all by (by constructor).
      rewrite drop_while_id by done. apply (trim_end_snoc s 0x22 []); [done|constructor]. }
    unfold parse_attributes. rewrite <- attributes_loop_space, <- Hs. unfold a. apply attributes_loop_written; [done|].
    pose proof (attributes_length l) as Hlen. fold a in Hlen. rewrite Hs in Hlen. cbn [length] in Hlen.
    destruct l; [done|]. cbn [length] in *. lia.
Qed.

(** ** The lines of the playlist *)

(** The configured base URL and token: one line of text without quotes, which
    a parser does not take for a comment. *)
Definition public_ok (base token : text) : Prop :=
  plain base /\ plain token /\ 0x22 ∉ base /\ 0x22 ∉ token /\
  exists c, head base = Some c /\ is_whitespace c = false /\ c <> 0x23 /\ c <> 0xfeff.

(** A channel: an identifier without quotes; any strings in the other fields. *)
Definition channel_ok (channel : ChannelRow) : Prop :=
  plain (cr_id channel) /\ 0x22 ∉ cr_id channel /\
  Forall (fun s => Forall (fun c => is_char c = true) s)
    [cr_name channel; default [] (cr_logo_url channel); cr_channel_number channel; cr_group_name channel].

Lemma replace_chars_in chars to s c :
  c ∈ replace_chars chars to s -> c ∈ to \/ (c ∈ s /\ c ∉ chars).
Proof.
  unfold replace_chars. induction s as [|x s IH]; cbn; [set_solver|].
  destruct (existsb (Z.eqb x) chars) eqn:E; intros [H | H]%elem_of_app.
  - by left.
  - destruct (IH H) as [? | [? ?]]; [by left|right; set_solver].
  - apply list_elem_of_singleton in H as ->. right. split; [left|]. intros Hx.
    apply list_elem_of_In in Hx. assert (existsb (Z.eqb x) chars = true); [|congruence].
    apply existsb_exists. exists x. split; [done|]. apply Z.eqb_refl.
  - destruct (IH H) as [? | [? ?]]; [by left|right; set_solver].
Qed.

Lemma plain_title s : Forall (fun c => is_char c = true) s -> plain (replace_chars [13; 10] (str " ") s).
Proof.
  intros Hs. apply Forall_forall. intros c [Hc | [Hc Hn]]%replace_chars_in.
  - change (str " ") with [0x20] in Hc. apply list_elem_of_singleton in Hc as ->. done.
  - rewrite Forall_forall in Hs. split; [by apply Hs|set_solver].
Qed.

Lemma m3u_escape_ok s :
  Forall (fun c => is_char c = true) s -> plain (m3u_escape s) /\ 0x22 ∉ m3u_escape s.
Proof.
  intros Hs%plain_title. unfold m3u_escape. set (t := replace_chars [13; 10] _ s) in *. split.
  - apply Forall_forall. intros c [Hc | [Hc _]]%replace_chars_in; [|by eapply Forall_forall in Hs].
    change (str "'") with [0x27] in Hc. apply list_elem_of_singleton in Hc as ->. done.
  - intros [Hc | [_ Hn]]%replace_chars_in; [|set_solver].
    change (str "'") with [0x27] in Hc. by apply list_elem_of_singleton in Hc.
Qed.

Lemma channel_attributes_ok channel :
  channel_ok channel -> Forall attribute_ok (channel_attributes channel) /\
  Forall (fun a => plain (snd a)) (channel_attributes channel).
Proof.
  intros (Hi & Hq & Hs). apply Forall_cons in Hs as [Hn Hs]. apply Forall_cons in Hs as [Hl Hs].
  apply Forall_cons in Hs as [Hc Hs]. apply Forall_cons in Hs as [Hg _].
  apply m3u_escape_ok in Hn as [? ?], Hl as [? ?], Hc as [? ?], Hg as [? ?].
  split; repeat (apply Forall_cons_2; [try split; cbn [fst snd]; done|]); constructor.
Qed.

Lemma str_plain s : forallb (fun c => is_char c && negb (c =? 10) && negb (c =? 13)) (str s) = true -> plain (str s).
Proof.
  intros H. apply Forall_forall. intros c Hc. rewrite forallb_forall in H. apply list_elem_of_In in Hc.
  specialize (H c Hc). apply andb_true_iff in H as [[H ?]%andb_true_iff ?]. split; [done|]. lia.
Qed.

Lemma write_attributes_plain l :
  Forall attribute_ok l -> Forall (fun a => plain (snd a)) l -> plain (concat (List.map write_attribute l)).
Proof.
  induction 1 as [|[key value] l [Hk _] Hl IH]; [constructor|]. intros [Hv Hr]%Forall_cons.
  cbn [List.map concat fst snd] in *. unfold write_attribute. cbn [fst snd]. rewrite !plain_app.
  split; [split; [by apply str_plain|]|by apply IH].
  split; [|split; [by apply str_plain|split; [by constructor|split; [done|by constructor]]]].
  apply key_ok_chars in Hk as [_ Hk]. eapply Forall_impl; [exact Hk|]. intros c Hc. cbv beta in Hc.
  by destruct (key_char_spec c Hc) as (_ & _ & _ & _ & _ & _ & ? & ? & ?).
Qed.

Definition guide_attribute (base token : text) : string * text :=
  ("x-tvg-url"%string, base ++ str "/out/" ++ token ++ str "/xmltv.xml").

Lemma guide_attribute_ok base token : public_ok base token -> attribute_ok (guide_attribute base token) /\ plain (snd (guide_attribute base token)).
Proof.
  intros (Hb & Ht & Hqb & Hqt & _). split; [split; [done|]|]; cbn [fst snd guide_attribute].
  - rewrite !not_elem_of_app. repeat split; try done; intros H; vm_compute in H; set_solver.
  - rewrite !plain_app. repeat split; try done; by apply str_plain.
Qed.

Section ReadBack.
Context {Url : Type} (url_parse : text -> option Url) (limits : ParseLimits) (Hlimits : limits_ok limits).

(** The entry a channel is read back as. *)
Definition entry_of (channel : ChannelRow) (url : Url) : M3uEntry Url :=
  mkM3uEntry (Some minus_one) (trim (written_title channel)) (attribute_map (channel_attributes channel) ∅) url []
    (Some (trim (channel_line channel))).

(** A state between two entries, after a header and without a diagnostic. *)
Definition listed (header : M3uHeader) (entries : list (M3uEntry Url)) (st : M3uState (list (M3uEntry Url))) : Prop :=
  exists stats, st = mkM3uState (mkM3uPlaylist header [] [] stats) None true true entries /\
    records_seen stats = zlen entries /\ records_emitted stats = zlen entries /\ records_skipped stats = 0.

Lemma trim_channel_line channel :
  trim (channel_line channel) =
  str "#EXTINF:-1" ++ concat (List.map write_attribute (channel_attributes channel)) ++ str "," ++
  trim_end (written_title channel).
Proof using.
  unfold channel_line, trim. set (a := concat _). set (w := written_title channel).
  change (str "#EXTINF:-1" ++ a ++ str "," ++ w) with (0x23 :: (str "EXTINF:-1" ++ a) ++ 0x2c :: w).
  rewrite trim_start_app by done. by apply (trim_end_app (0x23 :: str "EXTINF:-1" ++ a)).
Qed.

Lemma starts_with_Some prefix s r : strip_prefix prefix s = Some r -> starts_with prefix s = true.
Proof using. intros H. unfold starts_with. by rewrite H. Qed.

(** The line of a channel leaves its entry pending. *)
Lemma channel_line_read header entries stats n channel :
  channel_ok channel -> records_seen stats = zlen entries -> zlen entries < max_records limits ->
  m3u_line url_parse collect limits (mkM3uState (mkM3uPlaylist header [] [] stats) None true true entries) n
    (channel_line channel) =
  (mkM3uState (mkM3uPlaylist header [] [] (count_records (count_line stats) 1 0 0))
     (Some (mkPendingEntry (Some minus_one) (trim (written_title channel))
        (attribute_map (channel_attributes channel) ∅) [] (trim (channel_line channel)) n))
     true true entries, None).
Proof using Hlimits.
  intros Hc Hseen Hmax. destruct (channel_attributes_ok _ Hc) as [Ha _]. destruct Hlimits as (_ & _ & Hm).
  unfold m3u_line. cbn [st_playlist pl_stats st_pending st_saw_content st_saw_header st_visitor].
  assert (strip_prefix [0xfeff] (channel_line channel) = None) as -> by reflexivity. cbn [from_option id].
  pose proof (trim_channel_line channel) as Ht. set (line := trim (channel_line channel)) in *. clearbody line.
  subst line. set (line := str "#EXTINF:-1" ++ _).
  rewrite bool_decide_eq_false_2 by done. unfold first_content. cbn [st_saw_content].
  rewrite (starts_with_Some (str "#EXTINF:") line (drop 8 line)) by reflexivity.
  unfold extinf_line. cbn [st_playlist pl_stats records_seen count_line set_stats st_pending].
  unfold record_limit_reached. rewrite Hseen. pose proof (zlen_nonneg entries).
  rewrite checked_Some, (proj2 (Z.leb_gt _ _)) by lia. unfold line. rewrite parse_extinf_written by done.
  by rewrite trim_trim_end.
Qed.

(** The line of the URL hands the pending entry out. *)
Lemma url_line_read header entries stats n m line pending url :
  records_emitted stats = zlen entries -> zlen entries < max_records limits -> url_parse line = Some url ->
  (exists c, head line = Some c /\ is_whitespace c = false /\ c <> 0x23 /\ c <> 0xfeff) -> trim_end line = line ->
  pe_duration_seconds pending = m ->
  m3u_line url_parse collect limits (mkM3uState (mkM3uPlaylist header [] [] stats) (Some pending) true true entries) n
    line =
  (mkM3uState (mkM3uPlaylist header [] [] (count_records (count_line stats) 0 1 0)) None true true
     (entries ++ [mkM3uEntry m (pe_title pending) (pe_attributes pending) url (pe_directives pending)
                    (Some (pe_raw_extinf pending))]), None).
Proof using Hlimits.
  intros He Hmax Hu (c & Hc & Hw & Hh & Hb) Ht <-. destruct Hlimits as (_ & _ & Hm).
  destruct line as [|x line]; [done|]. injection Hc as ->.
  unfold m3u_line. cbn [st_playlist pl_stats st_pending st_saw_content st_saw_header st_visitor strip_prefix].
  rewrite (proj2 (Z.eqb_neq _ _)) by done. cbn [from_option id].
  assert (trim (c :: line) = c :: line) as ->. { unfold trim. rewrite trim_start_app; done. }
  rewrite bool_decide_eq_false_2 by done. unfold first_content. cbn [st_saw_content].
  unfold starts_with. change (str "#EXTINF:") with (0x23 :: str "EXTINF:"). change (str "#") with [0x23].
  cbn [strip_prefix]. rewrite (proj2 (Z.eqb_neq 0x23 c)) by done.
  rewrite !bool_decide_eq_false_2 by (by intros [? ?]).
  unfold url_line. rewrite Hu. cbn [st_playlist pl_stats records_emitted count_line set_stats st_pending st_visitor].
  rewrite He. pose proof (zlen_nonneg entries). rewrite checked_Some by lia. cbn [from_option id].
  rewrite (proj2 (Z.leb_gt _ _)) by lia. done.
Qed.

(** The header starts the list. *)
Lemma header_line_read base token n :
  public_ok base token ->
  exists st, m3u_line url_parse collect limits (m3u_start []) n (header_line base token) = (st, None) /\
    listed (mkM3uHeader (attribute_map [guide_attribute base token] ∅) (header_line base token)) [] st.
Proof using.
  intros Hok. destruct (guide_attribute_ok _ _ Hok) as [Ha _].
  destruct (attributes_shape [guide_attribute base token]) as (s & Hs & Hh); [by constructor|done|].
  cbn [List.map concat] in Hs. rewrite app_nil_r in Hs.
  assert (header_line base token = str "#EXTM3U" ++ 0x20 :: s ++ [0x22]) as Hl by (rewrite <- Hs; done).
  assert (trim (header_line base token) = header_line base token) as Ht.
  { rewrite Hl. unfold trim. change (str "#EXTM3U" ++ 0x20 :: s ++ [0x22]) with (0x23 :: (str "EXTM3U" ++ 0x20 :: s) ++ [0x22]).
    rewrite trim_start_app by done. by apply (trim_end_snoc (0x23 :: str "EXTM3U" ++ 0x20 :: s) 0x22 []). }
  unfold m3u_line.
  assert (strip_prefix [0xfeff] (header_line base token) = None) as -> by reflexivity. cbn [from_option id].
  set (line := trim (header_line base token)) in *. clearbody line. subst line.
  rewrite bool_decide_eq_false_2 by done. unfold first_content.
  cbn [st_saw_content m3u_start st_playlist st_pending st_saw_header st_visitor].
  rewrite (starts_with_Some (str "#EXTM3U") _ (drop 7 (header_line base token))) by reflexivity.
  assert (parse_header (header_line base token) n =
    (mkM3uHeader (attribute_map [guide_attribute base token] ∅) (header_line base token), [])) as ->.
  { unfold parse_header. rewrite Hl at 1. assert (strip_prefix (str "#EXTM3U") (str "#EXTM3U" ++ 0x20 :: s ++ [0x22]) = Some (0x20 :: s ++ [0x22])) as -> by done.
    cbn [from_option id].
    assert (trim (0x20 :: s ++ [0x22]) = s ++ [0x22]) as ->.
    { unfold trim, trim_start. change (0x20 :: s ++ [0x22]) with ([0x20] ++ (s ++ [0x22])).
      rewrite drop_while_all by (by constructor). rewrite drop_while_id by done. by apply (trim_end_snoc s 0x22 []). }
    unfold parse_attributes. rewrite <- attributes_loop_space, <- Hs.
    rewrite <- (app_nil_r (write_attribute _)). change (write_attribute (guide_attribute base token) ++ [])
      with (concat (List.map write_attribute [guide_attribute base token])).
    rewrite attributes_loop_written; [done|by constructor|]. rewrite length_app. cbn. lia. }
  eexists. split; [done|]. eexists. split; [done|]. done.
Qed.

Context (base token : text) (Hpublic : public_ok base token).

Lemma stream_url_start id :
  (exists c, head (stream_url base token id) = Some c /\ is_whitespace c = false /\ c <> 0x23 /\ c <> 0xfeff) /\
  trim_end (stream_url base token id) = stream_url base token id.
Proof using Hpublic.
  destruct Hpublic as (_ & _ & _ & _ & c & Hc & Hr). split.
  - exists c. split; [|done]. unfold stream_url. by destruct base.
  - unfold stream_url. change (str ".ts") with ([0x2e; 0x74] ++ [0x73]). rewrite !app_assoc.
    by apply (trim_end_snoc _ 0x73 []).
Qed.

(** The lines of the channels are read back one by one. *)
Lemma channel_lines_read header channels urls : forall entries n st,
  Forall channel_ok channels ->
  Forall2 (fun channel url => url_parse (stream_url base token (cr_id channel)) = Some url) channels urls ->
  listed header entries st -> zlen entries + zlen channels <= max_records limits ->
  exists st', run_lines url_parse collect limits st n
      (concat (List.map (fun channel => [channel_line channel; stream_url base token (cr_id channel)]) channels)) =
    (st', None) /\ listed header (entries ++ zip_with entry_of channels urls) st'.
Proof using Hlimits Hpublic.
  intros entries n st Hc Hu. revert entries n st Hc. induction Hu as [|channel url channels urls Hurl Hus IH];
    intros entries n st Hok Hst Hmax.
  - exists st. split; [done|]. by rewrite app_nil_r.
  - apply Forall_cons in Hok as [Hok Hoks]. destruct Hst as (stats & -> & H1 & H2 & H3).
    rewrite zlen_cons in Hmax. pose proof (zlen_nonneg channels). destruct (stream_url_start (cr_id channel)) as [Hh Ht].
    cbn [List.map concat app run_lines]. rewrite channel_line_read by (done || lia).
    rewrite (url_line_read _ _ _ _ (Some minus_one) _ _ url) by first [done | lia | cbn; lia].
    cbn [pe_title pe_attributes pe_directives pe_raw_extinf].
    match goal with |- context [run_lines _ _ _ ?st1 ?n1 _] =>
      destruct (IH (entries ++ [entry_of channel url]) n1 st1) as (st' & Hrun & Hst'); [done| | |] end.
    + eexists. split; [done|]. rewrite zlen_snoc. cbn. lia.
    + rewrite zlen_snoc. lia.
    + exists st'. split; [apply Hrun|]. cbn [zip_with]. by rewrite <- app_assoc in Hst'.
Qed.

Lemma playlist_lines_plain channels :
  Forall channel_ok channels -> Forall plain (playlist_lines base token channels).
Proof using Hpublic.
  intros Hok. destruct (guide_attribute_ok _ _ Hpublic) as [Ha Hg]. destruct Hpublic as (Hb & Ht & _).
  apply Forall_cons_2.
  - pose proof (write_attributes_plain [guide_attribute base token]) as H. cbn [List.map concat] in H.
    rewrite app_nil_r in H. unfold header_line. rewrite plain_app. split; [by apply str_plain|].
    by apply H; constructor.
  - induction Hok as [|channel channels Hc Hok IH]; [constructor|]. cbn [List.map concat app].
    destruct (channel_attributes_ok _ Hc) as [H1 H2]. destruct Hc as (Hi & _ & Hn). apply Forall_cons in Hn as [Hn _].
    apply Forall_cons_2; [|apply Forall_cons_2; [|done]].
    + unfold channel_line. rewrite !plain_app. repeat split; [by apply str_plain|by apply write_attributes_plain|by apply str_plain|].
      by apply plain_title.
    + unfold stream_url. rewrite !plain_app. repeat split; try done; by apply str_plain.
Qed.

(** C28. Playlist round trip: whatever the names, numbers, groups and logos of the
    channels, with quotes, commas and line breaks, the playlist the relay
    serves is read back by its own parser, however the reader cuts it: the
    header names the guide, and there is one entry for each channel, in order,
    with its title, its stream URL and its five attributes; nothing is
    reported and nothing is skipped. *)
Theorem playlist_reads_back channels urls reader :
  Forall channel_ok channels ->
  Forall2 (fun channel url => url_parse (stream_url base token (cr_id channel)) = Some url) channels urls ->
  reads_all reader -> contents reader = to_utf8 (playlist_body base token channels) ->
  fits limits 0 (playlist_lines base token channels) -> zlen channels <= max_records limits ->
  exists p, parse_m3u url_parse reader limits = Some (Ok (zip_with entry_of channels urls, p)) /\
    pl_header p = mkM3uHeader (attribute_map [guide_attribute base token] ∅) (header_line base token) /\
    pl_diagnostics p = [] /\ records_emitted (pl_stats p) = zlen channels /\ records_skipped (pl_stats p) = 0.
Proof using Hlimits Hpublic.
  intros Hok Hu Hr Hc Hf Hmax. unfold parse_m3u, parse_m3u_visit.
  destruct (header_line_read base token 1 Hpublic) as (st1 & H1 & Hst1).
  destruct (channel_lines_read _ channels urls [] 1 st1 Hok Hu Hst1) as (st2 & H2 & Hst2); [by rewrite zlen_nil|].
  destruct (m3u_loop_lines url_parse collect limits (S (buffered reader)) (mkLineReader reader 0 0) (m3u_start []) st2
    (playlist_lines base token channels)) as (r & -> & _); try done.
  - by apply playlist_lines_plain.
  - cbn [lr_inner]. rewrite <- buffered_contents by done. lia.
  - unfold playlist_lines. cbn [run_lines lr_line_number]. change (0 + 1) with 1. rewrite H1. apply H2.
  - destruct Hst2 as (stats & -> & Hs & He & Hk). cbn [mbind option_bind st_visitor]. eexists. split; [done|].
    cbn. split; [done|]. split; [done|]. split; [|done]. rewrite He. cbn. unfold zlen.
    rewrite length_zip_with_l_eq; [done|]. by eapply Forall2_length.
Qed.
End ReadBack.
