(* ===== verification/Guide.v ===== *)
(** * The guide the relay serves

    Models the parts of [crates/api/src/lib.rs] that fill the XMLTV guide: the
    placeholders for the gaps between programmes and the escaping of text.

    A [DateTime<Utc>] and a [chrono::Duration] are nanoseconds. *)
From Stdlib Require Import ZArith Lia.
From stdpp Require Import base numbers option strings.
From stdpp Require Import sets list sorting.
From S2P Require Import Prelude Text Sort.
Open Scope Z_scope.

(** ** Constants *)

Definition nanos_per_hour : Z := 3600 * 1000000000.
Definition hours (n : Z) : Z := n * nanos_per_hour.
Definition minutes (n : Z) : Z := n * (60 * 1000000000).

Definition GUIDE_WINDOW_PAST_HOURS : Z := 6.
Definition GUIDE_WINDOW_FUTURE_HOURS : Z := 48.
Definition NO_PROGRAM_MAX_BLOCK_HOURS : Z := 2.

(** ** Placeholders *)

Abbreviation GuideSpan := (Z * Z)%type.

(** The whole hour at or before [value]; [timestamp] and [rem_euclid] round
    down. *)
Definition floor_to_hour (value : Z) : Z :=
  let seconds := value / 1000000000 in
  (seconds - seconds mod 3600) * 1000000000.

(** The gaps from [cursor] on; the spans are sorted by their start. *)
Fixpoint find_gaps (window_end cursor : Z) (sorted : list GuideSpan) : list GuideSpan :=
  match sorted with
  | [] => if cursor <? window_end then [(cursor, window_end)] else []
  | (start, stop) :: sorted =>
      if window_end <=? cursor then []
      else
        (if cursor <? start then [(cursor, Z.min start window_end)] else []) ++
        find_gaps window_end (Z.max cursor stop) sorted
  end.

Definition minimum_gap : Z := minutes 1.
Definition maximum_block : Z := hours NO_PROGRAM_MAX_BLOCK_HOURS.

(** The [while] loop over one gap; every turn but the last moves [block_start]
    more than an hour on. *)
Fixpoint gap_blocks (fuel : nat) (block_start gap_end : Z) : list GuideSpan :=
  match fuel with
  | O => []
  | S fuel =>
      if minimum_gap <=? gap_end - block_start then
        let hour_limit := floor_to_hour (block_start + maximum_block) in
        let block_end := Z.min gap_end hour_limit in
        (block_start, block_end) :: gap_blocks fuel block_end gap_end
      else []
  end.
Definition blocks_of_gap (gap : GuideSpan) : list GuideSpan :=
  gap_blocks (Z.to_nat ((snd gap - fst gap) / nanos_per_hour) + 2) (fst gap) (snd gap).

(** [sort_by_key(|(start, _)| *start)] *)
Definition span_lt (a b : GuideSpan) : bool := fst a <? fst b.

Definition no_program_blocks (now : Z) (spans : list GuideSpan) : list GuideSpan :=
  let window_start := now - hours GUIDE_WINDOW_PAST_HOURS in
  let window_end := now + hours GUIDE_WINDOW_FUTURE_HOURS in
  let sorted := stable_sort span_lt spans in
  concat (List.map blocks_of_gap (find_gaps window_end window_start sorted)).

(** ** Escaping *)

Definition xml_escape (value : text) : text :=
  replace_chars [0x27] (str "&apos;")
    (replace_chars [0x22] (str "&quot;")
       (replace_chars [0x3e] (str "&gt;")
          (replace_chars [0x3c] (str "&lt;") (replace_chars [0x26] (str "&amp;") value)))).

(** ** Channel numbers *)

(** [str::parse::<u64>] *)
Definition parse_u64 (s : text) : option Z := parse_unsigned u64_max s.

(** [str::cmp] *)
Fixpoint text_compare (a b : text) : comparison :=
  match a, b with
  | [], [] => Eq
  | [], _ :: _ => Lt
  | _ :: _, [] => Gt
  | x :: a, y :: b => match x ?= y with Eq => text_compare a b | c => c end
  end.

Definition natural_number_cmp (left right : text) : comparison :=
  match parse_u64 left, parse_u64 right with
  | Some l, Some r => l ?= r
  | _, _ => text_compare left right
  end.

(** The order is not transitive: [9 < 10 < 1a < 9]. *)
Example natural_number_cmp_cycle :
  natural_number_cmp (str "9") (str "10") = Lt /\ natural_number_cmp (str "10") (str "1a") = Lt /\
  natural_number_cmp (str "1a") (str "9") = Lt.
Proof. repeat split; reflexivity. Qed.

(** ** What the placeholders fill *)

Lemma floor_to_hour_spec t : t - nanos_per_hour < floor_to_hour t <= t /\ floor_to_hour t mod nanos_per_hour = 0.
Proof.
  unfold floor_to_hour, nanos_per_hour. cbn zeta.
  pose proof (Z.div_mod t 1000000000). pose proof (Z.mod_pos_bound t 1000000000).
  set (s := t / 1000000000) in *. pose proof (Z.div_mod s 3600). pose proof (Z.mod_pos_bound s 3600).
  split; [lia|]. replace ((s - s mod 3600) * 1000000000) with ((s / 3600) * (3600 * 1000000000)) by lia.
  apply Z.mod_mul. lia.
Qed.

(** A run of blocks that touch each other, from [a] to [b]: no block is empty
    or longer than two hours, and each ends on a whole hour or at [limit]. *)
Inductive chain (limit : Z) : Z -> Z -> list GuideSpan -> Prop :=
| chain_nil a : chain limit a a []
| chain_cons a m b l :
    a < m -> m - a <= maximum_block -> m mod nanos_per_hour = 0 \/ m = limit ->
    chain limit m b l -> chain limit a b ((a, m) :: l).

Lemma gap_blocks_chain fuel a limit :
  limit - a < minimum_gap \/ (limit - a) / nanos_per_hour < Z.of_nat fuel ->
  exists b, chain limit a b (gap_blocks fuel a limit) /\ limit - b < minimum_gap /\ (a <= limit -> b <= limit).
Proof.
  revert a. induction fuel as [|fuel IH]; intros a Hf.
  - exists a. split; [constructor|]. split; [|done]. unfold minimum_gap, minutes in *.
    pose proof (Z.div_mod (limit - a) nanos_per_hour). pose proof (Z.mod_pos_bound (limit - a) nanos_per_hour).
    unfold nanos_per_hour in *. lia.
  - cbn [gap_blocks]. destruct (Z.leb_spec minimum_gap (limit - a)) as [Hg | Hg].
    2:{ exists a. split; [constructor|]. split; [lia|done]. }
    destruct (floor_to_hour_spec (a + maximum_block)) as [Hh Hm].
    set (h := floor_to_hour (a + maximum_block)) in *.
    unfold minimum_gap, minutes in Hg, Hf. unfold maximum_block, hours, NO_PROGRAM_MAX_BLOCK_HOURS in Hh.
    assert (0 < nanos_per_hour) as Hpos by (unfold nanos_per_hour; lia).
    destruct (IH (Z.min limit h)) as (b & Hc & Hb & Hle).
    + destruct (Z.min_spec limit h) as [[? ->] | [? ->]].
      * left. unfold minimum_gap, minutes. lia.
      * right. assert ((limit - h) / nanos_per_hour <= (limit - a) / nanos_per_hour - 1); [|lia].
        replace ((limit - a) / nanos_per_hour - 1) with ((limit - a - nanos_per_hour) / nanos_per_hour).
        { apply Z.div_le_mono; lia. }
        replace (limit - a - nanos_per_hour) with (limit - a + (-1) * nanos_per_hour) by lia.
        rewrite Z.div_add by lia. lia.
    + exists b. split; [|split; [done|lia]]. constructor; [lia| | |done].
      * unfold maximum_block, hours, NO_PROGRAM_MAX_BLOCK_HOURS. lia.
      * destruct (Z.min_spec limit h) as [[? ->] | [? ->]]; [by right|by left].
Qed.

(** One span ends before the next begins. *)
Abbreviation in_order := (StronglySorted (fun x y : GuideSpan => snd x <= fst y)).
Definition covers (span : GuideSpan) (t : Z) : Prop := fst span <= t < snd span.

Lemma chain_spec limit a b l :
  chain limit a b l ->
  a <= b /\ in_order l /\
  Forall (fun block => a <= fst block < snd block /\ snd block <= b /\ snd block - fst block <= maximum_block /\
    (snd block mod nanos_per_hour = 0 \/ snd block = limit)) l /\
  forall t, a <= t < b -> Exists (fun block => covers block t) l.
Proof.
  induction 1 as [a|a m b l Ham Hmax Hend Hc (IH1 & IH2 & IH3 & IH4)].
  - split; [lia|]. repeat split; try constructor. intros t. lia.
  - split; [lia|]. split; [|split].
    + constructor; [done|]. eapply Forall_impl; [exact IH3|]. intros block (Hb & _). cbn. lia.
    + constructor; [cbn; repeat split; lia || done|]. eapply Forall_impl; [exact IH3|].
      intros block (Hb1 & Hb2 & Hb3). split; [lia|done].
    + intros t Ht. destruct (Z.lt_ge_cases t m); [left; unfold covers; cbn; lia|right; apply IH4; lia].
Qed.

Section Gaps.
Context (window_end : Z).

(** A gap between the spans: nothing starts or ends inside it. *)
Definition free_of (spans : list GuideSpan) (gap : GuideSpan) : Prop :=
  Forall (fun span => snd gap <= fst span \/ snd span <= fst gap) spans.
Definition ends_at (spans : list GuideSpan) (t : Z) : Prop := t = window_end \/ Exists (fun span => fst span = t) spans.

Lemma find_gaps_spec sorted cursor :
  StronglySorted (fun x y : GuideSpan => fst x <= fst y) sorted -> Forall (fun span => fst span <= snd span) sorted ->
  in_order (find_gaps window_end cursor sorted) /\
  Forall (fun gap => cursor <= fst gap < snd gap /\ snd gap <= window_end /\ free_of sorted gap /\ ends_at sorted (snd gap))
    (find_gaps window_end cursor sorted) /\
  forall t, cursor <= t < window_end ->
    Exists (fun span => covers span t) sorted \/ Exists (fun gap => covers gap t) (find_gaps window_end cursor sorted).
Proof using.
  intros Hs Hv. revert cursor. induction Hs as [|[start stop] sorted Hs IH Hst]; intros cursor.
  - cbn. destruct (Z.ltb_spec cursor window_end).
    + split; [repeat constructor|]. split; [|intros t Ht; right; left; unfold covers; cbn; lia].
      constructor; [|constructor]. cbn. split; [lia|]. split; [lia|]. split; [constructor|by left].
    + split; [constructor|]. split; [constructor|]. intros t. lia.
  - apply Forall_cons in Hv as [Hss Hv]. cbn [fst snd] in Hss. cbn [find_gaps].
    destruct (Z.leb_spec window_end cursor).
    { split; [constructor|]. split; [constructor|]. intros t. lia. }
    destruct (IH Hv (Z.max cursor stop)) as (IH1 & IH2 & IH3). set (tail := find_gaps _ _ _) in *.
    assert (Forall (fun gap => cursor <= fst gap < snd gap /\ snd gap <= window_end /\
      free_of ((start, stop) :: sorted) gap /\ ends_at ((start, stop) :: sorted) (snd gap)) tail) as Htail.
    { eapply Forall_impl; [exact IH2|]. intros gap (Hg & Hw & Hf & He). split; [lia|]. split; [done|]. split.
      - constructor; [cbn; lia|done].
      - destruct He as [? | ?]; [by left|right; by right]. }
    destruct (Z.ltb_spec cursor start) as [Hc | Hc]; cbn [app].
    + split; [|split].
      * constructor; [done|]. eapply Forall_impl; [exact IH2|]. intros gap (Hg & _). cbn. lia.
      * constructor; [|done]. cbn. split; [lia|]. split; [lia|]. split.
        -- constructor; [cbn; lia|]. eapply Forall_impl; [exact Hst|]. intros span Hsp. cbn in *. lia.
        -- destruct (Z.min_spec start window_end) as [[_ ->] | [_ ->]]; [right; by left|by left].
      * intros t Ht. destruct (Z.lt_ge_cases t start); [right; left; unfold covers; cbn; lia|].
        destruct (Z.lt_ge_cases t stop); [left; left; unfold covers; cbn; lia|].
        destruct (IH3 t) as [? | ?]; [lia|left; by right|right; by right].
    + split; [done|]. split; [done|]. intros t Ht. destruct (Z.lt_ge_cases t stop); [left; left; unfold covers; cbn; lia|].
      destruct (IH3 t) as [? | ?]; [lia|left; by right|by right].
Qed.
End Gaps.

Lemma in_order_concat (f : GuideSpan -> list GuideSpan) gaps :
  in_order gaps ->
  Forall (fun gap => in_order (f gap) /\ Forall (fun block => fst gap <= fst block /\ fst block <= snd block <= snd gap) (f gap)) gaps ->
  in_order (concat (List.map f gaps)).
Proof.
  induction 1 as [|gap gaps Hg IH Hlt]; intros Hf; [constructor|]. apply Forall_cons in Hf as [[Ho Hin] Hf].
  cbn [List.map concat]. specialize (IH Hf).
  assert (Forall (fun block => snd gap <= fst block) (concat (List.map f gaps))) as Hlater.
  { clear IH. induction Hf as [|gap' gaps [_ Hin'] Hf IH]; [constructor|]. cbn [List.map concat].
    apply Forall_cons in Hlt as [Hlt Hlts]. apply StronglySorted_inv in Hg as [Hg _].
    apply Forall_app. split; [|by apply IH]. eapply Forall_impl; [exact Hin'|]. intros block Hb. cbn in *. lia. }
  revert Ho Hin. generalize (f gap). intros l Ho Hin. induction Ho as [|b l Hl IHl Hb]; [done|].
  apply Forall_cons in Hin as [Hb1 Hin]. cbn [app]. constructor; [by apply IHl|]. apply Forall_app. split; [done|].
  eapply Forall_impl; [exact Hlater|]. intros block Hblock. cbn in *. lia.
Qed.

Lemma spans_sorted spans :
  stable_sort span_lt spans ≡ₚ spans /\
  StronglySorted (fun x y : GuideSpan => fst x <= fst y) (stable_sort span_lt spans).
Proof.
  set (le := fun x y : GuideSpan => fst x <=? fst y).
  assert (stable_sort span_lt spans = stable_sort (fun x y => negb (le y x)) spans) as ->.
  { rewrite <- (map_id (stable_sort span_lt spans)).
    rewrite (stable_sort_map (fun x => x) span_lt (fun x y => negb (le y x))); [by rewrite map_id|].
    intros x y. unfold span_lt, le. lia. }
  destruct (stable_sort_acc le ltac:(unfold le; intros; lia) ltac:(unfold le; intros; lia) spans []) as [Hp Hs].
  rewrite app_nil_r in Hp. split; [done|]. specialize (Hs (SSorted_nil _)). unfold stable_sort.
  clear Hp. revert Hs. generalize (fold_left (fun l x => insert_sorted (fun x y => negb (le y x)) x l) spans []).
  induction 1 as [|x l Hl IH Hx]; constructor; [done|].
  eapply Forall_impl; [exact Hx|]. unfold le. cbn. lia.
Qed.

(** The blocks of one gap fill it up to less than a minute. *)
Lemma blocks_of_gap_spec gap :
  fst gap < snd gap ->
  exists b, chain (snd gap) (fst gap) b (blocks_of_gap gap) /\ b <= snd gap /\ snd gap - b < minimum_gap.
Proof.
  intros Hg. unfold blocks_of_gap.
  assert (0 <= (snd gap - fst gap) / nanos_per_hour) by (apply Z.div_pos; unfold nanos_per_hour; lia).
  destruct (gap_blocks_chain (Z.to_nat ((snd gap - fst gap) / nanos_per_hour) + 2) (fst gap) (snd gap))
    as (b & Hc & Hb & Hle); [right; lia|]. exists b. split; [done|]. lia.
Qed.

Lemma elem_of_concat_map {A B} (f : A -> list B) l x : x ∈ concat (List.map f l) <-> exists y, y ∈ l /\ x ∈ f y.
Proof.
  rewrite list_elem_of_In, in_concat. setoid_rewrite in_map_iff. setoid_rewrite list_elem_of_In. naive_solver.
Qed.

(** C30. Placeholders: for programmes that do not end before they start, the
    placeholders of the guide window come in order and do not overlap; each
    lies in the window, is not empty, is at most two hours long, ends on a
    whole hour, at a programme or at the end of the window, and covers no
    programme; and every moment of the window is in a programme, in a
    placeholder, or less than a minute before the next programme or the end. *)
Theorem placeholders_fill_guide now spans :
  Forall (fun span : GuideSpan => fst span <= snd span) spans ->
  let window_start := now - hours GUIDE_WINDOW_PAST_HOURS in
  let window_end := now + hours GUIDE_WINDOW_FUTURE_HOURS in
  let blocks := no_program_blocks now spans in
  in_order blocks /\
  Forall (fun block => window_start <= fst block < snd block /\ snd block <= window_end /\
    snd block - fst block <= hours 2 /\
    (snd block mod nanos_per_hour = 0 \/ ends_at window_end spans (snd block)) /\ free_of spans block) blocks /\
  forall t, window_start <= t < window_end ->
    Exists (fun span => covers span t) spans \/ Exists (fun block => covers block t) blocks \/
    exists next, t < next < t + minutes 1 /\ ends_at window_end spans next.
Proof.
  intros Hv window_start window_end blocks. unfold blocks, no_program_blocks. fold window_start window_end.
  destruct (spans_sorted spans) as [Hp Hs]. set (sorted := stable_sort span_lt spans) in *.
  assert (Forall (fun span : GuideSpan => fst span <= snd span) sorted) as Hv' by by rewrite Hp.
  destruct (find_gaps_spec window_end sorted window_start Hs Hv') as (G1 & G2 & G3).
  set (gaps := find_gaps window_end window_start sorted) in *.
  assert (forall t, ends_at window_end sorted t -> ends_at window_end spans t) as Hends.
  { intros t [-> | H]; [by left|right]. by rewrite <- Hp. }
  assert (forall gap, gap ∈ gaps -> exists b,
    chain (snd gap) (fst gap) b (blocks_of_gap gap) /\ b <= snd gap /\ snd gap - b < minimum_gap) as Hb.
  { intros gap Hgap. rewrite Forall_forall in G2. apply blocks_of_gap_spec. specialize (G2 gap Hgap). lia. }
  split; [|split].
  - apply in_order_concat; [done|]. apply Forall_forall. intros gap Hgap. destruct (Hb gap Hgap) as (b & Hc & Hle & _).
    apply chain_spec in Hc as (_ & Ho & Hf & _). split; [done|]. eapply Forall_impl; [exact Hf|].
    intros block (H1 & H2 & _). lia.
  - apply Forall_forall. intros block (gap & Hgap & Hblock)%elem_of_concat_map.
    rewrite Forall_forall in G2. destruct (G2 gap Hgap) as (Hg & Hw & Hfree & He).
    destruct (Hb gap Hgap) as (b & Hc & Hle & _). apply chain_spec in Hc as (_ & _ & Hf & _).
    rewrite Forall_forall in Hf. destruct (Hf block Hblock) as (H1 & H2 & H3 & H4).
    split; [lia|]. split; [lia|]. split; [done|]. split.
    + destruct H4 as [? | ->]; [by left|right; by apply Hends].
    + unfold free_of in *. rewrite <- Hp. eapply Forall_impl; [exact Hfree|]. intros span Hspan. cbn in *. lia.
  - intros t Ht. destruct (G3 t Ht) as [Hspan | Hgap]; [left; by rewrite <- Hp|right].
    apply Exists_exists in Hgap as (gap & Hgap & Hcov). unfold covers in Hcov.
    destruct (Hb gap Hgap) as (b & Hc & Hle & Hmin). apply chain_spec in Hc as (_ & _ & _ & Hcover).
    destruct (Z.lt_ge_cases t b).
    + left. specialize (Hcover t ltac:(lia)). apply Exists_exists in Hcover as (block & Hblock & Hcv).
      apply Exists_exists. exists block. split; [|done]. apply elem_of_concat_map. by exists gap.
    + right. exists (snd gap). rewrite Forall_forall in G2. destruct (G2 gap Hgap) as (_ & _ & _ & He).
      split; [unfold minimum_gap in Hmin; lia|by apply Hends].
Qed.

(** ** Escaped text *)

Definition entity (c : Z) : text :=
  if c =? 0x26 then str "&amp;" else if c =? 0x3c then str "&lt;" else if c =? 0x3e then str "&gt;"
  else if c =? 0x22 then str "&quot;" else if c =? 0x27 then str "&apos;" else [c].

Lemma replace_chars_app chars to a b : replace_chars chars to (a ++ b) = replace_chars chars to a ++ replace_chars chars to b.
Proof. unfold replace_chars. by rewrite map_app, concat_app. Qed.

(** The five replacements, one after the other, replace each character once. *)
Lemma xml_escape_chars s : xml_escape s = concat (List.map entity s).
Proof.
  induction s as [|c s IH]; [done|]. change (c :: s) with ([c] ++ s) at 1. unfold xml_escape in *.
  rewrite !replace_chars_app, IH. cbn [List.map concat]. f_equal. unfold entity.
  destruct (Z.eqb_spec c 0x26) as [->|]; [done|]. destruct (Z.eqb_spec c 0x3c) as [->|]; [done|].
  destruct (Z.eqb_spec c 0x3e) as [->|]; [done|]. destruct (Z.eqb_spec c 0x22) as [->|]; [done|].
  destruct (Z.eqb_spec c 0x27) as [->|]; [done|].
  assert (forall x to, c <> x -> replace_chars [x] to [c] = [c]) as Hid.
  { intros x to Hx. unfold replace_chars. cbn. by rewrite (proj2 (Z.eqb_neq _ _)). }
  by rewrite !Hid.
Qed.

(** An XML reader on character data: the five predefined entities. *)
Definition entities : list Z := [0x26; 0x3c; 0x3e; 0x22; 0x27].
Definition read_entity (s : text) : option (Z * text) :=
  head (omap (fun c => (fun rest => (c, rest)) <$> strip_prefix (entity c) s) entities).
Fixpoint xml_unescape (fuel : nat) (s : text) : text :=
  match fuel, s with
  | S fuel, c :: s' =>
      match read_entity s with
      | Some (c, rest) => c :: xml_unescape fuel rest
      | None => c :: xml_unescape fuel s'
      end
  | _, _ => []
  end.

Lemma read_entity_spec c rest :
  match read_entity (entity c ++ rest) with
  | Some r => r = (c, rest)
  | None => entity c = [c]
  end.
Proof.
  unfold entity at 1 2. destruct (Z.eqb_spec c 0x26) as [->|]; [done|]. destruct (Z.eqb_spec c 0x3c) as [->|]; [done|].
  destruct (Z.eqb_spec c 0x3e) as [->|]; [done|]. destruct (Z.eqb_spec c 0x22) as [->|]; [done|].
  destruct (Z.eqb_spec c 0x27) as [->|]; [done|].
  assert (forall p, strip_prefix (0x26 :: p) (c :: rest) = None) as Hp.
  { intros p. cbn [strip_prefix]. by rewrite (proj2 (Z.eqb_neq 0x26 c)) by congruence. }
  unfold read_entity, entities. cbn [app omap list_omap].
  change (entity 0x26) with (0x26 :: str "amp;"). change (entity 0x3c) with (0x26 :: str "lt;").
  change (entity 0x3e) with (0x26 :: str "gt;"). change (entity 0x22) with (0x26 :: str "quot;").
  change (entity 0x27) with (0x26 :: str "apos;"). by rewrite !Hp.
Qed.

(** Escaping: no text can close an element or an attribute of the guide, and
    a reader gets the text back. *)
Theorem xml_escape_reads_back s :
  xml_unescape (length (xml_escape s)) (xml_escape s) = s /\
  Forall (fun c => c ∉ [0x3c; 0x3e; 0x22; 0x27]) (xml_escape s).
Proof.
  rewrite xml_escape_chars. split.
  - assert (forall fuel, (length s <= fuel)%nat -> xml_unescape fuel (concat (List.map entity s)) = s) as H.
    { induction s as [|c s IH]; intros fuel Hf; [by destruct fuel|]. destruct fuel as [|fuel]; cbn in Hf; [lia|].
      cbn [List.map concat]. pose proof (read_entity_spec c (concat (List.map entity s))) as Hr.
      assert (entity c <> []) as Hne by (unfold entity; repeat case_match; done).
      destruct (entity c ++ concat (List.map entity s)) as [|x r] eqn:E; [by destruct (entity c)|].
      cbn [xml_unescape]. destruct (read_entity (x :: r)) as [[c' rest]|].
      - injection Hr as -> ->. rewrite IH by lia. done.
      - rewrite Hr in E. injection E as -> <-. rewrite IH by lia. done. }
    apply H. clear H. induction s as [|c s IH]; [done|]. cbn [List.map concat length]. rewrite length_app.
    assert (1 <= length (entity c))%nat by (unfold entity; repeat case_match; cbn; lia). lia.
  - induction s as [|c s IH]; [constructor|]. cbn [List.map concat]. apply Forall_app. split; [|done].
    unfold entity. repeat match goal with |- context [if ?b then _ else _] => destruct b eqn:? end;
      apply Forall_forall; intros y Hy; vm_compute in Hy; set_solver.
Qed.
