(* ===== verification/Events.v ===== *)
(** * Event rules

    [crates/domain/src/events.rs] and [crates/parsers/src/events.rs]: rules
    that recognise a sports event in the name of a stream.  A rule set is read
    and validated, compiled, and applied to a candidate; the match carries the
    named values of the regular expressions and the start, which may be a full
    date, a clock time on the day of a reference instant, or a month and day
    in the year nearest to it.

    Regular expressions, the calendar and the time zones are parameters: the
    classes [Regexes] and [Chrono] list the functions of those crates that the
    code calls, and [ChronoLaws] what their documentation promises.  Instants
    are nanoseconds of UTC, a date is its number of days, a clock time its
    number of seconds. *)
From Stdlib Require Import ZArith Lia.
From stdpp Require Import base numbers option strings.
From stdpp Require Import list gmap.
From S2P Require Import Prelude Text M3u.
Open Scope Z_scope.

(** ** The crates *)

Class Regexes (Regex : Type) := {
  (** [Regex::new] *)
  regex_new : text -> result Regex text;
  (** [Regex::capture_names]: the group of the whole match first *)
  capture_names : Regex -> list (option text);
  (** [Regex::captures]: the groups of the first match *)
  regex_captures : Regex -> text -> option (list (option text))
}.

Abbreviation NaiveDateTime := (Z * Z)%type.

Inductive LocalResult := LocalSingle (instant : Z) | LocalAmbiguous | LocalNone.

Class Chrono (Tz : Type) := {
  (** [Tz::from_str] and [Tz::name] *)
  tz_from_str : text -> option Tz;
  tz_name : Tz -> text;
  (** [with_timezone(&tz).date_naive()] *)
  local_date : Tz -> Z -> Z;
  (** [tz.from_local_datetime] *)
  from_local_datetime : Tz -> NaiveDateTime -> LocalResult;
  (** [NaiveDate::from_ymd_opt], [Datelike::year], [NaiveDate::succ_opt] *)
  from_ymd_opt : Z -> Z -> Z -> option Z;
  date_year : Z -> Z;
  succ_opt : Z -> option Z;
  (** [NaiveTime::from_hms_opt] with no seconds *)
  from_hm_opt : Z -> Z -> option Z;
  (** [parse_from_str] of [DateTime], [NaiveDateTime] and [NaiveDate] *)
  parse_datetime : text -> text -> option Z;
  parse_naive_datetime : text -> text -> option NaiveDateTime;
  parse_naive_date : text -> text -> option Z;
  (** The range of [DateTime<Utc>] *)
  utc_min : Z;
  utc_max : Z;
  (** [to_string] of a date and of a local time, [to_rfc3339] *)
  date_to_string : Z -> text;
  naive_to_string : NaiveDateTime -> text;
  to_rfc3339 : Z -> text
}.

Definition nanos_of_seconds (seconds : Z) : Z := seconds * 1000000000.
Definition seconds_per_day : Z := 86400.

(** ** Rules *)

(** The number of a UUID. *)
Abbreviation EventRuleId := Z.

Record EventMatch := mkEventMatch {
  em_name_regex : option text;
  em_group_regex : option text;
  em_epg_title_regex : option text;
  em_categories_any : list text;
  em_metadata : gmap text text
}.

Record DatePattern := mkDatePattern {
  dp_regex : text;
  dp_format : text;
  dp_timezone : option text
}.

Record EventLifecyclePolicy := mkEventLifecyclePolicy {
  pre_roll_seconds : Z;
  post_roll_seconds : Z;
  archive_after_seconds : Z
}.

Record EventGuidePolicy := mkEventGuidePolicy {
  gp_duration_seconds : Z;
  filler_title : text;
  title_template : text
}.

Inductive EventIdentityPolicy := ChannelUuid | SourceTvgId.

Record EventChannelTemplate := mkEventChannelTemplate {
  ct_group : text;
  ct_name : text;
  ct_number_start : option Z;
  ct_identity : EventIdentityPolicy
}.

Record EventRule := mkEventRule {
  er_id : EventRuleId;
  er_name : text;
  er_enabled : bool;
  er_matcher : EventMatch;
  er_date_patterns : list DatePattern;
  er_timezone : text;
  er_lifecycle : EventLifecyclePolicy;
  er_guide : EventGuidePolicy;
  er_channel : EventChannelTemplate;
  er_metadata : gmap text text
}.
Abbreviation EventRuleSet := (list EventRule).

Definition default_lifecycle : EventLifecyclePolicy := mkEventLifecyclePolicy 0 0 86400.
Definition default_guide : EventGuidePolicy :=
  mkEventGuidePolicy 10800 (str "No programs available") (str "{source}").
Definition default_channel : EventChannelTemplate :=
  mkEventChannelTemplate (str "Sports") (str "{title}") None ChannelUuid.

Definition EVENT_TITLE_METADATA_KEY : text := str "event_title".

(** ** Candidates and matches *)

Record EventCandidate := mkEventCandidate {
  cd_name : text;
  cd_group : option text;
  cd_epg_title : option text;
  cd_categories : list text;
  cd_metadata : gmap text text
}.

Record MatchedEvent := mkMatchedEvent {
  me_rule : EventRule;
  me_starts_at : option Z;
  me_captures : gmap text text
}.

Inductive EventDateError :=
| UnknownTimezone (name : text)
| InvalidDate (value format : text)
| AmbiguousLocalTime (value timezone : text)
| NonexistentLocalTime (value timezone : text)
| InvalidTime (value : text).

Section Events.
Context {Regex : Type} `{Regexes Regex} {Tz : Type} `{Chrono Tz}.

(** ** Regular expressions *)

Definition is_match (regex : Regex) (input : text) : bool := bool_decide (is_Some (regex_captures regex input)).

(** [Captures::name] *)
Definition named_group (regex : Regex) (groups : list (option text)) (name : text) : option text :=
  '(index, _) ← list_find (fun group => group = Some name) (capture_names regex);
  mjoin (groups !! index).

(** [Captures::get] *)
Definition numbered_group (groups : list (option text)) (index : nat) : option text := mjoin (groups !! index).

Definition compile_optional (pattern : option text) : result (option Regex) ParseError :=
  match pattern with
  | None => Ok None
  | Some pattern =>
      match regex_new pattern with
      | Ok regex => Ok (Some regex)
      | Err message => Err (MalformedEventRules message)
      end
  end.

(** ** Reading a rule set *)

Record EventRuleDocument := mkEventRuleDocument {
  ed_rules : EventRuleSet;
  ed_diagnostics : list Diagnostic;
  ed_stats : ParseStats
}.

(** [take(limit).read_to_end] *)
Fixpoint read_limited (limit : Z) (reader : BufReader) : result bytes ParseError :=
  if limit <=? 0 then Ok []
  else
    match reader with
    | [] => Ok []
    | Err _ :: _ => Err Io
    | Ok available :: reader =>
        if bool_decide (available = []) then Ok []
        else
          let chunk := ztake limit available in
          match read_limited (limit - zlen chunk) reader with
          | Ok rest => Ok (chunk ++ rest)
          | Err e => Err e
          end
    end.

(** [split_inclusive] at line feeds *)
Fixpoint split_inclusive (l : bytes) : list bytes :=
  match l with
  | [] => []
  | b :: l =>
      match split_inclusive l with
      | line :: lines => if b =? 10 then [b] :: line :: lines else (b :: line) :: lines
      | [] => [[b]]
      end
  end.

(** The number of the first line that is too long. *)
Fixpoint long_line (limit index : Z) (lines : list bytes) : option Z :=
  match lines with
  | [] => None
  | line :: lines => if limit <? zlen line then Some (sat_add u64_max index 1) else long_line limit (index + 1) lines
  end.

Definition event_rule_diagnostic (document : EventRuleDocument) : EventRuleDocument :=
  let diagnostic := error InvalidEventRule None None in
  mkEventRuleDocument (ed_rules document) (ed_diagnostics document ++ [diagnostic])
    (observe_diagnostic (ed_stats document) diagnostic).

(** The checks of a rule: the document with a diagnostic for each failed
    check, and whether all held. *)
Abbreviation Checked := (EventRuleDocument * bool)%type.
Definition check (ok : bool) (c : Checked) : Checked :=
  if ok then c else (event_rule_diagnostic (fst c), false).

Definition regex_valid (pattern : option text) : bool :=
  match pattern with
  | None => true
  | Some pattern => match regex_new pattern with Ok _ => true | Err _ => false end
  end.

Definition timezone_valid (name : text) : bool := bool_decide (is_Some (tz_from_str name)).

(** A date expression has a group for the date. *)
Definition date_regex_valid (pattern : text) : bool :=
  match regex_new pattern with
  | Ok regex =>
      existsb (fun name => bool_decide (name = Some (str "datetime"))) (capture_names regex) ||
      (2 <=? zlen (capture_names regex))
  | Err _ => false
  end.

Definition check_date_pattern (c : Checked) (pattern : DatePattern) : Checked :=
  let c := check (date_regex_valid (dp_regex pattern)) c in
  check (match dp_timezone pattern with Some name => timezone_valid name | None => true end) c.

Record RuleScan := mkRuleScan {
  rc_document : EventRuleDocument;
  rc_seen_names : gset text;
  rc_seen_ids : gset Z
}.

(** One turn of the loop over the rules. *)
Definition scan_rule (scan : RuleScan) (rule : EventRule) : RuleScan :=
  let blank := bool_decide (trim (er_name rule) = []) in
  let name_ok := negb blank && negb (bool_decide (er_name rule ∈ rc_seen_names scan)) in
  let seen_names := if blank then rc_seen_names scan else {[er_name rule]} ∪ rc_seen_names scan in
  let id_ok := negb (bool_decide (er_id rule ∈ rc_seen_ids scan)) in
  let seen_ids := {[er_id rule]} ∪ rc_seen_ids scan in
  let matcher := er_matcher rule in
  let c := check name_ok (rc_document scan, true) in
  let c := check id_ok c in
  let c := check (timezone_valid (er_timezone rule)) c in
  let c := check (regex_valid (em_name_regex matcher)) c in
  let c := check (regex_valid (em_group_regex matcher)) c in
  let c := check (regex_valid (em_epg_title_regex matcher)) c in
  let '(document, valid) := fold_left check_date_pattern (er_date_patterns rule) c in
  mkRuleScan
    (if valid : bool then
       mkEventRuleDocument (ed_rules document ++ [rule]) (ed_diagnostics document)
         (count_records (ed_stats document) 0 1 0)
     else
       mkEventRuleDocument (ed_rules document) (ed_diagnostics document)
         (count_records (ed_stats document) 0 0 1))
    seen_names seen_ids.

(** [parse_event_rules]; [from_json] is [serde_json::from_slice]. *)
Definition parse_event_rules (from_json : bytes -> result EventRuleSet text) (reader : BufReader)
  (limits : ParseLimits) : result EventRuleDocument ParseError :=
  match read_limited (wrap64 (max_input_bytes limits + 1)) reader with
  | Err e => Err e
  | Ok input =>
      if max_input_bytes limits <? zlen input then Err (InputTooLarge (max_input_bytes limits))
      else
        match long_line (max_line_bytes limits) 0 (split_inclusive input) with
        | Some line => Err (LineTooLong line (max_line_bytes limits))
        | None =>
            match from_json input with
            | Err message => Err (MalformedEventRules message)
            | Ok rules =>
                if max_records limits <? zlen rules then Err (TooManyRecords (max_records limits))
                else
                  let stats := mkParseStats (zlen input) 0 (zlen rules) 0 0 0 0 0 in
                  Ok (rc_document (fold_left scan_rule rules (mkRuleScan (mkEventRuleDocument [] [] stats) ∅ ∅)))
            end
        end
  end.

(** ** Compiling *)

Record CompiledDatePattern := mkCompiledDatePattern { cp_regex : Regex; cp_definition : DatePattern }.

Record CompiledRule := mkCompiledRule {
  cr_rule : EventRule;
  cr_name : option Regex;
  cr_group : option Regex;
  cr_epg_title : option Regex;
  cr_dates : list CompiledDatePattern
}.
Abbreviation CompiledEventRules := (list CompiledRule).

Fixpoint compile_dates (patterns : list DatePattern) : result (list CompiledDatePattern) ParseError :=
  match patterns with
  | [] => Ok []
  | definition :: patterns =>
      match regex_new (dp_regex definition) with
      | Err message => Err (MalformedEventRules message)
      | Ok regex =>
          match compile_dates patterns with
          | Err e => Err e
          | Ok dates => Ok (mkCompiledDatePattern regex definition :: dates)
          end
      end
  end.

Definition compile_rule (rule : EventRule) : result CompiledRule ParseError :=
  let matcher := er_matcher rule in
  match compile_optional (em_name_regex matcher) with
  | Err e => Err e
  | Ok name =>
      match compile_optional (em_group_regex matcher) with
      | Err e => Err e
      | Ok group =>
          match compile_optional (em_epg_title_regex matcher) with
          | Err e => Err e
          | Ok epg_title =>
              match compile_dates (er_date_patterns rule) with
              | Err e => Err e
              | Ok dates => Ok (mkCompiledRule rule name group epg_title dates)
              end
          end
      end
  end.

(** [CompiledEventRules::new] *)
Fixpoint compile_rules (rules : EventRuleSet) : result CompiledEventRules ParseError :=
  match rules with
  | [] => Ok []
  | rule :: rules =>
      match compile_rule rule with
      | Err e => Err e
      | Ok compiled =>
          match compile_rules rules with
          | Err e => Err e
          | Ok rest => Ok (compiled :: rest)
          end
      end
  end.

(** ** Matching *)

(** [option.is_some_and(|value| regex.is_match(value))] *)
Definition matches_option (regex : option Regex) (value : option text) : bool :=
  match regex, value with
  | None, _ => true
  | Some regex, Some value => is_match regex value
  | Some _, None => false
  end.

Definition matches_rule (compiled : CompiledRule) (candidate : EventCandidate) : bool :=
  let matcher := er_matcher (cr_rule compiled) in
  matches_option (cr_name compiled) (Some (cd_name candidate)) &&
  matches_option (cr_group compiled) (cd_group candidate) &&
  matches_option (cr_epg_title compiled) (cd_epg_title candidate) &&
  (bool_decide (em_categories_any matcher = []) ||
   existsb (fun expected => existsb (fun actual => eq_ignore_ascii_case actual expected) (cd_categories candidate))
     (em_categories_any matcher)) &&
  bool_decide (map_Forall (fun key expected => cd_metadata candidate !! key = Some expected) (em_metadata matcher)).

(** [entry(name).or_insert(value)] *)
Definition or_insert (name value : text) (values : gmap text text) : gmap text text :=
  match values !! name with Some _ => values | None => <[name := value]> values end.

Definition collect_regex_captures (regex : option Regex) (input : text) (values : gmap text text) : gmap text text :=
  match regex with
  | None => values
  | Some regex =>
      match regex_captures regex input with
      | None => values
      | Some groups =>
          fold_left
            (fun values name =>
               match named_group regex groups name with
               | Some value => or_insert name (join_words (split_whitespace value)) values
               | None => values
               end)
            (omap id (capture_names regex)) values
      end
  end.

(** [[Some(name), epg_title].into_iter().flatten()] *)
Definition date_inputs (candidate : EventCandidate) : list text :=
  omap id [Some (cd_name candidate); cd_epg_title candidate].

Definition collect_captures (compiled : CompiledRule) (candidate : EventCandidate) : gmap text text :=
  let values := collect_regex_captures (cr_name compiled) (cd_name candidate) ∅ in
  let values :=
    match cd_group candidate with
    | Some group => collect_regex_captures (cr_group compiled) group values
    | None => values
    end in
  let values :=
    match cd_epg_title candidate with
    | Some title => collect_regex_captures (cr_epg_title compiled) title values
    | None => values
    end in
  let values :=
    fold_left
      (fun values date =>
         fold_left (fun values input => collect_regex_captures (Some (cp_regex date)) input values)
           (date_inputs candidate) values)
      (cr_dates compiled) values in
  match values !! str "slot_b" with
  | Some slot => or_insert (str "slot") slot (delete (str "slot_b") values)
  | None => values
  end.

(** ** Dates *)

(** The instant of a local time; a time that does not exist or is ambiguous is
    an error.  [value] is what the error shows. *)
Definition resolve_local (tz : Tz) (naive : NaiveDateTime) (value : text) : result Z EventDateError :=
  match from_local_datetime tz naive with
  | LocalSingle instant => Ok instant
  | LocalAmbiguous => Err (AmbiguousLocalTime value (tz_name tz))
  | LocalNone => Err (NonexistentLocalTime value (tz_name tz))
  end.

Definition parse_event_local_datetime (value format timezone : text) : result Z EventDateError :=
  match parse_datetime value format with
  | Some instant => Ok instant
  | None =>
      match (match parse_naive_datetime value format with
             | Some naive => Some naive
             | None => (fun date => (date, 0)) <$> parse_naive_date value format
             end) with
      | None => Err (InvalidDate value format)
      | Some naive =>
          match tz_from_str timezone with
          | None => Err (UnknownTimezone timezone)
          | Some tz => resolve_local tz naive value
          end
      end
  end.

(** The loops of [parse_candidate_date] over the inputs of one pattern and
    over the patterns. *)
Fixpoint date_of_inputs (compiled : CompiledRule) (pattern : CompiledDatePattern) (inputs : list text)
  : option (result Z EventDateError) :=
  match inputs with
  | [] => None
  | input :: inputs =>
      match regex_captures (cp_regex pattern) input with
      | None => date_of_inputs compiled pattern inputs
      | Some groups =>
          match (match named_group (cp_regex pattern) groups (str "datetime") with
                 | Some value => Some value
                 | None => numbered_group groups 1
                 end) with
          | None => date_of_inputs compiled pattern inputs
          | Some value =>
              let timezone :=
                match dp_timezone (cp_definition pattern) with
                | Some timezone => timezone
                | None =>
                    match named_group (cp_regex pattern) groups (str "timezone") with
                    | Some timezone => trim timezone
                    | None => er_timezone (cr_rule compiled)
                    end
                end in
              Some (parse_event_local_datetime (trim value) (dp_format (cp_definition pattern)) timezone)
          end
      end
  end.

Fixpoint date_of_patterns (compiled : CompiledRule) (candidate : EventCandidate) (patterns : list CompiledDatePattern)
  : result (option Z) EventDateError :=
  match patterns with
  | [] => Ok None
  | pattern :: patterns =>
      match date_of_inputs compiled pattern (date_inputs candidate) with
      | Some (Ok instant) => Ok (Some instant)
      | Some (Err e) => Err e
      | None => date_of_patterns compiled candidate patterns
      end
  end.

Definition parse_candidate_date (compiled : CompiledRule) (candidate : EventCandidate)
  : result (option Z) EventDateError :=
  date_of_patterns compiled candidate (cr_dates compiled).

(** [to_string] of an integer *)
Fixpoint decimal_digits (fuel : nat) (n : Z) (digits : text) : text :=
  match fuel with
  | O => digits
  | S fuel =>
      let digits := (0x30 + n mod 10) :: digits in
      if n <? 10 then digits else decimal_digits fuel (n / 10) digits
  end.
Definition decimal (n : Z) : text := decimal_digits 20 n [].

(** [(stop - start).num_seconds()]: whole seconds, towards zero *)
Definition num_seconds (nanos : Z) : Z := Z.quot nanos 1000000000.

Definition apply_stop_capture (compiled : CompiledRule) (starts_at : option Z) (captures : gmap text text)
  : result (gmap text text) EventDateError :=
  match starts_at, captures !! str "stop", head (cr_dates compiled) with
  | Some start, Some stop, Some pattern =>
      let timezone := default (er_timezone (cr_rule compiled)) (dp_timezone (cp_definition pattern)) in
      match parse_event_local_datetime stop (dp_format (cp_definition pattern)) timezone with
      | Err e => Err e
      | Ok stop_at =>
          let seconds := num_seconds (stop_at - start) in
          if seconds <=? 0 then Err (InvalidDate stop (str "stop after start"))
          else Ok (<[str "duration_seconds" := decimal seconds]> captures)
      end
  | _, _, _ => Ok captures
  end.

Fixpoint first_match (rules : CompiledEventRules) (candidate : EventCandidate)
  : result (option MatchedEvent) EventDateError :=
  match rules with
  | [] => Ok None
  | compiled :: rules =>
      if negb (er_enabled (cr_rule compiled)) || negb (matches_rule compiled candidate)
      then first_match rules candidate
      else
        match parse_candidate_date compiled candidate with
        | Err e => Err e
        | Ok starts_at =>
            match apply_stop_capture compiled starts_at (collect_captures compiled candidate) with
            | Err e => Err e
            | Ok captures => Ok (Some (mkMatchedEvent (cr_rule compiled) starts_at captures))
            end
        end
  end.

(** ** Clock times and dates without a year *)

Definition TIME_ONLY_LOOKBACK_HOURS : Z := 12.

(** [value.trim().to_ascii_lowercase().replace(' ', "")] *)
Definition compact (value : text) : text :=
  replace_chars [0x20] [] (List.map to_ascii_lowercase (trim value)).

(** The hour of the day and the minute that a clock time names. *)
Definition clock_fields (value : text) : option (Z * Z) :=
  let normalized := compact value in
  let '(digits, meridiem) :=
    match strip_suffix (str "am") normalized with
    | Some rest => (rest, Some false)
    | None =>
        match strip_suffix (str "pm") normalized with
        | Some rest => (rest, Some true)
        | None => (normalized, None)
        end
    end in
  '(hour, minute) ←
    (match split_once 0x3a digits with
     | Some parts => Some parts
     | None => if bool_decide (is_Some meridiem) then Some (digits, str "0") else None
     end);
  hour ← parse_unsigned u32_max hour;
  minute ← parse_unsigned u32_max minute;
  match meridiem with
  | Some pm =>
      if (1 <=? hour) && (hour <=? 12) then Some (hour mod 12 + (if pm : bool then 12 else 0), minute) else None
  | None => Some (hour, minute)
  end.

Definition parse_clock_time (value : text) : result Z EventDateError :=
  match (fields ← clock_fields value; from_hm_opt (fst fields) (snd fields)) with
  | Some time => Ok time
  | None => Err (InvalidTime value)
  end.

Definition resolve_time_only_start (time : text) (reference : Z) (timezone : text) : result Z EventDateError :=
  match parse_clock_time time with
  | Err e => Err e
  | Ok clock =>
      match tz_from_str timezone with
      | None => Err (UnknownTimezone timezone)
      | Some tz =>
          let date := local_date tz reference in
          let resolve date := resolve_local tz (date, clock) (naive_to_string (date, clock)) in
          match resolve date with
          | Err e => Err e
          | Ok today =>
              if today <? reference - nanos_of_seconds (TIME_ONLY_LOOKBACK_HOURS * 3600) then
                match succ_opt date with
                | None => Err (InvalidDate (date_to_string date) (str "next local day"))
                | Some tomorrow => resolve tomorrow
                end
              else Ok today
          end
      end
  end.

Definition MONTHS : list text :=
  List.map str ["january"; "february"; "march"; "april"; "may"; "june"; "july"; "august"; "september"; "october";
                "november"; "december"]%string.

(** The number of the first month with this prefix of three letters or more. *)
Definition month_number (month : text) : option Z :=
  let lowered := List.map to_ascii_lowercase month in
  '(index, _) ← list_find (fun name => (3 <=? utf8_len lowered) && starts_with lowered name = true) MONTHS;
  Some (Z.of_nat index + 1).

(** [min_by_key]: the first element with the least key *)
Definition min_by_key (key : Z -> Z) (l : list Z) : option Z :=
  match l with
  | [] => None
  | x :: l => Some (fold_left (fun best x => if key x <? key best then x else best) l x)
  end.

(** The date in the year that puts it nearest to the reference. *)
Definition nearest_date (reference month day : Z) : option Z :=
  min_by_key (fun date => Z.abs (date - reference))
    (omap (fun offset => from_ymd_opt (date_year reference + offset) month day) [-1; 0; 1]).

Definition resolve_spelled_date_start (month day time : text) (reference : Z) (timezone : text)
  : result Z EventDateError :=
  let invalid := Err (InvalidDate (month ++ str " " ++ day) (str "month day time")) in
  match month_number month with
  | None => invalid
  | Some month_number =>
      match parse_unsigned u32_max day with
      | None => invalid
      | Some day_number =>
          match parse_clock_time time with
          | Err e => Err e
          | Ok clock =>
              match tz_from_str timezone with
              | None => Err (UnknownTimezone timezone)
              | Some tz =>
                  match nearest_date (local_date tz reference) month_number day_number with
                  | None => invalid
                  | Some date => resolve_local tz (date, clock) (naive_to_string (date, clock))
                  end
              end
          end
      end
  end.

(** [MatchedEvent::resolve_start] *)
Definition resolve_start (matched : MatchedEvent) (reference : Z) (timezone : text)
  : result (option Z) EventDateError :=
  match me_starts_at matched with
  | Some instant => Ok (Some instant)
  | None =>
      match me_captures matched !! str "time" with
      | None => Ok None
      | Some time =>
          let start :=
            match me_captures matched !! str "month", me_captures matched !! str "day" with
            | Some month, Some day => resolve_spelled_date_start month day time reference timezone
            | _, _ => resolve_time_only_start time reference timezone
            end in
          match start with Ok instant => Ok (Some instant) | Err e => Err e end
      end
  end.
End Events.

Arguments CompiledRule : clear implicits.
Arguments CompiledDatePattern : clear implicits.
