(* ===== verification/EventGuide.v ===== *)
(** * Guides of events

    The second half of [crates/parsers/src/events.rs]: from a matched event to
    programmes.  The title is rendered from a template, the interval from the
    start and the policies of the rule; one event is set into a window, or the
    events of a channel are laid out in it without overlaps.

    [Duration::seconds] panics beyond [i64::MAX / 1000] seconds, so a computation
    here ends with a value, an error, or a panic. *)
From Stdlib Require Import ZArith Lia.
From stdpp Require Import base numbers option strings.
From stdpp Require Import list gmap sorting.
From S2P Require Import Prelude Text Sort M3u Events.
Open Scope Z_scope.

Inductive EventGuideError :=
| MissingStart
| InvalidWindow
| InvalidEventDuration
| InvalidCapturedDuration (value : text)
| UnknownTemplateField (field : text)
| DateOverflow.

(** How a computation can fail to give a guide. *)
Inductive GuideFailure := GuideError (e : EventGuideError) | GuidePanic.

Inductive GeneratedProgrammeKind := EventProgramme | FillerProgramme.
#[export] Instance kind_eq_dec : EqDecision GeneratedProgrammeKind.
Proof. solve_decision. Defined.

Record GeneratedProgramme := mkGeneratedProgramme {
  pg_starts_at : Z;
  pg_stops_at : Z;
  pg_title : text;
  pg_kind : GeneratedProgrammeKind;
  pg_stable_event_key : option text;
  pg_source_title : text
}.

Definition filler (starts_at stops_at : Z) (title source_title : text) : GeneratedProgramme :=
  mkGeneratedProgramme starts_at stops_at title FillerProgramme None source_title.

Definition set_interval (programme : GeneratedProgramme) (starts_at stops_at : Z) : GeneratedProgramme :=
  mkGeneratedProgramme starts_at stops_at (pg_title programme) (pg_kind programme) (pg_stable_event_key programme)
    (pg_source_title programme).

(** ** Titles *)

(** The value of a template field; [None] is an unknown one.  [event] is the
    rendered default title, or [None] in the pass that only checks. *)
Definition field_value (source_title : text) (captures : gmap text text) (event : option text) (field : text)
  : option text :=
  if bool_decide (field = str "source") || bool_decide (field = str "title") then Some source_title
  else if bool_decide (field = str "event") then Some (default [] event)
  else captures !! field.

(** The loop of [render_template]; a turn consumes the two braces. *)
Fixpoint render_from (fuel : nat) (source_title : text) (captures : gmap text text) (event : option text)
  (rendered remaining : text) : result text EventGuideError :=
  match fuel with
  | O => Ok rendered
  | S fuel =>
      match split_once 0x7b remaining with
      | None => Ok (rendered ++ remaining)
      | Some (before, after_open) =>
          match split_once 0x7d after_open with
          | None => Err (UnknownTemplateField after_open)
          | Some (field, remaining) =>
              match field_value source_title captures event field with
              | None => Err (UnknownTemplateField field)
              | Some value => render_from fuel source_title captures event (rendered ++ before ++ value) remaining
              end
          end
      end
  end.
Definition render_template (template source_title : text) (captures : gmap text text) (event : option text)
  : result text EventGuideError :=
  render_from (S (length template)) source_title captures event [] template.

Definition render_event_title (template source_title : text) (captures : gmap text text) (default_title : text)
  : result text EventGuideError :=
  match render_template template source_title captures None with
  | Err e => Err e
  | Ok rendered =>
      if contains_text (str "{event}") template then
        match render_template default_title source_title captures None with
        | Err e => Err e
        | Ok event => render_template template source_title captures (Some event)
        end
      else Ok rendered
  end.

Definition render_matched_event_title (matched : MatchedEvent) (source_title template : text)
  : result text EventGuideError :=
  let captured key := bool_decide (is_Some (me_captures matched !! str key)) in
  let fallback :=
    if captured "home"%string && captured "away"%string then str "{away} @ {home}" else str "{source}" in
  let default_title :=
    match er_metadata (me_rule matched) !! EVENT_TITLE_METADATA_KEY with
    | Some value => if contains_text (str "{event}") value then fallback else value
    | None => fallback
    end in
  render_event_title template source_title (me_captures matched) default_title.

(** ** Durations *)

Definition parse_seconds (value : text) : result Z EventGuideError :=
  match parse_unsigned u64_max (trim value) with
  | Some seconds => if 0 <? seconds then Ok seconds else Err (InvalidCapturedDuration value)
  | None => Err (InvalidCapturedDuration value)
  end.

Definition unit_seconds (unit : text) : option Z :=
  if existsb (fun s => bool_decide (unit = str s)) ["s"; "sec"; "secs"; "second"; "seconds"]%string then Some 1
  else if existsb (fun s => bool_decide (unit = str s)) ["m"; "min"; "mins"; "minute"; "minutes"]%string then Some 60
  else if existsb (fun s => bool_decide (unit = str s)) ["h"; "hr"; "hrs"; "hour"; "hours"]%string then Some 3600
  else None.

(** The seconds of the text, when it has the form of a duration. *)
Definition duration_seconds (normalized : text) : option Z :=
  match split_once 0x3a normalized with
  | Some (hours, minutes) =>
      hours ← parse_unsigned u64_max hours;
      minutes ← parse_unsigned u64_max minutes;
      if 60 <=? minutes then None
      else
        seconds ← checked u64_max (hours * 3600);
        extra ← checked u64_max (minutes * 60);
        checked u64_max (seconds + extra)
  | None =>
      match span is_ascii_digit normalized with
      | (_, []) => None
      | (number, unit) =>
          amount ← parse_unsigned u64_max number;
          multiplier ← unit_seconds unit;
          checked u64_max (amount * multiplier)
      end
  end.

Definition parse_duration (value : text) : result Z EventGuideError :=
  match duration_seconds (compact value) with
  | Some seconds => if 0 <? seconds then Ok seconds else Err (InvalidCapturedDuration value)
  | None => Err (InvalidCapturedDuration value)
  end.

Definition event_duration_seconds (matched : MatchedEvent) : result Z EventGuideError :=
  let captured :=
    match me_captures matched !! str "duration_seconds" with
    | Some value => Some (parse_seconds value)
    | None => parse_duration <$> me_captures matched !! str "duration"
    end in
  match captured with
  | Some (Err e) => Err e
  | Some (Ok duration) => if duration =? 0 then Err InvalidEventDuration else Ok duration
  | None =>
      let duration := gp_duration_seconds (er_guide (me_rule matched)) in
      if duration =? 0 then Err InvalidEventDuration else Ok duration
  end.

(** [signed_seconds], in nanoseconds; [TimeDelta::seconds] panics when the
    value is above [i64::MAX / 1000]. *)
Definition max_delta_seconds : Z := i64_max / 1000.
Definition signed_seconds (seconds : Z) : result Z GuideFailure :=
  if i64_max <? seconds then Err (GuideError DateOverflow)
  else if max_delta_seconds <? seconds then Err GuidePanic
  else Ok (nanos_of_seconds seconds).

(** ** Identity *)

(** [parts.join("|")] *)
Fixpoint join_bars (parts : list text) : text :=
  match parts with
  | [] => []
  | [part] => part
  | part :: parts => part ++ 0x7c :: join_bars parts
  end.

Section Guide.
Context {Tz : Type} `{Chrono Tz}.
(** [str::to_lowercase] *)
Context (to_lowercase : text -> text).

Definition normalize_identity (value : text) : text := join_words (List.map to_lowercase (split_whitespace value)).

Definition stable_event_key (matched : MatchedEvent) (source_title : text) (starts_at : Z) : text :=
  let identity :=
    join_bars
      (List.filter (fun value => negb (bool_decide (value = [])))
         (List.map normalize_identity
            (omap (fun field => me_captures matched !! str field)
               ["league"; "home"; "away"; "team_a"; "team_b"; "event"]%string))) in
  let identity := if bool_decide (identity = []) then normalize_identity source_title else identity in
  identity ++ str "|" ++ to_rfc3339 starts_at.

(** ** One event *)

(** [checked_add_signed] *)
Definition checked_instant (instant : Z) : option Z :=
  if (utc_min <=? instant) && (instant <=? utc_max) then Some instant else None.

Definition build_event_programme (matched : MatchedEvent) (source_title : text)
  : result GeneratedProgramme GuideFailure :=
  match me_starts_at matched with
  | None => Err (GuideError MissingStart)
  | Some starts_at =>
      match signed_seconds (pre_roll_seconds (er_lifecycle (me_rule matched))) with
      | Err e => Err e
      | Ok pre_roll =>
          match event_duration_seconds matched with
          | Err e => Err (GuideError e)
          | Ok seconds =>
              match signed_seconds seconds with
              | Err e => Err e
              | Ok duration =>
                  match signed_seconds (post_roll_seconds (er_lifecycle (me_rule matched))) with
                  | Err e => Err e
                  | Ok post_roll =>
                      match checked_instant (starts_at - pre_roll) with
                      | None => Err (GuideError DateOverflow)
                      | Some event_start =>
                          match (ended ← checked_instant (starts_at + duration); checked_instant (ended + post_roll)) with
                          | None => Err (GuideError DateOverflow)
                          | Some event_end =>
                              match render_matched_event_title matched source_title
                                      (title_template (er_guide (me_rule matched))) with
                              | Err e => Err (GuideError e)
                              | Ok title =>
                                  Ok (mkGeneratedProgramme event_start event_end title EventProgramme
                                        (Some (stable_event_key matched source_title starts_at)) source_title)
                              end
                          end
                      end
                  end
              end
          end
      end
  end.

(** The programmes of a window around an event. *)
Definition window_guide (event : GeneratedProgramme) (window_start window_end : Z) (filler_title source_title : text)
  : list GeneratedProgramme :=
  if (pg_stops_at event <=? window_start) || (window_end <=? pg_starts_at event)
  then [filler window_start window_end filler_title source_title]
  else
    let clipped_start := Z.max (pg_starts_at event) window_start in
    let clipped_end := Z.min (pg_stops_at event) window_end in
    let filler_start := Z.max clipped_end window_start in
    (if window_start <? clipped_start then [filler window_start clipped_start filler_title source_title] else []) ++
    (if clipped_start <? clipped_end then [set_interval event clipped_start clipped_end] else []) ++
    (if filler_start <? window_end then [filler filler_start window_end filler_title source_title] else []).

Definition generate_event_guide (matched : MatchedEvent) (source_title : text) (window_start window_end : Z)
  : result (list GeneratedProgramme) GuideFailure :=
  if window_end <=? window_start then Err (GuideError InvalidWindow)
  else
    match build_event_programme matched source_title with
    | Err e => Err e
    | Ok event =>
        Ok (window_guide event window_start window_end (filler_title (er_guide (me_rule matched))) source_title)
    end.

(** ** The events of a channel *)

(** The comparison of [sort_by]: start, stop, key, source title. *)
Definition key_text (event : GeneratedProgramme) : text := default [] (pg_stable_event_key event).
Definition event_le (left right : GeneratedProgramme) : bool :=
  if pg_starts_at left <? pg_starts_at right then true
  else if pg_starts_at right <? pg_starts_at left then false
  else if pg_stops_at left <? pg_stops_at right then true
  else if pg_stops_at right <? pg_stops_at left then false
  else if bool_decide (key_text left = key_text right) then text_le (pg_source_title left) (pg_source_title right)
  else text_le (key_text left) (key_text right).
Definition event_lt (left right : GeneratedProgramme) : bool := negb (event_le right left).

(** The loop over the sorted events. *)
Fixpoint lay_out (window_start window_end : Z) (filler_title : text) (cursor : Z) (events : list GeneratedProgramme)
  : list GeneratedProgramme :=
  match events with
  | [] => if cursor <? window_end then [filler cursor window_end filler_title []] else []
  | event :: events =>
      if (pg_stops_at event <=? cursor) || (pg_stops_at event <=? window_start) || (window_end <=? pg_starts_at event)
      then lay_out window_start window_end filler_title cursor events
      else
        let starts_at := Z.max (pg_starts_at event) window_start in
        if starts_at <? cursor then lay_out window_start window_end filler_title cursor events
        else
          let stops_at := Z.min (pg_stops_at event) window_end in
          (if cursor <? starts_at then [filler cursor starts_at filler_title []] else []) ++
          set_interval event starts_at stops_at ::
          lay_out window_start window_end filler_title stops_at events
  end.

Fixpoint build_programmes (inputs : list (MatchedEvent * text)) : result (list GeneratedProgramme) GuideFailure :=
  match inputs with
  | [] => Ok []
  | (matched, source_title) :: inputs =>
      match build_event_programme matched source_title with
      | Err e => Err e
      | Ok event =>
          match build_programmes inputs with
          | Err e => Err e
          | Ok events => Ok (event :: events)
          end
      end
  end.

Definition generate_event_schedule (inputs : list (MatchedEvent * text)) (window_start window_end : Z)
  (filler_title : text) : result (list GeneratedProgramme) GuideFailure :=
  if window_end <=? window_start then Err (GuideError InvalidWindow)
  else
    match build_programmes inputs with
    | Err e => Err e
    | Ok events => Ok (lay_out window_start window_end filler_title window_start (stable_sort event_lt events))
    end.
End Guide.
