(* ===== verification/EventSpec.v ===== *)
(** * What the event rules and guides guarantee

    Templates render piece by piece; the guide of a window tiles it; validated
    rules compile and are applied in order; clock times are read back. *)
From Stdlib Require Import ZArith Lia.
From stdpp Require Import base numbers option strings.
From stdpp Require Import list gmap sorting.
From S2P Require Import Prelude Text Sort M3u Events EventGuide.
Open Scope Z_scope.

(** ** Templates *)

Inductive Piece := Literal (s : text) | Field (name : text).

Definition print_piece (piece : Piece) : text :=
  match piece with Literal s => s | Field name => 0x7b :: name ++ [0x7d] end.
Definition print_template (pieces : list Piece) : text := concat (List.map print_piece pieces).

(** A literal has no opening brace, a name no closing one. *)
Definition piece_ok (piece : Piece) : Prop :=
  match piece with Literal s => 0x7b ∉ s | Field name => 0x7d ∉ name end.

(** The value of a template: its pieces in order, up to an unknown field. *)
Fixpoint eval_template (value : text -> option text) (pieces : list Piece) (rest : result text EventGuideError)
  : result text EventGuideError :=
  match pieces with
  | [] => rest
  | Literal s :: pieces =>
      match eval_template value pieces rest with Ok r => Ok (s ++ r) | Err e => Err e end
  | Field name :: pieces =>
      match value name with
      | None => Err (UnknownTemplateField name)
      | Some v => match eval_template value pieces rest with Ok r => Ok (v ++ r) | Err e => Err e end
      end
  end.

(** What can follow the last field: nothing, or a brace that is never closed. *)
Definition unclosed (open : option text) : text := match open with None => [] | Some s => 0x7b :: s end.
Definition open_result (open : option text) : result text EventGuideError :=
  match open with None => Ok [] | Some s => Err (UnknownTemplateField s) end.

(** Every text is a template of these pieces. *)
Lemma template_pieces fuel s :
  (length s < fuel)%nat ->
  exists pieces open, s = print_template pieces ++ unclosed open /\ Forall piece_ok pieces /\
    (forall o, open = Some o -> 0x7d ∉ o).
Proof.
  revert s. induction fuel as [|fuel IH]; intros s Hlen; [lia|].
  destruct (split_once 0x7b s) as [[before after]|] eqn:E.
  - apply split_once_Some in E as [-> Hb]. destruct (split_once 0x7d after) as [[field rest]|] eqn:E'.
    + apply split_once_Some in E' as [-> Hf]. rewrite !length_app in Hlen. cbn in Hlen. rewrite length_app in Hlen. cbn in Hlen.
      destruct (IH rest ltac:(lia)) as (pieces & open & -> & Hok & Hopen).
      exists (Literal before :: Field field :: pieces), open. split; [|split; [by repeat constructor|done]].
      cbn. rewrite <- !app_assoc. cbn. by rewrite <- !app_assoc.
    + exists [Literal before], (Some after). cbn. rewrite app_nil_r. split; [done|]. split; [by repeat constructor|].
      intros o [= <-]. by apply split_once_None.
  - exists [Literal s], None. cbn. rewrite !app_nil_r. split; [done|]. split; [|done].
    repeat constructor. by apply split_once_None.
Qed.

Section Templates.
Context (source_title : text) (captures : gmap text text) (event : option text).
Let value : text -> option text := field_value source_title captures event.

(** [rest] with a prefix. *)
Definition prepend (prefix : text) (r : result text EventGuideError) : result text EventGuideError :=
  match r with Ok s => Ok (prefix ++ s) | Err e => Err e end.

Lemma prepend_prepend a b r : prepend a (prepend b r) = prepend (a ++ b) r.
Proof. destruct r; cbn; [by rewrite app_assoc|done]. Qed.

Lemma prepend_nil r : prepend [] r = r.
Proof. by destruct r. Qed.

(** Leading literals: what precedes the next field. *)
Lemma render_pieces fuel rendered literal pieces open :
  0x7b ∉ literal -> Forall piece_ok pieces -> (forall o, open = Some o -> 0x7d ∉ o) ->
  (length (literal ++ print_template pieces ++ unclosed open) < fuel)%nat ->
  render_from fuel source_title captures event rendered (literal ++ print_template pieces ++ unclosed open) =
  prepend (rendered ++ literal) (eval_template value pieces (open_result open)).
Proof.
  intros Hl Hok Hopen. revert fuel rendered literal Hl. induction Hok as [|piece pieces Hp Hok IH]; intros fuel rendered literal Hl Hlen.
  - destruct fuel as [|fuel]; [lia|]. cbn. destruct open as [o|]; cbn.
    + rewrite split_once_found by done. by rewrite split_once_absent by auto.
    + rewrite app_nil_r, split_once_absent by done. by rewrite app_nil_r.
  - destruct piece as [s | name]; cbn [piece_ok] in Hp.
    + change (print_template (Literal s :: pieces)) with (s ++ print_template pieces) in *.
      replace (literal ++ (s ++ print_template pieces) ++ unclosed open)
        with ((literal ++ s) ++ print_template pieces ++ unclosed open) in * by (by rewrite <- !app_assoc).
      rewrite IH by (done || rewrite elem_of_app; tauto).
      cbn [eval_template].
      change (match eval_template value pieces (open_result open) with Ok r => Ok (s ++ r) | Err e => Err e end)
        with (prepend s (eval_template value pieces (open_result open))).
      by rewrite prepend_prepend, app_assoc.
    + destruct fuel as [|fuel]; [lia|]. cbn [render_from].
      change (print_template (Field name :: pieces)) with ((0x7b :: name ++ [0x7d]) ++ print_template pieces) in *.
      replace (literal ++ ((0x7b :: name ++ [0x7d]) ++ print_template pieces) ++ unclosed open)
        with (literal ++ 0x7b :: (name ++ 0x7d :: (print_template pieces ++ unclosed open))) in *
        by (cbn; by rewrite <- !app_assoc).
      rewrite split_once_found, split_once_found by done. cbn [eval_template]. fold value.
      destruct (value name) as [v|]; [|done].
      change (print_template pieces ++ unclosed open) with ([] ++ print_template pieces ++ unclosed open).
      rewrite (IH fuel (rendered ++ literal ++ v) []); [|set_solver|].
      * rewrite app_nil_r.
        change (match eval_template value pieces (open_result open) with Ok r => Ok (v ++ r) | Err e => Err e end)
          with (prepend v (eval_template value pieces (open_result open))).
        by rewrite prepend_prepend, <- app_assoc.
      * rewrite !length_app in Hlen. cbn in Hlen. rewrite !length_app in Hlen. cbn in Hlen. cbn. rewrite length_app in *. lia.
Qed.
End Templates.

(** A title template is a sequence of literals and fields in braces, up to a
    brace that is not closed.  Rendering gives the literals unchanged and the
    value of each field: the provider title, the default title or a capture.
    Values are inserted as they are, never expanded again.  The first unknown
    field, or the brace that is not closed, is the error. *)
Theorem templates_render template source_title captures event :
  exists pieces open,
    template = print_template pieces ++ unclosed open /\ Forall piece_ok pieces /\
    (forall o, open = Some o -> 0x7d ∉ o) /\
    render_template template source_title captures event =
    eval_template (field_value source_title captures event) pieces (open_result open).
Proof.
  destruct (template_pieces (S (length template)) template ltac:(lia)) as (pieces & open & Ht & Hok & Hopen).
  exists pieces, open. split_and!; [done|done|done|]. unfold render_template.
  pose proof (render_pieces source_title captures event (S (length template)) [] [] pieces open
    ltac:(set_solver) Hok Hopen) as Hr. cbn [app] in Hr. rewrite <- Ht in Hr. rewrite Hr by lia.
  apply prepend_nil.
Qed.

(** ** Programmes *)

(** The programmes fill the interval from [a] to [b] one after the other. *)
Fixpoint tiles (a b : Z) (programmes : list GeneratedProgramme) : Prop :=
  match programmes with
  | [] => a = b
  | p :: programmes => pg_starts_at p = a /\ pg_starts_at p < pg_stops_at p /\ tiles (pg_stops_at p) b programmes
  end.

Lemma tiles_app a b c l k : tiles a b l -> tiles b c k -> tiles a c (l ++ k).
Proof.
  revert a. induction l as [|p l IH]; intros a; cbn; [by intros ->|]. intros (? & ? & ?) ?. auto.
Qed.

(** The part of an event in the window. *)
Definition clip (window_start window_end : Z) (event : GeneratedProgramme) : GeneratedProgramme :=
  set_interval event (Z.max (pg_starts_at event) window_start) (Z.min (pg_stops_at event) window_end).

Definition in_window (window_start window_end : Z) (event : GeneratedProgramme) : Prop :=
  pg_starts_at event < window_end /\ window_start < pg_stops_at event.

Definition overlap (e f : GeneratedProgramme) : Prop :=
  pg_starts_at e < pg_stops_at f /\ pg_starts_at f < pg_stops_at e.

(** The fields of a rule that are unsigned in the source. *)
Definition rule_ok (rule : EventRule) : Prop :=
  0 <= pre_roll_seconds (er_lifecycle rule) /\ 0 <= post_roll_seconds (er_lifecycle rule) /\
  0 <= gp_duration_seconds (er_guide rule).

Lemma event_duration_positive matched seconds :
  0 <= gp_duration_seconds (er_guide (me_rule matched)) ->
  event_duration_seconds matched = Ok seconds -> 0 < seconds.
Proof.
  intros Hconf. unfold event_duration_seconds.
  assert (forall v s, parse_seconds v = Ok s -> 0 < s) as Hps.
  { intros v s. unfold parse_seconds. case_match; [|done]. destruct (Z.ltb_spec 0 z); [|done]. by intros [= <-]. }
  assert (forall v s, parse_duration v = Ok s -> 0 < s) as Hpd.
  { intros v s. unfold parse_duration. case_match; [|done]. destruct (Z.ltb_spec 0 z); [|done]. by intros [= <-]. }
  destruct (me_captures matched !! str "duration_seconds") as [v|] eqn:E.
  - destruct (parse_seconds v) as [s|e] eqn:Es; [|done]. destruct (s =? 0); [done|]. intros [= <-]. eauto.
  - destruct (me_captures matched !! str "duration") as [v|]; cbn.
    + destruct (parse_duration v) as [s|e] eqn:Es; [|done]. destruct (s =? 0); [done|]. intros [= <-]. eauto.
    + destruct (Z.eqb_spec (gp_duration_seconds (er_guide (me_rule matched))) 0); [done|]. intros [= <-]. lia.
Qed.

Lemma signed_seconds_Ok seconds nanos : signed_seconds seconds = Ok nanos -> nanos = nanos_of_seconds seconds.
Proof. unfold signed_seconds. by repeat case_match; intros [= <-]. Qed.

(** ** Schedules *)

Lemma event_le_total x y : event_le x y = true \/ event_le y x = true.
Proof.
  unfold event_le. destruct (Z.ltb_spec (pg_starts_at x) (pg_starts_at y)),
    (Z.ltb_spec (pg_starts_at y) (pg_starts_at x)), (Z.ltb_spec (pg_stops_at x) (pg_stops_at y)),
    (Z.ltb_spec (pg_stops_at y) (pg_stops_at x)); auto; try lia.
  rewrite (bool_decide_ext (key_text y = key_text x) (key_text x = key_text y)) by done.
  case_bool_decide; apply text_le_total.
Qed.

Lemma event_le_trans x y z : event_le x y = true -> event_le y z = true -> event_le x z = true.
Proof.
  unfold event_le. intros Hxy Hyz.
  destruct (Z.ltb_spec (pg_starts_at x) (pg_starts_at z)); [done|].
  destruct (Z.ltb_spec (pg_starts_at x) (pg_starts_at y)), (Z.ltb_spec (pg_starts_at y) (pg_starts_at x)),
    (Z.ltb_spec (pg_starts_at y) (pg_starts_at z)), (Z.ltb_spec (pg_starts_at z) (pg_starts_at y)),
    (Z.ltb_spec (pg_starts_at z) (pg_starts_at x)); try done; try lia.
  destruct (Z.ltb_spec (pg_stops_at x) (pg_stops_at z)); [done|].
  destruct (Z.ltb_spec (pg_stops_at x) (pg_stops_at y)), (Z.ltb_spec (pg_stops_at y) (pg_stops_at x)),
    (Z.ltb_spec (pg_stops_at y) (pg_stops_at z)), (Z.ltb_spec (pg_stops_at z) (pg_stops_at y)),
    (Z.ltb_spec (pg_stops_at z) (pg_stops_at x)); try done; try lia.
  destruct (decide (key_text x = key_text y)) as [E1 | E1], (decide (key_text y = key_text z)) as [E2 | E2],
    (decide (key_text x = key_text z)) as [E3 | E3];
    rewrite ?(bool_decide_true _ E1), ?(bool_decide_false _ E1), ?(bool_decide_true _ E2), ?(bool_decide_false _ E2) in *;
    rewrite ?(bool_decide_true _ E3), ?(bool_decide_false _ E3); try congruence;
    eauto using text_le_trans.
  - destruct E1. apply text_le_anti; congruence.
Qed.

(** Whether the loop keeps the event that is next. *)
Definition kept (window_start window_end cursor : Z) (event : GeneratedProgramme) : Prop :=
  in_window window_start window_end event /\ cursor < pg_stops_at event /\
  cursor <= Z.max (pg_starts_at event) window_start.

Lemma lay_out_cons window_start window_end title cursor event events :
  lay_out window_start window_end title cursor (event :: events) =
  if decide (kept window_start window_end cursor event) then
    (if cursor <? Z.max (pg_starts_at event) window_start
     then [filler cursor (Z.max (pg_starts_at event) window_start) title []] else []) ++
    clip window_start window_end event ::
    lay_out window_start window_end title (Z.min (pg_stops_at event) window_end) events
  else lay_out window_start window_end title cursor events.
Proof.
  cbn [lay_out]. unfold clip. destruct (decide _) as [Hk | Hk]; unfold kept, in_window in Hk.
  - rewrite (proj2 (Z.leb_gt _ _)), (proj2 (Z.leb_gt _ _)), (proj2 (Z.leb_gt _ _)) by lia. cbn [orb].
    by rewrite (proj2 (Z.ltb_ge (Z.max _ _) cursor)) by lia.
  - destruct (Z.leb_spec (pg_stops_at event) cursor); cbn [orb]; [done|].
    destruct (Z.leb_spec (pg_stops_at event) window_start); cbn [orb]; [done|].
    destruct (Z.leb_spec window_end (pg_starts_at event)); cbn [orb]; [done|].
    by rewrite (proj2 (Z.ltb_lt (Z.max _ _) cursor)) by lia.
Qed.

Lemma lay_out_tiles window_start window_end title cursor events :
  window_start < window_end -> window_start <= cursor <= window_end ->
  Forall (fun e => pg_starts_at e < pg_stops_at e) events ->
  tiles cursor window_end (lay_out window_start window_end title cursor events).
Proof.
  intros Hwin Hc Hall. revert cursor Hc. induction Hall as [|event events He Hall IH]; intros cursor Hc.
  - cbn. destruct (Z.ltb_spec cursor window_end); cbn; lia.
  - rewrite lay_out_cons. destruct (decide _) as [((Hs & He1) & Hk & Hk') | _]; [|by apply IH].
    apply (tiles_app _ (Z.max (pg_starts_at event) window_start)).
    + destruct (Z.ltb_spec cursor (Z.max (pg_starts_at event) window_start)); cbn; lia.
    + cbn. split; [done|]. split; [lia|]. apply IH. lia.
Qed.

(** Events of the schedule are events of the input, cut to the window. *)
Lemma lay_out_events window_start window_end title cursor events p :
  Forall (fun e => pg_kind e = EventProgramme) events ->
  p ∈ lay_out window_start window_end title cursor events -> pg_kind p = EventProgramme ->
  exists e, e ∈ events /\ in_window window_start window_end e /\ p = clip window_start window_end e.
Proof.
  intros Hall. revert cursor. induction Hall as [|event events He Hall IH]; intros cursor.
  - cbn. destruct (_ <? _); [|set_solver]. by intros ->%list_elem_of_singleton [=].
  - rewrite lay_out_cons. destruct (decide _) as [[Hin _] | _].
    + rewrite elem_of_app, elem_of_cons. intros [Hp | [-> | Hp]] Hk.
      * destruct (_ <? _); [|set_solver]. by apply list_elem_of_singleton in Hp as ->.
      * exists event. split; [set_solver|done].
      * destruct (IH _ Hp Hk) as (e & ? & ?). exists e. split; [set_solver|done].
    + intros Hp Hk. destruct (IH _ Hp Hk) as (e & ? & ?). exists e. split; [set_solver|done].
Qed.

(** An event in the window is shown or overlaps an earlier one that is. *)
Lemma lay_out_complete window_start window_end title cursor events owner e :
  StronglySorted (fun x y => event_le x y = true) events ->
  Forall (fun e => pg_starts_at e < pg_stops_at e) events ->
  (match owner with
   | None => cursor = window_start
   | Some k => cursor <= pg_stops_at k /\ Forall (fun e => event_le k e = true) events
   end) ->
  e ∈ events -> in_window window_start window_end e ->
  clip window_start window_end e ∈ lay_out window_start window_end title cursor events \/
  exists k, event_le k e = true /\ overlap k e /\
    (owner = Some k \/ k ∈ events /\ clip window_start window_end k ∈ lay_out window_start window_end title cursor events).
Proof.
  intros Hs. revert cursor owner. induction Hs as [|x events Hs IH Hx]; intros cursor owner Hlast Hown Hin Hw; [set_solver|].
  apply Forall_cons in Hlast as [Hxl Hlast]. rewrite lay_out_cons.
  assert (forall k e, event_le k e = true -> pg_starts_at k <= pg_starts_at e) as Hle.
  { intros k e0. unfold event_le. destruct (Z.ltb_spec (pg_starts_at k) (pg_starts_at e0)); [lia|].
    destruct (Z.ltb_spec (pg_starts_at e0) (pg_starts_at k)); [done|lia]. }
  apply elem_of_cons in Hin as [-> | Hin].
  - destruct (decide _) as [Hk | Hk]; [left; set_solver|]. right.
    destruct owner as [k|]; [|exfalso; apply Hk; unfold kept, in_window in *; lia].
    destruct Hown as [Hcur [Hkx _]%Forall_cons]. exists k. split; [done|]. split; [|by left].
    pose proof (Hle _ _ Hkx). unfold kept, in_window, overlap in *. lia.
  - destruct (decide _) as [Hk | Hk].
    + destruct (IH (Z.min (pg_stops_at x) window_end) (Some x)) as [Hc | (k & Hke & Hov & [[= <-] | [Hkin Hkc]])];
        [done|split; [lia|done]|done|done|left; set_solver|..].
      * right. exists x. split; [done|]. split; [done|]. right. split; [set_solver|]. set_solver.
      * right. exists k. split; [done|]. split; [done|]. right. split; [set_solver|]. set_solver.
    + destruct (IH cursor owner) as [Hc | (k & Hke & Hov & Hk')]; [done| |done|done|by left|].
      { destruct owner; [|done]. destruct Hown as [? [_ ?]%Forall_cons]. done. }
      right. exists k. split; [done|]. split; [done|]. destruct Hk' as [? | [? ?]]; [by left|]. right. set_solver.
Qed.

Section Guides.
Context {Tz : Type} `{Chrono Tz} (to_lowercase : text -> text).

(** A built programme is an event that lasts. *)
Lemma build_event_programme_lasts matched source_title event :
  rule_ok (me_rule matched) -> build_event_programme to_lowercase matched source_title = Ok event ->
  pg_starts_at event < pg_stops_at event /\ pg_kind event = EventProgramme /\
  exists starts_at, me_starts_at matched = Some starts_at /\
    pg_starts_at event = starts_at - nanos_of_seconds (pre_roll_seconds (er_lifecycle (me_rule matched))) /\
    starts_at < pg_stops_at event.
Proof.
  intros (Hpre & Hpost & Hdur). unfold build_event_programme.
  destruct (me_starts_at matched) as [starts_at|]; [|done].
  destruct (signed_seconds (pre_roll_seconds _)) as [pre|] eqn:E1; [|done].
  destruct (event_duration_seconds matched) as [seconds|] eqn:E2; [|done].
  destruct (signed_seconds seconds) as [duration|] eqn:E3; [|done].
  destruct (signed_seconds (post_roll_seconds _)) as [post|] eqn:E4; [|done].
  apply signed_seconds_Ok in E1, E3, E4. apply event_duration_positive in E2; [|done].
  unfold checked_instant. destruct (_ && _); [|done]. cbn. destruct (_ && _); [|done]. cbn.
  destruct (_ && _); [|done]. destruct (render_matched_event_title _ _ _); [|done]. intros [= <-]. cbn.
  unfold nanos_of_seconds in *. split; [lia|]. split; [done|]. exists starts_at. split; [done|]. lia.
Qed.

Lemma window_guide_tiles event window_start window_end title source_title :
  window_start < window_end -> pg_starts_at event < pg_stops_at event ->
  tiles window_start window_end (window_guide event window_start window_end title source_title).
Proof.
  intros Hw He. unfold window_guide.
  destruct (Z.leb_spec (pg_stops_at event) window_start); cbn; [done|].
  destruct (Z.leb_spec window_end (pg_starts_at event)); cbn; [done|].
  destruct (Z.ltb_spec window_start (Z.max (pg_starts_at event) window_start));
    rewrite (proj2 (Z.ltb_lt _ _)) by lia; cbn;
    destruct (Z.ltb_spec (Z.max (Z.min (pg_stops_at event) window_end) window_start) window_end); cbn; lia.
Qed.

Lemma window_guide_event event window_start window_end title source_title p :
  window_start < window_end -> pg_starts_at event < pg_stops_at event -> pg_kind event = EventProgramme ->
  p ∈ window_guide event window_start window_end title source_title /\ pg_kind p = EventProgramme <->
  in_window window_start window_end event /\ p = clip window_start window_end event.
Proof.
  intros Hw He Hk. unfold window_guide, in_window, clip.
  destruct (Z.leb_spec (pg_stops_at event) window_start); cbn.
  { split; [|lia]. intros [->%list_elem_of_singleton [=]]. }
  destruct (Z.leb_spec window_end (pg_starts_at event)); cbn.
  { split; [|lia]. intros [->%list_elem_of_singleton [=]]. }
  rewrite (proj2 (Z.ltb_lt (Z.max _ _) (Z.min _ _))) by lia. rewrite !elem_of_app. split.
  - intros [[Hin | [Hin | Hin]] Hp]; [| by apply list_elem_of_singleton in Hin |].
    + destruct (_ <? _); [|set_solver]. apply list_elem_of_singleton in Hin as ->. done.
    + destruct (_ <? _); [|set_solver]. apply list_elem_of_singleton in Hin as ->. done.
  - intros [_ ->]. split; [|done]. right. left. by apply list_elem_of_singleton.
Qed.

(** A guide around one event fills its window without gaps or overlaps, and
    shows the event, cut to the window, exactly if the event is in it. *)
Theorem guide_tiles_window matched source_title window_start window_end programmes :
  rule_ok (me_rule matched) ->
  generate_event_guide to_lowercase matched source_title window_start window_end = Ok programmes ->
  tiles window_start window_end programmes /\
  exists event, build_event_programme to_lowercase matched source_title = Ok event /\
    forall p, p ∈ programmes /\ pg_kind p = EventProgramme <->
              in_window window_start window_end event /\ p = clip window_start window_end event.
Proof.
  intros Hrule. unfold generate_event_guide. destruct (Z.leb_spec window_end window_start); [done|].
  destruct (build_event_programme to_lowercase matched source_title) as [event|] eqn:E; [|done]. intros [= <-].
  apply build_event_programme_lasts in E as (He & Hk & _); [|done].
  split; [by apply window_guide_tiles|]. exists event. split; [done|]. intros p. by apply window_guide_event.
Qed.

Lemma build_programmes_all inputs events :
  Forall (fun input => rule_ok (me_rule (fst input))) inputs -> build_programmes to_lowercase inputs = Ok events ->
  Forall2 (fun input event => build_event_programme to_lowercase (fst input) (snd input) = Ok event) inputs events /\
  Forall (fun e => pg_starts_at e < pg_stops_at e /\ pg_kind e = EventProgramme) events.
Proof.
  revert events. induction inputs as [|[matched title] inputs IH]; intros events Hall; cbn.
  - intros [= <-]. by split.
  - apply Forall_cons in Hall as [Hr Hall]. cbn in Hr.
    destruct (build_event_programme to_lowercase matched title) as [event|] eqn:E; [|done].
    destruct (build_programmes to_lowercase inputs) as [rest|]; [|done]. intros [= <-].
    destruct (IH rest Hall eq_refl) as [H1 H2]. split; constructor; auto.
    apply build_event_programme_lasts in E as (? & ? & _); done.
Qed.

(** C37. The schedule of a channel fills its window without gaps or overlaps.  Its
    events are those of the input, cut to the window; an event in the window
    that it leaves out overlaps one that it shows and that comes before it in
    the order of start, stop, key and title. *)
Theorem schedule_tiles_window inputs window_start window_end title programmes :
  Forall (fun input => rule_ok (me_rule (fst input))) inputs ->
  generate_event_schedule to_lowercase inputs window_start window_end title = Ok programmes ->
  tiles window_start window_end programmes /\
  exists events,
    Forall2 (fun input event => build_event_programme to_lowercase (fst input) (snd input) = Ok event) inputs events /\
    (forall p, p ∈ programmes -> pg_kind p = EventProgramme ->
       exists e, e ∈ events /\ in_window window_start window_end e /\ p = clip window_start window_end e) /\
    (forall e, e ∈ events -> in_window window_start window_end e ->
       clip window_start window_end e ∈ programmes \/
       exists k, k ∈ events /\ clip window_start window_end k ∈ programmes /\ overlap k e /\ event_le k e = true).
Proof.
  intros Hrules. unfold generate_event_schedule. destruct (Z.leb_spec window_end window_start); [done|].
  destruct (build_programmes to_lowercase inputs) as [events|] eqn:E; [|done]. intros [= <-].
  destruct (build_programmes_all inputs events Hrules E) as [Hbuilt Hall].
  destruct (stable_sort_acc event_le event_le_total event_le_trans events []) as [Hp Hs].
  rewrite app_nil_r in Hp. specialize (Hs (SSorted_nil _)).
  change (fold_left _ events []) with (stable_sort event_lt events) in Hp, Hs.
  set (sorted := stable_sort event_lt events) in *. rewrite <- Hp in Hall.
  apply Forall_and in Hall as [Hlast Hkind].
  split; [apply lay_out_tiles; [done|lia|done]|]. exists events. split; [done|]. split.
  - intros p Hin Hk. destruct (lay_out_events _ _ _ _ _ _ Hkind Hin Hk) as (e & He & ?). exists e. by rewrite <- Hp.
  - intros e Hin Hw. rewrite <- Hp in Hin.
    destruct (lay_out_complete window_start window_end title window_start sorted None e Hs Hlast eq_refl Hin Hw)
      as [? | (k & Hke & Hov & [[=] | [Hk Hkc]])]; [by left|]. right. exists k. by rewrite <- Hp.
Qed.
End Guides.

(** ** Rule sets *)

Section Rules.
Context {Regex : Type} `{Regexes Regex} {Tz : Type} `{Chrono Tz}.

(** What the reader checks of a rule by itself. *)
Definition rule_valid (rule : EventRule) : bool :=
  timezone_valid (er_timezone rule) &&
  regex_valid (em_name_regex (er_matcher rule)) && regex_valid (em_group_regex (er_matcher rule)) &&
  regex_valid (em_epg_title_regex (er_matcher rule)) &&
  forallb (fun pattern => date_regex_valid (dp_regex pattern) &&
             match dp_timezone pattern with Some name => timezone_valid name | None => true end)
    (er_date_patterns rule).

(** [c] is what checks have made of [document]: they only add diagnostics, one
    at least when a check failed. *)
Definition checked_from (document : EventRuleDocument) (ok : bool) (c : EventRuleDocument * bool) : Prop :=
  snd c = ok /\ ed_rules (fst c) = ed_rules document /\
  records_seen (ed_stats (fst c)) = records_seen (ed_stats document) /\
  records_emitted (ed_stats (fst c)) = records_emitted (ed_stats document) /\
  records_skipped (ed_stats (fst c)) = records_skipped (ed_stats document) /\
  errors (ed_stats document) + (if ok then 0 else 1) <= errors (ed_stats (fst c)) /\
  zlen (ed_diagnostics (fst c)) - errors (ed_stats (fst c)) =
  zlen (ed_diagnostics document) - errors (ed_stats document).

Lemma check_from document ok b c : checked_from document ok c -> checked_from document (ok && b) (check b c).
Proof.
  intros (Hs & Hr & Hseen & Hem & Hsk & He & Hd). unfold check. destruct b.
  - rewrite andb_true_r. done.
  - rewrite andb_false_r. unfold checked_from. cbn. split_and!; try done; [destruct ok; lia|].
    rewrite zlen_snoc. lia.
Qed.

Lemma check_dates_from document ok patterns c :
  checked_from document ok c ->
  checked_from document
    (ok && forallb (fun pattern => date_regex_valid (dp_regex pattern) &&
              match dp_timezone pattern with Some name => timezone_valid name | None => true end) patterns)
    (fold_left check_date_pattern patterns c).
Proof.
  revert ok c. induction patterns as [|pattern patterns IH]; intros ok c Hc; cbn; [by rewrite andb_true_r|].
  rewrite andb_assoc. apply IH. rewrite andb_assoc. unfold check_date_pattern. by do 2 apply check_from.
Qed.

(** The state of the reader after [n] rules. *)
Record rules_inv (n : Z) (scan : RuleScan) : Prop := {
  ri_valid : Forall (fun rule => rule_valid rule = true) (ed_rules (rc_document scan));
  ri_names : NoDup (List.map er_name (ed_rules (rc_document scan)));
  ri_ids : NoDup (List.map er_id (ed_rules (rc_document scan)));
  ri_seen_names : Forall (fun rule => er_name rule ∈ rc_seen_names scan) (ed_rules (rc_document scan));
  ri_seen_ids : Forall (fun rule => er_id rule ∈ rc_seen_ids scan) (ed_rules (rc_document scan));
  ri_emitted : records_emitted (ed_stats (rc_document scan)) = zlen (ed_rules (rc_document scan));
  ri_count : records_emitted (ed_stats (rc_document scan)) + records_skipped (ed_stats (rc_document scan)) = n;
  ri_errors : records_skipped (ed_stats (rc_document scan)) <= errors (ed_stats (rc_document scan));
  ri_diagnostics : zlen (ed_diagnostics (rc_document scan)) = errors (ed_stats (rc_document scan))
}.

Lemma NoDup_map_snoc {A B} (f : A -> B) l x :
  NoDup (List.map f l) -> Forall (fun y => f y <> f x) l -> NoDup (List.map f (l ++ [x])).
Proof.
  intros Hl Hx. rewrite map_app. apply NoDup_app. split; [done|]. split; [|cbn; apply NoDup_singleton].
  intros b (y & -> & Hy)%list_elem_of_fmap. cbn. rewrite list_elem_of_singleton.
  rewrite Forall_forall in Hx. by apply Hx.
Qed.

Lemma scan_rule_inv n scan rule : rules_inv n scan -> rules_inv (n + 1) (scan_rule scan rule).
Proof.
  intros [Hv Hn Hi Hsn Hsi Hem Hc He Hd]. unfold scan_rule.
  set (blank := bool_decide (trim (er_name rule) = [])).
  set (name_ok := negb blank && negb (bool_decide (er_name rule ∈ rc_seen_names scan))).
  set (id_ok := negb (bool_decide (er_id rule ∈ rc_seen_ids scan))).
  assert (checked_from (rc_document scan) true (rc_document scan, true)) as Hstart.
  { unfold checked_from. cbn. split_and!; try done; lia. }
  apply (check_from _ _ name_ok) in Hstart. apply (check_from _ _ id_ok) in Hstart.
  apply (check_from _ _ (timezone_valid (er_timezone rule))) in Hstart.
  apply (check_from _ _ (regex_valid (em_name_regex (er_matcher rule)))) in Hstart.
  apply (check_from _ _ (regex_valid (em_group_regex (er_matcher rule)))) in Hstart.
  apply (check_from _ _ (regex_valid (em_epg_title_regex (er_matcher rule)))) in Hstart.
  apply (check_dates_from _ _ (er_date_patterns rule)) in Hstart. cbn [andb] in Hstart.
  destruct (fold_left check_date_pattern (er_date_patterns rule) _) as [document valid].
  destruct Hstart as (Hvalid & Hr & _ & Hem' & Hsk & Herr & Hdg). cbn [fst snd] in *. rewrite <- Hvalid in Herr.
  assert (Forall (fun r => er_name r ∈ (if blank then rc_seen_names scan else {[er_name rule]} ∪ rc_seen_names scan))
    (ed_rules (rc_document scan))) as Hnames.
  { eapply Forall_impl; [exact Hsn|]. intros r ?. destruct blank; [done|]. apply elem_of_union. by right. }
  assert (Forall (fun r => er_id r ∈ ({[er_id rule]} ∪ rc_seen_ids scan : gset Z)) (ed_rules (rc_document scan))) as Hids.
  { eapply Forall_impl; [exact Hsi|]. intros r ?. apply elem_of_union. by right. }
  destruct valid; split; cbn; rewrite ?Hr; try done; try lia.
  - apply Forall_app. split; [done|]. repeat constructor. unfold rule_valid.
    symmetry in Hvalid. rewrite <- !andb_assoc in Hvalid. apply andb_prop in Hvalid as [_ Hvalid].
    apply andb_prop in Hvalid as [_ Hvalid]. by rewrite <- !andb_assoc.
  - apply NoDup_map_snoc; [done|]. eapply Forall_impl; [exact Hsn|]. intros r Hin Heq.
    unfold name_ok in Hvalid. rewrite <- Heq, (bool_decide_true _ Hin), andb_false_r in Hvalid. done.
  - apply NoDup_map_snoc; [done|]. eapply Forall_impl; [exact Hsi|]. intros r Hin Heq.
    unfold id_ok in Hvalid. rewrite <- Heq, (bool_decide_true _ Hin), andb_false_r in Hvalid. done.
  - apply Forall_app. split; [done|]. repeat constructor.
    assert (blank = false) as -> by (unfold name_ok in Hvalid; by destruct blank).
    apply elem_of_union. left. by apply elem_of_singleton.
  - apply Forall_app. split; [done|]. repeat constructor. apply elem_of_union. left. by apply elem_of_singleton.
  - rewrite zlen_snoc. lia.
Qed.

Lemma scan_rules_inv rules n scan :
  rules_inv n scan -> rules_inv (n + zlen rules) (fold_left scan_rule rules scan).
Proof.
  revert n scan. induction rules as [|rule rules IH]; intros n scan Hscan; cbn [fold_left].
  - by rewrite zlen_nil, Z.add_0_r.
  - rewrite zlen_cons, Z.add_assoc. by apply IH, scan_rule_inv.
Qed.

Lemma scan_rules_seen rules scan :
  records_seen (ed_stats (rc_document (fold_left scan_rule rules scan))) = records_seen (ed_stats (rc_document scan)).
Proof.
  revert scan. induction rules as [|rule rules IH]; intros scan; cbn [fold_left]; [done|]. rewrite IH.
  unfold scan_rule. set (c := fold_left check_date_pattern _ _).
  assert (checked_from (rc_document scan) (snd c) c) as (_ & _ & Hseen & _).
  { assert (checked_from (rc_document scan) true (rc_document scan, true)) as Hstart.
    { unfold checked_from. cbn. split_and!; try done; lia. }
    eassert (checked_from (rc_document scan) _ c) as Hc by (unfold c; apply check_dates_from; do 6 apply check_from; exact Hstart).
    pose proof Hc as [E _]. by rewrite E. }
  destruct c as [document []]; cbn in *; lia.
Qed.

Lemma regex_valid_compiles pattern : regex_valid pattern = true -> exists regex, compile_optional pattern = Ok regex.
Proof.
  destruct pattern as [pattern|]; cbn; [|by eexists]. destruct (regex_new pattern); [by eexists|done].
Qed.

Lemma rule_valid_compiles rule : rule_valid rule = true -> exists compiled, compile_rule rule = Ok compiled.
Proof.
  unfold rule_valid, compile_rule. rewrite !andb_true_iff. intros ((((_ & Hn) & Hg) & He) & Hd).
  apply regex_valid_compiles in Hn as [name ->], Hg as [group ->], He as [title ->].
  assert (exists dates, compile_dates (er_date_patterns rule) = Ok dates) as [dates ->]; [|by eexists].
  induction (er_date_patterns rule) as [|pattern patterns IH]; cbn in *; [by eexists|].
  rewrite !andb_true_iff in Hd. destruct Hd as [[Hr _] Hd]. unfold date_regex_valid in Hr.
  destruct (regex_new (dp_regex pattern)); [|done]. destruct (IH Hd) as [dates ->]. by eexists.
Qed.

(** A rule set that was read can be used: the accepted rules have distinct
    names and identifiers and all their expressions compile, so that compiling
    the set succeeds.  Every rule of the input was either accepted or rejected
    with a diagnostic, and the counters say which. *)
Theorem accepted_rules_compile from_json reader limits document :
  parse_event_rules from_json reader limits = Ok document ->
  (exists compiled, compile_rules (ed_rules document) = Ok compiled) /\
  NoDup (List.map er_name (ed_rules document)) /\ NoDup (List.map er_id (ed_rules document)) /\
  records_emitted (ed_stats document) = zlen (ed_rules document) /\
  records_seen (ed_stats document) = records_emitted (ed_stats document) + records_skipped (ed_stats document) /\
  records_skipped (ed_stats document) <= zlen (ed_diagnostics document).
Proof.
  unfold parse_event_rules. destruct (read_limited _ _) as [input|]; [|done]. destruct (_ <? _); [done|].
  destruct (long_line _ _ _); [done|]. destruct (from_json input) as [rules|]; [|done].
  destruct (_ <? _); [done|]. intros [= <-].
  set (start := mkRuleScan _ ∅ ∅). assert (rules_inv 0 start) as Hstart.
  { split; cbn; try done; try constructor. }
  apply (scan_rules_inv rules) in Hstart. pose proof (scan_rules_seen rules start) as Hseen.
  destruct Hstart as [Hv Hn Hi _ _ Hem Hc He Hd]. cbn in Hseen. split_and!; try done; try lia.
  clear -Hv. induction Hv as [|rule rules' Hr Hv IH]; cbn; [by eexists|].
  apply rule_valid_compiles in Hr as [compiled ->]. destruct IH as [rest ->]. by eexists.
Qed.

(** ** Matching *)

(** Rules are tried in the order of their declaration: the result is that of
    the first rule that is enabled and matches, also when it is an error, and
    no rule matches exactly if there is none. *)
Theorem first_match_in_order rules candidate :
  match List.filter (fun compiled => er_enabled (cr_rule compiled) && matches_rule compiled candidate) rules with
  | [] => first_match rules candidate = Ok None
  | compiled :: _ =>
      match first_match rules candidate with
      | Ok None => False
      | Ok (Some matched) =>
          me_rule matched = cr_rule compiled /\ parse_candidate_date compiled candidate = Ok (me_starts_at matched)
      | Err e =>
          parse_candidate_date compiled candidate = Err e \/
          exists starts_at, parse_candidate_date compiled candidate = Ok starts_at /\
            apply_stop_capture compiled starts_at (collect_captures compiled candidate) = Err e
      end
  end.
Proof.
  induction rules as [|compiled rules IH]; cbn; [done|].
  destruct (er_enabled (cr_rule compiled)) eqn:Ee, (matches_rule compiled candidate) eqn:Em; cbn; try exact IH.
  destruct (parse_candidate_date compiled candidate) as [starts_at|e] eqn:Ed; [|by left].
  destruct (apply_stop_capture _ _ _) as [captures|e] eqn:Ea; [done|]. right. by exists starts_at.
Qed.
End Rules.

(** ** Clock times *)

(** What the documentation of the calendar promises: clock times, the next
    day, and that a local time and an instant differ by the offset of the zone
    at that instant. *)
Class ChronoLaws (Tz : Type) `{Chrono Tz} := {
  utc_offset : Tz -> Z -> Z;
  from_hm_law hour minute :
    from_hm_opt hour minute =
    if (0 <=? hour) && (hour <? 24) && (0 <=? minute) && (minute <? 60) then Some (hour * 3600 + minute * 60) else None;
  succ_law date next : succ_opt date = Some next -> next = date + 1;
  local_date_law tz instant : local_date tz instant = (instant / 1000000000 + utc_offset tz instant) / seconds_per_day;
  from_local_law tz date clock instant :
    from_local_datetime tz (date, clock) = LocalSingle instant ->
    instant = nanos_of_seconds (date * seconds_per_day + clock - utc_offset tz instant)
}.

Definition two_digits (n : Z) : text := [0x30 + n / 10; 0x30 + n mod 10].

(** A minute of the day as a 12-hour and as a 24-hour time. *)
Definition print_meridiem (hour minute : Z) : text :=
  (if (hour + 11) mod 12 + 1 <? 10 then [0x30 + ((hour + 11) mod 12 + 1)] else two_digits ((hour + 11) mod 12 + 1)) ++
  str ":" ++ two_digits minute ++ (if hour <? 12 then str "am" else str " PM").
Definition print_24h (hour minute : Z) : text := two_digits hour ++ str ":" ++ two_digits minute.

Definition clock_fields_read (print : Z -> Z -> text) : bool :=
  forallb (fun hour =>
    forallb (fun minute => bool_decide (clock_fields (print (Z.of_nat hour) (Z.of_nat minute)) = Some (Z.of_nat hour, Z.of_nat minute)))
      (seq 0 60)) (seq 0 24).

Lemma clock_fields_all print hour minute :
  clock_fields_read print = true -> 0 <= hour < 24 -> 0 <= minute < 60 -> clock_fields (print hour minute) = Some (hour, minute).
Proof.
  unfold clock_fields_read. rewrite forallb_forall. intros Hall Hh Hm.
  specialize (Hall (Z.to_nat hour) ltac:(apply in_seq; lia)). rewrite forallb_forall in Hall.
  specialize (Hall (Z.to_nat minute) ltac:(apply in_seq; lia)). apply bool_decide_eq_true in Hall.
  by rewrite !Z2Nat.id in Hall by lia.
Qed.

Section Clock.
Context {Tz : Type} `{ChronoLaws Tz}.

(** Every minute of the day is read back from its 12-hour form, whatever the
    case and the space before the meridiem, and from its 24-hour form. *)
Theorem clock_times_read_back hour minute :
  0 <= hour < 24 -> 0 <= minute < 60 ->
  parse_clock_time (print_meridiem hour minute) = Ok (hour * 3600 + minute * 60) /\
  parse_clock_time (print_24h hour minute) = Ok (hour * 3600 + minute * 60).
Proof.
  intros Hh Hm. unfold parse_clock_time.
  rewrite !clock_fields_all by (done || vm_compute; reflexivity). cbn. rewrite from_hm_law.
  rewrite !(proj2 (Z.leb_le _ _)), !(proj2 (Z.ltb_lt _ _)) by lia. done.
Qed.

(** A time without a date is resolved near the reference: in a zone whose
    offset changes by two hours at most, the start has the captured clock time
    on the reference's local day or the next, and lies between twelve hours
    before the reference and twenty-six after it. *)
Theorem time_only_start_is_near time reference timezone start :
  (forall tz t t', tz_from_str timezone = Some tz -> Z.abs (utc_offset tz t - utc_offset tz t') <= 7200) ->
  resolve_time_only_start time reference timezone = Ok start ->
  exists tz clock day, tz_from_str timezone = Some tz /\ parse_clock_time time = Ok clock /\
    (day = local_date tz reference \/ day = local_date tz reference + 1) /\
    start = nanos_of_seconds (day * seconds_per_day + clock - utc_offset tz start) /\
    reference - nanos_of_seconds (TIME_ONLY_LOOKBACK_HOURS * 3600) <= start < reference + nanos_of_seconds (26 * 3600).
Proof.
  intros Hsteady. unfold resolve_time_only_start.
  destruct (parse_clock_time time) as [clock|] eqn:Ec; [|done].
  assert (0 <= clock < seconds_per_day) as Hclock.
  { unfold parse_clock_time in Ec. destruct (clock_fields time) as [[h m]|]; cbn in Ec; [|done].
    rewrite from_hm_law in Ec. destruct (_ && _) eqn:Eb; [|done]. injection Ec as <-. unfold seconds_per_day. lia. }
  destruct (tz_from_str timezone) as [tz|] eqn:Et; [|done].
  pose proof (fun t t' => Hsteady tz t t' eq_refl) as Hoff.
  pose proof (local_date_law tz reference) as Hday. set (day := local_date tz reference) in *.
  unfold resolve_local. destruct (from_local_datetime tz (day, clock)) as [today| |] eqn:El; [|done|done].
  apply from_local_law in El. unfold nanos_of_seconds, seconds_per_day, TIME_ONLY_LOOKBACK_HOURS in *.
  pose proof (Hoff reference today). pose proof (Z.div_mod (reference / 1000000000 + utc_offset tz reference) 86400 ltac:(lia)).
  pose proof (Z.mod_pos_bound (reference / 1000000000 + utc_offset tz reference) 86400 ltac:(lia)).
  pose proof (Z.div_mod reference 1000000000 ltac:(lia)). pose proof (Z.mod_pos_bound reference 1000000000 ltac:(lia)).
  destruct (Z.ltb_spec today (reference - 12 * 3600 * 1000000000)).
  - destruct (succ_opt day) as [tomorrow|] eqn:Es; [|done]. apply succ_law in Es as ->.
    destruct (from_local_datetime tz (day + 1, clock)) as [next| |] eqn:En; [|done|done]. intros [= <-].
    apply from_local_law in En. unfold nanos_of_seconds, seconds_per_day in En.
    pose proof (Hoff reference next). pose proof (Hoff today next).
    exists tz, clock, (day + 1). split_and!; try done; [by right|lia|lia].
  - intros [= <-]. exists tz, clock, day. split_and!; try done; [by left|lia].
Qed.

(** The year of a date without a year puts it nearest to the reference. *)
Lemma nearest_date_minimal reference month day date :
  nearest_date reference month day = Some date ->
  (exists offset, offset ∈ [-1; 0; 1] /\ from_ymd_opt (date_year reference + offset) month day = Some date) /\
  forall offset other, offset ∈ [-1; 0; 1] -> from_ymd_opt (date_year reference + offset) month day = Some other ->
    Z.abs (date - reference) <= Z.abs (other - reference).
Proof.
  unfold nearest_date. set (key := fun date => Z.abs (date - reference)). set (f := fun offset => from_ymd_opt _ month day).
  set (l := omap f [-1; 0; 1]). intros Hmin.
  assert (date ∈ l /\ forall x, x ∈ l -> key date <= key x) as [Hin Hle].
  { clearbody l. destruct l as [|x l]; [done|]. cbn in Hmin. injection Hmin as <-. revert x.
    induction l as [|y l IH]; intros x; cbn [fold_left]; [set_solver by lia|].
    destruct (IH (if key y <? key x then y else x)) as [Hin Hle]. split; [case_match; set_solver|].
    intros z Hz. pose proof (Hle _ ltac:(left)) as Hb.
    destruct (Z.ltb_spec (key y) (key x)); rewrite !elem_of_cons in Hz; destruct Hz as [-> | [-> | Hz]];
      try lia; apply Hle; by right. }
  split.
  - apply list_elem_of_omap in Hin as (offset & Ho & Hf). by exists offset.
  - intros offset other Ho Hf. apply Hle. apply list_elem_of_omap. by exists offset.
Qed.
End Clock.
