(* ===== verification/Artifact.v ===== *)
(** * Downloaded artifacts

    [crates/ingest/src/artifact.rs], the errors of [crates/ingest/src/lib.rs]
    and the [ChannelReader] of [pipeline.rs]: a source is downloaded into a
    temporary file under a limit of bytes and of time, unpacked from at most
    one archive layer under another limit, and handed to a parser as a file, or
    as the chunks arrive.

    A file is its bytes.  The HTTP client is its answer, and the stream of a
    response the list of what each poll gave; SHA-256 and the three
    decompressors are parameters.  Times are nanoseconds. *)
From Stdlib Require Import ZArith Lia.
From stdpp Require Import base numbers option strings.
From stdpp Require Import list gmap.
From S2P Require Import Prelude Text Hls M3u M3uSpec.
Open Scope Z_scope.
Open Scope relay_scope.

(** ** Errors *)

(** [IngestError]; the sources of an I/O error and of a database error, which
    only their texts show, are left out. *)
Inductive IngestError :=
| HttpRequest
| HttpStatus (status : Z)
| DeclaredTooLarge (limit : Z)
| DownloadTooLarge (limit : Z)
| DecodedTooLarge (limit : Z)
| ArtifactIo
| StagingTooLarge (limit : Z)
| InvalidArchive
| AmbiguousZip
| ParseFailed (format : string) (source : ParseError)
| EmptySnapshot (format : string)
| EndpointProtection
| StorageFailed
| Cancelled
| Deadline
| OwnershipLost
| InvalidRequest (reason : string).

(** [IngestError::persisted_summary] *)
Definition persisted_summary (e : IngestError) : string :=
  match e with
  | HttpRequest => "HTTP request failed"
  | HttpStatus _ => "HTTP source returned an unsuccessful status"
  | DeclaredTooLarge _ | DownloadTooLarge _ | DecodedTooLarge _ => "source artifact exceeded configured limits"
  | ArtifactIo => "temporary artifact I/O failed"
  | StagingTooLarge _ => "prepared rows exceeded configured limits"
  | InvalidArchive | AmbiguousZip => "source archive was invalid"
  | ParseFailed _ _ => "source artifact could not be parsed"
  | EmptySnapshot _ => "source artifact contained no usable records"
  | EndpointProtection => "source stream endpoint could not be protected"
  | StorageFailed => "source snapshot transaction failed"
  | Cancelled => "ingestion job was cancelled"
  | Deadline => "ingestion job exceeded its execution deadline"
  | OwnershipLost => "ingestion job ownership was lost"
  | InvalidRequest _ => "ingestion request was invalid"
  end.

(** ** Downloads *)

Definition DEFAULT_ARTIFACT_LIMIT : Z := 2 * 1024 * 1024 * 1024.

Record ArtifactLimits := mkArtifactLimits { max_download_bytes : Z; max_decoded_bytes : Z }.
Definition default_artifact_limits : ArtifactLimits := mkArtifactLimits DEFAULT_ARTIFACT_LIMIT DEFAULT_ARTIFACT_LIMIT.

Inductive ArchiveFormat := Plain | Gzip | Xz | Zip.
#[export] Instance ArchiveFormat_eq_dec : EqDecision ArchiveFormat.
Proof. solve_decision. Defined.

Record DownloadedArtifact := mkDownloadedArtifact {
  da_file : bytes;
  da_byte_count : Z;
  da_sha256 : text;
  da_extension_hint : option text;
}.

(** What a turn of the download loop meets: the time since the start when it
    begins, and what the wait for the next chunk, bounded by a timeout, gave.
    [written] says whether the file took the chunk, [kept] whether it could be
    flushed and set back to its start at the end. *)
Inductive Polled :=
| PolledChunk (chunk : bytes) (written : bool)
| PolledError
| PolledEnd (kept : bool)
| PolledTimeout.
Record Turn := mkTurn { tn_elapsed : Z; tn_polled : Polled }.

(** How long the loop waits for the next chunk. *)
Definition chunk_timeout (stall_timeout max_timeout elapsed : Z) : Z :=
  Z.min stall_timeout (sat_sub max_timeout elapsed).

Section Download.
Context (sha256_hex : bytes -> text).

(** The loop of [download_stream], with the file, what the hasher was fed, the
    count, and the counts given to [on_progress].  No result is a loop that
    still waits. *)
Fixpoint download_loop (limits : ArtifactLimits) (extension_hint : option text) (max_timeout : Z) (turns : list Turn)
  (file hashed : bytes) (byte_count : Z) (progress : list Z) : list Z * option (result DownloadedArtifact IngestError) :=
  match turns with
  | [] => (progress, None)
  | turn :: turns =>
      if max_timeout <=? tn_elapsed turn then (progress, Some (Err HttpRequest))
      else
        match tn_polled turn with
        | PolledError | PolledTimeout => (progress, Some (Err HttpRequest))
        | PolledEnd kept =>
            (progress, Some (if kept : bool then Ok (mkDownloadedArtifact file byte_count (sha256_hex hashed) extension_hint) else Err ArtifactIo))
        | PolledChunk chunk written =>
            match checked u64_max (byte_count + zlen chunk) with
            | None => (progress, Some (Err (DownloadTooLarge (max_download_bytes limits))))
            | Some byte_count =>
                if max_download_bytes limits <? byte_count
                then (progress, Some (Err (DownloadTooLarge (max_download_bytes limits))))
                else if negb written then (progress, Some (Err ArtifactIo))
                else download_loop limits extension_hint max_timeout turns (file ++ chunk) (hashed ++ chunk) byte_count
                       (progress ++ [byte_count])
            end
        end
  end.

(** [download_stream]; [tempfile] says whether the file could be created. *)
Definition download_stream (tempfile : bool) (turns : list Turn) (declared_length : option Z)
  (extension_hint : option text) (limits : ArtifactLimits) (max_timeout : Z)
  : list Z * option (result DownloadedArtifact IngestError) :=
  match declared_length with
  | Some length =>
      if max_download_bytes limits <? length then ([], Some (Err (DeclaredTooLarge (max_download_bytes limits))))
      else if negb tempfile then ([], Some (Err ArtifactIo))
      else download_loop limits extension_hint max_timeout turns [] [] 0 []
  | None =>
      if negb tempfile then ([], Some (Err ArtifactIo))
      else download_loop limits extension_hint max_timeout turns [] [] 0 []
  end.

(** [extension_hint] of a URL *)
Definition extension_hint {Url} `{Urls Url} (endpoint : Url) : option text :=
  List.map to_ascii_lowercase <$> path_extension (url_path endpoint).

(** What the source answers to a request. *)
Inductive HttpAnswer :=
| RequestFailed
| Answered (status : Z) (content_length : option Z) (turns : list Turn).

(** [StatusCode::is_success] *)
Definition is_success (status : Z) : bool := (200 <=? status) && (status <? 300).

(** [download_http], and the transfer of [Ingestor::download_with_progress] *)
Definition download_http {Url} `{Urls Url} (endpoint : Url) (max_timeout : Z) (limits : ArtifactLimits)
  (tempfile : bool) (answer : HttpAnswer) : list Z * option (result DownloadedArtifact IngestError) :=
  match answer with
  | RequestFailed => ([], Some (Err HttpRequest))
  | Answered status content_length turns =>
      if negb (is_success status) then ([], Some (Err (HttpStatus status)))
      else download_stream tempfile turns content_length (extension_hint endpoint) limits max_timeout
  end.
End Download.

(** ** Archives *)

(** [detect_archive] *)
Definition detect_archive (artifact : DownloadedArtifact) : ArchiveFormat :=
  let magic := ztake 8 (da_file artifact) in
  if starts_with [0x1f; 0x8b] magic then Gzip
  else if starts_with [0xfd; 0x37; 0x7a; 0x58; 0x5a; 0] magic then Xz
  else if starts_with [0x50; 0x4b; 3; 4] magic || starts_with [0x50; 0x4b; 5; 6] magic ||
          starts_with [0x50; 0x4b; 7; 8] magic then Zip
  else
    match da_extension_hint artifact with
    | Some hint =>
        if bool_decide (hint = str "gz") || bool_decide (hint = str "gzip") then Gzip
        else if bool_decide (hint = str "xz") then Xz
        else if bool_decide (hint = str "zip") then Zip
        else Plain
    | None => Plain
    end.

(** The reads of a decompressor into a buffer of 64 KiB: the bytes, empty at
    the end, and whether the output took them; or a failure. *)
Inductive Decoded := DecodedRead (chunk : bytes) (written : bool) | DecodeFailed.

(** [bounded_copy]; a reader that has given all its reads is at its end. *)
Fixpoint bounded_copy (reads : list Decoded) (limit : Z) (output : bytes) (written : Z)
  : result (bytes * Z) IngestError :=
  match reads with
  | [] => Ok (output, written)
  | DecodeFailed :: _ => Err InvalidArchive
  | DecodedRead chunk taken :: reads =>
      if bool_decide (chunk = []) then Ok (output, written)
      else
        match checked u64_max (written + zlen chunk) with
        | None => Err (DecodedTooLarge limit)
        | Some written =>
            if limit <? written then Err (DecodedTooLarge limit)
            else if negb taken then Err ArtifactIo
            else bounded_copy reads limit (output ++ chunk) written
        end
  end.

(** An entry of a ZIP archive as the [zip] library shows it. *)
Record ZipEntry := mkZipEntry { ze_is_dir : bool; ze_size : Z; ze_reads : list Decoded }.

(** The loop of [unpack_zip] over the entries; one that cannot be opened is
    [None]. *)
Fixpoint find_regular (limit : Z) (index : nat) (entries : list (option ZipEntry)) (found : option nat)
  : result (option nat) IngestError :=
  match entries with
  | [] => Ok found
  | None :: _ => Err InvalidArchive
  | Some entry :: entries =>
      if ze_is_dir entry then find_regular limit (S index) entries found
      else
        match found with
        | Some _ => Err AmbiguousZip
        | None =>
            if limit <? ze_size entry then Err (DecodedTooLarge limit)
            else find_regular limit (S index) entries (Some index)
        end
  end.

Section Unpack.
Context (gunzip unxz : bytes -> list Decoded) (zip_entries : bytes -> option (list (option ZipEntry))).

(** [unpack_zip] *)
Definition unpack_zip (input : bytes) (limit : Z) : result (bytes * Z) IngestError :=
  match zip_entries input with
  | None => Err InvalidArchive
  | Some entries =>
      match find_regular limit 0 entries None with
      | Err e => Err e
      | Ok None => Err AmbiguousZip
      | Ok (Some index) =>
          match mjoin (entries !! index) with
          | None => Err InvalidArchive
          | Some entry => bounded_copy (ze_reads entry) limit [] 0
          end
      end
  end.

Record DecodedArtifact := mkDecodedArtifact {
  dc_file : bytes;
  dc_archive_format : ArchiveFormat;
  dc_decoded_byte_count : Z;
  dc_downloaded_byte_count : Z;
  dc_sha256 : text;
}.

(** [unpack_artifact] *)
Definition unpack_artifact (tempfile : bool) (artifact : DownloadedArtifact) (limits : ArtifactLimits)
  : result DecodedArtifact IngestError :=
  let format := detect_archive artifact in
  if bool_decide (format = Plain)
  then Ok (mkDecodedArtifact (da_file artifact) format (da_byte_count artifact) (da_byte_count artifact) (da_sha256 artifact))
  else if negb tempfile then Err ArtifactIo
  else
    try out <- match format with
               | Gzip => bounded_copy (gunzip (da_file artifact)) (max_decoded_bytes limits) [] 0
               | Xz => bounded_copy (unxz (da_file artifact)) (max_decoded_bytes limits) [] 0
               | _ => unpack_zip (da_file artifact) (max_decoded_bytes limits)
               end;
    Ok (mkDecodedArtifact (fst out) format (snd out) (da_byte_count artifact) (da_sha256 artifact)).
End Unpack.

(** ** The channel between download and parser *)

(** [ChannelReader]: the chunk being read, and the chunks that the channel
    gives, in order, before it is closed. *)
Record ChannelReader := mkChannelReader { cr_current : bytes; cr_pos : Z; cr_receiver : list bytes }.
Definition channel_new (chunks : list bytes) : ChannelReader := mkChannelReader [] 0 chunks.

(** [ChannelReader::read] into a buffer of [size] bytes; an error after the
    ingest was dropped. *)
Definition channel_read (cancelled : bool) (size : Z) (reader : ChannelReader) : ChannelReader * result bytes unit :=
  if cancelled then (reader, Err tt)
  else
    let copy reader :=
      let available := zdrop (cr_pos reader) (cr_current reader) in
      let n := Z.min size (zlen available) in
      (mkChannelReader (cr_current reader) (cr_pos reader + n) (cr_receiver reader), Ok (ztake n available)) in
    if zlen (cr_current reader) <=? cr_pos reader then
      match cr_receiver reader with
      | chunk :: receiver => copy (mkChannelReader chunk 0 receiver)
      | [] => (reader, Ok [])
      end
    else copy reader.

(** The capacity of [std::io::BufReader]. *)
Definition BUFFER_SIZE : Z := 8 * 1024.

(** The buffers that a [BufReader] over a [ChannelReader] gives to the parser,
    up to the end of the channel; [cancelled] tells of each read whether the
    ingest had been dropped. *)
Fixpoint channel_buffers (fuel : nat) (cancelled : nat -> bool) (turn : nat) (reader : ChannelReader) : BufReader :=
  match fuel with
  | O => []
  | S fuel =>
      if bool_decide (cr_receiver reader = []) && (zlen (cr_current reader) <=? cr_pos reader) && negb (cancelled turn)
      then []
      else
        match channel_read (cancelled turn) BUFFER_SIZE reader with
        | (_, Err e) => [Err e]
        | (reader, Ok buffer) => Ok buffer :: channel_buffers fuel cancelled (S turn) reader
        end
  end.

(** The reads a channel takes: at most one for each byte and each chunk. *)
Definition channel_reads (chunks : list bytes) : nat := length (concat chunks) + length chunks.
Definition streamed (cancelled : nat -> bool) (chunks : list bytes) : BufReader :=
  channel_buffers (S (channel_reads chunks)) cancelled 0 (channel_new chunks).

(** ** Theorems *)

Section DownloadSpec.
Context (sha256_hex : bytes -> text).
Abbreviation download_loop := (download_loop sha256_hex).

(** A turn that brought a chunk. *)
Definition chunk_turn (arrival : Z * bytes) : Turn := mkTurn (fst arrival) (PolledChunk (snd arrival) true).
Definition in_time (max_timeout : Z) (arrival : Z * bytes) : Prop := fst arrival < max_timeout.
Definition total (chunks : list (Z * bytes)) : bytes := concat (List.map snd chunks).

(** The loop follows the chunks that arrive in time and fit. *)
Lemma download_loop_chunks limits hint max_timeout chunks turns file hashed progress :
  Forall (in_time max_timeout) chunks -> zlen (file ++ total chunks) <= max_download_bytes limits ->
  max_download_bytes limits <= u64_max ->
  exists progress',
    download_loop limits hint max_timeout (List.map chunk_turn chunks ++ turns) file hashed (zlen file) progress =
    download_loop limits hint max_timeout turns (file ++ total chunks) (hashed ++ total chunks)
      (zlen (file ++ total chunks)) progress'.
Proof.
  intros Ht Hfits Hmax. revert file hashed progress Hfits.
  induction chunks as [|[elapsed chunk] chunks IH]; intros file hashed progress Hfits.
  - exists progress. unfold total. cbn. by rewrite !app_nil_r.
  - apply Forall_cons in Ht as [H1 H2]. unfold in_time in H1. cbn in H1.
    change (total ((elapsed, chunk) :: chunks)) with (chunk ++ total chunks) in *. rewrite !zlen_app in Hfits.
    pose proof (zlen_nonneg (total chunks)). pose proof (zlen_nonneg file). pose proof (zlen_nonneg chunk).
    cbn [List.map app Artifact.download_loop chunk_turn tn_elapsed tn_polled fst snd].
    destruct (Z.leb_spec max_timeout elapsed); [lia|]. rewrite checked_Some by lia.
    destruct (Z.ltb_spec (max_download_bytes limits) (zlen file + zlen chunk)); [lia|]. cbn [negb].
    rewrite <- zlen_app, !(app_assoc _ chunk). apply IH; [done|]. rewrite !zlen_app. lia.
Qed.

(** What a finished loop has seen. *)
Lemma download_loop_ok limits hint max_timeout turns file progress progress' artifact :
  download_loop limits hint max_timeout turns file file (zlen file) progress = (progress', Some (Ok artifact)) ->
  exists chunks last rest,
    turns = List.map chunk_turn chunks ++ mkTurn last (PolledEnd true) :: rest /\ last < max_timeout /\
    Forall (in_time max_timeout) chunks /\ da_file artifact = file ++ total chunks /\
    da_byte_count artifact = zlen (da_file artifact) /\ da_sha256 artifact = sha256_hex (da_file artifact) /\
    da_extension_hint artifact = hint /\ (chunks = [] \/ zlen (da_file artifact) <= max_download_bytes limits).
Proof.
  revert file progress. induction turns as [|[elapsed polled] turns IH]; intros file progress; [done|].
  cbn [Artifact.download_loop tn_elapsed tn_polled]. destruct (Z.leb_spec max_timeout elapsed); [done|].
  destruct polled as [chunk []| |[]|]; try done.
  - destruct (checked _ _) as [count|] eqn:Ec; [|done]. apply checked_inv in Ec as [-> _].
    destruct (Z.ltb_spec (max_download_bytes limits) (zlen file + zlen chunk)); [done|]. cbn [negb].
    rewrite <- zlen_app. intros H1. apply IH in H1 as (chunks & last & rest & -> & ? & ? & Hf & ? & ? & ? & Hor).
    exists ((elapsed, chunk) :: chunks), last, rest. split_and!; try done.
    + by constructor.
    + rewrite Hf. unfold total. cbn. by rewrite <- app_assoc.
    + right. destruct Hor as [->|]; [|done]. rewrite Hf. unfold total. cbn. rewrite app_nil_r, zlen_app. lia.
  - destruct (checked _ _); [|done]. by destruct (_ <? _).
  - intros [= <- <-]. exists [], elapsed, turns. split_and!; try done; cbn; try done; [by rewrite app_nil_r|by left].
Qed.

(** C25. A download that succeeds has the whole body: every chunk up to the end of
    the stream, in order, each in time; its count and its digest are those of
    the file, and it is within the limit.  A body that arrives in time, fits
    and is written and flushed succeeds. *)
Theorem download_is_body turns declared hint limits max_timeout artifact :
  0 <= max_download_bytes limits <= u64_max ->
  snd (download_stream sha256_hex true turns declared hint limits max_timeout) = Some (Ok artifact) <->
  (forall length, declared = Some length -> length <= max_download_bytes limits) /\
  exists chunks last rest,
    turns = List.map chunk_turn chunks ++ mkTurn last (PolledEnd true) :: rest /\
    Forall (in_time max_timeout) chunks /\ last < max_timeout /\ zlen (total chunks) <= max_download_bytes limits /\
    artifact = mkDownloadedArtifact (total chunks) (zlen (total chunks)) (sha256_hex (total chunks)) hint.
Proof.
  intros Hmax. unfold download_stream.
  assert (snd (download_loop limits hint max_timeout turns [] [] 0 []) = Some (Ok artifact) <->
    exists chunks last rest,
    turns = List.map chunk_turn chunks ++ mkTurn last (PolledEnd true) :: rest /\
    Forall (in_time max_timeout) chunks /\ last < max_timeout /\ zlen (total chunks) <= max_download_bytes limits /\
    artifact = mkDownloadedArtifact (total chunks) (zlen (total chunks)) (sha256_hex (total chunks)) hint) as Hloop.
  { split.
    - destruct (download_loop _ _ _ _ _ _ _ _) as [progress res] eqn:E. cbn. intros ->.
      apply (download_loop_ok _ _ _ _ []) in E as (chunks & last & rest & Ht & ? & ? & Hf & Hc & Hs & He & Hor).
      cbn in Hf. exists chunks, last, rest. split_and!; try done.
      + destruct Hor as [->|Hor]; [unfold total, zlen; cbn; lia|by rewrite <- Hf].
      + destruct artifact as [f c s h]. cbn in *. by subst.
    - intros (chunks & last & rest & -> & Ht & Hl & Hfits & ->).
      destruct (download_loop_chunks limits hint max_timeout chunks (mkTurn last (PolledEnd true) :: rest) [] [] []) as [p Hp]; [done..|lia|].
      change (zlen []) with 0 in Hp. rewrite Hp. cbn. destruct (Z.leb_spec max_timeout last); [lia|done]. }
  destruct declared as [length|]; cbn [negb].
  - destruct (Z.ltb_spec (max_download_bytes limits) length).
    + split; [done|]. intros [H1 _]. specialize (H1 length eq_refl). lia.
    + rewrite Hloop. split; [|by intros [_ ?]]. intros ?. split; [|done]. intros ? [= <-]. done.
  - rewrite Hloop. split; [|by intros [_ ?]]. by intros ?.
Qed.
End DownloadSpec.

(** *** Archives *)

(** What a decompressor gives up to its end, if it does not fail. *)
Fixpoint decoded_bytes (reads : list Decoded) : option bytes :=
  match reads with
  | [] => Some []
  | DecodeFailed :: _ => None
  | DecodedRead chunk _ :: reads => if bool_decide (chunk = []) then Some [] else app chunk <$> decoded_bytes reads
  end.

Lemma bounded_copy_ok reads limit output written out count :
  bounded_copy reads limit output written = Ok (out, count) -> written = zlen output -> written <= limit ->
  count = zlen out /\ count <= limit /\ exists rest, decoded_bytes reads = Some rest /\ out = output ++ rest.
Proof.
  revert output written. induction reads as [|[chunk taken|] reads IH]; intros output written; cbn; [| |done].
  - intros [= <- <-] -> ?. split_and!; try done. exists []. by rewrite app_nil_r.
  - case_bool_decide as Hc.
    + intros [= <- <-] -> ?. split_and!; try done. exists []. by rewrite app_nil_r.
    + destruct (checked _ _) as [n|] eqn:En; [|done]. apply checked_inv in En as [-> _].
      destruct (Z.ltb_spec limit (written + zlen chunk)); [done|]. destruct taken; [|done]. cbn. intros Hrun -> Hw.
      destruct (IH _ _ Hrun) as (? & ? & rest & Hrest & ->); [by rewrite zlen_app|lia|].
      split_and!; try done. exists (chunk ++ rest). rewrite Hrest. by rewrite <- app_assoc.
Qed.

Lemma find_regular_ok limit index entries found res :
  find_regular limit index entries found = Ok res ->
  Forall is_Some entries /\
  match found with
  | Some i => res = Some i /\ Forall (fun e => forall entry, e = Some entry -> ze_is_dir entry = true) entries
  | None =>
      match res with
      | None => Forall (fun e => forall entry, e = Some entry -> ze_is_dir entry = true) entries
      | Some i =>
          exists before entry after,
            entries = before ++ Some entry :: after /\ i = (index + length before)%nat /\ ze_is_dir entry = false /\
            ze_size entry <= limit /\
            Forall (fun e => forall entry, e = Some entry -> ze_is_dir entry = true) (before ++ after)
      end
  end.
Proof.
  revert index found. induction entries as [|e entries IH]; intros index found; cbn.
  { intros [= <-]. split; [done|]. by destruct found. }
  destruct e as [entry|]; [|done]. destruct (ze_is_dir entry) eqn:Ed.
  - intros Hrun. apply IH in Hrun as [Hall Hrest]. split; [by constructor|].
    destruct found as [i|]; [|destruct res as [i|]].
    + destruct Hrest as [-> Hd]. split; [done|]. constructor; [|done]. by intros ? [= <-].
    + destruct Hrest as (before & e & after & -> & -> & Hd & Hs & Hf). exists (Some entry :: before), e, after.
      split_and!; try done; [cbn; lia|]. cbn. constructor; [|done]. by intros ? [= <-].
    + constructor; [|done]. by intros ? [= <-].
  - destruct found as [i|]; [done|]. destruct (Z.ltb_spec limit (ze_size entry)); [done|].
    intros Hrun. apply IH in Hrun as [Hall [-> Hd]]. split; [by constructor|].
    exists [], entry, entries. split_and!; try done; cbn; lia.
Qed.

Section UnpackSpec.
Context (gunzip unxz : bytes -> list Decoded) (zip_entries : bytes -> option (list (option ZipEntry))).

(** Which decompressor output an artifact stands for. *)
Definition decodes (artifact : DownloadedArtifact) (format : ArchiveFormat) (limit : Z) (reads : list Decoded) : Prop :=
  match format with
  | Plain => False
  | Gzip => reads = gunzip (da_file artifact)
  | Xz => reads = unxz (da_file artifact)
  | Zip =>
      exists before entry after,
        zip_entries (da_file artifact) = Some (before ++ Some entry :: after) /\ reads = ze_reads entry /\
        ze_is_dir entry = false /\ ze_size entry <= limit /\
        Forall (fun e => exists directory, e = Some directory /\ ze_is_dir directory = true) (before ++ after)
  end.

(** Unpacking gives the file itself, or all that the decompressor gives of it,
    within the limit however much the archive promises; of a ZIP archive, the
    one entry that is not a directory, if all the others are. *)
Theorem unpack_bounded tempfile artifact limits decoded :
  0 <= max_decoded_bytes limits ->
  unpack_artifact gunzip unxz zip_entries tempfile artifact limits = Ok decoded ->
  dc_sha256 decoded = da_sha256 artifact /\ dc_downloaded_byte_count decoded = da_byte_count artifact /\
  if bool_decide (dc_archive_format decoded = Plain)
  then dc_file decoded = da_file artifact /\ dc_decoded_byte_count decoded = da_byte_count artifact
  else exists reads,
    decodes artifact (dc_archive_format decoded) (max_decoded_bytes limits) reads /\
    decoded_bytes reads = Some (dc_file decoded) /\
    dc_decoded_byte_count decoded = zlen (dc_file decoded) /\ zlen (dc_file decoded) <= max_decoded_bytes limits.
Proof.
  intros Hmax. unfold unpack_artifact. set (format := detect_archive artifact).
  destruct (bool_decide_reflect (format = Plain)) as [->|Hplain]; [by intros [= <-]|]. destruct tempfile; [|done]. cbn.
  destruct (match format with Gzip => _ | _ => _ end) as [[out count]|e] eqn:Eo; cbn; [|done]. intros [= <-]. cbn.
  rewrite (bool_decide_false _ Hplain). split_and!; try done.
  assert (exists reads, decodes artifact format (max_decoded_bytes limits) reads /\
    bounded_copy reads (max_decoded_bytes limits) [] 0 = Ok (out, count)) as (reads & Hreads & Hcopy).
  { destruct format; [done|by eexists|by eexists|]. unfold unpack_zip in Eo. cbn.
    destruct (zip_entries (da_file artifact)) as [entries|]; [|done].
    destruct (find_regular _ _ _ _) as [[index|]|] eqn:Ef; try done.
    apply find_regular_ok in Ef as [Hall (before & entry & after & -> & -> & Hd & Hs & Hf)].
    cbn [Nat.add] in Eo. rewrite list_lookup_middle in Eo by done. cbn in Eo. exists (ze_reads entry). split; [|done].
    exists before, entry, after. split_and!; try done. apply Forall_forall. intros e He.
    rewrite Forall_app, Forall_cons in Hall. destruct Hall as (H1 & _ & H2).
    assert (is_Some e) as [d ->].
    { apply elem_of_app in He as [He|He]; [by eapply (proj1 (Forall_forall _ before))|by eapply (proj1 (Forall_forall _ after))]. }
    exists d. split; [done|]. by apply (proj1 (Forall_forall _ _) Hf _ He). }
  apply bounded_copy_ok in Hcopy as (-> & ? & rest & Hrest & ->); [|done..]. exists reads. split_and!; done.
Qed.
End UnpackSpec.

(** *** The channel *)

Definition never (turn : nat) : bool := false.

(** What is left to read. *)
Definition channel_rest (reader : ChannelReader) : bytes :=
  zdrop (cr_pos reader) (cr_current reader) ++ concat (cr_receiver reader).

Lemma channel_buffers_read fuel turn reader :
  0 <= cr_pos reader <= zlen (cr_current reader) -> Forall (fun chunk => chunk <> []) (cr_receiver reader) ->
  (length (channel_rest reader) + length (cr_receiver reader) < fuel)%nat ->
  let buffers := channel_buffers fuel never turn reader in
  reads_all buffers /\ contents buffers = channel_rest reader /\
  Forall (fun buffer => match buffer with Ok b => zlen b <= BUFFER_SIZE | Err _ => False end) buffers.
Proof.
  revert turn reader. induction fuel as [|fuel IH]; intros turn [current pos receiver]; cbn [cr_current cr_pos cr_receiver]; [lia|].
  intros Hpos Hne Hfuel. cbn [channel_buffers cr_current cr_pos cr_receiver never negb]. rewrite andb_true_r.
  (* one read of a buffer that is not exhausted *)
  assert (forall current pos receiver, 0 <= pos < zlen current -> Forall (fun chunk => chunk <> []) receiver ->
    (length (channel_rest (mkChannelReader current pos receiver)) + length receiver < S fuel)%nat ->
    let n := Z.min BUFFER_SIZE (zlen (zdrop pos current)) in
    let rest := channel_buffers fuel never (S turn) (mkChannelReader current (pos + n) receiver) in
    let buffers := Ok (ztake n (zdrop pos current)) :: rest in
    reads_all buffers /\ contents buffers = channel_rest (mkChannelReader current pos receiver) /\
    Forall (fun buffer => match buffer with Ok b => zlen b <= BUFFER_SIZE | Err _ => False end) buffers) as Hread.
  { clear -IH. intros current pos receiver Hpos Hne Hfuel n rest buffers.
    assert (zlen (zdrop pos current) = zlen current - pos) as Hlen by (rewrite zlen_zdrop; lia).
    assert (0 < n <= zlen current - pos /\ n <= BUFFER_SIZE) as [Hn Hb] by (unfold n, BUFFER_SIZE; lia).
    assert (zdrop pos current = ztake n (zdrop pos current) ++ zdrop (pos + n) current) as Hsplit.
    { rewrite <- (ztake_zdrop n (zdrop pos current)) at 1. f_equal. unfold zdrop. rewrite drop_drop. f_equal. lia. }
    assert (zlen (ztake n (zdrop pos current)) = n) as Htake by (rewrite zlen_ztake; lia).
    destruct (IH (S turn) (mkChannelReader current (pos + n) receiver)) as (H1 & H2 & H3); cbn [cr_current cr_pos cr_receiver].
    - lia.
    - done.
    - unfold channel_rest in *. cbn [cr_current cr_pos cr_receiver] in *. rewrite Hsplit in Hfuel.
      rewrite !length_app in *. unfold zlen in Htake. lia.
    - fold rest in H1, H2, H3. split_and!.
      + constructor; [|done]. intros Heq%(f_equal zlen). rewrite Htake in Heq. change (zlen []) with 0 in Heq. lia.
      + change (contents buffers) with (ztake n (zdrop pos current) ++ contents rest). rewrite H2.
        unfold channel_rest. cbn [cr_current cr_pos cr_receiver]. rewrite Hsplit at 2. by rewrite <- app_assoc.
      + constructor; [lia|done]. }
  unfold channel_read. cbn [cr_current cr_pos cr_receiver].
  destruct (Z.leb_spec (zlen current) pos).
  - destruct receiver as [|chunk receiver]; cbn [andb].
    + rewrite bool_decide_true by done. split_and!; try done; [by constructor|]. unfold channel_rest, zdrop.
      cbn [cr_current cr_pos cr_receiver concat]. rewrite app_nil_r, drop_ge; [done|]. unfold zlen in *. lia.
    + rewrite bool_decide_false by done. apply Forall_cons in Hne as [Hc Hne].
      destruct (Hread chunk 0 receiver) as (H1 & H2 & H3); [|done| |].
      * unfold zlen. destruct chunk; [done|]. cbn. lia.
      * unfold channel_rest in *. cbn [cr_current cr_pos cr_receiver concat] in *.
        change (zdrop 0 chunk) with chunk. rewrite length_app in Hfuel. cbn [length] in Hfuel. lia.
      * cbn [cr_current cr_pos cr_receiver]. split_and!; [exact H1|etransitivity; [exact H2|]|exact H3]. unfold channel_rest, zdrop.
        cbn [cr_current cr_pos cr_receiver concat drop Z.to_nat]. rewrite (drop_ge current); [done|]. unfold zlen in *. lia.
  - rewrite andb_false_r. apply Hread; [lia|done|]. lia.
Qed.

(** The parser reads of the channel what the download put into it, whatever the
    size of the chunks, as long as none is empty. *)
Lemma streamed_all chunks :
  Forall (fun chunk => chunk <> []) chunks ->
  reads_all (streamed never chunks) /\ contents (streamed never chunks) = concat chunks.
Proof.
  intros Hne. destruct (channel_buffers_read (S (channel_reads chunks)) 0 (channel_new chunks)) as (H1 & H2 & _); [done|done| |done].
  change (length (concat chunks) + length chunks < S (channel_reads chunks))%nat. unfold channel_reads. lia.
Qed.
