(* ===== verification/Staging.v ===== *)
(** * Staged rows

    [StagedRows] of [crates/ingest/src/model.rs]: the rows of a snapshot, in
    memory up to a bound and from there on as lines of JSON in a temporary
    file, and the reader that gives them back in batches.

    [serde_json] is the pair of functions of the class [JsonRows]; whether the
    disk takes a file or a write is an argument.  A failed write leaves the
    file as it was: every caller gives the rows up with the error. *)
From Stdlib Require Import ZArith Lia.
From stdpp Require Import base numbers option strings.
From stdpp Require Import list.
From S2P Require Import Prelude Text M3u Artifact.
Open Scope Z_scope.
Open Scope relay_scope.

(** [serde_json::to_vec] and [serde_json::from_str] of a row type. *)
Class JsonRows (T : Type) := {
  to_json : T -> option bytes;
  from_json : text -> option T
}.

(** What the staging relies on: compact JSON is UTF-8 text without line breaks
    that does not end in white space, and it is read back; and no vector is
    longer than [isize::MAX]. *)
Class JsonLaws (T : Type) `{JsonRows T} := {
  to_json_fits row encoded : to_json row = Some encoded -> zlen encoded <= i64_max;
  to_json_line row encoded : to_json row = Some encoded -> 10 ∉ encoded;
  to_json_read row encoded : to_json row = Some encoded ->
    exists s, from_utf8 encoded = Some s /\ trim_end s = s /\ from_json s = Some row
}.

(** What the disk does: whether a temporary file can be created, and whether
    data can be appended to a file. *)
Record Disk := mkDisk { dk_tempfile : bool; dk_write : bytes -> bytes -> bool }.

Record StagedRows (T : Type) := mkStagedRows {
  sg_max_in_memory : Z;
  sg_max_spool_bytes : Z;
  sg_spool_bytes : Z;
  sg_len : Z;
  sg_memory : list T;
  sg_spool : option bytes;
}.
Arguments mkStagedRows {T}.
Arguments sg_max_in_memory {T}.
Arguments sg_max_spool_bytes {T}.
Arguments sg_spool_bytes {T}.
Arguments sg_len {T}.
Arguments sg_memory {T}.
Arguments sg_spool {T}.

Definition DEFAULT_MAX_SPOOL_BYTES : Z := 2 * 1024 * 1024 * 1024.

Section Rows.
Context {T : Type} `{JsonRows T}.

(** [StagedRows::with_spool_limit] *)
Definition with_spool_limit (max_in_memory max_spool_bytes : Z) : StagedRows T :=
  mkStagedRows (Z.max max_in_memory 1) max_spool_bytes 0 0 [] None.
Definition staged_new (max_in_memory : Z) : StagedRows T := with_spool_limit max_in_memory DEFAULT_MAX_SPOOL_BYTES.

(** [write_json_line]: the file and the count of bytes after the line. *)
Definition write_json_line (disk : Disk) (file : bytes) (row : T) (written limit : Z) : result (bytes * Z) IngestError :=
  match to_json row with
  | None => Err ArtifactIo
  | Some encoded =>
      match checked u64_max (written + sat_add u64_max (zlen encoded) 1) with
      | None => Err (StagingTooLarge limit)
      | Some next =>
          if limit <? next then Err (StagingTooLarge limit)
          else if dk_write disk file encoded && dk_write disk (file ++ encoded) [10]
          then Ok (file ++ encoded ++ [10], next)
          else Err ArtifactIo
      end
  end.

(** The rows in memory move to the file; the count is that of the last line
    that was written. *)
Fixpoint drain_to_spool (disk : Disk) (file : bytes) (rows : list T) (written limit : Z)
  : Z * result bytes IngestError :=
  match rows with
  | [] => (written, Ok file)
  | row :: rows =>
      match write_json_line disk file row written limit with
      | Err e => (written, Err e)
      | Ok (file, written) => drain_to_spool disk file rows written limit
      end
  end.

(** The row goes to the spool that exists. *)
Definition push_spooled (disk : Disk) (rows : StagedRows T) (spool : bytes) (row : T)
  : StagedRows T * result unit IngestError :=
  match write_json_line disk spool row (sg_spool_bytes rows) (sg_max_spool_bytes rows) with
  | Err e => (rows, Err e)
  | Ok (spool, written) =>
      (mkStagedRows (sg_max_in_memory rows) (sg_max_spool_bytes rows) written (sg_len rows + 1) (sg_memory rows) (Some spool),
       Ok tt)
  end.

(** [StagedRows::push]; a failure while the memory is drained drops the rows
    that were in it. *)
Definition staged_push (disk : Disk) (rows : StagedRows T) (row : T) : StagedRows T * result unit IngestError :=
  match sg_spool rows with
  | Some spool => push_spooled disk rows spool row
  | None =>
      if zlen (sg_memory rows) <? sg_max_in_memory rows then
        (mkStagedRows (sg_max_in_memory rows) (sg_max_spool_bytes rows) (sg_spool_bytes rows) (sg_len rows + 1)
           (sg_memory rows ++ [row]) None, Ok tt)
      else if negb (dk_tempfile disk) then (rows, Err ArtifactIo)
      else
        match drain_to_spool disk [] (sg_memory rows) (sg_spool_bytes rows) (sg_max_spool_bytes rows) with
        | (written, Err e) =>
            (mkStagedRows (sg_max_in_memory rows) (sg_max_spool_bytes rows) written (sg_len rows) [] None, Err e)
        | (written, Ok spool) =>
            push_spooled disk
              (mkStagedRows (sg_max_in_memory rows) (sg_max_spool_bytes rows) written (sg_len rows) [] (Some spool)) spool row
        end
  end.

(** [StagedRows::is_empty] *)
Definition staged_is_empty (rows : StagedRows T) : bool := sg_len rows =? 0.

(** ** Reading back *)

(** [StagedBatchReader]: rows in memory, or the rest of the file. *)
Inductive RowSource := FromMemory (rows : list T) | FromSpool (file : bytes).
Record StagedBatchReader := mkStagedBatchReader { br_source : RowSource; br_batch_size : Z }.

(** [StagedRows::batches] *)
Definition batches (rows : StagedRows T) (batch_size : Z) : StagedBatchReader :=
  mkStagedBatchReader
    match sg_spool rows with Some file => FromSpool file | None => FromMemory (sg_memory rows) end
    (Z.max batch_size 1).

(** [BufRead::read_line]: a line with its end, and the rest of the file. *)
Fixpoint take_line (file : bytes) : bytes * bytes :=
  match file with
  | [] => ([], [])
  | b :: file => if b =? 10 then ([b], file) else let '(line, rest) := take_line file in (b :: line, rest)
  end.

(** The loop of [StagedBatchReader::next]: at most [room] more rows. *)
Fixpoint read_rows (room : nat) (file : bytes) (batch : list T) : bytes * result (list T) IngestError :=
  match room with
  | O => (file, Ok batch)
  | S room =>
      let '(line, rest) := take_line file in
      if bool_decide (line = []) then (rest, Ok batch)
      else
        match from_utf8 line with
        | None => (rest, Err ArtifactIo)
        | Some s =>
            match from_json (trim_end s) with
            | Some row => read_rows room rest (batch ++ [row])
            | None => (rest, Err ArtifactIo)
            end
        end
  end.

(** [StagedBatchReader::next] *)
Definition next_batch (reader : StagedBatchReader) : StagedBatchReader * option (result (list T) IngestError) :=
  let size := Z.to_nat (br_batch_size reader) in
  match br_source reader with
  | FromMemory rows =>
      let batch := take size rows in
      (mkStagedBatchReader (FromMemory (drop size rows)) (br_batch_size reader),
       if bool_decide (batch = []) then None else Some (Ok batch))
  | FromSpool file =>
      let '(file, batch) := read_rows size file [] in
      (mkStagedBatchReader (FromSpool file) (br_batch_size reader),
       match batch with
       | Ok batch => if bool_decide (batch = []) then None else Some (Ok batch)
       | Err e => Some (Err e)
       end)
  end.

(** A loop over all batches, at most [fuel] of them. *)
Fixpoint read_batches (fuel : nat) (reader : StagedBatchReader) : option (result (list (list T)) IngestError) :=
  match fuel with
  | O => None
  | S fuel =>
      match next_batch reader with
      | (_, None) => Some (Ok [])
      | (_, Some (Err e)) => Some (Err e)
      | (reader, Some (Ok batch)) =>
          match read_batches fuel reader with
          | Some (Ok later) => Some (Ok (batch :: later))
          | other => other
          end
      end
  end.
End Rows.
Arguments StagedBatchReader : clear implicits.
Arguments RowSource : clear implicits.

(** Rows pushed one after the other, each with the disk it meets. *)
Fixpoint staged_run {T} `{JsonRows T} (rows : StagedRows T) (pushes : list (Disk * T)) : StagedRows T * result unit IngestError :=
  match pushes with
  | [] => (rows, Ok tt)
  | (disk, row) :: pushes =>
      match staged_push disk rows row with
      | (rows, Ok _) => staged_run rows pushes
      | failed => failed
      end
  end.

(** ** Theorems *)

Section Staging.
Context {T : Type} `{JsonLaws T}.

(** A line of the spool. *)
Definition row_line (row : T) (line : bytes) : Prop := exists encoded, to_json row = Some encoded /\ line = encoded ++ [10].

(** The staged rows hold [rows], in memory or as the lines of the file. *)
Definition stages (max_in_memory max_spool_bytes : Z) (st : StagedRows T) (rows : list T) : Prop :=
  sg_max_in_memory st = max_in_memory /\ sg_max_spool_bytes st = max_spool_bytes /\ sg_len st = zlen rows /\
  match sg_spool st with
  | None => sg_memory st = rows /\ zlen rows <= max_in_memory /\ sg_spool_bytes st = 0
  | Some file =>
      sg_memory st = [] /\ sg_spool_bytes st = zlen file /\ zlen file <= Z.max 0 max_spool_bytes /\
      exists lines, Forall2 row_line rows lines /\ file = concat lines
  end.

Lemma write_json_line_ok disk file row written limit file' next :
  write_json_line disk file row written limit = Ok (file', next) -> written = zlen file ->
  exists line, row_line row line /\ file' = file ++ line /\ next = zlen file' /\ next <= limit.
Proof.
  unfold write_json_line. destruct (to_json row) as [encoded|] eqn:Ej; [|done].
  destruct (checked _ _) as [n|] eqn:En; [|done]. destruct (Z.ltb_spec limit n); [done|].
  destruct (_ && _); [|done]. intros [= <- <-] ->. apply checked_inv in En as [-> Hn]. apply to_json_fits in Ej as Hfits.
  exists (encoded ++ [10]). split; [by exists encoded|]. split; [done|]. rewrite !zlen_app. change (zlen [10]) with 1.
  unfold sat_add in *. pose proof (zlen_nonneg file). pose proof (zlen_nonneg encoded). unfold u64_max, i64_max in *. lia.
Qed.

Lemma drain_ok disk rows file written limit written' file' :
  drain_to_spool disk file rows written limit = (written', Ok file') -> written = zlen file -> written <= Z.max 0 limit ->
  written' = zlen file' /\ written' <= Z.max 0 limit /\ exists lines, Forall2 row_line rows lines /\ file' = file ++ concat lines.
Proof.
  revert file written. induction rows as [|row rows IH]; intros file written; cbn.
  { intros [= <- <-] -> ?. split_and!; try done. exists []. by rewrite app_nil_r. }
  destruct (write_json_line _ _ _ _ _) as [[file1 n]|] eqn:Ew; [|done]. intros Hrun Hw Hl.
  apply write_json_line_ok in Ew as (line & Hline & -> & Hn & Hle); [|done].
  destruct (IH _ _ Hrun) as (? & ? & lines & Hlines & ->); [done|lia|]. split_and!; try done.
  exists (line :: lines). split; [by constructor|]. by rewrite <- app_assoc.
Qed.

Lemma push_spooled_stages m s disk st file rows row st' :
  stages m s st rows -> sg_spool st = Some file -> push_spooled disk st file row = (st', Ok tt) -> stages m s st' (rows ++ [row]).
Proof.
  intros (Hm & Hs & Hlen & Hst) Hf. rewrite Hf in Hst. destruct Hst as (Hmem & Hb & Hfit & lines & Hlines & ->).
  unfold push_spooled. destruct (write_json_line _ _ _ _ _) as [[file1 n]|] eqn:Ew; [|done]. intros [= <-].
  apply write_json_line_ok in Ew as (line & Hline & -> & Hn & Hle); [|done].
  unfold stages. cbn. rewrite Hlen, zlen_app. change (zlen [row]) with 1. split_and!; try done; [lia|].
  exists (lines ++ [line]). split; [by apply Forall2_app; [|constructor]|]. rewrite concat_app. cbn. by rewrite app_nil_r.
Qed.

Lemma staged_push_stages m s disk st rows row st' :
  stages m s st rows -> staged_push disk st row = (st', Ok tt) -> stages m s st' (rows ++ [row]).
Proof.
  intros Hst. unfold staged_push. destruct (sg_spool st) as [file|] eqn:Hf; [by apply push_spooled_stages|].
  pose proof Hst as (Hm & Hs & Hlen & Hst'). rewrite Hf in Hst'. destruct Hst' as (Hmem & Hfit & Hb).
  destruct (Z.ltb_spec (zlen (sg_memory st)) (sg_max_in_memory st)) as [Hroom|].
  { intros [= <-]. unfold stages. cbn. rewrite Hmem in *. rewrite zlen_app. change (zlen [row]) with 1.
    split_and!; try done; lia. }
  destruct (dk_tempfile disk); [|done]. cbn [negb].
  destruct (drain_to_spool _ _ _ _ _) as [written [file|e]] eqn:Ed; [|done].
  apply drain_ok in Ed as (Hw & Hl & lines & Hlines & ->); [|done|lia]. cbn [app] in Hw, Hl.
  apply push_spooled_stages; [|done]. unfold stages. cbn. rewrite Hmem in *. split_and!; try done; [lia|]. by exists lines.
Qed.

Lemma staged_run_stages m s st rows pushes st' :
  stages m s st rows -> staged_run st pushes = (st', Ok tt) -> stages m s st' (rows ++ List.map snd pushes).
Proof.
  revert st rows. induction pushes as [|[disk row] pushes IH]; intros st rows Hst; cbn.
  { intros [= <-]. by rewrite app_nil_r. }
  destruct (staged_push disk st row) as [st1 [[]|]] eqn:Ep; [|done]. intros Hrun.
  eapply staged_push_stages in Ep; [|done]. specialize (IH _ _ Ep Hrun). by rewrite <- app_assoc in IH.
Qed.

(** *** Batches *)

Lemma take_line_row encoded rest : 10 ∉ encoded -> take_line (encoded ++ 10 :: rest) = (encoded ++ [10], rest).
Proof.
  induction encoded as [|b encoded IH]; [done|]. intros Hn. cbn.
  destruct (Z.eqb_spec b 10) as [->|]; [exfalso; apply Hn; left|]. rewrite IH; [done|]. intros ?. apply Hn. by right.
Qed.

Lemma read_rows_lines room rows lines batch :
  Forall2 row_line rows lines ->
  read_rows room (concat lines) batch = (concat (drop room lines), Ok (batch ++ take room rows)).
Proof.
  intros Hlines. revert room batch. induction Hlines as [|row line rows lines (encoded & Hj & ->) Hlines IH]; intros [|room] batch;
    cbn [read_rows take drop concat]; rewrite ?app_nil_r; try done.
  rewrite <- app_assoc. cbn [app]. rewrite (take_line_row encoded) by (by eapply to_json_line).
  rewrite bool_decide_false by (by destruct encoded). destruct (to_json_read _ _ Hj) as (t & Ht & Htrim & Hrow).
  rewrite (from_utf8_app _ _ _ Ht). cbn [from_utf8 Z.ltb Z.compare fmap option_fmap option_map].
  change (10 <? 128) with true. cbn [fmap option_fmap option_map].
  assert (trim_end (t ++ [10]) = t) as ->.
  { rewrite <- Htrim at 2. destruct t as [|c t _] using rev_ind; [done|]. apply trim_end_last in Htrim as Hc.
    rewrite <- app_assoc. cbn [app]. rewrite (trim_end_app t c [10]) by done. rewrite Htrim. by rewrite trim_end_nil by (by constructor). }
  rewrite Hrow, IH. by rewrite <- app_assoc.
Qed.

(** The rows a reader has left. *)
Definition leaves (source : RowSource T) (rows : list T) : Prop :=
  match source with
  | FromMemory remaining => remaining = rows
  | FromSpool file => exists lines, Forall2 row_line rows lines /\ file = concat lines
  end.

Lemma next_batch_leaves source size rows :
  leaves source rows -> 1 <= size ->
  exists source', leaves source' (drop (Z.to_nat size) rows) /\
    next_batch (mkStagedBatchReader source size) =
    (mkStagedBatchReader source' size, match rows with [] => None | _ => Some (Ok (take (Z.to_nat size) rows)) end).
Proof.
  intros Hl Hsize. unfold next_batch. cbn [br_source br_batch_size].
  assert (bool_decide (take (Z.to_nat size) rows = []) = match rows with [] => true | _ => false end) as Hempty.
  { destruct rows, (Z.to_nat size) eqn:E; try done. lia. }
  destruct source as [remaining|file]; cbn in Hl.
  - subst remaining. exists (FromMemory (drop (Z.to_nat size) rows)). split; [done|]. rewrite Hempty. by destruct rows.
  - destruct Hl as (lines & Hlines & ->). rewrite (read_rows_lines _ rows lines) by done. cbn [app].
    exists (FromSpool (concat (drop (Z.to_nat size) lines))). split; [|rewrite Hempty; by destruct rows].
    exists (drop (Z.to_nat size) lines). split; [by apply Forall2_drop|done].
Qed.

Lemma read_batches_leaves fuel source size rows :
  leaves source rows -> 1 <= size -> (length rows < fuel)%nat ->
  exists batches, read_batches fuel (mkStagedBatchReader source size) = Some (Ok batches) /\ concat batches = rows /\
    Forall (fun batch => batch <> [] /\ zlen batch <= size) batches.
Proof.
  revert source rows. induction fuel as [|fuel IH]; intros source rows Hl Hsize Hfuel; [lia|]. cbn [read_batches].
  destruct (next_batch_leaves source size rows Hl Hsize) as (source' & Hl' & ->).
  destruct rows as [|row rows]; [by exists []|].
  destruct (IH source' (drop (Z.to_nat size) (row :: rows))) as (later & -> & Hc & Hall); [done|done| |].
  { rewrite length_drop. cbn in *. lia. }
  exists (take (Z.to_nat size) (row :: rows) :: later). split_and!; [done| |].
  - cbn [concat]. by rewrite Hc, take_drop.
  - constructor; [|done]. split; [destruct (Z.to_nat size) eqn:E; [lia|done]|]. unfold zlen. rewrite length_take. lia.
Qed.

(** C26. Rows are read back in the order in which they were staged, in batches of at
    most the size asked for, whether they stayed in memory or went to the file;
    the memory and the file stay within their bounds. *)
Theorem staged_rows_read_back max_in_memory max_spool_bytes pushes st batch_size :
  staged_run (with_spool_limit max_in_memory max_spool_bytes) pushes = (st, Ok tt) ->
  let rows := List.map snd pushes in
  (exists bs, read_batches (S (length rows)) (batches st batch_size) = Some (Ok bs) /\ concat bs = rows /\
     Forall (fun batch => batch <> [] /\ zlen batch <= Z.max batch_size 1) bs) /\
  sg_len st = zlen rows /\ zlen (sg_memory st) <= Z.max max_in_memory 1 /\
  from_option zlen 0 (sg_spool st) <= Z.max 0 max_spool_bytes.
Proof.
  intros Hrun rows. apply (staged_run_stages (Z.max max_in_memory 1) max_spool_bytes _ []) in Hrun.
  2:{ unfold stages, zlen. cbn. split_and!; try done; lia. }
  cbn [app] in Hrun. fold rows in Hrun. destruct Hrun as (Hm & Hs & Hlen & Hst). split.
  - apply read_batches_leaves; [|lia|lia]. unfold leaves. destruct (sg_spool st); [|by destruct Hst as [? _]].
    destruct Hst as (_ & _ & _ & lines & ? & ?). by exists lines.
  - split; [done|]. destruct (sg_spool st) as [file|]; cbn.
    + destruct Hst as (-> & _ & ? & _). unfold zlen in *. cbn. lia.
    + destruct Hst as (-> & ? & _). lia.
Qed.

(** *** When staging succeeds *)

Definition works (disk : Disk) : Prop := dk_tempfile disk = true /\ forall file data, dk_write disk file data = true.

Lemma write_json_line_succeeds disk file row line limit :
  works disk -> row_line row line -> zlen (file ++ line) <= limit -> limit <= u64_max ->
  write_json_line disk file row (zlen file) limit = Ok (file ++ line, zlen (file ++ line)).
Proof.
  intros [_ Hw] (encoded & Hj & ->). rewrite !zlen_app. change (zlen [10]) with 1. intros Hfit Hmax.
  apply to_json_fits in Hj as Hshort. pose proof (zlen_nonneg file). pose proof (zlen_nonneg encoded).
  unfold write_json_line. rewrite Hj. unfold sat_add. rewrite (Z.min_r u64_max) by (unfold u64_max, i64_max in *; lia).
  rewrite checked_Some by lia. destruct (Z.ltb_spec limit (zlen file + (zlen encoded + 1))); [lia|]. by rewrite !Hw.
Qed.

Lemma drain_succeeds disk rows lines file limit :
  works disk -> Forall2 row_line rows lines -> zlen (file ++ concat lines) <= limit -> limit <= u64_max ->
  drain_to_spool disk file rows (zlen file) limit = (zlen (file ++ concat lines), Ok (file ++ concat lines)).
Proof.
  intros Hd Hl. revert file. induction Hl as [|row line rows lines Hline Hl IH]; intros file Hfit Hmax; cbn [concat drain_to_spool].
  { by rewrite app_nil_r. }
  cbn [concat] in Hfit. rewrite app_assoc in Hfit.
  rewrite (write_json_line_succeeds disk file row line); [|done|done| |done].
  2:{ rewrite zlen_app in Hfit. pose proof (zlen_nonneg (concat lines)). lia. }
  rewrite IH by done. by rewrite <- app_assoc.
Qed.

Lemma row_lines_unique (rows : list T) (lines lines' : list bytes) :
  Forall2 row_line rows lines -> Forall2 row_line rows lines' -> lines' = lines.
Proof.
  intros Hlines. revert lines'. induction Hlines as [|r l rows lines (e & Hj & ->) Hl IH]; intros lines' H2; [by inversion H2|].
  inversion H2 as [|? ? ? l2 (e2 & Hj2 & ->) Hrest]; subst. f_equal; [congruence|by apply IH].
Qed.

Lemma staged_push_succeeds m s disk st rows row lines line :
  stages m s st rows -> works disk -> s <= u64_max -> Forall2 row_line rows lines -> row_line row line ->
  zlen (concat lines ++ line) <= s -> exists st', staged_push disk st row = (st', Ok tt).
Proof.
  intros (Hm & Hs & Hlen & Hst) Hd Hs1 Hlines Hline Hroom. unfold staged_push.
  destruct (sg_spool st) as [file|].
  - destruct Hst as (Hmem & Hb & Hfit & lines' & Hl' & ->). rewrite (row_lines_unique _ _ _ Hlines Hl'). unfold push_spooled.
    rewrite Hb, Hs, (row_lines_unique _ _ _ Hlines Hl'), (write_json_line_succeeds disk _ row line) by done. by eexists.
  - destruct (_ <? _); [by eexists|]. destruct Hst as (-> & _ & Hb). pose proof Hd as [-> _]. cbn [negb].
    rewrite Hb, Hs. change 0 with (zlen (@nil Z)).
    assert (zlen (concat lines) <= s) as Hfit by (rewrite zlen_app in Hroom; pose proof (zlen_nonneg line); lia).
    rewrite (drain_succeeds disk rows lines) by done. unfold push_spooled. cbn [app sg_spool_bytes sg_max_spool_bytes].
    rewrite (write_json_line_succeeds disk _ row line) by done. by eexists.
Qed.

Lemma staged_run_in_memory m s b st (rows : list T) pushes :
  st = mkStagedRows m s b (zlen rows) rows None -> zlen rows + zlen pushes <= m ->
  exists st', staged_run st pushes = (st', Ok tt).
Proof.
  revert st rows. induction pushes as [|[disk row] pushes IH]; intros st rows -> Hfit; [by eexists|].
  cbn [staged_run]. unfold staged_push. cbn [sg_spool sg_memory sg_max_in_memory sg_len sg_max_spool_bytes sg_spool_bytes].
  assert (zlen ((disk, row) :: pushes) = 1 + zlen pushes) as Hc by (unfold zlen; cbn; lia).
  pose proof (zlen_nonneg pushes). destruct (Z.ltb_spec (zlen rows) m); [|lia].
  assert (zlen (rows ++ [row]) = zlen rows + 1) as Hr by (by rewrite zlen_app).
  apply (IH _ (rows ++ [row])); [by rewrite Hr|lia].
Qed.

Lemma staged_run_in_file m s st rows before pushes lines :
  stages m s st rows -> Forall2 row_line rows before -> s <= u64_max ->
  Forall (fun push => works (fst push)) pushes -> Forall2 row_line (List.map snd pushes) lines ->
  zlen (concat (before ++ lines)) <= s -> exists st', staged_run st pushes = (st', Ok tt).
Proof.
  intros Hst Hbefore Hmax Hd Hl. revert st rows before lines Hst Hbefore Hl.
  induction pushes as [|[disk row] pushes IH]; intros st rows before lines Hst Hbefore Hl Hfit; [by eexists|].
  apply Forall_cons in Hd as [Hd Hds]. inversion Hl as [|? line ? later Hline Hlater]; subst. cbn [staged_run].
  destruct (staged_push_succeeds m s disk st rows row before line) as [st' Hp]; try done.
  { rewrite concat_app, zlen_app in Hfit. cbn [concat] in Hfit. rewrite zlen_app in Hfit. rewrite zlen_app.
    pose proof (zlen_nonneg (concat later)). lia. }
  rewrite Hp. eapply staged_push_stages in Hp; [|done].
  apply (IH Hds st' (rows ++ [row]) (before ++ [line]) later); [done| |done|by rewrite <- app_assoc].
  apply Forall2_app; [done|by constructor].
Qed.

(** With a disk that works and rows that [serde_json] can write, staging
    succeeds if the rows fit into the memory or their lines into the file. *)
Theorem staging_succeeds max_in_memory max_spool_bytes pushes lines :
  Forall (fun push => works (fst push)) pushes -> Forall2 row_line (List.map snd pushes) lines ->
  max_spool_bytes <= u64_max ->
  zlen pushes <= Z.max max_in_memory 1 \/ zlen (concat lines) <= max_spool_bytes ->
  exists st, staged_run (with_spool_limit max_in_memory max_spool_bytes) pushes = (st, Ok tt).
Proof.
  intros Hd Hl Hmax [Hfit|Hfit].
  - by apply (staged_run_in_memory (Z.max max_in_memory 1) max_spool_bytes 0 _ []).
  - apply (staged_run_in_file (Z.max max_in_memory 1) max_spool_bytes _ [] [] pushes lines); try done.
    unfold stages, zlen. cbn. split_and!; try done; lia.
Qed.
End Staging.
