(* ===== verification/Xmltv.v ===== *)
(** * The XMLTV parser

    [crates/parsers/src/xmltv.rs] and the guide records of
    [crates/domain/src/epg.rs]: a pull parser over the events of an XML reader
    that hands each finished channel and programme to a visitor, and the
    timestamps of XMLTV.

    The XML reader is the [quick-xml] library: what the parser gets of it is
    the list of its events, each with the position behind it, up to the end of
    the input at its own position.  URL parsing, [chrono], [serde_json] and
    SHA-256 are parameters.  The texts of diagnostics are left out. *)
From Stdlib Require Import ZArith Lia.
From stdpp Require Import base numbers option strings.
From stdpp Require Import list gmap.
From S2P Require Import Prelude Text M3u Events.
Open Scope Z_scope.
Open Scope relay_scope.

(** ** Timestamps *)

Inductive TimestampPrecision := PYear | PMonth | PDay | PHour | PMinute | PSecond.

Record XmltvTimestamp := mkXmltvTimestamp {
  xt_utc : Z;
  xt_precision : TimestampPrecision;
  xt_offset_seconds : Z;
  xt_timezone_was_implicit : bool;
  xt_original : text;
}.

Inductive XmltvTimestampError :=
| TsEmpty
| TsInvalidDigits (digits : text)
| TsUnsupportedPrecision (length : Z)
| TsInvalidTimezone (zone : text)
| TsAmbiguous (value timezone : text)
| TsNonexistent (value timezone : text).

Definition precision_of (length : Z) : option TimestampPrecision :=
  if length =? 4 then Some PYear else if length =? 6 then Some PMonth else if length =? 8 then Some PDay
  else if length =? 10 then Some PHour else if length =? 12 then Some PMinute else if length =? 14 then Some PSecond
  else None.

(** The closure [parse]: two digits, or the default where the digits end before
    them.  The digits are ASCII digits, so that the conversion cannot fail. *)
Definition digits_at (digits : text) (from to default : Z) : Z :=
  if zlen digits <? to then default else digits_value (ztake (to - from) (zdrop from digits)).

Section Timestamps.
Context {Tz : Type} `{Chrono Tz}.
(** [NaiveDate::and_hms_opt]: the seconds of the day. *)
Context (from_hms_opt : Z -> Z -> Z -> option Z).

(** The offset [+hh:mm] or [+hhmm], in seconds. *)
Definition parse_offset (zone : text) : option Z :=
  let compact := List.filter (fun c => negb (c =? 0x3a)) zone in
  if negb (utf8_len compact =? 5) || negb (forallb is_ascii_digit (tail compact)) then None
  else
    let hours := digits_value (ztake 2 (zdrop 1 compact)) in
    let minutes := digits_value (ztake 2 (zdrop 3 compact)) in
    if (23 <? hours) || (59 <? minutes) then None
    else Some ((if starts_with (str "-") compact then -1 else 1) * (hours * 3600 + minutes * 60)).

(** The instant of a local time in a zone, with the offset of the zone then. *)
Definition resolve_zone (digits zone : text) (date clock : Z) : result (Z * Z) XmltvTimestampError :=
  let seconds := date * seconds_per_day + clock in
  if bool_decide (zone = str "Z") || bool_decide (zone = str "UTC") || bool_decide (zone = str "GMT")
  then Ok (nanos_of_seconds seconds, 0)
  else if starts_with (str "+") zone || starts_with (str "-") zone then
    match parse_offset zone with
    | Some offset => Ok (nanos_of_seconds (seconds - offset), offset)
    | None => Err (TsInvalidTimezone zone)
    end
  else
    match tz_from_str zone with
    | None => Err (TsInvalidTimezone zone)
    | Some timezone =>
        match from_local_datetime timezone (date, clock) with
        | LocalSingle instant => Ok (instant, seconds - instant / 1000000000)
        | LocalAmbiguous => Err (TsAmbiguous digits zone)
        | LocalNone => Err (TsNonexistent digits zone)
        end
    end.

(** [parse_xmltv_timestamp_in_timezone] *)
Definition parse_xmltv_timestamp_in_timezone (value default_timezone : text) : result XmltvTimestamp XmltvTimestampError :=
  match split_whitespace (trim value) with
  | [] => Err TsEmpty
  | digits :: parts =>
      if negb (forallb is_ascii_digit digits) then Err (TsInvalidDigits digits)
      else
        match precision_of (utf8_len digits) with
        | None => Err (TsUnsupportedPrecision (utf8_len digits))
        | Some precision =>
            let naive :=
              date ← from_ymd_opt (digits_value (ztake 4 digits)) (digits_at digits 4 6 1) (digits_at digits 6 8 1);
              clock ← from_hms_opt (digits_at digits 8 10 0) (digits_at digits 10 12 0) (digits_at digits 12 14 0);
              Some (date, clock) in
            match naive with
            | None => Err (TsInvalidDigits digits)
            | Some (date, clock) =>
                match parts with
                | _ :: _ :: _ => Err (TsInvalidTimezone (trim (zdrop (zlen digits) (trim value))))
                | _ =>
                    let zone := default default_timezone (head parts) in
                    match resolve_zone digits zone date clock with
                    | Err e => Err e
                    | Ok (utc, offset) => Ok (mkXmltvTimestamp utc precision offset (bool_decide (parts = [])) value)
                    end
                end
            end
        end
  end.
Definition parse_xmltv_timestamp (value : text) : result XmltvTimestamp XmltvTimestampError :=
  parse_xmltv_timestamp_in_timezone value (str "UTC").
End Timestamps.

(** ** Guide records *)

Record LocalizedText := mkLocalizedText { lt_value : text; lt_language : option text }.
#[export] Instance LocalizedText_eq_dec : EqDecision LocalizedText.
Proof. solve_decision. Defined.

Record ExtensionElement := mkExtensionElement { xe_name : text; xe_attributes : Attributes; xe_text : text }.
#[export] Instance ExtensionElement_eq_dec : EqDecision ExtensionElement.
Proof. solve_decision. Defined.

Record Credit := mkCredit { cd_role : text; cd_name : text; cd_character : option text }.
Record EpisodeNumber := mkEpisodeNumber { en_value : text; en_system : option text }.

Section Records.
Context {Url : Type}.

Record EpgIcon := mkEpgIcon { ic_source : Url; ic_width : option Z; ic_height : option Z }.

Record EpgChannel := mkEpgChannel {
  ec_id : text;
  ec_display_names : list LocalizedText;
  ec_icons : list EpgIcon;
  ec_urls : list Url;
  ec_extensions : list ExtensionElement;
}.

Record ProgrammeRating := mkProgrammeRating { rt_value : text; rt_system : option text; rt_icons : list EpgIcon }.

Record Programme := mkProgramme {
  pr_channel_id : text;
  pr_start : Z;
  pr_stop : option Z;
  pr_original_start : text;
  pr_original_stop : option text;
  pr_titles : list LocalizedText;
  pr_sub_titles : list LocalizedText;
  pr_descriptions : list LocalizedText;
  pr_categories : list LocalizedText;
  pr_episode_numbers : list EpisodeNumber;
  pr_icons : list EpgIcon;
  pr_ratings : list ProgrammeRating;
  pr_credits : list Credit;
  pr_previously_shown : bool;
  pr_new : bool;
  pr_extensions : list ExtensionElement;
}.

(** [ChannelBuilder] and [ProgrammeBuilder]: a record whose identity and times
    are not checked yet. *)
Record ChannelBuilder := mkChannelBuilder {
  cb_id : option text;
  cb_display_names : list LocalizedText;
  cb_icons : list EpgIcon;
  cb_urls : list Url;
  cb_extensions : list ExtensionElement;
}.
Record ProgrammeBuilder := mkProgrammeBuilder {
  pb_channel_id : option text;
  pb_start : option text;
  pb_stop : option text;
  pb_titles : list LocalizedText;
  pb_sub_titles : list LocalizedText;
  pb_descriptions : list LocalizedText;
  pb_categories : list LocalizedText;
  pb_episode_numbers : list EpisodeNumber;
  pb_icons : list EpgIcon;
  pb_ratings : list ProgrammeRating;
  pb_credits : list Credit;
  pb_previously_shown : bool;
  pb_new : bool;
  pb_extensions : list ExtensionElement;
}.
End Records.
Arguments EpgIcon : clear implicits.
Arguments EpgChannel : clear implicits.
Arguments ProgrammeRating : clear implicits.
Arguments Programme : clear implicits.
Arguments ChannelBuilder : clear implicits.
Arguments ProgrammeBuilder : clear implicits.

#[export] Instance EpgIcon_eq_dec {Url} `{EqDecision Url} : EqDecision (EpgIcon Url).
Proof. solve_decision. Defined.

(** ** The parser *)

(** [Capture]: the element below a channel or programme that is being read. *)
Record Capture := mkCapture {
  cp_name : text;
  cp_attributes : Attributes;
  cp_text : text;
  cp_depth : Z;
  cp_child : option ExtensionElement;
  cp_children : list ExtensionElement;
}.

(** The events of the XML reader.  Attributes come one by one, each with its
    key and the result of decoding its value, or as an error; errors carry
    their message. *)
Abbreviation RawAttributes := (list (result (text * result text text) text)).
Inductive XmlEvent :=
| XStart (name : text) (attributes : RawAttributes)
| XEmpty (name : text) (attributes : RawAttributes)
| XText (decoded : result text text)
| XCData (decoded : result text text)
| XEnd (name : text)
| XDocType (content : bytes)
| XGeneralRef (name : text)
| XOther.

(** [element_attributes] *)
Fixpoint element_attributes (offset : Z) (attributes : RawAttributes) (read : Attributes) : result Attributes ParseError :=
  match attributes with
  | [] => Ok read
  | Err message :: _ | Ok (_, Err message) :: _ => Err (MalformedXmltv offset message)
  | Ok (key, Ok value) :: attributes => element_attributes offset attributes (<[key := value]> read)
  end.

(** [is_safe_xmltv_doctype] *)
Definition is_safe_xmltv_doctype (value : bytes) : bool :=
  match from_utf8 value with
  | None => false
  | Some value =>
      let value := trim value in
      if existsb (fun c => (c =? 0x5b) || (c =? 0x5d) || (c =? 0x3c) || (c =? 0x3e)) value then false
      else
        match strip_prefix (str "tv") value with
        | None => false
        | Some [] => true
        | Some (c :: rest) =>
            is_whitespace c &&
            (starts_with (str "SYSTEM ") (trim_start (c :: rest)) || starts_with (str "PUBLIC ") (trim_start (c :: rest)))
        end
  end.

(** [append_capture_text] *)
Definition append_text (target value : text) (limit : Z) : result text ParseError :=
  if limit <? sat_add u64_max (utf8_len target) (utf8_len value) then Err (TextTooLarge limit)
  else
    Ok ((if negb (bool_decide (target = [])) && negb (bool_decide (value = [])) then target ++ [0x20] else target) ++ value).
Definition append_capture_text (capture : Capture) (value : text) (limit : Z) : result Capture ParseError :=
  match cp_child capture with
  | Some child =>
      try appended <- append_text (xe_text child) value limit;
      Ok (mkCapture (cp_name capture) (cp_attributes capture) (cp_text capture) (cp_depth capture)
            (Some (mkExtensionElement (xe_name child) (xe_attributes child) appended)) (cp_children capture))
  | None =>
      try appended <- append_text (cp_text capture) value limit;
      Ok (mkCapture (cp_name capture) (cp_attributes capture) appended (cp_depth capture) None (cp_children capture))
  end.

Section Parser.
Context {Url : Type} (url_parse : text -> option Url).
Context {Tz : Type} `{Chrono Tz} (from_hms_opt : Z -> Z -> Z -> option Z).
Context (unescape : text -> result text text).
Context (programme_json : Programme Url -> option bytes) (sha256 : bytes -> bytes).

(** [XmltvDocument] without its records, which go to the visitor. *)
Record XmltvDocument := mkXmltvDocument {
  xd_generator : Attributes;
  xd_diagnostics : list Diagnostic;
  xd_stats : ParseStats;
}.
Definition document_default : XmltvDocument := mkXmltvDocument ∅ [] stats_default.
Definition set_document_stats (d : XmltvDocument) (stats : ParseStats) : XmltvDocument :=
  mkXmltvDocument (xd_generator d) (xd_diagnostics d) stats.

(** [push_diagnostic] *)
Definition push_xml_diagnostic (d : XmltvDocument) (diagnostic : Diagnostic) : XmltvDocument :=
  mkXmltvDocument (xd_generator d) (xd_diagnostics d ++ [diagnostic]) (observe_diagnostic (xd_stats d) diagnostic).

(** [invalid_record] *)
Definition invalid_record (d : XmltvDocument) (offset : Z) : XmltvDocument :=
  push_xml_diagnostic (set_document_stats d (count_records (xd_stats d) 0 0 1)) (error InvalidXmltvRecord None (Some offset)).

(** [parse_icon] *)
Definition parse_icon (attributes : Attributes) (d : XmltvDocument) (offset : Z) : XmltvDocument * option (EpgIcon Url) :=
  match attributes !! str "src" with
  | None => (d, None)
  | Some source =>
      match url_parse source with
      | None => (push_xml_diagnostic d (warning InvalidUrl None (Some offset)), None)
      | Some source =>
          (d, Some (mkEpgIcon source (attributes !! str "width" ≫= parse_unsigned u32_max)
                      (attributes !! str "height" ≫= parse_unsigned u32_max)))
      end
  end.

Definition new_channel (attributes : Attributes) : ChannelBuilder Url :=
  mkChannelBuilder (attributes !! str "id") [] [] [] [].
Definition new_programme (attributes : Attributes) : ProgrammeBuilder Url :=
  mkProgrammeBuilder (attributes !! str "channel") (attributes !! str "start") (attributes !! str "stop")
    [] [] [] [] [] [] [] [] false false [].

(** The pushes into a builder. *)
Definition channel_extension (b : ChannelBuilder Url) (e : ExtensionElement) : ChannelBuilder Url :=
  mkChannelBuilder (cb_id b) (cb_display_names b) (cb_icons b) (cb_urls b) (cb_extensions b ++ [e]).
Definition channel_icon (b : ChannelBuilder Url) (icon : EpgIcon Url) : ChannelBuilder Url :=
  mkChannelBuilder (cb_id b) (cb_display_names b) (cb_icons b ++ [icon]) (cb_urls b) (cb_extensions b).
Definition channel_name (b : ChannelBuilder Url) (name : LocalizedText) : ChannelBuilder Url :=
  mkChannelBuilder (cb_id b) (cb_display_names b ++ [name]) (cb_icons b) (cb_urls b) (cb_extensions b).
Definition channel_url (b : ChannelBuilder Url) (url : Url) : ChannelBuilder Url :=
  mkChannelBuilder (cb_id b) (cb_display_names b) (cb_icons b) (cb_urls b ++ [url]) (cb_extensions b).

Definition programme_update (b : ProgrammeBuilder Url) (titles sub_titles descriptions categories : list LocalizedText)
  (episode_numbers : list EpisodeNumber) (icons : list (EpgIcon Url)) (ratings : list (ProgrammeRating Url))
  (credits : list Credit) (previously_shown new : bool) (extensions : list ExtensionElement) : ProgrammeBuilder Url :=
  mkProgrammeBuilder (pb_channel_id b) (pb_start b) (pb_stop b) (pb_titles b ++ titles) (pb_sub_titles b ++ sub_titles)
    (pb_descriptions b ++ descriptions) (pb_categories b ++ categories) (pb_episode_numbers b ++ episode_numbers)
    (pb_icons b ++ icons) (pb_ratings b ++ ratings) (pb_credits b ++ credits) (pb_previously_shown b || previously_shown)
    (pb_new b || new) (pb_extensions b ++ extensions).

(** [handle_empty]: the element goes to the channel or programme that is open. *)
Definition handle_empty (name : text) (attributes : Attributes) (channel : option (ChannelBuilder Url))
  (programme : option (ProgrammeBuilder Url)) (d : XmltvDocument) (offset : Z)
  : option (ChannelBuilder Url) * option (ProgrammeBuilder Url) * XmltvDocument :=
  let extension := mkExtensionElement name attributes [] in
  let unknown := set_document_stats d (count_unknown (xd_stats d)) in
  if bool_decide (name = str "icon") then
    let '(d, icon) := parse_icon attributes d offset in
    match icon, channel, programme with
    | Some icon, Some b, _ => (Some (channel_icon b icon), programme, d)
    | Some icon, None, Some b => (None, Some (programme_update b [] [] [] [] [] [icon] [] [] false false []), d)
    | _, _, _ => (channel, programme, d)
    end
  else
    match programme, channel with
    | Some b, _ =>
        if bool_decide (name = str "new")
        then (channel, Some (programme_update b [] [] [] [] [] [] [] [] false true []), d)
        else if bool_decide (name = str "previously-shown")
        then (channel, Some (programme_update b [] [] [] [] [] [] [] [] true false []), d)
        else (channel, Some (programme_update b [] [] [] [] [] [] [] [] false false [extension]), unknown)
    | None, Some b => (Some (channel_extension b extension), None, unknown)
    | None, None => (None, None, d)
    end.

(** [preserve_extension]: the extension, and the document that notes it. *)
Definition preserve_extension (capture : Capture) (d : XmltvDocument) (offset : Z) : ExtensionElement * XmltvDocument :=
  (mkExtensionElement (cp_name capture) (cp_attributes capture) (trim (cp_text capture)),
   push_xml_diagnostic (set_document_stats d (count_unknown (xd_stats d))) (warning UnknownXmlElement None (Some offset))).

(** The credits of the children, and the icons of a rating. *)
Definition credit_of (entry : ExtensionElement) : option Credit :=
  let name := trim (xe_text entry) in
  if bool_decide (name = []) then None else Some (mkCredit (xe_name entry) name (xe_attributes entry !! str "role")).
Fixpoint rating_icons (children : list ExtensionElement) (d : XmltvDocument) (offset : Z)
  : XmltvDocument * list (EpgIcon Url) :=
  match children with
  | [] => (d, [])
  | entry :: children =>
      if bool_decide (xe_name entry = str "icon") then
        let '(d, icon) := parse_icon (xe_attributes entry) d offset in
        let '(d, icons) := rating_icons children d offset in
        (d, match icon with Some icon => icon :: icons | None => icons end)
      else rating_icons children d offset
  end.

(** [finish_capture] into a channel, and into a programme *)
Definition finish_channel_capture (capture : Capture) (b : ChannelBuilder Url) (d : XmltvDocument) (offset : Z)
  : ChannelBuilder Url * XmltvDocument :=
  let value := trim (cp_text capture) in
  if bool_decide (cp_name capture = str "display-name")
  then (channel_name b (mkLocalizedText value (cp_attributes capture !! str "lang")), d)
  else if bool_decide (cp_name capture = str "url") then
    match url_parse value with
    | Some url => (channel_url b url, d)
    | None => (b, push_xml_diagnostic d (warning InvalidUrl None (Some offset)))
    end
  else let '(extension, d) := preserve_extension capture d offset in (channel_extension b extension, d).

Definition finish_programme_capture (capture : Capture) (b : ProgrammeBuilder Url) (d : XmltvDocument) (offset : Z)
  : ProgrammeBuilder Url * XmltvDocument :=
  let value := trim (cp_text capture) in
  let localized := mkLocalizedText value (cp_attributes capture !! str "lang") in
  let system := cp_attributes capture !! str "system" in
  let name := cp_name capture in
  if bool_decide (name = str "title") then (programme_update b [localized] [] [] [] [] [] [] [] false false [], d)
  else if bool_decide (name = str "sub-title") then (programme_update b [] [localized] [] [] [] [] [] [] false false [], d)
  else if bool_decide (name = str "desc") then (programme_update b [] [] [localized] [] [] [] [] [] false false [], d)
  else if bool_decide (name = str "category") then (programme_update b [] [] [] [localized] [] [] [] [] false false [], d)
  else if bool_decide (name = str "episode-num")
  then (programme_update b [] [] [] [] [mkEpisodeNumber value system] [] [] [] false false [], d)
  else if bool_decide (name = str "credits")
  then (programme_update b [] [] [] [] [] [] [] (omap credit_of (cp_children capture)) false false [], d)
  else if bool_decide (name = str "rating") then
    let value :=
      match List.find (fun entry => bool_decide (xe_name entry = str "value")) (cp_children capture) with
      | Some entry => trim (xe_text entry)
      | None => value
      end in
    if bool_decide (value = []) then (b, d)
    else
      let '(d, icons) := rating_icons (cp_children capture) d offset in
      (programme_update b [] [] [] [] [] [] [mkProgrammeRating value system icons] [] false false [], d)
  else if bool_decide (name = str "previously-shown") then (programme_update b [] [] [] [] [] [] [] [] true false [], d)
  else if bool_decide (name = str "new") then (programme_update b [] [] [] [] [] [] [] [] false true [], d)
  else
    let '(extension, d) := preserve_extension capture d offset in
    (programme_update b [] [] [] [] [] [] [] [] false false [extension], d).

Definition finish_capture (capture : Capture) (channel : option (ChannelBuilder Url)) (programme : option (ProgrammeBuilder Url))
  (d : XmltvDocument) (offset : Z) : option (ChannelBuilder Url) * option (ProgrammeBuilder Url) * XmltvDocument :=
  match channel, programme with
  | Some b, _ => let '(b, d) := finish_channel_capture capture b d offset in (Some b, programme, d)
  | None, Some b => let '(b, d) := finish_programme_capture capture b d offset in (None, Some b, d)
  | None, None => (None, None, d)
  end.

(** [Option<String>::filter(|id| !id.trim().is_empty())] *)
Definition not_blank (value : option text) : option text :=
  id ← value; if bool_decide (trim id = []) then None else Some id.

(** [finish_channel] *)
Definition finish_channel (b : ChannelBuilder Url) (d : XmltvDocument) (declared : gset text) (offset : Z)
  : XmltvDocument * gset text * option (EpgChannel Url) :=
  match not_blank (cb_id b) with
  | None => (invalid_record d offset, declared, None)
  | Some id =>
      let d :=
        if bool_decide (id ∈ declared) then push_xml_diagnostic d (warning DuplicateIdentity None (Some offset)) else d in
      (set_document_stats d (count_records (xd_stats d) 0 1 0), {[id]} ∪ declared,
       Some (mkEpgChannel id (cb_display_names b) (cb_icons b) (cb_urls b) (cb_extensions b)))
  end.

(** [finish_programme] *)
Definition finish_programme (b : ProgrammeBuilder Url) (d : XmltvDocument) (offset : Z) (default_timezone : text)
  : XmltvDocument * option (Programme Url) :=
  let invalid := (invalid_record d offset, None) in
  let parse raw := parse_xmltv_timestamp_in_timezone from_hms_opt raw default_timezone in
  match not_blank (pb_channel_id b), pb_start b with
  | Some channel_id, Some start_raw =>
      match parse start_raw, match pb_stop b with
                             | Some raw => match parse raw with Ok stop => Some (Some stop) | Err _ => None end
                             | None => Some None
                             end with
      | Ok start, Some stop =>
          if match stop with Some stop => xt_utc stop <=? xt_utc start | None => false end then invalid
          else
            (set_document_stats d (count_records (xd_stats d) 0 1 0),
             Some (mkProgramme channel_id (xt_utc start) (xt_utc <$> stop) (xt_original start) (xt_original <$> stop)
                     (pb_titles b) (pb_sub_titles b) (pb_descriptions b) (pb_categories b) (pb_episode_numbers b)
                     (pb_icons b) (pb_ratings b) (pb_credits b) (pb_previously_shown b) (pb_new b) (pb_extensions b)))
      | _, _ => invalid
      end
  | _, _ => invalid
  end.

(** [merge_channel] and [extend_distinct] *)
Definition extend_distinct {A} `{EqDecision A} (target additions : list A) : list A :=
  fold_left (fun target item => if bool_decide (item ∈ target) then target else target ++ [item]) additions target.
Definition merge_channel `{EqDecision Url} (existing duplicate : EpgChannel Url) : EpgChannel Url :=
  mkEpgChannel (ec_id existing) (extend_distinct (ec_display_names existing) (ec_display_names duplicate))
    (extend_distinct (ec_icons existing) (ec_icons duplicate)) (extend_distinct (ec_urls existing) (ec_urls duplicate))
    (extend_distinct (ec_extensions existing) (ec_extensions duplicate)).

(** ** The loop *)

Context {V : Type} (visit_channel : V -> EpgChannel Url -> V * result unit ParseError).
Context (visit_programme : V -> Programme Url -> V * result unit ParseError).

Record XmltvState := mkXmltvState {
  xs_document : XmltvDocument;
  xs_channel : option (ChannelBuilder Url);
  xs_programme : option (ProgrammeBuilder Url);
  xs_capture : option Capture;
  xs_depth : Z;
  xs_declared : gset text;
  xs_referenced : gset text;
  xs_fingerprints : gset bytes;
  xs_visitor : V;
}.
Definition xmltv_start (visitor : V) : XmltvState := mkXmltvState document_default None None None 0 ∅ ∅ ∅ visitor.

Definition set_xs_document (st : XmltvState) (d : XmltvDocument) : XmltvState :=
  mkXmltvState d (xs_channel st) (xs_programme st) (xs_capture st) (xs_depth st) (xs_declared st) (xs_referenced st)
    (xs_fingerprints st) (xs_visitor st).
Definition set_xs_capture (st : XmltvState) (capture : option Capture) : XmltvState :=
  mkXmltvState (xs_document st) (xs_channel st) (xs_programme st) capture (xs_depth st) (xs_declared st)
    (xs_referenced st) (xs_fingerprints st) (xs_visitor st).
Definition set_xs_depth (st : XmltvState) (depth : Z) : XmltvState :=
  mkXmltvState (xs_document st) (xs_channel st) (xs_programme st) (xs_capture st) depth (xs_declared st)
    (xs_referenced st) (xs_fingerprints st) (xs_visitor st).
Definition set_xs_open (st : XmltvState) (channel : option (ChannelBuilder Url)) (programme : option (ProgrammeBuilder Url))
  (d : XmltvDocument) : XmltvState :=
  mkXmltvState d channel programme (xs_capture st) (xs_depth st) (xs_declared st) (xs_referenced st)
    (xs_fingerprints st) (xs_visitor st).

(** A record begins, unless there are too many. *)
Definition begin_record (limits : ParseLimits) (st : XmltvState) : result XmltvState ParseError :=
  if record_limit_reached (records_seen (xd_stats (xs_document st))) (max_records limits)
  then Err (TooManyRecords (max_records limits))
  else Ok (set_xs_document st (set_document_stats (xs_document st) (count_records (xd_stats (xs_document st)) 1 0 0))).

(** A channel is complete. *)
Definition complete_channel (st : XmltvState) (b : ChannelBuilder Url) (offset : Z) : XmltvState * option ParseError :=
  let '(d, declared, channel) := finish_channel b (xs_document st) (xs_declared st) offset in
  let '(visitor, failed) :=
    match channel with
    | None => (xs_visitor st, None)
    | Some channel =>
        match visit_channel (xs_visitor st) channel with
        | (visitor, Ok _) => (visitor, None)
        | (visitor, Err e) => (visitor, Some e)
        end
    end in
  (mkXmltvState d (xs_channel st) (xs_programme st) (xs_capture st) (xs_depth st) declared (xs_referenced st)
     (xs_fingerprints st) visitor, failed).

(** [visit_unique_programme] *)
Definition visit_unique_programme (st : XmltvState) (programme : Programme Url) (offset : Z)
  : XmltvState * option ParseError :=
  match programme_json programme with
  | None => (st, Some Io)
  | Some serialized =>
      let fingerprint := sha256 serialized in
      let d := xs_document st in
      if bool_decide (fingerprint ∈ xs_fingerprints st) then
        (set_xs_document st
           (push_xml_diagnostic
              (set_document_stats d
                 (mkParseStats (bytes_read (xd_stats d)) (lines_read (xd_stats d)) (records_seen (xd_stats d))
                    (sat_sub (records_emitted (xd_stats d)) 1) (records_skipped (xd_stats d) + 1)
                    (unknown_metadata (xd_stats d)) (warnings (xd_stats d)) (errors (xd_stats d))))
              (warning DuplicateIdentity None (Some offset))), None)
      else
        let '(visitor, visited) := visit_programme (xs_visitor st) programme in
        (mkXmltvState d (xs_channel st) (xs_programme st) (xs_capture st) (xs_depth st) (xs_declared st)
           (xs_referenced st) ({[fingerprint]} ∪ xs_fingerprints st) visitor,
         match visited with Ok _ => None | Err e => Some e end)
  end.

(** A programme is complete. *)
Definition complete_programme (default_timezone : text) (st : XmltvState) (b : ProgrammeBuilder Url) (offset : Z)
  : XmltvState * option ParseError :=
  let '(d, programme) := finish_programme b (xs_document st) offset default_timezone in
  let st := set_xs_document st d in
  match programme with
  | None => (st, None)
  | Some programme =>
      visit_unique_programme
        (mkXmltvState (xs_document st) (xs_channel st) (xs_programme st) (xs_capture st) (xs_depth st) (xs_declared st)
           ({[pr_channel_id programme]} ∪ xs_referenced st) (xs_fingerprints st) (xs_visitor st)) programme offset
  end.

(** No record is open. *)
Definition outside (st : XmltvState) : bool :=
  match xs_channel st, xs_programme st with None, None => true | _, _ => false end.

(** [Event::Start] *)
Definition start_event (limits : ParseLimits) (st : XmltvState) (name : text) (attributes : RawAttributes) (offset : Z)
  : XmltvState * option ParseError :=
  let st := set_xs_depth st (xs_depth st + 1) in
  if max_xml_depth limits <? xs_depth st then (st, Some (XmlTooDeep (max_xml_depth limits)))
  else
    match element_attributes offset attributes ∅ with
    | Err e => (st, Some e)
    | Ok attributes =>
        match xs_capture st with
        | Some active =>
            let child :=
              if cp_depth active =? 1 then Some (mkExtensionElement name attributes []) else cp_child active in
            (set_xs_capture st (Some (mkCapture (cp_name active) (cp_attributes active) (cp_text active)
                                        (cp_depth active + 1) child (cp_children active))), None)
        | None =>
            if bool_decide (name = str "tv") && (xs_depth st =? 1) then
              let d := xs_document st in
              (set_xs_document st (mkXmltvDocument attributes (xd_diagnostics d) (xd_stats d)), None)
            else if bool_decide (name = str "channel") && outside st then
              match begin_record limits st with
              | Err e => (st, Some e)
              | Ok st => (set_xs_open st (Some (new_channel attributes)) None (xs_document st), None)
              end
            else if bool_decide (name = str "programme") && outside st then
              match begin_record limits st with
              | Err e => (st, Some e)
              | Ok st => (set_xs_open st None (Some (new_programme attributes)) (xs_document st), None)
              end
            else if negb (outside st) then (set_xs_capture st (Some (mkCapture name attributes [] 1 None [])), None)
            else (st, None)
        end
    end.

(** [Event::Empty] *)
Definition empty_event (limits : ParseLimits) (default_timezone : text) (st : XmltvState) (name : text)
  (attributes : RawAttributes) (offset : Z) : XmltvState * option ParseError :=
  match element_attributes offset attributes ∅ with
  | Err e => (st, Some e)
  | Ok attributes =>
      match xs_capture st with
      | Some active =>
          (set_xs_capture st
             (Some (mkCapture (cp_name active) (cp_attributes active) (cp_text active) (cp_depth active) (cp_child active)
                      (cp_children active ++ [mkExtensionElement name attributes []]))), None)
      | None =>
          if bool_decide (name = str "channel") && outside st then
            match begin_record limits st with
            | Err e => (st, Some e)
            | Ok st => complete_channel st (new_channel attributes) offset
            end
          else if bool_decide (name = str "programme") && outside st then
            match begin_record limits st with
            | Err e => (st, Some e)
            | Ok st => complete_programme default_timezone st (new_programme attributes) offset
            end
          else
            let '(channel, programme, d) :=
              handle_empty name attributes (xs_channel st) (xs_programme st) (xs_document st) offset in
            (set_xs_open st channel programme d, None)
      end
  end.

(** [Event::Text] and [Event::CData] *)
Definition text_event (limits : ParseLimits) (st : XmltvState) (value : result text text) (offset : Z)
  : XmltvState * option ParseError :=
  match xs_capture st with
  | None => (st, None)
  | Some active =>
      match value with
      | Err message => (st, Some (MalformedXmltv offset message))
      | Ok value =>
          match append_capture_text active value (max_text_bytes limits) with
          | Err e => (st, Some e)
          | Ok active => (set_xs_capture st (Some active), None)
          end
      end
  end.

(** [Event::End] *)
Definition end_event (default_timezone : text) (st : XmltvState) (name : text) (offset : Z)
  : XmltvState * option ParseError :=
  let close st := set_xs_depth st (sat_sub (xs_depth st) 1) in
  match xs_capture st with
  | Some active =>
      let '(child, children) :=
        match cp_child active with
        | Some child => if cp_depth active =? 2 then (None, cp_children active ++ [child]) else (Some child, cp_children active)
        | None => (None, cp_children active)
        end in
      let active :=
        mkCapture (cp_name active) (cp_attributes active) (cp_text active) (cp_depth active - 1) child children in
      if cp_depth active =? 0 then
        let '(channel, programme, d) := finish_capture active (xs_channel st) (xs_programme st) (xs_document st) offset in
        (close (set_xs_open (set_xs_capture st None) channel programme d), None)
      else (close (set_xs_capture st (Some active)), None)
  | None =>
      let '(st, failed) :=
        if bool_decide (name = str "channel") then
          match xs_channel st with
          | Some b => complete_channel (set_xs_open st None (xs_programme st) (xs_document st)) b offset
          | None => (st, None)
          end
        else if bool_decide (name = str "programme") then
          match xs_programme st with
          | Some b => complete_programme default_timezone (set_xs_open st (xs_channel st) None (xs_document st)) b offset
          | None => (st, None)
          end
        else (st, None) in
      match failed with
      | Some e => (st, Some e)
      | None => (close st, None)
      end
  end.

(** [Event::DocType] *)
Definition doctype_event (limits : ParseLimits) (st : XmltvState) (content : bytes) : XmltvState * option ParseError :=
  if max_text_bytes limits <? zlen content then (st, Some (TextTooLarge (max_text_bytes limits)))
  else if negb (is_safe_xmltv_doctype content) then (st, Some XmlDoctypeForbidden)
  else (st, None).

Definition xmltv_event (limits : ParseLimits) (default_timezone : text) (st : XmltvState) (event : XmlEvent) (offset : Z)
  : XmltvState * option ParseError :=
  match event with
  | XStart name attributes => start_event limits st name attributes offset
  | XEmpty name attributes => empty_event limits default_timezone st name attributes offset
  | XText decoded => text_event limits st (result_bind decoded unescape) offset
  | XCData decoded => text_event limits st decoded offset
  | XEnd name => end_event default_timezone st name offset
  | XDocType content => doctype_event limits st content
  | XGeneralRef _ | XOther => (st, None)
  end.

(** What the reader gives: events or an error, each with the position behind
    it, and the position of the end of the input. *)
Record XmlInput := mkXmlInput { xi_events : list (Z * result XmlEvent text); xi_end : Z }.

Fixpoint xmltv_loop (limits : ParseLimits) (default_timezone : text) (events : list (Z * result XmlEvent text)) (eof : Z)
  (st : XmltvState) : XmltvState * result unit ParseError :=
  let too_large offset := max_input_bytes limits <? offset in
  match events with
  | [] => (st, if too_large eof then Err (InputTooLarge (max_input_bytes limits)) else Ok tt)
  | (offset, Err message) :: _ => (st, Err (MalformedXmltv offset message))
  | (offset, Ok event) :: events =>
      if too_large offset then (st, Err (InputTooLarge (max_input_bytes limits)))
      else
        match xmltv_event limits default_timezone st event offset with
        | (st, Some e) => (st, Err e)
        | (st, None) => xmltv_loop limits default_timezone events eof st
        end
  end.

(** After the last event: the references to channels that were not declared. *)
Definition xmltv_finish (st : XmltvState) (eof : Z) : XmltvDocument :=
  let d := xs_document st in
  let s := xd_stats d in
  let d :=
    set_document_stats d
      (mkParseStats eof (lines_read s) (records_seen s) (records_emitted s) (records_skipped s) (unknown_metadata s)
         (warnings s) (errors s)) in
  Nat.iter (size (xs_referenced st ∖ xs_declared st))
    (fun d => push_xml_diagnostic d (warning UndeclaredChannel None None)) d.

(** [parse_xmltv_visit_with_options] *)
Definition parse_xmltv_visit (input : XmlInput) (limits : ParseLimits) (default_timezone : text) (visitor : V)
  : V * result XmltvDocument ParseError :=
  let '(st, read) := xmltv_loop limits default_timezone (xi_events input) (xi_end input) (xmltv_start visitor) in
  (xs_visitor st, match read with Ok _ => Ok (xmltv_finish st (xi_end input)) | Err e => Err e end).
End Parser.
