(* ===== verification/XmltvSpec.v ===== *)
(** * What the XMLTV parser guarantees

    The account of the records of a document and the validity of what the
    visitors get, by an invariant of the loop; the bound on the texts; and the
    timestamps, which are read back from their printed form. *)
From Stdlib Require Import ZArith Lia.
From stdpp Require Import base numbers option strings.
From stdpp Require Import list gmap.
From S2P Require Import Prelude Text M3u Events EventSpec Xmltv.
Open Scope Z_scope.

(** ** Documents *)

(** The diagnostics that report a skipped record. *)
Definition skip_report (d : Diagnostic) : bool :=
  match dg_code d with InvalidXmltvRecord | DuplicateIdentity => true | _ => false end.
Definition skip_reports (l : list Diagnostic) : Z := zlen (List.filter skip_report l).

Lemma skip_reports_app l k : skip_reports (l ++ k) = skip_reports l + skip_reports k.
Proof. unfold skip_reports. by rewrite List.filter_app, zlen_app. Qed.

Lemma skip_reports_nonneg l : 0 <= skip_reports l.
Proof. apply zlen_nonneg. Qed.

(** How a step changes the document: by how much its counters grow, and what it
    reports. *)
Definition grows (d d' : XmltvDocument) (seen emitted skipped : Z) : Prop :=
  records_seen (xd_stats d') = records_seen (xd_stats d) + seen /\
  records_emitted (xd_stats d') = records_emitted (xd_stats d) + emitted /\
  records_skipped (xd_stats d') = records_skipped (xd_stats d) + skipped /\
  exists reports, xd_diagnostics d' = xd_diagnostics d ++ reports /\
    warnings (xd_stats d') + errors (xd_stats d') = warnings (xd_stats d) + errors (xd_stats d) + zlen reports /\
    skipped <= skip_reports reports.

Lemma grows_refl d : grows d d 0 0 0.
Proof. unfold grows. split_and!; try lia. exists []. rewrite app_nil_r. unfold skip_reports, zlen. cbn. split_and!; try done; lia. Qed.

Lemma grows_trans d d' d'' s e k s' e' k' :
  grows d d' s e k -> grows d' d'' s' e' k' -> grows d d'' (s + s') (e + e') (k + k').
Proof.
  intros (H1 & H2 & H3 & r & Hr & Hw & Hk) (H1' & H2' & H3' & r' & Hr' & Hw' & Hk'). unfold grows. split_and!; try lia.
  exists (r ++ r'). rewrite Hr', Hr, <- app_assoc, zlen_app, skip_reports_app. split_and!; try done; lia.
Qed.

Lemma grows_counted d d' s e k s' e' k' : grows d d' s e k -> s = s' -> e = e' -> k = k' -> grows d d' s' e' k'.
Proof. by intros ? -> -> ->. Qed.

Lemma grows_diagnostic d diagnostic : grows d (push_xml_diagnostic d diagnostic) 0 0 0.
Proof.
  unfold grows, push_xml_diagnostic, observe_diagnostic. destruct (dg_severity diagnostic); cbn; split_and!; try lia;
    exists [diagnostic]; change (zlen [diagnostic]) with 1; pose proof (skip_reports_nonneg [diagnostic]); split_and!; try done; lia.
Qed.

Lemma grows_unknown d : grows d (set_document_stats d (count_unknown (xd_stats d))) 0 0 0.
Proof. unfold grows. cbn. split_and!; try lia. exists []. rewrite app_nil_r. unfold skip_reports, zlen. cbn. split_and!; try done; lia. Qed.

Lemma grows_records d s e k :
  k <= 0 -> grows d (set_document_stats d (count_records (xd_stats d) s e k)) s e k.
Proof.
  intros Hk. unfold grows. cbn. split_and!; try lia. exists []. rewrite app_nil_r. unfold skip_reports, zlen. cbn.
  split_and!; try done; lia.
Qed.

Lemma grows_invalid d offset : grows d (invalid_record d offset) 0 0 1.
Proof.
  unfold grows, invalid_record, push_xml_diagnostic. cbn. split_and!; try lia.
  exists [error InvalidXmltvRecord None (Some offset)]. unfold skip_reports, zlen. cbn. split_and!; try done; lia.
Qed.

Create HintDb xmltv.
#[export] Hint Resolve grows_refl grows_diagnostic grows_unknown grows_invalid : xmltv.
(** Chains two steps of the document that change no counter. *)
Ltac grows_chain := eapply (grows_counted _ _ (0 + 0) (0 + 0) (0 + 0)); [eapply grows_trans; eauto with xmltv|lia..].

Section Spec.
Context {Url : Type} (url_parse : text -> option Url).
Context {Tz : Type} `{Chrono Tz} (from_hms_opt : Z -> Z -> Z -> option Z).
Context (unescape : text -> result text text).
Context (programme_json : Programme Url -> option bytes) (sha256 : bytes -> bytes).

Lemma parse_icon_grows attributes d offset : grows d (fst (parse_icon url_parse attributes d offset)) 0 0 0.
Proof. unfold parse_icon. destruct (_ !! _); [|apply grows_refl]. destruct (url_parse _); cbn; auto with xmltv. Qed.

Lemma rating_icons_grows children d offset : grows d (fst (rating_icons url_parse children d offset)) 0 0 0.
Proof.
  revert d. induction children as [|entry children IH]; intros d; cbn; [apply grows_refl|]. case_bool_decide; [|apply IH].
  pose proof (parse_icon_grows (xe_attributes entry) d offset) as H1. destruct (parse_icon _ _ _ _) as [d1 icon].
  specialize (IH d1). destruct (rating_icons _ _ _ _) as [d2 icons]. cbn in *.
  by eapply (grows_counted _ _ (0 + 0) (0 + 0) (0 + 0)); [eapply grows_trans|..].
Qed.

Lemma handle_empty_grows name attributes channel programme d offset :
  grows d (snd (handle_empty url_parse name attributes channel programme d offset)) 0 0 0.
Proof.
  unfold handle_empty. case_bool_decide.
  - pose proof (parse_icon_grows attributes d offset). destruct (parse_icon _ _ _ _) as [d1 [icon|]]; cbn in *; [|done].
    by destruct channel, programme.
  - destruct programme; [repeat case_bool_decide|destruct channel]; cbn; auto with xmltv.
Qed.

Lemma preserve_grows capture d offset : grows d (snd (preserve_extension capture d offset)) 0 0 0.
Proof. unfold preserve_extension. cbn [snd]. grows_chain. Qed.

Lemma finish_capture_grows capture channel programme d offset :
  grows d (snd (finish_capture url_parse capture channel programme d offset)) 0 0 0.
Proof.
  pose proof (preserve_grows capture d offset) as Hp. unfold finish_capture.
  destruct channel as [b|]; [|destruct programme as [b|]]; [| |apply grows_refl].
  - unfold finish_channel_capture. destruct (preserve_extension capture d offset) as [ext d1].
    repeat case_bool_decide; cbn in *; auto with xmltv. destruct (url_parse _); cbn; auto with xmltv.
  - unfold finish_programme_capture. destruct (preserve_extension capture d offset) as [ext d1].
    pose proof (rating_icons_grows (cp_children capture) d offset) as Hr.
    destruct (rating_icons _ _ _ _) as [d2 icons]. repeat case_bool_decide; cbn in *; auto with xmltv.
Qed.

(** *** What the visitors get *)

Inductive Visited := VChannel (channel : EpgChannel Url) | VProgramme (programme : Programme Url).

Definition visited_ok (v : Visited) : Prop :=
  match v with
  | VChannel channel => trim (ec_id channel) <> []
  | VProgramme p => trim (pr_channel_id p) <> [] /\ forall stop, pr_stop p = Some stop -> pr_start p < stop
  end.

Lemma not_blank_Some value id : not_blank value = Some id -> value = Some id /\ trim id <> [].
Proof. unfold not_blank. destruct value as [v|]; [|done]. cbn. case_bool_decide; [done|]. by intros [= ->]. Qed.

Lemma finish_channel_grows (b : ChannelBuilder Url) d declared offset :
  let '(d', declared', channel) := finish_channel b d declared offset in
  match channel with
  | None => grows d d' 0 0 1 /\ declared' = declared
  | Some channel => grows d d' 0 1 0 /\ declared' = {[ec_id channel]} ∪ declared /\ trim (ec_id channel) <> []
  end.
Proof.
  unfold finish_channel. destruct (not_blank (cb_id b)) as [id|] eqn:Eid; [|split; [apply grows_invalid|done]].
  apply not_blank_Some in Eid as [_ Hid]. cbn [ec_id]. split_and!; [|done|done]. case_bool_decide.
  - eapply (grows_counted _ _ (0 + 0) (0 + 1) (0 + 0)); [|done..]. eapply grows_trans; [apply grows_diagnostic|by apply grows_records].
  - by apply grows_records.
Qed.

Lemma finish_programme_grows (b : ProgrammeBuilder Url) d offset timezone :
  match finish_programme from_hms_opt b d offset timezone with
  | (d', None) => grows d d' 0 0 1
  | (d', Some p) => grows d d' 0 1 0 /\ visited_ok (VProgramme p)
  end.
Proof.
  unfold finish_programme. destruct (not_blank (pb_channel_id b)) as [id|] eqn:Eid; [|apply grows_invalid].
  apply not_blank_Some in Eid as [_ Hid]. destruct (pb_start b) as [raw|]; [|apply grows_invalid].
  destruct (parse_xmltv_timestamp_in_timezone _ raw _) as [start|]; [|apply grows_invalid].
  destruct (match pb_stop b with Some _ => _ | None => _ end) as [[stop|]|]; [| |apply grows_invalid].
  - destruct (Z.leb_spec (xt_utc stop) (xt_utc start)); [apply grows_invalid|]. split; [by apply grows_records|].
    split; [done|]. cbn. by intros ? [= <-].
  - split; [by apply grows_records|]. by split.
Qed.

(** *** The account of the loop *)

(** The visitors that keep a log. *)
Definition log_channel (log : list Visited) (channel : EpgChannel Url) : list Visited * result unit ParseError :=
  (log ++ [VChannel channel], Ok tt).
Definition log_programme (log : list Visited) (programme : Programme Url) : list Visited * result unit ParseError :=
  (log ++ [VProgramme programme], Ok tt).

Definition fingerprint_of (v : Visited) : option bytes :=
  match v with VProgramme p => sha256 <$> programme_json p | VChannel _ => None end.
Definition fingerprints (log : list Visited) : list bytes := omap fingerprint_of log.

Abbreviation State := (@XmltvState Url (list Visited)).

Definition opened (st : State) : Z :=
  (if xs_channel st then 1 else 0) + (if xs_programme st then 1 else 0).

(** Every record seen was given to a visitor, skipped with a report, or is
    still open; what the visitors got is valid and has no duplicates. *)
Definition account (limits : ParseLimits) (d : XmltvDocument) (left : Z) (prints : gset bytes) (log : list Visited) : Prop :=
  records_seen (xd_stats d) = records_emitted (xd_stats d) + records_skipped (xd_stats d) + left /\
  records_emitted (xd_stats d) = zlen log /\
  warnings (xd_stats d) + errors (xd_stats d) = zlen (xd_diagnostics d) /\
  0 <= records_skipped (xd_stats d) <= skip_reports (xd_diagnostics d) /\
  0 <= records_seen (xd_stats d) <= Z.max 0 (max_records limits) /\
  Forall visited_ok log /\ NoDup (fingerprints log) /\ prints = list_to_set (fingerprints log).

Lemma account_grows limits d d' left prints log : account limits d left prints log -> grows d d' 0 0 0 -> account limits d' left prints log.
Proof.
  intros (H1 & H2 & H3 & H4 & H5 & H6) (G1 & G2 & G3 & r & Hr & Hw & _). unfold account. rewrite Hr, zlen_app, skip_reports_app.
  pose proof (skip_reports_nonneg r). split_and!; try done; try lia; by destruct H6 as (? & ? & ?).
Qed.

Lemma account_skip limits d d' left prints log :
  account limits d (1 + left) prints log -> grows d d' 0 0 1 -> account limits d' left prints log.
Proof.
  intros (H1 & H2 & H3 & H4 & H5 & H6) (G1 & G2 & G3 & r & Hr & Hw & Hk). unfold account. rewrite Hr, zlen_app, skip_reports_app.
  split_and!; try done; try lia; by destruct H6 as (? & ? & ?).
Qed.

Lemma account_emit limits d d' left prints log v :
  account limits d (1 + left) prints log -> grows d d' 0 1 0 -> visited_ok v ->
  match fingerprint_of v with Some f => f ∉ prints | None => True end ->
  account limits d' left (match fingerprint_of v with Some f => {[f]} ∪ prints | None => prints end) (log ++ [v]).
Proof.
  intros (H1 & H2 & H3 & H4 & H5 & H6 & H7 & ->) (G1 & G2 & G3 & r & Hr & Hw & Hk) Hv Hf. unfold account.
  rewrite Hr, !zlen_app, skip_reports_app. change (zlen [v]) with 1. pose proof (skip_reports_nonneg r).
  split_and!; try lia.
  - apply Forall_app. split; [done|by constructor].
  - unfold fingerprints. rewrite omap_app. cbn. destruct (fingerprint_of v) as [f|]; [|by rewrite app_nil_r].
    apply NoDup_app. split_and!; [done| |apply NoDup_singleton]. intros x Hx ->%list_elem_of_singleton. apply Hf. by apply elem_of_list_to_set.
  - unfold fingerprints. rewrite omap_app. cbn. destruct (fingerprint_of v) as [f|]; [|by rewrite app_nil_r].
    rewrite list_to_set_app_L. cbn. set_solver.
Qed.

Abbreviation complete_channel := (complete_channel log_channel).
Abbreviation complete_programme := (complete_programme from_hms_opt programme_json sha256 log_programme).

Definition accounted (limits : ParseLimits) (st : State) : Prop :=
  account limits (xs_document st) (opened st) (xs_fingerprints st) (xs_visitor st) /\ opened st <= 1.

Lemma complete_channel_accounted limits (st : State) b offset :
  account limits (xs_document st) (1 + opened st) (xs_fingerprints st) (xs_visitor st) -> opened st <= 1 ->
  accounted limits (fst (complete_channel st b offset)) /\ snd (complete_channel st b offset) = None.
Proof.
  intros Hst Hone. unfold Xmltv.complete_channel. pose proof (finish_channel_grows b (xs_document st) (xs_declared st) offset) as Hf.
  destruct (finish_channel _ _ _ _) as [[d declared] [channel|]]; cbn; (split; [split; [|exact Hone]|done]); unfold opened; cbn.
  - destruct Hf as (Hg & _ & Hid). by apply (account_emit _ _ _ _ _ _ (VChannel channel) Hst Hg).
  - destruct Hf as [Hg _]. by eapply account_skip.
Qed.

Lemma complete_programme_accounted limits timezone (st : State) b offset :
  account limits (xs_document st) (1 + opened st) (xs_fingerprints st) (xs_visitor st) -> opened st <= 1 ->
  let '(st', failed) := complete_programme timezone st b offset in
  failed = Some Io \/ failed = None /\ accounted limits st'.
Proof.
  intros Hst Hone. unfold Xmltv.complete_programme. pose proof (finish_programme_grows b (xs_document st) offset timezone) as Hf.
  destruct (finish_programme _ _ _ _ _) as [d [p|]]; cbn.
  2:{ right. split; [done|]. split; [|exact Hone]. unfold opened. cbn. by eapply account_skip. }
  destruct Hf as [Hg Hok]. unfold visit_unique_programme. destruct (programme_json p) as [json|] eqn:Ej; [|by left]. cbn.
  case_bool_decide as Hdup; cbn; right; (split; [done|]); (split; [|exact Hone]); unfold opened; cbn.
  - eapply account_skip; [exact Hst|]. destruct Hst as (H1 & H2 & _). destruct Hg as (G1 & G2 & G3 & r & Hr & Hw & Hk).
    pose proof (zlen_nonneg (xs_visitor st)). unfold grows, push_xml_diagnostic, observe_diagnostic. cbn. unfold sat_sub.
    split_and!; try lia. exists (r ++ [warning DuplicateIdentity None (Some offset)]).
    rewrite Hr, <- app_assoc, zlen_app, skip_reports_app. split_and!; [done| |].
    + change (zlen [_]) with 1. lia.
    + change (skip_reports [_]) with 1. lia.
  - pose proof (account_emit _ _ _ _ _ _ (VProgramme p) Hst Hg Hok) as Hemit. cbn in Hemit. rewrite Ej in Hemit. by apply Hemit.
Qed.

Lemma begin_record_accounted limits (st st' : State) :
  accounted limits st -> begin_record limits st = Ok st' ->
  account limits (xs_document st') (1 + opened st) (xs_fingerprints st') (xs_visitor st') /\
  opened st' = opened st /\ xs_channel st' = xs_channel st /\ xs_programme st' = xs_programme st.
Proof.
  unfold begin_record. intros [Hst _]. destruct (record_limit_reached _ _) eqn:Er; [done|]. intros [= <-]. split; [|done].
  unfold record_limit_reached in Er. destruct (checked _ _) as [seen|] eqn:Ec; [|done]. apply checked_inv in Ec as [-> Hc].
  apply Z.leb_gt in Er. destruct Hst as (H1 & H2 & H3 & H4 & H5 & H6 & H7 & H8). unfold account, set_xs_document. cbn.
  split_and!; try done; lia.
Qed.

Lemma outside_opened (st : State) : outside st = true -> xs_channel st = None /\ xs_programme st = None.
Proof. unfold outside. by destruct (xs_channel st), (xs_programme st). Qed.

Lemma start_event_accounted limits (st : State) name attributes offset :
  accounted limits st ->
  let '(st', failed) := start_event limits st name attributes offset in failed = None -> accounted limits st'.
Proof.
  intros Hst. unfold start_event. destruct (_ <? _); [done|]. destruct (element_attributes _ _ _) as [read|]; [|done].
  set (st1 := set_xs_depth st (xs_depth st + 1)). assert (accounted limits st1) as Hst1 by exact Hst.
  destruct (xs_capture st1) as [active|]; [by intros _|].
  destruct (bool_decide (name = str "tv") && _).
  { intros _. destruct Hst as [Hst Hone]. split; [|exact Hone]. cbn. eapply account_grows; [exact Hst|]. unfold grows. cbn. split_and!; try lia.
    exists []. rewrite app_nil_r. unfold skip_reports, zlen. cbn. split_and!; try done; lia. }
  destruct (bool_decide (name = str "channel") && outside st1) eqn:E1; [|destruct (bool_decide (name = str "programme") && outside st1) eqn:E2].
  - apply andb_prop in E1 as [_ (Hc & Hp)%outside_opened]. destruct (begin_record limits st1) as [st2|] eqn:Eb; [|done]. intros _.
    eapply begin_record_accounted in Eb as (Ha & Ho & _); [|exact Hst1]. unfold opened in Ha. rewrite Hc, Hp in Ha. by split.
  - apply andb_prop in E2 as [_ (Hc & Hp)%outside_opened]. destruct (begin_record limits st1) as [st2|] eqn:Eb; [|done]. intros _.
    eapply begin_record_accounted in Eb as (Ha & Ho & _); [|exact Hst1]. unfold opened in Ha. rewrite Hc, Hp in Ha. by split.
  - by destruct (negb (outside st1)); intros _.
Qed.

Lemma handle_empty_opened name attributes (st : State) offset :
  let '(channel, programme, d) := handle_empty url_parse name attributes (xs_channel st) (xs_programme st) (xs_document st) offset in
  opened (set_xs_open st channel programme d) = opened st.
Proof.
  unfold handle_empty, opened. destruct (parse_icon _ _ _ _) as [d [icon|]], (xs_channel st), (xs_programme st);
    repeat case_bool_decide; done.
Qed.

Lemma finish_capture_opened capture (st st' : State) offset :
  let '(channel, programme, d) := finish_capture url_parse capture (xs_channel st) (xs_programme st) (xs_document st) offset in
  opened (set_xs_open st' channel programme d) = opened st.
Proof.
  unfold finish_capture, opened. destruct (xs_channel st), (xs_programme st); try done.
  - by destruct (finish_channel_capture _ _ _ _ _).
  - by destruct (finish_channel_capture _ _ _ _ _).
  - by destruct (finish_programme_capture _ _ _ _ _).
Qed.

Lemma empty_event_accounted limits timezone (st : State) name attributes offset :
  accounted limits st ->
  let '(st', failed) :=
    empty_event url_parse from_hms_opt programme_json sha256 log_channel log_programme limits timezone st name attributes offset in
  failed = None -> accounted limits st'.
Proof.
  intros Hst. unfold empty_event. destruct (element_attributes _ _ _) as [read|]; [|done].
  destruct (xs_capture st) as [active|]; [by intros _|].
  destruct (bool_decide (name = str "channel") && outside st) eqn:E1; [|destruct (bool_decide (name = str "programme") && outside st) eqn:E2].
  - destruct (begin_record limits st) as [st1|] eqn:Eb; [|done]. apply begin_record_accounted in Eb as (Ha & Ho & _); [|done].
    rewrite <- Ho in Ha. destruct (complete_channel_accounted limits st1 (new_channel read) offset Ha) as [H1 _]; [rewrite Ho; apply Hst|].
    by destruct (Xmltv.complete_channel _ _ _ _).
  - destruct (begin_record limits st) as [st1|] eqn:Eb; [|done]. apply begin_record_accounted in Eb as (Ha & Ho & _); [|done].
    rewrite <- Ho in Ha. pose proof (complete_programme_accounted limits timezone st1 (new_programme read) offset Ha) as H1.
    rewrite Ho in H1. specialize (H1 (proj2 Hst)).
    destruct (Xmltv.complete_programme _ _ _ _ _ _ _ _) as [st2 failed]. intros ->. by destruct H1 as [|[_ H1]].
  - pose proof (handle_empty_grows name read (xs_channel st) (xs_programme st) (xs_document st) offset) as Hg.
    pose proof (handle_empty_opened name read st offset) as Ho.
    destruct (handle_empty _ _ _ _ _ _ _) as [[channel programme] d]. intros _. cbn in Hg. unfold accounted. rewrite Ho. split; [|apply Hst].
    cbn. eapply account_grows; [apply Hst|done].
Qed.

Lemma end_event_accounted limits timezone (st : State) name offset :
  accounted limits st ->
  let '(st', failed) :=
    end_event url_parse from_hms_opt programme_json sha256 log_channel log_programme timezone st name offset in
  failed = None -> accounted limits st'.
Proof.
  intros Hst. unfold end_event. destruct (xs_capture st) as [active|].
  - destruct (match cp_child active with Some _ => _ | None => _ end) as [child children]. cbn.
    set (done := mkCapture _ _ _ _ _ _). destruct (_ =? 0); [|by intros _].
    pose proof (finish_capture_grows done (xs_channel st) (xs_programme st) (xs_document st) offset) as Hg.
    pose proof (finish_capture_opened done st (set_xs_capture st None) offset) as Ho.
    destruct (finish_capture _ _ _ _ _ _) as [[channel programme] d]. intros _. cbn in Hg.
    unfold accounted. change (opened _) with (opened (set_xs_open (set_xs_capture st None) channel programme d)).
    rewrite Ho. split; [|apply Hst]. cbn. eapply account_grows; [apply Hst|done].
  - case_bool_decide; [|case_bool_decide; [|by intros _]].
    + destruct (xs_channel st) as [b|] eqn:Ec; [|by intros _].
      destruct (complete_channel_accounted limits (set_xs_open st None (xs_programme st) (xs_document st)) b offset) as [H1 H2].
      { destruct Hst as [Hst _]. unfold opened in Hst. rewrite Ec in Hst. exact Hst. }
      { unfold opened. cbn. by destruct (xs_programme st). }
      destruct (Xmltv.complete_channel _ _ _ _) as [st1 failed]. cbn in *. subst failed. by intros _.
    + destruct (xs_programme st) as [b|] eqn:Ep; [|by intros _].
      pose proof (complete_programme_accounted limits timezone (set_xs_open st (xs_channel st) None (xs_document st)) b offset) as Hcp.
      destruct (Xmltv.complete_programme _ _ _ _ _ _ _ _) as [st1 failed]. destruct failed; [done|]. intros _.
      destruct Hcp as [|[_ Hcp]]; [| |done|exact Hcp].
      2:{ unfold opened. cbn. by destruct (xs_channel st). }
      destruct Hst as [Hst _]. unfold opened in Hst. rewrite Ep in Hst. unfold opened. cbn. by replace (1 + _) with ((if xs_channel st then 1 else 0) + 1) by lia.
Qed.

Abbreviation xmltv_loop :=
  (xmltv_loop url_parse from_hms_opt unescape programme_json sha256 log_channel log_programme).

Lemma xmltv_event_accounted limits timezone (st : State) event offset :
  accounted limits st ->
  let '(st', failed) :=
    xmltv_event url_parse from_hms_opt unescape programme_json sha256 log_channel log_programme limits timezone st event offset in
  failed = None -> accounted limits st'.
Proof.
  intros Hst.
  assert (forall value, let '(st', failed) := text_event limits st value offset in failed = None -> accounted limits st') as Htext.
  { intros value. unfold text_event. destruct (xs_capture st); [|by intros _]. destruct value; [|done].
    destruct (append_capture_text _ _ _); [by intros _|done]. }
  destruct event; cbn; try (by intros _); try apply Htext.
  - by apply start_event_accounted.
  - by apply empty_event_accounted.
  - by apply end_event_accounted.
  - unfold doctype_event. destruct (_ <? _); [done|]. destruct (negb _); [done|by intros _].
Qed.

Lemma xmltv_loop_accounted limits timezone events eof (st st' : State) :
  accounted limits st -> xmltv_loop limits timezone events eof st = (st', Ok tt) ->
  accounted limits st' /\ eof <= max_input_bytes limits.
Proof.
  revert st. induction events as [|[offset [event|]] events IH]; intros st Hst; cbn.
  - destruct (Z.ltb_spec (max_input_bytes limits) eof); [done|]. by intros [= <-].
  - destruct (_ <? offset); [done|]. pose proof (xmltv_event_accounted limits timezone st event offset Hst) as He.
    destruct (xmltv_event _ _ _ _ _ _ _ _ _ _ _ _) as [st1 [e|]]; [done|]. apply IH. by apply He.
  - done.
Qed.

Lemma xmltv_finish_grows (st : State) eof :
  let d := xmltv_finish st eof in
  grows (xs_document st) d 0 0 0 /\ bytes_read (xd_stats d) = eof /\
  forall missing, missing ∈ xs_referenced st ∖ xs_declared st -> warning UndeclaredChannel None None ∈ xd_diagnostics d.
Proof.
  unfold xmltv_finish. set (d0 := set_document_stats _ _).
  assert (grows (xs_document st) d0 0 0 0) as H0.
  { unfold grows. cbn. split_and!; try lia. exists []. rewrite app_nil_r. unfold skip_reports, zlen. cbn. split_and!; try done; lia. }
  set (step := fun d => push_xml_diagnostic d (warning UndeclaredChannel None None)).
  assert (forall n, grows (xs_document st) (Nat.iter n step d0) 0 0 0 /\ bytes_read (xd_stats (Nat.iter n step d0)) = eof) as Hn.
  { induction n as [|n [IH1 IH2]]; [done|]. cbn [Nat.iter]. split; [|done].
    eapply (grows_counted _ _ (0 + 0) (0 + 0) (0 + 0)); [eapply grows_trans; [exact IH1|apply grows_diagnostic]|done..]. }
  split_and!; [apply Hn|apply Hn|]. intros missing Hm.
  destruct (size (xs_referenced st ∖ xs_declared st)) as [|n] eqn:Es.
  - apply size_empty_inv in Es. set_solver.
  - cbn. apply elem_of_app. right. by left.
Qed.

(** C27. Every document that is read is accounted for: each record seen was given to
    a visitor, or skipped with a report, or the input ends inside it.  A
    visitor only gets channels with an identifier and programmes with a channel
    that do not stop before they start, and no programme twice; and records,
    bytes and reports are counted within the limits. *)
Theorem xmltv_accounts input limits timezone log d :
  parse_xmltv_visit url_parse from_hms_opt unescape programme_json sha256 log_channel log_programme input limits timezone []
  = (log, Ok d) ->
  (exists cut_off, 0 <= cut_off <= 1 /\
     records_seen (xd_stats d) = zlen log + records_skipped (xd_stats d) + cut_off) /\
  records_emitted (xd_stats d) = zlen log /\
  0 <= records_skipped (xd_stats d) <= skip_reports (xd_diagnostics d) /\
  warnings (xd_stats d) + errors (xd_stats d) = zlen (xd_diagnostics d) /\
  records_seen (xd_stats d) <= Z.max 0 (max_records limits) /\ bytes_read (xd_stats d) <= max_input_bytes limits /\
  Forall visited_ok log /\ NoDup (fingerprints log).
Proof.
  unfold parse_xmltv_visit. destruct (Xmltv.xmltv_loop _ _ _ _ _ _ _ _ _ _ _ _) as [st [[]|]] eqn:Er; [|done]. intros [= <- <-].
  apply xmltv_loop_accounted in Er as [Hst Heof].
  2:{ split; [|unfold opened; cbn; lia]. unfold account, opened, skip_reports, zlen. cbn. split_and!; try done; try lia. apply NoDup_nil_2. }
  destruct (xmltv_finish_grows st (xi_end input)) as (Hg & Hb & _). destruct Hst as [Hst Hone]. eapply account_grows in Hst; [|exact Hg].
  destruct Hst as (H1 & H2 & H3 & H4 & H5 & H6 & H7 & _). rewrite Hb. split_and!; try done; try lia.
  exists (opened st). split; [|lia]. split; [|done]. unfold opened. destruct (xs_channel st), (xs_programme st); lia.
Qed.
End Spec.

(** ** Timestamps *)

Definition is_digit (c : Z) : Prop := 0x30 <= c <= 0x39.

Lemma digit_facts c : is_digit c -> is_ascii_digit c = true /\ is_whitespace c = false /\ encode_char c = [c] /\ (c =? 0x3a) = false.
Proof.
  unfold is_digit. intros Hc. unfold is_ascii_digit, is_whitespace, encode_char.
  split_and!; [apply andb_true_intro; lia| | |by apply Z.eqb_neq; lia].
  - repeat (apply orb_false_intro); try (apply andb_false_iff; lia); apply Z.eqb_neq; lia.
  - by rewrite (proj2 (Z.ltb_lt c 128)) by lia.
Qed.

Lemma digits_ascii s : Forall is_digit s -> forallb is_ascii_digit s = true /\ utf8_len s = zlen s.
Proof.
  induction 1 as [|c s Hc Hs [IH1 IH2]]; [done|]. apply digit_facts in Hc as (H1 & _ & H2 & _). cbn. rewrite H1. split; [done|].
  unfold utf8_len, to_utf8 in *. cbn. rewrite H2. unfold zlen in *. cbn. lia.
Qed.

Lemma split_words_word word w s :
  Forall (fun c => is_whitespace c = false) w -> split_words word (w ++ s) = split_words (rev w ++ word) s.
Proof.
  intros Hw. revert word. induction Hw as [|c w Hc Hw IH]; intros word; [done|]. cbn. rewrite Hc, IH. by rewrite <- app_assoc.
Qed.

(** A text of words without white space around it. *)
Lemma trim_word c w z : is_whitespace c = false -> is_whitespace z = false -> trim (c :: w ++ [z]) = c :: w ++ [z].
Proof.
  intros Hc Hz. unfold trim. rewrite trim_start_app by done. change (c :: w ++ [z]) with ((c :: w) ++ [z]).
  rewrite (trim_end_app (c :: w) z []) by done.
  by rewrite trim_end_nil by constructor.
Qed.

Lemma split_one w : w <> [] -> Forall (fun c => is_whitespace c = false) w -> split_whitespace (trim w) = [w].
Proof.
  intros Hne Hw. assert (trim w = w) as ->.
  { destruct w as [|c w]; [done|]. apply Forall_cons in Hw as [Hc Hw]. destruct w as [|z w _] using rev_ind.
    - unfold trim. rewrite trim_start_app by done. change [c] with ([] ++ [c]). rewrite (trim_end_app [] c []) by done. by rewrite trim_end_nil by constructor.
    - apply Forall_app in Hw as [_ Hz]. apply Forall_cons in Hz as [Hz _]. by apply trim_word. }
  unfold split_whitespace. rewrite <- (app_nil_r w) at 1. rewrite split_words_word by done. cbn [split_words].
  rewrite app_nil_r. destruct (rev w) eqn:E; [|by rewrite <- E, rev_involutive].
  apply (f_equal (@rev Z)) in E. by rewrite rev_involutive in E.
Qed.

Lemma split_two w z :
  w <> [] -> z <> [] -> Forall (fun c => is_whitespace c = false) w -> Forall (fun c => is_whitespace c = false) z ->
  split_whitespace (trim (w ++ 0x20 :: z)) = [w; z].
Proof.
  intros Hw Hz Fw Fz. assert (trim (w ++ 0x20 :: z) = w ++ 0x20 :: z) as ->.
  { destruct w as [|c w]; [done|]. destruct z as [|d z _] using rev_ind; [done|].
    apply Forall_cons in Fw as [Hc _]. apply Forall_app in Fz as [_ [Hd _]%Forall_cons].
    change ((c :: w) ++ 0x20 :: z ++ [d]) with (c :: w ++ (0x20 :: z) ++ [d]). rewrite app_assoc. by apply trim_word. }
  unfold split_whitespace. rewrite split_words_word by done. cbn [split_words]. change (is_whitespace 0x20) with true. cbn match.
  rewrite app_nil_r. destruct (rev w) as [|r rw] eqn:E.
  { apply (f_equal (@rev Z)) in E. by rewrite rev_involutive in E. }
  rewrite <- E, rev_involutive. f_equal. rewrite <- (app_nil_r z) at 1. rewrite split_words_word by done. cbn [split_words].
  rewrite app_nil_r. destruct (rev z) as [|r' rz] eqn:E'; [|by rewrite <- E', rev_involutive].
  apply (f_equal (@rev Z)) in E'. by rewrite rev_involutive in E'.
Qed.

Definition four_digits (n : Z) : text := two_digits (n / 100) ++ two_digits (n mod 100).
Definition print_timestamp (year month day hour minute second : Z) : text :=
  four_digits year ++ two_digits month ++ two_digits day ++ two_digits hour ++ two_digits minute ++ two_digits second.
Definition print_offset (negative : bool) (hours minutes : Z) : text :=
  (if negative then 0x2d else 0x2b) :: two_digits hours ++ two_digits minutes.

Lemma two_digits_ok n : 0 <= n <= 99 -> Forall is_digit (two_digits n) /\ digits_value (two_digits n) = n.
Proof.
  intros Hn. unfold two_digits, digits_value, is_digit. cbn [fold_left].
  pose proof (Z.div_mod n 10 ltac:(lia)). pose proof (Z.mod_pos_bound n 10 ltac:(lia)). split; [repeat constructor; lia|lia].
Qed.

Lemma four_digits_ok n : 0 <= n <= 9999 -> Forall is_digit (four_digits n) /\ digits_value (four_digits n) = n.
Proof.
  intros Hn. pose proof (Z.div_mod n 100 ltac:(lia)) as Hd. pose proof (Z.mod_pos_bound n 100 ltac:(lia)).
  destruct (two_digits_ok (n / 100)) as [H1 V1]; [lia|]. destruct (two_digits_ok (n mod 100)) as [H2 V2]; [lia|].
  split; [by apply Forall_app|]. unfold four_digits, digits_value in *. rewrite fold_left_app, V1.
  unfold two_digits in *. cbn [fold_left] in *. lia.
Qed.

Section TimestampSpec.
Context {Tz : Type} `{Chrono Tz} (from_hms_opt : Z -> Z -> Z -> option Z).

(** The instant of a local date and clock time at an offset, both in seconds. *)
Lemma parse_printed year month day hour minute second date clock (parts : text) (words : list text) default_timezone utc offset :
  0 <= year <= 9999 -> 0 <= month <= 99 -> 0 <= day <= 99 -> 0 <= hour <= 99 -> 0 <= minute <= 99 -> 0 <= second <= 99 ->
  from_ymd_opt year month day = Some date -> from_hms_opt hour minute second = Some clock ->
  let digits := print_timestamp year month day hour minute second in
  split_whitespace (trim (digits ++ parts)) = digits :: words -> (length words <= 1)%nat ->
  resolve_zone digits (default default_timezone (head words)) date clock = Ok (utc, offset) ->
  parse_xmltv_timestamp_in_timezone from_hms_opt (digits ++ parts) default_timezone
  = Ok (mkXmltvTimestamp utc PSecond offset (bool_decide (words = [])) (digits ++ parts)).
Proof.
  intros Hy Hmo Hd Hh Hmi Hs Hdate Hclock digits Hsplit Hwords Hzone. unfold parse_xmltv_timestamp_in_timezone. rewrite Hsplit.
  destruct (four_digits_ok year Hy) as [Fy Vy]. destruct (two_digits_ok month Hmo) as [Fmo Vmo].
  destruct (two_digits_ok day Hd) as [Fd Vd]. destruct (two_digits_ok hour Hh) as [Fh Vh].
  destruct (two_digits_ok minute Hmi) as [Fmi Vmi]. destruct (two_digits_ok second Hs) as [Fs Vs].
  assert (Forall is_digit digits) as Fdig by (unfold digits, print_timestamp; by rewrite !Forall_app).
  apply digits_ascii in Fdig as [-> ->]. change (zlen digits) with 14. cbn [negb].
  change (precision_of 14) with (Some PSecond). cbn beta iota.
  change (digits_value (ztake 4 digits)) with (digits_value (four_digits year)). rewrite Vy.
  change (digits_at digits 4 6 1) with (digits_value (two_digits month)). rewrite Vmo.
  change (digits_at digits 6 8 1) with (digits_value (two_digits day)). rewrite Vd.
  change (digits_at digits 8 10 0) with (digits_value (two_digits hour)). rewrite Vh.
  change (digits_at digits 10 12 0) with (digits_value (two_digits minute)). rewrite Vmi.
  change (digits_at digits 12 14 0) with (digits_value (two_digits second)). rewrite Vs.
  rewrite Hdate. cbn [mbind option_bind]. rewrite Hclock. cbn [mbind option_bind].
  destruct words as [|zone [|]]; cbn [length] in Hwords; [| |lia]; by rewrite Hzone.
Qed.

Lemma digits_not_white s : Forall is_digit s -> Forall (fun c => is_whitespace c = false) s.
Proof. intros Hs. eapply Forall_impl; [exact Hs|]. by intros c (_ & Hc & _)%digit_facts. Qed.

Lemma print_timestamp_digits year month day hour minute second :
  0 <= year <= 9999 -> 0 <= month <= 99 -> 0 <= day <= 99 -> 0 <= hour <= 99 -> 0 <= minute <= 99 -> 0 <= second <= 99 ->
  Forall is_digit (print_timestamp year month day hour minute second).
Proof.
  intros. unfold print_timestamp. rewrite !Forall_app. split_and!; first [by apply four_digits_ok|by apply two_digits_ok].
Qed.

Lemma parse_offset_printed negative hours minutes :
  0 <= hours <= 23 -> 0 <= minutes <= 59 ->
  parse_offset (print_offset negative hours minutes) = Some ((if negative then -1 else 1) * (hours * 3600 + minutes * 60)).
Proof.
  intros Hh Hm. destruct (two_digits_ok hours) as [Fh Vh]; [lia|]. destruct (two_digits_ok minutes) as [Fm Vm]; [lia|].
  set (sign := if negative then 0x2d else 0x2b). set (tail := two_digits hours ++ two_digits minutes).
  assert (Forall is_digit tail) as Ft by (by apply Forall_app).
  assert (List.filter (fun c => negb (c =? 0x3a)) (print_offset negative hours minutes) = sign :: tail) as Hc.
  { unfold print_offset. fold tail. fold sign. cbn [List.filter]. assert ((sign =? 0x3a) = false) as -> by (unfold sign; by destruct negative).
    cbn [negb]. f_equal. clear -Ft. induction Ft as [|c s Hc Hs IH]; [done|]. cbn. apply digit_facts in Hc as (_ & _ & _ & ->). cbn. by rewrite IH. }
  unfold parse_offset. rewrite Hc. cbn zeta. destruct (digits_ascii tail Ft) as [Ha Hl].
  assert (utf8_len (sign :: tail) = 5) as ->.
  { unfold utf8_len in *. change (to_utf8 (sign :: tail)) with (encode_char sign ++ to_utf8 tail). rewrite zlen_app, Hl.
    unfold sign. by destruct negative. }
  change (List.tl (sign :: tail)) with tail. rewrite Ha. cbn [negb orb Z.eqb].
  change (ztake 2 (zdrop 1 (sign :: tail))) with (two_digits hours). change (ztake 2 (zdrop 3 (sign :: tail))) with (two_digits minutes).
  rewrite Vh, Vm. destruct (Z.ltb_spec 23 hours); [lia|]. destruct (Z.ltb_spec 59 minutes); [lia|]. cbn [orb].
  unfold sign. by destruct negative.
Qed.

(** A time stamp is read back: of a date and a clock time that the calendar has,
    written with an offset, the instant is the local time less the offset,
    whatever the default zone; and without an offset it is in UTC, if that is
    the default. *)
Theorem timestamps_read_back year month day hour minute second date clock negative hours minutes default_timezone :
  0 <= year <= 9999 -> 0 <= month <= 99 -> 0 <= day <= 99 -> 0 <= hour <= 99 -> 0 <= minute <= 99 -> 0 <= second <= 99 ->
  0 <= hours <= 23 -> 0 <= minutes <= 59 ->
  from_ymd_opt year month day = Some date -> from_hms_opt hour minute second = Some clock ->
  let digits := print_timestamp year month day hour minute second in
  let zoned := digits ++ 0x20 :: print_offset negative hours minutes in
  let offset := (if negative then -1 else 1) * (hours * 3600 + minutes * 60) in
  parse_xmltv_timestamp_in_timezone from_hms_opt zoned default_timezone
  = Ok (mkXmltvTimestamp (nanos_of_seconds (date * seconds_per_day + clock - offset)) PSecond offset false zoned) /\
  parse_xmltv_timestamp from_hms_opt digits
  = Ok (mkXmltvTimestamp (nanos_of_seconds (date * seconds_per_day + clock)) PSecond 0 true digits).
Proof.
  intros Hy Hmo Hd Hh Hmi Hs Hoh Hom Hdate Hclock digits zoned offset.
  assert (Forall (fun c => is_whitespace c = false) digits) as Fd by (by apply digits_not_white, print_timestamp_digits).
  split.
  - apply (parse_printed _ _ _ _ _ _ date clock _ [print_offset negative hours minutes]); try done.
    + apply split_two; try done. constructor; [by destruct negative|].
      apply digits_not_white, Forall_app. split; apply two_digits_ok; lia.
    + change (default _ (head _)) with (print_offset negative hours minutes). unfold resolve_zone. rewrite (parse_offset_printed negative hours minutes) by done. by destruct negative.
  - unfold parse_xmltv_timestamp. rewrite <- (app_nil_r digits) at 1 2.
    apply (parse_printed _ _ _ _ _ _ date clock [] []); try done; try (cbn; lia). rewrite app_nil_r. by apply split_one.
Qed.
End TimestampSpec.
