(* ===== verification/Settings.v ===== *)
(** * Settings and regions

    [crates/domain/src/config.rs]: the catalogue of settings, their validation
    and their inheritance; and the region prefixes of
    [crates/domain/src/regions.rs].  A value is a JSON value of [serde_json]:
    an integer is one in the range of [i64] and [u64], any other number is a
    float.  Labels and descriptions, which nothing reads, are left out. *)
From Stdlib Require Import ZArith Lia Floats.SpecFloat.
From stdpp Require Import base numbers option strings.
From stdpp Require Import list gmap.
From S2P Require Import Prelude Text Sort.
Open Scope Z_scope.

(** ** Values *)

#[warnings="-register-all"]
Inductive Value :=
| JNull
| JBool (b : bool)
| JInteger (z : Z)
| JFloat (f : spec_float)
| JString (s : text)
| JArray (l : list Value)
| JObject (fields : list (text * Value)).

Definition as_i64 (value : Value) : option Z :=
  match value with JInteger z => if (i64_min <=? z) && (z <=? i64_max) then Some z else None | _ => None end.
Definition as_u64 (value : Value) : option Z :=
  match value with JInteger z => if (0 <=? z) && (z <=? u64_max) then Some z else None | _ => None end.
Definition as_str (value : Value) : option text := match value with JString s => Some s | _ => None end.
Definition is_boolean (value : Value) : bool := match value with JBool _ => true | _ => false end.

(** ** Definitions *)

Inductive SettingValueKind := BooleanKind | IntegerKind | StringKind | ChoiceKind.
Inductive SettingRisk := Low | Capacity | Compatibility | ServiceDisruption | Security.
Inductive ApplyRequirement := Immediate | Restart | Reimport.

Record SettingDefinition := mkSettingDefinition {
  sd_key : text;
  sd_value_kind : SettingValueKind;
  sd_default_value : Value;
  sd_minimum : option Z;
  sd_maximum : option Z;
  sd_choices : list text;
  sd_unit : option text;
  sd_risk : SettingRisk;
  sd_apply_requirement : ApplyRequirement;
  sd_provider_overridable : bool;
  sd_group_overridable : bool
}.

Inductive InheritanceSource := SystemDefault | Global | ProviderOverride (id : text) | ChannelGroup (id : text).

Record EffectiveSetting := mkEffectiveSetting {
  es_definition : SettingDefinition;
  es_value : Value;
  es_inherited_from : InheritanceSource
}.

Inductive SettingValidationError :=
| UnknownSetting (key : text)
| WrongType (key : text) (expected : string)
| OutOfRange (key : text) (minimum maximum : Z)
| InvalidChoice (key : text) (choices : list text)
| ProviderOverrideForbidden (key : text)
| GroupOverrideForbidden (key : text).

(** [SettingDefinition::validate] *)
Definition validate (definition : SettingDefinition) (value : Value) : result unit SettingValidationError :=
  let wrong_type expected := Err (WrongType (sd_key definition) expected) in
  match sd_value_kind definition with
  | BooleanKind => if is_boolean value then Ok tt else wrong_type "a boolean"%string
  | IntegerKind =>
      match as_i64 value with
      | None => wrong_type "an integer"%string
      | Some value =>
          let minimum := default i64_min (sd_minimum definition) in
          let maximum := default i64_max (sd_maximum definition) in
          if (minimum <=? value) && (value <=? maximum) then Ok tt
          else Err (OutOfRange (sd_key definition) minimum maximum)
      end
  | StringKind => match as_str value with Some _ => Ok tt | None => wrong_type "a string"%string end
  | ChoiceKind =>
      match as_str value with
      | None => wrong_type "a string choice"%string
      | Some value =>
          if bool_decide (value ∈ sd_choices definition) then Ok tt
          else Err (InvalidChoice (sd_key definition) (sd_choices definition))
      end
  end.

Record SettingOverrides := mkSettingOverrides {
  so_global : gmap text Value;
  so_provider : gmap text Value;
  so_group : gmap text Value
}.

(** ** The catalogue *)

Definition integer_setting (key : string) (default_value minimum maximum : Z) (unit : string) (risk : SettingRisk)
  (apply : ApplyRequirement) (provider group : bool) : SettingDefinition :=
  mkSettingDefinition (str key) IntegerKind (JInteger default_value) (Some minimum) (Some maximum) [] (Some (str unit)) risk
    apply provider group.
Definition choice_setting (key default_value : string) (choices : list string) (risk : SettingRisk)
  (apply : ApplyRequirement) (provider group : bool) : SettingDefinition :=
  mkSettingDefinition (str key) ChoiceKind (JString (str default_value)) None None (List.map str choices) None risk apply
    provider group.
Definition string_setting (key default_value : string) (risk : SettingRisk) (apply : ApplyRequirement)
  (provider group : bool) : SettingDefinition :=
  mkSettingDefinition (str key) StringKind (JString (str default_value)) None None [] None risk apply provider group.

Definition setting_catalog : list SettingDefinition :=
  [integer_setting "ingest.max_download_bytes" 2147483648 1048576 8589934592 "bytes" Capacity Reimport true false;
   integer_setting "ingest.max_m3u_line_bytes" 1048576 4096 16777216 "bytes" Capacity Reimport true false;
   integer_setting "media.ring.duration_seconds" 8 1 120 "seconds" Capacity Immediate true false;
   integer_setting "media.ring.max_bytes" 67108864 1048576 1073741824 "bytes per channel" Capacity Immediate true false;
   integer_setting "media.viewer.start_delay_seconds" 30 0 30 "seconds" Low Immediate true false;
   integer_setting "media.recovery.window_seconds" 10 0 60 "seconds" Compatibility Immediate true false;
   choice_setting "media.adapter" "auto" ["auto"; "native-ts"; "ffmpeg"; "vlc"] Compatibility Immediate true false;
   integer_setting "events.inferred_duration_seconds" 10800 300 86400 "seconds" Low Reimport true true;
   string_setting "events.filler_title" "No programs available" Low Reimport true true]%string.

(** ** Inheritance *)

(** The value of one definition and where it comes from. *)
Definition inherit (overrides : SettingOverrides) (provider_id group_id : text) (definition : SettingDefinition)
  : result (Value * InheritanceSource) SettingValidationError :=
  let key := sd_key definition in
  match so_group overrides !! key with
  | Some value =>
      if sd_group_overridable definition then Ok (value, ChannelGroup group_id) else Err (GroupOverrideForbidden key)
  | None =>
      match so_provider overrides !! key with
      | Some value =>
          if sd_provider_overridable definition then Ok (value, ProviderOverride provider_id)
          else Err (ProviderOverrideForbidden key)
      | None =>
          match so_global overrides !! key with
          | Some value => Ok (value, Global)
          | None => Ok (sd_default_value definition, SystemDefault)
          end
      end
  end.

Definition effective (overrides : SettingOverrides) (provider_id group_id : text) (definition : SettingDefinition)
  : result EffectiveSetting SettingValidationError :=
  match inherit overrides provider_id group_id definition with
  | Err e => Err e
  | Ok (value, inherited_from) =>
      match validate definition value with
      | Err e => Err e
      | Ok _ => Ok (mkEffectiveSetting definition value inherited_from)
      end
  end.

(** [collect] into a [Result]: the first error. *)
Fixpoint collect_results {A E} (l : list (result A E)) : result (list A) E :=
  match l with
  | [] => Ok []
  | Err e :: _ => Err e
  | Ok a :: l => match collect_results l with Ok rest => Ok (a :: rest) | Err e => Err e end
  end.

(** The keys of a map in order. *)
Definition sorted_keys (m : gmap text Value) : list text := Sort.stable_sort (fun a b => negb (text_le b a)) (map_to_list m).*1.

(** [resolve_settings] *)
Definition resolve_settings (overrides : SettingOverrides) (provider_id group_id : text)
  : result (list EffectiveSetting) SettingValidationError :=
  let known key := existsb (fun definition => bool_decide (sd_key definition = key)) setting_catalog in
  match List.find (fun key => negb (known key))
          (sorted_keys (so_global overrides) ++ sorted_keys (so_provider overrides) ++ sorted_keys (so_group overrides)) with
  | Some key => Err (UnknownSetting key)
  | None => collect_results (List.map (effective overrides provider_id group_id) setting_catalog)
  end.

(** ** Regions *)

Definition REGION_PREFIXES : list string :=
  ["US"; "USA"; "CAN"; "EN"; "UK"; "AU"; "NZ"; "LA"; "BR"; "ESP"; "PT"; "IT"; "FR"; "QC"; "DE"; "AT"; "CH"; "NL"; "BE"; "SE";
   "DK"; "NO"; "FI"; "SCAN"; "IS"; "PL"; "GR"; "BG"; "RO"; "HU"; "CZ"; "SK"; "SL"; "AL"; "RS"; "HR"; "MK"; "BH"; "KO";
   "EXYU"; "RU"; "BY"; "UKR"; "LT"; "LV"; "EE"; "EST"; "TR"; "IR"; "ARA"; "AF"; "AFRICAN"; "AFG"; "IN"; "PK"; "LK"; "BAN";
   "PH"; "ID"; "TH"; "VT"; "MY"; "SG"; "HK"; "CN"; "JP"; "SK"; "TW"; "KA"; "GLOBAL"; "MULTI"; "EU"; "SPT"; "MU"]%string.

(** The arms of the match: timezones and prefixes. *)
Definition timezone_regions : list (list string * list string) :=
  [(["America/New_York"; "America/Denver"; "America/Chicago"; "America/Los_Angeles"; "America/Phoenix"; "America/Detroit";
     "America/Toronto"; "America/Vancouver"; "America/Edmonton"; "America/Halifax"; "America/Winnipeg"; "America/Saskatoon";
     "US/Eastern"; "US/Central"; "US/Mountain"; "US/Pacific"; "US/Arizona"; "Canada/Eastern"; "Canada/Central";
     "Canada/Mountain"; "Canada/Pacific"], ["US"; "USA"; "CAN"; "EN"; "LA"]);
   (["America/Mexico_City"; "America/Bogota"; "America/Lima"; "America/Buenos_Aires"; "America/Santiago";
     "America/Sao_Paulo"; "America/Caracas"; "America/Guatemala"; "America/Havana"], ["LA"; "BR"; "ES"; "PT"]);
   (["Europe/London"; "Europe/Dublin"; "GMT"; "Etc/GMT"; "Atlantic/Reykjavik"], ["UK"; "EN"]);
   (["Europe/Paris"; "Europe/Brussels"; "Europe/Amsterdam"; "Europe/Luxembourg"; "Europe/Madrid"; "Europe/Lisbon"; "CET"],
    ["FR"; "QC"; "ESP"; "PT"; "NL"; "BE"; "EN"]);
   (["Europe/Berlin"; "Europe/Vienna"; "Europe/Zurich"; "Europe/Rome"; "Europe/Athens"; "Europe/Malta"],
    ["DE"; "AT"; "CH"; "IT"; "GR"; "EN"]);
   (["Europe/Stockholm"; "Europe/Copenhagen"; "Europe/Oslo"; "Europe/Helsinki"; "Europe/Tallinn"],
    ["SE"; "DK"; "NO"; "FI"; "SCAN"; "EN"]);
   (["Europe/Warsaw"; "Europe/Budapest"; "Europe/Prague"; "Europe/Sofia"; "Europe/Bucharest"; "Europe/Bratislava";
     "Europe/Ljubljana"; "Europe/Zagreb"; "Europe/Belgrade"; "Europe/Skopje"; "Europe/Sarajevo"; "Europe/Podgorica";
     "Europe/Tirane"; "Europe/Vilnius"; "Europe/Riga"; "Europe/Kiev"],
    ["PL"; "CZ"; "SK"; "HU"; "BG"; "RO"; "SL"; "EXYU"; "AL"; "LT"; "LV"; "UKR"]);
   (["Europe/Moscow"; "Europe/Kaliningrad"; "Europe/Minsk"; "Asia/Yekaterinburg"; "Asia/Novosibirsk"; "Asia/Vladivostok"],
    ["RU"; "BY"; "UKR"]);
   (["Asia/Jerusalem"; "Asia/Riyadh"; "Asia/Dubai"; "Asia/Qatar"; "Asia/Kuwait"; "Asia/Bahrain"; "Asia/Baghdad";
     "Asia/Beirut"; "Asia/Damascus"; "Asia/Amman"; "Africa/Cairo"], ["ARA"; "IS"; "TR"]);
   (["Europe/Istanbul"], ["TR"; "ARA"; "EN"]);
   (["Asia/Tehran"], ["IR"; "TR"; "ARA"]);
   (["Asia/Kolkata"; "Asia/Karachi"; "Asia/Dhaka"; "Asia/Colombo"; "Asia/Kathmandu"], ["IN"; "PK"; "BAN"; "LK"; "EN"]);
   (["Asia/Bangkok"; "Asia/Jakarta"; "Asia/Manila"; "Asia/Singapore"; "Asia/Kuala_Lumpur"; "Asia/Ho_Chi_Minh"],
    ["TH"; "ID"; "PH"; "MY"; "SG"; "VT"; "EN"]);
   (["Asia/Tokyo"; "Asia/Seoul"; "Asia/Shanghai"; "Asia/Hong_Kong"; "Asia/Taipei"; "Asia/Ulaanbaatar"],
    ["JP"; "SK"; "CN"; "HK"; "TW"; "EN"]);
   (["Asia/Almaty"; "Asia/Tashkent"; "Asia/Baku"; "Asia/Yerevan"; "Asia/Tbilisi"], ["KA"; "RU"; "EN"]);
   (["Africa/Johannesburg"; "Africa/Lagos"; "Africa/Nairobi"; "Africa/Casablanca"; "Africa/Accra"; "Africa/Addis_Ababa";
     "Africa/Algiers"; "Africa/Tunis"; "Africa/Dakar"], ["AF"; "AFRICAN"; "ARA"; "FR"; "EN"]);
   (["Australia/Sydney"; "Australia/Melbourne"; "Australia/Brisbane"; "Australia/Perth"; "Pacific/Auckland"; "Pacific/Fiji"],
    ["AU"; "NZ"; "EN"])]%string.
Definition fallback_region : list string := ["US"; "USA"; "EN"; "UK"; "GLOBAL"]%string.

Definition push_missing (prefixes : list string) (prefix : string) : list string :=
  if bool_decide (prefix ∈ prefixes) then prefixes else prefixes ++ [prefix].

Definition suggested_prefixes_for_timezone (timezone : string) : list string :=
  let regional :=
    match List.find (fun arm => bool_decide (timezone ∈ fst arm)) timezone_regions with
    | Some arm => snd arm
    | None => fallback_region
    end in
  fold_left push_missing ["GLOBAL"; "MULTI"; "SPT"]%string regional.

(** ** Theorems *)

Lemma sorted_keys_spec (m : gmap text Value) key : key ∈ sorted_keys m <-> is_Some (m !! key).
Proof.
  unfold sorted_keys. destruct (stable_sort_acc text_le text_le_total text_le_trans (map_to_list m).*1 []) as [Hp _].
  change (fold_left _ (map_to_list m).*1 []) with (stable_sort (fun a b => negb (text_le b a)) (map_to_list m).*1) in Hp.
  rewrite Hp, app_nil_r. rewrite list_elem_of_fmap. split.
  - intros ([k v] & -> & Hin). apply elem_of_map_to_list in Hin. by exists v.
  - intros [v Hv]. exists (key, v). split; [done|]. by apply elem_of_map_to_list.
Qed.

(** A valid value in the words of the catalogue. *)
Definition value_fits (definition : SettingDefinition) (value : Value) : Prop :=
  match sd_value_kind definition with
  | BooleanKind => exists b, value = JBool b
  | IntegerKind =>
      exists z, value = JInteger z /\ i64_min <= z <= i64_max /\
        (forall low, sd_minimum definition = Some low -> low <= z) /\ (forall high, sd_maximum definition = Some high -> z <= high)
  | StringKind => exists s, value = JString s
  | ChoiceKind => exists s, value = JString s /\ s ∈ sd_choices definition
  end.

Lemma in_range_ok {E} (low high z : Z) (e : E) :
  (if (low <=? z) && (z <=? high) then Ok tt else Err e) = Ok tt <-> low <= z <= high.
Proof. destruct (Z.leb_spec low z), (Z.leb_spec z high); cbn; split; try done; lia. Qed.

Lemma validate_fits definition value : validate definition value = Ok tt <-> value_fits definition value.
Proof.
  unfold validate, value_fits. destruct (sd_value_kind definition).
  - destruct value; cbn; naive_solver.
  - destruct value as [| |z| | | |]; cbn; try naive_solver.
    destruct (Z.leb_spec i64_min z), (Z.leb_spec z i64_max); cbn; try (split; [done|intros (? & [= <-] & ? & _); lia]).
    rewrite in_range_ok. split.
    + intros Hr. exists z. split_and!; try done; intros bound Hb; rewrite Hb in Hr; cbn in Hr; lia.
    + intros (? & [= <-] & _ & Hlow & Hhigh).
      destruct (sd_minimum definition) as [low|], (sd_maximum definition) as [high|]; cbn; split; auto.
  - destruct value; cbn; naive_solver.
  - destruct value; cbn; try naive_solver. case_bool_decide; naive_solver.
Qed.

Lemma catalog_defaults_fit : Forall (fun d => value_fits d (sd_default_value d)) setting_catalog.
Proof.
  assert (forallb (fun d => match validate d (sd_default_value d) with Ok _ => true | Err _ => false end) setting_catalog = true)
    as Hall by (vm_compute; reflexivity).
  rewrite forallb_forall in Hall. apply Forall_forall. intros d Hd%list_elem_of_In. specialize (Hall d Hd).
  apply validate_fits. by destruct (validate d (sd_default_value d)) as [[]|].
Qed.

Lemma collect_results_Ok {A E} (l : list (result A E)) r :
  collect_results l = Ok r <-> l = List.map Ok r.
Proof.
  revert r. induction l as [|[a|e] l IH]; intros r; cbn.
  - destruct r; cbn; naive_solver.
  - destruct r as [|b r]; cbn; [by destruct (collect_results l)|]. specialize (IH r).
    destruct (collect_results l) as [rest|e]; split; intros Heq; try done.
    + injection Heq as -> ->. f_equal. by apply IH.
    + injection Heq as -> Hl. apply IH in Hl. by injection Hl as ->.
    + injection Heq as -> Hl. by apply IH in Hl.
  - destruct r; naive_solver.
Qed.

Lemma map_Ok_Forall2 {A B E} (f : A -> result B E) l r :
  List.map f l = List.map Ok r -> Forall2 (fun a b => f a = Ok b) l r.
Proof.
  revert r. induction l as [|a l IH]; intros [|b r] Hm; try discriminate Hm; [constructor|].
  injection Hm as Ha Hm. constructor; [done|by apply IH].
Qed.

Lemma catalog_keys_NoDup : NoDup (List.map sd_key setting_catalog).
Proof. apply (bool_decide_eq_true_1 _). vm_compute. reflexivity. Qed.

(** The rules of inheritance: the value of the nearest scope that has one. *)
Definition nearest (overrides : SettingOverrides) (provider_id group_id : text) (d : SettingDefinition)
  : Value * InheritanceSource :=
  default (sd_default_value d, SystemDefault)
    (head (omap id
       [(fun v => (v, ChannelGroup group_id)) <$> so_group overrides !! sd_key d;
        (fun v => (v, ProviderOverride provider_id)) <$> so_provider overrides !! sd_key d;
        (fun v => (v, Global)) <$> so_global overrides !! sd_key d])).

Lemma inherit_nearest overrides provider_id group_id d :
  match inherit overrides provider_id group_id d with
  | Ok value => value = nearest overrides provider_id group_id d
  | Err e =>
      (e = GroupOverrideForbidden (sd_key d) /\ is_Some (so_group overrides !! sd_key d) /\ sd_group_overridable d = false) \/
      (e = ProviderOverrideForbidden (sd_key d) /\ is_Some (so_provider overrides !! sd_key d) /\
       sd_provider_overridable d = false)
  end.
Proof.
  unfold inherit, nearest. destruct (so_group overrides !! sd_key d) as [v|]; cbn.
  { destruct (sd_group_overridable d); [done|]. left. by eauto. }
  destruct (so_provider overrides !! sd_key d) as [v|]; cbn.
  { destruct (sd_provider_overridable d); [done|]. right. by eauto. }
  by destruct (so_global overrides !! sd_key d).
Qed.

Lemma effective_spec overrides provider_id group_id d s :
  effective overrides provider_id group_id d = Ok s ->
  es_definition s = d /\ inherit overrides provider_id group_id d = Ok (es_value s, es_inherited_from s) /\
  value_fits d (es_value s).
Proof.
  unfold effective. destruct (inherit _ _ _ d) as [[v f]|]; [|done].
  destruct (validate d v) as [[]|] eqn:Ev; [|done]. intros [= <-]. by apply validate_fits in Ev.
Qed.

Lemma resolved_settings overrides provider_id group_id settings :
  resolve_settings overrides provider_id group_id = Ok settings ->
  List.map es_definition settings = setting_catalog /\
  Forall (fun s => (es_value s, es_inherited_from s) = nearest overrides provider_id group_id (es_definition s) /\
                   value_fits (es_definition s) (es_value s)) settings /\
  Forall2 (fun d s => effective overrides provider_id group_id d = Ok s) setting_catalog settings.
Proof.
  unfold resolve_settings. destruct (List.find _ _) as [key|]; [done|]. intros Hall%collect_results_Ok%map_Ok_Forall2.
  split_and!; [|apply Forall_forall; intros s Hs|done].
  - revert Hall. generalize setting_catalog. induction 1 as [|d s l k Hd Hl IH]; cbn; [done|].
    apply effective_spec in Hd as [-> _]. by rewrite IH.
  - apply list_elem_of_lookup in Hs as [i Hi]. destruct (Forall2_lookup_r _ _ _ _ _ Hall Hi) as (d & _ & Hd).
    apply effective_spec in Hd as (<- & Hin & Hfit).
    pose proof (inherit_nearest overrides provider_id group_id (es_definition s)) as Hn. by rewrite Hin in Hn.
Qed.

(** When the settings resolve, there is one effective setting for each entry of
    the catalogue, in order, with the value of the nearest scope that overrides
    it, and every value is of the kind and in the range its definition asks for;
    no override has an unknown key or a scope that its setting forbids. *)
Theorem settings_resolve overrides provider_id group_id settings :
  resolve_settings overrides provider_id group_id = Ok settings ->
  List.map es_definition settings = setting_catalog /\
  Forall (fun s => (es_value s, es_inherited_from s) = nearest overrides provider_id group_id (es_definition s) /\
                   value_fits (es_definition s) (es_value s)) settings /\
  (forall key, is_Some (so_global overrides !! key) \/ is_Some (so_provider overrides !! key) \/ is_Some (so_group overrides !! key) ->
     exists s, s ∈ settings /\ sd_key (es_definition s) = key /\
       (is_Some (so_group overrides !! key) -> sd_group_overridable (es_definition s) = true)).
Proof.
  intros Hresolve. pose proof (resolved_settings _ _ _ _ Hresolve) as (Hdefs & Hall & H2). split_and!; [done|done|].
  intros key Hkey. unfold resolve_settings in Hresolve. destruct (List.find _ _) as [bad|] eqn:Ef; [done|].
  assert (exists d, d ∈ setting_catalog /\ sd_key d = key) as (d & Hd & Hk).
  { assert (In key (sorted_keys (so_global overrides) ++ sorted_keys (so_provider overrides) ++ sorted_keys (so_group overrides)))
      as Hin by (apply list_elem_of_In; rewrite !elem_of_app, !sorted_keys_spec; tauto).
    pose proof (find_none _ _ Ef key Hin) as Hk.
    apply negb_false_iff, existsb_exists in Hk as (d & Hd & Hk%bool_decide_eq_true). exists d. by rewrite list_elem_of_In. }
  apply list_elem_of_lookup in Hd as [i Hi]. destruct (Forall2_lookup_l _ _ _ _ _ H2 Hi) as (s & Hs & He).
  exists s. apply effective_spec in He as (<- & Hin & _). split; [by eapply list_elem_of_lookup_2|]. split; [done|].
  unfold inherit in Hin. rewrite Hk in Hin. intros [v Hv]. rewrite Hv in Hin. by destruct (sd_group_overridable _).
Qed.

(** Without overrides the catalogue resolves to its defaults. *)
Lemma settings_default provider_id group_id :
  resolve_settings (mkSettingOverrides ∅ ∅ ∅) provider_id group_id =
  Ok (List.map (fun d => mkEffectiveSetting d (sd_default_value d) SystemDefault) setting_catalog).
Proof. vm_compute. reflexivity. Qed.

(** *** Regions *)

Lemma push_missing_elem prefixes prefix p : p ∈ push_missing prefixes prefix <-> p ∈ prefixes \/ p = prefix.
Proof. unfold push_missing. case_bool_decide; set_solver. Qed.

(** The prefixes suggested for any timezone are distinct and have the
    international ones among them; all are known prefixes but [ES], which Latin
    America suggests. *)
Theorem suggested_prefixes_spec timezone :
  let prefixes := suggested_prefixes_for_timezone timezone in
  NoDup prefixes /\ Forall (fun p => p ∈ prefixes) ["GLOBAL"; "MULTI"; "SPT"]%string /\
  Forall (fun p => p ∈ REGION_PREFIXES \/ p = "ES"%string) prefixes.
Proof.
  cbn zeta. unfold suggested_prefixes_for_timezone.
  set (regional := match List.find _ _ with Some arm => _ | None => _ end).
  assert (regional ∈ fallback_region :: List.map snd timezone_regions) as Hin.
  { unfold regional. destruct (List.find _ timezone_regions) as [arm|] eqn:E; [|by left].
    right. apply find_some in E as [Hin _]. apply list_elem_of_In. by apply in_map. }
  clearbody regional.
  set (good := fun regional => let prefixes := fold_left push_missing ["GLOBAL"; "MULTI"; "SPT"]%string regional in
    bool_decide (NoDup prefixes) && forallb (fun p => bool_decide (p ∈ prefixes)) ["GLOBAL"; "MULTI"; "SPT"]%string &&
    forallb (fun p => bool_decide (p ∈ REGION_PREFIXES) || bool_decide (p = "ES"%string)) prefixes).
  assert (forallb good (fallback_region :: List.map snd timezone_regions) = true) as Hall by (vm_compute; reflexivity).
  rewrite forallb_forall in Hall. specialize (Hall regional (proj1 (list_elem_of_In _ _) Hin)).
  apply andb_true_iff in Hall as [[Hnd Hint]%andb_true_iff Hknown].
  split_and!; [by apply bool_decide_eq_true in Hnd| |]; apply Forall_forall; intros p Hp%list_elem_of_In.
  - rewrite forallb_forall in Hint. by apply Hint, bool_decide_eq_true in Hp.
  - rewrite forallb_forall in Hknown. apply Hknown, orb_true_iff in Hp. rewrite !bool_decide_eq_true in Hp. done.
Qed.
