(* ===== verification/Redact.v ===== *)
(** * Texts of errors and diagnostics

    The redaction of [crates/persistence/src/lib.rs]: what is stored as the
    error of a job and what leaves the control API of its progress holds no URL,
    no field that names a credential, and no unquoted value of a key that does. *)
From Stdlib Require Import ZArith Lia.
From stdpp Require Import base numbers option strings.
From stdpp Require Import list.
From S2P Require Import Prelude Text Settings.
Open Scope Z_scope.
Open Scope relay_scope.

Definition URL_MARK : text := str "[REDACTED_URL]".
Definition VALUE_MARK : text := str "[REDACTED]".
#[global] Arguments URL_MARK : simpl never.
#[global] Arguments VALUE_MARK : simpl never.

(** [s.to_ascii_lowercase().find(needle)] *)
Definition ascii_lower (s : text) : text := List.map to_ascii_lowercase s.
Definition find_lower (needle s : text) : option nat := (fun found => length (fst found)) <$> split_once_text needle (ascii_lower s).

(** The characters that end a URL, the value of a key and that of a header *)
Definition ends_url (c : Z) : bool := is_whitespace c || (c =? 0x27) || (c =? 0x22).
Definition ends_value (c : Z) : bool := (c =? 0x26) || (c =? 0x20) || (c =? 0x27) || (c =? 0x22).
Definition ends_header (c : Z) : bool := (c =? 13) || (c =? 10) || (c =? 0x27) || (c =? 0x22).

(** The text from the first character that satisfies [p] *)
Definition after_value (p : Z -> bool) (s : text) : text := drop_while (fun c => negb (p c)) s.

(** The loop over the URLs of a scheme: each turn searches the whole text. *)
Fixpoint redact_scheme (fuel : nat) (scheme s : text) : text :=
  match fuel with
  | O => s
  | S fuel =>
      match find_lower scheme s with
      | None => s
      | Some start => redact_scheme fuel scheme (take start s ++ URL_MARK ++ after_value ends_url (drop start s))
      end
  end.

(** The loop over the values of a key, from [search_from] on *)
Fixpoint redact_key (fuel : nat) (key s : text) : text :=
  match fuel with
  | O => s
  | S fuel =>
      match find_lower (key ++ str "=") s with
      | None => s
      | Some relative =>
          let start := (relative + length key + 1)%nat in
          take start s ++ VALUE_MARK ++ redact_key fuel key (after_value ends_value (drop start s))
      end
  end.

(** The loop over the values of a header *)
Fixpoint redact_header (fuel : nat) (label s : text) : text :=
  match fuel with
  | O => s
  | S fuel =>
      match find_lower label s with
      | None => s
      | Some relative =>
          let start := (relative + length label)%nat in
          let value := drop_while is_ascii_whitespace (drop start s) in
          let value_start := (length s - length value)%nat in
          take value_start s ++ VALUE_MARK ++ redact_header fuel label (after_value ends_header value)
      end
  end.

Definition url_schemes : list string := ["https://"; "http://"].
Definition credential_keys : list string :=
  ["username"; "password"; "token"; "auth"; "authorization"; "secret"; "credential"; "cookie"; "signature"; "session"; "api_key";
   "access_key"; "key"].
Definition credential_headers : list string :=
  ["authorization:"; "proxy-authorization:"; "cookie:"; "set-cookie:"; "x-api-key:"; "x-auth-token:"; "api-key:"].

(** [redact_error] and its three loops; a turn of a loop uses up a character at
    least. *)
Definition redact_urls (s : text) (schemes : list string) : text :=
  foldl (fun s scheme => redact_scheme (S (length s)) (str scheme) s) s schemes.
Definition mask_keys (s : text) (keys : list string) : text :=
  foldl (fun s key => redact_key (S (length s)) (str key) s) s keys.
Definition mask_headers (s : text) (labels : list string) : text :=
  foldl (fun s label => redact_header (S (length s)) (str label) s) s labels.
Definition redact_error (error : text) : text :=
  mask_headers (mask_keys (redact_urls (take 2048 error) url_schemes) credential_keys) credential_headers.

(** [categorize_error] *)
Definition categorize_error (error : text) : string :=
  let has needle := contains_text (str needle) (ascii_lower error) in
  if has "timeout" || has "timed out" then "timeout"
  else if has "cancelled" || has "canceled" then "cancelled"
  else if has "connect" || has "dns" || has "temporarily" || has "503" || has "502" || has "429" then "transient"
  else "permanent".

(** [sensitive_diagnostic_key] *)
Definition diagnostic_words : list string :=
  ["username"; "password"; "token"; "auth"; "secret"; "credential"; "cookie"; "header"; "url"; "uri"; "endpoint"; "processarg"; "argv";
   "argument"; "args"; "command"; "environment"; "apikey"; "accesskey"; "signature"; "sessionid"; "key"].
Definition ascii_alphanumeric_char (c : Z) : bool :=
  ((0x30 <=? c) && (c <=? 0x39)) || ((0x41 <=? c) && (c <=? 0x5a)) || ((0x61 <=? c) && (c <=? 0x7a)).
Definition sensitive_diagnostic_key (key : text) : bool :=
  let normalized := ascii_lower (List.filter ascii_alphanumeric_char key) in
  existsb (fun candidate => contains_text (str candidate) normalized) diagnostic_words.

(** [redact_diagnostics] *)
Fixpoint redact_diagnostics (value : Value) : Value :=
  match value with
  | JObject fields =>
      JObject (List.map (fun '(key, value) =>
        (key, if sensitive_diagnostic_key key then JString VALUE_MARK else redact_diagnostics value)) fields)
  | JArray values => JArray (List.map redact_diagnostics values)
  | JString s => JString (redact_error s)
  | scalar => scalar
  end.

(** ** Theorems *)

(** Where a text occurs. *)
Definition occurs (needle s : text) : Prop := exists before after, s = before ++ needle ++ after.
Definition free_of_urls (s : text) : Prop := Forall (fun scheme => ~ occurs (str scheme) (ascii_lower s)) url_schemes.

Lemma occurs_right needle a b : occurs needle b -> occurs needle (a ++ b).
Proof. intros (before & after & ->). exists (a ++ before), after. by rewrite <- app_assoc. Qed.
Lemma occurs_left needle a b : occurs needle a -> occurs needle (a ++ b).
Proof. intros (before & after & ->). exists before, (after ++ b). by rewrite <- !app_assoc. Qed.

(** An occurrence is on one side of a character that the needle has not. *)
Lemma occurs_split needle c x y : c ∉ needle -> occurs needle (x ++ c :: y) -> occurs needle x \/ occurs needle y.
Proof.
  intros Hc (before & after & Heq). apply app_eq_inv in Heq as [(k & -> & Heq)|(k & -> & Heq)].
  - apply app_eq_inv in Heq as [(l & -> & Heq)|(l & -> & Heq)].
    + destruct l as [|d l]; [left; exists before, []; by rewrite !app_nil_r|].
      injection Heq as <- _. destruct Hc. apply elem_of_app. right. by left.
    + left. exists before, l. done.
  - destruct k as [|c' k]; cbn in Heq.
    + destruct needle as [|d needle]; [right; exists [], y; done|]. injection Heq as <- _. destruct Hc. by left.
    + injection Heq as <- ->. right. by exists k, after.
Qed.

Lemma contains_occurs needle s : contains_text needle s = true <-> occurs needle s.
Proof.
  unfold contains_text. rewrite bool_decide_eq_true. split.
  - intros [[b a] H]. exists b, a. by apply split_once_text_Some in H.
  - intros (b & a & Hs). destruct (split_once_text needle s) as [p|] eqn:E; [by eexists|].
    by destruct (split_once_text_None needle s E b a).
Qed.

(** A needle that no mark brings in. *)
Definition unmarked (needle : text) : bool :=
  negb (existsb (fun c => (c =? 0x5b) || (c =? 0x5d)) needle) && negb (contains_text needle (str "redacted_url")) &&
  negb (contains_text needle (str "redacted")).

Lemma unmarked_brackets needle c : unmarked needle = true -> (c =? 0x5b) || (c =? 0x5d) = true -> c ∉ needle.
Proof.
  unfold unmarked. rewrite !andb_true_iff, !negb_true_iff. intros [[Hb _] _] Hc Hin.
  assert (existsb (fun c => (c =? 0x5b) || (c =? 0x5d)) needle = true); [|congruence].
  apply existsb_exists. exists c. split; [by apply list_elem_of_In|done].
Qed.

Lemma occurs_bracketed needle x word y :
  unmarked needle = true -> ~ occurs needle word -> occurs needle (x ++ (0x5b :: word ++ [0x5d]) ++ y) -> occurs needle x \/ occurs needle y.
Proof.
  intros Hn Hw. cbn. rewrite <- app_assoc. cbn. intros [?|Ho]%occurs_split; [by left| |by apply unmarked_brackets].
  apply occurs_split in Ho as [?|?]; [done|by right|by apply unmarked_brackets].
Qed.
Lemma occurs_url_mark needle x y :
  unmarked needle = true -> occurs needle (ascii_lower (x ++ URL_MARK ++ y)) -> occurs needle (ascii_lower x) \/ occurs needle (ascii_lower y).
Proof.
  intros Hn. unfold ascii_lower. rewrite !List.map_app. change (List.map to_ascii_lowercase URL_MARK) with (0x5b :: str "redacted_url" ++ [0x5d]).
  apply occurs_bracketed; [done|]. unfold unmarked in Hn. rewrite !andb_true_iff, !negb_true_iff in Hn. destruct Hn as [[_ Hn] _].
  rewrite <- contains_occurs. congruence.
Qed.
Lemma occurs_value_mark needle x y :
  unmarked needle = true -> occurs needle (ascii_lower (x ++ VALUE_MARK ++ y)) -> occurs needle (ascii_lower x) \/ occurs needle (ascii_lower y).
Proof.
  intros Hn. unfold ascii_lower. rewrite !List.map_app. change (List.map to_ascii_lowercase VALUE_MARK) with (0x5b :: str "redacted" ++ [0x5d]).
  apply occurs_bracketed; [done|]. unfold unmarked in Hn. rewrite !andb_true_iff, !negb_true_iff in Hn. destruct Hn as [_ Hn].
  rewrite <- contains_occurs. congruence.
Qed.

(** A redacted text has no needle that the text had not. *)
Definition brings_nothing (s s' : text) : Prop :=
  forall needle, unmarked needle = true -> occurs needle (ascii_lower s') -> occurs needle (ascii_lower s).

Lemma occurs_take needle n s : occurs needle (ascii_lower (take n s)) -> occurs needle (ascii_lower s).
Proof. intros Ho. rewrite <- (take_drop n s). unfold ascii_lower in *. rewrite List.map_app. by apply occurs_left. Qed.
Lemma occurs_drop needle n s : occurs needle (ascii_lower (drop n s)) -> occurs needle (ascii_lower s).
Proof. intros Ho. rewrite <- (take_drop n s). unfold ascii_lower in *. rewrite List.map_app. by apply occurs_right. Qed.
Lemma occurs_drop_while needle p s : occurs needle (ascii_lower (drop_while p s)) -> occurs needle (ascii_lower s).
Proof.
  intros Ho. destruct (drop_while_split p s) as (a & _ & Hs). rewrite Hs. unfold ascii_lower in *. rewrite List.map_app.
  by apply occurs_right.
Qed.

Lemma redact_scheme_brings fuel scheme s : brings_nothing s (redact_scheme fuel scheme s).
Proof.
  intros needle Hn. revert s. induction fuel as [|fuel IH]; intros s; cbn; [done|]. destruct (find_lower scheme s) as [start|]; [|done].
  intros Ho. apply IH, occurs_url_mark in Ho as [Ho|Ho]; [by eapply occurs_take| |done].
  by eapply occurs_drop, occurs_drop_while.
Qed.
Lemma redact_key_brings fuel key s : brings_nothing s (redact_key fuel key s).
Proof.
  intros needle Hn. revert s. induction fuel as [|fuel IH]; intros s; cbn; [done|]. destruct (find_lower _ s) as [start|]; [|done].
  intros [Ho|Ho]%occurs_value_mark; [by eapply occurs_take| |done]. by eapply occurs_drop, occurs_drop_while, IH.
Qed.
Lemma redact_header_brings fuel label s : brings_nothing s (redact_header fuel label s).
Proof.
  intros needle Hn. revert s. induction fuel as [|fuel IH]; intros s; cbn; [done|]. destruct (find_lower _ s) as [start|]; [|done].
  intros [Ho|Ho]%occurs_value_mark; [by eapply occurs_take| |done]. by eapply occurs_drop, occurs_drop_while, occurs_drop_while, IH.
Qed.

Lemma foldl_brings (f : text -> string -> text) :
  (forall s name, brings_nothing s (f s name)) -> forall names s, brings_nothing s (foldl f s names).
Proof.
  intros Hf names. induction names as [|name names IH]; intros s needle Hn; cbn; [done|]. intros Ho. apply IH in Ho; [|done].
  by eapply Hf.
Qed.
Lemma mask_keys_brings keys s : brings_nothing s (mask_keys s keys).
Proof. unfold mask_keys. apply foldl_brings. intros. apply redact_key_brings. Qed.
Lemma mask_headers_brings labels s : brings_nothing s (mask_headers s labels).
Proof. unfold mask_headers. apply foldl_brings. intros. apply redact_header_brings. Qed.

(** *** All URLs go *)

Definition colons (s : text) : nat := length (filter (fun c => c = 0x3a) s).

Lemma find_lower_Some needle s start :
  find_lower needle s = Some start -> exists mid rest, drop start s = mid ++ rest /\ ascii_lower mid = needle.
Proof.
  unfold find_lower. rewrite fmap_Some. intros ([b a] & Hs & ->). apply split_once_text_Some in Hs. cbn.
  exists (take (length needle) (drop (length b) s)), (drop (length needle) (drop (length b) s)). split; [by rewrite take_drop|].
  unfold ascii_lower in *. rewrite <- firstn_map, <- skipn_map, Hs. rewrite drop_app_length. by rewrite take_app_length.
Qed.
Lemma find_lower_None needle s : find_lower needle s = None -> ~ occurs needle (ascii_lower s).
Proof. unfold find_lower. rewrite fmap_None. intros Hs (b & a & Heq). by eapply split_once_text_None. Qed.

Lemma colons_app a b : colons (a ++ b) = (colons a + colons b)%nat.
Proof. unfold colons. by rewrite filter_app, length_app. Qed.
Lemma colons_drop_while p s : (colons (drop_while p s) <= colons s)%nat.
Proof. destruct (drop_while_split p s) as (a & _ & Hs). rewrite Hs at 2. rewrite colons_app. lia. Qed.
Lemma lower_colon s : 0x3a ∈ ascii_lower s -> (0 < colons s)%nat.
Proof.
  unfold ascii_lower. intros Hin. apply list_elem_of_In, in_map_iff in Hin as (c & Hc & Hin). apply list_elem_of_In in Hin.
  assert (c = 0x3a) as -> by (unfold to_ascii_lowercase in Hc; destruct ((65 <=? c) && (c <=? 90)) eqn:E; lia).
  unfold colons. assert (0x3a ∈ filter (fun c => c = 0x3a) s) as Hf by (by apply list_elem_of_filter).
  destruct (filter _ s); [by apply elem_of_nil in Hf|cbn; lia].
Qed.

(** The characters of a scheme end no URL. *)
Definition scheme_ok (scheme : text) : bool :=
  forallb (fun c => negb (ends_url c) && ((0x61 <=? c) && (c <=? 0x7a) || (c =? 0x3a) || (c =? 0x2f))) scheme &&
  existsb (fun c => c =? 0x3a) scheme.

Lemma scheme_kept scheme mid : scheme_ok scheme = true -> ascii_lower mid = scheme -> Forall (fun c => negb (ends_url c) = true) mid.
Proof.
  unfold scheme_ok. rewrite andb_true_iff, forallb_forall. intros [Hall _] <-. apply Forall_forall. intros c Hc.
  specialize (Hall (to_ascii_lowercase c)). rewrite andb_true_iff in Hall. destruct Hall as [Hends Hset].
  { apply in_map_iff. exists c. split; [done|by apply list_elem_of_In]. }
  unfold to_ascii_lowercase in *. destruct ((65 <=? c) && (c <=? 90)) eqn:E; [|done].
  unfold ends_url, is_whitespace. lia.
Qed.

Lemma redact_scheme_all fuel scheme s :
  scheme_ok scheme = true -> (colons s < fuel)%nat -> ~ occurs scheme (ascii_lower (redact_scheme fuel scheme s)).
Proof.
  intros Hok. revert s. induction fuel as [|fuel IH]; intros s Hfuel; [lia|]. cbn.
  destruct (find_lower scheme s) as [start|] eqn:Hf; [|by apply find_lower_None]. apply IH.
  apply find_lower_Some in Hf as (mid & rest & Hdrop & Hmid). rewrite Hdrop.
  unfold after_value. rewrite drop_while_all by (by eapply scheme_kept). rewrite !colons_app. change (colons URL_MARK) with 0%nat.
  assert (0 < colons mid)%nat as Hcolon.
  { apply lower_colon. rewrite Hmid. unfold scheme_ok in Hok. apply andb_true_iff in Hok as [_ Hok].
    apply existsb_exists in Hok as (c & Hc & ->%Z.eqb_eq). by apply list_elem_of_In. }
  rewrite <- (take_drop start s), Hdrop, !colons_app in Hfuel. pose proof (colons_drop_while (fun c => negb (ends_url c)) rest). lia.
Qed.

Lemma colons_length s : (colons s <= length s)%nat.
Proof. apply length_filter. Qed.

Lemma redact_scheme_clears scheme s :
  scheme_ok scheme = true -> ~ occurs scheme (ascii_lower (redact_scheme (S (length s)) scheme s)).
Proof. intros Hok. apply redact_scheme_all; [done|]. pose proof (colons_length s). lia. Qed.
Lemma redact_urls_free s : free_of_urls (redact_urls s url_schemes).
Proof.
  unfold redact_urls, url_schemes. cbn [foldl].
  pose proof (redact_scheme_clears (str "https://") s ltac:(by vm_compute)) as H1.
  generalize dependent (redact_scheme (S (length s)) (str "https://") s). clear s. intros s H1.
  pose proof (redact_scheme_clears (str "http://") s ltac:(by vm_compute)) as H2.
  pose proof (redact_scheme_brings (S (length s)) (str "http://") s (str "https://") ltac:(by vm_compute)) as Hb.
  unfold free_of_urls, url_schemes. apply Forall_cons. split; [|by apply Forall_singleton]. intros Ho. by apply H1, Hb.
Qed.
Lemma schemes_unmarked : Forall (fun scheme => unmarked (str scheme) = true) url_schemes.
Proof. repeat (apply Forall_cons; split; [vm_compute; reflexivity|]). apply Forall_nil_2. Qed.
Lemma free_brings s s' : brings_nothing s s' -> free_of_urls s -> free_of_urls s'.
Proof.
  intros Hb Hs. pose proof schemes_unmarked as Hun. unfold free_of_urls in *. rewrite Forall_forall in Hs, Hun |- *. intros scheme Hin Ho.
  apply (Hs scheme Hin), Hb; [by apply Hun|done].
Qed.

(** *** All values of keys go *)

(** The text is over, or a character that ends a value comes. *)
Definition delimited (s : text) : Prop := forall c, head s = Some c -> ends_value c = true.
(** Every occurrence of the needle, in any case, is followed by the mark and by
    nothing else of a value: what was there up to the next [&], space or quote is
    gone. *)
Definition masked (needle s : text) : Prop :=
  forall before found after, s = before ++ found ++ after -> ascii_lower found = needle ->
    exists rest, after = VALUE_MARK ++ rest /\ delimited rest.

Lemma after_value_delimited s : delimited (after_value ends_value s).
Proof. intros c Hc%drop_while_head. by apply negb_false_iff in Hc. Qed.
Lemma redact_key_delimited fuel key s : delimited s -> delimited (redact_key fuel key s).
Proof.
  intros Hs. destruct fuel as [|fuel]; [done|]. cbn [redact_key]. destruct (find_lower _ s) as [relative|] eqn:Hf; [|done].
  rewrite Nat.add_1_r. destruct s as [|c s]; [|intros d [= <-]; by apply Hs].
  apply find_lower_Some in Hf as (mid & rest & Hd & Hm). rewrite drop_nil in Hd. destruct mid; [|done]. by destruct key.
Qed.

Lemma masked_suffix needle a s : masked needle (a ++ s) -> masked needle s.
Proof. intros Hm before found after -> Hf. apply (Hm (a ++ before) found after); [by rewrite <- app_assoc|done]. Qed.
Lemma masked_drop needle n s : masked needle s -> masked needle (drop n s).
Proof. rewrite <- (take_drop n s) at 1. apply masked_suffix. Qed.
Lemma masked_drop_while needle p s : masked needle s -> masked needle (drop_while p s).
Proof. destruct (drop_while_split p s) as (a & _ & Hs). rewrite Hs at 1. apply masked_suffix. Qed.

Lemma no_bracket needle found c :
  unmarked needle = true -> ascii_lower found = needle -> (c =? 0x5b) || (c =? 0x5d) = true -> c ∉ found.
Proof.
  intros Hn <- Hc Hin. apply (unmarked_brackets _ c Hn Hc). unfold ascii_lower. apply list_elem_of_In, in_map_iff. exists c.
  split; [|by apply list_elem_of_In]. unfold to_ascii_lowercase. destruct (_ && _) eqn:E; lia.
Qed.

(** An occurrence in a text with a character that the needle has not. *)
Lemma occurrence_split (c : Z) (x y before found after : text) :
  c ∉ found -> x ++ c :: y = before ++ found ++ after -> found <> [] ->
  (exists rest, x = before ++ found ++ rest /\ after = rest ++ c :: y) \/
  (exists rest, before = x ++ c :: rest /\ y = rest ++ found ++ after).
Proof.
  intros Hc Heq Hne. apply app_eq_inv in Heq as [(k & -> & Heq)|(k & -> & Heq)].
  - left. apply app_eq_inv in Heq as [(l & -> & Heq)|(l & -> & Heq)].
    + destruct l as [|d l]; [|injection Heq as <- _; destruct Hc; apply elem_of_app; right; by left].
      exists []. by rewrite !app_nil_r.
    + exists l. done.
  - destruct k as [|c' k]; cbn in Heq; [|injection Heq as <- ->; right; by exists k].
    destruct found as [|d found]; [done|]. injection Heq as <- _. destruct Hc. by left.
Qed.

Lemma mark_inert needle found before after :
  unmarked needle = true -> ascii_lower found = needle -> str "REDACTED" <> before ++ found ++ after.
Proof.
  intros Hn <- Heq. unfold unmarked in Hn. rewrite !andb_true_iff, !negb_true_iff in Hn. destruct Hn as [_ Hn].
  assert (contains_text (ascii_lower found) (str "redacted") = true); [|congruence]. apply contains_occurs.
  exists (ascii_lower before), (ascii_lower after). unfold ascii_lower. rewrite <- !List.map_app, <- Heq. done.
Qed.

Lemma occurrence_mark (needle head tail before found after : text) :
  unmarked needle = true -> ascii_lower found = needle -> found <> [] -> head ++ VALUE_MARK ++ tail = before ++ found ++ after ->
  (exists rest, head = before ++ found ++ rest /\ after = rest ++ VALUE_MARK ++ tail) \/
  (exists rest, tail = rest ++ found ++ after).
Proof.
  intros Hn Hf Hne Heq. change (VALUE_MARK ++ tail) with (0x5b :: str "REDACTED" ++ 0x5d :: tail) in Heq.
  apply occurrence_split in Heq as [(rest & Hh & Ha)|(rest & Hb & Heq)]; [left; by exists rest| |by eapply no_bracket|done].
  apply occurrence_split in Heq as [(rest' & Hh & _)|(rest' & _ & Ht)]; [|right; by exists rest'|by eapply no_bracket|done].
  by apply mark_inert with (needle := needle) in Hh.
Qed.

Lemma lower_last found needle c : ascii_lower found = needle ++ [c] -> ~ (97 <= c <= 122) -> exists found', found = found' ++ [c].
Proof.
  unfold ascii_lower. intros Hf Hc. apply List.map_eq_app in Hf as (l1 & l2 & -> & _ & H2). destruct l2 as [|d [|]]; try done.
  injection H2 as H2. exists l1. repeat f_equal. unfold to_ascii_lowercase in H2. destruct (_ && _) eqn:E in H2; lia.
Qed.

(** A value that is replaced leaves what was masked masked, if what is before
    it does not end within a mark. *)
Lemma masked_replace needle head value tail :
  unmarked (needle ++ str "=") = true ->
  (forall c, last head = Some c -> c ∉ VALUE_MARK /\ (c = 0x3d -> delimited tail)) ->
  masked (needle ++ str "=") (head ++ value) -> masked (needle ++ str "=") tail -> masked (needle ++ str "=") (head ++ VALUE_MARK ++ tail).
Proof.
  intros Hn Hlast Hm Ht before found after Heq Hf.
  assert (found <> []) as Hnf by (intros ->; by destruct needle).
  apply (occurrence_mark (needle ++ str "=")) in Heq as [(rest & Hh & ->)|(rest & Htail)]; [| |done..].
  2:{ by eapply (Ht rest found after). }
  destruct (Hm before found (rest ++ value)) as (more & Hmore & Hdel); [by rewrite Hh, <- !app_assoc|done|].
  assert (forall c, last rest = Some c -> c ∉ VALUE_MARK) as Hrest.
  { intros c Hc. apply (Hlast c). by rewrite Hh, app_assoc, last_app, Hc. }
  apply app_eq_inv in Hmore as [(k & -> & ->)|(k & Hk & _)].
  - exists (k ++ VALUE_MARK ++ tail). split; [by rewrite <- app_assoc|]. destruct k as [|c k]; [|intros d [= <-]; by apply Hdel].
    rewrite app_nil_r in Hrest. destruct (Hrest 0x5d); [done|]. by apply last_Some_elem_of.
  - destruct (list_eq_nil_dec rest) as [->|Hr].
    + exists tail. split; [done|]. change (str "=") with [0x3d] in Hf. apply lower_last in Hf as (found' & ->); [|lia].
      apply (Hlast 0x3d); [|done]. by rewrite Hh, app_nil_r, app_assoc, last_snoc.
    + exfalso. apply last_is_Some in Hr as [c Hc]. apply (Hrest c Hc). rewrite Hk. apply elem_of_app. left. by apply last_Some_elem_of.
Qed.

(** What the search finds: the first occurrence. *)
Lemma find_lower_split needle s start :
  find_lower needle s = Some start ->
  exists found, s = take start s ++ found ++ drop (start + length needle) s /\ ascii_lower found = needle /\
    take (start + length needle) s = take start s ++ found.
Proof.
  unfold find_lower. rewrite fmap_Some. intros ([b a] & Hs & ->). apply split_once_text_Some in Hs. cbn.
  exists (take (length needle) (drop (length b) s)).
  assert (ascii_lower (take (length needle) (drop (length b) s)) = needle) as Hf.
  { unfold ascii_lower in *. rewrite <- firstn_map, <- skipn_map, Hs, drop_app_length. by rewrite take_app_length. }
  split_and!; [|done|by rewrite take_take_drop].
  rewrite <- drop_drop, take_drop. by rewrite take_drop.
Qed.
Lemma find_lower_first needle s start before found after :
  find_lower needle s = Some start -> s = before ++ found ++ after -> ascii_lower found = needle -> (start <= length before)%nat.
Proof.
  unfold find_lower. rewrite fmap_Some. intros ([b a] & Hs & ->) -> Hf. cbn. unfold ascii_lower in *. rewrite !List.map_app, Hf in Hs.
  eapply split_once_text_first in Hs; [|reflexivity]. by rewrite List.length_map in Hs.
Qed.

Lemma key_head_last (key : text) s relative c :
  find_lower (key ++ str "=") s = Some relative -> last (take (relative + length key + 1) s) = Some c -> c ∉ VALUE_MARK.
Proof.
  intros Hf Hlast. destruct (find_lower_split _ _ _ Hf) as (found & _ & Hfound & Htake). rewrite length_app in Htake.
  change (length (str "=")) with 1%nat in Htake. rewrite Nat.add_assoc in Htake. rewrite Htake in Hlast.
  change (str "=") with [0x3d] in Hfound. apply lower_last in Hfound as (found' & ->); [|lia]. rewrite app_assoc, last_snoc in Hlast. injection Hlast as <-.
  intros Hin. vm_compute in Hin. repeat (apply elem_of_cons in Hin as [?|Hin]; [done|]). by apply elem_of_nil in Hin.
Qed.

Lemma redact_key_keeps fuel key needle s :
  unmarked (needle ++ str "=") = true -> masked (needle ++ str "=") s -> masked (needle ++ str "=") (redact_key fuel key s).
Proof.
  intros Hn. revert s. induction fuel as [|fuel IH]; intros s Hm; cbn [redact_key]; [done|].
  destruct (find_lower _ s) as [relative|] eqn:Hf; [|done].
  apply (masked_replace _ _ (drop (relative + length key + 1) s)); [done| |by rewrite take_drop|].
  - intros c Hc. split; [by eapply key_head_last|]. intros _. apply redact_key_delimited, after_value_delimited.
  - apply IH. by apply masked_drop_while, masked_drop.
Qed.

Lemma redact_key_masks fuel key s :
  unmarked (key ++ str "=") = true -> (length s < fuel)%nat -> masked (key ++ str "=") (redact_key fuel key s).
Proof.
  intros Hn. revert s. induction fuel as [|fuel IH]; intros s Hfuel; [lia|]. cbn [redact_key].
  destruct (find_lower _ s) as [relative|] eqn:Hf.
  2:{ intros before found after -> Hfound. exfalso. apply (find_lower_None _ _ Hf). exists (ascii_lower before), (ascii_lower after).
      unfold ascii_lower in *. by rewrite !List.map_app, Hfound. }
  set (start := (relative + length key + 1)%nat). destruct (find_lower_split _ _ _ Hf) as (first & Hs & Hfirst & Htake).
  rewrite length_app in Hs, Htake. change (length (str "=")) with 1%nat in Hs, Htake. rewrite Nat.add_assoc in Hs, Htake. fold start in Hs, Htake.
  intros before found after Heq Hfound. assert (found <> []) as Hne by (intros ->; by destruct key).
  apply (occurrence_mark (key ++ str "=")) in Heq as [(rest & Hh & ->)|(rest & Ht)]; [| |done..].
  - assert (length found = length first) as Hlen.
    { rewrite <- (List.length_map to_ascii_lowercase found), <- (List.length_map to_ascii_lowercase first).
      unfold ascii_lower in *. by rewrite Hfound, Hfirst. }
    assert (relative <= length before)%nat as Hle.
    { eapply (find_lower_first _ s _ before found (rest ++ drop start s)); [exact Hf| |exact Hfound].
      rewrite <- (take_drop start s) at 1. by rewrite Hh, <- !app_assoc. }
    assert (rest = []) as ->;
      [|exists (redact_key fuel key (after_value ends_value (drop start s))); split; [done|apply redact_key_delimited, after_value_delimited]].
    apply (f_equal length) in Hh. rewrite Htake, !length_app, length_take in Hh. apply nil_length_inv. lia.
  - eapply (IH (after_value ends_value (drop start s))); [|exact Ht|done].
    destruct (drop_while_split (fun c => negb (ends_value c)) (drop start s)) as (a & _ & Ha).
    apply (f_equal length) in Ha, Hs. rewrite length_app in Ha. rewrite !length_app in Hs. unfold after_value.
    assert (0 < length first)%nat; [|lia]. rewrite <- (List.length_map to_ascii_lowercase first). unfold ascii_lower in Hfirst.
    rewrite Hfirst, length_app. cbn. lia.
Qed.

Lemma header_head_last label s relative c :
  find_lower (label ++ str ":") s = Some relative ->
  let value := drop_while is_ascii_whitespace (drop (relative + length (label ++ str ":")) s) in
  last (take (length s - length value) s) = Some c -> c ∉ VALUE_MARK /\ c <> 0x3d.
Proof.
  intros Hf value Hlast. destruct (find_lower_split _ _ _ Hf) as (found & Hs & Hfound & _).
  destruct (drop_while_split is_ascii_whitespace (drop (relative + length (label ++ str ":")) s)) as (white & Hwhite & Hw). fold value in Hw.
  rewrite Hw in Hs. rewrite !app_assoc in Hs. clearbody value.
  assert (take (length s - length value) s = (take relative s ++ found) ++ white) as Ht.
  { generalize dependent (take relative s). intros before Hs. rewrite Hs, length_app.
    replace (length ((before ++ found) ++ white) + length value - length value)%nat with (length ((before ++ found) ++ white)) by lia.
    by rewrite take_app_length. }
  rewrite Ht, last_app in Hlast. assert (is_ascii_whitespace c = true \/ c = 0x3a) as Hc.
  { destruct (last white) as [d|] eqn:Hd.
    - injection Hlast as ->. left. apply last_Some_elem_of in Hd. by apply (proj1 (Forall_forall _ _) Hwhite).
    - right. change (str ":") with [0x3a] in Hfound. apply lower_last in Hfound as (found' & ->); [|lia].
      rewrite app_assoc, last_snoc in Hlast. by injection Hlast as <-. }
  split; [|intros ->; destruct Hc; done].
  intros Hin. vm_compute in Hin. repeat (apply elem_of_cons in Hin as [->|Hin]; [destruct Hc; done|]). by apply elem_of_nil in Hin.
Qed.

Lemma redact_header_keeps fuel label needle s :
  unmarked (needle ++ str "=") = true -> masked (needle ++ str "=") s ->
  masked (needle ++ str "=") (redact_header fuel (label ++ str ":") s).
Proof.
  intros Hn. revert s. induction fuel as [|fuel IH]; intros s Hm; cbn [redact_header]; [done|].
  destruct (find_lower _ s) as [relative|] eqn:Hf; [|done]. cbn zeta. set (value := drop_while _ _).
  apply (masked_replace _ _ (drop (length s - length value) s)); [done| |by rewrite take_drop|].
  - intros c Hc. destruct (header_head_last _ _ _ _ Hf Hc). by split.
  - apply IH. by apply masked_drop_while, masked_drop_while, masked_drop.
Qed.

Lemma mask_keys_keeps keys needle s :
  unmarked (needle ++ str "=") = true -> masked (needle ++ str "=") s -> masked (needle ++ str "=") (mask_keys s keys).
Proof.
  intros Hn. revert s. induction keys as [|key keys IH]; intros s Hm; [done|]. unfold mask_keys. cbn [foldl]. apply IH. by apply redact_key_keeps.
Qed.
Lemma mask_keys_masks keys s :
  Forall (fun key => unmarked (str key ++ str "=") = true) keys -> Forall (fun key => masked (str key ++ str "=") (mask_keys s keys)) keys.
Proof.
  intros Hkeys. revert s. induction Hkeys as [|key keys Hkey Hkeys IH]; intros s; [constructor|]. constructor; [|apply IH].
  apply (mask_keys_keeps keys _ (redact_key (S (length s)) (str key) s)); [done|].
  apply redact_key_masks; [done|lia].
Qed.

(** A text without URLs in which the values of the keys are replaced, and a
    value whose texts are like that and whose sensitive fields are replaced. *)
Definition redacted_text (s : text) : Prop := free_of_urls s /\ Forall (fun key => masked (str key ++ str "=") s) credential_keys.
Fixpoint redacted_value (value : Value) : Prop :=
  match value with
  | JString s => redacted_text s
  | JArray values => (fix all (values : list Value) := match values with [] => True | v :: values => redacted_value v /\ all values end) values
  | JObject fields =>
      (fix all (fields : list (text * Value)) :=
         match fields with
         | [] => True
         | (key, v) :: fields => (if sensitive_diagnostic_key key then v = JString VALUE_MARK else redacted_value v) /\ all fields
         end) fields
  | _ => True
  end.

Lemma headers_keep labels needle s :
  Forall (fun label => exists name, str label = name ++ str ":") labels -> unmarked (needle ++ str "=") = true ->
  masked (needle ++ str "=") s -> masked (needle ++ str "=") (mask_headers s labels).
Proof.
  intros Hlabels Hn. revert s. induction Hlabels as [|label labels [name Hname] _ IH]; intros s Hm; [done|].
  unfold mask_headers. cbn [foldl]. apply IH. rewrite Hname. by apply redact_header_keeps.
Qed.
Lemma credential_headers_end : Forall (fun label => exists name, str label = name ++ str ":") credential_headers.
Proof.
  assert (forall label : string, bool_decide (last (str label) = Some 0x3a) = true -> exists name, str label = name ++ str ":") as Hend.
  { intros label Hl. apply bool_decide_eq_true, last_Some in Hl as [name Hname]. by exists name. }
  repeat (apply Forall_cons; split; [apply Hend; vm_compute; reflexivity|]). apply Forall_nil_2.
Qed.
Lemma credential_keys_unmarked : Forall (fun key => unmarked (str key ++ str "=") = true) credential_keys.
Proof. repeat (apply Forall_cons; split; [vm_compute; reflexivity|]). apply Forall_nil_2. Qed.

Lemma redact_error_redacted s : redacted_text (redact_error s).
Proof.
  unfold redact_error. pose proof (redact_urls_free (take 2048 s)) as Hfree.
  generalize dependent (redact_urls (take 2048 s) url_schemes). clear s. intros s Hfree.
  apply (free_brings _ _ (mask_keys_brings credential_keys s)) in Hfree.
  pose proof (mask_keys_masks credential_keys s credential_keys_unmarked) as Hall.
  generalize dependent (mask_keys s credential_keys). clear s. intros s Hfree Hall.
  split; [by apply (free_brings s); [apply mask_headers_brings|]|].
  pose proof credential_keys_unmarked as Hun. rewrite Forall_forall in Hall, Hun |- *. intros key Hin.
  apply headers_keep; [apply credential_headers_end|by apply Hun|by apply Hall].
Qed.


Example redacted_request :
  redact_error (str "GET HTTPS://u:p@host/a failed: token=abc&id=1 Cookie: a=b; c=d") =
    str "GET [REDACTED_URL] failed: token=[REDACTED]&id=1 Cookie: [REDACTED]".
Proof. vm_compute. reflexivity. Qed.

(** The opening quote of a value ends it, and the value stays. *)
Example quoted_value_kept :
  redact_error (str "password='hunter2'") = str "password=[REDACTED]'hunter2'".
Proof. vm_compute. reflexivity. Qed.
