(* ===== verification/Xtream.v ===== *)
(** * Xtream responses

    [crates/parsers/src/xtream.rs]: the answers of an Xtream server, which are
    JSON documents, read into records: the account, the categories, the live
    streams and the short guide.

    JSON values are those of [Settings.v], with the fields of an object in the
    order of their names; [serde_json], the printing of floats, the two Base64
    decoders and the parsing of RFC 3339 are parameters.  Times are
    nanoseconds. *)
From Stdlib Require Import ZArith Lia Floats.SpecFloat.
From stdpp Require Import base numbers option strings.
From stdpp Require Import list gmap.
From S2P Require Import Prelude Pacing Text Hls M3u M3uSpec Events EventGuide Settings.
Open Scope Z_scope.
Open Scope relay_scope.

(** ** Documents *)

Record XtreamDocument (T : Type) := mkXtreamDocument {
  xt_records : list T;
  xt_diagnostics : list Diagnostic;
  xt_stats : ParseStats;
}.
Arguments mkXtreamDocument {T}.
Arguments xt_records {T}.
Arguments xt_diagnostics {T}.
Arguments xt_stats {T}.

Abbreviation Fields := (list (text * Value)).

Record XtreamAuth (Url : Type) := mkXtreamAuth {
  xa_authenticated : bool;
  xa_status : option text;
  xa_expiration : option Z;
  xa_active_connections : Z;
  xa_max_connections : option Z;
  xa_allowed_output_formats : list text;
  xa_server_url : option Url;
  xa_server_timezone : option text;
  xa_server_timestamp : option Z;
  xa_metadata : gmap text text;
}.
Arguments mkXtreamAuth {Url}.
Arguments xa_authenticated {Url}.
Arguments xa_metadata {Url}.

Record XtreamCategory := mkXtreamCategory {
  xc_id : text; xc_name : text; xc_parent_id : option text; xc_metadata : Fields }.

Record XtreamLiveStream (Url : Type) := mkXtreamLiveStream {
  xl_stream_id : Z;
  xl_name : text;
  xl_category_id : option text;
  xl_epg_channel_id : option text;
  xl_icon : option Url;
  xl_channel_number : option spec_float;
  xl_stream_type : option text;
  xl_added_at : option Z;
  xl_is_adult : bool;
  xl_has_archive : bool;
  xl_archive_duration_days : Z;
  xl_metadata : Fields;
}.
Arguments mkXtreamLiveStream {Url}.
Arguments xl_stream_id {Url}.
Arguments xl_name {Url}.
Arguments xl_category_id {Url}.
Arguments xl_epg_channel_id {Url}.
Arguments xl_icon {Url}.
Arguments xl_channel_number {Url}.
Arguments xl_metadata {Url}.

Record XtreamShortEpgEntry := mkXtreamShortEpgEntry {
  xs_id : option text;
  xs_epg_id : option text;
  xs_title : text;
  xs_description : text;
  xs_language : option text;
  xs_start : Z;
  xs_stop : Z;
  xs_channel_id : option text;
  xs_metadata : Fields;
}.

(** ** Values *)

Definition as_object (value : Value) : option Fields := match value with JObject fields => Some fields | _ => None end.
Definition as_array (value : Value) : option (list Value) := match value with JArray l => Some l | _ => None end.

(** [Map::get] *)
Fixpoint field (fields : Fields) (key : text) : option Value :=
  match fields with
  | [] => None
  | (k, value) :: fields => if bool_decide (k = key) then Some value else field fields key
  end.
Definition get_field (fields : Fields) (key : string) : option Value := field fields (str key).

(** [u64ish] and [u32ish] *)
Definition u64ish (value : option Value) : option Z :=
  value ← value;
  match value with
  | JInteger _ => as_u64 value
  | JString s => parse_unsigned u64_max s
  | _ => None
  end.
Definition u32ish (value : option Value) : option Z :=
  value ← u64ish value; if value <=? u32_max then Some value else None.

(** [Number::as_f64] *)
Definition number_f64 (value : Value) : option spec_float :=
  match value with
  | JInteger z => Some (f64_of_decimal (z <? 0) (Z.abs z) 0)
  | JFloat f => Some f
  | _ => None
  end.
(** [f64ish] *)
Definition f64ish (value : option Value) : option spec_float :=
  value ← value;
  number ← match value with JString s => parse_f64 s | _ => number_f64 value end;
  if f64_is_finite number then Some number else None.

(** [boolish] *)
Definition boolish (value : option Value) : option bool :=
  value ← value;
  match value with
  | JBool b => Some b
  | JInteger _ => (fun z => negb (z =? 0)) <$> as_i64 value
  | JString s =>
      let s := List.map to_ascii_lowercase (trim s) in
      if existsb (fun word => bool_decide (s = str word)) ["1"; "true"; "yes"; "active"] then Some true
      else if existsb (fun word => bool_decide (s = str word)) ["0"; "false"; "no"; "disabled"] then Some false
      else None
  | _ => None
  end.

(** [is_sensitive_key], [known_auth_key] and [unknown_fields] *)
Definition credential_words : list string := ["username"; "password"; "token"; "secret"; "credential"].
Definition names_credential (key : text) : bool :=
  existsb (fun needle => contains_text (str needle) (List.map to_ascii_lowercase key)) credential_words.
Definition known_auth_key (key : text) : bool :=
  existsb (fun known => bool_decide (key = str known))
    ["auth"; "status"; "exp_date"; "active_cons"; "max_connections"; "allowed_output_formats"; "url"; "port"; "https_port";
     "server_protocol"; "timezone"; "timestamp_now"; "server_timestamp"].
Definition unknown_fields (fields : Fields) (known : list string) : Fields :=
  filter (fun '(key, _) => key ∉ (str <$> known)) fields.

(** [ensure_record_limit] and [new_document] *)
Definition ensure_record_limit (count maximum : Z) : result unit ParseError :=
  if maximum <? count then Err (TooManyRecords maximum) else Ok tt.
Definition new_document {T} (bytes records : Z) : XtreamDocument T :=
  mkXtreamDocument [] [] (mkParseStats bytes 0 records 0 0 0 0 0).

Section Records.
Context {T : Type}.
Definition push_xtream_diagnostic (d : XtreamDocument T) (stats : ParseStats) (diagnostic : Diagnostic) : XtreamDocument T :=
  mkXtreamDocument (xt_records d) (xt_diagnostics d ++ [diagnostic]) (observe_diagnostic stats diagnostic).
(** [invalid_record] and [push_warning] *)
Definition skip_record (d : XtreamDocument T) : XtreamDocument T :=
  push_xtream_diagnostic d (count_records (xt_stats d) 0 0 1) (error InvalidXtreamRecord None None).
Definition push_warning (d : XtreamDocument T) : XtreamDocument T :=
  push_xtream_diagnostic d (xt_stats d) (warning InvalidXtreamRecord None None).
(** [document.records.push(..); document.stats.records_emitted += 1] *)
Definition emit_record (d : XtreamDocument T) (record : T) : XtreamDocument T :=
  mkXtreamDocument (xt_records d ++ [record]) (xt_diagnostics d) (count_records (xt_stats d) 0 1 0).

(** The loop over the values of a response. *)
Fixpoint each_value (step : XtreamDocument T -> Value -> result (XtreamDocument T) ParseError) (d : XtreamDocument T)
  (values : list Value) : result (XtreamDocument T) ParseError :=
  match values with
  | [] => Ok d
  | value :: values => try d <- step d value; each_value step d values
  end.
End Records.

Section Xtream.
Context {Url : Type} `{Urls Url}.
Context {Tz : Type} `{Chrono Tz}.
(** [serde_json::from_slice]; the text of a float in JSON; the Base64 engines
    [STANDARD] and [STANDARD_NO_PAD]; [DateTime::parse_from_rfc3339] *)
Context (json_from_slice : bytes -> option Value) (float_text : spec_float -> text).
Context (base64_decode base64_decode_no_pad : text -> option bytes) (parse_rfc3339 : text -> option Z).

(** [read_json]; the message of a malformed document is left out. *)
Definition read_json (reader : BufReader) (limits : ParseLimits) : result (Value * Z) ParseError :=
  match read_limited (max_input_bytes limits + 1) reader with
  | Err e => Err e
  | Ok bytes =>
      let byte_count := zlen bytes in
      if max_input_bytes limits <? byte_count then Err (InputTooLarge (max_input_bytes limits))
      else match json_from_slice bytes with
           | Some value => Ok (value, byte_count)
           | None => Err (MalformedXtream [])
           end
  end.

(** [scalar_string] *)
Definition scalar_string (value : Value) : option text :=
  match value with
  | JString s => Some s
  | JInteger z => Some (if z <? 0 then str "-" ++ decimal (- z) else decimal z)
  | JFloat f => Some (float_text f)
  | JBool b => Some (str (if b then "true" else "false"))
  | _ => None
  end.
Definition scalar_field (fields : Fields) (key : string) : option text := get_field fields key ≫= scalar_string.

(** [optional_bounded_string] *)
Definition optional_bounded_string (value : option Value) (maximum : Z) : result (option text) ParseError :=
  match value ≫= scalar_string with
  | Some s => if maximum <? utf8_len s then Err (TextTooLarge maximum) else Ok (Some s)
  | None => Ok None
  end.

(** [Utc.timestamp_opt(seconds, 0).single()] *)
Definition timestamp_opt (seconds : Z) : option Z := checked_instant (seconds * NANOS_PER_SECOND).

(** [optional_unix_time] *)
Definition optional_unix_time {T} (value : option Value) (d : XtreamDocument T) : XtreamDocument T * option Z :=
  match value ≫= (fun value =>
          match value with
          | JInteger _ => as_i64 value
          | JString s => parse_signed i64_max s
          | _ => None
          end) with
  | None => (d, None)
  | Some seconds =>
      match timestamp_opt seconds with
      | Some instant => (d, Some instant)
      | None => (push_warning d, None)
      end
  end.

(** [build_server_url] *)
Definition build_server_url (server : Fields) : option Url :=
  host ← scalar_field server "url";
  match url_parse host with
  | Some url => Some url
  | None =>
      let scheme := default (str "http") (scalar_field server "server_protocol") in
      let port_key := if eq_ignore_ascii_case scheme (str "https") then "https_port"%string else "port"%string in
      url_parse
        match scalar_field server port_key with
        | None => scheme ++ str "://" ++ host
        | Some port => scheme ++ str "://" ++ host ++ str ":" ++ port
        end
  end.

(** [parse_listing_time] *)
Fixpoint parse_listing_time (fields : Fields) (keys : list string) (timezone : Tz) : option Z :=
  match keys with
  | [] => None
  | key :: keys =>
      match get_field fields key with
      | None => parse_listing_time fields keys timezone
      | Some value =>
          let seconds := match as_i64 value with Some s => Some s | None => as_str value ≫= parse_signed i64_max end in
          match seconds ≫= timestamp_opt with
          | Some instant => Some instant
          | None =>
              match as_str value with
              | None => parse_listing_time fields keys timezone
              | Some s =>
                  match parse_rfc3339 s with
                  | Some instant => Some instant
                  | None =>
                      match parse_naive_datetime s (str "%Y-%m-%d %H:%M:%S") with
                      | Some naive =>
                          match from_local_datetime timezone naive with
                          | LocalSingle instant => Some instant
                          | LocalAmbiguous | LocalNone => None
                          end
                      | None => parse_listing_time fields keys timezone
                      end
                  end
              end
          end
      end
  end.

(** [decoded_text] *)
Definition decoded_text (value : option Value) (maximum : Z) : result text ParseError :=
  match value ≫= scalar_string with
  | None => Ok []
  | Some raw =>
      if sat_mul u64_max maximum 2 <? utf8_len raw then Err (TextTooLarge maximum)
      else
        let bytes := match base64_decode raw with Some bytes => Some bytes | None => base64_decode_no_pad raw end in
        let decoded := default raw (bytes ≫= from_utf8) in
        if maximum <? utf8_len decoded then Err (TextTooLarge maximum) else Ok decoded
  end.

(** ** Responses *)

Definition malformed {A} (message : string) : result A ParseError := Err (MalformedXtream (str message)).

(** The public fields of the user and of the server, with their prefix. *)
Definition public_fields (prefix : string) (fields : Fields) (max_text : Z) (metadata : gmap text text) : gmap text text :=
  foldl (fun metadata '(key, value) =>
    if names_credential key || known_auth_key key then metadata
    else
      match scalar_string value with
      | Some s => if utf8_len s <=? max_text then <[str prefix ++ str "." ++ key := s]> metadata else metadata
      | None => metadata
      end) metadata fields.

(** [parse_xtream_auth] *)
Definition parse_xtream_auth (reader : BufReader) (limits : ParseLimits) : result (XtreamDocument (XtreamAuth Url)) ParseError :=
  try read <- read_json reader limits;
  match as_object (fst read) with
  | None => malformed "auth response must be an object"
  | Some object =>
      match get_field object "user_info" ≫= as_object with
      | None => malformed "auth response has no user_info object"
      | Some user =>
          let server := get_field object "server_info" ≫= as_object in
          let '(d, expiration) := optional_unix_time (get_field user "exp_date") (new_document (snd read) 1) in
          let '(d, server_timestamp) :=
            match server with
            | None => (d, None)
            | Some fields =>
                optional_unix_time
                  (match get_field fields "timestamp_now" with Some v => Some v | None => get_field fields "server_timestamp" end) d
            end in
          let metadata := public_fields "user" user (max_text_bytes limits) ∅ in
          let metadata := match server with Some fields => public_fields "server" fields (max_text_bytes limits) metadata | None => metadata end in
          try status <- optional_bounded_string (get_field user "status") (max_text_bytes limits);
          Ok (emit_record d
            (mkXtreamAuth (default false (boolish (get_field user "auth"))) status expiration
               (default 0 (u32ish (get_field user "active_cons"))) (u32ish (get_field user "max_connections"))
               (filter (fun s => utf8_len s <= max_text_bytes limits)
                  (omap scalar_string (default [] (get_field user "allowed_output_formats" ≫= as_array))))
               (server ≫= build_server_url) (server ≫= fun fields => scalar_field fields "timezone") server_timestamp metadata))
      end
  end.

(** [parse_xtream_live_categories] *)
Definition category_step (limits : ParseLimits) (d : XtreamDocument XtreamCategory) (value : Value)
  : result (XtreamDocument XtreamCategory) ParseError :=
  match as_object value with
  | None => Ok (skip_record d)
  | Some object =>
      match scalar_field object "category_id", scalar_field object "category_name" with
      | Some id, Some name =>
          if (max_text_bytes limits <? utf8_len id) || (max_text_bytes limits <? utf8_len name)
          then Err (TextTooLarge (max_text_bytes limits))
          else Ok (emit_record d (mkXtreamCategory id name (scalar_field object "parent_id")
                                    (unknown_fields object ["category_id"; "category_name"; "parent_id"])))
      | _, _ => Ok (skip_record d)
      end
  end.
Definition parse_xtream_live_categories (reader : BufReader) (limits : ParseLimits)
  : result (XtreamDocument XtreamCategory) ParseError :=
  try read <- read_json reader limits;
  match as_array (fst read) with
  | None => malformed "live categories response must be an array"
  | Some values =>
      try _ <- ensure_record_limit (zlen values) (max_records limits);
      each_value (category_step limits) (new_document (snd read) (zlen values)) values
  end.

(** [parse_xtream_live_streams] *)
Definition stream_fields : list string :=
  ["stream_id"; "name"; "category_id"; "epg_channel_id"; "stream_icon"; "num"; "stream_type"; "added"; "is_adult"; "tv_archive";
   "tv_archive_duration"].
Definition stream_icon {T} (object : Fields) (d : XtreamDocument T) : XtreamDocument T * option Url :=
  match scalar_field object "stream_icon" with
  | None => (d, None)
  | Some value =>
      if bool_decide (value = []) then (d, None)
      else match url_parse value with
           | Some url => (d, Some url)
           | None => (push_warning d, None)
           end
  end.
Definition stream_step (limits : ParseLimits) (d : XtreamDocument (XtreamLiveStream Url)) (value : Value)
  : result (XtreamDocument (XtreamLiveStream Url)) ParseError :=
  match as_object value with
  | None => Ok (skip_record d)
  | Some object =>
      match u64ish (get_field object "stream_id"), scalar_field object "name" with
      | Some stream_id, Some name =>
          if max_text_bytes limits <? utf8_len name then Err (TextTooLarge (max_text_bytes limits))
          else
            let '(d, icon) := stream_icon object d in
            let '(d, added_at) := optional_unix_time (get_field object "added") d in
            Ok (emit_record d
              (mkXtreamLiveStream stream_id name (scalar_field object "category_id") (scalar_field object "epg_channel_id") icon
                 (f64ish (get_field object "num")) (scalar_field object "stream_type") added_at
                 (default false (boolish (get_field object "is_adult"))) (default false (boolish (get_field object "tv_archive")))
                 (default 0 (u32ish (get_field object "tv_archive_duration"))) (unknown_fields object stream_fields)))
      | _, _ => Ok (skip_record d)
      end
  end.
Definition parse_xtream_live_streams (reader : BufReader) (limits : ParseLimits)
  : result (XtreamDocument (XtreamLiveStream Url)) ParseError :=
  try read <- read_json reader limits;
  match as_array (fst read) with
  | None => malformed "live streams response must be an array"
  | Some values =>
      try _ <- ensure_record_limit (zlen values) (max_records limits);
      each_value (stream_step limits) (new_document (snd read) (zlen values)) values
  end.

(** [parse_xtream_short_epg_in_timezone] *)
Definition listing_fields : list string :=
  ["id"; "epg_id"; "title"; "description"; "lang"; "start"; "end"; "start_timestamp"; "stop_timestamp"; "end_timestamp";
   "channel_id"; "stream_id"].
Definition listing_step (limits : ParseLimits) (timezone : Tz) (d : XtreamDocument XtreamShortEpgEntry) (value : Value)
  : result (XtreamDocument XtreamShortEpgEntry) ParseError :=
  match as_object value with
  | None => Ok (skip_record d)
  | Some object =>
      match parse_listing_time object ["start_timestamp"; "start"] timezone with
      | None => Ok (skip_record d)
      | Some start =>
          match parse_listing_time object ["stop_timestamp"; "end_timestamp"; "end"] timezone with
          | None => Ok (skip_record d)
          | Some stop =>
              if stop <=? start then Ok (skip_record d)
              else
                try title <- decoded_text (get_field object "title") (max_text_bytes limits);
                try description <- decoded_text (get_field object "description") (max_text_bytes limits);
                Ok (emit_record d
                  (mkXtreamShortEpgEntry (scalar_field object "id") (scalar_field object "epg_id") title description
                     (scalar_field object "lang") start stop
                     ((match get_field object "channel_id" with Some v => Some v | None => get_field object "stream_id" end)
                        ≫= scalar_string)
                     (unknown_fields object listing_fields)))
          end
      end
  end.
Definition parse_xtream_short_epg_in_timezone (reader : BufReader) (limits : ParseLimits) (source_timezone : text)
  : result (XtreamDocument XtreamShortEpgEntry) ParseError :=
  match tz_from_str (Tz := Tz) source_timezone with
  | None => malformed "short EPG source timezone is invalid"
  | Some timezone =>
      try read <- read_json reader limits;
      match (object ← as_object (fst read); listings ← get_field object "epg_listings"; as_array listings) with
      | None => malformed "short EPG response has no epg_listings array"
      | Some values =>
          try _ <- ensure_record_limit (zlen values) (max_records limits);
          each_value (listing_step limits timezone) (new_document (snd read) (zlen values)) values
      end
  end.
(** [parse_xtream_short_epg] *)
Definition parse_xtream_short_epg (reader : BufReader) (limits : ParseLimits) : result (XtreamDocument XtreamShortEpgEntry) ParseError :=
  parse_xtream_short_epg_in_timezone reader limits (str "UTC").
End Xtream.
