(* ===== verification/XtreamSpec.v ===== *)
(** * What the Xtream parsers promise

    Every record of a response is read or reported, the texts and the intervals
    that are kept are within their bounds, and no field that names a credential
    is kept of an account. *)
From Stdlib Require Import ZArith Lia Floats.SpecFloat.
From stdpp Require Import base numbers option strings.
From stdpp Require Import list gmap.
From S2P Require Import Prelude Pacing Text Hls M3u M3uSpec Events EventGuide Settings Xtream.
Open Scope Z_scope.
Open Scope relay_scope.

(** A document after some records: each is kept, or skipped with an error. *)
Record Counts {T} (bytes seen done : Z) (d : XtreamDocument T) : Prop := {
  counts_bytes : bytes_read (xt_stats d) = bytes;
  counts_seen : records_seen (xt_stats d) = seen;
  counts_done : records_emitted (xt_stats d) + records_skipped (xt_stats d) = done;
  counts_records : records_emitted (xt_stats d) = zlen (xt_records d);
  counts_errors : errors (xt_stats d) = records_skipped (xt_stats d);
  counts_diagnostics : zlen (xt_diagnostics d) = warnings (xt_stats d) + errors (xt_stats d);
}.

Section Counting.
Context {T : Type}.

Lemma new_document_counts bytes seen : Counts bytes seen 0 (@new_document T bytes seen).
Proof. by constructor. Qed.
Lemma skip_record_counts bytes seen done (d : XtreamDocument T) : Counts bytes seen done d -> Counts bytes seen (done + 1) (skip_record d).
Proof. intros []. constructor; cbn; rewrite ?zlen_app; change (zlen [_]) with 1; try done; lia. Qed.
Lemma push_warning_counts bytes seen done (d : XtreamDocument T) : Counts bytes seen done d -> Counts bytes seen done (push_warning d).
Proof. intros []. constructor; cbn; rewrite ?zlen_app; change (zlen [_]) with 1; try done; lia. Qed.
Lemma emit_record_counts bytes seen done (d : XtreamDocument T) r : Counts bytes seen done d -> Counts bytes seen (done + 1) (emit_record d r).
Proof. intros []. constructor; cbn; rewrite ?zlen_app; change (zlen [_]) with 1; try done; lia. Qed.

(** A property of the records and the counts, over the loop. *)
Lemma each_value_spec (step : XtreamDocument T -> Value -> result (XtreamDocument T) ParseError) (P : T -> Prop) bytes seen :
  (forall done d value d', Counts bytes seen done d -> Forall P (xt_records d) -> step d value = Ok d' ->
     Counts bytes seen (done + 1) d' /\ Forall P (xt_records d')) ->
  forall values done d d', Counts bytes seen done d -> Forall P (xt_records d) -> each_value step d values = Ok d' ->
    Counts bytes seen (done + zlen values) d' /\ Forall P (xt_records d').
Proof.
  intros Hstep. induction values as [|value values IH]; intros done d d' Hd HP; cbn [each_value].
  { intros [= <-]. change (zlen []) with 0. by rewrite Z.add_0_r. }
  destruct (step d value) as [d1|] eqn:Es; [|done]. cbn. intros Hrun. destruct (Hstep _ _ _ _ Hd HP Es) as [Hd1 HP1].
  replace (done + zlen (value :: values)) with (done + 1 + zlen values) by (unfold zlen; cbn; lia). by eapply IH.
Qed.
End Counting.
#[export] Hint Resolve skip_record_counts push_warning_counts emit_record_counts : relay.

Section Spec.
Context {Url : Type} `{Urls Url} {Tz : Type} `{Chrono Tz}.
Context (json_from_slice : bytes -> option Value) (float_text : spec_float -> text).
Context (base64_decode base64_decode_no_pad : text -> option bytes) (parse_rfc3339 : text -> option Z).

Lemma emit_both {T} (P : T -> Prop) bytes seen done (d : XtreamDocument T) r :
  Counts bytes seen done d -> Forall P (xt_records d) -> P r ->
  Counts bytes seen (done + 1) (emit_record d r) /\ Forall P (xt_records (emit_record d r)).
Proof. intros Hd HP Hr. split; [by apply emit_record_counts|]. cbn. apply Forall_app. by split; [|constructor]. Qed.
Lemma skip_both {T} (P : T -> Prop) bytes seen done (d : XtreamDocument T) :
  Counts bytes seen done d -> Forall P (xt_records d) ->
  Counts bytes seen (done + 1) (skip_record d) /\ Forall P (xt_records (skip_record d)).
Proof. intros Hd HP. split; [by apply skip_record_counts|done]. Qed.

Lemma unix_time_keeps {T} bytes seen done value (d d' : XtreamDocument T) t :
  optional_unix_time (Tz := Tz) value d = (d', t) -> Counts bytes seen done d -> Counts bytes seen done d' /\ xt_records d' = xt_records d.
Proof.
  unfold optional_unix_time. intros Hrun Hd. repeat case_match; simplify_eq; split; try done. by apply push_warning_counts.
Qed.
Lemma stream_icon_keeps {T} bytes seen done object (d d' : XtreamDocument T) (icon : option Url) :
  stream_icon float_text object d = (d', icon) -> Counts bytes seen done d -> Counts bytes seen done d' /\ xt_records d' = xt_records d.
Proof.
  unfold stream_icon. intros Hrun Hd. repeat case_match; simplify_eq; split; try done. by apply push_warning_counts.
Qed.

(** What the records of each kind satisfy. *)
Definition category_ok (limits : ParseLimits) (c : XtreamCategory) : Prop :=
  utf8_len (xc_id c) <= max_text_bytes limits /\ utf8_len (xc_name c) <= max_text_bytes limits.
Definition stream_ok (limits : ParseLimits) (s : XtreamLiveStream Url) : Prop :=
  0 <= xl_stream_id s <= u64_max /\ utf8_len (xl_name s) <= max_text_bytes limits.
Definition listing_ok (limits : ParseLimits) (e : XtreamShortEpgEntry) : Prop :=
  xs_start e < xs_stop e /\ utf8_len (xs_title e) <= max_text_bytes limits /\ utf8_len (xs_description e) <= max_text_bytes limits.

Lemma category_step_ok limits bytes seen done d value d' :
  Counts bytes seen done d -> Forall (category_ok limits) (xt_records d) -> category_step float_text limits d value = Ok d' ->
  Counts bytes seen (done + 1) d' /\ Forall (category_ok limits) (xt_records d').
Proof.
  intros Hd HP. unfold category_step. destruct (as_object value); [|by intros [= <-]; apply skip_both].
  destruct (scalar_field _ _ _) as [id|]; [|by intros [= <-]; apply skip_both].
  destruct (scalar_field _ _ _) as [name|]; [|by intros [= <-]; apply skip_both].
  destruct (_ || _) eqn:Hlen; [done|]. apply orb_false_iff in Hlen as [Hid Hname]. intros [= <-]. apply emit_both; [done..|].
  split; cbn; lia.
Qed.

Lemma parse_unsigned_bounds max s n : parse_unsigned max s = Some n -> 0 <= n <= max.
Proof.
  unfold parse_unsigned, parse_digits. destruct (_ || _); [done|]. intros Hn. apply checked_inv in Hn as [-> Hn]. lia.
Qed.

Lemma u64ish_bounds value n : u64ish value = Some n -> 0 <= n <= u64_max.
Proof.
  unfold u64ish. destruct value as [[]|]; cbn; try done.
  - case_match eqn:E; [|done]. intros [= <-]. lia.
  - intros Hn. by apply parse_unsigned_bounds in Hn.
Qed.

Lemma stream_step_ok limits bytes seen done d value d' :
  Counts bytes seen done d -> Forall (stream_ok limits) (xt_records d) -> stream_step (Tz := Tz) float_text limits d value = Ok d' ->
  Counts bytes seen (done + 1) d' /\ Forall (stream_ok limits) (xt_records d').
Proof.
  intros Hd HP. unfold stream_step. destruct (as_object value); [|by intros [= <-]; apply skip_both].
  destruct (u64ish _) as [id|] eqn:Hid; [|by intros [= <-]; apply skip_both].
  destruct (scalar_field _ _ _) as [name|]; [|by intros [= <-]; apply skip_both].
  destruct (Z.ltb_spec (max_text_bytes limits) (utf8_len name)); [done|].
  destruct (stream_icon _ _ _) as [d1 icon] eqn:Hicon. destruct (optional_unix_time _ d1) as [d2 added] eqn:Hadded. intros [= <-].
  eapply stream_icon_keeps in Hicon as [Hd1 Hr1]; [|done]. eapply unix_time_keeps in Hadded as [Hd2 Hr2]; [|done].
  apply emit_both; [done|by rewrite Hr2, Hr1|]. split; [by eapply u64ish_bounds|done].
Qed.

Lemma decoded_text_bound value maximum s :
  0 <= maximum -> decoded_text float_text base64_decode base64_decode_no_pad value maximum = Ok s -> utf8_len s <= maximum.
Proof.
  intros Hm. unfold decoded_text. destruct (value ≫= _) as [raw|]; [|by intros [= <-]].
  destruct (_ <? _); [done|]. case_match eqn:Hle; [done|]. intros [= <-]. lia.
Qed.

Lemma listing_step_ok limits timezone bytes seen done d value d' :
  0 <= max_text_bytes limits ->
  Counts bytes seen done d -> Forall (listing_ok limits) (xt_records d) ->
  listing_step (Tz := Tz) float_text base64_decode base64_decode_no_pad parse_rfc3339 limits timezone d value = Ok d' ->
  Counts bytes seen (done + 1) d' /\ Forall (listing_ok limits) (xt_records d').
Proof.
  intros Hm Hd HP. unfold listing_step. destruct (as_object value); [|by intros [= <-]; apply skip_both].
  destruct (parse_listing_time _ _ _) as [start|]; [|by intros [= <-]; apply skip_both].
  destruct (parse_listing_time _ _ _) as [stop|]; [|by intros [= <-]; apply skip_both].
  destruct (Z.leb_spec stop start); [by intros [= <-]; apply skip_both|].
  destruct (decoded_text _ _ _ _ _) as [title|] eqn:Ht; [|done]. cbn [result_bind].
  destruct (decoded_text _ _ _ (get_field _ "description") _) as [description|] eqn:Hdesc; [|done]. cbn [result_bind]. intros [= <-].
  apply emit_both; [done..|]. split_and!; cbn; [done|by eapply decoded_text_bound|by eapply decoded_text_bound].
Qed.

(** A document in which every record is accounted for. *)
Definition accounts {T} (P : T -> Prop) (limits : ParseLimits) (d : XtreamDocument T) : Prop :=
  let s := xt_stats d in
  records_seen s = records_emitted s + records_skipped s /\ records_seen s <= max_records limits /\
  records_emitted s = zlen (xt_records d) /\ errors s = records_skipped s /\
  zlen (xt_diagnostics d) = warnings s + errors s /\ bytes_read s <= max_input_bytes limits /\ Forall P (xt_records d).

Lemma read_json_bound reader limits value n : read_json json_from_slice reader limits = Ok (value, n) -> n <= max_input_bytes limits.
Proof.
  unfold read_json. destruct (read_limited _ _) as [b|]; [|done]. destruct (Z.ltb_spec (max_input_bytes limits) (zlen b)); [done|].
  destruct (json_from_slice b); [|done]. by intros [= _ <-].
Qed.

Lemma accounts_of {T} (P : T -> Prop) limits step values bytes (d : XtreamDocument T) :
  (forall bytes seen done d value d', Counts bytes seen done d -> Forall P (xt_records d) -> step d value = Ok d' ->
     Counts bytes seen (done + 1) d' /\ Forall P (xt_records d')) ->
  bytes <= max_input_bytes limits -> ensure_record_limit (zlen values) (max_records limits) = Ok tt ->
  each_value step (new_document bytes (zlen values)) values = Ok d -> accounts P limits d.
Proof.
  intros Hstep Hb Hlimit Hrun. unfold ensure_record_limit in Hlimit.
  destruct (Z.ltb_spec (max_records limits) (zlen values)); [done|].
  destruct (each_value_spec step P bytes (zlen values) (Hstep bytes (zlen values)) _ 0 _ _
              (new_document_counts bytes (zlen values)) (Forall_nil_2 _) Hrun) as [[] HP].
  unfold accounts. split_and!; try done; lia.
Qed.

Abbreviation live_categories := (parse_xtream_live_categories json_from_slice float_text).
Abbreviation live_streams := (parse_xtream_live_streams (Tz := Tz) (Url := Url) json_from_slice float_text).
Abbreviation short_epg :=
  (parse_xtream_short_epg_in_timezone (Tz := Tz) json_from_slice float_text base64_decode base64_decode_no_pad parse_rfc3339).

(** Every record of a response is read, or skipped with an error that is
    reported; a response with too many records is refused; and the records that
    are read have texts within the limit, identifiers in the range of the
    machine, and a start before their end. *)
Theorem xtream_accounts reader limits timezone :
  0 <= max_text_bytes limits ->
  (forall d, live_categories reader limits = Ok d -> accounts (category_ok limits) limits d) /\
  (forall d, live_streams reader limits = Ok d -> accounts (stream_ok limits) limits d) /\
  (forall d, short_epg reader limits timezone = Ok d -> accounts (listing_ok limits) limits d).
Proof.
  intros Hm. split_and!; intros d.
  - unfold parse_xtream_live_categories. destruct (read_json _ _ _) as [[value n]|] eqn:Hr; [|done]. cbn [result_bind fst snd].
    destruct (as_array value) as [values|]; [|done]. destruct (ensure_record_limit _ _) as [[]|] eqn:Hl; [|done]. cbn [result_bind].
    apply accounts_of; [by intros; eapply category_step_ok|by eapply read_json_bound|done].
  - unfold parse_xtream_live_streams. destruct (read_json _ _ _) as [[value n]|] eqn:Hr; [|done]. cbn [result_bind fst snd].
    destruct (as_array value) as [values|]; [|done]. destruct (ensure_record_limit _ _) as [[]|] eqn:Hl; [|done]. cbn [result_bind].
    apply accounts_of; [by intros; eapply stream_step_ok|by eapply read_json_bound|done].
  - unfold parse_xtream_short_epg_in_timezone. destruct (tz_from_str _) as [tz|]; [|done].
    destruct (read_json _ _ _) as [[value n]|] eqn:Hr; [|done]. cbn [result_bind fst snd].
    destruct (_ ≫= _) as [values|]; [|done]. destruct (ensure_record_limit _ _) as [[]|] eqn:Hl; [|done]. cbn [result_bind].
    apply accounts_of; [by intros; eapply listing_step_ok|by eapply read_json_bound|done].
Qed.

(** *** Credentials *)

Lemma public_fields_ok prefix fields max_text metadata (P : text -> Prop) :
  map_Forall (fun k s => P k /\ utf8_len s <= max_text) metadata ->
  (forall key, names_credential key = false -> known_auth_key key = false -> P (str prefix ++ str "." ++ key)) ->
  map_Forall (fun k s => P k /\ utf8_len s <= max_text) (public_fields float_text prefix fields max_text metadata).
Proof.
  intros Hm HP. unfold public_fields. revert metadata Hm. induction fields as [|[key value] fields IH]; intros metadata Hm; [done|].
  cbn [foldl]. apply IH. destruct (names_credential key) eqn:Hn; [done|]. destruct (known_auth_key key) eqn:Hk; [done|]. cbn [orb].
  destruct (scalar_string _ value) as [s|]; [|done]. destruct (Z.leb_spec (utf8_len s) max_text); [|done].
  apply map_Forall_insert_2; [|done]. split; [by apply HP|done].
Qed.

(** The fields of an account that are kept do not name a credential. *)
Theorem account_without_credentials reader limits d :
  parse_xtream_auth (Tz := Tz) (Url := Url) json_from_slice float_text reader limits = Ok d ->
  exists account, xt_records d = [account] /\
    map_Forall (fun k s => (exists prefix key, prefix ∈ ["user"; "server"]%string /\ k = str prefix ++ str "." ++ key /\
                              names_credential key = false /\ known_auth_key key = false) /\
                           utf8_len s <= max_text_bytes limits) (xa_metadata account).
Proof.
  unfold parse_xtream_auth. destruct (read_json _ _ _) as [[value n]|] eqn:Hr; [|done]. cbn [result_bind fst snd].
  destruct (as_object value) as [object|]; [|done]. destruct (_ ≫= as_object) as [user|]; [|done].
  set (server := get_field object "server_info" ≫= as_object).
  destruct (optional_unix_time _ _) as [d1 expiration] eqn:He.
  destruct (match server with Some _ => _ | None => _ end) as [d2 timestamp] eqn:Hs.
  destruct (optional_bounded_string _ _ _) as [status|]; [|done]. cbn [result_bind]. intros [= <-].
  assert (xt_records d2 = []) as Hnone.
  { eapply unix_time_keeps in He as [Hd1 Hr1]; [|apply new_document_counts]. destruct server as [fields|].
    - eapply unix_time_keeps in Hs as [_ Hr2]; [|done]. by rewrite Hr2, Hr1.
    - by injection Hs as <- <-. }
  eexists. cbn [emit_record xt_records]. rewrite Hnone. split; [done|]. cbn [xa_metadata].
  set (P := fun k => exists prefix key, prefix ∈ ["user"; "server"]%string /\ k = str prefix ++ str "." ++ key /\
                       names_credential key = false /\ known_auth_key key = false).
  assert (map_Forall (fun k s => P k /\ utf8_len s <= max_text_bytes limits)
            (public_fields float_text "user" user (max_text_bytes limits) ∅)) as Huser.
  { apply public_fields_ok; [apply map_Forall_empty|]. intros key ? ?. exists "user"%string, key. split_and!; try done. by left. }
  destruct server as [fields|]; [|done]. apply public_fields_ok; [done|]. intros key ? ?. exists "server"%string, key.
  split_and!; try done. right. by left.
Qed.
End Spec.
