(* ===== verification/XtreamEndpoints.v ===== *)
(** * Xtream endpoints

    [crates/ingest/src/xtream_endpoints.rs] and [DownloadRequest] of
    [artifact.rs]: the requests to an Xtream server, made from the one URL that
    is saved, which has the credentials in its query; the template of the stream
    URLs; and the forms of all of them that an operator may see.

    URLs are those of [Hls.v], with the edits of the [url] library. *)
From Stdlib Require Import ZArith Lia.
From stdpp Require Import base numbers option strings.
From stdpp Require Import list.
From S2P Require Import Prelude Text Hls M3u Artifact Events.
Open Scope Z_scope.
Open Scope relay_scope.

(** [Url::query_pairs], [path_segments], [set_query(None)],
    [set_fragment(None)], [query_pairs_mut().append_pair],
    [path_segments_mut().push] and [.pop] *)
Class UrlEdits (Url : Type) := {
  url_pairs : Url -> list (text * text);
  url_segments : Url -> option (list text);
  without_query : Url -> Url;
  without_fragment : Url -> Url;
  append_pair : Url -> text -> text -> Url;
  push_segment : Url -> text -> Url;
  pop_segment : Url -> Url
}.

(** What the [url] library documents of a query. *)
Class UrlEditLaws (Url : Type) `{UrlEdits Url} := {
  without_query_pairs u : url_pairs (without_query u) = [];
  append_pair_pairs u k v : url_pairs (append_pair u k v) = url_pairs u ++ [(k, v)]
}.

(** [DownloadRequest]; times are nanoseconds. *)
Record DownloadRequest (Url : Type) := mkDownloadRequest { dr_endpoint : Url; dr_stall_timeout : Z; dr_max_timeout : Z }.
Arguments mkDownloadRequest {Url}.
Arguments dr_endpoint {Url}.
Arguments dr_stall_timeout {Url}.
Arguments dr_max_timeout {Url}.

(** [str::replace]; every step takes a character at least. *)
Fixpoint replace_from (fuel : nat) (needle to s : text) : text :=
  match fuel with
  | O => s
  | S fuel =>
      match s with
      | [] => []
      | c :: rest =>
          if starts_with needle s then to ++ replace_from fuel needle to (drop (length needle) s)
          else c :: replace_from fuel needle to rest
      end
  end.
Definition replace_text (needle to s : text) : text := replace_from (S (length s)) needle to s.

Section Endpoints.
Context {Url : Type} `{Urls Url} `{UrlEdits Url}.

Definition MINUTE : Z := 60 * 1000000000.
(** [DownloadRequest::new] and [with_timeouts] *)
Definition download_request (endpoint : Url) : DownloadRequest Url := mkDownloadRequest endpoint MINUTE (10 * MINUTE).
Definition with_timeouts (request : DownloadRequest Url) (stall max : Z) : DownloadRequest Url :=
  mkDownloadRequest (dr_endpoint request) stall max.

Record XtreamPublicEndpoints := mkXtreamPublicEndpoints {
  xp_authentication : Url; xp_live_categories : Url; xp_live_streams : Url; xp_stream_template : text }.
Record XtreamStreamEndpointTemplate := mkXtreamStreamEndpointTemplate {
  xe_base : Url; xe_username : text; xe_password : text; xe_public_template : text }.
Record XtreamEndpoints := mkXtreamEndpoints {
  xn_authentication : Url;
  xn_live_categories : Url;
  xn_live_streams : Url;
  xn_stream_template : XtreamStreamEndpointTemplate;
  xn_public : XtreamPublicEndpoints;
}.

(** [XtreamStreamEndpointTemplate::url_for] *)
Definition url_for (template : XtreamStreamEndpointTemplate) (stream_id : Z) : result Url IngestError :=
  match url_segments (xe_base template) with
  | None => Err EndpointProtection
  | Some _ =>
      Ok (push_segment (push_segment (push_segment (push_segment (xe_base template) (str "live")) (xe_username template))
            (xe_password template)) (decimal stream_id ++ str ".ts"))
  end.

Definition PLAYER_API_FILE : text := str "player_api.php".

(** [validate_player_api_url] *)
Definition validate_player_api_url (endpoint : Url) : result unit IngestError :=
  if negb (bool_decide (url_scheme endpoint = str "http") || bool_decide (url_scheme endpoint = str "https")) ||
     bool_decide (url_host_str endpoint = None)
  then Err (InvalidRequest "Xtream endpoint must use HTTP or HTTPS and include a host")
  else if negb (bool_decide (url_username endpoint = [])) || bool_decide (is_Some (url_password endpoint))
  then Err (InvalidRequest "Xtream endpoint must use query credentials")
  else if bool_decide (is_Some (url_fragment endpoint)) then Err (InvalidRequest "Xtream endpoint must not include a fragment")
  else if bool_decide (url_segments endpoint ≫= last = Some PLAYER_API_FILE) then Ok tt
  else Err (InvalidRequest "Xtream endpoint path must end with player_api.php").

(** [set_credential], the loop and the checks of [query_credentials] *)
Definition set_credential (target : option text) (value : text) : result (option text) IngestError :=
  match target with
  | Some _ => Err (InvalidRequest "Xtream endpoint contains duplicate credentials")
  | None => Ok (Some value)
  end.
Fixpoint collect_credentials (pairs : list (text * text)) (username password : option text)
  : result (option text * option text) IngestError :=
  match pairs with
  | [] => Ok (username, password)
  | (key, value) :: pairs =>
      if bool_decide (key = str "username")
      then try username <- set_credential username value; collect_credentials pairs username password
      else if bool_decide (key = str "password")
      then try password <- set_credential password value; collect_credentials pairs username password
      else collect_credentials pairs username password
  end.
Definition nonempty (value : option text) (reason : string) : result text IngestError :=
  match value with
  | Some (c :: s) => Ok (c :: s)
  | _ => Err (InvalidRequest reason)
  end.
Definition query_credentials (endpoint : Url) : result (text * text) IngestError :=
  try found <- collect_credentials (url_pairs endpoint) None None;
  try username <- nonempty (fst found) "Xtream endpoint requires a nonempty username";
  try password <- nonempty (snd found) "Xtream endpoint requires a nonempty password";
  Ok (username, password).

(** [api_endpoint], [stream_base] and [public_endpoints] *)
Definition api_endpoint (saved : Url) (username password : text) (action : option string) : Url :=
  let endpoint := append_pair (append_pair (without_query saved) (str "username") username) (str "password") password in
  match action with
  | Some action => append_pair endpoint (str "action") (str action)
  | None => endpoint
  end.
Definition stream_base (saved : Url) : Url := pop_segment (without_fragment (without_query saved)).
Definition public_endpoints (saved : Url) : XtreamPublicEndpoints :=
  let authentication := without_query saved in
  let public_stream := push_segment (push_segment (stream_base saved) (str "live")) (str "IPTV_STREAM_ID.ts") in
  mkXtreamPublicEndpoints authentication
    (append_pair authentication (str "action") (str "get_live_categories"))
    (append_pair authentication (str "action") (str "get_live_streams"))
    (replace_text (str "IPTV_STREAM_ID.ts") (str "{stream_id}.ts") (url_as_str public_stream)).

(** [XtreamEndpoints::from_url] and [from_player_api_url] *)
Definition from_url (saved : Url) : result XtreamEndpoints IngestError :=
  try _ <- validate_player_api_url saved;
  try credentials <- query_credentials saved;
  let '(username, password) := credentials in
  let public := public_endpoints saved in
  Ok (mkXtreamEndpoints (api_endpoint saved username password None)
        (api_endpoint saved username password (Some "get_live_categories"%string))
        (api_endpoint saved username password (Some "get_live_streams"%string))
        (mkXtreamStreamEndpointTemplate (stream_base saved) username password (xp_stream_template public)) public).
Definition from_player_api_url (saved : text) : result XtreamEndpoints IngestError :=
  match url_parse saved with
  | None => Err (InvalidRequest "Xtream endpoint must be an absolute URL")
  | Some endpoint => from_url endpoint
  end.

(** [authentication_request], [live_categories_request], [live_streams_request]
    and [short_epg_request] *)
Definition authentication_request (e : XtreamEndpoints) : DownloadRequest Url := download_request (xn_authentication e).
Definition live_categories_request (e : XtreamEndpoints) : DownloadRequest Url := download_request (xn_live_categories e).
Definition live_streams_request (e : XtreamEndpoints) : DownloadRequest Url := download_request (xn_live_streams e).
Definition short_epg_request (e : XtreamEndpoints) (stream_id limit : Z) : DownloadRequest Url :=
  download_request
    (append_pair (append_pair (append_pair (xn_authentication e) (str "action") (str "get_short_epg"))
       (str "stream_id") (decimal stream_id)) (str "limit") (decimal (Z.max limit 1))).
End Endpoints.
Arguments XtreamPublicEndpoints : clear implicits.
Arguments XtreamStreamEndpointTemplate : clear implicits.
Arguments XtreamEndpoints : clear implicits.

(** ** Theorems *)

Section Spec.
Context {Url : Type} `{Urls Url} `{UrlEditLaws Url}.

(** The values of a key in a query. *)
Definition values_of (key : string) (pairs : list (text * text)) : list text :=
  omap (fun '(k, v) => if bool_decide (k = str key) then Some v else None) pairs.

Lemma set_credential_ok target value target' :
  set_credential target value = Ok target' -> option_list target' = option_list target ++ [value].
Proof. unfold set_credential. destruct target; [done|]. by intros [= <-]. Qed.

Lemma collect_credentials_ok pairs u p u' p' :
  collect_credentials pairs u p = Ok (u', p') ->
  option_list u' = option_list u ++ values_of "username" pairs /\ option_list p' = option_list p ++ values_of "password" pairs.
Proof.
  revert u p. induction pairs as [|[k v] pairs IH]; intros u p; cbn [collect_credentials]; unfold values_of; cbn [omap list_omap].
  { intros [= <- <-]. by rewrite !app_nil_r. }
  destruct (bool_decide_reflect (k = str "username")) as [->|].
  { destruct (set_credential u v) as [u1|] eqn:Hs; [|done]. cbn [result_bind]. intros Hrun. apply IH in Hrun as [Hu Hp].
    apply set_credential_ok in Hs. rewrite Hu, Hp, Hs, <- app_assoc. by rewrite bool_decide_false. }
  destruct (bool_decide_reflect (k = str "password")) as [->|]; [|by apply IH].
  destruct (set_credential p v) as [p1|] eqn:Hs; [|done]. cbn [result_bind]. intros Hrun. apply IH in Hrun as [Hu Hp].
  apply set_credential_ok in Hs. by rewrite Hu, Hp, Hs, <- app_assoc.
Qed.

Lemma nonempty_ok value reason s : nonempty value reason = Ok s -> value = Some s /\ s <> [].
Proof. unfold nonempty. destruct value as [[|c s']|]; [done| |done]. by intros [= <-]. Qed.

(** The saved URL of an account has each credential once.  The requests carry
    them, once each, and what an operator sees does not depend on the query that
    holds them. *)
Theorem credentials_stay_in_requests saved e :
  from_url saved = Ok e ->
  exists username password, username <> [] /\ password <> [] /\
    values_of "username" (url_pairs saved) = [username] /\ values_of "password" (url_pairs saved) = [password] /\
    let credentials := [(str "username", username); (str "password", password)] in
    url_pairs (dr_endpoint (authentication_request e)) = credentials /\
    url_pairs (dr_endpoint (live_categories_request e)) = credentials ++ [(str "action", str "get_live_categories")] /\
    url_pairs (dr_endpoint (live_streams_request e)) = credentials ++ [(str "action", str "get_live_streams")] /\
    (forall stream_id limit, url_pairs (dr_endpoint (short_epg_request e stream_id limit)) =
       credentials ++ [(str "action", str "get_short_epg"); (str "stream_id", decimal stream_id);
                       (str "limit", decimal (Z.max limit 1))]) /\
    forall saved', without_query saved' = without_query saved -> public_endpoints saved' = xn_public e.
Proof.
  unfold from_url. destruct (validate_player_api_url saved) as [[]|]; [|done]. cbn [result_bind].
  unfold query_credentials. destruct (collect_credentials _ _ _) as [[u p]|] eqn:Hc; [|done]. cbn [result_bind fst snd].
  destruct (nonempty u _) as [username|] eqn:Hu; [|done]. cbn [result_bind].
  destruct (nonempty p _) as [password|] eqn:Hp; [|done]. cbn [result_bind]. intros [= <-].
  apply nonempty_ok in Hu as [-> Hu], Hp as [-> Hp]. apply collect_credentials_ok in Hc as [Hcu Hcp].
  exists username, password. cbn in Hcu, Hcp. split_and!; try done.
  all: unfold authentication_request, live_categories_request, live_streams_request, short_epg_request, api_endpoint; cbn.
  all: intros; rewrite ?append_pair_pairs, ?without_query_pairs; try done.
  unfold public_endpoints, stream_base. by rewrite H2.
Qed.
End Spec.
