(* ===== verification/Ingest.v ===== *)
(** * The preparation of a snapshot

    [crates/ingest/src/pipeline.rs] from the parsed records to the prepared
    snapshot: identities that survive a change of the stream URLs, the texts
    that are kept without credentials, and the staging of M3U entries and of
    XMLTV channels and programmes, while the source is read, or from a parsed
    artifact.  The records of the Xtream API are prepared in [Prepare.v]; the
    run of an ingestion is [IngestRun.v].

    URL parsing, the character classes of Unicode, the protection of stream
    endpoints, the identifiers that are drawn and the disk are parameters.
    JSON values are those of [Settings.v]. *)
From Stdlib Require Import ZArith Lia.
From stdpp Require Import base numbers option strings.
From stdpp Require Import list gmap.
From S2P Require Import Prelude Text Hls M3u M3uSpec Events Artifact Staging Settings Xmltv.
Open Scope Z_scope.
Open Scope relay_scope.

(** ** Formats and owners *)

Inductive XtreamPayloadKind := XtreamAuthPayload | LiveCategories | LiveStreams | ShortEpg.
Inductive IngestFormat := FormatM3u | FormatXmltv | FormatXtream (payload : XtreamPayloadKind).

(** [IngestFormat::snapshot_kind] and [display_name] *)
Definition snapshot_kind (format : IngestFormat) : string :=
  match format with
  | FormatM3u => "m3u"
  | FormatXmltv => "xmltv"
  | FormatXtream ShortEpg => "xtream-epg"
  | FormatXtream _ => "xtream"
  end.
Definition display_name (format : IngestFormat) : string :=
  match format with
  | FormatM3u => "M3U"
  | FormatXmltv => "XMLTV"
  | FormatXtream XtreamAuthPayload => "Xtream auth"
  | FormatXtream LiveCategories => "Xtream live categories"
  | FormatXtream LiveStreams => "Xtream live streams"
  | FormatXtream ShortEpg => "Xtream short EPG"
  end.

Inductive SnapshotOwner := ProviderAccount (id : Z) | EpgSource (id : Z).

(** ** Rows *)

Record ProtectedEndpoint := mkProtectedEndpoint { ep_template : text; ep_secret_ciphertext : option bytes }.

Record PreparedProviderStream := mkPreparedProviderStream {
  ps_id : Z;
  ps_stable_key : text;
  ps_provider_stream_id : option text;
  ps_name : text;
  ps_group_name : option text;
  ps_tvg_id : option text;
  ps_tvg_name : option text;
  ps_logo_url : option text;
  ps_channel_number : option text;
  ps_endpoint : ProtectedEndpoint;
  ps_attributes : Value;
  ps_directives : Value;
  ps_supported : bool;
}.

Record PreparedEpgChannel := mkPreparedEpgChannel {
  pc_id : Z;
  pc_xmltv_id : text;
  pc_display_names : Value;
  pc_icon_urls : Value;
  pc_metadata : Value;
}.

Record PreparedProgramme := mkPreparedProgramme {
  pp_id : Z;
  pp_epg_channel_id : Z;
  pp_starts_at : Z;
  pp_stops_at : option Z;
  pp_original_start : text;
  pp_original_stop : option text;
  pp_title : text;
  pp_subtitle : option text;
  pp_description : option text;
  pp_categories : Value;
  pp_metadata : Value;
}.

Record PreparedSnapshot := mkPreparedSnapshot {
  sn_id : Z;
  sn_owner : SnapshotOwner;
  sn_format : IngestFormat;
  sn_checksum_sha256 : text;
  sn_byte_count : Z;
  sn_record_count : Z;
  sn_diagnostic_count : Z;
  sn_diagnostics : Value;
  sn_provider_streams : StagedRows PreparedProviderStream;
  sn_epg_channels : StagedRows PreparedEpgChannel;
  sn_programmes : StagedRows PreparedProgramme;
}.

(** [PreparedSnapshot::is_nonempty] *)
Definition is_nonempty (snapshot : PreparedSnapshot) : bool :=
  negb (staged_is_empty (sn_provider_streams snapshot)) || negb (staged_is_empty (sn_epg_channels snapshot)) ||
  negb (staged_is_empty (sn_programmes snapshot)).

(** ** Texts without credentials *)

(** [first_attribute]: the first key that is present decides. *)
Fixpoint find_attribute (attributes : Attributes) (keys : list string) : option text :=
  match keys with
  | [] => None
  | key :: keys => match attributes !! str key with Some value => Some value | None => find_attribute attributes keys end
  end.
Definition first_attribute (attributes : Attributes) (keys : list string) : option text := not_blank (find_attribute attributes keys).

Definition stream_id_keys : list string := ["channel-id"; "stream-id"; "id"].
Definition channel_number_keys : list string := ["tvg-chno"; "channel-number"; "ch-number"].

(** [is_sensitive_key] *)
Definition sensitive_needles : list string :=
  ["password"; "username"; "token"; "secret"; "credential"; "api_key"; "apikey"; "auth"].
Definition is_sensitive_key (key : text) : bool :=
  existsb (fun needle => contains_text (str needle) (List.map to_ascii_lowercase key)) sensitive_needles.

(** A JSON object, whose keys are in order. *)
Definition object_of (fields : gmap text Value) : Value :=
  JObject (omap (fun key => pair key <$> fields !! key) (sorted_keys fields)).
Definition optional_string (value : option text) : Value := match value with Some s => JString s | None => JNull end.
Definition optional_integer (value : option Z) : Value := match value with Some z => JInteger z | None => JNull end.

Definition REDACTED : text := str "[REDACTED]".
Definition REDACTED_URL : text := str "[REDACTED CREDENTIAL URL]".
#[global] Arguments REDACTED : simpl never.
#[global] Arguments REDACTED_URL : simpl never.

Section Sanitize.
Context {Url : Type} `{Urls Url} (url_query_pairs : Url -> list (text * text)).

(** [has_url_credentials] *)
Definition has_url_credentials (url : Url) : bool :=
  negb (bool_decide (url_username url = [])) || bool_decide (is_Some (url_password url)) ||
  existsb (fun pair => is_sensitive_key (fst pair)) (url_query_pairs url).

(** [safe_public_url] *)
Definition safe_public_url (value : text) : option text :=
  url ← url_parse value; if has_url_credentials url then None else Some (url_as_str url).

(** [sanitize_text] *)
Definition sanitize_text (value : text) : text :=
  match url_parse value with
  | Some url => if has_url_credentials url then REDACTED_URL else value
  | None => value
  end.

(** [sanitized_map] *)
Definition sanitized_map (attributes : Attributes) : Value :=
  object_of (map_imap (fun key value =>
    Some (JString (if is_sensitive_key key then REDACTED else sanitize_text value))) attributes).

(** [sanitize_json] *)
Fixpoint sanitize_json (value : Value) : Value :=
  match value with
  | JObject fields =>
      JObject ((fix go (fields : list (text * Value)) :=
        match fields with
        | [] => []
        | (key, value) :: fields =>
            (key, if is_sensitive_key key then JString REDACTED else sanitize_json value) :: go fields
        end) fields)
  | JArray values => JArray (List.map sanitize_json values)
  | JString value => JString (sanitize_text value)
  | other => other
  end.

(** ** Identities of M3U entries *)

Context (is_alphanumeric : Z -> bool) (lowercase_char : Z -> text).

(** [trim_matches('-')] *)
Definition trim_dashes (s : text) : text :=
  rev (drop_while (Z.eqb 0x2d) (rev (drop_while (Z.eqb 0x2d) s))).

(** The loop of [normalize_identity_part] *)
Fixpoint normalize_identity_from (separator : bool) (s : text) : text :=
  match s with
  | [] => []
  | c :: s =>
      if is_alphanumeric c then lowercase_char c ++ normalize_identity_from false s
      else if separator then normalize_identity_from true s
      else 0x2d :: normalize_identity_from true s
  end.
Definition normalize_identity_part (value : text) : text := trim_dashes (normalize_identity_from false (trim value)).

(** [M3uEntry::tvg_id] and [group_title] *)
Definition tvg_id (entry : M3uEntry Url) : option text := m3_attributes entry !! str "tvg-id".
Definition group_title (entry : M3uEntry Url) : option text := m3_attributes entry !! str "group-title".

(** [stable_m3u_key] *)
Definition stable_m3u_key (entry : M3uEntry Url) : text :=
  match not_blank (tvg_id entry) with
  | Some tvg_id => str "tvg:" ++ tvg_id
  | None =>
      match not_blank (first_attribute (m3_attributes entry) stream_id_keys) with
      | Some stream_id => str "provider:" ++ stream_id
      | None =>
          str "m3u:" ++ normalize_identity_part (default [] (first_attribute (m3_attributes entry) channel_number_keys)) ++
          str ":" ++ normalize_identity_part (default [] (group_title entry)) ++
          str ":" ++ normalize_identity_part (m3_title entry)
      end
  end.

(** [unique_m3u_key]: the count of each base key so far. *)
Definition duplicate_key (base_key : text) (duplicate : Z) : text :=
  if duplicate =? 0 then base_key else base_key ++ str ":duplicate-" ++ decimal duplicate.
Definition unique_m3u_key (entry : M3uEntry Url) (stable_keys : gmap text Z) : gmap text Z * text :=
  let base_key := stable_m3u_key entry in
  let duplicate := default 0 (stable_keys !! base_key) in
  (<[base_key := duplicate + 1]> stable_keys, duplicate_key base_key duplicate).
End Sanitize.

(** [diagnostics_json]; the formatted names of severity and code are their
    texts. *)
Definition severity_text (s : Severity) : text := match s with SevWarning => str "warning" | SevError => str "error" end.
Definition code_text (c : DiagnosticCode) : text :=
  str match c with
      | MissingHeader => "MissingHeader" | OrphanMetadata => "OrphanMetadata" | OrphanUrl => "OrphanUrl"
      | ReplacedPendingEntry => "ReplacedPendingEntry" | InvalidAttribute => "InvalidAttribute"
      | InvalidDuration => "InvalidDuration" | InvalidUrl => "InvalidUrl" | UnknownDirective => "UnknownDirective"
      | InvalidXmltvRecord => "InvalidXmltvRecord" | UnknownXmlElement => "UnknownXmlElement"
      | InvalidTimestamp => "InvalidTimestamp" | InvalidInterval => "InvalidInterval"
      | UndeclaredChannel => "UndeclaredChannel" | DuplicateIdentity => "DuplicateIdentity"
      | InvalidEventRule => "InvalidEventRule" | InvalidXtreamRecord => "InvalidXtreamRecord"
      end.
Definition diagnostic_json (d : Diagnostic) : Value :=
  JObject [(str "byte_offset", optional_integer (dg_byte_offset d)); (str "code", JString (code_text (dg_code d)));
           (str "line", optional_integer (dg_line d)); (str "severity", JString (severity_text (dg_severity d)))].
Definition diagnostics_json (diagnostics : list Diagnostic) : Value := JArray (List.map diagnostic_json diagnostics).

(** ** Snapshots *)

(** [empty_snapshot] *)
Definition empty_snapshot (id : Z) (owner : SnapshotOwner) (format : IngestFormat) (checksum : text) (byte_count : Z)
  : PreparedSnapshot :=
  mkPreparedSnapshot id owner format checksum byte_count 0 0 (JArray []) (staged_new 1000) (staged_new 1000) (staged_new 1000).

Definition set_provider_streams (s : PreparedSnapshot) (rows : StagedRows PreparedProviderStream) : PreparedSnapshot :=
  mkPreparedSnapshot (sn_id s) (sn_owner s) (sn_format s) (sn_checksum_sha256 s) (sn_byte_count s) (sn_record_count s)
    (sn_diagnostic_count s) (sn_diagnostics s) rows (sn_epg_channels s) (sn_programmes s).
Definition set_epg_channels (s : PreparedSnapshot) (rows : StagedRows PreparedEpgChannel) : PreparedSnapshot :=
  mkPreparedSnapshot (sn_id s) (sn_owner s) (sn_format s) (sn_checksum_sha256 s) (sn_byte_count s) (sn_record_count s)
    (sn_diagnostic_count s) (sn_diagnostics s) (sn_provider_streams s) rows (sn_programmes s).
Definition set_programmes (s : PreparedSnapshot) (rows : StagedRows PreparedProgramme) : PreparedSnapshot :=
  mkPreparedSnapshot (sn_id s) (sn_owner s) (sn_format s) (sn_checksum_sha256 s) (sn_byte_count s) (sn_record_count s)
    (sn_diagnostic_count s) (sn_diagnostics s) (sn_provider_streams s) (sn_epg_channels s) rows.
Definition set_diagnostics (s : PreparedSnapshot) (count : Z) (diagnostics : Value) : PreparedSnapshot :=
  mkPreparedSnapshot (sn_id s) (sn_owner s) (sn_format s) (sn_checksum_sha256 s) (sn_byte_count s) (sn_record_count s)
    count diagnostics (sn_provider_streams s) (sn_epg_channels s) (sn_programmes s).
(** [snapshot.checksum_sha256 = ..; snapshot.byte_count = ..] *)
Definition set_artifact (s : PreparedSnapshot) (checksum : text) (byte_count : Z) : PreparedSnapshot :=
  mkPreparedSnapshot (sn_id s) (sn_owner s) (sn_format s) checksum byte_count (sn_record_count s)
    (sn_diagnostic_count s) (sn_diagnostics s) (sn_provider_streams s) (sn_epg_channels s) (sn_programmes s).

(** [finalize_snapshot] *)
Definition finalize_snapshot (s : PreparedSnapshot) : result PreparedSnapshot IngestError :=
  let count := sg_len (sn_provider_streams s) + sg_len (sn_epg_channels s) + sg_len (sn_programmes s) in
  let s :=
    mkPreparedSnapshot (sn_id s) (sn_owner s) (sn_format s) (sn_checksum_sha256 s) (sn_byte_count s)
      (default u64_max (checked u64_max count)) (sn_diagnostic_count s) (sn_diagnostics s) (sn_provider_streams s)
      (sn_epg_channels s) (sn_programmes s) in
  if is_nonempty s then Ok s else Err (EmptySnapshot (display_name (sn_format s))).

Section Stage.
Context {Url : Type} `{Urls Url} (url_query_pairs : Url -> list (text * text)).
Context (is_alphanumeric : Z -> bool) (lowercase_char : Z -> text).
(** [EndpointProtector::protect] *)
Context (protect : Url -> result ProtectedEndpoint IngestError).
Context `{JsonRows PreparedProviderStream} `{JsonRows PreparedEpgChannel} `{JsonRows PreparedProgramme}.
(** The identifiers that [Uuid::now_v7] gives one after the other, and the disk
    when the row with that number is staged. *)
Context (uuid : nat -> Z) (disk : nat -> Disk).

Abbreviation sanitize_text := (sanitize_text url_query_pairs).
Abbreviation safe_public_url := (safe_public_url url_query_pairs).
Abbreviation unique_m3u_key := (unique_m3u_key is_alphanumeric lowercase_char).

(** *** M3U *)

Definition directive_json (directive : M3uDirective) : Value :=
  JObject [(str "name", JString (di_name directive));
           (str "value", optional_string (sanitize_text <$> di_value directive))].

Definition supported_scheme (url : Url) : bool :=
  existsb (fun scheme => bool_decide (url_scheme url = str scheme)) ["http"; "https"; "udp"; "rtp"; "rtsp"].

(** The row of an entry. *)
Definition prepared_stream (id : Z) (stable_key : text) (endpoint : ProtectedEndpoint) (entry : M3uEntry Url)
  : PreparedProviderStream :=
  let attributes := m3_attributes entry in
  mkPreparedProviderStream id stable_key (first_attribute attributes stream_id_keys) (m3_title entry) (group_title entry)
    (tvg_id entry) (attributes !! str "tvg-name") (attributes !! str "tvg-logo" ≫= safe_public_url)
    (first_attribute attributes channel_number_keys) endpoint (sanitized_map url_query_pairs attributes)
    (JArray (List.map directive_json (m3_directives entry))) (supported_scheme (m3_url entry)).

(** What the staging of a playlist keeps: the snapshot, the keys, the number of
    the next identifier, and the error of the visitor. *)
Record M3uStage := mkM3uStage {
  ms_snapshot : PreparedSnapshot;
  ms_stable_keys : gmap text Z;
  ms_draws : nat;
  ms_error : option IngestError;
}.

(** [stage_m3u_entry] *)
Definition stage_m3u_entry (st : M3uStage) (entry : M3uEntry Url) : M3uStage * result unit IngestError :=
  let '(stable_keys, stable_key) := unique_m3u_key entry (ms_stable_keys st) in
  match protect (m3_url entry) with
  | Err e => (mkM3uStage (ms_snapshot st) stable_keys (ms_draws st) (ms_error st), Err e)
  | Ok endpoint =>
      let row := prepared_stream (uuid (ms_draws st)) stable_key endpoint entry in
      let '(rows, pushed) := staged_push (disk (ms_draws st)) (sn_provider_streams (ms_snapshot st)) row in
      (mkM3uStage (set_provider_streams (ms_snapshot st) rows) stable_keys (S (ms_draws st)) (ms_error st), pushed)
  end.

(** The visitor of the parser: an error of the staging is kept, and ends the
    parser with an error of its own. *)
Definition stage_visitor (st : M3uStage) (entry : M3uEntry Url) : M3uStage * result unit ParseError :=
  match stage_m3u_entry st entry with
  | (st, Ok _) => (st, Ok tt)
  | (st, Err e) => (mkM3uStage (ms_snapshot st) (ms_stable_keys st) (ms_draws st) (Some e), Err Io)
  end.

(** The M3U branch of [streaming_parse] and of [prepare_streaming_snapshot]:
    the snapshot and the number of records seen.  [None] is a parser without
    fuel, which [M3uSpec] excludes. *)
Definition stage_m3u (reader : BufReader) (limits : ParseLimits) (snapshot : PreparedSnapshot) (draws : nat)
  : option (result (PreparedSnapshot * Z) IngestError) :=
  '(st, parsed) ← parse_m3u_visit url_parse stage_visitor reader limits (mkM3uStage snapshot ∅ draws None);
  Some (match parsed, ms_error st with
        | Ok summary, _ =>
            Ok (set_diagnostics (ms_snapshot st) (warnings (pl_stats summary) + errors (pl_stats summary))
                  (diagnostics_json (pl_diagnostics summary)), records_seen (pl_stats summary))
        | Err _, Some e => Err e
        | Err source, None => Err (ParseFailed "M3U" source)
        end).

(** The M3U branch of [prepare_snapshot]: the entries of a parsed playlist. *)
Fixpoint stage_entries (st : M3uStage) (entries : list (M3uEntry Url)) : M3uStage * result unit IngestError :=
  match entries with
  | [] => (st, Ok tt)
  | entry :: entries =>
      match stage_m3u_entry st entry with
      | (st, Ok _) => stage_entries st entries
      | failed => failed
      end
  end.
Definition prepare_m3u (entries : list (M3uEntry Url)) (playlist : M3uPlaylist) (snapshot : PreparedSnapshot) (draws : nat)
  : result PreparedSnapshot IngestError :=
  let snapshot :=
    set_diagnostics snapshot (warnings (pl_stats playlist) + errors (pl_stats playlist))
      (diagnostics_json (pl_diagnostics playlist)) in
  match stage_entries (mkM3uStage snapshot ∅ draws None) entries with
  | (st, Ok _) => Ok (ms_snapshot st)
  | (_, Err e) => Err e
  end.

(** *** XMLTV *)

Context {Tz : Type} `{Chrono Tz} (from_hms_opt : Z -> Z -> Z -> option Z) (unescape : text -> result text text).
Context (programme_json : Programme Url -> option bytes) (sha256 : bytes -> bytes) `{EqDecision Url}.
(** The order in which a [HashMap] gives its entries. *)
Context (hash_order : gmap text Z -> list (text * Z)).

(** [serde_json::to_value] of localized texts and of episode numbers *)
Definition localized_json (l : LocalizedText) : Value :=
  JObject (match lt_language l with Some language => [(str "language", JString language)] | None => [] end ++
           [(str "value", JString (lt_value l))]).
Definition episode_json (e : EpisodeNumber) : Value :=
  JObject (match en_system e with Some system => [(str "system", JString system)] | None => [] end ++
           [(str "value", JString (en_value e))]).

(** [prepared_epg_channel] *)
Definition prepared_epg_channel (channel : EpgChannel Url) (id : Z) : PreparedEpgChannel :=
  mkPreparedEpgChannel id (ec_id channel) (JArray (List.map localized_json (ec_display_names channel)))
    (JArray (List.map JString (omap (fun icon => safe_public_url (url_as_str (ic_source icon))) (ec_icons channel))))
    (JObject []).
(** The row of a channel that programmes name and nothing declares. *)
Definition undeclared_channel (xmltv_id : text) (id : Z) : PreparedEpgChannel :=
  mkPreparedEpgChannel id xmltv_id (JArray []) (JArray []) (JObject [(str "undeclared", JBool true)]).

(** [original_timestamp] *)
Definition original_timestamp (value : text) (normalized : Z) : text :=
  if bool_decide (value = []) then to_rfc3339 normalized else value.

(** [prepared_programme] *)
Definition prepared_programme (id : Z) (p : Programme Url) (epg_channel_id : Z) : PreparedProgramme :=
  mkPreparedProgramme id epg_channel_id (pr_start p) (pr_stop p) (original_timestamp (pr_original_start p) (pr_start p))
    (match pr_original_stop p with Some stop => Some stop | None => to_rfc3339 <$> pr_stop p end)
    (from_option lt_value (str "Untitled") (head (pr_titles p))) (lt_value <$> head (pr_sub_titles p))
    ((fun d => sanitize_text (lt_value d)) <$> head (pr_descriptions p))
    (JArray (List.map localized_json (pr_categories p)))
    (JObject [(str "episode_numbers", JArray (List.map episode_json (pr_episode_numbers p)));
              (str "new", JBool (pr_new p)); (str "previously_shown", JBool (pr_previously_shown p))]).

(** [XmlStreamState], with the number of the next identifier *)
Record XmlStreamState := mkXmlStreamState {
  xm_channels : list (EpgChannel Url);
  xm_declared : gmap text nat;
  xm_ids : gmap text Z;
  xm_programmes : StagedRows PreparedProgramme;
  xm_error : option IngestError;
  xm_draws : nat;
}.
Definition xml_stream_new (draws : nat) : XmlStreamState := mkXmlStreamState [] ∅ ∅ (staged_new 1000) None draws.

(** [XmlStreamState::merge_channel] *)
Definition xml_merge_channel (st : XmlStreamState) (channel : EpgChannel Url) : XmlStreamState :=
  match xm_declared st !! ec_id channel with
  | Some index =>
      mkXmlStreamState (alter (fun existing => merge_channel existing channel) index (xm_channels st)) (xm_declared st)
        (xm_ids st) (xm_programmes st) (xm_error st) (xm_draws st)
  | None =>
      mkXmlStreamState (xm_channels st ++ [channel]) (<[ec_id channel := length (xm_channels st)]> (xm_declared st))
        (xm_ids st) (xm_programmes st) (xm_error st) (xm_draws st)
  end.

(** [XmlStreamState::channel_id] *)
Definition xml_channel_id (st : XmlStreamState) (xmltv_id : text) : XmlStreamState * Z :=
  match xm_ids st !! xmltv_id with
  | Some id => (st, id)
  | None =>
      let id := uuid (xm_draws st) in
      (mkXmlStreamState (xm_channels st) (xm_declared st) (<[xmltv_id := id]> (xm_ids st)) (xm_programmes st)
         (xm_error st) (S (xm_draws st)), id)
  end.

(** The two visitors. *)
Definition xml_visit_channel (st : XmlStreamState) (channel : EpgChannel Url) : XmlStreamState * result unit ParseError :=
  (xml_merge_channel st channel, Ok tt).
Definition xml_visit_programme (st : XmlStreamState) (programme : Programme Url) : XmlStreamState * result unit ParseError :=
  match xm_error st with
  | Some _ => (st, Err Io)
  | None =>
      let '(st, channel_id) := xml_channel_id st (pr_channel_id programme) in
      let '(rows, pushed) :=
        staged_push (disk (xm_draws st)) (xm_programmes st) (prepared_programme (uuid (xm_draws st)) programme channel_id) in
      let st' error := mkXmlStreamState (xm_channels st) (xm_declared st) (xm_ids st) rows error (S (xm_draws st)) in
      match pushed with
      | Ok _ => (st' None, Ok tt)
      | Err e => (st' (Some e), Err Io)
      end
  end.

(** The channels that were declared, in their order, and then those that were
    only named. *)
Fixpoint push_declared (st : XmlStreamState) (rows : StagedRows PreparedEpgChannel) (channels : list (EpgChannel Url))
  : XmlStreamState * StagedRows PreparedEpgChannel * result unit IngestError :=
  match channels with
  | [] => (st, rows, Ok tt)
  | channel :: channels =>
      let '(st, id) := xml_channel_id st (ec_id channel) in
      match staged_push (disk (xm_draws st)) rows (prepared_epg_channel channel id) with
      | (rows, Ok _) => push_declared st rows channels
      | (rows, Err e) => (st, rows, Err e)
      end
  end.
Fixpoint push_undeclared (draws : nat) (declared : gmap text nat) (rows : StagedRows PreparedEpgChannel)
  (ids : list (text * Z)) : StagedRows PreparedEpgChannel * result unit IngestError :=
  match ids with
  | [] => (rows, Ok tt)
  | (xmltv_id, id) :: ids =>
      if bool_decide (is_Some (declared !! xmltv_id)) then push_undeclared draws declared rows ids
      else
        match staged_push (disk draws) rows (undeclared_channel xmltv_id id) with
        | (rows, Ok _) => push_undeclared draws declared rows ids
        | failed => failed
        end
  end.

(** The XMLTV branch of [streaming_parse] and of [prepare_streaming_snapshot]. *)
Definition stage_xmltv (input : XmlInput) (limits : ParseLimits) (timezone : text) (snapshot : PreparedSnapshot) (draws : nat)
  : result (PreparedSnapshot * Z) IngestError :=
  let '(st, parsed) :=
    parse_xmltv_visit url_parse from_hms_opt unescape programme_json sha256 xml_visit_channel xml_visit_programme input limits
      timezone (xml_stream_new draws) in
  match parsed, xm_error st with
  | Err _, Some e => Err e
  | Err source, None => Err (ParseFailed "XMLTV" source)
  | Ok summary, _ =>
      match push_declared st (sn_epg_channels snapshot) (xm_channels st) with
      | (_, _, Err e) => Err e
      | (st, rows, Ok _) =>
          match push_undeclared (xm_draws st) (xm_declared st) rows (hash_order (xm_ids st)) with
          | (_, Err e) => Err e
          | (rows, Ok _) =>
              Ok (set_diagnostics (set_programmes (set_epg_channels snapshot rows) (xm_programmes st))
                    (warnings (xd_stats summary) + errors (xd_stats summary)) (diagnostics_json (xd_diagnostics summary)),
                  records_seen (xd_stats summary))
          end
      end
  end.

(** *** Sources *)

(** What a decoded source gives to the parsers: the buffers of a file, and the
    events that the XML reader makes of it. *)
Record Source := mkSource { so_buffers : BufReader; so_xml : XmlInput }.

(** [limits.max_input_bytes.min(decoded_byte_count.max(1))] *)
Definition within_artifact (limits : ParseLimits) (decoded_byte_count : Z) : ParseLimits :=
  mkParseLimits (Z.min (max_input_bytes limits) (Z.max decoded_byte_count 1)) (max_line_bytes limits) (max_records limits)
    (max_text_bytes limits) (max_xml_depth limits).

(** [streaming_parse] *)
Definition streaming_parse (source : Source) (format : IngestFormat) (owner : SnapshotOwner) (timezone : text)
  (limits : ParseLimits) : option (result (PreparedSnapshot * Z) IngestError) :=
  let snapshot := empty_snapshot (uuid 0) owner format [] 0 in
  match format with
  | FormatM3u => stage_m3u (so_buffers source) limits snapshot 1
  | FormatXmltv => Some (stage_xmltv (so_xml source) limits timezone snapshot 1)
  | FormatXtream _ => Some (Err (InvalidRequest "Xtream does not support streaming parse"))
  end.

(** [prepare_streaming_snapshot] *)
Definition prepare_streaming_snapshot (owner : SnapshotOwner) (format : IngestFormat) (timezone : text) (source : Source)
  (decoded_byte_count : Z) (checksum : text) (byte_count : Z) (limits : ParseLimits)
  : option (result (PreparedSnapshot * Z) IngestError) :=
  let limits := within_artifact limits decoded_byte_count in
  let snapshot := empty_snapshot (uuid 0) owner format checksum byte_count in
  staged ← match format with
           | FormatM3u => stage_m3u (so_buffers source) limits snapshot 1
           | FormatXmltv => Some (stage_xmltv (so_xml source) limits timezone snapshot 1)
           | FormatXtream _ => Some (Err (InvalidRequest "Xtream must use the bounded JSON ingestion path"))
           end;
  Some (try staged <- staged; try finished <- finalize_snapshot (fst staged); Ok (finished, snd staged)).

(** [parse_artifact_with_source_timezone] and [prepare_snapshot] for M3U *)
Definition parse_m3u_artifact (reader : BufReader) (decoded_byte_count : Z) (limits : ParseLimits)
  : option (result (list (M3uEntry Url) * M3uPlaylist) IngestError) :=
  parsed ← parse_m3u url_parse reader (within_artifact limits decoded_byte_count);
  Some (match parsed with
        | Err source => Err (ParseFailed "M3U" source)
        | Ok (entries, playlist) => if bool_decide (entries = []) then Err (EmptySnapshot "M3U") else Ok (entries, playlist)
        end).
Definition prepare_snapshot_m3u (owner : SnapshotOwner) (entries : list (M3uEntry Url)) (playlist : M3uPlaylist)
  (checksum : text) (byte_count : Z) : result PreparedSnapshot IngestError :=
  try snapshot <- prepare_m3u entries playlist (empty_snapshot (uuid 0) owner FormatM3u checksum byte_count) 1;
  finalize_snapshot snapshot.
End Stage.
