(* ===== verification/Prepare.v ===== *)
(** * Parsed artifacts

    [crates/ingest/src/parse.rs] and the whole of [prepare_snapshot] of
    [pipeline.rs]: an artifact is parsed as a whole, and the records become the
    rows of a snapshot.  The run of an ingestion takes this way for the
    responses of the Xtream API.

    The parameters are those of [Ingest.v] and [Xtream.v]. *)
From Stdlib Require Import ZArith Lia Floats.SpecFloat.
From stdpp Require Import base numbers option strings.
From stdpp Require Import list gmap.
From S2P Require Import Prelude Text Hls M3u M3uSpec Events Artifact Staging Settings Xmltv Xtream XtreamEndpoints Ingest.
Open Scope Z_scope.
Open Scope relay_scope.

(** What [parse_xmltv_with_options] collects, besides the document. *)
Record Guide (Url : Type) := mkGuide {
  gd_channels : list (EpgChannel Url);
  gd_indexes : gmap text nat;
  gd_programmes : list (Programme Url);
}.
Arguments mkGuide {Url}.
Arguments gd_channels {Url}.
Arguments gd_indexes {Url}.
Arguments gd_programmes {Url}.

(** [ParsedArtifact] *)
Inductive ParsedArtifact (Url : Type) :=
| ParsedM3u (entries : list (M3uEntry Url)) (playlist : M3uPlaylist)
| ParsedXmltv (guide : Guide Url) (document : XmltvDocument)
| ParsedXtreamAuth (document : XtreamDocument (XtreamAuth Url))
| ParsedXtreamCategories (document : XtreamDocument XtreamCategory)
| ParsedXtreamStreams (document : XtreamDocument (XtreamLiveStream Url))
| ParsedXtreamEpg (document : XtreamDocument XtreamShortEpgEntry).
Arguments ParsedM3u {Url}.
Arguments ParsedXmltv {Url}.
Arguments ParsedXtreamAuth {Url}.
Arguments ParsedXtreamCategories {Url}.
Arguments ParsedXtreamStreams {Url}.
Arguments ParsedXtreamEpg {Url}.

(** [IngestRequest] *)
Record IngestRequest (Url : Type) := mkIngestRequest {
  ir_owner : SnapshotOwner;
  ir_format : IngestFormat;
  ir_download : DownloadRequest Url;
  ir_source_timezone : text;
  ir_xtream_stream_endpoint : option (XtreamStreamEndpointTemplate Url);
  ir_xtream_category_names : gmap text text;
}.
Arguments ir_owner {Url}.
Arguments ir_format {Url}.
Arguments ir_download {Url}.
Arguments ir_source_timezone {Url}.
Arguments ir_xtream_stream_endpoint {Url}.
Arguments ir_xtream_category_names {Url}.

Section Parsed.
Context {Url : Type}.

(** [ParsedArtifact::format_name], [stats] and [usable_record_count] *)
Definition format_name (parsed : ParsedArtifact Url) : string :=
  match parsed with
  | ParsedM3u _ _ => "M3U"
  | ParsedXmltv _ _ => "XMLTV"
  | ParsedXtreamAuth _ => "Xtream auth"
  | ParsedXtreamCategories _ => "Xtream live categories"
  | ParsedXtreamStreams _ => "Xtream live streams"
  | ParsedXtreamEpg _ => "Xtream short EPG"
  end.
Definition parsed_stats (parsed : ParsedArtifact Url) : ParseStats :=
  match parsed with
  | ParsedM3u _ playlist => pl_stats playlist
  | ParsedXmltv _ document => xd_stats document
  | ParsedXtreamAuth d => xt_stats d
  | ParsedXtreamCategories d => xt_stats d
  | ParsedXtreamStreams d => xt_stats d
  | ParsedXtreamEpg d => xt_stats d
  end.
Definition usable_record_count (parsed : ParsedArtifact Url) : Z :=
  match parsed with
  | ParsedM3u entries _ => zlen entries
  | ParsedXmltv guide _ => zlen (gd_channels guide) + zlen (gd_programmes guide)
  | ParsedXtreamAuth d => zlen (filter (fun a => xa_authenticated a = true) (xt_records d))
  | ParsedXtreamCategories d => zlen (xt_records d)
  | ParsedXtreamStreams d => zlen (xt_records d)
  | ParsedXtreamEpg d => zlen (xt_records d)
  end.
End Parsed.

Section Prepare.
Context {Url : Type} `{Urls Url} `{UrlEdits Url}.
Context (is_alphanumeric : Z -> bool) (lowercase_char : Z -> text).
Context (protect : Url -> result ProtectedEndpoint IngestError).
Context `{JsonRows PreparedProviderStream} `{JsonRows PreparedEpgChannel} `{JsonRows PreparedProgramme}.
Context (uuid : nat -> Z) (disk : nat -> Disk).
Context {Tz : Type} `{Chrono Tz} (from_hms_opt : Z -> Z -> Z -> option Z) (unescape : text -> result text text).
Context (programme_json : Programme Url -> option bytes) (sha256 : bytes -> bytes) `{EqDecision Url}.
Context (json_from_slice : bytes -> option Value) (float_text : spec_float -> text).
Context (base64_decode base64_decode_no_pad : text -> option bytes) (parse_rfc3339 : text -> option Z).
(** [f64]'s [Display] *)
Context (f64_text : spec_float -> text).

(** *** Parsing *)

(** [parse_xmltv_with_options] *)
Definition collect_channel (guide : Guide Url) (channel : EpgChannel Url) : Guide Url * result unit ParseError :=
  (match gd_indexes guide !! ec_id channel with
   | Some index =>
       mkGuide (alter (fun existing => merge_channel existing channel) index (gd_channels guide)) (gd_indexes guide)
         (gd_programmes guide)
   | None =>
       mkGuide (gd_channels guide ++ [channel]) (<[ec_id channel := length (gd_channels guide)]> (gd_indexes guide))
         (gd_programmes guide)
   end, Ok tt).
Definition collect_programme (guide : Guide Url) (programme : Programme Url) : Guide Url * result unit ParseError :=
  (mkGuide (gd_channels guide) (gd_indexes guide) (gd_programmes guide ++ [programme]), Ok tt).
Definition parse_xmltv_with_options (input : XmlInput) (limits : ParseLimits) (timezone : text)
  : result (Guide Url * XmltvDocument) ParseError :=
  match parse_xmltv_visit url_parse from_hms_opt unescape programme_json sha256 collect_channel collect_programme input limits
          timezone (mkGuide [] ∅ []) with
  | (guide, Ok document) => Ok (guide, document)
  | (_, Err e) => Err e
  end.

Definition parse_failed {A} (format : string) (r : result A ParseError) : result A IngestError :=
  match r with Ok a => Ok a | Err source => Err (ParseFailed format source) end.

(** [parse_artifact_with_source_timezone] *)
Definition parse_artifact (source : Source) (decoded_byte_count : Z) (format : IngestFormat) (limits : ParseLimits)
  (timezone : text) : option (result (ParsedArtifact Url) IngestError) :=
  let limits := within_artifact limits decoded_byte_count in
  let reader := so_buffers source in
  parsed ← match format with
           | FormatM3u =>
               parsed ← parse_m3u url_parse reader limits;
               Some (try read <- parse_failed "M3U" parsed; Ok (ParsedM3u (fst read) (snd read)))
           | FormatXmltv =>
               Some (try read <- parse_failed "XMLTV" (parse_xmltv_with_options (so_xml source) limits timezone);
                     Ok (ParsedXmltv (fst read) (snd read)))
           | FormatXtream XtreamAuthPayload =>
               Some (try read <- parse_failed "Xtream auth" (parse_xtream_auth (Tz := Tz) json_from_slice float_text reader limits);
                     Ok (ParsedXtreamAuth read))
           | FormatXtream LiveCategories =>
               Some (try read <- parse_failed "Xtream live categories"
                                   (parse_xtream_live_categories json_from_slice float_text reader limits);
                     Ok (ParsedXtreamCategories read))
           | FormatXtream LiveStreams =>
               Some (try read <- parse_failed "Xtream live streams"
                                   (parse_xtream_live_streams (Tz := Tz) json_from_slice float_text reader limits);
                     Ok (ParsedXtreamStreams read))
           | FormatXtream ShortEpg =>
               Some (try read <- parse_failed "Xtream short EPG"
                                   (parse_xtream_short_epg_in_timezone (Tz := Tz) json_from_slice float_text base64_decode
                                      base64_decode_no_pad parse_rfc3339 reader limits timezone);
                     Ok (ParsedXtreamEpg read))
           end;
  Some (try parsed <- parsed;
        if usable_record_count parsed =? 0 then Err (EmptySnapshot (format_name parsed)) else Ok parsed).

(** *** Preparing *)

(** The rows of a snapshot as they are made, with the number of the next
    identifier. *)
Definition push_stream (snapshot : PreparedSnapshot) (draws : nat) (row : PreparedProviderStream)
  : result PreparedSnapshot IngestError :=
  match staged_push (disk draws) (sn_provider_streams snapshot) row with
  | (rows, Ok _) => Ok (set_provider_streams snapshot rows)
  | (_, Err e) => Err e
  end.
Definition push_channel (snapshot : PreparedSnapshot) (draws : nat) (row : PreparedEpgChannel)
  : result PreparedSnapshot IngestError :=
  match staged_push (disk draws) (sn_epg_channels snapshot) row with
  | (rows, Ok _) => Ok (set_epg_channels snapshot rows)
  | (_, Err e) => Err e
  end.
Definition push_programme (snapshot : PreparedSnapshot) (draws : nat) (row : PreparedProgramme)
  : result PreparedSnapshot IngestError :=
  match staged_push (disk draws) (sn_programmes snapshot) row with
  | (rows, Ok _) => Ok (set_programmes snapshot rows)
  | (_, Err e) => Err e
  end.

(** The XMLTV branch: the channels, and the programmes on them. *)
Fixpoint prepare_channels (channels : list (EpgChannel Url)) (snapshot : PreparedSnapshot) (ids : gmap text Z) (draws : nat)
  : result (PreparedSnapshot * gmap text Z * nat) IngestError :=
  match channels with
  | [] => Ok (snapshot, ids, draws)
  | channel :: channels =>
      let id := uuid draws in
      try snapshot <- push_channel snapshot draws (prepared_epg_channel url_pairs channel id);
      prepare_channels channels snapshot (<[ec_id channel := id]> ids) (S draws)
  end.
Fixpoint prepare_programmes (programmes : list (Programme Url)) (snapshot : PreparedSnapshot) (ids : gmap text Z) (draws : nat)
  : result PreparedSnapshot IngestError :=
  match programmes with
  | [] => Ok snapshot
  | programme :: programmes =>
      match ids !! pr_channel_id programme with
      | None => prepare_programmes programmes snapshot ids draws
      | Some epg_channel_id =>
          try snapshot <- push_programme snapshot draws (prepared_programme url_pairs (uuid draws) programme epg_channel_id);
          prepare_programmes programmes snapshot ids (S draws)
      end
  end.
Definition prepare_guide (guide : Guide Url) (snapshot : PreparedSnapshot) (draws : nat) : result PreparedSnapshot IngestError :=
  try prepared <- prepare_channels (gd_channels guide) snapshot ∅ draws;
  let '(snapshot, ids, draws) := prepared in
  prepare_programmes (gd_programmes guide) snapshot ids draws.

(** The branch of the live streams of the Xtream API *)
Definition xtream_row (id : Z) (category_names : gmap text text) (endpoint : ProtectedEndpoint) (stream : XtreamLiveStream Url)
  : PreparedProviderStream :=
  mkPreparedProviderStream id (str "xtream:" ++ decimal (xl_stream_id stream)) (Some (decimal (xl_stream_id stream)))
    (xl_name stream) ((fun category => default category (category_names !! category)) <$> xl_category_id stream)
    (xl_epg_channel_id stream) None (xl_icon stream ≫= fun url => safe_public_url url_pairs (url_as_str url))
    (f64_text <$> xl_channel_number stream) endpoint (sanitize_json url_pairs (JObject (xl_metadata stream))) (JArray []) true.
Fixpoint prepare_streams (template : XtreamStreamEndpointTemplate Url) (category_names : gmap text text)
  (streams : list (XtreamLiveStream Url)) (snapshot : PreparedSnapshot) (draws : nat) : result PreparedSnapshot IngestError :=
  match streams with
  | [] => Ok snapshot
  | stream :: streams =>
      try url <- url_for template (xl_stream_id stream);
      try endpoint <- protect url;
      try snapshot <- push_stream snapshot draws (xtream_row (uuid draws) category_names endpoint stream);
      prepare_streams template category_names streams snapshot (S draws)
  end.

(** The branch of the short guide *)
Definition listing_channel (id : Z) (external_id : text) : PreparedEpgChannel :=
  mkPreparedEpgChannel id external_id (JArray []) (JArray []) (JObject [(str "origin", JString (str "xtream-short-epg"))]).
Definition listing_row (id epg_channel_id : Z) (e : XtreamShortEpgEntry) : PreparedProgramme :=
  mkPreparedProgramme id epg_channel_id (xs_start e) (Some (xs_stop e)) (to_rfc3339 (xs_start e)) (Some (to_rfc3339 (xs_stop e)))
    (sanitize_text url_pairs (xs_title e)) None (Some (sanitize_text url_pairs (xs_description e))) (JArray [])
    (sanitize_json url_pairs (JObject (xs_metadata e))).
Fixpoint prepare_listings (entries : list XtreamShortEpgEntry) (snapshot : PreparedSnapshot) (channels : gmap text Z) (draws : nat)
  : result PreparedSnapshot IngestError :=
  match entries with
  | [] => Ok snapshot
  | e :: entries =>
      match (match xs_channel_id e with Some id => Some id | None => xs_epg_id e end) with
      | None => Err (InvalidRequest "Xtream EPG entry has no channel identity")
      | Some external_id =>
          try placed <-
            match channels !! external_id with
            | Some id => Ok (snapshot, channels, draws, id)
            | None =>
                let id := uuid draws in
                try snapshot <- push_channel snapshot draws (listing_channel id external_id);
                Ok (snapshot, <[external_id := id]> channels, S draws, id)
            end;
          let '(snapshot, channels, draws, epg_channel_id) := placed in
          try snapshot <- push_programme snapshot draws (listing_row (uuid draws) epg_channel_id e);
          prepare_listings entries snapshot channels (S draws)
      end
  end.

(** [prepare_snapshot] *)
Definition prepare_snapshot (request : IngestRequest Url) (parsed : ParsedArtifact Url) (checksum : text) (byte_count : Z)
  : result PreparedSnapshot IngestError :=
  let stats := parsed_stats parsed in
  let snapshot := empty_snapshot (uuid 0) (ir_owner request) (ir_format request) checksum byte_count in
  let with_diagnostics diagnostics := set_diagnostics snapshot (warnings stats + errors stats) (diagnostics_json diagnostics) in
  try snapshot <-
    match parsed with
    | ParsedM3u entries playlist =>
        prepare_m3u url_pairs is_alphanumeric lowercase_char protect uuid disk entries playlist snapshot 1
    | ParsedXmltv guide document => prepare_guide guide (with_diagnostics (xd_diagnostics document)) 1
    | ParsedXtreamStreams d =>
        match ir_xtream_stream_endpoint request with
        | None => Err (InvalidRequest "Xtream live streams require a stream endpoint template")
        | Some template =>
            prepare_streams template (ir_xtream_category_names request) (xt_records d) (with_diagnostics (xt_diagnostics d)) 1
        end
    | ParsedXtreamEpg d => prepare_listings (xt_records d) (with_diagnostics (xt_diagnostics d)) ∅ 1
    | ParsedXtreamAuth _ | ParsedXtreamCategories _ =>
        Err (InvalidRequest "Xtream auth/categories are validation inputs, not activatable snapshots")
    end;
  finalize_snapshot snapshot.
End Prepare.
