(* ===== verification/IngestSpec.v ===== *)
(** * What the preparation of a snapshot guarantees

    The keys of the entries of a playlist are distinct and do not depend on
    their URLs; the texts that are kept hold no URL with credentials; a
    playlist that is staged while it is read gives the snapshot of the parsed
    playlist, however it arrives; and the programmes of a guide refer to the
    channels that are staged with them. *)
From Stdlib Require Import ZArith Lia.
From stdpp Require Import base numbers option strings.
From stdpp Require Import list gmap.
From S2P Require Import Prelude Text Hls M3u M3uSpec Events Artifact Staging Settings Xmltv Ingest.
Open Scope Z_scope.

(** ** Keys *)

Section Keys.
Context {Url : Type} (is_alphanumeric : Z -> bool) (lowercase_char : Z -> text).
Abbreviation base_key := (@stable_m3u_key Url is_alphanumeric lowercase_char).
Abbreviation unique_m3u_key := (@unique_m3u_key Url is_alphanumeric lowercase_char).

(** The keys of a playlist, in the order of its entries. *)
Fixpoint playlist_keys (stable_keys : gmap text Z) (entries : list (M3uEntry Url)) : list text :=
  match entries with
  | [] => []
  | entry :: entries =>
      let '(stable_keys, key) := unique_m3u_key entry stable_keys in key :: playlist_keys stable_keys entries
  end.

(** No key of an entry looks like that of a duplicate. *)
Definition no_marker (key : text) : Prop := forall before after, key <> before ++ str ":duplicate-" ++ after.

Lemma decimal_digits_value fuel n acc :
  0 <= n < 10 ^ Z.of_nat fuel ->
  fold_left (fun n c => 10 * n + (c - 0x30)) (decimal_digits fuel n acc) 0 = fold_left (fun n c => 10 * n + (c - 0x30)) acc n.
Proof using.
  revert n acc. induction fuel as [|fuel IH]; intros n acc Hn.
  { cbn in Hn. replace n with 0 by lia. done. }
  cbn [decimal_digits]. pose proof (Z.div_mod n 10 ltac:(lia)). pose proof (Z.mod_pos_bound n 10 ltac:(lia)).
  destruct (Z.ltb_spec n 10).
  - cbn [fold_left]. f_equal. rewrite Z.mod_small by lia. lia.
  - rewrite IH.
    + cbn [fold_left]. f_equal. lia.
    + split; [apply Z.div_pos; lia|]. apply Z.div_lt_upper_bound; [lia|].
      replace (Z.of_nat (S fuel)) with (Z.of_nat fuel + 1) in Hn by lia. rewrite Z.pow_add_r in Hn by lia. lia.
Qed.

Lemma decimal_inj n m : 0 <= n < 10 ^ 20 -> 0 <= m < 10 ^ 20 -> decimal n = decimal m -> n = m.
Proof using.
  intros Hn Hm Heq. unfold decimal in Heq. apply (f_equal (fun l => fold_left (fun n c => 10 * n + (c - 0x30)) l 0)) in Heq.
  by rewrite !decimal_digits_value in Heq by done.
Qed.

Lemma decimal_digits_no_dash fuel n acc : 0x2d ∉ acc -> 0 <= n -> 0x2d ∉ decimal_digits fuel n acc.
Proof using.
  revert n acc. induction fuel as [|fuel IH]; intros n acc Hacc Hn; [done|]. cbn [decimal_digits].
  pose proof (Z.mod_pos_bound n 10 ltac:(lia)).
  assert (0x2d ∉ (0x30 + n mod 10) :: acc) as Hacc' by (apply not_elem_of_cons; split; [lia|done]).
  destruct (_ <? _); [done|]. apply IH; [done|]. apply Z.div_pos; lia.
Qed.

Lemma decimal_no_dash n : 0 <= n -> 0x2d ∉ decimal n.
Proof using. apply decimal_digits_no_dash, not_elem_of_nil. Qed.

Lemma duplicate_key_inj b b' k k' :
  no_marker b -> no_marker b' -> 0 <= k < 10 ^ 20 -> 0 <= k' < 10 ^ 20 ->
  duplicate_key b k = duplicate_key b' k' -> b = b' /\ k = k'.
Proof using.
  intros Hb Hb' Hk Hk'. unfold duplicate_key.
  destruct (Z.eqb_spec k 0) as [->|Hk0], (Z.eqb_spec k' 0) as [->|Hk0']; intros Heq; [done|by destruct (Hb b' (decimal k'))|by destruct (Hb' b (decimal k))|].
  change (str ":duplicate-") with (str ":duplicate" ++ [0x2d]) in Heq. rewrite <- !app_assoc in Heq. cbn [app] in Heq.
  rewrite !(app_assoc _ (str ":duplicate")) in Heq. apply (f_equal (@rev Z)) in Heq. rewrite !rev_app_distr in Heq. cbn [rev] in Heq.
  rewrite <- !app_assoc in Heq. cbn [app] in Heq. apply (f_equal (split_once 0x2d)) in Heq.
  assert (forall n, 0 <= n -> 0x2d ∉ rev (decimal n)) as Hnd.
  { intros n Hn Hin. apply (decimal_no_dash n Hn). apply list_elem_of_In, in_rev, list_elem_of_In. done. }
  rewrite !split_once_found in Heq by (apply Hnd; lia). injection Heq as Hd Hx.
  apply (f_equal (@rev Z)) in Hd, Hx. rewrite !rev_involutive in Hd, Hx. split; [done|]. by apply decimal_inj.
Qed.

(** The keys that were given out. *)
Definition issued (stable_keys : gmap text Z) (key : text) : Prop :=
  exists base count k, stable_keys !! base = Some count /\ 0 <= k < count /\ key = duplicate_key base k.

Lemma playlist_keys_fresh stable_keys entries bound :
  Forall (fun entry => no_marker (base_key entry)) entries ->
  (forall base count, stable_keys !! base = Some count -> no_marker base /\ 0 <= count <= bound) ->
  0 <= bound -> bound + zlen entries <= 10 ^ 20 ->
  NoDup (playlist_keys stable_keys entries) /\ forall key, key ∈ playlist_keys stable_keys entries -> ~ issued stable_keys key.
Proof using.
  intros Hall. revert stable_keys bound. induction Hall as [|entry entries Hm Hall IH]; intros stable_keys bound Hkeys Hb Hfit.
  { split; [apply NoDup_nil_2|]. intros key Hin. by apply elem_of_nil in Hin. }
  cbn [playlist_keys]. unfold Ingest.unique_m3u_key. set (base := base_key entry) in *. cbn zeta.
  set (count := default 0 (stable_keys !! base)). set (keys' := <[base := count + 1]> stable_keys).
  assert (zlen (entry :: entries) = 1 + zlen entries) as Hlen by (unfold zlen; cbn; lia). pose proof (zlen_nonneg entries).
  assert (0 <= count <= bound) as Hcount.
  { unfold count. destruct (stable_keys !! base) as [c|] eqn:E; cbn; [|lia]. by apply Hkeys in E as [_ ?]. }
  destruct (IH keys' (bound + 1)) as [Hnd Hfresh]; [|lia|lia|].
  { intros b c. unfold keys'. rewrite lookup_insert. case_decide as Hbb; [intros [= <-]; subst b; split; [done|lia]|].
    intros Hc. apply Hkeys in Hc as [? ?]. split; [done|lia]. }
  assert (issued keys' (duplicate_key base count)) as Hmine.
  { exists base, (count + 1), count. unfold keys'. rewrite lookup_insert_eq. split_and!; [done|lia|lia|done]. }
  assert (forall key, issued stable_keys key -> issued keys' key) as Hmono.
  { intros key (b & c & k & Hc & Hk & ->). destruct (decide (b = base)) as [->|Hne].
    - exists base, (count + 1), k. unfold keys', count. rewrite lookup_insert_eq, Hc. cbn. split_and!; [done|lia|lia|done].
    - exists b, c, k. unfold keys'. rewrite lookup_insert_ne by done. done. }
  split.
  - apply NoDup_cons. split; [|done]. intros Hin. by apply (Hfresh _ Hin).
  - intros key [->|Hin]%elem_of_cons; [|intros Hi; by apply (Hfresh _ Hin), Hmono].
    intros (b & c & k & Hc & Hk & Heq). apply Hkeys in Hc as Hc'. destruct Hc' as [Hmb Hcb].
    apply duplicate_key_inj in Heq as [<- <-]; [|done|done|lia|lia]. unfold count in Hk. rewrite Hc in Hk. cbn in Hk. lia.
Qed.

(** The keys of a playlist are distinct, unless an entry has a key of the form
    that duplicates get; and they depend on the attributes and titles of the
    entries only, not on their URLs. *)
Theorem stable_keys_distinct entries renewed :
  Forall (fun entry => no_marker (base_key entry)) entries -> zlen entries <= 10 ^ 20 ->
  Forall2 (fun entry entry' => m3_attributes entry' = m3_attributes entry /\ m3_title entry' = m3_title entry) entries renewed ->
  NoDup (playlist_keys ∅ entries) /\ playlist_keys ∅ renewed = playlist_keys ∅ entries.
Proof using.
  intros Hm Hlen Hren. split.
  - apply (playlist_keys_fresh ∅ entries 0); [done| |lia|lia]. intros base count. by rewrite lookup_empty.
  - clear Hm Hlen. generalize (∅ : gmap text Z). induction Hren as [|entry entry' entries renewed [Ha Ht] Hren IH]; intros keys; [done|].
    cbn [playlist_keys]. assert (unique_m3u_key entry' keys = unique_m3u_key entry keys) as ->.
    { unfold Ingest.unique_m3u_key, stable_m3u_key, tvg_id, group_title. by rewrite Ha, Ht. }
    destruct (unique_m3u_key entry keys) as [keys' key]. by rewrite IH.
Qed.
End Keys.

(** ** Texts without credentials *)

#[local] Arguments is_sensitive_key : simpl never.

Lemma object_of_fields (fields : gmap text Value) :
  exists pairs, object_of fields = JObject pairs /\ forall key value, (key, value) ∈ pairs <-> fields !! key = Some value.
Proof.
  eexists. split; [done|]. intros key value. rewrite list_elem_of_omap. split.
  - intros (k & Hk & Hv). destruct (fields !! k) as [v|] eqn:E; [|done]. by injection Hv as -> ->.
  - intros Hv. exists key. split; [by apply sorted_keys_spec; rewrite Hv|by rewrite Hv].
Qed.

Section Credentials.
Context {Url : Type} `{Urls Url} (url_query_pairs : Url -> list (text * text)).
Abbreviation has_url_credentials := (has_url_credentials url_query_pairs).

(** A text that is not a URL with credentials. *)
Definition clean (s : text) : Prop := forall url, url_parse s = Some url -> has_url_credentials url = false.

(** A value without URLs with credentials, whose fields with sensitive names are
    redacted. *)
Fixpoint public (value : Value) : Prop :=
  match value with
  | JString s => clean s
  | JArray values => (fix all (values : list Value) := match values with [] => True | v :: values => public v /\ all values end) values
  | JObject fields =>
      (fix all (fields : list (text * Value)) :=
         match fields with
         | [] => True
         | (key, v) :: fields => (if is_sensitive_key key then v = JString REDACTED else public v) /\ all fields
         end) fields
  | _ => True
  end.

(** What the URL library promises: the replacements are no URLs, and a URL that
    is printed is read back. *)
Class RedactedTexts := {
  redacted_text : url_parse REDACTED = None;
  redacted_url_text : url_parse REDACTED_URL = None;
  printed_url url : url_parse (url_as_str url) = Some url
}.
Context `{RedactedTexts}.

Lemma sanitize_text_clean s : clean (sanitize_text url_query_pairs s).
Proof.
  unfold sanitize_text, clean. destruct (url_parse s) as [url|] eqn:E; [|by rewrite E].
  destruct (has_url_credentials url) eqn:Ec; [by rewrite redacted_url_text|]. rewrite E. by intros ? [= <-].
Qed.

Lemma sanitize_text_kept s : clean s -> sanitize_text url_query_pairs s = s.
Proof. unfold sanitize_text. intros Hs. destruct (url_parse s) as [url|] eqn:E; [|done]. by rewrite (Hs url E). Qed.

(** A value that was sanitized has no credentials left, and one that has none
    is not changed. *)
Lemma sanitize_json_public : forall value, public (sanitize_json url_query_pairs value).
Proof.
  fix IH 1. intros [| | | |s|values|fields]; cbn; try done; [apply sanitize_text_clean| |].
  - induction values as [|v values IHv]; [done|]. split; [apply IH|exact IHv].
  - induction fields as [|[key v] fields IHf]; [done|]. split; [|exact IHf]. destruct (is_sensitive_key key); [done|apply IH].
Qed.

Lemma sanitize_json_kept : forall value, public value -> sanitize_json url_query_pairs value = value.
Proof.
  fix IH 1. intros [| | | |s|values|fields]; cbn; try done.
  - intros Hs. f_equal. by apply sanitize_text_kept.
  - intros Hall. f_equal. induction values as [|v values IHv]; [done|]. destruct Hall as [Hv Hall].
    cbn. f_equal; [by apply IH|by apply IHv].
  - intros Hall. f_equal. induction fields as [|[key v] fields IHf]; [done|]. destruct Hall as [Hv Hall].
    f_equal; [|by apply IHf]. f_equal. destruct (is_sensitive_key key); [by rewrite Hv|by apply IH].
Qed.

(** The row of an entry keeps its attributes, with the values of sensitive
    names and the URLs with credentials replaced, and nothing else; its logo,
    and the values of its directives, are no URLs with credentials. *)
Theorem row_without_credentials id stable_key endpoint entry :
  let row := prepared_stream url_query_pairs id stable_key endpoint entry in
  (exists fields, ps_attributes row = JObject fields /\
     (forall key value, (key, value) ∈ fields <-> exists original, m3_attributes entry !! key = Some original /\
        value = JString (if is_sensitive_key key then REDACTED else sanitize_text url_query_pairs original)) /\
     forall key s, (key, JString s) ∈ fields -> clean s) /\
  (forall logo, ps_logo_url row = Some logo -> clean logo) /\
  ps_directives row = JArray (List.map (fun directive =>
    JObject [(str "name", JString (di_name directive));
             (str "value", match di_value directive with
                           | Some value => JString (sanitize_text url_query_pairs value)
                           | None => JNull
                           end)]) (m3_directives entry)) /\
  (forall value, clean (sanitize_text url_query_pairs value)).
Proof.
  intros row. split_and!; [| | |apply sanitize_text_clean].
  - unfold row, prepared_stream, sanitized_map. cbn [ps_attributes]. set (f := fun key value => Some (JString _)).
    destruct (object_of_fields (map_imap f (m3_attributes entry))) as (fields & -> & Hfields). exists fields. split; [done|].
    assert (forall key value, (key, value) ∈ fields <-> exists original, m3_attributes entry !! key = Some original /\
      value = JString (if is_sensitive_key key then REDACTED else sanitize_text url_query_pairs original)) as Hiff.
    { intros key value. rewrite Hfields, map_lookup_imap. unfold f. destruct (m3_attributes entry !! key) as [original|]; cbn.
      - split; [intros [= <-]; by exists original|]. by intros (? & [= <-] & ->).
      - split; [done|]. by intros (? & ? & _). }
    split; [done|]. intros key s Hin. apply Hiff in Hin as (original & _ & [= ->]).
    destruct (is_sensitive_key key); [|apply sanitize_text_clean]. intros url. by rewrite redacted_text.
  - intros logo. unfold row, prepared_stream. cbn [ps_logo_url]. destruct (m3_attributes entry !! str "tvg-logo") as [value|]; [|done].
    cbn. unfold safe_public_url. destruct (url_parse value) as [url|]; [|done]. cbn.
    destruct (has_url_credentials url) eqn:Ec; [done|]. intros [= <-] url' Hu. rewrite printed_url in Hu. by injection Hu as <-.
  - unfold row, prepared_stream. cbn [ps_directives]. f_equal. apply map_ext. intros directive. unfold directive_json.
    by destruct (di_value directive).
Qed.
End Credentials.

(** ** Staging while reading *)

Section M3uStaging.
Context {Url : Type} `{Urls Url} (url_query_pairs : Url -> list (text * text)).
Context (is_alphanumeric : Z -> bool) (lowercase_char : Z -> text).
Context (protect : Url -> result ProtectedEndpoint IngestError).
Context `{JsonRows PreparedProviderStream} `{JsonRows PreparedEpgChannel} `{JsonRows PreparedProgramme}.
Context (uuid : nat -> Z) (disk : nat -> Disk).
Context {Tz : Type} `{Chrono Tz} (from_hms_opt : Z -> Z -> Z -> option Z) (unescape : text -> result text text).
Context (programme_json : Programme Url -> option bytes) (sha256 : bytes -> bytes) `{EqDecision Url}.
Context (hash_order : gmap text Z -> list (text * Z)).

Abbreviation stage_m3u_entry := (stage_m3u_entry url_query_pairs is_alphanumeric lowercase_char protect uuid disk).
Abbreviation stage_visitor := (stage_visitor url_query_pairs is_alphanumeric lowercase_char protect uuid disk).
Abbreviation stage_entries := (stage_entries url_query_pairs is_alphanumeric lowercase_char protect uuid disk).
Abbreviation stage_m3u := (stage_m3u url_query_pairs is_alphanumeric lowercase_char protect uuid disk).
Abbreviation prepare_m3u := (prepare_m3u url_query_pairs is_alphanumeric lowercase_char protect uuid disk).
Abbreviation streaming_parse := (streaming_parse url_query_pairs is_alphanumeric lowercase_char protect uuid disk from_hms_opt
  unescape programme_json sha256 hash_order).
Abbreviation prepare_streaming_snapshot := (prepare_streaming_snapshot url_query_pairs is_alphanumeric lowercase_char protect
  uuid disk from_hms_opt unescape programme_json sha256 hash_order).
Abbreviation prepare_snapshot_m3u := (prepare_snapshot_m3u url_query_pairs is_alphanumeric lowercase_char protect uuid disk).

(** The visitor stages the entries as they come. *)
Lemma run_stage_visitor st entries :
  ms_error st = None ->
  match stage_entries st entries with
  | (st', Ok _) => run_visitor stage_visitor st entries = (st', None)
  | (st', Err e) => exists st2, run_visitor stage_visitor st entries = (st2, Some Io) /\ ms_error st2 = Some e
  end /\ ms_error (fst (stage_entries st entries)) = None.
Proof using.
  revert st. induction entries as [|entry entries IH]; intros st Hst; [done|].
  cbn [Ingest.stage_entries run_visitor]. unfold Ingest.stage_visitor.
  assert (ms_error (fst (stage_m3u_entry st entry)) = None) as He.
  { unfold Ingest.stage_m3u_entry. destruct (unique_m3u_key _ _ _ _). destruct (protect _); [|done]. by destruct (staged_push _ _ _). }
  destruct (stage_m3u_entry st entry) as [st1 [|e]]; cbn [fst] in *; [by apply IH|]. split; [|done]. by eexists.
Qed.

(** A snapshot with other rows of streams: nothing else of it plays a part. *)
Definition restage (s : PreparedSnapshot) (st : M3uStage) : M3uStage :=
  mkM3uStage (set_provider_streams s (sn_provider_streams (ms_snapshot st))) (ms_stable_keys st) (ms_draws st) (ms_error st).

Lemma stage_entry_restage s st entry :
  stage_m3u_entry (restage s st) entry =
  (restage s (fst (stage_m3u_entry st entry)), snd (stage_m3u_entry st entry)).
Proof using.
  unfold Ingest.stage_m3u_entry, restage. cbn [ms_stable_keys ms_snapshot ms_draws ms_error sn_provider_streams set_provider_streams].
  destruct (unique_m3u_key _ _ _ _) as [keys key]. destruct (protect _); [|done]. by destruct (staged_push _ _ _).
Qed.

Lemma stage_entries_restage s st entries :
  stage_entries (restage s st) entries = (restage s (fst (stage_entries st entries)), snd (stage_entries st entries)).
Proof using.
  revert st. induction entries as [|entry entries IH]; intros st; [done|]. cbn [Ingest.stage_entries].
  rewrite stage_entry_restage. destruct (stage_m3u_entry st entry) as [st1 [|e]]; cbn [fst snd]; [apply IH|done].
Qed.

(** What staging while reading gives, in terms of the entries of the playlist. *)
Lemma stage_m3u_entries reader limits s draws entries parsed :
  parse_m3u_visit url_parse collect reader limits [] = Some (entries, parsed) ->
  exists staged, stage_m3u reader limits s draws = Some staged /\
  forall snapshot seen, staged = Ok (snapshot, seen) <->
    exists playlist, parsed = Ok playlist /\ prepare_m3u entries playlist s draws = Ok snapshot /\
      seen = records_seen (pl_stats playlist).
Proof using.
  intros Hparse. unfold Ingest.stage_m3u. set (start := mkM3uStage s ∅ draws None).
  rewrite (m3u_visit_fusion url_parse stage_visitor reader limits start entries parsed Hparse). cbn [mbind option_bind].
  destruct (run_stage_visitor start entries eq_refl) as [Hrun Hnone].
  assert (forall playlist, prepare_m3u entries playlist s draws =
    match stage_entries start entries with
    | (st, Ok _) => Ok (set_diagnostics (ms_snapshot st) (warnings (pl_stats playlist) + errors (pl_stats playlist))
                          (diagnostics_json (pl_diagnostics playlist)))
    | (_, Err e) => Err e
    end) as Hprep.
  { intros playlist. unfold Ingest.prepare_m3u. set (s' := set_diagnostics s _ _).
    change (mkM3uStage s' ∅ draws None) with (restage s' start). rewrite stage_entries_restage.
    assert (set_diagnostics (ms_snapshot (fst (stage_entries start entries))) (warnings (pl_stats playlist) + errors (pl_stats playlist))
      (diagnostics_json (pl_diagnostics playlist)) = ms_snapshot (restage s' (fst (stage_entries start entries)))) as Heq.
    { pose proof (stage_entries_restage s start entries) as Hs. assert (restage s start = start) as Hsame by (unfold restage, start; by destruct s). rewrite Hsame in Hs.
      destruct (stage_entries start entries) as [st r]. cbn [fst snd] in *. injection Hs as Hs.
      transitivity (set_diagnostics (ms_snapshot (restage s st)) (warnings (pl_stats playlist) + errors (pl_stats playlist))
        (diagnostics_json (pl_diagnostics playlist))); [by rewrite <- Hs|done]. }
    destruct (stage_entries start entries) as [st [|e]]; cbn [fst snd] in *; [by rewrite Heq|done]. }
  destruct (stage_entries start entries) as [st [u|e]]; cbn [fst] in *.
  - rewrite Hrun. destruct parsed as [playlist|source].
    + eexists. split; [reflexivity|]. intros snapshot seen. split.
      * intros [= <- <-]. exists playlist. by rewrite Hprep.
      * intros (? & [= <-] & Hp & ->). rewrite Hprep in Hp. by injection Hp as <-.
    + rewrite Hnone. eexists. split; [reflexivity|]. intros snapshot seen. split; [done|]. by intros (? & ? & _).
  - destruct Hrun as (st2 & -> & He2). rewrite He2. eexists. split; [reflexivity|]. intros snapshot seen. split; [done|].
    intros (playlist & _ & Hp & _). by rewrite Hprep in Hp.
Qed.

(** A playlist that is staged while it is read gives the snapshot that is
    prepared from the parsed playlist, and fails exactly if parsing or
    preparing fails. *)
Theorem staged_while_read owner timezone source decoded checksum byte_count limits snapshot seen :
  (exists entries parsed, parse_m3u_visit url_parse collect (so_buffers source) (within_artifact limits decoded) [] = Some (entries, parsed)) ->
  prepare_streaming_snapshot owner FormatM3u timezone source decoded checksum byte_count limits = Some (Ok (snapshot, seen)) <->
  exists entries playlist,
    parse_m3u_artifact (so_buffers source) decoded limits = Some (Ok (entries, playlist)) /\
    prepare_snapshot_m3u owner entries playlist checksum byte_count = Ok snapshot /\ seen = records_seen (pl_stats playlist).
Proof using.
  intros (entries & parsed & Hparse). unfold Ingest.prepare_streaming_snapshot, parse_m3u_artifact, parse_m3u. rewrite Hparse.
  cbn [mbind option_bind]. set (s := empty_snapshot _ _ _ _ _).
  destruct (stage_m3u_entries _ _ s 1 _ _ Hparse) as (staged & -> & Hstaged). cbn [mbind option_bind].
  unfold Ingest.prepare_snapshot_m3u. fold s. split.
  - intros Hres. injection Hres as Hres. destruct staged as [[snapshot0 seen0]|]; [|done]. cbn [result_bind fst snd] in Hres.
    destruct (proj1 (Hstaged snapshot0 seen0) eq_refl) as (playlist & -> & Hp & ->).
    destruct (finalize_snapshot snapshot0) as [finished|] eqn:Ef; [|done]. injection Hres as <- <-.
    exists entries, playlist. rewrite Hp. cbn [result_bind]. split; [|done]. case_bool_decide as Hnil; [|done]. exfalso.
    subst entries. unfold Ingest.prepare_m3u in Hp. cbn in Hp. injection Hp as <-. unfold finalize_snapshot in Ef. done.
  - intros (entries' & playlist & Hart & Hprep & ->). destruct parsed as [p|]; [|done]. case_bool_decide; [done|].
    injection Hart as <- <-. destruct (prepare_m3u entries p s 1) as [snapshot0|] eqn:Ep; [|done]. cbn [result_bind] in Hprep.
    rewrite (proj2 (Hstaged snapshot0 (records_seen (pl_stats p)))) by (by exists p). cbn [result_bind fst snd].
    by rewrite Hprep.
Qed.
End M3uStaging.
