(* ===== verification/Store.v ===== *)
(** * The snapshot store

    [PgSnapshotStore] of [crates/ingest/src/store.rs]: a prepared snapshot is
    staged, published, or dropped, each in one transaction.

    The database is its tables, with the rows that the statements of the store
    write, and the constraints of [migrations/] on them, which are checked after
    every statement: a statement that breaks one fails.  What each call does
    otherwise, a lost connection or a failing disk, is an argument, and so are
    the answers of the progress reports and the clock.  Transactions run one
    after the other. *)
From Stdlib Require Import ZArith Lia.
From stdpp Require Import base numbers option strings.
From stdpp Require Import list gmap.
From S2P Require Import Prelude Text M3u Artifact Staging Settings Ingest.
Open Scope Z_scope.
Open Scope relay_scope.

(** ** Tables *)

Inductive Status := StatusStaging | StatusActive | StatusRejected | StatusSuperseded.
#[export] Instance Status_eq_dec : EqDecision Status.
Proof. solve_decision. Defined.

(** [source_snapshots] *)
Record SnapshotRow := mkSnapshotRow {
  sr_id : Z;
  sr_provider_account_id : option Z;
  sr_epg_source_id : option Z;
  sr_kind : string;
  sr_status : Status;
  sr_checksum_sha256 : text;
  sr_byte_count : Z;
  sr_record_count : Z;
  sr_diagnostic_count : Z;
  sr_diagnostics : Value;
  sr_staged_at : option Z;
  sr_activated_at : option Z;
}.

(** [provider_streams], [epg_channels], [programmes] and [job_outbox] *)
Record StreamRow := mkStreamRow { st_snapshot_id : Z; st_provider_account_id : Z; st_stream : PreparedProviderStream }.
Record ChannelRow := mkChannelRow {
  ch_source_snapshot_id : Z; ch_provider_account_id : option Z; ch_epg_source_id : option Z; ch_channel : PreparedEpgChannel }.
Record ProgrammeRow := mkProgrammeRow { pg_source_snapshot_id : Z; pg_programme : PreparedProgramme }.
Record OutboxRow := mkOutboxRow { ob_id : Z; ob_parent_job_id : Z; ob_payload : Value; ob_dedup_key : text }.

Record Database := mkDatabase {
  db_snapshots : list SnapshotRow;
  db_streams : list StreamRow;
  db_channels : list ChannelRow;
  db_programmes : list ProgrammeRow;
  db_outbox : list OutboxRow;
  db_accounts : list Z;
  db_sources : list Z;
  db_jobs : list Z;
}.

Definition set_snapshots (db : Database) (rows : list SnapshotRow) : Database :=
  mkDatabase rows (db_streams db) (db_channels db) (db_programmes db) (db_outbox db) (db_accounts db) (db_sources db) (db_jobs db).
Definition set_rows (db : Database) (streams : list StreamRow) (channels : list ChannelRow) (programmes : list ProgrammeRow)
  : Database :=
  mkDatabase (db_snapshots db) streams channels programmes (db_outbox db) (db_accounts db) (db_sources db) (db_jobs db).
Definition set_outbox (db : Database) (rows : list OutboxRow) : Database :=
  mkDatabase (db_snapshots db) (db_streams db) (db_channels db) (db_programmes db) rows (db_accounts db) (db_sources db) (db_jobs db).
Definition set_row_status (r : SnapshotRow) (status : Status) : SnapshotRow :=
  mkSnapshotRow (sr_id r) (sr_provider_account_id r) (sr_epg_source_id r) (sr_kind r) status (sr_checksum_sha256 r)
    (sr_byte_count r) (sr_record_count r) (sr_diagnostic_count r) (sr_diagnostics r) (sr_staged_at r) (sr_activated_at r).
Definition set_row_times (r : SnapshotRow) (staged_at activated_at : option Z) : SnapshotRow :=
  mkSnapshotRow (sr_id r) (sr_provider_account_id r) (sr_epg_source_id r) (sr_kind r) (sr_status r) (sr_checksum_sha256 r)
    (sr_byte_count r) (sr_record_count r) (sr_diagnostic_count r) (sr_diagnostics r) staged_at activated_at.

(** ** Constraints *)

(** A unique index: the rows that have a key have different ones. *)
Definition unique_index {A K} (key : A -> option K) (rows : list A) : Prop := NoDup (omap key rows).

Definition provider_checksum_key (r : SnapshotRow) : option (Z * string * text) :=
  p ← sr_provider_account_id r; Some (p, sr_kind r, sr_checksum_sha256 r).
Definition epg_checksum_key (r : SnapshotRow) : option (Z * string * text) :=
  e ← sr_epg_source_id r; Some (e, sr_kind r, sr_checksum_sha256 r).
Definition active_provider_key (r : SnapshotRow) : option (Z * string) :=
  if bool_decide (sr_status r = StatusActive) then p ← sr_provider_account_id r; Some (p, sr_kind r) else None.
Definition active_epg_key (r : SnapshotRow) : option (Z * string) :=
  if bool_decide (sr_status r = StatusActive) then e ← sr_epg_source_id r; Some (e, sr_kind r) else None.

(** The checks and the foreign keys of [source_snapshots] *)
Definition snapshot_row_ok (db : Database) (r : SnapshotRow) : Prop :=
  (sr_kind r = "xmltv" /\ is_Some (sr_epg_source_id r) /\ sr_provider_account_id r = None \/
   sr_kind r ∈ ["m3u"; "xtream"; "xtream-epg"; "network-tuner"] /\ is_Some (sr_provider_account_id r) /\
     sr_epg_source_id r = None) /\
  0 <= sr_byte_count r /\ 0 <= sr_record_count r /\ 0 <= sr_diagnostic_count r /\
  from_option (fun p => p ∈ db_accounts db) True (sr_provider_account_id r) /\
  from_option (fun e => e ∈ db_sources db) True (sr_epg_source_id r).

Definition snapshot_ids (db : Database) : list Z := sr_id <$> db_snapshots db.
Definition channel_ids (db : Database) : list Z := pc_id ∘ ch_channel <$> db_channels db.

Definition stream_row_ok (db : Database) (r : StreamRow) : Prop :=
  st_snapshot_id r ∈ snapshot_ids db /\ st_provider_account_id r ∈ db_accounts db.
Definition channel_row_ok (db : Database) (r : ChannelRow) : Prop :=
  ch_source_snapshot_id r ∈ snapshot_ids db /\
  from_option (fun p => p ∈ db_accounts db) True (ch_provider_account_id r) /\
  from_option (fun e => e ∈ db_sources db) True (ch_epg_source_id r) /\
  ~ (is_Some (ch_provider_account_id r) <-> is_Some (ch_epg_source_id r)).
Definition programme_row_ok (db : Database) (r : ProgrammeRow) : Prop :=
  pg_source_snapshot_id r ∈ snapshot_ids db /\ pp_epg_channel_id (pg_programme r) ∈ channel_ids db.

#[export] Instance from_option_decision {A} (P : A -> Prop) (Q : Prop) (o : option A) :
  (forall a, Decision (P a)) -> Decision Q -> Decision (from_option P Q o).
Proof. destruct o; cbn; intros; apply _. Defined.

Record Constraints (db : Database) : Prop := {
  snapshot_pkey : NoDup (snapshot_ids db);
  snapshot_rows : Forall (snapshot_row_ok db) (db_snapshots db);
  one_checksum_per_provider : unique_index provider_checksum_key (db_snapshots db);
  one_checksum_per_source : unique_index epg_checksum_key (db_snapshots db);
  one_active_per_provider : unique_index active_provider_key (db_snapshots db);
  one_active_per_source : unique_index active_epg_key (db_snapshots db);
  stream_pkey : NoDup (ps_id ∘ st_stream <$> db_streams db);
  stream_rows : Forall (stream_row_ok db) (db_streams db);
  stream_keys : NoDup ((fun r => (st_snapshot_id r, ps_stable_key (st_stream r))) <$> db_streams db);
  channel_pkey : NoDup (channel_ids db);
  channel_rows : Forall (channel_row_ok db) (db_channels db);
  channel_keys : NoDup ((fun r => (ch_source_snapshot_id r, pc_xmltv_id (ch_channel r))) <$> db_channels db);
  programme_pkey : NoDup (pp_id ∘ pg_programme <$> db_programmes db);
  programme_rows : Forall (programme_row_ok db) (db_programmes db);
  outbox_pkey : NoDup (ob_id <$> db_outbox db);
  outbox_keys : NoDup (ob_dedup_key <$> db_outbox db);
  outbox_rows : Forall (fun r => ob_parent_job_id r ∈ db_jobs db) (db_outbox db);
}.
#[export] Instance unique_index_decision {A K} `{EqDecision K} (key : A -> option K) rows : Decision (unique_index key rows).
Proof. unfold unique_index. apply _. Defined.
#[export] Instance snapshot_row_ok_decision db r : Decision (snapshot_row_ok db r).
Proof. unfold snapshot_row_ok. apply _. Defined.
#[export] Instance stream_row_ok_decision db r : Decision (stream_row_ok db r).
Proof. unfold stream_row_ok. apply _. Defined.
#[export] Instance channel_row_ok_decision db r : Decision (channel_row_ok db r).
Proof. unfold channel_row_ok. apply _. Defined.
#[export] Instance programme_row_ok_decision db r : Decision (programme_row_ok db r).
Proof. unfold programme_row_ok. apply _. Defined.
#[export] Instance Constraints_decision db : Decision (Constraints db).
Proof.
  refine (cast_if (decide (
    (NoDup (snapshot_ids db) /\ Forall (snapshot_row_ok db) (db_snapshots db) /\
     unique_index provider_checksum_key (db_snapshots db) /\ unique_index epg_checksum_key (db_snapshots db) /\
     unique_index active_provider_key (db_snapshots db) /\ unique_index active_epg_key (db_snapshots db)) /\
    (NoDup (ps_id ∘ st_stream <$> db_streams db) /\ Forall (stream_row_ok db) (db_streams db) /\
     NoDup ((fun r => (st_snapshot_id r, ps_stable_key (st_stream r))) <$> db_streams db)) /\
    (NoDup (channel_ids db) /\ Forall (channel_row_ok db) (db_channels db) /\
     NoDup ((fun r => (ch_source_snapshot_id r, pc_xmltv_id (ch_channel r))) <$> db_channels db)) /\
    (NoDup (pp_id ∘ pg_programme <$> db_programmes db) /\ Forall (programme_row_ok db) (db_programmes db)) /\
    (NoDup (ob_id <$> db_outbox db) /\ NoDup (ob_dedup_key <$> db_outbox db) /\
     Forall (fun r => ob_parent_job_id r ∈ db_jobs db) (db_outbox db)))));
  [abstract (destruct_and!; by constructor) | abstract (intros []; naive_solver)].
Defined.

(** ** Transactions *)

(** What a call to the database or to the disk does; a commit whose answer is
    lost has taken effect. *)
Inductive Answer := Works | Fails | AnswerLost.

(** The surroundings of a call of the store: the answer of the call with a
    number, that of the last of the progress reports so far, the clock, and the
    identifier that is drawn. *)
Record StoreEnv := mkStoreEnv {
  se_answer : nat -> Answer;
  se_report : list (Z * Z) -> result unit IngestError;
  se_now : Z;
  se_outbox_id : Z;
}.

(** A transaction that runs: what is committed, what the transaction sees, the
    number of calls, and the reports so far. *)
Record TxState := mkTxState {
  tx_committed : Database;
  tx_db : Database;
  tx_calls : nat;
  tx_reports : list (Z * Z);
}.
Definition Tx (A : Type) : Type := StoreEnv -> TxState -> TxState * result A IngestError.

Definition tx_ret {A} (a : A) : Tx A := fun _ tx => (tx, Ok a).
Definition tx_fail {A} (e : IngestError) : Tx A := fun _ tx => (tx, Err e).
Definition tx_bind {A B} (m : Tx A) (k : A -> Tx B) : Tx B :=
  fun env tx => match m env tx with (tx, Ok a) => k a env tx | (tx, Err e) => (tx, Err e) end.
Definition tx_lift {A} (r : result A IngestError) : Tx A := fun _ tx => (tx, r).
Definition tx_env : Tx StoreEnv := fun env tx => (tx, Ok env).
Notation "'await' x <- m ; k" := (tx_bind m (fun x => k)) (at level 200, x name, m at level 100, k at level 200) : relay_scope.
Notation "'perform' m ; k" := (tx_bind m (fun _ => k)) (at level 200, m at level 100, k at level 200) : relay_scope.

Definition tx_called (tx : TxState) : TxState :=
  mkTxState (tx_committed tx) (tx_db tx) (S (tx_calls tx)) (tx_reports tx).
(** A call that can fail. *)
Definition tx_call (error : IngestError) : Tx unit :=
  fun env tx => (tx_called tx, match se_answer env (tx_calls tx) with Works => Ok tt | _ => Err error end).
(** A statement that reads. *)
Definition tx_query {A} (f : Database -> A) : Tx A :=
  perform tx_call StorageFailed; fun _ tx => (tx, Ok (f (tx_db tx))).
(** A statement that writes: the database checks its constraints. *)
Definition tx_write (db : Database) : Tx unit :=
  fun _ tx =>
    if decide (Constraints db) then (mkTxState (tx_committed tx) db (tx_calls tx) (tx_reports tx), Ok tt)
    else (tx, Err StorageFailed).
Definition tx_execute (f : Database -> Database) : Tx unit :=
  perform tx_call StorageFailed; fun env tx => tx_write (f (tx_db tx)) env tx.
(** [pool.begin] and [transaction.commit] *)
Definition tx_begin : Tx unit := tx_call StorageFailed.
Definition tx_commit : Tx unit :=
  fun env tx =>
    let done := mkTxState (tx_db tx) (tx_db tx) (S (tx_calls tx)) (tx_reports tx) in
    match se_answer env (tx_calls tx) with
    | Works => (done, Ok tt)
    | Fails => (tx_called tx, Err StorageFailed)
    | AnswerLost => (done, Err StorageFailed)
    end.
(** [ActivationProgress::checkpoint] *)
Definition tx_report (records_staged records_total : Z) : Tx unit :=
  fun env tx =>
    let reports := tx_reports tx ++ [(records_staged, records_total)] in
    (mkTxState (tx_committed tx) (tx_db tx) (tx_calls tx) reports, se_report env reports).

(** A transaction against a database: one that is dropped is rolled back. *)
Definition transact {A} (m : Tx A) (env : StoreEnv) (db : Database) : Database * list (Z * Z) * result A IngestError :=
  let '(tx, r) := m env (mkTxState db db 0 []) in (tx_committed tx, tx_reports tx, r).

(** ** Statements *)

Definition PROVIDER_STREAM_BATCH : Z := 500.
Definition EPG_CHANNEL_BATCH : Z := 1000.
Definition PROGRAMME_BATCH : Z := 1000.

Definition provider_account_of (owner : SnapshotOwner) : option Z :=
  match owner with ProviderAccount id => Some id | EpgSource _ => None end.
Definition epg_source_of (owner : SnapshotOwner) : option Z :=
  match owner with ProviderAccount _ => None | EpgSource id => Some id end.

(** [validate_owner], [validate_snapshot] and [to_i64] *)
Definition validate_owner (snapshot : PreparedSnapshot) : result unit IngestError :=
  let kind := snapshot_kind (sn_format snapshot) in
  match sn_owner snapshot with
  | ProviderAccount _ =>
      if bool_decide (kind ∈ ["m3u"; "xtream"; "xtream-epg"]) then Ok tt
      else Err (InvalidRequest "snapshot owner does not match source format")
  | EpgSource _ =>
      if bool_decide (kind = "xmltv") then Ok tt else Err (InvalidRequest "snapshot owner does not match source format")
  end.
Definition validate_snapshot (snapshot : PreparedSnapshot) : result unit IngestError :=
  if is_nonempty snapshot then validate_owner snapshot else Err (EmptySnapshot (display_name (sn_format snapshot))).
Definition to_i64 (value : Z) : result Z IngestError :=
  if value <=? i64_max then Ok value else Err (InvalidRequest "snapshot count exceeds bigint").

(** The rows of a source and a kind: [IS NOT DISTINCT FROM]. *)
Definition same_source (provider_account_id epg_source_id : option Z) (kind : string) (r : SnapshotRow) : Prop :=
  sr_provider_account_id r = provider_account_id /\ sr_epg_source_id r = epg_source_id /\ sr_kind r = kind.
#[export] Instance same_source_decision p e k r : Decision (same_source p e k r).
Proof. unfold same_source. apply _. Defined.

(** The snapshot of the source with the checksum. *)
Definition find_snapshot (snapshot : PreparedSnapshot) (db : Database) : option SnapshotRow :=
  let owner := sn_owner snapshot in
  snd <$> list_find (fun r => same_source (provider_account_of owner) (epg_source_of owner) (snapshot_kind (sn_format snapshot)) r /\
                       sr_checksum_sha256 r = sn_checksum_sha256 snapshot) (db_snapshots db).
Definition find_by_id (id : Z) (db : Database) : option SnapshotRow :=
  snd <$> list_find (fun r => sr_id r = id) (db_snapshots db).

(** [UPDATE source_snapshots SET .. WHERE ..] *)
Definition update_where (P : SnapshotRow -> Prop) `{forall r, Decision (P r)} (f : SnapshotRow -> SnapshotRow) (db : Database)
  : Database :=
  set_snapshots db ((fun r => if decide (P r) then f r else r) <$> db_snapshots db).
(** [rows_affected] *)
Definition count_where (P : SnapshotRow -> Prop) `{forall r, Decision (P r)} (db : Database) : Z :=
  zlen (filter P (db_snapshots db)).

(** An update, with the number of rows it changed. *)
Definition tx_update (P : SnapshotRow -> Prop) `{forall r, Decision (P r)} (f : SnapshotRow -> SnapshotRow) : Tx Z :=
  perform tx_call StorageFailed;
  fun env tx =>
    let updated := count_where P (tx_db tx) in
    tx_bind (tx_write (update_where P f (tx_db tx))) (fun _ => tx_ret updated) env tx.

(** [supersede_current] *)
Definition supersede_current (provider_account_id epg_source_id : option Z) (kind : string) (replacement_id : Z) : Tx unit :=
  tx_execute (update_where
    (fun r => same_source provider_account_id epg_source_id kind r /\ sr_status r = StatusActive /\ sr_id r <> replacement_id)
    (fun r => set_row_status r StatusSuperseded)).

Definition activated (now : Z) (r : SnapshotRow) : SnapshotRow :=
  set_row_times (set_row_status r StatusActive) (sr_staged_at r) (Some now).

(** [insert_snapshot_header] *)
Definition snapshot_header (snapshot : PreparedSnapshot) : SnapshotRow :=
  mkSnapshotRow (sn_id snapshot) (provider_account_of (sn_owner snapshot)) (epg_source_of (sn_owner snapshot))
    (snapshot_kind (sn_format snapshot)) StatusStaging (sn_checksum_sha256 snapshot) (sn_byte_count snapshot)
    (sn_record_count snapshot) (sn_diagnostic_count snapshot) (sn_diagnostics snapshot) None None.
Definition insert_snapshot_header (snapshot : PreparedSnapshot) : Tx unit :=
  tx_execute (fun db => set_snapshots db (db_snapshots db ++ [snapshot_header snapshot])).

(** [staged_row_count] *)
Definition row_count (snapshot_id : Z) (db : Database) : Z :=
  zlen (filter (fun r => st_snapshot_id r = snapshot_id) (db_streams db)) +
  zlen (filter (fun r => ch_source_snapshot_id r = snapshot_id) (db_channels db)) +
  zlen (filter (fun r => pg_source_snapshot_id r = snapshot_id) (db_programmes db)).
Definition staged_row_count (snapshot_id : Z) : Tx Z := tx_query (row_count snapshot_id).

(** [checkpoint_staging]: the records staged so far. *)
Definition checkpoint_staging (records_staged batch_len records_total : Z) : Tx Z :=
  match checked u64_max (records_staged + batch_len) with
  | None => tx_fail (InvalidRequest "snapshot staging count exceeds u64")
  | Some records_staged =>
      if records_total <? records_staged then tx_fail (InvalidRequest "snapshot staging count exceeds record count")
      else perform tx_report records_staged records_total; tx_ret records_staged
  end.

(** ** Batches *)

(** What the iterator over the batches yields, up to its end or its first
    error; every batch takes a row or a byte at least, so that as many steps as
    there are rows or bytes, and one, are enough. *)
Section Batches.
Context {T : Type} `{JsonRows T}.
Fixpoint yields (fuel : nat) (reader : StagedBatchReader T) : list (result (list T) IngestError) :=
  match fuel with
  | O => []
  | S fuel =>
      match next_batch reader with
      | (_, None) => []
      | (_, Some (Err e)) => [Err e]
      | (reader, Some (Ok batch)) => Ok batch :: yields fuel reader
      end
  end.
Definition remaining (reader : StagedBatchReader T) : nat :=
  match br_source reader with FromMemory rows => length rows | FromSpool file => length file end.
Definition batch_list (rows : StagedRows T) (batch_size : Z) : list (result (list T) IngestError) :=
  let reader := batches rows batch_size in yields (S (remaining reader)) reader.

(** A read of the file, where there is one. *)
Definition tx_read (spooled : bool) : Tx unit := if spooled then tx_call ArtifactIo else tx_ret tt.

(** The loop of [insert_provider_streams], of [insert_epg_channels] and of
    [insert_programmes]: one statement and one report per batch. *)
Fixpoint insert_batches (spooled : bool) (insert : list T -> Database -> Database) (bs : list (result (list T) IngestError))
  (records_staged records_total : Z) : Tx Z :=
  perform tx_read spooled;
  match bs with
  | [] => tx_ret records_staged
  | Err e :: _ => tx_fail e
  | Ok chunk :: bs =>
      perform tx_execute (insert chunk);
      await records_staged <- checkpoint_staging records_staged (zlen chunk) records_total;
      insert_batches spooled insert bs records_staged records_total
  end.
Definition is_spooled (rows : StagedRows T) : bool := bool_decide (is_Some (sg_spool rows)).
(** [batches(..)?], which opens the file again, and the loop *)
Definition insert_rows (rows : StagedRows T) (batch_size : Z) (insert : list T -> Database -> Database)
  (records_staged records_total : Z) : Tx Z :=
  perform tx_read (is_spooled rows);
  insert_batches (is_spooled rows) insert (batch_list rows batch_size) records_staged records_total.
End Batches.

Section Store.
Context `{JsonRows PreparedProviderStream} `{JsonRows PreparedEpgChannel} `{JsonRows PreparedProgramme}.
(** [Uuid]'s [Display], and [with_reconciliation_parent] *)
Context (uuid_text : Z -> text) (reconciliation_parent : option (Z * Z)).

Definition add_streams (snapshot_id provider_account_id : Z) (chunk : list PreparedProviderStream) (db : Database) : Database :=
  set_rows db (db_streams db ++ (mkStreamRow snapshot_id provider_account_id <$> chunk)) (db_channels db) (db_programmes db).
Definition add_channels (snapshot_id : Z) (provider_account_id epg_source_id : option Z) (chunk : list PreparedEpgChannel)
  (db : Database) : Database :=
  set_rows db (db_streams db) (db_channels db ++ (mkChannelRow snapshot_id provider_account_id epg_source_id <$> chunk))
    (db_programmes db).
Definition add_programmes (snapshot_id : Z) (chunk : list PreparedProgramme) (db : Database) : Database :=
  set_rows db (db_streams db) (db_channels db) (db_programmes db ++ (mkProgrammeRow snapshot_id <$> chunk)).

(** [insert_provider_streams] *)
Definition insert_provider_streams (snapshot_id : Z) (provider_account_id : option Z)
  (streams : StagedRows PreparedProviderStream) (records_staged records_total : Z) : Tx Z :=
  if staged_is_empty streams then tx_ret records_staged
  else
    match provider_account_id with
    | None => tx_fail (InvalidRequest "provider streams require a provider owner")
    | Some provider_account_id =>
        insert_rows streams PROVIDER_STREAM_BATCH (add_streams snapshot_id provider_account_id) records_staged records_total
    end.

(** [insert_epg_channels] *)
Definition insert_epg_channels (snapshot_id : Z) (provider_account_id epg_source_id : option Z) (snapshot_kind : string)
  (channels : StagedRows PreparedEpgChannel) (records_staged records_total : Z) : Tx Z :=
  if staged_is_empty channels then tx_ret records_staged
  else if bool_decide (is_Some provider_account_id <-> is_Some epg_source_id)
  then tx_fail (InvalidRequest "EPG channels require exactly one source owner")
  else if negb (bool_decide (snapshot_kind ∈ ["xmltv"; "xtream-epg"]))
  then tx_fail (InvalidRequest "EPG channels are not valid for this snapshot kind")
  else insert_rows channels EPG_CHANNEL_BATCH (add_channels snapshot_id provider_account_id epg_source_id) records_staged records_total.

(** [insert_programmes] *)
Definition insert_programmes (snapshot_id : Z) (programmes : StagedRows PreparedProgramme) (records_staged records_total : Z) : Tx Z :=
  insert_rows programmes PROGRAMME_BATCH (add_programmes snapshot_id) records_staged records_total.

(** [PgSnapshotStore::stage_dispatch] *)
Definition stage_dispatch (snapshot_id : Z) : Tx unit :=
  match reconciliation_parent with
  | None => tx_ret tt
  | Some (parent_job_id, partitions) =>
      await env <- tx_env;
      let row :=
        mkOutboxRow (se_outbox_id env) parent_job_id
          (JObject [(str "partitionCount", JInteger partitions); (str "snapshotId", JString (uuid_text snapshot_id))])
          (str "stage:" ++ uuid_text parent_job_id ++ str ":" ++ uuid_text snapshot_id) in
      tx_execute (fun db =>
        if bool_decide (ob_dedup_key row ∈ (ob_dedup_key <$> db_outbox db)) then db
        else set_outbox db (db_outbox db ++ [row]))
  end.

(** The header and the rows of a new snapshot, which [stage_with_progress] and
    [activate_with_progress] write alike. *)
Definition insert_snapshot (snapshot : PreparedSnapshot) : Tx unit :=
  let provider_account_id := provider_account_of (sn_owner snapshot) in
  let epg_source_id := epg_source_of (sn_owner snapshot) in
  let total := sn_record_count snapshot in
  perform insert_snapshot_header snapshot;
  await staged <- insert_provider_streams (sn_id snapshot) provider_account_id (sn_provider_streams snapshot) 0 total;
  await staged <- insert_epg_channels (sn_id snapshot) provider_account_id epg_source_id (snapshot_kind (sn_format snapshot))
                 (sn_epg_channels snapshot) staged total;
  await staged <- insert_programmes (sn_id snapshot) (sn_programmes snapshot) staged total;
  if staged =? total then tx_ret tt
  else tx_fail (InvalidRequest "snapshot staging count does not match record count").

(** The checks before a transaction. *)
Definition checked_snapshot (snapshot : PreparedSnapshot) : result unit IngestError :=
  try _ <- validate_snapshot snapshot;
  try _ <- to_i64 (sn_byte_count snapshot);
  try _ <- to_i64 (sn_record_count snapshot);
  try _ <- to_i64 (sn_diagnostic_count snapshot);
  Ok tt.

(** [PgSnapshotStore::stage_with_progress] *)
Definition stage_with_progress (snapshot : PreparedSnapshot) : Tx Z :=
  let total := sn_record_count snapshot in
  perform tx_lift (checked_snapshot snapshot);
  perform tx_begin;
  await found <- tx_query (find_snapshot snapshot);
  match found with
  | Some existing =>
      match sr_status existing with
      | StatusActive =>
          perform tx_commit;
          perform tx_report total total;
          tx_ret (sr_id existing)
      | StatusStaging =>
          await complete <- staged_row_count (sr_id existing);
          if complete =? total then
            perform stage_dispatch (sr_id existing);
            perform tx_commit;
            perform tx_report total total;
            tx_ret (sr_id existing)
          else tx_fail (InvalidRequest "matching staged snapshot is incomplete; discard it before retrying")
      | StatusSuperseded =>
          await complete <- staged_row_count (sr_id existing);
          if negb (complete =? total) then tx_fail (InvalidRequest "matching superseded snapshot is incomplete")
          else
            await env <- tx_env;
            perform tx_execute (update_where (fun r => sr_id r = sr_id existing)
                             (fun r => set_row_times (set_row_status r StatusStaging) (Some (se_now env)) None));
            perform stage_dispatch (sr_id existing);
            perform tx_commit;
            perform tx_report total total;
            tx_ret (sr_id existing)
      | StatusRejected => tx_fail (InvalidRequest "matching snapshot already exists in a terminal state")
      end
  | None =>
      perform insert_snapshot snapshot;
      await env <- tx_env;
      perform tx_execute (update_where (fun r => sr_id r = sn_id snapshot)
                       (fun r => set_row_times r (Some (se_now env)) (sr_activated_at r)));
      perform stage_dispatch (sn_id snapshot);
      perform tx_commit;
      tx_ret (sn_id snapshot)
  end.

(** The status of a staged snapshot is set; one row must have changed. *)
Definition activate_row (id : Z) : Tx unit :=
  await env <- tx_env;
  await updated <- tx_update (fun r => sr_id r = id /\ sr_status r = StatusStaging) (activated (se_now env));
  if updated =? 1 then tx_ret tt else tx_fail (InvalidRequest "staged snapshot was not activatable").

(** [PgSnapshotStore::activate_staged] *)
Definition activate_staged (snapshot_id : Z) : Tx Z :=
  perform tx_begin;
  await found <- tx_query (find_by_id snapshot_id);
  match found with
  | None => tx_fail (InvalidRequest "staged snapshot was not found")
  | Some row =>
      if bool_decide (sr_status row = StatusActive) then perform tx_commit; tx_ret snapshot_id
      else if negb (bool_decide (sr_status row = StatusStaging)) || negb (bool_decide (is_Some (sr_staged_at row)))
      then tx_fail (InvalidRequest "snapshot is not ready for activation")
      else
        await actual_count <- staged_row_count snapshot_id;
        if negb (actual_count =? sr_record_count row)
        then tx_fail (InvalidRequest "staged snapshot record count does not match its header")
        else
          perform supersede_current (sr_provider_account_id row) (sr_epg_source_id row) (sr_kind row) snapshot_id;
          perform activate_row snapshot_id;
          perform tx_commit;
          tx_ret snapshot_id
  end.

(** [PgSnapshotStore::discard_staged]: one statement, a transaction of its own,
    with the rows that the foreign keys delete along. *)
Definition delete_staged (id : Z) (db : Database) : Database :=
  if decide (Exists (fun r => sr_id r = id /\ sr_status r = StatusStaging) (db_snapshots db)) then
    let channels := filter (fun r => ch_source_snapshot_id r <> id) (db_channels db) in
    set_snapshots
      (set_rows db (filter (fun r => st_snapshot_id r <> id) (db_streams db)) channels
         (filter (fun r => pg_source_snapshot_id r <> id /\
                           pp_epg_channel_id (pg_programme r) ∈ (pc_id ∘ ch_channel <$> channels)) (db_programmes db)))
      (filter (fun r => sr_id r <> id) (db_snapshots db))
  else db.
Definition discard_staged (snapshot_id : Z) : Tx bool :=
  fun env tx =>
    let deleted := count_where (fun r => sr_id r = snapshot_id /\ sr_status r = StatusStaging) (tx_db tx) in
    tx_bind (tx_write (delete_staged snapshot_id (tx_db tx))) (fun _ => perform tx_commit; tx_ret (deleted =? 1)) env tx.

(** [PgSnapshotStore::activate_with_progress] *)
Definition activate_with_progress (snapshot : PreparedSnapshot) : Tx Z :=
  let provider_account_id := provider_account_of (sn_owner snapshot) in
  let epg_source_id := epg_source_of (sn_owner snapshot) in
  let kind := snapshot_kind (sn_format snapshot) in
  let total := sn_record_count snapshot in
  perform tx_lift (checked_snapshot snapshot);
  perform tx_begin;
  await found <- tx_query (find_snapshot snapshot);
  match found with
  | Some existing =>
      perform supersede_current provider_account_id epg_source_id kind (sr_id existing);
      await env <- tx_env;
      perform tx_execute (update_where (fun r => sr_id r = sr_id existing) (activated (se_now env)));
      perform tx_report total total;
      perform tx_commit;
      tx_ret (sr_id existing)
  | None =>
      perform insert_snapshot snapshot;
      perform supersede_current provider_account_id epg_source_id kind (sn_id snapshot);
      perform activate_row (sn_id snapshot);
      perform tx_commit;
      tx_ret (sn_id snapshot)
  end.

(** ** Runs *)

Inductive StoreOp :=
| OpStage (snapshot : PreparedSnapshot)
| OpActivate (snapshot : PreparedSnapshot)
| OpActivateStaged (id : Z)
| OpDiscard (id : Z).
(** The database after a call of the store. *)
Definition store_op (env : StoreEnv) (op : StoreOp) (db : Database) : Database :=
  match op with
  | OpStage snapshot => fst (fst (transact (stage_with_progress snapshot) env db))
  | OpActivate snapshot => fst (fst (transact (activate_with_progress snapshot) env db))
  | OpActivateStaged id => fst (fst (transact (activate_staged id) env db))
  | OpDiscard id => fst (fst (transact (discard_staged id) env db))
  end.
Definition store_run (ops : list (StoreEnv * StoreOp)) (db : Database) : Database :=
  foldl (fun db '(env, op) => store_op env op db) db ops.
End Store.

(** [PgSnapshotStore::with_reconciliation_parent] *)
Definition with_reconciliation_parent (parent_job_id partitions : Z) : option (Z * Z) :=
  Some (parent_job_id, Z.max 1 (Z.min partitions 64)).
