(* ===== verification/StoreSpec.v ===== *)
(** * The snapshot store, as a catalogue of published snapshots

    Whatever fails on the way, a call of the store leaves the database as it
    was, or does its whole work: what readers see of a source is the snapshot
    that was active, or the new one, complete. *)
From Stdlib Require Import ZArith Lia.
From stdpp Require Import base numbers option strings.
From stdpp Require Import list gmap.
From S2P Require Import Prelude Text M3u Artifact Staging Settings Ingest Store.
Open Scope Z_scope.
Open Scope relay_scope.

(** ** Reasoning about transactions *)

(** [keeps P m Q]: from a database that satisfies [P], [m] commits nothing, and
    when it succeeds, what the transaction sees satisfies [Q]. *)
Definition keeps {A} (P : Database -> Prop) (m : Tx A) (Q : A -> Database -> Prop) : Prop :=
  forall env tx, P (tx_db tx) ->
    let '(tx', r) := m env tx in
    tx_committed tx' = tx_committed tx /\ forall a, r = Ok a -> Q a (tx_db tx').

(** [ends P m G]: [m] commits at most once, and then a database that satisfies
    [G], with the answer that it gives when the commit is not lost. *)
Definition ends {A} (P : Database -> Prop) (m : Tx A) (G : A -> Database -> Prop) : Prop :=
  forall env tx, P (tx_db tx) ->
    let '(tx', r) := m env tx in
    match r with
    | Ok a => G a (tx_committed tx')
    | Err e => tx_committed tx' = tx_committed tx \/ exists a, G a (tx_committed tx')
    end.

Lemma keeps_bind {A B} P (m : Tx A) (k : A -> Tx B) Q R :
  keeps P m Q -> (forall a, keeps (Q a) (k a) R) -> keeps P (tx_bind m k) R.
Proof.
  intros Hm Hk env tx HP. unfold tx_bind. specialize (Hm env tx HP). destruct (m env tx) as [tx1 [a|e]].
  - destruct Hm as [Hc HQ]. specialize (Hk a env tx1 (HQ a eq_refl)). destruct (k a env tx1) as [tx2 r]. by rewrite <- Hc.
  - destruct Hm as [Hc _]. by split.
Qed.

Lemma ends_bind {A B} P (m : Tx A) (k : A -> Tx B) Q G :
  keeps P m Q -> (forall a, ends (Q a) (k a) G) -> ends P (tx_bind m k) G.
Proof.
  intros Hm Hk env tx HP. unfold tx_bind. specialize (Hm env tx HP). destruct (m env tx) as [tx1 [a|e]].
  - destruct Hm as [Hc HQ]. specialize (Hk a env tx1 (HQ a eq_refl)). destruct (k a env tx1) as [tx2 [b|e]]; by rewrite <- ?Hc.
  - by left; destruct Hm.
Qed.

Lemma keeps_weaken {A} (P P' : Database -> Prop) (m : Tx A) Q Q' :
  keeps P' m Q' -> (forall db, P db -> P' db) -> (forall a db, Q' a db -> Q a db) -> keeps P m Q.
Proof.
  intros Hm HP HQ env tx Hp. specialize (Hm env tx (HP _ Hp)). destruct (m env tx) as [tx' r].
  destruct Hm as [? Hr]. split; [done|]. intros a Ha. by apply HQ, Hr.
Qed.

Lemma keeps_ret {A} (P : Database -> Prop) (a : A) (Q : A -> Database -> Prop) :
  (forall db, P db -> Q a db) -> keeps P (tx_ret a) Q.
Proof. intros HQ env tx HP. split; [done|]. intros ? [= <-]. by apply HQ. Qed.
Lemma keeps_fail {A} P e (Q : A -> Database -> Prop) : keeps P (tx_fail e) Q.
Proof. by intros env tx HP. Qed.
Lemma keeps_lift {A} (P : Database -> Prop) (r : result A IngestError) : keeps P (tx_lift r) (fun a db => P db /\ r = Ok a).
Proof. intros env tx HP. by split. Qed.
Lemma keeps_env (P : Database -> Prop) : keeps P tx_env (fun _ db => P db).
Proof. intros env tx HP. by split. Qed.
Lemma keeps_call (P : Database -> Prop) e : keeps P (tx_call e) (fun _ db => P db).
Proof. intros env tx HP. by split. Qed.
Lemma keeps_report (P : Database -> Prop) s t : keeps P (tx_report s t) (fun _ db => P db).
Proof. intros env tx HP. by split. Qed.
Lemma keeps_query {A} (P : Database -> Prop) (f : Database -> A) : keeps P (tx_query f) (fun a db => P db /\ a = f db).
Proof.
  eapply keeps_bind; [apply keeps_call|]. intros _ env tx HP. cbn. split; [done|]. by intros a [= <-].
Qed.
Lemma keeps_write (P : Database -> Prop) db : keeps P (tx_write db) (fun _ db' => db' = db /\ Constraints db).
Proof. intros env tx HP. unfold tx_write. by destruct (decide _). Qed.
Lemma keeps_execute (P : Database -> Prop) f :
  keeps P (tx_execute f) (fun _ db' => exists db, P db /\ db' = f db /\ Constraints db').
Proof.
  eapply keeps_bind; [apply keeps_call|]. intros _ env tx HP. cbn. unfold tx_write.
  destruct (decide _); (split; [done|]); [|done]. intros _ _. by eexists.
Qed.
Lemma keeps_executed (P Q : Database -> Prop) f :
  (forall db, P db -> Constraints (f db) -> Q (f db)) -> keeps P (tx_execute f) (fun _ => Q).
Proof.
  intros HQ. eapply keeps_weaken; [apply (keeps_execute P f)|done|]. intros ? db' (db & ? & -> & ?). by apply HQ.
Qed.
Lemma keeps_update (P : Database -> Prop) R `{forall r, Decision (R r)} f :
  keeps P (tx_update R f) (fun n db' => exists db, P db /\ db' = update_where R f db /\ Constraints db' /\ n = count_where R db).
Proof.
  eapply keeps_bind; [apply keeps_call|]. intros _ env tx HP. cbn. unfold tx_bind, tx_write.
  destruct (decide _); (split; [done|]); [|done]. intros a [= <-]. by eexists.
Qed.

Lemma keeps_pure {A} (phi : Prop) (P : Database -> Prop) (m : Tx A) Q :
  (phi -> keeps P m Q) -> keeps (fun db => phi /\ P db) m Q.
Proof. intros Hm env tx [Hphi HP]. by apply Hm. Qed.
Lemma ends_pure {A} (phi : Prop) (P : Database -> Prop) (m : Tx A) G :
  (phi -> ends P m G) -> ends (fun db => phi /\ P db) m G.
Proof. intros Hm env tx [Hphi HP]. by apply Hm. Qed.
Lemma ends_weaken {A} (P P' : Database -> Prop) (m : Tx A) (G G' : A -> Database -> Prop) :
  ends P' m G' -> (forall db, P db -> P' db) -> (forall a db, G' a db -> G a db) -> ends P m G.
Proof.
  intros Hm HP HG env tx Hp. specialize (Hm env tx (HP _ Hp)). destruct (m env tx) as [tx' [a|e]]; [by apply HG|].
  destruct Hm as [|[a ?]]; [by left|right; exists a; by apply HG].
Qed.

Lemma ends_from {A} (P P' : Database -> Prop) (m : Tx A) G : ends P' m G -> (forall db, P db -> P' db) -> ends P m G.
Proof. intros Hm HP. by eapply ends_weaken. Qed.

(** The commit, and what is done after it. *)
Lemma ends_commit {A} (P : Database -> Prop) (a : A) (G : A -> Database -> Prop) (after : Tx unit) :
  (forall db, P db -> G a db) ->
  (forall env tx, exists tx' r, after env tx = (tx', r) /\ tx_committed tx' = tx_committed tx) ->
  ends P (perform tx_commit; perform after; tx_ret a) G.
Proof.
  intros HG Hafter env tx HP. unfold tx_bind, tx_commit, tx_ret. destruct (se_answer env (tx_calls tx)); [| by left | by right; exists a; apply HG].
  match goal with |- context [after env ?s] => destruct (Hafter env s) as (tx' & r & -> & Hc) end.
  destruct r; rewrite Hc; [by apply HG|]. right. exists a. by apply HG.
Qed.
Lemma ends_commit_ret {A} (P : Database -> Prop) (a : A) (G : A -> Database -> Prop) :
  (forall db, P db -> G a db) -> ends P (perform tx_commit; tx_ret a) G.
Proof.
  intros HG env tx HP. unfold tx_bind, tx_commit, tx_ret. destruct (se_answer env (tx_calls tx)); [by apply HG | by left | by right; exists a; apply HG].
Qed.
Lemma ends_fail {A} P e (G : A -> Database -> Prop) : ends P (tx_fail e) G.
Proof. intros env tx HP. by left. Qed.

(** A call of the store as a whole. *)
Lemma ends_transact {A} P (m : Tx A) (G : A -> Database -> Prop) env db :
  ends P m G -> P db ->
  let '(db', _, r) := transact m env db in
  match r with Ok a => G a db' | Err _ => db' = db \/ exists a, G a db' end.
Proof.
  intros Hm HP. unfold transact. specialize (Hm env (mkTxState db db 0 []) HP). by destruct (m _ _) as [tx [a|e]].
Qed.

(** ** What is inserted *)

(** The rows of the batches. *)
Definition chunk_rows {T} (bs : list (result (list T) IngestError)) : list T :=
  concat (omap (fun b => match b with Ok chunk => Some chunk | Err _ => None end) bs).

Lemma insert_batches_keeps {T} `{JsonRows T} spooled (insert : list T -> Database -> Database) bs staged total db0 :
  (forall db, insert [] db = db) -> (forall a b db, insert (a ++ b) db = insert b (insert a db)) ->
  keeps (fun db => db = db0 /\ Constraints db) (insert_batches spooled insert bs staged total)
    (fun n db => n = staged + zlen (chunk_rows bs) /\ db = insert (chunk_rows bs) db0 /\ Constraints db).
Proof.
  intros Hnil Happ. revert staged db0. induction bs as [|[chunk|e] bs IH]; intros staged db0; cbn [insert_batches].
  all: eapply keeps_bind with (Q := fun _ db => db = db0 /\ Constraints db);
    [destruct spooled; [apply keeps_call|by apply keeps_ret]|intros _].
  - apply keeps_ret. intros db [-> ?]. change (chunk_rows []) with (@nil T). rewrite Hnil.
    change (zlen (@nil T)) with 0. by rewrite Z.add_0_r.
  - eapply keeps_bind; [apply keeps_execute|]. intros ?. cbv beta. unfold checkpoint_staging.
    eapply keeps_bind with (Q := fun n db => n = staged + zlen chunk /\ db = insert chunk db0 /\ Constraints db).
    + destruct (checked _ _) as [n|] eqn:Hn; [|apply keeps_fail]. apply checked_inv in Hn as [-> _].
      destruct (_ <? _); [apply keeps_fail|]. eapply keeps_bind; [apply keeps_report|]. intros ?. cbv beta.
      apply keeps_ret. by intros db (? & [-> _] & -> & ?).
    + intros n. apply keeps_pure. intros ->. eapply keeps_weaken; [apply (IH _ (insert chunk db0))|done|]. cbv beta. intros n db (-> & -> & ?).
      change (chunk_rows (Ok chunk :: bs)) with (chunk ++ chunk_rows bs). rewrite Happ, zlen_app. split_and!; [lia|done|done].
  - apply keeps_fail.
Qed.

Lemma insert_rows_keeps {T} `{JsonRows T} rows size (insert : list T -> Database -> Database) staged total db0 :
  (forall db, insert [] db = db) -> (forall a b db, insert (a ++ b) db = insert b (insert a db)) ->
  keeps (fun db => db = db0 /\ Constraints db) (insert_rows rows size insert staged total)
    (fun n db => n = staged + zlen (chunk_rows (batch_list rows size)) /\
                 db = insert (chunk_rows (batch_list rows size)) db0 /\ Constraints db).
Proof.
  intros Hnil Happ. eapply keeps_bind with (Q := fun _ db => db = db0 /\ Constraints db);
    [unfold tx_read; destruct (is_spooled rows); [apply keeps_call|by apply keeps_ret]|]. intros _. by apply insert_batches_keeps.
Qed.

(** ** The catalogue *)

(** The rows of a snapshot. *)
Record Contents := mkContents {
  ct_streams : list StreamRow; ct_channels : list ChannelRow; ct_programmes : list ProgrammeRow }.
Definition contents (id : Z) (db : Database) : Contents :=
  mkContents (filter (fun r => st_snapshot_id r = id) (db_streams db))
    (filter (fun r => ch_source_snapshot_id r = id) (db_channels db))
    (filter (fun r => pg_source_snapshot_id r = id) (db_programmes db)).

(** What a source shows: its active snapshot, with the checksum and the rows. *)
Record Shown := mkShown { sh_id : Z; sh_checksum : text; sh_contents : Contents }.
Definition SourceKey : Type := option Z * option Z * string.
Definition of_source (key : SourceKey) : SnapshotRow -> Prop := same_source (fst (fst key)) (snd (fst key)) (snd key).
#[export] Instance of_source_decision key r : Decision (of_source key r).
Proof. apply _. Defined.
Definition published (db : Database) (key : SourceKey) : option Shown :=
  '(_, r) ← list_find (fun r => of_source key r /\ sr_status r = StatusActive) (db_snapshots db);
  Some (mkShown (sr_id r) (sr_checksum_sha256 r) (contents (sr_id r) db)).

(** The invariant: the constraints hold, every snapshot has as many rows as its
    header says, and every programme is on a channel of its own snapshot. *)
Definition complete (db : Database) : Prop := Forall (fun r => row_count (sr_id r) db = sr_record_count r) (db_snapshots db).
Definition linked (db : Database) : Prop :=
  Forall (fun r => Exists (fun c => pc_id (ch_channel c) = pp_epg_channel_id (pg_programme r) /\
                                    ch_source_snapshot_id c = pg_source_snapshot_id r) (db_channels db)) (db_programmes db).
Definition store_inv (db : Database) : Prop := Constraints db /\ complete db /\ linked db.

Lemma row_count_contents id db :
  row_count id db = zlen (ct_streams (contents id db)) + zlen (ct_channels (contents id db)) + zlen (ct_programmes (contents id db)).
Proof. done. Qed.

Lemma unique_index_inj {A K} (key : A -> option K) rows a b k :
  unique_index key rows -> a ∈ rows -> b ∈ rows -> key a = Some k -> key b = Some k -> a = b.
Proof.
  unfold unique_index. induction rows as [|r rows IH]; [intros _ []%elem_of_nil|]. cbn.
  assert (forall c, c ∈ rows -> key c = Some k -> k ∈ omap key rows) as Hin.
  { intros c Hc Hk. apply list_elem_of_omap. by exists c. }
  intros Hnd Ha Hb Hka Hkb. apply elem_of_cons in Ha as [->|Ha], Hb as [->|Hb]; try done.
  - rewrite Hka in Hnd. apply NoDup_cons in Hnd as [Hn _]. destruct Hn. by eapply Hin.
  - rewrite Hkb in Hnd. apply NoDup_cons in Hnd as [Hn _]. destruct Hn. by eapply Hin.
  - apply IH; try done. destruct (key r); [by apply NoDup_cons in Hnd as [_ ?]|done].
Qed.

Lemma active_unique db key r r' :
  Constraints db -> r ∈ db_snapshots db -> r' ∈ db_snapshots db -> of_source key r -> of_source key r' ->
  sr_status r = StatusActive -> sr_status r' = StatusActive -> r = r'.
Proof.
  intros Hc Hr Hr' (Hp & He & Hk) (Hp' & He' & Hk') Ha Ha'.
  pose proof (proj1 (Forall_forall _ _) (snapshot_rows _ Hc) _ Hr) as (Howner & _).
  destruct Howner as [(_ & [e Hse] & _)|(_ & [p Hsp] & _)].
  - eapply (unique_index_inj active_epg_key); [apply (one_active_per_source _ Hc)|done|done| |];
      unfold active_epg_key; rewrite bool_decide_true by done.
    + by rewrite Hse.
    + rewrite He', <- He, Hse. cbn. by rewrite Hk, Hk'.
  - eapply (unique_index_inj active_provider_key); [apply (one_active_per_provider _ Hc)|done|done| |];
      unfold active_provider_key; rewrite bool_decide_true by done.
    + by rewrite Hsp.
    + rewrite Hp', <- Hp, Hsp. cbn. by rewrite Hk, Hk'.
Qed.

Lemma published_Some db key shown :
  Constraints db ->
  published db key = Some shown <->
  exists r, r ∈ db_snapshots db /\ of_source key r /\ sr_status r = StatusActive /\
    shown = mkShown (sr_id r) (sr_checksum_sha256 r) (contents (sr_id r) db).
Proof.
  intros Hc. unfold published. destruct (list_find _ _) as [[i r]|] eqn:Hf; cbn.
  - apply list_find_Some in Hf as (Hi & [Hs Ha] & _). apply list_elem_of_lookup_2 in Hi. split.
    + intros [= <-]. by exists r.
    + intros (r' & Hr' & Hs' & Ha' & ->). by rewrite (active_unique db key r r').
  - split; [done|]. intros (r & Hr & Hs & Ha & _). apply list_find_None in Hf. by eapply Forall_forall in Hf as []; [|done].
Qed.

Lemma published_None db key :
  published db key = None <-> (forall r, r ∈ db_snapshots db -> of_source key r -> sr_status r <> StatusActive).
Proof.
  unfold published. destruct (list_find _ _) as [[i r]|] eqn:Hf; cbn.
  - split; [done|]. intros Hn. apply list_find_Some in Hf as (Hi & [Hs Ha] & _). apply list_elem_of_lookup_2 in Hi. by destruct (Hn r).
  - split; [|done]. intros _ r Hr Hs Ha. apply list_find_None in Hf. by eapply Forall_forall in Hf as []; [|done].
Qed.

(** Two databases show the same where the active snapshots correspond. *)
Lemma published_same db db' key :
  Constraints db -> Constraints db' ->
  (forall r, r ∈ db_snapshots db -> of_source key r -> sr_status r = StatusActive ->
     exists r', r' ∈ db_snapshots db' /\ of_source key r' /\ sr_status r' = StatusActive /\ sr_id r' = sr_id r /\
       sr_checksum_sha256 r' = sr_checksum_sha256 r /\ contents (sr_id r) db' = contents (sr_id r) db) ->
  (forall r', r' ∈ db_snapshots db' -> of_source key r' -> sr_status r' = StatusActive ->
     exists r, r ∈ db_snapshots db /\ of_source key r /\ sr_status r = StatusActive) ->
  published db' key = published db key.
Proof.
  intros Hc Hc' Hfwd Hbwd. destruct (published db key) as [shown|] eqn:Hp.
  - apply published_Some in Hp as (r & Hr & Hs & Ha & ->); [|done]. apply published_Some; [done|].
    destruct (Hfwd r Hr Hs Ha) as (r' & ? & ? & ? & Hid & Hsum & Hct). exists r'. split_and!; try done. by rewrite Hid, Hsum, Hct.
  - rewrite published_None in Hp |- *. intros r' Hr' Hs' Ha'. destruct (Hbwd r' Hr' Hs' Ha') as (r & ? & ? & ?). by eapply Hp.
Qed.

(** *** Updates of the headers *)

(** An update of the status and of the times. *)
Definition same_header (r r' : SnapshotRow) : Prop :=
  sr_id r' = sr_id r /\ sr_provider_account_id r' = sr_provider_account_id r /\ sr_epg_source_id r' = sr_epg_source_id r /\
  sr_kind r' = sr_kind r /\ sr_checksum_sha256 r' = sr_checksum_sha256 r /\ sr_record_count r' = sr_record_count r.

Lemma same_header_source (key : SourceKey) r r' : same_header r r' -> of_source key r' <-> of_source key r.
Proof. unfold of_source, same_source. intros (_ & -> & -> & -> & _). done. Qed.

Lemma elem_of_update P `{forall r, Decision (P r)} f db r' :
  r' ∈ db_snapshots (update_where P f db) <-> exists r, r ∈ db_snapshots db /\ r' = if decide (P r) then f r else r.
Proof. cbn. rewrite list_elem_of_fmap. naive_solver. Qed.

Lemma update_inv P `{forall r, Decision (P r)} f db :
  (forall r, same_header r (f r)) -> store_inv db -> Constraints (update_where P f db) -> store_inv (update_where P f db).
Proof.
  intros Hf (_ & Hcomplete & Hlinked) Hc. split_and!; [done| |done]. apply Forall_forall. intros r'.
  rewrite elem_of_update. intros (r & Hr & ->). eapply Forall_forall in Hcomplete; [|exact Hr].
  destruct (decide (P r)); [|done]. destruct (Hf r) as (Hid & _ & _ & _ & _ & Hcount). by rewrite Hid, Hcount.
Qed.

(** An update that leaves it open which snapshots are active. *)
Lemma update_quiet P `{forall r, Decision (P r)} f db (key : SourceKey) :
  (forall r, same_header r (f r)) ->
  (forall r, r ∈ db_snapshots db -> P r -> sr_status (f r) = StatusActive <-> sr_status r = StatusActive) ->
  Constraints db -> Constraints (update_where P f db) -> published (update_where P f db) key = published db key.
Proof.
  intros Hf Hstatus Hc Hc'. apply published_same; [done|done| |].
  - intros r Hr Hs Ha. exists (if decide (P r) then f r else r). rewrite elem_of_update. destruct (decide (P r)) as [Hp|Hp].
    + split_and!; [by exists r; rewrite decide_True|by apply (same_header_source key r (f r))|by apply Hstatus|apply Hf|apply Hf|done].
    + split_and!; [by exists r; rewrite decide_False|done..].
  - intros r'. rewrite elem_of_update. intros (r & Hr & ->) Hs Ha. exists r.
    destruct (decide (P r)) as [Hp|]; [|done]. split_and!; [done|by apply (same_header_source key r (f r))|by apply Hstatus].
Qed.

Lemma snapshot_by_id db r r' :
  Constraints db -> r ∈ db_snapshots db -> r' ∈ db_snapshots db -> sr_id r = sr_id r' -> r = r'.
Proof.
  intros Hc Hr Hr' Hid. eapply (unique_index_inj (fun r => Some (sr_id r))); [|done|done|done|by rewrite <- Hid].
  unfold unique_index. rewrite <- list_fmap_alt. apply Hc.
Qed.

Lemma other_source (key key' : SourceKey) r : key' <> key -> of_source key' r -> ~ of_source key r.
Proof. unfold of_source, same_source. destruct key as [[? ?] ?], key' as [[? ?] ?]. cbn. naive_solver. Qed.

(** *** Publication *)

Definition superseded (key : SourceKey) (id : Z) : Database -> Database :=
  update_where (fun r => of_source key r /\ sr_status r = StatusActive /\ sr_id r <> id) (fun r => set_row_status r StatusSuperseded).

(** The snapshot [id] becomes the active one of its source. *)
Lemma publication db (key : SourceKey) row P `{forall r, Decision (P r)} now :
  store_inv db -> row ∈ db_snapshots db -> of_source key row ->
  let db1 := superseded key (sr_id row) db in
  let db2 := update_where P (activated now) db1 in
  (forall r, r ∈ db_snapshots db1 -> P r <-> sr_id r = sr_id row) ->
  Constraints db1 -> Constraints db2 ->
  store_inv db2 /\ published db2 key = Some (mkShown (sr_id row) (sr_checksum_sha256 row) (contents (sr_id row) db)) /\
  forall key', key' <> key -> published db2 key' = published db key'.
Proof.
  intros Hinv Hrow Hkey db1 db2 HP Hc1 Hc2.
  assert (store_inv db1) as Hinv1 by (by apply update_inv).
  assert (exists row1, row1 ∈ db_snapshots db1 /\ same_header row row1) as (row1 & Hrow1 & Hh1).
  { eexists. split; [apply elem_of_update; by exists row|]. by destruct (decide _). }
  split_and!; [by apply update_inv| |].
  - apply published_Some; [done|]. exists (activated now row1). split_and!; try done.
    + apply elem_of_update. exists row1. rewrite decide_True; [done|]. apply HP; [done|]. apply Hh1.
    + by apply (same_header_source key row row1 Hh1).
    + destruct Hh1 as (Hid & _ & _ & _ & Hsum & _). cbn. by rewrite Hid, Hsum.
  - intros key' Hne. destruct Hinv as (Hc & _).
    assert (forall r, r ∈ db_snapshots db -> of_source key' r -> r ∈ db_snapshots db2) as Hfwd.
    { intros r Hr Hs. assert (~ of_source key r) as Hnk by (by eapply other_source).
      assert (r ∈ db_snapshots db1) as Hr1 by (apply elem_of_update; exists r; rewrite decide_False by tauto; done).
      apply elem_of_update. exists r. rewrite decide_False; [done|]. rewrite HP by done. intros Hid.
      by rewrite (snapshot_by_id db r row) in Hnk. }
    apply published_same; [done|done| |].
    + intros r Hr Hs Ha. exists r. split_and!; try done. by apply Hfwd.
    + intros r' Hr' Hs' Ha'. pose proof Hr' as Hin. apply elem_of_update in Hr' as (r1 & Hr1 & Heq).
      apply elem_of_update in Hr1 as (r & Hr & Heq1).
      assert (same_header r r') as Hh by (subst; by repeat destruct (decide _)).
      assert (of_source key' r) as Hs by (by apply (same_header_source key' r r' Hh)).
      exists r. split_and!; try done. rewrite (snapshot_by_id db2 r r'); [done|done|by apply Hfwd|done|by symmetry; apply Hh].
Qed.

Section Spec.
Context `{JsonRows PreparedProviderStream} `{JsonRows PreparedEpgChannel} `{JsonRows PreparedProgramme}.
Context (uuid_text : Z -> text) (reconciliation_parent : option (Z * Z)).

(** The rows that a snapshot holds. *)
Definition streams_of (s : PreparedSnapshot) : list PreparedProviderStream :=
  if staged_is_empty (sn_provider_streams s) then [] else chunk_rows (batch_list (sn_provider_streams s) PROVIDER_STREAM_BATCH).
Definition channels_of (s : PreparedSnapshot) : list PreparedEpgChannel :=
  if staged_is_empty (sn_epg_channels s) then [] else chunk_rows (batch_list (sn_epg_channels s) EPG_CHANNEL_BATCH).
Definition programmes_of (s : PreparedSnapshot) : list PreparedProgramme :=
  chunk_rows (batch_list (sn_programmes s) PROGRAMME_BATCH).

(** The database with a snapshot, staged. *)
Definition with_snapshot (s : PreparedSnapshot) (db : Database) : Database :=
  mkDatabase (db_snapshots db ++ [snapshot_header s])
    (db_streams db ++ (mkStreamRow (sn_id s) (default 0 (provider_account_of (sn_owner s))) <$> streams_of s))
    (db_channels db ++ (mkChannelRow (sn_id s) (provider_account_of (sn_owner s)) (epg_source_of (sn_owner s)) <$> channels_of s))
    (db_programmes db ++ (mkProgrammeRow (sn_id s) <$> programmes_of s))
    (db_outbox db) (db_accounts db) (db_sources db) (db_jobs db).

Lemma insert_snapshot_keeps s db0 :
  keeps (fun db => db = db0) (insert_snapshot s)
    (fun _ db => db = with_snapshot s db0 /\ Constraints db /\
       sn_record_count s = zlen (streams_of s) + zlen (channels_of s) + zlen (programmes_of s)).
Proof.
  unfold insert_snapshot. eapply keeps_bind; [apply keeps_execute|]. intros ?. cbv beta.
  set (h := fun db => set_snapshots db (db_snapshots db ++ [snapshot_header s])).
  set (account := default 0 (provider_account_of (sn_owner s))).
  eapply keeps_bind with (Q := fun n db => n = zlen (streams_of s) /\ db = add_streams (sn_id s) account (streams_of s) (h db0) /\ Constraints db).
  { unfold insert_provider_streams, streams_of, account. destruct (staged_is_empty _).
    { apply keeps_ret. intros db (? & -> & -> & ?). split_and!; [done| |done]. unfold add_streams, set_rows. by rewrite app_nil_r. }
    destruct (provider_account_of _) as [p|]; [|apply keeps_fail].
    eapply keeps_weaken; [apply (insert_rows_keeps _ _ _ _ _ (h db0))| |]; cbn.
    - intros db. unfold add_streams, set_rows. destruct db. cbn. by rewrite app_nil_r.
    - intros x y db. unfold add_streams, set_rows. cbn. by rewrite fmap_app, app_assoc.
    - by intros db (? & -> & -> & ?).
    - done. }
  intros n1. apply keeps_pure. intros ->.
  eapply keeps_bind with (Q := fun n db => n = zlen (streams_of s) + zlen (channels_of s) /\
    db = add_channels (sn_id s) (provider_account_of (sn_owner s)) (epg_source_of (sn_owner s)) (channels_of s)
           (add_streams (sn_id s) account (streams_of s) (h db0)) /\ Constraints db).
  { unfold insert_epg_channels, channels_of. destruct (staged_is_empty _).
    { apply keeps_ret. intros db (-> & ?). change (zlen []) with 0. split_and!; [lia| |done]. unfold add_channels, set_rows. by rewrite app_nil_r. }
    destruct (bool_decide _); [apply keeps_fail|]. destruct (negb _); [apply keeps_fail|].
    apply insert_rows_keeps.
    - intros db. unfold add_channels, set_rows. destruct db. cbn. by rewrite app_nil_r.
    - intros x y db. unfold add_channels, set_rows. cbn. by rewrite fmap_app, app_assoc. }
  intros n2. apply keeps_pure. intros ->.
  eapply keeps_bind.
  { apply insert_rows_keeps.
    - intros db. unfold add_programmes, set_rows. destruct db. cbn. by rewrite app_nil_r.
    - intros x y db. unfold add_programmes, set_rows. cbn. by rewrite fmap_app, app_assoc. }
  intros n3. apply keeps_pure. intros ->. destruct (Z.eqb_spec (zlen (streams_of s) + zlen (channels_of s) +
    zlen (chunk_rows (batch_list (sn_programmes s) PROGRAMME_BATCH))) (sn_record_count s)) as [Heq|]; [|apply keeps_fail].
  apply keeps_ret. intros db (-> & ?). by split_and!.
Qed.

(** *** A new snapshot *)

(** The programmes of a snapshot are on channels of the snapshot. *)
Definition self_contained (s : PreparedSnapshot) : Prop :=
  Forall (fun p => Exists (fun c => pc_id c = pp_epg_channel_id p) (channels_of s)) (programmes_of s).

Lemma filter_none {A} (P : A -> Prop) `{forall a, Decision (P a)} l : Forall (fun a => ~ P a) l -> filter P l = [].
Proof. induction 1; [done|]. by rewrite filter_cons_False. Qed.
Lemma filter_all {A} (P : A -> Prop) `{forall a, Decision (P a)} l : Forall P l -> filter P l = l.
Proof. induction 1; [done|]. rewrite filter_cons_True by done. by f_equal. Qed.

Lemma new_id s db : Constraints (with_snapshot s db) -> sn_id s ∉ snapshot_ids db.
Proof.
  intros Hc. pose proof (snapshot_pkey _ Hc) as Hnd. unfold snapshot_ids in *. cbn in Hnd. rewrite fmap_app in Hnd.
  apply NoDup_app in Hnd as (_ & Hn & _). intros Hin. apply (Hn _ Hin). by left.
Qed.

Lemma contents_other s db id : id <> sn_id s -> contents id (with_snapshot s db) = contents id db.
Proof.
  intros Hne. unfold contents, with_snapshot. cbn. rewrite !filter_app.
  rewrite (filter_none _ (mkStreamRow _ _ <$> _)), (filter_none _ (mkChannelRow _ _ _ <$> _)), (filter_none _ (mkProgrammeRow _ <$> _));
    [by rewrite !app_nil_r| | |]; apply Forall_fmap, Forall_true; cbn; congruence.
Qed.

Lemma contents_new s db :
  Constraints db -> Constraints (with_snapshot s db) ->
  contents (sn_id s) (with_snapshot s db) =
  mkContents (mkStreamRow (sn_id s) (default 0 (provider_account_of (sn_owner s))) <$> streams_of s)
    (mkChannelRow (sn_id s) (provider_account_of (sn_owner s)) (epg_source_of (sn_owner s)) <$> channels_of s)
    (mkProgrammeRow (sn_id s) <$> programmes_of s).
Proof.
  intros Hdb Hc. apply new_id in Hc. unfold contents, with_snapshot. cbn. rewrite !filter_app.
  rewrite (filter_none _ (db_streams db)), (filter_none _ (db_channels db)), (filter_none _ (db_programmes db)).
  2: eapply Forall_impl; [apply (programme_rows _ Hdb)|]; intros r [? _]; congruence.
  2: eapply Forall_impl; [apply (channel_rows _ Hdb)|]; intros r [? _]; congruence.
  2: eapply Forall_impl; [apply (stream_rows _ Hdb)|]; intros r [? _]; congruence.
  cbn [app]. by rewrite !filter_all by (by apply Forall_fmap, Forall_true).
Qed.

Lemma with_snapshot_inv s db :
  store_inv db -> Constraints (with_snapshot s db) -> self_contained s ->
  sn_record_count s = zlen (streams_of s) + zlen (channels_of s) + zlen (programmes_of s) ->
  store_inv (with_snapshot s db) /\ forall key, published (with_snapshot s db) key = published db key.
Proof.
  intros (Hdb & Hcomplete & Hlinked) Hc Hself Hcount. pose proof (new_id _ _ Hc) as Hnew.
  assert (forall r, r ∈ db_snapshots db -> sr_id r <> sn_id s) as Hother.
  { intros r Hr Hid. apply Hnew. rewrite <- Hid. apply list_elem_of_fmap. by exists r. }
  split; [split_and!; [done| |]|].
  - apply Forall_app. split.
    + apply Forall_forall. intros r Hr. rewrite row_count_contents, contents_other by (by apply Hother).
      eapply Forall_forall in Hcomplete; [exact Hcomplete|done].
    + constructor; [|done]. cbn [snapshot_header sr_id sr_record_count]. rewrite row_count_contents, contents_new by done.
      cbn [ct_streams ct_channels ct_programmes]. unfold zlen in *. by rewrite !length_fmap.
  - apply Forall_app. split.
    + eapply Forall_impl; [exact Hlinked|]. intros r Hr. cbn. apply Exists_app. by left.
    + apply Forall_fmap. eapply Forall_impl; [exact Hself|]. intros p Hp. cbn. apply Exists_app. right.
      apply Exists_exists in Hp as (c & Hc' & ?). apply Exists_exists.
      exists (mkChannelRow (sn_id s) (provider_account_of (sn_owner s)) (epg_source_of (sn_owner s)) c).
      split; [apply list_elem_of_fmap; by exists c|done].
  - intros key. apply published_same; [done|done| |].
    + intros r Hr Hs Ha. exists r. split_and!; try done; [cbn; apply elem_of_app; by left|]. by apply contents_other, Hother.
    + intros r. cbn. rewrite elem_of_app, list_elem_of_singleton. intros [Hr| ->]; [by exists r|done].
Qed.

(** *** Dispatch and discarding *)

Lemma outbox_inv rows db :
  store_inv db -> Constraints (set_outbox db rows) ->
  store_inv (set_outbox db rows) /\ forall key, published (set_outbox db rows) key = published db key.
Proof. intros (Hdb & Hcomplete & Hlinked) Hc. split; [by split_and!|done]. Qed.

Lemma filter_filter_imp {A} (P Q : A -> Prop) `{forall a, Decision (P a)} `{forall a, Decision (Q a)} l :
  Forall (fun a => P a -> Q a) l -> filter P (filter Q l) = filter P l.
Proof.
  induction 1 as [|a l Ha _ IH]; [done|]. rewrite (filter_cons Q), (filter_cons P a l).
  destruct (decide (Q a)), (decide (P a)); rewrite ?filter_cons_True, ?filter_cons_False by done; try tauto; by rewrite IH.
Qed.

Lemma discard_inv id db :
  store_inv db -> Constraints (delete_staged id db) ->
  store_inv (delete_staged id db) /\ forall key, published (delete_staged id db) key = published db key.
Proof.
  intros Hinv Hc'. unfold delete_staged in *. destruct (decide _) as [Hex|]; [|done].
  pose proof Hinv as (Hdb & Hcomplete & Hlinked).
  match goal with |- store_inv ?d /\ _ => set (db' := d) in * end.
  assert (forall other, other <> id -> contents other db' = contents other db) as Hct.
  { intros other Hne. unfold contents. cbn. f_equal; apply filter_filter_imp; apply Forall_forall.
    - congruence.
    - congruence.
    - intros r Hr Hid. split; [congruence|]. eapply Forall_forall in Hlinked; [|exact Hr].
      apply Exists_exists in Hlinked as (c & Hc & Hpc & Hsn). apply list_elem_of_fmap. exists c. split; [done|].
      apply list_elem_of_filter. split; [congruence|done]. }
  split; [split_and!; [done| |]|].
  - apply Forall_forall. intros r. cbn. rewrite list_elem_of_filter. intros [Hne Hr].
    rewrite row_count_contents, Hct by done. eapply Forall_forall in Hcomplete; [exact Hcomplete|done].
  - apply Forall_forall. intros r. cbn. rewrite list_elem_of_filter. intros [[Hne _] Hr].
    eapply Forall_forall in Hlinked; [|exact Hr]. apply Exists_exists in Hlinked as (c & Hc & Hpc & Hsn).
    apply Exists_exists. exists c. split; [|done]. apply list_elem_of_filter. split; [congruence|done].
  - intros key. apply published_same; [done|done| |].
    + intros r Hr Hs Ha. apply Exists_exists in Hex as (r0 & Hr0 & Hid0 & Hst0).
      assert (sr_id r <> id) as Hne. { intros Hid. rewrite (snapshot_by_id db r r0) in Ha; [congruence|done|done|done|congruence]. }
      exists r. split_and!; try done; [|by apply Hct]. cbn. by apply list_elem_of_filter.
    + intros r. cbn. rewrite list_elem_of_filter. intros [_ ?] ? ?. by exists r.
Qed.

(** ** The calls of the store *)

(** The catalogue stays as it is; a source shows something else. *)
Definition quiet (db db' : Database) : Prop := store_inv db' /\ forall key, published db' key = published db key.
Definition publishes (key : SourceKey) (shown : Shown) (db db' : Database) : Prop :=
  store_inv db' /\ published db' key = Some shown /\ forall key', key' <> key -> published db' key' = published db key'.

Lemma quiet_trans db1 db2 db3 : quiet db1 db2 -> quiet db2 db3 -> quiet db1 db3.
Proof. intros [_ H12] [? H23]. split; [done|]. intros key. by rewrite H23. Qed.
Lemma quiet_publishes key shown db1 db2 db3 : quiet db1 db2 -> publishes key shown db2 db3 -> publishes key shown db1 db3.
Proof. intros [_ H12] (? & ? & H23). split_and!; [done|done|]. intros key' ?. by rewrite H23. Qed.

Definition key_of (s : PreparedSnapshot) : SourceKey :=
  (provider_account_of (sn_owner s), epg_source_of (sn_owner s), snapshot_kind (sn_format s)).
Definition key_of_row (r : SnapshotRow) : SourceKey := (sr_provider_account_id r, sr_epg_source_id r, sr_kind r).

Lemma find_snapshot_Some s db r :
  find_snapshot s db = Some r -> r ∈ db_snapshots db /\ of_source (key_of s) r /\ sr_checksum_sha256 r = sn_checksum_sha256 s.
Proof.
  unfold find_snapshot. rewrite fmap_Some. intros ([i r'] & Hf & ->). apply list_find_Some in Hf as (Hi & [? ?] & _).
  split_and!; [by eapply list_elem_of_lookup_2|done|done].
Qed.
Lemma find_by_id_Some id db r : find_by_id id db = Some r -> r ∈ db_snapshots db /\ sr_id r = id.
Proof.
  unfold find_by_id. rewrite fmap_Some. intros ([i r'] & Hf & ->). apply list_find_Some in Hf as (Hi & ? & _).
  split; [by eapply list_elem_of_lookup_2|done].
Qed.

Lemma stage_dispatch_keeps db0 id : keeps (quiet db0) (stage_dispatch uuid_text reconciliation_parent id) (fun _ db => quiet db0 db).
Proof.
  unfold stage_dispatch. destruct reconciliation_parent as [[parent partitions]|]; [|by apply keeps_ret].
  eapply keeps_bind; [apply keeps_env|]. intros env. cbv beta. apply keeps_executed.
  intros db Hq Hc. case_bool_decide; [done|]. eapply quiet_trans; [exact Hq|].
  apply outbox_inv; [by destruct Hq|done].
Qed.

Lemma checked_keeps (P : Database -> Prop) s : keeps P (tx_lift (checked_snapshot s)) (fun _ db => P db).
Proof. eapply keeps_weaken; [apply keeps_lift|done|]. by intros ? db [? _]. Qed.

(** Staging does not change what readers see. *)
Lemma stage_ends s db0 :
  store_inv db0 -> self_contained s ->
  ends (fun db => db = db0) (stage_with_progress uuid_text reconciliation_parent s) (fun _ db' => quiet db0 db').
Proof.
  intros Hinv Hself. unfold stage_with_progress.
  eapply ends_bind; [apply checked_keeps|]. intros ?. cbv beta.
  eapply ends_bind; [apply keeps_call|]. intros ?. cbv beta.
  eapply ends_bind; [apply keeps_query|]. intros found. cbv beta.
  assert (forall id, ends (quiet db0) (perform stage_dispatch uuid_text reconciliation_parent id; perform tx_commit;
            perform tx_report (sn_record_count s) (sn_record_count s); tx_ret id) (fun _ db' => quiet db0 db')) as Hdispatched.
  { intros id. eapply ends_bind; [apply stage_dispatch_keeps|]. intros ?. cbv beta. apply ends_commit; [done|]. intros env tx. by eexists _, _. }
  assert (quiet db0 db0) as Hq0 by done.
  destruct found as [existing|].
  - destruct (sr_status existing) eqn:Hst.
    + eapply ends_bind; [apply keeps_query|]. intros complete. cbv beta. destruct (_ =? _); [|apply ends_fail].
      eapply ends_weaken; [apply Hdispatched| |done]. by intros db [[-> _] _].
    + apply ends_commit; [by intros db [-> _]|]. intros env tx. by eexists _, _.
    + apply ends_fail.
    + eapply ends_bind; [apply keeps_query|]. intros complete. cbv beta. destruct (negb _); [apply ends_fail|].
      eapply ends_bind; [apply keeps_env|]. intros env. cbv beta.
      eapply ends_bind with (Q := fun _ db => quiet db0 db); [|by intros ?; apply Hdispatched].
      apply keeps_executed. intros db [[-> Hf] _] Hc.
      symmetry in Hf. apply find_snapshot_Some in Hf as (Hr & _ & _). split; [by apply update_inv|].
      intros key. apply update_quiet; [done| |by destruct Hinv|done]. intros r Hr' Hid. split; [done|].
      rewrite (snapshot_by_id db0 r existing); [congruence|by destruct Hinv|done|done|done].
  - eapply ends_bind with (Q := fun _ db => quiet db0 db).
    + eapply keeps_weaken; [apply (insert_snapshot_keeps s db0)|by intros db [-> _]|]. cbv beta. intros ? db (-> & Hc & Hcount).
      by apply with_snapshot_inv.
    + intros ?. eapply ends_bind; [apply keeps_env|]. intros env. cbv beta.
      eapply ends_bind with (Q := fun _ db => quiet db0 db).
      * apply keeps_executed. intros db Hq Hc.
        eapply quiet_trans; [exact Hq|]. split; [apply update_inv; [done|by destruct Hq|done]|].
        intros key. apply update_quiet; [done|done|by destruct Hq as [[? _] _]|done].
      * intros ?. cbv beta. eapply ends_bind; [apply stage_dispatch_keeps|]. intros ?. cbv beta. by apply ends_commit_ret.
Qed.

Lemma supersede_keeps (P : Database -> Prop) (key : SourceKey) id :
  keeps P (supersede_current (fst (fst key)) (snd (fst key)) (snd key) id)
    (fun _ db' => exists db, P db /\ db' = superseded key id db /\ Constraints db').
Proof. apply keeps_execute. Qed.

(** What a source shows after the activation of a snapshot: the rows that are
    stored with the checksum, or those of the snapshot. *)
Definition activation_shows (s : PreparedSnapshot) (db : Database) : Shown :=
  match find_snapshot s db with
  | Some existing => mkShown (sr_id existing) (sn_checksum_sha256 s) (contents (sr_id existing) db)
  | None => mkShown (sn_id s) (sn_checksum_sha256 s) (contents (sn_id s) (with_snapshot s db))
  end.

Lemma activate_row_keeps (P : Database -> Prop) id :
  (forall db, P db -> Constraints db) ->
  keeps P (activate_row id)
    (fun _ db' => exists db now, P db /\ Constraints db' /\
       db' = update_where (fun r => sr_id r = id /\ sr_status r = StatusStaging) (activated now) db /\
       forall r, r ∈ db_snapshots db -> sr_id r = id -> sr_status r = StatusStaging).
Proof.
  intros HP. unfold activate_row. eapply keeps_bind; [apply keeps_env|]. intros env. cbv beta.
  eapply keeps_bind; [apply keeps_update|]. intros n. cbv beta. destruct (Z.eqb_spec n 1) as [->|]; [|apply keeps_fail].
  apply keeps_ret. intros db' (db & Hp & -> & Hc & Hone). exists db, (se_now env). split_and!; try done. intros r Hr Hid.
  unfold count_where in Hone. destruct (filter _ (db_snapshots db)) as [|r1 rest] eqn:Hf; [done|].
  assert (r1 ∈ filter (fun r => sr_id r = id /\ sr_status r = StatusStaging) (db_snapshots db)) as Hin by (rewrite Hf; by left).
  apply list_elem_of_filter in Hin as [[Hid1 Hst1] Hr1]. by rewrite (snapshot_by_id db r r1) by (try apply HP; congruence).
Qed.

Lemma activate_ends s db0 :
  store_inv db0 -> self_contained s ->
  ends (fun db => db = db0) (activate_with_progress s)
    (fun id db' => id = sh_id (activation_shows s db0) /\ publishes (key_of s) (activation_shows s db0) db0 db').
Proof.
  intros Hinv Hself. unfold activate_with_progress.
  eapply ends_bind; [apply checked_keeps|]. intros ?. cbv beta.
  eapply ends_bind; [apply keeps_call|]. intros ?. cbv beta.
  eapply ends_bind; [apply keeps_query|]. intros found. cbv beta.
  eapply (ends_from _ (fun db => found = find_snapshot s db0 /\ db = db0)); [|by intros db [-> ->]].
  apply ends_pure. intros ->. destruct (find_snapshot s db0) as [existing|] eqn:Hf.
  - eapply ends_bind; [apply (supersede_keeps _ (key_of s))|]. intros ?. cbv beta.
    eapply ends_bind; [apply keeps_env|]. intros env. cbv beta.
    eapply ends_bind.
    + apply (keeps_executed _ (fun db' => publishes (key_of s) (activation_shows s db0) db0 db')).
      intros db' (db & -> & -> & Hc1) Hc2. unfold activation_shows. rewrite Hf.
      apply find_snapshot_Some in Hf as (Hr & Hs & <-). by apply publication.
    + intros ?. cbv beta. eapply ends_bind; [apply keeps_report|]. intros ?. cbv beta. apply ends_commit_ret.
      intros db Hpub. split; [|done]. unfold activation_shows. by rewrite Hf.
  - eapply ends_bind; [apply insert_snapshot_keeps|]. intros ?. cbv beta.
    eapply ends_bind; [apply (supersede_keeps _ (key_of s))|]. intros ?. cbv beta.
    eapply ends_bind; [apply activate_row_keeps; by intros db (? & _ & _ & ?)|]. intros ?. cbv beta. apply ends_commit_ret.
    intros db' (db & now & (db1 & (-> & Hc1 & Hcount) & -> & Hc2) & Hc3 & -> & Hstaged).
    unfold activation_shows. rewrite Hf. split; [done|]. destruct (with_snapshot_inv s db0) as [Hinv1 Hsame]; [done..|].
    eapply quiet_publishes; [split; [exact Hinv1|exact Hsame]|].
    assert (snapshot_header s ∈ db_snapshots (with_snapshot s db0)) as Hheader by (cbn; apply elem_of_app; right; by left).
    apply (publication (with_snapshot s db0) (key_of s) (snapshot_header s) _ now); try done.
    intros r Hr. split; [by intros [? _]|]. intros Hid. split; [done|]. by apply Hstaged.
Qed.

Lemma activate_staged_ends id db0 :
  store_inv db0 ->
  ends (fun db => db = db0) (activate_staged id)
    (fun id' db' => id' = id /\ exists row, find_by_id id db0 = Some row /\
       publishes (key_of_row row) (mkShown id (sr_checksum_sha256 row) (contents id db0)) db0 db').
Proof.
  intros Hinv. unfold activate_staged.
  eapply ends_bind; [apply keeps_call|]. intros ?. cbv beta.
  eapply ends_bind; [apply keeps_query|]. intros found. cbv beta.
  eapply (ends_from _ (fun db => found = find_by_id id db0 /\ db = db0)); [|by intros db [-> ->]].
  apply ends_pure. intros ->. destruct (find_by_id id db0) as [row|] eqn:Hf; [|apply ends_fail].
  pose proof (find_by_id_Some _ _ _ Hf) as [Hrow <-]. assert (of_source (key_of_row row) row) as Hsource by done.
  case_bool_decide as Hactive.
  { apply ends_commit_ret. intros db ->. split; [done|]. exists row. split; [done|]. split_and!; [done| |done].
    apply published_Some; [by destruct Hinv|]. by exists row. }
  destruct (_ || _); [apply ends_fail|].
  eapply ends_bind; [apply keeps_query|]. intros n. cbv beta. destruct (negb _); [apply ends_fail|].
  eapply ends_bind; [apply (supersede_keeps _ (key_of_row row))|]. intros ?. cbv beta.
  eapply ends_bind; [apply activate_row_keeps; by intros db (? & _ & _ & ?)|]. intros ?. cbv beta. apply ends_commit_ret.
  intros db' (db & now & (db1 & (-> & _) & -> & Hc2) & Hc3 & -> & Hstaged). split; [done|]. exists row. split; [done|].
  apply publication; try done. intros r Hr. split; [by intros [? _]|]. intros Hid. split; [done|]. by apply Hstaged.
Qed.

Lemma discard_ends id db0 :
  store_inv db0 -> ends (fun db => db = db0) (discard_staged id) (fun _ db' => quiet db0 db').
Proof.
  intros Hinv env tx Htx. unfold discard_staged. rewrite Htx.
  assert (ends (fun db => db = db0 /\ Constraints (delete_staged id db0))
            (perform tx_write (delete_staged id db0); perform tx_commit; tx_ret (count_where (fun r => sr_id r = id /\ sr_status r = StatusStaging) db0 =? 1))
            (fun _ db' => quiet db0 db')) as Hends.
  { eapply ends_bind; [apply keeps_write|]. intros ?. cbv beta. apply ends_commit_ret. intros db [-> Hc]. by apply discard_inv. }
  destruct (decide (Constraints (delete_staged id db0))) as [Hc|Hn]; [by apply (Hends env tx)|].
  unfold tx_bind at 1, tx_write. rewrite decide_False by done. by left.
Qed.

(** ** Theorems *)

(** The activation of a snapshot is atomic: whatever fails on the way, the
    database is as it was, or the source shows the snapshot, complete, and all
    other sources show what they did.  An activation that succeeds has been
    committed, and gives the identifier of what is shown. *)
Theorem activation_atomic s db env db' reports r :
  store_inv db -> self_contained s -> transact (activate_with_progress s) env db = (db', reports, r) ->
  let shown := activation_shows s db in
  match r with
  | Ok id => id = sh_id shown /\ publishes (key_of s) shown db db'
  | Err _ => db' = db \/ publishes (key_of s) shown db db'
  end.
Proof.
  intros Hinv Hself Hrun. pose proof (ends_transact _ _ _ env db (activate_ends s db Hinv Hself) eq_refl) as Hends.
  rewrite Hrun in Hends. destruct r; [done|]. destruct Hends as [|(? & _ & ?)]; [by left|by right].
Qed.

(** The calls of the store as steps of a catalogue. *)
Definition catalogue_step (op : StoreOp) (db db' : Database) : Prop :=
  match op with
  | OpStage _ | OpDiscard _ => quiet db db'
  | OpActivate s => quiet db db' \/ publishes (key_of s) (activation_shows s db) db db'
  | OpActivateStaged id =>
      quiet db db' \/ exists row, find_by_id id db = Some row /\
        publishes (key_of_row row) (mkShown id (sr_checksum_sha256 row) (contents id db)) db db'
  end.
Definition op_ok (op : StoreOp) : Prop :=
  match op with OpStage s | OpActivate s => self_contained s | _ => True end.

Lemma ends_op {A} (m : Tx A) (G : A -> Database -> Prop) (R : Database -> Prop) env db :
  ends (fun d => d = db) m G -> R db -> (forall a db', G a db' -> R db') -> R (fst (fst (transact m env db))).
Proof.
  intros Hm HR HG. pose proof (ends_transact _ _ _ env db Hm eq_refl) as Hends.
  destruct (transact m env db) as [[db' reports] [a|e]]; cbn; [by eapply HG|]. destruct Hends as [->|[a ?]]; [done|by eapply HG].
Qed.

Lemma step_inv op db db' : catalogue_step op db db' -> store_inv db'.
Proof. destruct op; cbn; unfold quiet, publishes; naive_solver. Qed.

Lemma step_served op db db' key : catalogue_step op db db' -> is_Some (published db key) -> is_Some (published db' key).
Proof.
  assert (forall key' shown, quiet db db' \/ publishes key' shown db db' -> is_Some (published db key) -> is_Some (published db' key)) as Hgen.
  { intros key' shown [[_ ->]|(_ & Hkey & Hother)]; [done|]. destruct (decide (key = key')) as [->|]; [by rewrite Hkey|by rewrite Hother]. }
  destruct op; cbn.
  - by intros [_ ->].
  - apply Hgen.
  - intros [Hq|(row & _ & Hp)]; [by apply (Hgen key (mkShown 0 [] (contents 0 db))); left|eapply Hgen; by right].
  - by intros [_ ->].
Qed.

Lemma store_op_step env op db :
  store_inv db -> op_ok op -> catalogue_step op db (store_op uuid_text reconciliation_parent env op db).
Proof.
  intros Hinv Hok. assert (quiet db db) as Hq by done. destruct op as [s|s|id|id].
  - apply (ends_op _ _ (catalogue_step (OpStage s) db) env db (stage_ends s db Hinv Hok)); [done|]. by intros _ db'.
  - apply (ends_op _ _ (catalogue_step (OpActivate s) db) env db (activate_ends s db Hinv Hok)); [by left|].
    intros a db' [_ ?]. by right.
  - apply (ends_op _ _ (catalogue_step (OpActivateStaged id) db) env db (activate_staged_ends id db Hinv)); [by left|].
    intros a db' [_ ?]. by right.
  - apply (ends_op _ _ (catalogue_step (OpDiscard id) db) env db (discard_ends id db Hinv)); [done|]. by intros _ db'.
Qed.

(** The catalogue over several calls. *)
Inductive catalogue_run : list StoreOp -> Database -> Database -> Prop :=
| catalogue_done db : catalogue_run [] db db
| catalogue_next op ops db db1 db2 : catalogue_step op db db1 -> catalogue_run ops db1 db2 -> catalogue_run (op :: ops) db db2.

(** C15. The store refines the catalogue: over any calls, whatever fails on the way,
    each is a step of the catalogue.  Staging and discarding change nothing that
    a reader sees, and an activation changes nothing or what one source shows. *)
Theorem store_refines_catalogue ops db :
  store_inv db -> Forall (fun '(_, op) => op_ok op) ops ->
  catalogue_run (List.map snd ops) db (store_run uuid_text reconciliation_parent ops db).
Proof.
  intros Hinv Hops. revert db Hinv. induction Hops as [|[env op] ops Hop _ IH]; intros db Hinv; [constructor|].
  unfold store_run. cbn [foldl List.map snd]. pose proof (store_op_step env op db Hinv Hop) as Hstep.
  econstructor; [exact Hstep|]. by apply IH, (step_inv _ _ _ Hstep).
Qed.

(** C16. Over any calls of the store, in any order and with any failures, the
    invariant holds: every snapshot is complete, every programme is on a channel
    of its snapshot, and a source has one active snapshot at most; and a source
    that shows a snapshot never stops to show one. *)
Theorem sources_stay_served ops db :
  store_inv db -> Forall (fun '(_, op) => op_ok op) ops ->
  let db' := store_run uuid_text reconciliation_parent ops db in
  store_inv db' /\ forall key, is_Some (published db key) -> is_Some (published db' key).
Proof.
  intros Hinv Hops. revert db Hinv. induction Hops as [|[env op] ops Hop _ IH]; intros db Hinv; [done|].
  unfold store_run. cbn [foldl]. pose proof (store_op_step env op db Hinv Hop) as Hstep.
  destruct (IH _ (step_inv _ _ _ Hstep)) as [Hinv' Hserved]. split; [done|]. intros key Hkey.
  apply Hserved. by eapply step_served.
Qed.
End Spec.

(** ** The rows that were staged *)

Section Staged.
Context {T : Type} `{JsonLaws T}.

(** Enough steps for the rows are enough for the iterator. *)
Lemma yields_leaves fuel (source : RowSource T) size rows :
  leaves source rows -> 1 <= size -> (length rows < fuel)%nat ->
  exists chunks, yields fuel (mkStagedBatchReader source size) = Ok <$> chunks /\ concat chunks = rows.
Proof.
  revert source rows. induction fuel as [|fuel IH]; intros source rows Hl Hsize Hfuel; [lia|]. cbn [yields].
  destruct (next_batch_leaves source size rows Hl Hsize) as (source' & Hl' & ->).
  destruct rows as [|row rows]; [by exists []|].
  destruct (IH source' (drop (Z.to_nat size) (row :: rows))) as (chunks & -> & Hc); [done|done|rewrite length_drop; cbn in *; lia|].
  exists (take (Z.to_nat size) (row :: rows) :: chunks). split; [done|]. cbn [concat]. by rewrite Hc, take_drop.
Qed.

Lemma chunk_rows_ok (chunks : list (list T)) : chunk_rows (Ok <$> chunks) = concat chunks.
Proof. unfold chunk_rows. f_equal. induction chunks as [|chunk chunks IH]; [done|]. cbn. by rewrite IH. Qed.

Lemma lines_length (rows : list T) lines : Forall2 row_line rows lines -> (length rows <= length (concat lines))%nat.
Proof.
  induction 1 as [|row line rows lines (encoded & _ & ->) _ IH]; [done|]. cbn [concat length]. rewrite !length_app. cbn. lia.
Qed.

Lemma batch_list_stages m s (st : StagedRows T) rows size :
  stages m s st rows -> exists chunks, batch_list st size = Ok <$> chunks /\ concat chunks = rows.
Proof.
  intros (_ & _ & _ & Hst). unfold batch_list, batches, remaining. cbn [br_source].
  destruct (sg_spool st) as [file|].
  - destruct Hst as (_ & _ & _ & lines & Hlines & ->). apply yields_leaves; [by exists lines|lia|].
    apply lines_length in Hlines. lia.
  - destruct Hst as (-> & _). apply yields_leaves; [done|lia|lia].
Qed.
End Staged.
