(* ===== verification/Jobs.v ===== *)
(** * The job queue

    [JobRepository] of [crates/persistence/src/lib.rs] with the dispatch of
    [outbox.rs]: jobs are queued, claimed by workers under a lease, kept alive,
    finished, retried, cancelled, archived and recovered.  What other
    transactions do to jobs is here too: the finalizer of [catalog.rs], and the
    deletion of a source, of which the other tables are left out.

    A method is one transaction on the tables, or one statement: an error
    leaves the tables as they were.  The database checks the constraints of the
    migrations at every write.  [now ()], the clock of the process and the
    identifiers that are drawn are arguments; so are the texts of numbers, which
    [->>] makes, and those of identifiers. *)
From Stdlib Require Import ZArith Lia.
From stdpp Require Import base numbers option strings.
From stdpp Require Import list.
From S2P Require Import Prelude Text Sort Events Settings Redact Xtream Store.
Open Scope Z_scope.
Open Scope relay_scope.

(** ** Tables *)

Inductive JobStatus := JobQueued | JobRunning | JobSucceeded | JobFailed | JobCancelled.
#[export] Instance JobStatus_eq_dec : EqDecision JobStatus.
Proof. solve_decision. Defined.

(** [jobs], the record [JobRecord] *)
Record JobRow := mkJobRow {
  jb_id : Z;
  jb_kind : string;
  jb_status : JobStatus;
  jb_priority : Z;
  jb_payload : Value;
  jb_progress : Value;
  jb_attempts : Z;
  jb_max_attempts : Z;
  jb_available_at : Z;
  jb_locked_by : option text;
  jb_locked_at : option Z;
  jb_heartbeat_at : option Z;
  jb_last_error : option text;
  jb_created_at : Z;
  jb_updated_at : Z;
  jb_completed_at : option Z;
}.

(** [dead_letter_jobs], the record [DeadLetterRecord]; the columns
    [correlation_id] and [run_id], which nothing writes, are left out. *)
Record DeadLetterRow := mkDeadLetterRow {
  dl_id : Z;
  dl_original_job_id : Z;
  dl_kind : string;
  dl_payload : Value;
  dl_error_category : string;
  dl_error_message : text;
  dl_attempt_count : Z;
  dl_max_attempts : Z;
  dl_first_failed_at : Z;
  dl_last_failed_at : Z;
  dl_resolved_at : option Z;
  dl_resolution : option text;
  dl_created_at : Z;
  dl_failure_stage : option text;
}.

(** [job_outbox] *)
Record OutboxEntry := mkOutboxEntry {
  oe_id : Z;
  oe_parent_job_id : Z;
  oe_kind : string;
  oe_payload : Value;
  oe_priority : Z;
  oe_dedup_key : text;
  oe_created_at : Z;
  oe_dispatched_at : option Z;
}.

(** [provider_reconciliation_runs] and [provider_reconciliation_partitions] *)
Record RunRow := mkRunRow {
  rn_id : Z;
  rn_provider_account_id : Z;
  rn_source_snapshot_id : Z;
  rn_parent_job_id : option Z;
  rn_status : string;
  rn_partition_count : Z;
  rn_total_keys : Z;
  rn_completed_keys : Z;
  rn_created_at : Z;
  rn_published_at : option Z;
  rn_updated_at : Z;
}.
Record PartitionRow := mkPartitionRow {
  pt_run_id : Z;
  pt_number : Z;
  pt_status : string;
  pt_key_count : Z;
  pt_completed_keys : Z;
  pt_attempts : Z;
  pt_worker_id : option text;
  pt_completed_at : option Z;
  pt_updated_at : Z;
}.

(** [provider_reconciliation_candidates] and
    [provider_reconciliation_candidate_streams] *)
Record CandidateRow := mkCandidateRow {
  cd_run_id : Z;
  cd_canonical_key : text;
  cd_name : text;
  cd_group_name : option text;
  cd_logo_url : option text;
  cd_preferred_number : option text;
}.
Record CandidateStream := mkCandidateStream { cn_run_id : Z; cn_canonical_key : text; cn_provider_stream_id : Z }.

(** What the scheduler reads of [provider_accounts] and [epg_sources] *)
Record RefreshSource := mkRefreshSource {
  rf_id : Z; rf_enabled : bool; rf_interval_seconds : Z; rf_last_refreshed_at : option Z; rf_cb_opened_at : option Z }.

Record JobTables := mkJobTables {
  jt_jobs : list JobRow;
  jt_dead : list DeadLetterRow;
  jt_outbox : list OutboxEntry;
  jt_runs : list RunRow;
  jt_partitions : list PartitionRow;
  jt_candidates : list CandidateRow;
  jt_candidate_streams : list CandidateStream;
  jt_accounts : list RefreshSource;
  jt_epg_sources : list RefreshSource;
}.

Definition set_jobs (db : JobTables) (jobs : list JobRow) : JobTables :=
  mkJobTables jobs (jt_dead db) (jt_outbox db) (jt_runs db) (jt_partitions db) (jt_candidates db) (jt_candidate_streams db)
    (jt_accounts db) (jt_epg_sources db).
Definition set_dead (db : JobTables) (dead : list DeadLetterRow) : JobTables :=
  mkJobTables (jt_jobs db) dead (jt_outbox db) (jt_runs db) (jt_partitions db) (jt_candidates db) (jt_candidate_streams db)
    (jt_accounts db) (jt_epg_sources db).
Definition set_entries (db : JobTables) (outbox : list OutboxEntry) : JobTables :=
  mkJobTables (jt_jobs db) (jt_dead db) outbox (jt_runs db) (jt_partitions db) (jt_candidates db) (jt_candidate_streams db)
    (jt_accounts db) (jt_epg_sources db).
Definition set_runs (db : JobTables) (runs : list RunRow) (candidates : list CandidateRow)
  (candidate_streams : list CandidateStream) : JobTables :=
  mkJobTables (jt_jobs db) (jt_dead db) (jt_outbox db) runs (jt_partitions db) candidates candidate_streams (jt_accounts db)
    (jt_epg_sources db).

(** ** Columns *)

(** The status, the lease and the time of completion; every update also sets
    [updated_at]. *)
Definition set_lease (r : JobRow) (status : JobStatus) (locked_by : option text) (locked_at heartbeat_at completed_at : option Z)
  (now : Z) : JobRow :=
  mkJobRow (jb_id r) (jb_kind r) status (jb_priority r) (jb_payload r) (jb_progress r) (jb_attempts r) (jb_max_attempts r)
    (jb_available_at r) locked_by locked_at heartbeat_at (jb_last_error r) (jb_created_at r) now completed_at.
Definition set_progress (r : JobRow) (progress : Value) : JobRow :=
  mkJobRow (jb_id r) (jb_kind r) (jb_status r) (jb_priority r) (jb_payload r) progress (jb_attempts r) (jb_max_attempts r)
    (jb_available_at r) (jb_locked_by r) (jb_locked_at r) (jb_heartbeat_at r) (jb_last_error r) (jb_created_at r) (jb_updated_at r)
    (jb_completed_at r).
Definition set_last_error (r : JobRow) (last_error : option text) : JobRow :=
  mkJobRow (jb_id r) (jb_kind r) (jb_status r) (jb_priority r) (jb_payload r) (jb_progress r) (jb_attempts r) (jb_max_attempts r)
    (jb_available_at r) (jb_locked_by r) (jb_locked_at r) (jb_heartbeat_at r) last_error (jb_created_at r) (jb_updated_at r)
    (jb_completed_at r).
Definition set_attempts (r : JobRow) (attempts available_at : Z) : JobRow :=
  mkJobRow (jb_id r) (jb_kind r) (jb_status r) (jb_priority r) (jb_payload r) (jb_progress r) attempts (jb_max_attempts r)
    available_at (jb_locked_by r) (jb_locked_at r) (jb_heartbeat_at r) (jb_last_error r) (jb_created_at r) (jb_updated_at r)
    (jb_completed_at r).

(** [completed_at = now(), updated_at = now(), locked_by = NULL, locked_at =
    NULL, heartbeat_at = NULL] with a final status *)
Definition close_job (now : Z) (status : JobStatus) (r : JobRow) : JobRow := set_lease r status None None None (Some now) now.
(** [heartbeat_at = now(), updated_at = now()] *)
Definition beat (now : Z) (r : JobRow) : JobRow :=
  set_lease r (jb_status r) (jb_locked_by r) (jb_locked_at r) (Some now) (jb_completed_at r) now.

(** [status IN ('queued', 'running')] *)
Definition is_open (r : JobRow) : bool :=
  match jb_status r with JobQueued | JobRunning => true | _ => false end.
(** [status = 'running' AND locked_by = worker] *)
Definition owned (worker : text) (r : JobRow) : bool :=
  bool_decide (jb_status r = JobRunning) && bool_decide (jb_locked_by r = Some worker).

(** *** JSON columns *)

(** [a || b] of [jsonb] *)
Definition json_elements (value : Value) : list Value := match value with JArray values => values | value => [value] end.
Definition json_concat (a b : Value) : Value :=
  match a, b with
  | JObject x, JObject y => JObject (List.filter (fun '(key, _) => negb (existsb (fun '(k, _) => bool_decide (k = key)) y)) x ++ y)
  | _, _ => JArray (json_elements a ++ json_elements b)
  end.
(** [a - key]; deleting from a scalar is an error. *)
Definition json_without (key : text) (value : Value) : option Value :=
  match value with
  | JObject fields => Some (JObject (List.filter (fun '(k, _) => negb (bool_decide (k = key))) fields))
  | JArray values =>
      Some (JArray (List.filter (fun v => negb match v with JString s => bool_decide (s = key) | _ => false end) values))
  | _ => None
  end.
Definition activation_flag : Value := JObject [(str "activationLocked", JBool true)].

(** What a method is given: [now()] of its transaction, the clock of the
    process, and the identifiers it draws. *)
Record QueueEnv := mkQueueEnv { qe_now : Z; qe_clock : Z; qe_id : nat -> Z }.

Inductive PersistenceError :=
| DatabaseFailed
| JobOwnership (job_id : Z) (worker_id : text)
| JobNotFound (job_id : Z)
| InvalidSource (message : string)
| SourceNotFound (source_id : Z)
| ReconciliationRevisionNotFound (account_id target : Z).

(** [NewJob] *)
Record NewJob := mkNewJob { nj_kind : string; nj_priority : Z; nj_payload : Value; nj_max_attempts : Z; nj_available_at : Z }.

Definition SECONDS : Z := 1000000000.

Section Queue.
(** The text that [->>] makes of a number, an array or an object, and the text
    of an identifier and back *)
Context (json_text : Value -> text) (uuid_text : Z -> text) (parse_uuid : text -> option Z).

(** [value ->> key] *)
Definition text_of (value : Value) : option text :=
  match value with
  | JNull => None
  | JString s => Some s
  | JBool b => Some (str (if b then "true" else "false"))
  | value => Some (json_text value)
  end.
Definition field_text (value : Value) (key : string) : option text :=
  match value with JObject fields => get_field fields key ≫= text_of | _ => None end.

(** [coalesce(progress->>'activationLocked', 'false') = 'true'] *)
Definition activation_locked (r : JobRow) : bool :=
  bool_decide (default (str "false") (field_text (jb_progress r) "activationLocked") = str "true").

(** ** Constraints *)

(** The keys of the partial unique indexes of open jobs *)
Definition refresh_key (r : JobRow) : option text :=
  if bool_decide (jb_kind r = "refresh-source") && is_open r then field_text (jb_payload r) "sourceId" else None.
Definition partition_key (r : JobRow) : option (text * text) :=
  if bool_decide (jb_kind r = "reconcile-provider-partition") && is_open r
  then run ← field_text (jb_payload r) "runId"; number ← field_text (jb_payload r) "partitionNumber"; Some (run, number)
  else None.
Definition finalizer_key (r : JobRow) : option text :=
  if bool_decide (jb_kind r = "finalize-provider-reconciliation") && is_open r then field_text (jb_payload r) "runId" else None.

Definition job_ids (db : JobTables) : list Z := jb_id <$> jt_jobs db.
Record JobConstraints (db : JobTables) : Prop := {
  jobs_pkey : NoDup (job_ids db);
  jobs_checks : Forall (fun r => 0 <= jb_attempts r /\ 0 < jb_max_attempts r) (jt_jobs db);
  one_open_refresh : unique_index refresh_key (jt_jobs db);
  one_open_partition : unique_index partition_key (jt_jobs db);
  one_open_finalizer : unique_index finalizer_key (jt_jobs db);
  dead_pkey : NoDup (dl_id <$> jt_dead db);
  entries_pkey : NoDup (oe_id <$> jt_outbox db);
  entries_keys : NoDup (oe_dedup_key <$> jt_outbox db);
  entries_parents : Forall (fun e => oe_parent_job_id e ∈ job_ids db) (jt_outbox db);
  runs_pkey : NoDup (rn_id <$> jt_runs db);
  runs_parents : Forall (fun r => from_option (fun parent => parent ∈ job_ids db) True (rn_parent_job_id r)) (jt_runs db);
}.
#[export] Instance JobConstraints_decision db : Decision (JobConstraints db).
Proof using.
  refine (cast_if (decide (
    (NoDup (job_ids db) /\ Forall (fun r => 0 <= jb_attempts r /\ 0 < jb_max_attempts r) (jt_jobs db) /\
     unique_index refresh_key (jt_jobs db) /\ unique_index partition_key (jt_jobs db) /\ unique_index finalizer_key (jt_jobs db)) /\
    NoDup (dl_id <$> jt_dead db) /\
    (NoDup (oe_id <$> jt_outbox db) /\ NoDup (oe_dedup_key <$> jt_outbox db) /\
     Forall (fun e => oe_parent_job_id e ∈ job_ids db) (jt_outbox db)) /\
    NoDup (rn_id <$> jt_runs db) /\
    Forall (fun r => from_option (fun parent => parent ∈ job_ids db) True (rn_parent_job_id r)) (jt_runs db))));
  [abstract (destruct_and!; by constructor) | abstract (intros []; naive_solver)].
Defined.

(** ** Statements *)

Definition Query (A : Type) : Type := JobTables -> result (JobTables * A) PersistenceError.
Definition write {A} (db : JobTables) (a : A) : result (JobTables * A) PersistenceError :=
  if decide (JobConstraints db) then Ok (db, a) else Err DatabaseFailed.

(** [UPDATE jobs SET .. WHERE ..] and the number of its rows *)
Definition update_jobs (p : JobRow -> bool) (f : JobRow -> JobRow) (db : JobTables) : JobTables :=
  set_jobs db (List.map (fun r => if p r then f r else r) (jt_jobs db)).
Definition matched (p : JobRow -> bool) (db : JobTables) : Z := zlen (List.filter p (jt_jobs db)).
Definition has_id (id : Z) (r : JobRow) : bool := jb_id r =? id.
Definition find_job (id : Z) (db : JobTables) : option JobRow := List.find (has_id id) (jt_jobs db).

(** [INSERT INTO jobs], with the defaults of the table *)
Definition insert_job (r : JobRow) (db : JobTables) : JobTables := set_jobs db (jt_jobs db ++ [r]).
Definition new_row (env : QueueEnv) (id : Z) (kind : string) (priority : Z) (payload : Value) (max_attempts available_at : Z) : JobRow :=
  mkJobRow id kind JobQueued priority payload (JObject []) 0 max_attempts available_at None None None None (qe_now env) (qe_now env) None.

(** [ensure_owned] and an update of a job that the worker owns; an identifier
    has one row at most. *)
Definition owned_update (job_id : Z) (worker_id : text) (f : JobRow -> JobRow) : Query unit :=
  fun db =>
    let p r := has_id job_id r && owned worker_id r in
    if matched p db =? 1 then write (update_jobs p f db) tt else Err (JobOwnership job_id worker_id).

(** ** Enqueueing *)

(** [NewJob::immediate] and [enqueue] *)
Definition immediate (env : QueueEnv) (kind : string) (payload : Value) : NewJob := mkNewJob kind 0 payload 3 (qe_clock env).
Definition enqueue (env : QueueEnv) (job : NewJob) : Query JobRow :=
  fun db =>
    let r := new_row env (qe_id env 0) (nj_kind job) (nj_priority job) (nj_payload job) (nj_max_attempts job) (nj_available_at job) in
    write (insert_job r db) r.

(** [INSERT .. ON CONFLICT (key) WHERE .. DO NOTHING RETURNING *] *)
Definition insert_unless {K} `{EqDecision K} (key : JobRow -> option K) (r : JobRow) : Query (option JobRow) :=
  fun db =>
    match key r with
    | Some k => if bool_decide (k ∈ omap key (jt_jobs db)) then Ok (db, None) else write (insert_job r db) (Some r)
    | None => write (insert_job r db) (Some r)
    end.

Definition source_payload (source_id : Z) : Value := JObject [(str "sourceId", JString (uuid_text source_id))].

(** [enqueue_source_refresh_if_idle] *)
Definition refresh_row (env : QueueEnv) (id source_id : Z) : JobRow :=
  new_row env id "refresh-source" 0 (source_payload source_id) 3 (qe_now env).
Definition enqueue_source_refresh_if_idle (env : QueueEnv) (source_id : Z) : Query (option JobRow) :=
  insert_unless refresh_key (refresh_row env (qe_id env 0) source_id).

(** [enqueue_due_source_refreshes]: the sources that are due, in order, and the
    loop over them.  [is_leader] is the answer of the advisory lock. *)
Definition due (now cooldown_seconds : Z) (s : RefreshSource) : bool :=
  rf_enabled s && (0 <? rf_interval_seconds s) &&
  match rf_last_refreshed_at s with Some last => last + rf_interval_seconds s * SECONDS <=? now | None => true end &&
  match rf_cb_opened_at s with Some opened => opened + cooldown_seconds * SECONDS <=? now | None => true end.
Definition due_source_ids (now cooldown_seconds : Z) (db : JobTables) : list Z :=
  stable_sort Z.ltb (List.map rf_id (List.filter (due now cooldown_seconds) (jt_accounts db ++ jt_epg_sources db))).
Fixpoint enqueue_each (env : QueueEnv) (draw : nat) (source_ids : list Z) (enqueued : Z) : Query Z :=
  fun db =>
    match source_ids with
    | [] => Ok (db, enqueued)
    | source_id :: source_ids =>
        match insert_unless refresh_key (refresh_row env (qe_id env draw) source_id) db with
        | Err e => Err e
        | Ok (db, inserted) =>
            enqueue_each env (S draw) source_ids (if inserted then enqueued + 1 else enqueued) db
        end
    end.
Definition enqueue_due_source_refreshes (env : QueueEnv) (is_leader : bool) (cb_cooldown_seconds : Z) : Query (bool * Z) :=
  fun db =>
    if negb is_leader then Ok (db, (false, 0))
    else
      match enqueue_each env 0 (due_source_ids (qe_now env) cb_cooldown_seconds db) 0 db with
      | Err e => Err e
      | Ok (db, enqueued) => Ok (db, (true, enqueued))
      end.

(** [INSERT .. SELECT .. WHERE NOT EXISTS] of [enqueue_xtream_short_epg] and
    [enqueue_health_probe_if_idle]: no open job of the kind has the field. *)
Definition insert_if_idle (field : string) (r : JobRow) : Query (option JobRow) :=
  fun db =>
    if existsb (fun other => bool_decide (jb_kind other = jb_kind r) && is_open other &&
                             bool_decide (field_text (jb_payload other) field = field_text (jb_payload r) field)) (jt_jobs db)
    then Ok (db, None)
    else write (insert_job r db) (Some r).
Definition enqueue_xtream_short_epg (env : QueueEnv) (source_id : Z) : Query (option JobRow) :=
  insert_if_idle "sourceId" (new_row env (qe_id env 0) "refresh-xtream-short-epg" 0 (source_payload source_id) 3 (qe_now env)).
Definition enqueue_health_probe_if_idle (env : QueueEnv) (provider_stream_id priority max_attempts : Z) : Query (option JobRow) :=
  insert_if_idle "providerStreamId"
    (new_row env (qe_id env 0) "health-probe" priority
       (JObject [(str "providerStreamId", JString (uuid_text provider_stream_id))]) max_attempts (qe_now env)).

(** [WHERE NOT EXISTS (SELECT 1 FROM jobs WHERE id = parent AND status =
    'cancelled')] *)
Definition parent_cancelled (parent_job_id : Z) (db : JobTables) : bool :=
  existsb (fun r => has_id parent_job_id r && bool_decide (jb_status r = JobCancelled)) (jt_jobs db).

Definition partition_payload (run_id partition_number source_id parent_job_id : Z) : Value :=
  JObject [(str "runId", JString (uuid_text run_id)); (str "partitionNumber", JString (decimal partition_number));
           (str "sourceId", JString (uuid_text source_id)); (str "parentJobId", JString (uuid_text parent_job_id))].
Definition finalizer_payload (run_id source_id parent_job_id : Z) : Value :=
  JObject [(str "runId", JString (uuid_text run_id)); (str "sourceId", JString (uuid_text source_id));
           (str "parentJobId", JString (uuid_text parent_job_id))].

(** [enqueue_provider_reconciliation_partition_if_idle] and
    [enqueue_provider_reconciliation_finalizer_if_idle] *)
Definition enqueue_provider_reconciliation_partition_if_idle (env : QueueEnv) (run_id partition_number source_id parent_job_id : Z)
  : Query (option JobRow) :=
  fun db =>
    if parent_cancelled parent_job_id db then Ok (db, None)
    else insert_unless partition_key
           (new_row env (qe_id env 0) "reconcile-provider-partition" 0
              (partition_payload run_id partition_number source_id parent_job_id) 3 (qe_now env)) db.
Definition enqueue_provider_reconciliation_finalizer_if_idle (env : QueueEnv) (run_id source_id parent_job_id : Z)
  : Query (option JobRow) :=
  fun db =>
    if parent_cancelled parent_job_id db then Ok (db, None)
    else insert_unless finalizer_key
           (new_row env (qe_id env 0) "finalize-provider-reconciliation" 0 (finalizer_payload run_id source_id parent_job_id) 3 (qe_now env))
           db.

(** [reconciliation_partition_jobs_are_present] *)
Definition reconciliation_partition_jobs_are_present (run_id : Z) (db : JobTables) : bool :=
  forallb (fun p =>
    negb ((pt_run_id p =? run_id) && (bool_decide (pt_status p = "queued") || bool_decide (pt_status p = "processing"))) ||
    existsb (fun r => bool_decide (jb_kind r = "reconcile-provider-partition") && is_open r &&
                      bool_decide (field_text (jb_payload r) "runId" = Some (uuid_text run_id)) &&
                      bool_decide (field_text (jb_payload r) "partitionNumber" = Some (decimal (pt_number p)))) (jt_jobs db))
    (jt_partitions db).

(** ** Leases *)

(** [claim]: the next job is the one of the highest priority, then the oldest;
    rows that another transaction has locked are skipped. *)
Definition claimable (now : Z) (skipped : Z -> bool) (r : JobRow) : bool :=
  bool_decide (jb_status r = JobQueued) && (jb_available_at r <=? now) && (jb_attempts r <? jb_max_attempts r) && negb (skipped (jb_id r)).
Definition comes_before (a b : JobRow) : bool :=
  (jb_priority b <? jb_priority a) || ((jb_priority a =? jb_priority b) && (jb_created_at a <? jb_created_at b)).
Fixpoint next_job (rows : list JobRow) : option JobRow :=
  match rows with
  | [] => None
  | r :: rows =>
      match next_job rows with
      | Some best => Some (if comes_before best r then best else r)
      | None => Some r
      end
  end.
Definition claimed (now : Z) (worker_id : text) (r : JobRow) : JobRow :=
  set_attempts (set_lease r JobRunning (Some worker_id) (Some now) (Some now) (jb_completed_at r) now) (jb_attempts r + 1)
    (jb_available_at r).
Definition claim (env : QueueEnv) (skipped : Z -> bool) (worker_id : text) : Query (option JobRow) :=
  fun db =>
    match next_job (List.filter (claimable (qe_now env) skipped) (jt_jobs db)) with
    | None => Ok (db, None)
    | Some r => write (update_jobs (has_id (jb_id r)) (claimed (qe_now env) worker_id) db) (Some (claimed (qe_now env) worker_id r))
    end.

(** [heartbeat], [touch_heartbeat], [begin_activation] and [succeed] *)
Definition reported (now : Z) (progress : Value) (r : JobRow) : JobRow :=
  set_progress (beat now r) (if activation_locked r then json_concat progress activation_flag else progress).
Definition heartbeat (env : QueueEnv) (job_id : Z) (worker_id : text) (progress : Value) : Query unit :=
  owned_update job_id worker_id (reported (qe_now env) progress).
Definition touch_heartbeat (env : QueueEnv) (job_id : Z) (worker_id : text) : Query unit :=
  owned_update job_id worker_id (beat (qe_now env)).
Definition locked_for_activation (now : Z) (r : JobRow) : JobRow :=
  set_progress (beat now r) (json_concat (jb_progress r) activation_flag).
Definition begin_activation (env : QueueEnv) (job_id : Z) (worker_id : text) : Query unit :=
  owned_update job_id worker_id (locked_for_activation (qe_now env)).
Definition succeed (env : QueueEnv) (job_id : Z) (worker_id : text) : Query unit :=
  owned_update job_id worker_id (close_job (qe_now env) JobSucceeded).

(** [is_cancelled] *)
Definition is_cancelled (job_id : Z) (db : JobTables) : result bool PersistenceError :=
  match find_job job_id db with
  | Some r => Ok (bool_decide (jb_status r = JobCancelled))
  | None => Err (JobNotFound job_id)
  end.

(** [fail]; [2_i64.pow(attempts)] wraps, and the panic of chrono on the delay
    that 63 attempts give is left out. *)
Definition pow2_i64 (n : Z) : Z := if n <? 63 then 2 ^ n else if n =? 63 then i64_min else 0.
Definition retry_delay_seconds (attempts : Z) : Z := Z.min (pow2_i64 (Z.max attempts 0)) 300.
Definition retried (env : QueueEnv) (attempts : Z) (error : text) (r : JobRow) : JobRow :=
  let r := set_lease r JobQueued None None None None (qe_now env) in
  set_attempts (set_last_error r (Some error)) (jb_attempts r) (qe_clock env + retry_delay_seconds attempts * SECONDS).
Definition given_up (env : QueueEnv) (error : text) (r : JobRow) : JobRow :=
  set_attempts (set_last_error (close_job (qe_now env) JobFailed r) (Some error)) (jb_attempts r) (qe_clock env).
Definition dead_letter (env : QueueEnv) (category : string) (error : text) (r : JobRow) : DeadLetterRow :=
  mkDeadLetterRow (qe_id env 0) (jb_id r) (jb_kind r) (jb_payload r) category error (jb_attempts r) (jb_max_attempts r)
    (jb_created_at r) (qe_now env) None None (qe_now env) (field_text (jb_progress r) "stage").
Definition archive (env : QueueEnv) (category : string) (error : text) (job_id : Z) (db : JobTables) : JobTables :=
  match find_job job_id db with
  | None => db
  | Some r =>
      let letter := dead_letter env category error r in
      if bool_decide (dl_id letter ∈ (dl_id <$> jt_dead db)) then db else set_dead db (jt_dead db ++ [letter])
  end.
Definition fail (env : QueueEnv) (job_id : Z) (worker_id : text) (attempts max_attempts : Z) (error_summary : text) : Query unit :=
  fun db =>
    let redacted := redact_error error_summary in
    if attempts <? max_attempts then owned_update job_id worker_id (retried env attempts redacted) db
    else
      match owned_update job_id worker_id (given_up env redacted) db with
      | Err e => Err e
      | Ok (db, _) => write (archive env (categorize_error error_summary) redacted job_id db) tt
      end.

(** [recover_stale_jobs] *)
Definition stale (now lease_timeout_seconds : Z) (r : JobRow) : bool :=
  bool_decide (jb_status r = JobRunning) &&
  match jb_heartbeat_at r, jb_locked_at r with
  | Some beat_at, _ => beat_at <? now - lease_timeout_seconds * SECONDS
  | None, Some locked_at => locked_at <? now - lease_timeout_seconds * SECONDS
  | None, None => false
  end.
Definition recovered (now : Z) (r : JobRow) : JobRow :=
  if jb_attempts r <? jb_max_attempts r then set_lease r JobQueued None None None None now
  else set_last_error (close_job now JobFailed r) (Some (str "worker lease expired")).
Definition recover_stale_jobs (env : QueueEnv) (lease_timeout_seconds : Z) : Query Z :=
  fun db =>
    let p := stale (qe_now env) lease_timeout_seconds in
    write (update_jobs p (recovered (qe_now env)) db) (matched p db).

(** ** Dead letters *)

Definition update_letters (p : DeadLetterRow -> bool) (f : DeadLetterRow -> DeadLetterRow) (db : JobTables) : JobTables :=
  set_dead db (List.map (fun l => if p l then f l else l) (jt_dead db)).
Definition resolve (now : Z) (resolution : text) (l : DeadLetterRow) : DeadLetterRow :=
  mkDeadLetterRow (dl_id l) (dl_original_job_id l) (dl_kind l) (dl_payload l) (dl_error_category l) (dl_error_message l)
    (dl_attempt_count l) (dl_max_attempts l) (dl_first_failed_at l) (dl_last_failed_at l) (Some now) (Some resolution) (dl_created_at l)
    (dl_failure_stage l).
Definition unresolved (id : Z) (l : DeadLetterRow) : bool := (dl_id l =? id) && bool_decide (dl_resolved_at l = None).

(** [replay_dead_letter_job], [close_dead_letter_job] and [dead_letter_count] *)
Definition replay_dead_letter_job (env : QueueEnv) (id : Z) : Query (option Z) :=
  fun db =>
    match List.find (unresolved id) (jt_dead db) with
    | None => Ok (db, None)
    | Some letter =>
        let job_id := qe_id env 0 in
        let db := insert_job (new_row env job_id (dl_kind letter) 0 (dl_payload letter) (dl_max_attempts letter) (qe_now env)) db in
        write (update_letters (fun l => dl_id l =? id) (resolve (qe_now env) (str "replayed")) db) (Some job_id)
    end.
Definition close_dead_letter_job (env : QueueEnv) (id : Z) (resolution : text) : Query bool :=
  fun db =>
    write (update_letters (unresolved id) (resolve (qe_now env) resolution) db) (existsb (unresolved id) (jt_dead db)).
Definition dead_letter_count (db : JobTables) : Z := zlen (List.filter (fun l => bool_decide (dl_resolved_at l = None)) (jt_dead db)).

(** ** Refreshes with child jobs *)

Definition child_kind (kind : string) : bool :=
  bool_decide (kind = "reconcile-provider-partition") || bool_decide (kind = "finalize-provider-reconciliation").
(** The open children of a refresh that do not publish *)
Definition open_child (parent_job_id : Z) (r : JobRow) : bool :=
  bool_decide (field_text (jb_payload r) "parentJobId" = Some (uuid_text parent_job_id)) && child_kind (jb_kind r) && is_open r &&
  negb (activation_locked r).
Definition refresh_parent (parent_job_id : Z) (db : JobTables) : option JobRow :=
  List.find (fun r => has_id parent_job_id r && bool_decide (jb_kind r = "refresh-source")) (jt_jobs db).

Definition set_run_status (r : RunRow) (status : string) (now : Z) : RunRow :=
  mkRunRow (rn_id r) (rn_provider_account_id r) (rn_source_snapshot_id r) (rn_parent_job_id r) status (rn_partition_count r) (rn_total_keys r)
    (rn_completed_keys r) (rn_created_at r) (rn_published_at r) now.
Definition update_runs (p : RunRow -> bool) (now : Z) (status : string) (db : JobTables) : JobTables :=
  set_runs db (List.map (fun r => if p r then set_run_status r status now else r) (jt_runs db)) (jt_candidates db)
    (jt_candidate_streams db).
Definition run_of (parent_job_id : Z) (r : RunRow) : bool := bool_decide (rn_parent_job_id r = Some parent_job_id).

(** [heartbeat_reconciliation_parent]; a progress that is locked is an object. *)
Definition parent_reported (now : Z) (progress : Value) (r : JobRow) : JobRow :=
  set_progress (beat now r)
    (if activation_locked r
     then json_concat (json_concat (default (jb_progress r) (json_without (str "activationLocked") (jb_progress r))) progress) activation_flag
     else json_concat (jb_progress r) progress).
Definition heartbeat_reconciliation_parent (env : QueueEnv) (parent_job_id : Z) (progress : Value) : Query bool :=
  fun db =>
    let p r := has_id parent_job_id r && bool_decide (jb_kind r = "refresh-source") && bool_decide (jb_status r = JobRunning) in
    write (update_jobs p (parent_reported (qe_now env) progress) db) (matched p db =? 1).

(** [complete_reconciliation_parent] *)
Definition can_complete_reconciliation_parent (status : JobStatus) (locked_by : option text) (parent_run_id : option text) (run_id : text)
  : bool :=
  bool_decide (parent_run_id = Some run_id) &&
  match status with
  | JobRunning => true
  | JobQueued | JobFailed => bool_decide (locked_by = None)
  | _ => false
  end.
Definition published_parent (now : Z) (progress : Value) (r : JobRow) : JobRow :=
  set_progress (set_last_error (close_job now JobSucceeded r) None) progress.
Definition complete_reconciliation_parent (env : QueueEnv) (parent_job_id run_id : Z) (progress : Value) : Query bool :=
  fun db =>
    match refresh_parent parent_job_id db with
    | None => Ok (db, false)
    | Some parent =>
        if negb (can_complete_reconciliation_parent (jb_status parent) (jb_locked_by parent) (field_text (jb_progress parent) "runId")
                   (uuid_text run_id))
        then Ok (db, false)
        else
          match json_without (str "activationLocked") (jb_progress parent) with
          | None => Err DatabaseFailed
          | Some rest =>
              write (update_jobs (has_id parent_job_id) (published_parent (qe_now env) (json_concat rest progress)) db) true
          end
    end.

(** [fail_reconciliation_parent_if_exhausted] and
    [fail_reconciliation_parent_for_terminal_child]: they differ in the runs
    that fail, in how many of them count, and in the error. *)
Definition failed_parent (now : Z) (progress : Value) (error : text) (r : JobRow) : JobRow :=
  set_progress (set_last_error (close_job now JobFailed r) (Some error)) progress.
Definition orphaned (now : Z) (r : JobRow) : JobRow :=
  set_last_error (close_job now JobCancelled r) (Some (str "reconciliation parent failed")).
Definition fail_reconciliation_parent (env : QueueEnv) (parent_job_id : Z) (progress : Value) (error : text) (run : RunRow -> bool)
  (run_failed : Z -> bool) : Query bool :=
  fun db =>
    match refresh_parent parent_job_id db with
    | None => Ok (db, false)
    | Some parent =>
        if bool_decide (jb_status parent = JobCancelled) || bool_decide (jb_status parent = JobSucceeded) then Ok (db, false)
        else
          let now := qe_now env in
          let p_run r := run r && run_of parent_job_id r && bool_decide (rn_status r = "processing") in
          let p_parent r := has_id parent_job_id r && bool_decide (jb_kind r = "refresh-source") && is_open r in
          let runs := zlen (List.filter p_run (jt_runs db)) in
          let db1 := update_runs p_run now "failed" db in
          let db2 := update_jobs p_parent (failed_parent now progress error) db1 in
          let db3 := update_jobs (open_child parent_job_id) (orphaned now) db2 in
          write db3 (run_failed runs || (matched p_parent db1 =? 1) || (0 <? matched (open_child parent_job_id) db2))
    end.
Definition fail_reconciliation_parent_if_exhausted (env : QueueEnv) (parent_job_id run_id : Z) (progress : Value) : Query bool :=
  fail_reconciliation_parent env parent_job_id progress (str "reconciliation partition exhausted retries") (fun r => rn_id r =? run_id)
    (fun n => n =? 1).
Definition fail_reconciliation_parent_for_terminal_child (env : QueueEnv) (parent_job_id : Z) (progress : Value) (error_summary : text)
  : Query bool :=
  fail_reconciliation_parent env parent_job_id progress (redact_error error_summary) (fun _ => true) (fun n => 0 <? n).

(** ** Cancellation *)

(** What [cancel] reads of the job, without a lock: other transactions can come
    between this and the rest. *)
Record CancelTarget := mkCancelTarget { ct_kind : string; ct_payload : Value; ct_open : bool; ct_locked : bool }.
Definition cancel_target (job_id : Z) (db : JobTables) : option CancelTarget :=
  (fun r => mkCancelTarget (jb_kind r) (jb_payload r) (is_open r) (activation_locked r)) <$> find_job job_id db.
Definition parent_of (job_id : Z) (target : CancelTarget) : option Z :=
  if bool_decide (ct_kind target = "refresh-source") then Some job_id
  else if child_kind (ct_kind target)
  then match ct_payload target with
       | JObject fields => match get_field fields "parentJobId" with Some (JString s) => parse_uuid s | _ => None end
       | _ => None
       end
  else None.

Definition drop_candidates (parent_job_id : Z) (db : JobTables) : JobTables :=
  let gone run := existsb (fun r => run_of parent_job_id r && (rn_id r =? run)) (jt_runs db) in
  set_runs db (jt_runs db) (List.filter (fun c => negb (gone (cd_run_id c))) (jt_candidates db))
    (List.filter (fun c => negb (gone (cn_run_id c))) (jt_candidate_streams db)).
Definition stop_run (r : RunRow) : bool := bool_decide (rn_status r = "queued") || bool_decide (rn_status r = "processing").

(** The rest of [cancel]. *)
Definition cancel_apply (env : QueueEnv) (job_id : Z) (target : CancelTarget) : Query bool :=
  fun db =>
    let cancelled := close_job (qe_now env) JobCancelled in
    let unlocked r := has_id job_id r && is_open r && negb (activation_locked r) in
    if negb (ct_open target) || ct_locked target then Ok (db, false)
    else
      match parent_of job_id target with
      | None =>
          let p r := has_id job_id r && is_open r in
          write (update_jobs p cancelled db) (matched p db =? 1)
      | Some parent_job_id =>
          match refresh_parent parent_job_id db with
          | None => write (update_jobs unlocked cancelled db) (matched unlocked db =? 1)
          | Some parent =>
              if activation_locked parent then Ok (db, false)
              else
                let p_parent r := has_id parent_job_id r && is_open r in
                let parent_canceled := is_open parent && (matched p_parent db =? 1) in
                let db1 := if is_open parent then update_jobs p_parent cancelled db else db in
                let is_refresh := bool_decide (ct_kind target = "refresh-source") in
                let target_canceled := if is_refresh then parent_canceled else matched unlocked db1 =? 1 in
                let db2 := if is_refresh then db1 else update_jobs unlocked cancelled db1 in
                if is_refresh && negb parent_canceled then write db2 false
                else if parent_canceled || target_canceled then
                  let db3 := update_jobs (open_child parent_job_id) cancelled db2 in
                  let db4 := update_runs (fun r => run_of parent_job_id r && stop_run r) (qe_now env) "cancelled" db3 in
                  write (drop_candidates parent_job_id db4) true
                else write db2 false
          end
      end.
(** [cancel] when nothing comes between. *)
Definition cancel (env : QueueEnv) (job_id : Z) : Query bool :=
  fun db => match cancel_target job_id db with Some target => cancel_apply env job_id target db | None => Err (JobNotFound job_id) end.

(** [cancel_source_sync] *)
Definition cancel_source_sync (env : QueueEnv) (parent_job_id : Z) : Query bool :=
  fun db =>
    let cancelled := close_job (qe_now env) JobCancelled in
    let p r := has_id parent_job_id r && is_open r && negb (activation_locked r) in
    if matched p db =? 0 then Ok (db, false)
    else
      let db := update_jobs (open_child parent_job_id) cancelled (update_jobs p cancelled db) in
      write (update_runs (fun r => run_of parent_job_id r && stop_run r) (qe_now env) "cancelled" db) true.

(** ** Jobs in other transactions *)

(** What [finalize_provider_reconciliation_owned] does to the jobs: a finalizer
    whose refresh does not run is cancelled; [publishes] tells that the
    transaction comes to the flags of both jobs and commits. *)
Definition flagged_job (now : Z) (r : JobRow) : JobRow :=
  set_progress (set_lease r (jb_status r) (jb_locked_by r) (jb_locked_at r) (jb_heartbeat_at r) (jb_completed_at r) now)
    (json_concat (jb_progress r) activation_flag).
Definition not_cancelled (job_id : Z) (r : JobRow) : bool := has_id job_id r && negb (bool_decide (jb_status r = JobCancelled)).
Definition open_finalizer (job_id : Z) (r : JobRow) : bool :=
  has_id job_id r && bool_decide (jb_kind r = "finalize-provider-reconciliation") && is_open r.
Definition owned_finalizer (job_id : Z) (worker_id : option text) (r : JobRow) : bool :=
  has_id job_id r && bool_decide (jb_kind r = "finalize-provider-reconciliation") &&
  match worker_id with Some worker => owned worker r | None => true end.
Definition stop_finalizer (now finalizer_job_id : Z) (db : JobTables) : JobTables :=
  update_jobs (open_finalizer finalizer_job_id) (close_job now JobCancelled) db.
Definition flag_jobs (now parent_job_id finalizer_job_id : Z) (db : JobTables) : JobTables :=
  update_jobs (not_cancelled finalizer_job_id) (flagged_job now) (update_jobs (not_cancelled parent_job_id) (flagged_job now) db).
Definition finalizer_jobs (env : QueueEnv) (parent_job_id finalizer_job_id : Z) (worker_id : text) (publishes : bool) : Query unit :=
  fun db =>
    match refresh_parent parent_job_id db with
    | None => Err (JobNotFound parent_job_id)
    | Some parent =>
        if negb (bool_decide (jb_status parent = JobRunning)) then write (stop_finalizer (qe_now env) finalizer_job_id db) tt
        else
          match List.find (owned_finalizer finalizer_job_id (Some worker_id)) (jt_jobs db) with
          | None => Err (JobNotFound finalizer_job_id)
          | Some _ => if publishes then write (flag_jobs (qe_now env) parent_job_id finalizer_job_id db) tt else Ok (db, tt)
          end
    end.

(** [SourceRepository::delete], on these tables: the open jobs of the source are
    cancelled, and its account goes, with its runs and their rows.  A job that
    publishes is not spared. *)
Definition of_source (kind : string) (source_id : Z) (r : JobRow) : bool :=
  bool_decide (jb_kind r = kind) && bool_decide (field_text (jb_payload r) "sourceId" = Some (uuid_text source_id)).
Definition child_of_source (source_id : Z) (db : JobTables) (r : JobRow) : bool :=
  child_kind (jb_kind r) &&
  (bool_decide (field_text (jb_payload r) "sourceId" = Some (uuid_text source_id)) ||
   existsb (fun parent => of_source "refresh-source" source_id parent &&
                          bool_decide (field_text (jb_payload r) "parentJobId" = Some (uuid_text (jb_id parent)))) (jt_jobs db)).
Definition delete_account (source_id : Z) (db : JobTables) : JobTables :=
  let gone run := existsb (fun r => (rn_provider_account_id r =? source_id) && (rn_id r =? run)) (jt_runs db) in
  mkJobTables (jt_jobs db) (jt_dead db) (jt_outbox db)
    (List.filter (fun r => negb (rn_provider_account_id r =? source_id)) (jt_runs db))
    (List.filter (fun p => negb (gone (pt_run_id p))) (jt_partitions db))
    (List.filter (fun c => negb (gone (cd_run_id c))) (jt_candidates db))
    (List.filter (fun c => negb (gone (cn_run_id c))) (jt_candidate_streams db))
    (List.filter (fun a => negb (rf_id a =? source_id)) (jt_accounts db))
    (List.filter (fun e => negb (rf_id e =? source_id)) (jt_epg_sources db)).
Definition delete_source (env : QueueEnv) (source_id : Z) : Query unit :=
  fun db =>
    let cancelled := close_job (qe_now env) JobCancelled in
    if negb (existsb (fun a => rf_id a =? source_id) (jt_accounts db) || existsb (fun e => rf_id e =? source_id) (jt_epg_sources db))
    then Err (SourceNotFound source_id)
    else
      let db := update_jobs (fun r => of_source "refresh-source" source_id r && is_open r) cancelled db in
      let db := update_jobs (fun r => of_source "refresh-xtream-short-epg" source_id r && is_open r) cancelled db in
      let db := update_jobs (fun r => child_of_source source_id db r && is_open r) cancelled db in
      let db := update_runs (fun r => (rn_provider_account_id r =? source_id) && stop_run r) (qe_now env) "cancelled" db in
      write (delete_account source_id db) tt.

(** ** Outbox *)

Definition insert_entry (e : OutboxEntry) (db : JobTables) : JobTables :=
  if bool_decide (oe_dedup_key e ∈ (oe_dedup_key <$> jt_outbox db)) then db else set_entries db (jt_outbox db ++ [e]).

(** [complete_provider_reconciliation_partition] *)
Definition finalizer_entry (env : QueueEnv) (run_id source_id parent_job_id : Z) : OutboxEntry :=
  mkOutboxEntry (qe_id env 0) parent_job_id "finalize-provider-reconciliation" (finalizer_payload run_id source_id parent_job_id) 0
    (str "finalizer:" ++ uuid_text run_id) (qe_now env) None.
Definition complete_provider_reconciliation_partition (env : QueueEnv) (job_id : Z) (worker_id : text) (run_id source_id parent_job_id : Z)
  : Query unit :=
  fun db =>
    match refresh_parent parent_job_id db with
    | None => Err (JobNotFound parent_job_id)
    | Some _ =>
        match owned_update job_id worker_id (close_job (qe_now env) JobSucceeded) db with
        | Err e => Err e
        | Ok (db, _) =>
            write (if parent_cancelled parent_job_id db then db else insert_entry (finalizer_entry env run_id source_id parent_job_id) db) tt
        end
    end.

(** [queue_reconciliation] of [outbox.rs] *)
Fixpoint queue_partitions (env : QueueEnv) (run_id source_id parent_job_id : Z) (count : nat) (db : JobTables) : JobTables :=
  match count with
  | O => db
  | S partition =>
      let db := queue_partitions env run_id source_id parent_job_id partition db in
      insert_entry
        (mkOutboxEntry (qe_id env partition) parent_job_id "reconcile-provider-partition"
           (partition_payload run_id (Z.of_nat partition) source_id parent_job_id) 0
           (str "partition:" ++ uuid_text parent_job_id ++ str ":" ++ uuid_text run_id ++ str ":" ++ decimal (Z.of_nat partition))
           (qe_now env) None) db
  end.
Definition queue_reconciliation (env : QueueEnv) (run_id source_id : Z) (parent_job_id : option Z) (partition_count : Z) : Query unit :=
  fun db =>
    match parent_job_id with
    | None => Ok (db, tt)
    | Some parent => write (queue_partitions env run_id source_id parent (Z.to_nat partition_count) db) tt
    end.

(** The second half of [dispatch_outbox]: the entries that it selects, and the
    transaction for one of them. *)
Definition dispatchable (db : JobTables) (e : OutboxEntry) : bool :=
  bool_decide (oe_dispatched_at e = None) && negb (bool_decide (oe_kind e = "prepare-provider-reconciliation")) &&
  (negb (bool_decide (oe_kind e = "finalize-provider-reconciliation")) ||
   forallb (fun p => negb (bool_decide (field_text (oe_payload e) "runId" = Some (uuid_text (pt_run_id p)))) ||
                     bool_decide (pt_status p = "succeeded")) (jt_partitions db)).
Definition pending_entries (db : JobTables) : list OutboxEntry :=
  take 128 (stable_sort (fun a b => oe_created_at a <? oe_created_at b) (List.filter (dispatchable db) (jt_outbox db))).

(** [INSERT .. ON CONFLICT DO NOTHING] *)
Definition insert_or_skip (r : JobRow) (db : JobTables) : JobTables :=
  if bool_decide (jb_id r ∈ job_ids db) || negb (bool_decide (unique_index refresh_key (jt_jobs db ++ [r]))) ||
     negb (bool_decide (unique_index partition_key (jt_jobs db ++ [r]))) || negb (bool_decide (unique_index finalizer_key (jt_jobs db ++ [r])))
  then db else insert_job r db.
Definition mark_dispatched (now id : Z) (db : JobTables) : JobTables :=
  set_entries db (List.map (fun e =>
    if oe_id e =? id then mkOutboxEntry (oe_id e) (oe_parent_job_id e) (oe_kind e) (oe_payload e) (oe_priority e) (oe_dedup_key e)
                            (oe_created_at e) (Some now)
    else e) (jt_outbox db)).
Definition dispatch_entry (env : QueueEnv) (e : OutboxEntry) : Query bool :=
  fun db =>
    if negb (existsb (fun x => (oe_id x =? oe_id e) && bool_decide (oe_dispatched_at x = None)) (jt_outbox db)) then Ok (db, false)
    else
      let dispatch := match find_job (oe_parent_job_id e) db with Some parent => is_open parent | None => false end in
      let row := new_row env (oe_id e) (oe_kind e) (oe_priority e) (oe_payload e) 3 (qe_now env) in
      let db := if dispatch then insert_or_skip row db else db in
      write (mark_dispatched (qe_now env) (oe_id e) db) dispatch.

(** ** Runs *)

Inductive QueueOp :=
| OpEnqueue (job : NewJob)
| OpRefresh (source_id : Z)
| OpSchedule (is_leader : bool) (cb_cooldown_seconds : Z)
| OpShortEpg (source_id : Z)
| OpHealthProbe (provider_stream_id priority max_attempts : Z)
| OpPartition (run_id partition_number source_id parent_job_id : Z)
| OpFinalizer (run_id source_id parent_job_id : Z)
| OpClaim (skipped : Z -> bool) (worker_id : text)
| OpHeartbeat (job_id : Z) (worker_id : text) (progress : Value)
| OpTouch (job_id : Z) (worker_id : text)
| OpBeginActivation (job_id : Z) (worker_id : text)
| OpSucceed (job_id : Z) (worker_id : text)
| OpFail (job_id : Z) (worker_id : text) (attempts max_attempts : Z) (error_summary : text)
| OpCompletePartition (job_id : Z) (worker_id : text) (run_id source_id parent_job_id : Z)
| OpRecover (lease_timeout_seconds : Z)
| OpParentHeartbeat (parent_job_id : Z) (progress : Value)
| OpParentComplete (parent_job_id run_id : Z) (progress : Value)
| OpParentExhausted (parent_job_id run_id : Z) (progress : Value)
| OpParentTerminal (parent_job_id : Z) (progress : Value) (error_summary : text)
| OpCancel (job_id : Z) (target : CancelTarget)
| OpCancelSync (parent_job_id : Z)
| OpReplay (id : Z)
| OpCloseLetter (id : Z) (resolution : text)
| OpQueueReconciliation (run_id source_id : Z) (parent_job_id : option Z) (partition_count : Z)
| OpDispatch (e : OutboxEntry)
| OpFinalizerJobs (parent_job_id finalizer_job_id : Z) (worker_id : text) (publishes : bool)
| OpDeleteSource (source_id : Z).

(** What a method returns, as far as a run needs it: the job that was claimed *)
Definition unit_of {A} (r : result (JobTables * A) PersistenceError) : result (JobTables * option JobRow) PersistenceError :=
  match r with Ok (db, _) => Ok (db, None) | Err e => Err e end.
Definition queue_op (env : QueueEnv) (op : QueueOp) : Query (option JobRow) :=
  fun db =>
    match op with
    | OpEnqueue job => unit_of (enqueue env job db)
    | OpRefresh source_id => unit_of (enqueue_source_refresh_if_idle env source_id db)
    | OpSchedule is_leader cooldown => unit_of (enqueue_due_source_refreshes env is_leader cooldown db)
    | OpShortEpg source_id => unit_of (enqueue_xtream_short_epg env source_id db)
    | OpHealthProbe stream priority max_attempts => unit_of (enqueue_health_probe_if_idle env stream priority max_attempts db)
    | OpPartition run partition source parent => unit_of (enqueue_provider_reconciliation_partition_if_idle env run partition source parent db)
    | OpFinalizer run source parent => unit_of (enqueue_provider_reconciliation_finalizer_if_idle env run source parent db)
    | OpClaim skipped worker => claim env skipped worker db
    | OpHeartbeat job worker progress => unit_of (heartbeat env job worker progress db)
    | OpTouch job worker => unit_of (touch_heartbeat env job worker db)
    | OpBeginActivation job worker => unit_of (begin_activation env job worker db)
    | OpSucceed job worker => unit_of (succeed env job worker db)
    | OpFail job worker attempts max_attempts error => unit_of (fail env job worker attempts max_attempts error db)
    | OpCompletePartition job worker run source parent => unit_of (complete_provider_reconciliation_partition env job worker run source parent db)
    | OpRecover timeout => unit_of (recover_stale_jobs env timeout db)
    | OpParentHeartbeat parent progress => unit_of (heartbeat_reconciliation_parent env parent progress db)
    | OpParentComplete parent run progress => unit_of (complete_reconciliation_parent env parent run progress db)
    | OpParentExhausted parent run progress => unit_of (fail_reconciliation_parent_if_exhausted env parent run progress db)
    | OpParentTerminal parent progress error => unit_of (fail_reconciliation_parent_for_terminal_child env parent progress error db)
    | OpCancel job target => unit_of (cancel_apply env job target db)
    | OpCancelSync parent => unit_of (cancel_source_sync env parent db)
    | OpReplay id => unit_of (replay_dead_letter_job env id db)
    | OpCloseLetter id resolution => unit_of (close_dead_letter_job env id resolution db)
    | OpQueueReconciliation run source parent count => unit_of (queue_reconciliation env run source parent count db)
    | OpDispatch e => unit_of (dispatch_entry env e db)
    | OpFinalizerJobs parent finalizer worker publishes => unit_of (finalizer_jobs env parent finalizer worker publishes db)
    | OpDeleteSource source_id => unit_of (delete_source env source_id db)
    end.

(** A call by a caller: the connection can fail before the commit, and the
    answer can be lost after it. *)
Definition queue_call (env : QueueEnv) (answer : Answer) (op : QueueOp) (db : JobTables)
  : JobTables * result (option JobRow) PersistenceError :=
  match queue_op env op db with
  | Err e => (db, Err match answer with Works => e | _ => DatabaseFailed end)
  | Ok (db', job) =>
      match answer with
      | Works => (db', Ok job)
      | Fails => (db, Err DatabaseFailed)
      | AnswerLost => (db', Err DatabaseFailed)
      end
  end.
Record Call := mkCall { cl_env : QueueEnv; cl_answer : Answer; cl_op : QueueOp }.
Definition queue_step (db : JobTables) (c : Call) : JobTables := fst (queue_call (cl_env c) (cl_answer c) (cl_op c) db).
Definition queue_run (calls : list Call) (db : JobTables) : JobTables := foldl queue_step db calls.
End Queue.
