(* ===== verification/JobsSpec.v ===== *)
(** * What the job queue promises

    Every method moves each job along its life cycle: queued, leased to one
    worker, finished; the lease columns agree with the status, and no job is
    handed out more often than its attempts allow.  Only the worker that claimed
    a job last can report on it, and a refresh that begins to publish cannot be
    cancelled any more, unless its source is deleted. *)
From Stdlib Require Import ZArith Lia.
From stdpp Require Import base numbers option strings.
From stdpp Require Import list.
From S2P Require Import Prelude Text Sort Events Settings Redact Xtream Store Jobs.
Open Scope Z_scope.
Open Scope relay_scope.

Section Spec.
Context (json_text : Value -> text) (uuid_text : Z -> text) (parse_uuid : text -> option Z).
Abbreviation activation_locked := (activation_locked json_text).
Abbreviation JobConstraints := (JobConstraints json_text).
Abbreviation queue_op := (queue_op json_text uuid_text parse_uuid).
Abbreviation queue_call := (queue_call json_text uuid_text parse_uuid).
Abbreviation queue_step := (queue_step json_text uuid_text parse_uuid).
Abbreviation queue_run := (queue_run json_text uuid_text parse_uuid).
Abbreviation open_child := (open_child json_text uuid_text).
Abbreviation write := (write json_text).

(** ** The life cycle *)

(** The calls of a worker on a job. *)
Definition worker_call (op : QueueOp) : option (Z * text) :=
  match op with
  | OpHeartbeat job worker _ | OpTouch job worker | OpBeginActivation job worker | OpSucceed job worker | OpFail job worker _ _ _
  | OpCompletePartition job worker _ _ _ => Some (job, worker)
  | _ => None
  end.

(** One step of a job under a call. *)
Inductive lifecycle (env : QueueEnv) (op : QueueOp) (r : JobRow) : JobRow -> Prop :=
| life_same : lifecycle env op r r
| life_claimed skipped worker :
    op = OpClaim skipped worker -> claimable (qe_now env) skipped r = true -> lifecycle env op r (claimed (qe_now env) worker r)
| life_touched worker :
    op = OpTouch (jb_id r) worker -> owned worker r = true -> lifecycle env op r (beat (qe_now env) r)
| life_reported worker progress :
    op = OpHeartbeat (jb_id r) worker progress -> owned worker r = true -> lifecycle env op r (reported json_text (qe_now env) progress r)
| life_locked worker :
    op = OpBeginActivation (jb_id r) worker -> owned worker r = true -> lifecycle env op r (locked_for_activation (qe_now env) r)
| life_parent_reported progress :
    op = OpParentHeartbeat (jb_id r) progress -> jb_status r = JobRunning ->
    lifecycle env op r (parent_reported json_text (qe_now env) progress r)
| life_succeeded worker :
    (op = OpSucceed (jb_id r) worker \/ exists run source parent, op = OpCompletePartition (jb_id r) worker run source parent) ->
    owned worker r = true -> lifecycle env op r (close_job (qe_now env) JobSucceeded r)
| life_retried worker attempts max_attempts error :
    op = OpFail (jb_id r) worker attempts max_attempts error -> attempts < max_attempts -> owned worker r = true ->
    lifecycle env op r (retried env attempts (redact_error error) r)
| life_given_up worker attempts max_attempts error :
    op = OpFail (jb_id r) worker attempts max_attempts error -> max_attempts <= attempts -> owned worker r = true ->
    lifecycle env op r (given_up env (redact_error error) r)
| life_recovered timeout :
    op = OpRecover timeout -> stale (qe_now env) timeout r = true -> lifecycle env op r (recovered (qe_now env) r)
| life_published run given progress :
    op = OpParentComplete (jb_id r) run given ->
    can_complete_reconciliation_parent (jb_status r) (jb_locked_by r) (field_text json_text (jb_progress r) "runId") (uuid_text run) = true ->
    lifecycle env op r (published_parent (qe_now env) progress r)
| life_parent_failed progress error :
    ((exists run, op = OpParentExhausted (jb_id r) run progress) \/ exists e, op = OpParentTerminal (jb_id r) progress e) ->
    jb_kind r = "refresh-source"%string -> is_open r = true -> lifecycle env op r (failed_parent (qe_now env) progress error r)
| life_orphaned parent :
    ((exists run progress, op = OpParentExhausted parent run progress) \/ exists progress e, op = OpParentTerminal parent progress e) ->
    open_child parent r = true -> lifecycle env op r (orphaned (qe_now env) r)
| life_cancelled :
    ((exists job target, op = OpCancel job target) \/ exists parent, op = OpCancelSync parent) -> is_open r = true ->
    lifecycle env op r (close_job (qe_now env) JobCancelled r)
| life_flagged parent finalizer worker :
    op = OpFinalizerJobs parent finalizer worker true -> (jb_id r = parent \/ jb_id r = finalizer) -> jb_status r = JobRunning ->
    lifecycle env op r (flagged_job (qe_now env) r)
| life_stopped parent worker publishes :
    op = OpFinalizerJobs parent (jb_id r) worker publishes -> jb_kind r = "finalize-provider-reconciliation"%string -> is_open r = true ->
    lifecycle env op r (close_job (qe_now env) JobCancelled r)
| life_deleted source :
    op = OpDeleteSource source -> is_open r = true ->
    (jb_kind r = "refresh-source"%string -> field_text json_text (jb_payload r) "sourceId" = Some (uuid_text source)) ->
    lifecycle env op r (close_job (qe_now env) JobCancelled r).

(** A new job. *)
Definition newborn (r : JobRow) : Prop :=
  jb_status r = JobQueued /\ jb_attempts r = 0 /\ jb_locked_by r = None /\ jb_locked_at r = None /\ jb_heartbeat_at r = None /\
  jb_completed_at r = None /\ jb_progress r = JObject [].

(** A step of the queue: each job takes a step of its life, and new ones are
    added. *)
Definition lifecycle_step (env : QueueEnv) (op : QueueOp) (db db' : JobTables) : Prop :=
  exists kept added, jt_jobs db' = kept ++ added /\ Forall2 (lifecycle env op) (jt_jobs db) kept /\ Forall newborn added.

(** The columns of a job agree with its status. *)
Definition closed (status : JobStatus) : Prop := status = JobSucceeded \/ status = JobFailed \/ status = JobCancelled.
Definition job_ok (r : JobRow) : Prop :=
  (is_Some (jb_locked_by r) <-> jb_status r = JobRunning) /\ (is_Some (jb_locked_at r) <-> jb_status r = JobRunning) /\
  (is_Some (jb_heartbeat_at r) -> jb_status r = JobRunning) /\ (is_Some (jb_completed_at r) <-> closed (jb_status r)) /\
  (jb_status r = JobRunning -> 0 < jb_attempts r) /\ jb_attempts r <= jb_max_attempts r.
Definition queue_inv (db : JobTables) : Prop := JobConstraints db /\ Forall job_ok (jt_jobs db).

(** ** Statements *)

Lemma write_ok {A} db (a : A) db' a' : write db a = Ok (db', a') -> db' = db /\ a' = a /\ JobConstraints db.
Proof. unfold Jobs.write. destruct (decide _); [|done]. by intros [= <- <-]. Qed.

Lemma step_same env op db db' : jt_jobs db' = jt_jobs db -> lifecycle_step env op db db'.
Proof.
  intros Hj. exists (jt_jobs db), []. rewrite app_nil_r. split_and!; [done| |constructor].
  apply Forall2_same_length_lookup. split; [done|]. intros i x y Hx Hy. rewrite Hx in Hy. injection Hy as <-. constructor.
Qed.
Lemma step_map env op db db' (h : JobRow -> JobRow) :
  jt_jobs db' = List.map h (jt_jobs db) -> (forall r, r ∈ jt_jobs db -> lifecycle env op r (h r)) -> lifecycle_step env op db db'.
Proof.
  intros Hj Hh. exists (List.map h (jt_jobs db)), []. rewrite app_nil_r. split_and!; [done| |constructor].
  clear Hj. induction (jt_jobs db) as [|r rows IH]; constructor; [apply Hh; by left|]. apply IH. intros r' Hr'. apply Hh. by right.
Qed.
Lemma step_insert env op db db' added : jt_jobs db' = jt_jobs db ++ added -> Forall newborn added -> lifecycle_step env op db db'.
Proof.
  intros Hj Ha. destruct (step_same env op db db eq_refl) as (kept & none & Hk & Hall & _). exists (jt_jobs db), added.
  split_and!; [done| |done]. apply Forall2_same_length_lookup. split; [done|]. intros i x y Hx Hy. rewrite Hx in Hy. injection Hy as <-. constructor.
Qed.

(** *** The invariant follows from the life cycle *)

Lemma owned_iff worker r : owned worker r = true <-> jb_status r = JobRunning /\ jb_locked_by r = Some worker.
Proof. unfold owned. by rewrite andb_true_iff, !bool_decide_eq_true. Qed.
Lemma open_iff r : is_open r = true <-> jb_status r = JobQueued \/ jb_status r = JobRunning.
Proof. unfold is_open. destruct (jb_status r); naive_solver. Qed.
Lemma claimable_iff now skipped r :
  claimable now skipped r = true <->
  jb_status r = JobQueued /\ jb_available_at r <= now /\ jb_attempts r < jb_max_attempts r /\ skipped (jb_id r) = false.
Proof. unfold claimable. rewrite !andb_true_iff, bool_decide_eq_true, negb_true_iff. split; intros; destruct_and!; split_and!; try done; lia. Qed.
Lemma stale_running now timeout r : stale now timeout r = true -> jb_status r = JobRunning.
Proof. unfold stale. rewrite andb_true_iff, bool_decide_eq_true. by intros [? _]. Qed.

(** Rows whose lease is over, and rows that are kept. *)
Lemma closed_ok now status r : closed status -> jb_attempts r <= jb_max_attempts r -> job_ok (close_job now status r).
Proof.
  intros Hs Ha. unfold job_ok. cbn. assert (status <> JobRunning) as Hne by (unfold closed in Hs; naive_solver).
  split_and!; try done; split; try done; intros []%is_Some_None || naive_solver.
Qed.
Lemma queued_ok now r : jb_attempts r <= jb_max_attempts r -> job_ok (set_lease r JobQueued None None None None now).
Proof.
  intros Ha. unfold job_ok, closed. cbn. split_and!; try done; split; try done; try (by intros []%is_Some_None); naive_solver.
Qed.
Lemma beat_ok now r : jb_status r = JobRunning -> job_ok r -> job_ok (beat now r).
Proof. intros Hs (H1 & H2 & _ & H4 & H5 & H6). unfold job_ok. cbn. by split_and!. Qed.

Lemma lifecycle_ok env op r r' : lifecycle env op r r' -> 0 <= jb_attempts r -> job_ok r -> job_ok r'.
Proof.
  intros Hlife Hpos Hok. pose proof Hok as (_ & _ & _ & Hcompleted & _ & Ha).
  assert (forall worker, owned worker r = true -> jb_status r = JobRunning) as Hown by (intros w Hw; by apply owned_iff in Hw as [? _]).
  destruct Hlife as [| |worker Hop Hw|worker progress Hop Hw|worker Hop Hw|progress Hop Hs| | | |timeout Hop Hs| | | | | | |]; [done|..].
  2-4: apply Hown in Hw; exact (beat_ok _ _ Hw Hok).
  2: exact (beat_ok _ _ Hs Hok).
  - apply claimable_iff in H0 as (Hs & _ & Hlt & _). unfold job_ok. cbn.
    assert (~ is_Some (jb_completed_at r)) as Hnone by (rewrite Hcompleted, Hs; unfold closed; naive_solver).
    split_and!; try done; try lia. split; [done|]. unfold closed. naive_solver.
  - apply closed_ok; [by left|done].
  - apply (queued_ok (qe_now env) r Ha).
  - apply (closed_ok (qe_now env) JobFailed r); [right; by left|done].
  - unfold recovered. destruct (_ <? _); [by apply queued_ok|]. apply (closed_ok (qe_now env) JobFailed r); [right; by left|done].
  - apply (closed_ok (qe_now env) JobSucceeded r); [by left|done].
  - apply (closed_ok (qe_now env) JobFailed r); [right; by left|done].
  - apply (closed_ok (qe_now env) JobCancelled r); [right; by right|done].
  - apply closed_ok; [right; by right|done].
  - exact Hok.
  - apply closed_ok; [right; by right|done].
  - apply closed_ok; [right; by right|done].
Qed.

Lemma newborn_ok r : newborn r -> 0 < jb_max_attempts r -> job_ok r.
Proof.
  intros (Hs & Ha & Hl & Hla & Hh & Hc & _) Hm. unfold job_ok, closed. rewrite Hs, Ha, Hl, Hla, Hh, Hc.
  split_and!; try done; try lia; split; try done; try (by intros []%is_Some_None); naive_solver.
Qed.

Lemma queue_step_inv env op db db' : queue_inv db -> lifecycle_step env op db db' -> JobConstraints db' -> queue_inv db'.
Proof.
  intros [Hc Hok] (kept & added & Hj & Hlife & Hnew) Hc'. split; [done|]. pose proof (jobs_checks _ _ Hc) as Hpos.
  pose proof (jobs_checks _ _ Hc') as Hpos'. rewrite Hj in *. apply Forall_app in Hpos' as [_ Hpos']. apply Forall_app. split.
  - clear Hj Hnew Hpos' Hc Hc'. induction Hlife as [|r r' rows rows' Hr _ IH]; [constructor|].
    inversion Hok; subst. inversion Hpos; subst. constructor; [|by apply IH]. eapply lifecycle_ok; [done|lia|done].
  - clear -Hnew Hpos'. induction Hnew as [|r rows Hr _ IH]; [constructor|]. inversion Hpos'; subst. constructor; [|by apply IH].
    apply newborn_ok; [done|lia].
Qed.

(** ** Every method is a step *)

Definition extends (db db' : JobTables) : Prop :=
  JobConstraints db' /\ exists added, jt_jobs db' = jt_jobs db ++ added /\ Forall newborn added.
Definition stepped (env : QueueEnv) (op : QueueOp) (db db' : JobTables) : Prop := JobConstraints db' /\ lifecycle_step env op db db'.

Lemma extends_refl db : JobConstraints db -> extends db db.
Proof. intros Hc. split; [done|]. exists []. by rewrite app_nil_r. Qed.
Lemma extends_trans db1 db2 db3 : extends db1 db2 -> extends db2 db3 -> extends db1 db3.
Proof.
  intros [_ (a & Ha & Hna)] [Hc (b & Hb & Hnb)]. split; [done|]. exists (a ++ b). rewrite Hb, Ha, app_assoc. split; [done|].
  by apply Forall_app.
Qed.
Lemma extends_stepped env op db db' : extends db db' -> stepped env op db db'.
Proof. intros [Hc (added & Hj & Hn)]. split; [done|]. by eapply step_insert. Qed.
Lemma same_stepped env op db db' : JobConstraints db' -> jt_jobs db' = jt_jobs db -> stepped env op db db'.
Proof. intros Hc Hj. split; [done|by apply step_same]. Qed.

Lemma new_row_newborn env id kind priority payload max_attempts available_at :
  newborn (new_row env id kind priority payload max_attempts available_at).
Proof. done. Qed.
Lemma insert_extends {A} r (a : A) db db' a' : newborn r -> write (insert_job r db) a = Ok (db', a') -> extends db db'.
Proof. intros Hr Hw. apply write_ok in Hw as (-> & _ & Hc). split; [done|]. exists [r]. split; [done|by constructor]. Qed.
Lemma insert_unless_extends {K} `{EqDecision K} (key : JobRow -> option K) r db db' o :
  JobConstraints db -> newborn r -> insert_unless json_text key r db = Ok (db', o) -> extends db db'.
Proof.
  intros Hc Hr. unfold insert_unless. destruct (key r) as [k|]; [|by apply insert_extends].
  case_bool_decide; [|by apply insert_extends]. intros [= <- _]. by apply extends_refl.
Qed.
Lemma insert_if_idle_extends field r db db' o :
  JobConstraints db -> newborn r -> insert_if_idle json_text field r db = Ok (db', o) -> extends db db'.
Proof.
  intros Hc Hr. unfold insert_if_idle. destruct (existsb _ _); [|by apply insert_extends]. intros [= <- _]. by apply extends_refl.
Qed.
Lemma enqueue_each_extends env draw ids n db db' o :
  JobConstraints db -> enqueue_each json_text uuid_text env draw ids n db = Ok (db', o) -> extends db db'.
Proof.
  revert draw n db. induction ids as [|id ids IH]; intros draw n db Hc; cbn [enqueue_each].
  { intros [= <- _]. by apply extends_refl. }
  destruct (insert_unless _ _ _ _) as [[db1 o1]|] eqn:Hi; [|done]. intros Hrun.
  apply insert_unless_extends in Hi; [|done|done]. eapply extends_trans; [exact Hi|]. eapply IH; [apply Hi|exact Hrun].
Qed.

(** An update of the jobs. *)
Lemma update_stepped env op p h db :
  JobConstraints (update_jobs p h db) -> (forall r, r ∈ jt_jobs db -> p r = true -> lifecycle env op r (h r)) ->
  stepped env op db (update_jobs p h db).
Proof.
  intros Hc Hh. split; [done|]. eapply step_map; [reflexivity|]. intros r Hr. cbn. destruct (p r) eqn:E; [by apply Hh|constructor].
Qed.
Lemma has_id_iff id r : has_id id r = true <-> jb_id r = id.
Proof. apply Z.eqb_eq. Qed.
Lemma owned_update_ok job worker h db db' u :
  owned_update json_text job worker h db = Ok (db', u) ->
  db' = update_jobs (fun r => has_id job r && owned worker r) h db /\ JobConstraints db' /\
  exists r, r ∈ jt_jobs db /\ jb_id r = job /\ owned worker r = true.
Proof.
  unfold owned_update. destruct (Z.eqb_spec (matched (fun r => has_id job r && owned worker r) db) 1) as [Hm|]; [|done].
  intros Hw. apply write_ok in Hw as (-> & _ & Hc). split_and!; [done|done|].
  unfold matched in Hm. destruct (List.filter _ _) as [|r rows] eqn:Hf; [done|].
  assert (In r (r :: rows)) as Hin by (by left). rewrite <- Hf in Hin. apply List.filter_In in Hin as [Hin Hp].
  apply andb_true_iff in Hp as [Hid Ho]. exists r. split_and!; [by apply list_elem_of_In|by apply has_id_iff|done].
Qed.
Lemma owned_update_stepped env op job worker h db db' u :
  owned_update json_text job worker h db = Ok (db', u) ->
  (forall r, jb_id r = job -> owned worker r = true -> lifecycle env op r (h r)) -> stepped env op db db'.
Proof.
  intros Hu Hh. apply owned_update_ok in Hu as (-> & Hc & _). apply update_stepped; [done|]. intros r _ Hp.
  apply andb_true_iff in Hp as [Hid Ho]. apply Hh; [by apply has_id_iff|done].
Qed.

Lemma next_job_in rows r : next_job rows = Some r -> r ∈ rows.
Proof.
  revert r. induction rows as [|x rows IH]; intros r; [done|]. cbn. destruct (next_job rows) as [best|] eqn:E; intros [= <-]; [|by left].
  destruct (comes_before best x); [right; by apply IH|by left].
Qed.
Lemma filter_elem (p : JobRow -> bool) rows r : r ∈ List.filter p rows <-> r ∈ rows /\ p r = true.
Proof. rewrite !list_elem_of_In. apply List.filter_In. Qed.

(** An identifier has one row. *)
Lemma job_unique db r r' : JobConstraints db -> r ∈ jt_jobs db -> r' ∈ jt_jobs db -> jb_id r = jb_id r' -> r = r'.
Proof.
  intros Hc. apply fmap_unique, (jobs_pkey _ _ Hc).
Qed.
Lemma find_job_in id db r : find_job id db = Some r -> r ∈ jt_jobs db /\ jb_id r = id.
Proof. intros Hf. apply List.find_some in Hf as [Hin Hid]. split; [by apply list_elem_of_In|by apply has_id_iff]. Qed.
Lemma refresh_parent_in id db r : refresh_parent id db = Some r -> r ∈ jt_jobs db /\ jb_id r = id /\ jb_kind r = "refresh-source"%string.
Proof.
  intros Hf. apply List.find_some in Hf as [Hin Hp]. apply andb_true_iff in Hp as [Hid Hk]. apply bool_decide_eq_true in Hk.
  split_and!; [by apply list_elem_of_In|by apply has_id_iff|done].
Qed.

Lemma claim_ok env skipped worker db db' o :
  JobConstraints db -> claim json_text env skipped worker db = Ok (db', o) ->
  match o with
  | None => db' = db /\ forall r, r ∈ jt_jobs db -> claimable (qe_now env) skipped r = false
  | Some c => exists r, r ∈ jt_jobs db /\ claimable (qe_now env) skipped r = true /\ c = claimed (qe_now env) worker r /\
                db' = update_jobs (has_id (jb_id r)) (claimed (qe_now env) worker) db /\ JobConstraints db' /\
                forall other, other ∈ jt_jobs db -> claimable (qe_now env) skipped other = true -> comes_before other r = false
  end.
Proof.
  intros Hc. unfold claim. destruct (next_job _) as [r|] eqn:Hn.
  - intros Hw. apply write_ok in Hw as (-> & -> & Hc'). exists r.
    assert (r ∈ List.filter (claimable (qe_now env) skipped) (jt_jobs db)) as Hin by (by apply next_job_in).
    apply filter_elem in Hin as [Hin Hcl]. split_and!; try done. intros other Hoi Hoc.
    assert (other ∈ List.filter (claimable (qe_now env) skipped) (jt_jobs db)) as Ho by (by apply filter_elem).
    clear -Hn Ho. revert r Hn Ho. generalize (List.filter (claimable (qe_now env) skipped) (jt_jobs db)). intros rows.
    induction rows as [|x rows IH]; intros r Hn Ho; [done|]. cbn in Hn. destruct (next_job rows) as [best|] eqn:E.
    + injection Hn as <-. destruct (comes_before best x) eqn:Eb.
      * apply elem_of_cons in Ho as [->|Ho]; [|by apply IH]. unfold comes_before in *. lia.
      * apply elem_of_cons in Ho as [->|Ho]; [unfold comes_before; lia|]. pose proof (IH best eq_refl Ho) as Hob. unfold comes_before in *. lia.
    + injection Hn as <-. destruct rows as [|y rows]; [|by cbn in E; destruct (next_job rows)].
      apply list_elem_of_singleton in Ho as ->. unfold comes_before. lia.
  - intros [= <- <-]. split; [done|]. intros r Hr. destruct (claimable _ _ r) eqn:E; [|done].
    assert (r ∈ List.filter (claimable (qe_now env) skipped) (jt_jobs db)) as Hin by (by apply filter_elem).
    destruct (List.filter _ _) as [|x rows]; [by apply elem_of_nil in Hin|]. cbn in Hn. by destruct (next_job rows).
Qed.

(** *** Cancellation *)

(** Rows that are left alone or cancelled; [G] holds of the latter. *)
Definition cancels (G : JobRow -> Prop) (now : Z) (db db' : JobTables) : Prop :=
  exists h, jt_jobs db' = List.map h (jt_jobs db) /\
    forall r, r ∈ jt_jobs db -> h r = r \/ is_open r = true /\ G r /\ h r = close_job now JobCancelled r.

Lemma cancels_same G now db db' : jt_jobs db' = jt_jobs db -> cancels G now db db'.
Proof. intros Hj. exists id. split; [by rewrite List.map_id|]. by left. Qed.
Lemma cancels_trans G now db1 db2 db3 : cancels G now db1 db2 -> cancels G now db2 db3 -> cancels G now db1 db3.
Proof.
  intros (h & Hh & Hr) (g & Hg & Hs). exists (fun r => g (h r)). split; [by rewrite Hg, Hh, List.map_map|]. intros r Hin.
  assert (h r ∈ jt_jobs db2) as Hin2 by (rewrite Hh; apply list_elem_of_In, in_map, list_elem_of_In, Hin). specialize (Hs _ Hin2).
  destruct (Hr r Hin) as [Heq|(Ho & HG & Heq)]; rewrite Heq in *; [done|]. right. split_and!; [done..|]. by destruct Hs as [->|(? & _)].
Qed.
Lemma cancels_update (G : JobRow -> Prop) now p db :
  (forall r, r ∈ jt_jobs db -> p r = true -> is_open r = true /\ G r) -> cancels G now db (update_jobs p (close_job now JobCancelled) db).
Proof. intros Hp. eexists. split; [reflexivity|]. intros r Hin. cbn. destruct (p r) eqn:E; [right|by left]. by destruct (Hp r Hin E). Qed.
Lemma open_child_open parent r : open_child parent r = true -> is_open r = true /\ activation_locked r = false.
Proof. unfold Jobs.open_child. rewrite !andb_true_iff, negb_true_iff. naive_solver. Qed.

Lemma cancels_stepped G env op db db' :
  ((exists job target, op = OpCancel job target) \/ exists parent, op = OpCancelSync parent) ->
  JobConstraints db' -> cancels G (qe_now env) db db' -> stepped env op db db'.
Proof.
  intros Hop Hc (h & Hh & Hr). split; [done|]. eapply step_map; [exact Hh|]. intros r Hin.
  destruct (Hr r Hin) as [->|(Ho & _ & ->)]; [constructor|]. by apply life_cancelled.
Qed.

(** [cancel] spares the jobs that begin to publish, but for one without a
    parent. *)
Lemma cancel_apply_cancels (G : JobRow -> Prop) env job target db db' o :
  JobConstraints db -> (forall r, activation_locked r = false -> G r) ->
  (parent_of parse_uuid job target = None -> forall r, r ∈ jt_jobs db -> jb_id r = job -> G r) ->
  cancel_apply json_text uuid_text parse_uuid env job target db = Ok (db', o) ->
  JobConstraints db' /\ cancels G (qe_now env) db db'.
Proof.
  intros Hc HG Halone. unfold cancel_apply. destruct (_ || _); [intros [= <- _]; by split; [|apply cancels_same]|].
  assert (forall db p, cancels G (qe_now env) db
            (update_jobs (fun r => p r && is_open r && negb (activation_locked r)) (close_job (qe_now env) JobCancelled) db)) as Hunlocked.
  { intros d p. apply cancels_update. intros r _ Hp. rewrite !andb_true_iff, negb_true_iff in Hp. destruct Hp as [[_ ?] ?]. auto. }
  destruct (parent_of _ _ _) as [parent_id|].
  2:{ intros Hw. apply write_ok in Hw as (-> & _ & Hc'). split; [done|]. apply cancels_update. intros r Hin Hp.
      apply andb_true_iff in Hp as [Hid ?]. apply has_id_iff in Hid. auto. }
  destruct (refresh_parent parent_id db) as [parent|] eqn:Hparent.
  2:{ intros Hw. apply write_ok in Hw as (-> & _ & Hc'). split; [done|]. apply Hunlocked. }
  destruct (activation_locked parent) eqn:Hlocked; [intros [= <- _]; by split; [|apply cancels_same]|].
  cbn zeta. set (db1 := if is_open parent then _ else db).
  assert (cancels G (qe_now env) db db1) as H1.
  { unfold db1. destruct (is_open parent); [|by apply cancels_same]. apply cancels_update. intros r Hin Hp.
    apply andb_true_iff in Hp as [Hid ?]. apply has_id_iff in Hid. split; [done|]. apply HG. apply refresh_parent_in in Hparent as (Hpin & Hpid & _).
    assert (r = parent) as -> by (apply (job_unique db); congruence). done. }
  set (is_refresh := bool_decide _). set (db2 := if is_refresh then db1 else _).
  assert (cancels G (qe_now env) db db2) as H2.
  { unfold db2. destruct is_refresh; [done|]. eapply cancels_trans; [exact H1|]. apply Hunlocked. }
  clearbody db1 db2. destruct (is_refresh && _); [intros Hw; by apply write_ok in Hw as (-> & _ & Hc')|].
  destruct (_ || _); intros Hw; apply write_ok in Hw as (-> & _ & Hc'); [|done]. split; [done|].
  eapply cancels_trans; [exact H2|]. eapply cancels_trans; [|by apply cancels_same].
  apply (cancels_update G _ (open_child parent_id)). intros r _ [? ?]%open_child_open. auto.
Qed.
Lemma cancel_sync_cancels (G : JobRow -> Prop) env parent db db' o :
  JobConstraints db -> (forall r, activation_locked r = false -> G r) ->
  cancel_source_sync json_text uuid_text env parent db = Ok (db', o) -> JobConstraints db' /\ cancels G (qe_now env) db db'.
Proof.
  intros Hc HG. unfold cancel_source_sync. destruct (_ =? 0); [intros [= <- _]; by split; [|apply cancels_same]|]. intros Hw.
  apply write_ok in Hw as (-> & _ & Hc'). split; [done|]. eapply cancels_trans.
  - apply (cancels_update _ _ (fun r => has_id parent r && is_open r && negb (activation_locked r))). intros r _ Hp.
    rewrite !andb_true_iff, negb_true_iff in Hp. destruct Hp as [[_ ?] ?]. auto.
  - eapply cancels_trans; [|by apply cancels_same]. apply (cancels_update G _ (open_child parent)). intros r _ [? ?]%open_child_open. auto.
Qed.

(** *** Parents *)

Lemma fail_parent_stepped env op parent progress error run counted db db' o :
  JobConstraints db ->
  ((exists run, op = OpParentExhausted parent run progress) \/ exists e, op = OpParentTerminal parent progress e) ->
  fail_reconciliation_parent json_text uuid_text env parent progress error run counted db = Ok (db', o) -> stepped env op db db'.
Proof.
  intros Hc Hop. unfold fail_reconciliation_parent. destruct (refresh_parent parent db) as [row|]; [|intros [= <- _]; by apply same_stepped].
  destruct (_ || _); [intros [= <- _]; by apply same_stepped|]. cbn zeta. intros Hw. apply write_ok in Hw as (-> & _ & Hc').
  split; [done|]. eapply step_map; [cbn; by rewrite List.map_map|]. intros r _. cbn.
  set (p := has_id parent r && _ && is_open r). destruct p eqn:Hp.
  - unfold p in Hp. rewrite !andb_true_iff, has_id_iff, bool_decide_eq_true in Hp. destruct Hp as [[<- Hk] Ho].
    assert (open_child (jb_id r) (failed_parent (qe_now env) progress error r) = false) as ->.
    { destruct (open_child _ _) eqn:E; [|done]. by apply open_child_open in E as [? _]. }
    by apply life_parent_failed.
  - destruct (open_child parent r) eqn:E; [|constructor]. eapply life_orphaned; [|exact E]. destruct Hop as [[x ->]|[x ->]]; [left|right]; eauto.
Qed.
Lemma complete_parent_stepped env parent run progress db db' o :
  JobConstraints db -> complete_reconciliation_parent json_text uuid_text env parent run progress db = Ok (db', o) ->
  stepped env (OpParentComplete parent run progress) db db'.
Proof.
  intros Hc. unfold complete_reconciliation_parent. destruct (refresh_parent parent db) as [row|] eqn:Hr; [|intros [= <- _]; by apply same_stepped].
  destruct (can_complete_reconciliation_parent _ _ _ _) eqn:Hcan; [|intros [= <- _]; by apply same_stepped]. cbn [negb].
  destruct (json_without _ _) as [rest|]; [|done]. intros Hw. apply write_ok in Hw as (-> & _ & Hc'). apply update_stepped; [done|].
  intros r Hin Hid. apply has_id_iff in Hid. apply refresh_parent_in in Hr as (Hrow & Hrid & _).
  assert (r = row) as -> by (eapply job_unique; [exact Hc|done|done|congruence]). subst parent. by eapply life_published.
Qed.
Lemma parent_beat_stepped env parent progress db db' o :
  heartbeat_reconciliation_parent json_text env parent progress db = Ok (db', o) -> stepped env (OpParentHeartbeat parent progress) db db'.
Proof.
  unfold heartbeat_reconciliation_parent. intros Hw. apply write_ok in Hw as (-> & _ & Hc). apply update_stepped; [done|]. intros r _ Hp.
  rewrite !andb_true_iff, has_id_iff, !bool_decide_eq_true in Hp. destruct Hp as [[<- _] Hs]. by apply life_parent_reported.
Qed.

(** *** The rest *)

Lemma fail_stepped env job worker attempts max_attempts error db db' o :
  fail json_text env job worker attempts max_attempts error db = Ok (db', o) ->
  stepped env (OpFail job worker attempts max_attempts error) db db'.
Proof.
  unfold fail. destruct (Z.ltb_spec attempts max_attempts).
  - intros Hu. eapply owned_update_stepped; [exact Hu|]. intros r <- Ho. by eapply life_retried.
  - destruct (owned_update _ _ _ _ _) as [[db1 u]|] eqn:Hu; [|done]. intros Hw. apply write_ok in Hw as (-> & _ & Hc).
    eapply (owned_update_stepped env (OpFail job worker attempts max_attempts error)) in Hu as [_ (kept & added & Hj & Hall)];
      [|intros r <- Ho; by eapply life_given_up].
    split; [done|]. exists kept, added. split; [|done]. rewrite <- Hj. unfold archive. destruct (find_job job db1); [|done].
    by case_bool_decide.
Qed.
Lemma insert_entry_jobs e db : jt_jobs (insert_entry e db) = jt_jobs db.
Proof. unfold insert_entry. by case_bool_decide. Qed.
Lemma complete_partition_stepped env job worker run source parent db db' o :
  complete_provider_reconciliation_partition json_text uuid_text env job worker run source parent db = Ok (db', o) ->
  stepped env (OpCompletePartition job worker run source parent) db db'.
Proof.
  unfold complete_provider_reconciliation_partition. destruct (refresh_parent parent db); [|done].
  destruct (owned_update _ _ _ _ _) as [[db1 u]|] eqn:Hu; [|done]. intros Hw. apply write_ok in Hw as (-> & _ & Hc).
  eapply (owned_update_stepped env (OpCompletePartition job worker run source parent)) in Hu as [_ (kept & added & Hj & Hall)];
    [|intros r <- Ho; eapply life_succeeded; [right; eauto|exact Ho]].
  split; [done|]. exists kept, added. split; [|done]. rewrite <- Hj. destruct (parent_cancelled _ _); [done|]. apply insert_entry_jobs.
Qed.
Lemma queue_partitions_jobs env run source parent count db : jt_jobs (queue_partitions uuid_text env run source parent count db) = jt_jobs db.
Proof. induction count as [|count IH]; [done|]. cbn [queue_partitions]. by rewrite insert_entry_jobs. Qed.
Lemma dispatch_stepped env e db db' o :
  JobConstraints db -> dispatch_entry json_text env e db = Ok (db', o) -> stepped env (OpDispatch e) db db'.
Proof.
  intros Hc. unfold dispatch_entry. destruct (negb _); [intros [= <- _]; by apply same_stepped|]. cbn zeta. intros Hw.
  apply write_ok in Hw as (-> & _ & Hc'). destruct (match find_job _ _ with Some parent => _ | None => _ end); [|by apply same_stepped].
  revert Hc'. unfold insert_or_skip. destruct (_ || _); intros Hc'; [by apply same_stepped|]. apply extends_stepped. split; [done|].
  eexists. split; [reflexivity|]. constructor; [apply new_row_newborn|constructor].
Qed.
(** *** Jobs in other transactions *)

Lemma finalizer_find job worker db r :
  List.find (owned_finalizer job (Some worker)) (jt_jobs db) = Some r ->
  r ∈ jt_jobs db /\ jb_id r = job /\ jb_kind r = "finalize-provider-reconciliation"%string /\ owned worker r = true.
Proof.
  intros Hf. apply List.find_some in Hf as [Hin Hp]. unfold owned_finalizer in Hp. rewrite !andb_true_iff, bool_decide_eq_true, has_id_iff in Hp.
  destruct Hp as [[? ?] ?]. split_and!; [by apply list_elem_of_In|done..].
Qed.
Lemma not_cancelled_id job r : not_cancelled job r = true -> jb_id r = job.
Proof. unfold not_cancelled. rewrite andb_true_iff, has_id_iff. by intros [? _]. Qed.
Lemma finalizer_jobs_stepped env parent finalizer worker publishes db db' u :
  JobConstraints db -> finalizer_jobs json_text env parent finalizer worker publishes db = Ok (db', u) ->
  stepped env (OpFinalizerJobs parent finalizer worker publishes) db db'.
Proof.
  intros Hc. unfold finalizer_jobs. destruct (refresh_parent parent db) as [p|] eqn:Hp; [|done].
  apply refresh_parent_in in Hp as (Hpin & Hpid & Hpk). destruct (bool_decide (jb_status p = JobRunning)) eqn:Hs; cbn [negb].
  2:{ intros Hw. apply write_ok in Hw as (-> & _ & Hc'). unfold stop_finalizer in *. apply update_stepped; [done|]. intros r _ Hr.
      unfold open_finalizer in Hr. rewrite !andb_true_iff, bool_decide_eq_true, has_id_iff in Hr. destruct Hr as [[<- Hk] Ho].
      by eapply life_stopped. }
  apply bool_decide_eq_true in Hs. destruct (List.find _ _) as [f|] eqn:Hf; [|done]. apply finalizer_find in Hf as (Hfin & Hfid & Hfk & Ho).
  apply owned_iff in Ho as [Hfs _]. destruct publishes; [|intros [= <- _]; by apply same_stepped].
  intros Hw. apply write_ok in Hw as (-> & _ & Hc'). split; [done|]. unfold flag_jobs, update_jobs. cbn [jt_jobs set_jobs].
  eapply step_map; [cbn [jt_jobs set_jobs]; by rewrite List.map_map|]. intros r Hr. cbn beta.
  destruct (not_cancelled parent r) eqn:E1.
  - apply not_cancelled_id in E1. assert (r = p) as -> by (apply (job_unique db); [done..|congruence]).
    destruct (not_cancelled finalizer (flagged_job _ p)) eqn:E2; [|eapply life_flagged; [done|by left|done]].
    apply not_cancelled_id in E2. change (jb_id p = finalizer) in E2.
    assert (p = f) as Heq by (apply (job_unique db); [done..|congruence]). congruence.
  - destruct (not_cancelled finalizer r) eqn:E2; [|constructor]. apply not_cancelled_id in E2.
    assert (r = f) as -> by (apply (job_unique db); [done..|congruence]). eapply life_flagged; [done|by right|done].
Qed.

(** The jobs that go with a source. *)
Definition goes_with (source : Z) (r : JobRow) : Prop :=
  jb_kind r = "refresh-source"%string -> field_text json_text (jb_payload r) "sourceId" = Some (uuid_text source).
Lemma delete_source_cancels env source db db' u :
  delete_source json_text uuid_text env source db = Ok (db', u) -> JobConstraints db' /\ cancels (goes_with source) (qe_now env) db db'.
Proof.
  unfold delete_source. destruct (negb _); [done|]. intros Hw. apply write_ok in Hw as (-> & _ & Hc'). split; [done|]. clear Hc'.
  assert (forall kind r, of_source json_text uuid_text kind source r && is_open r = true -> is_open r = true /\ goes_with source r) as Hof.
  { intros kind r Hp. unfold of_source in Hp. rewrite !andb_true_iff, !bool_decide_eq_true in Hp. destruct Hp as [[_ ?] ?]. split; [done|]. by intros _. }
  set (db1 := update_jobs (fun r => of_source json_text uuid_text "refresh-source" source r && is_open r) _ db).
  set (db2 := update_jobs (fun r => of_source json_text uuid_text "refresh-xtream-short-epg" source r && is_open r) _ db1).
  apply (cancels_trans _ _ _ db1); [apply cancels_update; intros r _; apply Hof|].
  apply (cancels_trans _ _ _ db2); [apply cancels_update; intros r _; apply Hof|].
  eapply cancels_trans; [apply cancels_update; intros r _ Hp|by apply cancels_same].
  apply andb_true_iff in Hp as [Hchild Ho]. split; [done|]. intros Hk. unfold child_of_source in Hchild. rewrite Hk in Hchild.
  by apply andb_true_iff in Hchild as [? _].
Qed.
Lemma delete_source_stepped env source db db' u :
  delete_source json_text uuid_text env source db = Ok (db', u) -> stepped env (OpDeleteSource source) db db'.
Proof.
  intros (Hc & h & Hh & Hr)%delete_source_cancels. split; [done|]. eapply step_map; [exact Hh|]. intros r Hin.
  destruct (Hr r Hin) as [->|(Ho & Hg & ->)]; [constructor|]. by eapply life_deleted.
Qed.

Lemma unit_of_ok {A} (x : result (JobTables * A) PersistenceError) db' o :
  unit_of x = Ok (db', o) -> o = None /\ exists a, x = Ok (db', a).
Proof. destruct x as [[db a]|]; [|done]. intros [= <- <-]. split; [done|]. by exists a. Qed.

(** Every call is a step of the life cycle of each job. *)
Lemma queue_op_stepped env op db db' o : JobConstraints db -> queue_op env op db = Ok (db', o) -> stepped env op db db'.
Proof.
  intros Hc Hrun. destruct op; cbn [Jobs.queue_op] in Hrun; try (apply unit_of_ok in Hrun as [-> [a Hrun]]).
  - apply extends_stepped. eapply insert_extends; [|exact Hrun]; done.
  - apply extends_stepped. eapply insert_unless_extends; [done| |exact Hrun]; done.
  - unfold enqueue_due_source_refreshes in Hrun. destruct (negb _); [injection Hrun as <- _; by apply same_stepped|].
    destruct (enqueue_each _ _ _ _ _ _ _) as [[db1 n]|] eqn:He; [|done]. injection Hrun as <- _. apply extends_stepped.
    by eapply enqueue_each_extends.
  - apply extends_stepped. eapply insert_if_idle_extends; [done| |exact Hrun]; done.
  - apply extends_stepped. eapply insert_if_idle_extends; [done| |exact Hrun]; done.
  - unfold enqueue_provider_reconciliation_partition_if_idle in Hrun. destruct (parent_cancelled _ _); [injection Hrun as <- _; by apply same_stepped|].
    apply extends_stepped. eapply insert_unless_extends; [done| |exact Hrun]; done.
  - unfold enqueue_provider_reconciliation_finalizer_if_idle in Hrun. destruct (parent_cancelled _ _); [injection Hrun as <- _; by apply same_stepped|].
    apply extends_stepped. eapply insert_unless_extends; [done| |exact Hrun]; done.
  - apply claim_ok in Hrun; [|done]. destruct o as [c|]; [|destruct Hrun as [-> _]; by apply same_stepped].
    destruct Hrun as (r & Hr & Hcl & _ & -> & Hc' & _). apply update_stepped; [done|]. intros r' Hr' Hid. apply has_id_iff in Hid.
    assert (r' = r) as -> by (exact (job_unique db r' r Hc Hr' Hr Hid)). by eapply life_claimed.
  - eapply owned_update_stepped; [exact Hrun|]. intros r <- Ho. by eapply life_reported.
  - eapply owned_update_stepped; [exact Hrun|]. intros r <- Ho. by eapply life_touched.
  - eapply owned_update_stepped; [exact Hrun|]. intros r <- Ho. by eapply life_locked.
  - eapply owned_update_stepped; [exact Hrun|]. intros r <- Ho. eapply life_succeeded; [by left|exact Ho].
  - by eapply fail_stepped.
  - by eapply complete_partition_stepped.
  - unfold recover_stale_jobs in Hrun. apply write_ok in Hrun as (-> & _ & Hc'). apply update_stepped; [done|]. intros r _ Hs.
    by eapply life_recovered.
  - by eapply parent_beat_stepped.
  - by eapply complete_parent_stepped.
  - eapply fail_parent_stepped; [done|left; eauto|exact Hrun].
  - eapply fail_parent_stepped; [done|right; eauto|exact Hrun].
  - apply (cancel_apply_cancels (fun _ => True)) in Hrun as [Hc' Hcancels]; [|done..]. eapply cancels_stepped; [left; eauto|done|done].
  - apply (cancel_sync_cancels (fun _ => True)) in Hrun as [Hc' Hcancels]; [|done..]. eapply cancels_stepped; [right; eauto|done|done].
  - unfold replay_dead_letter_job in Hrun. destruct (List.find _ _) as [letter|]; [|injection Hrun as <- _; by apply same_stepped].
    apply write_ok in Hrun as (-> & _ & Hc'). apply extends_stepped. split; [done|]. eexists. split; [reflexivity|].
    constructor; [apply new_row_newborn|constructor].
  - apply write_ok in Hrun as (-> & _ & Hc'). by apply same_stepped.
  - unfold queue_reconciliation in Hrun. destruct parent_job_id; [|injection Hrun as <- _; by apply same_stepped].
    apply write_ok in Hrun as (-> & _ & Hc'). apply same_stepped; [done|]. apply queue_partitions_jobs.
  - by eapply dispatch_stepped.
  - by eapply finalizer_jobs_stepped.
  - by eapply delete_source_stepped.
Qed.

(** ** Runs *)

(** The job and the worker of a claim that took effect. *)
Definition claim_of (c : Call) (db : JobTables) : option (Z * text) :=
  match cl_op c, queue_op (cl_env c) (cl_op c) db, cl_answer c with
  | OpClaim _ worker, Ok (_, Some r), Works | OpClaim _ worker, Ok (_, Some r), AnswerLost => Some (jb_id r, worker)
  | _, _, _ => None
  end.
Lemma queue_step_cases db c :
  queue_step db c = db /\ claim_of c db = None \/
  exists o, queue_op (cl_env c) (cl_op c) db = Ok (queue_step db c, o) /\ cl_answer c <> Fails.
Proof.
  unfold Jobs.queue_step, Jobs.queue_call, claim_of. destruct (queue_op _ _ _) as [[db' o]|e].
  - destruct (cl_answer c); [right; by exists o| |right; by exists o]. left. split; [done|]. by destruct (cl_op c), o.
  - left. split; [done|]. by destruct (cl_op c).
Qed.
Lemma queue_step_stepped db c : queue_inv db -> queue_inv (queue_step db c) /\ lifecycle_step (cl_env c) (cl_op c) db (queue_step db c).
Proof.
  intros Hinv. destruct (queue_step_cases db c) as [[-> _]|(o & Hop & _)]; [split; [done|by apply step_same]|].
  apply queue_op_stepped in Hop as [Hc Hstep]; [|apply Hinv]. split; [by eapply queue_step_inv|done].
Qed.

Lemma queue_run_inv calls db : queue_inv db -> queue_inv (queue_run calls db).
Proof.
  revert db. induction calls as [|c calls IH]; intros db Hinv; [done|]. unfold Jobs.queue_run. cbn [foldl].
  apply IH. by apply queue_step_stepped.
Qed.

(** The row of a job takes a step. *)
Lemma lifecycle_columns env op r r' :
  lifecycle env op r r' -> jb_id r' = jb_id r /\ jb_kind r' = jb_kind r /\ jb_payload r' = jb_payload r /\ jb_max_attempts r' = jb_max_attempts r.
Proof. destruct 1; try done. unfold recovered. by destruct (_ <? _). Qed.
Lemma find_step env op db db' id r :
  lifecycle_step env op db db' -> find_job id db = Some r -> exists r', find_job id db' = Some r' /\ lifecycle env op r r'.
Proof.
  intros (kept & added & Hj & Hall & _). unfold find_job. rewrite Hj. clear Hj. induction Hall as [|x y rows rows' Hxy _ IH]; [done|]. cbn.
  destruct (lifecycle_columns _ _ _ _ Hxy) as [Hid _]. unfold has_id in *. rewrite Hid. destruct (jb_id x =? id); [|by apply IH].
  intros [= <-]. by exists y.
Qed.

(** A job that has succeeded or was cancelled stays as it is. *)
Definition over (r : JobRow) : Prop := jb_status r = JobSucceeded \/ jb_status r = JobCancelled.
Lemma over_stays env op r r' : lifecycle env op r r' -> over r -> r' = r.
Proof.
  intros Hlife Hover. assert (is_open r = false /\ jb_status r <> JobRunning /\ jb_status r <> JobQueued /\ jb_status r <> JobFailed) as (Ho & Hr & Hq & Hf)
    by (unfold over, is_open in *; destruct (jb_status r); naive_solver).
  destruct Hlife; try done; rewrite ?owned_iff, ?claimable_iff in *; destruct_and?; try congruence.
  - by apply stale_running in H0.
  - unfold can_complete_reconciliation_parent in H0. apply andb_true_iff in H0 as [_ H0]. by destruct (jb_status r).
  - apply open_child_open in H0 as [? _]. congruence.
Qed.

Inductive lifecycle_run : list Call -> JobTables -> JobTables -> Prop :=
| run_done db : lifecycle_run [] db db
| run_next c calls db db1 db2 :
    lifecycle_step (cl_env c) (cl_op c) db db1 -> lifecycle_run calls db1 db2 -> lifecycle_run (c :: calls) db db2.

(** C20. Over any calls of any workers, in any order, with connections that fail
    before or after the commit: each job moves along its life cycle, the lease
    columns of every job agree with its status and its attempts are within
    their limit, a source has at most one open refresh, and a job that has
    succeeded or was cancelled stays as it is. *)
Theorem jobs_follow_lifecycle calls db :
  queue_inv db ->
  let db' := queue_run calls db in
  lifecycle_run calls db db' /\ queue_inv db' /\
  forall id r, find_job id db = Some r -> over r -> find_job id db' = Some r.
Proof.
  revert db. induction calls as [|c calls IH]; intros db Hinv; [split; [constructor|by split]|]. unfold Jobs.queue_run. cbn [foldl].
  destruct (queue_step_stepped db c Hinv) as [Hinv1 Hstep]. destruct (IH _ Hinv1) as (Hrun & Hinv2 & Hover). split_and!; [|done|].
  - econstructor; [exact Hstep|exact Hrun].
  - intros id r Hf Ho. eapply find_step in Hstep as (r' & Hf' & Hlife); [|exact Hf]. apply over_stays in Hlife; [|done]. subst r'. by apply Hover.
Qed.

(** *** Claims *)

Definition claims (id : Z) (c : Call) (db : JobTables) : option text :=
  match claim_of c db with Some (job, worker) => if job =? id then Some worker else None | None => None end.

Lemma claims_step db c id r r' :
  JobConstraints db -> find_job id db = Some r -> find_job id (queue_step db c) = Some r' ->
  match claims id c db with
  | Some worker => r' = claimed (qe_now (cl_env c)) worker r
  | None => jb_attempts r' = jb_attempts r /\ (jb_locked_by r' = jb_locked_by r \/ jb_locked_by r' = None)
  end.
Proof.
  intros Hc Hf Hf'. apply find_job_in in Hf as Hin. destruct Hin as [Hin Hid].
  destruct (queue_step_cases db c) as [[Hsame Hnone]|(o & Hop & Ha)].
  { rewrite Hsame in Hf'. replace r' with r by congruence. unfold claims. rewrite Hnone. by split; [|left]. }
  unfold claims, claim_of. rewrite Hop.
  destruct (cl_op c) as [| | | | | | |skipped worker| | | | | | | | | | | | | | | | | | |] eqn:Eop.
  8:{ cbn [Jobs.queue_op] in Hop. apply claim_ok in Hop; [|done]. destruct o as [o|].
      2:{ destruct Hop as [Hdb _]. rewrite Hdb in Hf'. replace r' with r by congruence. destruct (cl_answer c); split; try done; by left. }
      destruct Hop as (x & Hx & Hcl & -> & Hdb & Hc' & _). assert (r' ∈ jt_jobs (queue_step db c)) as Hr' by (exact (proj1 (find_job_in _ _ _ Hf'))).
      rewrite Hdb in Hr'. unfold update_jobs in Hr'. cbn in Hr'. apply list_elem_of_In, in_map_iff in Hr' as (y & Hy & Hyin). apply list_elem_of_In in Hyin.
      assert (jb_id r' = id) as Hid' by (exact (proj2 (find_job_in _ _ _ Hf'))).
      assert (y = r) as -> by (apply (job_unique db); [done..|]; rewrite <- Hy in Hid'; destruct (has_id _ y); cbn in Hid'; congruence).
      cbn [jb_id claimed set_attempts set_lease]. unfold has_id in Hy. rewrite Hid in Hy.
      destruct (cl_answer c); [|done|]; destruct (Z.eqb_spec (jb_id x) id) as [Hxi|Hxi];
        try (rewrite Hxi, Z.eqb_refl in Hy; by symmetry);
        (destruct (Z.eqb_spec id (jb_id x)); [congruence|]; subst r'; split; [done|by left]). }
  all: apply queue_op_stepped in Hop as [_ Hstep]; [|done]; eapply find_step in Hstep as (r1 & Hf1 & Hlife); [|exact Hf].
  all: replace r1 with r' in Hlife by congruence.
  all: destruct Hlife; try discriminate; try (split; [done|by left]); try (split; [done|by right]).
  unfold recovered. destruct (_ <? _); split; try done; by right.
Qed.

Fixpoint handed_out (id : Z) (calls : list Call) (db : JobTables) : Z :=
  match calls with
  | [] => 0
  | c :: calls => (if claims id c db then 1 else 0) + handed_out id calls (queue_step db c)
  end.

(** C23. Over any calls, a job is never lost, its attempts count how often it was
    handed to a worker, and it is never handed out more often than its limit
    allows, whatever workers crash, fail or lose their connection. *)
Theorem claims_bounded calls db id r :
  queue_inv db -> find_job id db = Some r ->
  exists r', find_job id (queue_run calls db) = Some r' /\ jb_max_attempts r' = jb_max_attempts r /\
    jb_attempts r' = jb_attempts r + handed_out id calls db /\ jb_attempts r + handed_out id calls db <= jb_max_attempts r.
Proof.
  revert db r. induction calls as [|c calls IH]; intros db r Hinv Hf.
  { exists r. cbn. rewrite Z.add_0_r. split_and!; try done. apply find_job_in in Hf as [Hin _]. destruct Hinv as [_ Hok].
    rewrite Forall_forall in Hok. by apply Hok in Hin as (_ & _ & _ & _ & _ & ?). }
  destruct (queue_step_stepped db c Hinv) as [Hinv1 Hstep]. pose proof Hf as Hf0.
  eapply find_step in Hf as (r1 & Hf1 & Hlife); [|exact Hstep]. pose proof (claims_step db c id r r1 (proj1 Hinv) Hf0 Hf1) as Hclaims.
  destruct (IH _ _ Hinv1 Hf1) as (r2 & Hf2 & Hmax & Hatt & Hle). apply lifecycle_columns in Hlife as (_ & _ & _ & Hm1).
  unfold Jobs.queue_run in *. cbn [foldl handed_out]. exists r2. destruct (claims id c db) as [worker|].
  - subst r1. cbn in Hatt, Hle, Hmax. split_and!; [done|congruence|lia|lia].
  - destruct Hclaims as [Ha _]. rewrite Ha, Hm1 in *. split_and!; [done|congruence|lia|lia].
Qed.

(** *** Leases *)

Fixpoint last_claim (id : Z) (calls : list Call) (db : JobTables) (last : option text) : option text :=
  match calls with
  | [] => last
  | c :: calls => last_claim id calls (queue_step db c) match claims id c db with Some worker => Some worker | None => last end
  end.

Lemma find_job_of db r : JobConstraints db -> r ∈ jt_jobs db -> find_job (jb_id r) db = Some r.
Proof.
  intros Hc Hin. destruct (find_job (jb_id r) db) as [x|] eqn:Hf.
  - apply find_job_in in Hf as [Hx Hid]. f_equal. by apply (job_unique db).
  - exfalso. apply list_elem_of_In in Hin. apply (List.find_none _ _ Hf) in Hin. unfold has_id in Hin. by rewrite Z.eqb_refl in Hin.
Qed.
Lemma find_new env op db db' id r' :
  lifecycle_step env op db db' -> find_job id db = None -> find_job id db' = Some r' -> newborn r'.
Proof.
  intros (kept & added & Hj & Hall & Hnew). unfold find_job. rewrite Hj. clear Hj. induction Hall as [|x y rows rows' Hxy _ IH]; cbn.
  - intros _ Hf. apply List.find_some in Hf as [Hin _]. rewrite Forall_forall in Hnew. by apply Hnew, list_elem_of_In.
  - destruct (lifecycle_columns _ _ _ _ Hxy) as [Hid _]. unfold has_id in *. rewrite Hid. destruct (jb_id x =? id); [done|]. apply IH.
Qed.

Lemma lease_follows calls db last id :
  queue_inv db -> (forall r worker, find_job id db = Some r -> jb_locked_by r = Some worker -> last = Some worker) ->
  forall r worker, find_job id (queue_run calls db) = Some r -> jb_locked_by r = Some worker -> last_claim id calls db last = Some worker.
Proof.
  revert db last. induction calls as [|c calls IH]; intros db last Hinv Hlast; [done|]. unfold Jobs.queue_run. cbn [foldl last_claim].
  destruct (queue_step_stepped db c Hinv) as [Hinv1 Hstep]. apply IH; [done|]. intros r1 worker Hf1 Hl1.
  destruct (find_job id db) as [r|] eqn:Hf.
  - pose proof (claims_step db c id r r1 (proj1 Hinv) Hf Hf1) as Hclaims. destruct (claims id c db) as [w|].
    + subst r1. cbn in Hl1. by injection Hl1 as ->.
    + destruct Hclaims as [_ [Heq|Hnone]]; [|congruence]. apply (Hlast r worker eq_refl). congruence.
  - eapply find_new in Hstep as (_ & _ & Hnone & _); [|exact Hf|exact Hf1]. congruence.
Qed.
Lemma worker_owns env op db db' o id worker :
  JobConstraints db -> worker_call op = Some (id, worker) -> queue_op env op db = Ok (db', o) ->
  exists r, find_job id db = Some r /\ owned worker r = true.
Proof.
  intros Hc Hcall Hop.
  assert (forall h db1 u, owned_update json_text id worker h db = Ok (db1, u) -> exists r, find_job id db = Some r /\ owned worker r = true) as Hown.
  { intros h db1 u Hu. apply owned_update_ok in Hu as (_ & _ & r & Hin & <- & Ho). exists r. split; [by apply find_job_of|done]. }
  destruct op; cbn in Hcall; try done; injection Hcall as -> ->; cbn [Jobs.queue_op] in Hop; apply unit_of_ok in Hop as [_ [a Hop]];
    [by eapply Hown..| |].
  - unfold fail in Hop. destruct (_ <? _); [by eapply Hown|]. destruct (owned_update _ _ _ _ _) as [[db1 u]|] eqn:Hu; [|done]. by eapply Hown.
  - unfold complete_provider_reconciliation_partition in Hop. destruct (refresh_parent _ _); [|done].
    destruct (owned_update _ _ _ _ _) as [[db1 u]|] eqn:Hu; [|done]. by eapply Hown.
Qed.

(** C22. A report of a worker on a job, of progress, success or failure, is accepted
    only from the worker that claimed the job last: a worker whose job was
    recovered and claimed by another is refused, and changes nothing. *)
Theorem lease_exclusive calls db env op db' o id worker :
  queue_inv db -> Forall (fun r => jb_status r <> JobRunning) (jt_jobs db) ->
  worker_call op = Some (id, worker) -> queue_op env op (queue_run calls db) = Ok (db', o) ->
  last_claim id calls db None = Some worker.
Proof.
  intros Hinv Hidle Hcall Hop. pose proof (queue_run_inv calls db Hinv) as Hinv'.
  destruct (worker_owns _ _ _ _ _ _ _ (proj1 Hinv') Hcall Hop) as (r & Hf & Ho). apply owned_iff in Ho as [_ Hl].
  eapply lease_follows; [exact Hinv| |exact Hf|exact Hl]. intros r0 w Hf0 Hl0. exfalso. apply find_job_in in Hf0 as [Hin _].
  destruct Hinv as [_ Hok]. rewrite Forall_forall in Hok, Hidle. destruct (Hok _ Hin) as [Hiff _]. apply (Hidle _ Hin), Hiff. by rewrite Hl0.
Qed.

(** *** Publication *)

Definition is_object (value : Value) : Prop := match value with JObject _ => True | _ => False end.

(** What callers give: progress is an object, and the kind that [cancel] has read
    of a job is the kind of the job. *)
Definition consistent (c : Call) (db : JobTables) : Prop :=
  match cl_op c with
  | OpHeartbeat _ _ progress | OpParentHeartbeat _ progress => is_object progress
  | OpCancel job target => forall r, find_job job db = Some r -> ct_kind target = jb_kind r
  | _ => True
  end.
Fixpoint consistent_run (calls : list Call) (db : JobTables) : Prop :=
  match calls with
  | [] => True
  | c :: calls => consistent c db /\ consistent_run calls (queue_step db c)
  end.

(** The flag is seen once it is set. *)
Lemma field_app x y key : field (x ++ y) key = match field x key with Some v => Some v | None => field y key end.
Proof. induction x as [|[k v] x IH]; [done|]. cbn. by case_bool_decide. Qed.
Lemma field_filtered (q : text * Value -> bool) x key : (forall k v, q (k, v) = true -> k <> key) -> field (List.filter q x) key = None.
Proof.
  intros Hq. induction x as [|[k v] x IH]; [done|]. cbn. destruct (q (k, v)) eqn:E; [|done]. cbn. apply Hq in E. by rewrite bool_decide_false.
Qed.
Lemma flagged_locked r progress now :
  is_object progress -> activation_locked (set_progress (beat now r) (json_concat progress activation_flag)) = true.
Proof.
  destruct progress as [| | | | | |x]; try done. intros _. unfold Jobs.activation_locked, field_text, get_field.
  cbn [jb_progress set_progress json_concat activation_flag]. rewrite field_app, field_filtered; [by apply bool_decide_eq_true|].
  intros k v Hk ->. cbn [existsb] in Hk. by rewrite bool_decide_true in Hk.
Qed.
Lemma locked_object r : activation_locked r = true -> is_object (jb_progress r).
Proof. unfold Jobs.activation_locked, field_text. destruct (jb_progress r); done. Qed.
Lemma concat_object a b : is_object a -> is_object b -> is_object (json_concat a b).
Proof. by destruct a, b. Qed.
Lemma without_object key a : is_object a -> is_object (default a (json_without key a)).
Proof. by destruct a. Qed.

(** A refresh that begins to publish, or has ended but was not cancelled. *)
Definition publishing (r : JobRow) : Prop :=
  jb_kind r = "refresh-source"%string /\ jb_status r <> JobCancelled /\ (is_open r = true -> activation_locked r = true).

Lemma publishing_step env op r r' :
  lifecycle env op r r' -> publishing r ->
  match op with OpHeartbeat _ _ progress | OpParentHeartbeat _ progress => is_object progress | _ => True end ->
  (forall source, op = OpDeleteSource source -> field_text json_text (jb_payload r) "sourceId" <> Some (uuid_text source)) ->
  publishing r' \/ activation_locked r = true /\ ((exists job target, op = OpCancel job target) \/ exists parent, op = OpCancelSync parent).
Proof.
  intros Hlife (Hkind & Hstatus & Hopen) Hobj Hsource. pose proof (lifecycle_columns _ _ _ _ Hlife) as (_ & Hk & _).
  assert (jb_status r = JobRunning -> activation_locked r = true) as Hrun by (intros Hs; apply Hopen, open_iff; by right).
  assert (forall worker, owned worker r = true -> jb_status r = JobRunning) as Hown by (intros w Hw; by apply owned_iff in Hw as [? _]).
  destruct Hlife as [|skipped worker Hop Hcl|worker Hop Ho|worker progress Hop Ho|worker Hop Ho|progress Hop Hs|worker Hop Ho|worker attempts m e Hop Hlt Ho|
    |timeout Hop Hs|run given progress Hop Hcan|progress e Hop _ Ho|parent Hop Hchild|Hop Ho|parent finalizer worker Hop _ Hs
    |parent worker publishes Hop Hfk _|source Hop _ Hgoes].
  all: try (left; split_and!; [congruence|done|done]).
  - left. split_and!; [done|done|]. intros _. apply claimable_iff in Hcl as [Hs _]. apply Hopen, open_iff. by left.
  - left. split_and!; [done|done|]. intros _. subst op. unfold reported. rewrite (Hrun (Hown _ Ho)). by apply flagged_locked.
  - left. split_and!; [done|done|]. intros _. apply flagged_locked, locked_object, Hrun. by eapply Hown.
  - left. split_and!; [done|done|]. intros _. subst op. unfold parent_reported. rewrite (Hrun Hs).
    apply flagged_locked, concat_object; [|done]. by apply without_object, locked_object, Hrun.
  - left. split_and!; [done|done|]. intros _. exact (Hrun (Hown _ Ho)).
  - left. split; [congruence|]. unfold recovered. destruct (_ <? _); split; try done. intros _. by apply Hrun, (stale_running (qe_now env) timeout).
  - exfalso. unfold Jobs.open_child, child_kind in Hchild. rewrite Hkind in Hchild. rewrite !andb_true_iff in Hchild. by destruct Hchild as [[[_ ?] _] _].
  - right. split; [by apply Hopen|done].
  - left. split_and!; [done|done|]. intros _. apply (flagged_locked r (jb_progress r) (qe_now env)), locked_object, Hrun, Hs.
  - congruence.
  - by destruct (Hsource source Hop (Hgoes Hkind)).
Qed.

(** The call does not delete the source with this payload. *)
Definition spares (payload : Value) (c : Call) : Prop :=
  forall source, cl_op c = OpDeleteSource source -> field_text json_text payload "sourceId" <> Some (uuid_text source).

Lemma publishing_spared c db r :
  queue_inv db -> consistent c db -> spares (jb_payload r) c -> find_job (jb_id r) db = Some r -> publishing r ->
  exists r', find_job (jb_id r) (queue_step db c) = Some r' /\ publishing r' /\ jb_payload r' = jb_payload r.
Proof.
  intros Hinv Hcons Hspares Hf Hpub. destruct (queue_step_stepped db c Hinv) as [Hinv1 Hstep]. pose proof Hf as Hf0.
  eapply find_step in Hf as (r' & Hf' & Hlife); [|exact Hstep]. exists r'. split; [done|].
  split; [|apply (lifecycle_columns _ _ _ _ Hlife)].
  pose proof (publishing_step _ _ _ _ Hlife Hpub) as Hcases. unfold consistent in Hcons.
  destruct Hcases as [?|[Hlocked Hop]]; [by destruct (cl_op c)|exact Hspares|done|].
  destruct (queue_step_cases db c) as [[Hsame _]|(o & Hrun & _)]; [by rewrite Hsame in Hf'; replace r' with r by congruence|].
  set (G := fun x : JobRow => ~ (jb_kind x = "refresh-source"%string /\ activation_locked x = true)).
  assert (forall x, activation_locked x = false -> G x) as HG by (intros x Hx [_ ?]; congruence).
  assert (cancels G (qe_now (cl_env c)) db (queue_step db c)) as (h & Hh & Hr).
  { destruct Hop as [(job & target & Heq)|(parent & Heq)]; rewrite Heq in Hrun, Hcons; cbn [Jobs.queue_op] in Hrun; apply unit_of_ok in Hrun as [_ [a Hrun]].
    - eapply cancel_apply_cancels; [apply Hinv|exact HG| |exact Hrun]. intros Hnone x Hx Hid [Hk _]. unfold parent_of in Hnone.
      assert (find_job job db = Some x) as Hfx by (subst job; apply find_job_of; [apply Hinv|done]).
      rewrite (Hcons x Hfx), Hk in Hnone. done.
    - eapply cancel_sync_cancels; [apply Hinv|exact HG|exact Hrun]. }
  assert (r ∈ jt_jobs db) as Hin by (exact (proj1 (find_job_in _ _ _ Hf0))).
  assert (h r = r) as Hsame by (destruct (Hr r Hin) as [?|(_ & HGr & _)]; [done|]; by destruct HGr; split; [apply Hpub|]).
  assert (r ∈ jt_jobs (queue_step db c)) as Hin' by (rewrite Hh, <- Hsame; apply list_elem_of_In, in_map, list_elem_of_In, Hin).
  apply find_job_of in Hin'; [|apply Hinv1]. replace r' with r by congruence. done.
Qed.

(** C21. Once a refresh has begun to publish its snapshot it is not cancelled any
    more, whatever workers, requests, recoveries and finalizers do to the queue,
    also by a cancellation that looked at the job before, as long as its source
    is not deleted; and a refresh that was cancelled cannot begin to publish.
    [SourceRepository::delete] does not look at the flag and cancels such a
    refresh. *)
Theorem activation_excludes_cancellation calls db env id worker r db1 :
  queue_inv db -> find_job id db = Some r -> jb_kind r = "refresh-source"%string -> is_object (jb_progress r) ->
  begin_activation json_text env id worker db = Ok (db1, tt) -> consistent_run calls db1 -> Forall (spares (jb_payload r)) calls ->
  jb_status r <> JobCancelled /\ exists r', find_job id (queue_run calls db1) = Some r' /\ jb_status r' <> JobCancelled.
Proof.
  intros Hinv Hf Hkind Hobj Hbegin Hcons Hspares. apply find_job_in in Hf as Hin. destruct Hin as [Hin Hid].
  pose proof (queue_op_stepped env (OpBeginActivation id worker) db db1 None (proj1 Hinv)) as Hstep. cbn [Jobs.queue_op] in Hstep.
  rewrite Hbegin in Hstep. destruct (Hstep eq_refl) as [Hc1 Hlife]. pose proof (queue_step_inv _ _ _ _ Hinv Hlife Hc1) as Hinv1.
  apply owned_update_ok in Hbegin as (Hdb1 & _ & r0 & Hr0 & Hid0 & Ho). assert (r0 = r) as -> by (apply (job_unique db); [apply Hinv|done|done|congruence]).
  split; [apply owned_iff in Ho as [-> _]; done|].
  assert (exists r1, find_job id db1 = Some r1 /\ publishing r1 /\ jb_payload r1 = jb_payload r) as (r1 & Hf1 & Hpub & Hpay).
  { exists (locked_for_activation (qe_now env) r).
    split; [|split; [split_and!; [done|apply owned_iff in Ho as [Hs _]; intros Hx; change (jb_status r = JobCancelled) in Hx; congruence|intros _; by apply flagged_locked]|done]].
    replace id with (jb_id (locked_for_activation (qe_now env) r)) by done. apply find_job_of; [done|]. rewrite Hdb1. cbn.
    apply list_elem_of_In, in_map_iff. exists r. split; [|by apply list_elem_of_In]. by rewrite (proj2 (has_id_iff _ _) Hid), Ho. }
  rewrite <- Hpay in Hspares. clear -Hinv1 Hf1 Hpub Hcons Hspares. revert db1 r1 Hinv1 Hf1 Hpub Hcons Hspares.
  induction calls as [|c calls IH]; intros db1 r1 Hinv1 Hf1 Hpub Hcons Hspares.
  { exists r1. split; [done|]. by destruct Hpub as (_ & ? & _). }
  destruct Hcons as [Hc Hcons]. inversion Hspares as [|? ? Hsc Hscs]; subst. apply find_job_in in Hf1 as Hin. destruct Hin as [_ <-].
  destruct (publishing_spared c db1 r1 Hinv1 Hc Hsc Hf1 Hpub) as (r2 & Hf2 & Hpub2 & Hpay). unfold Jobs.queue_run. cbn [foldl].
  eapply IH; [by apply queue_step_stepped|exact Hf2|exact Hpub2|exact Hcons|by rewrite Hpay].
Qed.

End Spec.
