(* ===== verification/Publish.v ===== *)
(** * Publication of a provider catalogue

    The parallel reconciliation of [crates/persistence/src/catalog.rs]: a staged
    snapshot gets a run, its canonical keys are divided over partitions by their
    hash, workers prepare the candidates of each partition, and the finalizer
    publishes them with the snapshot in one transaction; and the roll-back to an
    earlier revision.

    A method is one transaction.  The database checks its constraints after
    every statement that writes channels or links, and at the commit.  The hash
    and the collation of the database, the identifier it makes of an account and
    a key, the texts of times and the time at which a snapshot was fetched, a
    column that is never updated, are arguments. *)
From Stdlib Require Import ZArith Lia Floats.SpecFloat.
From stdpp Require Import base numbers option strings.
From stdpp Require Import list.
From S2P Require Import Prelude Text Sort F32 Events Settings Redact Xtream Ingest Store Jobs.
Open Scope Z_scope.
Open Scope relay_scope.

(** JSON values can be compared. *)
#[export] Instance spec_float_eq_dec : EqDecision spec_float.
Proof. solve_decision. Defined.
#[export] Instance Value_eq_dec : EqDecision Value.
Proof.
  refine (fix go x y := match x, y with
    | JNull, JNull => left eq_refl
    | JBool a, JBool b => cast_if (decide (a = b))
    | JInteger a, JInteger b => cast_if (decide (a = b))
    | JFloat a, JFloat b => cast_if (decide (a = b))
    | JString a, JString b => cast_if (decide (a = b))
    | JArray a, JArray b => cast_if (@list_eq_dec _ go a b)
    | JObject a, JObject b => cast_if (@list_eq_dec _ (fun p q => @prod_eq_dec _ _ _ go p q) a b)
    | _, _ => right _
    end); clear go; abstract congruence.
Defined.

(** ** Tables *)

Inductive ManagedBy := Automatic | Manual | ByEvent.
#[export] Instance ManagedBy_eq_dec : EqDecision ManagedBy.
Proof. solve_decision. Defined.

(** [channels]; the times of a row are left out. *)
Record CanonicalChannel := mkCanonicalChannel {
  cc_id : Z;
  cc_channel_number : text;
  cc_name : text;
  cc_group_name : option text;
  cc_logo_url : option text;
  cc_enabled : bool;
  cc_managed_by : ManagedBy;
  cc_provider_account_id : option Z;
  cc_canonical_key : option text;
  cc_revision : Z;
}.

(** [channel_streams] *)
Record StreamLink := mkStreamLink { ln_channel_id : Z; ln_provider_stream_id : Z; ln_priority : Z; ln_evidence : Value }.

(** [channel_epg_mappings] *)
Record EpgMapping := mkEpgMapping {
  em_channel_id : Z;
  em_epg_channel_id : Z;
  em_method : string;
  em_confidence : f32;
  em_evidence : Value;
  em_review_status : string;
  em_reviewed_by : option text;
  em_reviewed_at : option Z;
  em_revision : Z;
}.

(** [ReconciliationSnapshot], and a row of [revisions] that holds two of them *)
Record SnapshotChannel := mkSnapshotChannel {
  sc_id : Z;
  sc_channel_number : text;
  sc_name : text;
  sc_group_name : option text;
  sc_logo_url : option text;
  sc_enabled : bool;
  sc_canonical_key : option text;
}.
Record SnapshotEpgMapping := mkSnapshotEpgMapping {
  sm_channel_id : Z;
  sm_epg_channel_id : Z;
  sm_method : string;
  sm_confidence : f32;
  sm_evidence : Value;
  sm_review_status : string;
  sm_reviewed_by : option text;
  sm_reviewed_at : option Z;
}.
Record ReconciliationSnapshot := mkReconciliationSnapshot {
  rs_channels : list SnapshotChannel;
  rs_stream_links : list StreamLink;
  rs_epg_mappings : list SnapshotEpgMapping;
}.
Record RevisionRow := mkRevisionRow {
  rv_account_id : Z;
  rv_revision : Z;
  rv_actor : text;
  rv_before_value : ReconciliationSnapshot;
  rv_after_value : ReconciliationSnapshot;
}.

Record Catalog := mkCatalog {
  ca_store : Database;
  ca_queue : JobTables;
  ca_channels : list CanonicalChannel;
  ca_links : list StreamLink;
  ca_mappings : list EpgMapping;
  ca_revisions : list RevisionRow;
}.
Definition with_store (db : Catalog) (store : Database) : Catalog :=
  mkCatalog store (ca_queue db) (ca_channels db) (ca_links db) (ca_mappings db) (ca_revisions db).
Definition with_queue (db : Catalog) (queue : JobTables) : Catalog :=
  mkCatalog (ca_store db) queue (ca_channels db) (ca_links db) (ca_mappings db) (ca_revisions db).
Definition with_channels (db : Catalog) (channels : list CanonicalChannel) (links : list StreamLink) (mappings : list EpgMapping) : Catalog :=
  mkCatalog (ca_store db) (ca_queue db) channels links mappings (ca_revisions db).
Definition with_revision (db : Catalog) (row : RevisionRow) : Catalog :=
  mkCatalog (ca_store db) (ca_queue db) (ca_channels db) (ca_links db) (ca_mappings db) (ca_revisions db ++ [row]).

(** ** Constraints *)

Definition canonical_index (c : CanonicalChannel) : option (Z * text) :=
  account ← cc_provider_account_id c; key ← cc_canonical_key c; Some (account, key).
Record ChannelConstraints (db : Catalog) : Prop := {
  channels_pkey : NoDup (cc_id <$> ca_channels db);
  channels_numbers : NoDup (cc_channel_number <$> ca_channels db);
  channels_keys : unique_index canonical_index (ca_channels db);
  links_pkey : NoDup ((fun l => (ln_channel_id l, ln_provider_stream_id l)) <$> ca_links db);
  links_priorities : NoDup ((fun l => (ln_channel_id l, ln_priority l)) <$> ca_links db);
  links_rows : Forall (fun l => 0 <= ln_priority l /\ ln_channel_id l ∈ (cc_id <$> ca_channels db) /\
                                ln_provider_stream_id l ∈ (ps_id ∘ st_stream <$> db_streams (ca_store db))) (ca_links db);
  mappings_pkey : NoDup (em_channel_id <$> ca_mappings db);
  mappings_rows : Forall (fun m => em_channel_id m ∈ (cc_id <$> ca_channels db)) (ca_mappings db);
  revisions_key : NoDup ((fun r => (rv_account_id r, rv_revision r)) <$> ca_revisions db);
}.
#[export] Instance ChannelConstraints_decision db : Decision (ChannelConstraints db).
Proof.
  refine (cast_if (decide (
    (NoDup (cc_id <$> ca_channels db) /\ NoDup (cc_channel_number <$> ca_channels db) /\ unique_index canonical_index (ca_channels db)) /\
    (NoDup ((fun l => (ln_channel_id l, ln_provider_stream_id l)) <$> ca_links db) /\
     NoDup ((fun l => (ln_channel_id l, ln_priority l)) <$> ca_links db) /\
     Forall (fun l => 0 <= ln_priority l /\ ln_channel_id l ∈ (cc_id <$> ca_channels db) /\
                      ln_provider_stream_id l ∈ (ps_id ∘ st_stream <$> db_streams (ca_store db))) (ca_links db)) /\
    (NoDup (em_channel_id <$> ca_mappings db) /\ Forall (fun m => em_channel_id m ∈ (cc_id <$> ca_channels db)) (ca_mappings db)) /\
    NoDup ((fun r => (rv_account_id r, rv_revision r)) <$> ca_revisions db))));
  [abstract (destruct_and!; by constructor) | abstract (intros []; naive_solver)].
Defined.

(** The keys of the tables of a run *)
Record RunConstraints (q : JobTables) : Prop := {
  partitions_pkey : NoDup ((fun p => (pt_run_id p, pt_number p)) <$> jt_partitions q);
  partitions_runs : Forall (fun p => pt_run_id p ∈ (rn_id <$> jt_runs q)) (jt_partitions q);
  candidates_pkey : NoDup ((fun c => (cd_run_id c, cd_canonical_key c)) <$> jt_candidates q);
  candidates_runs : Forall (fun c => cd_run_id c ∈ (rn_id <$> jt_runs q)) (jt_candidates q);
  candidate_streams_pkey : NoDup ((fun c => (cn_run_id c, cn_canonical_key c, cn_provider_stream_id c)) <$> jt_candidate_streams q);
  candidate_streams_rows :
    Forall (fun c => (cn_run_id c, cn_canonical_key c) ∈ ((fun c => (cd_run_id c, cd_canonical_key c)) <$> jt_candidates q))
      (jt_candidate_streams q);
}.
#[export] Instance RunConstraints_decision q : Decision (RunConstraints q).
Proof.
  refine (cast_if (decide (
    (NoDup ((fun p => (pt_run_id p, pt_number p)) <$> jt_partitions q) /\
     Forall (fun p => pt_run_id p ∈ (rn_id <$> jt_runs q)) (jt_partitions q)) /\
    (NoDup ((fun c => (cd_run_id c, cd_canonical_key c)) <$> jt_candidates q) /\
     Forall (fun c => cd_run_id c ∈ (rn_id <$> jt_runs q)) (jt_candidates q)) /\
    NoDup ((fun c => (cn_run_id c, cn_canonical_key c, cn_provider_stream_id c)) <$> jt_candidate_streams q) /\
    Forall (fun c => (cn_run_id c, cn_canonical_key c) ∈ ((fun c => (cd_run_id c, cd_canonical_key c)) <$> jt_candidates q))
      (jt_candidate_streams q))));
  [abstract (destruct_and!; by constructor) | abstract (intros []; naive_solver)].
Defined.

(** ** Canonical keys *)

(** [COALESCE(NULLIF(tvg_id, ''), 'stream:' || stable_key)] *)
Definition non_empty (o : option text) : option text := match o with Some [] => None | o => o end.
Definition canonical_key (s : PreparedProviderStream) : text :=
  default (str "stream:" ++ ps_stable_key s) (non_empty (ps_tvg_id s)).

(** The supported streams of a snapshot, by identifier *)
Definition supported_streams (snapshot_id : Z) (store : Database) : list PreparedProviderStream :=
  stable_sort (fun a b => ps_id a <? ps_id b)
    (List.map st_stream (List.filter (fun r => (st_snapshot_id r =? snapshot_id) && ps_supported (st_stream r)) (db_streams store))).
Definition canonical_keys (streams : list PreparedProviderStream) : list text := remove_dups (List.map canonical_key streams).

(** [GROUP BY canonical_key]: the first value of each column *)
Definition of_key (key : text) (streams : list PreparedProviderStream) : list PreparedProviderStream :=
  List.filter (fun s => bool_decide (canonical_key s = key)) streams.
Definition grouped (run_id : Z) (streams : list PreparedProviderStream) (key : text) : CandidateRow :=
  let rows := of_key key streams in
  mkCandidateRow run_id key (default [] (head (List.map ps_name rows))) (head (omap ps_group_name rows))
    (head (omap (non_empty ∘ ps_logo_url) rows)) (head (omap (non_empty ∘ ps_channel_number) rows)).

Record PublishEnv := mkPublishEnv { pe_queue : QueueEnv; pe_number : nat -> text }.

(** ** Results *)

Record ProviderReconciliationRunProgress := mkRunProgress {
  rp_run_id : Z; rp_status : string; rp_partition_count : Z; rp_partitions_completed : Z; rp_total_keys : Z; rp_completed_keys : Z }.
Record ProviderReconciliationPartitionResult := mkPartitionResult {
  pr_run_id : Z; pr_partition_number : Z; pr_keys_completed : Z; pr_total_keys : Z; pr_already_completed : bool }.
Record ReconcileStats := mkReconcileStats { rc_channels : Z; rc_orphaned_channels_removed : Z; rc_stream_links : Z }.
Inductive ProviderReconciliationFinalization :=
| Pending (progress : ProviderReconciliationRunProgress)
| FinalizeCancelled
| Published (stats : ReconcileStats)
| AlreadyPublished
| Superseded.

Section Publish.
Context (json_text : Value -> text) (uuid_text time_text : Z -> text) (parse_uuid : text -> option Z) (fetched_at : Z -> Z).
Context (hash : text -> Z) (collates : text -> text -> bool) (channel_uuid : Z -> text -> Z).

(** [mod(mod(hashtextextended(key, 0), n) + n, n)]; the [mod] of the database
    truncates. *)
Definition partition_of (count : Z) (key : text) : Z := Z.rem (Z.rem (hash key) count + count) count.

Definition commit {A} (db : Catalog) (a : A) : result (Catalog * A) PersistenceError :=
  if decide (ChannelConstraints db /\ RunConstraints (ca_queue db) /\ Constraints (ca_store db) /\ JobConstraints json_text (ca_queue db))
  then Ok (db, a) else Err DatabaseFailed.
Definition statement (db : Catalog) : result Catalog PersistenceError :=
  if decide (ChannelConstraints db) then Ok db else Err DatabaseFailed.

(** A loop of statements *)
Fixpoint statements {A} (f : A -> Catalog -> Catalog) (rows : list A) (db : Catalog) : result Catalog PersistenceError :=
  match rows with
  | [] => Ok db
  | row :: rows => match statement (f row db) with Ok db' => statements f rows db' | Err e => Err e end
  end.

(** ** Runs *)

Definition find_run (run_id : Z) (q : JobTables) : option RunRow := List.find (fun r => rn_id r =? run_id) (jt_runs q).
Definition set_partitions (q : JobTables) (partitions : list PartitionRow) : JobTables :=
  mkJobTables (jt_jobs q) (jt_dead q) (jt_outbox q) (jt_runs q) partitions (jt_candidates q) (jt_candidate_streams q)
    (jt_accounts q) (jt_epg_sources q).
Definition delete_candidates (run_id : Z) (q : JobTables) : JobTables :=
  set_runs q (jt_runs q) (List.filter (fun c => negb (cd_run_id c =? run_id)) (jt_candidates q))
    (List.filter (fun c => negb (cn_run_id c =? run_id)) (jt_candidate_streams q)).

(** The latest run of a snapshot: [ORDER BY created_at DESC, id DESC LIMIT 1] *)
Definition later_run (a b : RunRow) : bool :=
  (rn_created_at b <? rn_created_at a) || ((rn_created_at a =? rn_created_at b) && (rn_id b <? rn_id a)).
Definition latest_run (snapshot_id : Z) (q : JobTables) : option RunRow :=
  head (stable_sort later_run (List.filter (fun r => rn_source_snapshot_id r =? snapshot_id) (jt_runs q))).

(** The rebuilding of a run that failed or was published before *)
Definition restarted_run (now parent_job_id : Z) (r : RunRow) : RunRow :=
  mkRunRow (rn_id r) (rn_provider_account_id r) (rn_source_snapshot_id r) (Some parent_job_id) "processing" (rn_partition_count r)
    (rn_total_keys r) 0 (rn_created_at r) None now.
Definition restarted_partition (now : Z) (p : PartitionRow) : PartitionRow :=
  mkPartitionRow (pt_run_id p) (pt_number p) "queued" (pt_key_count p) 0 0 None None now.
Definition restart_run (now parent_job_id run_id : Z) (q : JobTables) : JobTables :=
  let q := delete_candidates run_id q in
  let q := set_partitions q (List.map (fun p => if pt_run_id p =? run_id then restarted_partition now p else p) (jt_partitions q)) in
  set_runs q (List.map (fun r => if rn_id r =? run_id then restarted_run now parent_job_id r else r) (jt_runs q))
    (jt_candidates q) (jt_candidate_streams q).

(** A new run with its partitions *)
Definition new_partition (now run_id count : Z) (keys : list text) (number : nat) : PartitionRow :=
  mkPartitionRow run_id (Z.of_nat number) "queued"
    (zlen (List.filter (fun key => partition_of count key =? Z.of_nat number) keys)) 0 0 None None now.
Definition insert_run (now : Z) (run : RunRow) (keys : list text) (q : JobTables) : JobTables :=
  let q := set_runs q (jt_runs q ++ [run]) (jt_candidates q) (jt_candidate_streams q) in
  set_partitions q (jt_partitions q ++
    List.map (new_partition now (rn_id run) (rn_partition_count run) keys) (seq 0 (Z.to_nat (rn_partition_count run)))).

(** [queue_reconciliation] of a run *)
Definition queue_run_partitions (env : QueueEnv) (run : RunRow) (q : JobTables) : JobTables :=
  match rn_parent_job_id run with
  | None => q
  | Some parent => queue_partitions uuid_text env (rn_id run) (rn_provider_account_id run) parent (Z.to_nat (rn_partition_count run)) q
  end.

Definition set_snapshot_status (p : SnapshotRow -> bool) (status : Status) (store : Database) : Database :=
  set_snapshots store (List.map (fun r => if p r then set_row_status r status else r) (db_snapshots store)).
Definition staging_snapshot (snapshot_id : Z) (r : SnapshotRow) : bool :=
  (sr_id r =? snapshot_id) && bool_decide (sr_status r = StatusStaging).

Definition provider_kind (kind : string) : bool := bool_decide (kind = "m3u") || bool_decide (kind = "xtream").

(** [create_or_load_provider_reconciliation_run].  The refusal of a snapshot
    without channels is committed: the answer is a value of its own. *)
Definition create_or_load_provider_reconciliation_run (env : PublishEnv) (snapshot_id parent_job_id requested_partitions : Z) (db : Catalog)
  : result (Catalog * result (option RunRow) PersistenceError) PersistenceError :=
  let partition_count := Z.max 1 (Z.min requested_partitions 64) in
  let now := qe_now (pe_queue env) in
  let queued run db :=
    commit (with_queue db (queue_run_partitions (pe_queue env) run (ca_queue db))) (Ok (Some run)) in
  let created account_id db :=
    let keys := canonical_keys (supported_streams snapshot_id (ca_store db)) in
    if zlen keys =? 0 then
      commit (with_store db (set_snapshot_status (staging_snapshot snapshot_id) StatusRejected (ca_store db)))
        (Err (InvalidSource "staged provider snapshot contains no supported channels"))
    else
      let run := mkRunRow (qe_id (pe_queue env) 0) account_id snapshot_id (Some parent_job_id) "processing" partition_count (zlen keys) 0
                   now None now in
      queued run (with_queue db (insert_run now run keys (ca_queue db))) in
  match List.find (fun r => sr_id r =? snapshot_id) (db_snapshots (ca_store db)) with
  | None => Err (InvalidSource "staged provider snapshot was not found")
  | Some snapshot =>
      match sr_provider_account_id snapshot with
      | None => Err DatabaseFailed
      | Some account_id =>
          if negb (provider_kind (sr_kind snapshot)) then Err (InvalidSource "parallel reconciliation requires an M3U or Xtream snapshot")
          else if bool_decide (sr_status snapshot = StatusActive) then Ok (db, Ok None)
          else if negb (bool_decide (sr_status snapshot = StatusStaging)) || bool_decide (sr_staged_at snapshot = None)
          then Err (InvalidSource "provider snapshot is not ready for reconciliation")
          else
            match latest_run snapshot_id (ca_queue db) with
            | None => created account_id db
            | Some run =>
                if bool_decide (rn_status run = "cancelled") then created account_id db
                else if bool_decide (rn_status run = "processing") then queued run db
                else queued (restarted_run now parent_job_id run) (with_queue db (restart_run now parent_job_id (rn_id run) (ca_queue db)))
            end
      end
  end.

(** The first half of [dispatch_outbox]: the preparations that it selects, and
    the two transactions for one of them.  An error ends the call. *)
Definition preparations (q : JobTables) : list OutboxEntry :=
  take 16 (stable_sort (fun a b => oe_created_at a <? oe_created_at b)
    (List.filter (fun e => bool_decide (oe_dispatched_at e = None) && bool_decide (oe_kind e = "prepare-provider-reconciliation") &&
                           match find_job (oe_parent_job_id e) q with Some parent => is_open parent | None => false end) (jt_outbox q))).
Definition mark_prepared (now entry_id : Z) (q : JobTables) : JobTables :=
  set_entries q (List.map (fun e =>
    if (oe_id e =? entry_id) && bool_decide (oe_dispatched_at e = None)
    then mkOutboxEntry (oe_id e) (oe_parent_job_id e) (oe_kind e) (oe_payload e) (oe_priority e) (oe_dedup_key e) (oe_created_at e) (Some now)
    else e) (jt_outbox q)).
Definition payload_snapshot (payload : Value) : option Z :=
  match payload with JObject fields => value ← get_field fields "snapshotId"; s ← as_str value; parse_uuid s | _ => None end.
Definition payload_partitions (payload : Value) : Z :=
  default 3 (match payload with
             | JObject fields =>
                 value ← get_field fields "partitionCount"; v ← as_i64 value;
                 if (-2147483648 <=? v) && (v <=? 2147483647) then Some v else None
             | _ => None
             end).
Definition prepare_entry (env : PublishEnv) (e : OutboxEntry) (db : Catalog) : Catalog * result unit PersistenceError :=
  match payload_snapshot (oe_payload e) with
  | None => (db, Err (InvalidSource "invalid staging dispatch snapshot"))
  | Some snapshot =>
      match create_or_load_provider_reconciliation_run env snapshot (oe_parent_job_id e) (payload_partitions (oe_payload e)) db with
      | Err error => (db, Err error)
      | Ok (db', Err error) => (db', Err error)
      | Ok (db', Ok _) =>
          match commit (with_queue db' (mark_prepared (qe_now (pe_queue env)) (oe_id e) (ca_queue db'))) tt with
          | Err error => (db', Err error)
          | Ok (db'', _) => (db'', Ok tt)
          end
      end
  end.
Fixpoint prepare_entries (env : nat -> PublishEnv) (entries : list OutboxEntry) (db : Catalog) : Catalog * result unit PersistenceError :=
  match entries with
  | [] => (db, Ok tt)
  | e :: entries =>
      match prepare_entry (env O) e db with
      | (db', Ok _) => prepare_entries (fun i => env (S i)) entries db'
      | (db', Err error) => (db', Err error)
      end
  end.

(** [provider_reconciliation_progress] *)
Definition provider_reconciliation_progress (run_id : Z) (q : JobTables) : option ProviderReconciliationRunProgress :=
  (fun r =>
    let rows := List.filter (fun p => pt_run_id p =? run_id) (jt_partitions q) in
    mkRunProgress run_id (rn_status r) (rn_partition_count r)
      (zlen (List.filter (fun p => bool_decide (pt_status p = "succeeded")) rows)) (rn_total_keys r)
      (foldr Z.add 0 (List.map pt_completed_keys rows))) <$> find_run run_id q.

(** ** Partitions *)

(** The two statements that fill the tables of candidates *)
Definition same_candidate (a b : CandidateRow) : bool :=
  (cd_run_id a =? cd_run_id b) && bool_decide (cd_canonical_key a = cd_canonical_key b).
Definition upsert_candidate (rows : list CandidateRow) (c : CandidateRow) : list CandidateRow :=
  if existsb (same_candidate c) rows then List.map (fun row => if same_candidate c row then c else row) rows else rows ++ [c].
Definition same_candidate_stream (a b : CandidateStream) : bool :=
  (cn_run_id a =? cn_run_id b) && bool_decide (cn_canonical_key a = cn_canonical_key b) &&
  (cn_provider_stream_id a =? cn_provider_stream_id b).
Definition insert_candidate_stream (rows : list CandidateStream) (c : CandidateStream) : list CandidateStream :=
  if existsb (same_candidate_stream c) rows then rows else rows ++ [c].

Definition partition_streams (count number : Z) (streams : list PreparedProviderStream) : list PreparedProviderStream :=
  List.filter (fun s => partition_of count (canonical_key s) =? number) streams.
Definition prepare_candidates (run_id count number : Z) (streams : list PreparedProviderStream) (q : JobTables) : JobTables :=
  let rows := partition_streams count number streams in
  set_runs q (jt_runs q)
    (fold_left upsert_candidate (List.map (grouped run_id rows) (canonical_keys rows)) (jt_candidates q))
    (fold_left insert_candidate_stream (List.map (fun s => mkCandidateStream run_id (canonical_key s) (ps_id s)) rows) (jt_candidate_streams q)).
Definition candidate_count (run_id count number : Z) (q : JobTables) : Z :=
  zlen (List.filter (fun c => (cd_run_id c =? run_id) && (partition_of count (cd_canonical_key c) =? number)) (jt_candidates q)).

Definition this_partition (run_id number : Z) (p : PartitionRow) : bool := (pt_run_id p =? run_id) && (pt_number p =? number).
Definition started_partition (now : Z) (worker_id : text) (p : PartitionRow) : PartitionRow :=
  mkPartitionRow (pt_run_id p) (pt_number p) "processing" (pt_key_count p) (pt_completed_keys p) (pt_attempts p + 1) (Some worker_id)
    (pt_completed_at p) now.
Definition finished_partition (now : Z) (p : PartitionRow) : PartitionRow :=
  mkPartitionRow (pt_run_id p) (pt_number p) "succeeded" (pt_key_count p) (pt_key_count p) (pt_attempts p) (pt_worker_id p) (Some now) now.
Definition update_partition (run_id number : Z) (f : PartitionRow -> PartitionRow) (q : JobTables) : JobTables :=
  set_partitions q (List.map (fun p => if this_partition run_id number p then f p else p) (jt_partitions q)).
Definition count_completed (now run_id : Z) (q : JobTables) : JobTables :=
  let completed := foldr Z.add 0 (List.map pt_completed_keys (List.filter (fun p => pt_run_id p =? run_id) (jt_partitions q))) in
  set_runs q (List.map (fun r => if rn_id r =? run_id then
      mkRunRow (rn_id r) (rn_provider_account_id r) (rn_source_snapshot_id r) (rn_parent_job_id r) (rn_status r) (rn_partition_count r)
        (rn_total_keys r) completed (rn_created_at r) (rn_published_at r) now else r) (jt_runs q)) (jt_candidates q) (jt_candidate_streams q).

(** [process_provider_reconciliation_partition_inner] *)
Definition process_provider_reconciliation_partition (env : PublishEnv) (run_id partition_number : Z) (worker_id : text) (job_id : option Z)
  (db : Catalog) : result (Catalog * ProviderReconciliationPartitionResult) PersistenceError :=
  let now := qe_now (pe_queue env) in
  let q := ca_queue db in
  let refused := match job_id with Some job => matched (fun r => has_id job r && owned worker_id r) q =? 0 | None => false end in
  if refused then Err (JobOwnership (default 0 job_id) worker_id)
  else
    match List.find (this_partition run_id partition_number) (jt_partitions q), find_run run_id q with
    | Some partition, Some run =>
        match List.find (fun r => sr_id r =? rn_source_snapshot_id run) (db_snapshots (ca_store db)) with
        | None => Err (InvalidSource "reconciliation partition was not found")
        | Some snapshot =>
            let answer := mkPartitionResult run_id partition_number (pt_key_count partition) (pt_key_count partition) in
            if bool_decide (pt_status partition = "succeeded") then Ok (db, answer true)
            else if negb (bool_decide (rn_status run = "processing")) || negb (bool_decide (sr_status snapshot = StatusStaging)) ||
                    bool_decide (sr_staged_at snapshot = None)
            then Err (InvalidSource "reconciliation run is not ready for partition work")
            else
              let q1 := update_partition run_id partition_number (started_partition now worker_id) q in
              let q2 := prepare_candidates run_id (rn_partition_count run) partition_number
                          (supported_streams (rn_source_snapshot_id run) (ca_store db)) q1 in
              if negb (candidate_count run_id (rn_partition_count run) partition_number q2 =? pt_key_count partition)
              then Err (InvalidSource "reconciliation candidate count does not match its partition")
              else
                let q3 := update_partition run_id partition_number (finished_partition now) q2 in
                commit (with_queue db (count_completed now run_id q3)) (answer false)
        end
    | _, _ => Err (InvalidSource "reconciliation partition was not found")
    end.

(** ** Channels and links of the candidates *)

(** [provider_account_id = account AND managed_by = 'automatic'] *)
Definition automatic_of (account_id : Z) (c : CanonicalChannel) : bool :=
  bool_decide (cc_provider_account_id c = Some account_id) && bool_decide (cc_managed_by c = Automatic).
Definition existing_channel (account_id : Z) (key : text) (channels : list CanonicalChannel) : option CanonicalChannel :=
  List.find (fun c => bool_decide (canonical_index c = Some (account_id, key))) channels.

Definition run_candidates (run_id : Z) (q : JobTables) : list CandidateRow := List.filter (fun c => cd_run_id c =? run_id) (jt_candidates q).
(** [preferred_rank = 1] *)
Definition preferred_first (candidates : list CandidateRow) (c : CandidateRow) : bool :=
  negb (existsb (fun d => bool_decide (cd_preferred_number d = cd_preferred_number c) &&
                          collates (cd_canonical_key d) (cd_canonical_key c)) candidates).
Definition effective_enabled (channels : list CanonicalChannel) (existing : option CanonicalChannel) (group_name : option text) : bool :=
  match existing, group_name with
  | Some c, _ => cc_enabled c
  | None, Some group =>
      existsb (fun c => bool_decide (cc_group_name c = Some group) && cc_enabled c) channels ||
      negb (existsb (fun c => bool_decide (cc_group_name c = Some group)) channels)
  | None, None => true
  end.
Definition assigned_number (channels : list CanonicalChannel) (candidates : list CandidateRow) (c : CandidateRow)
  (existing : option CanonicalChannel) (drawn : text) : text :=
  let occupied number :=
    existsb (fun o => bool_decide (cc_channel_number o = number) &&
                      match existing with Some e => negb (cc_id o =? cc_id e) | None => true end) channels in
  let other := match existing with Some e => cc_channel_number e | None => drawn end in
  match cd_preferred_number c with
  | Some number => if preferred_first candidates c && negb (occupied number) then number else other
  | None => other
  end.

(** A row of [channel_rows] *)
Definition channel_row (account_id : Z) (env : PublishEnv) (channels : list CanonicalChannel) (candidates : list CandidateRow) (index : nat)
  (c : CandidateRow) : CanonicalChannel :=
  let existing := existing_channel account_id (cd_canonical_key c) channels in
  mkCanonicalChannel (match existing with Some e => cc_id e | None => channel_uuid account_id (cd_canonical_key c) end)
    (assigned_number channels candidates c existing (pe_number env index)) (cd_name c) (cd_group_name c) (cd_logo_url c)
    (effective_enabled channels existing (cd_group_name c)) Automatic (Some account_id) (Some (cd_canonical_key c)) 1.
Definition titled (c : CanonicalChannel) : text * option text * option text := (cc_name c, cc_group_name c, cc_logo_url c).
Definition retitled (c row : CanonicalChannel) : CanonicalChannel :=
  mkCanonicalChannel (cc_id c) (cc_channel_number c) (cc_name row) (cc_group_name row) (cc_logo_url row) (cc_enabled c) (cc_managed_by c)
    (cc_provider_account_id c) (cc_canonical_key c) (cc_revision c + 1).
(** [WHERE existing_id IS NULL OR .. IS DISTINCT FROM ..] *)
Definition proposed (account_id : Z) (channels : list CanonicalChannel) (row : CanonicalChannel) : bool :=
  match cc_canonical_key row ≫= (fun key => existing_channel account_id key channels) with
  | Some e => negb (bool_decide (titled e = titled row))
  | None => true
  end.
(** [ON CONFLICT (id) DO UPDATE SET .. WHERE .. IS DISTINCT FROM ..] *)
Definition upsert_channel (channels : list CanonicalChannel) (row : CanonicalChannel) : list CanonicalChannel :=
  if existsb (fun c => cc_id c =? cc_id row) channels
  then List.map (fun c => if (cc_id c =? cc_id row) && negb (bool_decide (titled c = titled row)) then retitled c row else c) channels
  else channels ++ [row].
Definition affects (channels : list CanonicalChannel) (row : CanonicalChannel) : bool :=
  match List.find (fun c => cc_id c =? cc_id row) channels with Some c => negb (bool_decide (titled c = titled row)) | None => true end.

(** [upsert_candidate_channels]; a statement cannot change a row twice. *)
Definition upsert_candidate_channels (env : PublishEnv) (account_id run_id : Z) (db : Catalog)
  : result (Catalog * Z) PersistenceError :=
  let candidates := run_candidates run_id (ca_queue db) in
  let rows := List.filter (proposed account_id (ca_channels db))
                (imap (channel_row account_id env (ca_channels db) candidates) candidates) in
  if negb (bool_decide (NoDup (cc_id <$> rows))) then Err DatabaseFailed
  else
    match statement (with_channels db (fold_left upsert_channel rows (ca_channels db)) (ca_links db) (ca_mappings db)) with
    | Err e => Err e
    | Ok db' => Ok (db', zlen (List.filter (affects (ca_channels db)) rows))
    end.

(** [remove_stale_candidate_channel_stream_links] *)
Definition on_automatic (account_id : Z) (channels : list CanonicalChannel) (l : StreamLink) : bool :=
  existsb (fun c => (cc_id c =? ln_channel_id l) && automatic_of account_id c) channels.
Definition set_priority (l : StreamLink) (priority : Z) (evidence : Value) : StreamLink :=
  mkStreamLink (ln_channel_id l) (ln_provider_stream_id l) priority evidence.
Definition is_candidate_link (run_id : Z) (q : JobTables) (key : text) (stream_id : Z) : bool :=
  existsb (fun s => (cn_run_id s =? run_id) && bool_decide (cn_canonical_key s = key) && (cn_provider_stream_id s =? stream_id))
    (jt_candidate_streams q).
Definition stale_link (account_id run_id : Z) (db : Catalog) (l : StreamLink) : bool :=
  existsb (fun c => (cc_id c =? ln_channel_id l) && automatic_of account_id c &&
                    negb match cc_canonical_key c with
                         | Some key => is_candidate_link run_id (ca_queue db) key (ln_provider_stream_id l)
                         | None => false
                         end) (ca_channels db).
Definition remove_stale_candidate_channel_stream_links (account_id run_id : Z) (db : Catalog) : result (Catalog * Z) PersistenceError :=
  let moved := List.map (fun l => if on_automatic account_id (ca_channels db) l then set_priority l (ln_priority l + 1000000) (ln_evidence l) else l)
                 (ca_links db) in
  match statement (with_channels db (ca_channels db) moved (ca_mappings db)) with
  | Err e => Err e
  | Ok db1 =>
      match statement (with_channels db1 (ca_channels db1) (List.filter (fun l => negb (stale_link account_id run_id db1 l)) (ca_links db1))
                         (ca_mappings db1)) with
      | Err e => Err e
      | Ok db2 => Ok (db2, zlen (List.filter (stale_link account_id run_id db1) (ca_links db1)))
      end
  end.

(** [upsert_candidate_channel_stream_links]: the streams of a channel by
    identifier *)
Definition candidate_links (account_id run_id : Z) (evidence : Value) (db : Catalog) : list StreamLink :=
  List.concat (List.map (fun c =>
    match cc_canonical_key c with
    | Some key =>
        imap (fun i stream_id => mkStreamLink (cc_id c) stream_id (Z.of_nat i) evidence)
          (stable_sort Z.ltb (remove_dups (List.map cn_provider_stream_id
             (List.filter (fun s => (cn_run_id s =? run_id) && bool_decide (cn_canonical_key s = key)) (jt_candidate_streams (ca_queue db))))))
    | None => []
    end) (List.filter (automatic_of account_id) (ca_channels db))).
Definition same_link (a b : StreamLink) : bool := (ln_channel_id a =? ln_channel_id b) && (ln_provider_stream_id a =? ln_provider_stream_id b).
Definition upsert_link (links : list StreamLink) (row : StreamLink) : list StreamLink :=
  if existsb (same_link row) links
  then List.map (fun l => if same_link row l then set_priority l (ln_priority row) (ln_evidence row) else l) links
  else links ++ [row].
Definition link_changes (links : list StreamLink) (row : StreamLink) : bool :=
  match List.find (same_link row) links with
  | Some l => negb ((ln_priority l =? ln_priority row) && bool_decide (ln_evidence l = ln_evidence row))
  | None => true
  end.
Definition upsert_candidate_channel_stream_links (env : PublishEnv) (account_id run_id : Z) (db : Catalog)
  : result (Catalog * Z) PersistenceError :=
  let evidence := JObject [(str "reconciled", JString (time_text (qe_now (pe_queue env)))); (str "runId", JString (uuid_text run_id))] in
  let rows := candidate_links account_id run_id evidence db in
  match statement (with_channels db (ca_channels db) (fold_left upsert_link rows (ca_links db)) (ca_mappings db)) with
  | Err e => Err e
  | Ok db' => Ok (db', zlen (List.filter (link_changes (ca_links db)) rows))
  end.

(** [remove_candidate_orphaned_channels]; the links and mappings of a channel go
    with it. *)
Definition delete_channels (p : CanonicalChannel -> bool) (db : Catalog) : Catalog :=
  let gone id := existsb (fun c => (cc_id c =? id) && p c) (ca_channels db) in
  with_channels db (List.filter (fun c => negb (p c)) (ca_channels db)) (List.filter (fun l => negb (gone (ln_channel_id l))) (ca_links db))
    (List.filter (fun m => negb (gone (em_channel_id m))) (ca_mappings db)).
Definition orphaned_channel (account_id run_id : Z) (q : JobTables) (c : CanonicalChannel) : bool :=
  automatic_of account_id c &&
  negb (existsb (fun d => bool_decide (cc_canonical_key c = Some (cd_canonical_key d))) (run_candidates run_id q)).
Definition remove_candidate_orphaned_channels (account_id run_id : Z) (db : Catalog) : Catalog * Z :=
  let p := orphaned_channel account_id run_id (ca_queue db) in (delete_channels p db, zlen (List.filter p (ca_channels db))).

(** ** Revisions *)

(** [capture_reconciliation_snapshot], [current_reconciliation_revision] and
    [record_reconciliation_revision]; a snapshot is stored as JSON and read back
    as it was. *)
Definition captured_channel (c : CanonicalChannel) : SnapshotChannel :=
  mkSnapshotChannel (cc_id c) (cc_channel_number c) (cc_name c) (cc_group_name c) (cc_logo_url c) (cc_enabled c) (cc_canonical_key c).
Definition captured_mapping (m : EpgMapping) : SnapshotEpgMapping :=
  mkSnapshotEpgMapping (em_channel_id m) (em_epg_channel_id m) (em_method m) (em_confidence m) (em_evidence m) (em_review_status m)
    (em_reviewed_by m) (em_reviewed_at m).
Definition link_before (a b : StreamLink) : bool :=
  (ln_channel_id a <? ln_channel_id b) || ((ln_channel_id a =? ln_channel_id b) && (ln_provider_stream_id a <? ln_provider_stream_id b)).
Definition capture_reconciliation_snapshot (account_id : Z) (db : Catalog) : ReconciliationSnapshot :=
  let channels := stable_sort (fun a b => cc_id a <? cc_id b) (List.filter (automatic_of account_id) (ca_channels db)) in
  let ids := List.map cc_id channels in
  mkReconciliationSnapshot (List.map captured_channel channels)
    (stable_sort link_before (List.filter (fun l => bool_decide (ln_channel_id l ∈ ids)) (ca_links db)))
    (List.map captured_mapping
       (stable_sort (fun a b => em_channel_id a <? em_channel_id b) (List.filter (fun m => bool_decide (em_channel_id m ∈ ids)) (ca_mappings db)))).
Definition current_reconciliation_revision (account_id : Z) (db : Catalog) : Z :=
  foldr Z.max 0 (List.map rv_revision (List.filter (fun r => rv_account_id r =? account_id) (ca_revisions db))).

(** ** The finalizer *)

Definition stopped_run (run_id : Z) (now : Z) (p : RunRow -> bool) (q : JobTables) : JobTables :=
  delete_candidates run_id (update_runs (fun r => (rn_id r =? run_id) && p r) now "cancelled" q).
Definition published_run (now : Z) (r : RunRow) : RunRow :=
  mkRunRow (rn_id r) (rn_provider_account_id r) (rn_source_snapshot_id r) (rn_parent_job_id r) "published" (rn_partition_count r)
    (rn_total_keys r) (rn_total_keys r) (rn_created_at r) (Some now) now.
Definition publish_run (now run_id : Z) (q : JobTables) : JobTables :=
  let q := delete_candidates run_id q in
  set_runs q (List.map (fun r => if (rn_id r =? run_id) && bool_decide (rn_status r = "processing") then published_run now r else r) (jt_runs q))
    (jt_candidates q) (jt_candidate_streams q).

Definition newer_active (account_id : Z) (snapshot : SnapshotRow) (store : Database) : bool :=
  existsb (fun r => bool_decide (sr_provider_account_id r = Some account_id) && bool_decide (sr_kind r = sr_kind snapshot) &&
                    bool_decide (sr_status r = StatusActive) &&
                    ((fetched_at (sr_id snapshot) <? fetched_at (sr_id r)) ||
                     ((fetched_at (sr_id r) =? fetched_at (sr_id snapshot)) && (sr_id snapshot <? sr_id r)))) (db_snapshots store).
Definition active_of_account (account_id snapshot_id : Z) (r : SnapshotRow) : bool :=
  bool_decide (sr_provider_account_id r = Some account_id) && provider_kind (sr_kind r) && bool_decide (sr_status r = StatusActive) &&
  negb (sr_id r =? snapshot_id).
Definition activate_snapshot (now account_id snapshot_id : Z) (store : Database) : Database :=
  let store := set_snapshot_status (active_of_account account_id snapshot_id) StatusSuperseded store in
  set_snapshots store (List.map (fun r => if staging_snapshot snapshot_id r
    then set_row_times (set_row_status r StatusActive) (sr_staged_at r) (Some now) else r) (db_snapshots store)).

(** The part of [finalize_provider_reconciliation_inner] that publishes *)
Definition publish_candidates (env : PublishEnv) (account_id snapshot_id run_id : Z) (db : Catalog) : result (Catalog * ReconcileStats) PersistenceError :=
  let before := capture_reconciliation_snapshot account_id db in
  let revision := current_reconciliation_revision account_id db in
  match upsert_candidate_channels env account_id run_id db with
  | Err e => Err e
  | Ok (db, channel_count) =>
      match remove_stale_candidate_channel_stream_links account_id run_id db with
      | Err e => Err e
      | Ok (db, stale_link_count) =>
          match upsert_candidate_channel_stream_links env account_id run_id db with
          | Err e => Err e
          | Ok (db, linked_count) =>
              let '(db, orphans_removed) := remove_candidate_orphaned_channels account_id run_id db in
              if negb (zlen (List.filter (staging_snapshot snapshot_id) (db_snapshots (ca_store db))) =? 1)
              then Err (InvalidSource "staged provider snapshot was not activatable")
              else
                let db := with_store db (activate_snapshot (qe_now (pe_queue env)) account_id snapshot_id (ca_store db)) in
                let db := with_revision db (mkRevisionRow account_id (revision + 1) (str "system") before (capture_reconciliation_snapshot account_id db)) in
                let db := with_queue db (publish_run (qe_now (pe_queue env)) run_id (ca_queue db)) in
                commit db (mkReconcileStats channel_count orphans_removed (Z.min i64_max (stale_link_count + linked_count)))
          end
      end
  end.

(** [finalize_provider_reconciliation_inner] *)
Definition finalize_provider_reconciliation (env : PublishEnv) (run_id parent_job_id finalizer_job_id : Z) (worker_id : option text)
  (db : Catalog) : result (Catalog * ProviderReconciliationFinalization) PersistenceError :=
  let now := qe_now (pe_queue env) in
  let q := ca_queue db in
  match refresh_parent parent_job_id q with
  | None => Err (JobNotFound parent_job_id)
  | Some parent =>
      if negb (bool_decide (jb_status parent = JobRunning)) then
        commit (with_queue db (stopped_run run_id now stop_run (stop_finalizer now finalizer_job_id q))) FinalizeCancelled
      else
        match List.find (owned_finalizer finalizer_job_id worker_id) (jt_jobs q) with
        | None => Err (JobNotFound finalizer_job_id)
        | Some finalizer =>
            if bool_decide (jb_status finalizer = JobCancelled) then Ok (db, FinalizeCancelled)
            else
              match find_run run_id q with
              | None => Err (InvalidSource "reconciliation run was not found")
              | Some run =>
                  let account_id := rn_provider_account_id run in
                  let snapshot_id := rn_source_snapshot_id run in
                  match List.find (fun r => (sr_id r =? snapshot_id) && bool_decide (sr_provider_account_id r = Some account_id))
                          (db_snapshots (ca_store db)) with
                  | None => Err (InvalidSource "staged provider snapshot was not found")
                  | Some snapshot =>
                      if bool_decide (rn_status run = "published") then Ok (db, AlreadyPublished)
                      else if negb (bool_decide (rn_status run = "processing"))
                      then Err (InvalidSource "reconciliation run is not ready for publication")
                      else if existsb (fun p => (pt_run_id p =? run_id) && negb (bool_decide (pt_status p = "succeeded"))) (jt_partitions q)
                      then match provider_reconciliation_progress run_id q with
                           | Some progress => Ok (db, Pending progress)
                           | None => Err (InvalidSource "reconciliation run was not found")
                           end
                      else
                        let db := with_queue db (flag_jobs now parent_job_id finalizer_job_id q) in
                        if negb (provider_kind (sr_kind snapshot)) || negb (bool_decide (sr_status snapshot = StatusStaging)) ||
                           bool_decide (sr_staged_at snapshot = None)
                        then Err (InvalidSource "staged provider snapshot is not ready for publication")
                        else if newer_active account_id snapshot (ca_store db) then
                          let db := with_store db (set_snapshot_status (staging_snapshot snapshot_id) StatusSuperseded (ca_store db)) in
                          commit (with_queue db (stopped_run run_id now (fun r => bool_decide (rn_status r = "processing")) (ca_queue db)))
                            Superseded
                        else if negb (zlen (List.filter (fun r => st_snapshot_id r =? snapshot_id) (db_streams (ca_store db))) =? sr_record_count snapshot)
                        then Err (InvalidSource "staged provider snapshot record count does not match its streams")
                        else if negb (zlen (run_candidates run_id (ca_queue db)) =? rn_total_keys run)
                        then Err (InvalidSource "reconciliation candidates are incomplete")
                        else
                          match publish_candidates env account_id snapshot_id run_id db with
                          | Err e => Err e
                          | Ok (db, stats) => Ok (db, Published stats)
                          end
                  end
              end
        end
  end.

(** ** Roll-back *)

(** A channel that other tables refer to leaves the provider *)
Definition detached (c : CanonicalChannel) : CanonicalChannel :=
  mkCanonicalChannel (cc_id c) (cc_channel_number c) (cc_name c) (cc_group_name c) (cc_logo_url c) false Manual None None (cc_revision c + 1).
Definition restored_channel (account_id : Z) (number : text) (revision : Z) (c : SnapshotChannel) : CanonicalChannel :=
  mkCanonicalChannel (sc_id c) number (sc_name c) (sc_group_name c) (sc_logo_url c) (sc_enabled c) Automatic (Some account_id)
    (sc_canonical_key c) revision.
Definition restore_channel (account_id : Z) (drawn : text) (channels : list CanonicalChannel) (c : SnapshotChannel) : list CanonicalChannel :=
  let taken := existsb (fun o => bool_decide (cc_channel_number o = sc_channel_number c) && negb (cc_id o =? sc_id c)) channels in
  let number := if taken then drawn else sc_channel_number c in
  if existsb (fun o => cc_id o =? sc_id c) channels
  then List.map (fun o => if cc_id o =? sc_id c then restored_channel account_id number (cc_revision o) c else o) channels
  else channels ++ [restored_channel account_id number 1 c].
Definition restored_mapping (m : SnapshotEpgMapping) : EpgMapping :=
  mkEpgMapping (sm_channel_id m) (sm_epg_channel_id m) (sm_method m) (sm_confidence m) (sm_evidence m) (sm_review_status m) (sm_reviewed_by m)
    (sm_reviewed_at m) 1.
(** [ON CONFLICT (channel_id) DO UPDATE] *)
Definition upsert_mapping (mappings : list EpgMapping) (m : SnapshotEpgMapping) : list EpgMapping :=
  let row o := mkEpgMapping (sm_channel_id m) (sm_epg_channel_id m) (sm_method m) (sm_confidence m) (sm_evidence m) (sm_review_status m)
                 (sm_reviewed_by m) (sm_reviewed_at m) (em_revision o + 1) in
  if existsb (fun o => em_channel_id o =? sm_channel_id m) mappings
  then List.map (fun o => if em_channel_id o =? sm_channel_id m then row o else o) mappings
  else mappings ++ [restored_mapping m].

(** The three loops; every statement is checked. *)
Definition restore_row (account_id : Z) (env : PublishEnv) (row : nat * SnapshotChannel) (db : Catalog) : Catalog :=
  with_channels db (restore_channel account_id (pe_number env row.1) (ca_channels db) row.2) (ca_links db) (ca_mappings db).
Definition restore_link (l : StreamLink) (db : Catalog) : Catalog :=
  with_channels db (ca_channels db) (upsert_link (ca_links db) l) (ca_mappings db).
Definition restore_mapping (m : SnapshotEpgMapping) (db : Catalog) : Catalog :=
  with_channels db (ca_channels db) (ca_links db) (upsert_mapping (ca_mappings db) m).

Record ReconciliationRollbackStats := mkRollbackStats {
  rb_target_revision : Z; rb_channels_removed : Z; rb_channels_restored : Z; rb_stream_links_restored : Z; rb_epg_mappings_restored : Z }.

(** [rollback_reconciliation]; [referenced] says which channels the other tables
    refer to. *)
Definition rollback_reconciliation (env : PublishEnv) (referenced : Z -> bool) (account_id target_revision : Z) (actor : text) (db : Catalog)
  : result (Catalog * ReconciliationRollbackStats) PersistenceError :=
  match List.find (fun r => (rv_account_id r =? account_id) && (rv_revision r =? target_revision)) (ca_revisions db) with
  | None => Err (ReconciliationRevisionNotFound account_id target_revision)
  | Some target =>
      let snapshot := rv_after_value target in
      let before := capture_reconciliation_snapshot account_id db in
      let ids := List.map sc_id (rs_channels snapshot) in
      let outside c := automatic_of account_id c && negb (bool_decide (cc_id c ∈ ids)) in
      let removed := List.filter (fun c => outside c && negb (referenced (cc_id c))) (ca_channels db) in
      let db1 := with_channels db (List.map (fun c => if outside c && referenced (cc_id c) then detached c else c) (ca_channels db))
                   (ca_links db) (ca_mappings db) in
      let db2 := delete_channels outside db1 in
      let db3 := with_channels db2 (ca_channels db2) (List.filter (fun l => negb (bool_decide (ln_channel_id l ∈ ids))) (ca_links db2))
                   (List.filter (fun m => negb (bool_decide (em_channel_id m ∈ ids))) (ca_mappings db2)) in
      match statements (restore_row account_id env) (imap pair (rs_channels snapshot)) db3 with
      | Err e => Err e
      | Ok db4 =>
          match statements restore_link (rs_stream_links snapshot) db4 with
          | Err e => Err e
          | Ok db5 =>
              match statements restore_mapping (rs_epg_mappings snapshot) db5 with
              | Err e => Err e
              | Ok db6 =>
                  let revision := current_reconciliation_revision account_id db6 in
                  commit (with_revision db6 (mkRevisionRow account_id (revision + 1) actor before (capture_reconciliation_snapshot account_id db6)))
                    (mkRollbackStats target_revision (zlen removed) (zlen (rs_channels snapshot)) (zlen (rs_stream_links snapshot))
                       (zlen (rs_epg_mappings snapshot)))
              end
          end
      end
  end.
End Publish.
