(* ===== verification/PublishSpec.v ===== *)
(** * What a publication shows

    Whatever the number of partitions, and in whatever order and however often
    the workers prepare them, a run that is published gives the account exactly
    the channels and the links of the supported streams of its snapshot. *)
From Stdlib Require Import ZArith Lia.
From stdpp Require Import base numbers option strings.
From stdpp Require Import list.
From S2P Require Import Prelude Text Sort F32 Events Settings Redact Xtream Ingest Store Jobs JobsSpec Publish.
Open Scope Z_scope.
Open Scope relay_scope.

Section Spec.
Context (json_text : Value -> text) (uuid_text time_text : Z -> text) (parse_uuid : text -> option Z) (fetched_at : Z -> Z).
Context (hash : text -> Z) (collates : text -> text -> bool) (channel_uuid : Z -> text -> Z).
Abbreviation partition_of := (partition_of hash).
Abbreviation commit := (commit json_text).
Abbreviation queue_op := (queue_op json_text uuid_text parse_uuid).
Abbreviation create_or_load := (create_or_load_provider_reconciliation_run json_text uuid_text hash).
Abbreviation process_partition := (process_provider_reconciliation_partition json_text hash).
Abbreviation finalize := (finalize_provider_reconciliation json_text uuid_text time_text fetched_at collates channel_uuid).
Abbreviation rollback := (rollback_reconciliation json_text).
Abbreviation publish_candidates := (publish_candidates json_text uuid_text time_text collates channel_uuid).

(** ** Partitions *)

Lemma partition_range count key : 0 < count -> 0 <= partition_of count key < count.
Proof.
  intros Hc. unfold Publish.partition_of. pose proof (Z.rem_bound_abs (hash key) count ltac:(lia)).
  apply Z.rem_bound_pos; lia.
Qed.

Lemma in_keys key streams : key ∈ canonical_keys streams <-> exists s, s ∈ streams /\ canonical_key s = key.
Proof.
  unfold canonical_keys. rewrite elem_of_remove_dups, list_elem_of_In, in_map_iff. setoid_rewrite list_elem_of_In. naive_solver.
Qed.

Lemma of_key_partition count number key streams :
  partition_of count key = number -> of_key key (partition_streams hash count number streams) = of_key key streams.
Proof.
  intros Hp. unfold of_key, partition_streams. induction streams as [|s streams IH]; [done|]. cbn.
  destruct (Z.eqb_spec (partition_of count (canonical_key s)) number) as [E|E]; cbn; [by rewrite IH|].
  rewrite IH. by rewrite bool_decide_false by congruence.
Qed.
Lemma grouped_partition run count number key streams :
  partition_of count key = number -> grouped run (partition_streams hash count number streams) key = grouped run streams key.
Proof. intros Hp. unfold grouped. by rewrite (of_key_partition _ _ _ _ Hp). Qed.

(** Rows that replace those with the same key, one after another *)
Lemma upserts_elem {A K} (key : A -> K) (upsert : list A -> A -> list A) :
  (forall rows c x, x ∈ upsert rows c <-> x = c \/ x ∈ rows /\ key x <> key c) ->
  forall news rows x, NoDup (key <$> news) -> x ∈ fold_left upsert news rows <-> x ∈ news \/ x ∈ rows /\ key x ∉ (key <$> news).
Proof.
  intros Hup. induction news as [|c news IH]; intros rows x Hnd; cbn.
  { split; [intros H; right; split; [done|by intros ?%elem_of_nil]|]. intros [H|[H _]]; [by apply elem_of_nil in H|done]. }
  cbn in Hnd. inversion_clear Hnd as [|? ? Hc Hnd']. rewrite (IH _ _ Hnd'), Hup, elem_of_cons, not_elem_of_cons. split.
  - intros [?|[[->|[Hx Hs]] Hall]]; [by left; right|by left; left|right; by split_and!].
  - intros [[->|Hx]|[Hx [Hne Hall]]]; [|by left|]; right; (split; [|done]); [by left|by right].
Qed.

(** The tables of candidates after the two statements *)
Definition candidate_key (c : CandidateRow) : Z * text := (cd_run_id c, cd_canonical_key c).
Lemma same_candidate_iff a b : same_candidate a b = true <-> cd_run_id a = cd_run_id b /\ cd_canonical_key a = cd_canonical_key b.
Proof. unfold same_candidate. by rewrite andb_true_iff, Z.eqb_eq, bool_decide_eq_true. Qed.
Lemma upsert_candidate_in rows c x :
  x ∈ upsert_candidate rows c <-> x = c \/ x ∈ rows /\ candidate_key x <> candidate_key c.
Proof.
  assert (forall y, same_candidate c y = false <-> candidate_key y <> candidate_key c) as Hneg.
  { intros y. rewrite <- not_true_iff_false, same_candidate_iff. unfold candidate_key.
    split; [intros H [= ? ?]; by apply H|intros H [? ?]; apply H; congruence]. }
  unfold upsert_candidate. destruct (existsb (same_candidate c) rows) eqn:He.
  - rewrite elem_mapped. split.
    + intros (y & -> & Hy). destruct (same_candidate c y) eqn:E; [by left|right; by rewrite <- Hneg].
    + intros [->|[Hx Hn]].
      * apply existsb_exists in He as (y & Hy & Hs). exists y. rewrite Hs. split; [done|by apply list_elem_of_In].
      * exists x. by rewrite (proj2 (Hneg x) Hn).
  - rewrite elem_of_app, list_elem_of_singleton. split; [|tauto]. intros [Hx| ->]; [|by left]. right. split; [done|]. apply Hneg.
    destruct (same_candidate c x) eqn:E; [|done]. assert (existsb (same_candidate c) rows = true) as H; [|congruence].
    apply existsb_exists. exists x. split; [by apply list_elem_of_In|done].
Qed.
Lemma same_stream_iff a b : same_candidate_stream a b = true <-> a = b.
Proof.
  unfold same_candidate_stream. rewrite !andb_true_iff, !Z.eqb_eq, bool_decide_eq_true. destruct a, b. cbn. naive_solver.
Qed.
Lemma insert_streams_in news rows x : x ∈ fold_left insert_candidate_stream news rows <-> x ∈ news \/ x ∈ rows.
Proof.
  revert rows. induction news as [|c news IH]; intros rows; cbn.
  { split; [by right|intros [H|H]; [by apply elem_of_nil in H|done]]. }
  rewrite IH, elem_of_cons. unfold insert_candidate_stream. destruct (existsb _ rows) eqn:He.
  - split; [tauto|]. intros [[->|?]|?]; [right|by left|by right]. apply existsb_exists in He as (y & Hy & Hs%same_stream_iff). subst y. by apply list_elem_of_In.
  - rewrite elem_of_app, list_elem_of_singleton. naive_solver.
Qed.

Lemma keys_NoDup streams : NoDup (canonical_keys streams).
Proof. apply NoDup_remove_dups. Qed.
Lemma grouped_rows_NoDup run streams streams' :
  NoDup (candidate_key <$> List.map (grouped run streams') (canonical_keys streams)).
Proof.
  change (NoDup (candidate_key <$> (grouped run streams' <$> canonical_keys streams))). rewrite <- list_fmap_compose.
  apply NoDup_fmap_2; [intros a b [= ?]; done|apply keys_NoDup].
Qed.

Lemma prepare_candidates_in run count number streams q c :
  0 < count ->
  c ∈ jt_candidates (prepare_candidates hash run count number streams q) <->
  (exists key, key ∈ canonical_keys streams /\ partition_of count key = number /\ c = grouped run streams key) \/
  c ∈ jt_candidates q /\ ~ (cd_run_id c = run /\ cd_canonical_key c ∈ canonical_keys streams /\ partition_of count (cd_canonical_key c) = number).
Proof.
  intros Hcount. unfold prepare_candidates. cbn [jt_candidates set_runs].
  rewrite (upserts_elem candidate_key upsert_candidate upsert_candidate_in) by apply grouped_rows_NoDup.
  assert (forall key, key ∈ canonical_keys (partition_streams hash count number streams) <->
            key ∈ canonical_keys streams /\ partition_of count key = number) as Hkeys.
  { intros key. rewrite !in_keys. unfold partition_streams. setoid_rewrite elem_filtered. setoid_rewrite Z.eqb_eq. naive_solver. }
  rewrite list_elem_of_fmap. setoid_rewrite elem_mapped. split.
  - intros [(key & -> & [Hk Hp]%Hkeys)|[Hc Hall]].
    + left. exists key. split_and!; [done|done|]. by apply grouped_partition.
    + right. split; [done|]. intros (Hr & Hk & Hp). apply Hall. exists (grouped run (partition_streams hash count number streams) (cd_canonical_key c)).
      split; [unfold candidate_key; by rewrite Hr|]. eexists. split; [done|]. by apply Hkeys.
  - intros [(key & Hk & Hp & ->)|[Hc Hn]].
    + left. exists key. split; [by rewrite grouped_partition|by apply Hkeys].
    + right. split; [done|]. intros (d & Hd & key & -> & [Hk Hp]%Hkeys). injection Hd as E1 E2. apply Hn. by rewrite E1, E2.
Qed.
Lemma prepare_streams_in run count number streams q x :
  x ∈ jt_candidate_streams (prepare_candidates hash run count number streams q) <->
  (exists s, s ∈ streams /\ partition_of count (canonical_key s) = number /\ x = mkCandidateStream run (canonical_key s) (ps_id s)) \/
  x ∈ jt_candidate_streams q.
Proof.
  unfold prepare_candidates. cbn [jt_candidate_streams set_runs]. rewrite insert_streams_in, elem_mapped. unfold partition_streams.
  setoid_rewrite elem_filtered. setoid_rewrite Z.eqb_eq. naive_solver.
Qed.

(** ** The queue and the runs *)

(** The columns of a run that never change *)
Definition same_run (r r' : RunRow) : Prop :=
  rn_id r' = rn_id r /\ rn_source_snapshot_id r' = rn_source_snapshot_id r /\ rn_partition_count r' = rn_partition_count r.

(** What the methods of the queue do to the tables of a run: they can only stop
    it, and drop its candidates with it. *)
Definition run_effect (q q' : JobTables) : Prop :=
  exists (h : RunRow -> RunRow) (kept : Z -> bool),
    jt_runs q' = List.map h (jt_runs q) /\ (forall r, same_run r (h r)) /\ jt_partitions q' = jt_partitions q /\
    jt_candidates q' = List.filter (fun c => kept (cd_run_id c)) (jt_candidates q) /\
    jt_candidate_streams q' = List.filter (fun c => kept (cn_run_id c)) (jt_candidate_streams q) /\
    forall r, r ∈ jt_runs q -> h r = r /\ kept (rn_id r) = true \/ rn_id (h r) = rn_id r /\ rn_status (h r) <> "processing"%string.
Definition same_runs (q q' : JobTables) : Prop :=
  jt_runs q' = jt_runs q /\ jt_partitions q' = jt_partitions q /\ jt_candidates q' = jt_candidates q /\
  jt_candidate_streams q' = jt_candidate_streams q.

Lemma same_runs_effect q q' : same_runs q q' -> run_effect q q'.
Proof.
  intros (H1 & H2 & H3 & H4). exists (fun r => r), (fun _ => true). rewrite map_id, !kept_all by done. split_and!; try done. by left.
Qed.
Lemma update_runs_effect q q' p now status :
  status <> "processing"%string ->
  jt_runs q' = jt_runs (update_runs p now status q) -> jt_partitions q' = jt_partitions q -> jt_candidates q' = jt_candidates q ->
  jt_candidate_streams q' = jt_candidate_streams q -> run_effect q q'.
Proof.
  intros Hs H1 H2 H3 H4. exists (fun r => if p r then set_run_status r status now else r), (fun _ => true). rewrite !kept_all by done.
  split_and!; try done; intros r; [destruct (p r); by split_and!|]. intros _. destruct (p r); [right|left]; done.
Qed.

Lemma insert_entry_runs e q : same_runs q (insert_entry e q).
Proof. unfold insert_entry, same_runs. by case_bool_decide. Qed.
Lemma same_runs_trans q1 q2 q3 : same_runs q1 q2 -> same_runs q2 q3 -> same_runs q1 q3.
Proof. unfold same_runs. intuition congruence. Qed.
Lemma queue_partitions_runs env run source parent count q : same_runs q (queue_partitions uuid_text env run source parent count q).
Proof. induction count as [|n IH]; [by unfold same_runs|]. cbn [queue_partitions]. eapply same_runs_trans; [exact IH|apply insert_entry_runs]. Qed.
Lemma insert_unless_runs {K} `{EqDecision K} (key : JobRow -> option K) r q q' o :
  insert_unless json_text key r q = Ok (q', o) -> same_runs q q'.
Proof.
  unfold insert_unless, Jobs.write. intros H. destruct (key r); [case_bool_decide; [by injection H as <- _|]|]; destruct (decide _); try done; by injection H as <- _.
Qed.
Lemma enqueue_each_runs env draw ids n q q' o : enqueue_each json_text uuid_text env draw ids n q = Ok (q', o) -> same_runs q q'.
Proof.
  revert draw n q. induction ids as [|id ids IH]; intros draw n q; cbn [enqueue_each]; [by intros [= <- _]|].
  destruct (insert_unless _ _ _ q) as [[q1 o1]|] eqn:Hi; [|done]. intros H. eapply same_runs_trans; [by eapply insert_unless_runs|by eapply IH].
Qed.
Lemma owned_update_runs job worker h q q' u : owned_update json_text job worker h q = Ok (q', u) -> same_runs q q'.
Proof. intros H. apply owned_update_ok in H as (-> & _). by unfold same_runs. Qed.
Lemma dropped_effect q q' now parent :
  (let stopped := update_runs (fun r => run_of parent r && stop_run r) now "cancelled" q in
   jt_runs q' = jt_runs stopped /\ jt_partitions q' = jt_partitions q /\ jt_candidates q' = jt_candidates (drop_candidates parent stopped) /\
   jt_candidate_streams q' = jt_candidate_streams (drop_candidates parent stopped)) ->
  NoDup (rn_id <$> jt_runs q) -> run_effect q q'.
Proof.
  intros (H1 & H2 & H3 & H4) Hnd.
  exists (fun r => if run_of parent r && stop_run r then set_run_status r "cancelled" now else r),
    (fun run => negb (existsb (fun r => run_of parent r && (rn_id r =? run))
                        (jt_runs (update_runs (fun r => run_of parent r && stop_run r) now "cancelled" q)))).
  split_and!; try done; [intros r; case (_ && _); by split_and!|]. intros r Hr. destruct (run_of parent r) eqn:Hp; cbn [andb].
  - right. unfold stop_run. destruct (bool_decide (rn_status r = "queued"%string)) eqn:E1; cbn; [done|].
    destruct (bool_decide (rn_status r = "processing"%string)) eqn:E2; cbn; [done|]. split; [done|]. by apply bool_decide_eq_false in E2.
  - left. split; [done|]. apply negb_true_iff, not_true_iff_false. intros He. apply existsb_exists in He as (x & Hx & Hb).
    apply andb_true_iff in Hb as [Hpx Hid%Z.eqb_eq]. apply list_elem_of_In, elem_mapped in Hx as (y & -> & Hy).
    assert (rn_id y = rn_id r) as Hyr by (rewrite <- Hid; case (run_of parent y && stop_run y); reflexivity). assert (y = r) as -> by (by eapply (fmap_unique rn_id)). rewrite Hp in Hpx. cbn [andb] in Hpx. congruence.
Qed.

Ltac quiet :=
  repeat match goal with
  | H : Ok _ = Ok _ |- _ => injection H as ? ?; subst
  | H : Err _ = Ok _ |- _ => discriminate H
  | H : Jobs.write _ _ _ = Ok _ |- _ => apply write_ok in H as (? & _ & _); subst
  | H : owned_update _ _ _ _ _ = Ok _ |- _ => apply owned_update_runs in H
  | H : insert_unless _ _ _ _ = Ok _ |- _ => apply insert_unless_runs in H
  | H : enqueue_each _ _ _ _ _ _ _ = Ok _ |- _ => apply enqueue_each_runs in H
  | H : context [match ?x with _ => _ end] |- _ => destruct x eqn:?
  end.

Lemma fail_parent_effect env parent progress error run counted q q' o :
  fail_reconciliation_parent json_text uuid_text env parent progress error run counted q = Ok (q', o) -> run_effect q q'.
Proof.
  unfold fail_reconciliation_parent. destruct (refresh_parent parent q); [|intros [= <- _]; by apply same_runs_effect].
  destruct (_ || _); [intros [= <- _]; by apply same_runs_effect|]. intros H. apply write_ok in H as (-> & _ & _).
  eapply (update_runs_effect _ _ _ _ "failed"); done.
Qed.
Lemma cancel_apply_effect env job target q q' o :
  NoDup (rn_id <$> jt_runs q) -> cancel_apply json_text uuid_text parse_uuid env job target q = Ok (q', o) -> run_effect q q'.
Proof.
  intros Hnd. unfold cancel_apply. destruct (_ || _); [intros [= <- _]; by apply same_runs_effect|].
  destruct (parent_of _ _ _) as [parent|]; [|intros H; apply write_ok in H as (-> & _ & _); by apply same_runs_effect].
  destruct (refresh_parent parent q) as [row|]; [|intros H; apply write_ok in H as (-> & _ & _); by apply same_runs_effect].
  destruct (activation_locked json_text row); [intros [= <- _]; by apply same_runs_effect|].
  destruct (bool_decide (ct_kind target = _)); destruct (is_open row); cbn [andb negb orb]; repeat case_match; intros Hw; apply write_ok in Hw as (-> & _ & _);
    try (by apply same_runs_effect); try (eapply (dropped_effect _ _ (qe_now env) parent); [|exact Hnd]; by split_and!).
Qed.
Lemma cancel_sync_effect env parent q q' o :
  cancel_source_sync json_text uuid_text env parent q = Ok (q', o) -> run_effect q q'.
Proof.
  unfold cancel_source_sync. destruct (_ =? 0); [intros [= <- _]; by apply same_runs_effect|].
  intros H. apply write_ok in H as (-> & _ & _). eapply (update_runs_effect _ _ _ _ "cancelled"); done.
Qed.

(** The deletion of a source takes its runs with it. *)
Definition deletes_source (op : QueueOp) : bool := match op with OpDeleteSource _ => true | _ => false end.

Lemma queue_op_effect env op q q' o :
  NoDup (rn_id <$> jt_runs q) -> deletes_source op = false -> queue_op env op q = Ok (q', o) -> run_effect q q'.
Proof.
  intros Hnd Hkeep H. destruct op; try discriminate Hkeep; cbn [Jobs.queue_op] in H; try (apply unit_of_ok in H as [_ [a H]]).
  all: try (by eapply fail_parent_effect); try (by eapply cancel_apply_effect); try (by eapply cancel_sync_effect).
  all: apply same_runs_effect.
  all: unfold enqueue, enqueue_source_refresh_if_idle, enqueue_due_source_refreshes, enqueue_xtream_short_epg, enqueue_health_probe_if_idle,
    insert_if_idle, enqueue_provider_reconciliation_partition_if_idle, enqueue_provider_reconciliation_finalizer_if_idle, claim, heartbeat,
    touch_heartbeat, begin_activation, succeed, fail, recover_stale_jobs, heartbeat_reconciliation_parent, complete_reconciliation_parent,
    replay_dead_letter_job, close_dead_letter_job, complete_provider_reconciliation_partition, queue_reconciliation, dispatch_entry, finalizer_jobs in H.
  all: quiet; try done.
  - eapply same_runs_trans; [exact Heqr|]. unfold archive. destruct (find_job _ _); [|done]. by case_bool_decide.
  - eapply same_runs_trans; [exact Heqr|]. destruct (parent_cancelled _ _); [done|]. apply insert_entry_runs.
  - apply queue_partitions_runs.
  - unfold insert_or_skip. repeat case_match; done.
Qed.

(** ** What is prepared *)

Definition succeeded (q : JobTables) (run number : Z) : Prop :=
  exists p, p ∈ jt_partitions q /\ pt_run_id p = run /\ pt_number p = number /\ pt_status p = "succeeded"%string.

(** The partitions of a run cover the hashes. *)
Record run_shape (q : JobTables) (r : RunRow) : Prop := {
  run_divided : 0 < rn_partition_count r;
  run_covered : forall n, 0 <= n < rn_partition_count r -> exists p, p ∈ jt_partitions q /\ pt_run_id p = rn_id r /\ pt_number p = n;
}.
(** The candidates of a run in progress are those of the partitions that are
    done. *)
Record run_ok (store : Database) (q : JobTables) (r : RunRow) : Prop := {
  run_prepared : forall c,
    (c ∈ jt_candidates q /\ cd_run_id c = rn_id r) <->
    exists key, key ∈ canonical_keys (supported_streams (rn_source_snapshot_id r) store) /\
      succeeded q (rn_id r) (partition_of (rn_partition_count r) key) /\
      c = grouped (rn_id r) (supported_streams (rn_source_snapshot_id r) store) key;
  run_links_prepared : forall x,
    (x ∈ jt_candidate_streams q /\ cn_run_id x = rn_id r) <->
    exists s, s ∈ supported_streams (rn_source_snapshot_id r) store /\
      succeeded q (rn_id r) (partition_of (rn_partition_count r) (canonical_key s)) /\
      x = mkCandidateStream (rn_id r) (canonical_key s) (ps_id s);
}.
Definition tables_linked (q : JobTables) : Prop :=
  NoDup (rn_id <$> jt_runs q) /\ Forall (fun p => pt_run_id p ∈ (rn_id <$> jt_runs q)) (jt_partitions q) /\
  Forall (fun c => cd_run_id c ∈ (rn_id <$> jt_runs q)) (jt_candidates q) /\
  Forall (fun c => cn_run_id c ∈ (rn_id <$> jt_runs q)) (jt_candidate_streams q).
Definition in_progress (r : RunRow) : Prop := rn_status r = "processing"%string.
Definition publish_inv (db : Catalog) : Prop :=
  ChannelConstraints db /\ tables_linked (ca_queue db) /\ Forall (run_shape (ca_queue db)) (jt_runs (ca_queue db)) /\
  forall r, r ∈ jt_runs (ca_queue db) -> in_progress r -> run_ok (ca_store db) (ca_queue db) r.

(** The rows of a run are the same. *)
Definition agree (run : Z) (q q' : JobTables) : Prop :=
  (forall p, pt_run_id p = run -> p ∈ jt_partitions q' <-> p ∈ jt_partitions q) /\
  (forall c, cd_run_id c = run -> c ∈ jt_candidates q' <-> c ∈ jt_candidates q) /\
  (forall c, cn_run_id c = run -> c ∈ jt_candidate_streams q' <-> c ∈ jt_candidate_streams q).
(** No partition is lost. *)
Definition numbers_kept (q q' : JobTables) : Prop :=
  forall p, p ∈ jt_partitions q -> exists p', p' ∈ jt_partitions q' /\ pt_run_id p' = pt_run_id p /\ pt_number p' = pt_number p.

Lemma agree_succeeded run q q' n : agree run q q' -> succeeded q' run n <-> succeeded q run n.
Proof. intros (Hp & _ & _). unfold succeeded. split; intros (p & Hin & Hr & Hn & Hs); exists p; (split_and!; [by apply Hp|done..]). Qed.
Lemma run_ok_agree store store' q q' r r' :
  run_ok store q r -> same_run r r' -> agree (rn_id r) q q' ->
  supported_streams (rn_source_snapshot_id r) store' = supported_streams (rn_source_snapshot_id r) store -> run_ok store' q' r'.
Proof.
  intros [H3 H4] (E1 & E2 & E3) Hag Hs. pose proof Hag as (Hp & Hc & Hn). split; rewrite ?E1, ?E2, ?E3, ?Hs.
  - intros c. setoid_rewrite (agree_succeeded _ _ _ _ Hag). rewrite <- H3. split; intros [Hin Hid]; (split; [by apply Hc|done]).
  - intros c. setoid_rewrite (agree_succeeded _ _ _ _ Hag). rewrite <- H4. split; intros [Hin Hid]; (split; [by apply Hn|done]).
Qed.
Lemma run_shape_kept q q' r r' : numbers_kept q q' -> same_run r r' -> run_shape q r -> run_shape q' r'.
Proof.
  intros Hk (E1 & _ & E3) [H1 H2]. split; rewrite ?E1, E3; [done|]. intros n Hn. destruct (H2 n Hn) as (p & Hp & Hr & Hnum).
  destruct (Hk p Hp) as (p' & Hp' & Hr' & Hnum'). exists p'. split_and!; [done|congruence..].
Qed.

(** A step that keeps the runs, or makes them right *)
Lemma inv_step db db' :
  publish_inv db -> ChannelConstraints db' -> tables_linked (ca_queue db') -> numbers_kept (ca_queue db) (ca_queue db') ->
  (forall r', r' ∈ jt_runs (ca_queue db') ->
     run_shape (ca_queue db') r' /\ run_ok (ca_store db') (ca_queue db') r' \/
     exists r, r ∈ jt_runs (ca_queue db) /\ same_run r r' /\
       (in_progress r' -> run_ok (ca_store db') (ca_queue db') r' \/
          in_progress r /\ agree (rn_id r) (ca_queue db) (ca_queue db') /\
          supported_streams (rn_source_snapshot_id r) (ca_store db') = supported_streams (rn_source_snapshot_id r) (ca_store db))) ->
  publish_inv db'.
Proof.
  intros (_ & _ & Hshape & Hok) Hc Hl Hk Hall. split_and!; [done|done|..].
  - apply Forall_forall. intros r' Hr'. destruct (Hall r' Hr') as [[? _]|(r & Hr & Hsame & _)]; [done|].
    rewrite Forall_forall in Hshape. eapply run_shape_kept; [done..|]. by apply Hshape.
  - intros r' Hr' Hp. destruct (Hall r' Hr') as [[_ ?]|(r & Hr & Hsame & Hok')]; [done|]. destruct (Hok' Hp) as [?|(Hpr & Hag & Hs)]; [done|].
    eapply run_ok_agree; [by apply Hok|done..].
Qed.
Lemma constraints_linked q : RunConstraints q -> JobConstraints json_text q -> tables_linked q.
Proof.
  intros [_ H2 _ H4 _ H6] Hj. split_and!; [apply (runs_pkey _ _ Hj)|done|done|]. rewrite Forall_forall in H6. rewrite Forall_forall in H4. apply Forall_forall. intros c Hc.
  specialize (H6 c Hc). apply list_elem_of_fmap in H6 as (d & [= E1 _] & Hd). rewrite E1. by apply H4.
Qed.
Lemma commit_ok {A} db (a : A) db' a' :
  commit db a = Ok (db', a') -> db' = db /\ a' = a /\ ChannelConstraints db /\ tables_linked (ca_queue db).
Proof.
  unfold Publish.commit. destruct (decide _) as [(H1 & H2 & _ & H4)|]; [|done]. intros [= <- <-]. split_and!; [done..|]. by apply constraints_linked.
Qed.

(** *** Steps *)

Lemma agree_refl run q : agree run q q.
Proof. by split_and!. Qed.
Lemma agree_same run q q' : same_runs q q' -> agree run q q'.
Proof. intros (_ & H2 & H3 & H4). unfold agree. by rewrite H2, H3, H4. Qed.
Lemma same_run_refl r : same_run r r.
Proof. by split_and!. Qed.
Lemma channels_queue db q : ChannelConstraints db -> ChannelConstraints (with_queue db q).
Proof. by intros []. Qed.

Lemma kept_same q q' : jt_partitions q' = jt_partitions q -> numbers_kept q q'.
Proof. intros E p Hp. exists p. by rewrite E. Qed.

(** The runs that a step keeps with their rows *)
Lemma inv_kept db db' :
  publish_inv db -> ChannelConstraints db' -> tables_linked (ca_queue db') -> numbers_kept (ca_queue db) (ca_queue db') ->
  db_streams (ca_store db') = db_streams (ca_store db) ->
  (forall r', r' ∈ jt_runs (ca_queue db') ->
     run_shape (ca_queue db') r' /\ run_ok (ca_store db') (ca_queue db') r' \/
     exists r, r ∈ jt_runs (ca_queue db) /\ same_run r r' /\
       (in_progress r' -> run_ok (ca_store db') (ca_queue db') r' \/ in_progress r /\ agree (rn_id r) (ca_queue db) (ca_queue db'))) ->
  publish_inv db'.
Proof.
  intros Hinv Hc Hl Hk Hs Hall. apply (inv_step db); [done..|]. intros r' Hr'. destruct (Hall r' Hr') as [?|(r & Hr & Hsame & Hp)]; [by left|].
  right. exists r. split_and!; [done|done|]. intros Hpr. destruct (Hp Hpr) as [?|[? ?]]; [by left|right]. split_and!; try done.
  unfold supported_streams. by rewrite Hs.
Qed.
Lemma inv_same_runs db db' :
  publish_inv db -> ChannelConstraints db' -> tables_linked (ca_queue db') -> db_streams (ca_store db') = db_streams (ca_store db) ->
  same_runs (ca_queue db) (ca_queue db') -> publish_inv db'.
Proof.
  intros Hinv Hc Hl Hs Hsame. apply (inv_kept db); [done..|by apply kept_same, Hsame|done|]. intros r Hr. right. exists r.
  split_and!; [by destruct Hsame as [<- _]|apply same_run_refl|]. intros Hp. right. split; [done|by apply agree_same].
Qed.

Lemma queue_keeps env op db q' o :
  publish_inv db -> deletes_source op = false -> queue_op env op (ca_queue db) = Ok (q', o) -> publish_inv (with_queue db q').
Proof.
  intros Hinv Hkeep Hop. pose proof Hinv as (Hc & (Hnd & Hp & Hcd & Hcn) & _).
  destruct (queue_op_effect _ _ _ _ _ Hnd Hkeep Hop) as (h & kept & Hruns & Hcols & Hparts & Hcands & Hstreams & Hh).
  assert (rn_id <$> jt_runs q' = rn_id <$> jt_runs (ca_queue db)) as Hids.
  { rewrite Hruns. change (rn_id <$> (h <$> jt_runs (ca_queue db)) = rn_id <$> jt_runs (ca_queue db)). rewrite <- list_fmap_compose.
    apply list_fmap_ext. intros i r Hr%list_elem_of_lookup_2. cbn. destruct (Hh r Hr) as [[-> _]|[? _]]; done. }
  apply (inv_kept db); [done|by apply channels_queue| |by apply kept_same|done|].
  - cbn. unfold tables_linked. rewrite Hids, Hparts, Hcands, Hstreams. split_and!; [done|done|..]; apply Forall_forall; intros c [Hin _]%elem_filtered;
      [rewrite Forall_forall in Hcd; by apply Hcd|rewrite Forall_forall in Hcn; by apply Hcn].
  - cbn. intros r'. rewrite Hruns, elem_mapped. intros (r & -> & Hr). right. exists r. destruct (Hh r Hr) as [[Hsame Hk]|[Hid Hne]].
    + rewrite Hsame. split_and!; [done|apply same_run_refl|]. intros Hpr. right. split; [done|]. unfold agree. rewrite Hparts, Hcands, Hstreams.
      setoid_rewrite elem_filtered. split_and!; [done|intros c ->; naive_solver|intros c ->; naive_solver].
    + split_and!; [done|by apply Hcols|]. intros Hpr. done.
Qed.

(** A new run has no rows yet. *)
Lemma fresh_run_ok store q r :
  (forall p, p ∈ jt_partitions q -> pt_run_id p = rn_id r -> pt_status p = "queued"%string) ->
  (forall c, c ∈ jt_candidates q -> cd_run_id c <> rn_id r) -> (forall c, c ∈ jt_candidate_streams q -> cn_run_id c <> rn_id r) ->
  run_ok store q r.
Proof.
  intros Hq Hc Hn. assert (forall n, ~ succeeded q (rn_id r) n) as Hno by (intros n (p & Hp & Hr & _ & Hs); specialize (Hq p Hp Hr); congruence).
  split; (intros c; split; [intros [Hin Hid]; exfalso; first [by apply (Hc c)|by apply (Hn c)]|intros (? & _ & Hs & _); by apply Hno in Hs]).
Qed.
Lemma queued_runs env r q : same_runs q (queue_run_partitions uuid_text env r q).
Proof. unfold queue_run_partitions. destruct (rn_parent_job_id r); [apply queue_partitions_runs|by unfold same_runs]. Qed.

Lemma insert_run_ok store now run keys q :
  0 < rn_partition_count run -> tables_linked q -> NoDup (rn_id <$> jt_runs (insert_run hash now run keys q)) ->
  run_shape (insert_run hash now run keys q) run /\ run_ok store (insert_run hash now run keys q) run.
Proof.
  intros Hcount (_ & Hp & Hc & Hn) Hnd. cbn in Hnd. rewrite fmap_app in Hnd. apply NoDup_app in Hnd as (_ & Hfresh & _).
  assert (rn_id run ∉ (rn_id <$> jt_runs q)) as Hnew by (intros Hin; apply (Hfresh _ Hin); by left).
  rewrite Forall_forall in Hp. rewrite Forall_forall in Hc. rewrite Forall_forall in Hn. split; [split; cbn; [done|]|apply fresh_run_ok; cbn].
  - intros n Hr. exists (new_partition hash now (rn_id run) (rn_partition_count run) keys (Z.to_nat n)). split_and!; [|done|cbn; lia].
    apply elem_of_app. right. apply elem_mapped. eexists. split; [done|]. apply elem_of_seq. lia.
  - intros p [Hin|Hin]%elem_of_app Hid; [by exfalso; apply Hnew; rewrite <- Hid; apply Hp|]. by apply elem_mapped in Hin as (k & -> & _).
  - intros c Hin Hid. apply Hnew. rewrite <- Hid. by apply Hc.
  - intros c Hin Hid. apply Hnew. rewrite <- Hid. by apply Hn.
Qed.

(** The outbox entries of a run leave its tables alone. *)
Lemma queued_keeps {A} env run db q0 db' (a a' : A) :
  publish_inv db -> numbers_kept (ca_queue db) q0 ->
  (NoDup (rn_id <$> jt_runs q0) -> forall r', r' ∈ jt_runs q0 ->
     run_shape q0 r' /\ run_ok (ca_store db) q0 r' \/
     exists r, r ∈ jt_runs (ca_queue db) /\ same_run r r' /\
       (in_progress r' -> run_ok (ca_store db) q0 r' \/ in_progress r /\ agree (rn_id r) (ca_queue db) q0)) ->
  commit (with_queue db (queue_run_partitions uuid_text env run q0)) a = Ok (db', a') -> publish_inv db'.
Proof.
  intros Hinv Hk Hall Hcommit. apply commit_ok in Hcommit as (-> & _ & Hc & Hl). pose proof (queued_runs env run q0) as Hsame.
  assert (forall r, run_ok (ca_store db) q0 r -> run_ok (ca_store db) (queue_run_partitions uuid_text env run q0) r) as Hok.
  { intros r Hr. eapply run_ok_agree; [done|apply same_run_refl|by apply agree_same|done]. }
  destruct Hsame as (E1 & E2 & E3 & E4). apply (inv_kept db); [done|done|done| |done|]; cbn in Hl |- *.
  - intros p Hp. rewrite E2. by apply Hk.
  - rewrite E1. intros r' Hr'. destruct Hl as [Hnd _]. rewrite E1 in Hnd. destruct (Hall Hnd r' Hr') as [[Hs Ho]|(r & Hr & Hsr & Hp)].
    + left. split; [|by apply Hok]. eapply run_shape_kept; [by apply kept_same|apply same_run_refl|done].
    + right. exists r. split_and!; [done|done|]. intros Hpr. destruct (Hp Hpr) as [?|[? Hag]]; [left; by apply Hok|right]. split; [done|].
      destruct Hag as (A1 & A2 & A3). unfold agree. rewrite E2, E3, E4. by split_and!.
Qed.

Lemma find_elem {A} (p : A -> bool) l x : List.find p l = Some x -> x ∈ l /\ p x = true.
Proof. intros H. apply List.find_some in H as [Hin Hp]. split; [by apply list_elem_of_In|done]. Qed.

Lemma restart_keeps env now parent run db db' (a a' : result (option RunRow) PersistenceError) :
  publish_inv db -> run ∈ jt_runs (ca_queue db) ->
  commit (with_queue db (queue_run_partitions uuid_text env (restarted_run now parent run) (restart_run now parent (rn_id run) (ca_queue db)))) a = Ok (db', a') ->
  publish_inv db'.
Proof.
  intros Hinv Hrun. apply queued_keeps; [done|..].
  - intros p Hp. exists (if pt_run_id p =? rn_id run then restarted_partition now p else p). split.
    + cbn. apply elem_mapped. by exists p.
    + by destruct (_ =? _).
  - cbn. intros _ r' (r & -> & Hr)%elem_mapped. right. exists r. destruct (Z.eqb_spec (rn_id r) (rn_id run)) as [E|E].
    + split_and!; [done|by split_and!|]. intros _. left. apply fresh_run_ok; cbn.
      * intros p (x & -> & Hx)%elem_mapped. destruct (Z.eqb_spec (pt_run_id x) (rn_id run)) as [Ex|Ex]; [done|]. intros Hx'. congruence.
      * intros c [_ Hc]%elem_filtered Hid. rewrite Hid, E, Z.eqb_refl in Hc. done.
      * intros c [_ Hc]%elem_filtered Hid. rewrite Hid, E, Z.eqb_refl in Hc. done.
    + split_and!; [done|apply same_run_refl|]. intros Hp. right. split; [done|]. unfold agree. cbn. setoid_rewrite elem_mapped. setoid_rewrite elem_filtered.
      split_and!.
      * intros p Hid. split; [intros (x & -> & Hx)|intros Hp'; exists p].
        -- destruct (Z.eqb_spec (pt_run_id x) (rn_id run)); [cbn in Hid; congruence|done].
        -- destruct (Z.eqb_spec (pt_run_id p) (rn_id run)); [congruence|done].
      * intros c Hid. rewrite Hid. destruct (Z.eqb_spec (rn_id r) (rn_id run)); naive_solver.
      * intros c Hid. rewrite Hid. destruct (Z.eqb_spec (rn_id r) (rn_id run)); naive_solver.
Qed.

Lemma insert_keeps env now run keys db db' (a a' : result (option RunRow) PersistenceError) :
  publish_inv db -> 0 < rn_partition_count run ->
  commit (with_queue db (queue_run_partitions uuid_text env run (insert_run hash now run keys (ca_queue db)))) a = Ok (db', a') -> publish_inv db'.
Proof.
  intros Hinv Hcount. pose proof Hinv as (_ & Hl & _). apply queued_keeps; [done|..].
  - intros p Hp. exists p. split_and!; [|done|done]. cbn. apply elem_of_app. by left.
  - intros Hnd r' Hr'. destruct (insert_run_ok (ca_store db) now run keys (ca_queue db) Hcount Hl Hnd) as [Hs Ho]. cbn in Hr', Hnd.
    apply elem_of_app in Hr' as [Hr'|Hr']; [|apply list_elem_of_singleton in Hr' as ->; by left].
    right. exists r'. split_and!; [done|apply same_run_refl|]. intros Hp. right. split; [done|].
    assert (rn_id r' <> rn_id run) as Hne.
    { rewrite fmap_app in Hnd. apply NoDup_app in Hnd as (_ & Hfresh & _). intros E. apply (Hfresh (rn_id r')); [by apply list_elem_of_fmap_2|]. rewrite E. by left. }
    split_and!; cbn; [|done|done]. intros p Hid. rewrite elem_of_app, elem_mapped. split; [|by left]. intros [?|(k & -> & _)]; [done|]. cbn in Hid. congruence.
Qed.

Lemma create_keeps env snapshot parent count db db' a :
  publish_inv db -> create_or_load env snapshot parent count db = Ok (db', a) -> publish_inv db'.
Proof.
  intros Hinv. unfold create_or_load_provider_reconciliation_run. destruct (List.find _ _) as [row|]; [|done].
  destruct (sr_provider_account_id row) as [account|]; [|done]. destruct (negb _); [done|]. destruct (bool_decide _); [by intros [= <- _]|].
  destruct (_ || _); [done|].
  destruct (latest_run snapshot (ca_queue db)) as [run|] eqn:Hlatest; [destruct (bool_decide (rn_status run = "cancelled"%string)); [|destruct (bool_decide _)]|].
  1,4: destruct (_ =? 0); intros Hc.
  1,3: apply commit_ok in Hc as (-> & _ & Hc & Hl); by apply (inv_same_runs db).
  1,2: eapply insert_keeps; [exact Hinv| |exact Hc]; cbn; lia.
  - intros Hc. eapply (queued_keeps _ _ _ (ca_queue db)); [exact Hinv|by apply kept_same| |exact Hc]. intros _ r Hr. right. exists r. split_and!; [done|apply same_run_refl|].
    intros Hp. right. split; [done|apply agree_refl].
  - intros Hc. eapply restart_keeps; [exact Hinv| |exact Hc]. unfold latest_run in Hlatest. apply head_Some_elem_of in Hlatest.
    rewrite (stable_sort_perm later_run) in Hlatest. by apply elem_filtered in Hlatest as [? _].
Qed.

(** *** Partitions *)

Lemma this_partition_iff run n p : this_partition run n p = true <-> pt_run_id p = run /\ pt_number p = n.
Proof. unfold this_partition. by rewrite andb_true_iff, !Z.eqb_eq. Qed.

(** The partitions after a worker has prepared one *)
Definition worked (now : Z) (worker : text) (run n : Z) (p : PartitionRow) : PartitionRow :=
  if this_partition run n p then finished_partition now (started_partition now worker p) else p.
Lemma worked_partitions now worker run n partitions :
  List.map (fun p => if this_partition run n p then finished_partition now p else p)
    (List.map (fun p => if this_partition run n p then started_partition now worker p else p) partitions) =
  List.map (worked now worker run n) partitions.
Proof.
  rewrite map_map. apply map_ext. intros p. unfold worked. destruct (this_partition run n p) eqn:E; [|by rewrite E].
  by replace (this_partition run n (started_partition now worker p)) with true.
Qed.
Lemma worked_columns now worker run n p :
  pt_run_id (worked now worker run n p) = pt_run_id p /\ pt_number (worked now worker run n p) = pt_number p.
Proof. unfold worked. by destruct (this_partition run n p). Qed.
Lemma worked_succeeded now worker run n q q' m :
  jt_partitions q' = List.map (worked now worker run n) (jt_partitions q) -> (exists p, p ∈ jt_partitions q /\ this_partition run n p = true) ->
  succeeded q' run m <-> succeeded q run m \/ m = n.
Proof.
  intros E (p0 & Hp0 & Ht0). unfold succeeded. rewrite E. setoid_rewrite elem_mapped. split.
  - intros (p' & (p & -> & Hp) & Hr & Hm & Hs). destruct (this_partition run n p) eqn:Ht; unfold worked in *; rewrite Ht in *; [|left; by exists p].
    apply this_partition_iff in Ht as [? ?]. right. cbn in Hm. congruence.
  - intros [(p & Hp & Hr & Hm & Hs)| ->].
    + exists (worked now worker run n p). destruct (worked_columns now worker run n p) as [Er En]. split_and!; [by exists p|congruence|congruence|].
      unfold worked. by destruct (this_partition run n p).
    + exists (worked now worker run n p0). destruct (worked_columns now worker run n p0) as [Er En]. pose proof Ht0 as [? ?]%this_partition_iff.
      split_and!; [by exists p0|congruence|congruence|]. unfold worked. by rewrite Ht0.
Qed.

Lemma prepared_run_ok store now worker n q q' r r' :
  run_ok store q r -> same_run r r' -> 0 < rn_partition_count r -> (exists p, p ∈ jt_partitions q /\ this_partition (rn_id r) n p = true) ->
  jt_partitions q' = List.map (worked now worker (rn_id r) n) (jt_partitions q) ->
  (let prepared := prepare_candidates hash (rn_id r) (rn_partition_count r) n (supported_streams (rn_source_snapshot_id r) store) q in
   jt_candidates q' = jt_candidates prepared /\ jt_candidate_streams q' = jt_candidate_streams prepared) ->
  run_ok store q' r'.
Proof.
  intros [H3 H4] (E1 & E2 & E3) Hcount Hex Hparts [Hc Hn]. split; rewrite E1, E2, E3; intros x; setoid_rewrite (worked_succeeded _ _ _ _ _ _ _ Hparts Hex).
  - rewrite Hc, prepare_candidates_in by done. split.
    + intros [[(key & Hk & Hp & ->)|[Hx _]] Hid]; [exists key; split_and!; [done|by right|done]|].
      destruct (proj1 (H3 x) (conj Hx Hid)) as (key & Hk & Hs & Hg). exists key. split_and!; [done|by left|done].
    + intros (key & Hk & Hs & ->). split; [|done]. destruct (decide (partition_of (rn_partition_count r) key = n)) as [Hp|Hp].
      * left. by exists key.
      * destruct Hs as [Hs|?]; [|done]. right. split; [|intros (_ & _ & ?); done]. apply (H3 (grouped (rn_id r) _ key)). by exists key.
  - rewrite Hn, prepare_streams_in. split.
    + intros [[(s & Hk & Hp & ->)|Hx] Hid]; [exists s; split_and!; [done|by right|done]|].
      destruct (proj1 (H4 x) (conj Hx Hid)) as (s & Hk & Hs & Hg). exists s. split_and!; [done|by left|done].
    + intros (s & Hk & Hs & ->). split; [|done]. destruct Hs as [Hs|Hs]; [right|left; by exists s].
      apply (H4 (mkCandidateStream (rn_id r) (canonical_key s) (ps_id s))). by exists s.
Qed.

Lemma partition_keeps env run n worker job db db' a :
  publish_inv db -> process_partition env run n worker job db = Ok (db', a) -> publish_inv db'.
Proof.
  intros Hinv. unfold process_provider_reconciliation_partition. destruct (match job with Some _ => _ | None => _ end); [done|].
  destruct (List.find _ (jt_partitions _)) as [part|] eqn:Hpart; [|done]. destruct (find_run run _) as [row|] eqn:Hrow; [|done].
  destruct (List.find _ (db_snapshots _)) as [snapshot|]; [|done]. destruct (bool_decide _); [by intros [= <- _]|].
  destruct (bool_decide (rn_status row = _)) eqn:Hst; cbn [negb orb]; [|done]. apply bool_decide_eq_true in Hst.
  destruct (_ || _); [done|]. destruct (negb _); [done|]. intros Hcommit. apply commit_ok in Hcommit as (-> & _ & Hc & Hl).
  apply find_elem in Hrow as [Hrow Hid%Z.eqb_eq]. apply find_elem in Hpart as [Hpart Ht]. subst run.
  pose proof Hinv as (_ & (Hnd & _) & Hshape & Hok). rewrite Forall_forall in Hshape.
  apply (inv_kept db); [done|done|done| |done|].
  - intros p Hp. cbn. rewrite worked_partitions. eexists. split; [apply elem_mapped; by exists p|apply worked_columns].
  - cbn. intros r' (r & -> & Hr)%elem_mapped. right. exists r. split_and!; [done|by destruct (_ =? _)|].
    destruct (Z.eqb_spec (rn_id r) (rn_id row)) as [E|E]; intros Hp.
    + assert (r = row) as -> by (by eapply (fmap_unique rn_id)). left. eapply prepared_run_ok; [by apply Hok|done|by apply Hshape|by exists part|..].
      * cbn. apply worked_partitions.
      * done.
    + right. split; [done|]. unfold agree. cbn. rewrite worked_partitions. split_and!.
      * intros p Hpid. rewrite elem_mapped. assert (worked (qe_now (pe_queue env)) worker (rn_id row) n p = p) as Hw.
        { unfold worked. destruct (this_partition _ _ p) eqn:Hx; [apply this_partition_iff in Hx as [? _]; congruence|done]. }
        split; [intros (x & -> & Hx)|intros Hx; by exists p]. destruct (worked_columns (qe_now (pe_queue env)) worker (rn_id row) n x) as [Ex _].
        unfold worked in *. destruct (this_partition _ _ x) eqn:Hx'; [apply this_partition_iff in Hx' as [? _]; congruence|done].
      * intros c Hcid. setoid_rewrite prepare_candidates_in; [|by apply Hshape]. split; [intros [(key & _ & _ & ->)|[? _]]; [by cbn in Hcid|done]|].
        intros ?. right. split; [done|]. intros (? & _). congruence.
      * intros c Hcid. setoid_rewrite prepare_streams_in. split; [intros [(s & _ & _ & ->)|?]; [by cbn in Hcid|done]|by right].
Qed.

(** *** Publication and roll-back *)

Lemma ended_keeps db db' run (h : RunRow -> RunRow) :
  publish_inv db -> ChannelConstraints db' -> tables_linked (ca_queue db') -> db_streams (ca_store db') = db_streams (ca_store db) ->
  jt_runs (ca_queue db') = List.map h (jt_runs (ca_queue db)) -> jt_partitions (ca_queue db') = jt_partitions (ca_queue db) ->
  jt_candidates (ca_queue db') = jt_candidates (delete_candidates run (ca_queue db)) ->
  jt_candidate_streams (ca_queue db') = jt_candidate_streams (delete_candidates run (ca_queue db)) ->
  (forall r, same_run r (h r) /\ (rn_id r = run -> ~ in_progress (h r)) /\ (rn_id r <> run -> h r = r)) -> publish_inv db'.
Proof.
  intros Hinv Hc Hl Hs Hruns Hparts Hcands Hstreams Hh. apply (inv_kept db); [done..|by apply kept_same|done|].
  rewrite Hruns. intros r' (r & -> & Hr)%elem_mapped. destruct (Hh r) as (Hsame & Hend & Hother). right. exists r. split_and!; [done|done|].
  intros Hp. destruct (decide (rn_id r = run)) as [E|E]; [by apply Hend in Hp|]. rewrite (Hother E) in Hp. right. split; [done|].
  unfold agree. rewrite Hparts, Hcands, Hstreams. cbn. setoid_rewrite elem_filtered. setoid_rewrite negb_true_iff. setoid_rewrite Z.eqb_neq.
  split_and!; [done|intros c ->; naive_solver|intros c ->; naive_solver].
Qed.
Lemma stopped_keeps db db' run now p q :
  publish_inv db -> ChannelConstraints db' -> tables_linked (ca_queue db') -> db_streams (ca_store db') = db_streams (ca_store db) ->
  same_runs (ca_queue db) q -> ca_queue db' = stopped_run run now p q -> (forall r, in_progress r -> p r = true) -> publish_inv db'.
Proof.
  intros Hinv Hc Hl Hs (E1 & E2 & E3 & E4) Hq Hp. eapply (ended_keeps db _ run); rewrite ?Hq; [done|done|by rewrite <- Hq|done|..]; cbn; rewrite ?E1, ?E2, ?E3, ?E4; try done.
  intros r. cbn beta. destruct (Z.eqb_spec (rn_id r) run) as [E|E]; cbn [andb]; [|by split_and!].
  split_and!; [by destruct (p r)|intros _ Hr|done]. destruct (p r) eqn:Hpr; [done|]. apply Hp in Hr. congruence.
Qed.

Lemma statement_ok db db' : statement db = Ok db' -> db' = db /\ ChannelConstraints db.
Proof. unfold statement. destruct (decide _); [|done]. by intros [= <-]. Qed.

(** What the three statements on channels and links leave alone *)
Definition same_but_channels (db db' : Catalog) : Prop :=
  ca_store db' = ca_store db /\ ca_queue db' = ca_queue db /\ ca_revisions db' = ca_revisions db.
Lemma upsert_channels_frame env account run db db' n :
  upsert_candidate_channels collates channel_uuid env account run db = Ok (db', n) -> same_but_channels db db'.
Proof.
  unfold upsert_candidate_channels. destruct (negb _); [done|]. destruct (statement _) as [x|] eqn:Hs; [|done]. intros [= <- _].
  by apply statement_ok in Hs as [-> _].
Qed.
Lemma remove_stale_frame account run db db' n :
  remove_stale_candidate_channel_stream_links account run db = Ok (db', n) -> same_but_channels db db'.
Proof.
  unfold remove_stale_candidate_channel_stream_links. destruct (statement _) as [x|] eqn:Hs; [|done]. apply statement_ok in Hs as [-> _].
  destruct (statement _) as [y|] eqn:Hs; [|done]. apply statement_ok in Hs as [-> _]. by intros [= <- _].
Qed.
Lemma upsert_links_frame env account run db db' n :
  upsert_candidate_channel_stream_links uuid_text time_text env account run db = Ok (db', n) -> same_but_channels db db'.
Proof.
  unfold upsert_candidate_channel_stream_links. destruct (statement _) as [x|] eqn:Hs; [|done]. apply statement_ok in Hs as [-> _]. by intros [= <- _].
Qed.

Lemma publish_candidates_ok env account snapshot run db db' stats :
  publish_candidates env account snapshot run db = Ok (db', stats) ->
  exists db1 n1 db2 n2 db3 n3,
    upsert_candidate_channels collates channel_uuid env account run db = Ok (db1, n1) /\
    remove_stale_candidate_channel_stream_links account run db1 = Ok (db2, n2) /\
    upsert_candidate_channel_stream_links uuid_text time_text env account run db2 = Ok (db3, n3) /\
    (let db4 := delete_channels (orphaned_channel account run (ca_queue db3)) db3 in
     ca_channels db' = ca_channels db4 /\ ca_links db' = ca_links db4 /\ ca_mappings db' = ca_mappings db4) /\
    ca_store db' = activate_snapshot (qe_now (pe_queue env)) account snapshot (ca_store db) /\
    ca_queue db' = publish_run (qe_now (pe_queue env)) run (ca_queue db) /\ ChannelConstraints db' /\ tables_linked (ca_queue db').
Proof.
  unfold Publish.publish_candidates. destruct (upsert_candidate_channels _ _ _ _ _ _) as [[db1 n1]|] eqn:H1; [|done].
  destruct (remove_stale_candidate_channel_stream_links _ _ _) as [[db2 n2]|] eqn:H2; [|done].
  destruct (upsert_candidate_channel_stream_links _ _ _ _ _ _) as [[db3 n3]|] eqn:H3; [|done]. cbn zeta. unfold remove_candidate_orphaned_channels. destruct (negb _); [done|].
  intros Hc. apply commit_ok in Hc as (-> & _ & Hc & Hl).
  destruct (upsert_channels_frame _ _ _ _ _ _ H1) as (S1 & Q1 & _), (remove_stale_frame _ _ _ _ _ H2) as (S2 & Q2 & _), (upsert_links_frame _ _ _ _ _ _ H3) as (S3 & Q3 & _).
  exists db1, n1, db2, n2, db3, n3. split_and!; try done; cbn; congruence.
Qed.

Lemma publish_run_keeps db db' now run account snapshot q :
  publish_inv db -> same_runs (ca_queue db) q -> ChannelConstraints db' -> tables_linked (ca_queue db') ->
  ca_queue db' = publish_run now run q -> ca_store db' = activate_snapshot now account snapshot (ca_store db) -> publish_inv db'.
Proof.
  intros Hinv (E1 & E2 & E3 & E4) Hc Hl Hq Hs. eapply (ended_keeps db _ run); rewrite ?Hq; [done|done|by rewrite <- Hq|by rewrite Hs|..]; cbn; rewrite ?E1, ?E2, ?E3, ?E4; try done.
  intros r. cbn beta. destruct (Z.eqb_spec (rn_id r) run) as [E|E]; cbn [andb]; [|by split_and!]. unfold in_progress.
  destruct (bool_decide (rn_status r = "processing"%string)) eqn:Hp; (split_and!; [done|intros _|done]); [done|]. by apply bool_decide_eq_false in Hp.
Qed.

Lemma finalize_keeps env run parent finalizer worker db db' a :
  publish_inv db -> finalize env run parent finalizer worker db = Ok (db', a) -> publish_inv db'.
Proof.
  intros Hinv. unfold finalize_provider_reconciliation. destruct (refresh_parent _ _) as [row|]; [|done]. destruct (negb _).
  { intros Hc. apply commit_ok in Hc as (-> & _ & Hc & Hl). eapply (stopped_keeps db); [done|done|done|done| |done|]; [done|].
    intros r Hr. unfold stop_run. rewrite Hr. done. }
  destruct (List.find _ (jt_jobs _)) as [fin|]; [|done]. destruct (bool_decide _); [by intros [= <- _]|]. destruct (find_run _ _) as [r|]; [|done].
  destruct (List.find _ (db_snapshots _)) as [snap|]; [|done]. destruct (bool_decide _); [by intros [= <- _]|]. destruct (negb _); [done|].
  destruct (existsb _ _). { destruct (provider_reconciliation_progress _ _); [|done]. by intros [= <- _]. }
  cbn zeta. destruct (_ || _); [done|]. destruct (newer_active _ _ _ _).
  { intros Hc. apply commit_ok in Hc as (-> & _ & Hc & Hl). eapply (stopped_keeps db); [done|done|done|done| |done|]; [done|].
    intros x Hx. by apply bool_decide_eq_true. }
  destruct (negb _); [done|]. destruct (negb _); [done|]. destruct (Publish.publish_candidates _ _ _ _ _ _ _ _ _ _) as [[db1 stats]|] eqn:Hp; [|done].
  intros [= <- _]. apply publish_candidates_ok in Hp as (? & ? & ? & ? & ? & ? & _ & _ & _ & _ & Hs & Hq & Hc & Hl).
  eapply publish_run_keeps; [exact Hinv| |done|done|exact Hq|exact Hs]. done.
Qed.

Lemma statements_ok {A} (f : A -> Catalog -> Catalog) rows db db' :
  statements f rows db = Ok db' -> db' = fold_left (fun db row => f row db) rows db.
Proof.
  revert db. induction rows as [|row rows IH]; intros db; cbn; [by intros [= <-]|]. destruct (statement _) as [x|] eqn:Hs; [|done].
  apply statement_ok in Hs as [-> _]. apply IH.
Qed.
Lemma restore_rows account env rows db :
  fold_left (fun db row => restore_row account env row db) rows db =
  with_channels db (fold_left (fun channels c => restore_channel account (pe_number env c.1) channels c.2) rows (ca_channels db)) (ca_links db) (ca_mappings db).
Proof. revert db. induction rows as [|row rows IH]; intros db; [by destruct db|]. cbn. by rewrite IH. Qed.
Lemma restore_links rows db :
  fold_left (fun db row => restore_link row db) rows db = with_channels db (ca_channels db) (fold_left upsert_link rows (ca_links db)) (ca_mappings db).
Proof. revert db. induction rows as [|row rows IH]; intros db; [by destruct db|]. cbn. by rewrite IH. Qed.
Lemma restore_mappings rows db :
  fold_left (fun db row => restore_mapping row db) rows db = with_channels db (ca_channels db) (ca_links db) (fold_left upsert_mapping rows (ca_mappings db)).
Proof. revert db. induction rows as [|row rows IH]; intros db; [by destruct db|]. cbn. by rewrite IH. Qed.

(** A roll-back that is committed *)
Lemma rollback_ok env referenced account target actor db db' a :
  rollback env referenced account target actor db = Ok (db', a) ->
  exists row, row ∈ ca_revisions db /\ rv_account_id row = account /\ rv_revision row = target /\
    let snapshot := rv_after_value row in
    let ids := List.map sc_id (rs_channels snapshot) in
    let outside c := automatic_of account c && negb (bool_decide (cc_id c ∈ ids)) in
    let db2 := delete_channels outside (with_channels db (List.map (fun c => if outside c && referenced (cc_id c) then detached c else c) (ca_channels db))
                 (ca_links db) (ca_mappings db)) in
    ca_channels db' = fold_left (fun channels c => restore_channel account (pe_number env c.1) channels c.2) (imap pair (rs_channels snapshot)) (ca_channels db2) /\
    ca_links db' = fold_left upsert_link (rs_stream_links snapshot) (List.filter (fun l => negb (bool_decide (ln_channel_id l ∈ ids))) (ca_links db2)) /\
    ca_mappings db' = fold_left upsert_mapping (rs_epg_mappings snapshot)
      (List.filter (fun m => negb (bool_decide (em_channel_id m ∈ ids))) (ca_mappings db2)) /\
    ca_store db' = ca_store db /\ ca_queue db' = ca_queue db /\
    ca_revisions db' = ca_revisions db ++
      [mkRevisionRow account (current_reconciliation_revision account db + 1) actor (capture_reconciliation_snapshot account db)
         (capture_reconciliation_snapshot account db')] /\
    ChannelConstraints db' /\ tables_linked (ca_queue db').
Proof.
  unfold rollback_reconciliation. destruct (List.find _ _) as [row|] eqn:Hrow; [|done]. cbn zeta.
  destruct (statements (restore_row _ _) _ _) as [db4|] eqn:H4; [|done]. apply statements_ok in H4. rewrite restore_rows in H4.
  destruct (statements restore_link _ _) as [db5|] eqn:H5; [|done]. apply statements_ok in H5. rewrite restore_links in H5.
  destruct (statements restore_mapping _ _) as [db6|] eqn:H6; [|done]. apply statements_ok in H6. rewrite restore_mappings in H6.
  intros Hc. apply commit_ok in Hc as (-> & _ & Hc & Hl). apply find_elem in Hrow as [Hin [Ha%Z.eqb_eq Ht%Z.eqb_eq]%andb_true_iff].
  exists row. do 3 (split; [done|]). cbn zeta. subst db6 db5 db4. by split_and!.
Qed.
Lemma rollback_keeps env referenced account target actor db db' a :
  publish_inv db -> rollback env referenced account target actor db = Ok (db', a) -> publish_inv db'.
Proof.
  intros Hinv H. apply rollback_ok in H as (row & _ & _ & _ & _ & _ & _ & Es & Eq & _ & Hc & Hl). apply (inv_same_runs db); [done|done|done|by rewrite Es|by rewrite Eq].
Qed.

(** ** Channels *)

Definition touched (c row : CanonicalChannel) : CanonicalChannel :=
  if (cc_id c =? cc_id row) && negb (bool_decide (titled c = titled row)) then retitled c row else c.
Lemma touched_id c row : cc_id (touched c row) = cc_id c.
Proof. unfold touched. by destruct (_ && _). Qed.
Lemma touched_other c row : cc_id c <> cc_id row -> touched c row = c.
Proof. intros E. unfold touched. by rewrite (proj2 (Z.eqb_neq _ _) E). Qed.
Lemma touched_all_other rows c : cc_id c ∉ (cc_id <$> rows) -> fold_left touched rows c = c.
Proof.
  induction rows as [|row rows IH]; [done|]. cbn. intros Hn. apply not_elem_of_cons in Hn as [Hne Hn]. rewrite touched_other by done. by apply IH.
Qed.
Lemma touched_all_one rows row c :
  NoDup (cc_id <$> rows) -> row ∈ rows -> cc_id c = cc_id row -> fold_left touched rows c = touched c row.
Proof.
  induction rows as [|x rows IH]; intros Hnd Hin Hid; [by apply elem_of_nil in Hin|]. cbn in Hnd |- *. inversion_clear Hnd as [|? ? Hx Hnd'].
  apply elem_of_cons in Hin as [<-|Hin].
  - apply touched_all_other. rewrite touched_id, Hid. done.
  - rewrite (touched_other c x); [by apply IH|]. intros E. apply Hx. rewrite <- E, Hid. by apply list_elem_of_fmap_2.
Qed.

Lemma upsert_channel_elem channels row c' :
  c' ∈ upsert_channel channels row <-> (exists c, c ∈ channels /\ c' = touched c row) \/ c' = row /\ cc_id row ∉ (cc_id <$> channels).
Proof.
  unfold upsert_channel. destruct (existsb _ channels) eqn:He.
  - apply existsb_exists in He as (x & Hx%list_elem_of_In & Hid%Z.eqb_eq). rewrite elem_mapped. split.
    + intros (c & -> & Hc). left. by exists c.
    + intros [(c & Hc & ->)|[_ Hn]]; [by exists c|]. exfalso. apply Hn. rewrite <- Hid. by apply list_elem_of_fmap_2.
  - assert (cc_id row ∉ (cc_id <$> channels)) as Hn.
    { intros (c & Hid & Hc)%list_elem_of_fmap. assert (existsb (fun c => cc_id c =? cc_id row) channels = true) as Ht; [|congruence].
      apply existsb_exists. exists c. split; [by apply list_elem_of_In|by apply Z.eqb_eq]. }
    assert (forall c, c ∈ channels -> touched c row = c) as Hsame.
    { intros c Hc. apply touched_other. intros E. apply Hn. rewrite <- E. by apply list_elem_of_fmap_2. }
    rewrite elem_of_app, list_elem_of_singleton. split.
    + intros [Hc| ->]; [left; exists c'; by rewrite Hsame|by right].
    + intros [(c & Hc & ->)|[-> _]]; [left; by rewrite Hsame|by right].
Qed.
Lemma upsert_channel_ids channels row id : id ∈ (cc_id <$> upsert_channel channels row) <-> id ∈ (cc_id <$> channels) \/ id = cc_id row.
Proof.
  rewrite list_elem_of_fmap. setoid_rewrite upsert_channel_elem. split.
  - intros (c' & -> & [(c & Hc & ->)|[-> _]]); [left; rewrite touched_id; by apply list_elem_of_fmap_2|by right].
  - intros [(c & -> & Hc)%list_elem_of_fmap| ->].
    + exists (touched c row). split; [by rewrite touched_id|]. left. by exists c.
    + destruct (decide (cc_id row ∈ (cc_id <$> channels))) as [(c & Hid & Hc)%list_elem_of_fmap|Hn].
      * exists (touched c row). split; [by rewrite touched_id|]. left. by exists c.
      * exists row. split; [done|]. by right.
Qed.
Lemma upsert_channels_elem rows channels c' :
  NoDup (cc_id <$> rows) ->
  c' ∈ fold_left upsert_channel rows channels <->
  (exists c, c ∈ channels /\ c' = fold_left touched rows c) \/ (c' ∈ rows /\ cc_id c' ∉ (cc_id <$> channels)).
Proof.
  revert channels. induction rows as [|row rows IH]; intros channels Hnd; cbn [fold_left].
  { split; [intros H; left; by exists c'|]. intros [(c & Hc & ->)|[H _]]; [done|by apply elem_of_nil in H]. }
  cbn in Hnd. inversion_clear Hnd as [|? ? Hrow Hnd']. rewrite (IH _ Hnd'). rewrite upsert_channel_ids. setoid_rewrite upsert_channel_elem. rewrite elem_of_cons. split.
  - intros [(c1 & [(c & Hc & ->)|[-> Hn]] & ->)|[Hin Hn]].
    + left. by exists c.
    + right. rewrite touched_all_other by done. by split; [left|].
    + right. split; [by right|]. tauto.
  - intros [(c & Hc & ->)|[[->|Hin] Hn]].
    + left. exists (touched c row). split; [left; by exists c|done].
    + left. exists row. split; [by right|]. by rewrite touched_all_other.
    + right. split; [done|]. intros [?|E]; [done|]. apply Hrow. rewrite <- E. by apply list_elem_of_fmap_2.
Qed.

(** What the statement on channels does, when the identifiers of new channels are
    free *)
Definition titled_by (c : CandidateRow) : text * option text * option text := (cd_name c, cd_group_name c, cd_logo_url c).
Definition fresh_ids (account : Z) (keys : list text) (channels : list CanonicalChannel) : Prop :=
  forall key, key ∈ keys -> existing_channel account key channels = None -> channel_uuid account key ∉ (cc_id <$> channels).
Lemma existing_channel_some account key channels c :
  existing_channel account key channels = Some c -> c ∈ channels /\ canonical_index c = Some (account, key).
Proof. intros H. apply find_elem in H as [Hin Hb]. by apply bool_decide_eq_true in Hb. Qed.
Lemma existing_channel_none account key channels c :
  existing_channel account key channels = None -> c ∈ channels -> canonical_index c <> Some (account, key).
Proof.
  intros H Hin E. apply list_elem_of_In in Hin. apply (List.find_none _ _ H) in Hin. by rewrite bool_decide_true in Hin.
Qed.

Lemma fold_touched_index rows c : canonical_index (fold_left touched rows c) = canonical_index c.
Proof. revert c. induction rows as [|row rows IH]; intros c; [done|]. cbn. rewrite IH. unfold touched. by destruct (_ && _). Qed.

(** A channel that is kept has its identifier, number, switch and owner. *)
Definition kept_channel (c c' : CanonicalChannel) : Prop :=
  cc_id c' = cc_id c /\ cc_channel_number c' = cc_channel_number c /\ cc_enabled c' = cc_enabled c /\ cc_managed_by c' = cc_managed_by c /\
  canonical_index c' = canonical_index c.
Definition new_channel (account : Z) (key : text) (c' : CanonicalChannel) : Prop :=
  cc_id c' = channel_uuid account key /\ cc_managed_by c' = Automatic /\ canonical_index c' = Some (account, key).
(** The channel of a key, by what was there before *)
Definition channel_for (account : Z) (key : text) (channels : list CanonicalChannel) (c' : CanonicalChannel) : Prop :=
  match existing_channel account key channels with Some c => kept_channel c c' | None => new_channel account key c' end.
Definition in_keys_of (account : Z) (keys : list text) (c : CanonicalChannel) : Prop :=
  exists key, key ∈ keys /\ canonical_index c = Some (account, key).

Section Upsert.
Context (env : PublishEnv) (account run : Z) (db : Catalog) (streams : list PreparedProviderStream) (keys : list text).
Hypothesis (constraints : ChannelConstraints db).
Hypothesis (candidates : forall c, c ∈ run_candidates run (ca_queue db) <-> exists key, key ∈ keys /\ c = grouped run streams key).
Hypothesis (free : fresh_ids account keys (ca_channels db)).
Let rows := List.filter (proposed account (ca_channels db))
  (imap (channel_row collates channel_uuid account env (ca_channels db) (run_candidates run (ca_queue db))) (run_candidates run (ca_queue db))).

Lemma row_elem row :
  row ∈ rows <-> exists i key, key ∈ keys /\ run_candidates run (ca_queue db) !! i = Some (grouped run streams key) /\
    row = channel_row collates channel_uuid account env (ca_channels db) (run_candidates run (ca_queue db)) i (grouped run streams key) /\
    proposed account (ca_channels db) row = true.
Proof using candidates.
  unfold rows. rewrite elem_filtered, elem_of_lookup_imap. split.
  - intros [(i & cand & -> & Hi) Hp]. pose proof Hi as Hin%list_elem_of_lookup_2. apply candidates in Hin as (key & Hk & ->). by exists i, key.
  - intros (i & key & _ & Hi & -> & Hp). split; [by exists i, (grouped run streams key)|done].
Qed.
Lemma key_row key :
  key ∈ keys -> exists i, run_candidates run (ca_queue db) !! i = Some (grouped run streams key).
Proof using candidates. intros Hk. apply list_elem_of_lookup_1, candidates. by exists key. Qed.
Lemma row_index row c : row ∈ rows -> c ∈ ca_channels db -> cc_id c = cc_id row -> exists key, key ∈ keys /\ canonical_index c = Some (account, key) /\
  titled row = titled_by (grouped run streams key).
Proof using candidates constraints free.
  intros (i & key & Hk & _ & -> & _)%row_elem Hc Hid. exists key. split_and!; [done| |done]. cbn in Hid.
  destruct (existing_channel account key (ca_channels db)) as [e|] eqn:He.
  - apply existing_channel_some in He as [Hin Hidx]. assert (c = e) as -> by (by eapply (fmap_unique cc_id); [apply (channels_pkey _ constraints)|..]). done.
  - exfalso. apply (free key Hk He). rewrite <- Hid. by apply list_elem_of_fmap_2.
Qed.
Lemma index_unique c c' i : c ∈ ca_channels db -> c' ∈ ca_channels db -> canonical_index c = Some i -> canonical_index c' = Some i -> c = c'.
Proof using constraints.
  intros Hc Hc' E E'. pose proof (channels_keys _ constraints) as Hnd. unfold unique_index in Hnd. clear -Hnd Hc Hc' E E'.
  induction (ca_channels db) as [|x l IH]; [by apply elem_of_nil in Hc|]. cbn in Hnd.
  assert (forall y j, y ∈ l -> canonical_index y = Some j -> j ∈ omap canonical_index l) as Hin by (intros y j Hy Hj; apply list_elem_of_omap; by exists y).
  apply elem_of_cons in Hc as [->|Hc], Hc' as [->|Hc']; [done|..].
  - rewrite E in Hnd. inversion_clear Hnd as [|? ? Hn _]. exfalso. by eapply Hn, Hin.
  - rewrite E' in Hnd. inversion_clear Hnd as [|? ? Hn _]. exfalso. by eapply Hn, Hin.
  - apply IH; try done. destruct (canonical_index x); [by inversion_clear Hnd|done].
Qed.

Lemma upserted_channels db' n :
  upsert_candidate_channels collates channel_uuid env account run db = Ok (db', n) ->
  (forall key, key ∈ keys ->
     exists c', c' ∈ ca_channels db' /\ channel_for account key (ca_channels db) c' /\ titled c' = titled_by (grouped run streams key)) /\
  (forall c, ~ in_keys_of account keys c -> c ∈ ca_channels db' <-> c ∈ ca_channels db) /\
  ca_links db' = ca_links db /\ ca_mappings db' = ca_mappings db /\ ChannelConstraints db'.
Proof using candidates constraints free.
  unfold upsert_candidate_channels. fold rows. destruct (bool_decide _) eqn:Hnd; cbn [negb]; [|done]. apply bool_decide_eq_true in Hnd.
  destruct (statement _) as [x|] eqn:Hs; [|done]. apply statement_ok in Hs as [-> Hc']. intros [= <- _]. cbn. split_and!; [..|done|done|done].
  - intros key Hk. destruct (key_row key Hk) as [i Hi]. unfold channel_for.
    set (row := channel_row collates channel_uuid account env (ca_channels db) (run_candidates run (ca_queue db)) i (grouped run streams key)).
    destruct (existing_channel account key (ca_channels db)) as [e|] eqn:He.
    + pose proof He as [Hin Hidx]%existing_channel_some. exists (fold_left touched rows e). split; [apply upsert_channels_elem; [done|]; left; by exists e|].
      destruct (decide (cc_id e ∈ (cc_id <$> rows))) as [(x & Hid & Hx)%list_elem_of_fmap|Hno].
      * rewrite (touched_all_one rows x) by done. destruct (row_index x e Hx Hin Hid) as (key' & _ & Hidx' & Ht). rewrite Hidx in Hidx'. injection Hidx' as <-.
        rewrite <- Ht. unfold touched. rewrite (proj2 (Z.eqb_eq _ _) Hid). cbn [andb]. destruct (bool_decide (titled e = titled x)) eqn:Hb; cbn [negb].
        -- apply bool_decide_eq_true in Hb. split; [by split_and!|done].
        -- split; [by split_and!|done].
      * rewrite touched_all_other by done. split; [by split_and!|]. destruct (decide (titled e = titled row)) as [Ht|Ht]; [by rewrite Ht|].
        exfalso. apply Hno. replace (cc_id e) with (cc_id row) by (cbn; by rewrite He). apply list_elem_of_fmap_2, row_elem. exists i, key. split_and!; try done.
        unfold proposed. cbn. rewrite He. by rewrite bool_decide_false.
    + exists row. split; [|split; [split_and!; [|done|done]|done]].
      * apply upsert_channels_elem; [done|]. right. split.
        -- apply row_elem. exists i, key. split_and!; try done. unfold proposed. cbn. by rewrite He.
        -- cbn. rewrite He. by apply free.
      * cbn. by rewrite He.
  - intros c Hno. rewrite upsert_channels_elem by done. split.
    + intros [(c0 & Hc0 & ->)|[Hrow _]].
      * destruct (decide (cc_id c0 ∈ (cc_id <$> rows))) as [(x & Hid & Hx)%list_elem_of_fmap|Hn]; [|by rewrite touched_all_other].
        destruct (row_index x c0 Hx Hc0 Hid) as (key & Hk & Hidx & _). exfalso. apply Hno. exists key. by rewrite fold_touched_index.
      * apply row_elem in Hrow as (i & key & Hk & _ & -> & _). exfalso. apply Hno. by exists key.
    + intros Hc. left. exists c. split; [done|]. rewrite touched_all_other; [done|]. intros (x & Hid & Hx)%list_elem_of_fmap.
      destruct (row_index x c Hx Hc Hid) as (key & Hk & Hidx & _). apply Hno. by exists key.
Qed.
End Upsert.
End Spec.
