(* ===== verification/PublishExact.v ===== *)
(** * A publication is exact

    The links of the channels that a publication shows, and the theorem: what is
    published is the catalogue of the snapshot, whatever the partitions and the
    order of the work. *)
From Stdlib Require Import ZArith Lia.
From stdpp Require Import base numbers option strings relations.
From stdpp Require Import list.
From S2P Require Import Prelude Text Sort F32 Events Settings Redact Xtream Ingest Store Jobs JobsSpec Publish PublishSpec.
Open Scope Z_scope.
Open Scope relay_scope.

Section Exact.
Context (json_text : Value -> text) (uuid_text time_text : Z -> text) (parse_uuid : text -> option Z) (fetched_at : Z -> Z).
Context (hash : text -> Z) (collates : text -> text -> bool) (channel_uuid : Z -> text -> Z).
Abbreviation partition_of := (partition_of hash).
Abbreviation queue_op := (queue_op json_text uuid_text parse_uuid).
Abbreviation create_or_load := (create_or_load_provider_reconciliation_run json_text uuid_text hash).
Abbreviation process_partition := (process_provider_reconciliation_partition json_text hash).
Abbreviation finalize := (finalize_provider_reconciliation json_text uuid_text time_text fetched_at collates channel_uuid).
Abbreviation rollback := (rollback_reconciliation json_text).
Abbreviation publish_inv := (publish_inv hash).
Abbreviation channel_for := (channel_for channel_uuid).
Abbreviation fresh_ids := (fresh_ids channel_uuid).

(** ** Links *)

Definition link_key (l : StreamLink) : Z * Z := (ln_channel_id l, ln_provider_stream_id l).
Lemma same_link_iff a b : same_link a b = true <-> link_key a = link_key b.
Proof.
  unfold same_link, link_key. rewrite andb_true_iff, !Z.eqb_eq. split; [intros [-> ->]; done|intros [= -> ->]; done].
Qed.
Lemma upsert_link_elem links row l : l ∈ upsert_link links row <-> l = row \/ l ∈ links /\ link_key l <> link_key row.
Proof.
  assert (forall x, same_link row x = false <-> link_key x <> link_key row) as Hneg.
  { intros x. rewrite <- not_true_iff_false, same_link_iff. split; intros H E; by apply H. }
  assert (forall x, same_link row x = true -> set_priority x (ln_priority row) (ln_evidence row) = row) as Hset.
  { intros x [= E1 E2]%same_link_iff. unfold set_priority. rewrite <- E1, <- E2. by destruct row. }
  unfold upsert_link. destruct (existsb (same_link row) links) eqn:He.
  - rewrite elem_mapped. split.
    + intros (x & -> & Hx). destruct (same_link row x) eqn:E; [left; by apply Hset|right; by rewrite <- Hneg].
    + intros [->|[Hl Hn]].
      * apply existsb_exists in He as (x & Hx%list_elem_of_In & Hs). exists x. rewrite Hs. split; [by rewrite Hset|done].
      * exists l. by rewrite (proj2 (Hneg l) Hn).
  - rewrite elem_of_app, list_elem_of_singleton. split; [|tauto]. intros [Hl| ->]; [|by left]. right. split; [done|]. apply Hneg.
    destruct (same_link row l) eqn:E; [|done]. assert (existsb (same_link row) links = true) as H; [|congruence].
    apply existsb_exists. exists l. split; [by apply list_elem_of_In|done].
Qed.

(** The streams of a key in the order of their priority *)
Definition stream_order (ids : list Z) : list Z := stable_sort Z.ltb (remove_dups ids).
Lemma stream_order_elem ids id : id ∈ stream_order ids <-> id ∈ ids.
Proof. unfold stream_order. by rewrite stable_sort_perm, elem_of_remove_dups. Qed.
Lemma stream_order_NoDup ids : NoDup (stream_order ids).
Proof. unfold stream_order. rewrite stable_sort_perm. apply NoDup_remove_dups. Qed.
Lemma sort_Z_perm l l' : l ≡ₚ l' -> stable_sort Z.ltb l = stable_sort Z.ltb l'.
Proof.
  intros Hp. assert (forall l, stable_sort Z.ltb l = stable_sort (fun x y => negb (y <=? x)) l) as E.
  { intros k. pose proof (stable_sort_map (fun x : Z => x) Z.ltb (fun x y => negb (y <=? x)) k) as H. rewrite !map_id in H. apply H.
    intros x y. cbn. lia. }
  rewrite !E. apply (stable_sort_unique Z.leb); [intros; lia..|done].
Qed.
Lemma stream_order_same ids ids' : (forall id, id ∈ ids <-> id ∈ ids') -> stream_order ids = stream_order ids'.
Proof.
  intros H. apply sort_Z_perm, NoDup_Permutation; [apply NoDup_remove_dups..|]. intros id. by rewrite !elem_of_remove_dups.
Qed.

(** The rows of the statement on links *)
Definition link_evidence (env : PublishEnv) (run : Z) : Value :=
  JObject [(str "reconciled", JString (time_text (qe_now (pe_queue env)))); (str "runId", JString (uuid_text run))].
Definition channel_links (evidence : Value) (channel_id : Z) (ids : list Z) : list StreamLink :=
  imap (fun i stream_id => mkStreamLink channel_id stream_id (Z.of_nat i) evidence) ids.
Lemma channel_links_elem evidence channel ids l :
  l ∈ channel_links evidence channel ids <-> exists i stream, ids !! i = Some stream /\ l = mkStreamLink channel stream (Z.of_nat i) evidence.
Proof. unfold channel_links. rewrite elem_of_lookup_imap. naive_solver. Qed.
Lemma channel_links_keys evidence channel ids : link_key <$> channel_links evidence channel ids = (fun id => (channel, id)) <$> ids.
Proof. unfold channel_links. rewrite fmap_imap. exact (imap_const (fun id => (channel, id)) ids). Qed.
Lemma concat_links_NoDup evidence (ids : CanonicalChannel -> list Z) channels :
  NoDup (cc_id <$> channels) -> (forall c, NoDup (ids c)) ->
  NoDup (link_key <$> List.concat (List.map (fun c => channel_links evidence (cc_id c) (ids c)) channels)).
Proof.
  intros Hnd Hids. induction channels as [|c channels IH]; cbn; [constructor|]. cbn in Hnd. inversion_clear Hnd as [|? ? Hc Hnd'].
  rewrite fmap_app. apply NoDup_app. split_and!; [|intros x Hx Hx'|by apply IH].
  - rewrite channel_links_keys. apply NoDup_fmap_2; [intros a b [= ?]; done|apply Hids].
  - rewrite channel_links_keys in Hx. apply list_elem_of_fmap in Hx as (id & -> & _). apply list_elem_of_fmap in Hx' as (l & Hl & Hin).
    apply list_elem_of_In, in_concat in Hin as (ls & Hls & Hin). apply in_map_iff in Hls as (d & <- & Hd). apply list_elem_of_In, channel_links_elem in Hin as (i & s & _ & ->).
    injection Hl as Hl _. apply Hc. rewrite Hl. apply list_elem_of_fmap_2. by apply list_elem_of_In.
Qed.

Section Links.
Context (env : PublishEnv) (account run : Z) (streams : list PreparedProviderStream) (q : JobTables).
Hypothesis (prepared : forall x, (x ∈ jt_candidate_streams q /\ cn_run_id x = run) <->
  exists s, s ∈ streams /\ x = mkCandidateStream run (canonical_key s) (ps_id s)).

(** The streams of a key, among the candidates and in the snapshot *)
Definition ids_of_key (key : text) : list Z := List.map ps_id (of_key key streams).
Lemma prepared_ids key id :
  id ∈ List.map cn_provider_stream_id (List.filter (fun s => (cn_run_id s =? run) && bool_decide (cn_canonical_key s = key)) (jt_candidate_streams q)) <->
  id ∈ ids_of_key key.
Proof using prepared.
  unfold ids_of_key, of_key. rewrite !elem_mapped. setoid_rewrite elem_filtered. setoid_rewrite andb_true_iff. setoid_rewrite Z.eqb_eq.
  setoid_rewrite bool_decide_eq_true. split.
  - intros (x & -> & Hx & Hr & Hk). destruct (proj1 (prepared x) (conj Hx Hr)) as (s & Hs & ->). exists s. split_and!; done.
  - intros (s & -> & Hs & Hk). destruct (proj2 (prepared (mkCandidateStream run (canonical_key s) (ps_id s)))) as [Hx Hr]; [by exists s|].
    exists (mkCandidateStream run (canonical_key s) (ps_id s)). by split_and!.
Qed.
Lemma candidate_link_iff key id : is_candidate_link run q key id = true <-> id ∈ ids_of_key key.
Proof using prepared.
  rewrite <- prepared_ids, elem_mapped. setoid_rewrite elem_filtered. unfold is_candidate_link. rewrite existsb_exists. split.
  - intros (x & Hx%list_elem_of_In & Hb). apply andb_true_iff in Hb as [Hb Hid%Z.eqb_eq]. by exists x.
  - intros (x & -> & Hx & Hb). exists x. split; [by apply list_elem_of_In|]. by rewrite Hb, Z.eqb_refl.
Qed.

Definition key_ids (c : CanonicalChannel) : list Z := match cc_canonical_key c with Some key => stream_order (ids_of_key key) | None => [] end.
Lemma candidate_links_rows evidence db :
  ca_queue db = q ->
  candidate_links account run evidence db =
  List.concat (List.map (fun c => channel_links evidence (cc_id c) (key_ids c)) (List.filter (automatic_of account) (ca_channels db))).
Proof using prepared.
  intros Hq. unfold candidate_links. rewrite Hq. f_equal. apply map_ext. intros c. unfold key_ids. destruct (cc_canonical_key c) as [key|]; [|done].
  unfold channel_links. f_equal. apply (stream_order_same _ _ (prepared_ids key)).
Qed.

Lemma automatic_rows_elem evidence channels l :
  l ∈ List.concat (List.map (fun c => channel_links evidence (cc_id c) (key_ids c)) (List.filter (automatic_of account) channels)) <->
  exists c, c ∈ channels /\ automatic_of account c = true /\ l ∈ channel_links evidence (cc_id c) (key_ids c).
Proof.
  rewrite list_elem_of_In, in_concat. split.
  - intros (ls & Hls & Hl). apply in_map_iff in Hls as (c & <- & Hc). apply filter_In in Hc as [Hc Ha]. exists c.
    split_and!; [by apply list_elem_of_In|done|by apply list_elem_of_In].
  - intros (c & Hc & Ha & Hl). eexists. split; [apply in_map_iff; exists c; split; [done|]; apply filter_In; split; [by apply list_elem_of_In|done]|by apply list_elem_of_In].
Qed.
Lemma on_automatic_iff channels l :
  on_automatic account channels l = true <-> exists c, c ∈ channels /\ cc_id c = ln_channel_id l /\ automatic_of account c = true.
Proof.
  unfold on_automatic. rewrite existsb_exists. split.
  - intros (c & Hc%list_elem_of_In & Hb). apply andb_true_iff in Hb as [Hid%Z.eqb_eq Ha]. by exists c.
  - intros (c & Hc & Hid & Ha). exists c. split; [by apply list_elem_of_In|]. by rewrite Hid, Z.eqb_refl.
Qed.

Lemma linked_channels db1 db2 n2 db3 n3 :
  ca_queue db1 = q -> ChannelConstraints db1 -> remove_stale_candidate_channel_stream_links account run db1 = Ok (db2, n2) ->
  upsert_candidate_channel_stream_links uuid_text time_text env account run db2 = Ok (db3, n3) ->
  ca_channels db3 = ca_channels db1 /\ ca_mappings db3 = ca_mappings db1 /\
  (forall c l, c ∈ ca_channels db1 -> automatic_of account c = true -> ln_channel_id l = cc_id c ->
     l ∈ ca_links db3 <-> l ∈ channel_links (link_evidence env run) (cc_id c) (key_ids c)) /\
  (forall l, on_automatic account (ca_channels db1) l = false -> l ∈ ca_links db3 <-> l ∈ ca_links db1).
Proof.
  intros Hq Hcon. unfold remove_stale_candidate_channel_stream_links. destruct (statement _) as [x|] eqn:Hs; [|done]. apply statement_ok in Hs as [-> _].
  destruct (statement _) as [y|] eqn:Hs; [|done]. apply statement_ok in Hs as [-> _]. intros [= <- _].
  unfold upsert_candidate_channel_stream_links. destruct (statement _) as [z|] eqn:Hs; [|done]. apply statement_ok in Hs as [-> _]. intros [= <- _].
  rewrite candidate_links_rows by done. cbn [ca_channels ca_mappings ca_links with_channels]. pose proof (channels_pkey _ Hcon) as Hnd.
  fold (link_evidence env run). set (evidence := link_evidence env run). set (rows := List.concat _).
  assert (NoDup (link_key <$> rows)) as Hrows.
  { apply concat_links_NoDup; [|intros c; unfold key_ids; destruct (cc_canonical_key c); [apply stream_order_NoDup|constructor]].
    by apply filtered_keys_NoDup. }
  split_and!; [done|done|..].
  - intros c l Hc Ha Hl. rewrite (upserts_elem link_key upsert_link upsert_link_elem) by exact Hrows. split.
    + intros [Hrow|[Hold Hn]].
      * apply automatic_rows_elem in Hrow as (d & Hd & _ & Hin). assert (d = c) as -> by
          (eapply (fmap_unique cc_id); [done..|]; apply channel_links_elem in Hin as (i & s & _ & ->); done). done.
      * exfalso. apply elem_filtered in Hold as [_ Hstale%negb_true_iff]. apply not_true_iff_false in Hstale. apply Hstale.
        unfold stale_link. cbn [ca_channels ca_queue with_channels]. apply existsb_exists. exists c. split; [by apply list_elem_of_In|].
        rewrite Hl, Z.eqb_refl, Ha. cbn [andb]. rewrite Hq. destruct (cc_canonical_key c) as [key|] eqn:Hk; [|done].
        destruct (is_candidate_link run q key (ln_provider_stream_id l)) eqn:Hcl; [exfalso|done].
        apply candidate_link_iff, (stream_order_elem (ids_of_key key)), list_elem_of_lookup in Hcl as [i Hi]. apply Hn.
        apply list_elem_of_fmap. exists (mkStreamLink (cc_id c) (ln_provider_stream_id l) (Z.of_nat i) evidence). split; [unfold link_key; cbn; by rewrite Hl|].
        apply automatic_rows_elem. exists c. split_and!; [done|done|]. apply channel_links_elem. exists i, (ln_provider_stream_id l).
        unfold key_ids. by rewrite Hk.
    + intros Hin. left. apply automatic_rows_elem. by exists c.
  - intros l Hno. rewrite (upserts_elem link_key upsert_link upsert_link_elem) by exact Hrows. apply not_true_iff_false in Hno.
    assert (forall x, link_key x = link_key l -> x ∉ rows) as Hnorow.
    { intros x Hx (c & Hc & Ha & Hin)%automatic_rows_elem. apply Hno, on_automatic_iff. exists c. split_and!; [done| |done].
      apply channel_links_elem in Hin as (i & s & _ & ->). by injection Hx as -> _. }
    assert (link_key l ∉ (link_key <$> rows)) as Hn by (intros (x & Hx & Hin)%list_elem_of_fmap; by apply (Hnorow x)).
    split.
    + intros [Hrow|[Hold _]]; [by apply Hnorow in Hrow|]. apply elem_filtered in Hold as [Hold _]. apply elem_mapped in Hold as (x & Hx & Hin).
      destruct (on_automatic account (ca_channels db1) x) eqn:Hon; [|by subst]. exfalso. apply Hno. rewrite on_automatic_iff in Hon |- *. subst l. done.
    + intros Hin. right. split; [|done]. apply elem_filtered. split.
      * apply elem_mapped. exists l. split; [|done]. by rewrite (proj1 (not_true_iff_false _) Hno).
      * apply negb_true_iff, not_true_iff_false. intros Hst. apply Hno, on_automatic_iff. unfold stale_link in Hst. cbn [ca_channels with_channels] in Hst.
        apply existsb_exists in Hst as (c & Hc%list_elem_of_In & Hb). rewrite !andb_true_iff in Hb. destruct Hb as [[Hid%Z.eqb_eq Ha] _]. by exists c.
Qed.
End Links.

(** ** Steps *)

(** Other transactions change neither the runs nor the streams of those in
    progress; a revision that they add holds the state they leave. *)
Definition other_step (db db' : Catalog) : Prop :=
  ChannelConstraints db' /\ same_runs (ca_queue db) (ca_queue db') /\
  (forall row, row ∈ ca_revisions db' -> row ∈ ca_revisions db \/ rv_after_value row = capture_reconciliation_snapshot (rv_account_id row) db') /\
  forall r, r ∈ jt_runs (ca_queue db) -> in_progress r ->
    supported_streams (rn_source_snapshot_id r) (ca_store db') = supported_streams (rn_source_snapshot_id r) (ca_store db).
Inductive publish_step : Catalog -> Catalog -> Prop :=
| step_create env snapshot parent count db db' a : create_or_load env snapshot parent count db = Ok (db', a) -> publish_step db db'
| step_prepare env entry db db' a : prepare_entry json_text uuid_text parse_uuid hash env entry db = (db', a) -> publish_step db db'
| step_partition env run number worker job db db' a : process_partition env run number worker job db = Ok (db', a) -> publish_step db db'
| step_finalize env run parent finalizer worker db db' a : finalize env run parent finalizer worker db = Ok (db', a) -> publish_step db db'
| step_rollback env referenced account target actor db db' a :
    rollback env referenced account target actor db = Ok (db', a) -> publish_step db db'
| step_queue env op db q o :
    deletes_source op = false -> queue_op env op (ca_queue db) = Ok (q, o) -> publish_step db (with_queue db q)
| step_other db db' : other_step db db' -> publish_step db db'.

(** A database without runs and revisions *)
Definition before_runs (db : Catalog) : Prop :=
  ChannelConstraints db /\ jt_runs (ca_queue db) = [] /\ jt_partitions (ca_queue db) = [] /\ jt_candidates (ca_queue db) = [] /\
  jt_candidate_streams (ca_queue db) = [] /\ ca_revisions db = [].

Lemma other_keeps db db' : publish_inv db -> other_step db db' -> publish_inv db'.
Proof.
  intros Hinv (Hc & Hsame & _ & Hs). pose proof Hinv as (_ & Hl & _). pose proof Hsame as (E1 & E2 & E3 & E4).
  apply (inv_step hash db); [done|done| |by apply kept_same|].
  - unfold tables_linked. by rewrite E1, E2, E3, E4.
  - rewrite E1. intros r Hr. right. exists r. split_and!; [done|apply same_run_refl|]. intros Hp. right. split_and!; [done|by apply agree_same|by apply Hs].
Qed.
Lemma prepare_keeps env entry db db' a :
  publish_inv db -> prepare_entry json_text uuid_text parse_uuid hash env entry db = (db', a) -> publish_inv db'.
Proof.
  intros Hinv. unfold prepare_entry. destruct (payload_snapshot _ _) as [snapshot|]; [|by intros [= <- _]].
  destruct (create_or_load_provider_reconciliation_run _ _ _ _ _ _ _ _) as [[db1 [r|e]]|e] eqn:Hc; [|intros [= <- _]; by eapply create_keeps|by intros [= <- _]].
  assert (publish_inv db1) as Hinv1 by (by eapply create_keeps). destruct (commit _ _ _) as [[db2 u]|e] eqn:Hm; intros [= <- _]; [|done].
  apply commit_ok in Hm as (-> & _ & Hcon & Hl). by apply (inv_same_runs hash db1).
Qed.
Lemma step_keeps db db' : publish_step db db' -> publish_inv db -> publish_inv db'.
Proof.
  intros Hstep Hinv. destruct Hstep as [env snapshot parent count db db' a H|env entry db db' a H|env run number worker job db db' a H|env run parent finalizer worker db db' a H
    |env referenced account target actor db db' a H|env op db q o Hkeep H|db db' H].
  - by eapply create_keeps.
  - by eapply prepare_keeps.
  - by eapply partition_keeps.
  - by eapply finalize_keeps.
  - by eapply rollback_keeps.
  - by eapply queue_keeps.
  - by eapply other_keeps.
Qed.
Lemma steps_keep db db' : before_runs db -> rtc publish_step db db' -> publish_inv db'.
Proof.
  intros (Hc & E1 & E2 & E3 & E4 & _) Hsteps. assert (publish_inv db) as Hinv.
  { split_and!; [done|unfold tables_linked; rewrite E1, E2, E3, E4; split_and!; constructor|rewrite E1; constructor|].
    rewrite E1. by intros r Hr%elem_of_nil. }
  clear -Hsteps Hinv. induction Hsteps as [|x y z Hxy _ IH]; [done|]. by apply IH, (step_keeps x).
Qed.

(** ** The publication *)

Lemma finalize_published env run parent finalizer worker db db' stats :
  finalize env run parent finalizer worker db = Ok (db', Published stats) ->
  exists r snapshot q,
    find_run run (ca_queue db) = Some r /\ in_progress r /\
    Forall (fun p => pt_run_id p = run -> pt_status p = "succeeded"%string) (jt_partitions (ca_queue db)) /\
    snapshot ∈ db_snapshots (ca_store db) /\ sr_id snapshot = rn_source_snapshot_id r /\ sr_status snapshot = StatusStaging /\
    same_runs (ca_queue db) q /\
    publish_candidates json_text uuid_text time_text collates channel_uuid env (rn_provider_account_id r) (rn_source_snapshot_id r) run
      (with_queue db q) = Ok (db', stats).
Proof.
  unfold finalize_provider_reconciliation. destruct (refresh_parent _ _) as [row|]; [|done]. destruct (negb _).
  { unfold Publish.commit. by destruct (decide _). }
  destruct (List.find _ (jt_jobs _)) as [fin|]; [|done]. destruct (bool_decide _); [done|]. destruct (find_run _ _) as [r|] eqn:Hr; [|done].
  destruct (List.find _ (db_snapshots _)) as [snap|] eqn:Hsnap; [|done]. destruct (bool_decide _); [done|].
  destruct (bool_decide (rn_status r = _)) eqn:Hst; cbn [negb]; [|done]. destruct (existsb _ _) eqn:Hdone.
  { by destruct (provider_reconciliation_progress _ _). }
  cbn zeta. destruct (_ || _) eqn:Hready; [done|].
  apply orb_false_iff in Hready as [[_ Hstaging%negb_false_iff%bool_decide_eq_true]%orb_false_iff _].
  destruct (newer_active _ _ _ _). { unfold Publish.commit. by destruct (decide _). }
  destruct (negb _); [done|]. destruct (negb _); [done|].
  destruct (publish_candidates _ _ _ _ _ _ _ _ _ _) as [[db1 st]|] eqn:Hp; [|done].
  intros [= <- <-]. apply find_elem in Hsnap as [Hin [Hid%Z.eqb_eq _]%andb_true_iff].
   apply bool_decide_eq_true in Hst.
  eexists r, snap, _. split_and!; [done|done| |done|done|done| |exact Hp]; [|done].
  apply Forall_forall. intros p Hpin Hpr. destruct (decide (pt_status p = "succeeded"%string)) as [E|E]; [done|].
  assert (existsb (fun p => (pt_run_id p =? run) && negb (bool_decide (pt_status p = "succeeded"%string))) (jt_partitions (ca_queue db)) = true) as Ht; [|congruence].
  apply existsb_exists. exists p. split; [by apply list_elem_of_In|]. by rewrite Hpr, Z.eqb_refl, bool_decide_false.
Qed.

(** When every partition is done the candidates are those of the snapshot. *)
Lemma all_prepared db run r :
  publish_inv db -> find_run run (ca_queue db) = Some r -> in_progress r ->
  Forall (fun p => pt_run_id p = run -> pt_status p = "succeeded"%string) (jt_partitions (ca_queue db)) ->
  let streams := supported_streams (rn_source_snapshot_id r) (ca_store db) in
  (forall c, c ∈ run_candidates run (ca_queue db) <-> exists key, key ∈ canonical_keys streams /\ c = grouped run streams key) /\
  (forall x, (x ∈ jt_candidate_streams (ca_queue db) /\ cn_run_id x = run) <->
     exists s, s ∈ streams /\ x = mkCandidateStream run (canonical_key s) (ps_id s)).
Proof.
  intros (_ & _ & Hshape & Hok) Hrun Hpr Hdone streams. apply find_elem in Hrun as [Hr Hid%Z.eqb_eq]. subst run.
  destruct (Hok r Hr Hpr) as [Hcands Hlinks]. rewrite Forall_forall in Hshape. destruct (Hshape r Hr) as [Hcount Hcover]. rewrite Forall_forall in Hdone.
  assert (forall key, succeeded (ca_queue db) (rn_id r) (partition_of (rn_partition_count r) key)) as Hall.
  { intros key. destruct (Hcover _ (partition_range hash (rn_partition_count r) key Hcount)) as (p & Hp & Hpid & Hn). exists p. split_and!; [done|done|done|by apply Hdone]. }
  split.
  - intros c. unfold run_candidates. rewrite elem_filtered, Z.eqb_eq, Hcands. split; [intros (key & Hk & _ & ->)|intros (key & Hk & ->)]; exists key; by split_and!.
  - intros x. rewrite Hlinks. split; [intros (s & Hs & _ & ->)|intros (s & Hs & ->)]; exists s; by split_and!.
Qed.

(** The snapshots of the account *)
Lemma commit_store {A} db (a a' : A) db' : commit json_text db a = Ok (db', a') -> Constraints (ca_store db').
Proof. unfold commit. destruct (decide _) as [(_ & _ & H & _)|]; [|done]. by intros [= <- _]. Qed.
Lemma publish_candidates_store env account snapshot run db db' stats :
  publish_candidates json_text uuid_text time_text collates channel_uuid env account snapshot run db = Ok (db', stats) -> Constraints (ca_store db').
Proof.
  unfold publish_candidates. destruct (upsert_candidate_channels _ _ _ _ _ _) as [[db1 n1]|]; [|done].
  destruct (remove_stale_candidate_channel_stream_links _ _ _) as [[db2 n2]|]; [|done].
  destruct (upsert_candidate_channel_stream_links _ _ _ _ _ _) as [[db3 n3]|]; [|done]. cbn zeta. unfold remove_candidate_orphaned_channels. destruct (negb _); [done|].
  apply commit_store.
Qed.
Lemma activated_snapshots now account store snapshot row :
  snapshot ∈ db_snapshots store -> sr_status snapshot = StatusStaging -> NoDup (snapshot_ids (activate_snapshot now account (sr_id snapshot) store)) ->
  row ∈ db_snapshots (activate_snapshot now account (sr_id snapshot) store) -> sr_provider_account_id row = Some account -> provider_kind (sr_kind row) = true ->
  sr_status row = StatusActive <-> sr_id row = sr_id snapshot.
Proof.
  intros Hin Hstaging Hnd Hrow Hacc Hkind. unfold activate_snapshot in Hrow, Hnd. cbn in Hrow. rewrite map_map in Hrow.
  unfold snapshot_ids in Hnd. cbn in Hnd. rewrite map_map in Hnd. apply elem_mapped in Hrow as (x & -> & Hx).
  assert (sr_id x = sr_id snapshot -> x = snapshot) as Huniq.
  { apply (fmap_unique sr_id (db_snapshots store)); [|done|done]. revert Hnd. match goal with |- NoDup ?l -> _ => replace l with (sr_id <$> db_snapshots store) end; [done|].
    change (List.map ?f ?l) with (f <$> l). rewrite <- list_fmap_compose. apply list_fmap_ext. intros i y _. cbn. unfold active_of_account, staging_snapshot.
    repeat case_match; done. }
  revert Hacc Hkind. unfold active_of_account, staging_snapshot. destruct (Z.eqb_spec (sr_id x) (sr_id snapshot)) as [E|E].
  - rewrite (Huniq E). rewrite andb_false_r. cbn. rewrite Z.eqb_refl, Hstaging, bool_decide_true by done. by cbn.
  - cbn. rewrite andb_true_r. destruct (bool_decide (sr_provider_account_id x = Some account)) eqn:Ha; cbn.
    + destruct (provider_kind (sr_kind x)) eqn:Hk; cbn.
      * destruct (bool_decide (sr_status x = StatusActive)) eqn:Hs; cbn; rewrite (proj2 (Z.eqb_neq _ _) E); cbn; [done|]. intros _ _. apply bool_decide_eq_false in Hs. done.
      * rewrite (proj2 (Z.eqb_neq _ _) E). cbn. congruence.
    + rewrite (proj2 (Z.eqb_neq _ _) E). cbn. intros H. apply bool_decide_eq_false in Ha. done.
Qed.
(** What the account has after the publication of the streams of a snapshot *)
Record PublicationOf (env : PublishEnv) (run account snapshot : Z) (streams : list PreparedProviderStream) (db db' : Catalog) : Prop := {
  publication_channels : forall key, key ∈ canonical_keys streams ->
    exists c, c ∈ ca_channels db' /\ channel_for account key (ca_channels db) c /\ titled c = titled_by (grouped run streams key);
  publication_only : forall c, c ∈ ca_channels db' -> automatic_of account c = true -> in_keys_of account (canonical_keys streams) c;
  publication_others : forall c, ~ in_keys_of account (canonical_keys streams) c -> automatic_of account c = false ->
    c ∈ ca_channels db' <-> c ∈ ca_channels db;
  publication_links : forall c key l,
    c ∈ ca_channels db' -> automatic_of account c = true -> cc_canonical_key c = Some key -> ln_channel_id l = cc_id c ->
    l ∈ ca_links db' <-> l ∈ channel_links (link_evidence env run) (cc_id c) (stream_order (ids_of_key streams key));
  publication_other_links : forall c l, c ∈ ca_channels db' -> automatic_of account c = false -> ln_channel_id l = cc_id c ->
    l ∈ ca_links db' <-> l ∈ ca_links db;
  publication_mappings : forall m, m ∈ ca_mappings db' <-> m ∈ ca_mappings db /\ em_channel_id m ∈ (cc_id <$> ca_channels db');
  publication_snapshot : forall row, row ∈ db_snapshots (ca_store db') -> sr_provider_account_id row = Some account -> provider_kind (sr_kind row) = true ->
    sr_status row = StatusActive <-> sr_id row = snapshot;
}.

(** The deletion of channels, seen from a channel that stays *)
Lemma delete_channels_elem p db c : c ∈ ca_channels (delete_channels p db) <-> c ∈ ca_channels db /\ p c = false.
Proof. cbn. by rewrite elem_filtered, negb_true_iff. Qed.
Lemma delete_channels_stays p db c id :
  NoDup (cc_id <$> ca_channels db) -> c ∈ ca_channels (delete_channels p db) -> cc_id c = id ->
  existsb (fun d => (cc_id d =? id) && p d) (ca_channels db) = false.
Proof.
  intros Hnd [Hc Hp]%delete_channels_elem <-. apply not_true_iff_false. intros (d & Hd%list_elem_of_In & [Hid%Z.eqb_eq Hpd]%andb_true_iff)%existsb_exists.
  assert (d = c) as -> by (by eapply (fmap_unique cc_id)). congruence.
Qed.
Lemma delete_channels_links p db c l :
  NoDup (cc_id <$> ca_channels db) -> c ∈ ca_channels (delete_channels p db) -> ln_channel_id l = cc_id c ->
  l ∈ ca_links (delete_channels p db) <-> l ∈ ca_links db.
Proof.
  intros Hnd Hc Hl. cbn. rewrite elem_filtered, negb_true_iff. rewrite (delete_channels_stays p db c) by done. tauto.
Qed.

Lemma orphaned_iff account run q keys streams c :
  (forall d, d ∈ run_candidates run q <-> exists key, key ∈ keys /\ d = grouped run streams key) ->
  orphaned_channel account run q c = false <-> (automatic_of account c = true -> in_keys_of account keys c).
Proof.
  intros Hc. unfold orphaned_channel. destruct (automatic_of account c) eqn:Ha; cbn [andb]; [|split; [by intros|done]].
  apply andb_true_iff in Ha as [Hacc%bool_decide_eq_true _]. rewrite negb_false_iff, existsb_exists. unfold in_keys_of, canonical_index. rewrite Hacc. cbn. split.
  - intros (d & Hd%list_elem_of_In & Hk%bool_decide_eq_true) _. apply Hc in Hd as (key & Hkey & ->). exists key. by rewrite Hk.
  - intros H. destruct (H eq_refl) as (key & Hkey & Hi). destruct (cc_canonical_key c) as [k|] eqn:Hk; [|done]. injection Hi as ->.
    exists (grouped run streams key). split; [apply list_elem_of_In, Hc; by exists key|]. by apply bool_decide_eq_true.
Qed.
Lemma channel_for_index account key channels c : channel_for account key channels c -> canonical_index c = Some (account, key).
Proof.
  unfold PublishSpec.channel_for. destruct (existing_channel account key channels) as [e|] eqn:He; [|by intros (_ & _ & ?)].
  apply existing_channel_some in He as [_ He]. intros (_ & _ & _ & _ & ->). done.
Qed.

Lemma published_catalogue env account snapshot run db db' stats streams :
  ChannelConstraints db -> snapshot ∈ db_snapshots (ca_store db) -> sr_status snapshot = StatusStaging ->
  (forall c, c ∈ run_candidates run (ca_queue db) <-> exists key, key ∈ canonical_keys streams /\ c = grouped run streams key) ->
  (forall x, (x ∈ jt_candidate_streams (ca_queue db) /\ cn_run_id x = run) <->
     exists s, s ∈ streams /\ x = mkCandidateStream run (canonical_key s) (ps_id s)) ->
  fresh_ids account (canonical_keys streams) (ca_channels db) ->
  publish_candidates json_text uuid_text time_text collates channel_uuid env account (sr_id snapshot) run db = Ok (db', stats) ->
  PublicationOf env run account (sr_id snapshot) streams db db'.
Proof.
  intros Hcon Hsnap Hstaging Hcands Hstreams Hfresh Hpub. pose proof (publish_candidates_store _ _ _ _ _ _ _ Hpub) as Hstore.
  apply publish_candidates_ok in Hpub as (db1 & n1 & db2 & n2 & db3 & n3 & H1 & H2 & H3 & (Ec & El & Em) & Es & _ & Hcon' & _).
  pose proof (upsert_channels_frame _ _ _ _ _ _ _ _ H1) as (_ & Q1 & _). pose proof (remove_stale_frame _ _ _ _ _ H2) as (_ & Q2 & _).
  pose proof (upsert_links_frame _ _ _ _ _ _ _ _ H3) as (_ & Q3 & _).
  destruct (upserted_channels _ _ _ _ _ _ _ _ Hcon Hcands Hfresh _ _ H1) as (Hkeys & Hothers & L1 & M1 & Hcon1).
  destruct (linked_channels env account run streams (ca_queue db) Hstreams db1 db2 n2 db3 n3 Q1 Hcon1 H2 H3) as (C3 & M3 & Hlinks & Hfree).
  assert (ca_queue db3 = ca_queue db) as Q by congruence. rewrite Q in Ec, El, Em. set (p := orphaned_channel account run (ca_queue db)) in *.
  assert (NoDup (cc_id <$> ca_channels db3)) as Hnd by (rewrite C3; apply (channels_pkey _ Hcon1)).
  assert (forall c, c ∈ ca_channels db' <-> c ∈ ca_channels db1 /\ (automatic_of account c = true -> in_keys_of account (canonical_keys streams) c)) as Hch.
  { intros c. rewrite Ec, delete_channels_elem, C3. unfold p. by rewrite (orphaned_iff _ _ _ _ _ _ Hcands). }
  assert (forall c, c ∈ ca_channels db' -> c ∈ ca_channels (delete_channels p db3)) as Hstay by (intros c; by rewrite Ec).
  split.
  - intros key Hk. destruct (Hkeys key Hk) as (c & Hc & Hfor & Ht). exists c. split_and!; [|done|done]. apply Hch. split; [done|]. intros _. exists key.
    split; [done|by eapply channel_for_index].
  - intros c Hc. by apply Hch.
  - intros c Hno Ha. rewrite Hch, (Hothers c Hno). split; [by intros [? _]|]. intros Hc. split; [done|]. congruence.
  - intros c key l Hc Ha Hk Hl. rewrite El, (delete_channels_links p db3 c) by auto. apply Hch in Hc as [Hc _]. rewrite (Hlinks c l Hc Ha Hl). unfold key_ids. by rewrite Hk.
  - intros c l Hc Ha Hl. rewrite El, (delete_channels_links p db3 c) by auto. apply Hch in Hc as [Hc _]. rewrite Hfree, L1; [done|].
    apply not_true_iff_false. intros (d & Hd & Hid & Had)%on_automatic_iff. assert (d = c) as -> by (eapply (fmap_unique cc_id); [apply (channels_pkey _ Hcon1)|done|done|congruence]). congruence.
  - intros m. split.
    + intros Hm. pose proof (mappings_rows _ Hcon') as Hrows. rewrite Forall_forall in Hrows. split; [|by apply Hrows].
      rewrite Em in Hm. cbn in Hm. apply elem_filtered in Hm as [Hm _]. by rewrite M3, M1 in Hm.
    + intros [Hm (c & Hid & Hc)%list_elem_of_fmap]. rewrite Em. cbn. apply elem_filtered. rewrite M3, M1. split; [done|]. apply negb_true_iff.
      apply (delete_channels_stays p db3 c); [done|by apply Hstay|done].
  - intros row. rewrite Es. intros Hrow Hacc Hkind. eapply activated_snapshots; [done|done| |done|done|done]. rewrite <- Es. apply (snapshot_pkey _ Hstore).
Qed.

(** C18. In a database that began without runs, whatever the workers, the queue, the
    roll-backs and other transactions did, short of deleting a source, a finalizer that publishes a run
    gives the account exactly the catalogue of the snapshot, in however many
    partitions and in whatever order it was prepared: for every canonical key of
    the supported streams the channel that had it, with its identifier, number
    and switch, or a new one, with the titles of the streams; no other automatic
    channel; as links of each channel the streams of its key by identifier, with
    priorities from 0; the mappings of the channels that stay; and the snapshot
    is the only active one of the account.  Other channels and their links stay
    as they were.  This is under one condition: an identifier that is made for
    a key without a channel is not taken by another channel.  A channel that a
    roll-back has detached from its key takes it, and then the key is not
    published. *)
Theorem publication_exact db0 db env run r parent finalizer worker db' stats :
  before_runs db0 -> rtc publish_step db0 db ->
  finalize env run parent finalizer worker db = Ok (db', Published stats) -> find_run run (ca_queue db) = Some r ->
  let streams := supported_streams (rn_source_snapshot_id r) (ca_store db) in
  fresh_ids (rn_provider_account_id r) (canonical_keys streams) (ca_channels db) ->
  PublicationOf env run (rn_provider_account_id r) (rn_source_snapshot_id r) streams db db'.
Proof.
  intros Hbefore Hsteps Hfin Hrun streams Hfresh. pose proof (steps_keep _ _ Hbefore Hsteps) as Hinv. pose proof Hinv as (Hcon & _).
  apply finalize_published in Hfin as (r' & snapshot & q & Hr' & Hprog & Hdone & Hsnap & Hid & Hst & (E1 & E2 & E3 & E4) & Hpub).
  rewrite Hrun in Hr'. injection Hr' as <-. destruct (all_prepared db run r Hinv Hrun Hprog Hdone) as [Hcands Hlinks]. rewrite <- Hid in Hpub |- *.
  apply published_catalogue with (streams := streams) in Hpub; [|by apply channels_queue|done|done| | |done].
  - destruct Hpub as [P1 P2 P3 P4 P5 P6 P7]. by split.
  - intros c. unfold run_candidates. cbn [ca_queue with_queue]. rewrite E3. apply Hcands.
  - intros x. cbn [ca_queue with_queue]. rewrite E4. apply Hlinks.
Qed.
End Exact.
