(* ===== verification/PublishRollback.v ===== *)
(** * The roll-back to a revision

    A revision holds the automatic channels of an account with their links and
    mappings.  The roll-back to it brings them back, as they were except for
    numbers that are taken. *)
From Stdlib Require Import ZArith Lia.
From stdpp Require Import base numbers option strings relations.
From stdpp Require Import list.
From S2P Require Import Prelude Text Sort F32 Events Settings Redact Xtream Ingest Store Jobs JobsSpec Publish PublishSpec PublishExact.
Open Scope Z_scope.
Open Scope relay_scope.

(** ** Snapshots of the reconciliation *)

Lemma captured_channels account db c :
  c ∈ rs_channels (capture_reconciliation_snapshot account db) <->
  exists x, x ∈ ca_channels db /\ automatic_of account x = true /\ c = captured_channel x.
Proof.
  cbn. rewrite elem_mapped. setoid_rewrite (stable_sort_perm (fun a b => cc_id a <? cc_id b)). setoid_rewrite elem_filtered. naive_solver.
Qed.
Definition captured_id (account : Z) (db : Catalog) (id : Z) : Prop := exists x, x ∈ ca_channels db /\ automatic_of account x = true /\ cc_id x = id.
Lemma sorted_ids account db id :
  id ∈ List.map cc_id (stable_sort (fun a b => cc_id a <? cc_id b) (List.filter (automatic_of account) (ca_channels db))) <-> captured_id account db id.
Proof.
  rewrite elem_mapped. setoid_rewrite (stable_sort_perm (fun a b => cc_id a <? cc_id b)). setoid_rewrite elem_filtered. unfold captured_id. naive_solver.
Qed.
Lemma captured_ids account db id : id ∈ (sc_id <$> rs_channels (capture_reconciliation_snapshot account db)) <-> captured_id account db id.
Proof.
  rewrite list_elem_of_fmap. setoid_rewrite captured_channels. unfold captured_id. split.
  - intros (c & -> & x & Hx & Ha & ->). by exists x.
  - intros (x & Hx & Ha & <-). exists (captured_channel x). split; [done|]. by exists x.
Qed.
Lemma captured_links account db l :
  l ∈ rs_stream_links (capture_reconciliation_snapshot account db) <-> l ∈ ca_links db /\ captured_id account db (ln_channel_id l).
Proof. cbn. rewrite (stable_sort_perm link_before), elem_filtered, bool_decide_eq_true, sorted_ids. done. Qed.
Lemma captured_mappings account db m :
  m ∈ rs_epg_mappings (capture_reconciliation_snapshot account db) <->
  exists x, x ∈ ca_mappings db /\ captured_id account db (em_channel_id x) /\ m = captured_mapping x.
Proof.
  cbn. rewrite elem_mapped. setoid_rewrite (stable_sort_perm (fun a b => em_channel_id a <? em_channel_id b)). setoid_rewrite elem_filtered.
  setoid_rewrite bool_decide_eq_true. setoid_rewrite sorted_ids. naive_solver.
Qed.

(** A snapshot that was taken of a database *)
Record SnapshotOk (s : ReconciliationSnapshot) : Prop := {
  snapshot_ids_unique : NoDup (sc_id <$> rs_channels s);
  snapshot_numbers_unique : NoDup (sc_channel_number <$> rs_channels s);
  snapshot_links_unique : NoDup (link_key <$> rs_stream_links s);
  snapshot_links_ids : Forall (fun l => ln_channel_id l ∈ (sc_id <$> rs_channels s)) (rs_stream_links s);
  snapshot_mappings_unique : NoDup (sm_channel_id <$> rs_epg_mappings s);
  snapshot_mappings_ids : Forall (fun m => sm_channel_id m ∈ (sc_id <$> rs_channels s)) (rs_epg_mappings s);
}.
Lemma captured_NoDup {A B C} (f : A -> B) (g : B -> C) (h : A -> C) lt p l :
  (forall x, g (f x) = h x) -> NoDup (h <$> l) -> NoDup (g <$> List.map f (stable_sort lt (List.filter p l))).
Proof.
  intros Hg Hnd. change (NoDup (g <$> (f <$> stable_sort lt (List.filter p l)))). rewrite <- list_fmap_compose.
  rewrite (list_fmap_ext (g ∘ f) h) by (intros; apply Hg). rewrite (stable_sort_perm lt). by apply filtered_keys_NoDup.
Qed.
Lemma capture_ok account db : ChannelConstraints db -> SnapshotOk (capture_reconciliation_snapshot account db).
Proof.
  intros Hc. split.
  - apply (captured_NoDup captured_channel sc_id cc_id); [done|apply (channels_pkey _ Hc)].
  - apply (captured_NoDup captured_channel sc_channel_number cc_channel_number); [done|apply (channels_numbers _ Hc)].
  - cbn. rewrite (stable_sort_perm link_before). apply filtered_keys_NoDup, (links_pkey _ Hc).
  - apply Forall_forall. intros l [_ Hl]%captured_links. by apply captured_ids.
  - apply (captured_NoDup captured_mapping sm_channel_id em_channel_id); [done|apply (mappings_pkey _ Hc)].
  - apply Forall_forall. intros m (x & _ & Hx & ->)%captured_mappings. by apply captured_ids.
Qed.

(** ** Channels *)

Definition renumbered (c : SnapshotChannel) (number : text) : SnapshotChannel :=
  mkSnapshotChannel (sc_id c) number (sc_name c) (sc_group_name c) (sc_logo_url c) (sc_enabled c) (sc_canonical_key c).
(** A channel gets its number back, unless another channel has it or it is among
    the numbers that were drawn. *)
Definition number_for (env : PublishEnv) (channels : list CanonicalChannel) (c : SnapshotChannel) (number : text) : Prop :=
  number = sc_channel_number c \/
  (exists i, number = pe_number env i) /\
  ((exists o, o ∈ channels /\ cc_channel_number o = sc_channel_number c /\ cc_id o <> sc_id c) \/ exists j, sc_channel_number c = pe_number env j).
Definition restored_as (account : Z) (env : PublishEnv) (channels : list CanonicalChannel) (c : SnapshotChannel) (c' : CanonicalChannel) : Prop :=
  exists number revision, c' = restored_channel account number revision c /\ number_for env channels c number.

Lemma restore_channel_elem account drawn channels c c' :
  c' ∈ restore_channel account drawn channels c ->
  (c' ∈ channels /\ cc_id c' <> sc_id c) \/
  exists number revision, c' = restored_channel account number revision c /\
    (number = sc_channel_number c \/ number = drawn /\ exists o, o ∈ channels /\ cc_channel_number o = sc_channel_number c /\ cc_id o <> sc_id c).
Proof.
  unfold restore_channel. cbn zeta. set (number := if existsb _ _ then drawn else sc_channel_number c).
  assert (number = sc_channel_number c \/ number = drawn /\ exists o, o ∈ channels /\ cc_channel_number o = sc_channel_number c /\ cc_id o <> sc_id c) as Hnum.
  { unfold number. destruct (existsb _ _) eqn:He; [right|by left]. split; [done|]. apply existsb_exists in He as (o & Ho%list_elem_of_In & Hb).
    apply andb_true_iff in Hb as [Hn%bool_decide_eq_true Hid%negb_true_iff%Z.eqb_neq]. by exists o. }
  destruct (existsb (fun o => cc_id o =? sc_id c) channels) eqn:He.
  - intros (o & -> & Ho)%elem_mapped. destruct (Z.eqb_spec (cc_id o) (sc_id c)) as [E|E]; [|by left]. right. by exists number, (cc_revision o).
  - intros [Hin|Hin]%elem_of_app; [left|apply list_elem_of_singleton in Hin as ->; right; by exists number, 1]. split; [done|]. intros E.
    assert (existsb (fun o => cc_id o =? sc_id c) channels = true) as Ht; [|congruence]. apply existsb_exists. exists c'. split; [by apply list_elem_of_In|by apply Z.eqb_eq].
Qed.
Lemma restore_channel_other account drawn channels c c' : c' ∈ channels -> cc_id c' <> sc_id c -> c' ∈ restore_channel account drawn channels c.
Proof.
  intros Hin Hid. unfold restore_channel. destruct (existsb (fun o => cc_id o =? sc_id c) channels); [|apply elem_of_app; by left].
  apply elem_mapped. exists c'. by rewrite (proj2 (Z.eqb_neq _ _) Hid).
Qed.
Lemma restore_channel_ids account drawn channels c id :
  id ∈ (cc_id <$> channels) \/ id = sc_id c -> id ∈ (cc_id <$> restore_channel account drawn channels c).
Proof.
  intros H. unfold restore_channel. destruct (existsb (fun o => cc_id o =? sc_id c) channels) eqn:He.
  - apply existsb_exists in He as (e & He%list_elem_of_In & Hid%Z.eqb_eq). assert (id ∈ (cc_id <$> channels)) as (o & -> & Ho)%list_elem_of_fmap.
    { destruct H as [?| ->]; [done|]. rewrite <- Hid. by apply list_elem_of_fmap_2. }
    apply list_elem_of_fmap. eexists. split; [|apply elem_mapped; by exists o]. cbn beta. destruct (Z.eqb_spec (cc_id o) (sc_id c)); done.
  - rewrite fmap_app. apply elem_of_app. destruct H as [?| ->]; [by left|right; by left].
Qed.

Section Restore.
Context (account : Z) (env : PublishEnv) (base : list CanonicalChannel).
Let restore (rows : list (nat * SnapshotChannel)) (channels : list CanonicalChannel) : list CanonicalChannel :=
  fold_left (fun channels c => restore_channel account (pe_number env c.1) channels c.2) rows channels.

Definition restored_part (before : list SnapshotChannel) (channels : list CanonicalChannel) : Prop :=
  forall c', c' ∈ channels ->
    (c' ∈ base /\ cc_id c' ∉ (sc_id <$> before)) \/ exists c, c ∈ before /\ restored_as account env base c c'.
Lemma restore_elem rows before channels :
  NoDup (sc_id <$> before ++ rows.*2) -> NoDup (sc_channel_number <$> before ++ rows.*2) ->
  restored_part before channels -> restored_part (before ++ rows.*2) (restore rows channels).
Proof.
  revert before channels. induction rows as [|[i c] rows IH]; intros before channels Hids Hnums Hpart; cbn; [by rewrite app_nil_r|].
  cbn in Hids, Hnums. rewrite cons_middle, app_assoc in Hids, Hnums |- *. apply IH; [done|done|]. intros c' Hc'.
  apply restore_channel_elem in Hc' as [[Hin Hne]|(number & revision & -> & Hnumber)].
  - destruct (Hpart c' Hin) as [[Hb Hno]|(d & Hd & Has)]; [left|right; exists d; split; [apply elem_of_app; by left|done]].
    split; [done|]. rewrite fmap_app. intros [?|?%list_elem_of_singleton]%elem_of_app; done.
  - right. exists c. split; [apply elem_of_app; right; by left|]. exists number, revision. split; [done|].
    destruct Hnumber as [?|[Hdraw (o & Ho & Hon & Hoid)]]; [by left|right]. split; [by exists i|].
    destruct (Hpart o Ho) as [[Hb _]|(d & Hd & dn & dr & -> & Hdn)]; [left; by exists o|]. cbn in Hon, Hoid.
    destruct Hdn as [Hdn|[[j Hj] _]]; [exfalso|right; exists j; congruence]. apply Hoid. f_equal.
    assert (d ∈ (before ++ [c]) ++ rows.*2) as Hd' by (rewrite !elem_of_app; by left; left).
    assert (c ∈ (before ++ [c]) ++ rows.*2) as Hc' by (rewrite !elem_of_app; left; right; by left).
    apply (fmap_unique sc_channel_number _ _ _ Hnums Hd' Hc'). congruence.
Qed.
Lemma restore_kept rows channels c' : c' ∈ channels -> cc_id c' ∉ (sc_id <$> rows.*2) -> c' ∈ restore rows channels.
Proof.
  revert channels. induction rows as [|[i c] rows IH]; intros channels Hin Hno; cbn; [done|]. cbn in Hno. apply not_elem_of_cons in Hno as [Hne Hno].
  apply IH; [by apply restore_channel_other|done].
Qed.
Lemma restore_ids rows channels id : id ∈ (cc_id <$> channels) \/ id ∈ (sc_id <$> rows.*2) -> id ∈ (cc_id <$> restore rows channels).
Proof.
  revert channels. induction rows as [|[i c] rows IH]; intros channels H; cbn; [destruct H as [?|?%elem_of_nil]; done|].
  apply IH. cbn in H. destruct H as [H|[->|H]%elem_of_cons]; [left|left|by right]; apply restore_channel_ids; [by left|by right].
Qed.
Lemma imap_pairs (targets : list SnapshotChannel) : (imap pair targets).*2 = targets.
Proof. rewrite fmap_imap. rewrite (imap_ext _ (fun _ x => x)) by done. rewrite (imap_const (fun x => x)). apply list_fmap_id. Qed.

Lemma restored_all targets :
  NoDup (sc_id <$> targets) -> NoDup (sc_channel_number <$> targets) ->
  let channels := restore (imap pair targets) base in
  restored_part targets channels /\ (forall c, c ∈ targets -> exists c', c' ∈ channels /\ restored_as account env base c c') /\
  (forall c', c' ∈ base -> cc_id c' ∉ (sc_id <$> targets) -> c' ∈ channels).
Proof.
  intros Hids Hnums channels. pose proof (imap_pairs targets) as Hsnd. assert (restored_part targets channels) as Hpart.
  { pose proof (restore_elem (imap pair targets) [] base) as H. cbn in H. rewrite Hsnd in H. apply H; [done|done|]. intros c' Hc'. left. split; [done|]. by intros ?%elem_of_nil. }
  split_and!; [done| |].
  - intros c Hc. assert (sc_id c ∈ (cc_id <$> channels)) as (c' & Hid & Hc')%list_elem_of_fmap.
    { apply restore_ids. right. rewrite Hsnd. by apply list_elem_of_fmap_2. }
    exists c'. split; [done|]. destruct (Hpart c' Hc') as [[_ Hno]|(d & Hd & Has)].
    + exfalso. apply Hno. rewrite <- Hid. by apply list_elem_of_fmap_2.
    + assert (d = c) as -> by (apply (fmap_unique sc_id _ _ _ Hids Hd Hc); destruct Has as (n & r & -> & _); done). done.
  - intros c' Hin Hno. apply restore_kept; [done|]. by rewrite Hsnd.
Qed.
End Restore.

(** ** Mappings *)

Definition put_mapping (rows : list SnapshotEpgMapping) (m : SnapshotEpgMapping) : list SnapshotEpgMapping :=
  if existsb (fun o => sm_channel_id o =? sm_channel_id m) rows then List.map (fun o => if sm_channel_id o =? sm_channel_id m then m else o) rows else rows ++ [m].
Lemma existsb_mapped {A B} (f : A -> B) (p : B -> bool) l : existsb p (List.map f l) = existsb (fun x => p (f x)) l.
Proof. induction l as [|x l IH]; cbn; [done|]. by rewrite IH. Qed.
Lemma upsert_mapping_captured mappings m : List.map captured_mapping (upsert_mapping mappings m) = put_mapping (List.map captured_mapping mappings) m.
Proof.
  unfold upsert_mapping, put_mapping. rewrite existsb_mapped. change (fun x => sm_channel_id (captured_mapping x) =? sm_channel_id m) with (fun x => em_channel_id x =? sm_channel_id m).
  destruct (existsb _ mappings).
  - rewrite !map_map. apply map_ext. intros o. cbn. destruct (_ =? _); [|done]. by destruct m.
  - rewrite map_app. cbn. by destruct m.
Qed.
Lemma upsert_mappings_captured rows mappings :
  List.map captured_mapping (fold_left upsert_mapping rows mappings) = fold_left put_mapping rows (List.map captured_mapping mappings).
Proof. revert mappings. induction rows as [|m rows IH]; intros mappings; [done|]. cbn. by rewrite IH, upsert_mapping_captured. Qed.
Lemma put_mapping_elem rows m x : x ∈ put_mapping rows m <-> x = m \/ x ∈ rows /\ sm_channel_id x <> sm_channel_id m.
Proof.
  unfold put_mapping. destruct (existsb _ rows) eqn:He.
  - rewrite elem_mapped. split.
    + intros (o & -> & Ho). destruct (Z.eqb_spec (sm_channel_id o) (sm_channel_id m)); [by left|by right].
    + intros [->|[Hx Hne]].
      * apply existsb_exists in He as (o & Ho%list_elem_of_In & Hid). exists o. by rewrite Hid.
      * exists x. by rewrite (proj2 (Z.eqb_neq _ _) Hne).
  - rewrite elem_of_app, list_elem_of_singleton. split; [|tauto]. intros [Hx| ->]; [|by left]. right. split; [done|]. intros E.
    assert (existsb (fun o => sm_channel_id o =? sm_channel_id m) rows = true) as Ht; [|congruence]. apply existsb_exists. exists x. split; [by apply list_elem_of_In|by apply Z.eqb_eq].
Qed.

(** ** Revisions *)

Section Rollback.
Context (json_text : Value -> text) (uuid_text time_text : Z -> text) (parse_uuid : text -> option Z) (fetched_at : Z -> Z).
Context (hash : text -> Z) (collates : text -> text -> bool) (channel_uuid : Z -> text -> Z).
Abbreviation create_or_load := (create_or_load_provider_reconciliation_run json_text uuid_text hash).
Abbreviation process_partition := (process_provider_reconciliation_partition json_text hash).
Abbreviation finalize := (finalize_provider_reconciliation json_text uuid_text time_text fetched_at collates channel_uuid).
Abbreviation rollback := (rollback_reconciliation json_text).
Abbreviation publish_step := (publish_step json_text uuid_text time_text parse_uuid fetched_at hash collates channel_uuid).

Definition revisions_ok (db : Catalog) : Prop := Forall (fun row => SnapshotOk (rv_after_value row)) (ca_revisions db).

Lemma create_revisions env snapshot parent count db db' a :
  create_or_load env snapshot parent count db = Ok (db', a) -> ca_revisions db' = ca_revisions db.
Proof.
  unfold create_or_load_provider_reconciliation_run. destruct (List.find _ _) as [row|]; [|done].
  destruct (sr_provider_account_id row) as [account|]; [|done]. destruct (negb _); [done|]. destruct (bool_decide _); [by intros [= <- _]|].
  destruct (_ || _); [done|]. intros H. repeat case_match; apply commit_ok in H as (-> & _); done.
Qed.
Lemma prepare_revisions env entry db db' a :
  prepare_entry json_text uuid_text parse_uuid hash env entry db = (db', a) -> ca_revisions db' = ca_revisions db.
Proof.
  unfold prepare_entry. destruct (payload_snapshot _ _) as [snapshot|]; [|by intros [= <- _]].
  destruct (create_or_load _ _ _ _ _) as [[db1 [r|e]]|e] eqn:Hc; [|intros [= <- _]; by eapply create_revisions|by intros [= <- _]].
  apply create_revisions in Hc. destruct (commit _ _ _) as [[db2 u]|e] eqn:Hm; intros [= <- _]; [|done]. apply commit_ok in Hm as (-> & _). done.
Qed.
Lemma partition_revisions env run number worker job db db' a :
  process_partition env run number worker job db = Ok (db', a) -> ca_revisions db' = ca_revisions db.
Proof.
  unfold process_provider_reconciliation_partition. destruct (match job with Some _ => _ | None => _ end); [done|].
  destruct (List.find _ (jt_partitions _)) as [part|]; [|done]. destruct (find_run run _) as [row|]; [|done].
  destruct (List.find _ (db_snapshots _)) as [snapshot|]; [|done]. destruct (bool_decide _); [by intros [= <- _]|].
  destruct (_ || _); [done|]. destruct (negb _); [done|]. intros H. by apply commit_ok in H as (-> & _).
Qed.
Lemma publish_candidates_revisions env account snapshot run db db' stats :
  publish_candidates json_text uuid_text time_text collates channel_uuid env account snapshot run db = Ok (db', stats) ->
  ca_revisions db' = ca_revisions db ++
    [mkRevisionRow account (current_reconciliation_revision account db + 1) (str "system") (capture_reconciliation_snapshot account db)
       (capture_reconciliation_snapshot account db')] /\ ChannelConstraints db'.
Proof.
  unfold publish_candidates. destruct (upsert_candidate_channels _ _ _ _ _ _) as [[db1 n1]|] eqn:H1; [|done].
  destruct (remove_stale_candidate_channel_stream_links _ _ _) as [[db2 n2]|] eqn:H2; [|done].
  destruct (upsert_candidate_channel_stream_links _ _ _ _ _ _) as [[db3 n3]|] eqn:H3; [|done]. cbn zeta. unfold remove_candidate_orphaned_channels. destruct (negb _); [done|].
  intros Hc. apply commit_ok in Hc as (-> & _ & Hc & _). split; [|done].
  apply upsert_channels_frame in H1 as (_ & _ & R1). apply remove_stale_frame in H2 as (_ & _ & R2). apply upsert_links_frame in H3 as (_ & _ & R3).
  cbn. by rewrite R3, R2, R1.
Qed.
Lemma finalize_revisions env run parent finalizer worker db db' a :
  finalize env run parent finalizer worker db = Ok (db', a) -> revisions_ok db -> revisions_ok db'.
Proof.
  intros H Hok. destruct (match a with Published _ => true | _ => false end) eqn:Ha.
  - destruct a as [| |stats| |]; try done. apply finalize_published in H as (r & snap & q & _ & _ & _ & _ & _ & _ & _ & Hpub).
    apply publish_candidates_revisions in Hpub as [E Hc]. unfold revisions_ok. rewrite E. apply Forall_app. split; [done|].
    constructor; [|constructor]. cbn. by apply capture_ok.
  - assert (ca_revisions db' = ca_revisions db) as E; [|unfold revisions_ok; by rewrite E]. revert H. unfold finalize_provider_reconciliation.
    destruct (refresh_parent _ _) as [row|]; [|done]. destruct (negb _). { intros Hc. by apply commit_ok in Hc as (-> & _). }
    destruct (List.find _ (jt_jobs _)) as [fin|]; [|done]. destruct (bool_decide _); [by intros [= <- _]|]. destruct (find_run _ _) as [r|]; [|done].
    destruct (List.find _ (db_snapshots _)) as [snap|]; [|done]. destruct (bool_decide _); [by intros [= <- _]|]. destruct (negb _); [done|].
    destruct (existsb _ _). { destruct (provider_reconciliation_progress _ _); [|done]. by intros [= <- _]. }
    cbn zeta. destruct (_ || _); [done|]. destruct (newer_active _ _ _ _). { intros Hc. by apply commit_ok in Hc as (-> & _). }
    destruct (negb _); [done|]. destruct (negb _); [done|]. destruct (publish_candidates _ _ _ _ _ _ _ _ _ _) as [[db1 st]|]; [|done].
    intros [= _ <-]. done.
Qed.
Lemma step_revisions db db' : publish_step db db' -> revisions_ok db -> revisions_ok db'.
Proof.
  intros Hstep Hok. unfold revisions_ok in *. destruct Hstep as [env snapshot parent count db db' a H|env entry db db' a H|env run number worker job db db' a H|env run parent finalizer worker db db' a H
    |env referenced account target actor db db' a H|env op db q o H|db db' (Hc & _ & Hrows & _)].
  - by rewrite (create_revisions _ _ _ _ _ _ _ H).
  - by rewrite (prepare_revisions _ _ _ _ _ H).
  - by rewrite (partition_revisions _ _ _ _ _ _ _ _ H).
  - by eapply finalize_revisions.
  - apply rollback_ok in H as (row & _ & _ & _ & _ & _ & _ & _ & _ & -> & Hc & _). apply Forall_app. split; [done|]. constructor; [|constructor].
    cbn. by apply capture_ok.
  - done.
  - apply Forall_forall. intros row Hrow. destruct (Hrows row Hrow) as [Hin| ->]; [rewrite Forall_forall in Hok; by apply Hok|by apply capture_ok].
Qed.
Lemma steps_revisions db db' : before_runs db -> rtc publish_step db db' -> revisions_ok db'.
Proof.
  intros (_ & _ & _ & _ & _ & E) Hsteps. assert (revisions_ok db) as Hok by (unfold revisions_ok; rewrite E; constructor). clear -Hsteps Hok.
  induction Hsteps as [|x y z Hxy _ IH]; [done|]. by apply IH, (step_revisions x).
Qed.

(** What the account has after the roll-back to a snapshot *)
Record RestoredTo (env : PublishEnv) (account : Z) (actor : text) (target : ReconciliationSnapshot) (db db' : Catalog) : Prop := {
  all_channels_restored : forall c, c ∈ rs_channels target ->
    exists number, number_for env (ca_channels db) c number /\ renumbered c number ∈ rs_channels (capture_reconciliation_snapshot account db');
  only_channels_restored : forall c', c' ∈ rs_channels (capture_reconciliation_snapshot account db') ->
    exists c, c ∈ rs_channels target /\ c' = renumbered c (sc_channel_number c');
  links_restored : forall l, l ∈ rs_stream_links (capture_reconciliation_snapshot account db') <-> l ∈ rs_stream_links target;
  mappings_restored : forall m, m ∈ rs_epg_mappings (capture_reconciliation_snapshot account db') <-> m ∈ rs_epg_mappings target;
  others_left_alone : forall c, c ∈ ca_channels db -> automatic_of account c = false -> cc_id c ∉ (sc_id <$> rs_channels target) -> c ∈ ca_channels db';
  change_recorded : ca_revisions db' = ca_revisions db ++ [mkRevisionRow account (current_reconciliation_revision account db + 1)
      actor (capture_reconciliation_snapshot account db) (capture_reconciliation_snapshot account db')];
}.

Lemma restored_snapshot env account actor snapshot referenced db db' :
  SnapshotOk snapshot ->
  let ids := List.map sc_id (rs_channels snapshot) in
  let outside c := automatic_of account c && negb (bool_decide (cc_id c ∈ ids)) in
  let db2 := delete_channels outside (with_channels db (List.map (fun c => if outside c && referenced (cc_id c) then detached c else c) (ca_channels db))
               (ca_links db) (ca_mappings db)) in
  ca_channels db' = fold_left (fun channels c => restore_channel account (pe_number env c.1) channels c.2) (imap pair (rs_channels snapshot)) (ca_channels db2) ->
  ca_links db' = fold_left upsert_link (rs_stream_links snapshot) (List.filter (fun l => negb (bool_decide (ln_channel_id l ∈ ids))) (ca_links db2)) ->
  ca_mappings db' = fold_left upsert_mapping (rs_epg_mappings snapshot)
    (List.filter (fun m => negb (bool_decide (em_channel_id m ∈ ids))) (ca_mappings db2)) ->
  ca_revisions db' = ca_revisions db ++
    [mkRevisionRow account (current_reconciliation_revision account db + 1) actor (capture_reconciliation_snapshot account db)
       (capture_reconciliation_snapshot account db')] ->
  RestoredTo env account actor snapshot db db'.
Proof.
  intros [Hids Hnums Hlinks Hlinkids Hmaps Hmapids] ids outside db2 Ec El Em Er. rewrite Forall_forall in Hlinkids. rewrite Forall_forall in Hmapids.
  destruct (restored_all account env (ca_channels db2) (rs_channels snapshot) Hids Hnums) as (Honly & Hall & Hkept). cbn zeta in Honly, Hall, Hkept. rewrite <- Ec in Honly, Hall, Hkept.
  assert (forall c, c ∈ ca_channels db2 -> automatic_of account c = true -> cc_id c ∈ (sc_id <$> rs_channels snapshot)) as Hbase.
  { intros c [_ Hout]%delete_channels_elem Ha. unfold outside in Hout. rewrite Ha in Hout. cbn in Hout. by apply negb_false_iff, bool_decide_eq_true in Hout. }
  assert (forall o, o ∈ ca_channels db2 -> exists o0, o0 ∈ ca_channels db /\ cc_id o0 = cc_id o /\ cc_channel_number o0 = cc_channel_number o) as Hfrom.
  { intros o [Ho _]%delete_channels_elem. apply elem_mapped in Ho as (o0 & -> & Ho0). exists o0. split; [done|]. by destruct (_ && _). }
  assert (forall c' c, restored_as account env (ca_channels db2) c c' -> automatic_of account c' = true /\ captured_channel c' = renumbered c (cc_channel_number c') /\
            number_for env (ca_channels db) c (cc_channel_number c')) as Has.
  { intros c' c (number & revision & -> & Hn). split_and!; [unfold automatic_of; cbn; by rewrite !bool_decide_true|done|]. cbn.
    destruct Hn as [?|[Hd [(o & Ho & Hon & Hoid)|?]]]; [by left|right; split; [done|left]|by right; split; [|right]].
    destruct (Hfrom o Ho) as (o0 & Ho0 & Hid0 & Hn0). exists o0. by rewrite Hid0, Hn0. }
  assert (forall id, captured_id account db' id <-> id ∈ (sc_id <$> rs_channels snapshot)) as Hcap.
  { intros id. split.
    - intros (c' & Hc' & Ha & <-). destruct (Honly c' Hc') as [[Hb Hno]|(c & Hc & n & r & -> & _)]; [by apply Hbase|by apply (list_elem_of_fmap_2 sc_id)].
    - intros (c & -> & Hc)%list_elem_of_fmap. destruct (Hall c Hc) as (c' & Hc' & Hr). exists c'. split_and!; [done|by apply (Has c' c)|]. destruct Hr as (n & r & -> & _). done. }
  split; [..|exact Er].
  - intros c Hc. destruct (Hall c Hc) as (c' & Hc' & Hr). destruct (Has c' c Hr) as (Ha & Hcc & Hn). exists (cc_channel_number c'). split; [done|].
    apply captured_channels. exists c'. by rewrite <- Hcc.
  - intros x (c' & Hc' & Ha & ->)%captured_channels. destruct (Honly c' Hc') as [[Hb Hno]|(c & Hc & Hr)]; [by apply Hno in Hbase|].
    exists c. split; [done|]. by destruct (Has c' c Hr) as (_ & -> & _).
  - intros l. rewrite captured_links, Hcap, El, (upserts_elem link_key upsert_link upsert_link_elem) by done. split.
    + intros [[?|[Hold _]] Hid]; [done|]. apply elem_filtered in Hold as [_ Hno%negb_true_iff%bool_decide_eq_false]. done.
    + intros Hl. split; [by left|by apply Hlinkids].
  - intros m. transitivity (m ∈ List.map captured_mapping (ca_mappings db') /\ sm_channel_id m ∈ (sc_id <$> rs_channels snapshot)).
    { rewrite captured_mappings, elem_mapped. setoid_rewrite Hcap. split; [intros (x & Hx & Hid & ->)|intros [(x & -> & Hx) Hid]; exists x; done]. split; [by exists x|done]. }
    rewrite Em, upsert_mappings_captured, (upserts_elem sm_channel_id put_mapping put_mapping_elem) by done. split.
    + intros [[?|[Hold _]] Hid]; [done|]. apply elem_mapped in Hold as (x & -> & Hx). apply elem_filtered in Hx as [_ Hno%negb_true_iff%bool_decide_eq_false]. done.
    + intros Hm. split; [by left|by apply Hmapids].
  - intros c Hc Ha Hno. apply Hkept; [|done]. assert (outside c = false) as Hout by (unfold outside; by rewrite Ha). apply delete_channels_elem. split; [|done].
    cbn. apply elem_mapped. exists c. by rewrite Hout.
Qed.

(** C19. A roll-back that is committed gives the account the automatic channels, links
    and mappings of the revision, and no others: what is captured after it is
    what the revision holds, except that a channel whose number another channel
    has, or that was drawn for another one, gets a number of the sequence.  The
    other channels stay, and the change is recorded as a revision of its own
    with the states before and after it. *)
Theorem rollback_restores db0 db env referenced account target actor db' stats :
  before_runs db0 -> rtc publish_step db0 db -> rollback env referenced account target actor db = Ok (db', stats) ->
  exists row, row ∈ ca_revisions db /\ rv_account_id row = account /\ rv_revision row = target /\
    RestoredTo env account actor (rv_after_value row) db db'.
Proof.
  intros Hbefore Hsteps H. pose proof (steps_revisions _ _ Hbefore Hsteps) as Hok. unfold revisions_ok in Hok. rewrite Forall_forall in Hok.
  apply rollback_ok in H as (row & Hrow & Hacc & Hrev & Ec & El & Em & _ & _ & Er & _). exists row. split_and!; [done|done|done|].
  by apply (restored_snapshot env account actor (rv_after_value row) referenced); [apply Hok|..].
Qed.
End Rollback.
