(* ===== verification/PrepareSpec.v ===== *)
(** * What a prepared snapshot holds

    Whatever its format, a snapshot has the owner, the format and the artifact
    that it was prepared from, the rows that were pushed, and programmes only on
    its own channels. *)
From Stdlib Require Import ZArith Lia Floats.SpecFloat.
From stdpp Require Import base numbers option strings.
From stdpp Require Import list gmap.
From S2P Require Import Prelude Text Hls M3u M3uSpec Events Artifact Staging Settings Xmltv Xtream XtreamEndpoints Ingest Prepare.
From S2P Require Import Store StoreSpec.
Open Scope Z_scope.
Open Scope relay_scope.

(** ** Invariants of visitors *)

Section M3uInvariant.
Context {Url V : Type} (url_parse : text -> option Url) (visit : V -> M3uEntry Url -> V * result unit ParseError).
Context (P : V -> Prop) (HP : forall v entry v', visit v entry = (v', Ok tt) -> P v -> P v').

Lemma m3u_line_inv limits (st st' : M3uState V) n line :
  m3u_line url_parse visit limits st n line = (st', None) -> P (st_visitor st) -> P (st_visitor st').
Proof using HP.
  intros Hrun Hst. revert Hrun. unfold m3u_line. set (trimmed := trim _). destruct (bool_decide _); [by intros [= <-]|].
  set (st1 := mkM3uState _ _ _ _ (st_visitor st)).
  assert (P (st_visitor (fst (first_content st1 n trimmed)))) as H1.
  { unfold first_content. destruct (st_saw_content st1); [done|]. destruct (starts_with _ _); [|done]. by destruct (parse_header _ _). }
  destruct (first_content st1 n trimmed) as [st2 []]; cbn [fst] in *; [by intros [= <-]|].
  destruct (starts_with _ _).
  { unfold extinf_line. destruct (record_limit_reached _ _); [done|].
    destruct (parse_extinf _ _ _) as [[? ?] ?]. by intros [= <-]. }
  destruct (starts_with _ _); [intros [= <-]; unfold directive_line; by destruct (st_pending st2)|].
  unfold url_line. destruct (url_parse trimmed); [|by intros [= <-]]. destruct (_ <=? _); [done|].
  destruct (match st_pending st2 with Some _ => _ | None => _ end) as [entry p].
  destruct (visit _ entry) as [v [[]|]] eqn:Hv; [|done]. intros [= <-]. by eapply HP.
Qed.

Lemma m3u_loop_inv fuel limits reader (st st' : M3uState V) x :
  m3u_loop url_parse visit fuel limits reader st = Some (st', Ok x) -> P (st_visitor st) -> P (st_visitor st').
Proof using HP.
  revert reader st. induction fuel as [|fuel IH]; intros reader st; [done|]. cbn [m3u_loop].
  destruct (next_line limits reader) as [[[[n line]|] reader']|e]; [|by intros [= <- _]|done].
  destruct (m3u_line url_parse visit limits st n line) as [st1 [e|]] eqn:El; [done|]. intros Hrun Hst.
  eapply IH; [exact Hrun|]. by eapply m3u_line_inv.
Qed.

(** What every entry that the visitor takes preserves holds after a success. *)
Lemma m3u_visit_inv reader limits v v' x :
  parse_m3u_visit url_parse visit reader limits v = Some (v', Ok x) -> P v -> P v'.
Proof using HP.
  unfold parse_m3u_visit. destruct (m3u_loop _ _ _ _ _ _) as [[st [y|e]]|] eqn:El; [| |done]; cbn [mbind option_bind].
  - intros [= <- _] Hv. by apply m3u_loop_inv in El.
  - done.
Qed.
End M3uInvariant.

Section XmltvInvariant.
Context {Url V : Type} (url_parse : text -> option Url) {Tz : Type} `{Chrono Tz} (from_hms_opt : Z -> Z -> Z -> option Z).
Context (unescape : text -> result text text) (programme_json : Programme Url -> option bytes) (sha256 : bytes -> bytes).
Context (visit_channel : V -> EpgChannel Url -> V * result unit ParseError).
Context (visit_programme : V -> Programme Url -> V * result unit ParseError).
Context (P : V -> Prop) (Hc : forall v c v', visit_channel v c = (v', Ok tt) -> P v -> P v').
Context (Hp : forall v p v', visit_programme v p = (v', Ok tt) -> P v -> P v').

Abbreviation State := (XmltvState (Url := Url) (V := V)).

Lemma complete_channel_inv (st st' : State) b offset :
  complete_channel visit_channel st b offset = (st', None) -> P (xs_visitor st) -> P (xs_visitor st').
Proof using Hc.
  unfold complete_channel. destruct (finish_channel _ _ _ _) as [[d declared] [c|]]; [|by intros [= <-]].
  destruct (visit_channel _ c) as [v [[]|]] eqn:Hv; [|done]. intros [= <-] ?. by eapply Hc.
Qed.
Lemma complete_programme_inv timezone (st st' : State) b offset :
  complete_programme from_hms_opt programme_json sha256 visit_programme timezone st b offset = (st', None) ->
  P (xs_visitor st) -> P (xs_visitor st').
Proof using Hp.
  unfold complete_programme. destruct (finish_programme _ _ _ _ _) as [d [p|]]; [|by intros [= <-]].
  unfold visit_unique_programme. destruct (programme_json p); [|done]. destruct (bool_decide _); [by intros [= <-]|].
  cbn [xs_visitor set_xs_document]. destruct (visit_programme _ p) as [v [[]|]] eqn:Hv; [|done]. intros [= <-] ?. by eapply Hp.
Qed.

Lemma xmltv_event_inv limits timezone (st st' : State) event offset :
  xmltv_event url_parse from_hms_opt unescape programme_json sha256 visit_channel visit_programme limits timezone st event offset =
    (st', None) -> P (xs_visitor st) -> P (xs_visitor st').
Proof using Hc Hp.
  intros Hrun Hst. revert Hrun.
  destruct event as [name attributes|name attributes|decoded|decoded|name|content| |]; cbn [xmltv_event]; try (by intros [= <-]).
  - unfold start_event, begin_record. intros Hrun. repeat case_match; by simplify_eq.
  - unfold empty_event, begin_record. destruct (element_attributes _ _ _); [|done]. destruct (xs_capture st); [by intros [= <-]|].
    destruct (_ && _); [destruct (record_limit_reached _ _); [done|intros Hrun; by eapply complete_channel_inv]|].
    destruct (_ && _); [destruct (record_limit_reached _ _); [done|intros Hrun; by eapply complete_programme_inv]|].
    destruct (handle_empty _ _ _ _ _ _) as [[? ?] ?]. by intros [= <-].
  - unfold text_event. intros Hrun. repeat case_match; by simplify_eq.
  - unfold text_event. intros Hrun. repeat case_match; by simplify_eq.
  - unfold end_event. destruct (xs_capture st) as [active|].
    + destruct (match cp_child active with Some _ => _ | None => _ end) as [child children]. destruct (_ =? _); [|by intros [= <-]].
      destruct (finish_capture _ _ _ _ _) as [[? ?] ?]. by intros [= <-].
    + destruct (bool_decide _); [destruct (xs_channel st) as [b|]|destruct (bool_decide _); [destruct (xs_programme st) as [b|]|]];
        try (by intros [= <-]).
      * destruct (complete_channel _ _ _ _) as [st1 [e|]] eqn:Hd; [done|]. intros [= <-]. by eapply complete_channel_inv in Hd.
      * destruct (complete_programme _ _ _ _ _ _ _ _) as [st1 [e|]] eqn:Hd; [done|]. intros [= <-]. by eapply complete_programme_inv in Hd.
  - unfold doctype_event. intros Hrun. repeat case_match; by simplify_eq.
Qed.

(** What every record that the visitors take preserves holds after a success. *)
Lemma xmltv_visit_inv input limits timezone v v' x :
  parse_xmltv_visit url_parse from_hms_opt unescape programme_json sha256 visit_channel visit_programme input limits timezone v =
    (v', Ok x) -> P v -> P v'.
Proof using Hc Hp.
  unfold parse_xmltv_visit. intros Hrun Hv. change v with (xs_visitor (xmltv_start (Url := Url) v)) in Hv.
  destruct (xmltv_loop _ _ _ _ _ _ _ _ _ _ _ _) as [st [[]|e]] eqn:El; [|done]. injection Hrun as <- _.
  revert Hv El. generalize (xmltv_start (Url := Url) v). generalize (xi_end input).
  induction (xi_events input) as [|[offset [event|message]] events IH]; intros eof st0 Hst; cbn [xmltv_loop].
  - destruct (_ <? _); [done|]. by intros [= <-].
  - destruct (_ <? _); [done|]. destruct (xmltv_event _ _ _ _ _ _ _ _ _ _ _ _) as [st1 [e|]] eqn:Hev; [done|].
    apply IH. by eapply xmltv_event_inv.
  - done.
Qed.
End XmltvInvariant.

(** ** Snapshots *)

(** A change of the rows, the counts and the diagnostics only. *)
Definition same_artifact (s s' : PreparedSnapshot) : Prop :=
  sn_id s' = sn_id s /\ sn_owner s' = sn_owner s /\ sn_format s' = sn_format s /\
  sn_checksum_sha256 s' = sn_checksum_sha256 s /\ sn_byte_count s' = sn_byte_count s.

Section Snapshots.
Context `{JsonLaws PreparedProviderStream} `{JsonLaws PreparedEpgChannel} `{JsonLaws PreparedProgramme}.

Definition staging {T} `{JsonRows T} (st : StagedRows T) (rows : list T) : Prop := stages 1000 DEFAULT_MAX_SPOOL_BYTES st rows.
Record Holds (s : PreparedSnapshot) (ss : list PreparedProviderStream) (cs : list PreparedEpgChannel) (ps : list PreparedProgramme)
  : Prop := {
  holds_streams : staging (sn_provider_streams s) ss;
  holds_channels : staging (sn_epg_channels s) cs;
  holds_programmes : staging (sn_programmes s) ps;
}.
Definition linked_rows (cs : list PreparedEpgChannel) (ps : list PreparedProgramme) : Prop :=
  Forall (fun p => Exists (fun c => pc_id c = pp_epg_channel_id p) cs) ps.
(** A snapshot that was prepared from [base]. *)
Definition prepared (base s : PreparedSnapshot) : Prop :=
  same_artifact base s /\ exists ss cs ps, Holds s ss cs ps /\ linked_rows cs ps.

Lemma staging_new {T} `{JsonRows T} : staging (staged_new (T := T) 1000) [].
Proof. unfold staging, stages, zlen. cbn. split_and!; try done; lia. Qed.
Lemma staging_push {T} `{JsonLaws T} disk (st st' : StagedRows T) rows row :
  staging st rows -> staged_push disk st row = (st', Ok tt) -> staging st' (rows ++ [row]).
Proof. apply staged_push_stages. Qed.
Lemma staging_rows {T} `{JsonLaws T} (st : StagedRows T) rows size :
  staging st rows -> chunk_rows (batch_list st size) = rows /\ (staged_is_empty st = true -> rows = []).
Proof.
  intros Hst. split.
  - destruct (batch_list_stages _ _ st rows size Hst) as (chunks & -> & <-). apply chunk_rows_ok.
  - destruct Hst as (_ & _ & Hlen & _). unfold staged_is_empty. rewrite Hlen. by destruct rows.
Qed.

(** The rows of a snapshot are those that were pushed. *)
Lemma holds_rows s ss cs ps : Holds s ss cs ps -> streams_of s = ss /\ channels_of s = cs /\ programmes_of s = ps.
Proof.
  intros [Hs Hc Hp]. unfold streams_of, channels_of, programmes_of.
  destruct (staging_rows _ _ PROVIDER_STREAM_BATCH Hs) as [-> Hs0], (staging_rows _ _ EPG_CHANNEL_BATCH Hc) as [-> Hc0],
    (staging_rows _ _ PROGRAMME_BATCH Hp) as [-> _].
  split_and!; [destruct (staged_is_empty (sn_provider_streams s)); [by rewrite Hs0|done]|
    destruct (staged_is_empty (sn_epg_channels s)); [by rewrite Hc0|done]|done].
Qed.

Lemma prepared_self_contained base s : prepared base s -> self_contained s.
Proof.
  intros (_ & ss & cs & ps & Hh & Hl). destruct (holds_rows _ _ _ _ Hh) as (_ & Hc & Hp). unfold self_contained. by rewrite Hc, Hp.
Qed.

Lemma empty_prepared id owner format checksum count :
  prepared (empty_snapshot id owner format checksum count) (empty_snapshot id owner format checksum count).
Proof. split; [done|]. exists [], [], []. split; [split; apply staging_new|constructor]. Qed.
Lemma diagnostics_prepared base s count d : prepared base s -> prepared base (set_diagnostics s count d).
Proof. intros (? & ss & cs & ps & [] & ?). split; [done|]. by exists ss, cs, ps. Qed.
Lemma finalize_prepared base s s' : prepared base s -> finalize_snapshot s = Ok s' -> prepared base s' /\ is_nonempty s' = true.
Proof.
  intros (? & ss & cs & ps & [] & ?). unfold finalize_snapshot. case_match eqn:Hn; [|done]. intros [= <-]. split; [|done].
  split; [done|]. by exists ss, cs, ps.
Qed.
Lemma artifact_prepared base s checksum count :
  prepared base s -> prepared (set_artifact base checksum count) (set_artifact s checksum count).
Proof.
  intros ((? & ? & ? & _ & _) & ss & cs & ps & [] & ?). split; [by split_and!|]. by exists ss, cs, ps.
Qed.

(** *** Playlists *)

Section M3u.
Context {Url : Type} `{Urls Url} (url_query_pairs : Url -> list (text * text)).
Context (is_alphanumeric : Z -> bool) (lowercase_char : Z -> text).
Context (protect : Url -> result ProtectedEndpoint IngestError) (uuid : nat -> Z) (disk : nat -> Disk).

Lemma stage_entry_prepared base st entry st' :
  stage_m3u_entry url_query_pairs is_alphanumeric lowercase_char protect uuid disk st entry = (st', Ok tt) ->
  prepared base (ms_snapshot st) -> prepared base (ms_snapshot st').
Proof.
  intros Hvisit (Ha & ss & cs & ps & [Hs Hc Hp] & Hl). unfold stage_m3u_entry in Hvisit.
  destruct (unique_m3u_key _ _ _ _) as [keys key]. destruct (protect _) as [endpoint|]; [|done].
  destruct (staged_push _ _ _) as [rows r] eqn:Hpush. injection Hvisit as <- ->. split; [done|].
  exists (ss ++ [prepared_stream url_query_pairs (uuid (ms_draws st)) key endpoint entry]), cs, ps. split; [|done].
  split; [by eapply staging_push|done|done].
Qed.

Lemma stage_m3u_prepared reader limits base draws s seen :
  prepared base base ->
  stage_m3u url_query_pairs is_alphanumeric lowercase_char protect uuid disk reader limits base draws = Some (Ok (s, seen)) ->
  prepared base s.
Proof.
  intros Hbase. unfold stage_m3u. destruct (parse_m3u_visit _ _ _ _ _) as [[st x]|] eqn:Hparse; [|done]. cbn [mbind option_bind].
  destruct x as [summary|e]; [|by destruct (ms_error st)]. intros [= <- <-]. apply diagnostics_prepared.
  refine (m3u_visit_inv _ _ (fun st => prepared base (ms_snapshot st)) _ _ _ _ _ _ Hparse Hbase).
  intros st1 entry st2 Hvisit. unfold stage_visitor in Hvisit.
  destruct (stage_m3u_entry _ _ _ _ _ _ _ _) as [st3 [[]|]] eqn:He; [|done]. injection Hvisit as <-. by eapply stage_entry_prepared.
Qed.

Lemma stage_entries_prepared base entries st st' :
  stage_entries url_query_pairs is_alphanumeric lowercase_char protect uuid disk st entries = (st', Ok tt) ->
  prepared base (ms_snapshot st) -> prepared base (ms_snapshot st').
Proof.
  revert st. induction entries as [|entry entries IH]; intros st; cbn [stage_entries]; [by intros [= <-]|].
  destruct (stage_m3u_entry _ _ _ _ _ _ _ _) as [st1 [[]|]] eqn:He; [|done]. intros Hrun Hst. eapply IH; [exact Hrun|].
  by eapply stage_entry_prepared.
Qed.
End M3u.

(** *** Guides *)

Section Xmltv.
Context {Url : Type} `{Urls Url} (url_query_pairs : Url -> list (text * text)) (uuid : nat -> Z) (disk : nat -> Disk).
Context {Tz : Type} `{Chrono Tz} (from_hms_opt : Z -> Z -> Z -> option Z) (unescape : text -> result text text).
Context (programme_json : Programme Url -> option bytes) (sha256 : bytes -> bytes) `{EqDecision Url}.
(** A [HashMap] gives every entry it has. *)
Context (hash_order : gmap text Z -> list (text * Z)).
Context (hash_order_all : forall m x id, m !! x = Some id -> (x, id) ∈ hash_order m).

Abbreviation Stream := (XmlStreamState (Url := Url)).

(** The programmes are on channels that have an identifier, and the declared
    channels are those that were visited. *)
Definition stream_ok (st : Stream) : Prop :=
  (exists ps, staging (xm_programmes st) ps /\ Forall (fun p => exists x, xm_ids st !! x = Some (pp_epg_channel_id p)) ps) /\
  forall x, is_Some (xm_declared st !! x) -> x ∈ (ec_id <$> xm_channels st).

Lemma channel_id_keeps (st st' : Stream) x id :
  xml_channel_id uuid st x = (st', id) ->
  xm_ids st' !! x = Some id /\ xm_ids st ⊆ xm_ids st' /\ xm_channels st' = xm_channels st /\
  xm_declared st' = xm_declared st /\ xm_programmes st' = xm_programmes st.
Proof using.
  unfold xml_channel_id. destruct (xm_ids st !! x) as [i|] eqn:Hx; intros [= <- <-]; [done|]. cbn.
  split_and!; try done; [by rewrite lookup_insert_eq|by apply insert_subseteq].
Qed.

Lemma visit_channel_ok (st : Stream) channel (st' : Stream) :
  xml_visit_channel st channel = (st', Ok tt) -> stream_ok st -> stream_ok st'.
Proof using.
  intros [= <-] [Hps Hd]. unfold xml_merge_channel. destruct (xm_declared st !! ec_id channel) as [index|] eqn:Hi.
  - split; [done|]. cbn. intros x Hx. apply Hd in Hx.
    assert (ec_id <$> alter (fun existing => merge_channel existing channel) index (xm_channels st) = ec_id <$> xm_channels st) as ->; [|done].
    apply list_eq. intros i. rewrite !list_lookup_fmap. destruct (decide (i = index)) as [->|].
    + rewrite list_lookup_alter_eq. by destruct (xm_channels st !! index).
    + by rewrite list_lookup_alter_ne.
  - split; [done|]. cbn. intros x. rewrite fmap_app, elem_of_app. destruct (decide (x = ec_id channel)) as [->|Hne].
    + intros _. right. by left.
    + rewrite lookup_insert_ne by done. intros Hx. left. by apply Hd.
Qed.

Lemma visit_programme_ok (st : Stream) programme (st' : Stream) :
  xml_visit_programme url_query_pairs uuid disk st programme = (st', Ok tt) -> stream_ok st -> stream_ok st'.
Proof using All.
  unfold xml_visit_programme. destruct (xm_error st); [done|]. destruct (xml_channel_id uuid st _) as [st1 id] eqn:Hid.
  apply channel_id_keeps in Hid as (Hx & Hsub & Hc & Hd & Hp). destruct (staged_push _ _ _) as [rows [[]|]] eqn:Hpush; [|done].
  intros [= <-] [(ps & Hps & Hall) Hdecl]. split; cbn.
  - eexists. split; [eapply staging_push; [|exact Hpush]; by rewrite Hp|]. apply Forall_app. split.
    + eapply Forall_impl; [exact Hall|]. cbn. intros p [x Hpx]. exists x. by eapply lookup_weaken.
    + constructor; [|done]. by exists (pr_channel_id programme).
  - intros x. rewrite Hd, Hc. apply Hdecl.
Qed.

(** The declared channels are pushed with their identifiers. *)
Lemma push_declared_ok channels (st st' : Stream) rows rows' cs :
  push_declared url_query_pairs uuid disk st rows channels = (st', rows', Ok tt) -> staging rows cs ->
  exists cs', staging rows' (cs ++ cs') /\ xm_ids st ⊆ xm_ids st' /\ xm_declared st' = xm_declared st /\
    xm_programmes st' = xm_programmes st /\
    Forall (fun channel => Exists (fun c => xm_ids st' !! ec_id channel = Some (pc_id c)) cs') channels.
Proof using All.
  revert st rows cs. induction channels as [|channel channels IH]; intros st rows cs; cbn [push_declared].
  { intros [= <- <-] Hst. exists []. by rewrite app_nil_r. }
  destruct (xml_channel_id uuid st (ec_id channel)) as [st1 id] eqn:Hid.
  apply channel_id_keeps in Hid as (Hx & Hsub & _ & Hd & Hp).
  destruct (staged_push _ _ _) as [rows1 [[]|]] eqn:Hpush; [|done]. intros Hrun Hst.
  eapply staging_push in Hpush; [|exact Hst]. destruct (IH _ _ _ Hrun Hpush) as (cs' & Hst' & Hsub' & Hd' & Hp' & Hall).
  rewrite <- app_assoc in Hst'. eexists. split; [exact Hst'|]. split_and!; [by etrans|congruence|congruence|].
  constructor.
  - left. cbn. by eapply lookup_weaken.
  - eapply Forall_impl; [exact Hall|]. intros ch Hch. apply Exists_app. by right.
Qed.

(** The others are pushed after them. *)
Lemma push_undeclared_ok draws declared ids rows rows' cs :
  push_undeclared disk draws declared rows ids = (rows', Ok tt) -> staging rows cs ->
  exists cs', staging rows' (cs ++ cs') /\
    Forall (fun '(x, id) => is_Some (declared !! x) \/ Exists (fun c => pc_id c = id) cs') ids.
Proof using All.
  revert rows cs. induction ids as [|[x id] ids IH]; intros rows cs; cbn [push_undeclared].
  { intros [= <-] Hst. exists []. by rewrite app_nil_r. }
  case_bool_decide as Hdecl.
  - intros Hrun Hst. destruct (IH _ _ Hrun Hst) as (cs' & Hst' & Hall). exists cs'. split; [done|]. constructor; [by left|done].
  - destruct (staged_push _ _ _) as [rows1 [[]|]] eqn:Hpush; [|done]. intros Hrun Hst.
    eapply staging_push in Hpush; [|exact Hst]. destruct (IH _ _ Hrun Hpush) as (cs' & Hst' & Hall).
    rewrite <- app_assoc in Hst'. eexists. split; [exact Hst'|]. constructor; [by right; left|].
    eapply Forall_impl; [exact Hall|]. intros [x' id'] [|Hex]; [by left|right]. apply Exists_app. by right.
Qed.

Lemma stage_xmltv_prepared input limits timezone base draws s seen :
  prepared base base ->
  stage_xmltv url_query_pairs uuid disk from_hms_opt unescape programme_json sha256 hash_order input limits timezone base draws =
    Ok (s, seen) ->
  prepared base s.
Proof using All.
  intros (_ & ss & cs & ps0 & [Hs Hc Hp] & Hl). unfold stage_xmltv.
  destruct (parse_xmltv_visit _ _ _ _ _ _ _ _ _ _ _) as [st [summary|e]] eqn:Hparse; [|by destruct (xm_error st)].
  assert (stream_ok st) as [(ps & Hps & Hids) Hdecl].
  { eapply (xmltv_visit_inv _ _ _ _ _ _ _ stream_ok visit_channel_ok visit_programme_ok); [exact Hparse|].
    split; [exists []; split; [apply staging_new|constructor]|]. cbn. intros x [? Hx]. by rewrite lookup_empty in Hx. }
  destruct (push_declared _ _ _ _ _ _) as [[st1 rows] [[]|]] eqn:Hdeclared; [|done].
  destruct (push_undeclared _ _ _ _ _) as [rows' [[]|]] eqn:Hundeclared; [|done]. intros [= <- <-].
  destruct (push_declared_ok _ _ _ _ _ _ Hdeclared Hc) as (cs1 & Hst1 & Hsub & Hd1 & Hp1 & Hrows1).
  destruct (push_undeclared_ok _ _ _ _ _ _ Hundeclared Hst1) as (cs2 & Hst2 & Hrows2).
  apply diagnostics_prepared. split; [done|]. exists ss, ((cs ++ cs1) ++ cs2), ps. split; [split; [done|done|by rewrite <- Hp1 in Hps]|].
  eapply Forall_impl; [exact Hids|]. intros p [x Hx]. eapply lookup_weaken in Hx; [|exact Hsub].
  pose proof (hash_order_all _ _ _ Hx) as Hin. rewrite Forall_forall in Hrows2. specialize (Hrows2 _ Hin). cbn in Hrows2.
  rewrite !Exists_app. destruct Hrows2 as [Hdx|Hex]; [left; right|by right].
  rewrite Hd1 in Hdx. apply Hdecl in Hdx. apply list_elem_of_fmap in Hdx as (channel & -> & Hch).
  rewrite Forall_forall in Hrows1. specialize (Hrows1 _ Hch). eapply Exists_impl; [exact Hrows1|]. cbn. intros c Hpc. congruence.
Qed.
End Xmltv.

(** *** Parsed artifacts *)

Section Artifacts.
Context {Url : Type} `{Urls Url} `{UrlEdits Url}.
Context (is_alphanumeric : Z -> bool) (lowercase_char : Z -> text).
Context (protect : Url -> result ProtectedEndpoint IngestError) (uuid : nat -> Z) (disk : nat -> Disk).
Context {Tz : Type} `{Chrono Tz} (f64_text : spec_float -> text).

(** A snapshot with channels under the identifiers of a map. *)
Definition placed (base s : PreparedSnapshot) (ids : gmap text Z) : Prop :=
  same_artifact base s /\ exists ss cs ps, Holds s ss cs ps /\ linked_rows cs ps /\
    map_Forall (fun _ id => Exists (fun c => pc_id c = id) cs) ids.

Lemma placed_prepared base s ids : placed base s ids -> prepared base s.
Proof. intros (? & ss & cs & ps & ? & ? & _). split; [done|]. by exists ss, cs, ps. Qed.
Lemma prepared_placed base s : prepared base s -> placed base s ∅.
Proof. intros (? & ss & cs & ps & ? & ?). split; [done|]. exists ss, cs, ps. by split_and!. Qed.

Lemma push_channel_placed base s s' ids draws row x :
  placed base s ids -> push_channel disk s draws row = Ok s' -> placed base s' (<[x := pc_id row]> ids).
Proof.
  intros (Ha & ss & cs & ps & [Hs Hc Hp] & Hl & Hids) Hpush. unfold push_channel in Hpush.
  destruct (staged_push _ _ _) as [rows [[]|]] eqn:He; [|done]. injection Hpush as <-. split; [done|].
  exists ss, (cs ++ [row]), ps. split_and!; [split; [done|by eapply staging_push|done]| |].
  - eapply Forall_impl; [exact Hl|]. cbn. intros p Hp'. apply Exists_app. by left.
  - apply map_Forall_insert_2; [apply Exists_app; right; by left|]. eapply map_Forall_impl; [exact Hids|]. cbn. intros ? id ?.
    apply Exists_app. by left.
Qed.
Lemma push_programme_placed base s s' ids draws row x :
  placed base s ids -> ids !! x = Some (pp_epg_channel_id row) -> push_programme disk s draws row = Ok s' -> placed base s' ids.
Proof.
  intros (Ha & ss & cs & ps & [Hs Hc Hp] & Hl & Hids) Hx Hpush. unfold push_programme in Hpush.
  destruct (staged_push _ _ _) as [rows [[]|]] eqn:He; [|done]. injection Hpush as <-. split; [done|].
  exists ss, cs, (ps ++ [row]). split_and!; [split; [done|done|by eapply staging_push]| |done].
  apply Forall_app. split; [done|]. constructor; [|done]. by apply (Hids x).
Qed.
Lemma push_stream_prepared base s s' draws row : prepared base s -> push_stream disk s draws row = Ok s' -> prepared base s'.
Proof.
  intros (Ha & ss & cs & ps & [Hs Hc Hp] & Hl) Hpush. unfold push_stream in Hpush.
  destruct (staged_push _ _ _) as [rows [[]|]] eqn:He; [|done]. injection Hpush as <-. split; [done|].
  exists (ss ++ [row]), cs, ps. split; [split; [by eapply staging_push|done|done]|done].
Qed.

Lemma prepare_streams_prepared base template names streams s s' draws :
  prepared base s -> prepare_streams protect uuid disk f64_text template names streams s draws = Ok s' -> prepared base s'.
Proof.
  revert s draws. induction streams as [|stream streams IH]; intros s draws Hs; cbn [prepare_streams]; [by intros [= <-]|].
  destruct (url_for _ _); [|done]. cbn [result_bind]. destruct (protect _); [|done]. cbn [result_bind].
  destruct (push_stream _ _ _ _) as [s1|] eqn:Hpush; [|done]. cbn [result_bind]. apply IH. by eapply push_stream_prepared.
Qed.

Lemma prepare_listings_prepared base entries s s' ids draws :
  placed base s ids -> prepare_listings uuid disk entries s ids draws = Ok s' -> prepared base s'.
Proof.
  revert s ids draws. induction entries as [|e entries IH]; intros s ids draws Hs; cbn [prepare_listings].
  { intros [= <-]. by eapply placed_prepared. }
  destruct (match xs_channel_id e with Some _ => _ | None => _ end) as [x|]; [|done].
  destruct (ids !! x) as [id|] eqn:Hx; cbn [result_bind].
  - destruct (push_programme _ _ _ _) as [s1|] eqn:Hp; [|done]. cbn [result_bind]. apply IH.
    eapply push_programme_placed; [exact Hs| |exact Hp]. exact Hx.
  - destruct (push_channel _ _ _ _) as [s1|] eqn:Hc; [|done]. cbn [result_bind].
    eapply (push_channel_placed _ _ _ _ _ _ x) in Hc; [|exact Hs].
    destruct (push_programme _ _ _ _) as [s2|] eqn:Hp; [|done]. cbn [result_bind]. apply IH.
    eapply push_programme_placed; [exact Hc| |exact Hp]. by rewrite lookup_insert_eq.
Qed.

Lemma prepare_guide_prepared base (guide : Prepare.Guide Url) s s' draws :
  prepared base s -> prepare_guide uuid disk guide s draws = Ok s' -> prepared base s'.
Proof.
  intros Hs%prepared_placed. unfold prepare_guide.
  destruct (prepare_channels _ _ _ _ _ _) as [[[s1 ids] n]|] eqn:Hc; [|done]. cbn [result_bind].
  assert (placed base s1 ids) as Hs1.
  { revert Hs Hc. generalize draws, s, (∅ : gmap text Z). induction (gd_channels guide) as [|c cs IH]; intros d0 s0 ids0 Hs0; cbn [prepare_channels].
    - by intros [= <- <- <-].
    - destruct (push_channel _ _ _ _) as [s2|] eqn:Hp; [|done]. cbn [result_bind]. apply IH.
      by eapply (push_channel_placed _ _ _ _ _ _ (ec_id c)) in Hp. }
  clear Hc. revert s1 n Hs1. induction (gd_programmes guide) as [|p ps IH]; intros s1 n Hs1; cbn [prepare_programmes].
  { intros [= <-]. by eapply placed_prepared. }
  destruct (ids !! pr_channel_id p) as [id|] eqn:Hid; [|by apply IH].
  destruct (push_programme _ _ _ _) as [s2|] eqn:Hp; [|done]. cbn [result_bind]. apply IH.
  eapply push_programme_placed; [exact Hs1| |exact Hp]. exact Hid.
Qed.

Lemma prepare_snapshot_prepared request parsed checksum count s :
  prepare_snapshot (Tz := Tz) is_alphanumeric lowercase_char protect uuid disk f64_text request parsed checksum count = Ok s ->
  prepared (empty_snapshot (uuid 0) (ir_owner request) (ir_format request) checksum count) s /\ is_nonempty s = true.
Proof.
  unfold prepare_snapshot. set (base := empty_snapshot _ _ _ _ _). assert (prepared base base) as Hbase by apply empty_prepared.
  match goal with |- context [result_bind ?m _] => destruct m as [s1|] eqn:Hm end; [|done]. cbn [result_bind].
  intros Hf. eapply finalize_prepared; [|exact Hf]. destruct parsed as [entries playlist|guide document|d|d|d|d]; try done.
  - unfold prepare_m3u in Hm. destruct (stage_entries _ _ _ _ _ _ _ _) as [st [[]|]] eqn:He; [|done]. injection Hm as <-.
    eapply stage_entries_prepared; [exact He|]. by apply diagnostics_prepared.
  - eapply prepare_guide_prepared; [|exact Hm]. by apply diagnostics_prepared.
  - destruct (ir_xtream_stream_endpoint request); [|done]. eapply prepare_streams_prepared; [|exact Hm]. by apply diagnostics_prepared.
  - eapply prepare_listings_prepared; [|exact Hm]. by apply prepared_placed, diagnostics_prepared.
Qed.
End Artifacts.
End Snapshots.
