(* ===== verification/IngestRun.v ===== *)
(** * The run of an ingestion

    [Ingestor] of [crates/ingest/src/pipeline.rs], with the two activators that
    the server gives it: a source is downloaded and parsed, at once where the
    format allows it, and the prepared snapshot is handed to the store.  The job
    that runs the ingestion is asked at every phase whether it goes on.

    The answers of the HTTP source, of the job, of the tasks and of the database
    are arguments.  [None] is a run that still waits, or a parser without fuel,
    which [M3uSpec] excludes. *)
From Stdlib Require Import ZArith Lia Floats.SpecFloat.
From stdpp Require Import base numbers option strings.
From stdpp Require Import list gmap.
From S2P Require Import Prelude Text Hls M3u M3uSpec Events Artifact Staging Settings Xmltv Xtream XtreamEndpoints Ingest Prepare Store.
Open Scope Z_scope.
Open Scope relay_scope.

(** ** The job *)

Record IngestProgress := mkIngestProgress {
  ip_phase : string;
  ip_downloaded_bytes : Z;
  ip_decoded_bytes : Z;
  ip_records_seen : Z;
  ip_records_prepared : Z;
}.

(** What a run asks of the job, and the activation of a snapshot. *)
Inductive JobCall :=
| CallCheckpoint (progress : IngestProgress)
| CallBeginActivation
| CallActivate (snapshot : PreparedSnapshot).

(** [SnapshotActivator] *)
Record Activator := mkActivator {
  ac_activate_with_progress : PreparedSnapshot -> Tx Z;
  ac_completion_phase : string;
  ac_defers_activation : bool;
}.

(** The surroundings of a run: the answer of the job to the last of its calls,
    those of the two requests, whether the channel takes the chunk with a
    number, whether a checkpoint is due after it and the count of records it
    reports, the counts at the ticks of a download, whether the temporary files
    can be created and opened, whether the tasks end without a panic, and the
    answers of the database. *)
Record JobEnv := mkJobEnv {
  je_control : list JobCall -> result unit IngestError;
  je_stream : HttpAnswer;
  je_download : HttpAnswer;
  je_sent : nat -> bool;
  je_due : nat -> bool;
  je_records : nat -> Z;
  je_ticks : list Z;
  je_tempfile : string -> bool;
  je_opened : bool;
  je_joined : string -> bool;
  je_answer : nat -> Answer;
  je_now : Z;
  je_outbox_id : Z;
}.
Record JobState := mkJobState { js_db : Database; js_calls : list JobCall }.
Definition Job (A : Type) : Type := JobEnv -> JobState -> JobState * option (result A IngestError).

Definition job_ret {A} (a : A) : Job A := fun _ st => (st, Some (Ok a)).
Definition job_fail {A} (e : IngestError) : Job A := fun _ st => (st, Some (Err e)).
Definition job_lift {A} (r : option (result A IngestError)) : Job A := fun _ st => (st, r).
Definition job_env : Job JobEnv := fun env st => (st, Some (Ok env)).
Definition job_bind {A B} (m : Job A) (k : A -> Job B) : Job B :=
  fun env st =>
    match m env st with
    | (st, Some (Ok a)) => k a env st
    | (st, Some (Err e)) => (st, Some (Err e))
    | (st, None) => (st, None)
    end.
(** [let _ = ..]: the answer is dropped. *)
Definition job_ignore (m : Job unit) : Job unit :=
  fun env st => match m env st with (st, Some _) => (st, Some (Ok tt)) | waiting => waiting end.
Notation "'let!' x <- m ; k" := (job_bind m (fun x => k)) (at level 200, x name, m at level 100, k at level 200) : relay_scope.
Notation "'do!' m ; k" := (job_bind m (fun _ => k)) (at level 200, m at level 100, k at level 200) : relay_scope.

Definition job_call (call : JobCall) : Job unit :=
  fun env st => let calls := js_calls st ++ [call] in (mkJobState (js_db st) calls, Some (je_control env calls)).

(** [Ingestor::checkpoint] *)
Definition checkpoint (phase : string) (downloaded_bytes decoded_bytes records_seen records_prepared : Z) : Job unit :=
  job_call (CallCheckpoint (mkIngestProgress phase downloaded_bytes decoded_bytes records_seen records_prepared)).

(** [IngestStagingProgress::checkpoint] *)
Definition staging_call (downloaded_bytes decoded_bytes records_seen : Z) (report : Z * Z) : JobCall :=
  CallCheckpoint (mkIngestProgress "staging" downloaded_bytes decoded_bytes records_seen (fst report)).

(** [store.activate_with_progress(&snapshot, &staging_progress)] *)
Definition activate (activator : Activator) (snapshot : PreparedSnapshot) (downloaded_bytes decoded_bytes records_seen : Z) : Job Z :=
  fun env st =>
    let calls := js_calls st ++ [CallActivate snapshot] in
    let staging := List.map (staging_call downloaded_bytes decoded_bytes records_seen) in
    let senv := mkStoreEnv (je_answer env) (fun reports => je_control env (calls ++ staging reports)) (je_now env) (je_outbox_id env) in
    let '(db, reports, r) := transact (ac_activate_with_progress activator snapshot) senv (js_db st) in
    (mkJobState db (calls ++ staging reports), Some r).

(** [IngestResult] *)
Record IngestResult := mkIngestResult {
  rs_snapshot_id : Z; rs_checksum_sha256 : text; rs_downloaded_bytes : Z; rs_decoded_bytes : Z; rs_records : Z }.

(** [Ingestor::new] and [with_limits]: the limits of a run *)
Definition default_parse_limits (defaults : ParseLimits) : ParseLimits :=
  mkParseLimits (max_decoded_bytes default_artifact_limits) (max_line_bytes defaults) 2000000 (max_text_bytes defaults)
    (max_xml_depth defaults).
Definition with_limits (artifact : ArtifactLimits) (parse : ParseLimits) : ArtifactLimits * ParseLimits :=
  (artifact, mkParseLimits (Z.min (max_input_bytes parse) (max_decoded_bytes artifact)) (max_line_bytes parse) (max_records parse)
               (max_text_bytes parse) (max_xml_depth parse)).

Section Run.
Context {Url : Type} `{Urls Url} `{UrlEdits Url}.
Context (is_alphanumeric : Z -> bool) (lowercase_char : Z -> text).
Context (protect : Url -> result ProtectedEndpoint IngestError).
Context `{JsonRows PreparedProviderStream} `{JsonRows PreparedEpgChannel} `{JsonRows PreparedProgramme}.
Context (uuid : nat -> Z) (disk : nat -> Disk).
Context {Tz : Type} `{Chrono Tz} (from_hms_opt : Z -> Z -> Z -> option Z) (unescape : text -> result text text).
Context (programme_json : Programme Url -> option bytes) (sha256 : bytes -> bytes) `{EqDecision Url}.
Context (hash_order : gmap text Z -> list (text * Z)).
Context (json_from_slice : bytes -> option Value) (float_text : spec_float -> text).
Context (base64_decode base64_decode_no_pad : text -> option bytes) (parse_rfc3339 : text -> option Z).
Context (f64_text : spec_float -> text).
Context (sha256_hex : bytes -> text) (gunzip unxz : bytes -> list Decoded) (zip_entries : bytes -> option (list (option ZipEntry))).
(** The buffers a [BufReader] makes of a file, and the events that the XML
    reader makes of buffers *)
Context (file_buffers : bytes -> BufReader) (xml_input : BufReader -> XmlInput).
Context (activator : Activator) (artifact_limits : ArtifactLimits) (parse_limits : ParseLimits).

Definition source_of (buffers : BufReader) : Source := mkSource buffers (xml_input buffers).

(** A blocking task whose result is awaited. *)
Definition join {A} (name : string) (task : option (result A IngestError)) : Job A :=
  let! env <- job_env; if je_joined env name then job_lift task else job_fail ArtifactIo.

(** *** Activation *)

(** The end of [try_streaming_run] and of [run_downloaded]: the store gets the
    snapshot, after the job has given up its cancellation. *)
Definition finish (snapshot : PreparedSnapshot) (checksum : text) (downloaded_bytes decoded_bytes records_seen : Z) : Job IngestResult :=
  let records := sn_record_count snapshot in
  do! checkpoint "staging" downloaded_bytes decoded_bytes records_seen 0;
  do! (if ac_defers_activation activator then job_ret tt else job_call CallBeginActivation);
  let! snapshot_id <- activate activator snapshot downloaded_bytes decoded_bytes records_seen;
  do! checkpoint (ac_completion_phase activator) downloaded_bytes decoded_bytes records_seen records;
  job_ret (mkIngestResult snapshot_id checksum downloaded_bytes decoded_bytes records).

(** *** Download and parser at once *)

(** The first chunk of a compressed response *)
Definition is_compressed (first_chunk : bytes) : bool :=
  starts_with [0x1f; 0x8b] first_chunk || starts_with [0xfd; 0x37; 0x7a; 0x58; 0x5a; 0] first_chunk ||
  starts_with [0x50; 0x4b; 3; 4] first_chunk.

(** The loop of [try_streaming_run]: the chunks that the parser got, the bytes
    that were hashed and their count, at the end of the response or when the
    parser takes no more. *)
Fixpoint stream_loop (max_timeout : Z) (turns : list Turn) (number : nat) (sent : list bytes) (hashed : bytes) (byte_count : Z)
  : Job (list bytes * bytes * Z) :=
  match turns with
  | [] => job_lift None
  | turn :: turns =>
      if max_timeout <=? tn_elapsed turn then job_fail HttpRequest
      else
        match tn_polled turn with
        | PolledError | PolledTimeout => job_fail HttpRequest
        | PolledEnd _ => job_ret (sent, hashed, byte_count)
        | PolledChunk chunk _ =>
            match checked u64_max (byte_count + zlen chunk) with
            | None => job_fail (DownloadTooLarge (max_download_bytes artifact_limits))
            | Some byte_count =>
                if max_download_bytes artifact_limits <? byte_count
                then job_fail (DownloadTooLarge (max_download_bytes artifact_limits))
                else
                  let hashed := hashed ++ chunk in
                  let! env <- job_env;
                  if negb (je_sent env number) then job_ret (sent, hashed, byte_count)
                  else
                    do! (if je_due env number then checkpoint "downloading" byte_count 0 (je_records env number) 0 else job_ret tt);
                    stream_loop max_timeout turns (S number) (sent ++ [chunk]) hashed byte_count
            end
        end
  end.

(** [Ingestor::try_streaming_run]; no result is a compressed response. *)
Definition try_streaming_run (request : IngestRequest Url) : Job (option IngestResult) :=
  let! env <- job_env;
  match je_stream env with
  | RequestFailed => job_fail HttpRequest
  | Answered status _ turns =>
      if negb (is_success status) then job_fail (HttpStatus status)
      else
        match turns with
        | [] => job_lift None
        | first :: _ =>
            match tn_polled first with
            | PolledChunk first_chunk _ =>
                if is_compressed first_chunk then job_ret None
                else
                  let! streamed_body <- stream_loop (dr_max_timeout (ir_download request)) turns 0 [] [] 0;
                  let '(sent, hashed, byte_count) := streamed_body in
                  do! checkpoint "downloaded" byte_count 0 (je_records env (length sent)) 0;
                  let checksum := sha256_hex hashed in
                  let! parsed <- join "parse" (streaming_parse url_pairs is_alphanumeric lowercase_char protect uuid disk from_hms_opt unescape
                                         programme_json sha256 hash_order (source_of (streamed never sent)) (ir_format request)
                                         (ir_owner request) (ir_source_timezone request) parse_limits);
                  let '(snapshot, records_seen) := parsed in
                  if records_seen =? 0 then job_fail HttpRequest
                  else
                    let! snapshot <- job_lift (Some (finalize_snapshot (set_artifact snapshot checksum byte_count)));
                    do! job_ignore (checkpoint "parsed" byte_count byte_count records_seen 0);
                    let! finished <- finish snapshot checksum byte_count byte_count records_seen;
                    job_ret (Some finished)
            | PolledEnd _ | PolledError | PolledTimeout => job_fail HttpRequest
            end
        end
  end.

(** *** Download, then parser *)

(** The checkpoints at the ticks of a download, whose answers are dropped. *)
Fixpoint tick_checkpoints (ticks : list Z) : Job unit :=
  match ticks with
  | [] => job_ret tt
  | downloaded :: ticks => do! job_ignore (checkpoint "downloading" downloaded 0 0 0); tick_checkpoints ticks
  end.

(** [Ingestor::download_with_progress] *)
Definition download_with_progress (request : DownloadRequest Url) : Job DownloadedArtifact :=
  let! env <- job_env;
  match je_download env with
  | RequestFailed => job_fail HttpRequest
  | Answered status content_length turns =>
      if negb (is_success status) then job_fail (HttpStatus status)
      else
        let '(progress, result) :=
          download_stream sha256_hex (je_tempfile env "download") turns content_length (extension_hint (dr_endpoint request)) artifact_limits
            (dr_max_timeout request) in
        do! tick_checkpoints (je_ticks env);
        match result with
        | None => job_lift None
        | Some result =>
            do! job_ignore (checkpoint "downloading" (default 0 (last progress)) 0 0 0);
            job_lift (Some result)
        end
  end.

(** [Ingestor::run_downloaded] *)
Definition run_downloaded (request : IngestRequest Url) (artifact : DownloadedArtifact) : Job IngestResult :=
  let downloaded_bytes := da_byte_count artifact in
  do! checkpoint "downloaded" downloaded_bytes 0 0 0;
  let! env <- job_env;
  let! decoded <- join "decode" (Some (unpack_artifact gunzip unxz zip_entries (je_tempfile env "decode") artifact artifact_limits));
  let decoded_bytes := dc_decoded_byte_count decoded in
  do! checkpoint "decoded" downloaded_bytes decoded_bytes 0 0;
  let source := source_of (file_buffers (dc_file decoded)) in
  let checksum := dc_sha256 decoded in
  let! prepared <-
    match ir_format request with
    | FormatM3u | FormatXmltv =>
        join "parse" (if je_opened env
              then prepare_streaming_snapshot url_pairs is_alphanumeric lowercase_char protect uuid disk from_hms_opt unescape
                     programme_json sha256 hash_order (ir_owner request) (ir_format request) (ir_source_timezone request) source
                     decoded_bytes checksum downloaded_bytes parse_limits
              else Some (Err ArtifactIo))
    | FormatXtream _ =>
        let! parsed <- join "parse" (if je_opened env
                             then parse_artifact from_hms_opt unescape programme_json sha256 json_from_slice float_text base64_decode
                                    base64_decode_no_pad parse_rfc3339 source decoded_bytes (ir_format request) parse_limits
                                    (ir_source_timezone request)
                             else Some (Err ArtifactIo));
        let! snapshot <- job_lift (Some (prepare_snapshot is_alphanumeric lowercase_char protect uuid disk f64_text request parsed
                                           checksum downloaded_bytes));
        job_ret (snapshot, records_seen (parsed_stats parsed))
    end;
  let '(snapshot, records_seen) := prepared in
  do! checkpoint "parsed" downloaded_bytes decoded_bytes records_seen 0;
  finish snapshot checksum downloaded_bytes decoded_bytes records_seen.

(** [Ingestor::run] *)
Definition run (request : IngestRequest Url) : Job IngestResult :=
  do! checkpoint "downloading" 0 0 0 0;
  let! streamed <- match ir_format request with
                   | FormatM3u | FormatXmltv => try_streaming_run request
                   | FormatXtream _ => job_ret None
                   end;
  match streamed with
  | Some result => job_ret result
  | None =>
      let! artifact <- download_with_progress (ir_download request);
      run_downloaded request artifact
  end.
End Run.

(** ** The activators *)

(** [SnapshotActivator for PgSnapshotStore] *)
Definition pg_activator `{JsonRows PreparedProviderStream} `{JsonRows PreparedEpgChannel} `{JsonRows PreparedProgramme} : Activator :=
  mkActivator activate_with_progress "activated" false.
(** [SnapshotActivator for StagedSnapshotActivator] of [apps/server] *)
Definition staged_activator `{JsonRows PreparedProviderStream} `{JsonRows PreparedEpgChannel} `{JsonRows PreparedProgramme}
  (uuid_text : Z -> text) (reconciliation_parent : option (Z * Z)) : Activator :=
  mkActivator (stage_with_progress uuid_text reconciliation_parent) "staged" true.
