(* ===== verification/IngestRunSpec.v ===== *)
(** * What the run of an ingestion promises

    A run hands at most one snapshot to the store: one that is not empty, has
    the owner and the format of the request and the checksum of what was
    received: a whole response, or the part of it up to the chunk at which the
    parser had ended.  An activator that publishes at once is called only after
    the job has agreed.  With the atomicity of the store, a source shows what it
    did, or the new snapshot. *)
From Stdlib Require Import ZArith Lia Floats.SpecFloat.
From stdpp Require Import base numbers option strings.
From stdpp Require Import list gmap.
From S2P Require Import Prelude Text Hls M3u M3uSpec Events Artifact Staging Settings Xmltv Xtream XtreamEndpoints Ingest Prepare.
From S2P Require Import Store StoreSpec PrepareSpec IngestRun.
Open Scope Z_scope.
Open Scope relay_scope.

(** ** Reasoning about runs *)

Definition no_activation (call : JobCall) : Prop := match call with CallActivate _ => False | _ => True end.

(** Nothing was handed to the store. *)
Definition quiet_run (st st' : JobState) : Prop :=
  js_db st' = js_db st /\ exists calls, js_calls st' = js_calls st ++ calls /\ Forall no_activation calls.

(** One snapshot was, after the job agreed, with the answer of the store. *)
Definition activated_run (activator : Activator) (env : JobEnv) (ready : PreparedSnapshot -> Prop) (st st' : JobState)
  (answer : result Z IngestError) : Prop :=
  exists before snapshot after senv reports,
    js_calls st' = js_calls st ++ before ++ CallActivate snapshot :: after /\ Forall no_activation before /\ Forall no_activation after /\
    ready snapshot /\
    (ac_defers_activation activator = false -> last before = Some CallBeginActivation /\ je_control env (js_calls st ++ before) = Ok tt) /\
    transact (ac_activate_with_progress activator snapshot) senv (js_db st) = (js_db st', reports, answer).

Lemma quiet_refl st : quiet_run st st.
Proof. split; [done|]. exists []. by rewrite app_nil_r. Qed.
Lemma quiet_then st1 st2 st3 : quiet_run st1 st2 -> quiet_run st2 st3 -> quiet_run st1 st3.
Proof.
  intros (Hd & c1 & Hc1 & Hn1) (Hd' & c2 & Hc2 & Hn2). split; [congruence|]. exists (c1 ++ c2).
  rewrite Hc2, Hc1, <- app_assoc. split; [done|]. by apply Forall_app.
Qed.
Lemma quiet_activated activator env ready st1 st2 st3 answer :
  quiet_run st1 st2 -> activated_run activator env ready st2 st3 answer -> activated_run activator env ready st1 st3 answer.
Proof.
  intros (Hd & c1 & Hc1 & Hn1) (before & snapshot & after & senv & reports & Hc & Hb & Ha & Hr & Hcontrol & Ht).
  exists (c1 ++ before), snapshot, after, senv, reports. rewrite Hc, Hc1, <- !app_assoc. split_and!; try done.
  - by apply Forall_app.
  - intros Hdefer. destruct (Hcontrol Hdefer) as [Hlast Hok]. rewrite Hc1, <- app_assoc in Hok. split; [|done].
    rewrite last_app, Hlast. done.
  - by rewrite <- Hd.
Qed.
Lemma activated_quiet activator env ready st1 st2 st3 answer :
  activated_run activator env ready st1 st2 answer -> quiet_run st2 st3 -> activated_run activator env ready st1 st3 answer.
Proof.
  intros (before & snapshot & after & senv & reports & Hc & Hb & Ha & Hr & Hcontrol & Ht) (Hd & c & Hcalls & Hn).
  exists before, snapshot, (after ++ c), senv, reports. rewrite Hcalls, Hc, Hd, <- !app_assoc. split_and!; try done. by apply Forall_app.
Qed.

(** [idle env m Q]: [m] hands nothing to the store, and gives a value that
    satisfies [Q]. *)
Definition idle {A} (env : JobEnv) (m : Job A) (Q : A -> Prop) : Prop :=
  forall st, let '(st', r) := m env st in quiet_run st st' /\ forall a, r = Some (Ok a) -> Q a.
(** [acts env m ready id]: [m] hands at most one snapshot to the store, and a
    success is one of the store, with its identifier. *)
Definition acts {A} (activator : Activator) (env : JobEnv) (m : Job A) (ready : PreparedSnapshot -> Prop) (id : A -> Z) : Prop :=
  forall st, let '(st', r) := m env st in
    match r with
    | Some (Ok a) => activated_run activator env ready st st' (Ok (id a))
    | _ => quiet_run st st' \/ exists answer, activated_run activator env ready st st' answer
    end.

Lemma idle_bind {A B} env (m : Job A) (k : A -> Job B) Q R :
  idle env m Q -> (forall a, Q a -> idle env (k a) R) -> idle env (job_bind m k) R.
Proof.
  intros Hm Hk st. unfold job_bind. specialize (Hm st). destruct (m env st) as [st1 [[a|e]|]]; destruct Hm as [Hq HQ]; [|by split..].
  specialize (Hk a (HQ a eq_refl) st1). destruct (k a env st1) as [st2 r]. destruct Hk as [Hq2 HR]. split; [by eapply quiet_then|done].
Qed.
Lemma idle_weaken {A} env (m : Job A) (Q Q' : A -> Prop) : idle env m Q' -> (forall a, Q' a -> Q a) -> idle env m Q.
Proof. intros Hm HQ st. specialize (Hm st). destruct (m env st) as [st' r]. destruct Hm as [? Hr]. split; [done|]. intros a Ha. by apply HQ, Hr. Qed.
Lemma idle_ret {A} env (a : A) (Q : A -> Prop) : Q a -> idle env (job_ret a) Q.
Proof. intros HQ st. split; [apply quiet_refl|]. by intros ? [= <-]. Qed.
Lemma idle_fail {A} env e (Q : A -> Prop) : idle env (job_fail e) Q.
Proof. intros st. split; [apply quiet_refl|done]. Qed.
Lemma idle_lift {A} env (r : option (result A IngestError)) : idle env (job_lift r) (fun a => r = Some (Ok a)).
Proof. intros st. split; [apply quiet_refl|done]. Qed.
Lemma idle_env env : idle env job_env (fun env' => env' = env).
Proof. intros st. split; [apply quiet_refl|]. by intros ? [= <-]. Qed.
Lemma idle_call env call : no_activation call -> idle env (job_call call) (fun _ => True).
Proof. intros Hc st. cbn. split; [|done]. split; [done|]. exists [call]. split; [done|]. by constructor. Qed.
Lemma idle_checkpoint env phase a b c d : idle env (checkpoint phase a b c d) (fun _ => True).
Proof. by apply idle_call. Qed.
Lemma idle_ignore env m : idle env m (fun _ => True) -> idle env (job_ignore m) (fun _ => True).
Proof. intros Hm st. unfold job_ignore. specialize (Hm st). destruct (m env st) as [st1 [r|]]; destruct Hm; by split. Qed.
Lemma idle_join {A} env name (task : option (result A IngestError)) : idle env (join name task) (fun a => task = Some (Ok a)).
Proof.
  unfold join. eapply idle_bind; [apply idle_env|]. intros ? ->. destruct (je_joined env name); [apply idle_lift|apply idle_fail].
Qed.
#[export] Hint Resolve idle_checkpoint idle_fail idle_ignore : relay.

Lemma acts_bind {A B} activator env (m : Job A) (k : A -> Job B) Q ready id :
  idle env m Q -> (forall a, Q a -> acts activator env (k a) ready id) -> acts activator env (job_bind m k) ready id.
Proof.
  intros Hm Hk st. unfold job_bind. specialize (Hm st). destruct (m env st) as [st1 [[a|e]|]]; destruct Hm as [Hq HQ]; [|by left..].
  specialize (Hk a (HQ a eq_refl) st1). destruct (k a env st1) as [st2 [[b|e]|]]; [by eapply quiet_activated| |];
    (destruct Hk as [?|[answer ?]]; [left; by eapply quiet_then|right; exists answer; by eapply quiet_activated]).
Qed.
Lemma acts_then {A B} activator env (m : Job A) (k : A -> Job B) ready (id : A -> Z) (id' : B -> Z) :
  acts activator env m ready id -> (forall a, idle env (k a) (fun b => id' b = id a)) -> acts activator env (job_bind m k) ready id'.
Proof.
  intros Hm Hk st. unfold job_bind. specialize (Hm st). destruct (m env st) as [st1 [[a|e]|]]; [|done..].
  specialize (Hk a st1). destruct (k a env st1) as [st2 [[b|e]|]]; destruct Hk as [Hq Hid].
  - rewrite (Hid b eq_refl). by eapply activated_quiet.
  - right. eexists. by eapply activated_quiet.
  - right. eexists. by eapply activated_quiet.
Qed.
Lemma acts_fail {A} activator env e ready (id : A -> Z) : acts activator env (job_fail e) ready id.
Proof. intros st. left. apply quiet_refl. Qed.
Lemma acts_wait {A} activator env ready (id : A -> Z) : acts activator env (job_lift None) ready id.
Proof. intros st. left. apply quiet_refl. Qed.

(** The store is called right after the job has agreed. *)
Lemma agree_acts activator env (ready : PreparedSnapshot -> Prop) snapshot a b c :
  ready snapshot ->
  acts activator env (do! (if ac_defers_activation activator then job_ret tt else job_call CallBeginActivation);
                      activate activator snapshot a b c) ready id.
Proof.
  intros Hready st. unfold job_bind.
  set (before := if ac_defers_activation activator then [] else [CallBeginActivation]).
  assert ((if ac_defers_activation activator then job_ret tt else job_call CallBeginActivation) env st =
          (mkJobState (js_db st) (js_calls st ++ before),
           Some (if ac_defers_activation activator then Ok tt else je_control env (js_calls st ++ before)))) as ->.
  { unfold before. destruct (ac_defers_activation activator); [|done]. rewrite app_nil_r. by destruct st. }
  assert (Forall no_activation before) as Hb by (unfold before; by destruct (ac_defers_activation activator); repeat constructor).
  destruct (if ac_defers_activation activator then Ok tt else _) as [[]|e] eqn:Hagree.
  2:{ left. split; [done|]. by exists before. }
  unfold activate. cbn [js_db js_calls].
  match goal with |- context [transact _ ?s _] => set (senv := s) end.
  destruct (transact _ _ _) as [[db reports] r] eqn:Ht.
  assert (activated_run activator env ready st
    (mkJobState db (((js_calls st ++ before) ++ [CallActivate snapshot]) ++ List.map (staging_call a b c) reports)) r) as Hact.
  { exists before, snapshot, (List.map (staging_call a b c) reports), senv, reports. cbn [js_calls js_db].
    split_and!; try done; [by rewrite <- !app_assoc|by apply Forall_map, Forall_true|].
    intros Hdefer. unfold before in *. rewrite Hdefer in *. by destruct (je_control _ _) as [[]|]. }
  destruct r as [i|e]; [done|]. right. by exists (Err e).
Qed.

Lemma finish_acts activator env (ready : PreparedSnapshot -> Prop) snapshot checksum a b c :
  ready snapshot -> acts activator env (finish activator snapshot checksum a b c) ready rs_snapshot_id.
Proof.
  intros Hready. unfold finish. eapply acts_bind; [apply idle_checkpoint|]. intros _ _.
  assert (forall B C (m1 : Job B) (m2 : B -> Job C) D (k : C -> Job D) st, job_bind m1 (fun x => job_bind (m2 x) k) env st =
            job_bind (job_bind m1 m2) k env st) as Hassoc.
  { intros B C m1 m2 D k st. unfold job_bind. by destruct (m1 env st) as [st1 [[x|]|]]. }
  intros st. rewrite Hassoc. revert st. eapply acts_then; [by apply agree_acts|]. intros i.
  eapply idle_bind; [apply idle_checkpoint|]. intros _ _. by apply idle_ret.
Qed.

(** ** Responses *)

(** The body of a response that came to its end. *)
Fixpoint body_of (turns : list Turn) : option bytes :=
  match turns with
  | [] => None
  | turn :: turns =>
      match tn_polled turn with
      | PolledChunk chunk _ => app chunk <$> body_of turns
      | PolledEnd _ => Some []
      | PolledError | PolledTimeout => None
      end
  end.
Definition complete_response (answer : HttpAnswer) (body : bytes) : Prop :=
  exists status length turns, answer = Answered status length turns /\ is_success status = true /\ body_of turns = Some body.
(** The bytes of the first [n] chunks of a response. *)
Fixpoint first_chunks (n : nat) (turns : list Turn) : option bytes :=
  match n, turns with
  | O, _ => Some []
  | S n, turn :: turns =>
      match tn_polled turn with PolledChunk chunk _ => app chunk <$> first_chunks n turns | _ => None end
  | S _, [] => None
  end.
(** The part of the streamed response up to and with the first chunk that the
    parser no longer took. *)
Definition cut_response (env : JobEnv) (body : bytes) : Prop :=
  exists status length turns n, je_stream env = Answered status length turns /\ is_success status = true /\
    je_sent env n = false /\ (forall k, (k < n)%nat -> je_sent env k = true) /\ first_chunks (S n) turns = Some body.
(** A body that was received: a complete one, or what had come when the parser
    was found to have ended before the download. *)
Definition received (env : JobEnv) (body : bytes) : Prop :=
  complete_response (je_stream env) body \/ complete_response (je_download env) body \/ cut_response env body.

Lemma body_of_chunks chunks time kept rest :
  body_of (List.map chunk_turn chunks ++ mkTurn time (PolledEnd kept) :: rest) = Some (total chunks).
Proof. induction chunks as [|[t chunk] chunks IH]; [done|]. cbn. by rewrite IH. Qed.

Lemma stream_loop_idle limits env max_timeout turns n sent hashed :
  idle env (stream_loop limits max_timeout turns n sent hashed (zlen hashed))
    (fun '(_, hashed', count) => count = zlen hashed' /\ exists body, hashed' = hashed ++ body /\
       (body_of turns = Some body \/
        exists k, je_sent env (n + k) = false /\ (forall j, (j < k)%nat -> je_sent env (n + j) = true) /\
          first_chunks (S k) turns = Some body)).
Proof.
  revert n sent hashed. induction turns as [|[elapsed polled] turns IH]; intros n sent hashed; cbn [stream_loop tn_elapsed tn_polled].
  { eapply idle_weaken; [apply idle_lift|done]. }
  destruct (_ <=? _); [apply idle_fail|]. destruct polled as [chunk written| | |]; try apply idle_fail.
  2:{ apply idle_ret. split; [done|]. exists []. rewrite app_nil_r. split; [done|]. by left. }
  destruct (checked _ _) as [count|] eqn:Hc; [|apply idle_fail]. apply checked_inv in Hc as [-> _].
  destruct (_ <? _); [apply idle_fail|]. rewrite <- zlen_app.
  eapply idle_bind; [apply idle_env|]. intros ? ->. destruct (je_sent env n) eqn:Hn; cbn [negb].
  2:{ apply idle_ret. split; [done|]. exists chunk. split; [done|]. right. exists 0%nat. rewrite Nat.add_0_r.
      split; [done|]. split; [lia|]. cbn. by rewrite app_nil_r. }
  eapply idle_bind with (Q := fun _ => True); [destruct (je_due env n); [apply idle_checkpoint|by apply idle_ret]|]. intros _ _.
  eapply idle_weaken; [apply (IH (S n) (sent ++ [chunk]) (hashed ++ chunk))|].
  intros [[sent' hashed'] count] (-> & body & -> & Hbody). split; [done|]. exists (chunk ++ body).
  split; [by rewrite app_assoc|]. cbn [body_of tn_polled]. destruct Hbody as [Hb|(k & Hk & Hlt & Hf)].
  - left. by rewrite Hb.
  - right. exists (S k). rewrite Nat.add_succ_r. split; [done|]. split.
    + intros [|j] Hj; [by rewrite Nat.add_0_r|]. rewrite Nat.add_succ_r. apply Hlt. lia.
    + cbn [first_chunks tn_polled] in *. by rewrite Hf.
Qed.

(** ** Runs *)

Section RunSpec.
Context {Url : Type} `{Urls Url} `{UrlEdits Url}.
Context (is_alphanumeric : Z -> bool) (lowercase_char : Z -> text).
Context (protect : Url -> result ProtectedEndpoint IngestError).
Context `{JsonLaws PreparedProviderStream} `{JsonLaws PreparedEpgChannel} `{JsonLaws PreparedProgramme}.
Context (uuid : nat -> Z) (disk : nat -> Disk).
Context {Tz : Type} `{Chrono Tz} (from_hms_opt : Z -> Z -> Z -> option Z) (unescape : text -> result text text).
Context (programme_json : Programme Url -> option bytes) (sha256 : bytes -> bytes) `{EqDecision Url}.
(** A [HashMap] gives every entry it has. *)
Context (hash_order : gmap text Z -> list (text * Z)) (hash_order_all : forall m x id, m !! x = Some id -> (x, id) ∈ hash_order m).
Context (json_from_slice : bytes -> option Value) (float_text : spec_float -> text).
Context (base64_decode base64_decode_no_pad : text -> option bytes) (parse_rfc3339 : text -> option Z).
Context (f64_text : spec_float -> text).
Context (sha256_hex : bytes -> text) (gunzip unxz : bytes -> list Decoded) (zip_entries : bytes -> option (list (option ZipEntry))).
Context (file_buffers : bytes -> BufReader) (xml_input : BufReader -> XmlInput).
Context (activator : Activator) (artifact_limits : ArtifactLimits) (parse_limits : ParseLimits).

Abbreviation run_downloaded :=
  (run_downloaded is_alphanumeric lowercase_char protect uuid disk from_hms_opt unescape programme_json sha256 hash_order
     json_from_slice float_text base64_decode base64_decode_no_pad parse_rfc3339 f64_text gunzip unxz zip_entries file_buffers
     xml_input activator artifact_limits parse_limits).
Abbreviation try_streaming_run :=
  (try_streaming_run is_alphanumeric lowercase_char protect uuid disk from_hms_opt unescape programme_json sha256 hash_order
     sha256_hex xml_input activator artifact_limits parse_limits).
Abbreviation run :=
  (run is_alphanumeric lowercase_char protect uuid disk from_hms_opt unescape programme_json sha256 hash_order
     json_from_slice float_text base64_decode base64_decode_no_pad parse_rfc3339 f64_text sha256_hex gunzip unxz zip_entries
     file_buffers xml_input activator artifact_limits parse_limits).

(** A snapshot that may be handed to the store. *)
Definition ready (env : JobEnv) (request : IngestRequest Url) (s : PreparedSnapshot) : Prop :=
  sn_owner s = ir_owner request /\ sn_format s = ir_format request /\ is_nonempty s = true /\ self_contained s /\
  exists body, sn_checksum_sha256 s = sha256_hex body /\ sn_byte_count s = zlen body /\ received env body.

Lemma prepared_ready env request base s body :
  prepared base s -> is_nonempty s = true -> sn_owner base = ir_owner request -> sn_format base = ir_format request ->
  sn_checksum_sha256 base = sha256_hex body -> sn_byte_count base = zlen body -> received env body -> ready env request s.
Proof.
  intros Hp Hn Ho Hf Hc Hb Hr. pose proof (prepared_self_contained _ _ Hp) as Hself. destruct Hp as ((_ & Ho' & Hf' & Hc' & Hb') & _).
  split_and!; try congruence; try done. exists body. split_and!; congruence || done.
Qed.

Lemma streaming_parse_prepared source format owner timezone limits s seen :
  streaming_parse url_pairs is_alphanumeric lowercase_char protect uuid disk from_hms_opt unescape programme_json sha256 hash_order
    source format owner timezone limits = Some (Ok (s, seen)) ->
  prepared (empty_snapshot (uuid 0) owner format [] 0) s.
Proof.
  unfold streaming_parse. destruct format as [| |payload]; [| |done].
  - apply stage_m3u_prepared, empty_prepared.
  - intros Hs. injection Hs as Hs. revert Hs. by apply stage_xmltv_prepared, empty_prepared.
Qed.

Lemma prepare_streaming_prepared owner format timezone source decoded checksum count limits s seen :
  prepare_streaming_snapshot url_pairs is_alphanumeric lowercase_char protect uuid disk from_hms_opt unescape programme_json sha256
    hash_order owner format timezone source decoded checksum count limits = Some (Ok (s, seen)) ->
  prepared (empty_snapshot (uuid 0) owner format checksum count) s /\ is_nonempty s = true.
Proof.
  unfold prepare_streaming_snapshot. set (base := empty_snapshot _ _ _ _ _). assert (prepared base base) as Hbase by apply empty_prepared.
  match goal with |- context [?m ≫= _] => destruct m as [[[s0 seen0]|e]|] eqn:Hm end; cbn [mbind option_bind]; [|done..].
  intros Hs. injection Hs as Hs. cbn [result_bind fst snd] in Hs. destruct (finalize_snapshot s0) as [s1|] eqn:Hf; [|done].
  injection Hs as <- <-. eapply finalize_prepared; [|exact Hf]. destruct format as [| |payload]; [| |done].
  - by eapply stage_m3u_prepared.
  - injection Hm as Hm. by eapply stage_xmltv_prepared.
Qed.

Lemma run_downloaded_acts env request artifact body :
  da_sha256 artifact = sha256_hex body -> da_byte_count artifact = zlen body -> received env body ->
  acts activator env (run_downloaded request artifact) (ready env request) rs_snapshot_id.
Proof.
  intros Hsha Hcount Hbody. unfold IngestRun.run_downloaded. eapply acts_bind; [apply idle_checkpoint|]. intros _ _.
  eapply acts_bind; [apply idle_env|]. intros ? ->. eapply acts_bind; [apply idle_join|]. intros decoded Hdecoded.
  assert (dc_sha256 decoded = sha256_hex body) as Hdsha.
  { injection Hdecoded as Hd. unfold unpack_artifact in Hd. case_bool_decide; [by injection Hd as <-|].
    destruct (negb _); [done|]. match type of Hd with result_bind ?m _ = _ => destruct m as [out|] end; [|done].
    by injection Hd as <-. }
  eapply acts_bind; [apply idle_checkpoint|]. intros _ _.
  eapply (acts_bind _ _ _ _ (fun '(s, _) => ready env request s)).
  { destruct (ir_format request) as [| |payload] eqn:Hformat.
    1,2: eapply idle_weaken; [apply idle_join|]; intros [s seen]; destruct (je_opened env); [|done]; intros Hp;
      apply prepare_streaming_prepared in Hp as [Hp Hn]; by eapply prepared_ready.
    eapply idle_bind; [apply idle_join|]. intros parsed _. eapply idle_bind; [apply idle_lift|]. intros s Hs. apply idle_ret.
    injection Hs as Hs. apply prepare_snapshot_prepared in Hs as [Hp Hn]. by eapply prepared_ready. }
  intros [s seen] Hready. eapply acts_bind; [apply idle_checkpoint|]. intros _ _. by apply finish_acts.
Qed.

(** A run that may leave the work to another. *)
Definition may_act {A} (env : JobEnv) (m : Job (option A)) (good : PreparedSnapshot -> Prop) (id : A -> Z) : Prop :=
  forall st, let '(st', r) := m env st in
    match r with
    | Some (Ok (Some a)) => activated_run activator env good st st' (Ok (id a))
    | Some (Ok None) => quiet_run st st'
    | _ => quiet_run st st' \/ exists answer, activated_run activator env good st st' answer
    end.

Lemma may_act_acts {A} env (m : Job A) good id : acts activator env m good id -> may_act env (let! a <- m; job_ret (Some a)) good id.
Proof. intros Hm st. specialize (Hm st). unfold job_bind, job_ret. by destruct (m env st) as [st1 [[a|e]|]]. Qed.
Lemma may_act_bind {A B} env (m : Job A) (k : A -> Job (option B)) Q good id :
  idle env m Q -> (forall a, Q a -> may_act env (k a) good id) -> may_act env (job_bind m k) good id.
Proof.
  intros Hm Hk st. unfold job_bind. specialize (Hm st). destruct (m env st) as [st1 [[a|e]|]]; destruct Hm as [Hq HQ]; [|by left..].
  specialize (Hk a (HQ a eq_refl) st1). destruct (k a env st1) as [st2 [[[b|]|e]|]];
    [by eapply quiet_activated|by eapply quiet_then| |];
    (destruct Hk as [?|[answer ?]]; [left; by eapply quiet_then|right; exists answer; by eapply quiet_activated]).
Qed.
Lemma may_act_idle {A} env (m : Job (option A)) good id : idle env m (fun a => a = None) -> may_act env m good id.
Proof.
  intros Hm st. specialize (Hm st). destruct (m env st) as [st1 [[[a|]|e]|]]; destruct Hm as [Hq HQ]; [|done|by left..].
  by specialize (HQ _ eq_refl).
Qed.

Lemma acts_or_else {A} env (m : Job (option A)) (rest : Job A) good id :
  may_act env m good id -> acts activator env rest good id ->
  acts activator env (let! x <- m; match x with Some a => job_ret a | None => rest end) good id.
Proof.
  intros Hm Hrest st. unfold job_bind. specialize (Hm st). destruct (m env st) as [st1 [[[a|]|e]|]]; [done| |done..].
  specialize (Hrest st1). destruct (rest env st1) as [st2 [[b|e]|]]; [by eapply quiet_activated| |];
    (destruct Hrest as [?|[answer ?]]; [left; by eapply quiet_then|right; exists answer; by eapply quiet_activated]).
Qed.

Lemma try_streaming_may_act env request : may_act env (try_streaming_run request) (ready env request) rs_snapshot_id.
Proof.
  unfold IngestRun.try_streaming_run. eapply may_act_bind; [apply idle_env|]. intros ? ->.
  destruct (je_stream env) as [|status length turns] eqn:Hstream; [apply may_act_idle, idle_fail|].
  destruct (is_success status) eqn:Hstatus; cbn [negb]; [|apply may_act_idle, idle_fail].
  destruct turns as [|first rest]; [apply may_act_idle; eapply idle_weaken; [apply idle_lift|done]|].
  destruct (tn_polled first) as [chunk written| | |] eqn:Hfirst; [|apply may_act_idle, idle_fail..].
  destruct (is_compressed chunk); [by apply may_act_idle, idle_ret|].
  eapply may_act_bind; [apply (stream_loop_idle artifact_limits env _ _ 0 [] [])|].
  intros [[sent hashed] count] (-> & body & -> & Hbody). cbn [app] in *.
  eapply may_act_bind; [apply idle_checkpoint|]. intros _ _.
  eapply may_act_bind; [apply idle_join|]. intros [s seen] Hparse. apply streaming_parse_prepared in Hparse.
  destruct (_ =? _); [apply may_act_idle, idle_fail|].
  eapply may_act_bind; [apply idle_lift|]. intros s' Hs. injection Hs as Hs.
  eapply may_act_bind; [apply idle_ignore, idle_checkpoint|]. intros _ _. apply may_act_acts, finish_acts.
  eapply (artifact_prepared _ _ (sha256_hex body) (zlen body)) in Hparse.
  destruct (finalize_prepared _ _ _ Hparse Hs) as [Hp Hn]. eapply prepared_ready; try done.
  destruct Hbody as [Hb|(k & Hk & Hlt & Hf)]; [left; by exists status, length, (first :: rest)|].
  right; right. by exists status, length, (first :: rest), k.
Qed.

Lemma tick_checkpoints_idle env ticks : idle env (tick_checkpoints ticks) (fun _ => True).
Proof.
  induction ticks as [|t ticks IH]; cbn [tick_checkpoints]; [by apply idle_ret|].
  eapply idle_bind; [apply idle_ignore, idle_checkpoint|]. by intros _ _.
Qed.

Lemma download_idle env request :
  idle env (download_with_progress sha256_hex artifact_limits request)
    (fun artifact => exists body, da_sha256 artifact = sha256_hex body /\ da_byte_count artifact = zlen body /\ received env body).
Proof.
  unfold download_with_progress. eapply idle_bind; [apply idle_env|]. intros ? ->.
  destruct (je_download env) as [|status length turns] eqn:Hd; [apply idle_fail|].
  destruct (is_success status) eqn:Hstatus; cbn [negb]; [|apply idle_fail].
  destruct (download_stream _ _ _ _ _ _ _) as [progress r] eqn:Hstream.
  eapply idle_bind; [apply tick_checkpoints_idle|]. intros _ _. destruct r as [r|]; [|eapply idle_weaken; [apply idle_lift|done]].
  eapply idle_bind; [apply idle_ignore, idle_checkpoint|]. intros _ _. eapply idle_weaken; [apply idle_lift|].
  intros artifact [= ->].
  assert (exists p, download_loop sha256_hex artifact_limits (extension_hint (dr_endpoint request)) (dr_max_timeout request) turns [] [] 0 [] =
            (p, Some (Ok artifact))) as [p Hloop].
  { unfold download_stream in Hstream. repeat case_match; simplify_eq; by eexists. }
  apply (download_loop_ok _ _ _ _ _ []) in Hloop as (chunks & time & rest & -> & _ & _ & Hf & Hc & Hs & _).
  exists (da_file artifact). split_and!; try done. right; left. eexists status, length, _. split; [exact Hd|]. split; [done|].
  rewrite body_of_chunks. by rewrite Hf.
Qed.

Lemma run_acts env request : acts activator env (run request) (ready env request) rs_snapshot_id.
Proof.
  unfold IngestRun.run. eapply acts_bind; [apply idle_checkpoint|]. intros _ _. apply acts_or_else.
  - destruct (ir_format request); [apply try_streaming_may_act|apply try_streaming_may_act|by apply may_act_idle, idle_ret].
  - eapply acts_bind; [apply download_idle|]. intros artifact (body & Hsha & Hcount & Hbody). by eapply run_downloaded_acts.
Qed.

(** C17. A run hands at most one snapshot to the store: one with the owner and the
    format of the request, not empty, with the checksum and the size of the body
    it received, and whose programmes are on its own channels.  That body is
    the whole of a successful response or, where the parser ended before the
    download, the streamed response up to the first chunk the parser did not
    take.  An activator that publishes at once is called right after the job
    has agreed; one that defers, as the server's does, is called without that
    question.  A run that succeeds has
    had its snapshot taken by the store, with the identifier it reports; one
    that hands over nothing leaves the database as it was. *)
Theorem run_hands_over_once env request st st' r :
  run request env st = (st', r) ->
  match r with
  | Some (Ok done) => activated_run activator env (ready env request) st st' (Ok (rs_snapshot_id done))
  | _ => quiet_run st st' \/ exists answer, activated_run activator env (ready env request) st st' answer
  end.
Proof.
  intros Hrun. pose proof (run_acts env request st) as Hacts. by rewrite Hrun in Hacts.
Qed.
End RunSpec.

(** ** The run and the store *)

Section Published.
Context {Url : Type} `{Urls Url} `{UrlEdits Url}.
Context (is_alphanumeric : Z -> bool) (lowercase_char : Z -> text).
Context (protect : Url -> result ProtectedEndpoint IngestError).
Context `{JsonLaws PreparedProviderStream} `{JsonLaws PreparedEpgChannel} `{JsonLaws PreparedProgramme}.
Context (uuid : nat -> Z) (disk : nat -> Disk).
Context {Tz : Type} `{Chrono Tz} (from_hms_opt : Z -> Z -> Z -> option Z) (unescape : text -> result text text).
Context (programme_json : Programme Url -> option bytes) (sha256 : bytes -> bytes) `{EqDecision Url}.
Context (hash_order : gmap text Z -> list (text * Z)) (hash_order_all : forall m x id, m !! x = Some id -> (x, id) ∈ hash_order m).
Context (json_from_slice : bytes -> option Value) (float_text : spec_float -> text).
Context (base64_decode base64_decode_no_pad : text -> option bytes) (parse_rfc3339 : text -> option Z).
Context (f64_text : spec_float -> text).
Context (sha256_hex : bytes -> text) (gunzip unxz : bytes -> list Decoded) (zip_entries : bytes -> option (list (option ZipEntry))).
Context (file_buffers : bytes -> BufReader) (xml_input : BufReader -> XmlInput).
Context (artifact_limits : ArtifactLimits) (parse_limits : ParseLimits).

Definition request_key (request : IngestRequest Url) : SourceKey :=
  (provider_account_of (ir_owner request), epg_source_of (ir_owner request), snapshot_kind (ir_format request)).

Lemma activated_publishes env request st st' answer :
  store_inv (js_db st) -> activated_run pg_activator env (ready sha256_hex env request) st st' answer ->
  exists s, ready sha256_hex env request s /\
    match answer with
    | Ok id => id = sh_id (activation_shows s (js_db st)) /\ publishes (request_key request) (activation_shows s (js_db st)) (js_db st) (js_db st')
    | Err _ => js_db st' = js_db st \/ publishes (request_key request) (activation_shows s (js_db st)) (js_db st) (js_db st')
    end.
Proof.
  intros Hinv (before & s & after & senv & reports & _ & _ & _ & Hready & _ & Ht). exists s. split; [done|].
  pose proof Hready as (Ho & Hf & _ & Hself & _).
  assert (key_of s = request_key request) as Hkey by (unfold key_of, request_key; by rewrite Ho, Hf).
  pose proof (ends_transact _ _ _ senv (js_db st) (activate_ends s (js_db st) Hinv Hself) eq_refl) as Hends.
  cbn [pg_activator ac_activate_with_progress] in Ht. rewrite Ht, Hkey in Hends.
  destruct answer; [done|]. destruct Hends as [|(? & _ & ?)]; [by left|by right].
Qed.

End Published.
