(* ===== verification/Sports.v ===== *)
(** * Sports: leagues, scoreboards and the event matcher

    [crates/sports/src/league.rs], [model.rs] and [matcher.rs], and
    [crates/persistence/src/sports_info.rs] without its network lookup: which
    league a text names, what a scoreboard body holds, which of its events two
    team names mean, and what the guide says about the event.

    The JSON decoder gives the raw records; the character tables
    [char::is_alphanumeric] and [char::to_lowercase] and the RFC 3339 parser are
    parameters.  Instants are nanoseconds, dates are day numbers. *)
From Stdlib Require Import ZArith Lia Floats.SpecFloat.
From stdpp Require Import base numbers option strings.
From stdpp Require Import list gmap.
From S2P Require Import Prelude Text F32 M3u Hls Events.
Open Scope Z_scope.

(** ** Leagues *)

Inductive League := Nhl | Nfl | Nba | Mlb | Ncaaf | Ncaam | Ncaaw | Wnba | Mls.
#[export] Instance league_eq_dec : EqDecision League.
Proof. solve_decision. Defined.

Definition ALL : list League := [Nhl; Nfl; Nba; Mlb; Ncaaf; Ncaam; Ncaaw; Wnba; Mls].

Definition league_key (league : League) : text :=
  match league with
  | Nhl => str "NHL" | Nfl => str "NFL" | Nba => str "NBA" | Mlb => str "MLB" | Ncaaf => str "NCAAF"
  | Ncaam => str "NCAAM" | Ncaaw => str "NCAAW" | Wnba => str "WNBA" | Mls => str "MLS"
  end.

Definition espn_path (league : League) : text :=
  match league with
  | Nhl => str "hockey/nhl" | Nfl => str "football/nfl" | Nba => str "basketball/nba" | Mlb => str "baseball/mlb"
  | Ncaaf => str "football/college-football" | Ncaam => str "basketball/mens-college-basketball"
  | Ncaaw => str "basketball/womens-college-basketball" | Wnba => str "basketball/wnba" | Mls => str "soccer/usa.1"
  end.

(** The names of each league, in the order of the match. *)
Definition league_names : list (text * League) :=
  [(str "nhl", Nhl); (str "nfl", Nfl); (str "nba", Nba); (str "mlb", Mlb);
   (str "ncaaf", Ncaaf); (str "ncaafootball", Ncaaf); (str "collegefootball", Ncaaf);
   (str "ncaam", Ncaam); (str "ncaabasketball", Ncaam); (str "ncaamensbasketball", Ncaam);
   (str "mensncaabasketball", Ncaam); (str "menscollegebasketball", Ncaam);
   (str "ncaaw", Ncaaw); (str "ncaawomensbasketball", Ncaaw); (str "womenscollegebasketball", Ncaaw);
   (str "wnba", Wnba); (str "mls", Mls); (str "majorleaguesoccer", Mls)].

(** [League::from_key] *)
Definition from_key (s : text) : option League :=
  let norm := List.map to_ascii_lowercase (List.filter is_ascii_alphanumeric s) in
  snd <$> (snd <$> list_find (fun entry => fst entry = norm) league_names).

(** The position in [ALL]. *)
Definition league_index (league : League) : nat :=
  match league with
  | Nhl => 0 | Nfl => 1 | Nba => 2 | Mlb => 3 | Ncaaf => 4 | Ncaam => 5 | Ncaaw => 6 | Wnba => 7 | Mls => 8
  end%nat.
Lemma league_at_index league : ALL !! league_index league = Some league.
Proof. by destruct league. Qed.
#[export] Instance league_countable : Countable League :=
  inj_countable league_index (fun n => ALL !! n) league_at_index.

(** ** Scoreboards *)

Record EspnTeam := mkEspnTeam {
  tm_id : text;
  tm_display_name : text;
  tm_short_display_name : text;
  tm_location : text;
  tm_name : text;
  tm_abbreviation : text;
  tm_logo_url : option text
}.

Record EspnEvent := mkEspnEvent {
  ev_id : text;
  ev_name : text;
  ev_start_utc : Z;
  ev_home : EspnTeam;
  ev_away : EspnTeam;
  ev_venue : option text;
  ev_broadcasters : list text
}.

(** The decoded JSON. *)
Record RawLogo := mkRawLogo { rl_href : text; rl_rel : list text }.
Record RawTeam := mkRawTeam {
  rt_id : text;
  rt_display_name : text;
  rt_short_display_name : text;
  rt_location : text;
  rt_name : text;
  rt_abbreviation : text;
  rt_logo : option text;
  rt_logos : list RawLogo
}.
Record RawCompetitor := mkRawCompetitor { rk_home_away : text; rk_team : RawTeam }.
Record RawCompetition := mkRawCompetition {
  (** [venue] and its [full_name] *)
  rn_venue : option (option text);
  (** [names] of each broadcast *)
  rn_broadcasts : list (list text);
  rn_competitors : list RawCompetitor
}.
Record RawEvent := mkRawEvent {
  re_id : text;
  re_name : text;
  re_date : text;
  re_competitions : list RawCompetition
}.
Abbreviation RawScoreboard := (list RawEvent).
(** The teams of each league of each sport. *)
Abbreviation RawTeams := (list (list (list RawTeam))).

Definition into_team (raw : RawTeam) : EspnTeam :=
  let is_default logo := existsb (fun rel => bool_decide (rel = str "default")) (rl_rel logo) in
  let logo :=
    match rt_logo raw with
    | Some logo => Some logo
    | None =>
        rl_href <$>
        (match List.find is_default (rt_logos raw) with
         | Some logo => Some logo
         | None => head (rt_logos raw)
         end)
    end in
  mkEspnTeam (rt_id raw) (rt_display_name raw) (rt_short_display_name raw) (rt_location raw) (rt_name raw)
    (rt_abbreviation raw) logo.

(** The names of the broadcasts, each once, in order. *)
Definition broadcaster_names (broadcasts : list (list text)) : list text :=
  fold_left (fun names name => if bool_decide (name ∈ names) then names else names ++ [name]) (concat broadcasts) [].

(** The last team of a side. *)
Definition side_team (side : string) (competitors : list RawCompetitor) : option EspnTeam :=
  fold_left
    (fun team c => if bool_decide (rk_home_away c = str side) then Some (into_team (rk_team c)) else team)
    competitors None.

Section Scoreboards.
Context {Tz : Type} `{Chrono Tz}.
(** [DateTime::parse_from_rfc3339] *)
Context (parse_rfc3339 : text -> option Z).

Definition parse_espn_date (s : text) : option Z :=
  match parse_rfc3339 s with
  | Some instant => Some instant
  | None =>
      '(date, clock) ← parse_naive_datetime s (str "%Y-%m-%dT%H:%MZ");
      Some (nanos_of_seconds (date * seconds_per_day + clock))
  end.

Definition scoreboard_event (raw : RawEvent) : option EspnEvent :=
  start_utc ← parse_espn_date (re_date raw);
  comp ← head (re_competitions raw);
  home ← side_team "home" (rn_competitors comp);
  away ← side_team "away" (rn_competitors comp);
  Some (mkEspnEvent (re_id raw) (re_name raw) start_utc home away (mjoin (rn_venue comp))
          (broadcaster_names (rn_broadcasts comp))).

(** [parse_scoreboard] of the decoded body *)
Definition parse_scoreboard (raw : RawScoreboard) : list EspnEvent := omap scoreboard_event raw.
End Scoreboards.

(** [parse_teams] of the decoded body *)
Definition parse_teams (raw : RawTeams) : list EspnTeam := List.map into_team (concat (concat raw)).

(** ** The matcher *)

Definition CONFLICT_THRESHOLD : Z := nanos_of_seconds 7200.
Definition MIN_TEAM_SCORE : f32 := hundredths 70.

Inductive Separator := At | Vs.
#[export] Instance separator_eq_dec : EqDecision Separator.
Proof. solve_decision. Defined.

(** [Separator::parse] *)
Definition parse_separator (s : text) : option Separator :=
  let s := List.map to_ascii_lowercase (trim s) in
  if bool_decide (s ∈ [str "@"; str "at"]) then Some At
  else if bool_decide (s ∈ [str "vs"; str "vs."; str "v"; str "v."]) then Some Vs
  else None.

Record MatchQuery := mkMatchQuery {
  mq_first_team : text;
  mq_second_team : text;
  mq_separator : Separator;
  mq_parsed_start : option Z
}.

Record MatchedTeam := mkMatchedTeam {
  mt_name : text;
  mt_short_name : text;
  mt_abbreviation : text;
  mt_logo_url : option text
}.
Definition matched_team (team : EspnTeam) : MatchedTeam :=
  mkMatchedTeam (tm_display_name team) (tm_short_display_name team) (tm_abbreviation team) (tm_logo_url team).

Record EventMatch := mkEspnMatch {
  xm_event_id : text;
  xm_start_utc : Z;
  xm_home : MatchedTeam;
  xm_away : MatchedTeam;
  xm_venue : option text;
  xm_broadcasters : list text;
  xm_confidence : f32;
  xm_time_conflict : bool;
  xm_first_team_is_home : bool
}.

Section Matcher.
(** [char::is_alphanumeric] and [char::to_lowercase] *)
Context (is_alphanumeric : Z -> bool) (lowercase_char : Z -> text).

(** The loop of [normalize]: the output so far, in order, and whether it ends
    in a space or is empty. *)
Fixpoint normalize_from (out : text) (space : bool) (s : text) : text :=
  match s with
  | [] => out
  | c :: s =>
      if c =? 0x26 then normalize_from (out ++ (if space then [] else [0x20]) ++ str "and ") true s
      else if is_alphanumeric c then normalize_from (out ++ lowercase_char c) false s
      else if negb (c =? 0x27) && negb (c =? 0x2019) && negb (c =? 0x2e) && negb space
      then normalize_from (out ++ [0x20]) true s
      else normalize_from out space s
  end.
Definition normalize (s : text) : text := trim (normalize_from [] true s).

Definition contains_words (haystack needle : text) : bool :=
  negb (bool_decide (needle = [])) && contains_text (0x20 :: needle ++ [0x20]) (0x20 :: haystack ++ [0x20]).

Definition score_team (s : text) (team : EspnTeam) : f32 :=
  let q := normalize s in
  if bool_decide (q = []) then f32_of_Z 0
  else
    let display := normalize (tm_display_name team) in
    let short := normalize (tm_short_display_name team) in
    let name := normalize (tm_name team) in
    let location := normalize (tm_location team) in
    let abbr := normalize (tm_abbreviation team) in
    if bool_decide (q = display) then f32_of_Z 1
    else if bool_decide (q = short) || bool_decide (q = name) || (bool_decide (q = abbr) && negb (bool_decide (abbr = [])))
    then hundredths 95
    else if bool_decide (q = location) then hundredths 85
    else
      fold_left (fun best '(cand, score) => if contains_words q cand then f32_max best score else best)
        [(display, hundredths 80); (short, hundredths 75); (name, hundredths 75)] (f32_of_Z 0).

(** [Iterator::max_by]: the last of the greatest elements. *)
Definition max_by {A} (lt : A -> A -> bool) (l : list A) : option A :=
  fold_left (fun best x => match best with Some b => if lt x b then Some b else Some x | None => Some x end) l None.

Definition find_team (teams : list EspnTeam) (s : text) : option (EspnTeam * f32) :=
  max_by (fun a b => key_lt (total_key (snd a)) (total_key (snd b)))
    (List.filter (fun entry => f32_ge (snd entry) MIN_TEAM_SCORE)
       (List.map (fun team => (team, score_team s team)) teams)).

(** The confidence and whether the first team is the home team. *)
Definition score_event (query : MatchQuery) (event : EspnEvent) : option (f32 * bool) :=
  let first_home := score_team (mq_first_team query) (ev_home event) in
  let second_away := score_team (mq_second_team query) (ev_away event) in
  let first_away := score_team (mq_first_team query) (ev_away event) in
  let second_home := score_team (mq_second_team query) (ev_home event) in
  let straight := (f32_min first_away second_home, false) in
  let swapped := (f32_min first_home second_away, true) in
  let at_separator := bool_decide (mq_separator query = At) in
  let '(score, first_is_home) :=
    if at_separator && f32_ge (fst straight) (fst swapped) then straight
    else if at_separator then swapped
    else if f32_ge (fst straight) (fst swapped) then straight
    else swapped in
  if f32_lt score MIN_TEAM_SCORE then None
  else Some (if at_separator && first_is_home then f32_mul score (hundredths 90) else score, first_is_home).

Definition event_distance (query : MatchQuery) (event : EspnEvent) : Z :=
  match mq_parsed_start query with Some p => Z.abs (p - ev_start_utc event) | None => 0 end.

Definition match_candidate (query : MatchQuery) (event : EspnEvent) (confidence : f32) (first_is_home : bool) : EventMatch :=
  let time_conflict :=
    match mq_parsed_start query with Some p => CONFLICT_THRESHOLD <? Z.abs (p - ev_start_utc event) | None => false end in
  mkEspnMatch (ev_id event) (ev_start_utc event) (matched_team (ev_home event)) (matched_team (ev_away event))
    (ev_venue event) (ev_broadcasters event) confidence time_conflict first_is_home.

(** [better]: does the candidate replace the current one? *)
Definition better (query : MatchQuery) (candidate : EventMatch) (distance : Z) (cur : EventMatch) (cur_dist : Z) : bool :=
  if f32_gt (f32_abs (f32_sub (xm_confidence candidate) (xm_confidence cur))) f32_epsilon
  then f32_gt (xm_confidence candidate) (xm_confidence cur)
  else if bool_decide (is_Some (mq_parsed_start query)) && negb (distance =? cur_dist) then distance <? cur_dist
  else xm_start_utc candidate <? xm_start_utc cur.

Definition match_step (query : MatchQuery) (best : option (EventMatch * Z)) (event : EspnEvent)
  : option (EventMatch * Z) :=
  match score_event query event with
  | None => best
  | Some (confidence, first_is_home) =>
      let candidate := match_candidate query event confidence first_is_home in
      let distance := event_distance query event in
      match best with
      | None => Some (candidate, distance)
      | Some (cur, cur_dist) => if better query candidate distance cur cur_dist then Some (candidate, distance) else best
      end
  end.

Definition match_event (query : MatchQuery) (events : list EspnEvent) : option EventMatch :=
  fst <$> fold_left (match_step query) events None.
End Matcher.

(** ** What the guide says *)

Abbreviation SportsTeam := MatchedTeam.

Record SportsInfo := mkSportsInfo {
  si_league : text;
  si_local_date : Z;
  si_event_id : option text;
  si_home : option SportsTeam;
  si_away : option SportsTeam;
  si_venue : option text;
  si_broadcasters : list text;
  si_espn_start : option Z;
  si_time_conflict : bool;
  si_confidence : option f32
}.

Definition league_only (league : League) (local_date : Z) : SportsInfo :=
  mkSportsInfo (league_key league) local_date None None None None [] None false None.

Definition from_match (league : League) (local_date : Z) (found : EventMatch) : SportsInfo :=
  mkSportsInfo (league_key league) local_date (Some (xm_event_id found)) (Some (xm_home found)) (Some (xm_away found))
    (xm_venue found) (xm_broadcasters found) (Some (xm_start_utc found)) (xm_time_conflict found)
    (Some (xm_confidence found)).

Definition matchup (info : SportsInfo) : option text :=
  home ← si_home info;
  away ← si_away info;
  Some (mt_name away ++ str " at " ++ mt_name home).

Definition categories (info : SportsInfo) : list text := [str "Sports"; str "Sports event"; si_league info].

(** [parts.join(separator)] *)
Fixpoint join_with (separator : text) (parts : list text) : text :=
  match parts with
  | [] => []
  | [part] => part
  | part :: parts => part ++ separator ++ join_with separator parts
  end.

Definition description (info : SportsInfo) (fallback_title : text) : text :=
  let parts :=
    [default fallback_title (matchup info); str "League: " ++ si_league info] ++
    (match si_venue info with Some venue => [str "Venue: " ++ venue] | None => [] end) ++
    (if bool_decide (si_broadcasters info = []) then []
     else [str "Broadcast: " ++ join_with (str ", ") (si_broadcasters info)]) in
  join_with (str ". ") parts ++ str ".".

Definition icon_url (info : SportsInfo) : option text := home ← si_home info; mt_logo_url home.

Definition detect_league (captures : gmap text text) (group : option text) : option League :=
  head (omap from_key (option_list (captures !! str "league") ++ option_list group)).

Definition match_query (captures : gmap text text) (parsed_start : option Z) : option MatchQuery :=
  match captures !! str "away", captures !! str "home", captures !! str "team_a", captures !! str "team_b" with
  | Some away, Some home, _, _ => Some (mkMatchQuery away home At parsed_start)
  | _, _, Some first, Some second => Some (mkMatchQuery first second Vs parsed_start)
  | _, _, _, _ => None
  end.
