(* ===== verification/SportsClient.v ===== *)
(** * Sports: the ESPN client and the matchup images

    [crates/sports/src/client.rs] and the store of [crates/sports/src/art.rs].
    The client's lock makes each of its accesses to the state one step; a call
    is the sequence of steps it takes, with the answer of the network between
    them.  The image codec and the drawing are the parameter [render].  The disk
    is a map from paths, relative to the directory of the images, to the
    modification time and contents of the files; a disk that refuses a write
    keeps its files. *)
From Stdlib Require Import ZArith Lia.
From stdpp Require Import base numbers option strings.
From stdpp Require Import list gmap sorting.
From S2P Require Import Prelude Text F32 Sort M3u Hls Events Sports.
Open Scope Z_scope.

(** ** State *)

Inductive EspnError := EspnHttp | EspnParse | CircuitOpen.

Record EspnClientConfig := mkEspnClientConfig {
  base_url : text;
  timeout : Z;
  scoreboard_ttl : Z;
  teams_ttl : Z;
  failure_threshold : Z;
  open_for : Z
}.

Definition DEFAULT_BASE_URL : text := str "https://site.api.espn.com/apis/site/v2/sports".
Definition default_espn_config : EspnClientConfig :=
  mkEspnClientConfig DEFAULT_BASE_URL (nanos_of_seconds 5) (nanos_of_seconds 600) (nanos_of_seconds 86400) 3
    (nanos_of_seconds 60).

Record Entry (T : Type) := mkEntry { en_at : Z; en_value : T }.
Arguments mkEntry {T} at_ value : rename.
Arguments en_at {T} e : rename.
Arguments en_value {T} e : rename.

Record ClientState := mkClientState {
  cs_scoreboards : gmap (League * Z) (Entry (list EspnEvent));
  cs_teams : gmap League (Entry (list EspnTeam));
  cs_logos : gmap text (Entry bytes);
  cs_failures : Z;
  cs_open_until : option Z
}.
Definition client_new : ClientState := mkClientState ∅ ∅ ∅ 0 None.

Definition MAX_CACHED_LOGOS : Z := 256.

(** [at.elapsed() < ttl]; a clock that reads earlier has not elapsed. *)
Definition fresh {T} (now ttl : Z) (entry : Entry T) : bool := Z.max 0 (now - en_at entry) <? ttl.
Definition cached {K T} `{Countable K} (entries : gmap K (Entry T)) (key : K) (now ttl : Z) : option T :=
  entry ← entries !! key;
  if fresh now ttl entry then Some (en_value entry) else None.

(** ** The circuit breaker *)

Definition check_circuit (st : ClientState) (now : Z) : ClientState * result unit EspnError :=
  match cs_open_until st with
  | Some until =>
      if now <? until then (st, Err CircuitOpen)
      else (mkClientState (cs_scoreboards st) (cs_teams st) (cs_logos st) 0 None, Ok tt)
  | None => (st, Ok tt)
  end.

Definition record (config : EspnClientConfig) (st : ClientState) (ok : bool) (now : Z) : ClientState :=
  let failures := if ok then 0 else wrap32 (cs_failures st + 1) in
  let open_until :=
    if negb ok && (failure_threshold config <=? failures) then Some (now + open_for config) else cs_open_until st in
  mkClientState (cs_scoreboards st) (cs_teams st) (cs_logos st) failures open_until.

(** ** The steps on the caches *)

Definition store_scoreboard (st : ClientState) (key : League * Z) (events : list EspnEvent) (now : Z) : ClientState :=
  mkClientState (<[key := mkEntry now events]> (cs_scoreboards st)) (cs_teams st) (cs_logos st) (cs_failures st)
    (cs_open_until st).
Definition store_teams (st : ClientState) (league : League) (teams : list EspnTeam) (now : Z) : ClientState :=
  mkClientState (cs_scoreboards st) (<[league := mkEntry now teams]> (cs_teams st)) (cs_logos st) (cs_failures st)
    (cs_open_until st).
Definition store_logo (st : ClientState) (url : text) (value : bytes) (now : Z) : ClientState :=
  let logos := if MAX_CACHED_LOGOS <=? Z.of_nat (size (cs_logos st)) then ∅ else cs_logos st in
  mkClientState (cs_scoreboards st) (cs_teams st) (<[url := mkEntry now value]> logos) (cs_failures st)
    (cs_open_until st).

(** The accesses of concurrent calls, in the order of the lock. *)
Inductive ClientOp :=
| OpCheck (now : Z)
| OpRecord (ok : bool) (now : Z)
| OpScoreboard (key : League * Z) (events : list EspnEvent) (now : Z)
| OpTeams (league : League) (teams : list EspnTeam) (now : Z)
| OpLogo (url : text) (value : bytes) (now : Z).

Definition client_op (config : EspnClientConfig) (st : ClientState) (op : ClientOp) : ClientState :=
  match op with
  | OpCheck now => fst (check_circuit st now)
  | OpRecord ok now => record config st ok now
  | OpScoreboard key events now => store_scoreboard st key events now
  | OpTeams league teams now => store_teams st league teams now
  | OpLogo url value now => store_logo st url value now
  end.
Definition client_run (config : EspnClientConfig) (st : ClientState) (ops : list ClientOp) : ClientState :=
  fold_left (client_op config) ops st.

(** ** Calls *)

(** One call of the network: the clock at the look in the cache, at the check
    of the circuit, after the answer and at the store, and the body of a
    successful answer. *)
Record Exchange := mkExchange {
  x_asked : Z;
  x_checked : Z;
  x_answer : text -> option bytes;
  x_recorded : Z;
  x_stored : Z
}.

(** [EspnClient::get] *)
Definition get (config : EspnClientConfig) (st : ClientState) (url : text) (x : Exchange)
  : ClientState * result bytes EspnError :=
  match check_circuit st (x_checked x) with
  | (st, Err e) => (st, Err e)
  | (st, Ok _) =>
      match x_answer x url with
      | Some body => (record config st true (x_recorded x), Ok body)
      | None => (record config st false (x_recorded x), Err EspnHttp)
      end
  end.

Section Calls.
Context {Tz : Type} `{Chrono Tz}.
(** [serde_json::from_slice] at the two bodies; [DateTime::parse_from_rfc3339];
    [format("%Y%m%d")] *)
Context (scoreboard_json : bytes -> option RawScoreboard) (teams_json : bytes -> option RawTeams).
Context (parse_rfc3339 : text -> option Z) (format_ymd : Z -> text).

Definition scoreboard_url (config : EspnClientConfig) (league : League) (date : Z) : text :=
  base_url config ++ str "/" ++ espn_path league ++ str "/scoreboard?dates=" ++ format_ymd date.

(** [scoreboard] after a miss of the cache. *)
Definition fetch_scoreboard (config : EspnClientConfig) (st : ClientState) (league : League) (date : Z) (x : Exchange)
  : ClientState * result (list EspnEvent) EspnError :=
  match get config st (scoreboard_url config league date) x with
  | (st, Err e) => (st, Err e)
  | (st, Ok body) =>
      match scoreboard_json body with
      | None => (st, Err EspnParse)
      | Some raw =>
          let events := parse_scoreboard parse_rfc3339 raw in
          (store_scoreboard st (league, date) events (x_stored x), Ok events)
      end
  end.

Definition scoreboard (config : EspnClientConfig) (st : ClientState) (league : League) (date : Z) (x : Exchange)
  : ClientState * result (list EspnEvent) EspnError :=
  match cached (cs_scoreboards st) (league, date) (x_asked x) (scoreboard_ttl config) with
  | Some events => (st, Ok events)
  | None => fetch_scoreboard config st league date x
  end.

Definition teams (config : EspnClientConfig) (st : ClientState) (league : League) (x : Exchange)
  : ClientState * result (list EspnTeam) EspnError :=
  match cached (cs_teams st) league (x_asked x) (teams_ttl config) with
  | Some teams => (st, Ok teams)
  | None =>
      match get config st (base_url config ++ str "/" ++ espn_path league ++ str "/teams?limit=1000") x with
      | (st, Err e) => (st, Err e)
      | (st, Ok body) =>
          match teams_json body with
          | None => (st, Err EspnParse)
          | Some raw => (store_teams st league (parse_teams raw) (x_stored x), Ok (parse_teams raw))
          end
      end
  end.

Definition logo (config : EspnClientConfig) (st : ClientState) (url : text) (x : Exchange)
  : ClientState * result bytes EspnError :=
  match cached (cs_logos st) url (x_asked x) (teams_ttl config) with
  | Some value => (st, Ok value)
  | None =>
      match get config st url x with
      | (st, Err e) => (st, Err e)
      | (st, Ok body) => (store_logo st url body (x_stored x), Ok body)
      end
  end.

(** [char::is_alphanumeric] and [char::to_lowercase] *)
Context (is_alphanumeric : Z -> bool) (lowercase_char : Z -> text).

(** [EspnClient::lookup]: the exchanges of the two dates. *)
Definition espn_lookup (config : EspnClientConfig) (st : ClientState) (league : League) (local_date : Z) (query : MatchQuery)
  (x1 x2 : Exchange) : ClientState * result (option EventMatch) EspnError :=
  let '(st, first) := scoreboard config st league local_date x1 in
  let '(events, first_err) := match first with Ok v => (v, None) | Err e => ([], Some e) end in
  let '(st, events) :=
    match succ_opt local_date with
    | Some next =>
        match scoreboard config st league next x2 with
        | (st, Ok v) => (st, events ++ v)
        | (st, Err _) => (st, events)
        end
    | None => (st, events)
    end in
  (st,
   match match_event is_alphanumeric lowercase_char query events, first_err with
   | Some m, _ => Ok (Some m)
   | None, Some e => if bool_decide (events = []) then Err e else Ok None
   | None, None => Ok None
   end).

(** [lookup_sports_info] *)
Definition lookup_sports_info (config : EspnClientConfig) (st : ClientState) (league : League) (local_date : Z)
  (captures : gmap text text) (parsed_start : Z) (x1 x2 : Exchange) : ClientState * SportsInfo :=
  match match_query captures (Some parsed_start) with
  | None => (st, league_only league local_date)
  | Some query =>
      match espn_lookup config st league local_date query x1 x2 with
      | (st, Ok (Some found)) => (st, from_match league local_date found)
      | (st, Ok None) | (st, Err _) => (st, league_only league local_date)
      end
  end.

(** ** Matchup images *)

Definition DEFAULT_MAX_BYTES : Z := 64 * 1024 * 1024.

Inductive ArtError := BadKey | ArtNotFound | BadLogoHost | ArtEspn (e : EspnError) | ArtImage | ArtIo.

Definition alphanumeric_text (s : text) : bool := negb (bool_decide (s = [])) && forallb is_ascii_alphanumeric s.

Definition event_key (league : text) (local_date : Z) (event_id : text) : option text :=
  if negb (alphanumeric_text league) || negb (alphanumeric_text event_id) then None
  else Some (league ++ str "-" ++ format_ymd local_date ++ str "-" ++ event_id).

(** [parse_from_str(_, "%Y%m%d")] is the parser of the dates. *)
Definition parse_event_key (key : text) : option (League * Z * text) :=
  '(first, rest) ← split_once 0x2d key;
  league ← from_key first;
  '(second, id) ← split_once 0x2d rest;
  date ← parse_naive_date second (str "%Y%m%d");
  if alphanumeric_text id then Some (league, date, id) else None.

(** [url::host_of] and [allowed_logo_host] *)
Definition host_of (url : text) : option text :=
  rest ← strip_prefix (str "https://") url;
  let authority := fst (span (fun c => negb ((c =? 0x2f) || (c =? 0x3f) || (c =? 0x23))) rest) in
  if existsb (fun c => (c =? 0x40) || (c =? 0x3a)) authority then None else Some authority.
Definition allowed_logo_host (url : text) : bool :=
  match host_of url with
  | Some host => bool_decide (host = str "espncdn.com") || bool_decide (is_Some (strip_suffix (str ".espncdn.com") host))
  | None => false
  end.

(** A file: when it was modified and what it holds. *)
Record ArtFile := mkArtFile { af_modified : Z; af_data : bytes }.
Abbreviation Directory := (gmap text ArtFile).
(** An entry of the directory itself. *)
Definition in_directory (name : text) : bool := bool_decide (0x2f ∉ name).
Definition file_name (key : text) : text := key ++ str ".png".
Definition art_files (dir : Directory) : list (text * ArtFile) :=
  List.filter (fun '(name, _) => in_directory name && bool_decide (path_extension name = Some (str "png")))
    (map_to_list dir).

(** [files.sort()]: by time, size and path. *)
Definition file_le (a b : text * ArtFile) : bool :=
  let '(na, fa) := a in
  let '(nb, fb) := b in
  (af_modified fa <? af_modified fb) ||
  ((af_modified fa =? af_modified fb) &&
   ((zlen (af_data fa) <? zlen (af_data fb)) || ((zlen (af_data fa) =? zlen (af_data fb)) && text_le na nb))).
Definition file_lt (a b : text * ArtFile) : bool := negb (file_le b a).

Definition files_size (files : list (text * ArtFile)) : Z := fold_right (fun f n => zlen (af_data (snd f)) + n) 0 files.

(** The loop of [enforce_size_limit]: [total] is what is left; [removable] says
    which files the system lets it remove. *)
Fixpoint remove_oldest (removable : text -> bool) (max_bytes : Z) (keep : text) (total : Z)
  (files : list (text * ArtFile)) (dir : Directory) : Directory :=
  match files with
  | [] => dir
  | (name, file) :: files =>
      if total <=? max_bytes then dir
      else if bool_decide (name = keep) then remove_oldest removable max_bytes keep total files dir
      else if removable name
      then remove_oldest removable max_bytes keep (Z.max 0 (total - zlen (af_data file))) files (delete name dir)
      else remove_oldest removable max_bytes keep total files dir
  end.

Definition enforce_size_limit (removable : text -> bool) (dir : Directory) (max_bytes : Z) (keep : text) : Directory :=
  let files := art_files dir in
  remove_oldest removable max_bytes keep (files_size files) (stable_sort file_lt files) dir.

(** [ArtStore::store] with a disk that takes the file; the temporary file has
    been renamed when the limit is enforced. *)
Definition store (removable : text -> bool) (max_bytes : Z) (dir : Directory) (key : text) (png : bytes) (now : Z)
  : Directory :=
  enforce_size_limit removable (<[file_name key := mkArtFile now png]> (delete (key ++ str ".png.tmp") dir)) max_bytes
    (file_name key).

(** [render_matchup] *)
Context (render : bytes -> bytes -> option bytes).

(** The exchanges of one request for an image, and when and whether the file
    can be written. *)
Record ArtEnv := mkArtEnv {
  ae_scoreboard : Exchange;
  ae_away : Exchange;
  ae_home : Exchange;
  ae_now : Z;
  ae_writable : bool;
  ae_removable : text -> bool
}.

(** [ArtStore::get] *)
Definition art_get (config : EspnClientConfig) (allow_any_host : bool) (max_bytes : Z) (dir : Directory)
  (st : ClientState) (key : text) (env : ArtEnv) : Directory * ClientState * result bytes ArtError :=
  match parse_event_key key with
  | None => (dir, st, Err BadKey)
  | Some (league, date, id) =>
      match dir !! file_name key with
      | Some file => (dir, st, Ok (af_data file))
      | None =>
          match scoreboard config st league date (ae_scoreboard env) with
          | (st, Err e) => (dir, st, Err (ArtEspn e))
          | (st, Ok events) =>
              match List.find (fun event => bool_decide (ev_id event = id)) events with
              | None => (dir, st, Err ArtNotFound)
              | Some event =>
                  match tm_logo_url (ev_away event), tm_logo_url (ev_home event) with
                  | Some away_url, Some home_url =>
                      if negb (allow_any_host || (allowed_logo_host away_url && allowed_logo_host home_url))
                      then (dir, st, Err BadLogoHost)
                      else
                        match logo config st away_url (ae_away env) with
                        | (st, Err e) => (dir, st, Err (ArtEspn e))
                        | (st, Ok away) =>
                            match logo config st home_url (ae_home env) with
                            | (st, Err e) => (dir, st, Err (ArtEspn e))
                            | (st, Ok home) =>
                                match render away home with
                                | None => (dir, st, Err ArtImage)
                                | Some png =>
                                    if ae_writable env
                                    then (store (ae_removable env) max_bytes dir key png (ae_now env), st, Ok png)
                                    else (dir, st, Err ArtIo)
                                end
                            end
                        end
                  | _, _ => (dir, st, Err ArtNotFound)
                  end
              end
          end
      end
  end.
End Calls.
