(* ===== verification/SportsSpec.v ===== *)
(** * Sports: what the matcher and the client guarantee

    The event that is chosen for a title, its confidence, and when the circuit
    breaker of the client lets a request through. *)
From Stdlib Require Import ZArith Lia Floats.SpecFloat.
From stdpp Require Import base numbers option strings.
From stdpp Require Import list gmap sorting.
From S2P Require Import Prelude Text F32 Sort M3u Hls Events Sports SportsClient.
Open Scope Z_scope.

(** ** Confidence *)

Definition team_scores : list f32 :=
  [f32_of_Z 0; f32_of_Z 1; hundredths 95; hundredths 85; hundredths 80; hundredths 75].
Definition confidences : list f32 :=
  concat (List.map (fun s => if f32_lt s MIN_TEAM_SCORE then [] else [s; f32_mul s (hundredths 90)]) team_scores).

(** On the confidences the code compares, the difference of two is above the
    epsilon exactly when they differ, and [>] is a linear order. *)
Lemma confidences_ordered a b :
  a ∈ confidences -> b ∈ confidences ->
  f32_gt (f32_abs (f32_sub a b)) f32_epsilon = negb (bool_decide (total_key a = total_key b)) /\
  f32_gt a b = key_lt (total_key b) (total_key a).
Proof.
  set (ok := fun a b =>
    Bool.eqb (f32_gt (f32_abs (f32_sub a b)) f32_epsilon) (negb (bool_decide (total_key a = total_key b))) &&
    Bool.eqb (f32_gt a b) (key_lt (total_key b) (total_key a))).
  assert (forallb (fun a => forallb (ok a) confidences) confidences = true) as Hall by (vm_compute; reflexivity).
  rewrite forallb_forall in Hall. intros Ha%list_elem_of_In Hb%list_elem_of_In.
  specialize (Hall a Ha). rewrite forallb_forall in Hall. specialize (Hall b Hb).
  apply andb_true_iff in Hall as [H1%eqb_prop H2%eqb_prop]. done.
Qed.

Section MatcherSpec.
Context (is_alphanumeric : Z -> bool) (lowercase_char : Z -> text).
Abbreviation score_team := (Sports.score_team is_alphanumeric lowercase_char).
Abbreviation score_event := (Sports.score_event is_alphanumeric lowercase_char).
Abbreviation match_event := (Sports.match_event is_alphanumeric lowercase_char).

Lemma score_team_in s team : score_team s team ∈ team_scores.
Proof.
  assert (forall a, existsb (fun b => bool_decide (total_key b = total_key a)) team_scores = true -> a ∈ team_scores) as Hin.
  { intros a (b & Hb & He)%existsb_exists. apply bool_decide_eq_true in He. apply total_key_inj in He as <-.
    by apply list_elem_of_In. }
  apply Hin. unfold Sports.score_team.
  destruct (bool_decide (_ = [])); [vm_compute; reflexivity|].
  destruct (bool_decide _); [vm_compute; reflexivity|].
  destruct (_ || _ || _); [vm_compute; reflexivity|].
  destruct (bool_decide _); [vm_compute; reflexivity|]. cbn [fold_left].
  repeat destruct (contains_words _ _); vm_compute; reflexivity.
Qed.

Lemma f32_min_or a b : f32_min a b = a \/ f32_min a b = b.
Proof. unfold f32_min. destruct (SFcompare a b) as [[]|]; auto. destruct a; auto. Qed.

Lemma score_event_in query event conf home :
  score_event query event = Some (conf, home) ->
  conf ∈ confidences /\
  exists score, score ∈ team_scores /\ f32_lt score MIN_TEAM_SCORE = false /\
    conf = if bool_decide (mq_separator query = At) && home then f32_mul score (hundredths 90) else score.
Proof.
  unfold Sports.score_event. set (straight := f32_min _ _). set (swapped := f32_min _ (score_team _ (ev_away event))).
  assert (straight ∈ team_scores /\ swapped ∈ team_scores) as [H1 H2].
  { split; [unfold straight|unfold swapped];
      (edestruct (f32_min_or) as [He|He]; rewrite He; apply score_team_in). }
  set (pick := if _ && _ then _ else _).
  assert (fst pick ∈ team_scores) as Hpick.
  { unfold pick. destruct (_ && _); [done|]. destruct (bool_decide _); [done|]. by destruct (f32_ge _ _). }
  destruct pick as [score first]. cbn [fst] in Hpick. destruct (f32_lt score MIN_TEAM_SCORE) eqn:El; [done|].
  intros [= <- <-]. split; [|by exists score].
  apply list_elem_of_In, in_concat. exists [score; f32_mul score (hundredths 90)]. split.
  - apply in_map_iff. exists score. rewrite El. split; [done|by apply list_elem_of_In].
  - destruct (_ && _); cbn; auto.
Qed.

(** ** The best event *)

(** A candidate and its distance are at least as good as another. *)
Definition as_good (best other : EventMatch * Z) : Prop :=
  key_lt (total_key (xm_confidence (fst other))) (total_key (xm_confidence (fst best))) = true \/
  (xm_confidence (fst best) = xm_confidence (fst other) /\
   (snd best < snd other \/ (snd best = snd other /\ xm_start_utc (fst best) <= xm_start_utc (fst other)))).

Lemma as_good_refl m : as_good m m.
Proof. right. split; [done|]. right. lia. Qed.

Lemma as_good_trans a b c : as_good a b -> as_good b c -> as_good a c.
Proof.
  unfold as_good. rewrite !key_lt_spec. intros [H1|[E1 H1]] [H2|[E2 H2]].
  - left. lia.
  - left. rewrite <- E2. done.
  - left. rewrite E1. done.
  - right. rewrite E1, E2. split; [done|]. lia.
Qed.

Definition candidate_of (query : MatchQuery) (event : EspnEvent) : option (EventMatch * Z) :=
  '(conf, home) ← score_event query event;
  Some (match_candidate query event conf home, event_distance query event).

Lemma better_spec query event event' c c' :
  candidate_of query event = Some c -> candidate_of query event' = Some c' ->
  if better query (fst c) (snd c) (fst c') (snd c') then as_good c c' else as_good c' c.
Proof.
  unfold candidate_of. destruct (score_event query event) as [[conf home]|] eqn:E; [|done].
  destruct (score_event query event') as [[conf' home']|] eqn:E'; [|done]. cbn. intros [= <-] [= <-].
  apply score_event_in in E as [Hin _], E' as [Hin' _]. unfold better, as_good. cbn [fst snd xm_confidence match_candidate xm_start_utc].
  destruct (confidences_ordered conf conf' Hin Hin') as [-> ->].
  case_bool_decide as Hkey; cbn [negb].
  - apply total_key_inj in Hkey as ->.
    assert (bool_decide (is_Some (mq_parsed_start query)) && negb (event_distance query event =? event_distance query event')
      = negb (event_distance query event =? event_distance query event')) as ->.
    { unfold event_distance. by destruct (mq_parsed_start query). }
    destruct (Z.eqb_spec (event_distance query event) (event_distance query event')) as [Hd|Hd]; cbn [negb].
    + rewrite Hd. destruct (Z.ltb_spec (ev_start_utc event) (ev_start_utc event')); right; (split; [done|lia]).
    + destruct (Z.ltb_spec (event_distance query event) (event_distance query event')); right; (split; [done|lia]).
  - destruct (key_lt (total_key conf') (total_key conf)) eqn:Hlt; left; [done|].
    rewrite <- not_true_iff_false, key_lt_spec in Hlt. rewrite key_eq in Hkey. rewrite key_lt_spec. lia.
Qed.

Lemma elem_of_snoc {A} (l : list A) x y : y ∈ l ++ [x] <-> y ∈ l \/ y = x.
Proof. set_solver. Qed.

Lemma match_fold query events :
  match fold_left (match_step is_alphanumeric lowercase_char query) events None with
  | None => forall e, e ∈ events -> candidate_of query e = None
  | Some best =>
      (exists e, e ∈ events /\ candidate_of query e = Some best) /\
      forall e c, e ∈ events -> candidate_of query e = Some c -> as_good best c
  end.
Proof.
  induction events as [|event events IH] using rev_ind; [intros e He; by apply not_elem_of_nil in He|].
  rewrite fold_left_app. cbn [fold_left]. set (best := fold_left _ events None) in *. unfold match_step at 1.
  assert (candidate_of query event = '(conf, home) ← score_event query event;
    Some (match_candidate query event conf home, event_distance query event)) as Hc by done.
  destruct (score_event query event) as [[conf home]|]; cbn in Hc.
  - set (candidate := match_candidate query event conf home) in *. set (distance := event_distance query event) in *.
    destruct best as [[cur cur_dist]|].
    + destruct IH as [(e & He & Hcur) IH]. pose proof (better_spec query event e _ _ Hc Hcur) as Hb. cbn [fst snd] in Hb.
      destruct (better query candidate distance cur cur_dist); (split; [|intros e' c' He' Hc'; apply elem_of_snoc in He' as [He' | ->]]).
      * exists event. set_solver.
      * eapply as_good_trans; [exact Hb|]. by eapply IH.
      * rewrite Hc in Hc'. injection Hc' as <-. apply as_good_refl.
      * exists e. set_solver.
      * by eapply IH.
      * rewrite Hc in Hc'. by injection Hc' as <-.
    + split; [exists event; set_solver|]. intros e' c' He' Hc'. apply elem_of_snoc in He' as [He' | ->].
      * rewrite IH in Hc'; done.
      * rewrite Hc in Hc'. injection Hc' as <-. apply as_good_refl.
  - destruct best as [best|].
    + destruct IH as [(e & He & Hcur) IH]. split; [exists e; set_solver|].
      intros e' c' He' Hc'. apply elem_of_snoc in He' as [He' | ->]; [by eapply IH|congruence].
    + intros e' He'. apply elem_of_snoc in He' as [He' | ->]; [by apply IH|done].
Qed.

(** The event the matcher picks is the best of all that match: the highest
    confidence, then the start nearest to the parsed one, then the earliest
    start; and it finds none only when no event matches.  The tolerance of the
    comparison of confidences never lets a worse event win. *)
Theorem match_event_best query events :
  match match_event query events with
  | None => forall e, e ∈ events -> score_event query e = None
  | Some m =>
      (exists e conf home, e ∈ events /\ score_event query e = Some (conf, home) /\ m = match_candidate query e conf home) /\
      forall e conf home, e ∈ events -> score_event query e = Some (conf, home) ->
        f32_gt (xm_confidence m) conf = true \/
        (xm_confidence m = conf /\
         let distance start := match mq_parsed_start query with Some p => Z.abs (p - start) | None => 0 end in
         (distance (xm_start_utc m) < distance (ev_start_utc e) \/
          (distance (xm_start_utc m) = distance (ev_start_utc e) /\ xm_start_utc m <= ev_start_utc e)))
  end.
Proof.
  unfold Sports.match_event. pose proof (match_fold query events) as Hfold.
  destruct (fold_left _ events None) as [best|]; cbn [fmap option_fmap option_map].
  - destruct Hfold as [(e & He & Hbest) Hall]. unfold candidate_of in Hbest.
    destruct (score_event query e) as [[conf home]|] eqn:Es; [|done]. cbn in Hbest. injection Hbest as <-. cbn [fst].
    split; [by exists e, conf, home|]. intros e' conf' home' He' Es'.
    specialize (Hall e' (match_candidate query e' conf' home', event_distance query e') He').
    unfold candidate_of in Hall. rewrite Es' in Hall. specialize (Hall eq_refl). unfold as_good in Hall.
    cbn [fst snd match_candidate xm_confidence xm_start_utc] in *.
    apply score_event_in in Es as [Hin _], Es' as [Hin' _].
    destruct (confidences_ordered conf conf' Hin Hin') as [_ ->]. exact Hall.
  - intros e He. specialize (Hfold e He). unfold candidate_of in Hfold. by destruct (score_event query e) as [[]|].
Qed.

(** The confidence of a match is at least 0.675, and below 0.7 exactly at the
    least score of a match whose source order is swapped. *)
Theorem confidence_range query event conf home :
  score_event query event = Some (conf, home) ->
  f32_ge (f32_of_Z 1) conf = true /\ f32_ge conf (f32_mul (hundredths 75) (hundredths 90)) = true /\
  (f32_lt conf MIN_TEAM_SCORE = true <->
   mq_separator query = At /\ home = true /\ conf = f32_mul (hundredths 75) (hundredths 90)).
Proof.
  intros (_ & score & Hin & Hmin & ->)%score_event_in.
  assert (forall b : bool, let c := if b then f32_mul score (hundredths 90) else score in
    f32_ge (f32_of_Z 1) c = true /\ f32_ge c (f32_mul (hundredths 75) (hundredths 90)) = true /\
    (f32_lt c MIN_TEAM_SCORE = true <-> b = true /\ c = f32_mul (hundredths 75) (hundredths 90))) as Hall.
  { apply list_elem_of_In in Hin. cbn [team_scores List.In] in Hin.
    destruct Hin as [<-|[<-|[<-|[<-|[<-|[<-|[]]]]]]]; [vm_compute in Hmin; done|..];
      intros []; vm_compute; (split; [done|split; [done|split; [|intros [? ?]]; try done; auto]]). }
  specialize (Hall (bool_decide (mq_separator query = At) && home)). cbn zeta in Hall.
  destruct Hall as (H1 & H2 & H3). split_and!; [exact H1|exact H2|]. rewrite H3, andb_true_iff, bool_decide_eq_true. tauto.
Qed.
End MatcherSpec.

(** ** The circuit breaker *)

Definition refused (st : ClientState) (now : Z) : Prop := snd (check_circuit st now) = Err CircuitOpen.

Lemma refused_spec st now : refused st now <-> exists limit, cs_open_until st = Some limit /\ now < limit.
Proof.
  unfold refused, check_circuit. destruct (cs_open_until st) as [limit|]; [|naive_solver].
  destruct (Z.ltb_spec now limit); cbn; split; try naive_solver. intros (u & [= <-] & ?). lia.
Qed.

Lemma client_run_app config st a b : client_run config st (a ++ b) = client_run config (client_run config st a) b.
Proof. apply fold_left_app. Qed.

(** The number of failures recorded since the last success. *)
Fixpoint failure_streak (ops : list ClientOp) : Z :=
  match ops with
  | [] => 0
  | op :: ops =>
      match op with
      | OpRecord true _ => 0
      | OpRecord false _ => 1 + failure_streak ops
      | _ => failure_streak ops
      end
  end.
Definition streak (ops : list ClientOp) : Z := failure_streak (rev ops).

Lemma streak_snoc ops op :
  streak (ops ++ [op]) = match op with OpRecord true _ => 0 | OpRecord false _ => 1 + streak ops | _ => streak ops end.
Proof. unfold streak. rewrite rev_app_distr. destruct op as [|[]| | |]; done. Qed.

Lemma streak_bounds ops : 0 <= streak ops <= zlen ops.
Proof.
  induction ops as [|op ops IH] using rev_ind; [done|]. rewrite streak_snoc, zlen_snoc. destruct op as [|[]| | |]; lia.
Qed.

Lemma failures_le_streak config ops : 0 <= cs_failures (client_run config client_new ops) <= streak ops.
Proof.
  induction ops as [|op ops IH] using rev_ind; [done|].
  rewrite client_run_app, streak_snoc. cbn [client_run fold_left]. fold (client_run config client_new ops).
  set (st := client_run config client_new ops) in *. destruct op as [now|[] now|key events now|league l now|url v now]; cbn; try lia.
  - unfold check_circuit. destruct (cs_open_until st) as [limit|]; [destruct (now <? limit)|]; cbn; lia.
  - unfold wrap32. pose proof (Z.mod_le (cs_failures st + 1) (2 ^ 32) ltac:(lia) ltac:(lia)).
    pose proof (Z.mod_pos_bound (cs_failures st + 1) (2 ^ 32) ltac:(lia)). lia.
Qed.

(** A request is refused only while the circuit is open: at least
    [failure_threshold] requests in a row had failed, the last of them less than
    [open_for] ago.  This holds for every interleaving of calls. *)
Theorem circuit_refuses_only_after_failures config ops now :
  0 < failure_threshold config -> refused (client_run config client_new ops) now ->
  exists before t after, ops = before ++ OpRecord false t :: after /\ now < t + open_for config /\
    failure_threshold config <= streak (before ++ [OpRecord false t]).
Proof.
  intros Hth. rewrite refused_spec. intros (limit & Huntil & Hnow). revert limit Huntil Hnow.
  induction ops as [|op ops IH] using rev_ind; intros limit; [done|].
  rewrite client_run_app. cbn [client_run fold_left]. fold (client_run config client_new ops).
  set (st := client_run config client_new ops) in *.
  assert (cs_open_until st = Some limit -> now < limit ->
    exists before t after, ops ++ [op] = before ++ OpRecord false t :: after /\ now < t + open_for config /\
      failure_threshold config <= streak (before ++ [OpRecord false t])) as Hkeep.
  { intros Hu Hn. destruct (IH limit Hu Hn) as (before & t & after & -> & ? & ?).
    exists before, t, (after ++ [op]). by rewrite <- app_assoc. }
  destruct op as [t|ok t|key events t|league l t|url v t]; cbn; try done.
  - unfold check_circuit. destruct (cs_open_until st) as [u|] eqn:Eu; [destruct (t <? u)|]; cbn; try done; rewrite Eu; done.
  - destruct ok; cbn; [done|]. destruct (Z.leb_spec (failure_threshold config) (wrap32 (cs_failures st + 1))); [|done].
    intros [= <-] Hn. exists ops, t, []. split_and!; [done|done|]. rewrite streak_snoc.
    pose proof (failures_le_streak config ops) as Hf. fold st in Hf.
    unfold wrap32 in *. pose proof (Z.mod_le (cs_failures st + 1) (2 ^ 32) ltac:(lia) ltac:(lia)). lia.
Qed.

(** What other calls do while the circuit is open: they check it before it
    closes and record answers after it opened. *)
Definition while_open (config : EspnClientConfig) (t : Z) (op : ClientOp) : Prop :=
  match op with
  | OpCheck now => now < t + open_for config
  | OpRecord _ now => t <= now
  | _ => True
  end.

Lemma open_stays config t ops st limit :
  cs_open_until st = Some limit -> t + open_for config <= limit -> Forall (while_open config t) ops ->
  exists limit', cs_open_until (client_run config st ops) = Some limit' /\ t + open_for config <= limit'.
Proof.
  revert st limit. induction ops as [|op ops IH]; intros st limit Hu Hle Hall; [by exists limit|].
  inversion_clear Hall as [|? ? Hop Hops]. cbn [client_run fold_left]. fold (client_run config (client_op config st op) ops).
  destruct op as [now|ok now|key events now|league l now|url v now]; cbn in Hop; try (by eapply IH; [exact Hu|..]).
  - apply (IH _ limit); [|done|done]. cbn. unfold check_circuit. rewrite Hu.
    destruct (Z.ltb_spec now limit); [done|lia].
  - cbn [client_op]. unfold record. destruct (negb ok && _); [|by eapply IH; [exact Hu|..]].
    apply (IH _ (now + open_for config)); [done|lia|done].
Qed.

Lemma burst_counts config st times :
  0 <= cs_failures st -> cs_failures st + zlen times <= u32_max ->
  cs_failures (client_run config st (List.map (OpRecord false) times)) = cs_failures st + zlen times.
Proof.
  revert st. induction times as [|t times IH]; intros st Hf Hmax; [cbn; rewrite zlen_nil; lia|].
  rewrite zlen_cons in *. pose proof (zlen_nonneg times). cbn [List.map client_run fold_left].
  assert (cs_failures (client_op config st (OpRecord false t)) = cs_failures st + 1) as Hone.
  { cbn. unfold wrap32. apply Z.mod_small. unfold u32_max in Hmax. lia. }
  fold (client_run config (client_op config st (OpRecord false t)) (List.map (OpRecord false) times)).
  rewrite IH; rewrite ?Hone; lia.
Qed.

(** Once [failure_threshold] requests in a row have failed, every later request
    of the next [open_for] is refused without a call of the network, whatever
    the other calls do. *)
Theorem circuit_breaker config ops times t others now :
  0 < failure_threshold config <= zlen times + 1 -> zlen ops + zlen times < u32_max ->
  Forall (while_open config t) others -> now < t + open_for config ->
  let st := client_run config client_new (ops ++ List.map (OpRecord false) (times ++ [t]) ++ others) in
  refused st now /\
  forall url x, x_checked x = now -> get config st url x = (st, Err CircuitOpen).
Proof.
  intros Hth Hmax Hothers Hnow st.
  assert (refused st now) as Hr.
  { apply refused_spec. unfold st. rewrite !client_run_app, List.map_app, client_run_app.
    set (st0 := client_run config client_new ops).
    pose proof (failures_le_streak config ops) as Hf. pose proof (streak_bounds ops) as Hs. fold st0 in Hf.
    pose proof (burst_counts config st0 times ltac:(lia) ltac:(lia)) as Hb. set (st1 := client_run config st0 _) in *.
    destruct (open_stays config t others (client_run config st1 (List.map (OpRecord false) [t])) (t + open_for config)) as (u & Hu & Hle);
      [|lia|done|exists u; split; [done|lia]].
    cbn. rewrite Hb. pose proof (zlen_nonneg times). unfold wrap32. rewrite Z.mod_small by (unfold u32_max in Hmax; lia).
    destruct (Z.leb_spec (failure_threshold config) (cs_failures st0 + zlen times + 1)); [done|lia]. }
  split; [done|]. intros url x Hx. unfold get. rewrite Hx. clearbody st. unfold refused, check_circuit in Hr |- *.
  destruct (cs_open_until st) as [limit|]; [|done]. by destruct (now <? limit).
Qed.

(** ** The caches *)

Definition stores_scoreboard (key : League * Z) (op : ClientOp) : Prop :=
  match op with OpScoreboard key' _ _ => key' = key | _ => False end.

Lemma scoreboard_entry config ops key entry :
  cs_scoreboards (client_run config client_new ops) !! key = Some entry ->
  exists before after, ops = before ++ OpScoreboard key (en_value entry) (en_at entry) :: after /\
    Forall (fun op => ~ stores_scoreboard key op) after.
Proof.
  induction ops as [|op ops IH] using rev_ind; [done|].
  rewrite client_run_app. cbn [client_run fold_left]. fold (client_run config client_new ops).
  set (st := client_run config client_new ops) in *.
  assert (~ stores_scoreboard key op -> cs_scoreboards st !! key = Some entry ->
    exists before after, ops ++ [op] = before ++ OpScoreboard key (en_value entry) (en_at entry) :: after /\
      Forall (fun op => ~ stores_scoreboard key op) after) as Hkeep.
  { intros Hop He. destruct (IH He) as (before & after & -> & Hall). exists before, (after ++ [op]).
    split; [by rewrite <- app_assoc|]. apply Forall_app_2; [done|by constructor]. }
  destruct op as [now|ok now|key' events now|league l now|url v now]; cbn -[check_circuit]; [|apply Hkeep; cbn; tauto| |apply Hkeep; cbn; tauto..].
  - unfold check_circuit. destruct (cs_open_until st) as [u|]; [destruct (now <? u)|]; apply Hkeep; cbn; tauto.
  - destruct (decide (key' = key)) as [->|Hne].
    + rewrite lookup_insert_eq. intros [= <-]. by exists ops, [].
    + rewrite lookup_insert_ne by done. by apply Hkeep.
Qed.

(** The client keeps at most [MAX_CACHED_LOGOS] images. *)
Theorem logos_bounded config ops :
  Z.of_nat (size (cs_logos (client_run config client_new ops))) <= MAX_CACHED_LOGOS.
Proof.
  induction ops as [|op ops IH] using rev_ind; [done|].
  rewrite client_run_app. cbn [client_run fold_left]. fold (client_run config client_new ops).
  set (st := client_run config client_new ops) in *.
  destruct op as [now|ok now|key' events now|league l now|url v now]; cbn -[check_circuit]; try done.
  - unfold check_circuit. destruct (cs_open_until st) as [u|]; [destruct (now <? u)|]; done.
  - rewrite map_size_insert. unfold MAX_CACHED_LOGOS in *. destruct (Z.leb_spec 256 (Z.of_nat (size (cs_logos st)))) as [Hle|Hlt].
    + rewrite lookup_empty, map_size_empty. lia.
    + destruct (cs_logos st !! url); cbn; lia.
Qed.

(** ** Calls *)

Section Calls.
Context {Tz : Type} `{Chrono Tz}.
Context (scoreboard_json : bytes -> option RawScoreboard) (parse_rfc3339 : text -> option Z) (format_ymd : Z -> text).
Context (is_alphanumeric : Z -> bool) (lowercase_char : Z -> text).
Abbreviation scoreboard := (SportsClient.scoreboard scoreboard_json parse_rfc3339 format_ymd).
Abbreviation espn_lookup := (SportsClient.espn_lookup scoreboard_json parse_rfc3339 format_ymd is_alphanumeric lowercase_char).

(** The states other steps can lead to. *)
Definition reaches (config : EspnClientConfig) (ops : list ClientOp) (st : ClientState) : Prop :=
  exists more, st = client_run config client_new (ops ++ more).

Lemma reaches_refl config ops : reaches config ops (client_run config client_new ops).
Proof. exists []. by rewrite app_nil_r. Qed.

Lemma reaches_op config ops st op : reaches config ops st -> reaches config ops (client_op config st op).
Proof. intros [more ->]. exists (more ++ [op]). by rewrite app_assoc, (client_run_app _ _ (ops ++ more)). Qed.

Lemma get_spec config ops url x :
  let st := client_run config client_new ops in
  let '(st', res) := get config st url x in
  reaches config ops st' /\
  match res with
  | Ok body => x_answer x url = Some body
  | Err CircuitOpen => refused st (x_checked x)
  | Err EspnHttp => x_answer x url = None
  | Err EspnParse => False
  end.
Proof.
  intros st. pose proof (reaches_op config ops st (OpCheck (x_checked x)) (reaches_refl config ops)) as Hc.
  unfold get, refused. cbn [client_op] in Hc. destruct (check_circuit st (x_checked x)) as [st1 [[]|e]] eqn:Ec.
  - destruct (x_answer x url); (split; [|done]); by apply (reaches_op _ _ _ (OpRecord _ _)).
  - split; [done|]. unfold check_circuit in Ec. destruct (cs_open_until st) as [u|]; [|done].
    destruct (x_checked x <? u); [|done]. by injection Ec as _ <-.
Qed.

Lemma fetch_scoreboard_spec config ops league date x :
  let st := client_run config client_new ops in
  let url := scoreboard_url format_ymd config league date in
  let '(st', res) := fetch_scoreboard scoreboard_json parse_rfc3339 format_ymd config st league date x in
  reaches config ops st' /\
  match res with
  | Ok events =>
      exists body raw, x_answer x url = Some body /\ scoreboard_json body = Some raw /\
        events = parse_scoreboard parse_rfc3339 raw /\
        cs_scoreboards st' !! (league, date) = Some (mkEntry (x_stored x) events)
  | Err CircuitOpen => refused st (x_checked x)
  | Err EspnHttp => x_answer x url = None
  | Err EspnParse => exists body, x_answer x url = Some body /\ scoreboard_json body = None
  end.
Proof.
  intros st url. unfold fetch_scoreboard. pose proof (get_spec config ops url x) as Hget. cbn zeta in Hget.
  fold st in Hget. fold url. destruct (get config st url x) as [st1 [body|e]]; destruct Hget as [Hr Ha].
  - destruct (scoreboard_json body) as [raw|] eqn:Ej; [|naive_solver]. split.
    + by apply (reaches_op _ _ _ (OpScoreboard _ _ _)).
    + exists body, raw. split_and!; try done. apply lookup_insert_eq.
  - split; [done|]. by destruct e.
Qed.

(** The result of [scoreboard]: from the cache, stored less than its time to
    live ago with no later store; or the events of the answer just received; or
    an error.  The state moves by steps of the client. *)
Theorem scoreboard_is_fresh config ops league date x :
  let st := client_run config client_new ops in
  let '(st', res) := scoreboard config st league date x in
  reaches config ops st' /\
  match res with
  | Ok events =>
      (exists before at_ after, ops = before ++ OpScoreboard (league, date) events at_ :: after /\
         Forall (fun op => ~ stores_scoreboard (league, date) op) after /\
         x_asked x - at_ < scoreboard_ttl config /\ st' = st) \/
      (exists body raw, x_answer x (scoreboard_url format_ymd config league date) = Some body /\
         scoreboard_json body = Some raw /\ events = parse_scoreboard parse_rfc3339 raw /\
         cs_scoreboards st' !! (league, date) = Some (mkEntry (x_stored x) events))
  | Err CircuitOpen => refused st (x_checked x)
  | Err EspnHttp => x_answer x (scoreboard_url format_ymd config league date) = None
  | Err EspnParse =>
      exists body, x_answer x (scoreboard_url format_ymd config league date) = Some body /\ scoreboard_json body = None
  end.
Proof.
  intros st. unfold SportsClient.scoreboard, cached. pose proof (fetch_scoreboard_spec config ops league date x) as Hmiss.
  cbn zeta in Hmiss. fold st in Hmiss. destruct (cs_scoreboards st !! (league, date)) as [entry|] eqn:Ee; cbn.
  2: { destruct (fetch_scoreboard _ _ _ _ _ _ _ _) as [st' [events|e]]; (split; [apply Hmiss|]); [right|]; apply Hmiss. }
  destruct (fresh (x_asked x) (scoreboard_ttl config) entry) eqn:Ef.
  - split; [apply reaches_refl|]. left. apply scoreboard_entry in Ee as (before & after & He & Hall).
    exists before, (en_at entry), after. split_and!; try done. unfold fresh in Ef. lia.
  - destruct (fetch_scoreboard _ _ _ _ _ _ _ _) as [st' [events|e]]; (split; [apply Hmiss|]); [right|]; apply Hmiss.
Qed.

(** The events the two dates give, of the calls that succeed. *)
Definition found_events (first second : option (result (list EspnEvent) EspnError)) : list EspnEvent :=
  let ok r := match r with Some (Ok v) => v | _ => [] end in ok first ++ ok second.

(** A lookup matches over the events of the local date and of the next one, of
    the calls that succeed: a failure of one date does not hide a match of the
    other.  It is an error only when the local date failed and no event at all
    was found. *)
Theorem lookup_outcome config st league local_date query x1 x2 :
  let '(st1, first) := scoreboard config st league local_date x1 in
  let second :=
    match succ_opt local_date with
    | Some next => Some (scoreboard config st1 league next x2)
    | None => None
    end in
  let events := found_events (Some first) (snd <$> second) in
  let '(st', res) := espn_lookup config st league local_date query x1 x2 in
  st' = default st1 (fst <$> second) /\
  match res with
  | Ok m => m = match_event is_alphanumeric lowercase_char query events
  | Err e => first = Err e /\ events = []
  end.
Proof.
  unfold SportsClient.espn_lookup. destruct (scoreboard config st league local_date x1) as [st1 first].
  destruct (succ_opt local_date) as [next|]; [destruct (scoreboard config st1 league next x2) as [st2 [v|e2]]|];
    destruct first as [v1|e1]; cbn -[Sports.match_event]; rewrite ?app_nil_r; (split; [done|]);
    destruct (match_event is_alphanumeric lowercase_char query _); try done; by case_bool_decide.
Qed.
End Calls.
