(* ===== verification/ArtSpec.v ===== *)
(** * Sports: what the store of matchup images guarantees

    Keys, the limit on the size of the directory, and which hosts are asked for
    logos. *)
From Stdlib Require Import ZArith Lia.
From stdpp Require Import base numbers option strings.
From stdpp Require Import list gmap sorting.
From S2P Require Import Prelude Text F32 Sort M3u Hls Events Sports SportsClient.
Open Scope Z_scope.

(** ** Keys *)

Section Keys.
Context {Tz : Type} `{Chrono Tz} (format_ymd : Z -> text).

Lemma league_key_plain league : alphanumeric_text (league_key league) = true /\ 0x2d ∉ league_key league.
Proof. split; [by destruct league|]. destruct league; vm_compute; set_solver. Qed.

(** The key the guide writes for an event is read back by the image route,
    when the date has the eight digits that [%Y%m%d] reads. *)
Theorem event_key_reads_back league date id key :
  0x2d ∉ format_ymd date -> parse_naive_date (format_ymd date) (str "%Y%m%d") = Some date ->
  event_key format_ymd (league_key league) date id = Some key ->
  parse_event_key key = Some (league, date, id).
Proof.
  intros Hdash Hdate. unfold event_key. destruct (league_key_plain league) as [-> Hl]. cbn [negb orb].
  destruct (alphanumeric_text id) eqn:Hid; [|done]. cbn [negb]. intros [= <-]. unfold parse_event_key.
  change (str "-") with [0x2d]. cbn [app]. rewrite split_once_found by done. cbn [mbind option_bind].
  assert (from_key (league_key league) = Some league) as -> by (by destruct league). cbn [mbind option_bind].
  rewrite split_once_found by done. cbn [mbind option_bind]. by rewrite Hdate, Hid.
Qed.
End Keys.

(** A key is not checked for path separators: the league is read from the
    letters and digits of the first part alone. *)
Example key_with_parent_directory `{Chrono Tz} date :
  parse_naive_date (str "20261104") (str "%Y%m%d") = Some date ->
  parse_event_key (str "../NHL-20261104-1") = Some (Nhl, date, str "1") /\
  file_name (str "../NHL-20261104-1") = str "../NHL-20261104-1.png" /\
  in_directory (file_name (str "../NHL-20261104-1")) = false.
Proof.
  intros Hdate. split; [|by vm_compute]. unfold parse_event_key.
  change (str "../NHL-20261104-1") with (str "../NHL" ++ 0x2d :: (str "20261104" ++ 0x2d :: str "1")).
  rewrite split_once_found by (vm_compute; set_solver). cbn [mbind option_bind].
  change (from_key (str "../NHL")) with (Some Nhl). cbn [mbind option_bind].
  rewrite split_once_found by (vm_compute; set_solver). cbn [mbind option_bind]. by rewrite Hdate.
Qed.

(** ** The size of the directory *)

Lemma file_le_total x y : file_le x y = true \/ file_le y x = true.
Proof.
  destruct x as [nx fx], y as [ny fy]. unfold file_le. destruct (text_le_total nx ny) as [-> | ->]; lia.
Qed.

Lemma file_le_trans x y z : file_le x y = true -> file_le y z = true -> file_le x z = true.
Proof.
  destruct x as [nx fx], y as [ny fy], z as [nz fz]. unfold file_le.
  destruct (text_le nx ny) eqn:E1, (text_le ny nz) eqn:E2; try (destruct (text_le nx nz); lia).
  rewrite (text_le_trans _ _ _ E1 E2). lia.
Qed.

Lemma files_size_perm a b : a ≡ₚ b -> files_size a = files_size b.
Proof. unfold files_size. induction 1; cbn [fold_right]; lia. Qed.
Lemma files_size_app a b : files_size (a ++ b) = files_size a + files_size b.
Proof. unfold files_size in *. induction a as [|x a IH]; cbn [app fold_right]; [done|]. rewrite IH. lia. Qed.
Lemma files_size_nonneg l : 0 <= files_size l.
Proof. unfold files_size. induction l as [|x l IH]; cbn [fold_right]; [done|]. pose proof (zlen_nonneg (af_data (snd x))). lia. Qed.

(** The files [remove_oldest] removes. *)
Definition delete_all (removed : list (text * ArtFile)) (dir : gmap text ArtFile) : gmap text ArtFile :=
  fold_left (fun d f => delete (fst f) d) removed dir.

Lemma delete_all_lookup removed dir name :
  delete_all removed dir !! name = if bool_decide (name ∈ removed.*1) then None else dir !! name.
Proof.
  revert dir. induction removed as [|[n f] removed IH]; intros dir; [done|]. cbn [delete_all fold_left fst].
  fold (delete_all removed (delete n dir)). rewrite IH. cbn [fmap list_fmap fst].
  destruct (decide (name = n)) as [->|Hne].
  - rewrite lookup_delete_eq, (bool_decide_eq_true_2 (n ∈ n :: _)) by set_solver. by case_bool_decide.
  - rewrite lookup_delete_ne by done. rewrite (bool_decide_ext (name ∈ n :: removed.*1) (name ∈ removed.*1)) by set_solver. done.
Qed.

Section Remove.
Context (removable : text -> bool) (max_bytes : Z) (keep : text).

(** A file the loop cannot remove. *)
Definition pinned (f : text * ArtFile) : Prop := fst f = keep \/ removable (fst f) = false.

Lemma remove_oldest_spec total files dir :
  StronglySorted (fun a b => file_le a b = true) files -> files_size files <= total ->
  exists removed kept, files ≡ₚ removed ++ kept /\
    remove_oldest removable max_bytes keep total files dir = delete_all removed dir /\
    Forall (fun f => ~ pinned f) removed /\
    (total - files_size removed <= max_bytes \/ Forall pinned kept) /\
    (forall r k, r ∈ removed -> k ∈ kept -> pinned k \/ file_le r k = true).
Proof.
  revert total dir. induction files as [|[name file] files IH]; intros total dir Hs Hsize.
  { exists [], []. cbn. split_and!; [done|done|constructor|right; constructor|]. intros r k Hr. by apply not_elem_of_nil in Hr. }
  apply StronglySorted_inv in Hs as [Hs Hhead]. cbn [remove_oldest].
  cbn [files_size fold_right snd] in Hsize. fold (files_size files) in Hsize.
  pose proof (zlen_nonneg (af_data file)) as Hnn. pose proof (files_size_nonneg files) as Hfn.
  destruct (Z.leb_spec total max_bytes).
  { exists [], ((name, file) :: files). cbn. split_and!; [done|done|constructor|left; lia|]. intros r k Hr. by apply not_elem_of_nil in Hr. }
  assert (pinned (name, file) -> exists removed kept, (name, file) :: files ≡ₚ removed ++ kept /\
    remove_oldest removable max_bytes keep total files dir = delete_all removed dir /\
    Forall (fun f => ~ pinned f) removed /\
    (total - files_size removed <= max_bytes \/ Forall pinned kept) /\
    (forall r k, r ∈ removed -> k ∈ kept -> pinned k \/ file_le r k = true)) as Hpin.
  { intros Hp. destruct (IH total dir Hs ltac:(lia)) as (removed & kept & Hperm & -> & Hr & Hor & Hord).
    exists removed, ((name, file) :: kept). split_and!; [by rewrite Hperm, Permutation_middle|done|done| |].
    - destruct Hor as [?|?]; [by left|right; by constructor].
    - intros r k Hrin Hk. apply elem_of_cons in Hk as [->|Hk]; [by left|by apply Hord]. }
  case_bool_decide as Hkeep; [apply Hpin; by left|].
  destruct (removable name) eqn:Hrem; [|apply Hpin; by right]. clear Hpin.
  destruct (IH (Z.max 0 (total - zlen (af_data file))) (delete name dir) Hs ltac:(lia)) as (removed & kept & Hperm & -> & Hr & Hor & Hord).
  exists ((name, file) :: removed), kept. split_and!; [by rewrite Hperm|done| | |].
  - constructor; [|done]. intros [?|?]; cbn in *; congruence.
  - cbn [files_size fold_right snd]. fold (files_size removed). destruct Hor as [?|?]; [left; lia|by right].
  - intros r k Hrin Hk. apply elem_of_cons in Hrin as [->|Hrin]; [|by apply Hord].
    right. rewrite Forall_forall in Hhead. apply Hhead. rewrite Hperm. set_solver.
Qed.

End Remove.

Lemma art_files_spec (dir : gmap text ArtFile) f :
  f ∈ art_files dir <->
  dir !! fst f = Some (snd f) /\ in_directory (fst f) && bool_decide (path_extension (fst f) = Some (str "png")) = true.
Proof.
  unfold art_files. destruct f as [name file]. rewrite list_elem_of_In, filter_In, <- list_elem_of_In, elem_of_map_to_list. done.
Qed.

Lemma art_files_names_NoDup dir : NoDup (art_files dir).*1.
Proof.
  unfold art_files. pose proof (NoDup_fst_map_to_list dir) as Hnd. induction (map_to_list dir) as [|[n f] l IH]; [constructor|].
  cbn [fmap list_fmap fst] in Hnd. apply NoDup_cons in Hnd as [Hn Hnd]. cbn [List.filter].
  destruct (in_directory n && _); [|by apply IH]. cbn. constructor; [|by apply IH].
  intros Hin. apply Hn. apply list_elem_of_fmap in Hin as (y & -> & Hy). apply list_elem_of_fmap. exists y. split; [done|].
  apply list_elem_of_In, filter_In in Hy as [Hy _]. by apply list_elem_of_In.
Qed.

Lemma art_files_kept dir removed kept :
  art_files dir ≡ₚ removed ++ kept -> art_files (delete_all removed dir) ≡ₚ kept.
Proof.
  intros Hperm. pose proof (art_files_names_NoDup dir) as Hnd. rewrite Hperm, fmap_app in Hnd.
  apply NoDup_app in Hnd as (Hnr & Hdis & Hnk).
  apply NoDup_Permutation; [eapply NoDup_fmap_1, art_files_names_NoDup|by eapply NoDup_fmap_1|].
  intros f. rewrite art_files_spec, delete_all_lookup.
  assert (f ∈ removed ++ kept <-> f ∈ art_files dir) as Hin by (by rewrite Hperm).
  rewrite art_files_spec, elem_of_app in Hin.
  destruct (bool_decide_reflect (f.1 ∈ removed.*1)) as [Hr|Hr].
  - split; [by intros [? ?]|]. intros Hk. exfalso. apply (Hdis _ Hr). by apply list_elem_of_fmap_2.
  - split; [|tauto]. intros Hf. apply Hin in Hf as [Hf|Hf]; [|done]. exfalso. apply Hr. by apply list_elem_of_fmap_2.
Qed.
(** The limit on the directory holds after every write, as far as the files can
    be removed: only images of the directory go, never the one just written;
    the images left are within the limit, or none of them can go; and an image
    goes only after every older one that can. *)
Theorem size_limit_enforced removable dir max_bytes keep :
  let dir' := enforce_size_limit removable dir max_bytes keep in
  (forall name, dir' !! name = dir !! name \/
     (dir' !! name = None /\ name <> keep /\ exists file, (name, file) ∈ art_files dir)) /\
  (files_size (art_files dir') <= max_bytes \/ Forall (pinned removable keep) (art_files dir')) /\
  (forall r k, r ∈ art_files dir -> dir' !! fst r = None -> k ∈ art_files dir' ->
     pinned removable keep k \/ file_le r k = true).
Proof.
  unfold enforce_size_limit.
  destruct (stable_sort_acc file_le file_le_total file_le_trans (art_files dir) []) as [Hp Hs].
  change (fold_left _ (art_files dir) []) with (stable_sort file_lt (art_files dir)) in Hp, Hs.
  rewrite app_nil_r in Hp. specialize (Hs ltac:(constructor)).
  destruct (remove_oldest_spec removable max_bytes keep (files_size (art_files dir)) (stable_sort file_lt (art_files dir)) dir Hs)
    as (removed & kept & Hperm & -> & Hr & Hor & Hord); [rewrite (files_size_perm _ _ Hp); lia|].
  rewrite Hp in Hperm. pose proof (art_files_kept dir removed kept Hperm) as Hkept. cbn zeta. split_and!.
  - intros name. rewrite delete_all_lookup. case_bool_decide as Hin; [|by left]. right. split; [done|].
    apply list_elem_of_fmap in Hin as ([n f] & -> & Hin). rewrite Forall_forall in Hr. split.
    + intros He. apply (Hr _ Hin). by left.
    + exists f. rewrite Hperm. set_solver.
  - rewrite (files_size_perm _ _ Hkept), Hkept. rewrite (files_size_perm _ _ Hperm), files_size_app in Hor.
    destruct Hor as [?|?]; [left; lia|by right].
  - intros r k Hin Hnone Hk. rewrite Hkept in Hk. apply Hord; [|done].
    rewrite delete_all_lookup in Hnone. apply art_files_spec in Hin as [Hlook Hpng].
    case_bool_decide as Hrem; [|congruence]. apply list_elem_of_fmap in Hrem as ([n f] & Hn & Hin).
    assert ((n, f) ∈ art_files dir) as Hf by (rewrite Hperm; set_solver).
    apply art_files_spec in Hf as [Hf _]. cbn in *. destruct r as [rn rf]. cbn in *. subst n. rewrite Hlook in Hf. by injection Hf as ->.
Qed.

(** ** Which hosts are asked *)

Section Hosts.
Context {Tz : Type} `{Chrono Tz}.
Context (scoreboard_json : bytes -> option RawScoreboard) (parse_rfc3339 : text -> option Z) (format_ymd : Z -> text).
Context (render : bytes -> bytes -> option bytes).

(** A URL of the configured API, or of a logo host over HTTPS. *)
Definition espn_url (config : EspnClientConfig) (url : text) : bool :=
  starts_with (base_url config) url || allowed_logo_host url.

(** The same times, and the same answers to the URLs of ESPN. *)
Definition same_exchange (config : EspnClientConfig) (x x' : Exchange) : Prop :=
  x_asked x = x_asked x' /\ x_checked x = x_checked x' /\ x_recorded x = x_recorded x' /\ x_stored x = x_stored x' /\
  forall url, espn_url config url = true -> x_answer x url = x_answer x' url.
Definition same_env (config : EspnClientConfig) (env env' : ArtEnv) : Prop :=
  same_exchange config (ae_scoreboard env) (ae_scoreboard env') /\ same_exchange config (ae_away env) (ae_away env') /\
  same_exchange config (ae_home env) (ae_home env') /\ ae_now env = ae_now env' /\ ae_writable env = ae_writable env' /\
  ae_removable env = ae_removable env'.

Lemma get_same config st url x x' :
  same_exchange config x x' -> espn_url config url = true -> get config st url x = get config st url x'.
Proof. intros (_ & Hc & Hr & _ & Ha) Hurl. unfold get. rewrite Hc, Hr, (Ha url Hurl). done. Qed.

Lemma scoreboard_same config st league date x x' :
  same_exchange config x x' ->
  scoreboard scoreboard_json parse_rfc3339 format_ymd config st league date x =
  scoreboard scoreboard_json parse_rfc3339 format_ymd config st league date x'.
Proof.
  intros Hx. pose proof Hx as (Ha & _ & _ & Hst & _). unfold scoreboard, fetch_scoreboard. rewrite Ha, Hst.
  rewrite (get_same _ _ _ _ _ Hx); [done|]. unfold espn_url, scoreboard_url. apply orb_true_iff. left.
  apply starts_with_true. by eexists.
Qed.

Lemma logo_same config st url x x' :
  same_exchange config x x' -> allowed_logo_host url = true -> logo config st url x = logo config st url x'.
Proof.
  intros Hx Hurl. pose proof Hx as (Ha & _ & _ & Hst & _). unfold logo. rewrite Ha, Hst.
  rewrite (get_same _ _ _ _ _ Hx); [done|]. unfold espn_url. rewrite Hurl. apply orb_true_r.
Qed.

(** A request for an image asks nothing but the configured API and HTTPS hosts
    under [espncdn.com]: what any other host would answer, also one whose URL a
    scoreboard names as a logo, changes neither the result nor the state. *)
Theorem art_asks_only_espn config max_bytes dir st key env env' :
  same_env config env env' ->
  art_get scoreboard_json parse_rfc3339 format_ymd render config false max_bytes dir st key env =
  art_get scoreboard_json parse_rfc3339 format_ymd render config false max_bytes dir st key env'.
Proof.
  intros (Hs & Ha & Hh & Hnow & Hw & Hrem). unfold art_get.
  destruct (parse_event_key key) as [[[league date] id]|]; [|done]. destruct (dir !! file_name key); [done|].
  rewrite (scoreboard_same _ _ _ _ _ _ Hs). destruct (scoreboard _ _ _ _ _ _ _ _) as [st1 [events|e]]; [|done].
  destruct (List.find _ events) as [event|]; [|done].
  destruct (tm_logo_url (ev_away event)) as [away_url|], (tm_logo_url (ev_home event)) as [home_url|]; try done. cbn [orb].
  destruct (allowed_logo_host away_url) eqn:Ea; [|done]. destruct (allowed_logo_host home_url) eqn:Eh; [|done]. cbn [andb negb].
  rewrite (logo_same _ _ _ _ _ Ha Ea). destruct (logo config st1 away_url _) as [st2 [away|e]]; [|done].
  rewrite (logo_same _ _ _ _ _ Hh Eh), Hnow, Hw, Hrem. done.
Qed.
End Hosts.
