(* ===== verification/EventScan.v ===== *)
(** * The event scan

    [crates/persistence/src/event_scan.rs], the scanner of
    [crates/persistence/src/catalog.rs] and the built-in rules of
    [crates/domain/src/events.rs]: which channels show an event now, and the
    guide of each.  The rows of the queries are inputs, what the scan writes is
    its result; the sports client is its state and what the network answers. *)
From Stdlib Require Import ZArith Lia.
From stdpp Require Import base numbers option strings.
From stdpp Require Import list gmap sorting.
From S2P Require Import Prelude Text Sort M3u Events EventGuide Settings Sports SportsClient.
Open Scope Z_scope.

(** ** Built-in rules *)

(** The parts of the expressions; [ndash] is the character U+2013 as the
    expressions write it. *)
Definition PREFIX : string :=
  "(?:\[[^\]]{1,32}\]\s*|(?:event|vip|sports|slot)\s*\d*\s*[:|]\s*|(?:[A-Z]{2}\s+)?\([^()]{1,32}\)\s*:\s*)*".
Definition LEAGUE_NAMES : string :=
  "NCAA(?:\s+(?:Football|Basketball|Hockey|Baseball|Soccer))?|WNBA|NFL|NHL|NBA|MLB|MLS|CFL|EPL|UFC|hockey|fc|soccer|football|basketball|baseball|rugby|cricket|tennis|golf".
Definition LEAGUE : string :=
  "(?:(?P<league>NCAA(?:\s+(?:Football|Basketball|Hockey|Baseball|Soccer))?|WNBA|NFL|NHL|NBA|MLB|MLS|CFL|EPL|UFC|hockey|fc|soccer|football|basketball|baseball|rugby|cricket|tennis|golf)\b(?:\s*:\s*(?:(?P<slot>[0-9]{1,3})\b\s*(?:[-\u{2013}]\s*)?)?|\s+(?P<slot_b>[0-9]{1,3})\s*:\s*))?".
Definition SUFFIX : string :=
  "(?:\s+[A-Za-z]{3,9}\s+[0-9]{1,2}\s+[0-9]{1,2}(?::[0-9]{2})?\s*[AP]M(?:\s+[A-Z]{2,4})?)?(?:\s+\([^()]{1,64}\))*".
Definition TRAILER : string :=
  "(?:\s*[-|]?\s*(?:\[[^\]]{1,32}\]|\([^()]{1,64}\)|UHD|4K|FHD|HD|SD|2160p|1080p|720p))*\s*$".
Definition TIME : string := "[0-9]{1,2}(?::[0-9]{2})?\s*[ap]m".
Definition EXPLICIT : string := "20[0-9]{2}-[0-9]{2}-[0-9]{2} [0-9]{2}:[0-9]{2}:[0-9]{2}".

Definition builtin_id (index : Z) : Z := 0x8b2d571e91de70008000000000000000 + index.

Definition builtin_sports_rule (index : Z) (name name_regex : string) (date : option (string * string))
  (title_template : string) : EventRule :=
  mkEventRule (builtin_id index) (str name) true
    (mkEventMatch (Some (str name_regex)) None None [] ∅)
    (match date with
     | Some (date_regex, date_format) =>
         [mkDatePattern (str ("(?i)(?P<datetime>" ++ date_regex ++ ")")%string) (str date_format) None]
     | None => []
     end)
    (str "UTC") default_lifecycle
    (mkEventGuidePolicy (gp_duration_seconds default_guide) (filler_title default_guide) (str title_template))
    default_channel {[EVENT_TITLE_METADATA_KEY := str title_template]}.

(** The label, the expression of the date, that of its seconds, its format. *)
Definition date_formats : list (string * string * string * string) :=
  [("ISO local time", "20[0-9]{2}-[0-9]{2}-[0-9]{2} [0-9]{2}:[0-9]{2}", "(?::[0-9]{2})?", "%Y-%m-%d %H:%M");
   ("ISO T local time", "20[0-9]{2}-[0-9]{2}-[0-9]{2}T[0-9]{2}:[0-9]{2}", "(?::[0-9]{2})?", "%Y-%m-%dT%H:%M");
   ("US local time", "[0-9]{1,2}/[0-9]{1,2}/20[0-9]{2} [0-9]{1,2}:[0-9]{2} [AP]M", "", "%m/%d/%Y %I:%M %p")]%string.

Definition dated_rules (index : nat) (format : string * string * string * string) : list EventRule :=
  let '(label, date_regex, seconds, date_format) := format in
  let dated := (SUFFIX ++ "\s+\(?(?:" ++ date_regex ++ ")" ++ seconds ++ "\)?" ++ TRAILER)%string in
  [builtin_sports_rule (Z.of_nat index * 2) ("Built-in sports: vs (" ++ label ++ ")")
     ("(?i)^" ++ PREFIX ++ LEAGUE ++ "(?P<home>.+?)\s+(?:v|vs|versus)\.?\s+(?P<away>.+?)" ++ dated)
     (Some (date_regex, date_format)) "{home} vs {away}";
   builtin_sports_rule (Z.of_nat index * 2 + 1) ("Built-in sports: at (" ++ label ++ ")")
     ("(?i)^" ++ PREFIX ++ LEAGUE ++ "(?P<away>.+?)\s+@\s+(?P<home>.+?)" ++ dated)
     (Some (date_regex, date_format)) "{away} @ {home}"]%string.

Definition explicit_rule : EventRule :=
  let rule :=
    builtin_sports_rule 9 "Built-in sports: x, explicit start and stop"
      ("(?i)^" ++ PREFIX ++ LEAGUE ++ "(?P<team_a>.+?)\s+(?:x|v|vs|versus)\.?\s+(?P<team_b>.+?)\s+start:\s*" ++
       EXPLICIT ++ "\s+stop:\s*(?P<stop>" ++ EXPLICIT ++ ")" ++ TRAILER)
      None "{team_a} vs {team_b}" in
  mkEventRule (er_id rule) (er_name rule) (er_enabled rule) (er_matcher rule)
    [mkDatePattern (str ("(?i)start:\s*(?P<datetime>" ++ EXPLICIT ++ ")")%string) (str "%Y-%m-%d %H:%M:%S") None]
    (er_timezone rule) (er_lifecycle rule) (er_guide rule) (er_channel rule) (er_metadata rule).

Definition builtin_sports_event_rules : EventRuleSet :=
  concat (imap dated_rules date_formats) ++
  [builtin_sports_rule 6 "Built-in sports: vs (time only)"
     ("(?i)^" ++ PREFIX ++ LEAGUE ++ "(?P<time>" ++ TIME ++ ")\s+(?P<home>.+?)\s+(?:v|vs|versus)\.?\s+(?P<away>.+?)" ++
      SUFFIX ++ TRAILER)
     None "{home} vs {away}";
   builtin_sports_rule 7 "Built-in sports: at (time only)"
     ("(?i)^" ++ PREFIX ++ LEAGUE ++ "(?P<time>" ++ TIME ++ ")\s+(?P<away>.+?)\s+@\s+(?P<home>.+?)" ++ SUFFIX ++ TRAILER)
     None "{away} @ {home}";
   builtin_sports_rule 8 "Built-in sports: vs, spelled date, trailing league"
     ("(?i)^" ++ PREFIX ++
      "(?P<team_a>.+?)\s+(?:v|vs|versus)\.?\s+(?P<team_b>.+?)\s+@\s+(?P<month>[A-Za-z]{3,9})\.?\s+(?P<day>[0-9]{1,2})\s+(?P<time>" ++
      TIME ++ ")(?:\s+[A-Z]{2,4})?\s*:\s*(?P<league>" ++ LEAGUE_NAMES ++
      ")\b(?:\s*[-\u{2013}]?\s*(?P<slot>[0-9]{1,3})\b)?" ++ TRAILER)
     None "{team_a} vs {team_b}";
   explicit_rule]%string.

(** ** Settings and reports *)

Record EventScanSettings := mkEventScanSettings {
  upcoming_prefix : text;
  ended_title : text;
  inferred_duration_seconds : Z
}.

Definition DEFAULT_INFERRED_DURATION_SECONDS : Z := 10800.
Definition default_scan_settings : EventScanSettings :=
  mkEventScanSettings (str "Upcoming") (str "Event ended") DEFAULT_INFERRED_DURATION_SECONDS.

Definition find_setting (settings : list EffectiveSetting) (key : string) : option EffectiveSetting :=
  List.find (fun setting => bool_decide (sd_key (es_definition setting) = str key)) settings.
Definition is_system_default (source : InheritanceSource) : bool := match source with SystemDefault => true | _ => false end.

(** [EventScanSettings::from_settings] *)
Definition from_settings (settings : list EffectiveSetting) : EventScanSettings :=
  let defaults := default_scan_settings in
  let title :=
    setting ← find_setting settings "events.filler_title";
    if is_system_default (es_inherited_from setting) then None
    else
      title ← trim <$> as_str (es_value setting);
      if bool_decide (title = []) then None else Some title in
  let duration := setting ← find_setting settings "events.inferred_duration_seconds"; as_u64 (es_value setting) in
  mkEventScanSettings (upcoming_prefix defaults) (default (ended_title defaults) title)
    (default (inferred_duration_seconds defaults) duration).

Definition MAX_EVENT_SCAN_SKIPS : Z := 200.

(** Why a stream got no guide. *)
Inductive SkipReason :=
| InvalidTemplateRegex (message : text)
| RulesDidNotCompile (e : ParseError)
| NoSportsRule
| InvalidEventDate (e : EventDateError)
| InvalidEventTime (e : EventDateError)
| NoStartTime
| InvalidEventGuide (e : EventGuideError)
| NoEventProgramme
| TooFarInFuture (days : Z)
| EndedBeforeWindow.

Record EventScanSkip := mkEventScanSkip {
  sk_template_id : option Z;
  sk_channel_id : option Z;
  sk_stream_name : text;
  sk_reason : SkipReason
}.

Record EventScanReport := mkEventScanReport {
  channels_scanned : Z;
  rp_matched : Z;
  rp_scheduled : Z;
  rp_skipped : Z;
  rp_pruned : Z;
  rp_skips : list EventScanSkip
}.
Definition empty_report : EventScanReport := mkEventScanReport 0 0 0 0 0 [].

Definition report_skip (report : EventScanReport) (skip : EventScanSkip) : EventScanReport :=
  if zlen (rp_skips report) <? MAX_EVENT_SCAN_SKIPS then
    mkEventScanReport (channels_scanned report) (rp_matched report) (rp_scheduled report) (rp_skipped report)
      (rp_pruned report) (rp_skips report ++ [skip])
  else report.

Definition add_counts (report : EventScanReport) (scanned matched scheduled skipped : Z) : EventScanReport :=
  mkEventScanReport (sat_add u64_max (channels_scanned report) scanned) (sat_add u64_max (rp_matched report) matched)
    (sat_add u64_max (rp_scheduled report) scheduled) (sat_add u64_max (rp_skipped report) skipped)
    (rp_pruned report) (rp_skips report).

(** ** The state of an event channel *)

Inductive EventChannelState := Scheduled | Live | Ended | Hidden.
#[export] Instance state_eq_dec : EqDecision EventChannelState.
Proof. solve_decision. Defined.

Section StateAt.
Context {Tz : Type} `{Chrono Tz}.
(** [EventChannelState::at] *)
Definition state_at (starts_at stops_at grace now : Z) : EventChannelState :=
  if now <? starts_at then Scheduled
  else if now <? stops_at then Live
  else
    match checked_instant (stops_at + grace) with
    | Some hidden_at => if now <? hidden_at then Ended else Hidden
    | None => Hidden
    end.
End StateAt.

(** ** Names *)

Fixpoint postgres_word_boundaries_to_rust (pattern : text) : text :=
  match pattern with
  | [] => []
  | c :: pattern' =>
      if negb (c =? 0x5c) then c :: postgres_word_boundaries_to_rust pattern'
      else
        match pattern' with
        | [] => [0x5c]
        | next :: pattern'' =>
            (if (next =? 0x79) || (next =? 0x6d) || (next =? 0x4d) then str "\b" else [0x5c; next]) ++
            postgres_word_boundaries_to_rust pattern''
        end
  end.

Definition is_ascii_alphabetic (c : Z) : bool := ((65 <=? c) && (c <=? 90)) || ((97 <=? c) && (c <=? 122)).
Definition to_ascii_uppercase (c : Z) : Z := if (97 <=? c) && (c <=? 122) then c - 32 else c.

Definition display_league (league : text) : text :=
  let collapsed := join_words (split_whitespace league) in
  if (utf8_len collapsed <=? 4) && forallb is_ascii_alphabetic collapsed
  then List.map to_ascii_uppercase collapsed else collapsed.

(** [get(key).map(trim).filter(nonempty)] *)
Definition trimmed_capture (captures : gmap text text) (key : string) : option text :=
  value ← trim <$> captures !! str key;
  if bool_decide (value = []) then None else Some value.

Definition slot_number (captures : gmap text text) : Z :=
  default 0 (slot ← captures !! str "slot"; parse_signed (2 ^ 31 - 1) (trim slot)).

Section Scan.
Context {Regex : Type} `{Regexes Regex} {Tz : Type} `{Chrono Tz}.
(** [str::to_lowercase]; [Tz::UTC]; the compiled expression of a provider
    label; [duration_trunc] to an hour; the local form of an instant in a
    title. *)
Context (to_lowercase : text -> text) (tz_utc : Tz) (provider_label : Regex).
Context (trunc_to_hour : Z -> option Z) (format_local : Tz -> Z -> text).

Definition stable_event_channel_name (captures : gmap text text) (stream_name : text) : option text :=
  match trimmed_capture captures "league", trimmed_capture captures "slot" with
  | Some league, Some slot => Some (display_league league ++ str " " ++ slot)
  | _, _ =>
      groups ← regex_captures provider_label stream_name;
      label ← named_group provider_label groups (str "label");
      let label := join_words (split_whitespace label) in
      if bool_decide (label = []) then None else Some label
  end.

Definition not_utc (value : text) : option text := if bool_decide (trim value = str "UTC") then None else Some value.

Definition resolve_event_timezone (template : text) (source region : option text) : Tz :=
  default tz_utc
    (head (omap (fun value => tz_from_str (trim value)) (omap id [not_utc template; source ≫= not_utc; region]))).

Definition compile_template_regex (pattern : text) : result Regex text :=
  regex_new (postgres_word_boundaries_to_rust pattern).

(** ** The guide of an event channel *)

Definition upcoming_title (prefix title : text) (starts_at : Z) (timezone : Tz) : text :=
  prefix ++ str ": " ++ title ++ str ", " ++ format_local timezone starts_at.

Definition plan_event_channel_guide (event : GeneratedProgramme) (timezone : Tz) (now grace : Z)
  (settings : EventScanSettings) : list GeneratedProgramme :=
  let window_start := default now (trunc_to_hour now) in
  (if window_start <? pg_starts_at event then
     [filler window_start (pg_starts_at event)
        (upcoming_title (upcoming_prefix settings) (pg_title event) (pg_starts_at event) timezone)
        (pg_source_title event)]
   else []) ++
  [event] ++
  (if 0 <? grace then
     match checked_instant (pg_stops_at event + grace) with
     | Some ended_stop => [filler (pg_stops_at event) ended_stop (ended_title settings) (pg_source_title event)]
     | None => []
     end
   else []).

(** ** Templates *)

Definition BUILTIN_EVENT_TEMPLATE_ID : Z := 0x8b2d571e91de7000800000000000e000.

(** The columns of an event template that the scan reads. *)
Record EventTemplateRow := mkEventTemplateRow {
  et_id : Z;
  et_name : text;
  et_match_regex : text;
  et_channel_name_format : text;
  et_event_duration_hours : Z;
  et_past_date_grace_hours : Z;
  et_future_date_days : Z;
  et_timezone : text
}.

Record EventScanCandidate := mkEventScanCandidate {
  ec_channel_id : Z;
  ec_stream_name : text;
  ec_group_name : option text;
  ec_source_timezone : option text;
  ec_snapshot_at : option Z
}.

Definition template_rule (template : EventTemplateRow) (timezone : text) (settings : EventScanSettings) (rule : EventRule)
  : EventRule :=
  let duration :=
    if 0 <? et_event_duration_hours template then sat_mul u64_max (et_event_duration_hours template) 3600
    else inferred_duration_seconds settings in
  let title :=
    if bool_decide (trim (et_channel_name_format template) = []) then str "{event}"
    else et_channel_name_format template in
  mkEventRule (er_id rule) (er_name rule) (er_enabled rule) (er_matcher rule) (er_date_patterns rule) timezone
    (er_lifecycle rule) (mkEventGuidePolicy duration (filler_title (er_guide rule)) title) (er_channel rule)
    (er_metadata rule).

Definition compile_template_rules (template : EventTemplateRow) (timezone : text) (settings : EventScanSettings)
  : result (list (CompiledRule Regex)) ParseError :=
  compile_rules (List.map (template_rule template timezone settings) builtin_sports_event_rules).

(** ** Planning a channel *)

Record PlannedEventChannel := mkPlannedEventChannel {
  pe_channel_id : Z;
  pe_template : EventTemplateRow;
  pe_slot : Z;
  pe_raw_stream_name : text;
  pe_stable_name : option text;
  pe_event : GeneratedProgramme;
  pe_state : EventChannelState;
  pe_programmes : list GeneratedProgramme;
  pe_captures : gmap text text;
  pe_group_name : option text;
  pe_timezone : Tz;
  pe_grace : Z;
  pe_sports : option SportsInfo
}.

(** A plan, a reason to skip the channel, or a panic. *)
Inductive PlanFailure := PlanSkip (reason : SkipReason) | PlanPanic.

Definition days (n : Z) : Z := nanos_of_seconds (n * 86400).

Definition with_start (matched : MatchedEvent) (starts_at : Z) : MatchedEvent :=
  mkMatchedEvent (me_rule matched) (Some starts_at) (me_captures matched).

(** The event programme in its window of a month. *)
Definition planned_event (matched : MatchedEvent) (stream_name : text) (starts_at : Z)
  : result GeneratedProgramme PlanFailure :=
  let window_start := default starts_at (checked_instant (starts_at - days 1)) in
  let window_end := default starts_at (checked_instant (starts_at + days 30)) in
  match generate_event_guide to_lowercase (with_start matched starts_at) stream_name window_start window_end with
  | Err GuidePanic => Err PlanPanic
  | Err (GuideError e) => Err (PlanSkip (InvalidEventGuide e))
  | Ok programmes =>
      match head (List.filter (fun programme => bool_decide (pg_kind programme = EventProgramme)) programmes) with
      | None => Err (PlanSkip NoEventProgramme)
      | Some event => Ok event
      end
  end.

Definition plan_event_channel (stream : EventScanCandidate) (template : EventTemplateRow) (timezone : Tz)
  (matched : MatchedEvent) (now : Z) (settings : EventScanSettings) : result PlannedEventChannel PlanFailure :=
  let reference := default now (ec_snapshot_at stream) in
  match resolve_start matched reference (tz_name timezone) with
  | Err e => Err (PlanSkip (InvalidEventTime e))
  | Ok None => Err (PlanSkip NoStartTime)
  | Ok (Some starts_at) =>
      match planned_event matched (ec_stream_name stream) starts_at with
      | Err e => Err e
      | Ok event =>
          let future_days := Z.max (et_future_date_days template) 0 in
          if match checked_instant (now + days future_days) with Some limit => limit <? pg_starts_at event | None => false end
          then Err (PlanSkip (TooFarInFuture future_days))
          else
            let grace := nanos_of_seconds (Z.max (et_past_date_grace_hours template) 1 * 3600) in
            let state := state_at (pg_starts_at event) (pg_stops_at event) grace now in
            let programmes :=
              if bool_decide (state = Hidden) then []
              else plan_event_channel_guide event timezone now grace settings in
            Ok (mkPlannedEventChannel (ec_channel_id stream) template (slot_number (me_captures matched))
                  (ec_stream_name stream) (stable_event_channel_name (me_captures matched) (ec_stream_name stream))
                  event state programmes (me_captures matched) (ec_group_name stream) timezone grace None)
      end
  end.

(** ** The scanner *)

(** The compiled rules by template and timezone name. *)
Abbreviation RuleCache := (gmap (nat * text) (result (list (CompiledRule Regex)) ParseError)).

Record EventChannelScanner := mkEventChannelScanner {
  sc_templates : list (EventTemplateRow * option Regex);
  sc_region_timezone : option text;
  sc_now : Z;
  sc_settings : EventScanSettings
}.

Inductive ChannelScanOutcome :=
| NoMatch
| Skipped (template_id : Z)
| Planned (plan : PlannedEventChannel)
| ScanPanic.

(** [entry(key).or_insert_with(compile)] *)
Definition cached_rules (cache : RuleCache) (index : nat) (template : EventTemplateRow) (timezone : text)
  (settings : EventScanSettings) : RuleCache * result (list (CompiledRule Regex)) ParseError :=
  match cache !! (index, timezone) with
  | Some rules => (cache, rules)
  | None =>
      let rules := compile_template_rules template timezone settings in
      (<[(index, timezone) := rules]> cache, rules)
  end.

Definition skip_of (template : EventTemplateRow) (stream : EventScanCandidate) (reason : SkipReason) : EventScanSkip :=
  mkEventScanSkip (Some (et_id template)) (Some (ec_channel_id stream)) (ec_stream_name stream) reason.

(** The candidate of a stream. *)
Definition stream_candidate (stream : EventScanCandidate) : EventCandidate :=
  mkEventCandidate (ec_stream_name stream) (ec_group_name stream) None [] ∅.

(** The inner loop over the templates from [index] on; no outcome: the next
    stream. *)
Fixpoint evaluate_templates (scanner : EventChannelScanner) (stream : EventScanCandidate) (index : nat)
  (templates : list (EventTemplateRow * option Regex)) (cache : RuleCache) (report : EventScanReport)
  : RuleCache * EventScanReport * option ChannelScanOutcome :=
  match templates with
  | [] => (cache, report, None)
  | (template, regex) :: templates =>
      let next := evaluate_templates scanner stream (S index) templates in
      match regex with
      | None => next cache report
      | Some regex =>
          if negb (is_match regex (ec_stream_name stream)) then next cache report
          else
            let timezone :=
              resolve_event_timezone (et_timezone template) (ec_source_timezone stream) (sc_region_timezone scanner) in
            match cached_rules cache index template (tz_name timezone) (sc_settings scanner) with
            | (cache, Err e) => next cache (report_skip report (skip_of template stream (RulesDidNotCompile e)))
            | (cache, Ok rules) =>
                match first_match rules (stream_candidate stream) with
                | Err e => next cache (report_skip report (skip_of template stream (InvalidEventDate e)))
                | Ok None =>
                    next cache
                      (if et_id template =? BUILTIN_EVENT_TEMPLATE_ID then report
                       else report_skip report (skip_of template stream NoSportsRule))
                | Ok (Some matched) =>
                    match plan_event_channel stream template timezone matched (sc_now scanner) (sc_settings scanner) with
                    | Ok plan => (cache, report, Some (Planned plan))
                    | Err (PlanSkip reason) =>
                        (cache, report_skip report (skip_of template stream reason), Some (Skipped (et_id template)))
                    | Err PlanPanic => (cache, report, Some ScanPanic)
                    end
                end
            end
      end
  end.

(** [EventChannelScanner::evaluate] *)
Fixpoint evaluate (scanner : EventChannelScanner) (streams : list EventScanCandidate) (cache : RuleCache)
  (report : EventScanReport) : RuleCache * EventScanReport * ChannelScanOutcome :=
  match streams with
  | [] => (cache, report, NoMatch)
  | stream :: streams =>
      match evaluate_templates scanner stream 0 (sc_templates scanner) cache report with
      | (cache, report, Some outcome) => (cache, report, outcome)
      | (cache, report, None) => evaluate scanner streams cache report
      end
  end.

(** ** The scan *)

(** Operator templates first, then the built-in one, each by name. *)
Definition template_le (left right : EventTemplateRow) : bool :=
  let builtin t := et_id t =? BUILTIN_EVENT_TEMPLATE_ID in
  if bool_decide (builtin left = builtin right) then text_le (et_name left) (et_name right)
  else negb (builtin left).
Definition template_lt (left right : EventTemplateRow) : bool := negb (template_le right left).

Fixpoint compile_templates (templates : list EventTemplateRow) (report : EventScanReport)
  : list (EventTemplateRow * option Regex) * EventScanReport :=
  match templates with
  | [] => ([], report)
  | template :: templates =>
      let '(regex, report) :=
        match compile_template_regex (et_match_regex template) with
        | Ok regex => (Some regex, report)
        | Err message =>
            (None, report_skip report (mkEventScanSkip (Some (et_id template)) None [] (InvalidTemplateRegex message)))
        end in
      let '(rest, report) := compile_templates templates report in
      ((template, regex) :: rest, report)
  end.

(** The runs of rows with the same channel. *)
Fixpoint group_rows (rows : list EventScanCandidate) : list (list EventScanCandidate) :=
  match rows with
  | [] => []
  | row :: rows =>
      match group_rows rows with
      | (first :: group) :: groups =>
          if ec_channel_id row =? ec_channel_id first then (row :: first :: group) :: groups
          else [row] :: (first :: group) :: groups
      | _ => [[row]]
      end
  end.

Definition in_scope (only_template : option Z) (template_id : Z) : bool :=
  match only_template with None => true | Some id => id =? template_id end.

(** The loop over the channels: the plans in order; [None] is a panic. *)
Fixpoint scan_channels (scanner : EventChannelScanner) (only_template : option Z)
  (groups : list (list EventScanCandidate)) (cache : RuleCache) (report : EventScanReport)
  : option (list PlannedEventChannel * EventScanReport) :=
  match groups with
  | [] => Some ([], report)
  | group :: groups =>
      let report := add_counts report 1 0 0 0 in
      let '(cache, report, outcome) := evaluate scanner group cache report in
      match outcome with
      | ScanPanic => None
      | NoMatch => scan_channels scanner only_template groups cache report
      | Skipped template_id =>
          scan_channels scanner only_template groups cache
            (if in_scope only_template template_id then add_counts report 0 1 0 1 else report)
      | Planned plan =>
          '(plans, report) ← scan_channels scanner only_template groups cache report;
          Some (plan :: plans, report)
      end
  end.

(** ** Sports *)

(** The JSON decoder and the parsers of the client; the two exchanges of each
    plan, by its position. *)
Context (scoreboard_json : bytes -> option RawScoreboard) (parse_rfc3339 : text -> option Z) (format_ymd : Z -> text).
Context (is_alphanumeric : Z -> bool) (lowercase_char : Z -> text).
Context (world : nat -> Exchange * Exchange).

Definition set_title (event : GeneratedProgramme) (title : text) : GeneratedProgramme :=
  mkGeneratedProgramme (pg_starts_at event) (pg_stops_at event) title (pg_kind event) (pg_stable_event_key event)
    (pg_source_title event).

(** The plan with what ESPN says about its event. *)
Definition add_sports (plan : PlannedEventChannel) (now : Z) (settings : EventScanSettings) (info : SportsInfo)
  : PlannedEventChannel :=
  let '(event, programmes) :=
    match matchup info with
    | Some title =>
        let event := set_title (pe_event plan) title in
        (event, plan_event_channel_guide event (pe_timezone plan) now (pe_grace plan) settings)
    | None => (pe_event plan, pe_programmes plan)
    end in
  mkPlannedEventChannel (pe_channel_id plan) (pe_template plan) (pe_slot plan) (pe_raw_stream_name plan)
    (pe_stable_name plan) event (pe_state plan) programmes (pe_captures plan) (pe_group_name plan) (pe_timezone plan)
    (pe_grace plan) (Some info).

Definition enrich_with_sports (config : EspnClientConfig) (client : ClientState) (plan : PlannedEventChannel) (now : Z)
  (settings : EventScanSettings) (exchanges : Exchange * Exchange) : ClientState * PlannedEventChannel :=
  match detect_league (pe_captures plan) (pe_group_name plan) with
  | None => (client, plan)
  | Some league =>
      let date := local_date (pe_timezone plan) (pg_starts_at (pe_event plan)) in
      let '(client, info) :=
        lookup_sports_info scoreboard_json parse_rfc3339 format_ymd is_alphanumeric lowercase_char config client league date
          (pe_captures plan) (pg_starts_at (pe_event plan)) (fst exchanges) (snd exchanges) in
      (client, add_sports plan now settings info)
  end.

(** The loop over the plans from position [index] on. *)
Fixpoint enrich_plans (config : EspnClientConfig) (client : ClientState) (only_template : option Z) (now : Z)
  (settings : EventScanSettings) (index : nat) (plans : list PlannedEventChannel)
  : ClientState * list PlannedEventChannel :=
  match plans with
  | [] => (client, [])
  | plan :: plans =>
      let '(client, plan) :=
        if in_scope only_template (et_id (pe_template plan)) && negb (bool_decide (pe_state plan = Hidden))
        then enrich_with_sports config client plan now settings (world index)
        else (client, plan) in
      let '(client, plans) := enrich_plans config client only_template now settings (S index) plans in
      (client, plan :: plans)
  end.

(** The loop that writes the plans: the counts of one plan. *)
Definition count_plan (only_template : option Z) (report : EventScanReport) (plan : PlannedEventChannel) : EventScanReport :=
  if negb (in_scope only_template (et_id (pe_template plan))) then report
  else if bool_decide (pe_state plan = Hidden) then
    report_skip (add_counts report 0 1 0 1)
      (mkEventScanSkip (Some (et_id (pe_template plan))) (Some (pe_channel_id plan)) (pe_raw_stream_name plan)
         EndedBeforeWindow)
  else add_counts report 0 1 1 0.

(** The result of a scan: what is written, which channels a template owns, the
    report, and the state of the client. *)
Record ScanResult := mkScanResult {
  sr_written : list PlannedEventChannel;
  sr_owned : list Z;
  sr_report : EventScanReport;
  sr_client : option ClientState
}.

(** [run_event_scan] *)
Definition run_event_scan (templates : list EventTemplateRow) (region_timezone : option text)
  (candidates : list EventScanCandidate) (only_template : option Z) (now : Z) (settings : EventScanSettings)
  (client : option (EspnClientConfig * ClientState)) : option ScanResult :=
  let '(compiled, report) := compile_templates (stable_sort template_lt templates) empty_report in
  let scanner := mkEventChannelScanner compiled region_timezone now settings in
  '(planned, report) ← scan_channels scanner only_template (group_rows candidates) ∅ report;
  let '(client, planned) :=
    match client with
    | Some (config, st) =>
        let '(st, planned) := enrich_plans config st only_template now settings 0 planned in (Some st, planned)
    | None => (None, planned)
    end in
  let report := fold_left (count_plan only_template) planned report in
  let keep skip := match sk_template_id skip with None => true | Some id => in_scope only_template id end in
  Some (mkScanResult
          (List.filter (fun plan => in_scope only_template (et_id (pe_template plan))) planned)
          (List.map pe_channel_id planned)
          (mkEventScanReport (channels_scanned report) (rp_matched report) (rp_scheduled report) (rp_skipped report)
             (rp_pruned report) (List.filter keep (rp_skips report)))
          client).
End Scan.
