(* ===== verification/EventScanSpec.v ===== *)
(** * What the event scan guarantees

    The guide of a visible channel covers the present without gaps, the
    states of a channel follow each other, the cache of compiled rules is
    invisible, and the report accounts for every channel. *)
From Stdlib Require Import ZArith Lia.
From stdpp Require Import base numbers option strings.
From stdpp Require Import list gmap sorting.
From S2P Require Import Prelude Text Sort M3u Events EventGuide EventSpec Settings Sports SportsClient EventScan.
Open Scope Z_scope.

(** ** The built-in rules *)

(** The names of the groups in the text of an expression. *)
Fixpoint group_names (fuel : nat) (regex : text) : list text :=
  match fuel with
  | O => []
  | S fuel =>
      match split_once_text (str "(?P<") regex with
      | None => []
      | Some (_, rest) =>
          match split_once 0x3e rest with
          | None => []
          | Some (name, rest) => name :: group_names fuel rest
          end
      end
  end.

(** The built-in rules can be told apart and are enabled; the title of each
    names only groups that its expression has, and a rule without a date
    pattern has a group for the clock time. *)
Theorem builtin_rules_consistent :
  NoDup (List.map er_id builtin_sports_event_rules) /\ NoDup (List.map er_name builtin_sports_event_rules) /\
  Forall (fun rule => er_enabled rule = true /\ rule_ok rule /\
    let names := group_names 100 (default [] (em_name_regex (er_matcher rule))) in
    (title_template (er_guide rule) ∈ [str "{home} vs {away}"; str "{away} @ {home}"] /\
       str "home" ∈ names /\ str "away" ∈ names \/
     title_template (er_guide rule) = str "{team_a} vs {team_b}" /\ str "team_a" ∈ names /\ str "team_b" ∈ names) /\
    (er_date_patterns rule = [] -> str "time" ∈ names)) builtin_sports_event_rules.
Proof.
  split; [apply (bool_decide_unpack _); vm_compute; done|].
  split; [apply (bool_decide_unpack _); vm_compute; done|].
  repeat (constructor; [split; [done|]; split; [by split_and!|]; split;
    [first [left; split_and!; apply (bool_decide_unpack _); vm_compute; done
           |right; split_and!; [reflexivity|apply (bool_decide_unpack _); vm_compute; done..]]
    |first [discriminate | intros _; apply (bool_decide_unpack _); vm_compute; done]]|]).
  constructor.
Qed.

(** ** The states of a channel *)

Definition state_rank (state : EventChannelState) : Z :=
  match state with Scheduled => 0 | Live => 1 | Ended => 2 | Hidden => 3 end.

Section States.
Context {Tz : Type} `{Chrono Tz}.

(** A channel is scheduled, live, ended and hidden, in this order and never
    back; the states it has are decided by the interval and the grace. *)
Theorem states_progress starts_at stops_at grace now later :
  now <= later -> state_rank (state_at starts_at stops_at grace now) <= state_rank (state_at starts_at stops_at grace later).
Proof.
  intros Hle. unfold state_at. destruct (Z.ltb_spec now starts_at); [cbn; repeat case_match; cbn; lia|].
  rewrite (proj2 (Z.ltb_ge later starts_at)) by lia.
  destruct (Z.ltb_spec now stops_at); [cbn; repeat case_match; cbn; lia|].
  rewrite (proj2 (Z.ltb_ge later stops_at)) by lia.
  destruct (checked_instant _) as [hidden_at|]; [|done].
  destruct (Z.ltb_spec now hidden_at), (Z.ltb_spec later hidden_at); cbn; lia.
Qed.
End States.

Section PlannedEvent.
Context {Tz : Type} `{Chrono Tz} (to_lowercase : text -> text).

(** The event of a plan. *)
Lemma planned_event_spec matched stream_name starts_at event :
  rule_ok (me_rule matched) -> planned_event to_lowercase matched stream_name starts_at = Ok event ->
  pg_starts_at event < pg_stops_at event /\ pg_kind event = EventProgramme.
Proof.
  intros Hrule. unfold planned_event.
  set (ws := default starts_at (checked_instant (starts_at - days 1))).
  set (we := default starts_at (checked_instant (starts_at + days 30))).
  destruct (generate_event_guide to_lowercase (with_start matched starts_at) stream_name ws we) as [programmes|[]] eqn:E;
    [|done|done].
  destruct (head _) as [p|] eqn:Eh; [|done]. intros [= <-].
  pose proof E as Ebuild. unfold generate_event_guide in Ebuild. destruct (Z.leb_spec we ws); [done|].
  destruct (guide_tiles_window to_lowercase (with_start matched starts_at) stream_name ws we programmes Hrule E)
    as (_ & e & He & Hiff).
  assert (p ∈ programmes /\ pg_kind p = EventProgramme) as Hp.
  { destruct (List.filter _ programmes) as [|q l] eqn:Ef; [done|]. injection Eh as ->.
    assert (In p (List.filter (fun p => bool_decide (pg_kind p = EventProgramme)) programmes)) as Hin
      by (rewrite Ef; by left).
    apply List.filter_In in Hin as [Hin Hk%bool_decide_eq_true]. by rewrite <- list_elem_of_In in Hin. }
  split; [|apply Hp]. apply Hiff in Hp as [Hw ->]. unfold in_window, clip in *. cbn.
  apply build_event_programme_lasts in He as (Hl & _); [|done]. lia.
Qed.

(** With room for its window in the calendar, a matched event always has an
    event programme. *)
Theorem planned_event_present matched stream_name starts_at :
  rule_ok (me_rule matched) -> is_Some (checked_instant (starts_at + days 30)) ->
  planned_event to_lowercase matched stream_name starts_at <> Err (PlanSkip NoEventProgramme).
Proof.
  intros Hrule [we Hwe]. unfold planned_event. rewrite Hwe. change (default starts_at (Some we)) with we.
  set (ws := default starts_at (checked_instant (starts_at - days 1))).
  destruct (generate_event_guide to_lowercase (with_start matched starts_at) stream_name ws we) as [programmes|[]] eqn:E;
    [|done|done].
  destruct (guide_tiles_window to_lowercase (with_start matched starts_at) stream_name ws we programmes Hrule E)
    as (_ & e & He & Hiff).
  apply build_event_programme_lasts in He as (Hl & Hk & s & [= <-] & Hs & Hstop); [|done].
  assert (in_window ws we e) as Hin.
  { unfold checked_instant in Hwe. destruct (_ && _); [|done]. injection Hwe as <-.
    destruct Hrule as [Hpre _]. unfold in_window, ws, checked_instant. rewrite Hs. cbn [me_rule with_start].
    unfold days, nanos_of_seconds. destruct (_ && _); cbn; split; lia. }
  destruct (Hiff (clip ws we e)) as [_ Hback]. destruct (Hback (conj Hin eq_refl)) as [Hp Hkind].
  assert (clip ws we e ∈ List.filter (fun p => bool_decide (pg_kind p = EventProgramme)) programmes) as Hf.
  { apply list_elem_of_In, List.filter_In. split; [by apply list_elem_of_In|by apply bool_decide_eq_true]. }
  destruct (List.filter _ programmes); [set_solver|done].
Qed.

End PlannedEvent.

Section ScanSpec.
Context {Regex : Type} `{Regexes Regex} {Tz : Type} `{Chrono Tz}.
Context (to_lowercase : text -> text) (tz_utc : Tz) (provider_label : Regex).
Context (trunc_to_hour : Z -> option Z) (format_local : Tz -> Z -> text).
(** Truncation does not go forward. *)
Context (trunc_law : forall now hour, trunc_to_hour now = Some hour -> hour <= now).

(** ** The guide of a channel *)

Lemma channel_guide_tiles event timezone now grace settings :
  pg_starts_at event < pg_stops_at event ->
  exists a b, tiles a b (plan_event_channel_guide trunc_to_hour format_local event timezone now grace settings) /\
    event ∈ plan_event_channel_guide trunc_to_hour format_local event timezone now grace settings /\
    a <= now /\ pg_stops_at event <= b /\
    (forall hidden_at, checked_instant (pg_stops_at event + grace) = Some hidden_at -> 0 < grace -> b = hidden_at).
Proof using trunc_law.
  intros Hlast. unfold plan_event_channel_guide. set (start := default now (trunc_to_hour now)).
  assert (start <= now) as Hstart.
  { unfold start. destruct (trunc_to_hour now) as [hour|] eqn:E; cbn; [by apply trunc_law|lia]. }
  assert (exists b, tiles (pg_stops_at event) b (if 0 <? grace then
      match checked_instant (pg_stops_at event + grace) with
      | Some ended_stop => [filler (pg_stops_at event) ended_stop (ended_title settings) (pg_source_title event)]
      | None => [] end else []) /\ pg_stops_at event <= b /\
      (forall hidden_at, checked_instant (pg_stops_at event + grace) = Some hidden_at -> 0 < grace -> b = hidden_at))
    as (b & Hb & Hstop & Hhidden).
  { destruct (Z.ltb_spec 0 grace).
    - unfold checked_instant. destruct (_ && _); cbn.
      + exists (pg_stops_at event + grace). split_and!; try done; try lia. by intros ? [= <-].
      + exists (pg_stops_at event). split_and!; try done; lia.
    - exists (pg_stops_at event). split_and!; try done; try lia. }
  exists (if start <? pg_starts_at event then start else pg_starts_at event), b. split_and!; [|set_solver| |done|done].
  - destruct (Z.ltb_spec start (pg_starts_at event)); cbn; split_and!; done.
  - destruct (Z.ltb_spec start (pg_starts_at event)); lia.
Qed.

(** What a plan promises at [now]: its state is that of its event, and a channel
    that is not hidden has a guide without gaps that contains the event and
    covers the present; a hidden one has none. *)
Definition plan_covers (now : Z) (plan : @PlannedEventChannel Tz) : Prop :=
  let event := pe_event plan in
  pg_starts_at event < pg_stops_at event /\ 0 < pe_grace plan /\
  pe_state plan = state_at (pg_starts_at event) (pg_stops_at event) (pe_grace plan) now /\
  (forall limit, checked_instant (now + days (Z.max (et_future_date_days (pe_template plan)) 0)) = Some limit ->
     pg_starts_at event <= limit) /\
  match pe_state plan with
  | Hidden => pe_programmes plan = []
  | _ => event ∈ pe_programmes plan /\ exists a b, tiles a b (pe_programmes plan) /\ a <= now < b
  end.

Lemma channel_guide_covers event timezone now grace settings :
  pg_starts_at event < pg_stops_at event -> 0 < grace ->
  state_at (pg_starts_at event) (pg_stops_at event) grace now <> Hidden ->
  let guide := plan_event_channel_guide trunc_to_hour format_local event timezone now grace settings in
  event ∈ guide /\ exists a b, tiles a b guide /\ a <= now < b.
Proof using trunc_law.
  intros Hlast Hgrace Hvisible.
  destruct (channel_guide_tiles event timezone now grace settings Hlast) as (a & b & Htiles & Hin & Ha & Hb & Hhidden).
  split; [done|]. exists a, b. split; [done|]. unfold state_at in Hvisible.
  destruct (Z.ltb_spec now (pg_starts_at event)); [lia|]. destruct (Z.ltb_spec now (pg_stops_at event)); [lia|].
  destruct (checked_instant (pg_stops_at event + grace)) as [hidden_at|] eqn:Ec; [|done].
  destruct (Z.ltb_spec now hidden_at); [|done]. rewrite (Hhidden hidden_at eq_refl Hgrace). lia.
Qed.

Lemma planned_channel_covers stream template timezone matched now settings plan :
  rule_ok (me_rule matched) ->
  plan_event_channel to_lowercase provider_label trunc_to_hour format_local stream template timezone matched now settings
    = Ok plan -> plan_covers now plan.
Proof using trunc_law.
  intros Hrule. unfold plan_event_channel.
  destruct (resolve_start matched _ _) as [[starts_at|]|]; [|done|done].
  destruct (planned_event to_lowercase matched (ec_stream_name stream) starts_at) as [event|] eqn:E; [|done].
  destruct (match checked_instant (now + _) with Some limit => limit <? pg_starts_at event | None => false end) eqn:Ef; [done|].
  intros [= <-]. unfold plan_covers. cbn. apply planned_event_spec in E as [Hlast _]; [|done].
  set (grace := nanos_of_seconds (Z.max (et_past_date_grace_hours template) 1 * 3600)).
  assert (0 < grace) as Hgrace by (unfold grace, nanos_of_seconds; lia).
  split_and!; [done|done|done|intros limit Hlimit; rewrite Hlimit in Ef; lia|].
  pose proof (channel_guide_covers event timezone now grace settings Hlast Hgrace) as Hguide.
  destruct (state_at (pg_starts_at event) (pg_stops_at event) grace now); cbn; try done; by apply Hguide.
Qed.

Lemma add_sports_covers now plan settings info :
  pe_state plan <> Hidden -> plan_covers now plan ->
  plan_covers now (add_sports trunc_to_hour format_local plan now settings info).
Proof using trunc_law.
  intros Hvisible (Hlast & Hgrace & Hstate & Hlimit & Hguide). unfold add_sports.
  destruct (matchup info) as [title|]; [|done]. unfold plan_covers. cbn. split_and!; try done.
  rewrite Hstate in Hvisible. rewrite Hstate.
  pose proof (channel_guide_covers (set_title (pe_event plan) title) (pe_timezone plan) now (pe_grace plan) settings
    Hlast Hgrace Hvisible) as Hnew.
  by destruct (state_at _ _ _ _).
Qed.
End ScanSpec.

(** ** The cache *)

Section Cache.
Context {Regex : Type} `{Regexes Regex} {Tz : Type} `{Chrono Tz}.
Context (to_lowercase : text -> text) (tz_utc : Tz) (provider_label : Regex).
Context (trunc_to_hour : Z -> option Z) (format_local : Tz -> Z -> text).
Abbreviation RuleCache := (gmap (nat * text) (result (list (CompiledRule Regex)) ParseError)).
Abbreviation evaluate_templates :=
  (EventScan.evaluate_templates to_lowercase tz_utc provider_label trunc_to_hour format_local).
Abbreviation evaluate := (EventScan.evaluate to_lowercase tz_utc provider_label trunc_to_hour format_local).

(** What one template makes of a stream, with rules compiled for it: a report
    entry to add, or the outcome of the channel. *)
Inductive Verdict :=
| Pass (skip : option SkipReason)
| Decide (skip : option SkipReason) (outcome : @ChannelScanOutcome Tz).

Definition template_verdict (scanner : @EventChannelScanner Regex) (stream : EventScanCandidate)
  (template : EventTemplateRow) (regex : option Regex) : Verdict :=
  match regex with
  | None => Pass None
  | Some regex =>
      if negb (is_match regex (ec_stream_name stream)) then Pass None
      else
        let timezone :=
          resolve_event_timezone tz_utc (et_timezone template) (ec_source_timezone stream) (sc_region_timezone scanner) in
        match compile_template_rules template (tz_name timezone) (sc_settings scanner) with
        | Err e => Pass (Some (RulesDidNotCompile e))
        | Ok rules =>
            match first_match rules (stream_candidate stream) with
            | Err e => Pass (Some (InvalidEventDate e))
            | Ok None => Pass (if et_id template =? BUILTIN_EVENT_TEMPLATE_ID then None else Some NoSportsRule)
            | Ok (Some matched) =>
                match plan_event_channel to_lowercase provider_label trunc_to_hour format_local stream template timezone
                        matched (sc_now scanner) (sc_settings scanner) with
                | Ok plan => Decide None (Planned plan)
                | Err (PlanSkip reason) => Decide (Some reason) (Skipped (et_id template))
                | Err PlanPanic => Decide None ScanPanic
                end
            end
        end
  end.

Definition note (template : EventTemplateRow) (stream : EventScanCandidate) (skip : option SkipReason)
  (report : EventScanReport) : EventScanReport :=
  match skip with Some reason => report_skip report (skip_of template stream reason) | None => report end.

(** The scan of a channel without a cache: streams in order, for each the
    templates in order, up to the first decision. *)
Fixpoint first_decision (verdicts : list (EventTemplateRow * EventScanCandidate * Verdict)) (report : EventScanReport)
  : EventScanReport * option (@ChannelScanOutcome Tz) :=
  match verdicts with
  | [] => (report, None)
  | (template, stream, Pass skip) :: verdicts => first_decision verdicts (note template stream skip report)
  | (template, stream, Decide skip outcome) :: _ => (note template stream skip report, Some outcome)
  end.

Definition verdicts (scanner : @EventChannelScanner Regex) (stream : EventScanCandidate)
  (templates : list (EventTemplateRow * option Regex)) : list (EventTemplateRow * EventScanCandidate * Verdict) :=
  List.map (fun '(template, regex) => (template, stream, template_verdict scanner stream template regex)) templates.

(** The cached rules are those of their template and timezone. *)
Definition cache_ok (scanner : @EventChannelScanner Regex) (cache : RuleCache) : Prop :=
  map_Forall (fun key rules =>
    forall template regex, sc_templates scanner !! fst key = Some (template, regex) ->
      rules = compile_template_rules template (snd key) (sc_settings scanner)) cache.

Lemma cached_rules_ok scanner cache index template regex timezone :
  cache_ok scanner cache -> sc_templates scanner !! index = Some (template, regex) ->
  let '(cache', rules) := cached_rules cache index template timezone (sc_settings scanner) in
  cache_ok scanner cache' /\ rules = compile_template_rules template timezone (sc_settings scanner).
Proof.
  intros Hok Hlook. unfold cached_rules. destruct (cache !! (index, timezone)) as [rules|] eqn:E.
  - split; [done|]. exact (Hok _ _ E _ _ Hlook).
  - split; [|done]. apply map_Forall_insert_2; [|done]. cbn. intros t r Ht. rewrite Hlook in Ht. by injection Ht as <- <-.
Qed.

Lemma evaluate_templates_fresh scanner stream index templates cache report :
  cache_ok scanner cache -> drop index (sc_templates scanner) = templates ->
  let '(cache', report', outcome) := evaluate_templates scanner stream index templates cache report in
  cache_ok scanner cache' /\ (report', outcome) = first_decision (verdicts scanner stream templates) report.
Proof.
  intros Hok. revert index cache report Hok. induction templates as [|[template regex] templates IH];
    intros index cache report Hok Hdrop; cbn [EventScan.evaluate_templates verdicts List.map first_decision]; [done|].
  assert (sc_templates scanner !! index = Some (template, regex)) as Hlook.
  { rewrite <- (Nat.add_0_r index), <- lookup_drop, Hdrop. done. }
  assert (drop (S index) (sc_templates scanner) = templates) as Hnext.
  { replace (S index) with (index + 1)%nat by lia. rewrite <- drop_drop, Hdrop. done. }
  unfold template_verdict. destruct regex as [regex|]; [|by apply IH].
  destruct (negb _); [by apply IH|].
  set (timezone := resolve_event_timezone _ _ _ _).
  pose proof (cached_rules_ok scanner cache index template (Some regex) (tz_name timezone) Hok Hlook) as Hc.
  destruct (cached_rules cache index template (tz_name timezone) (sc_settings scanner)) as [cache' rules].
  destruct Hc as [Hok' <-]. destruct rules as [rules|e]; [|by apply IH].
  destruct (first_match rules (stream_candidate stream)) as [[matched|]|e]; [| |by apply IH].
  - destruct (plan_event_channel _ _ _ _ _ _ _ _ _ _) as [plan|[reason|]]; done.
  - destruct (et_id template =? BUILTIN_EVENT_TEMPLATE_ID); by apply IH.
Qed.

(** What the scanner decides for a channel is what its templates, in order,
    decide for its streams, in order, with rules compiled for each: the cache
    of compiled rules, filled by whatever channels were scanned before, cannot
    be observed. *)
Theorem cache_unobservable scanner streams cache report :
  cache_ok scanner cache ->
  let '(cache', report', outcome) := evaluate scanner streams cache report in
  cache_ok scanner cache' /\
  (report', outcome) =
  (let '(report, decision) :=
     first_decision (concat (List.map (fun stream => verdicts scanner stream (sc_templates scanner)) streams)) report in
   (report, default NoMatch decision)).
Proof.
  revert cache report. induction streams as [|stream streams IH]; intros cache report Hok; cbn [EventScan.evaluate]; [done|].
  pose proof (evaluate_templates_fresh scanner stream 0 (sc_templates scanner) cache report Hok eq_refl) as Hone.
  destruct (evaluate_templates scanner stream 0 (sc_templates scanner) cache report) as [[cache1 report1] outcome].
  destruct Hone as [Hok1 Hone].
  assert (forall l k r, first_decision (l ++ k) r =
    match first_decision l r with (r, None) => first_decision k r | d => d end) as Happ.
  { intros l. induction l as [|[[t st] []] l IHl]; intros k r; cbn; [done|apply IHl|done]. }
  cbn [List.map concat]. rewrite Happ, <- Hone. destruct outcome as [outcome|]; [done|]. by apply IH.
Qed.

(** A planned channel was planned by one template for one stream, with rules
    compiled for it. *)
Lemma first_decision_decides vs report report' outcome :
  first_decision vs report = (report', Some outcome) ->
  exists template stream skip, (template, stream, Decide skip outcome) ∈ vs.
Proof.
  revert report. induction vs as [|[[template stream] [skip|skip o]] vs IH]; intros report; cbn; [done| |].
  - intros Hd. destruct (IH _ Hd) as (t & st & sk & Hin). exists t, st, sk. by right.
  - intros [= _ <-]. exists template, stream, skip. by left.
Qed.

Lemma evaluate_planned scanner streams cache report :
  cache_ok scanner cache ->
  let '(cache', _, outcome) := evaluate scanner streams cache report in
  cache_ok scanner cache' /\
  forall plan, outcome = Planned plan ->
    exists template stream regex skip, (template, regex) ∈ sc_templates scanner /\
      template_verdict scanner stream template regex = Decide skip (Planned plan).
Proof.
  revert cache report. induction streams as [|stream streams IH]; intros cache report Hok; cbn [EventScan.evaluate]; [done|].
  pose proof (evaluate_templates_fresh scanner stream 0 (sc_templates scanner) cache report Hok eq_refl) as Hone.
  destruct (evaluate_templates scanner stream 0 (sc_templates scanner) cache report) as [[cache1 report1] [outcome|]].
  - destruct Hone as [Hok1 Hone]. split; [done|]. intros plan ->. symmetry in Hone.
    apply first_decision_decides in Hone as (template & st & skip & Hin).
    unfold verdicts in Hin. apply list_elem_of_In, in_map_iff in Hin as ([t regex] & [= -> -> Hv] & Hin).
    exists template, st, regex, skip. split; [by apply list_elem_of_In|done].
  - destruct Hone as [Hok1 _]. by apply IH.
Qed.
End Cache.

(** ** Every guide of a scan covers the present *)

Section Covers.
Context {Regex : Type} `{Regexes Regex} {Tz : Type} `{Chrono Tz}.
Context (to_lowercase : text -> text) (tz_utc : Tz) (provider_label : Regex).
Context (trunc_to_hour : Z -> option Z) (format_local : Tz -> Z -> text).

Lemma compile_rules_rules rules compiled :
  compile_rules rules = Ok compiled -> List.map (fun c : CompiledRule Regex => cr_rule c) compiled = rules.
Proof.
  revert compiled. induction rules as [|rule rules IH]; intros compiled; cbn [compile_rules]; [by intros [= <-]|].
  destruct (compile_rule rule) as [c|e] eqn:Ec; [|done]. destruct (compile_rules rules) as [cs|e]; [|done].
  intros [= <-]. cbn. rewrite (IH cs eq_refl). f_equal. unfold compile_rule in Ec. repeat case_match; simplify_eq; done.
Qed.

Lemma template_rules_ok template timezone settings rules candidate matched :
  0 <= inferred_duration_seconds settings ->
  compile_template_rules (Regex := Regex) template timezone settings = Ok rules ->
  first_match rules candidate = Ok (Some matched) -> rule_ok (me_rule matched).
Proof.
  intros Hset Hc Hm. apply compile_rules_rules in Hc.
  pose proof (first_match_in_order rules candidate) as Hfirst. rewrite Hm in Hfirst.
  destruct (List.filter _ rules) as [|c l] eqn:Ef; [done|]. destruct Hfirst as [-> _].
  assert (In c rules) as Hin.
  { assert (In c (c :: l)) as Hc' by (by left). rewrite <- Ef in Hc'. apply filter_In in Hc'. tauto. }
  apply (in_map (fun c => cr_rule c)) in Hin. rewrite Hc in Hin. apply in_map_iff in Hin as (rule & <- & Hr).
  assert (Forall rule_ok builtin_sports_event_rules) as Hall.
  { destruct builtin_rules_consistent as (_ & _ & Hb). eapply Forall_impl; [exact Hb|]. cbn. tauto. }
  rewrite Forall_forall in Hall. destruct (Hall rule (proj2 (list_elem_of_In _ _) Hr)) as (Hpre & Hpost & _).
  split_and!; [exact Hpre|exact Hpost|]. cbn. destruct (Z.ltb_spec 0 (et_event_duration_hours template)); [|done].
  unfold sat_mul, u64_max. lia.
Qed.

Context (trunc_law : forall now hour, trunc_to_hour now = Some hour -> hour <= now).

Lemma scan_channels_cover scanner only groups cache report plans report' :
  0 <= inferred_duration_seconds (sc_settings scanner) -> cache_ok scanner cache ->
  scan_channels to_lowercase tz_utc provider_label trunc_to_hour format_local scanner only groups cache report
    = Some (plans, report') -> Forall (plan_covers (sc_now scanner)) plans.
Proof using trunc_law.
  intros Hset. revert cache report plans. induction groups as [|group groups IH]; intros cache report plans Hok;
    cbn [scan_channels]; [intros [= <- _]; constructor|].
  pose proof (evaluate_planned to_lowercase tz_utc provider_label trunc_to_hour format_local scanner group cache
    (add_counts report 1 0 0 0) Hok) as He.
  destruct (evaluate _ _ _ _ _ _ _ _ _) as [[cache1 report1] outcome]. destruct He as [Hok1 Hplan].
  destruct outcome as [|template_id|plan|]; [by apply IH|by apply IH| |done].
  destruct (scan_channels _ _ _ _ _ _ _ _ _ _) as [[plans' report2]|] eqn:Es; [|done]. cbn. intros [= <- <-].
  constructor; [|by eapply IH]. destruct (Hplan plan eq_refl) as (template & stream & regex & skip & _ & Hv).
  unfold template_verdict in Hv. destruct regex as [regex|]; [|done]. destruct (negb _); [done|].
  destruct (compile_template_rules _ _ _) as [rules|] eqn:Ec; [|done].
  destruct (first_match rules _) as [[matched|]|] eqn:Em; [|by case_match|done].
  destruct (plan_event_channel _ _ _ _ _ _ _ _ _ _) as [plan'|[]] eqn:Ep; [|done|done].
  injection Hv as _ ->. eapply planned_channel_covers; [done|by eapply template_rules_ok|exact Ep].
Qed.

Context (scoreboard_json : bytes -> option RawScoreboard) (parse_rfc3339 : text -> option Z) (format_ymd : Z -> text).
Context (is_alphanumeric : Z -> bool) (lowercase_char : Z -> text) (world : nat -> Exchange * Exchange).

Lemma enrich_plans_cover config client only now settings index plans :
  Forall (plan_covers now) plans ->
  Forall (plan_covers now)
    (snd (enrich_plans trunc_to_hour format_local scoreboard_json parse_rfc3339 format_ymd is_alphanumeric lowercase_char world
            config client only now settings index plans)).
Proof using trunc_law.
  revert client index. induction plans as [|plan plans IH]; intros client index Hall; cbn [enrich_plans]; [done|].
  inversion_clear Hall as [|? ? Hplan Hplans].
  set (step := if _ && _ then _ else _).
  assert (plan_covers now (snd step)) as Hstep.
  { unfold step. destruct (in_scope only _); [|done]. case_bool_decide as Hs; [done|]. cbn [andb negb].
    unfold enrich_with_sports. destruct (detect_league _ _) as [league|]; [|done].
    destruct (lookup_sports_info _ _ _ _ _ _ _ _ _ _ _ _ _) as [client' info]. by apply add_sports_covers. }
  destruct step as [client1 plan1]. specialize (IH client1 (S index) Hplans).
  destruct (enrich_plans _ _ _ _ _ _ _ _ _ _ _ _ _ _ _) as [client2 plans2]. cbn in *. by constructor.
Qed.

(** C38. Every guide a scan writes, with or without what ESPN adds to it, is that of
    its event now: a visible channel has a guide without gaps that contains the
    event and covers the present, a hidden channel has none, and no event starts
    later than its template allows. *)
Theorem scan_guides_cover_now templates region candidates only now settings client result :
  0 <= inferred_duration_seconds settings ->
  run_event_scan to_lowercase tz_utc provider_label trunc_to_hour format_local scoreboard_json parse_rfc3339 format_ymd
    is_alphanumeric lowercase_char world templates region candidates only now settings client = Some result ->
  Forall (plan_covers now) (sr_written result).
Proof using trunc_law.
  intros Hset. unfold run_event_scan. destruct (compile_templates _ _) as [compiled report0].
  destruct (scan_channels _ _ _ _ _ _ _ _ _ _) as [[planned report1]|] eqn:Es; [|done]. cbn [mbind option_bind].
  apply scan_channels_cover in Es; [|done|apply map_Forall_empty]. cbn [sc_now] in Es.
  assert (forall l, Forall (plan_covers now) l ->
    Forall (plan_covers now) (List.filter (fun plan => in_scope only (et_id (pe_template plan))) l)) as Hfilter.
  { intros l Hl. apply Forall_forall. intros x Hx%list_elem_of_In. apply filter_In in Hx as [Hx _].
    rewrite Forall_forall in Hl. apply Hl. by apply list_elem_of_In. }
  destruct client as [[config st]|]; cbn [mbind option_bind].
  - pose proof (enrich_plans_cover config st only now settings 0 planned Es) as Hrich.
    destruct (enrich_plans _ _ _ _ _ _ _ _ _ _ _ _ _ _ _) as [st' plans]. intros [= <-]. by apply Hfilter.
  - intros [= <-]. by apply Hfilter.
Qed.
End Covers.

(** ** The settings of a scan *)

(** The settings an operator can set give a scan a duration of five minutes to
    a day and a title that is not blank. *)
Theorem scan_settings_in_range overrides provider_id group_id settings :
  resolve_settings overrides provider_id group_id = Ok settings ->
  300 <= inferred_duration_seconds (from_settings settings) <= 86400 /\
  ended_title (from_settings settings) <> [] /\
  upcoming_prefix (from_settings settings) = str "Upcoming".
Proof.
  intros (Hdefs & Hall & _)%resolved_settings. split; [|split; [|done]]; cbn.
  - destruct (find_setting settings "events.inferred_duration_seconds") as [setting|] eqn:Ef; cbn; [|unfold DEFAULT_INFERRED_DURATION_SECONDS; lia].
    apply find_some in Ef as [Hin Hkey%bool_decide_eq_true].
    rewrite Forall_forall in Hall. destruct (Hall setting (proj2 (list_elem_of_In _ _) Hin)) as [_ Hfit].
    apply (in_map es_definition) in Hin. rewrite Hdefs in Hin.
    assert (es_definition setting = integer_setting "events.inferred_duration_seconds" 10800 300 86400 "seconds" Settings.Low Settings.Reimport true true)
      as Hdef.
    { cbn [In setting_catalog] in Hin. repeat destruct Hin as [Hin|Hin]; try done;
        rewrite <- Hin in Hkey |- *; try done; discriminate Hkey. }
    rewrite Hdef in Hfit. destruct Hfit as (z & -> & _ & Hlow & Hhigh).
    specialize (Hlow _ eq_refl). specialize (Hhigh _ eq_refl). cbn. unfold u64_max.
    destruct (Z.leb_spec 0 z); [|lia]. destruct (Z.leb_spec z (2 ^ 64 - 1)); cbn; lia.
  - destruct (find_setting settings "events.filler_title") as [setting|]; [|done]. cbn.
    destruct (is_system_default _); [done|]. destruct (as_str _) as [title|]; [|done]. cbn. by case_bool_decide.
Qed.

(** ** The report *)

Lemma filter_filter_and {A} (f g : A -> bool) l :
  List.filter f (List.filter g l) = List.filter (fun x => g x && f x) l.
Proof. induction l as [|x l IH]; cbn; [done|]. destruct (g x); cbn; rewrite ?IH; done. Qed.

Section Report.
Context {Regex : Type} `{Regexes Regex} {Tz : Type} `{Chrono Tz}.
Context (to_lowercase : text -> text) (tz_utc : Tz) (provider_label : Regex).
Context (trunc_to_hour : Z -> option Z) (format_local : Tz -> Z -> text).

(** The counts of a report, without its pruned rows. *)
Definition counts (report : EventScanReport) : Z * Z * Z * Z :=
  (channels_scanned report, rp_matched report, rp_scheduled report, rp_skipped report).
Definition skips_bounded (report : EventScanReport) : Prop := zlen (rp_skips report) <= MAX_EVENT_SCAN_SKIPS.

Ltac solve_counts := repeat (apply pair_equal_spec; split); lia.

Lemma report_skip_spec report skip :
  skips_bounded report -> counts (report_skip report skip) = counts report /\ skips_bounded (report_skip report skip).
Proof.
  unfold report_skip, skips_bounded. intros Hb. destruct (Z.ltb_spec (zlen (rp_skips report)) MAX_EVENT_SCAN_SKIPS); [|done].
  split; [done|]. cbn. rewrite zlen_snoc. lia.
Qed.

Lemma evaluate_templates_counts scanner stream index templates cache report :
  skips_bounded report ->
  let '(_, report', _) :=
    evaluate_templates to_lowercase tz_utc provider_label trunc_to_hour format_local scanner stream index templates cache report in
  counts report' = counts report /\ skips_bounded report'.
Proof.
  revert index cache report. induction templates as [|[template regex] templates IH]; intros index cache report Hb;
    cbn [evaluate_templates]; [done|].
  assert (forall cache skip, let '(_, report', _) :=
    evaluate_templates to_lowercase tz_utc provider_label trunc_to_hour format_local scanner stream (S index) templates cache
      (report_skip report skip) in counts report' = counts report /\ skips_bounded report') as Hskip.
  { intros cache' skip. destruct (report_skip_spec report skip Hb) as [<- Hb']. by apply IH. }
  destruct regex as [regex|]; [|by apply IH]. destruct (negb _); [by apply IH|].
  destruct (cached_rules _ _ _ _ _) as [cache' [rules|e]]; [|by apply Hskip].
  destruct (first_match _ _) as [[matched|]|e]; [| |by apply Hskip].
  - destruct (plan_event_channel _ _ _ _ _ _ _ _ _ _) as [plan|[reason|]]; [done| |done]. by apply report_skip_spec.
  - destruct (_ =? _); [by apply IH|by apply Hskip].
Qed.

Lemma evaluate_counts scanner streams cache report :
  skips_bounded report ->
  let '(_, report', _) :=
    evaluate to_lowercase tz_utc provider_label trunc_to_hour format_local scanner streams cache report in
  counts report' = counts report /\ skips_bounded report'.
Proof.
  revert cache report. induction streams as [|stream streams IH]; intros cache report Hb; cbn [evaluate]; [done|].
  pose proof (evaluate_templates_counts scanner stream 0 (sc_templates scanner) cache report Hb) as Hone.
  destruct (evaluate_templates _ _ _ _ _ _ _ _ _ _ _) as [[cache1 report1] [outcome|]]; [done|].
  destruct Hone as [<- Hb1]. by apply IH.
Qed.

Lemma add_counts_spec report a b c d a' b' c' d' :
  counts report = (a, b, c, d) -> a + a' <= u64_max -> b + b' <= u64_max -> c + c' <= u64_max -> d + d' <= u64_max ->
  counts (add_counts report a' b' c' d') = (a + a', b + b', c + c', d + d').
Proof.
  intros [= <- <- <- <-] Ha Hb Hc Hd. unfold counts, add_counts. cbn. unfold sat_add.
  solve_counts.
Qed.

Lemma scan_channels_counts scanner only groups cache report plans report' k :
  skips_bounded report -> counts report = (k, rp_skipped report, 0, rp_skipped report) ->
  0 <= rp_skipped report <= k -> k + zlen groups <= u64_max ->
  scan_channels to_lowercase tz_utc provider_label trunc_to_hour format_local scanner only groups cache report
    = Some (plans, report') ->
  skips_bounded report' /\
  counts report' = (k + zlen groups, rp_skipped report', 0, rp_skipped report') /\
  0 <= rp_skipped report' /\ rp_skipped report' + zlen plans <= rp_skipped report + zlen groups.
Proof.
  revert cache report plans k. induction groups as [|group groups IH]; intros cache report plans k Hb Hc Hk Hmax;
    cbn [scan_channels].
  { intros [= <- <-]. rewrite !zlen_nil, !Z.add_0_r. split_and!; try done; lia. }
  rewrite zlen_cons in Hmax |- *. pose proof (zlen_nonneg groups) as Hg.
  assert (skips_bounded (add_counts report 1 0 0 0)) as Hb1 by done.
  pose proof (evaluate_counts scanner group cache (add_counts report 1 0 0 0) Hb1) as He.
  destruct (evaluate _ _ _ _ _ _ _ _ _) as [[cache1 report1] outcome]. destruct He as [Hc1 Hb2].
  assert (counts report1 = (k + 1, rp_skipped report, 0, rp_skipped report)) as Hcounts.
  { rewrite Hc1, (add_counts_spec _ _ _ _ _ 1 0 0 0 Hc); [|lia..]. by rewrite !Z.add_0_r. }
  assert (rp_skipped report1 = rp_skipped report) as Hsame by (by injection Hcounts).
  rewrite <- Hsame in Hcounts, Hk |- *. replace (k + (1 + zlen groups)) with (k + 1 + zlen groups) in * by lia.
  destruct outcome as [|template_id|plan|]; [| | |done].
  - intros Hrun. apply (IH _ _ _ (k + 1)) in Hrun as (? & ? & ? & ?); [|done|done|lia|lia]. split_and!; try done; lia.
  - intros Hrun. destruct (in_scope only template_id).
    + assert (rp_skipped (add_counts report1 0 1 0 1) = rp_skipped report1 + 1) as Hone by (cbn; unfold sat_add; lia).
      apply (IH _ _ _ (k + 1)) in Hrun as (? & ? & ? & ?); [|done| |lia|lia]; [split_and!; try done; lia|].
      rewrite (add_counts_spec _ _ _ _ _ 0 1 0 1 Hcounts); try lia. solve_counts.
    + apply (IH _ _ _ (k + 1)) in Hrun as (? & ? & ? & ?); [|done|done|lia|lia]. split_and!; try done; lia.
  - destruct (scan_channels _ _ _ _ _ _ _ _ _ _) as [[plans' report2]|] eqn:Es; [|done]. cbn. intros [= <- <-].
    apply (IH _ _ _ (k + 1)) in Es as (? & ? & ? & ?); [|done|done|lia|lia]. rewrite zlen_cons. split_and!; try done; lia.
Qed.

(** Plans of the scope that are shown. *)
Definition shown (only : option Z) (plan : @PlannedEventChannel Tz) : bool :=
  in_scope only (et_id (pe_template plan)) && negb (bool_decide (pe_state plan = Hidden)).

Lemma count_plan_counts only plan report k m s :
  skips_bounded report -> counts report = (k, m + s, m, s) -> 0 <= m -> 0 <= s -> m + s + 1 <= u64_max -> k <= u64_max ->
  let m' := if shown only plan then m + 1 else m in
  exists s', 0 <= s' /\ m' + s' <= m + s + 1 /\ skips_bounded (count_plan only report plan) /\
    counts (count_plan only report plan) = (k, m' + s', m', s').
Proof.
  intros Hb Hc Hm Hs Hmax Hk. unfold count_plan, shown.
  destruct (in_scope only (et_id (pe_template plan))); cbn [negb andb]; [|by exists s; split_and!; try done; lia].
  case_bool_decide; cbn [negb].
  - set (skip := mkEventScanSkip _ _ _ _). destruct (report_skip_spec (add_counts report 0 1 0 1) skip Hb) as [Hc' Hb'].
    exists (s + 1). split_and!; [lia|lia|exact Hb'|].
    rewrite Hc'. rewrite (add_counts_spec _ _ _ _ _ 0 1 0 1 Hc); try lia. solve_counts.
  - exists s. split_and!; [lia|lia|done|]. rewrite (add_counts_spec _ _ _ _ _ 0 1 1 0 Hc); try lia. solve_counts.
Qed.

Lemma count_plans_counts only plans report k m s :
  skips_bounded report -> counts report = (k, m + s, m, s) -> 0 <= m -> 0 <= s ->
  m + s + zlen plans <= u64_max -> k <= u64_max ->
  let report' := fold_left (count_plan only) plans report in
  let m' := m + zlen (List.filter (shown only) plans) in
  exists s', skips_bounded report' /\ counts report' = (k, m' + s', m', s').
Proof.
  revert report m s. induction plans as [|plan plans IH]; intros report m s Hb Hc Hm Hs Hmax Hk; cbn [fold_left List.filter].
  { rewrite zlen_nil, Z.add_0_r. by exists s. }
  rewrite zlen_cons in Hmax. pose proof (zlen_nonneg plans) as Hp.
  destruct (count_plan_counts only plan report k m s Hb Hc Hm Hs ltac:(lia) Hk) as (s1 & Hs1 & Hle & Hb1 & Hc1).
  destruct (IH _ _ _ Hb1 Hc1 ltac:(destruct (shown only plan); lia) Hs1 ltac:(lia) Hk) as (s' & Hb' & Hc').
  exists s'. split; [exact Hb'|]. cbn zeta in Hc'. rewrite Hc'. destruct (shown only plan); [rewrite zlen_cons|]; solve_counts.
Qed.

Lemma compile_templates_counts (templates : list EventTemplateRow) report :
  skips_bounded report ->
  counts (snd (compile_templates (Regex := Regex) templates report)) = counts report /\
  skips_bounded (snd (compile_templates (Regex := Regex) templates report)).
Proof.
  revert report. induction templates as [|template templates IH]; intros report Hb; cbn [compile_templates]; [done|].
  destruct (compile_template_regex _) as [regex|message].
  - specialize (IH report Hb). by destruct (compile_templates templates report).
  - set (skip := mkEventScanSkip _ _ _ _). destruct (report_skip_spec report skip Hb) as [<- Hb']. specialize (IH _ Hb').
    by destruct (compile_templates templates (report_skip _ _)).
Qed.

Lemma group_rows_length rows : zlen (group_rows rows) <= zlen rows.
Proof.
  induction rows as [|row rows IH]; cbn [group_rows]; [done|]. rewrite zlen_cons.
  destruct (group_rows rows) as [|[|first group] groups]; [cbn; pose proof (zlen_nonneg rows); rewrite zlen_cons, zlen_nil; lia| |].
  - rewrite zlen_cons in *. rewrite zlen_nil. pose proof (zlen_nonneg groups). lia.
  - destruct (_ =? _); rewrite ?zlen_cons in *; lia.
Qed.

Lemma scan_channels_scanned scanner only rows cache report plans report' :
  skips_bounded report -> counts report = (0, 0, 0, 0) -> zlen rows <= u64_max ->
  scan_channels to_lowercase tz_utc provider_label trunc_to_hour format_local scanner only (group_rows rows) cache report
    = Some (plans, report') ->
  skips_bounded report' /\
  exists s, 0 <= s /\ s + zlen plans <= zlen (group_rows rows) /\ counts report' = (zlen (group_rows rows), 0 + s, 0, s).
Proof.
  intros Hb Hc Hmax Hrun. pose proof (group_rows_length rows) as Hlen.
  assert (rp_skipped report = 0) as Hzero by (by injection Hc).
  apply (scan_channels_counts _ _ _ _ _ _ _ 0) in Hrun as (Hb' & Hc' & Hs & Hle); rewrite ?Hzero; try done; try lia.
  split; [done|]. exists (rp_skipped report'). split_and!; [done|lia|]. by rewrite Hc'.
Qed.

Context (scoreboard_json : bytes -> option RawScoreboard) (parse_rfc3339 : text -> option Z) (format_ymd : Z -> text).
Context (is_alphanumeric : Z -> bool) (lowercase_char : Z -> text) (world : nat -> Exchange * Exchange).

Lemma enrich_plans_length config client only now settings index plans :
  zlen (snd (enrich_plans trunc_to_hour format_local scoreboard_json parse_rfc3339 format_ymd is_alphanumeric lowercase_char
               world config client only now settings index plans)) = zlen plans.
Proof.
  revert client index. induction plans as [|plan plans IH]; intros client index; cbn [enrich_plans]; [done|].
  destruct (if _ && _ then _ else _) as [client1 plan1]. specialize (IH client1 (S index)).
  destruct (enrich_plans _ _ _ _ _ _ _ _ _ _ _ _ _ _ _) as [client2 plans2]. cbn in *. rewrite !zlen_cons. lia.
Qed.

(** A scan that ends accounts for every channel it looked at: one count for
    each channel of the candidates, every matched channel is either scheduled
    or skipped, and the scheduled ones are the written plans that are not
    hidden; the report keeps at most [MAX_EVENT_SCAN_SKIPS] reasons. *)
Theorem scan_accounts templates region candidates only now settings client result :
  zlen candidates <= u64_max ->
  run_event_scan to_lowercase tz_utc provider_label trunc_to_hour format_local scoreboard_json parse_rfc3339 format_ymd
    is_alphanumeric lowercase_char world templates region candidates only now settings client = Some result ->
  let report := sr_report result in
  channels_scanned report = zlen (group_rows candidates) /\
  rp_matched report = rp_scheduled report + rp_skipped report /\
  rp_scheduled report
    = zlen (List.filter (fun plan => negb (bool_decide (pe_state plan = Hidden))) (sr_written result)) /\
  zlen (rp_skips report) <= MAX_EVENT_SCAN_SKIPS.
Proof.
  intros Hmax. unfold run_event_scan.
  destruct (compile_templates_counts (stable_sort template_lt templates) empty_report ltac:(done)) as [Hc Hb].
  destruct (compile_templates _ _) as [compiled report0]. cbn [snd] in Hc, Hb.
  destruct (scan_channels _ _ _ _ _ _ _ _ _ _) as [[planned report1]|] eqn:Es; [|done]. cbn [mbind option_bind].
  apply scan_channels_scanned in Es as (Hb1 & s & Hs & Hle & Hc1); [|done|done|done].
  pose proof (group_rows_length candidates) as Hlen.
  set (enriched := match client with Some _ => _ | None => _ end).
  assert (zlen (snd enriched) = zlen planned) as Hplans.
  { unfold enriched. destruct client as [[config st]|]; [|done].
    pose proof (enrich_plans_length config st only now settings 0 planned) as Hl.
    by destruct (enrich_plans _ _ _ _ _ _ _ _ _ _ _ _ _ _ _). }
  destruct enriched as [client' plans]. cbn [snd] in Hplans. intros [= <-].
  destruct (count_plans_counts only plans report1 _ 0 s Hb1 Hc1 ltac:(lia) Hs ltac:(lia) ltac:(lia)) as (s' & Hb' & Hc').
  cbn [sr_report sr_written channels_scanned rp_matched rp_scheduled rp_skipped rp_skips].
  set (final := fold_left _ _ _) in *. set (keep := fun _ : EventScanSkip => _). injection Hc' as -> -> -> ->. split_and!; [done|lia| |].
  - rewrite filter_filter_and. done.
  - unfold skips_bounded in Hb'. pose proof (List.filter_length_le keep (rp_skips final)). unfold zlen in *. lia.
Qed.
End Report.
