(* ===== verification/Auth.v ===== *)
(** * Authentication

    [crates/api/src/auth.rs]: browser sessions, CSRF tokens, operator API tokens
    and the bootstrap bearer token.  The digest is SHA-256, the password check
    is Argon2, a random token is an input of the step that draws it; all are
    parameters or inputs.  The three locks are taken one after the other and
    never together, so each operation is a step on the state.  A header value
    that is not visible ASCII has no text.  [Instant] and [DateTime] are both
    nanoseconds, of two clocks. *)
From Stdlib Require Import ZArith Lia.
From stdpp Require Import base numbers option strings.
From stdpp Require Import list gmap.
From S2P Require Import Prelude Text Hls HlsSpec.
Open Scope Z_scope.

(** ** Constants *)

Definition SESSION_COOKIE : text := str "iptv_session".
Definition CSRF_COOKIE : text := str "iptv_csrf".
Definition CSRF_HEADER : text := str "x-csrf-token".
Definition SESSION_TTL : Z := 12 * 3600 * SECOND.
Definition LOGIN_CSRF_TTL : Z := 30 * 60 * SECOND.
Definition MAX_LOGIN_CSRF_TOKENS : Z := 4096.
Definition ADMIN_USERNAME : text := str "operator".
Definition READ_SCOPE : text := str "read".
Definition CONTROL_SCOPE : text := str "control".
Definition OUTPUT_SCOPE : text := str "output".
Definition ADMIN_SCOPE : text := str "admin".

Arguments SESSION_COOKIE : simpl never.
Arguments CSRF_COOKIE : simpl never.
Arguments CSRF_HEADER : simpl never.
Arguments ADMIN_USERNAME : simpl never.

(** ** Headers *)

(** Names in lower case; a value that [to_str] refuses is [None]. *)
Abbreviation HeaderMap := (list (text * option text)).

Definition header_get (headers : HeaderMap) (name : text) : option text :=
  mjoin (snd <$> List.find (fun h => bool_decide (fst h = name)) headers).
Definition header_get_all (headers : HeaderMap) (name : text) : list text :=
  omap snd (List.filter (fun h => bool_decide (fst h = name)) headers).

Definition bearer_token (headers : HeaderMap) : option text :=
  value ← header_get headers (str "authorization");
  strip_prefix (str "Bearer ") value.

Definition cookie (headers : HeaderMap) (name : text) : option text :=
  snd <$>
  List.find (fun pair => bool_decide (fst pair = name))
    (omap (fun pair => split_once 0x3d (trim pair))
       (concat (List.map (split_chars (fun c => c =? 0x3b)) (header_get_all headers (str "cookie"))))).

(** ** Accounts *)

Record SessionUser := mkSessionUser {
  su_id : text;
  su_username : text;
  su_display_name : text;
  su_scopes : list text
}.
Definition built_in_operator : SessionUser :=
  mkSessionUser (str "operator-1") ADMIN_USERNAME (str "Relay operator") [ADMIN_SCOPE].

Record StoredUserCredential := mkStoredUserCredential { uc_user : SessionUser; uc_password_hash : text }.

Definition role_scopes (role : text) : option (list text) :=
  if bool_decide (role = str "admin") then Some [ADMIN_SCOPE]
  else if bool_decide (role = str "operator") then Some [CONTROL_SCOPE; OUTPUT_SCOPE]
  else if bool_decide (role = str "viewer") then Some [READ_SCOPE; OUTPUT_SCOPE]
  else None.

Definition scope_satisfied (scopes : list text) (required : text) : bool :=
  existsb
    (fun scope =>
       bool_decide (scope = ADMIN_SCOPE) || bool_decide (scope = required) ||
       (bool_decide (required = READ_SCOPE) && bool_decide (scope = CONTROL_SCOPE)))
    scopes.
(** [required_scope.is_none_or(...)] *)
Definition scope_allowed (scopes : list text) (required : option text) : bool :=
  match required with Some required => scope_satisfied scopes required | None => true end.

(** ** State *)

Record SessionRecord := mkSessionRecord { ss_csrf_hash : bytes; ss_expires_at : Z; ss_user : SessionUser }.
Record OperatorTokenRecord := mkOperatorTokenRecord {
  ot_id : Z;
  ot_token_hash : bytes;
  ot_scopes : list text;
  ot_expires_at : option Z
}.

Record AuthConfig := mkAuthConfig {
  ac_password_hash : text;
  ac_bearer_hash : bytes;
  ac_secure_cookies : bool;
  ac_dev_auth_disabled : bool
}.

Record AuthState := mkAuthState {
  au_bootstrap_bearer_enabled : bool;
  au_sessions : gmap bytes SessionRecord;
  au_login_csrf_tokens : gmap bytes Z;
  au_operator_tokens : gmap bytes OperatorTokenRecord
}.
Definition auth_new : AuthState := mkAuthState true ∅ ∅ ∅.

Definition set_sessions (st : AuthState) (sessions : gmap bytes SessionRecord) : AuthState :=
  mkAuthState (au_bootstrap_bearer_enabled st) sessions (au_login_csrf_tokens st) (au_operator_tokens st).
Definition set_login_tokens (st : AuthState) (tokens : gmap bytes Z) : AuthState :=
  mkAuthState (au_bootstrap_bearer_enabled st) (au_sessions st) tokens (au_operator_tokens st).
Definition set_operator_tokens (st : AuthState) (tokens : gmap bytes OperatorTokenRecord) : AuthState :=
  mkAuthState (au_bootstrap_bearer_enabled st) (au_sessions st) (au_login_csrf_tokens st) tokens.

Definition live_sessions (now : Z) (sessions : gmap bytes SessionRecord) : gmap bytes SessionRecord :=
  filter (fun '(_, session) => now < ss_expires_at session) sessions.
Definition live_login_tokens (now : Z) (tokens : gmap bytes Z) : gmap bytes Z :=
  filter (fun '(_, expires_at) => now < expires_at) tokens.
Definition unexpired (now : Z) (record : OperatorTokenRecord) : bool :=
  match ot_expires_at record with Some expires_at => now <? expires_at | None => true end.
Definition live_operator_tokens (now : Z) (tokens : gmap bytes OperatorTokenRecord) : gmap bytes OperatorTokenRecord :=
  filter (fun '(_, record) => unexpired now record = true) tokens.

(** ** Cookies *)

Definition secure_attribute (config : AuthConfig) : text := if ac_secure_cookies config then str "; Secure" else [].
(** The cookies as texts; [seconds] is the decimal of the lifetime. *)
Definition session_cookie (config : AuthConfig) (token : text) : text :=
  SESSION_COOKIE ++ str "=" ++ token ++ str "; Path=/; HttpOnly; SameSite=Strict; Max-Age=43200" ++ secure_attribute config.
Definition csrf_cookie (config : AuthConfig) (token seconds : text) : text :=
  CSRF_COOKIE ++ str "=" ++ token ++ str "; Path=/; SameSite=Strict; Max-Age=" ++ seconds ++ secure_attribute config.
Definition clear_cookies (config : AuthConfig) : list text :=
  [SESSION_COOKIE ++ str "=; Path=/; HttpOnly; SameSite=Strict; Max-Age=0" ++ secure_attribute config;
   CSRF_COOKIE ++ str "=; Path=/; SameSite=Strict; Max-Age=0" ++ secure_attribute config].

Inductive CsrfBinding := LoginBinding (token : bytes) | SessionBinding (session : bytes).
Inductive LoginError := CsrfValidationFailed | InvalidCredentials | Unavailable.
Inductive Authorization := ByBearer | BySession | ByOperatorToken | ByDevelopment.

Record VerifiedLogin := mkVerifiedLogin { vl_csrf_binding : CsrfBinding; vl_user : SessionUser }.
Record IssuedSession := mkIssuedSession { is_session_cookie : text; is_csrf_cookie : text }.

Section Auth.
(** [Sha256::digest]; [PasswordHash::new] and [verify_password]: does the
    password fit the hash? *)
Context (sha256 : bytes -> bytes) (password_fits : text -> text -> bool).
Definition hash (value : text) : bytes := sha256 (to_utf8 value).

(** ** CSRF *)

(** [min_by_key]: a key with the least value, the first in the order of the
    map. *)
Definition oldest_token (tokens : gmap bytes Z) : option bytes :=
  fst <$>
  fold_left (fun best entry => match best with
                               | Some b => if snd entry <? snd b then Some entry else best
                               | None => Some entry
                               end) (map_to_list tokens) None.

(** [ensure_csrf_cookie]: [random] is the token drawn, if the system has one. *)
Definition ensure_csrf_cookie (config : AuthConfig) (st : AuthState) (headers : HeaderMap) (now : Z)
  (random : option text) : AuthState * option text :=
  let cookie_csrf := cookie headers CSRF_COOKIE in
  let st := set_sessions st (live_sessions now (au_sessions st)) in
  match
    (session_token ← cookie headers SESSION_COOKIE;
     session ← au_sessions st !! hash session_token;
     Some (hash session_token, session))
  with
  | Some (key, session) =>
      if match cookie_csrf with Some value => constant_time_eq (hash value) (ss_csrf_hash session) | None => false end
      then (st, None)
      else
        match random with
        | None => (st, None)
        | Some csrf_token =>
            (set_sessions st
               (<[key := mkSessionRecord (hash csrf_token) (ss_expires_at session) (ss_user session)]> (au_sessions st)),
             Some (csrf_cookie config csrf_token (str "43200")))
        end
  | None =>
      let tokens := live_login_tokens now (au_login_csrf_tokens st) in
      if match cookie_csrf with Some value => bool_decide (is_Some (tokens !! hash value)) | None => false end
      then (set_login_tokens st tokens, None)
      else
        let tokens :=
          if MAX_LOGIN_CSRF_TOKENS <=? Z.of_nat (size tokens)
          then match oldest_token tokens with Some oldest => delete oldest tokens | None => tokens end
          else tokens in
        match random with
        | None => (set_login_tokens st tokens, None)
        | Some csrf_token =>
            (set_login_tokens st (<[hash csrf_token := now + LOGIN_CSRF_TTL]> tokens),
             Some (csrf_cookie config csrf_token (str "1800")))
        end
  end.

(** [csrf_binding] *)
Definition csrf_binding (st : AuthState) (headers : HeaderMap) (now : Z) : AuthState * option CsrfBinding :=
  match cookie headers CSRF_COOKIE, header_get headers CSRF_HEADER with
  | Some cookie_token, Some header_token =>
      let csrf_hash := hash header_token in
      if negb (constant_time_eq csrf_hash (hash cookie_token)) then (st, None)
      else
        let st := set_sessions st (live_sessions now (au_sessions st)) in
        match
          (session_token ← cookie headers SESSION_COOKIE;
           session ← au_sessions st !! hash session_token;
           Some (hash session_token, session))
        with
        | Some (session_hash, session) =>
            (st, if constant_time_eq csrf_hash (ss_csrf_hash session) then Some (SessionBinding session_hash) else None)
        | None =>
            let tokens := live_login_tokens now (au_login_csrf_tokens st) in
            (set_login_tokens st tokens,
             if bool_decide (is_Some (tokens !! csrf_hash)) then Some (LoginBinding csrf_hash) else None)
        end
  | _, _ => (st, None)
  end.

(** ** Sign-in *)

(** [verify_login]; [joined] is whether the blocking task ran to its end. *)
Definition verify_login (config : AuthConfig) (st : AuthState) (headers : HeaderMap) (username password : text)
  (stored : option StoredUserCredential) (now : Z) (joined : bool) : AuthState * result VerifiedLogin LoginError :=
  match csrf_binding st headers now with
  | (st, None) => (st, Err CsrfValidationFailed)
  | (st, Some binding) =>
      (st,
       if bool_decide (password = []) || (1024 <? utf8_len password) || (128 <? utf8_len username)
       then Err InvalidCredentials
       else
         let built_in := constant_time_eq (hash username) (hash ADMIN_USERNAME) in
         let candidate :=
           if built_in then None
           else credential ← stored; if bool_decide (su_username (uc_user credential) = username) then Some credential else None in
         let '(expected, user) :=
           match candidate with
           | Some credential => (uc_password_hash credential, Some (uc_user credential))
           | None => (ac_password_hash config, if built_in then Some built_in_operator else None)
           end in
         if negb joined then Err Unavailable
         else
           match user with
           | Some user => if password_fits expected password then Ok (mkVerifiedLogin binding user) else Err InvalidCredentials
           | None => Err InvalidCredentials
           end)
  end.

(** [session_user] *)
Definition session_user (st : AuthState) (headers : HeaderMap) (now : Z) : option SessionUser :=
  token ← cookie headers SESSION_COOKIE;
  session ← au_sessions st !! hash token;
  if now <? ss_expires_at session then Some (ss_user session) else None.

(** The state after a session is issued: the previous one of the binding goes,
    then the login token. *)
Definition issue_session (st : AuthState) (binding : option CsrfBinding) (user : SessionUser)
  (session_token csrf_token : text) (now : Z) : AuthState :=
  let sessions := match binding with Some (SessionBinding previous) => delete previous (au_sessions st) | _ => au_sessions st end in
  let sessions := <[hash session_token := mkSessionRecord (hash csrf_token) (now + SESSION_TTL) user]> sessions in
  let st := set_sessions st sessions in
  match binding with
  | Some (LoginBinding token) => set_login_tokens st (delete token (au_login_csrf_tokens st))
  | _ => st
  end.

Definition issued (config : AuthConfig) (session_token csrf_token : text) : IssuedSession :=
  mkIssuedSession (session_cookie config session_token) (csrf_cookie config csrf_token (str "43200")).

(** [complete_login] *)
Definition complete_login (config : AuthConfig) (st : AuthState) (verified : VerifiedLogin)
  (session_token csrf_token : option text) (now : Z) : AuthState * result IssuedSession LoginError :=
  match session_token, csrf_token with
  | Some session_token, Some csrf_token =>
      (issue_session st (Some (vl_csrf_binding verified)) (vl_user verified) session_token csrf_token now,
       Ok (issued config session_token csrf_token))
  | _, _ => (st, Err Unavailable)
  end.

(** [complete_oidc_login] after the callback of the provider succeeded. *)
Definition complete_oidc_login (config : AuthConfig) (st : AuthState) (session_token csrf_token : option text) (now : Z)
  : AuthState * option IssuedSession :=
  match session_token, csrf_token with
  | Some session_token, Some csrf_token =>
      (issue_session st None built_in_operator session_token csrf_token now, Some (issued config session_token csrf_token))
  | _, _ => (st, None)
  end.

(** ** Authorization *)

(** The check of the operator tokens; [utc] is the time of day. *)
Definition authorize_token (st : AuthState) (token : text) (required : option text) (utc : Z) : AuthState * bool :=
  let token_hash := hash token in
  let tokens := live_operator_tokens utc (au_operator_tokens st) in
  (set_operator_tokens st tokens,
   match tokens !! token_hash with
   | Some record => constant_time_eq token_hash (ot_token_hash record) && scope_allowed (ot_scopes record) required
   | None => false
   end).

(** The check of the session. *)
Definition authorize_session (st : AuthState) (headers : HeaderMap) (require_csrf : bool) (required : option text) (now : Z)
  : AuthState * option Authorization :=
  match cookie headers SESSION_COOKIE with
  | None => (st, None)
  | Some token =>
      let st := set_sessions st (live_sessions now (au_sessions st)) in
      (st,
       session ← au_sessions st !! hash token;
       if negb (scope_allowed (su_scopes (ss_user session)) required) then None
       else if require_csrf then
         header_csrf ← header_get headers CSRF_HEADER;
         cookie_csrf ← cookie headers CSRF_COOKIE;
         if negb (constant_time_eq (hash header_csrf) (hash cookie_csrf)) ||
            negb (constant_time_eq (hash header_csrf) (ss_csrf_hash session))
         then None else Some BySession
       else Some BySession)
  end.

(** [authorize_with_scope] *)
Definition authorize_with_scope (config : AuthConfig) (st : AuthState) (headers : HeaderMap) (require_csrf : bool)
  (required : option text) (now utc : Z) : AuthState * option Authorization :=
  if ac_dev_auth_disabled config then (st, Some ByDevelopment)
  else if au_bootstrap_bearer_enabled st &&
          match bearer_token headers with
          | Some token => constant_time_eq (hash token) (ac_bearer_hash config)
          | None => false
          end
  then (st, Some ByBearer)
  else
    let '(st, by_token) :=
      match bearer_token headers with
      | Some token => authorize_token st token required utc
      | None => (st, false)
      end in
    if by_token : bool then (st, Some ByOperatorToken) else authorize_session st headers require_csrf required now.

(** ** Tokens and sign-out *)

Definition load_operator_tokens (st : AuthState) (records : list OperatorTokenRecord) : AuthState :=
  set_operator_tokens st (fold_left (fun tokens record => <[ot_token_hash record := record]> tokens) records ∅).
Definition add_operator_token (st : AuthState) (record : OperatorTokenRecord) : AuthState :=
  set_operator_tokens st (<[ot_token_hash record := record]> (au_operator_tokens st)).
Definition revoke_operator_token (st : AuthState) (id : Z) : AuthState :=
  set_operator_tokens st (filter (fun '(_, record) => ot_id record <> id) (au_operator_tokens st)).
Definition logout (st : AuthState) (headers : HeaderMap) : AuthState :=
  match cookie headers SESSION_COOKIE with
  | Some token => set_sessions st (delete (hash token) (au_sessions st))
  | None => st
  end.
Definition disable_bootstrap_bearer (st : AuthState) : AuthState :=
  mkAuthState false (au_sessions st) (au_login_csrf_tokens st) (au_operator_tokens st).

(** The actor of a change: the token's id, or the name of the session's user. *)
Definition operator_token_actor (st : AuthState) (headers : HeaderMap) (now : Z) : Z + text :=
  match (token ← bearer_token headers; au_operator_tokens st !! hash token) with
  | Some record => inl (ot_id record)
  | None => inr (match session_user st headers now with Some user => su_username user | None => ADMIN_USERNAME end)
  end.

(** ** Requests in the order of the locks *)

Inductive AuthOp :=
| OpEnsureCsrf (headers : HeaderMap) (now : Z) (random : option text)
| OpVerify (headers : HeaderMap) (now : Z)
| OpIssue (binding : option CsrfBinding) (user : SessionUser) (session_token csrf_token : text) (now : Z)
| OpAuthorize (headers : HeaderMap) (require_csrf : bool) (required : option text) (now utc : Z)
| OpLoadTokens (records : list OperatorTokenRecord)
| OpAddToken (record : OperatorTokenRecord)
| OpRevokeToken (id : Z)
| OpLogout (headers : HeaderMap)
| OpDisableBootstrap.

Definition auth_op (config : AuthConfig) (st : AuthState) (op : AuthOp) : AuthState :=
  match op with
  | OpEnsureCsrf headers now random => fst (ensure_csrf_cookie config st headers now random)
  | OpVerify headers now => fst (csrf_binding st headers now)
  | OpIssue binding user session_token csrf_token now => issue_session st binding user session_token csrf_token now
  | OpAuthorize headers require_csrf required now utc =>
      fst (authorize_with_scope config st headers require_csrf required now utc)
  | OpLoadTokens records => load_operator_tokens st records
  | OpAddToken record => add_operator_token st record
  | OpRevokeToken id => revoke_operator_token st id
  | OpLogout headers => logout st headers
  | OpDisableBootstrap => disable_bootstrap_bearer st
  end.
Definition auth_run (config : AuthConfig) (st : AuthState) (ops : list AuthOp) : AuthState := fold_left (auth_op config) ops st.
End Auth.
