(* ===== verification/AuthSpec.v ===== *)
(** * What authentication guarantees

    Over any sequence of requests from the start of the relay: who gets in, with
    which session, token and scope, and for how long. *)
From Stdlib Require Import ZArith Lia.
From stdpp Require Import base numbers option strings.
From stdpp Require Import list gmap.
From S2P Require Import Prelude Text Hls HlsSpec Auth.
Open Scope Z_scope.

Section AuthSpec.
Context (sha256 : bytes -> bytes) (config : AuthConfig).
(** A digest has 32 bytes. *)
Context (sha256_length : forall b, length (sha256 b) = 32%nat).
Abbreviation hash := (Auth.hash sha256).
Abbreviation auth_op := (Auth.auth_op sha256 config).
Abbreviation auth_run := (Auth.auth_run sha256 config).
Abbreviation authorize_with_scope := (Auth.authorize_with_scope sha256 config).

Lemma hash_eq a b : constant_time_eq (hash a) (hash b) = true <-> hash a = hash b.
Proof. apply constant_time_eq_spec. unfold Auth.hash. by rewrite !sha256_length. Qed.

Lemma auth_run_snoc st ops op : auth_run st (ops ++ [op]) = auth_op (auth_run st ops) op.
Proof using. unfold Auth.auth_run. by rewrite fold_left_app. Qed.

(** ** Sessions *)

Definition session_key (headers : list (text * option text)) : option bytes := hash <$> cookie headers SESSION_COOKIE.

(** Operations that end the session of a key, or replace it. *)
Definition ends_session (key : bytes) (op : AuthOp) : Prop :=
  match op with
  | OpLogout headers => session_key headers = Some key
  | OpIssue binding _ session_token _ _ => binding = Some (SessionBinding key) \/ hash session_token = key
  | _ => False
  end.

(** The CSRF token that a request gives to the session of a key, which has
    [csrf]: a request of the session whose CSRF cookie is not that of the session
    gets a new one, which is drawn. *)
Definition gives (key : bytes) (csrf : text) (op : AuthOp) : option text :=
  match op with
  | OpEnsureCsrf headers _ random =>
      if bool_decide (session_key headers = Some key) && negb (bool_decide (hash <$> cookie headers CSRF_COOKIE = Some (hash csrf)))
      then random else None
  | _ => None
  end.
(** The token that was given last, from [csrf] on. *)
Definition last_given (key : bytes) (csrf : text) (ops : list AuthOp) : text :=
  fold_left (fun csrf op => default csrf (gives key csrf op)) ops csrf.
Lemma last_given_snoc key csrf ops op :
  last_given key csrf (ops ++ [op]) = default (last_given key csrf ops) (gives key (last_given key csrf ops) op).
Proof using. unfold last_given. by rewrite fold_left_app. Qed.

(** The session with a token. *)
Definition has_csrf (csrf : text) (rec : SessionRecord) : Prop := ss_csrf_hash rec = hash csrf.

Lemma live_sessions_lookup now sessions key rec :
  live_sessions now sessions !! key = Some rec <-> sessions !! key = Some rec /\ now < ss_expires_at rec.
Proof using. unfold live_sessions. by rewrite map_lookup_filter_Some. Qed.

Lemma authorize_sessions st headers require required now utc key rec :
  au_sessions (fst (authorize_with_scope st headers require required now utc)) !! key = Some rec ->
  au_sessions st !! key = Some rec.
Proof using.
  unfold Auth.authorize_with_scope. destruct (ac_dev_auth_disabled config); [done|]. destruct (_ && _); [done|].
  set (step := match bearer_token headers with Some _ => _ | None => _ end).
  assert (au_sessions (fst step) = au_sessions st) as Hsame by (unfold step; by destruct (bearer_token headers)).
  destruct step as [st1 []]; cbn [fst] in *; [by rewrite Hsame|]. unfold authorize_session.
  destruct (cookie headers SESSION_COOKIE); cbn; [|by rewrite Hsame]. rewrite live_sessions_lookup, Hsame. tauto.
Qed.

Lemma csrf_binding_sessions st headers now key rec :
  au_sessions (fst (csrf_binding sha256 st headers now)) !! key = Some rec -> au_sessions st !! key = Some rec.
Proof using.
  unfold csrf_binding. destruct (cookie headers CSRF_COOKIE), (header_get headers CSRF_HEADER); try done.
  destruct (negb _); [done|]. destruct (session_token ← cookie headers SESSION_COOKIE; _) as [[k r]|]; cbn;
    rewrite live_sessions_lookup; tauto.
Qed.

(** A token that was given is in the answer of the request, and in the session. *)
Lemma ensure_gives st headers now random csrf key rec :
  session_key headers = Some key -> live_sessions now (au_sessions st) !! key = Some rec -> has_csrf csrf rec ->
  let '(st', answer) := ensure_csrf_cookie sha256 config st headers now random in
  let given := gives key csrf (OpEnsureCsrf headers now random) in
  answer = (fun token => csrf_cookie config token (str "43200")) <$> given /\
  au_sessions st' = match given with
    | Some token => <[key := mkSessionRecord (hash token) (ss_expires_at rec) (ss_user rec)]> (live_sessions now (au_sessions st))
    | None => live_sessions now (au_sessions st)
    end.
Proof using sha256_length.
  intros Hkey Hlive Hcsrf. unfold ensure_csrf_cookie, gives. rewrite (bool_decide_true _ Hkey). cbn [andb].
  unfold session_key in Hkey. destruct (cookie headers SESSION_COOKIE) as [token|]; [|done]. injection Hkey as <-.
  cbn [mbind option_bind au_sessions set_sessions]. rewrite Hlive. cbn [mbind option_bind].
  assert (match cookie headers CSRF_COOKIE with Some value => constant_time_eq (hash value) (ss_csrf_hash rec) | None => false end =
    bool_decide (hash <$> cookie headers CSRF_COOKIE = Some (hash csrf))) as ->.
  { destruct (cookie headers CSRF_COOKIE) as [value|]; [|done]. rewrite Hcsrf. apply eq_true_iff_eq.
    rewrite hash_eq, bool_decide_eq_true. cbn. split; [by intros ->|by intros [= ->]]. }
  destruct (bool_decide _); cbn [negb]; [done|]. by destruct random.
Qed.
(** A request without a session leaves the sessions that have not expired. *)
Lemma ensure_without st headers now random :
  (forall key, session_key headers = Some key -> live_sessions now (au_sessions st) !! key = None) ->
  au_sessions (fst (ensure_csrf_cookie sha256 config st headers now random)) = live_sessions now (au_sessions st).
Proof using.
  intros Hnone. unfold ensure_csrf_cookie. cbn [au_sessions set_sessions].
  assert ((session_token ← cookie headers SESSION_COOKIE; session ← live_sessions now (au_sessions st) !! hash session_token;
           Some (hash session_token, session)) = None) as ->.
  { unfold session_key in Hnone. destruct (cookie headers SESSION_COOKIE) as [token|]; [|done]. cbn. by rewrite (Hnone _ eq_refl). }
  destruct (match cookie headers CSRF_COOKIE with Some _ => _ | None => _ end); [done|]. by destruct random.
Qed.

(** What one operation does to the sessions: it keeps a session with its token
    or the one it gives, or issues it. *)
Definition kept_session (key : bytes) (op : AuthOp) (old rec : SessionRecord) : Prop :=
  ~ ends_session key op /\ ss_expires_at rec = ss_expires_at old /\ ss_user rec = ss_user old /\
  forall csrf, has_csrf csrf old -> has_csrf (default csrf (gives key csrf op)) rec.

Lemma kept_session_refl key op rec : ~ ends_session key op -> (forall csrf, gives key csrf op = None) -> kept_session key op rec rec.
Proof using. intros Hend Hno. split_and!; try done. intros csrf Hc. by rewrite Hno. Qed.

(** Every session has a token. *)
Definition sessions_tokened (st : AuthState) : Prop := forall key rec, au_sessions st !! key = Some rec -> exists csrf, has_csrf csrf rec.

Lemma ensure_sessions st headers now random key rec :
  sessions_tokened st -> au_sessions (fst (ensure_csrf_cookie sha256 config st headers now random)) !! key = Some rec ->
  exists old, au_sessions st !! key = Some old /\ kept_session key (OpEnsureCsrf headers now random) old rec.
Proof using sha256_length.
  intros Htok Hk.
  assert (forall k, session_key headers = Some k -> k <> key -> forall csrf, gives key csrf (OpEnsureCsrf headers now random) = None) as Hother
    by (intros k Hs Hne csrf; unfold gives; rewrite Hs; by rewrite bool_decide_false by congruence).
  assert (session_key headers = None -> forall csrf, gives key csrf (OpEnsureCsrf headers now random) = None) as Hnone
    by (intros Hs csrf; unfold gives; by rewrite Hs).
  destruct (session_key headers) as [k|] eqn:Es.
  2: { rewrite ensure_without in Hk by (by rewrite Es). apply live_sessions_lookup in Hk as [Hk _]. exists rec. split; [done|].
       apply kept_session_refl; [by intros []|auto]. }
  destruct (live_sessions now (au_sessions st) !! k) as [session|] eqn:El.
  2: { rewrite ensure_without in Hk by (rewrite Es; by intros ? [= <-]). destruct (decide (k = key)) as [->|Hne]; [congruence|].
       apply live_sessions_lookup in Hk as [Hk _]. exists rec. split; [done|]. apply kept_session_refl; [by intros []|by eapply Hother]. }
  pose proof (proj1 (proj1 (live_sessions_lookup _ _ _ _) El)) as Est. destruct (Htok _ _ Est) as [csrf Hcsrf].
  pose proof (ensure_gives st headers now random csrf k session Es El Hcsrf) as Hg.
  destruct (ensure_csrf_cookie _ _ _ _ _ _) as [st' answer]. destruct Hg as [_ Hg]. cbn [fst] in Hk.
  destruct (decide (k = key)) as [->|Hne].
  - exists session. split; [done|]. split_and!; [by intros []|..].
    1,2: rewrite Hg in Hk; destruct (gives _ _ _); [rewrite lookup_insert_eq in Hk|rewrite El in Hk]; by injection Hk as <-.
    intros csrf' Hcsrf'. assert (gives key csrf' (OpEnsureCsrf headers now random) = gives key csrf (OpEnsureCsrf headers now random)) as ->
      by (unfold gives, has_csrf in *; by rewrite <- Hcsrf, <- Hcsrf').
    rewrite Hg in Hk. destruct (gives _ _ _) as [token|]; [rewrite lookup_insert_eq in Hk|rewrite El in Hk]; by injection Hk as <-.
  - assert (live_sessions now (au_sessions st) !! key = Some rec) as Hlive
      by (rewrite Hg in Hk; destruct (gives _ _ _); [by rewrite lookup_insert_ne in Hk|done]).
    apply live_sessions_lookup in Hlive as [Hlive _]. exists rec. split; [done|]. apply kept_session_refl; [by intros []|by eapply Hother].
Qed.

Lemma auth_op_sessions st op key rec :
  sessions_tokened st -> au_sessions (auth_op st op) !! key = Some rec ->
  (exists old, au_sessions st !! key = Some old /\ kept_session key op old rec) \/
  (exists binding session_token csrf t, op = OpIssue binding (ss_user rec) session_token csrf t /\
     hash session_token = key /\ rec = mkSessionRecord (hash csrf) (t + SESSION_TTL) (ss_user rec)).
Proof using sha256_length.
  intros Htok.
  destruct op as [headers now random|headers now|binding user session_token csrf t|headers req sc now utc|records|record|id|headers|];
    cbn [Auth.auth_op]; try (intros Hk; left; exists rec; split; [exact Hk|by apply kept_session_refl; [intros []|]]).
  - intros Hk. left. by apply ensure_sessions.
  - intros Hk. left. exists rec. split; [by eapply csrf_binding_sessions|by apply kept_session_refl; [intros []|]].
  - unfold issue_session. intros Hk. destruct (decide (hash session_token = key)) as [He|Hne].
    + right. assert (rec = mkSessionRecord (hash csrf) (t + SESSION_TTL) user) as ->.
      { destruct binding as [[]|]; cbn in Hk; rewrite He, lookup_insert_eq in Hk; by injection Hk as <-. }
      by exists binding, session_token, csrf, t.
    + left. exists rec. destruct binding as [[token|previous]|]; cbn in Hk; rewrite lookup_insert_ne in Hk by done.
      * split; [done|]. apply kept_session_refl; [|done]. by intros [?|?].
      * apply lookup_delete_Some in Hk as [Hp Hk]. split; [done|]. apply kept_session_refl; [|done]. intros [[= ->]|?]; done.
      * split; [done|]. apply kept_session_refl; [|done]. by intros [?|?].
  - intros Hk. left. exists rec. split; [by eapply authorize_sessions|by apply kept_session_refl; [intros []|]].
  - unfold logout. intros Hk. left. exists rec.
    assert (au_sessions st !! key = Some rec /\ ~ ends_session key (OpLogout headers)) as [? ?]; [|by split; [|apply kept_session_refl]].
    cbn [ends_session]. unfold session_key.
    destruct (cookie headers SESSION_COOKIE) as [token|]; cbn [au_sessions set_sessions fmap option_fmap option_map] in Hk |- *.
    + apply lookup_delete_Some in Hk as [Hne Hk]. split; [done|]. congruence.
    + split; [done|discriminate].
Qed.

Lemma runs_tokened ops : sessions_tokened (auth_run auth_new ops).
Proof using sha256_length.
  induction ops as [|op ops IH] using rev_ind; [done|]. intros key rec. rewrite auth_run_snoc.
  intros [(old & Hold & _ & _ & _ & Hc)|(binding & session_token & csrf & t & _ & _ & ->)]%auth_op_sessions; [|by exists csrf|done].
  destruct (IH key old Hold) as [csrf Hcsrf]. eauto.
Qed.

(** Where a session comes from: a sign-in that nothing ended since, with the
    CSRF token that was given to it last. *)
Definition session_from (ops : list AuthOp) (key : bytes) (rec : SessionRecord) : Prop :=
  exists before binding session_token csrf t after,
    ops = before ++ OpIssue binding (ss_user rec) session_token csrf t :: after /\ hash session_token = key /\
    ss_expires_at rec = t + SESSION_TTL /\ Forall (fun op => ~ ends_session key op) after /\
    has_csrf (last_given key csrf after) rec.

Lemma sessions_issued ops key rec : au_sessions (auth_run auth_new ops) !! key = Some rec -> session_from ops key rec.
Proof using sha256_length.
  revert rec. induction ops as [|op ops IH] using rev_ind; intros rec; [done|]. rewrite auth_run_snoc.
  intros [(old & Hold & Hno & He1 & Hu & Hcsrf)|(binding & session_token & csrf & t & -> & Hh & Hrec)]%auth_op_sessions;
    [| |apply runs_tokened].
  - destruct (IH old Hold) as (before & binding & token & csrf & t & after & -> & Hh & He & Hall & Hlast).
    exists before, binding, token, csrf, t, (after ++ [op]). rewrite <- app_assoc, Forall_app, Forall_singleton, last_given_snoc, Hu, He1.
    split_and!; try done. by apply Hcsrf.
  - exists ops, binding, session_token, csrf, t, []. rewrite Hrec. by split_and!.
Qed.

(** C39. A request gets in with a session only if a sign-in issued the token of its
    cookie less than twelve hours ago, and no sign-out and no later sign-in has
    ended that session; the account has the scope; and where CSRF is checked,
    the header has the digest of the token that was given to the session last,
    and so has the CSRF cookie.  A session is given a token by its sign-in, and
    a new one by each request for the CSRF cookie that does not bring the last;
    the tokens before are not valid any more. *)
Theorem session_authorized ops headers require required now utc :
  snd (authorize_with_scope (auth_run auth_new ops) headers require required now utc) = Some BySession ->
  exists token before binding user session_token csrf t after,
    cookie headers SESSION_COOKIE = Some token /\
    ops = before ++ OpIssue binding user session_token csrf t :: after /\ hash session_token = hash token /\
    now < t + SESSION_TTL /\ Forall (fun op => ~ ends_session (hash token) op) after /\
    scope_allowed (su_scopes user) required = true /\
    (require = true -> exists header_csrf cookie_csrf,
       header_get headers CSRF_HEADER = Some header_csrf /\ cookie headers CSRF_COOKIE = Some cookie_csrf /\
       hash header_csrf = hash cookie_csrf /\ hash header_csrf = hash (last_given (hash token) csrf after)).
Proof using sha256_length.
  unfold Auth.authorize_with_scope. destruct (ac_dev_auth_disabled config); [done|]. destruct (_ && _); [done|].
  set (st := auth_run auth_new ops). set (step := match bearer_token headers with Some _ => _ | None => _ end).
  assert (au_sessions (fst step) = au_sessions st) as Hsame by (unfold step; by destruct (bearer_token headers)).
  destruct step as [st1 []]; cbn [fst] in *; [done|]. unfold authorize_session.
  destruct (cookie headers SESSION_COOKIE) as [token|]; [|done]. cbn.
  destruct (live_sessions now (au_sessions st1) !! hash token) as [rec|] eqn:Es; [|done]. cbn.
  rewrite Hsame in Es. apply live_sessions_lookup in Es as [Es Hnow].
  destruct (sessions_issued ops _ _ Es) as (before & binding & session_token & csrf & t & after & Hops & Hh & He & Hall & Hl).
  destruct (scope_allowed _ required) eqn:Hscope; [|done]. cbn. intros Hres.
  exists token, before, binding, (ss_user rec), session_token, csrf, t, after. split_and!; try done; [lia|].
  intros ->. destruct (header_get headers CSRF_HEADER) as [header_csrf|]; [|done].
  destruct (cookie headers CSRF_COOKIE) as [cookie_csrf|]; [|done]. cbn in Hres. exists header_csrf, cookie_csrf.
  rewrite Hl in Hres.
  destruct (constant_time_eq (hash header_csrf) (hash cookie_csrf)) eqn:E1; [|done].
  destruct (constant_time_eq (hash header_csrf) (hash (last_given _ _ _))) eqn:E2; [|done].
  apply hash_eq in E1, E2. done.
Qed.

(** The clock of an operation, where it reads one to drop sessions. *)
Definition before_expiry (expires_at : Z) (op : AuthOp) : Prop :=
  match op with
  | OpEnsureCsrf _ now _ | OpVerify _ now | OpAuthorize _ _ _ now _ => now < expires_at
  | _ => True
  end.

Lemma live_sessions_keep (now : Z) (sessions : gmap bytes SessionRecord) (key : bytes) (rec : SessionRecord) :
  sessions !! key = Some rec -> now < ss_expires_at rec -> live_sessions now sessions !! key = Some rec.
Proof using. intros Hk Hn. by apply live_sessions_lookup. Qed.

Lemma auth_op_keeps_session st op key rec :
  au_sessions st !! key = Some rec -> ~ ends_session key op -> before_expiry (ss_expires_at rec) op ->
  exists rec', au_sessions (auth_op st op) !! key = Some rec' /\ ss_expires_at rec' = ss_expires_at rec /\
    ss_user rec' = ss_user rec.
Proof using.
  intros Hk Hend Ht.
  destruct op as [headers now random|headers now|binding user session_token csrf t|headers req sc now utc|records|record|id|headers|];
    cbn [Auth.auth_op before_expiry] in *; try (by exists rec).
  - pose proof (live_sessions_keep now _ _ _ Hk Ht) as Hl. unfold ensure_csrf_cookie. cbn [au_sessions set_sessions].
    destruct (session_token ← cookie headers SESSION_COOKIE; _) as [[k r]|] eqn:Es; cbn.
    2: { destruct (match cookie headers CSRF_COOKIE with Some _ => _ | None => _ end); [|destruct random]; by exists rec. }
    destruct (match cookie headers CSRF_COOKIE with Some _ => _ | None => _ end); [by exists rec|].
    destruct random as [csrf|]; [|by exists rec]. cbn. destruct (decide (k = key)) as [->|Hne].
    + rewrite lookup_insert_eq. eexists. split; [done|]. destruct (cookie headers SESSION_COOKIE) as [token|]; [|done]. cbn in Es.
      destruct (live_sessions now (au_sessions st) !! hash token) as [r'|] eqn:El; [|done]. cbn in Es. injection Es as <- <-.
      rewrite Hl in El. by injection El as <-.
    + rewrite lookup_insert_ne by done. by exists rec.
  - pose proof (live_sessions_keep now _ _ _ Hk Ht) as Hl. exists rec. split; [|done]. unfold csrf_binding.
    destruct (cookie headers CSRF_COOKIE), (header_get headers CSRF_HEADER); try done.
    destruct (negb _); [done|]. by destruct (session_token ← cookie headers SESSION_COOKIE; _) as [[k r]|].
  - exists rec. split; [|done]. unfold issue_session.
    assert (forall m : gmap bytes SessionRecord, m !! key = Some rec ->
      <[hash session_token := mkSessionRecord (hash csrf) (t + SESSION_TTL) user]> m !! key = Some rec) as Hins
      by (intros m Hm; rewrite lookup_insert_ne; [done|]; intros He; apply Hend; by right).
    destruct binding as [[token|previous]|]; cbn; apply Hins; try done. rewrite lookup_delete_ne; [done|].
    intros ->. apply Hend. by left.
  - pose proof (live_sessions_keep now _ _ _ Hk Ht) as Hl. exists rec. split; [|done]. unfold Auth.authorize_with_scope.
    destruct (ac_dev_auth_disabled config); [done|]. destruct (_ && _); [done|].
    set (step := match bearer_token headers with Some _ => _ | None => _ end).
    assert (au_sessions (fst step) = au_sessions st) as Hsame by (unfold step; by destruct (bearer_token headers)).
    destruct step as [st1 []]; cbn [fst] in *; [by rewrite Hsame|]. unfold authorize_session.
    destruct (cookie headers SESSION_COOKIE); cbn; by rewrite Hsame.
  - exists rec. split; [|done]. unfold logout. cbn [ends_session] in Hend. unfold session_key in Hend.
    destruct (cookie headers SESSION_COOKIE) as [token|]; [|done]. cbn. rewrite lookup_delete_ne; [done|]. intros He. apply Hend. by rewrite <- He.
Qed.

(** C40. A session lasts: from its sign-in until twelve hours later, whatever other
    requests come, a request with its cookie gets in for every scope of the
    account, unless a sign-out or a sign-in has ended it; where CSRF is checked,
    the request also has to bring the token given to the session last, in its
    header and its CSRF cookie.  It gets in by its session, unless the
    development bypass is on or an authorization header lets it in. *)
Theorem session_lasts ops binding user session_token csrf t others headers require required now utc :
  cookie headers SESSION_COOKIE = Some session_token ->
  Forall (fun op => ~ ends_session (hash session_token) op /\ before_expiry (t + SESSION_TTL) op) others ->
  now < t + SESSION_TTL -> scope_allowed (su_scopes user) required = true ->
  (require = true -> exists token, hash token = hash (last_given (hash session_token) csrf others) /\
     header_get headers CSRF_HEADER = Some token /\ cookie headers CSRF_COOKIE = Some token) ->
  let entered := snd (authorize_with_scope (auth_run auth_new (ops ++ OpIssue binding user session_token csrf t :: others)) headers
                        require required now utc) in
  is_Some entered /\ (ac_dev_auth_disabled config = false -> bearer_token headers = None -> entered = Some BySession).
Proof using sha256_length.
  intros Hcookie Hall Hnow Hscope Hcsrf.
  assert (exists rec, au_sessions (auth_run auth_new (ops ++ OpIssue binding user session_token csrf t :: others)) !! hash session_token
    = Some rec /\ ss_expires_at rec = t + SESSION_TTL /\ ss_user rec = user /\
    has_csrf (last_given (hash session_token) csrf others) rec) as (rec & Hrec & He & Hu & Hc).
  { clear Hcsrf. induction others as [|op others IH] using rev_ind.
    - rewrite auth_run_snoc. cbn [Auth.auth_op]. exists (mkSessionRecord (hash csrf) (t + SESSION_TTL) user). split; [|done].
      unfold issue_session. destruct binding as [[]|]; cbn; apply lookup_insert_eq.
    - apply Forall_app in Hall as [Hall Hop]. apply Forall_singleton in Hop as [Hend Hexp].
      destruct (IH Hall) as (rec & Hrec & He & Hu & Hc). rewrite app_comm_cons, app_assoc, auth_run_snoc.
      destruct (auth_op_keeps_session _ op _ rec Hrec Hend) as (rec' & Hrec' & He' & Hu'); [by rewrite He|].
      exists rec'. rewrite He', Hu', last_given_snoc. split_and!; try done.
      apply auth_op_sessions in Hrec' as [(old & Hold & _ & _ & _ & Hkept)|(? & token & ? & ? & -> & Hh & _)]; [| |apply runs_tokened].
      + rewrite Hrec in Hold. injection Hold as <-. by apply Hkept.
      + destruct Hend. by right. }
  assert (forall st1, au_sessions st1 = au_sessions (auth_run auth_new (ops ++ OpIssue binding user session_token csrf t :: others)) ->
    snd (authorize_session sha256 st1 headers require required now) = Some BySession) as Hsession.
  { intros st1 Hsame. unfold authorize_session. rewrite Hcookie, Hsame. cbn [snd au_sessions set_sessions mbind option_bind].
    rewrite (live_sessions_keep now _ _ _ Hrec) by lia. cbn [mbind option_bind]. rewrite Hu, Hscope. cbn [negb].
    destruct require; [|done]. destruct (Hcsrf eq_refl) as (token & Ht & -> & ->). cbn [mbind option_bind]. rewrite Hc.
    by rewrite (proj2 (hash_eq _ _) Ht), (proj2 (hash_eq _ _) eq_refl). }
  unfold Auth.authorize_with_scope. set (st := auth_run _ _) in *. cbn zeta.
  destruct (ac_dev_auth_disabled config); [by split; [eexists|]|].
  set (boot := _ && _). set (step := match bearer_token headers with Some _ => _ | None => _ end).
  assert (au_sessions (fst step) = au_sessions st /\ (bearer_token headers = None -> boot = false /\ snd step = false)) as [Hsame Hnone].
  { unfold step, boot. destruct (bearer_token headers); [done|]. by rewrite andb_false_r. }
  destruct boot; [split; [by eexists|]; intros _ Hb; by destruct (Hnone Hb)|].
  destruct step as [st1 []]; cbn [fst snd] in *; [split; [by eexists|]; intros _ Hb; by destruct (Hnone Hb)|].
  rewrite (Hsession st1 Hsame). by split; [eexists|].
Qed.

(** ** Sign-in *)

(** What a CSRF binding says of the request: its header and cookie have the
    token of its live session, or a live token of the sign-in page. *)
Definition binding_valid (st : AuthState) (headers : list (text * option text)) (now : Z) (binding : CsrfBinding) : Prop :=
  exists csrf, header_get headers CSRF_HEADER = Some csrf /\
    match binding with
    | SessionBinding key =>
        session_key headers = Some key /\
        exists rec, au_sessions st !! key = Some rec /\ now < ss_expires_at rec /\
          constant_time_eq (hash csrf) (ss_csrf_hash rec) = true
    | LoginBinding token =>
        token = hash csrf /\ exists expires_at, au_login_csrf_tokens st !! token = Some expires_at /\ now < expires_at
    end.

Lemma csrf_binding_valid st headers now st1 binding :
  csrf_binding sha256 st headers now = (st1, Some binding) -> binding_valid st headers now binding.
Proof using.
  unfold csrf_binding, binding_valid, session_key. intros Eb.
  destruct (cookie headers CSRF_COOKIE) as [cookie_token|]; [|done]. destruct (header_get headers CSRF_HEADER) as [csrf|]; [|done].
  exists csrf. split; [done|]. destruct (negb _); [done|].
  assert (forall st', (let tokens := live_login_tokens now (au_login_csrf_tokens st) in
    (set_login_tokens st' tokens, if bool_decide (is_Some (tokens !! hash csrf)) then Some (LoginBinding (hash csrf)) else None))
    = (st1, Some binding) ->
    match binding with SessionBinding _ => False | LoginBinding token => token = hash csrf /\
      exists expires_at, au_login_csrf_tokens st !! token = Some expires_at /\ now < expires_at end) as Hlogin.
  { intros st' H. cbn in H. case_bool_decide as Hs; [|done]. injection H as _ <-. split; [done|]. destruct Hs as [e He].
    exists e. unfold live_login_tokens in He. by rewrite map_lookup_filter_Some in He. }
  cbn [au_sessions set_sessions] in Eb. destruct (cookie headers SESSION_COOKIE) as [token|]; cbn in Eb.
  - destruct (live_sessions now (au_sessions st) !! hash token) as [rec|] eqn:Es; cbn in Eb.
    + destruct (constant_time_eq (hash csrf) (ss_csrf_hash rec)) eqn:E; [|done]. injection Eb as _ <-. split; [done|].
      apply live_sessions_lookup in Es as [Es Hn]. by exists rec.
    + apply Hlogin in Eb. by destruct binding.
  - apply Hlogin in Eb. by destruct binding.
Qed.

Lemma utf8_len_pos s : s <> [] -> 0 < utf8_len s.
Proof using.
  destruct s as [|c s]; [done|]. intros _. unfold utf8_len. cbn. unfold zlen. rewrite length_app.
  unfold encode_char. repeat case_match; cbn; lia.
Qed.

Context (password_fits : text -> text -> bool).

(** A sign-in succeeds only with a CSRF token that the relay gave to this
    browser, and a password that fits: the deployment password for the name
    [operator], whatever account is stored under it, and else the hash stored
    for exactly that name. *)
Theorem login_verified st headers username password stored now joined verified :
  snd (verify_login sha256 password_fits config st headers username password stored now joined) = Ok verified ->
  (hash username = hash ADMIN_USERNAME -> username = ADMIN_USERNAME) ->
  binding_valid st headers now (vl_csrf_binding verified) /\
  0 < utf8_len password <= 1024 /\
  if bool_decide (username = ADMIN_USERNAME)
  then vl_user verified = built_in_operator /\ password_fits (ac_password_hash config) password = true
  else exists credential, stored = Some credential /\ su_username (uc_user credential) = username /\
         vl_user verified = uc_user credential /\ password_fits (uc_password_hash credential) password = true.
Proof using sha256_length.
  unfold verify_login. destruct (csrf_binding sha256 st headers now) as [st1 [binding|]] eqn:Eb; [|done]. cbn. intros Hv Hname.
  apply csrf_binding_valid in Eb.
  destruct (bool_decide_reflect (password = [])) as [Hp|Hp]; [done|]. cbn in Hv.
  destruct (Z.ltb_spec 1024 (utf8_len password)); [done|]. cbn in Hv. destruct (128 <? utf8_len username); [done|]. cbn in Hv.
  pose proof (utf8_len_pos password Hp) as Hpos. case_bool_decide as Hadmin.
  - rewrite Hadmin, (proj2 (hash_eq _ _) eq_refl) in Hv. destruct (negb joined); [done|].
    destruct (password_fits _ _) eqn:Ef; [|done]. by injection Hv as <-.
  - destruct (constant_time_eq (hash username) (hash ADMIN_USERNAME)) eqn:E; [by exfalso; apply Hadmin, Hname, hash_eq|].
    destruct stored as [credential|]; cbn in Hv; [|by destruct (negb joined)].
    destruct (bool_decide_reflect (su_username (uc_user credential) = username)); cbn in Hv; [|by destruct (negb joined)].
    destruct (negb joined); [done|]. destruct (password_fits _ _) eqn:Ef; [|done]. injection Hv as <-.
    split_and!; try done. by exists credential.
Qed.
End AuthSpec.

(** ** Operator tokens *)

Section Tokens.
Context (sha256 : bytes -> bytes) (config : AuthConfig).
Abbreviation hash := (Auth.hash sha256).
Abbreviation auth_op := (Auth.auth_op sha256 config).
Abbreviation auth_run := (Auth.auth_run sha256 config).
Abbreviation authorize_with_scope := (Auth.authorize_with_scope sha256 config).

(** Operations that give the relay a token, and that take it away. *)
Definition grants_token (record : OperatorTokenRecord) (op : AuthOp) : Prop :=
  match op with
  | OpAddToken record' => record' = record
  | OpLoadTokens records => record ∈ records
  | _ => False
  end.
Definition takes_token (record : OperatorTokenRecord) (op : AuthOp) : Prop :=
  match op with OpRevokeToken id => id = ot_id record | OpLoadTokens _ => True | _ => False end.

Lemma loaded_tokens (records : list OperatorTokenRecord) (tokens : gmap bytes OperatorTokenRecord) (key : bytes) (record : OperatorTokenRecord) :
  fold_left (fun tokens record => <[ot_token_hash record := record]> tokens) records tokens !! key = Some record ->
  tokens !! key = Some record \/ (record ∈ records /\ ot_token_hash record = key).
Proof.
  revert tokens. induction records as [|r records IH]; intros tokens; cbn; [by left|]. intros [Hk|[Hin Hk]]%IH.
  - destruct (decide (ot_token_hash r = key)) as [He|Hne].
    + rewrite He, lookup_insert_eq in Hk. injection Hk as <-. right. split; [by left|done].
    + rewrite lookup_insert_ne in Hk by done. by left.
  - right. split; [by right|done].
Qed.

(** The operations on sessions leave the tokens alone. *)
Definition session_op (op : AuthOp) : bool :=
  match op with OpEnsureCsrf _ _ _ | OpVerify _ _ | OpIssue _ _ _ _ _ | OpLogout _ => true | _ => false end.

Lemma session_op_keeps st op :
  session_op op = true ->
  au_bootstrap_bearer_enabled (auth_op st op) = au_bootstrap_bearer_enabled st /\
  au_operator_tokens (auth_op st op) = au_operator_tokens st.
Proof.
  destruct op as [headers now random|headers now|binding user session_token csrf t| | | | |headers|]; try done; intros _;
    cbn [Auth.auth_op].
  - unfold ensure_csrf_cookie. destruct (session_token ← cookie headers SESSION_COOKIE; _) as [[k r]|]; cbn;
      destruct (match cookie headers CSRF_COOKIE with Some _ => _ | None => _ end); try done; by destruct random.
  - unfold csrf_binding. destruct (cookie headers CSRF_COOKIE), (header_get headers CSRF_HEADER); try done.
    destruct (negb _); [done|]. by destruct (session_token ← cookie headers SESSION_COOKIE; _) as [[k r]|].
  - unfold issue_session. by destruct binding as [[]|].
  - unfold logout. by destruct (cookie headers SESSION_COOKIE).
Qed.

Lemma authorize_session_outcome st headers require required now :
  snd (authorize_session sha256 st headers require required now) <> Some ByBearer /\
  snd (authorize_session sha256 st headers require required now) <> Some ByOperatorToken /\
  au_operator_tokens (fst (authorize_session sha256 st headers require required now)) = au_operator_tokens st /\
  au_bootstrap_bearer_enabled (fst (authorize_session sha256 st headers require required now)) = au_bootstrap_bearer_enabled st.
Proof.
  unfold authorize_session. destruct (cookie headers SESSION_COOKIE) as [token|]; [|done]. cbn.
  destruct (live_sessions _ _ !! _); cbn; [|done]. destruct (negb _); [done|]. destruct require; [|done].
  destruct (header_get headers CSRF_HEADER); [|done]. destruct (cookie headers CSRF_COOKIE); [|done]. cbn.
  by destruct (_ || _).
Qed.

(** What [authorize_with_scope] does to the tokens, and what its outcome says. *)
Definition token_case (st : AuthState) (headers : list (text * option text)) (required : option text) (utc : Z)
  (res : AuthState * option Authorization) : Prop :=
  au_bootstrap_bearer_enabled (fst res) = au_bootstrap_bearer_enabled st /\
  (forall key record, au_operator_tokens (fst res) !! key = Some record -> au_operator_tokens st !! key = Some record) /\
  (snd res = Some ByBearer -> au_bootstrap_bearer_enabled st = true) /\
  (snd res = Some ByOperatorToken -> exists token record, bearer_token headers = Some token /\
     au_operator_tokens st !! hash token = Some record /\ unexpired utc record = true /\
     scope_allowed (ot_scopes record) required = true).

Lemma session_case st st1 headers require required now utc :
  au_bootstrap_bearer_enabled st1 = au_bootstrap_bearer_enabled st ->
  (forall key record, au_operator_tokens st1 !! key = Some record -> au_operator_tokens st !! key = Some record) ->
  token_case st headers required utc (authorize_session sha256 st1 headers require required now).
Proof.
  intros H1 H2. destruct (authorize_session_outcome st1 headers require required now) as (Hb & Ho & Ht & He).
  unfold token_case. rewrite Ht, He. done.
Qed.

Lemma live_operator_tokens_lookup (utc : Z) (tokens : gmap bytes OperatorTokenRecord) (key : bytes) (record : OperatorTokenRecord) :
  live_operator_tokens utc tokens !! key = Some record <-> tokens !! key = Some record /\ unexpired utc record = true.
Proof. unfold live_operator_tokens. by rewrite map_lookup_filter_Some. Qed.

Lemma authorize_cases st headers require required now utc :
  token_case st headers required utc (authorize_with_scope st headers require required now utc).
Proof.
  unfold Auth.authorize_with_scope. destruct (ac_dev_auth_disabled config); [done|].
  destruct (au_bootstrap_bearer_enabled st && _) eqn:Eb.
  { apply andb_true_iff in Eb as [Eb _]. unfold token_case. by split_and!. }
  clear Eb. destruct (bearer_token headers) as [token|] eqn:Eh; [|by apply session_case].
  unfold authorize_token. cbn iota beta.
  assert (forall key record, live_operator_tokens utc (au_operator_tokens st) !! key = Some record ->
    au_operator_tokens st !! key = Some record) as Hlive by (intros key record; rewrite live_operator_tokens_lookup; tauto).
  destruct (live_operator_tokens utc (au_operator_tokens st) !! hash token) as [record|] eqn:El; [|by apply session_case].
  destruct (constant_time_eq _ _ && scope_allowed (ot_scopes record) required) eqn:Es; [|by apply session_case].
  apply andb_true_iff in Es as [_ Hscope]. unfold token_case. cbn [fst snd]. split_and!; [done|exact Hlive|done|].
  intros _. exists token, record. apply live_operator_tokens_lookup in El. tauto.
Qed.

Lemma auth_op_tokens st op key record :
  au_operator_tokens (auth_op st op) !! key = Some record ->
  (au_operator_tokens st !! key = Some record /\ ~ takes_token record op) \/ (grants_token record op /\ ot_token_hash record = key).
Proof.
  destruct (session_op op) eqn:Es.
  { destruct (session_op_keeps st op Es) as [_ ->]. intros Hk. left. split; [done|]. destruct op; try done; by intros []. }
  destruct op as [| | |headers req sc now utc|records|r|id| |]; try done; cbn [Auth.auth_op].
  - pose proof (authorize_cases st headers req sc now utc) as Ha.
    destruct Ha as (_ & Ha & _). intros Hk. left. split; [by apply Ha|by intros []].
  - cbn. intros [Hk|[Hin Hk]]%loaded_tokens; [done|]. by right.
  - cbn. destruct (decide (ot_token_hash r = key)) as [He|Hne].
    + rewrite He, lookup_insert_eq. intros [= <-]. by right.
    + rewrite lookup_insert_ne by done. intros Hk. left. split; [done|by intros []].
  - cbn. rewrite map_lookup_filter_Some. intros [Hk Hid]. left. split; [done|]. congruence.
  - intros Hk. left. split; [exact Hk|by intros []].
Qed.

Lemma granted_tokens ops key record :
  au_operator_tokens (auth_run auth_new ops) !! key = Some record ->
  ot_token_hash record = key /\ exists before op after, ops = before ++ op :: after /\ grants_token record op /\
    Forall (fun op => ~ takes_token record op) after.
Proof.
  induction ops as [|op ops IH] using rev_ind; [done|]. rewrite auth_run_snoc. intros [[Hk Hno]|[Hg Hh]]%auth_op_tokens.
  - destruct (IH Hk) as (Hh & before & op' & after & -> & Hg & Hall). split; [done|].
    exists before, op', (after ++ [op]). by rewrite <- app_assoc, Forall_app, Forall_singleton.
  - split; [done|]. by exists ops, op, [].
Qed.

(** A request gets in with an operator token only if a record with the digest
    of the token was added or loaded, was not revoked and not dropped by a later
    load, has not expired, and has the scope. *)
Theorem operator_token_authorized ops headers require required now utc :
  snd (authorize_with_scope (auth_run auth_new ops) headers require required now utc) = Some ByOperatorToken ->
  exists token record before op after,
    bearer_token headers = Some token /\ ot_token_hash record = hash token /\
    ops = before ++ op :: after /\ grants_token record op /\ Forall (fun op => ~ takes_token record op) after /\
    unexpired utc record = true /\ scope_allowed (ot_scopes record) required = true.
Proof.
  pose proof (authorize_cases (auth_run auth_new ops) headers require required now utc) as Ha.
  destruct Ha as (_ & _ & _ & Ha). intros Ho. destruct (Ha Ho) as (token & record & Hb & Hr & Hexp & Hscope).
  apply granted_tokens in Hr as (Hh & before & op & after & Hops & Hg & Hall). by exists token, record, before, op, after.
Qed.

(** The bootstrap token is dead once it is disabled. *)
Theorem bootstrap_disabled_for_good ops headers require required now utc :
  OpDisableBootstrap ∈ ops ->
  snd (authorize_with_scope (auth_run auth_new ops) headers require required now utc) <> Some ByBearer.
Proof.
  assert (forall st op, au_bootstrap_bearer_enabled (auth_op st op) = true ->
    op <> OpDisableBootstrap /\ au_bootstrap_bearer_enabled st = true) as Hop.
  { intros st op. destruct (session_op op) eqn:Es; [destruct (session_op_keeps st op Es) as [-> _]; by destruct op|].
    destruct op as [| | |headers' req sc now' utc'| | | | |]; try done. cbn [Auth.auth_op].
    pose proof (authorize_cases st headers' req sc now' utc') as Ha.
    destruct Ha as [-> _]. done. }
  assert (au_bootstrap_bearer_enabled (auth_run auth_new ops) = true -> OpDisableBootstrap ∉ ops) as Hrun.
  { induction ops as [|op ops IH] using rev_ind; [set_solver|]. rewrite auth_run_snoc. intros [Hne Hst]%Hop. set_solver. }
  intros Hin Ho. pose proof (authorize_cases (auth_run auth_new ops) headers require required now utc) as Ha.
  destruct Ha as (_ & _ & Ha & _).
  exact (Hrun (Ha Ho) Hin).
Qed.

(** ** Bounded memory *)

Lemma oldest_token_found tokens : (0 < size tokens)%nat -> exists key, oldest_token tokens = Some key /\ is_Some (tokens !! key).
Proof.
  intros Hsize. unfold oldest_token.
  assert (forall l best, (forall b, best = Some b -> b ∈ map_to_list tokens) -> (forall e, e ∈ l -> e ∈ map_to_list tokens) ->
    (best <> None \/ l <> []) ->
    exists e, fold_left (fun best entry => match best with
      | Some b => if snd entry <? snd b then Some entry else best | None => Some entry end) l best = Some e /\
      e ∈ map_to_list tokens) as Hfold.
  { induction l as [|e l IH]; intros best Hbest Hl Hne; cbn.
    - destruct best as [b|]; [|by destruct Hne]. exists b. auto.
    - apply IH; [|set_solver|left; destruct best as [b|]; [destruct (_ <? _)|]; done].
      intros b. destruct best as [b0|]; [destruct (_ <? _)|]; intros [= <-]; set_solver. }
  destruct (Hfold (map_to_list tokens) None ltac:(done) ltac:(done)) as ([key e] & -> & Hin).
  { right. intros Hnil. rewrite <- length_map_to_list, Hnil in Hsize. cbn in Hsize. lia. }
  exists key. split; [done|]. apply elem_of_map_to_list in Hin. by exists e.
Qed.

Lemma live_login_tokens_size now tokens : (size (live_login_tokens now tokens) <= size tokens)%nat.
Proof. apply map_subseteq_size, map_filter_subseteq. Qed.

(** Visitors who never sign in cannot fill the memory: there are never more than
    [MAX_LOGIN_CSRF_TOKENS] tokens of the sign-in page. *)
Theorem login_tokens_bounded ops :
  Z.of_nat (size (au_login_csrf_tokens (auth_run auth_new ops))) <= MAX_LOGIN_CSRF_TOKENS.
Proof.
  induction ops as [|op ops IH] using rev_ind; [done|]. rewrite auth_run_snoc. set (st := auth_run auth_new ops) in *.
  unfold MAX_LOGIN_CSRF_TOKENS in *.
  pose proof (fun now => live_login_tokens_size now (au_login_csrf_tokens st)) as Hlive.
  destruct op as [headers now random|headers now|binding user session_token csrf t|headers req sc now utc|records|r|id|headers|];
    cbn [Auth.auth_op]; try exact IH.
  - unfold ensure_csrf_cookie. destruct (session_token ← cookie headers SESSION_COOKIE; _) as [[k r]|]; cbn.
    { destruct (match cookie headers CSRF_COOKIE with Some _ => _ | None => _ end); [done|]. by destruct random. }
    specialize (Hlive now). set (tokens := live_login_tokens now (au_login_csrf_tokens st)) in *.
    destruct (match cookie headers CSRF_COOKIE with Some _ => _ | None => _ end); cbn; [lia|].
    set (kept := if _ <=? _ then _ else _).
    assert (Z.of_nat (size kept) < 4096) as Hkept.
    { unfold kept, MAX_LOGIN_CSRF_TOKENS. destruct (Z.leb_spec 4096 (Z.of_nat (size tokens))) as [Hle|]; [|lia].
      destruct (oldest_token_found tokens) as (key & -> & e & He); [lia|]. rewrite map_size_delete_Some by (by exists e). lia. }
    destruct random as [csrf|]; cbn; [|lia]. rewrite map_size_insert. destruct (kept !! _); cbn; lia.
  - unfold csrf_binding. destruct (cookie headers CSRF_COOKIE), (header_get headers CSRF_HEADER); try done.
    destruct (negb _); [done|]. destruct (session_token ← cookie headers SESSION_COOKIE; _) as [[k r]|]; cbn; [done|].
    specialize (Hlive now). lia.
  - unfold issue_session. destruct binding as [[token|]|]; cbn; try done. rewrite map_size_delete. destruct (_ !! token); cbn; lia.
  - unfold Auth.authorize_with_scope. destruct (ac_dev_auth_disabled config); [done|]. destruct (_ && _); [done|].
    set (step := match bearer_token headers with Some _ => _ | None => _ end).
    assert (au_login_csrf_tokens (fst step) = au_login_csrf_tokens st) as Hsame by (unfold step; by destruct (bearer_token headers)).
    destruct step as [st1 []]; cbn [fst] in *; [by rewrite Hsame|]. unfold authorize_session.
    destruct (cookie headers SESSION_COOKIE); cbn; by rewrite Hsame.
  - unfold logout. by destruct (cookie headers SESSION_COOKIE).
Qed.
End Tokens.

(** The scopes of the three roles, as the documentation of [role_scopes] says. *)
Lemma role_permissions role scopes required :
  role_scopes role = Some scopes ->
  scope_satisfied scopes required = true <->
  role = str "admin" \/ (role = str "operator" /\ required ∈ [READ_SCOPE; CONTROL_SCOPE; OUTPUT_SCOPE]) \/
  (role = str "viewer" /\ required ∈ [READ_SCOPE; OUTPUT_SCOPE]).
Proof.
  assert (forall a b : text, bool_decide (a = b) = false -> a <> b) as Hne by (intros a b; by rewrite bool_decide_eq_false).
  assert (CONTROL_SCOPE <> ADMIN_SCOPE /\ OUTPUT_SCOPE <> ADMIN_SCOPE /\ READ_SCOPE <> ADMIN_SCOPE /\ OUTPUT_SCOPE <> CONTROL_SCOPE /\
    READ_SCOPE <> CONTROL_SCOPE /\ str "admin" <> str "operator" /\ str "admin" <> str "viewer" /\ str "operator" <> str "viewer")
    as (? & ? & ? & ? & ? & ? & ? & ?) by (split_and!; apply Hne; vm_compute; reflexivity).
  unfold role_scopes, scope_satisfied. generalize dependent ADMIN_SCOPE. generalize dependent CONTROL_SCOPE.
  generalize dependent OUTPUT_SCOPE. generalize dependent READ_SCOPE. intros read output H1 H2 control H3 admin. intros.
  repeat case_bool_decide; simplify_eq; cbn [existsb];
    rewrite ?orb_true_iff, ?andb_true_iff, ?bool_decide_eq_true, ?elem_of_cons, ?elem_of_nil; intuition congruence.
Qed.
