(* ===== verification/Witness.v ===== *)
(** * Witnesses

    For the properties of the media plane that have hypotheses, an application at
    a concrete input at which they hold: a ring of eight packets, a stream of PAT, PMT and null
    packets, a broker of one slot.  The tables carry their real CRC. *)
From Stdlib Require Import ZArith Lia.
From stdpp Require Import base numbers option strings.
From stdpp Require Import gmap.
From stdpp Require Import list sorting.
From S2P Require Import Prelude Process Psi Pacing Meter Registry Broker Ring RingSpec RingCursor.
From S2P Require Import Recovery Upstream Session Viewer Passive.
Open Scope Z_scope.

(** ** Demonstration data *)

Definition all_u8 (l : bytes) : bool := forallb (fun z => (0 <=? z) && (z <? 256)) l.

Lemma all_u8_ok l : all_u8 l = true -> Forall is_u8 l.
Proof.
  intros H. apply Forall_forall. intros z Hz. unfold all_u8 in H. rewrite forallb_forall in H.
  apply list_elem_of_In in Hz. specialize (H z Hz). unfold is_u8. lia.
Qed.

Lemma all_packets_ok l : forallb all_u8 l = true -> Forall (Forall is_u8) l.
Proof.
  intros H. apply Forall_forall. intros p Hp. rewrite forallb_forall in H.
  apply all_u8_ok, H. by apply list_elem_of_In.
Qed.

(** Checks a list of ring operations, element by element. *)
Ltac check_ops :=
  repeat (apply Forall_cons_2;
    [first [apply all_u8_ok; vm_compute; reflexivity | cbn; lia | exact I]|]);
  apply Forall_nil_2.

Definition with_crc (section : bytes) : bytes := section ++ to_be_bytes32 (mpeg_crc32 section).

Definition demo_pat : bytes :=
  Eval vm_compute in with_crc [0x00; 0xb0; 0x0d; 0x00; 0x01; 0xc1; 0; 0; 0; 0x01; 0xe1; 0x00].
Definition demo_pmt : bytes :=
  Eval vm_compute in
    with_crc [0x02; 0xb0; 0x12; 0x00; 0x01; 0xc1; 0; 0; 0xe1; 0x01; 0xf0; 0; 0x1b; 0xe1; 0x01; 0xf0; 0].

Definition table_packet (pid : Z) (section : bytes) : bytes :=
  let head := [0x47; Z.lor 0x40 (Z.shiftr pid 8); Z.land pid 0xff; 0x10; 0] ++ section in
  head ++ replicate (188 - length head) 0xff.

Definition demo_pat_packet : bytes := Eval vm_compute in table_packet 0 demo_pat.
Definition demo_pmt_packet : bytes := Eval vm_compute in table_packet 0x100 demo_pmt.
Definition demo_stream : list bytes := [demo_pat_packet; demo_pmt_packet; null_packet 0].

Definition demo_config : MpegTsRingConfig := mkMpegTsRingConfig 8 4.

Lemma demo_config_ok : config_ok demo_config.
Proof. unfold config_ok, MPEG_TS_PACKET_SIZE, u64_max. cbn. lia. Defined.

Lemma demo_ring_refines :
  ring_refines demo_config (ring_new demo_config) (mkARing 0 [] None).
Proof. apply ring_new_refines, demo_config_ok. Defined.

(** A write of the demonstration stream, a read, the stream again, two reads. *)
Definition demo_ops : list RingOp :=
  [OpPush (concat demo_stream) 0 0; OpRead 2; OpPush (concat demo_stream) 5 5; OpRead 2; OpRead 9].

Lemma demo_ops_ok : Forall op_ok demo_ops.
Proof. unfold demo_ops. check_ops. Qed.

(** ** Ring *)

Lemma viewer_trace_witness :
  let '(w, events) := world_run demo_config (join (ring_new demo_config) (mkARing 0 [] None) 4) demo_ops in
  length events = 3%nat /\ trace_ok (w_log w) 0 0 true events.
Proof.
  pose proof (viewer_trace demo_config demo_config_ok (ring_new demo_config) (mkARing 0 [] None) 4 demo_ops
    demo_ring_refines ltac:(lia) demo_ops_ok) as H.
  assert (length (snd (world_run demo_config (join (ring_new demo_config) (mkARing 0 [] None) 4) demo_ops)) = 3%nat) as Hn
    by (vm_compute; reflexivity).
  destruct (world_run _ _ _) as [w events]. exact (conj Hn H).
Defined.

Lemma viewer_receives_stream_witness :
  let '(w, events) := world_run demo_config (join (ring_new demo_config) (mkARing 0 [] None) 4) demo_ops in
  forallb continuous events = true /\
  (concat (map payload events) = [] \/
   exists first last,
     0 <= first <= last /\ last <= zlen (w_log w 0) /\ pat_start_at (w_log w 0) first /\
     concat (map payload events) = concat (slice first last (w_log w 0))).
Proof.
  pose proof (viewer_receives_stream demo_config demo_config_ok (ring_new demo_config) (mkARing 0 [] None) 4 demo_ops
    demo_ring_refines ltac:(lia) demo_ops_ok) as H.
  assert (forallb continuous (snd (world_run demo_config (join (ring_new demo_config) (mkARing 0 [] None) 4) demo_ops)) = true) as Hc
    by (vm_compute; reflexivity).
  destruct (world_run _ _ _) as [w events]. exact (conj Hc (H Hc)).
Defined.

Definition demo_writes : list RingWrite :=
  [WPush (concat demo_stream) 0 0; WPush [1] 1 1; WClose EndOfStream; WPush (concat demo_stream) 2 2;
   WGeneration; WPush (concat demo_stream) 3 3].

Lemma demo_writes_ok : Forall write_ok demo_writes.
Proof. unfold demo_writes. check_ops. Qed.

Lemma ring_implements_log_witness :
  let '(st, results) := run (write_step demo_config) (ring_new demo_config) demo_writes in
  let '(a, results') := run (a_step demo_config) (mkARing 0 [] None) demo_writes in
  results = results' /\ ring_refines demo_config st a.
Proof. exact (ring_implements_log demo_config demo_config_ok demo_writes demo_writes_ok). Defined.

Lemma retained_window_intact_witness :
  let st := fst (run (write_step demo_config) (ring_new demo_config) demo_writes) in
  let a := fst (run (a_step demo_config) (mkARing 0 [] None) demo_writes) in
  zlen (storage st) = capacity_bytes demo_config /\
  first_sequence st = a_first demo_config a /\ next_sequence st = zlen (a_history a) /\
  forall seq packet, first_sequence st <= seq -> 0 <= seq ->
    a_history a !! Z.to_nat seq = Some packet -> read_slot demo_config st seq = packet.
Proof. exact (retained_window_intact demo_config demo_config_ok demo_writes demo_writes_ok). Defined.

Lemma config_holds_duration_witness :
  exists config, config_for_bitrate 8000000 10000000000 2000000000 = Ok config /\
  config_ok config /\ capacity_packets config = 53192.
Proof.
  eexists. split; [reflexivity|].
  destruct (config_holds_duration 8000000 10000000000 2000000000 _ ltac:(lia) ltac:(lia) ltac:(lia) eq_refl) as [H _].
  split; [exact H|reflexivity].
Defined.

(** A viewer that has caught up with the first three packets. *)
Definition demo_world : World :=
  fst (world_run demo_config (join (ring_new demo_config) (mkARing 0 [] None) 4)
         [OpPush (concat demo_stream) 0 0; OpRead 9]).

Lemma demo_world_ok : exists fresh, world_ok demo_config demo_world fresh.
Proof.
  destruct (join_ok demo_config demo_config_ok (ring_new demo_config) (mkARing 0 [] None) 4 demo_ring_refines ltac:(lia)) as (Hw & _ & Hle).
  pose proof (world_run_ok demo_config demo_config_ok [OpPush (concat demo_stream) 0 0; OpRead 9] _ true 0 Hw) as H.
  assert (Forall op_ok [OpPush (concat demo_stream) 0 0; OpRead 9]) as Hops
    by check_ops.
  specialize (H Hops Hle ltac:(done)). unfold demo_world. destruct (world_run _ _ _) as [w events].
  by destruct H as (_ & ? & _).
Qed.

Lemma world_ring_inv config w fresh :
  world_ok config w fresh -> ring_inv config (w_log w (generation (w_ring w))) (w_ring w).
Proof. by intros [(_ & _ & _ & H) _ _]. Qed.

Lemma demo_world_in_window :
  first_sequence (w_ring demo_world) <= 0 <= zlen (w_log demo_world (generation (w_ring demo_world))).
Proof. vm_compute. split; discriminate. Qed.

Lemma demo_world_generation : 0 = generation (w_ring demo_world).
Proof. vm_compute. reflexivity. Qed.

Lemma reader_catches_up_witness :
  read_times demo_config (w_ring demo_world) (mkRingCursor 0 0 false) 2 2 =
    (mkRingCursor (generation (w_ring demo_world))
       (Z.min (zlen (w_log demo_world (generation (w_ring demo_world)))) (0 + Z.of_nat 2 * 2)) false,
     concat (slice 0 (Z.min (zlen (w_log demo_world (generation (w_ring demo_world)))) (0 + Z.of_nat 2 * 2))
       (w_log demo_world (generation (w_ring demo_world))))).
Proof.
  destruct demo_world_ok as [fresh Hw].
  exact (proj1 (reader_catches_up demo_config demo_config_ok (w_ring demo_world) _ (mkRingCursor 0 0 false)
    2 2 (world_ring_inv _ _ _ Hw) ltac:(lia) demo_world_generation demo_world_in_window eq_refl)).
Defined.

Lemma demo_world_idle :
  try_next demo_config (w_ring demo_world) (w_cursor demo_world) 9 = (w_cursor demo_world, Ok None).
Proof. vm_compute. reflexivity. Qed.

(** A write that is refused wakes nobody. *)
Lemma refused_write_silent config ring cursor log :
  silent_run config (mkWorld ring cursor log) (mkWorld ring cursor log).
Proof.
  apply (silent_step _ _ (mkWorld ring cursor log) _ (OpPush [1] 7 7)); [done| |reflexivity|apply silent_refl].
  by apply all_u8_ok.
Qed.

Lemma no_lost_wakeup_witness :
  let w := mkWorld (w_ring demo_world) (w_cursor demo_world) (w_log demo_world) in
  try_next demo_config (w_ring w) (w_cursor w) 9 = (w_cursor w, Ok None) /\ w_cursor w = w_cursor demo_world.
Proof.
  destruct demo_world_ok as [fresh Hw].
  pose proof (refused_write_silent demo_config (w_ring demo_world) (w_cursor demo_world) (w_log demo_world)) as Hs.
  exact (no_lost_wakeup demo_config demo_config_ok demo_world _ fresh 9 (w_cursor demo_world) Hw
    ltac:(lia) demo_world_idle Hs).
Defined.

(** ** Upstream *)

Lemma diagnostics_new_count : 0 <= overwritten_packets diagnostics_new <= u64_max.
Proof. vm_compute. split; discriminate. Qed.

(** The stream cut in the middle of its second packet, with a tail of a fourth. *)
Definition demo_body : list BodyEvent :=
  [BChunk (ztake 300 (concat demo_stream)); BChunk (zdrop 300 (concat demo_stream) ++ [0x47; 0x1f]); BEnd].

Lemma demo_body_ok : Forall is_u8 (body_bytes demo_body) /\ zlen (body_bytes demo_body) <= u64_max.
Proof. split; [apply all_u8_ok; vm_compute; reflexivity|vm_compute; discriminate]. Qed.

Lemma demo_body_primes :
  prime_body packetizer_new demo_body =
  (mkMpegTsPacketizer [0x47; 0x1f], [BEnd], Some (Ok (concat demo_stream))).
Proof. vm_compute. reflexivity. Qed.

Lemma priming_starts_at_pat_witness :
  exists chunks received b,
    demo_body = map BChunk chunks ++ [BEnd] /\ concat chunks = concat received ++ [0x47; 0x1f] /\
    whole received /\ pat_start_at received b /\ concat demo_stream = concat (zdrop b received).
Proof.
  pose proof (priming_starts_at_pat demo_body (proj1 demo_body_ok) (proj2 demo_body_ok)) as H.
  rewrite demo_body_primes in H. exact (proj2 H _ eq_refl).
Defined.

Definition demo_body_events : list (BodyEvent * Z * Z) := map (fun e => (e, 0, 0)) demo_body.

Lemma demo_body_streams :
  snd (stream_until_failure demo_config (ring_new demo_config) diagnostics_new packetizer_new demo_body_events) <>
  Some RingClosed.
Proof. vm_compute. discriminate. Qed.

Lemma streaming_publishes_all_witness :
  let '(ring', d', p', verdict) :=
    stream_until_failure demo_config (ring_new demo_config) diagnostics_new packetizer_new demo_body_events in
  verdict <> Some RingClosed /\
  exists a' chunks rest data,
    ring_refines demo_config ring' a' /\ a_generation a' = 0 /\
    map chunk_of demo_body_events = map BChunk chunks ++ rest /\ (verdict = None -> rest = []) /\
    a_history a' = [] ++ chunks_exact MPEG_TS_PACKET_SIZE data /\
    zlen data mod MPEG_TS_PACKET_SIZE = 0 /\
    [] ++ concat chunks = data ++ pending p' /\
    overwritten_packets d' = sat_add u64_max 0 (a_first demo_config a' - 0).
Proof.
  pose proof demo_body_streams as Hv.
  pose proof (streaming_publishes_all demo_config demo_config_ok (ring_new demo_config) (mkARing 0 [] None)
    diagnostics_new packetizer_new demo_body_events demo_ring_refines (List.Forall_nil _)
    (proj1 demo_body_ok) diagnostics_new_count) as H.
  destruct (stream_until_failure _ _ _ _ _) as [[[ring' d'] p'] verdict]. exact (conj Hv (H Hv)).
Defined.

(** ** Session *)

(** Two endpoints of different pools; the first pool's only slot is taken. *)
Definition demo_pump : PumpConfig :=
  mkPumpConfig demo_config policy_default
    [mkPreparedHttpTsEndpoint "a" "http://a/1"; mkPreparedHttpTsEndpoint "b" "http://b/1"] "source" 1.

Definition demo_providers : gmap string BrokerState :=
  {["a" := fst (try_acquire (broker_new "a" 1) "k"); "b" := broker_new "b" 1]}.

Local Notation demo_start :=
  (session_start demo_pump diagnostics_new demo_providers ("a", mkSlotLease 1)).

(** A viewer joins, the first upstream is primed and ends; the second answers
    and is primed while the viewer reads up to the live edge. *)
Definition demo_inputs : list Input :=
  [EnvRegister 0 0; InPrime demo_body 0 0; InBody BEnd 5 5; InTime 5 5; InResponse true 6;
   InPrime demo_body 7 7; EnvUpdate 1 0 3].

Lemma demo_inputs_ok : Forall input_ok demo_inputs.
Proof.
  unfold demo_inputs.
  repeat (apply Forall_cons_2; [first [exact demo_body_ok | exact I]|]). apply Forall_nil_2.
Qed.

Definition demo_recovery : RecoveryContext := mkRecoveryContext (5 + 10 * NANOS_PER_SECOND) 0 0 3 0 (Some 0).

Lemma demo_inputs_drain :
  s_phase (session_run demo_pump demo_start demo_inputs) =
  PhDrain demo_recovery 1 (Some ("b", mkSlotLease 1)) (mkMpegTsPacketizer [0x47; 0x1f]) (concat demo_stream).
Proof. vm_compute. reflexivity. Qed.

(** The viewers have drained; the keepalive task is being stopped. *)
Definition demo_inputs_stop : list Input := demo_inputs ++ [InTime 8 8].

Lemma demo_inputs_stop_ok : Forall input_ok demo_inputs_stop.
Proof. apply Forall_app_2; [exact demo_inputs_ok|]. by apply Forall_singleton. Qed.

Lemma demo_inputs_stopping :
  s_phase (session_run demo_pump demo_start demo_inputs_stop) =
  PhStop demo_recovery 1 (Some ("b", mkSlotLease 1)) (mkMpegTsPacketizer [0x47; 0x1f]) (concat demo_stream).
Proof. vm_compute. reflexivity. Qed.

Lemma demo_inputs_switch :
  s_phase (session_step demo_pump (session_run demo_pump demo_start demo_inputs_stop) (InTime 9 9)) =
  PhStreaming 1 (mkMpegTsPacketizer [0x47; 0x1f]).
Proof. vm_compute. reflexivity. Qed.

Lemma recovery_is_clean_cut_witness :
  let s := session_run demo_pump demo_start demo_inputs_stop in
  let s' := session_step demo_pump s (InTime 9 9) in
  state (s_diag s') = Streaming /\
  ring_refines demo_config (s_ring s')
    (mkARing (generation (s_ring s) + 1) (chunks_exact MPEG_TS_PACKET_SIZE (concat demo_stream)) None) /\
  pat_start_at (chunks_exact MPEG_TS_PACKET_SIZE (concat demo_stream)) 0.
Proof.
  pose proof demo_inputs_switch as Hsw. pose proof demo_inputs_stopping as Hd.
  pose proof (recovery_is_clean_cut demo_pump demo_config_ok diagnostics_new demo_providers
    ("a", mkSlotLease 1) demo_inputs_stop demo_recovery 1 (Some ("b", mkSlotLease 1))
    (mkMpegTsPacketizer [0x47; 0x1f]) (concat demo_stream) 9 9 diagnostics_new_count demo_inputs_stop_ok) as H.
  cbv zeta in H |- *. apply proj2 in H. specialize (H Hd). rewrite Hsw in H.
  destruct H as [H|(_ & H1 & H2 & H3)]; [discriminate H|exact (conj H1 (conj H2 H3))].
Defined.

(** The viewer leaves before the upstream ends: the session stops. *)
Definition demo_inputs_left : list Input :=
  [EnvRegister 0 0; InPrime demo_body 0 0; EnvLeave 1; InBody BEnd 5 5].

Lemma demo_inputs_left_ok : Forall input_ok demo_inputs_left.
Proof.
  unfold demo_inputs_left.
  repeat (apply Forall_cons_2; [first [exact demo_body_ok | exact I]|]). apply Forall_nil_2.
Qed.

Lemma demo_inputs_left_done :
  s_phase (session_run demo_pump demo_start demo_inputs_left) = PhDone.
Proof. vm_compute. reflexivity. Qed.

Lemma finished_session_is_closed_witness :
  closed (s_ring (session_run demo_pump demo_start demo_inputs_left)) <> None /\
  s_lease (session_run demo_pump demo_start demo_inputs_left) = None.
Proof.
  pose proof (finished_session_is_closed demo_pump demo_config_ok diagnostics_new demo_providers
    ("a", mkSlotLease 1) demo_inputs_left diagnostics_new_count demo_inputs_left_ok) as H.
  cbv zeta in H. exact (H demo_inputs_left_done).
Defined.

(** A full ring whose viewer is two packets behind the writer. *)
Definition demo_history : list bytes := concat (replicate 4 demo_stream).
Definition demo_full_ring : RingState :=
  fst (run (write_step demo_config) (ring_new demo_config) (replicate 4 (WPush (concat demo_stream) 0 0))).

Lemma demo_full_ring_inv : ring_inv demo_config demo_history demo_full_ring.
Proof.
  assert (Forall write_ok (replicate 4 (WPush (concat demo_stream) 0 0))) as Hok by (cbn [replicate]; check_ops).
  destruct (run_simulates demo_config demo_config_ok _ _ _ demo_ring_refines Hok) as [(_ & _ & _ & H) _].
  assert (a_history (fst (run (a_step demo_config) (mkARing 0 [] None) (replicate 4 (WPush (concat demo_stream) 0 0)))) =
    demo_history) as E by (vm_compute; reflexivity).
  rewrite E in H. exact H.
Qed.

Lemma demo_full_ring_calm : near_overrun demo_config demo_full_ring (generation demo_full_ring) 10 = false.
Proof. vm_compute. reflexivity. Qed.

Lemma paced_viewer_has_margin_witness :
  first_sequence demo_full_ring <= 10 /\
  forall packets ring', ring_inv demo_config (demo_history ++ packets) ring' ->
    4 * zlen packets <= capacity_packets demo_config -> first_sequence ring' <= 10.
Proof.
  exact (paced_viewer_has_margin demo_config demo_history demo_full_ring 10 demo_config_ok demo_full_ring_inv
    ltac:(vm_compute; split; discriminate) demo_full_ring_calm).
Defined.

Lemma every_endpoint_tried_witness :
  (exists attempt, 0 <= attempt < 3 /\ endpoint_index 3 1 attempt = 0) /\
  (1 < 3 -> endpoint_index 3 1 0 <> 1).
Proof. exact (every_endpoint_tried 3 1 0 ltac:(lia) ltac:(lia) ltac:(lia)). Defined.

Lemma allocation_key_injective_witness :
  let k := mkHttpTsSessionKey "pool" "source" 12 in k = k.
Proof.
  exact (allocation_key_injective (mkHttpTsSessionKey "pool" "source" 12) (mkHttpTsSessionKey "pool" "source" 12)
    eq_refl eq_refl eq_refl eq_refl ltac:(done) ltac:(done) eq_refl).
Defined.

Lemma policy_bounded_witness :
  exists policy, policy_with_window (30 * NANOS_PER_SECOND) = Ok policy /\
  max_window policy <= MAX_RECOVERY_WINDOW /\ 0 < retry_delay policy.
Proof.
  eexists. split; [reflexivity|].
  destruct (policy_bounded (30 * NANOS_PER_SECOND) _ ltac:(done) eq_refl) as ([_ H1] & _ & H2 & _).
  exact (conj H1 H2).
Defined.

(** ** Broker *)

Definition demo_broker_ops : list BrokerOp :=
  [BAcquire "a"; BAcquire "b"; BDrop (mkSlotLease 1); BDestructor 0; BAcquire "b"; BSetCapacity 2; BAcquire "c"].

Lemma never_oversubscribed_witness :
  peak (broker_new "pool" 1) demo_broker_ops <= max_capacity 1 demo_broker_ops /\
  peak (broker_new "pool" 1) demo_broker_ops = 2.
Proof.
  split; [exact (never_oversubscribed "pool" 1 demo_broker_ops ltac:(done))|vm_compute; reflexivity].
Defined.

Lemma waiter_misses_no_slot_witness :
  let b := broker_run (broker_new "pool" 1) [BAcquire "a"] in
  snd (try_acquire (broker_run (fst (try_acquire b "b")) [BAcquire "a"; BSnapshot]) "b") =
  Err (AtCapacity "pool" 1 1).
Proof.
  exact (waiter_misses_no_slot "pool" 1 [BAcquire "a"] "b" "pool" 1 1
    (fst (try_acquire (broker_run (broker_new "pool" 1) [BAcquire "a"]) "b"))
    [BAcquire "a"; BSnapshot] ltac:(vm_compute; reflexivity) ltac:(vm_compute; reflexivity)
    ltac:(vm_compute; reflexivity)).
Defined.

(** ** Opening *)

Definition demo_source : HttpTsSourceSpec :=
  mkHttpTsSourceSpec (mkHttpTsSessionKey "b" "source" 1) [mkHttpTsEndpoint None "http://b/1"]
    PolicyNativeTs DirectMpegTs.

Lemma demo_providers_inv : providers_inv demo_providers.
Proof.
  apply map_Forall_insert_2; [|apply map_Forall_singleton].
  - exact (broker_run_inv (broker_new "a" 1) [BAcquire "k"] (broker_new_inv "a" 1)).
  - apply broker_new_inv.
Qed.

Lemma open_accounts_slots_witness :
  let '(providers', r) := open_source demo_providers demo_source in
  is_Some (match r with Ok x => Some x | Err _ => None end) /\
  match r with
  | Err _ => forall pool, pool_connections providers' pool = pool_connections demo_providers pool
  | Ok (endpoints, (pool, lease), adapter) =>
      exists broker l, providers' !! pool = Some broker /\ leases broker !! lease_id lease = Some l /\
         session_key l = allocation_key (src_key demo_source)
  end.
Proof.
  pose proof (open_accounts_slots demo_providers demo_source demo_providers_inv) as H.
  assert (is_Some (match snd (open_source demo_providers demo_source) with Ok x => Some x | Err _ => None end)) as Hs
    by (vm_compute; eexists; reflexivity).
  destruct (open_source demo_providers demo_source) as [providers' r]. split; [exact Hs|].
  destruct r as [[[endpoints [pool lease]] adapter]|e]; [|exact H]. exact (proj1 (proj2 (proj2 H))).
Defined.

(** ** PSI *)

Lemma demo_stream_ok : Forall (Forall is_u8) demo_stream.
Proof. apply all_packets_ok. vm_compute. reflexivity. Qed.

(** The PMT cut after its tenth byte, with stuffing behind its end. *)
Lemma section_reassembly_witness :
  sa_feed sa_default
    [(mkPacketHeader 0x100 true 15 (0 :: [] ++ take 10 demo_pmt), 7);
     (mkPacketHeader 0x100 false 0 (drop 10 demo_pmt ++ [0xff; 0xff]), 9)] =
  (sa_default, [mkCompletedSection (take 10 demo_pmt ++ drop 10 demo_pmt) 7]).
Proof.
  apply (section_reassembly sa_default (mkPacketHeader 0x100 true 15 (0 :: [] ++ take 10 demo_pmt)) 7 []
    (take 10 demo_pmt) (take 10 demo_pmt) (drop 10 demo_pmt)); try reflexivity.
  - split; [apply all_u8_ok; reflexivity|]. split; [vm_compute; split; discriminate|reflexivity].
  - rewrite <- (app_nil_r (drop 10 demo_pmt)) at 1.
    apply continues_more; [discriminate|reflexivity|reflexivity|by exists [0xff; 0xff]|constructor].
Defined.

Lemma boundaries_are_pat_starts_witness :
  snd (pt_run pt_default 0 (demo_stream ++ demo_stream)) = [0; 3] /\
  Forall (pat_start_at (demo_stream ++ demo_stream)) (snd (pt_run pt_default 0 (demo_stream ++ demo_stream))).
Proof.
  split; [vm_compute; reflexivity|].
  exact (proj1 (boundaries_are_pat_starts (demo_stream ++ demo_stream) (Forall_app_2 _ _ _ demo_stream_ok demo_stream_ok))).
Defined.

Lemma tracker_memory_bounded_witness :
  let t := fst (pt_run pt_default 0 demo_stream) in
  pt_last_pmt_section t = Some demo_pmt /\ zlen (sa_bytes (pt_pat t)) < MAX_SECTION_BYTES.
Proof.
  split; [vm_compute; reflexivity|]. exact (proj1 (tracker_memory_bounded demo_stream demo_stream_ok)).
Defined.

(** ** Pacing *)

(** A packet with nothing but a PCR. *)
Definition pcr_packet (ticks : Z) : bytes :=
  let base := ticks / 300 in
  let extension := ticks mod 300 in
  [0x47; 0x01; 0x00; 0x20; 183; 0x10; Z.shiftr base 25; Z.land (Z.shiftr base 17) 0xff;
   Z.land (Z.shiftr base 9) 0xff; Z.land (Z.shiftr base 1) 0xff;
   Z.lor (Z.shiftl (Z.land base 1) 7) (Z.shiftr extension 8); Z.land extension 0xff] ++ replicate 176 0xff.

(** One second before the counter wraps, then every half second across it. *)
Definition demo_clock : Z := PCR_WRAP_TICKS - PCR_TICKS_PER_SECOND.
Definition demo_tick (k : Z) : Z := demo_clock + k * (PCR_TICKS_PER_SECOND / 2).
Definition demo_clocks : list (bytes * Z) :=
  Eval vm_compute in map (fun k => (pcr_packet (demo_tick k mod PCR_WRAP_TICKS), 10 * k)) [1; 2; 3; 4].

Lemma demo_clocks_carried : carries_clock demo_clock demo_clocks (demo_tick 4).
Proof.
  apply (carries_clock_cons _ (demo_tick 1)); [vm_compute; split; discriminate|vm_compute; reflexivity|].
  apply (carries_clock_cons _ (demo_tick 2)); [vm_compute; split; discriminate|vm_compute; reflexivity|].
  apply (carries_clock_cons _ (demo_tick 3)); [vm_compute; split; discriminate|vm_compute; reflexivity|].
  apply (carries_clock_cons _ (demo_tick 4)); [vm_compute; split; discriminate|vm_compute; reflexivity|].
  apply carries_clock_nil.
Qed.

Lemma timeline_unwraps_witness :
  head_ticks (tl_run tl_default ((pcr_packet demo_clock, 0) :: demo_clocks)) = Some (demo_tick 4 - demo_clock).
Proof.
  exact (timeline_unwraps (pcr_packet demo_clock) 0 demo_clock demo_clocks (demo_tick 4)
    ltac:(vm_compute; reflexivity) demo_clocks_carried ltac:(vm_compute; reflexivity)).
Defined.

Lemma demo_clocks_ok :
  Forall (fun x => Forall is_u8 (fst x)) demo_clocks /\
  StronglySorted Z.lt (snd <$> demo_clocks) /\
  (zlen demo_clocks + 1) * MAX_FORWARD_JUMP_TICKS + SAMPLE_SPACING_TICKS < 2 ^ 64.
Proof.
  split; [|split; [|vm_compute; reflexivity]].
  - unfold demo_clocks. repeat (apply Forall_cons_2; [apply all_u8_ok; vm_compute; reflexivity|]). apply Forall_nil_2.
  - cbn. repeat constructor; lia.
Qed.

Lemma timeline_never_goes_back_witness :
  tl_inv (tl_run tl_default (take 2 demo_clocks ++ drop 2 demo_clocks)) /\
  tl_unwrapped (tl_run tl_default (take 2 demo_clocks)) <=
    tl_unwrapped (tl_run tl_default (take 2 demo_clocks ++ drop 2 demo_clocks)).
Proof.
  exact (timeline_never_goes_back (take 2 demo_clocks) (drop 2 demo_clocks) (proj1 demo_clocks_ok)
    (proj1 (proj2 demo_clocks_ok)) (proj2 (proj2 demo_clocks_ok))).
Defined.

Definition demo_timeline : PcrTimeline :=
  Eval vm_compute in tl_run tl_default demo_clocks.

Lemma demo_timeline_inv : tl_inv demo_timeline.
Proof.
  destruct demo_clocks_ok as (Hu & Hs & Hb).
  refine (proj1 (tl_run_inv demo_clocks tl_default Hu Hs tl_default_inv _ Hb)).
  apply Forall_true. discriminate.
Qed.

Lemma ticks_at_monotone_witness :
  exists a b h, ticks_at demo_timeline 20 = Some a /\ ticks_at demo_timeline 37 = Some b /\
    head_ticks demo_timeline = Some h /\ a <= b <= h.
Proof.
  assert (ticks_at demo_timeline 20 = Some (PCR_TICKS_PER_SECOND / 2)) as Ha by (vm_compute; reflexivity).
  destruct (ticks_at_monotone demo_timeline 20 37 _ demo_timeline_inv ltac:(lia) Ha) as (b & h & Hb & Hh & Hle).
  exists (PCR_TICKS_PER_SECOND / 2), b, h. exact (conj Ha (conj Hb (conj Hh Hle))).
Defined.

Lemma prune_keeps_lookups_witness :
  ticks_at (tl_prune demo_timeline 35) 38 = ticks_at demo_timeline 38 /\
  head_ticks (tl_prune demo_timeline 35) = head_ticks demo_timeline.
Proof. exact (prune_keeps_lookups demo_timeline 35 38 demo_timeline_inv ltac:(lia)). Defined.

(** Two batches half a second of media apart; the third comes late. *)
Lemma pacer_real_time_witness :
  let batch k := mkBatchPosition k (Some (k * (PCR_TICKS_PER_SECOND / 2))) None in
  pace (mkPacer None) [(batch 0, 100); (batch 1, 200); (batch 2, 2000000000)] =
  100 :: map (fun '(position, now) => Z.max now (pcr_due 100 0 position)) [(batch 1, 200); (batch 2, 2000000000)].
Proof.
  apply (pacer_real_time (mkBatchPosition 0 (Some (0 * (PCR_TICKS_PER_SECOND / 2))) None) 100 0); [reflexivity|].
  repeat (apply Forall_cons_2; [split; [by eexists|vm_compute; discriminate]|]). apply Forall_nil_2.
Defined.

(** ** Metering *)

(** The marks of a stream of 100 packets a second, every half second. *)
Definition demo_marks : list (Z * Z) :=
  Eval vm_compute in map (fun k => (k * (PCR_TICKS_PER_SECOND / 2), 50 * k)) (seqZ 1 20).

Lemma demo_marks_ok :
  mark_chain 0 0 demo_marks /\
  Forall (fun '(t', s') =>
    t' / PCR_TICKS_PER_SECOND - 0 / PCR_TICKS_PER_SECOND < WINDOW_SECONDS /\ is_u64 s') demo_marks.
Proof.
  split.
  - unfold demo_marks. repeat (apply mark_chain_cons; [lia|lia|]). apply mark_chain_nil.
  - unfold demo_marks.
    repeat (apply Forall_cons_2; [split; [vm_compute; reflexivity|vm_compute; split; [discriminate|reflexivity]]|]).
    apply Forall_nil_2.
Qed.

Lemma seconds_exact_witness :
  rm_seconds (meter_run rm_default
    (zip (map (fun '(t', s') => EvClock t' s') ((0, 0) :: demo_marks)) (0 :: seqZ 1 20))) =
  seconds_spec (deltas 0 demo_marks) (0 / PCR_TICKS_PER_SECOND)
    (from_option (fun '(t', _) => t') 0 (last demo_marks) / PCR_TICKS_PER_SECOND).
Proof.
  exact (seconds_exact 0 0 demo_marks (seqZ 1 20) 0 eq_refl (proj1 demo_marks_ok) ltac:(done) (proj2 demo_marks_ok)).
Defined.

(** The same stream in one burst and in real time. *)
Definition demo_delivery (pace : Z) : list (MeterEvent * Z) :=
  zip (map (fun '(t', s') => EvClock t' s') ((0, 0) :: demo_marks)) (map (fun k => k * pace) (seqZ 0 21)).

Definition demo_rates (pace : Z) : option (Z * Z * option Z * Z) :=
  (fun r => (average_bits_per_second r, peak_bits_per_second r,
             frame_rate_millihertz r, measured r)) <$> rm_rates (meter_run rm_default (demo_delivery pace)).

Lemma rates_ignore_delivery_pace_witness :
  is_Some (demo_rates 1) /\ demo_rates 1 = demo_rates 500000000.
Proof.
  split; [vm_compute; eexists; reflexivity|].
  exact (rates_ignore_delivery_pace (demo_delivery 1) (demo_delivery 500000000) ltac:(vm_compute; reflexivity)).
Defined.

(** The first packet of a video frame with its decode timestamp. *)
Definition pes_packet (dts : Z) : bytes :=
  [0x47; 0x41; 0x01; 0x10; 0; 0; 1; 0xe0; 0; 0; 0x80; 0x80; 5;
   Z.lor 0x21 (Z.shiftl (Z.shiftr dts 30) 1); Z.land (Z.shiftr dts 22) 0xff;
   Z.lor 1 (Z.shiftl (Z.land (Z.shiftr dts 15) 0x7f) 1); Z.land (Z.shiftr dts 7) 0xff;
   Z.lor 1 (Z.shiftl (Z.land dts 0x7f) 1)] ++ replicate 170 0xff.

Definition demo_frames : list (MeterEvent * Z) :=
  map (fun k => (EvVideo (pes_packet (k * 3003)), k)) (seqZ 0 40).

Lemma demo_frames_rate : rm_frame_rate (meter_run rm_default demo_frames) = Some 29970.
Proof. vm_compute. reflexivity. Qed.

Lemma frame_rate_snaps_witness :
  exists median,
    median ∈ rm_frame_gaps (meter_run rm_default demo_frames) /\
    0 < median < PTS_TICKS_PER_SECOND /\
    let measured := PTS_TICKS_PER_SECOND * 1000 / median in
    (29970 ∈ STANDARD_RATES_MILLIHERTZ /\ Z.abs (measured - 29970) * 200 <= 29970) \/
    (29970 = measured /\
     Forall (fun rate => rate < Z.abs (measured - rate) * 200) STANDARD_RATES_MILLIHERTZ).
Proof. exact (frame_rate_snaps demo_frames 29970 demo_frames_rate). Defined.

(** ** Passive analysis *)

(** A 1920 by 1080 baseline stream: 68 macroblock rows, the last cropped. *)
Definition demo_fields : SpsFields :=
  mkSpsFields 66 0xc028 0 4 (Some 2) 3 0 120 68 1 0 1 (Some (0, 0, 0, 4)).

Fixpoint pack_bits (fuel : nat) (bits : list Z) : bytes :=
  match fuel, bits with
  | O, _ | _, [] => []
  | S fuel, _ => foldl (fun acc b => 2 * acc + b) 0 (take 8 (bits ++ replicate 8 0)) :: pack_bits fuel (drop 8 bits)
  end.

Definition demo_rbsp : bytes := Eval vm_compute in pack_bits 99 (sps_code demo_fields ++ [0]).

Lemma demo_fields_ok : sps_ok demo_fields.
Proof.
  split; try (vm_compute; repeat split; first [discriminate | reflexivity]).
  split; [vm_compute; split; [discriminate|reflexivity]|]. refine (bool_decide_unpack _ _). vm_compute. exact I.
Qed.

Lemma sps_size_roundtrip_witness :
  exists fps, parse_sps demo_rbsp = Some (mkSpsInfo 1920 1080 fps).
Proof.
  exact (sps_size_roundtrip demo_fields demo_rbsp
    (drop (length (sps_code demo_fields)) (data_bits demo_rbsp)) demo_fields_ok ltac:(vm_compute; reflexivity)).
Defined.

Lemma unescape_inverts_escape_witness :
  unescape (escape [0; 0; 1; 0; 0; 0; 3; 9]) = [0; 0; 1; 0; 0; 0; 3; 9].
Proof. exact (unescape_inverts_escape [0; 0; 1; 0; 0; 0; 3; 9] (all_u8_ok [0; 0; 1; 0; 0; 0; 3; 9] eq_refl)). Defined.
