(* ===== verification/SlateWitness.v ===== *)
(** * Witnesses of the splice muxer, the slate driver and the reconciliation

    A slate and a live stream with one video stream each, whose counters and
    clocks differ; a driver that shows the slate and splices to the live
    stream; a guide with two candidates. *)
From Stdlib Require Import ZArith Lia Floats.SpecFloat.
From stdpp Require Import base numbers option strings gmap.
From stdpp Require Import list.
From S2P Require Import Prelude Psi Pacing Broker Ring Recovery Viewer Splice SpliceSpec SpliceTables.
From S2P Require Import SpliceRun SpliceContinuity SpliceClock Slate SlateSpec SlateRun Text Reconcile Witness.
Open Scope Z_scope.

(** ** Demonstration streams *)

(** A video packet that starts a PES packet: a random access point with a PCR
    and a PTS. *)
Definition demo_video (counter pcr pts : Z) : bytes :=
  let head := write_pcr_base ([0x47; 0x41; 0x01; Z.lor 0x30 counter; 7; 0x50] ++ replicate 6 0) pcr in
  let pes := [0; 0; 1; 0xe0; 0; 0; 0x80; 0x80; 5] ++ write_timestamp [0x20; 0; 0; 0; 0] pts in
  let packet := head ++ pes in
  packet ++ replicate (188 - length packet) 0xff.

Definition slate_chunk : bytes :=
  Eval vm_compute in concat [demo_pat_packet; demo_pmt_packet; demo_video 3 9000 9900].
Definition slate_more : bytes := Eval vm_compute in demo_video 4 12003 12903.
Definition live_chunk : bytes :=
  Eval vm_compute in concat [demo_pat_packet; demo_pmt_packet; demo_video 9 5000000 5000900].
Definition live_more : bytes := Eval vm_compute in demo_video 10 5003003 5003903.

(** A muxer that has written the slate and looks for the live segment. *)
Definition demo_muxer : SpliceMuxer :=
  Eval vm_compute in fst (mux_run muxer_new [BeginPending; PushPending slate_chunk; PushCurrent slate_more]).

Lemma demo_muxer_ok : mux_ok demo_muxer.
Proof.
  change demo_muxer with (fst (mux_run muxer_new [BeginPending; PushPending slate_chunk; PushCurrent slate_more])).
  eapply proj1, mux_run_good; [apply muxer_new_ok|].
  repeat (apply Forall_cons_2; [first [apply all_u8_ok; vm_compute; reflexivity | apply Forall_nil_2]|]).
  apply Forall_nil_2.
Qed.

Definition demo_map : ProgramMap :=
  mkProgramMap (Some (mkEsEntry 0x101 0x1b [])) None (Some 0x101).

Lemma demo_map_written : mx_output_map demo_muxer = Some demo_map.
Proof. vm_compute. reflexivity. Qed.

Lemma demo_map_ok : map_ok demo_map.
Proof. split; [|done]. intros e [= <-]. split; [unfold is_u8; cbn; lia|apply Forall_nil_2]. Qed.

Lemma tables_read_back_witness :
  exists pat pmt t1 t2 section,
    snd (write_tables demo_muxer) = pat ++ pmt /\ is_packet pat /\ is_packet pmt /\
    pt_observe pt_default pat 5 = (t1, None) /\ pt_observe t1 pmt (5 + 1) = (t2, Some 5) /\
    completed_pmt t2 = Some (section, PROGRAM_NUMBER) /\
    parse_pmt_elementary_streams section PROGRAM_NUMBER =
      Some (List.map entry_info (pmt_entries demo_map)) /\
    pcr_pid t2 = (if output_pcr_pid demo_map =? NULL_PID then None else Some (output_pcr_pid demo_map)).
Proof. exact (tables_read_back demo_muxer demo_map pt_default 5 demo_map_written demo_map_ok). Defined.

Definition demo_segment : Segment :=
  Eval vm_compute in match mx_current demo_muxer with Some segment => segment | None => segment_default end.

Lemma demo_segment_current : mx_current demo_muxer = Some demo_segment.
Proof. vm_compute. reflexivity. Qed.

Lemma slate_more_u8 : Forall is_u8 slate_more.
Proof. apply all_u8_ok. vm_compute. reflexivity. Qed.

(** The live segment is pending behind the slate and starts in this push. *)
Definition demo_splicing : SpliceMuxer := Eval vm_compute in begin_pending demo_muxer.

Lemma demo_splicing_ok : mux_ok demo_splicing.
Proof. exact (proj1 (mux_step_good demo_muxer BeginPending demo_muxer_ok ltac:(apply Forall_nil_2))). Qed.

Lemma live_chunk_u8 : Forall is_u8 live_chunk.
Proof. apply all_u8_ok. vm_compute. reflexivity. Qed.

Lemma splice_rebases_witness :
  let '(m', out, started) := push_pending demo_splicing live_chunk in
  started = true /\ zlen out = 4 * MPEG_TS_PACKET_SIZE /\
  exists segment, mx_current m' = Some segment /\
    Forall (emitted true (sg_offset segment) (chunks_exact MPEG_TS_PACKET_SIZE live_chunk))
      (chunks_exact MPEG_TS_PACKET_SIZE out).
Proof.
  pose proof (splice_rebases demo_splicing live_chunk demo_splicing_ok live_chunk_u8) as H.
  apply proj2 in H. revert H.
  assert (bool_decide (snd (push_pending demo_splicing live_chunk) = true) &&
          (zlen (snd (fst (push_pending demo_splicing live_chunk))) =? 4 * MPEG_TS_PACKET_SIZE) = true) as Hn
    by (vm_compute; reflexivity).
  apply andb_true_iff in Hn as [Hs%bool_decide_eq_true_1 Hn%Z.eqb_eq]. revert Hs Hn.
  generalize (push_pending demo_splicing live_chunk). intros [[m' out] started]. cbn [fst snd].
  intros -> Hn H. exact (conj eq_refl (conj Hn H)).
Defined.

(** The live segment after its tables, at its first video packet. *)
Definition live_segment : Segment :=
  Eval vm_compute in
    fst (seek demo_muxer (fst (seek demo_muxer segment_default demo_pat_packet)) demo_pmt_packet).
Definition live_video : bytes := Eval vm_compute in demo_video 9 5000000 5000900.
Definition live_started : Segment := Eval vm_compute in fst (seek demo_muxer live_segment live_video).

Lemma live_found : seek demo_muxer live_segment live_video = (live_started, true).
Proof. vm_compute. reflexivity. Qed.

Lemma live_reference : sg_latest_pcr live_started = Some 5000000.
Proof. reflexivity. Qed.

Lemma splice_clock_advances_witness :
  (mx_last_pcr demo_muxer = None -> mx_media_end demo_muxer = None ->
     forall t, rebased (sg_offset live_started) t = t mod 2 ^ 33) /\
  (forall pcr, mx_last_pcr demo_muxer = Some pcr -> exists d, 0 <= d <= 2 ^ 32 /\
     forall k, rebased (sg_offset live_started) (5000000 + k) = (pcr + d + SPLICE_STEP_TICKS + k) mod 2 ^ 33) /\
  (forall media, mx_media_end demo_muxer = Some media -> exists d, 0 <= d <= 2 ^ 32 /\
     forall k, rebased (sg_offset live_started) (5000000 + k) = (media + d + SPLICE_STEP_TICKS + k) mod 2 ^ 33).
Proof.
  exact (splice_clock_advances demo_muxer live_segment live_video live_started 5000000 live_found live_reference).
Defined.

(** ** The driver *)

Lemma retry_backoff_witness :
  next_delay 3 FailCapacity = (3, CAPACITY_RETRY_INTERVAL) /\
  forall failure, failure <> FailCapacity ->
    next_delay 3 failure =
      (Z.min (3 + 1) u32_max, if 3 <? 5 then 2 ^ 3 * NANOS_PER_SECOND else 30 * NANOS_PER_SECOND).
Proof. apply (retry_backoff 3). unfold u32_max. lia. Defined.

Definition demo_status (buffered : bool) : Viewer.ViewerStartupStatus :=
  mkViewerStartupStatus buffered None false.
Definition demo_env (now : Z) (buffered : bool) : Env := mkEnv now (demo_status buffered) (Some 1).
Definition demo_driver : SlateDriver := driver_new 0 0 Opening.

(** The slate starts and plays, the live stream opens, is spliced in and plays. *)
Definition demo_turns : list (Env * DriverEvent) :=
  [(demo_env 0 false, ETick);
   (demo_env 1 false, EIncoming (Ok (Packets 0 0 slate_chunk)));
   (demo_env 2 true, ELive (Opened (Ok 7)));
   (demo_env 3 true, EActive (Ok (Packets 0 3 slate_more)));
   (demo_env 4 true, ELive (Media (Some (Ok live_chunk))));
   (demo_env 5 true, ELive (Media (Some (Ok live_more))))].

Lemma demo_turns_u8 : Forall (fun turn => Forall is_u8 (event_bytes (snd turn))) demo_turns.
Proof.
  repeat (apply Forall_cons_2; [first [apply Forall_nil_2 | apply all_u8_ok; vm_compute; reflexivity]|]).
  apply Forall_nil_2.
Qed.

Lemma demo_opened : open_with_slates 0 0 0 None 0 [] = Some (Slated demo_driver).
Proof. reflexivity. Qed.

Lemma demo_reads : is_Some (reads_run demo_driver demo_turns (mkReads ∅ ∅ ∅)).
Proof.
  destruct (reads_run demo_driver demo_turns (mkReads ∅ ∅ ∅)) as [r|] eqn:E; [by eexists|].
  exfalso. revert E. vm_compute. discriminate.
Qed.

(** The run really splices: it ends live, with nine packets written. *)
Lemma demo_run_splices :
  dr_live (fst (driver_run demo_driver demo_turns)) = Live 7 /\
  zlen (snd (driver_run demo_driver demo_turns)) = 9 * 188.
Proof. vm_compute. split; reflexivity. Qed.

Lemma slated_stream_typed_witness :
  let '(d', out) := driver_run demo_driver demo_turns in
  zlen out mod MPEG_TS_PACKET_SIZE = 0 /\
  Forall good_packet (chunks_exact MPEG_TS_PACKET_SIZE out) /\
  (has_pending (dr_muxer d') = true <-> is_Some (dr_incoming d') \/ is_splicing (dr_live d') = true) /\
  ~ (is_Some (dr_incoming d') /\ is_splicing (dr_live d') = true) /\
  ~ (is_Some (dr_active d') /\ is_live (dr_live d') = true).
Proof.
  exact (slated_stream_typed 0 0 0 None 0 [] demo_driver demo_turns (Z.le_refl 0) demo_opened demo_turns_u8).
Defined.

Lemma slated_stream_continuous_witness :
  is_Some (cc_run ∅ (chunks_exact MPEG_TS_PACKET_SIZE (snd (driver_run demo_driver demo_turns)))).
Proof.
  exact (slated_stream_continuous 0 0 0 None 0 [] demo_driver demo_turns (Z.le_refl 0) demo_opened
           demo_turns_u8 demo_reads).
Defined.

(** A driver that waits for the first media of its viewer. *)
Definition waiting_turns : list (Env * DriverEvent) :=
  [(demo_env 0 false, ETick); (demo_env 1 false, ELive (Opened (Ok 7)))].
Definition waiting_driver : SlateDriver := Eval vm_compute in fst (driver_run demo_driver waiting_turns).

Lemma waiting_turns_u8 : Forall (fun turn => Forall is_u8 (event_bytes (snd turn))) waiting_turns.
Proof. repeat (apply Forall_cons_2; [apply Forall_nil_2|]). apply Forall_nil_2. Qed.

Lemma waiting_driver_reached : waiting_driver = fst (driver_run demo_driver waiting_turns).
Proof. vm_compute. reflexivity. Qed.

Lemma waiting_driver_waits : dr_live waiting_driver = Waiting 7 1 /\ dr_finished waiting_driver = false.
Proof. split; reflexivity. Qed.

Lemma driver_waits_bounded_witness :
  let env := demo_env (1 + NO_MEDIA_LIMIT) false in
  let d := waiting_driver in
  (forall viewer since, dr_live d = Waiting viewer since -> since + NO_MEDIA_LIMIT <= env_now env ->
     let live := dr_live (fst (driver_turn d (env, ETick))) in
     live = Splicing viewer \/ retries_by (env_now env + PROVIDER_RETRY_MAX) live) /\
  (forall retry_at failure, dr_live d = LiveIdle retry_at failure -> retry_at <= env_now env ->
     dr_live (fst (driver_turn d (env, ETick))) = Opening) /\
  (forall event retry_at failure,
     dr_live (fst (driver_turn d (env, event))) = LiveIdle retry_at failure ->
     dr_live d = LiveIdle retry_at failure \/ retry_at <= env_now env + PROVIDER_RETRY_MAX).
Proof.
  exact (driver_waits_bounded 0 0 0 None 0 [] demo_driver waiting_turns waiting_driver
    (demo_env (1 + NO_MEDIA_LIMIT) false) (Z.le_refl 0) demo_opened waiting_turns_u8 waiting_driver_reached
    (proj2 waiting_driver_waits)).
Defined.

(** A viewer that has no media when the grace time ends. *)
Definition demo_polls : list (Z * Viewer.ViewerStartupStatus) :=
  [(10, demo_status false); (60, demo_status false)].

Lemma open_fails_only_on_configuration_witness :
  exists r, open_with_slates 0 0 50 (Some (Ok 7)) 5 demo_polls = Some r /\
    forall error, r = OpenFailed error <->
      Some (Ok 7) = Some (Err error) /\ relay_error error.
Proof.
  apply (open_fails_only_on_configuration 0 0 50 (Some (Ok 7)) 5 demo_polls).
  intros viewer _. apply Exists_cons_tl, Exists_cons_hd. cbn. lia.
Defined.

(** ** Reconciliation *)

(** ASCII letters and digits. *)
Definition ascii_alphanumeric (c : Z) : bool :=
  ((0x30 <=? c) && (c <=? 0x39)) || ((0x41 <=? c) && (c <=? 0x5a)) || ((0x61 <=? c) && (c <=? 0x7a)).

(** [a1] and [a2] share the call sign [X] of the station. *)
Definition demo_station : StationEvidence := mkStationEvidence [0x73] [0x58; 0x20; 0x48; 0x44] None (Some [0x58]) None None.
Definition demo_candidate (digit : Z) : StationEvidence :=
  mkStationEvidence [0x61; digit] [0x4e] None (Some [0x78]) None None.

Lemma demo_candidates_perm :
  [demo_candidate 0x32; demo_candidate 0x31] ≡ₚ [demo_candidate 0x31; demo_candidate 0x32].
Proof. apply perm_swap. Qed.

Lemma reconcile_order_independent_witness :
  reconcile_epg ascii_alphanumeric demo_station [demo_candidate 0x32; demo_candidate 0x31] with_safe_defaults =
  reconcile_epg ascii_alphanumeric demo_station [demo_candidate 0x31; demo_candidate 0x32] with_safe_defaults.
Proof.
  exact (reconcile_order_independent ascii_alphanumeric demo_station _ _ with_safe_defaults demo_candidates_perm).
Defined.

(** The ambiguity is reported, in the order of the identifiers. *)
Lemma demo_reconcile_review :
  match reconcile_epg ascii_alphanumeric demo_station [demo_candidate 0x32; demo_candidate 0x31] with_safe_defaults with
  | Review l _ => List.map mc_epg_id l = [[0x61; 0x31]; [0x61; 0x32]]
  | _ => False
  end.
Proof. vm_compute. reflexivity. Qed.
