(* ===== verification/CatalogWitness.v ===== *)
(** * Witnesses of the playlist and the guide

    A channel whose name has a quote, a comma and a line break; a playlist cut
    in two places; an evening with two programmes. *)
From Stdlib Require Import ZArith Lia Floats.SpecFloat.
From stdpp Require Import base numbers option strings gmap.
From stdpp Require Import sets list sorting.
From S2P Require Import Prelude Text Sort M3u M3uSpec Playlist Guide.
Open Scope Z_scope.

Lemma limits_default_ok : limits_ok limits_default.
Proof. unfold limits_ok, u64_max. cbn. lia. Qed.

(** A URL parser that takes every text that starts with [http]. *)
Definition demo_url_parse (s : text) : option text := if starts_with (str "http") s then Some s else None.

Definition demo_base : text := str "http://relay".
Definition demo_token : text := str "t0k".
Definition demo_channel : ChannelRow :=
  mkChannelRow (str "7f-1") (str "5") (str "A, " ++ [0x22; 10; 0xe9; 0x22]) (str "News") None.

Definition demo_body : bytes :=
  Eval vm_compute in to_utf8 (playlist_body demo_base demo_token [demo_channel]).
Definition demo_reader : BufReader := [Ok (ztake 70 demo_body); Ok (zdrop 70 demo_body)].

Lemma demo_reader_reads : reads_all demo_reader /\ contents demo_reader = demo_body.
Proof. split; [repeat (constructor; [vm_compute; discriminate|]); constructor|vm_compute; reflexivity]. Qed.

Lemma demo_body_reads : reads_all [Ok demo_body] /\ contents [Ok demo_body] = demo_body.
Proof. split; [constructor; [vm_compute; discriminate|constructor]|vm_compute; reflexivity]. Qed.

Lemma demo_same_contents : contents demo_reader = contents [Ok demo_body].
Proof. rewrite (proj2 demo_reader_reads), (proj2 demo_body_reads). reflexivity. Qed.

Lemma m3u_chunking_irrelevant_witness :
  exists v x y, parse_m3u_visit demo_url_parse collect demo_reader limits_default [] = Some (v, x) /\
    parse_m3u_visit demo_url_parse collect [Ok demo_body] limits_default [] = Some (v, y) /\ same_outcome x y.
Proof.
  exact (m3u_chunking_irrelevant limits_default limits_default_ok demo_url_parse collect demo_reader [Ok demo_body] []
    (proj1 demo_reader_reads) (proj1 demo_body_reads) demo_same_contents).
Defined.

Lemma m3u_accounts_witness :
  exists r, parse_m3u demo_url_parse demo_reader limits_default = Some r /\
    forall entries p, r = Ok (entries, p) ->
      records_emitted (pl_stats p) = zlen entries /\ zlen entries <= max_records limits_default /\
      records_seen (pl_stats p) = records_emitted (pl_stats p) + records_skipped (pl_stats p) /\
      0 <= records_skipped (pl_stats p) <= skips_reported (pl_diagnostics p) /\
      lines_read (pl_stats p) <= bytes_read (pl_stats p) <= max_input_bytes limits_default.
Proof. exact (m3u_accounts demo_url_parse limits_default limits_default_ok demo_reader). Defined.

Definition all_plain (s : text) : bool := forallb (fun c => is_char c && negb (c =? 10) && negb (c =? 13)) s.
Lemma all_plain_ok s : all_plain s = true -> plain s.
Proof.
  intros H. apply Forall_forall. intros c Hc. unfold all_plain in H. rewrite forallb_forall in H.
  apply list_elem_of_In in Hc. specialize (H c Hc). apply andb_true_iff in H as [[H ?]%andb_true_iff ?]. split; [done|]. lia.
Qed.

Lemma no_quote s : forallb (fun c => negb (c =? 0x22)) s = true -> 0x22 ∉ s.
Proof.
  intros H Hc. rewrite forallb_forall in H. apply list_elem_of_In in Hc. specialize (H _ Hc). done.
Qed.

Lemma demo_public_ok : public_ok demo_base demo_token.
Proof.
  repeat split; try (by apply all_plain_ok); try (by apply no_quote). exists 0x68. repeat split; done.
Qed.

Lemma demo_channels_ok : Forall channel_ok [demo_channel].
Proof.
  constructor; [|constructor]. split; [by apply all_plain_ok|]. split; [by apply no_quote|].
  repeat (apply Forall_cons_2;
    [apply Forall_forall; intros c Hc; vm_compute in Hc; repeat (apply elem_of_cons in Hc as [-> | Hc]; [done|]); by apply not_elem_of_nil in Hc|]).
  constructor.
Qed.

Definition demo_stream : text := Eval vm_compute in stream_url demo_base demo_token (cr_id demo_channel).

Lemma demo_urls :
  Forall2 (fun channel url => demo_url_parse (stream_url demo_base demo_token (cr_id channel)) = Some url)
    [demo_channel] [demo_stream].
Proof. constructor; [vm_compute; reflexivity|constructor]. Qed.

Lemma demo_contents : contents demo_reader = to_utf8 (playlist_body demo_base demo_token [demo_channel]).
Proof. vm_compute. reflexivity. Qed.

Lemma demo_fits : fits limits_default 0 (playlist_lines demo_base demo_token [demo_channel]).
Proof.
  split; [|vm_compute; discriminate].
  repeat (apply Forall_cons_2; [vm_compute; discriminate|]). constructor.
Qed.

Lemma playlist_reads_back_witness :
  exists p, parse_m3u demo_url_parse demo_reader limits_default =
      Some (Ok (zip_with entry_of [demo_channel] [demo_stream], p)) /\
    pl_header p = mkM3uHeader (attribute_map [guide_attribute demo_base demo_token] ∅) (header_line demo_base demo_token) /\
    pl_diagnostics p = [] /\ records_emitted (pl_stats p) = zlen [demo_channel] /\ records_skipped (pl_stats p) = 0.
Proof.
  apply (playlist_reads_back demo_url_parse limits_default limits_default_ok demo_base demo_token demo_public_ok
    [demo_channel] [demo_stream] demo_reader demo_channels_ok demo_urls (proj1 demo_reader_reads) demo_contents demo_fits).
  vm_compute. discriminate.
Defined.

(** ** The guide *)

(** Two programmes, with a gap of half an hour between them. *)
Definition demo_spans : list (Z * Z) := [(hours 3, hours 4); (hours 1, hours 2 + minutes 30)].

Lemma demo_spans_ok : Forall (fun span : Z * Z => fst span <= snd span) demo_spans.
Proof. repeat (constructor; [vm_compute; discriminate|]). constructor. Qed.

Lemma demo_blocks :
  firstn 2 (skipn 2 (no_program_blocks (hours 1) demo_spans)) =
  [(hours (-1), hours 1); (hours 2 + minutes 30, hours 3)].
Proof. vm_compute. reflexivity. Qed.

Lemma placeholders_fill_guide_witness :
  let now := hours 1 in
  let window_start := now - hours GUIDE_WINDOW_PAST_HOURS in
  let window_end := now + hours GUIDE_WINDOW_FUTURE_HOURS in
  let blocks := no_program_blocks now demo_spans in
  StronglySorted (fun x y : Z * Z => snd x <= fst y) blocks /\
  Forall (fun block => window_start <= fst block < snd block /\ snd block <= window_end /\
    snd block - fst block <= hours 2 /\
    (snd block mod nanos_per_hour = 0 \/ ends_at window_end demo_spans (snd block)) /\ free_of demo_spans block) blocks /\
  forall t, window_start <= t < window_end ->
    Exists (fun span => covers span t) demo_spans \/ Exists (fun block => covers block t) blocks \/
    exists next, t < next < t + minutes 1 /\ ends_at window_end demo_spans next.
Proof. exact (placeholders_fill_guide (hours 1) demo_spans demo_spans_ok). Defined.
