(* ===== verification/HlsWitness.v ===== *)
(** * Witnesses for the credential broker and the input processes

    The theorems of [HlsSpec], [HlsManifest] and [Process] that have
    hypotheses, applied to a small session: a table of tokens with the default
    limits, a manifest with a key, a segment and a nested playlist, and a
    process that writes one packet in two reads. *)
From Stdlib Require Import ZArith Lia.
From stdpp Require Import base numbers option strings.
From stdpp Require Import list gmap.
From S2P Require Import Prelude Text Hls HlsSpec HlsManifest Ring RingSpec Recovery Upstream Process.
Open Scope Z_scope.

(** A URL library in which a URL is its text and a relative reference is
    appended to the base. *)
#[local] Instance text_urls : Urls text := {
  url_parse s := if starts_with (str "http://") s then Some s else None;
  url_join base s := Some (if starts_with (str "http://") s then s else base ++ str "/" ++ s);
  url_scheme _ := str "http";
  url_username _ := [];
  url_password _ := None;
  url_host_str s :=
    rest ← strip_prefix (str "http://") s;
    Some (fst (span (fun c => negb ((c =? 0x3a) || (c =? 0x2f))) rest));
  url_path s := s;
  url_fragment _ := None;
  url_as_str s := s
}.

Definition demo_digest (b : bytes) : bytes := b.
Definition demo_at (now : Z) : Readings := mkReadings (fun _ => now) now.
Definition demo_base : text := str "http://provider/live".
Definition demo_ask (now : Z) : TokenOp text := OpTake (str "aa") now.
Definition demo_issue : TokenOp text := OpInsert (str "aa") demo_base Manifest (demo_at 0).

(** ** The token table *)

Lemma token_table_refines_witness :
  0 <= max_requests_per_token default_hls_config /\
  snd (token_run demo_digest default_hls_config ∅ [demo_issue; demo_ask SECOND]) =
  snd (grant_run demo_digest default_hls_config ∅ [demo_issue; demo_ask SECOND]).
Proof.
  split; [done|].
  apply (token_table_refines demo_digest default_hls_config [demo_issue; demo_ask SECOND] 0); [done|done|].
  split; [intros key; cbn; lia|]. split; [cbn; unfold SECOND; lia|done].
Defined.

(** With the default limits the manifest of a session can be read four times:
    the fifth request finds nothing. *)
Lemma link_serves_witness :
  served demo_digest (to_utf8 (str "aa")) (List.map demo_ask [1; 2; 3; 4; 5])
    (snd (token_run demo_digest default_hls_config
            (fst (token_op demo_digest default_hls_config ∅ demo_issue)) (List.map demo_ask [1; 2; 3; 4; 5]))) =
  [Some (demo_base, Manifest); Some (demo_base, Manifest); Some (demo_base, Manifest); Some (demo_base, Manifest);
   None].
Proof.
  etransitivity;
    [apply (link_serves demo_digest default_hls_config 0 [] (str "aa") demo_base Manifest (demo_at 0)
              (List.map demo_ask [1; 2; 3; 4; 5]))|vm_compute; reflexivity].
  - done.
  - cbn. repeat split; intros; lia.
  - vm_compute. reflexivity.
  - repeat constructor.
Defined.

(** ** A manifest *)

Definition demo_draw (n : nat) : Draw text :=
  mkDraw (if bool_decide (n = 1%nat) then [demo_ask 7] else []) (str "t" ++ [0x30 + Z.of_nat n mod 10]) (demo_at 10).
Definition demo_broker : HlsBroker text := mkHlsBroker default_hls_config (str "http://127.0.0.1:9/hls") demo_draw.
Definition demo_tokens : HlsTokens text := mkHlsTokens (fst (token_op demo_digest default_hls_config ∅ demo_issue)) 0.

Definition demo_key_line (uri : text) : text :=
  str "#EXT-X-KEY:METHOD=AES-128,URI=" ++ [0x22] ++ uri ++ [0x22] ++ str ",IV=0x1".
Definition demo_manifest : text :=
  concat (List.map unline [str "#EXTM3U"; demo_key_line (str "k.key"); []; str "seg.ts"; str "low.m3u8?x=1"]).
Definition demo_output : text :=
  concat (List.map unline
    [str "#EXTM3U"; demo_key_line (str "http://127.0.0.1:9/hls/t0/resource.key"); [];
     str "http://127.0.0.1:9/hls/t1/resource.ts"; str "http://127.0.0.1:9/hls/t2/resource.bin"]).

Lemma demo_rewritten :
  snd (rewrite_hls_manifest demo_digest demo_broker demo_tokens demo_base (to_utf8 demo_manifest)) = Some demo_output.
Proof. vm_compute. reflexivity. Qed.

Lemma manifest_rewritten_witness :
  exists st' out, rewrite_hls_manifest demo_digest demo_broker demo_tokens demo_base (to_utf8 demo_manifest) = (st', Some out).
Proof.
  apply (manifest_rewritten demo_digest demo_broker demo_tokens demo_base (to_utf8 demo_manifest) demo_manifest
    [demo_key_line (str "k.key"); []; str "seg.ts"; str "low.m3u8?x=1"]
    [[str "k.key"]; []; [str "seg.ts"]; [str "low.m3u8?x=1"]]).
  - vm_compute. discriminate.
  - vm_compute. reflexivity.
  - vm_compute. reflexivity.
  - vm_compute. reflexivity.
  - repeat constructor; vm_compute; eexists; reflexivity.
  - vm_compute. discriminate.
Defined.

Lemma demo_clean : clean_links demo_broker.
Proof.
  split; [apply str_no_U; vm_compute; reflexivity|]. intros n Hin. cbn in Hin.
  pose proof (Z.mod_pos_bound (Z.of_nat n) 10). rewrite !elem_of_cons, elem_of_nil in Hin. lia.
Qed.

Lemma manifest_only_links_witness :
  exists ops ins outs,
    lines demo_manifest = str "#EXTM3U" :: ins /\ demo_output = concat (List.map unline (str "#EXTM3U" :: outs)) /\
    Forall2 (LineTo demo_digest demo_broker (hs_tokens demo_tokens) ops demo_base) ins outs.
Proof.
  destruct (rewrite_hls_manifest demo_digest demo_broker demo_tokens demo_base (to_utf8 demo_manifest))
    as [st' out] eqn:E.
  assert (out = Some demo_output) as Hout by (rewrite <- demo_rewritten, E; reflexivity). subst out.
  destruct (manifest_only_links demo_digest demo_broker demo_tokens demo_base (to_utf8 demo_manifest) st' demo_output
    demo_clean E) as (ops & manifest & ins & outs & _ & Hutf & Hlines & Hout & Hall).
  exists ops, ins, outs. split; [|split; [exact Hout|exact Hall]].
  assert (manifest = demo_manifest) as -> by (vm_compute in Hutf; injection Hutf as <-; vm_compute; reflexivity).
  exact Hlines.
Defined.

(** ** A process *)

Definition demo_packet : bytes := 0x47 :: replicate 187 0.
Definition demo_events : list ProcessEvent :=
  [StdoutRead (Ok (take 100 demo_packet)) 1 1; StdoutRead (Ok (drop 100 demo_packet)) 2 2; StdoutRead (Ok []) 3 3].
Definition demo_child : Child := mkChild (Ok tt) None (Ok (Some 0)).
Definition demo_process_ring : MpegTsRingConfig := mkMpegTsRingConfig 4 1.


Lemma slot_outlives_process_witness :
  cl_lease_held (fold_left cleanup_step [ProcessReported (Completed true (Some 0)); BrokerEnded BrokerOk] cleanup_start) = false /\
  cl_phase (fold_left cleanup_step [ProcessReported (Completed true (Some 0)); BrokerEnded BrokerOk] cleanup_start) = CleanupDone.
Proof.
  split; [reflexivity|].
  apply (slot_outlives_process [ProcessReported (Completed true (Some 0)); BrokerEnded BrokerOk]). reflexivity.
Defined.
