(* ===== verification/EventWitness.v ===== *)
(** * Witnesses for the event rules, the event scan and sports

    The theorems of [EventSpec], [EventScanSpec], [SportsSpec] and [ArtSpec] that
    have hypotheses, applied with a clock in UTC and an expression that reads a time and two
    teams. *)
From Stdlib Require Import ZArith Lia.
From stdpp Require Import base numbers option strings.
From stdpp Require Import list gmap sorting.
From S2P Require Import Prelude Text F32 Sort M3u Hls Events EventGuide EventSpec Sports SportsClient SportsSpec ArtSpec.
From S2P Require Import EventScan EventScanSpec.
Open Scope Z_scope.

(** ** A regular expression and a clock *)

(** An expression of a date reads none; every other expression reads
    [<time> <home> vs <away>], and one is refused. *)
#[local] Instance demo_regexes : Regexes text := {
  regex_new s := if bool_decide (s = str "(") then Err (str "unclosed group") else Ok s;
  capture_names _ := [None; Some (str "time"); Some (str "home"); Some (str "away")];
  regex_captures regex s :=
    _ ← (if starts_with (str "(?i)(?P<datetime>") regex then None else Some tt);
    '(time, teams) ← split_once 0x20 s;
    '(home, away) ← split_once_text (str " vs ") teams;
    Some [Some s; Some time; Some home; Some away]
}.

#[local] Instance demo_chrono : Chrono unit := {
  tz_from_str s := if bool_decide (s = str "UTC") then Some tt else None;
  tz_name _ := str "UTC";
  local_date _ instant := instant / 1000000000 / seconds_per_day;
  from_local_datetime _ naive := LocalSingle (nanos_of_seconds (fst naive * seconds_per_day + snd naive));
  from_ymd_opt _ _ _ := None;
  date_year _ := 2024;
  succ_opt date := Some (date + 1);
  from_hm_opt hour minute :=
    if (0 <=? hour) && (hour <? 24) && (0 <=? minute) && (minute <? 60) then Some (hour * 3600 + minute * 60) else None;
  parse_datetime _ _ := None;
  parse_naive_datetime _ _ := None;
  parse_naive_date _ _ := None;
  utc_min := nanos_of_seconds (- 8334601228800);
  utc_max := nanos_of_seconds 8210266876799;
  date_to_string _ := str "date";
  naive_to_string _ := str "local time";
  to_rfc3339 _ := str "instant"
}.

#[local] Instance demo_chrono_laws : ChronoLaws unit.
Proof.
  unshelve refine {| utc_offset := fun _ _ => 0 |}.
  - reflexivity.
  - intros date next [= <-]. reflexivity.
  - intros tz instant. cbn. by rewrite Z.add_0_r.
  - intros tz date clock instant [= <-]. cbn. by rewrite Z.sub_0_r.
Defined.

Definition identity (s : text) : text := s.
Definition hour_of (now : Z) : option Z := Some (now - now mod nanos_of_seconds 3600).
Lemma hour_of_law now hour : hour_of now = Some hour -> hour <= now.
Proof. intros [= <-]. pose proof (Z.mod_pos_bound now (nanos_of_seconds 3600) ltac:(reflexivity)). lia. Qed.
Definition local_form (tz : unit) (instant : Z) : text := str "19:00".

(** Noon of a day, and the matches of the evening. *)
Definition demo_noon : Z := nanos_of_seconds (20000 * 86400 + 43200).
Definition at_hour (hour : Z) : Z := nanos_of_seconds (20000 * 86400 + hour * 3600).
Definition demo_rule : EventRule :=
  builtin_sports_rule 6 "Built-in sports: vs (time only)" "vs" None "{home} vs {away}".
Definition demo_captures : gmap text text :=
  {[str "time" := str "7:00pm"; str "home" := str "Reds"; str "away" := str "Blues"]}.
Definition demo_match (start : option Z) : MatchedEvent := mkMatchedEvent demo_rule start demo_captures.
Definition demo_name : text := str "7:00pm Reds vs Blues".

Lemma demo_rule_ok : rule_ok demo_rule.
Proof. unfold rule_ok. cbn. lia. Qed.

(** ** Clock times *)

Lemma clock_times_read_back_witness :
  parse_clock_time (print_meridiem 0 5) = Ok 300 /\ parse_clock_time (print_24h 0 5) = Ok 300.
Proof. exact (clock_times_read_back 0 5 ltac:(lia) ltac:(lia)). Defined.

Lemma demo_start : resolve_time_only_start (str "7:00pm") demo_noon (str "UTC") = Ok (at_hour 19).
Proof. vm_compute. reflexivity. Qed.

Lemma demo_offsets tz t t' :
  tz_from_str (str "UTC") = Some tz -> Z.abs (utc_offset tz t - utc_offset tz t') <= 7200.
Proof. intros _. cbn. lia. Qed.

Lemma time_only_start_is_near_witness :
  exists tz clock day, tz_from_str (str "UTC") = Some tz /\ parse_clock_time (str "7:00pm") = Ok clock /\
    (day = local_date tz demo_noon \/ day = local_date tz demo_noon + 1) /\
    at_hour 19 = nanos_of_seconds (day * seconds_per_day + clock - utc_offset tz (at_hour 19)) /\
    demo_noon - nanos_of_seconds (TIME_ONLY_LOOKBACK_HOURS * 3600) <= at_hour 19
      < demo_noon + nanos_of_seconds (26 * 3600).
Proof.
  exact (time_only_start_is_near (str "7:00pm") demo_noon (str "UTC") (at_hour 19)
    demo_offsets demo_start).
Defined.

(** ** Rules and schedules *)

Definition refused_rule : EventRule :=
  builtin_sports_rule 7 "refused" "(" None "{home} vs {away}".
Definition demo_json (input : bytes) : result EventRuleSet text := Ok [demo_rule; refused_rule; demo_rule].
Definition small_limits : ParseLimits :=
  mkParseLimits 4096 1024 10 1024 64.
Definition demo_document : EventRuleDocument :=
  Eval vm_compute in
    match parse_event_rules demo_json [Ok [0x5b; 0x5d]] small_limits with
    | Ok document => document
    | Err _ => mkEventRuleDocument [] [] (mkParseStats 0 0 0 0 0 0 0 0)
    end.

Lemma demo_document_parses : parse_event_rules demo_json [Ok [0x5b; 0x5d]] small_limits = Ok demo_document.
Proof. vm_compute. reflexivity. Qed.

(** Of three rules one has an expression that is refused and one is repeated. *)
Lemma accepted_rules_compile_witness :
  zlen (ed_rules demo_document) = 1 /\
  (exists compiled, compile_rules (ed_rules demo_document) = Ok compiled) /\
  NoDup (List.map er_name (ed_rules demo_document)) /\ NoDup (List.map er_id (ed_rules demo_document)) /\
  records_emitted (ed_stats demo_document) = zlen (ed_rules demo_document) /\
  records_seen (ed_stats demo_document) =
    records_emitted (ed_stats demo_document) + records_skipped (ed_stats demo_document) /\
  records_skipped (ed_stats demo_document) <= zlen (ed_diagnostics demo_document).
Proof.
  split; [vm_compute; reflexivity|].
  exact (accepted_rules_compile demo_json [Ok [0x5b; 0x5d]] small_limits demo_document demo_document_parses).
Defined.

(** Two matches that overlap and one before the window. *)
Definition demo_inputs : list (MatchedEvent * text) :=
  [(demo_match (Some (at_hour 19)), demo_name); (demo_match (Some (at_hour 20)), str "second");
   (demo_match (Some (at_hour 2)), str "early")].
Definition demo_schedule : list GeneratedProgramme :=
  Eval vm_compute in
    match generate_event_schedule identity demo_inputs (at_hour 12) (at_hour 24) (str "No programs") with
    | Ok programmes => programmes
    | Err _ => []
    end.

Lemma event_inputs_ok : Forall (fun input => rule_ok (me_rule (fst input))) demo_inputs.
Proof. repeat (constructor; [exact demo_rule_ok|]). constructor. Qed.
Lemma demo_schedule_built :
  generate_event_schedule identity demo_inputs (at_hour 12) (at_hour 24) (str "No programs") = Ok demo_schedule.
Proof. vm_compute. reflexivity. Qed.

Lemma schedule_tiles_window_witness :
  List.map pg_kind demo_schedule = [FillerProgramme; EventProgramme; FillerProgramme] /\
  tiles (at_hour 12) (at_hour 24) demo_schedule /\
  exists events,
    Forall2 (fun input event => build_event_programme identity (fst input) (snd input) = Ok event) demo_inputs events /\
    (forall p, p ∈ demo_schedule -> pg_kind p = EventProgramme ->
       exists e, e ∈ events /\ in_window (at_hour 12) (at_hour 24) e /\ p = clip (at_hour 12) (at_hour 24) e) /\
    (forall e, e ∈ events -> in_window (at_hour 12) (at_hour 24) e ->
       clip (at_hour 12) (at_hour 24) e ∈ demo_schedule \/
       exists k, k ∈ events /\ clip (at_hour 12) (at_hour 24) k ∈ demo_schedule /\ overlap k e /\ event_le k e = true).
Proof.
  split; [vm_compute; reflexivity|].
  exact (schedule_tiles_window identity demo_inputs (at_hour 12) (at_hour 24) (str "No programs") demo_schedule
    event_inputs_ok demo_schedule_built).
Defined.

(** A captured duration of more than [i64::MAX / 1000] seconds ends in the
    panic of [TimeDelta::seconds], not in [DateOverflow]. *)
Example long_duration_panics :
  build_event_programme identity
    (mkMatchedEvent demo_rule (Some (at_hour 19)) (<[str "duration" := str "9999999999999999s"]> demo_captures)) demo_name
  = Err GuidePanic.
Proof. vm_compute. reflexivity. Qed.

(** ** The scan *)

Lemma states_progress_witness :
  state_rank (state_at (at_hour 19) (at_hour 22) (nanos_of_seconds 3600) (at_hour 20)) <=
  state_rank (state_at (at_hour 19) (at_hour 22) (nanos_of_seconds 3600) (at_hour 23)).
Proof. exact (states_progress _ _ _ (at_hour 20) (at_hour 23) ltac:(vm_compute; discriminate)). Defined.

Definition demo_template : EventTemplateRow :=
  mkEventTemplateRow 5 (str "Matches") (str "vs") (str "{home} - {away}") 3 2 7 (str "UTC").
Definition demo_stream (channel : Z) (name : text) : EventScanCandidate :=
  mkEventScanCandidate channel name (Some (str "Sports")) None None.
Lemma planned_event_present_witness :
  planned_event identity (demo_match None) demo_name (at_hour 19) <> Err (PlanSkip NoEventProgramme).
Proof. exact (planned_event_present identity (demo_match None) demo_name (at_hour 19) demo_rule_ok ltac:(by eexists)). Defined.

Definition demo_scanner : @EventChannelScanner text :=
  mkEventChannelScanner [(demo_template, Some (str "vs"))] None demo_noon default_scan_settings.
Definition demo_streams : list EventScanCandidate := [demo_stream 1 (str "News"); demo_stream 1 demo_name].

(** The cache the first scan of the streams leaves. *)
Definition warm_cache : gmap (nat * text) (result (list (CompiledRule text)) ParseError) :=
  {[(0%nat, str "UTC") := compile_template_rules demo_template (str "UTC") default_scan_settings]}.

Lemma warm_cache_ok : cache_ok demo_scanner warm_cache.
Proof.
  apply map_Forall_singleton. cbn. intros template regex [= <- <-]. reflexivity.
Qed.

Lemma cache_unobservable_witness :
  let '(cache', report', outcome) :=
    evaluate identity tt (str "label") hour_of local_form demo_scanner demo_streams warm_cache empty_report in
  cache_ok demo_scanner cache' /\
  (report', outcome) =
  (let '(report, decision) :=
     first_decision (concat (List.map (fun stream =>
       verdicts identity tt (str "label") hour_of local_form demo_scanner stream (sc_templates demo_scanner)) demo_streams))
       empty_report in
   (report, default NoMatch decision)).
Proof.
  pose proof (cache_unobservable identity tt (str "label") hour_of local_form demo_scanner demo_streams warm_cache empty_report
    warm_cache_ok) as Hsame. exact Hsame.
Defined.

(** ** ESPN *)

Definition is_letter (c : Z) : bool := is_ascii_alphanumeric c.
Definition lower (c : Z) : text := [to_ascii_lowercase c].
Definition reds : EspnTeam :=
  mkEspnTeam (str "1") (str "Portland Reds") (str "Reds") (str "Portland") (str "Reds") (str "POR") None.
Definition blues : EspnTeam :=
  mkEspnTeam (str "2") (str "Boston Blues") (str "Blues") (str "Boston") (str "Blues") (str "BOS") None.
Definition raw_team (team : EspnTeam) : RawTeam :=
  mkRawTeam (tm_id team) (tm_display_name team) (tm_short_display_name team) (tm_location team) (tm_name team)
    (tm_abbreviation team) (Some (str "https://a.espncdn.com/" ++ tm_id team ++ str ".png")) [].
Definition raw_game : RawEvent :=
  mkRawEvent (str "401") (str "Blues at Reds") (str "19:00")
    [mkRawCompetition (Some (Some (str "Rose Garden"))) [[str "ESPN"]; [str "ABC"; str "ESPN"]]
       [mkRawCompetitor (str "home") (raw_team reds); mkRawCompetitor (str "away") (raw_team blues)]].

(** A decoder that reads every body as one game, at seven in the evening. *)
Definition demo_board (body : bytes) : option RawScoreboard := Some [raw_game].
Definition demo_rfc3339 (s : text) : option Z := Some (at_hour 19).
Definition demo_ymd (date : Z) : text := str "20241004".
Definition answers (s : text) : option bytes := if starts_with (str "http") s then Some [0x7b; 0x7d] else None.
Definition exchange_at (now : Z) : Exchange := mkExchange now now answers now now.
Definition demo_world (index : nat) : Exchange * Exchange := (exchange_at demo_noon, exchange_at demo_noon).

(** A source that names the home team first with [@]: the least confidence. *)
Lemma confidence_range_witness :
  score_event is_letter lower (mkMatchQuery (str "The Reds now") (str "The Blues now") At None)
    (mkEspnEvent (str "401") [] 0 reds blues None []) = Some (f32_mul (hundredths 75) (hundredths 90), true) /\
  f32_lt (f32_mul (hundredths 75) (hundredths 90)) MIN_TEAM_SCORE = true.
Proof.
  assert (score_event is_letter lower (mkMatchQuery (str "The Reds now") (str "The Blues now") At None)
    (mkEspnEvent (str "401") [] 0 reds blues None []) = Some (f32_mul (hundredths 75) (hundredths 90), true)) as Hscore
    by (vm_compute; reflexivity).
  split; [exact Hscore|].
  exact (proj2 (proj2 (proj2 (confidence_range is_letter lower _ _ _ _ Hscore))) (conj eq_refl (conj eq_refl eq_refl))).
Defined.

Lemma circuit_breaker_witness :
  let st := client_run default_espn_config client_new
    ([OpRecord true 0] ++ List.map (OpRecord false) ([1; 2] ++ [3]) ++ [OpCheck 4; OpRecord true 5]) in
  refused st (nanos_of_seconds 59) /\
  forall url x, x_checked x = nanos_of_seconds 59 -> get default_espn_config st url x = (st, Err CircuitOpen).
Proof.
  exact (circuit_breaker default_espn_config [OpRecord true 0] [1; 2] 3 [OpCheck 4; OpRecord true 5] (nanos_of_seconds 59)
    ltac:(vm_compute; split; [reflexivity|discriminate]) ltac:(vm_compute; reflexivity)
    ltac:(repeat constructor; vm_compute; try reflexivity; discriminate) ltac:(vm_compute; reflexivity)).
Defined.

Definition three_failures : list ClientOp := List.map (OpRecord false) [1; 2; 3].
Lemma circuit_refuses_only_after_failures_witness :
  exists before t after, three_failures = before ++ OpRecord false t :: after /\
    nanos_of_seconds 60 < t + open_for default_espn_config /\
    failure_threshold default_espn_config <= streak (before ++ [OpRecord false t]).
Proof.
  exact (circuit_refuses_only_after_failures default_espn_config three_failures (nanos_of_seconds 60)
    ltac:(vm_compute; reflexivity) ltac:(vm_compute; reflexivity)).
Defined.

#[local] Instance key_chrono : Chrono unit := {
  tz_from_str := tz_from_str;
  tz_name := tz_name;
  local_date := local_date;
  from_local_datetime := from_local_datetime;
  from_ymd_opt := from_ymd_opt;
  date_year := date_year;
  succ_opt := succ_opt;
  from_hm_opt := from_hm_opt;
  parse_datetime := parse_datetime;
  parse_naive_datetime := parse_naive_datetime;
  parse_naive_date s _ := if bool_decide (s = str "20241004") then Some 20000 else None;
  utc_min := utc_min;
  utc_max := utc_max;
  date_to_string := date_to_string;
  naive_to_string := naive_to_string;
  to_rfc3339 := to_rfc3339
}.

Lemma event_key_reads_back_witness :
  event_key demo_ymd (str "NHL") 20000 (str "401") = Some (str "NHL-20241004-401") /\
  parse_event_key (H := key_chrono) (str "NHL-20241004-401") = Some (Nhl, 20000, str "401").
Proof.
  split; [vm_compute; reflexivity|].
  exact (event_key_reads_back (H := key_chrono) demo_ymd Nhl 20000 (str "401") (str "NHL-20241004-401")
    ltac:(vm_compute; set_solver) ltac:(vm_compute; reflexivity) ltac:(vm_compute; reflexivity)).
Defined.

(** Two worlds in which a host outside ESPN answers differently. *)
Definition art_env (other : option bytes) : ArtEnv :=
  let x := mkExchange 0 0 (fun url => if espn_url default_espn_config url then answers url else other) 0 0 in
  mkArtEnv x x x 0 true (fun _ => true).
Lemma art_env_same other other' : same_env default_espn_config (art_env other) (art_env other').
Proof. repeat split; cbn; intros url Hurl; by rewrite Hurl. Qed.

Lemma art_asks_only_espn_witness :
  art_get (H := key_chrono) demo_board demo_rfc3339 demo_ymd (fun away home => Some (away ++ home)) default_espn_config false
    DEFAULT_MAX_BYTES ∅ client_new (str "NHL-20241004-401") (art_env None) =
  art_get (H := key_chrono) demo_board demo_rfc3339 demo_ymd (fun away home => Some (away ++ home)) default_espn_config false
    DEFAULT_MAX_BYTES ∅ client_new (str "NHL-20241004-401") (art_env (Some [1])) /\
  snd (art_get (H := key_chrono) demo_board demo_rfc3339 demo_ymd (fun away home => Some (away ++ home)) default_espn_config false
    DEFAULT_MAX_BYTES ∅ client_new (str "NHL-20241004-401") (art_env None)) = Ok [0x7b; 0x7d; 0x7b; 0x7d].
Proof.
  split; [|vm_compute; reflexivity].
  exact (art_asks_only_espn (H := key_chrono) demo_board demo_rfc3339 demo_ymd (fun away home => Some (away ++ home))
    default_espn_config DEFAULT_MAX_BYTES ∅ client_new (str "NHL-20241004-401") (art_env None) (art_env (Some [1]))
    (art_env_same None (Some [1]))).
Defined.

(** ** A whole scan *)

(** Three channels: one without an event, one of this evening and one of the
    night before, whose guide is over. *)
Definition demo_candidates : list EventScanCandidate :=
  [mkEventScanCandidate 1 (str "News") None None None;
   mkEventScanCandidate 1 demo_name (Some (str "NHL")) None None;
   demo_stream 2 (str "News"); demo_stream 3 (str "1:00am Reds vs Blues")].
Definition demo_scan : option (@ScanResult unit) :=
  run_event_scan identity tt (str "label") hour_of local_form demo_board demo_rfc3339 demo_ymd is_letter lower demo_world
    [demo_template] None demo_candidates None demo_noon default_scan_settings (Some (default_espn_config, client_new)).
Definition demo_result : @ScanResult unit := default (mkScanResult [] [] empty_report None) demo_scan.
Lemma demo_scan_ends : demo_scan = Some demo_result.
Proof.
  unfold demo_result. assert ((if demo_scan then true else false) = true) as Hsome by (vm_compute; reflexivity).
  destruct demo_scan; [reflexivity|discriminate].
Qed.

Lemma scan_accounts_witness :
  counts (sr_report demo_result) = (3, 2, 1, 1) /\
  let report := sr_report demo_result in
  channels_scanned report = zlen (group_rows demo_candidates) /\
  rp_matched report = rp_scheduled report + rp_skipped report /\
  rp_scheduled report
    = zlen (List.filter (fun plan => negb (bool_decide (pe_state plan = Hidden))) (sr_written demo_result)) /\
  zlen (rp_skips report) <= MAX_EVENT_SCAN_SKIPS.
Proof.
  split; [vm_compute; reflexivity|].
  exact (scan_accounts identity tt (str "label") hour_of local_form demo_board demo_rfc3339 demo_ymd is_letter lower demo_world
    [demo_template] None demo_candidates None demo_noon default_scan_settings (Some (default_espn_config, client_new))
    demo_result ltac:(vm_compute; discriminate) demo_scan_ends).
Defined.

(** The evening's channel is titled by ESPN. *)
Lemma scan_guides_cover_now_witness :
  List.map (fun plan => (pg_title (pe_event plan), zlen (pe_programmes plan))) (sr_written demo_result) =
    [(str "Boston Blues at Portland Reds", 3); (str "Reds - Blues", 0)] /\
  Forall (plan_covers demo_noon) (sr_written demo_result).
Proof.
  split; [vm_compute; reflexivity|].
  exact (scan_guides_cover_now identity tt (str "label") hour_of local_form hour_of_law demo_board demo_rfc3339 demo_ymd
    is_letter lower demo_world [demo_template] None demo_candidates None demo_noon default_scan_settings
    (Some (default_espn_config, client_new)) demo_result ltac:(vm_compute; discriminate) demo_scan_ends).
Defined.
