(* ===== verification/AuthWitness.v ===== *)
(** * Witnesses for authentication and settings

    An evening at the relay: a browser gets a CSRF cookie, signs in, changes
    something; an operator token is added and revoked.  The digest here keeps
    the first 32 bytes. *)
From Stdlib Require Import ZArith Lia.
From stdpp Require Import base numbers option strings.
From stdpp Require Import list gmap.
From S2P Require Import Prelude Text Hls HlsSpec Auth AuthSpec Settings M3u Events EventGuide Sports SportsClient EventScan EventScanSpec.
Open Scope Z_scope.

Definition first32 (b : bytes) : bytes := take 32 (b ++ replicate 32 0).
Lemma first32_length b : length (first32 b) = 32%nat.
Proof. unfold first32. rewrite length_take, length_app, length_replicate. lia. Qed.

Definition demo_config : AuthConfig := mkAuthConfig (str "hash of pw") (first32 (to_utf8 (str "boot"))) true false.
Definition demo_fits (expected password : text) : bool := bool_decide (expected = str "hash of " ++ password).

(** The headers of a browser before and after it has signed in. *)
Definition visitor : list (text * option text) :=
  [(str "cookie", Some (str "theme=dark; iptv_csrf=c0")); (CSRF_HEADER, Some (str "c0"))].
Definition signed_in : list (text * option text) :=
  [(str "cookie", Some (str "iptv_session=s1; iptv_csrf=c1")); (CSRF_HEADER, Some (str "c1"))].
Definition api_client : list (text * option text) := [(str "authorization", Some (str "Bearer api"))].

Definition ana : SessionUser := mkSessionUser (str "u1") (str "ana") (str "Ana") [CONTROL_SCOPE; OUTPUT_SCOPE].
Definition ana_stored : StoredUserCredential := mkStoredUserCredential ana (str "hash of secret").
Definition ana_token : OperatorTokenRecord :=
  mkOperatorTokenRecord 7 (hash first32 (str "api")) [READ_SCOPE] (Some 1000).

Definition issue : AuthOp :=
  OpIssue (Some (LoginBinding (hash first32 (str "c0")))) ana (str "s1") (str "c1") 10.
Definition evening : list AuthOp :=
  [OpEnsureCsrf [] 0 (Some (str "c0")); OpVerify visitor 5; issue; OpAddToken ana_token;
   OpAuthorize signed_in true (Some CONTROL_SCOPE) 20 20].

Lemma session_authorized_witness :
  exists token before binding user session_token csrf t after,
    cookie signed_in SESSION_COOKIE = Some token /\
    evening = before ++ OpIssue binding user session_token csrf t :: after /\
    hash first32 session_token = hash first32 token /\ 30 < t + SESSION_TTL /\
    Forall (fun op => ~ ends_session first32 (hash first32 token) op) after /\
    scope_allowed (su_scopes user) (Some CONTROL_SCOPE) = true /\
    (true = true -> exists header_csrf cookie_csrf,
       header_get signed_in CSRF_HEADER = Some header_csrf /\ cookie signed_in CSRF_COOKIE = Some cookie_csrf /\
       hash first32 header_csrf = hash first32 cookie_csrf /\
       hash first32 header_csrf = hash first32 (last_given first32 (hash first32 token) csrf after)).
Proof.
  exact (session_authorized first32 demo_config first32_length evening signed_in true (Some CONTROL_SCOPE) 30 30
    ltac:(vm_compute; reflexivity)).
Defined.

(** The browser has lost its CSRF cookie and asks for another one. *)
Definition lost_csrf : list (text * option text) := [(str "cookie", Some (str "iptv_session=s1"))].
Definition again : list (text * option text) :=
  [(str "cookie", Some (str "iptv_session=s1; iptv_csrf=c2")); (CSRF_HEADER, Some (str "c2"))].
Definition night : list AuthOp :=
  [OpLogout api_client; OpEnsureCsrf lost_csrf (10 * 3600 * SECOND) (Some (str "c2")); OpVerify visitor (11 * 3600 * SECOND)].

Lemma session_lasts_witness :
  let entered := snd (authorize_with_scope first32 demo_config
                        (auth_run first32 demo_config auth_new ([OpEnsureCsrf [] 0 (Some (str "c0"))] ++ issue :: night))
                        again true (Some CONTROL_SCOPE) (12 * 3600 * SECOND) 0) in
  is_Some entered /\ (false = false -> bearer_token again = None -> entered = Some BySession).
Proof.
  exact (session_lasts first32 demo_config first32_length [OpEnsureCsrf [] 0 (Some (str "c0"))]
    (Some (LoginBinding (hash first32 (str "c0")))) ana (str "s1") (str "c1") 10 night again true (Some CONTROL_SCOPE)
    (12 * 3600 * SECOND) 0 ltac:(vm_compute; reflexivity)
    ltac:(repeat constructor; vm_compute; (discriminate || tauto)) ltac:(vm_compute; reflexivity) ltac:(vm_compute; reflexivity)
    ltac:(intros _; exists (str "c2"); vm_compute; tauto)).
Defined.
(** The token of the sign-in is not valid any more. *)
Example old_csrf_refused :
  snd (authorize_with_scope first32 demo_config
         (auth_run first32 demo_config auth_new ([OpEnsureCsrf [] 0 (Some (str "c0"))] ++ issue :: night))
         signed_in true (Some CONTROL_SCOPE) (12 * 3600 * SECOND) 0) = None.
Proof. vm_compute. reflexivity. Qed.

Definition visited : AuthState := auth_run first32 demo_config auth_new [OpEnsureCsrf [] 0 (Some (str "c0"))].
Definition ana_verified : VerifiedLogin := mkVerifiedLogin (LoginBinding (hash first32 (str "c0"))) ana.

Lemma login_verified_witness :
  binding_valid first32 visited visitor 5 (vl_csrf_binding ana_verified) /\
  0 < utf8_len (str "secret") <= 1024 /\
  if bool_decide (str "ana" = ADMIN_USERNAME)
  then vl_user ana_verified = built_in_operator /\ demo_fits (ac_password_hash demo_config) (str "secret") = true
  else exists credential, Some ana_stored = Some credential /\ su_username (uc_user credential) = str "ana" /\
         vl_user ana_verified = uc_user credential /\ demo_fits (uc_password_hash credential) (str "secret") = true.
Proof.
  exact (login_verified first32 demo_config first32_length demo_fits visited visitor (str "ana") (str "secret") (Some ana_stored) 5
    true ana_verified ltac:(vm_compute; reflexivity) ltac:(vm_compute; discriminate)).
Defined.

Lemma operator_token_authorized_witness :
  exists token record before op after,
    bearer_token api_client = Some token /\ ot_token_hash record = hash first32 token /\
    evening = before ++ op :: after /\ grants_token record op /\ Forall (fun op => ~ takes_token record op) after /\
    unexpired 999 record = true /\ scope_allowed (ot_scopes record) (Some READ_SCOPE) = true.
Proof.
  exact (operator_token_authorized first32 demo_config evening api_client true (Some READ_SCOPE) 999 999
    ltac:(vm_compute; reflexivity)).
Defined.

Lemma bootstrap_disabled_for_good_witness :
  snd (authorize_with_scope first32 demo_config (auth_run first32 demo_config auth_new [OpDisableBootstrap; issue])
         [(str "authorization", Some (str "Bearer boot"))] false None 20 20) <> Some ByBearer.
Proof.
  exact (bootstrap_disabled_for_good first32 demo_config [OpDisableBootstrap; issue]
    [(str "authorization", Some (str "Bearer boot"))] false None 20 20 ltac:(by left)).
Defined.

(** ** Settings *)

Definition demo_overrides : SettingOverrides :=
  mkSettingOverrides {[str "media.adapter" := JString (str "vlc")]} {[str "events.inferred_duration_seconds" := JInteger 600]}
    {[str "events.inferred_duration_seconds" := JInteger 900]}.
Definition demo_settings : list EffectiveSetting :=
  Eval vm_compute in
    match resolve_settings demo_overrides (str "p") (str "g") with Ok settings => settings | Err _ => [] end.
Lemma demo_settings_resolve : resolve_settings demo_overrides (str "p") (str "g") = Ok demo_settings.
Proof. vm_compute. reflexivity. Qed.

Lemma settings_resolve_witness :
  List.map es_definition demo_settings = setting_catalog /\
  Forall (fun s => (es_value s, es_inherited_from s) = nearest demo_overrides (str "p") (str "g") (es_definition s) /\
                   value_fits (es_definition s) (es_value s)) demo_settings /\
  (forall key, is_Some (so_global demo_overrides !! key) \/ is_Some (so_provider demo_overrides !! key) \/
     is_Some (so_group demo_overrides !! key) ->
     exists s, s ∈ demo_settings /\ sd_key (es_definition s) = key /\
       (is_Some (so_group demo_overrides !! key) -> sd_group_overridable (es_definition s) = true)).
Proof. exact (settings_resolve demo_overrides (str "p") (str "g") demo_settings demo_settings_resolve). Defined.

Lemma scan_settings_in_range_witness :
  inferred_duration_seconds (from_settings demo_settings) = 900 /\
  300 <= inferred_duration_seconds (from_settings demo_settings) <= 86400 /\
  ended_title (from_settings demo_settings) <> [] /\ upcoming_prefix (from_settings demo_settings) = str "Upcoming".
Proof.
  split; [vm_compute; reflexivity|].
  exact (scan_settings_in_range demo_overrides (str "p") (str "g") demo_settings demo_settings_resolve).
Defined.
