(* ===== verification/IngestWitness.v ===== *)
(** * Ingestions in the small

    Concrete inputs for the theorems on downloads, staged rows, XMLTV and Xtream
    documents, the snapshot store and the run of an ingestion: the parameters are
    instantiated by small functions, and the hypotheses are evaluated. *)
From Stdlib Require Import ZArith Lia Floats.SpecFloat.
From stdpp Require Import base numbers option strings.
From stdpp Require Import list gmap.
From S2P Require Import Prelude Text Hls M3u M3uSpec Events EventGuide Artifact Staging Settings Xmltv XmltvSpec.
From S2P Require Import Xtream XtreamSpec XtreamEndpoints Ingest Prepare IngestSpec Store StoreSpec PrepareSpec IngestRun IngestRunSpec.
Open Scope Z_scope.
Open Scope relay_scope.

(** ** Parameters *)

#[local] Instance plain_urls : Urls text := {
  url_parse s := if starts_with (str "http://") s then Some s else None;
  url_join base s := Some (if starts_with (str "http://") s then s else base ++ str "/" ++ s);
  url_scheme _ := str "http";
  url_username _ := [];
  url_password _ := None;
  url_host_str s := Some s;
  url_path s := s;
  url_fragment _ := None;
  url_as_str s := s
}.

#[local] Instance utc_chrono : Chrono unit := {
  tz_from_str s := if bool_decide (s = str "UTC") then Some tt else None;
  tz_name _ := str "UTC";
  local_date _ instant := instant / nanos_of_seconds seconds_per_day;
  from_local_datetime _ naive := LocalSingle (nanos_of_seconds (fst naive * seconds_per_day + snd naive));
  from_ymd_opt year month day := Some (year * 372 + month * 31 + day);
  date_year _ := 2024;
  succ_opt date := Some (date + 1);
  from_hm_opt hour minute := Some (hour * 3600 + minute * 60);
  parse_datetime _ _ := None;
  parse_naive_datetime _ _ := None;
  parse_naive_date _ _ := None;
  utc_min := nanos_of_seconds (- 8334601228800);
  utc_max := nanos_of_seconds 8210266876799;
  date_to_string _ := str "date";
  naive_to_string _ := str "local time";
  to_rfc3339 _ := str "instant"
}.

(** A digit as JSON. *)
#[local] Instance digit_rows : JsonRows Z := {
  to_json n := if (0 <=? n) && (n <=? 9) then Some [0x30 + n] else None;
  from_json s := match s with [c] => Some (c - 0x30) | _ => None end
}.
#[local] Instance digit_laws : JsonLaws Z.
Proof.
  split; cbn; intros n encoded; destruct ((0 <=? n) && (n <=? 9)) eqn:Hn; try done; intros [= <-];
    apply andb_true_iff in Hn as [H1%Z.leb_le H2%Z.leb_le].
  - unfold zlen, i64_max. cbn. lia.
  - intros Hin. apply list_elem_of_singleton in Hin. lia.
  - exists [0x30 + n]. assert (n ∈ [0; 1; 2; 3; 4; 5; 6; 7; 8; 9]) as Hc by (repeat (rewrite elem_of_cons); lia).
    repeat (apply elem_of_cons in Hc as [->|Hc]; [by vm_compute|]). by apply elem_of_nil in Hc.
Defined.

(** ** Downloads *)

Definition demo_limits : ArtifactLimits := mkArtifactLimits 1000 1000.
Definition demo_hex (b : bytes) : text := str "sum" ++ b.

Lemma download_is_body_witness :
  snd (download_stream demo_hex true [mkTurn 1 (PolledChunk (str "ab") true); mkTurn 2 (PolledChunk (str "c") true); mkTurn 3 (PolledEnd true)]
         (Some 3) None demo_limits 10) =
    Some (Ok (mkDownloadedArtifact (str "abc") 3 (str "sumabc") None)).
Proof.
  apply (proj2 (download_is_body demo_hex _ (Some 3) None demo_limits 10 _ ltac:(vm_compute; split; congruence))).
  split; [intros length [= <-]; vm_compute; congruence|].
  exists [(1, str "ab"); (2, str "c")], 3, []. split_and!; try reflexivity.
  - repeat constructor.
  - vm_compute. congruence.
Defined.

(** ** Staged rows *)

Definition good_disk : Disk := mkDisk true (fun _ _ => true).
Definition demo_pushes : list (Disk * Z) := [(good_disk, 7); (good_disk, 8); (good_disk, 9)].

(** Two rows fit in memory, the third goes to the file. *)
Definition demo_staged : StagedRows Z := Eval vm_compute in fst (staged_run (with_spool_limit 2 100) demo_pushes).
Lemma demo_staged_ok : staged_run (with_spool_limit 2 100) demo_pushes = (demo_staged, Ok tt).
Proof. vm_compute. reflexivity. Qed.
Lemma staged_rows_read_back_witness :
  sg_spool demo_staged = Some [55; 10; 56; 10; 57; 10] /\
  exists bs, read_batches 4 (batches demo_staged 2) = Some (Ok bs) /\ concat bs = [7; 8; 9].
Proof.
  split; [reflexivity|].
  destruct (staged_rows_read_back 2 100 demo_pushes demo_staged 2 demo_staged_ok) as [(bs & Hread & Hrows & _) _].
  exists bs. split; [exact Hread|exact Hrows].
Defined.

(** ** XMLTV *)

Definition clock_of (hour minute second : Z) : option Z :=
  if (hour <=? 23) && (minute <=? 59) && (second <=? 59) then Some (hour * 3600 + minute * 60 + second) else None.

Lemma timestamps_read_back_witness :
  parse_xmltv_timestamp_in_timezone clock_of (str "20240102030405 -0430") (str "UTC") =
    Ok (mkXmltvTimestamp (nanos_of_seconds ((2024 * 372 + 31 + 2) * seconds_per_day + 11045 + 16200)) PSecond (-16200) false
          (str "20240102030405 -0430")).
Proof.
  exact (proj1 (timestamps_read_back (Tz := unit) clock_of 2024 1 2 3 4 5 (2024 * 372 + 31 + 2) 11045 true 4 30 (str "UTC")
    ltac:(lia) ltac:(lia) ltac:(lia) ltac:(lia) ltac:(lia) ltac:(lia) ltac:(lia) ltac:(lia) eq_refl eq_refl)).
Defined.

Definition no_url (s : text) : option text := if starts_with (str "http://") s then Some s else None.
Definition small_parse_limits : ParseLimits := mkParseLimits 1000 100 10 100 4.
Definition guide_json (p : Programme text) : option bytes := Some (pr_channel_id p).
Definition guide_programme : XmlEvent :=
  XEmpty (str "programme") [Ok (str "channel", Ok (str "one")); Ok (str "start", Ok (str "202401020300"));
                            Ok (str "stop", Ok (str "202401020400"))].
Definition guide_input : XmlInput :=
  mkXmlInput
    [(10, Ok (XStart (str "tv") [])); (20, Ok (XEmpty (str "channel") [Ok (str "id", Ok (str "one"))]));
     (30, Ok (XEmpty (str "channel") [])); (40, Ok guide_programme); (50, Ok guide_programme); (90, Ok (XEnd (str "tv")))] 95.
Definition read_guide := parse_xmltv_visit (Tz := unit) no_url clock_of Ok guide_json id log_channel log_programme guide_input
  small_parse_limits (str "UTC") [].
Definition guide_log := Eval vm_compute in fst read_guide.
Definition guide_document : XmltvDocument := Eval vm_compute in match snd read_guide with Ok d => d | Err _ => document_default end.
Lemma guide_reads : read_guide = (guide_log, Ok guide_document).
Proof. vm_compute. reflexivity. Qed.
(** A channel and a programme are read; a channel has no identifier, and a
    programme comes twice. *)
Lemma xmltv_accounts_witness :
  zlen guide_log = 2 /\ records_skipped (xd_stats guide_document) = 2 /\
  records_emitted (xd_stats guide_document) = zlen guide_log /\ NoDup (fingerprints guide_json id guide_log).
Proof.
  split_and!; [reflexivity|reflexivity|..];
    apply (xmltv_accounts (Tz := unit) no_url clock_of Ok guide_json id guide_input small_parse_limits (str "UTC") _ _ guide_reads).
Defined.

(** ** Keys of playlists *)

Definition titled (title url : string) : M3uEntry text := mkM3uEntry None (str title) ∅ (str url) [] None.
Lemma short_no_marker key : (length key < 11)%nat -> no_marker key.
Proof. intros Hlen before after ->. rewrite !length_app in Hlen. cbn in Hlen. lia. Qed.
Definition ascii_letter (c : Z) : bool := (0x61 <=? c) && (c <=? 0x7a).

Lemma stable_keys_distinct_witness :
  let entries := [titled "a" "http://one"; titled "b" "http://two"; titled "a" "http://three"] in
  let renewed := [titled "a" "http://four"; titled "b" "http://five"; titled "a" "http://six"] in
  playlist_keys ascii_letter (fun c => [c]) ∅ entries = [str "m3u:::a"; str "m3u:::b"; str "m3u:::a:duplicate-1"] /\
  NoDup (playlist_keys ascii_letter (fun c => [c]) ∅ entries) /\
  playlist_keys ascii_letter (fun c => [c]) ∅ renewed = playlist_keys ascii_letter (fun c => [c]) ∅ entries.
Proof.
  split; [vm_compute; reflexivity|]. apply stable_keys_distinct.
  - repeat constructor; apply short_no_marker; vm_compute; lia.
  - vm_compute. congruence.
  - repeat constructor.
Defined.

(** ** Xtream *)

Definition one_document (document : Value) (body : bytes) : option Value := if bool_decide (body = str "{}") then Some document else None.
Definition no_float (f : spec_float) : text := [].
Definition demo_streams : Value :=
  JArray [JObject [(str "stream_id", JInteger 7); (str "name", JString (str "News"))]; JObject [(str "name", JString (str "Lost"))]].
Definition braces : BufReader := [Ok (str "{"); Ok (str "}")].
Definition read_streams :=
  parse_xtream_live_streams (Tz := unit) (Url := text) (one_document demo_streams) no_float braces small_parse_limits.
Definition demo_streams_read : XtreamDocument (XtreamLiveStream text) := Eval vm_compute in
  match read_streams with Ok d => d | Err _ => new_document 0 0 end.
Lemma xtream_accounts_witness :
  List.map xl_name (xt_records demo_streams_read) = [str "News"] /\ records_skipped (xt_stats demo_streams_read) = 1 /\
  accounts (XtreamSpec.stream_ok small_parse_limits) small_parse_limits demo_streams_read.
Proof.
  split_and!; [reflexivity|reflexivity|].
  apply (xtream_accounts (Tz := unit) (one_document demo_streams) no_float (fun _ => None) (fun _ => None) (fun _ => None)
           braces small_parse_limits (str "UTC")); [vm_compute; congruence|vm_compute; reflexivity].
Defined.

Definition demo_account : Value :=
  JObject [(str "user_info", JObject [(str "auth", JInteger 1); (str "api_token", JString (str "hidden")); (str "note", JString (str "kept"))])].
Definition demo_account_read : XtreamDocument (XtreamAuth text) := Eval vm_compute in
  match parse_xtream_auth (Tz := unit) (Url := text) (one_document demo_account) no_float braces small_parse_limits with
  | Ok d => d | Err _ => new_document 0 0 end.
Lemma demo_account_reads :
  parse_xtream_auth (Tz := unit) (Url := text) (one_document demo_account) no_float braces small_parse_limits = Ok demo_account_read.
Proof. vm_compute. reflexivity. Qed.
Lemma account_without_credentials_witness :
  exists account, xt_records demo_account_read = [account] /\ xa_metadata account !! str "user.note" = Some (str "kept") /\
    map_Forall (fun _ s => utf8_len s <= 100) (xa_metadata account).
Proof.
  destruct (account_without_credentials (Tz := unit) (Url := text) _ _ _ _ _ demo_account_reads) as (account & Hrecords & Hfields).
  exists account. split_and!; [exact Hrecords| |].
  - vm_compute in Hrecords. injection Hrecords as <-. vm_compute. reflexivity.
  - intros k s Hk. exact (proj2 (Hfields k s Hk)).
Defined.

(** A URL is its path and its query. *)
Definition PathUrl : Type := list text * list (text * text).
#[local] Instance path_urls : Urls PathUrl := {
  url_parse s := Some ([s], []);
  url_join base s := Some (fst base ++ [s], []);
  url_scheme _ := str "http";
  url_username _ := [];
  url_password _ := None;
  url_host_str _ := Some (str "host");
  url_path u := concat (fst u);
  url_fragment _ := None;
  url_as_str u := concat (fst u)
}.
#[local] Instance path_edits : UrlEdits PathUrl := {
  url_pairs := snd;
  url_segments u := Some (fst u);
  without_query u := (fst u, []);
  without_fragment u := u;
  append_pair u k v := (fst u, snd u ++ [(k, v)]);
  push_segment u s := (fst u ++ [s], snd u);
  pop_segment u := (removelast (fst u), snd u)
}.
#[local] Instance path_edit_laws : UrlEditLaws PathUrl.
Proof. by split. Defined.
Definition saved_url : PathUrl := ([PLAYER_API_FILE], [(str "username", str "me"); (str "password", str "secret")]).
Definition saved_endpoints : XtreamEndpoints PathUrl := Eval vm_compute in
  match from_url saved_url with
  | Ok e => e
  | Err _ => mkXtreamEndpoints saved_url saved_url saved_url (mkXtreamStreamEndpointTemplate saved_url [] [] []) (public_endpoints saved_url)
  end.
Lemma saved_url_reads : from_url saved_url = Ok saved_endpoints.
Proof. vm_compute. reflexivity. Qed.
Lemma credentials_stay_in_requests_witness :
  url_pairs (dr_endpoint (live_streams_request saved_endpoints)) =
    [(str "username", str "me"); (str "password", str "secret"); (str "action", str "get_live_streams")] /\
  public_endpoints ([PLAYER_API_FILE], [(str "username", str "you")]) = xn_public saved_endpoints.
Proof.
  destruct (credentials_stay_in_requests saved_url saved_endpoints saved_url_reads)
    as (username & password & _ & _ & Hu & Hp & _ & _ & Hstreams & _ & Hpublic).
  split; [|by apply Hpublic]. rewrite Hstreams. by injection Hu as <-; injection Hp as <-.
Defined.

(** ** The store *)

(** Rows that never leave the memory. *)
Definition unwritten {T} : JsonRows T := {| to_json _ := None; from_json _ := None |}.
Lemma unwritten_laws T : @JsonLaws T unwritten.
Proof. by split. Qed.
#[local] Instance stream_json : JsonRows PreparedProviderStream := unwritten.
#[local] Instance channel_json : JsonRows PreparedEpgChannel := unwritten.
#[local] Instance programme_rows_json : JsonRows PreparedProgramme := unwritten.
#[local] Instance stream_laws : JsonLaws PreparedProviderStream := unwritten_laws _.
#[local] Instance channel_laws : JsonLaws PreparedEpgChannel := unwritten_laws _.
#[local] Instance programme_laws : JsonLaws PreparedProgramme := unwritten_laws _.

Definition account_database : Database := mkDatabase [] [] [] [] [] [1] [] [].
Lemma account_database_inv : store_inv account_database.
Proof.
  split; [|split; constructor]. apply (bool_decide_unpack (Constraints account_database)). vm_compute. exact I.
Qed.

Definition one_stream : PreparedProviderStream :=
  mkPreparedProviderStream 20 (str "m3u:::a") None (str "a") None None None None None (mkProtectedEndpoint (str "http://one") None)
    JNull JNull true.
Definition in_memory {T} (rows : list T) : StagedRows T := mkStagedRows 1000 1000 0 (zlen rows) rows None.
Definition one_snapshot (id : Z) (checksum : string) (stream : PreparedProviderStream) : PreparedSnapshot :=
  mkPreparedSnapshot id (ProviderAccount 1) FormatM3u (str checksum) 100 1 0 (JArray []) (in_memory [stream]) (in_memory []) (in_memory []).
Definition first_snapshot : PreparedSnapshot := one_snapshot 10 "sum1" one_stream.
Lemma one_snapshot_self_contained id checksum stream : self_contained (one_snapshot id checksum stream).
Proof. constructor. Qed.

Definition calm : StoreEnv := mkStoreEnv (fun _ => Works) (fun _ => Ok tt) 5 50.
Definition broken (call : nat) : StoreEnv :=
  mkStoreEnv (fun n => if bool_decide (n = call) then Fails else Works) (fun _ => Ok tt) 5 50.
Definition served_database : Database := Eval vm_compute in fst (fst (transact (activate_with_progress first_snapshot) calm account_database)).
Lemma served_run : exists reports, transact (activate_with_progress first_snapshot) calm account_database = (served_database, reports, Ok 10).
Proof. eexists. vm_compute. reflexivity. Qed.
Lemma activation_atomic_witness : publishes (Some 1, None, "m3u"%string) (activation_shows first_snapshot account_database) account_database served_database.
Proof.
  destruct served_run as [reports Hrun].
  exact (proj2 (activation_atomic first_snapshot account_database calm served_database reports (Ok 10) account_database_inv
                  (one_snapshot_self_contained _ _ _) Hrun)).
Defined.

(** A second snapshot is staged, activated and replaced; the last activation
    fails at its fourth call. *)
Definition demo_text (id : Z) : text := decimal id.
Definition with_id (id : Z) (s : PreparedProviderStream) : PreparedProviderStream :=
  mkPreparedProviderStream id (ps_stable_key s) None (ps_name s) None None None None None (ps_endpoint s) JNull JNull true.
Definition catalogue_ops : list (StoreEnv * StoreOp) :=
  [(calm, OpStage first_snapshot); (calm, OpActivateStaged 10);
   (calm, OpActivate (one_snapshot 11 "sum2" (with_id 21 one_stream)));
   (broken 4, OpActivate (one_snapshot 12 "sum3" (with_id 22 one_stream)))].
Lemma catalogue_ops_ok : Forall (fun '(_, op) => op_ok op) catalogue_ops.
Proof. repeat constructor. Qed.
Definition demo_after : Database := store_run demo_text None catalogue_ops account_database.
Lemma store_refines_catalogue_witness :
  sh_id <$> published demo_after (Some 1, None, "m3u"%string) = Some 11 /\
  catalogue_run (List.map snd catalogue_ops) account_database demo_after.
Proof.
  split; [vm_compute; reflexivity|].
  exact (store_refines_catalogue demo_text None catalogue_ops account_database account_database_inv catalogue_ops_ok).
Defined.

Lemma served_inv : store_inv served_database.
Proof.
  split_and!; [|repeat constructor|constructor].
  apply (bool_decide_unpack (Constraints served_database)). vm_compute. exact I.
Qed.
Lemma sources_stay_served_witness :
  let after := store_run demo_text None catalogue_ops served_database in
  store_inv after /\ is_Some (published after (Some 1, None, "m3u"%string)).
Proof.
  destruct (sources_stay_served demo_text None catalogue_ops served_database served_inv catalogue_ops_ok) as [Hinv Hserved].
  split; [exact Hinv|]. apply Hserved. vm_compute. eexists. reflexivity.
Defined.

(** ** A run *)

#[local] Instance PathUrl_eq_dec : EqDecision PathUrl.
Proof. unfold PathUrl. solve_decision. Defined.
Definition all_pairs (m : gmap text Z) : list (text * Z) := map_to_list m.
Lemma all_pairs_all m x id : m !! x = Some id -> (x, id) ∈ all_pairs m.
Proof. intros Hx. by apply elem_of_map_to_list. Qed.
Definition plain_endpoint (u : PathUrl) : result ProtectedEndpoint IngestError := Ok (mkProtectedEndpoint (url_as_str u) None).
Definition channel_list : bytes := str "#EXTM3U" ++ [10] ++ str "#EXTINF:-1,a" ++ [10] ++ str "http://one" ++ [10].
Definition answered : HttpAnswer := Answered 200 None [mkTurn 1 (PolledChunk channel_list true); mkTurn 2 (PolledEnd true)].
Definition willing : JobEnv :=
  mkJobEnv (fun _ => Ok tt) answered answered (fun _ => true) (fun _ => true) (fun _ => 1) [] (fun _ => true) true (fun _ => true)
    (fun _ => Works) 5 50.
Definition list_request : IngestRequest PathUrl :=
  mkIngestRequest _ (ProviderAccount 1) FormatM3u (download_request ([str "list"], [])) (str "UTC") None ∅.
Definition no_json (_ : Programme PathUrl) : option bytes := None.
Definition idle_state : JobState := mkJobState account_database [].
Abbreviation small_run activator :=
  (run (Tz := unit) ascii_letter (fun c => [c]) plain_endpoint (fun n => Z.of_nat n) (fun _ => good_disk) clock_of Ok no_json id all_pairs
    (one_document JNull) no_float (fun _ => None) (fun _ => None) (fun _ => None) no_float demo_hex (fun _ => []) (fun _ => [])
    (fun _ => None) (fun b => [Ok b]) (fun _ => mkXmlInput [] 0) activator demo_limits small_parse_limits list_request willing idle_state).
Definition run_state : JobState := Eval vm_compute in fst (small_run pg_activator).
Definition run_result : IngestResult := Eval vm_compute in
  match snd (small_run pg_activator) with Some (Ok done) => done | _ => mkIngestResult 0 [] 0 0 0 end.
Lemma small_run_ends : small_run pg_activator = (run_state, Some (Ok run_result)).
Proof. vm_compute. reflexivity. Qed.

Lemma run_hands_over_once_witness :
  rs_records run_result = 1 /\
  activated_run pg_activator willing (ready demo_hex willing list_request) idle_state run_state (Ok (rs_snapshot_id run_result)).
Proof.
  split; [reflexivity|].
  exact (run_hands_over_once (Tz := unit) ascii_letter (fun c => [c]) plain_endpoint (fun n => Z.of_nat n) (fun _ => good_disk) clock_of Ok
    no_json id all_pairs all_pairs_all (one_document JNull) no_float (fun _ => None) (fun _ => None) (fun _ => None) no_float demo_hex
    (fun _ => []) (fun _ => []) (fun _ => None) (fun b => [Ok b]) (fun _ => mkXmlInput [] 0) pg_activator demo_limits small_parse_limits
    willing list_request idle_state run_state (Some (Ok run_result)) small_run_ends).
Defined.

