(* ===== verification/JobsWitness.v ===== *)
(** * Job queues in the small

    Concrete queues for the theorems on jobs, and runs that show what the queue
    does not promise. *)
From Stdlib Require Import ZArith Lia.
From stdpp Require Import base numbers option strings.
From stdpp Require Import list.
From S2P Require Import Prelude Text Sort Events Settings Redact Xtream Store Jobs JobsSpec.
Open Scope Z_scope.
Open Scope relay_scope.

(** Identifiers are their decimal text. *)
Definition demo_json_text (value : Value) : text := [].
Definition demo_parse_uuid (s : text) : option Z := if bool_decide (s = str "1") then Some 1 else None.
Abbreviation demo_run := (queue_run demo_json_text decimal demo_parse_uuid).
Abbreviation demo_inv := (queue_inv demo_json_text).

Definition at_second (n : Z) : QueueEnv := mkQueueEnv (n * SECONDS) (n * SECONDS) (fun k => 1000 * n + Z.of_nat k).
Definition call_at (n : Z) (op : QueueOp) : Call := mkCall (at_second n) Works op.
Definition no_row : Z -> bool := fun _ => false.

(** A refresh that waits, and two accounts. *)
Definition demo_job : JobRow := new_row (at_second 1) 1 "refresh-source" 0 (source_payload decimal 5) 3 (1 * SECONDS).
Definition demo_queue : JobTables :=
  mkJobTables [demo_job] [] [] [] [] [] [] [mkRefreshSource 5 true 3600 None None; mkRefreshSource 6 true 3600 None None] [].

Lemma demo_queue_inv : demo_inv demo_queue.
Proof.
  split; [apply (bool_decide_unpack _); by vm_compute|]. constructor; [|constructor].
  unfold job_ok, closed. cbn. split_and!; try done; split; try done; try (by intros []%is_Some_None); naive_solver.
Qed.

(** One worker dies, and a second takes over; the first one's answer comes too
    late, the job fails, waits for its turn and is claimed a third time. *)
Definition demo_calls : list Call :=
  [call_at 2 (OpClaim no_row (str "a")); call_at 3 (OpRefresh 5); call_at 100 (OpRecover 60); call_at 101 (OpClaim no_row (str "b"));
   call_at 102 (OpSucceed 1 (str "a")); call_at 103 (OpFail 1 (str "b") 2 3 (str "timeout")); call_at 104 (OpClaim no_row (str "a"));
   call_at 110 (OpClaim no_row (str "c"))].
Definition demo_third : JobRow := Eval vm_compute in default demo_job (find_job 1 (demo_run demo_calls demo_queue)).

Lemma jobs_follow_lifecycle_witness :
  demo_inv demo_queue /\ demo_inv (demo_run demo_calls demo_queue) /\
  (jb_attempts demo_third, jb_status demo_third, jb_locked_by demo_third) = (3, JobRunning, Some (str "c")).
Proof.
  split; [exact demo_queue_inv|split; [|by vm_compute]].
  exact (proj1 (proj2 (jobs_follow_lifecycle demo_json_text decimal demo_parse_uuid demo_calls demo_queue demo_queue_inv))).
Defined.

Lemma claims_bounded_witness :
  handed_out demo_json_text decimal demo_parse_uuid 1 demo_calls demo_queue = 3 /\
  exists r', find_job 1 (demo_run demo_calls demo_queue) = Some r' /\ jb_max_attempts r' = 3 /\
    jb_attempts r' = 0 + handed_out demo_json_text decimal demo_parse_uuid 1 demo_calls demo_queue /\
    0 + handed_out demo_json_text decimal demo_parse_uuid 1 demo_calls demo_queue <= 3.
Proof.
  split; [by vm_compute|].
  exact (claims_bounded demo_json_text decimal demo_parse_uuid demo_calls demo_queue 1 demo_job demo_queue_inv eq_refl).
Defined.

Definition demo_report : QueueOp := OpTouch 1 (str "c").
Definition demo_reported : JobTables := Eval vm_compute in
  match queue_op demo_json_text decimal demo_parse_uuid (at_second 111) demo_report (demo_run demo_calls demo_queue) with
  | Ok (db, _) => db | Err _ => demo_queue end.
Lemma demo_report_accepted :
  queue_op demo_json_text decimal demo_parse_uuid (at_second 111) demo_report (demo_run demo_calls demo_queue) = Ok (demo_reported, None).
Proof. by vm_compute. Qed.
Lemma demo_report_stale :
  queue_op demo_json_text decimal demo_parse_uuid (at_second 111) (OpTouch 1 (str "a")) (demo_run demo_calls demo_queue)
  = Err (JobOwnership 1 (str "a")).
Proof. by vm_compute. Qed.

Lemma lease_exclusive_witness :
  worker_call demo_report = Some (1, str "c") /\
  last_claim demo_json_text decimal demo_parse_uuid 1 demo_calls demo_queue None = Some (str "c").
Proof.
  split; [done|].
  apply (lease_exclusive demo_json_text decimal demo_parse_uuid demo_calls demo_queue (at_second 111) demo_report demo_reported None 1 (str "c")
           demo_queue_inv); [by repeat constructor|done|exact demo_report_accepted].
Defined.

(** The second worker begins to publish; a cancellation that looked at the job
    before comes after, another one later, and another source is deleted. *)
Definition demo_running : JobTables := Eval vm_compute in demo_run (take 4 demo_calls) demo_queue.
Definition demo_running_job : JobRow := Eval vm_compute in default demo_job (find_job 1 demo_running).
Lemma demo_running_inv : demo_inv demo_running.
Proof.
  replace demo_running with (demo_run (take 4 demo_calls) demo_queue) by (by vm_compute). apply queue_run_inv, demo_queue_inv.
Qed.
Definition seen (db : JobTables) (id : Z) : CancelTarget :=
  default (mkCancelTarget "" JNull false false) (cancel_target demo_json_text id db).
Definition demo_publishing : JobTables := Eval vm_compute in
  match begin_activation demo_json_text (at_second 102) 1 (str "b") demo_running with Ok (db, _) => db | Err _ => demo_queue end.
Lemma demo_begins : begin_activation demo_json_text (at_second 102) 1 (str "b") demo_running = Ok (demo_publishing, tt).
Proof. by vm_compute. Qed.
Definition demo_cancels : list Call :=
  [call_at 103 (OpCancel 1 (seen demo_running 1)); call_at 104 (OpCancel 1 (seen demo_publishing 1)); call_at 105 (OpCancelSync 1);
   call_at 105 (OpDeleteSource 6);
   call_at 106 (OpHeartbeat 1 (str "b") (JObject [(str "stage", JString (str "activation"))])); call_at 107 (OpSucceed 1 (str "b"))].

Lemma activation_excludes_cancellation_witness :
  jb_status demo_running_job <> JobCancelled /\
  exists r', find_job 1 (demo_run demo_cancels demo_publishing) = Some r' /\ jb_status r' <> JobCancelled.
Proof.
  apply (activation_excludes_cancellation demo_json_text decimal demo_parse_uuid demo_cancels demo_running (at_second 102) 1 (str "b")
           demo_running_job demo_publishing demo_running_inv); [by vm_compute|by vm_compute|exact I|exact demo_begins| |].
  - cbn [demo_cancels consistent_run]. split_and!; try exact I; intros r Hr; vm_compute in Hr; by injection Hr as <-.
  - repeat constructor; intros source Hs; try discriminate Hs. injection Hs as <-. by vm_compute.
Defined.

(** The deletion of its source cancels a refresh that has begun to publish. *)
Example deletion_cancels_publication :
  (fun r => (jb_status r, activation_locked demo_json_text r)) <$>
    find_job 1 (demo_run [call_at 103 (OpDeleteSource 5)] demo_publishing) = Some (JobCancelled, true).
Proof. by vm_compute. Qed.

(** A job without a parent is cancelled after it has begun to publish, when the
    cancellation looked at it before. *)
Definition epg_job : JobRow := new_row (at_second 1) 1 "refresh-xtream-short-epg" 0 (source_payload decimal 5) 3 (1 * SECONDS).
Definition epg_running : JobTables := Eval vm_compute in
  demo_run [call_at 2 (OpClaim no_row (str "a"))] (mkJobTables [epg_job] [] [] [] [] [] [] [] []).
Definition epg_calls : list Call := [call_at 3 (OpBeginActivation 1 (str "a")); call_at 4 (OpCancel 1 (seen epg_running 1))].
Example late_cancellation :
  (fun r => (jb_status r, activation_locked demo_json_text r)) <$> find_job 1 (demo_run epg_calls epg_running) = Some (JobCancelled, true).
Proof. by vm_compute. Qed.

(** A refresh that fails while it publishes keeps its mark, and cannot be
    cancelled while it waits for another attempt. *)
Definition retry_calls : list Call := [call_at 103 (OpFail 1 (str "b") 2 3 (str "timeout")); call_at 104 (OpCancelSync 1)].
Example retried_not_cancelled :
  jb_status <$> find_job 1 (demo_run retry_calls demo_publishing) = Some JobQueued /\
  cancel demo_json_text decimal demo_parse_uuid (at_second 105) 1 (demo_run retry_calls demo_publishing)
  = Ok (demo_run retry_calls demo_publishing, false).
Proof. split; by vm_compute. Qed.
