(* ===== verification/PublishWitness.v ===== *)
(** * Publications in the small

    A provider with two catalogues, one published after the other, and the
    roll-back to the first; two runs that show what the roll-back loses, and one
    in which a preparation blocks those behind it. *)
From Stdlib Require Import ZArith Lia.
From stdpp Require Import base numbers option strings relations.
From stdpp Require Import list.
From S2P Require Import Prelude Text Sort Events Settings Redact Xtream Ingest Store Jobs JobsSpec Publish PublishSpec PublishExact PublishRollback.
Open Scope Z_scope.
Open Scope relay_scope.

(** ** The program *)

Definition plain_json (value : Value) : text := [].
Definition no_uuid (s : text) : option Z := None.
Definition weight (key : text) : Z := foldr Z.add 0 key.
Definition channel_id_of (account : Z) (key : text) : Z := 1000000 * account + weight key.
Definition lighter (a b : text) : bool := weight a <? weight b.
Definition publish_at (n : Z) : PublishEnv :=
  mkPublishEnv (mkQueueEnv (n * SECONDS) (n * SECONDS) (fun k => 1000 * n + Z.of_nat k)) (fun k => decimal (100 * n + Z.of_nat k)).
Abbreviation a_step := (publish_step plain_json decimal decimal no_uuid (fun id => id) weight lighter channel_id_of).
Abbreviation a_create := (create_or_load_provider_reconciliation_run plain_json decimal weight).
Abbreviation a_partition := (process_provider_reconciliation_partition plain_json weight).
Abbreviation a_finalize := (finalize_provider_reconciliation plain_json decimal decimal (fun id => id) lighter channel_id_of).
Abbreviation a_rollback := (rollback_reconciliation plain_json).

(** ** The database *)

Definition tv_stream (id : Z) (name tvg_id : text) : PreparedProviderStream :=
  mkPreparedProviderStream id (decimal id) None name (Some (str "TV")) (Some tvg_id) None None None
    (mkProtectedEndpoint [] None) JNull JNull true.
Definition tv_snapshot (id count : Z) : SnapshotRow :=
  mkSnapshotRow id (Some 5) None "m3u" StatusStaging (decimal id) 0 count 0 JNull (Some 0) None.
Definition tv_store : Database :=
  mkDatabase [tv_snapshot 20 3; tv_snapshot 21 2; tv_snapshot 22 1]
    [mkStreamRow 20 5 (tv_stream 102 (str "News backup") (str "news")); mkStreamRow 20 5 (tv_stream 101 (str "News") (str "news"));
     mkStreamRow 20 5 (tv_stream 103 (str "Film") (str "film")); mkStreamRow 21 5 (tv_stream 201 (str "Film HD") (str "film"));
     mkStreamRow 21 5 (tv_stream 202 (str "Sport") (str "sport")); mkStreamRow 22 5 (tv_stream 301 (str "Sport") (str "sport"))]
    [] [] [] [5] [] [].
Definition tv_job (id : Z) (kind : string) : JobRow :=
  mkJobRow id kind JobRunning 0 JNull (JObject []) 1 3 0 (Some (str "a")) (Some 0) (Some 0) None 0 0 None.
Definition tv_queue : JobTables :=
  mkJobTables [tv_job 1 "refresh-source"; tv_job 2 "finalize-provider-reconciliation"] [] [] [] [] [] [] [] [].
Definition own_channel : CanonicalChannel := mkCanonicalChannel 7 (str "1") (str "Camera") None None true Manual None None 1.
Definition tv_catalog : Catalog := mkCatalog tv_store tv_queue [own_channel] [] [] [].

Definition done_of {A} (r : result (Catalog * A) PersistenceError) : Catalog := match r with Ok (db, _) => db | Err _ => tv_catalog end.
Definition tv_created : Catalog := Eval vm_compute in done_of (a_create (publish_at 1) 20 1 2 tv_catalog).
Definition tv_one : Catalog := Eval vm_compute in done_of (a_partition (publish_at 2) 1000 1 (str "b") None tv_created).
Definition tv_both : Catalog := Eval vm_compute in done_of (a_partition (publish_at 3) 1000 0 (str "a") None tv_one).
Definition tv_published : Catalog := Eval vm_compute in done_of (a_finalize (publish_at 4) 1000 1 2 None tv_both).
Definition tv_run : RunRow := Eval vm_compute in default (mkRunRow 0 0 0 None "" 0 0 0 0 None 0) (find_run 1000 (ca_queue tv_both)).

(** ** A publication *)

Lemma tv_before : before_runs tv_catalog.
Proof. split_and!; try done. apply (bool_decide_unpack _). by vm_compute. Qed.
Lemma tv_prepared : rtc a_step tv_catalog tv_both.
Proof.
  eapply rtc_l; [eapply (step_create _ _ _ _ _ _ _ _ (publish_at 1) 20 1 2 tv_catalog tv_created); by vm_compute|].
  eapply rtc_l; [eapply (step_partition _ _ _ _ _ _ _ _ (publish_at 2) 1000 1 (str "b") None tv_created tv_one); by vm_compute|].
  eapply rtc_l; [eapply (step_partition _ _ _ _ _ _ _ _ (publish_at 3) 1000 0 (str "a") None tv_one tv_both); by vm_compute|]. apply rtc_refl.
Qed.
Lemma tv_finalized : a_finalize (publish_at 4) 1000 1 2 None tv_both = Ok (tv_published, Published (mkReconcileStats 2 0 3)).
Proof. by vm_compute. Qed.
Lemma tv_fresh : fresh_ids channel_id_of 5 (canonical_keys (supported_streams 20 (ca_store tv_both))) (ca_channels tv_both).
Proof.
  assert (Forall (fun key => channel_id_of 5 key ∉ (cc_id <$> ca_channels tv_both)) (canonical_keys (supported_streams 20 (ca_store tv_both)))) as H
    by (apply (bool_decide_unpack _); by vm_compute).
  rewrite Forall_forall in H. intros key Hk _. by apply H.
Qed.

Lemma publication_exact_witness :
  List.map cc_name (ca_channels tv_published) = [str "Camera"; str "News"; str "Film"] /\
  List.map (fun l => (ln_provider_stream_id l, ln_priority l)) (ca_links tv_published) = [(101, 0); (102, 1); (103, 0)] /\
  PublicationOf decimal decimal channel_id_of (publish_at 4) 1000 5 20 (supported_streams 20 (ca_store tv_both)) tv_both tv_published.
Proof.
  split; [by vm_compute|split; [by vm_compute|]].
  exact (publication_exact plain_json decimal decimal no_uuid (fun id => id) weight lighter channel_id_of tv_catalog tv_both (publish_at 4) 1000 tv_run 1 2 None
           tv_published _ tv_before tv_prepared tv_finalized eq_refl tv_fresh).
Defined.

(** ** The second catalogue, and back *)

Definition tv_next : Catalog := Eval vm_compute in done_of (a_create (publish_at 5) 21 1 1 tv_published).
Definition tv_next_prepared : Catalog := Eval vm_compute in done_of (a_partition (publish_at 6) 5000 0 (str "a") None tv_next).
Definition tv_replaced : Catalog := Eval vm_compute in done_of (a_finalize (publish_at 7) 5000 1 2 None tv_next_prepared).
(** A recording refers to the channel with sport. *)
Definition recorded (id : Z) : bool := id =? channel_id_of 5 (str "sport").
Definition tv_back : Catalog := Eval vm_compute in done_of (a_rollback (publish_at 8) recorded 5 1 (str "admin") tv_replaced).

Lemma tv_steps : rtc a_step tv_catalog tv_replaced.
Proof.
  apply (transitivity tv_prepared).
  eapply rtc_l; [eapply (step_finalize _ _ _ _ _ _ _ _ (publish_at 4) 1000 1 2 None tv_both tv_published); by vm_compute|].
  eapply rtc_l; [eapply (step_create _ _ _ _ _ _ _ _ (publish_at 5) 21 1 1 tv_published tv_next); by vm_compute|].
  eapply rtc_l; [eapply (step_partition _ _ _ _ _ _ _ _ (publish_at 6) 5000 0 (str "a") None tv_next tv_next_prepared); by vm_compute|].
  eapply rtc_l; [eapply (step_finalize _ _ _ _ _ _ _ _ (publish_at 7) 5000 1 2 None tv_next_prepared tv_replaced); by vm_compute|]. apply rtc_refl.
Qed.
Lemma tv_rolled_back : a_rollback (publish_at 8) recorded 5 1 (str "admin") tv_replaced = Ok (tv_back, mkRollbackStats 1 0 2 3 0).
Proof. by vm_compute. Qed.

Lemma rollback_restores_witness :
  List.map cc_name (List.filter (automatic_of 5) (ca_channels tv_replaced)) = [str "Film HD"; str "Sport"] /\
  List.map cc_name (List.filter (automatic_of 5) (ca_channels tv_back)) = [str "Film"; str "News"] /\
  exists row, row ∈ ca_revisions tv_replaced /\ rv_account_id row = 5 /\ rv_revision row = 1 /\
    RestoredTo (publish_at 8) 5 (str "admin") (rv_after_value row) tv_replaced tv_back.
Proof.
  split; [by vm_compute|split; [by vm_compute|]].
  exact (rollback_restores plain_json decimal decimal no_uuid (fun id => id) weight lighter channel_id_of tv_catalog tv_replaced (publish_at 8) recorded 5 1
           (str "admin") tv_back _ tv_before tv_steps tv_rolled_back).
Defined.

(** ** What a roll-back loses *)

(** The channel with sport has left the provider and keeps its identifier: the
    next publication of its key retitles it and adds no channel. *)
Definition tv_again : Catalog := Eval vm_compute in
  done_of (a_finalize (publish_at 11) 9000 1 2 None
    (done_of (a_partition (publish_at 10) 9000 0 (str "a") None (done_of (a_create (publish_at 9) 22 1 1 tv_back))))).
Example detached_key_not_published :
  (forall row, List.find (fun r => sr_id r =? 22) (db_snapshots (ca_store tv_again)) = Some row -> sr_status row = StatusActive) /\
  List.filter (automatic_of 5) (ca_channels tv_again) = [].
Proof. split; [|by vm_compute]. intros row Hrow. vm_compute in Hrow. by injection Hrow as <-. Qed.

(** Two channels of the provider whose numbers were exchanged do not get them
    back. *)
Definition exchanged (c : CanonicalChannel) : CanonicalChannel :=
  let number := if bool_decide (cc_channel_number c = str "400") then str "401"
                else if bool_decide (cc_channel_number c = str "401") then str "400" else cc_channel_number c in
  mkCanonicalChannel (cc_id c) number (cc_name c) (cc_group_name c) (cc_logo_url c) (cc_enabled c) (cc_managed_by c) (cc_provider_account_id c)
    (cc_canonical_key c) (cc_revision c + 1).
Definition tv_exchanged : Catalog := Eval vm_compute in
  with_channels tv_published (List.map exchanged (ca_channels tv_published)) (ca_links tv_published) (ca_mappings tv_published).
Example exchanged_numbers_lost :
  List.map cc_channel_number (List.filter (automatic_of 5) (ca_channels tv_published)) = [str "400"; str "401"] /\
  List.map cc_channel_number
    (List.filter (automatic_of 5) (ca_channels (done_of (a_rollback (publish_at 8) recorded 5 1 (str "admin") tv_exchanged)))) = [str "400"; str "800"].
Proof. split; by vm_compute. Qed.

(** ** What a preparation blocks *)

(** A snapshot without a supported channel is refused, and the error ends the
    call: the next ones fail at the same entry, and what waits behind it is not
    prepared while its refresh is open. *)
Definition preparation (id snapshot : Z) : OutboxEntry :=
  mkOutboxEntry id 1 "prepare-provider-reconciliation" (JObject [(str "snapshotId", JString (decimal snapshot))]) 0 (decimal id) id None.
Definition read_id (s : text) : option Z := List.find (fun id => bool_decide (decimal id = s)) [20; 30].
Definition empty_first : Catalog :=
  mkCatalog (set_snapshots tv_store (tv_snapshot 30 0 :: db_snapshots tv_store)) (set_entries tv_queue [preparation 50 30; preparation 51 20]) [] [] [] [].
Definition dispatched_at (n : nat) (db : Catalog) : Catalog * result unit PersistenceError :=
  prepare_entries plain_json decimal read_id weight (fun k => publish_at (Z.of_nat (10 * n + k))) (preparations (ca_queue db)) db.
Example empty_snapshot_blocks :
  let first := dispatched_at 1 empty_first in
  let second := dispatched_at 2 (fst first) in
  snd first = Err (InvalidSource "staged provider snapshot contains no supported channels") /\
  snd second = Err (InvalidSource "provider snapshot is not ready for reconciliation") /\
  preparations (ca_queue (fst second)) = [preparation 50 30; preparation 51 20] /\ jt_runs (ca_queue (fst second)) = [].
Proof. by vm_compute. Qed.
